(* ===== verification/_CoqProject ===== *)
-Q . S2P
Prelude.v
Address.v
ByteTable.v
Trie.v
MTrie.v
Wire.v
Msg.v
MsgOwn.v
MsgSys.v
Codec.v
Encoder.v
Allocator.v
Decoder.v
V1Decoder.v
V2Decoder.v
Roundtrip.v
Z85.v
YQueue.v
YPipe.v
Mailbox.v
Array.v
PipeIface.v
Fq.v
Lb.v
Dist.v
Pipe.v
PipePair.v
PipeFlow.v
PipeHwm.v
PipeFindings.v
SubMsg.v
Mechanism.v
Zap.v
Greeting.v
Options.v
Handshake.v
Null.v
Plain.v
PlainAuth.v
PlainLogin.v
Curve.v
CurveExample.v
CurveMsg.v
CurveLogin.v
Own.v
Recv.v
Router.v
Rep.v
Dealer.v
Req.v
ReqRep.v
XPub.v
XSub.v
PubSub.v

