(* ===== verification/Prelude.v ===== *)
(** * A verification development for libzmq 4.3.1

    The core of libzmq, under src/zeromq-4.3.1/src/, as executable definitions
    with the theorems that make it correct.  This file is the root: it has what
    the others share.  File names below are relative to that directory.

    ** The program and its parts

    A socket ([socket_base_t]) is a pattern over message pipes.  A pipe
    ([pipe_t]) is a pair of endpoints joined by two lock-free queues ([ypipe_t]
    over [yqueue_t]); its other end is a socket of the same process (inproc) or
    a session.  A session gives an engine ([stream_engine_t]) the messages to
    encode for a stream and takes those it decodes; before that the engine runs a
    handshake, the greeting and then the commands of a security mechanism.
    Objects in different threads tell each other what happened by commands, which
    travel through mailboxes.  Here the parts are modelled from the data
    structures upwards and composed the way the code composes them.

    ** The files

    Data structures: [ByteTable], [Trie] (trie.cpp) and [MTrie]
    (generic_mtrie_impl.hpp), the subscription tries; [YQueue] (yqueue.hpp) and
    [YPipe] (ypipe.hpp), the queue of a pipe and its lock-free protocol; [Array]
    (array.hpp).

    Messages and the wire: [Wire] (wire.hpp); [Msg], [MsgOwn] and [MsgSys]
    (msg.cpp, metadata.cpp): the operations of [msg_t], the ownership of contents
    and programs over messages; [Codec], the specification of frames; [Encoder]
    (encoder.hpp, v1_encoder.cpp, v2_encoder.cpp, raw_encoder.cpp); [Allocator]
    (decoder_allocators.cpp); [Decoder], [V1Decoder] and [V2Decoder]
    (decoder.hpp, v1_decoder.cpp, v2_decoder.cpp, raw_decoder.cpp);
    [Roundtrip]; [Z85] (zmq_utils.cpp).

    Concurrency: [Mailbox] (mailbox.cpp, signaler.cpp); [Pipe], [PipePair],
    [PipeFlow], [PipeHwm] and [PipeFindings] (pipe.cpp, object.cpp); [Own]
    (own.cpp, object.cpp, and what the socket, the sessions, the listeners, the
    connecters and the context do with ownership): the tree of objects, its
    commands and its termination.

    Patterns: [PipeIface], the interfaces to pipes; [Fq] (fq.cpp), [Lb] (lb.cpp)
    and [Dist] (dist.cpp); [SubMsg] and [Recv], what several sockets share;
    [Router] (router.cpp, the routing table of socket_base.cpp), [Rep] (rep.cpp),
    [Dealer] (dealer.cpp, push.cpp, pull.cpp, pair.cpp), [Req] (req.cpp),
    [XPub] (xpub.cpp, pub.cpp), [XSub] (xsub.cpp, sub.cpp); [ReqRep] and [PubSub]
    put two of them together.

    Configuration: [Address] (ip_resolver.cpp, tcp_address.cpp, udp_address.cpp,
    and [parse_uri], [check_protocol] and the syntax check of tcp endpoints of
    socket_base.cpp); [Options] (options.cpp), the socket options.

    Handshake: [Greeting]
    (stream_engine.cpp), the greeting; [Mechanism] (mechanism.cpp), the metadata;
    [Zap] (zap_client.cpp, mechanism_base.cpp, the ZAP part of session_base.cpp);
    [Handshake] (stream_engine.cpp), an engine with a mechanism; [Null]
    (null_mechanism.cpp); [Plain] (plain_client.cpp, plain_server.cpp),
    [PlainAuth] and [PlainLogin]; [Curve] (curve_client.cpp, curve_server.cpp,
    curve_mechanism_base.cpp, curve_client_tools.hpp), [CurveMsg], [CurveLogin] and
    [CurveExample], concrete functions in place of the cryptographic ones.

    ** How the code is modelled

    A class is a record of its members, a method a function that returns the new
    record.  [None] of an [option] is a failed [zmq_assert], an access out of
    bounds or through a dangling pointer, or too little fuel; [rc] is a return
    code with its [errno].  Integers are [Z] with their wrap-around written out
    ([u8], [u32], [u64]).  Where pointers are shared the store is explicit: the
    chunks of a queue, the contents of messages, receive buffers, the pipes
    allocated.  Threads interleave at their atomic operations: [YPipe] and
    [Mailbox] split the operations there, [PipePair] delivers commands between
    two endpoints at any time.

    ** Interfaces

    [QueueLaws] is what [yqueue_t] promises to [ypipe_t]; [pspec], the
    specification of a lock-free pipe, is what [pipe_t] is built on
    ([YPipe.ypipe_refines] relates it to the code).  [InPipes], [OutPipes],
    [OutPipesNext], [DuplexPipes] and [TermPipes], with their laws, are what a
    pattern sees of its pipes: the theorems on patterns hold for every instance,
    and the instances [Lists] and [Duo] show that the laws can be met.  A pipe may
    refuse a part at any time, also in the middle of a message; only between two
    writes of the same call nothing can happen to it ([OutPipesNext], which
    [Pipe.write_next] proves of [pipe_t]).
    [DecoderLaws] is what a derived decoder owes to [decoder_base_t];
    [CryptoLaws] what NaCl owes to the CURVE mechanism; [Mechanism_t] is the virtual functions of a mechanism.

    ** What the theorems show

    - Functional correctness: the tries refine a multiset of keys and a relation
      between keys and pipes; the queue and the lock-free pipe refine a list with
      a flushed prefix, in every interleaving; what an encoder puts on the wire a
      decoder reads back, for every batch size and every split into reads;
      messages of pipes arrive in order and none is lost before the end, unless
      there is a hiccup; the socket options keep their types, and what is set is
      read back; an endpoint that is printed resolves to the same address.
    - Memory: message contents are freed exactly once, with their last reference;
      receive buffers are not used after they are freed; no pipe is used after it
      is deleted; no object is deleted while a command, a thread or a pipe refers
      to it, and all are deleted in the end.
    - Progress: a reader of a mailbox or a pipe with something to read is awake
      or being woken; the termination handshake of a pipe ends; a blocked writer
      is activated; fair queueing serves every pipe; the handshakes end.
    - Patterns: whole messages, to the right pipes, and what is left of a message
      that a pipe refuses half way; the alternation of requests
      and replies; a subscriber and its publisher agree on what matches.
    - Security: a PLAIN server is ready only after the ZAP handler accepted
      exactly the credentials of the peer; a CURVE login gives both sides the same
      key, and what is decrypted with it are messages that were encrypted, in order
      and each at most once.

    ** Fuel

    Loops of the code that end for a reason other than the structure of their
    data take fuel.  The theorems give an amount that is enough (the length of
    the input, the number of pipes, or of the parts that wait), and show that the
    result is then not [None]; none of them assumes that a function returns.

    ** Not modelled, and why

    Operating-system interfaces: the pollers, the tcp, ipc, udp, tipc, vmci, norm,
    pgm and socks transports, threads and clocks; the system's resolver is a
    parameter of [Address].  [socket_base_t], [session_base_t], [ctx_t] and the
    objects that start and stop threads, beyond the parts named above.  The functions of NaCl
    are a parameter of [Curve] ([Crypto], with their documented laws); the GSSAPI
    mechanism is a wrapper of a library.  The draft sockets, the radix
    tree, the timers and the C API are left for later; vendored code (tweetnacl,
    wepoll, unity), tests and build files are outside.
    The C++ memory model is taken as sequentially consistent at the atomic
    operations, and allocation is assumed to succeed unless a definition says
    otherwise. *)

From stdpp Require Export base option list numbers gmap.
From stdpp Require Export sorting.
From Stdlib Require Export ZArith Lia.

#[global] Open Scope Z_scope.

(** The hint database of the development. *)
Create HintDb zmq.

(** ** Aborts

    A C++ computation that can fail a [zmq_assert], dereference NULL or index
    a table out of its bounds is a value of [option]: [None] is the abort (or
    the undefined behaviour), [Some r] a normal return.  Sequencing is stdpp's
    [x ← m; k]. *)

Definition zmq_assert (b : bool) : option unit := if b then Some tt else None.

Lemma zmq_assert_true (b : bool) : b = true → zmq_assert b = Some tt.
Proof. by intros ->. Qed.

Lemma zmq_assert_Some (b : bool) u : zmq_assert b = Some u ↔ b = true.
Proof. destruct u, b; simpl; split; congruence. Qed.

(** ** Return codes: 0, or -1 with [errno] set. *)

Inductive errno : Type :=
| EAGAIN | EFAULT | EINVAL | ENOMEM | EPROTO | EMSGSIZE | EFSM | EHOSTUNREACH | ENOTSUP
| ENOTCONN | ECONNREFUSED | ENODEV | EOPNOTSUPP
| EPROTONOSUPPORT | ENOCOMPATPROTO.

#[export] Instance errno_eq_dec : EqDecision errno.
Proof. solve_decision. Defined.

Inductive rc : Type := RcOk | RcErr (e : errno).

#[export] Instance rc_eq_dec : EqDecision rc.
Proof. solve_decision. Defined.

(** ** Machine integers: an unsigned integer of [w] bits is a [Z] reduced
    modulo [2^w]. *)

Definition wrap (w z : Z) : Z := z mod 2 ^ w.
Abbreviation u8 := (wrap 8).
Abbreviation u16 := (wrap 16).
Abbreviation u32 := (wrap 32).
Abbreviation u64 := (wrap 64).

Lemma wrap_small w z : 0 ≤ z < 2 ^ w → wrap w z = z.
Proof. apply Z.mod_small. Qed.

Lemma wrap_range w z : 0 ≤ w → 0 ≤ wrap w z < 2 ^ w.
Proof. intros. apply Z.mod_pos_bound. by apply Z.pow_pos_nonneg. Qed.

Lemma u8_small z : 0 ≤ z < 256 → u8 z = z.
Proof. intros; unfold wrap; apply Z.mod_small; lia. Qed.
Lemma u16_small z : 0 ≤ z < 65536 → u16 z = z.
Proof. intros; unfold wrap; apply Z.mod_small; lia. Qed.
Lemma u32_small z : 0 ≤ z < 4294967296 → u32 z = z.
Proof. intros; unfold wrap; apply Z.mod_small; lia. Qed.
Lemma u64_small z : 0 ≤ z < 18446744073709551616 → u64 z = z.
Proof. intros; unfold wrap; apply Z.mod_small; lia. Qed.

(** ** Bytes *)

Definition byte_ok (b : Z) : Prop := 0 ≤ b < 256.
Abbreviation bytes_ok := (Forall byte_ok).

#[global] Instance byte_ok_dec b : Decision (byte_ok b).
Proof. unfold byte_ok. apply _. Defined.

(** ** Sets *)

Lemma singleton_union_nonempty {A} `{Countable A} (x : A) (s : gset A) : {[x]} ∪ s ≠ ∅.
Proof. set_solver. Qed.
#[export] Hint Resolve singleton_union_nonempty : zmq.

Lemma empty_difference {A} `{Countable A} (s : gset A) : ∅ ∖ s = ∅.
Proof. set_solver. Qed.

Lemma difference_absent {A} `{Countable A} (x : A) (s : gset A) : x ∉ s → s ∖ {[x]} = s.
Proof. set_solver. Qed.

(** ** Counting the elements of a list that satisfy a test *)

Section count.
Context {A : Type}.
Implicit Types (P : A → bool) (l : list A).

Definition b2z (b : bool) : Z := if b then 1 else 0.

Fixpoint count P l : Z :=
  match l with [] => 0 | x :: l => b2z (P x) + count P l end.

Lemma count_nonneg P l : 0 ≤ count P l.
Proof. induction l as [|x l IH]; simpl; [done|]. destruct (P x); simpl; lia. Qed.

Lemma count_le_length P l : count P l ≤ Z.of_nat (length l).
Proof. induction l as [|x l IH]; cbn -[Z.of_nat]; [done|]. destruct (P x); simpl b2z; lia. Qed.

Lemma count_insert P l i x y :
  l !! i = Some x → count P (<[i:=y]> l) = count P l - b2z (P x) + b2z (P y).
Proof.
  revert i. induction l as [|z l IH]; intros [|i] Hi; simplify_eq/=; [lia|].
  rewrite (IH i) by done. lia.
Qed.

Lemma count_ge_1 P l i x : l !! i = Some x → P x = true → 1 ≤ count P l.
Proof.
  intros Hi Hx. pose proof (count_nonneg P (delete i l)).
  revert i Hi H. induction l as [|z l IH]; intros [|i] Hi H; simplify_eq/=.
  - rewrite Hx. pose proof (count_nonneg P l). simpl. lia.
  - specialize (IH i Hi (count_nonneg _ _)). destruct (P z); simpl; lia.
Qed.

Lemma count_ge_2 P l i j x y :
  i ≠ j → l !! i = Some x → l !! j = Some y → P x = true → P y = true → 2 ≤ count P l.
Proof.
  revert i j. induction l as [|z l IH]; intros [|i] [|j] Hij Hi Hj Hx Hy; simplify_eq/=.
  - rewrite Hx. pose proof (count_ge_1 P l j y Hj Hy). simpl. lia.
  - rewrite Hy. pose proof (count_ge_1 P l i x Hi Hx). simpl. lia.
  - specialize (IH i j ltac:(lia) Hi Hj Hx Hy). destruct (P z); simpl; lia.
Qed.

Lemma count_0 P l i x : count P l = 0 → l !! i = Some x → P x = false.
Proof.
  intros H Hi. destruct (P x) eqn:E; [|done]. pose proof (count_ge_1 P l i x Hi E). lia.
Qed.

Lemma count_ext P Q l : (∀ x, x ∈ l → P x = Q x) → count P l = count Q l.
Proof.
  induction l as [|x l IH]; intros H; simpl; [done|].
  rewrite (H x) by left. f_equal. apply IH. intros. apply H. by right.
Qed.

Lemma count_app P l1 l2 : count P (l1 ++ l2) = count P l1 + count P l2.
Proof. induction l1 as [|x l IH]; simpl; [done|]. rewrite IH. lia. Qed.

Lemma count_replicate P n x : count P (replicate n x) = b2z (P x) * Z.of_nat n.
Proof. induction n as [|n IH]; [simpl; lia|]. cbn [count replicate]. rewrite IH. lia. Qed.

Lemma count_elem P l x : x ∈ l → P x = true → 1 ≤ count P l.
Proof. intros [i Hi]%list_elem_of_lookup. eauto using count_ge_1. Qed.

Lemma count_0_elem P l x : count P l = 0 → x ∈ l → P x = false.
Proof. intros H [i Hi]%list_elem_of_lookup. eauto using count_0. Qed.
End count.

Lemma elem_of_insert {A} (l : list A) i x y : x ∈ <[i:=y]> l → x = y ∨ x ∈ l.
Proof.
  intros [j Hj]%list_elem_of_lookup. apply list_lookup_insert_Some in Hj as [(-> & -> & _)|[_ Hj]].
  - by left.
  - right. by eapply list_elem_of_lookup_2.
Qed.

(** ** Tactics *)

(** Case analysis on the boolean comparisons of the goal, each turned into the
    proposition it decides. *)
Ltac zcase :=
  match goal with
  | |- context [(?a <? ?b)%Z] => destruct (Z.ltb_spec a b)
  | |- context [(?a <=? ?b)%Z] => destruct (Z.leb_spec a b)
  | |- context [(?a =? ?b)%Z] => destruct (Z.eqb_spec a b)
  end.

Ltac zcases := repeat (zcase; simpl; try lia).

(** The same on the hypotheses. *)
Ltac zcase_in H :=
  match type of H with
  | context [(?a <? ?b)%Z] =>
      revert H; destruct (Z.ltb_spec a b); intros H
  | context [(?a <=? ?b)%Z] =>
      revert H; destruct (Z.leb_spec a b); intros H
  | context [(?a =? ?b)%Z] =>
      revert H; destruct (Z.eqb_spec a b); intros H
  end; simpl in H; try lia.

(** Decide a boolean comparison of the goal by [lia]. *)
Ltac zdecide :=
  repeat match goal with
  | |- context [(?a <? ?b)%Z] =>
      first [ rewrite (proj2 (Z.ltb_lt a b)) by lia
            | rewrite (proj2 (Z.ltb_ge a b)) by lia ]
  | |- context [(?a <=? ?b)%Z] =>
      first [ rewrite (proj2 (Z.leb_le a b)) by lia
            | rewrite (proj2 (Z.leb_gt a b)) by lia ]
  | |- context [(?a =? ?b)%Z] =>
      first [ rewrite (proj2 (Z.eqb_eq a b)) by lia
            | rewrite (proj2 (Z.eqb_neq a b)) by lia ]
  end; simpl.

#[export] Hint Resolve wrap_range : zmq.

