(* ===== verification/Address.v ===== *)
(** * Addresses

    The parsing of addresses: [ip_resolver_t] (src/ip_resolver.cpp) reads
    [host:port], [tcp_address_t] and [udp_address_t] (src/tcp_address.cpp,
    src/udp_address.cpp) read an optional source before a semicolon, and
    [tcp_address_mask_t] reads [network/bits] and filters the peers of a listener.
    What the operating system knows, names of hosts and of network interfaces, is
    a parameter.

    The theorems: the filter compares exactly the first bits of the addresses; a
    printed address is read back; which ports are accepted; what [udp_address_t]
    guarantees of an address it accepts. *)

From Stdlib Require Import String.
From S2P Require Import Prelude.
#[local] Open Scope Z_scope.

Module Address.

(** ** Strings

    A C string is the list of its characters, without the NUL. *)

Definition is_digit (c : Z) : bool := (48 <=? c) && (c <=? 57).
Definition is_space (c : Z) : bool := (c =? 32) || ((9 <=? c) && (c <=? 13)).
Definition is_alpha (c : Z) : bool := ((65 <=? c) && (c <=? 90)) || ((97 <=? c) && (c <=? 122)).

(** The value of the digits at the start. *)
Fixpoint digits (acc : Z) (s : list Z) : Z :=
  match s with
  | c :: s => if is_digit c then digits (acc * 10 + (c - 48)) s else acc
  | [] => acc
  end.

Fixpoint skip_spaces (s : list Z) : list Z :=
  match s with c :: s' => if is_space c then skip_spaces s' else s | [] => [] end.

(** [strtol (s, NULL, 10)] *)
Definition strtol (s : list Z) : Z :=
  let n := match skip_spaces s with
           | 45 :: s => - digits 0 s
           | 43 :: s => digits 0 s
           | s => digits 0 s
           end in
  Z.max (- 2 ^ 63) (Z.min n (2 ^ 63 - 1)).

Definition i32 (z : Z) : Z := let u := u32 z in if u <? 2 ^ 31 then u else u - 2 ^ 32.

(** [atoi], with the behaviour of [(int) strtol]. *)
Definition atoi (s : list Z) : Z := i32 (strtol s).

(** What comes before and after the last [c] ([strrchr], [rfind]). *)
Fixpoint rsplit (c : Z) (s : list Z) : option (list Z * list Z) :=
  match s with
  | [] => None
  | x :: s =>
      match rsplit c s with
      | Some (a, b) => Some (x :: a, b)
      | None => if x =? c then Some ([], s) else None
      end
  end.

(** The decimal digits of a number ([operator<<] of a stream). *)
Fixpoint decimal_loop (fuel : nat) (z : Z) (acc : list Z) : list Z :=
  match fuel with
  | O => acc
  | S fuel =>
      let acc := (48 + z mod 10) :: acc in
      if z <? 10 then acc else decimal_loop fuel (z / 10) acc
  end.
Definition decimal (z : Z) : list Z := decimal_loop 20 z [].

Definition chars (s : string) : list Z := map (λ c, Z.of_N (Ascii.N_of_ascii c)) (list_ascii_of_string s).

(** ** [ip_addr_t] *)

Inductive family := AF_UNSPEC | AF_INET | AF_INET6.

#[export] Instance family_eq_dec : EqDecision family.
Proof. solve_decision. Defined.

(** The bytes are in network order; the scope is [sin6_scope_id]. *)
Record ip_addr := IpAddr { ip_family : family; ip_bytes : list Z; ip_port : Z; ip_scope : Z }.

#[export] Instance ip_addr_eq_dec : EqDecision ip_addr.
Proof. solve_decision. Defined.

Definition address_length (f : family) : nat := match f with AF_INET6 => 16 | _ => 4 end.

Definition ip_addr_ok (a : ip_addr) : Prop :=
  ip_family a ≠ AF_UNSPEC ∧ length (ip_bytes a) = address_length (ip_family a) ∧ bytes_ok (ip_bytes a).

(** [memset (&addr, 0, sizeof addr)] *)
Definition zeroed : ip_addr := IpAddr AF_UNSPEC (replicate 4 0) 0 0.

Definition is_multicast (a : ip_addr) : bool :=
  let first := default 0 (ip_bytes a !! 0%nat) in
  match ip_family a with
  | AF_INET => Z.land first 0xf0 =? 0xe0
  | _ => first =? 0xff
  end.

Definition port (a : ip_addr) : Z := ip_port a.
Definition set_port (p : Z) (a : ip_addr) : ip_addr := IpAddr (ip_family a) (ip_bytes a) p (ip_scope a).
Definition set_scope (z : Z) (a : ip_addr) : ip_addr :=
  if bool_decide (ip_family a = AF_INET6) then IpAddr (ip_family a) (ip_bytes a) (ip_port a) z else a.
Definition sockaddr_len (a : ip_addr) : Z := match ip_family a with AF_INET6 => 28 | _ => 16 end.

Definition any (f : family) : option ip_addr :=
  match f with AF_UNSPEC => None | _ => Some (IpAddr f (replicate (address_length f) 0) 0 0) end.

(** ** [ip_resolver_t] *)

Record ip_resolver_options := ResolverOptions {
  bindable : bool;
  allow_dns : bool;
  allow_nic_name : bool;
  ipv6 : bool;
  expect_port : bool }.

(** The hints and results of [getaddrinfo]. *)
Record hints := Hints { ai_family : family; ai_passive : bool; ai_numerichost : bool; ai_v4mapped : bool }.
Inductive gai := GaiOk (a : ip_addr) | EAI_MEMORY | EAI_BADFLAGS | EAI_OTHER.

(** The operating system: [getaddrinfo]; the interfaces of [getifaddrs] at each
    attempt, with their addresses if they have one; [if_nametoindex];
    [getnameinfo] with NI_NUMERICHOST. *)
Record system := System {
  getaddrinfo : list Z → hints → gai;
  getifaddrs : nat → errno + list (list Z * option ip_addr);
  if_nametoindex : list Z → Z;
  getnameinfo : ip_addr → option (list Z) }.

Section resolver.
Context (sys : system).

(** The attempts of [resolve_nic_name]: [getifaddrs] is called again while the
    connection to the kernel is refused, at most ten times. *)
Fixpoint attempts (n i : nat) (last : errno + list (list Z * option ip_addr)) : errno + list (list Z * option ip_addr) :=
  match n with
  | O => last
  | S n =>
      let r := getifaddrs sys i in
      match r with inl ECONNREFUSED => attempts n (S i) r | _ => r end
  end.

Fixpoint find_nic (f : family) (nic : list Z) (ifs : list (list Z * option ip_addr)) : option ip_addr :=
  match ifs with
  | [] => None
  | (name, Some a) :: ifs =>
      if bool_decide (ip_family a = f) && bool_decide (nic = name) then Some a else find_nic f nic ifs
  | (_, None) :: ifs => find_nic f nic ifs
  end.

Definition family_of (ipv6 : bool) : family := if ipv6 then AF_INET6 else AF_INET.

Definition resolve_nic_name (o : ip_resolver_options) (nic : list Z) : option (ip_addr + errno) :=
  match attempts 10 0 (inr []) with
  | inl EINVAL | inl EOPNOTSUPP => Some (inr ENODEV)
  | inl _ => None
  | inr ifs =>
      match find_nic (family_of (ipv6 o)) nic ifs with
      | Some a => Some (inl a)
      | None => Some (inr ENODEV)
      end
  end.

Definition resolve_getaddrinfo (o : ip_resolver_options) (addr : list Z) : option (ip_addr + errno) :=
  let req := Hints (family_of (ipv6 o)) (bindable o) (negb (allow_dns o)) (ipv6 o) in
  let rc := getaddrinfo sys addr req in
  let rc := match rc with
            | EAI_BADFLAGS => if ai_v4mapped req
                              then getaddrinfo sys addr (Hints (ai_family req) (ai_passive req) (ai_numerichost req) false)
                              else rc
            | _ => rc
            end in
  match rc with
  | GaiOk a => Some (inl a)
  | EAI_MEMORY => Some (inr ENOMEM)
  | _ => Some (inr (if bindable o then ENODEV else EINVAL))
  end.

(** [host:port] cut at the last colon, and the port. *)
Definition parse_port (o : ip_resolver_options) (name : list Z) : (list Z * Z) + errno :=
  if expect_port o then
    match rsplit 58 name with
    | None => inr EINVAL
    | Some (addr, port_str) =>
        if bool_decide (port_str = chars "*") then
          if bindable o then inl (addr, 0) else inr EINVAL
        else if bool_decide (port_str = chars "0") then inl (addr, 0)
        else
          let port := u16 (atoi port_str) in
          if port =? 0 then inr EINVAL else inl (addr, port)
    end
  else inl (name, 0).

Definition trim_brackets (addr : list Z) : list Z :=
  if (2 <=? length addr)%nat && bool_decide (head addr = Some 91) && bool_decide (last addr = Some 93)
  then take (length addr - 2) (drop 1 addr) else addr.

(** The zone after a percent sign; [at (0)] of an empty one throws. *)
Definition parse_zone (addr : list Z) : option ((list Z * Z) + errno) :=
  match rsplit 37 addr with
  | None => Some (inl (addr, 0))
  | Some (addr, if_str) =>
      first ← if_str !! 0%nat;
      let zone_id := if is_alpha first then if_nametoindex sys if_str else u32 (atoi if_str) in
      if zone_id =? 0 then Some (inr EINVAL) else Some (inl (addr, zone_id))
  end.

(** The host: an ANY address, the name of an interface, or what [getaddrinfo] says. *)
Definition resolve_host (o : ip_resolver_options) (addr : list Z) : option (ip_addr + errno) :=
  if bindable o && bool_decide (addr = chars "*") then a ← any (family_of (ipv6 o)); Some (inl a)
  else if allow_nic_name o then
    r ← resolve_nic_name o addr;
    match r with
    | inr ENODEV => resolve_getaddrinfo o addr
    | _ => Some r
    end
  else resolve_getaddrinfo o addr.

Definition resolve (o : ip_resolver_options) (name : list Z) : option (ip_addr + errno) :=
  match parse_port o name with
  | inr e => Some (inr e)
  | inl (addr, port) =>
      z ← parse_zone (trim_brackets addr);
      match z with
      | inr e => Some (inr e)
      | inl (addr, zone_id) =>
          r ← resolve_host o addr;
          match r with
          | inr e => Some (inr e)
          | inl a => Some (inl (set_scope zone_id (set_port port a)))
          end
      end
  end.

(** ** [tcp_address_t] *)

Record tcp_address := TcpAddress { address : ip_addr; source_address : ip_addr; has_src_addr : bool }.

Definition tcp_address_new : tcp_address := TcpAddress zeroed zeroed false.

Definition tcp_resolve (name : list Z) (local ipv6 : bool) (t : tcp_address) : option (rc * tcp_address) :=
  r ← match rsplit 59 name with
      | Some (src_name, rest) =>
          r ← resolve (ResolverOptions true false true ipv6 true) src_name;
          match r with
          | inr e => Some (inr e)
          | inl a => Some (inl (TcpAddress (address t) a true, rest))
          end
      | None => Some (inl (t, name))
      end;
  match r with
  | inr e => Some (RcErr e, t)
  | inl (t, name) =>
      r ← resolve (ResolverOptions local (negb local) local ipv6 true) name;
      match r with
      | inr e => Some (RcErr e, t)
      | inl a => Some (RcOk, TcpAddress a (source_address t) (has_src_addr t))
      end
  end.

Definition tcp_to_string (t : tcp_address) : option (list Z) :=
  host ← match ip_family (address t) with AF_UNSPEC => None | _ => getnameinfo sys (address t) end;
  if bool_decide (ip_family (address t) = AF_INET6)
  then Some (chars "tcp://[" ++ host ++ chars "]:" ++ decimal (ip_port (address t)))
  else Some (chars "tcp://" ++ host ++ chars ":" ++ decimal (ip_port (address t))).

(** ** [tcp_address_mask_t] *)

Record tcp_address_mask := TcpMask { network_address : ip_addr; address_mask : Z }.

Definition tcp_address_mask_new : tcp_address_mask := TcpMask zeroed (-1).

Definition full_mask (f : family) : Z := match f with AF_INET6 => 128 | _ => 32 end.

(** The number of bits; [None] of the string if there is no slash. *)
Definition parse_mask (f : family) (mask_str : option (list Z)) : Z + errno :=
  match mask_str with
  | None => inl (full_mask f)
  | Some mask_str =>
      if bool_decide (mask_str = chars "0") then inl 0
      else
        let mask := strtol mask_str in
        if (mask <? 1) || (full_mask f <? mask) then inr EINVAL else inl mask
  end.

Definition mask_resolve (name : list Z) (ipv6 : bool) (m : tcp_address_mask) : option (rc * tcp_address_mask) :=
  let '(addr_str, mask_str) := match rsplit 47 name with Some (a, b) => (a, Some b) | None => (name, None) end in
  if bool_decide (mask_str = Some []) then Some (RcErr EINVAL, m)
  else
    r ← resolve (ResolverOptions false false false ipv6 false) addr_str;
    match r with
    | inr e => Some (RcErr e, m)
    | inl a =>
        match parse_mask (ip_family a) mask_str with
        | inr e => Some (RcErr e, TcpMask a (address_mask m))
        | inl bits => Some (RcOk, TcpMask a bits)
        end
    end.

(** [match_address (ss, ss_len)] *)
Definition match_address (m : tcp_address_mask) (ss : ip_addr) (ss_len : Z) : option bool :=
  _ ← zmq_assert (negb (address_mask m =? -1) && (16 <=? ss_len));
  if negb (bool_decide (ip_family ss = ip_family (network_address m))) then Some false
  else if 0 <? address_mask m then
    let '(size, mask) := match ip_family ss with AF_INET6 => (28, 128) | _ => (16, 32) end in
    _ ← zmq_assert (ss_len =? size);
    let our_bytes := ip_bytes (network_address m) in
    let their_bytes := ip_bytes ss in
    let mask := if address_mask m <? mask then address_mask m else mask in
    let full_bytes := Z.to_nat (mask / 8) in
    if negb (bool_decide (take full_bytes our_bytes = take full_bytes their_bytes)) then Some false
    else
      let last_byte_bits := u8 (Z.shiftl 0xff (8 - mask mod 8)) in
      if negb (last_byte_bits =? 0) then
        theirs ← their_bytes !! full_bytes;
        ours ← our_bytes !! full_bytes;
        Some (Z.land theirs last_byte_bits =? Z.land ours last_byte_bits)
      else Some true
  else Some true.

(** ** [udp_address_t] *)

Record udp_address := UdpAddress {
  bind_address : ip_addr;
  bind_interface : Z;
  target_address : ip_addr;
  udp_multicast : bool }.

Definition any4 : ip_addr := IpAddr AF_INET (replicate 4 0) 0 0.
Definition udp_address_new : udp_address := UdpAddress any4 (-1) any4 false.

(** The part before the semicolon. *)
Definition udp_source (src_name : list Z) (ipv6 : bool) (u : udp_address) : option (rc * udp_address) :=
  r ← resolve (ResolverOptions true false true ipv6 false) src_name;
  match r with
  | inr e => Some (RcErr e, u)
  | inl a =>
      let u := UdpAddress a (bind_interface u) (target_address u) (udp_multicast u) in
      if is_multicast a then Some (RcErr EINVAL, u)
      else
        let i := if bool_decide (src_name = chars "*") then 0
                 else let i := if_nametoindex sys src_name in if i =? 0 then -1 else i in
        Some (RcOk, UdpAddress a i (target_address u) (udp_multicast u))
  end.

(** The bind address, once the target is known. *)
Definition udp_bind (has_interface bind : bool) (u : udp_address) : option (rc * udp_address) :=
  let target := target_address u in
  if has_interface then
    if negb (udp_multicast u) then Some (RcErr EINVAL, u)
    else Some (RcOk, UdpAddress (set_port (port target) (bind_address u)) (bind_interface u) target (udp_multicast u))
  else if udp_multicast u || negb bind then
    a ← any (ip_family target);
    Some (RcOk, UdpAddress (set_port (port target) a) 0 target (udp_multicast u))
  else Some (RcOk, UdpAddress target (bind_interface u) target (udp_multicast u)).

Definition udp_resolve (name : list Z) (bind ipv6 : bool) (u : udp_address) : option (rc * udp_address) :=
  '(r, u, has_interface, name) ←
    match rsplit 59 name with
    | Some (src_name, rest) => '(r, u) ← udp_source src_name ipv6 u; Some (r, u, true, rest)
    | None => Some (RcOk, u, false, name)
    end;
  if negb (bool_decide (r = RcOk)) then Some (r, u)
  else
    t ← resolve (ResolverOptions bind (negb bind) bind ipv6 true) name;
    match t with
    | inr e => Some (RcErr e, u)
    | inl a =>
        '(r, u) ← udp_bind has_interface bind (UdpAddress (bind_address u) (bind_interface u) a (is_multicast a));
        if negb (bool_decide (r = RcOk)) then Some (r, u)
        else if negb (bool_decide (ip_family (bind_address u) = ip_family (target_address u))) then Some (RcErr EINVAL, u)
        else if ipv6 && udp_multicast u && (bind_interface u <? 0) then Some (RcErr ENODEV, u)
        else Some (RcOk, u)
    end.
End resolver.

(** ** [socket_base_t]: the parts of an endpoint *)

(** [find ("://")] and what is on both sides of it. *)
Fixpoint find_sep (s : list Z) : option (list Z * list Z) :=
  if bool_decide (take 3 s = chars "://") then Some ([], drop 3 s)
  else match s with
       | [] => None
       | c :: s => '(a, b) ← find_sep s; Some (c :: a, b)
       end.

Definition parse_uri (uri : list Z) : (list Z * list Z) + errno :=
  match find_sep uri with
  | None => inr EINVAL
  | Some (protocol, path) => if bool_decide (protocol = []) || bool_decide (path = []) then inr EINVAL else inl (protocol, path)
  end.

Definition ZMQ_RADIO := 14.
Definition ZMQ_DISH := 15.
Definition ZMQ_DGRAM := 18.

(** Without the optional transports. *)
Definition check_protocol (socket_type : Z) (protocol : list Z) : rc :=
  if negb (bool_decide (protocol ∈ map chars ["inproc"; "ipc"; "tcp"; "tipc"; "udp"]%string)) then RcErr EPROTONOSUPPORT
  else if bool_decide (protocol = chars "udp") && negb (socket_type =? ZMQ_DISH) && negb (socket_type =? ZMQ_RADIO) && negb (socket_type =? ZMQ_DGRAM)
  then RcErr ENOCOMPATPROTO
  else RcOk.

Definition is_xdigit (c : Z) : bool := is_digit c || ((65 <=? c) && (c <=? 70)) || ((97 <=? c) && (c <=? 102)).
Definition is_alnum (c : Z) : bool := is_digit c || is_alpha c.

(** The rest after the characters that satisfy a test. *)
Fixpoint skip (P : Z → bool) (s : list Z) : list Z :=
  match s with c :: s' => if P c then skip P s' else s | [] => [] end.

Definition first_char (c : Z) : bool := is_alnum c || is_xdigit c || (c =? 91) || (c =? 58).
Definition next_char (c : Z) : bool := is_alnum c || is_xdigit c || bool_decide (c ∈ chars ".-:%;[]_*").

(** The check of [connect] on a tcp address. *)
Definition check_tcp (address : list Z) : rc :=
  let check := match address with c :: s => if first_char c then skip next_char s else address | [] => [] end in
  if bool_decide (check = []) then
    match rsplit 58 address with
    | Some (_, c :: _) => if is_digit c then RcOk else RcErr EINVAL
    | _ => RcErr EINVAL
    end
  else RcErr EINVAL.

(** * Correctness *)

(** ** Strings *)

Lemma rsplit_app c a b : Forall (λ x, x ≠ c) b → rsplit c (a ++ c :: b) = Some (a, b).
Proof.
  intros Hb. assert (Hn : rsplit c b = None).
  { induction Hb as [|x b Hx Hb IH]; cbn [rsplit]; [done|]. rewrite IH. by rewrite (proj2 (Z.eqb_neq _ _)). }
  induction a as [|x a IH]; cbn [app rsplit]; [by rewrite Hn, Z.eqb_refl|by rewrite IH].
Qed.

Lemma rsplit_None c s : Forall (λ x, x ≠ c) s → rsplit c s = None.
Proof. induction 1 as [|x s Hx Hs IH]; cbn [rsplit]; [done|]. rewrite IH. by rewrite (proj2 (Z.eqb_neq _ _)). Qed.

Lemma rsplit_Some c s a b : rsplit c s = Some (a, b) → s = a ++ c :: b ∧ Forall (λ x, x ≠ c) b.
Proof.
  revert a b. induction s as [|x s IH]; intros a b; cbn [rsplit]; [done|].
  destruct (rsplit c s) as [[a' b']|] eqn:Hs.
  - intros [= <- <-]. destruct (IH _ _ eq_refl) as [-> Hb]. by rewrite <- app_comm_cons.
  - destruct (Z.eqb_spec x c) as [->|Hx]; [|done]. intros [= <- <-]. split; [done|]. clear IH.
    revert Hs. induction s as [|y s IH]; cbn [rsplit]; [by constructor|]. destruct (rsplit c s) as [[]|]; [done|].
    destruct (Z.eqb_spec y c); [done|]. intros _. constructor; [done|by apply IH].
Qed.

(** ** Decimal numbers *)

Lemma digits_app s1 : ∀ acc s2, Forall (λ c, is_digit c = true) s1 → digits acc (s1 ++ s2) = digits (digits acc s1) s2.
Proof.
  induction s1 as [|c s1 IH]; intros acc s2 Hs; cbn [app digits]; [done|]. apply Forall_cons_1 in Hs as [-> Hs]. by apply IH.
Qed.

Lemma decimal_acc fuel : ∀ z acc, decimal_loop fuel z acc = decimal_loop fuel z [] ++ acc.
Proof.
  induction fuel as [|fuel IH]; intros z acc; cbn [decimal_loop]; [done|]. destruct (z <? 10); [done|].
  rewrite (IH (z / 10) (48 + z mod 10 :: acc)), (IH (z / 10) [48 + z mod 10]). by rewrite <- (assoc_L app).
Qed.

Lemma is_digit_mod z : is_digit (48 + z mod 10) = true.
Proof. unfold is_digit. pose proof (Z.mod_pos_bound z 10 ltac:(lia)). zdecide. done. Qed.

Lemma decimal_digits fuel : ∀ z, Forall (λ c, is_digit c = true) (decimal_loop fuel z []).
Proof.
  induction fuel as [|fuel IH]; intros z; cbn [decimal_loop]; [constructor|].
  destruct (z <? 10); [repeat constructor; apply is_digit_mod|]. rewrite decimal_acc. apply Forall_app. split; [apply IH|].
  repeat constructor. apply is_digit_mod.
Qed.

Lemma decimal_value fuel : ∀ z, 0 ≤ z < 10 ^ Z.of_nat fuel → (0 < fuel)%nat → digits 0 (decimal_loop fuel z []) = z.
Proof.
  induction fuel as [|fuel IH]; intros z Hz Hf; [lia|]. cbn [decimal_loop].
  pose proof (Z.mod_pos_bound z 10 ltac:(lia)) as Hm. pose proof (Z.div_mod z 10 ltac:(lia)) as Hd.
  destruct (Z.ltb_spec z 10) as [Hlt|Hge].
  - cbn [digits]. rewrite is_digit_mod. rewrite Z.mod_small by lia. lia.
  - rewrite decimal_acc, digits_app by apply decimal_digits.
    assert (Hpow : 10 ^ Z.of_nat (S fuel) = 10 * 10 ^ Z.of_nat fuel) by (rewrite Nat2Z.inj_succ, Z.pow_succ_r; lia).
    rewrite IH; [cbn [digits]; rewrite is_digit_mod; lia| |].
    + split; [apply Z.div_pos; lia|]. apply Z.div_lt_upper_bound; lia.
    + destruct fuel; [cbn in Hz; lia|lia].
Qed.

Lemma decimal_loop_nonempty fuel z : (0 < fuel)%nat → decimal_loop fuel z [] ≠ [].
Proof.
  destruct fuel as [|fuel]; [lia|]. intros _. cbn [decimal_loop]. destruct (z <? 10); [done|]. rewrite decimal_acc. by destruct (decimal_loop _ _ _).
Qed.

Lemma decimal_nonempty z : decimal z ≠ [].
Proof. apply decimal_loop_nonempty. lia. Qed.

Lemma digit_head s : Forall (λ c, is_digit c = true) s → s ≠ [] → ∃ c s', s = c :: s' ∧ 48 ≤ c ≤ 57.
Proof.
  destruct s as [|c s]; [done|]. intros [Hc _]%Forall_cons_1 _. exists c, s. split; [done|]. unfold is_digit in Hc. lia.
Qed.

Lemma strtol_decimal z : 0 ≤ z < 2 ^ 31 → strtol (decimal z) = z.
Proof.
  intros Hz. unfold strtol. destruct (digit_head (decimal z) (decimal_digits _ _) (decimal_nonempty z)) as (c & s & Hs & Hc).
  assert (Hskip : skip_spaces (decimal z) = decimal z).
  { rewrite Hs. cbn [skip_spaces]. unfold is_space. zdecide. done. }
  assert (Hv : digits 0 (decimal z) = z) by (apply decimal_value; [|lia]; change (10 ^ Z.of_nat 20) with 100000000000000000000; lia).
  rewrite Hskip. rewrite Hs in Hv |- *. destruct c as [|c|c]; [lia| |lia].
  assert (Hne : c ≠ 45%positive ∧ c ≠ 43%positive) by lia. destruct Hne.
  assert (Hm : (match Z.pos c :: s with 45 :: s0 => - digits 0 s0 | 43 :: s0 => digits 0 s0 | s0 => digits 0 s0 end) = digits 0 (Z.pos c :: s)).
  { by repeat (destruct c as [c|c|]; try reflexivity; try lia). }
  rewrite Hm, Hv. lia.
Qed.

Lemma i32_small z : 0 ≤ z < 2 ^ 31 → i32 z = z.
Proof. intros Hz. unfold i32. rewrite u32_small by lia. by rewrite (proj2 (Z.ltb_lt _ _)) by lia. Qed.

Lemma atoi_decimal z : 0 ≤ z < 2 ^ 31 → atoi (decimal z) = z.
Proof. intros Hz. unfold atoi. rewrite strtol_decimal by done. by apply i32_small. Qed.

(** ** The bits of an address *)

(** Bit [i] of an address, from the most significant one. *)
Definition abit (l : list Z) (i : nat) : bool := Z.testbit (default 0 (l !! (i / 8)%nat)) (7 - Z.of_nat (i mod 8)).

Lemma byte_bits a b : byte_ok a → byte_ok b → (∀ j, (j < 8)%nat → Z.testbit a (7 - Z.of_nat j) = Z.testbit b (7 - Z.of_nat j)) → a = b.
Proof.
  intros Ha Hb H. apply Z.bits_inj'. intros n Hn. destruct (decide (n < 8)) as [Hlt|Hge].
  - specialize (H (Z.to_nat (7 - n)) ltac:(lia)). by replace (7 - Z.of_nat (Z.to_nat (7 - n))) with n in H by lia.
  - assert (Hhigh : ∀ x, byte_ok x → Z.testbit x n = false); [|by rewrite !Hhigh].
    intros x [Hx1 Hx2]. destruct (decide (x = 0)) as [->|]; [apply Z.bits_0|]. apply Z.bits_above_log2; [done|].
    apply Z.log2_lt_pow2; [lia|]. assert (2 ^ 8 ≤ 2 ^ n) by (apply Z.pow_le_mono_r; lia). lia.
Qed.

(** The comparison of the last byte. *)
Lemma last_byte_spec a b r : byte_ok a → byte_ok b → (0 < r < 8)%nat →
  let m := u8 (Z.shiftl 0xff (8 - Z.of_nat r)) in
  Z.land a m = Z.land b m ↔ ∀ j, (j < r)%nat → Z.testbit a (7 - Z.of_nat j) = Z.testbit b (7 - Z.of_nat j).
Proof.
  intros Ha Hb Hr m. assert (Hm : ∀ j, (j < 8)%nat → Z.testbit m (7 - Z.of_nat j) = (j <? r)%nat).
  { intros j Hj. unfold m. do 8 (destruct r as [|r]; [try lia; do 8 (destruct j as [|j]; [reflexivity|]); lia|]). lia. }
  assert (Hok : ∀ x, byte_ok x → byte_ok (Z.land x m)).
  { intros x [Hx Hx']. unfold byte_ok. assert (Hm0 : 0 ≤ m < 2 ^ 8) by (apply wrap_range; lia).
    split; [apply Z.land_nonneg; lia|]. destruct (decide (Z.land x m = 0)) as [->|]; [lia|].
    assert (0 ≤ Z.land x m) by (apply Z.land_nonneg; lia). apply Z.log2_lt_cancel. change (Z.log2 256) with 8.
    pose proof (Z.log2_land x m Hx ltac:(lia)) as Hlog. destruct (decide (x = 0)) as [->|]; [done|].
    assert (Z.log2 x < 8) by (apply Z.log2_lt_pow2; lia). lia. }
  split.
  - intros Heq j Hj. apply (f_equal (λ z, Z.testbit z (7 - Z.of_nat j))) in Heq. rewrite !Z.land_spec, Hm in Heq by lia.
    rewrite (proj2 (Nat.ltb_lt _ _) Hj), !andb_true_r in Heq. done.
  - intros Heq. apply byte_bits; [by apply Hok..|]. intros j Hj. rewrite !Z.land_spec, Hm by done.
    destruct (j <? r)%nat eqn:E; [|by rewrite !andb_false_r]. apply Nat.ltb_lt in E. by rewrite Heq.
Qed.

Lemma abit_at l q j : (j < 8)%nat → abit l (8 * q + j) = Z.testbit (default 0 (l !! q)) (7 - Z.of_nat j).
Proof.
  intros Hj. unfold abit. assert (Hdiv : ((8 * q + j) / 8 = q)%nat) by (symmetry; apply (Nat.div_unique _ 8 q j); lia).
  assert (Hmod : ((8 * q + j) mod 8 = j)%nat) by (symmetry; apply (Nat.mod_unique _ 8 q j); lia). by rewrite Hdiv, Hmod.
Qed.

(** Whole bytes. *)
Lemma take_bits l1 l2 q : bytes_ok l1 → bytes_ok l2 → (q ≤ length l1)%nat → (q ≤ length l2)%nat →
  take q l1 = take q l2 ↔ ∀ i, (i < 8 * q)%nat → abit l1 i = abit l2 i.
Proof.
  intros H1 H2 Hl1 Hl2. split.
  - intros Heq i Hi. unfold abit. assert (Hq : (i / 8 < q)%nat) by (apply Nat.Div0.div_lt_upper_bound; lia).
    rewrite <- (lookup_take_lt l1 q) by done. rewrite <- (lookup_take_lt l2 q) by done. by rewrite Heq.
  - intros Hbits. apply list_eq. intros k. destruct (decide (k < q)%nat) as [Hk|Hk].
    2: { rewrite !lookup_take_ge by lia. done. }
    rewrite !lookup_take_lt by done.
    destruct (lookup_lt_is_Some_2 l1 k ltac:(lia)) as [a Ha]. destruct (lookup_lt_is_Some_2 l2 k ltac:(lia)) as [b Hb].
    rewrite Ha, Hb. f_equal. apply byte_bits; [exact (Forall_lookup_1 _ _ _ _ H1 Ha)|exact (Forall_lookup_1 _ _ _ _ H2 Hb)|].
    intros j Hj. specialize (Hbits (8 * k + j)%nat ltac:(lia)). rewrite !abit_at in Hbits by done. by rewrite Ha, Hb in Hbits.
Qed.

Definition mask_ok (m : tcp_address_mask) : Prop :=
  ip_addr_ok (network_address m) ∧ 0 ≤ address_mask m ≤ full_mask (ip_family (network_address m)).

Lemma match_bits m ss : mask_ok m → ip_addr_ok ss →
  ∃ b, match_address m ss (sockaddr_len ss) = Some b ∧
    (b = true ↔ ip_family ss = ip_family (network_address m) ∧
                ∀ i, Z.of_nat i < address_mask m → abit (ip_bytes (network_address m)) i = abit (ip_bytes ss) i).
Proof.
  intros [(Hf & Hl & Hb) Hm] (Hf' & Hl' & Hb'). unfold match_address. rewrite (proj2 (Z.eqb_neq _ _)) by lia.
  rewrite (proj2 (Z.leb_le _ _)) by (unfold sockaddr_len; destruct (ip_family ss); lia). cbn [negb andb zmq_assert mbind option_bind].
  destruct (decide (ip_family ss = ip_family (network_address m))) as [Heq|Hne].
  2: { rewrite bool_decide_eq_false_2 by done. exists false. split; [done|]. split; [done|]. by intros []. }
  rewrite bool_decide_eq_true_2 by done. cbn [negb]. rewrite <- Heq in Hl, Hm.
  destruct (Z.ltb_spec 0 (address_mask m)) as [Hpos|Hzero].
  2: { exists true. split; [done|]. split; [|done]. intros _. split; [done|]. intros i Hi. lia. }
  set (full := full_mask (ip_family ss)) in *. set (len := address_length (ip_family ss)) in *.
  assert (Hfull : full = 8 * Z.of_nat len) by (unfold full, len; by destruct (ip_family ss)).
  assert (Hsize : (match ip_family ss with AF_INET6 => (28, 128) | _ => (16, 32) end) = (sockaddr_len ss, full))
    by (unfold sockaddr_len, full, full_mask; by destruct (ip_family ss)).
  rewrite Hsize, Z.eqb_refl. cbn [zmq_assert mbind option_bind].
  assert (Hmask : (if address_mask m <? full then address_mask m else full) = address_mask m) by (zcase; lia). rewrite Hmask.
  set (n := address_mask m) in *. set (q := Z.to_nat (n / 8)).
  pose proof (Z.div_mod n 8 ltac:(lia)) as Hn. pose proof (Z.mod_pos_bound n 8 ltac:(lia)) as Hr. pose proof (Z.div_pos n 8 ltac:(lia) ltac:(lia)) as Hq0.
  assert (Hq : (q ≤ len)%nat) by (unfold q; lia).
  assert (Htake := take_bits (ip_bytes (network_address m)) (ip_bytes ss) q Hb Hb' ltac:(lia) ltac:(lia)).
  destruct (bool_decide (take q _ = take q _)) eqn:Ht; cbn [negb].
  2: { apply bool_decide_eq_false in Ht. exists false. split; [done|]. split; [done|]. intros [_ Hbits]. exfalso. apply Ht, Htake.
       intros i Hi. apply Hbits. unfold q in Hi. lia. }
  apply bool_decide_eq_true in Ht. pose proof (proj1 Htake Ht) as Hbits0. clear Ht Htake. rename Hbits0 into Ht.
  set (r := Z.to_nat (n mod 8)). assert (Hr' : n mod 8 = Z.of_nat r) by (unfold r; lia). rewrite Hr'.
  destruct (decide (r = 0%nat)) as [Hr0|Hr0].
  - rewrite Hr0. cbn. exists true. split; [done|]. split; [|done]. intros _. split; [done|]. intros i Hi. apply Ht. unfold q. lia.
  - assert (Hlast : (u8 (Z.shiftl 0xff (8 - Z.of_nat r)) =? 0) = false).
    { assert (Hr8 : (r < 8)%nat) by lia. clear -Hr0 Hr8. do 8 (destruct r as [|r]; [done|]). lia. }
    rewrite Hlast. cbn [negb]. assert (Hqlt : (q < len)%nat) by (unfold q; lia).
    destruct (lookup_lt_is_Some_2 (ip_bytes ss) q ltac:(lia)) as [t Hlt]. destruct (lookup_lt_is_Some_2 (ip_bytes (network_address m)) q ltac:(lia)) as [u Hlu].
    rewrite Hlt, Hlu. cbn [mbind option_bind]. eexists. split; [reflexivity|]. rewrite Z.eqb_eq.
    rewrite (last_byte_spec t u r) by (first [exact (Forall_lookup_1 _ _ _ _ Hb' Hlt)|exact (Forall_lookup_1 _ _ _ _ Hb Hlu)|lia]). split.
    + intros Hbits. split; [done|]. intros i Hi. destruct (decide (i < 8 * q)%nat) as [|Hge]; [by apply Ht|].
      replace i with (8 * q + (i - 8 * q))%nat by lia. rewrite !abit_at by (unfold q; lia). rewrite Hlt, Hlu. cbn [default]. symmetry. apply Hbits. unfold q. lia.
    + intros [_ Hbits] j Hj. specialize (Hbits (8 * q + j)%nat ltac:(unfold q; lia)). rewrite !abit_at in Hbits by lia. by rewrite Hlt, Hlu in Hbits.
Qed.

(** ** Resolving *)

(** What is documented of the operating system: addresses it gives are addresses,
    and the interfaces can be listed. *)
Record system_ok (sys : system) : Prop := {
  so_gai name h a : getaddrinfo sys name h = GaiOk a → ip_addr_ok a;
  so_ifs : ∃ ifs, getifaddrs sys 0 = inr ifs ∧ ∀ name a, (name, Some a) ∈ ifs → ip_addr_ok a }.

Section system.
Context (sys : system).
Hypothesis Hsys : system_ok sys.

Lemma any_ok v6 : ∃ a, any (family_of v6) = Some a ∧ ip_addr_ok a.
Proof. destruct v6; (eexists; split; [reflexivity|]); by repeat (split || constructor). Qed.

Lemma find_nic_elem f nic ifs a : find_nic f nic ifs = Some a → ∃ name, (name, Some a) ∈ ifs.
Proof.
  induction ifs as [|[name [b|]] ifs IH]; cbn [find_nic]; [done| |].
  - destruct (_ && _); [intros [= ->]; exists name; by left|]. intros [n Hn]%IH. exists n. by right.
  - intros [n Hn]%IH. exists n. by right.
Qed.

Lemma resolve_nic_ok o nic : ∃ r, resolve_nic_name sys o nic = Some r ∧
  match r with inl a => ip_addr_ok a | inr e => e = ENODEV end.
Proof.
  unfold resolve_nic_name. cbn [attempts]. destruct (so_ifs _ Hsys) as (ifs & -> & Hifs).
  destruct (find_nic _ _ _) as [a|] eqn:Hf; (eexists; split; [reflexivity|]); [|done].
  apply find_nic_elem in Hf as [name Hn]. by eapply Hifs.
Qed.

Lemma resolve_gai_ok o addr : ∃ r, resolve_getaddrinfo sys o addr = Some r ∧
  match r with inl a => ip_addr_ok a | inr e => e ∈ [ENOMEM; ENODEV; EINVAL] end.
Proof.
  unfold resolve_getaddrinfo. set (rc := match getaddrinfo _ _ _ with EAI_BADFLAGS => _ | _ => _ end).
  assert (Hrc : ∀ a, rc = GaiOk a → ip_addr_ok a).
  { intros a. unfold rc. destruct (getaddrinfo _ _ _) eqn:E; [|done| |done].
    - intros [= <-]. by eapply so_gai.
    - destruct (ai_v4mapped _); [|done]. by apply so_gai. }
  destruct rc; (eexists; split; [reflexivity|]); [by apply Hrc|..]; destruct (bindable o); repeat constructor.
Qed.

Lemma resolve_host_ok o addr : ∃ r, resolve_host sys o addr = Some r ∧ match r with inl a => ip_addr_ok a | inr _ => True end.
Proof.
  unfold resolve_host. destruct (_ && _).
  { destruct (any_ok (ipv6 o)) as (a & -> & Ha). by exists (inl a). }
  destruct (resolve_gai_ok o addr) as (r & Hr & Hok). assert (Hgai : ∃ r0, resolve_getaddrinfo sys o addr = Some r0 ∧ match r0 with inl a => ip_addr_ok a | inr _ => True end)
    by (exists r; split; [done|]; by destruct r).
  destruct (allow_nic_name o); [|exact Hgai].
  destruct (resolve_nic_ok o addr) as ([a|e] & -> & Hn); cbn [mbind option_bind]; [by exists (inl a)|by subst e].
Qed.

Lemma set_port_ok p a : ip_addr_ok a → ip_addr_ok (set_port p a).
Proof. done. Qed.

Lemma set_scope_ok z a : ip_addr_ok a → ip_addr_ok (set_scope z a).
Proof. unfold set_scope. by case_bool_decide. Qed.

(** What an accepted address is. *)
Lemma resolve_Some o name a : resolve sys o name = Some (inl a) →
  ip_addr_ok a ∧ ∃ addr p, parse_port o name = inl (addr, p) ∧ ip_port a = p.
Proof.
  unfold resolve. destruct (parse_port o name) as [[addr p]|]; [|done].
  destruct (parse_zone sys (trim_brackets addr)) as [[[addr' z]|]|]; [|done..]. cbn [mbind option_bind].
  destruct (resolve_host_ok o addr') as ([b|] & -> & Hb); [|done]. cbn [mbind option_bind]. intros [= <-].
  split; [by apply set_scope_ok, set_port_ok|]. exists addr, p. split; [done|]. unfold set_scope. by case_bool_decide.
Qed.

(** The only address that brings the process down. *)
Lemma resolve_None o name : resolve sys o name = None ↔
  ∃ addr p zoned, parse_port o name = inl (addr, p) ∧ trim_brackets addr = zoned ++ chars "%".
Proof.
  unfold resolve. destruct (parse_port o name) as [[addr p]|]; [|split; [done|]; by intros (? & ? & ? & ? & _)].
  assert (Hhost : ∀ a z, (r ← resolve_host sys o a;
      match r with inl a0 => Some (inl (set_scope z (set_port p a0))) | inr e => Some (inr e) end : option (ip_addr + errno)) ≠ None).
  { intros a z. by destruct (resolve_host_ok o a) as ([b|] & -> & _). }
  unfold parse_zone. destruct (rsplit 37 (trim_brackets addr)) as [[a b]|] eqn:Hs.
  - apply rsplit_Some in Hs as [Hs Hb]. destruct b as [|c b]; cbn [lookup list_lookup mbind option_bind].
    + split; [|done]. intros _. by exists addr, p, a.
    + split.
      * intros H. exfalso. destruct (_ =? 0) in H; [done|]. by apply Hhost in H.
      * intros (addr0 & p0 & zoned & [= <- <-] & Hz). exfalso. rewrite Hz in Hs. clear -Hs Hb.
        assert (Hl : last (zoned ++ chars "%") = Some 37) by (change (chars "%") with [37]; by rewrite last_snoc).
        rewrite Hs, last_app in Hl. cbn [last] in Hl.
        destruct (last (c :: b)) as [x|] eqn:E; [injection Hl as ->|by apply last_None in E]. apply last_Some_elem_of in E.
        rewrite Forall_forall in Hb. by apply (Hb 37 E).
  - cbn [mbind option_bind]. split.
    + intros H. by apply Hhost in H.
    + intros (addr0 & p0 & zoned & [= <- <-] & Hz). exfalso. rewrite Hz in Hs. change (chars "%") with [37] in Hs. rewrite (rsplit_app 37 zoned []) in Hs; [done|constructor].
Qed.
End system.

(** ** Endpoints *)

Lemma skip_all P s : Forall (λ c, P c = true) s → skip P s = [].
Proof. induction 1 as [|c s Hc Hs IH]; cbn [skip]; [done|]. by rewrite Hc. Qed.

Lemma digits_of_decimal p : Forall (λ c, is_digit c = true) (decimal p).
Proof. apply decimal_digits. Qed.

Lemma digit_next c : is_digit c = true → next_char c = true.
Proof. unfold next_char, is_alnum. by intros ->. Qed.

Lemma no_colon p : Forall (λ c, c ≠ 58) (decimal p).
Proof. eapply Forall_impl; [apply decimal_digits|]. intros c Hc ->. done. Qed.

Lemma check_tcp_ok c s p : first_char c = true → Forall (λ c, next_char c = true) s →
  check_tcp ((c :: s) ++ chars ":" ++ decimal p) = RcOk.
Proof.
  intros Hc Hs. unfold check_tcp. rewrite <- app_comm_cons. cbn iota. rewrite Hc, skip_all.
  2: { apply Forall_app. split; [done|]. apply Forall_app. split; [by repeat constructor|]. eapply Forall_impl; [apply digits_of_decimal|apply digit_next]. }
  rewrite bool_decide_eq_true_2 by done. rewrite app_comm_cons. change (chars ":" ++ decimal p) with (58 :: decimal p).
  rewrite rsplit_app by apply no_colon. destruct (digit_head _ (digits_of_decimal p) (decimal_nonempty p)) as (d & s' & -> & Hd).
  unfold is_digit. zdecide. done.
Qed.

Lemma parse_port_decimal o host p : 0 ≤ p < 65536 → expect_port o = true →
  parse_port o (host ++ chars ":" ++ decimal p) = inl (host, p).
Proof.
  intros Hp Ho. unfold parse_port. rewrite Ho. change (chars ":" ++ decimal p) with (58 :: decimal p). rewrite rsplit_app by apply no_colon.
  destruct (digit_head _ (digits_of_decimal p) (decimal_nonempty p)) as (d & s' & Hd & Hdig).
  rewrite bool_decide_eq_false_2 by (rewrite Hd; intros [= -> _]; lia). rewrite atoi_decimal, u16_small by lia.
  case_bool_decide as H0.
  - assert (Hv : digits 0 (decimal p) = p) by (apply decimal_value; [|lia]; change (10 ^ Z.of_nat 20) with 100000000000000000000; lia).
    rewrite H0 in Hv. change (digits 0 (chars "0")) with 0 in Hv. by rewrite <- Hv.
  - destruct (Z.eqb_spec p 0) as [->|]; [done|done].
Qed.

(** Ports are read modulo 65536. *)
Lemma port_wraps o host n : 0 < n < 2 ^ 31 → n mod 65536 ≠ 0 → expect_port o = true →
  parse_port o (host ++ chars ":" ++ decimal n) = inl (host, n mod 65536).
Proof.
  intros Hn Hw Ho. unfold parse_port. rewrite Ho. change (chars ":" ++ decimal n) with (58 :: decimal n). rewrite rsplit_app by apply no_colon.
  destruct (digit_head _ (digits_of_decimal n) (decimal_nonempty n)) as (d & s' & Hd & Hdig).
  assert (Hv : digits 0 (decimal n) = n) by (apply decimal_value; [|lia]; change (10 ^ Z.of_nat 20) with 100000000000000000000; lia).
  rewrite !bool_decide_eq_false_2.
  - rewrite atoi_decimal by lia. unfold wrap. change (2 ^ 16) with 65536. by rewrite (proj2 (Z.eqb_neq _ _)).
  - intros H0. rewrite H0 in Hv. change (digits 0 (chars "0")) with 0 in Hv. lia.
  - rewrite Hd. intros [= -> _]. lia.
Qed.

(** What is documented of [getnameinfo] with NI_NUMERICHOST: a literal address,
    which [getaddrinfo] reads back. *)
Record numeric (sys : system) (a : ip_addr) (host : list Z) : Prop := {
  nu_name : getnameinfo sys a = Some host;
  nu_chars : Forall (λ c, is_xdigit c || (c =? 46) || (c =? 58) = true) host;
  nu_ipv4 : ip_family a = AF_INET → ∃ c s, host = c :: s ∧ is_digit c = true;
  nu_back h : ai_family h = ip_family a → getaddrinfo sys host h = GaiOk (set_port 0 a) }.

Lemma numeric_next c : is_xdigit c || (c =? 46) || (c =? 58) = true → next_char c = true.
Proof.
  unfold next_char. destruct (is_xdigit c); [by rewrite orb_true_r|]. cbn [orb]. intros H.
  assert (Hc : c = 46 ∨ c = 58) by lia. by destruct Hc as [-> | ->].
Qed.

Lemma numeric_plain c : is_xdigit c || (c =? 46) || (c =? 58) = true → c ≠ 37 ∧ c ≠ 91 ∧ c ≠ 93 ∧ c ≠ 59.
Proof. intros H. repeat split; intros ->; done. Qed.

Lemma resolve_literal sys o a host addr p : numeric sys a host → trim_brackets addr = host →
  ip_family a = family_of (ipv6 o) → ip_scope a = 0 → bindable o = false → allow_nic_name o = false → expect_port o = true → 0 ≤ p < 65536 →
  resolve sys o (addr ++ chars ":" ++ decimal p) = Some (inl (set_port p a)).
Proof.
  intros Hn Htrim Hf Hscope Hb Hnic He Hp. unfold resolve. rewrite parse_port_decimal by done. rewrite Htrim.
  unfold parse_zone. rewrite rsplit_None.
  2: { eapply Forall_impl; [apply (nu_chars _ _ _ Hn)|]. intros c Hc%numeric_plain. tauto. }
  cbn [mbind option_bind]. unfold resolve_host. rewrite Hb, Hnic. cbn [andb]. unfold resolve_getaddrinfo.
  rewrite (nu_back _ _ _ Hn) by (cbn; by rewrite Hf). cbn [mbind option_bind]. do 2 f_equal.
  unfold set_scope, set_port. cbn. case_bool_decide; [|done]. by rewrite Hscope.
Qed.

(** C39. An endpoint printed by [tcp_address_t::to_string], for instance the one a
    socket is bound to, is one the library can connect to, when the address has no
    scope id (a link-local IPv6 address prints with a zone after a percent sign and
    is not covered) and getnameinfo prints it in the numeric form ([numeric]): it
    has the protocol tcp, passes the syntax check of [connect], and, with the ipv6
    option set if the address is one, resolves to the same address and port, for
    every such IPv4 and IPv6 address and each of the 65536 ports, IPv6 addresses in
    brackets. *)
Theorem endpoint_roundtrip sys a host src :
  ip_addr_ok a → 0 ≤ ip_port a < 65536 → ip_scope a = 0 → numeric sys a host →
  ∃ path, tcp_to_string sys (TcpAddress a src false) = Some (chars "tcp://" ++ path) ∧
    parse_uri (chars "tcp://" ++ path) = inl (chars "tcp", path) ∧ check_protocol 0 (chars "tcp") = RcOk ∧
    check_tcp path = RcOk ∧
    tcp_resolve sys path false (bool_decide (ip_family a = AF_INET6)) tcp_address_new = Some (RcOk, TcpAddress a zeroed false).
Proof.
  intros (Hf & _ & _) Hp Hs Hn. pose proof (nu_chars _ _ _ Hn) as Hc.
  remember (bool_decide (ip_family a = AF_INET6)) as v6 eqn:Hv6.
  assert (Hfam : ip_family a = family_of v6) by (rewrite Hv6; by destruct (ip_family a)). clear Hv6.
  assert (Hnext : Forall (λ c, next_char c = true) host) by (eapply Forall_impl; [exact Hc|apply numeric_next]).
  assert (Hset : set_port (ip_port a) a = a) by (by destruct a).
  assert (Hplain : ∀ x, x ∈ host → x ≠ 59) by (intros x Hx ->; rewrite Forall_forall in Hc; by apply Hc in Hx).
  assert (Huri : ∀ path, path ≠ [] → parse_uri (chars "tcp://" ++ path) = inl (chars "tcp", path)).
  { intros path Hpath. unfold parse_uri. change (find_sep (chars "tcp://" ++ path)) with (Some (chars "tcp", drop 0 path)). rewrite drop_0.
    rewrite !bool_decide_eq_false_2 by done. done. }
  assert (Hres : ∀ addr, trim_brackets addr = host → Forall (λ c, c ≠ 59) addr →
    tcp_resolve sys (addr ++ chars ":" ++ decimal (ip_port a)) false v6 tcp_address_new = Some (RcOk, TcpAddress a zeroed false)).
  { intros addr Htrim Hsemi. unfold tcp_resolve. rewrite rsplit_None.
    2: { apply Forall_app. split; [done|]. apply Forall_app. split; [by repeat constructor|]. eapply Forall_impl; [apply decimal_digits|]. intros x Hx ->. done. }
    cbn [mbind option_bind]. rewrite (resolve_literal sys _ a host addr) by done.
    cbn [mbind option_bind]. by rewrite Hset. }
  unfold tcp_to_string. cbn [address]. destruct (ip_family a) eqn:E; [done| |]; rewrite (nu_name _ _ _ Hn); cbn [mbind option_bind].
  - rewrite bool_decide_eq_false_2 by done. destruct (nu_ipv4 _ _ _ Hn E) as (c & s & Hhost & Hd).
    assert (Hne : host ++ chars ":" ++ decimal (ip_port a) ≠ []) by (by rewrite Hhost).
    eexists. split; [reflexivity|]. split; [by apply Huri|]. split; [done|]. split.
    + rewrite Hhost in Hnext |- *. apply Forall_cons_1 in Hnext as [_ Hnext]. apply check_tcp_ok; [|done]. unfold first_char, is_alnum. by rewrite Hd.
    + apply Hres.
      * unfold trim_brackets. rewrite Hhost. cbn [head]. rewrite (bool_decide_eq_false_2 (Some c = Some 91)) by (intros [= ->]; done).
        by rewrite andb_false_r.
      * by apply Forall_forall.
  - rewrite bool_decide_eq_true_2 by done. set (addr := 91 :: host ++ [93]).
    assert (Hpath : chars "tcp://[" ++ host ++ chars "]:" ++ decimal (ip_port a) = chars "tcp://" ++ addr ++ chars ":" ++ decimal (ip_port a)).
    { unfold addr. rewrite <- app_comm_cons. by rewrite <- !(assoc_L app). }
    rewrite Hpath. eexists. split; [reflexivity|]. split; [by apply Huri|]. split; [done|]. split.
    + apply check_tcp_ok; [done|]. apply Forall_app. split; [done|by repeat constructor].
    + apply Hres.
      * unfold trim_brackets, addr. cbn [head]. rewrite app_comm_cons, last_snoc. cbn [length]. rewrite length_app. cbn [length].
        rewrite (proj2 (Nat.leb_le _ _)) by lia. rewrite !bool_decide_eq_true_2 by done. cbn [andb].
        replace (S (length host) + 1 - 2)%nat with (length host) by lia. change (drop 1 ((91 :: host) ++ [93])) with (host ++ [93]). by rewrite take_app_length.
      * constructor; [done|]. apply Forall_app. split; [by apply Forall_forall|by repeat constructor].
Qed.

(** ** Filters *)

Lemma mask_resolve_ok sys name v6 m : system_ok sys → mask_resolve sys name v6 tcp_address_mask_new = Some (RcOk, m) → mask_ok m.
Proof.
  intros Hsys Hm. unfold mask_resolve in Hm. destruct (match rsplit 47 name with Some (a, b) => (a, Some b) | None => (name, None) end) as [addr_str mask_str].
  destruct (bool_decide _); [done|]. destruct (resolve _ _ addr_str) as [[a|e]|] eqn:Hr; cbn [mbind option_bind] in Hm; [|done..].
  apply (resolve_Some sys Hsys) in Hr as [Ha _]. destruct (parse_mask _ _) as [bits|e] eqn:Hp; [|done]. injection Hm as <-.
  split; [done|]. cbn [network_address address_mask]. unfold parse_mask in Hp. destruct mask_str as [s|].
  - case_bool_decide; [injection Hp as <-; by destruct (ip_family a)|]. destruct (_ || _) eqn:E; [done|]. injection Hp as <-. lia.
  - injection Hp as <-. by destruct (ip_family a).
Qed.

(** A filter of ZMQ_TCP_ACCEPT_FILTER: a string that is accepted gives a network
    and a number of bits between 0 and 32, or 128, and [match_address], which then
    neither fails an assertion nor reads out of bounds, accepts an address of a peer
    if and only if it has the family of the network and agrees with it on exactly
    these bits. *)
Theorem accept_filter sys name v6 m ss :
  system_ok sys → mask_resolve sys name v6 tcp_address_mask_new = Some (RcOk, m) → ip_addr_ok ss →
  0 ≤ address_mask m ≤ full_mask (ip_family (network_address m)) ∧
  ∃ b, match_address m ss (sockaddr_len ss) = Some b ∧
    (b = true ↔ ip_family ss = ip_family (network_address m) ∧
                ∀ i, Z.of_nat i < address_mask m → abit (ip_bytes (network_address m)) i = abit (ip_bytes ss) i).
Proof. intros Hsys Hm Hss. pose proof (mask_resolve_ok _ _ _ _ Hsys Hm) as Hok. split; [apply Hok|by apply match_bits]. Qed.

(** ** UDP addresses *)

Lemma is_multicast_port p a : is_multicast (set_port p a) = is_multicast a.
Proof. done. Qed.

Lemma any_bytes f a : any f = Some a → ip_family a = f ∧ ip_addr_ok a ∧ ip_bytes a = replicate (address_length f) 0.
Proof. destruct f; [done| |]; intros [= <-]; (split; [done|]); split; try done; repeat (split || constructor); done. Qed.

Lemma udp_source_ok sys src v6 u u' : system_ok sys → udp_source sys src v6 u = Some (RcOk, u') →
  ip_addr_ok (bind_address u') ∧ is_multicast (bind_address u') = false ∧ target_address u' = target_address u.
Proof.
  intros Hsys. unfold udp_source. destruct (resolve _ _ _) as [[a|]|] eqn:Hr; cbn [mbind option_bind]; [|done..].
  apply (resolve_Some sys Hsys) in Hr as [Ha _]. destruct (is_multicast a) eqn:Hm; [done|]. by intros [= <-].
Qed.

(** What [udp_address_t::resolve] accepts: the bind and the target address are
    addresses of one family with one port; [is_mcast] says whether the target is
    multicast.  With a source before a semicolon the target is multicast and the
    source is not; without one, the socket binds to every address when it connects or
    the target is multicast, and to the target itself otherwise.  An IPv6 multicast
    socket has an interface. *)
Theorem udp_accepts sys name bind v6 u :
  system_ok sys → udp_resolve sys name bind v6 udp_address_new = Some (RcOk, u) →
  (ip_addr_ok (bind_address u) ∧ ip_addr_ok (target_address u)) ∧
  ip_family (bind_address u) = ip_family (target_address u) ∧ port (bind_address u) = port (target_address u) ∧
  udp_multicast u = is_multicast (target_address u) ∧
  (if rsplit 59 name then is_multicast (target_address u) = true ∧ is_multicast (bind_address u) = false
   else if is_multicast (target_address u) || negb bind
   then ip_bytes (bind_address u) = replicate (address_length (ip_family (target_address u))) 0 ∧ bind_interface u = 0
   else bind_address u = target_address u) ∧
  (v6 = true → udp_multicast u = true → 0 ≤ bind_interface u).
Proof.
  intros Hsys. unfold udp_resolve. set (src := match rsplit 59 name with Some _ => _ | None => _ end).
  destruct src as [[[[r u1] has] rest]|] eqn:Hsrc; [|done]. cbn [mbind option_bind].
  destruct (decide (r = RcOk)) as [->|Hr]; [|by rewrite bool_decide_eq_false_2 by done; intros [= -> _]].
  rewrite bool_decide_eq_true_2 by done. cbn [negb].
  assert (Hhas : has = (if rsplit 59 name then true else false) ∧ (has = true → ip_addr_ok (bind_address u1) ∧ is_multicast (bind_address u1) = false)).
  { unfold src in Hsrc. destruct (rsplit 59 name) as [[s1 s2]|]; [|by injection Hsrc as <- <- <-].
    destruct (udp_source sys s1 v6 udp_address_new) as [[r2 u2]|] eqn:Hs; [|done]. injection Hsrc as -> -> <- <-.
    split; [done|]. intros _. apply (udp_source_ok sys s1 v6 udp_address_new u1 Hsys) in Hs. tauto. }
  destruct Hhas as [Hhas Hbind]. clear src Hsrc.
  destruct (resolve _ _ _) as [[a|]|] eqn:Ha; cbn [mbind option_bind]; [|done..]. apply (resolve_Some sys Hsys) in Ha as [Ha _].
  set (u2 := UdpAddress _ _ a _). destruct (udp_bind has bind u2) as [[r u3]|] eqn:Hb; [|done]. cbn [mbind option_bind].
  destruct (decide (r = RcOk)) as [->|Hr]; [|by rewrite bool_decide_eq_false_2 by done; intros [= -> _]].
  rewrite (bool_decide_eq_true_2 (RcOk = RcOk)) by done. cbn [negb].
  case_bool_decide as Hf; cbn [negb]; [|done]. destruct (v6 && udp_multicast u3 && _) eqn:Hi; [done|]. intros [= <-].
  assert (Hif : v6 = true → udp_multicast u3 = true → 0 ≤ bind_interface u3) by (intros -> Hm; rewrite Hm in Hi; cbn in Hi; lia).
  unfold udp_bind in Hb. cbn [u2 target_address udp_multicast bind_address bind_interface] in Hb.
  destruct (rsplit 59 name) as [p|]; subst has.
  - destruct (is_multicast a) eqn:Hm; [|done]. injection Hb as <-. destruct (Hbind eq_refl) as [Hbo Hbm]. repeat split; try done; apply Hbo || apply Ha.
  - clear Hbind. destruct (is_multicast a) eqn:Hm; [|destruct bind]; cbn [orb negb] in Hb.
    + destruct (any (ip_family a)) as [b|] eqn:Hany; [|done]. injection Hb as <-. apply any_bytes in Hany as (_ & Hbo & Hbb).
      cbn [bind_address target_address]. rewrite Hm. split; [by split|]. split; [exact Hf|]. split; [done|]. split; [done|]. split; [by split|exact Hif].
    + injection Hb as <-. cbn [bind_address target_address]. rewrite Hm. split; [by split|]. split; [done|]. split; [done|]. split; [done|]. split; [done|exact Hif].
    + destruct (any (ip_family a)) as [b|] eqn:Hany; [|done]. injection Hb as <-. apply any_bytes in Hany as (_ & Hbo & Hbb).
      cbn [bind_address target_address]. rewrite Hm. split; [by split|]. split; [exact Hf|]. split; [done|]. split; [done|]. split; [by split|exact Hif].
Qed.

(** ** What the parsing does not catch *)

(** Port 65537 is port 1, and a zone that is empty throws: the endpoint passes the check of
    [connect], and [resolve] ends in an exception nobody catches. *)
Lemma address_defects :
  (∀ o host, expect_port o = true → parse_port o (host ++ chars ":65537") = inl (host, 1)) ∧
  (∀ sys local v6 t, check_tcp (chars "fe80::1%:5555") = RcOk ∧ tcp_resolve sys (chars "fe80::1%:5555") local v6 t = None).
Proof.
  split.
  - intros o host Ho. apply (port_wraps o host 65537); [lia|done|done].
  - by intros sys [] [] t.
Qed.

(** ** Examples *)

(** A system with two literal addresses. *)
Definition local_addr (p : Z) : ip_addr := IpAddr AF_INET [127; 0; 0; 1] p 0.
Definition small_system : system :=
  System (λ name h, if bool_decide (name = chars "127.0.0.1") then GaiOk (local_addr 0)
                    else if bool_decide (name = chars "239.0.0.1") then GaiOk (IpAddr AF_INET [239; 0; 0; 1] 0 0) else EAI_OTHER)
         (λ _, inr [(chars "lo", Some (local_addr 0))]) (λ _, 0)
         (λ a, if bool_decide (a = local_addr 5555) then Some (chars "127.0.0.1") else None).

Lemma small_system_ok : system_ok small_system.
Proof.
  split.
  - intros name h a. cbn. repeat case_bool_decide; [| |done]; intros [= <-]; (split; [done|]); (split; [done|]); repeat constructor; done.
  - eexists. split; [reflexivity|]. intros name a [= -> ->]%list_elem_of_singleton. split; [done|]. split; [done|]. repeat constructor; done.
Qed.

Lemma endpoint_roundtrip_witness :
  ∃ path, tcp_to_string small_system (TcpAddress (local_addr 5555) zeroed false) = Some (chars "tcp://" ++ path) ∧
    tcp_resolve small_system path false false tcp_address_new = Some (RcOk, TcpAddress (local_addr 5555) zeroed false).
Proof.
  destruct (endpoint_roundtrip small_system (local_addr 5555) (chars "127.0.0.1") zeroed) as (path & H1 & _ & _ & _ & H2).
  - split; [discriminate|]. split; [reflexivity|]. repeat constructor; discriminate.
  - cbn. lia.
  - reflexivity.
  - split; [reflexivity|repeat constructor|by eexists _, _|].
    intros h _. reflexivity.
  - exists path. split; [exact H1|exact H2].
Defined.

Lemma accept_filter_witness :
  ∃ m, mask_resolve small_system (chars "127.0.0.1/8") false tcp_address_mask_new = Some (RcOk, m) ∧
    0 ≤ address_mask m ≤ 32 ∧ ∃ b, match_address m (IpAddr AF_INET [127; 9; 9; 9] 40000 0) 16 = Some b.
Proof.
  eexists. split; [vm_compute; reflexivity|].
  destruct (accept_filter small_system (chars "127.0.0.1/8") false (TcpMask (local_addr 0) 8) (IpAddr AF_INET [127; 9; 9; 9] 40000 0) small_system_ok) as (H1 & b & H2 & _).
  - vm_compute. reflexivity.
  - split; [discriminate|]. split; [reflexivity|]. repeat constructor; discriminate.
  - split; [exact H1|]. exists b. exact H2.
Defined.

Lemma udp_accepts_witness :
  ∃ u, udp_resolve small_system (chars "127.0.0.1;239.0.0.1:5555") true false udp_address_new = Some (RcOk, u) ∧
    is_multicast (target_address u) = true ∧ is_multicast (bind_address u) = false ∧ port (bind_address u) = port (target_address u).
Proof.
  destruct (udp_resolve small_system (chars "127.0.0.1;239.0.0.1:5555") true false udp_address_new) as [[[|e] u]|] eqn:H;
    [|vm_compute in H; discriminate..].
  exists u. split; [reflexivity|].
  destruct (udp_accepts small_system (chars "127.0.0.1;239.0.0.1:5555") true false u small_system_ok H) as (_ & _ & Hp & _ & Hs & _).
  exact (conj (proj1 Hs) (conj (proj2 Hs) Hp)).
Defined.

End Address.
