(* ===== verification/ByteTable.v ===== *)
(** * The child table of a prefix-tree node

    [trie_t] (src/trie.cpp) and [generic_mtrie_t] (src/generic_mtrie_impl.hpp)
    keep the children of a node in the same three-way representation: [_min]
    and [_count] give the range of handled characters, [_live_nodes] the number
    of children, and the union [_next] holds nothing ([_count = 0]), one child
    ([_count = 1], [_next.node]) or an array of [_count] pointers, some NULL
    ([_next.table]).  This file has the union, the growth code both classes
    share, the table's well-formedness and the lemmas on looking up, storing
    and pruning a child. *)

From S2P Require Import Prelude.

(** The union [_next]; reading the member that was not last written is
    undefined behaviour, so the tag is explicit. *)
Inductive next_u (A : Type) : Type :=
| NUninit
| NNode (node : option A)
| NTable (table : list (option A)).
Arguments NUninit {A}.
Arguments NNode {A} _.
Arguments NTable {A} _.

Definition as_node {A} (nx : next_u A) : option (option A) :=
  match nx with NNode n => Some n | _ => None end.
Definition as_table {A} (nx : next_u A) : option (list (option A)) :=
  match nx with NTable t => Some t | _ => None end.

(** [c < _min || c >= _min + _count] *)
Definition out_of_range (mn ct c : Z) : bool := (c <? mn) || (mn + ct <=? c).

(** The code of [add] that makes room for the character [c]. *)
Definition extend {A} (mn ct : Z) (nx : next_u A) (c : Z) : option (Z * Z * next_u A) :=
  if out_of_range mn ct c then
    if ct =? 0 then Some (c, 1, NNode None)
    else if ct =? 1 then
      let oldc := mn in
      oldp ← as_node nx;
      let ct' := u16 ((if mn <? c then c - mn else mn - c) + 1) in
      let mn' := Z.min mn c in
      Some (mn', ct',
            NTable (<[Z.to_nat (oldc - mn') := oldp]> (replicate (Z.to_nat ct') None)))
    else if mn <? c then
      table ← as_table nx;
      let ct' := u16 (c - mn + 1) in
      Some (mn, ct', NTable (table ++ replicate (Z.to_nat (ct' - ct)) None))
    else
      table ← as_table nx;
      let ct' := u16 (mn + ct - c) in
      Some (c, ct', NTable (replicate (Z.to_nat (mn - c)) None ++ table))
  else Some (mn, ct, nx).

(** [_next.table[c - _min]], undefined out of the array's bounds. *)
Definition table_at {A} (table : list (option A)) (i : Z) : option (option A) :=
  if i <? 0 then None else table !! Z.to_nat i.

(** Storing a child in the slot that [c] selects. *)
Definition put_child {A} (mn ct : Z) (nx : next_u A) (c : Z) (p : option A) : next_u A :=
  if ct =? 1 then NNode p
  else match nx with
       | NTable t => NTable (<[Z.to_nat (c - mn) := p]> t)
       | _ => nx
       end.

(** The index of the first non-NULL slot, the loops
    [for (i = 0; i < n; ++i) if (table[i]) break;]. *)
Fixpoint first_live {A} (t : list (option A)) : option nat :=
  match t with
  | [] => None
  | Some _ :: _ => Some 0%nat
  | None :: t' => i ← first_live t'; Some (S i)
  end.

Definition occ {A} (o : option A) : Z := match o with Some _ => 1 | None => 0 end.

Definition live {A} (t : list (option A)) : Z := Z.of_nat (length (omap id t)).

(** ** The abstract view: the child a character leads to *)

Definition child {A} (mn ct : Z) (nx : next_u A) (c : Z) : option A :=
  if out_of_range mn ct c then None
  else match nx with
       | NUninit => None
       | NNode n => n
       | NTable t => mjoin (t !! Z.to_nat (c - mn))
       end.

(** ** Well-formedness

    The first and the last slot of an array are always occupied, so an array
    has at least two live children. *)

Inductive table_wf {A} : Z → Z → Z → next_u A → Prop :=
| table_wf_0 mn nx : byte_ok mn → table_wf mn 0 0 nx
| table_wf_1 mn n : byte_ok mn → table_wf mn 1 1 (NNode (Some n))
| table_wf_n mn ct ln t a b :
    0 ≤ mn → mn + ct ≤ 256 → 2 ≤ ct →
    ct = Z.of_nat (length t) → ln = live t →
    t !! 0%nat = Some (Some a) → last t = Some (Some b) →
    table_wf mn ct ln (NTable t).

#[export] Hint Constructors table_wf : zmq.

(** ** Counting the live slots *)

Section live.
Context {A : Type}.
Implicit Types (t : list (option A)) (n : A).

Lemma live_cons o t : live (o :: t) = occ o + live t.
Proof. unfold live. destruct o; cbn -[Z.of_nat]; lia. Qed.

Lemma live_nonneg t : 0 ≤ live t.
Proof. unfold live. lia. Qed.

Lemma live_le_length t : live t ≤ Z.of_nat (length t).
Proof. induction t as [|[] t IH]; rewrite ?live_cons; cbn -[Z.of_nat]; unfold live in *; simpl in *; lia. Qed.

Lemma live_app t1 t2 : live (t1 ++ t2) = live t1 + live t2.
Proof. unfold live. rewrite omap_app, length_app. lia. Qed.

Lemma live_replicate k : live (replicate k (@None A)) = 0.
Proof. induction k; simpl; [done|]. rewrite live_cons. simpl. lia. Qed.

Lemma live_insert t i o o' :
  t !! i = Some o →
  live (<[i:=o']> t) = live t - occ o + occ o'.
Proof.
  revert i. induction t as [|x t IH]; intros [|i]; simpl; try done; intros Ht.
  - simplify_eq. rewrite !live_cons. lia.
  - rewrite !live_cons, (IH i) by done. lia.
Qed.

Lemma live_ge_1 t i n : t !! i = Some (Some n) → 1 ≤ live t.
Proof.
  revert i. induction t as [|x t IH]; intros [|i]; simpl; try done; intros Ht;
    rewrite live_cons; simplify_eq.
  - pose proof (live_nonneg t). simpl. lia.
  - specialize (IH i Ht). destruct x; simpl; lia.
Qed.

Lemma live_ge_2 t i j n m :
  i ≠ j → t !! i = Some (Some n) → t !! j = Some (Some m) → 2 ≤ live t.
Proof.
  intros Hij Hi Hj.
  assert (1 ≤ live (<[i:=None]> t)).
  { apply (live_ge_1 _ j m). by rewrite list_lookup_insert_ne. }
  rewrite (live_insert _ _ (Some n)) in H by done. simpl in H. lia.
Qed.

Lemma live_0_lookup t i : live t = 0 → mjoin (t !! i) = None.
Proof.
  intros Hl. destruct (t !! i) as [[n|]|] eqn:E; try done.
  apply live_ge_1 in E. lia.
Qed.

Lemma first_live_Some t i :
  first_live t = Some i →
  (∃ n, t !! i = Some (Some n)) ∧ ∀ j, (j < i)%nat → t !! j = Some None.
Proof.
  revert i. induction t as [|[n|] t IH]; simpl; intros i Hi; simplify_eq.
  - split; [by exists n|]. intros; lia.
  - destruct (first_live t) as [k|]; simplify_eq/=.
    destruct (IH k eq_refl) as [Hn Hlt]. split; [done|].
    intros [|j] Hj; simpl; [done|]. apply Hlt. lia.
Qed.

Lemma first_live_is_Some t : 1 ≤ live t → is_Some (first_live t).
Proof.
  induction t as [|[n|] t IH]; rewrite ?live_cons; simpl; intros Hl.
  - unfold live in Hl. simpl in Hl. lia.
  - eauto.
  - destruct IH as [k Hk]; [lia|]. rewrite Hk. simpl. eauto.
Qed.
End live.

(** ** Looking up a child *)

Section child.
Context {A : Type}.
Implicit Types (t : list (option A)) (n : A) (nx : next_u A).

Lemma in_range mn ct c : out_of_range mn ct c = false ↔ mn ≤ c < mn + ct.
Proof. unfold out_of_range. rewrite orb_false_iff, Z.ltb_ge, Z.leb_gt. lia. Qed.

Lemma child_0 mn nx c : child mn 0 nx c = None.
Proof. unfold child, out_of_range. by zcases. Qed.

Lemma child_1 mn (n : A) c :
  child mn 1 (NNode (Some n)) c = if c =? mn then Some n else None.
Proof. unfold child, out_of_range. by zcases. Qed.

Lemma child_table mn t c :
  child mn (Z.of_nat (length t)) (NTable t) c =
  if c <? mn then None else mjoin (t !! Z.to_nat (c - mn)).
Proof.
  unfold child, out_of_range. zcase; simpl; [done|]. zcase; [|done].
  by rewrite lookup_ge_None_2 by lia.
Qed.

Lemma child_table' mn ct t c :
  ct = Z.of_nat (length t) →
  child mn ct (NTable t) c = if c <? mn then None else mjoin (t !! Z.to_nat (c - mn)).
Proof. intros ->. apply child_table. Qed.

Lemma table_at_lookup t i : 0 ≤ i → table_at t i = t !! Z.to_nat i.
Proof. intros. unfold table_at. by zdecide. Qed.

Lemma table_wf_min mn ct ln nx : table_wf mn ct ln nx → byte_ok mn.
Proof. destruct 1; unfold byte_ok in *; lia. Qed.

Lemma table_wf_count mn ct ln nx : table_wf mn ct ln nx → 0 ≤ ct ≤ 256 ∧ 0 ≤ ln.
Proof.
  destruct 1; [lia..|]. split; [lia|]. subst. apply live_nonneg.
Qed.

(** An array has two live children at least. *)
Lemma table_wf_live mn ct ln t : table_wf mn ct ln (NTable t) → ct ≠ 0 → 2 ≤ ln.
Proof.
  inversion 1; subst; intros; [done|].
  rewrite last_lookup in *. eapply (live_ge_2 t 0 (pred (length t))); eauto. lia.
Qed.

Lemma table_wf_child_byte mn ct ln nx c n :
  table_wf mn ct ln nx → child mn ct nx c = Some n → byte_ok c.
Proof.
  unfold child. destruct (out_of_range mn ct c) eqn:E; [done|].
  apply in_range in E. intros H _. destruct H; unfold byte_ok in *; lia.
Qed.

(** Equality of tables by their children. *)
Lemma table_wf_no_child mn ct ln nx :
  table_wf mn ct ln nx → (∀ c, child mn ct nx c = None) → ct = 0 ∧ ln = 0.
Proof.
  destruct 1 as [|mn n|mn ct ln t a b ???? ? Hfst]; intros Hc; [done|exfalso..].
  - specialize (Hc mn). rewrite child_1 in Hc. by rewrite Z.eqb_refl in Hc.
  - subst ct. specialize (Hc mn). rewrite child_table in Hc.
    rewrite Z.ltb_irrefl, Z.sub_diag in Hc.
    change (Z.to_nat 0) with 0%nat in Hc.
    by rewrite Hfst in Hc.
Qed.

Lemma table_wf_no_live mn ct ln nx : table_wf mn ct ln nx → ln = 0 → ct = 0.
Proof.
  destruct 1 as [|mn n|mn ct ln t a b]; intros; [done|done|].
  exfalso. assert (1 ≤ live t) by (by eapply (live_ge_1 t 0)). lia.
Qed.

(** ** Storing a child *)

(** [extend] followed by a store in the slot of [c]. *)
Definition slot (mn ct : Z) nx (c : Z) : option (option A) :=
  if ct =? 1 then as_node nx else table ← as_table nx; table_at table (c - mn).

Lemma slot_child mn ct ln nx c :
  table_wf mn ct ln nx → out_of_range mn ct c = false →
  slot mn ct nx c = Some (child mn ct nx c).
Proof.
  intros Hwf Hr. pose proof Hr as Hr'. apply in_range in Hr'.
  unfold slot. destruct Hwf as [|mn n|mn ct ln t a b]; simpl in *; [lia| |].
  - rewrite child_1. by zdecide.
  - zdecide. rewrite table_at_lookup by lia. subst ct. rewrite child_table. zdecide.
    destruct (t !! Z.to_nat (c - mn)) as [o|] eqn:E; [done|].
    apply lookup_ge_None_1 in E. lia.
Qed.
End child.

Section store.
Context {A : Type}.
Implicit Types (t : list (option A)) (n : A) (nx : next_u A).

(** A table of the shape [extend] leaves, whose slot for [c] gets a child. *)
Lemma put_table_wf mn t c n :
  0 ≤ mn → mn + Z.of_nat (length t) ≤ 256 → 2 ≤ Z.of_nat (length t) →
  mn ≤ c < mn + Z.of_nat (length t) →
  (c = mn ∨ ∃ a, t !! 0%nat = Some (Some a)) →
  (c = mn + Z.of_nat (length t) - 1 ∨ ∃ b, last t = Some (Some b)) →
  let t' := <[Z.to_nat (c - mn) := Some n]> t in
  table_wf mn (Z.of_nat (length t))
           (live t + (match mjoin (t !! Z.to_nat (c - mn)) with Some _ => 0 | None => 1 end))
           (NTable t') ∧
  ∀ d, child mn (Z.of_nat (length t)) (NTable t') d =
       if d =? c then Some n else child mn (Z.of_nat (length t)) (NTable t) d.
Proof.
  intros Hmn Hmx Hct Hc Hfst Hlst t'. set (i := Z.to_nat (c - mn)) in *.
  assert (length t' = length t) as Hlen by apply length_insert.
  destruct (lookup_lt_is_Some_2 t i) as [o Ho]; [lia|].
  split.
  - assert (∃ a, t' !! 0%nat = Some (Some a)) as [a Ha].
    { unfold t'. destruct (decide (i = 0%nat)) as [->|].
      - exists n. apply list_lookup_insert_eq. lia.
      - rewrite list_lookup_insert_ne by done. destruct Hfst; [lia|done]. }
    assert (∃ b, last t' = Some (Some b)) as [b Hb].
    { rewrite last_lookup, Hlen. unfold t'.
      destruct (decide (i = pred (length t))) as [->|].
      - exists n. apply list_lookup_insert_eq. lia.
      - rewrite list_lookup_insert_ne by done. rewrite <-last_lookup.
        destruct Hlst; [lia|done]. }
    econstructor; [done|done|done|by rewrite Hlen| |exact Ha|exact Hb].
    unfold t'. rewrite (live_insert _ _ o) by done. rewrite Ho. destruct o; simpl; lia.
  - intros d. rewrite <-Hlen at 1. rewrite !child_table, ?Hlen.
    destruct (Z.eqb_spec d c) as [->|].
    + zdecide. unfold t'. by rewrite list_lookup_insert_eq by lia.
    + destruct (Z.ltb_spec d mn); [done|]. unfold t'.
      by rewrite list_lookup_insert_ne by lia.
Qed.
End store.

(** What [extend] leaves behind: a table with a slot for [c], possibly empty. *)
Inductive table_ready {A} (c : Z) : Z → Z → Z → next_u A → Prop :=
| ready_1 o : byte_ok c → table_ready c c 1 (occ o) (NNode o)
| ready_n mn ct ln t :
    0 ≤ mn → mn + ct ≤ 256 → 2 ≤ ct → mn ≤ c < mn + ct →
    ct = Z.of_nat (length t) → ln = live t →
    (c = mn ∨ ∃ a, t !! 0%nat = Some (Some a)) →
    (c = mn + ct - 1 ∨ ∃ b, last t = Some (Some b)) →
    (c = mn → mjoin (t !! 0%nat) = None → ∃ b, last t = Some (Some b)) →
    table_ready c mn ct ln (NTable t).

#[export] Hint Constructors table_ready : zmq.

Section ready.
Context {A : Type}.
Implicit Types (t : list (option A)) (n : A) (nx : next_u A).

Lemma table_wf_ready mn ct ln nx c :
  table_wf mn ct ln nx → out_of_range mn ct c = false →
  table_ready c mn ct ln nx.
Proof.
  intros Hwf Hr%in_range. destruct Hwf as [|mn n|]; [lia| |].
  - assert (c = mn) as -> by lia. by apply (ready_1 _ (Some n)).
  - econstructor; eauto; lia.
Qed.

Lemma extend_0 mn (nx : next_u A) c :
  extend mn 0 nx c = Some (c, 1, NNode None).
Proof.
  unfold extend. destruct (out_of_range mn 0 c) eqn:E; [done|].
  apply in_range in E. lia.
Qed.

Lemma extend_1 mn n c :
  byte_ok mn → byte_ok c → c ≠ mn →
  ∃ mn' ct' t', extend mn 1 (NNode (Some n)) c = Some (mn', ct', NTable t') ∧
    table_ready c mn' ct' 1 (NTable t') ∧
    ∀ d, child mn' ct' (NTable t') d = child mn 1 (NNode (Some n)) d.
Proof.
  unfold byte_ok. intros Hmn Hc Hne. unfold extend.
  destruct (out_of_range mn 1 c) eqn:E; [|apply in_range in E; lia].
  simpl. set (ct' := u16 _). set (mn' := Z.min mn c).
  assert (ct' = Z.abs (c - mn) + 1) as Hct.
  { unfold ct'. rewrite u16_small; zcase; lia. }
  set (i := Z.to_nat (mn - mn')).
  assert (i < Z.to_nat ct')%nat by lia.
  do 3 eexists. split; [done|].
  assert (length (<[i:=Some n]> (replicate (Z.to_nat ct') None)) = Z.to_nat ct')
    as Hlen by by rewrite length_insert, length_replicate.
  assert (∀ j, (j < Z.to_nat ct')%nat → <[i:=Some n]> (replicate (Z.to_nat ct') None) !! j
               = Some (if decide (i = j) then Some n else None)) as Hl.
  { intros j Hj. destruct (decide (i = j)) as [->|].
    - by rewrite list_lookup_insert_eq by (rewrite length_replicate; lia).
    - by rewrite list_lookup_insert_ne, lookup_replicate_2 by lia. }
  split.
  - apply ready_n; try lia.
    + rewrite (live_insert _ _ None) by (apply lookup_replicate_2; lia).
      rewrite live_replicate. done.
    + rewrite Hl by lia. case_decide; [right; eauto|left; lia].
    + rewrite last_lookup, Hlen, Hl by lia. case_decide; [right; eauto|left; lia].
    + intros ? _. rewrite last_lookup, Hlen, Hl by lia. case_decide; [eauto|lia].
  - intros d. rewrite child_table', child_1 by lia. destruct (Z.ltb_spec d mn'); [by zdecide|].
    destruct (decide (Z.to_nat (d - mn') < Z.to_nat ct')%nat).
    + rewrite Hl by done. case_decide; zcase; try done; lia.
    + rewrite lookup_ge_None_2 by lia. by zdecide.
Qed.

(** Growing an array upwards. *)
Lemma extend_above mn ln t c :
  table_wf mn (Z.of_nat (length t)) ln (NTable t) → 2 ≤ Z.of_nat (length t) → byte_ok c →
  mn + Z.of_nat (length t) ≤ c →
  ∃ ct' t', extend mn (Z.of_nat (length t)) (NTable t) c = Some (mn, ct', NTable t') ∧
    table_ready c mn ct' ln (NTable t') ∧
    ∀ d, child mn ct' (NTable t') d = child mn (Z.of_nat (length t)) (NTable t) d.
Proof.
  unfold byte_ok. intros Hwf Ht Hc Hab. inversion Hwf; subst; [lia|].
  unfold extend, out_of_range. zdecide.
  rewrite u16_small by lia.
  set (k := Z.to_nat (c - mn + 1 - Z.of_nat (length t))).
  assert (length (t ++ replicate k None) = Z.to_nat (c - mn + 1)) as Hlen.
  { rewrite length_app, length_replicate. lia. }
  do 2 eexists. split; [done|]. split.
  - apply ready_n; try lia.
    + rewrite live_app, live_replicate. lia.
    + right. rewrite lookup_app_l by lia. eauto.
  - intros d. rewrite child_table', child_table by lia. destruct (Z.ltb_spec d mn); [done|].
    destruct (decide (Z.to_nat (d - mn) < length t)%nat).
    + by rewrite lookup_app_l.
    + rewrite lookup_app_r, (lookup_ge_None_2 t) by lia.
      destruct (replicate k None !! _) as [o|] eqn:E; [|done].
      by apply lookup_replicate_1 in E as [-> _].
Qed.

(** Growing an array downwards. *)
Lemma extend_below mn ln t c :
  table_wf mn (Z.of_nat (length t)) ln (NTable t) → 2 ≤ Z.of_nat (length t) → byte_ok c →
  c < mn →
  ∃ ct' t', extend mn (Z.of_nat (length t)) (NTable t) c = Some (c, ct', NTable t') ∧
    table_ready c c ct' ln (NTable t') ∧
    ∀ d, child c ct' (NTable t') d = child mn (Z.of_nat (length t)) (NTable t) d.
Proof.
  unfold byte_ok. intros Hwf Ht Hc Hbe. inversion Hwf; subst; [lia|].
  unfold extend, out_of_range. zdecide. rewrite u16_small by lia.
  set (k := Z.to_nat (mn - c)).
  assert (length (replicate k None ++ t) = (k + length t)%nat) as Hlen.
  { by rewrite length_app, length_replicate. }
  do 2 eexists. split; [done|]. split.
  - apply ready_n; try lia.
    + rewrite live_app, live_replicate. lia.
    + right. rewrite last_app. match goal with H : last t = _ |- _ => rewrite H end. eauto.
    + intros _ _. rewrite last_app. match goal with H : last t = _ |- _ => rewrite H end. eauto.
  - intros d. rewrite child_table', child_table by lia. destruct (Z.ltb_spec d mn).
    + zcase; [done|]. by rewrite lookup_app_l, lookup_replicate_2 by (rewrite ?length_replicate; lia).
    + zdecide. rewrite lookup_app_r; rewrite length_replicate; [|lia].
      do 2 f_equal. lia.
Qed.

Lemma extend_spec mn ct ln nx c :
  table_wf mn ct ln nx → byte_ok c →
  ∃ mn' ct' nx', extend mn ct nx c = Some (mn', ct', nx') ∧
    table_ready c mn' ct' ln nx' ∧
    ∀ d, child mn' ct' nx' d = child mn ct nx d.
Proof.
  intros Hwf Hc. destruct (out_of_range mn ct c) eqn:E.
  2:{ exists mn, ct, nx. unfold extend. rewrite E. by eauto using table_wf_ready. }
  pose proof Hwf as Hwf'. destruct Hwf' as [mn nx|mn n|mn ct ln t a b].
  - rewrite extend_0. do 3 eexists. split; [done|]. split; [by apply (ready_1 _ None)|].
    intros d. rewrite child_0. unfold child. by destruct (out_of_range c 1 d).
  - assert (c ≠ mn) as Hne.
    { intros ->. unfold out_of_range in E.
      rewrite orb_true_iff, Z.ltb_lt, Z.leb_le in E. lia. }
    edestruct (extend_1 mn n c) as (mn' & ct' & t' & ? & ? & ?); eauto 10.
  - subst ct. unfold out_of_range in E. rewrite orb_true_iff, Z.ltb_lt, Z.leb_le in E.
    destruct E as [E|E].
    + edestruct extend_below as (ct' & t' & ? & ? & ?); eauto 10.
    + edestruct extend_above as (ct' & t' & ? & ? & ?); eauto 10.
Qed.

Lemma ready_slot c mn ct ln nx :
  table_ready c mn ct ln nx → slot mn ct nx c = Some (child mn ct nx c).
Proof.
  unfold slot. destruct 1 as [o|mn ct ln t].
  - unfold child, out_of_range. by zdecide.
  - zdecide. rewrite table_at_lookup by lia. subst ct. rewrite child_table. zdecide.
    by destruct (lookup_lt_is_Some_2 t (Z.to_nat (c - mn))) as [o ->]; [lia|].
Qed.

(** The number of live children once the slot of [c] is filled. *)
Definition live_after mn ct ln nx c : Z :=
  match child mn ct nx c with Some _ => ln | None => ln + 1 end.

Lemma ready_put c mn ct ln nx n :
  table_ready c mn ct ln nx →
  table_wf mn ct (live_after mn ct ln nx c) (put_child mn ct nx c (Some n)) ∧
  ∀ d, child mn ct (put_child mn ct nx c (Some n)) d =
       if d =? c then Some n else child mn ct nx d.
Proof.
  unfold live_after, put_child. destruct 1 as [o Hc|mn ct ln t].
  - simpl. split.
    + assert (child c 1 (NNode o) c = o) as ->.
      { unfold child, out_of_range. by zdecide. }
      destruct o; apply table_wf_1; done.
    + intros d. rewrite child_1. zcase; [done|].
      unfold child, out_of_range. by zcases.
  - zdecide. subst ct ln. destruct (put_table_wf mn t c n) as [Hwf Hch]; try done; try lia.
    split; [|done]. rewrite child_table. zdecide.
    revert Hwf. destruct (mjoin (t !! Z.to_nat (c - mn))); [by rewrite Z.add_0_r|done].
Qed.

(** A fresh child is the first of a single-child node, and not the first of
    an array: the two assertions on [_live_nodes] in [add]. *)
Lemma ready_live c mn ct ln nx :
  table_ready c mn ct ln nx → child mn ct nx c = None →
  if ct =? 1 then ln = 0 else 1 ≤ ln.
Proof.
  destruct 1 as [o|mn ct ln t ? ? ? ? ? ? Hfst Hlst Hc0].
  - simpl. unfold child, out_of_range. zdecide. by intros ->.
  - subst. zdecide. rewrite child_table. zdecide. intros Hnone.
    destruct Hfst as [->|[a Ha]]; [|by eapply live_ge_1].
    rewrite Z.sub_diag in Hnone. destruct Hc0 as [b Hb]; [done|done|].
    rewrite last_lookup in Hb. by eapply live_ge_1.
Qed.
End ready.

(** ** Pruning a child *)

Section prune.
Context {A : Type}.
Implicit Types (t : list (option A)) (n : A) (nx : next_u A).

Lemma child_clear mn t c d :
  mn ≤ c < mn + Z.of_nat (length t) →
  child mn (Z.of_nat (length t)) (NTable (<[Z.to_nat (c - mn) := None]> t)) d =
  if d =? c then None else child mn (Z.of_nat (length t)) (NTable t) d.
Proof.
  intros Hc. rewrite child_table', child_table by (by rewrite length_insert).
  destruct (Z.eqb_spec d c) as [->|].
  - zdecide. by rewrite list_lookup_insert_eq by lia.
  - zcase; [done|]. by rewrite list_lookup_insert_ne by lia.
Qed.

(** One live slot left: the single-child representation. *)
Lemma child_single mn t i n d :
  live t = 1 → t !! i = Some (Some n) →
  child (mn + Z.of_nat i) 1 (NNode (Some n)) d = child mn (Z.of_nat (length t)) (NTable t) d.
Proof.
  intros Hl Hi. rewrite child_1, child_table.
  destruct (Z.eqb_spec d (mn + Z.of_nat i)) as [->|Hne].
  - zdecide. replace (Z.to_nat _) with i by lia. by rewrite Hi.
  - zcase; [done|].
    destruct (t !! Z.to_nat (d - mn)) as [[m|]|] eqn:E; try done.
    assert (2 ≤ live t); [|lia]. eapply (live_ge_2 t i (Z.to_nat (d - mn))); eauto. lia.
Qed.

Lemma live_firstn_none t k :
  (∀ j, (j < k)%nat → mjoin (t !! j) = None) → live (drop k t) = live t.
Proof.
  revert t. induction k as [|k IH]; intros [|x t] Hk; try done.
  simpl. rewrite live_cons, IH.
  - specialize (Hk 0%nat ltac:(lia)). simpl in Hk. by subst.
  - intros j Hj. apply (Hk (S j)). lia.
Qed.

(** Dropping the empty slots on the left. *)
Lemma drop_table_wf mn t k a b :
  0 ≤ mn → mn + Z.of_nat (length t) ≤ 256 →
  t !! k = Some (Some a) → last t = Some (Some b) → 2 ≤ live t →
  (∀ j, (j < k)%nat → mjoin (t !! j) = None) →
  table_wf (mn + Z.of_nat k) (Z.of_nat (length t) - Z.of_nat k) (live t) (NTable (drop k t)) ∧
  ∀ d, child (mn + Z.of_nat k) (Z.of_nat (length t) - Z.of_nat k) (NTable (drop k t)) d =
       child mn (Z.of_nat (length t)) (NTable t) d.
Proof.
  intros Hmn Hmx Ha Hb Hl Hk. pose proof (lookup_lt_Some _ _ _ Ha) as Hkl.
  assert (Z.of_nat (length (drop k t)) = Z.of_nat (length t) - Z.of_nat k) as Hlen.
  { rewrite length_drop. lia. }
  split.
  - assert (2 ≤ Z.of_nat (length (drop k t))).
    { pose proof (live_firstn_none t k Hk) as Hd.
      pose proof (live_le_length (drop k t)). lia. }
    econstructor; [lia|lia|lia|done| | |].
    + by rewrite live_firstn_none.
    + rewrite lookup_drop, Nat.add_0_r. done.
    + rewrite last_lookup, lookup_drop. rewrite last_lookup in Hb.
      rewrite <-Hb. f_equal. rewrite length_drop. lia.
  - intros d. rewrite child_table', child_table by done.
    destruct (Z.ltb_spec d (mn + Z.of_nat k)).
    + zcase; [done|]. rewrite Hk by lia. done.
    + zdecide. rewrite lookup_drop. do 2 f_equal. lia.
Qed.

Lemma live_take_none t k :
  (∀ j, (k ≤ j)%nat → mjoin (t !! j) = None) → live (take k t) = live t.
Proof.
  intros Hk. rewrite <-(take_drop k t) at 2. rewrite live_app.
  assert (live (drop k t) = 0); [|lia].
  assert (∀ j, mjoin (drop k t !! j) = None) as H.
  { intros j. rewrite lookup_drop. apply Hk. lia. }
  clear Hk. induction (drop k t) as [|x l IH]; [done|].
  rewrite live_cons, IH; [|intros j; apply (H (S j))].
  specialize (H 0%nat). simpl in H. by subst.
Qed.

(** Dropping the empty slots on the right. *)
Lemma take_table_wf mn t k a b :
  0 ≤ mn → mn + Z.of_nat (length t) ≤ 256 →
  t !! 0%nat = Some (Some a) → t !! k = Some (Some b) → 2 ≤ live t →
  (∀ j, (k < j)%nat → mjoin (t !! j) = None) →
  table_wf mn (Z.of_nat k + 1) (live t) (NTable (take (S k) t)) ∧
  ∀ d, child mn (Z.of_nat k + 1) (NTable (take (S k) t)) d =
       child mn (Z.of_nat (length t)) (NTable t) d.
Proof.
  intros Hmn Hmx Ha Hb Hl Hk. pose proof (lookup_lt_Some _ _ _ Hb) as Hkl.
  assert (Z.of_nat (length (take (S k) t)) = Z.of_nat k + 1) as Hlen.
  { rewrite length_take. lia. }
  assert (live (take (S k) t) = live t) as Hlt.
  { apply live_take_none. intros j Hj. apply Hk. lia. }
  split.
  - assert (2 ≤ Z.of_nat (length (take (S k) t))).
    { pose proof (live_le_length (take (S k) t)). lia. }
    econstructor; [done|lia|lia|done|done| |].
    + rewrite lookup_take. done.
    + rewrite last_lookup. replace (pred _) with k by (rewrite length_take; lia).
      rewrite lookup_take. case_decide; [done|lia].
  - intros d. rewrite child_table', child_table by done. zcase; [done|].
    rewrite lookup_take. case_decide; [done|]. rewrite Hk by lia. done.
Qed.
End prune.

(** The facts the two pruning routines start from: the array, the slot of [c]
    and the array after [_next.table[c - _min] = 0]. *)
Section prune_facts.
Context {A : Type}.
Implicit Types (t : list (option A)) (n : A).

Lemma table_wf_has_child mn ct ln (nx : next_u A) :
  table_wf mn ct ln nx → ln ≠ 0 → ∃ n, child mn ct nx mn = Some n.
Proof.
  destruct 1 as [|mn n|mn ct ln t a b ???? ? Hfst]; intros Hl; [done|..].
  - exists n. rewrite child_1. by rewrite Z.eqb_refl.
  - exists a. rewrite child_table', Z.ltb_irrefl, Z.sub_diag by done.
    change (Z.to_nat 0) with 0%nat. by rewrite Hfst.
Qed.

Lemma child_in_range mn ct (nx : next_u A) c n :
  child mn ct nx c = Some n → out_of_range mn ct c = false.
Proof. unfold child. by destruct (out_of_range mn ct c). Qed.

Lemma child_lookup mn t c n :
  child mn (Z.of_nat (length t)) (NTable t) c = Some n →
  mn ≤ c < mn + Z.of_nat (length t) ∧ t !! Z.to_nat (c - mn) = Some (Some n).
Proof.
  intros Hc. pose proof (child_in_range _ _ _ _ _ Hc) as Hr%in_range. split; [done|].
  rewrite child_table in Hc. zcase_in Hc.
  destruct (t !! Z.to_nat (c - mn)) as [[m|]|]; simplify_eq/=; done.
Qed.

Lemma live_clear t i n :
  t !! i = Some (Some n) → live (<[i:=None]> t) = live t - 1.
Proof. intros H. rewrite (live_insert _ _ (Some n)) by done. simpl. lia. Qed.

Lemma clear_other t i j o : i ≠ j → t !! j = o → <[i:=None]> t !! j = o.
Proof. intros ? <-. by apply list_lookup_insert_ne. Qed.

Lemma last_lookup_Z t o :
  last t = Some o → t !! Z.to_nat (Z.of_nat (length t) - 1) = Some o.
Proof. rewrite last_lookup. intros <-. f_equal. lia. Qed.

(** The leftmost live slot of an array whose slot 0 is empty. *)
Lemma first_live_left t i :
  t !! 0%nat = Some None → first_live (drop 1 t) = Some i →
  (∃ n, t !! S i = Some (Some n)) ∧ ∀ j, (j < S i)%nat → mjoin (t !! j) = None.
Proof.
  intros H0 [[n Hn] Hlt]%first_live_Some. rewrite lookup_drop in Hn. split; [by exists n|].
  intros [|j] Hj; [by rewrite H0|].
  specialize (Hlt j). rewrite lookup_drop in Hlt. simpl in Hlt. by rewrite Hlt by lia.
Qed.

(** The rightmost live slot of an array whose last slot is empty. *)
Lemma first_live_right t i :
  t ≠ [] → last t = Some None → first_live (drop 1 (reverse t)) = Some i →
  (S i < length t)%nat ∧ (∃ n, t !! (length t - S (S i))%nat = Some (Some n)) ∧
  ∀ j, (length t - S (S i) < j)%nat → mjoin (t !! j) = None.
Proof.
  intros Hne Hlast [[n Hn] Hlt]%first_live_Some. rewrite lookup_drop in Hn.
  apply reverse_lookup_Some in Hn as [Hn Hlen].
  replace (length t - S (1 + i))%nat with (length t - S (S i))%nat in Hn by lia.
  split; [lia|]. split; [by exists n|]. intros j Hj.
  destruct (decide (j < length t)%nat); [|by rewrite lookup_ge_None_2 by lia].
  destruct (decide (j = pred (length t))) as [->|].
  { rewrite <-last_lookup. by rewrite Hlast. }
  specialize (Hlt (length t - S (S j))%nat). rewrite lookup_drop in Hlt.
  rewrite reverse_lookup in Hlt by lia.
  replace (length t - S (1 + (length t - S (S j))))%nat with j in Hlt by lia.
  by rewrite Hlt by lia.
Qed.

Lemma first_live_drop_is_Some t :
  t !! 0%nat = Some None → 1 ≤ live t → is_Some (first_live (drop 1 t)).
Proof.
  destruct t as [|o t]; intros Ho Hl; simplify_eq/=.
  rewrite live_cons in Hl. by apply first_live_is_Some.
Qed.

Lemma live_reverse t : live (reverse t) = live t.
Proof.
  induction t as [|o t IH]; [done|].
  rewrite reverse_cons, live_app, live_cons, IH. rewrite live_cons. unfold live at 2. simpl. lia.
Qed.

Lemma first_live_rev_is_Some t :
  last t = Some None → 1 ≤ live t → is_Some (first_live (drop 1 (reverse t))).
Proof.
  intros Hlast Hl. apply first_live_drop_is_Some; [|by rewrite live_reverse].
  assert (0 < length t)%nat. { destruct t; [done|simpl; lia]. }
  rewrite reverse_lookup by done. rewrite <-Hlast, last_lookup. f_equal. lia.
Qed.
End prune_facts.

(** What pruning must do to a table, whichever way it compacts it. *)
Definition pruned {A} (mn ct ln : Z) (nx : next_u A) (c : Z)
    (r : option (Z * Z * Z * next_u A)) : Prop :=
  ∃ mn' ct' ln' nx', r = Some (mn', ct', ln', nx') ∧
    table_wf mn' ct' ln' nx' ∧
    ∀ d, child mn' ct' nx' d = if d =? c then None else child mn ct nx d.

(** An array whose child of [c] has just become redundant. *)
Record prune_ctx {A} (mn c : Z) (t : list (option A)) (n a b : A) : Prop := {
  pc_min : 0 ≤ mn;
  pc_max : mn + Z.of_nat (length t) ≤ 256;
  pc_first : t !! 0%nat = Some (Some a);
  pc_last : last t = Some (Some b);
  pc_range : mn ≤ c < mn + Z.of_nat (length t);
  pc_child : t !! Z.to_nat (c - mn) = Some (Some n);
}.

Section prune_ctx.
Context {A : Type} (mn c : Z) (t : list (option A)) (n a b : A).
Hypothesis Hctx : prune_ctx mn c t n a b.
Let t' := <[Z.to_nat (c - mn) := None]> t.
Let ct := Z.of_nat (length t).

Lemma prune_len : length t' = length t.
Proof. apply length_insert. Qed.

Lemma prune_live : live t' = live t - 1.
Proof. destruct Hctx. by eapply live_clear. Qed.

Lemma prune_child d :
  child mn ct (NTable t') d = if d =? c then None else child mn ct (NTable t) d.
Proof. destruct Hctx. by apply child_clear. Qed.

Lemma prune_first : c ≠ mn → t' !! 0%nat = Some (Some a).
Proof. destruct Hctx. intros. unfold t'. apply clear_other; [lia|done]. Qed.

Lemma prune_last : c ≠ mn + ct - 1 → last t' = Some (Some b).
Proof.
  destruct Hctx. intros. rewrite last_lookup, prune_len. unfold t'.
  apply clear_other; [lia|]. by rewrite <-last_lookup.
Qed.

(** The slot of an outermost character is now empty. *)
Lemma prune_hole_first : c = mn → t' !! 0%nat = Some None.
Proof.
  destruct Hctx. intros ->. unfold t'. rewrite Z.sub_diag.
  apply list_lookup_insert_eq. lia.
Qed.

Lemma prune_hole_last : c = mn + ct - 1 → last t' = Some None.
Proof.
  destruct Hctx. intros. rewrite last_lookup, prune_len. unfold t'.
  replace (Z.to_nat (c - mn)) with (pred (length t)) by lia.
  apply list_lookup_insert_eq. lia.
Qed.

Lemma prune_single i m :
  live t = 2 → t' !! i = Some (Some m) →
  pruned mn ct (live t) (NTable t) c (Some (mn + Z.of_nat i, 1, 1, NNode (Some m))).
Proof.
  intros Hl Hi. pose proof (lookup_lt_Some _ _ _ Hi). rewrite prune_len in *.
  destruct Hctx. do 4 eexists. split; [done|]. split.
  - apply table_wf_1. unfold byte_ok. lia.
  - intros d. rewrite <-prune_child. unfold ct. rewrite <-prune_len.
    apply child_single; [rewrite prune_live; lia|done].
Qed.

(** Compacting from the left up to the first live slot. *)
Lemma prune_drop i :
  c = mn → 3 ≤ live t → first_live (drop 1 t') = Some i →
  (S i < length t)%nat ∧ mn + Z.of_nat (S i) < 256 ∧
  pruned mn ct (live t) (NTable t) c
    (Some (mn + Z.of_nat (S i), ct - Z.of_nat (S i), live t - 1,
           NTable (take (Z.to_nat (ct - Z.of_nat (S i))) (drop (S i) t')))).
Proof.
  intros Heq Hl Hi. pose proof prune_live as Hl'.
  destruct (first_live_left t' i (prune_hole_first Heq) Hi) as [[m Hm] Hbefore].
  pose proof (lookup_lt_Some _ _ _ Hm) as Him. rewrite prune_len in Him.
  pose proof (prune_last) as Hlast. destruct Hctx. split; [done|]. split; [lia|].
  edestruct (drop_table_wf mn t' (S i) m b) as [Hwf Hch]; try done.
  { by rewrite prune_len. } { apply Hlast. unfold ct. lia. } { lia. }
  rewrite take_ge by (rewrite length_drop, prune_len; unfold ct; lia).
  do 4 eexists. split; [done|]. rewrite Hl', prune_len in Hwf. rewrite prune_len in Hch.
  split; [done|]. intros d. rewrite Hch. apply prune_child.
Qed.

(** Compacting from the right down to the last live slot. *)
Lemma prune_take i :
  c ≠ mn → c = mn + ct - 1 → 3 ≤ live t → first_live (drop 1 (reverse t')) = Some i →
  (S i < length t)%nat ∧
  pruned mn ct (live t) (NTable t) c
    (Some (mn, ct - Z.of_nat (S i), live t - 1,
           NTable (take (Z.to_nat (ct - Z.of_nat (S i))) t'))).
Proof.
  intros Hne Heq Hl Hi. pose proof prune_live as Hl'. pose proof prune_len as Hlen.
  destruct (first_live_right t' i) as (Hil & [m Hm] & Hafter); try done.
  { intros E. rewrite E in Hlen. destruct Hctx. simpl in Hlen. lia. }
  { by apply prune_hole_last. }
  rewrite prune_len in *. split; [done|].
  edestruct (take_table_wf mn t' (length t - S (S i)) a m) as [Hwf Hch]; try done.
  { by destruct Hctx. } { rewrite prune_len. by destruct Hctx. } { by apply prune_first. } { lia. }
  do 4 eexists. split; [done|]. rewrite prune_len in Hch. rewrite Hl' in Hwf.
  replace (Z.of_nat (length t - S (S i)) + 1) with (ct - Z.of_nat (S i)) in * by (unfold ct; lia).
  replace (Z.to_nat _) with (S (length t - S (S i))) by (unfold ct; lia).
  split; [done|]. intros d. rewrite Hch. apply prune_child.
Qed.

(** Nothing to compact. *)
Lemma prune_middle :
  c ≠ mn → c ≠ mn + ct - 1 → 2 ≤ live t →
  pruned mn ct (live t) (NTable t) c (Some (mn, ct, live t - 1, NTable t')).
Proof.
  intros ? ? Hl. pose proof (live_le_length t). do 4 eexists. split; [done|]. split.
  - pose proof prune_len as Hlen. unfold ct in *. destruct Hctx.
    apply (table_wf_n _ _ _ _ a b); try lia; rewrite ?Hlen; try done.
    + by rewrite prune_live. + by apply prune_first. + by apply prune_last.
  - apply prune_child.
Qed.

(** An array with two live children loses one of its outermost. *)
Lemma prune_outer : live t = 2 → c ≠ mn → c = mn + ct - 1.
Proof.
  intros H2 Hne. pose proof prune_live as Hl'.
  destruct (decide (c = mn + ct - 1)) as [|Hne']; [done|exfalso].
  assert (2 ≤ live t'); [|lia]. pose proof (prune_first Hne). pose proof (prune_last Hne') as Hlast.
  rewrite last_lookup, prune_len in Hlast.
  eapply (live_ge_2 t' 0 (pred (length t))); [|done|done].
  destruct Hctx. lia.
Qed.
End prune_ctx.

Lemma table_wf_prune_ctx {A} mn ct ln (t : list (option A)) c n :
  table_wf mn ct ln (NTable t) → ct ≠ 0 → child mn ct (NTable t) c = Some n →
  ct = Z.of_nat (length t) ∧ ln = live t ∧ 2 ≤ live t ∧ ∃ a b, prune_ctx mn c t n a b.
Proof.
  intros Hwf Hct Hc. pose proof (table_wf_live _ _ _ _ Hwf Hct).
  inversion Hwf; subst; [done|]. pose proof (child_lookup _ _ _ _ Hc) as [? ?].
  do 3 (split; [done|]). by do 2 eexists.
Qed.

#[global] Arguments drop : simpl never.
#[global] Arguments take : simpl never.

(** ** Enumerating keys *)

(** Strict lexicographic order on keys. *)
Fixpoint lex_lt (p q : list Z) : Prop :=
  match p, q with
  | [], _ :: _ => True
  | a :: p, b :: q => a < b ∨ (a = b ∧ lex_lt p q)
  | _, [] => False
  end.

(** The keys of a subtree, as suffixes below the node: sorted, hence without
    duplicates, and exactly the subscribed ones. *)
Definition enumerates (P : list Z → Prop) (l : list (list Z)) : Prop :=
  StronglySorted lex_lt l ∧ ∀ p, p ∈ l ↔ P p.

Lemma sorted_map_cons c l :
  StronglySorted lex_lt l → StronglySorted lex_lt (map (cons c) l).
Proof.
  induction 1 as [|p l Hl IH Hp]; simpl; constructor; [done|].
  apply Forall_map. eapply Forall_impl; [exact Hp|]. simpl. auto.
Qed.

Lemma sorted_app l1 l2 :
  StronglySorted lex_lt l1 → StronglySorted lex_lt l2 →
  (∀ p q, p ∈ l1 → q ∈ l2 → lex_lt p q) → StronglySorted lex_lt (l1 ++ l2).
Proof.
  intros H1 H2 Hlt. induction H1 as [|p l1 Hl IH Hp]; [done|]. simpl. constructor.
  - apply IH. intros. apply Hlt; [by right|done].
  - apply Forall_app. split; [done|]. apply Forall_forall. intros q Hq.
    apply Hlt; [by left|done].
Qed.

Definition emits (buff : list Z) (P : list Z → Prop) (r : option (list (list Z))) : Prop :=
  ∃ l, r = Some (map (app buff) l) ∧ enumerates P l.

(** Prepending the character [c] to the keys of a child. *)
Lemma emits_child buff c P r :
  emits (buff ++ [c]) P r →
  ∃ l, r = Some (map (app buff) l) ∧
       enumerates (λ p, ∃ q, p = c :: q ∧ P q) l.
Proof.
  intros (l & -> & Hs & Hm). exists (map (cons c) l). split.
  - f_equal. rewrite map_map. apply map_ext. intros p. by rewrite <-app_assoc.
  - split; [by apply sorted_map_cons|]. intros p. rewrite list_elem_of_fmap. naive_solver.
Qed.
