(* ===== verification/Trie.v ===== *)
(** * [trie_t]: the subscription trie of XSUB (src/trie.cpp)

    Keys are byte strings; a node counts how often its key was subscribed in
    the 32-bit counter [_refcnt].  The tree is modelled by value (no node is
    shared) and every operation returns [None] where the C++ would fail a
    [zmq_assert], read the inactive member of the union or index out of a
    table. *)

From S2P Require Import Prelude ByteTable.

Inductive trie : Type :=
| Trie (refcnt min count live_nodes : Z) (next : next_u trie).

Definition refcnt (t : trie) : Z := let 'Trie rc _ _ _ _ := t in rc.
Definition live_nodes (t : trie) : Z := let 'Trie _ _ _ ln _ := t in ln.

(** [trie_t::trie_t] *)
Definition trie_new : trie := Trie 0 0 0 0 NUninit.

(** [trie_t::is_redundant] *)
Definition is_redundant (t : trie) : bool :=
  let 'Trie rc _ _ ln _ := t in (rc =? 0) && (ln =? 0).

(** [trie_t::~trie_t]: [None] when the destructor's assertion fails. *)
Fixpoint trie_delete (t : trie) : option unit :=
  let 'Trie _ _ ct _ nx := t in
  let delete_opt (o : option trie) : option unit :=
    match o with None => Some tt | Some n => trie_delete n end in
  if ct =? 1 then
    match nx with
    | NNode (Some n) => trie_delete n
    | _ => None
    end
  else if 1 <? ct then
    match nx with
    | NTable tbl =>
        (fix go (l : list (option trie)) : option unit :=
           match l with
           | [] => Some tt
           | o :: l' => _ ← delete_opt o; go l'
           end) tbl
    | _ => None
    end
  else Some tt.

(** [trie_t::add] *)
Fixpoint add (t : trie) (prefix : list Z) : option (bool * trie) :=
  let 'Trie rc mn ct ln nx := t in
  match prefix with
  | [] => let rc := u32 (rc + 1) in Some (rc =? 1, Trie rc mn ct ln nx)
  | c :: prefix =>
      '(mn, ct, nx) ← extend mn ct nx c;
      next ← slot mn ct nx c;
      '(next, ln) ← match next with
                    | Some n => Some (n, ln)
                    | None =>
                        let ln := u16 (ln + 1) in
                        _ ← zmq_assert (if ct =? 1 then ln =? 1 else 1 <? ln);
                        Some (trie_new, ln)
                    end;
      '(ret, next) ← add next prefix;
      Some (ret, Trie rc mn ct ln (put_child mn ct nx c (Some next)))
  end.

(** The part of [trie_t::rm] that prunes the child of [c] and compacts the
    table. *)
Definition prune (mn ct ln : Z) (nx : next_u trie) (c : Z) :
    option (Z * Z * Z * next_u trie) :=
  _ ← zmq_assert (0 <? ct);
  if ct =? 1 then
    let ln := u16 (ln - 1) in
    _ ← zmq_assert (ln =? 0);
    Some (mn, 0, ln, NNode None)
  else
    table ← as_table nx;
    let table := <[Z.to_nat (c - mn) := None]> table in
    _ ← zmq_assert (1 <? ln);
    let ln := u16 (ln - 1) in
    if ln =? 1 then
      '(node, mn) ← (if c =? mn then
                       node ← table_at table (ct - 1); Some (node, u8 (mn + (ct - 1)))
                     else if c =? mn + ct - 1 then
                       node ← table_at table 0; Some (node, mn)
                     else Some (None, mn));
      _ ← zmq_assert (bool_decide (is_Some node));
      Some (mn, 1, ln, NNode node)
    else if c =? mn then
      let new_min := match first_live (drop 1 table) with
                     | Some i => u8 (Z.of_nat (S i) + mn)
                     | None => mn
                     end in
      _ ← zmq_assert (negb (new_min =? mn));
      _ ← zmq_assert (mn <? new_min);
      _ ← zmq_assert (new_min - mn <? ct);
      let ct := u16 (ct - (new_min - mn)) in
      Some (new_min, ct, ln, NTable (take (Z.to_nat ct) (drop (Z.to_nat (new_min - mn)) table)))
    else if c =? mn + ct - 1 then
      let new_count := match first_live (drop 1 (reverse table)) with
                       | Some i => u16 (ct - Z.of_nat (S i))
                       | None => ct
                       end in
      _ ← zmq_assert (negb (new_count =? ct));
      Some (mn, new_count, ln, NTable (take (Z.to_nat new_count) table))
    else Some (mn, ct, ln, NTable table).

(** [trie_t::rm] *)
Fixpoint rm (t : trie) (prefix : list Z) : option (bool * trie) :=
  let 'Trie rc mn ct ln nx := t in
  match prefix with
  | [] =>
      if rc =? 0 then Some (false, t)
      else let rc := u32 (rc - 1) in Some (rc =? 0, Trie rc mn ct ln nx)
  | c :: prefix =>
      if (ct =? 0) || out_of_range mn ct c then Some (false, t)
      else
        next ← slot mn ct nx c;
        match next with
        | None => Some (false, t)
        | Some n =>
            '(ret, n) ← rm n prefix;
            if is_redundant n then
              _ ← trie_delete n;
              '(mn, ct, ln, nx) ← prune mn ct ln nx c;
              Some (ret, Trie rc mn ct ln nx)
            else Some (ret, Trie rc mn ct ln (put_child mn ct nx c (Some n)))
        end
  end.

(** [trie_t::check]; the loop consumes one byte of the data per turn. *)
Fixpoint check (current : trie) (data : list Z) : option bool :=
  let 'Trie rc mn ct _ nx := current in
  if negb (rc =? 0) then Some true
  else match data with
       | [] => Some false
       | c :: data =>
           if out_of_range mn ct c then Some false
           else if ct =? 1 then
             node ← as_node nx;
             match node with None => None | Some n => check n data end
           else
             table ← as_table nx;
             next ← table_at table (c - mn);
             match next with None => Some false | Some n => check n data end
       end.

(** [trie_t::apply_helper]: the calls [func_ (buff, buffsize)], in order.  The
    buffer is the path from the root; its growth by [realloc] does not fail. *)
Fixpoint apply_helper (buff : list Z) (t : trie) : option (list (list Z)) :=
  let 'Trie rc mn ct _ nx := t in
  let here := if rc =? 0 then [] else [buff] in
  if ct =? 0 then Some here
  else if ct =? 1 then
    match nx with
    | NNode (Some n) => calls ← apply_helper (buff ++ [mn]) n; Some (here ++ calls)
    | _ => None
    end
  else
    match nx with
    | NTable tbl =>
        calls ← (fix go (c : Z) (l : list (option trie)) : option (list (list Z)) :=
                   match l with
                   | [] => Some []
                   | None :: l' => go (c + 1) l'
                   | Some n :: l' =>
                       calls ← apply_helper (buff ++ [u8 (mn + c)]) n;
                       rest ← go (c + 1) l';
                       Some (calls ++ rest)
                   end) 0 tbl;
        Some (here ++ calls)
    | _ => None
    end.

(** [trie_t::apply] *)
Definition apply (t : trie) : option (list (list Z)) := apply_helper [] t.

(** ** Pruning *)


Lemma prune_1 mn (n : trie) :
  byte_ok mn → pruned mn 1 1 (NNode (Some n)) mn (prune mn 1 1 (NNode (Some n)) mn).
Proof.
  intros Hmn. do 4 eexists. split; [done|]. split; [by constructor|].
  intros d. rewrite child_0, child_1. by zcase.
Qed.

Section prune.
Context (mn c : Z) (t : list (option trie)) (n a b : trie).
Hypothesis Hctx : prune_ctx mn c t n a b.
Let t' := <[Z.to_nat (c - mn) := None]> t.
Let ct := Z.of_nat (length t).

Lemma prune_left : c = mn → 3 ≤ live t →
  pruned mn ct (live t) (NTable t) c (prune mn ct (live t) (NTable t) c).
Proof.
  intros Heq Hl. pose proof (prune_live _ _ _ _ _ _ Hctx) as Hl'.
  pose proof (live_le_length t). fold t' in Hl'.
  destruct (first_live_drop_is_Some t') as [i Hi].
  { by apply (prune_hole_first _ _ _ _ _ _ Hctx). } { lia. }
  destruct (prune_drop _ _ _ _ _ _ Hctx i Heq Hl Hi) as (Hil & Himx & HP).
  destruct Hctx. unfold prune. simpl. fold t'. unfold zmq_assert. unfold ct in *. zdecide.
  rewrite u16_small by lia. zdecide. rewrite Hi.
  rewrite u8_small by lia. zdecide. rewrite u16_small by lia.
  replace (Z.of_nat (S i) + mn - mn) with (Z.of_nat (S i)) by lia.
  rewrite Nat2Z.id, (Z.add_comm _ mn). done.
Qed.

Lemma prune_right : c ≠ mn → c = mn + ct - 1 → 3 ≤ live t →
  pruned mn ct (live t) (NTable t) c (prune mn ct (live t) (NTable t) c).
Proof.
  intros Hne Heq Hl. pose proof (prune_live _ _ _ _ _ _ Hctx) as Hl'.
  pose proof (live_le_length t). fold t' in Hl'.
  destruct (first_live_rev_is_Some t') as [i Hi].
  { by apply (prune_hole_last _ _ _ _ _ _ Hctx). } { lia. }
  destruct (prune_take _ _ _ _ _ _ Hctx i Hne Heq Hl Hi) as (Hil & HP).
  destruct Hctx. unfold prune. simpl. fold t'. unfold zmq_assert. unfold ct in *. zdecide.
  rewrite u16_small by lia. zdecide. rewrite Hi.
  rewrite u16_small by lia. zdecide. done.
Qed.

Lemma prune_two : live t = 2 →
  pruned mn ct (live t) (NTable t) c (prune mn ct (live t) (NTable t) c).
Proof.
  intros H2. pose proof (live_le_length t). pose proof (prune_len mn c t) as Hlen.
  pose proof (prune_outer _ _ _ _ _ _ Hctx H2) as Hout.
  pose proof (λ i m, prune_single _ _ _ _ _ _ Hctx i m H2) as Hsingle.
  pose proof (prune_last _ _ _ _ _ _ Hctx) as Hlast.
  pose proof (prune_first _ _ _ _ _ _ Hctx) as Hfst.
  fold t' in Hsingle, Hlast, Hfst, Hlen. destruct Hctx.
  unfold prune. simpl. fold t'. unfold zmq_assert. unfold ct in *. zdecide.
  rewrite H2 in *. simpl. destruct (Z.eqb_spec c mn) as [Heq|Hne].
  - rewrite table_at_lookup by lia.
    assert (t' !! Z.to_nat (Z.of_nat (length t) - 1) = Some (Some b)) as Hb.
    { rewrite <-Hlen. apply last_lookup_Z, Hlast. lia. }
    rewrite Hb. simpl. rewrite u8_small by lia. specialize (Hsingle _ b Hb).
    by rewrite Z2Nat.id in Hsingle by lia.
  - specialize (Hout Hne). zdecide. rewrite table_at_lookup by lia.
    change (Z.to_nat 0) with 0%nat. rewrite Hfst by done. simpl.
    specialize (Hsingle _ a (Hfst Hne)). by rewrite Z.add_0_r in Hsingle.
Qed.

Lemma prune_inner : c ≠ mn → c ≠ mn + ct - 1 → 3 ≤ live t →
  pruned mn ct (live t) (NTable t) c (prune mn ct (live t) (NTable t) c).
Proof.
  intros Hne Hne' Hl. pose proof (live_le_length t).
  pose proof (prune_middle _ _ _ _ _ _ Hctx Hne Hne') as HP. destruct Hctx.
  unfold prune. simpl. fold t'. unfold zmq_assert. unfold ct in *. zdecide.
  rewrite u16_small by lia. zdecide. apply HP. lia.
Qed.
End prune.

Lemma prune_spec mn ct ln (nx : next_u trie) c n :
  table_wf mn ct ln nx → child mn ct nx c = Some n →
  pruned mn ct ln nx c (prune mn ct ln nx c).
Proof.
  intros Hwf Hc. destruct nx as [|o|t].
  - inversion Hwf; subst. by rewrite child_0 in Hc.
  - inversion Hwf; subst; [by rewrite child_0 in Hc|].
    rewrite child_1 in Hc. zcase_in Hc; [|done]. subst. by apply prune_1.
  - destruct (Z.eqb_spec ct 0) as [->|Hct]; [by rewrite child_0 in Hc|].
    destruct (table_wf_prune_ctx _ _ _ _ _ _ Hwf Hct Hc) as (-> & -> & Hl & a & b & Hctx).
    destruct (decide (live t = 2)); [by eapply prune_two|].
    destruct (decide (c = mn)); [eapply prune_left; [done|done|lia]|].
    destruct (decide (c = mn + Z.of_nat (length t) - 1));
      [eapply prune_right; [done|done|done|lia]|eapply prune_inner; [done|done|done|lia]].
Qed.

(** ** The abstract view and the well-formedness invariant *)

Definition tchild (t : trie) (c : Z) : option trie :=
  let 'Trie _ mn ct _ nx := t in child mn ct nx c.

(** The number of subscriptions to the key [p]. *)
Fixpoint refs (t : trie) (p : list Z) : Z :=
  match p with
  | [] => refcnt t
  | c :: p => match tchild t c with Some n => refs n p | None => 0 end
  end.

Inductive wf : trie → Prop :=
| wf_intro rc mn ct ln nx :
    0 ≤ rc < 2 ^ 32 →
    table_wf mn ct ln nx →
    (∀ c n, child mn ct nx c = Some n → is_redundant n = false) →
    (∀ c n, child mn ct nx c = Some n → wf n) →
    wf (Trie rc mn ct ln nx).

Lemma wf_new : wf trie_new.
Proof.
  constructor; [done|by apply table_wf_0| |]; intros c n; by rewrite child_0.
Qed.

Lemma refs_new p : refs trie_new p = 0.
Proof. destruct p as [|c p]; simpl; [done|]. by rewrite child_0. Qed.

Lemma refs_range t p : wf t → 0 ≤ refs t p < 2 ^ 32.
Proof.
  intros Hwf. revert p. induction Hwf as [rc mn ct ln nx Hrc _ _ _ IH].
  intros [|c p]; [done|]. cbn -[Z.pow]. destruct (child mn ct nx c) eqn:E; [by eapply IH|lia].
Qed.

Lemma redundant_refs t p : wf t → is_redundant t = true → refs t p = 0.
Proof.
  destruct 1 as [rc mn ct ln nx Hrc Htab _ _]. simpl.
  intros [Hr%Z.eqb_eq Hl%Z.eqb_eq]%andb_prop. subst.
  apply table_wf_no_live in Htab as ->; [|done].
  destruct p; simpl; [done|]. by rewrite child_0.
Qed.

Lemma nonredundant_refs t :
  wf t → is_redundant t = false → ∃ p, bytes_ok p ∧ 0 < refs t p.
Proof.
  intros Hwf. induction Hwf as [rc mn ct ln nx Hrc Htab Hnr _ IH]. simpl. intros Hr.
  destruct (Z.eqb_spec rc 0) as [->|]; simpl in Hr.
  - apply Z.eqb_neq in Hr. destruct (table_wf_has_child _ _ _ _ Htab Hr) as [n Hn].
    destruct (IH _ _ Hn) as (p & Hp & Hpos); [by eapply Hnr|].
    exists (mn :: p). split; [|simpl; by rewrite Hn].
    constructor; [by eapply table_wf_min|done].
  - exists []. simpl. split; [done|lia].
Qed.

Lemma not_redundant t p : wf t → 0 < refs t p → is_redundant t = false.
Proof.
  intros Hwf Hp. destruct (is_redundant t) eqn:E; [|done].
  rewrite redundant_refs in Hp by done. lia.
Qed.

(** Replacing one child keeps the invariant. *)
Lemma wf_replace rc mn ct ln nx mn' ct' ln' nx' c n :
  wf (Trie rc mn ct ln nx) → table_wf mn' ct' ln' nx' →
  (∀ d, child mn' ct' nx' d = if d =? c then Some n else child mn ct nx d) →
  is_redundant n = false → wf n →
  wf (Trie rc mn' ct' ln' nx').
Proof.
  inversion 1; subst. intros Htab Hch Hr Hn. constructor; [done|done| |];
    intros d m; rewrite Hch; zcase; intros; simplify_eq; eauto.
Qed.

(** The child created by [add] passes the assertion on [_live_nodes]. *)
Lemma add_child_step c mn ct ln (nx : next_u trie) :
  table_ready c mn ct ln nx → 0 ≤ ln ≤ 256 →
  (match child mn ct nx c with
   | Some n => Some (n, ln)
   | None => let ln := u16 (ln + 1) in
             _ ← zmq_assert (if ct =? 1 then ln =? 1 else 1 <? ln);
             Some (trie_new, ln)
   end) = Some (default trie_new (child mn ct nx c), live_after mn ct ln nx c).
Proof.
  intros Hr Hln. unfold live_after. destruct (child mn ct nx c) eqn:E; [done|].
  generalize (ready_live _ _ _ _ _ Hr E). rewrite u16_small by lia.
  unfold zmq_assert. destruct (Z.eqb_spec ct 1); intros; subst; [done|]. by zdecide.
Qed.

Lemma table_ready_live c mn ct ln (nx : next_u trie) :
  table_ready c mn ct ln nx → 0 ≤ ln ≤ 256.
Proof.
  destruct 1 as [[]|mn ct ln t]; simpl; [lia..|]. subst.
  pose proof (live_le_length t). pose proof (live_nonneg t). lia.
Qed.

(** [trie_t::add] on a well-formed trie never fails an assertion, keeps the
    trie well formed, adds one reference to the key and touches no other key,
    and returns true exactly when the key was absent (as long as the 32-bit
    counter of the key does not wrap). *)
Lemma add_spec t p :
  wf t → bytes_ok p → refs t p < 2 ^ 32 - 1 →
  ∃ t', add t p = Some (refs t p =? 0, t') ∧ wf t' ∧
        ∀ q, refs t' q = refs t q + (if decide (q = p) then 1 else 0).
Proof.
  intros Hwf Hp. revert t Hwf. induction Hp as [|c p Hc Hp IH]; intros t Hwf Hov.
  - pose proof Hwf as Hwf'. destruct Hwf' as [rc mn ct ln nx Hrc Htab Hnr Hch].
    simpl in Hov. simpl. rewrite u32_small by lia. eexists. split.
    { do 2 f_equal. zcases; done. }
    split; [by constructor; [lia|..]|]. by intros [|d q]; simpl; lia.
  - pose proof Hwf as Hwf'. destruct Hwf' as [rc mn ct ln nx Hrc Htab Hnr Hch].
    destruct (extend_spec mn ct ln nx c) as (mn' & ct' & nx' & Hex & Hready & Hext); [done..|].
    pose proof (table_ready_live _ _ _ _ _ Hready) as Hln.
    cbn [add]. rewrite Hex. cbn [mbind option_bind].
    rewrite (ready_slot _ _ _ _ _ Hready). cbn [mbind option_bind].
    setoid_rewrite (add_child_step _ _ _ _ _ Hready Hln). cbn [mbind option_bind].
    set (n := default trie_new (child mn' ct' nx' c)).
    assert (wf n ∧ ∀ q, refs (Trie rc mn ct ln nx) (c :: q) = refs n q) as [Hn Hrefs].
    { unfold n. rewrite Hext. simpl. destruct (child mn ct nx c) eqn:E; simpl.
      - split; [by eapply Hch|done].
      - split; [apply wf_new|]. intros q. by rewrite refs_new. }
    rewrite Hrefs in Hov. destruct (IH n Hn Hov) as (n' & Hadd & Hn' & Hq).
    rewrite Hadd. cbn [mbind option_bind]. rewrite Hrefs. eexists. split; [done|].
    destruct (ready_put c mn' ct' ln nx' n' Hready) as [Htab' Hput].
    setoid_rewrite Hext in Hput. split.
    + eapply wf_replace; [exact Hwf|done|done| |done].
      apply (not_redundant _ p Hn'). rewrite Hq. case_decide; [|done].
      pose proof (refs_range n p Hn). lia.
    + intros [|d q]; [simpl; lia|]. cbn [refs tchild]. rewrite Hput. zcase.
      * subst. rewrite Hq. specialize (Hrefs q). cbn [refs tchild] in Hrefs. rewrite Hrefs.
        do 2 case_decide; simplify_eq; done.
      * case_decide; simplify_eq. lia.
Qed.

(** A well-formed trie is destroyed without failing an assertion. *)
Lemma trie_delete_wf t : wf t → trie_delete t = Some tt.
Proof.
  induction 1 as [rc mn ct ln nx _ Htab _ _ IH].
  destruct Htab as [mn nx|mn n|mn ct ln t a b ?? Hct Hlen].
  - done.
  - simpl. apply (IH mn). by rewrite child_1, Z.eqb_refl.
  - cbn [trie_delete]. zdecide.
    assert (∀ n, Some n ∈ t → trie_delete n = Some tt) as Hall.
    { intros n [i Hi]%list_elem_of_lookup. apply (IH (mn + Z.of_nat i)).
      rewrite child_table' by done. zdecide.
      replace (Z.to_nat _) with i by lia. by rewrite Hi. }
    clear -Hall. induction t as [|o t IHt]; [done|].
    assert (match o with Some n => trie_delete n | None => Some () end = Some ()) as ->.
    { destruct o; [|done]. apply Hall. by left. }
    simpl. apply IHt. intros n Hn. apply Hall. by right.
Qed.

(** [trie_t::rm] on a well-formed trie never fails an assertion (pruning
    and compaction of the tables included), keeps the trie well formed, drops
    one reference of the key if it has one and touches no other key, and
    returns true exactly when the last reference of the key goes. *)
Lemma rm_spec t p :
  wf t → bytes_ok p →
  ∃ t', rm t p = Some (refs t p =? 1, t') ∧ wf t' ∧
        ∀ q, refs t' q = if decide (q = p) then Z.max 0 (refs t p - 1) else refs t q.
Proof.
  intros Hwf Hp. revert t Hwf. induction Hp as [|c p Hc Hp IH]; intros t Hwf;
    pose proof Hwf as Hwf'; destruct Hwf' as [rc mn ct ln nx Hrc Htab Hnr Hch].
  - simpl. destruct (Z.eqb_spec rc 0) as [->|].
    + eexists. split; [done|]. split; [done|]. by intros [|d q].
    + rewrite u32_small by lia. eexists. split; [do 2 f_equal; zcases; done|].
      split; [by constructor; [lia|..]|]. intros [|d q]; simpl; [lia|done].
  - cbn [rm refs tchild]. destruct (out_of_range mn ct c) eqn:E.
    { rewrite orb_true_r. unfold child. rewrite E.
      eexists. split; [done|]. split; [done|].
      intros [|d q]; [done|]. case_decide; simplify_eq; [|done].
      cbn [refs tchild]. unfold child. by rewrite E. }
    assert (ct =? 0 = false) as ->.
    { pose proof E as E'%in_range. apply Z.eqb_neq. lia. }
    simpl. rewrite (slot_child _ _ _ _ _ Htab E). simpl.
    destruct (child mn ct nx c) as [n|] eqn:En.
    2:{ eexists. split; [done|]. split; [done|].
        intros [|d q]; [done|]. case_decide; simplify_eq; [|done].
        cbn [refs tchild]. by rewrite En. }
    destruct (IH n) as (n' & Hrm & Hn' & Hq); [by eapply Hch|]. rewrite Hrm. simpl.
    destruct (is_redundant n') eqn:Er.
    + rewrite trie_delete_wf by done. simpl.
      destruct (prune_spec _ _ _ _ _ _ Htab En) as (mn' & ct' & ln' & nx' & -> & Htab' & Hch').
      simpl. eexists. split; [done|]. split.
      * constructor; [done|done| |]; intros d m; rewrite Hch'; zcase; intros;
          simplify_eq; eauto.
      * intros [|d q]; [done|]. cbn [refs tchild]. rewrite Hch'.
        zcase; case_decide; simplify_eq; try done.
        -- specialize (Hq p). rewrite redundant_refs in Hq by done. by case_decide.
        -- rewrite En. specialize (Hq q). rewrite redundant_refs in Hq by done.
           case_decide; congruence.
    + eexists. split; [done|].
      assert (table_ready c mn ct ln nx) as Hready by (by apply table_wf_ready).
      destruct (ready_put c mn ct ln nx n' Hready) as [Htab' Hput].
      unfold live_after in Htab'. rewrite En in Htab'. split.
      * by eapply wf_replace.
      * intros [|d q]; [done|]. cbn [refs tchild]. rewrite Hput.
        zcase; case_decide; simplify_eq; try done.
        -- rewrite Hq. by case_decide.
        -- rewrite En, Hq. case_decide; congruence.
Qed.

(** [trie_t::check] on a well-formed trie reads no NULL pointer and no slot
    out of a table, and answers whether some prefix of the data is
    subscribed. *)
Lemma check_spec t data :
  wf t → bytes_ok data →
  ∃ b, check t data = Some b ∧
       (b = true ↔ ∃ p, p `prefix_of` data ∧ 0 < refs t p).
Proof.
  intros Hwf Hd. revert t Hwf. induction Hd as [|c data Hc Hd IH]; intros t Hwf;
    pose proof (refs_range t [] Hwf) as Hrange;
    destruct Hwf as [rc mn ct ln nx Hrc Htab Hnr Hch]; cbn [check refs refcnt] in *.
  - destruct (Z.eqb_spec rc 0) as [->|]; simpl.
    + eexists. split; [done|]. split; [done|].
      intros (p & ->%prefix_nil_inv & Hpos). simpl in Hpos. lia.
    + eexists. split; [done|]. split; [|done]. intros _. exists []. split; [done|simpl; lia].
  - destruct (Z.eqb_spec rc 0) as [->|]; simpl.
    2:{ eexists. split; [done|]. split; [|done]. intros _.
        exists []. split; [apply prefix_nil|simpl; lia]. }
    assert (∀ r, (r = true ↔ ∃ p, p `prefix_of` data ∧
                     0 < match child mn ct nx c with Some n => refs n p | None => 0 end) →
                 (r = true ↔ ∃ p, p `prefix_of` c :: data ∧ 0 < refs (Trie 0 mn ct ln nx) p))
      as Hlift.
    { intros r ->. split.
      - intros (p & Hp & Hpos). exists (c :: p). split; [by apply prefix_cons|done].
      - intros ([|d p] & Hp & Hpos); [simpl in Hpos; lia|].
        pose proof (prefix_cons_inv_1 _ _ _ _ Hp) as ->.
        exists p. split; [by eapply prefix_cons_inv_2|done]. }
    destruct (out_of_range mn ct c) eqn:E.
    { eexists. split; [done|]. apply Hlift. unfold child. rewrite E.
      split; [done|]. intros (? & ? & ?). lia. }
    assert (slot mn ct nx c = Some (child mn ct nx c)) as Hslot by (by eapply slot_child).
    unfold slot in Hslot. destruct (Z.eqb_spec ct 1) as [->|Hct1].
    + rewrite Hslot. simpl.
      assert (∃ n, child mn 1 nx c = Some n) as [n En].
      { apply in_range in E. inversion Htab; subst; [|lia].
        rewrite child_1. zdecide. eauto. }
      rewrite En in *. destruct (IH n) as (b & -> & Hb); [by eapply Hch|]. eauto.
    + destruct (as_table nx) as [tbl|]; [|done]. simpl in *. rewrite Hslot. simpl.
      destruct (child mn ct nx c) as [n|] eqn:En.
      * destruct (IH n) as (b & -> & Hb); [by eapply Hch|]. eauto.
      * eexists. split; [done|]. apply Hlift. split; [done|]. intros (? & ? & ?). lia.
Qed.

(** ** Enumeration *)

(** The keys below the slots [c, c+1, ...] of a table. *)
Definition below_slots (mn c : Z) (tbl : list (option trie)) (p : list Z) : Prop :=
  ∃ i n q, tbl !! i = Some (Some n) ∧ p = (mn + c + Z.of_nat i) :: q ∧ 0 < refs n q.

Lemma below_slots_cons mn c o tbl p :
  below_slots mn c (o :: tbl) p ↔
  (∃ n q, o = Some n ∧ p = (mn + c) :: q ∧ 0 < refs n q) ∨ below_slots mn (c + 1) tbl p.
Proof.
  unfold below_slots. split.
  - intros ([|i] & n & q & Hi & -> & Hq); simplify_eq/=.
    + left. exists n, q. rewrite Z.add_0_r. done.
    + right. exists i, n, q. split; [done|]. split; [f_equal; lia|done].
  - intros [(n & q & -> & -> & Hq)|(i & n & q & Hi & -> & Hq)].
    + exists 0%nat, n, q. split; [done|]. split; [f_equal; lia|done].
    + exists (S i), n, q. split; [done|]. split; [f_equal; lia|done].
Qed.

Lemma apply_loop_spec buff mn c tbl :
  0 ≤ mn + c → mn + c + Z.of_nat (length tbl) ≤ 256 →
  (∀ n, Some n ∈ tbl → ∀ b, emits b (λ p, 0 < refs n p) (apply_helper b n)) →
  emits buff (below_slots mn c tbl)
    ((fix go (c : Z) (l : list (option trie)) : option (list (list Z)) :=
        match l with
        | [] => Some []
        | None :: l' => go (c + 1) l'
        | Some n :: l' =>
            calls ← apply_helper (buff ++ [u8 (mn + c)]) n;
            rest ← go (c + 1) l';
            Some (calls ++ rest)
        end) c tbl).
Proof.
  revert c. induction tbl as [|o tbl IH]; intros c H0 Hb Hall.
  - exists []. split; [done|]. split; [constructor|].
    intros p. split; [by intros ?%elem_of_nil|]. by intros (i & n & q & Hi & _).
  - assert (∀ n, Some n ∈ tbl → ∀ b, emits b (λ p, 0 < refs n p) (apply_helper b n))
      as Hall' by (intros; apply Hall; by right).
    simpl in Hb. destruct (IH (c + 1)) as (l2 & Hgo & Hs2 & Hm2); [lia|lia|done|].
    destruct o as [n|].
    + destruct (emits_child buff (mn + c) _ _ (Hall n ltac:(by left) _))
        as (l1 & Hl1 & Hs1 & Hm1).
      rewrite u8_small by lia. rewrite Hl1. simpl. rewrite Hgo. simpl.
      exists (l1 ++ l2). split; [by rewrite map_app|]. split.
      * apply sorted_app; [done..|]. intros p q Hp Hq.
        apply Hm1 in Hp as (p' & -> & _). apply Hm2 in Hq as (i & ? & q' & _ & -> & _).
        left. lia.
      * intros p. rewrite elem_of_app, Hm1, Hm2, below_slots_cons. naive_solver.
    + exists l2. split; [done|]. split; [done|].
      intros p. rewrite Hm2, below_slots_cons. naive_solver.
Qed.

(** Adding the node's own key in front of those below it. *)
Lemma emits_here buff rc mn ct ln nx r :
  0 ≤ rc →
  emits buff (λ p, p ≠ [] ∧ 0 < refs (Trie rc mn ct ln nx) p) r →
  emits buff (λ p, 0 < refs (Trie rc mn ct ln nx) p)
    (calls ← r; Some ((if rc =? 0 then [] else [buff]) ++ calls)).
Proof.
  intros Hrc (l & -> & Hs & Hm). simpl.
  exists ((if rc =? 0 then [] else [[]]) ++ l). split.
  { rewrite map_app. do 2 f_equal. zcase; simpl; [done|by rewrite app_nil_r]. }
  split.
  - zcase; simpl; [done|]. constructor; [done|]. apply Forall_forall.
    intros [|c p] Hp; [|done]. by apply Hm in Hp as [? _].
  - intros p. rewrite elem_of_app, Hm. destruct p as [|c p]; simpl.
    + zcase; rewrite ?elem_of_nil, ?list_elem_of_singleton.
      * split; [intros [[]|[]]; done|lia].
      * split; [lia|by left].
    + split; [|by right]. intros [Hin|[_ ?]]; [exfalso|done].
      revert Hin. zcase; rewrite ?elem_of_nil, ?list_elem_of_singleton; done.
Qed.

Lemma apply_helper_spec t :
  wf t → ∀ buff, emits buff (λ p, 0 < refs t p) (apply_helper buff t).
Proof.
  induction 1 as [rc mn ct ln nx Hrc Htab Hnr _ IH]. intros buff.
  assert (∀ r, emits buff (λ p, p ≠ [] ∧ 0 < refs (Trie rc mn ct ln nx) p) r →
    emits buff (λ p, 0 < refs (Trie rc mn ct ln nx) p)
      (calls ← r; Some ((if rc =? 0 then [] else [buff]) ++ calls))) as Hhere.
  { intros r. apply emits_here. lia. }
  destruct Htab as [mn nx|mn n Hmn|mn ct ln t a b H0 Hmx Hct Hlen]; cbn [apply_helper].
  - zdecide. specialize (Hhere (Some [])). simpl in Hhere.
    rewrite app_nil_r in Hhere. apply Hhere. exists []. split; [done|]. split; [constructor|].
    intros [|c p]; rewrite elem_of_nil; [naive_solver|]. cbn [refs tchild].
    rewrite child_0. split; [done|lia].
  - simpl. apply Hhere.
    destruct (emits_child buff mn _ _ (IH mn n ltac:(by rewrite child_1, Z.eqb_refl) (buff ++ [mn])))
      as (l & -> & Hs & Hm).
    exists l. split; [done|]. split; [done|]. intros p. rewrite Hm. split.
    + intros (q & -> & Hq). split; [done|]. cbn [refs tchild]. by rewrite child_1, Z.eqb_refl.
    + intros [Hne Hp]. destruct p as [|c p]; [done|]. cbn [refs tchild] in Hp.
      rewrite child_1 in Hp. zcase_in Hp. subst. by exists p.
  - zdecide. apply Hhere.
    destruct (apply_loop_spec buff mn 0 t) as (l & -> & Hs & Hm); [lia|lia| |].
    { intros n [i Hi]%list_elem_of_lookup. apply (IH (mn + Z.of_nat i)).
      rewrite child_table' by done. zdecide. replace (Z.to_nat _) with i by lia. by rewrite Hi. }
    exists l. split; [done|]. split; [done|]. intros p. rewrite Hm. split.
    + intros (i & n & q & Hi & -> & Hq). split; [done|]. cbn [refs tchild].
      rewrite child_table' by done. zdecide. replace (Z.to_nat _) with i by lia. by rewrite Hi.
    + intros [Hne Hp]. destruct p as [|c p]; [done|]. cbn [refs tchild] in Hp. subst ct.
      destruct (child mn (Z.of_nat (length t)) (NTable t) c) as [n|] eqn:En; [|lia].
      pose proof (child_lookup _ _ _ _ En) as [Hr Hi].
      exists (Z.to_nat (c - mn)), n, p. split; [done|]. split; [f_equal; lia|done].
Qed.

(** [trie_t::apply] on a well-formed trie calls the function once for every
    subscribed key, on no other key, and in strictly increasing
    lexicographic order. *)
Theorem apply_spec t :
  wf t →
  ∃ calls, apply t = Some calls ∧ StronglySorted lex_lt calls ∧
           ∀ p, p ∈ calls ↔ 0 < refs t p.
Proof.
  intros Hwf. destruct (apply_helper_spec t Hwf []) as (l & Hl & Hs & Hm).
  exists l. unfold apply. rewrite Hl. split; [|done]. f_equal. apply list_fmap_id.
Qed.

(** ** Refinement: the trie implements a multiset of keys *)

Inductive op : Type :=
| OpAdd (p : list Z)
| OpRm (p : list Z)
| OpCheck (data : list Z).

Definition op_key (o : op) : list Z :=
  match o with OpAdd p | OpRm p | OpCheck p => p end.

Definition trie_step (t : trie) (o : op) : option (bool * trie) :=
  match o with
  | OpAdd p => add t p
  | OpRm p => rm t p
  | OpCheck data => b ← check t data; Some (b, t)
  end.

(** The abstract specification: the multiplicity of every key. *)
Definition mset_step (m : gmap (list Z) Z) (o : op) : bool * gmap (list Z) Z :=
  match o with
  | OpAdd p => (bool_decide (m !! p = None), <[p := default 0 (m !! p) + 1]> m)
  | OpRm p =>
      match m !! p with
      | None => (false, m)
      | Some k => if k =? 1 then (true, delete p m) else (false, <[p := k - 1]> m)
      end
  | OpCheck data =>
      (bool_decide (Exists (λ kv, kv.1 `prefix_of` data) (map_to_list m)), m)
  end.

Fixpoint trie_run (t : trie) (ops : list op) : option (list bool * trie) :=
  match ops with
  | [] => Some ([], t)
  | o :: ops =>
      '(b, t) ← trie_step t o; '(bs, t) ← trie_run t ops; Some (b :: bs, t)
  end.

Fixpoint mset_run (m : gmap (list Z) Z) (ops : list op) : list bool * gmap (list Z) Z :=
  match ops with
  | [] => ([], m)
  | o :: ops =>
      let '(b, m) := mset_step m o in let '(bs, m) := mset_run m ops in (b :: bs, m)
  end.

Definition represents (t : trie) (m : gmap (list Z) Z) : Prop :=
  wf t ∧ (∀ p, refs t p = default 0 (m !! p)) ∧ (∀ p k, m !! p = Some k → 0 < k).

Lemma represents_new : represents trie_new ∅.
Proof.
  split; [apply wf_new|]. split; [|by intros p k; rewrite lookup_empty].
  intros p. by rewrite refs_new, lookup_empty.
Qed.

Lemma represents_bounded t m p : represents t m → 0 ≤ refs t p.
Proof. intros (Hwf & _). by apply refs_range. Qed.

Lemma trie_step_refines t m o :
  represents t m → bytes_ok (op_key o) →
  (∀ p, refs t p < 2 ^ 32 - 1) →
  ∃ t', trie_step t o = Some ((mset_step m o).1, t') ∧
        represents t' (mset_step m o).2 ∧
        ∀ p, refs t' p ≤ refs t p + 1.
Proof.
  intros (Hwf & Hrefs & Hpos) Hb Hov. destruct o as [p|p|data]; simpl in Hb.
  - destruct (add_spec t p Hwf Hb (Hov p)) as (t' & Hadd & Hwf' & Hq).
    exists t'. cbn [trie_step mset_step fst snd]. rewrite Hadd, Hrefs. split; [|split].
    + do 2 f_equal. specialize (Hpos p). destruct (m !! p) as [k|]; simpl.
      * specialize (Hpos k eq_refl). by zdecide.
      * done.
    + split; [done|]. split.
      * intros q. rewrite Hq, lookup_insert, Hrefs. repeat case_decide; simplify_eq/=; lia.
      * intros q k. rewrite lookup_insert. specialize (Hpos p) as Hpp.
        case_decide as Hpq; intros; simplify_eq; [|eauto].
        destruct (m !! q) as [k|]; simpl; [|lia]. specialize (Hpp k eq_refl). lia.
    + intros q. rewrite Hq. case_decide; lia.
  - destruct (rm_spec t p Hwf Hb) as (t' & Hrm & Hwf' & Hq).
    exists t'. cbn [trie_step mset_step]. rewrite Hrm. pose proof (Hrefs p) as Hp.
    destruct (m !! p) as [k|] eqn:Ek; simpl in Hp; rewrite Hp in *.
    2:{ split; [done|]. split.
        - split; [done|]. split; [|done]. intros q. rewrite Hq.
          case_decide; subst; simpl; [by rewrite Ek|done].
        - intros q. rewrite Hq. case_decide; subst; lia. }
    pose proof (Hpos _ _ Ek) as Hk0. destruct (Z.eqb_spec k 1) as [Hk|Hk].
    + split; [done|]. split; [split; [done|split]|]; simpl.
      * intros q. rewrite Hq, lookup_delete. repeat case_decide; simplify_eq/=; try done; try lia.
      * intros q k'. rewrite lookup_delete. case_decide; [done|eauto].
      * intros q. rewrite Hq. case_decide; subst; lia.
    + split; [done|]. split; [split; [done|split]|]; simpl.
      * intros q. rewrite Hq, lookup_insert. repeat case_decide; simplify_eq/=; try done; try lia.
      * intros q k'. rewrite lookup_insert. case_decide; intros; simplify_eq; [lia|eauto].
      * intros q. rewrite Hq. case_decide; subst; lia.
  - destruct (check_spec t data Hwf Hb) as (b & Hcheck & Hiff).
    exists t. simpl. rewrite Hcheck. simpl. split; [|split; [done|lia]].
    do 2 f_equal. apply eq_true_iff_eq. rewrite Hiff, bool_decide_eq_true, Exists_exists.
    split.
    + intros (p & Hp & Hr). rewrite Hrefs in Hr.
      destruct (m !! p) as [k|] eqn:Ek; simpl in Hr; [|lia].
      exists (p, k). split; [by apply elem_of_map_to_list|done].
    + intros ([p k] & Hin%elem_of_map_to_list & Hp). exists p. split; [done|].
      rewrite Hrefs, Hin. simpl. eauto.
Qed.

Lemma trie_run_refines ops t m :
  represents t m → Forall (λ o, bytes_ok (op_key o)) ops →
  (∀ p, refs t p + Z.of_nat (length ops) < 2 ^ 32) →
  ∃ t', trie_run t ops = Some ((mset_run m ops).1, t') ∧ represents t' (mset_run m ops).2.
Proof.
  revert t m. induction ops as [|o ops IH]; intros t m Hrep Hops Hov.
  - by exists t.
  - apply Forall_cons in Hops as [Ho Hops]. simpl length in Hov.
    destruct (trie_step_refines t m o Hrep Ho) as (t' & Hstep & Hrep' & Hle).
    { intros p. specialize (Hov p). lia. }
    cbn [trie_run mset_run]. rewrite Hstep. cbn [mbind option_bind].
    destruct (mset_step m o) as [b m']. cbn [fst snd] in *.
    destruct (IH t' m' Hrep' Hops) as (t'' & Hrun & Hrep'').
    { intros p. specialize (Hov p). specialize (Hle p). lia. }
    rewrite Hrun. cbn [mbind option_bind].
    destruct (mset_run m' ops) as [bs m'']. by exists t''.
Qed.

(** C11. Starting from an empty [trie_t], every sequence of fewer than 2^32
    [add]s, [rm]s and [check]s runs without failing an assertion or touching
    memory out of bounds, answers exactly as a multiset of keys (with
    [check] testing for a subscribed prefix), and when the multiset has become
    empty again every node below the root has been freed. *)
Theorem trie_refines_multiset ops :
  Forall (λ o, bytes_ok (op_key o)) ops → Z.of_nat (length ops) < 2 ^ 32 →
  ∃ t, trie_run trie_new ops = Some ((mset_run ∅ ops).1, t) ∧
       represents t (mset_run ∅ ops).2 ∧
       ((mset_run ∅ ops).2 = ∅ → is_redundant t = true).
Proof.
  intros Hops Hlen.
  destruct (trie_run_refines ops trie_new ∅ represents_new Hops) as (t & Hrun & Hrep).
  { intros p. rewrite refs_new. lia. }
  exists t. split; [done|]. split; [done|]. intros Hempty.
  destruct Hrep as (Hwf & Hrefs & _). destruct (is_redundant t) eqn:E; [done|].
  apply nonredundant_refs in E as (p & _ & Hp); [|done].
  rewrite Hrefs, Hempty, lookup_empty in Hp. simpl in Hp. lia.
Qed.

Definition sample_ops : list op :=
  [OpAdd [65; 66]; OpAdd [65; 70]; OpAdd [65]; OpAdd [65; 70]; OpCheck [65; 66; 67];
   OpRm [65]; OpCheck [65; 67]; OpRm [65; 66]; OpRm [65; 70]; OpRm [65; 70]; OpCheck [65; 70]].

Lemma trie_refines_multiset_witness :
  (mset_run ∅ sample_ops).1 =
    [true; true; true; false; true; true; false; true; false; true; false] ∧
  ∃ t, trie_run trie_new sample_ops = Some ((mset_run ∅ sample_ops).1, t) ∧
       represents t (mset_run ∅ sample_ops).2 ∧
       ((mset_run ∅ sample_ops).2 = ∅ → is_redundant t = true).
Proof.
  split; [vm_compute; reflexivity|].
  apply trie_refines_multiset; [|simpl; lia].
  repeat (constructor; [repeat (constructor; [unfold byte_ok; lia|]); constructor|]).
  constructor.
Defined.

Definition sample_trie : trie :=
  Trie 1 65 1 1 (NNode (Some (Trie 0 66 1 1 (NNode (Some (Trie 2 0 0 0 NUninit)))))).

Lemma sample_trie_wf : wf sample_trie.
Proof.
  repeat (constructor; [lia|first [apply table_wf_1; unfold byte_ok; lia|apply table_wf_0; unfold byte_ok; lia]| |];
    intros c n; rewrite ?child_1, ?child_0; try (zcase; intros; simplify_eq); try done).
Qed.

Lemma apply_spec_witness :
  apply sample_trie = Some [[]; [65; 66]] ∧
  ∃ calls, apply sample_trie = Some calls ∧ StronglySorted lex_lt calls ∧
           ∀ p, p ∈ calls ↔ 0 < refs sample_trie p.
Proof. split; [vm_compute; reflexivity|]. apply apply_spec, sample_trie_wf. Defined.
