(* ===== verification/MTrie.v ===== *)
(** * [generic_mtrie_t]: the subscription trie of XPUB
    (src/generic_mtrie_impl.hpp)

    Every node holds the set of pipes subscribed to its key ([_pipes], NULL
    when there are none) over the child table of [ByteTable].  A pipe pointer
    is an integer; [std::set<value_t *>] is a [gset], iterated in increasing order.
    [None] is a failed assertion or undefined behaviour. *)

From S2P Require Import Prelude ByteTable.

Inductive mtrie : Type :=
| MTrie (pipes : option (gset Z)) (min count live_nodes : Z) (next : next_u mtrie).

(** The iteration order of [std::set]. *)
Definition set_iter (s : gset Z) : list Z := merge_sort Z.le (elements s).

Lemma elem_of_set_iter s x : x ∈ set_iter s ↔ x ∈ s.
Proof. unfold set_iter. rewrite merge_sort_Permutation. apply elem_of_elements. Qed.

Inductive rm_result : Type := not_found | last_value_removed | values_remain.

#[export] Instance rm_result_eq_dec : EqDecision rm_result.
Proof. solve_decision. Defined.

(** [generic_mtrie_t::generic_mtrie_t] *)
Definition mtrie_new : mtrie := MTrie None 0 0 0 NUninit.

(** [generic_mtrie_t::is_redundant] *)
Definition is_redundant (t : mtrie) : bool :=
  let 'MTrie pipes _ _ ln _ := t in bool_decide (pipes = None) && (ln =? 0).

(** [generic_mtrie_t::~generic_mtrie_t] *)
Fixpoint mtrie_delete (t : mtrie) : option unit :=
  let 'MTrie _ _ ct _ nx := t in
  if ct =? 1 then
    match nx with
    | NNode (Some n) => mtrie_delete n
    | _ => None
    end
  else if 1 <? ct then
    match nx with
    | NTable tbl =>
        (fix go (l : list (option mtrie)) : option unit :=
           match l with
           | [] => Some tt
           | None :: l' => go l'
           | Some n :: l' => _ ← mtrie_delete n; go l'
           end) tbl
    | _ => None
    end
  else Some tt.

(** [generic_mtrie_t::add_helper] *)
Fixpoint add_helper (t : mtrie) (prefix : list Z) (pipe : Z) : option (bool * mtrie) :=
  let 'MTrie pipes mn ct ln nx := t in
  match prefix with
  | [] =>
      let result := bool_decide (pipes = None) in
      let pipes := match pipes with None => ∅ | Some s => s end in
      Some (result, MTrie (Some ({[pipe]} ∪ pipes)) mn ct ln nx)
  | c :: prefix =>
      '(mn, ct, nx) ← extend mn ct nx c;
      next ← slot mn ct nx c;
      let '(next, ln) := match next with
                         | Some n => (n, ln)
                         | None => (mtrie_new, u16 (ln + 1))
                         end in
      '(ret, next) ← add_helper next prefix pipe;
      Some (ret, MTrie pipes mn ct ln (put_child mn ct nx c (Some next)))
  end.

(** [generic_mtrie_t::add] *)
Definition add (t : mtrie) (prefix : list Z) (pipe : Z) : option (bool * mtrie) :=
  add_helper t prefix pipe.

(** The pruning and compaction code of [rm_helper (prefix, size, pipe)]. *)
Definition prune (mn ct ln : Z) (nx : next_u mtrie) (c : Z) :
    option (Z * Z * Z * next_u mtrie) :=
  _ ← zmq_assert (0 <? ct);
  if ct =? 1 then
    let ln := u16 (ln - 1) in
    _ ← zmq_assert (ln =? 0);
    Some (mn, 0, ln, NNode None)
  else
    table ← as_table nx;
    let table := <[Z.to_nat (c - mn) := None]> table in
    _ ← zmq_assert (1 <? ln);
    let ln := u16 (ln - 1) in
    if ln =? 1 then
      i ← first_live table;
      let i := Z.of_nat i in
      _ ← zmq_assert (i <? ct);
      oldp ← table_at table i;
      Some (u8 (mn + i), 1, ln, NNode oldp)
    else if c =? mn then
      i ← first_live (drop 1 table);
      let i := Z.of_nat (S i) in
      _ ← zmq_assert (i <? ct);
      let ct := u16 (ct - i) in
      Some (u8 (mn + i), ct, ln, NTable (take (Z.to_nat ct) (drop (Z.to_nat i) table)))
    else if c =? mn + ct - 1 then
      i ← first_live (drop 1 (reverse table));
      let i := Z.of_nat (S i) in
      _ ← zmq_assert (i <? ct);
      let ct := u16 (ct - i) in
      Some (mn, ct, ln, NTable (take (Z.to_nat ct) table))
    else Some (mn, ct, ln, NTable table).

(** [generic_mtrie_t::rm_helper (prefix, size, pipe)]: removal of one entry. *)
Fixpoint rm_one (t : mtrie) (prefix : list Z) (pipe : Z) : option (rm_result * mtrie) :=
  let 'MTrie pipes mn ct ln nx := t in
  match prefix with
  | [] =>
      match pipes with
      | None => Some (not_found, t)
      | Some s =>
          let erased := bool_decide (pipe ∈ s) in
          let s := s ∖ {[pipe]} in
          if bool_decide (s = ∅) then
            _ ← zmq_assert erased;
            Some (last_value_removed, MTrie None mn ct ln nx)
          else Some (if erased then values_remain else not_found,
                     MTrie (Some s) mn ct ln nx)
      end
  | c :: prefix =>
      if (ct =? 0) || out_of_range mn ct c then Some (not_found, t)
      else
        next ← slot mn ct nx c;
        match next with
        | None => Some (not_found, t)
        | Some n =>
            '(ret, n) ← rm_one n prefix pipe;
            if is_redundant n then
              _ ← mtrie_delete n;
              '(mn, ct, ln, nx) ← prune mn ct ln nx c;
              Some (ret, MTrie pipes mn ct ln nx)
            else Some (ret, MTrie pipes mn ct ln (put_child mn ct nx c (Some n)))
        end
  end.

(** The end of [rm_helper_multiple_subnodes]: freeing or compacting the table
    once its children have been visited. *)
Definition compact_multiple (mn ct ln : Z) (tbl : list (option mtrie)) (new_min new_max : Z) :
    option (Z * Z * Z * next_u mtrie) :=
  _ ← zmq_assert (1 <? ct);
  if ln =? 0 then Some (mn, 0, ln, NTable [])
  else if ln =? 1 then
    _ ← zmq_assert (new_min =? new_max);
    _ ← zmq_assert ((mn <=? new_min) && (new_min <? mn + ct));
    node ← table_at tbl (new_min - mn);
    _ ← zmq_assert (bool_decide (is_Some node));
    Some (new_min, 1, ln, NNode node)
  else if (mn <? new_min) || (new_max <? mn + ct - 1) then
    _ ← zmq_assert (1 <? new_max - new_min + 1);
    _ ← zmq_assert ((mn <? new_min) || (new_max <? mn + ct - 1));
    _ ← zmq_assert (mn <=? new_min);
    _ ← zmq_assert (new_max <=? mn + ct - 1);
    _ ← zmq_assert (new_max - new_min + 1 <? ct);
    let ct := u16 (new_max - new_min + 1) in
    Some (new_min, ct, ln, NTable (take (Z.to_nat ct) (drop (Z.to_nat (new_min - mn)) tbl)))
  else Some (mn, ct, ln, NTable tbl).

(** The loop of [rm_helper_multiple_subnodes] over the slots [c, c+1, ...];
    [rec] is the recursive call of [rm_helper]. *)
Definition rm_subnodes (rec : list Z → mtrie → option (list (list Z) * mtrie))
    (buff : list Z) (mn : Z) :
    Z → list (option mtrie) → Z → Z → Z →
    option (list (list Z) * list (option mtrie) * Z * Z * Z) :=
  fix go c l ln new_min new_max :=
    match l with
    | [] => Some ([], [], ln, new_min, new_max)
    | None :: l =>
        '(calls, l, ln, new_min, new_max) ← go (c + 1) l ln new_min new_max;
        Some (calls, None :: l, ln, new_min, new_max)
    | Some n :: l =>
        '(calls1, n) ← rec (buff ++ [u8 (mn + c)]) n;
        if is_redundant n then
          _ ← mtrie_delete n;
          _ ← zmq_assert (0 <? ln);
          '(calls, l, ln, new_min, new_max) ← go (c + 1) l (u16 (ln - 1)) new_min new_max;
          Some (calls1 ++ calls, None :: l, ln, new_min, new_max)
        else
          let new_min := if c + mn <? new_min then u8 (c + mn) else new_min in
          let new_max := if new_max <? c + mn then u8 (c + mn) else new_max in
          '(calls, l, ln, new_min, new_max) ← go (c + 1) l ln new_min new_max;
          Some (calls1 ++ calls, Some n :: l, ln, new_min, new_max)
    end.

(** [generic_mtrie_t::rm_helper (pipe, buff, ...)] with
    [rm_helper_multiple_subnodes]: removal of a pipe everywhere below a node.
    The first component of the result lists the calls of [func_]. *)
Fixpoint rm_helper (pipe : Z) (call_on_uniq : bool) (buff : list Z) (t : mtrie) :
    option (list (list Z) * mtrie) :=
  let 'MTrie pipes mn ct ln nx := t in
  let '(here, pipes) :=
    match pipes with
    | Some s =>
        if bool_decide (pipe ∈ s) then
          let s := s ∖ {[pipe]} in
          (if negb call_on_uniq || bool_decide (s = ∅) then [buff] else [],
           if bool_decide (s = ∅) then None else Some s)
        else ([], Some s)
    | None => ([], None)
    end in
  if ct =? 0 then Some (here, MTrie pipes mn ct ln nx)
  else if ct =? 1 then
    match nx with
    | NNode (Some n) =>
        '(calls, n) ← rm_helper pipe call_on_uniq (buff ++ [mn]) n;
        if is_redundant n then
          _ ← mtrie_delete n;
          let ln := u16 (ln - 1) in
          _ ← zmq_assert (ln =? 0);
          Some (here ++ calls, MTrie pipes mn 0 ln (NNode None))
        else Some (here ++ calls, MTrie pipes mn ct ln (NNode (Some n)))
    | _ => None
    end
  else
    match nx with
    | NTable tbl =>
        '(calls, tbl, ln, new_min, new_max) ←
          rm_subnodes (rm_helper pipe call_on_uniq) buff mn 0 tbl ln (u8 (mn + ct - 1)) mn;
        '(mn, ct, ln, nx) ← compact_multiple mn ct ln tbl new_min new_max;
        Some (here ++ calls, MTrie pipes mn ct ln nx)
    | _ => None
    end.

(** [generic_mtrie_t::rm (pipe, func, arg, call_on_uniq)] and
    [generic_mtrie_t::rm (prefix, size, pipe)] *)
Definition rm_value (t : mtrie) (pipe : Z) (call_on_uniq : bool) :
    option (list (list Z) * mtrie) := rm_helper pipe call_on_uniq [] t.
Definition rm (t : mtrie) (prefix : list Z) (pipe : Z) : option (rm_result * mtrie) :=
  rm_one t prefix pipe.

(** [generic_mtrie_t::match]: the pipes [func_] is called with, in order. *)
Fixpoint mmatch (current : mtrie) (data : list Z) : option (list Z) :=
  let 'MTrie pipes mn ct _ nx := current in
  let here := match pipes with Some s => set_iter s | None => [] end in
  match data with
  | [] => Some here
  | c :: data =>
      if ct =? 0 then Some here
      else if ct =? 1 then
        if negb (c =? mn) then Some here
        else node ← as_node nx;
             match node with
             | None => None
             | Some n => rest ← mmatch n data; Some (here ++ rest)
             end
      else if out_of_range mn ct c then Some here
      else table ← as_table nx;
           next ← table_at table (c - mn);
           match next with
           | None => Some here
           | Some n => rest ← mmatch n data; Some (here ++ rest)
           end
  end.

(** ** Pruning *)

Lemma mprune_1 mn (n : mtrie) :
  byte_ok mn → pruned mn 1 1 (NNode (Some n)) mn (prune mn 1 1 (NNode (Some n)) mn).
Proof.
  intros Hmn. do 4 eexists. split; [done|]. split; [by constructor|].
  intros d. rewrite child_0, child_1. by zcase.
Qed.

Section prune.
Context (mn c : Z) (t : list (option mtrie)) (n a b : mtrie).
Hypothesis Hctx : prune_ctx mn c t n a b.
Let t' := <[Z.to_nat (c - mn) := None]> t.
Let ct := Z.of_nat (length t).

Lemma mprune_left : c = mn → 3 ≤ live t →
  pruned mn ct (live t) (NTable t) c (prune mn ct (live t) (NTable t) c).
Proof.
  intros Heq Hl. pose proof (prune_live _ _ _ _ _ _ Hctx) as Hl'.
  pose proof (live_le_length t). fold t' in Hl'.
  destruct (first_live_drop_is_Some t') as [i Hi].
  { by apply (prune_hole_first _ _ _ _ _ _ Hctx). } { lia. }
  destruct (prune_drop _ _ _ _ _ _ Hctx i Heq Hl Hi) as (Hil & Himx & HP).
  destruct Hctx. unfold prune. simpl. fold t'. unfold zmq_assert. unfold ct in *. zdecide.
  rewrite u16_small by lia. zdecide. rewrite Hi. cbn [mbind option_bind]. zdecide.
  rewrite u8_small, u16_small by lia. rewrite Nat2Z.id. done.
Qed.

Lemma mprune_right : c ≠ mn → c = mn + ct - 1 → 3 ≤ live t →
  pruned mn ct (live t) (NTable t) c (prune mn ct (live t) (NTable t) c).
Proof.
  intros Hne Heq Hl. pose proof (prune_live _ _ _ _ _ _ Hctx) as Hl'.
  pose proof (live_le_length t). fold t' in Hl'.
  destruct (first_live_rev_is_Some t') as [i Hi].
  { by apply (prune_hole_last _ _ _ _ _ _ Hctx). } { lia. }
  destruct (prune_take _ _ _ _ _ _ Hctx i Hne Heq Hl Hi) as (Hil & HP).
  destruct Hctx. unfold prune. simpl. fold t'. unfold zmq_assert. unfold ct in *. zdecide.
  rewrite u16_small by lia. zdecide. rewrite Hi. cbn [mbind option_bind]. zdecide.
  rewrite u16_small by lia. done.
Qed.

Lemma mprune_two : live t = 2 →
  pruned mn ct (live t) (NTable t) c (prune mn ct (live t) (NTable t) c).
Proof.
  intros H2. pose proof (live_le_length t). pose proof (prune_len mn c t) as Hlen.
  pose proof (prune_live _ _ _ _ _ _ Hctx) as Hl'.
  pose proof (λ i m, prune_single _ _ _ _ _ _ Hctx i m H2) as Hsingle.
  fold t' in Hsingle, Hlen, Hl'. destruct Hctx.
  destruct (first_live_is_Some t') as [i Hi]; [lia|].
  destruct (first_live_Some _ _ Hi) as [[m Hm] _].
  pose proof (lookup_lt_Some _ _ _ Hm). specialize (Hsingle _ _ Hm).
  unfold prune. simpl. fold t'. unfold zmq_assert. unfold ct in *. zdecide.
  rewrite H2 in *. simpl. rewrite Hi. cbn [mbind option_bind]. zdecide.
  rewrite table_at_lookup, Nat2Z.id, Hm by lia. simpl. rewrite u8_small by lia. done.
Qed.

Lemma mprune_inner : c ≠ mn → c ≠ mn + ct - 1 → 3 ≤ live t →
  pruned mn ct (live t) (NTable t) c (prune mn ct (live t) (NTable t) c).
Proof.
  intros Hne Hne' Hl. pose proof (live_le_length t).
  pose proof (prune_middle _ _ _ _ _ _ Hctx Hne Hne') as HP. destruct Hctx.
  unfold prune. simpl. fold t'. unfold zmq_assert. unfold ct in *. zdecide.
  rewrite u16_small by lia. zdecide. apply HP. lia.
Qed.
End prune.

Lemma mprune_spec mn ct ln (nx : next_u mtrie) c n :
  table_wf mn ct ln nx → child mn ct nx c = Some n →
  pruned mn ct ln nx c (prune mn ct ln nx c).
Proof.
  intros Hwf Hc. destruct nx as [|o|t].
  - inversion Hwf; subst. by rewrite child_0 in Hc.
  - inversion Hwf; subst; [by rewrite child_0 in Hc|].
    rewrite child_1 in Hc. zcase_in Hc; [|done]. subst. by apply mprune_1.
  - destruct (Z.eqb_spec ct 0) as [->|Hct]; [by rewrite child_0 in Hc|].
    destruct (table_wf_prune_ctx _ _ _ _ _ _ Hwf Hct Hc) as (-> & -> & Hl & a & b & Hctx).
    destruct (decide (live t = 2)); [by eapply mprune_two|].
    destruct (decide (c = mn)); [eapply mprune_left; [done|done|lia]|].
    destruct (decide (c = mn + Z.of_nat (length t) - 1));
      [eapply mprune_right; [done|done|done|lia]|eapply mprune_inner; [done|done|done|lia]].
Qed.

(** ** The abstract view and the invariant *)

Definition mchild (t : mtrie) (c : Z) : option mtrie :=
  let 'MTrie _ mn ct _ nx := t in child mn ct nx c.
Definition pipes (t : mtrie) : gset Z := let 'MTrie s _ _ _ _ := t in default ∅ s.

(** The pipes subscribed to the key [p]. *)
Fixpoint pipes_at (t : mtrie) (p : list Z) : gset Z :=
  match p with
  | [] => pipes t
  | c :: p => match mchild t c with Some n => pipes_at n p | None => ∅ end
  end.

Inductive wf : mtrie → Prop :=
| wf_intro s mn ct ln nx :
    s ≠ Some ∅ →
    table_wf mn ct ln nx →
    (∀ c n, child mn ct nx c = Some n → is_redundant n = false) →
    (∀ c n, child mn ct nx c = Some n → wf n) →
    wf (MTrie s mn ct ln nx).

Lemma mwf_new : wf mtrie_new.
Proof.
  constructor; [done|by apply table_wf_0| |]; intros c n; by rewrite child_0.
Qed.

Lemma pipes_new p : pipes_at mtrie_new p = ∅.
Proof. destruct p as [|c p]; simpl; [done|]. by rewrite child_0. Qed.

Lemma redundant_pipes t p : wf t → is_redundant t = true → pipes_at t p = ∅.
Proof.
  destruct 1 as [s mn ct ln nx Hs Htab _ _]. simpl.
  intros [Hr%bool_decide_eq_true Hl%Z.eqb_eq]%andb_prop. subst.
  apply table_wf_no_live in Htab as ->; [|done].
  destruct p; simpl; [done|]. by rewrite child_0.
Qed.

Lemma nonredundant_pipes t :
  wf t → is_redundant t = false → ∃ p, bytes_ok p ∧ pipes_at t p ≠ ∅.
Proof.
  intros Hwf. induction Hwf as [s mn ct ln nx Hs Htab Hnr _ IH]. simpl. intros Hr.
  destruct s as [s|]; simpl in Hr.
  - exists []. simpl. split; [done|congruence].
  - apply Z.eqb_neq in Hr. destruct (table_wf_has_child _ _ _ _ Htab Hr) as [n Hn].
    destruct (IH _ _ Hn) as (p & Hp & Hpos); [by eapply Hnr|].
    exists (mn :: p). split; [|simpl; by rewrite Hn].
    constructor; [by eapply table_wf_min|done].
Qed.

Lemma mnot_redundant t p : wf t → pipes_at t p ≠ ∅ → is_redundant t = false.
Proof.
  intros Hwf Hp. destruct (is_redundant t) eqn:E; [|done].
  by rewrite redundant_pipes in Hp by done.
Qed.

Lemma mwf_replace s mn ct ln nx mn' ct' ln' nx' c n :
  wf (MTrie s mn ct ln nx) → table_wf mn' ct' ln' nx' →
  (∀ d, child mn' ct' nx' d = if d =? c then Some n else child mn ct nx d) →
  is_redundant n = false → wf n →
  wf (MTrie s mn' ct' ln' nx').
Proof.
  inversion 1; subst. intros Htab Hch Hr Hn. constructor; [done|done| |];
    intros d m; rewrite Hch; zcase; intros; simplify_eq; eauto.
Qed.

Lemma mtrie_delete_wf t : wf t → mtrie_delete t = Some tt.
Proof.
  induction 1 as [s mn ct ln nx _ Htab _ _ IH].
  destruct Htab as [mn nx|mn n|mn ct ln t a b ?? Hct Hlen].
  - done.
  - simpl. apply (IH mn). by rewrite child_1, Z.eqb_refl.
  - cbn [mtrie_delete]. zdecide.
    assert (∀ n, Some n ∈ t → mtrie_delete n = Some tt) as Hall.
    { intros n [i Hi]%list_elem_of_lookup. apply (IH (mn + Z.of_nat i)).
      rewrite child_table' by done. zdecide.
      replace (Z.to_nat _) with i by lia. by rewrite Hi. }
    clear -Hall. induction t as [|[n|] t IHt]; [done|..].
    + rewrite Hall by left. simpl. apply IHt. intros. apply Hall. by right.
    + apply IHt. intros. apply Hall. by right.
Qed.

(** [add] *)
Lemma madd_spec t p x :
  wf t → bytes_ok p →
  ∃ t', add t p x = Some (bool_decide (pipes_at t p = ∅), t') ∧ wf t' ∧
        ∀ q, pipes_at t' q = if decide (q = p) then {[x]} ∪ pipes_at t p else pipes_at t q.
Proof.
  unfold add. intros Hwf Hp. revert t Hwf. induction Hp as [|c p Hc Hp IH]; intros t Hwf;
    pose proof Hwf as Hwf'; destruct Hwf' as [s mn ct ln nx Hs Htab Hnr Hch].
  - simpl. eexists. split; [|split].
    + do 2 f_equal. apply bool_decide_ext. destruct s as [s|]; simpl; [|done].
      split; congruence.
    + constructor; [|done..]. intros [=]. by eapply singleton_union_nonempty.
    + intros [|d q]; [|done]. simpl. destruct s; done.
  - destruct (extend_spec mn ct ln nx c) as (mn' & ct' & nx' & Hex & Hready & Hext); [done..|].
    cbn [add_helper]. rewrite Hex. cbn [mbind option_bind].
    rewrite (ready_slot _ _ _ _ _ Hready). cbn [mbind option_bind].
    assert ((match child mn' ct' nx' c with
             | Some n => (n, ln) | None => (mtrie_new, u16 (ln + 1)) end) =
            (default mtrie_new (child mn ct nx c), live_after mn' ct' ln nx' c)) as ->.
    { unfold live_after. rewrite Hext. destruct (child mn ct nx c); [done|]. simpl.
      f_equal. apply u16_small.
      assert (0 ≤ ln ≤ 256); [|lia]. destruct Htab; [lia..|]. subst.
      pose proof (live_le_length t). pose proof (live_nonneg t). lia. }
    set (n := default mtrie_new (child mn ct nx c)).
    assert (wf n ∧ ∀ q, pipes_at (MTrie s mn ct ln nx) (c :: q) = pipes_at n q) as [Hn Hrefs].
    { unfold n. simpl. destruct (child mn ct nx c) eqn:E; simpl.
      - split; [by eapply Hch|done].
      - split; [apply mwf_new|]. intros q. by rewrite pipes_new. }
    destruct (IH n Hn) as (n' & Hadd & Hn' & Hq).
    rewrite Hadd. cbn [mbind option_bind]. rewrite Hrefs. eexists. split; [done|].
    destruct (ready_put c mn' ct' ln nx' n' Hready) as [Htab' Hput].
    setoid_rewrite Hext in Hput. split.
    + eapply mwf_replace; [exact Hwf|done|done| |done].
      apply (mnot_redundant _ p Hn'). rewrite Hq, decide_True by done. apply singleton_union_nonempty.
    + intros [|d q]; [done|]. cbn [pipes_at mchild]. rewrite Hput. zcase.
      * subst. rewrite Hq. specialize (Hrefs q). cbn [pipes_at mchild] in Hrefs. rewrite Hrefs.
        destruct (decide (q = p)) as [->|]; [by rewrite decide_True|].
        by rewrite decide_False by congruence.
      * by rewrite decide_False by congruence.
Qed.

(** What [rm (prefix, size, pipe)] must answer for a key with pipes [s]. *)
Definition rm_answer (s : gset Z) (x : Z) : rm_result :=
  if decide (x ∈ s) then
    if decide (s ∖ {[x]} = ∅) then last_value_removed else values_remain
  else not_found.

(** [rm (prefix, size, pipe)] *)
Lemma mrm_spec t p x :
  wf t → bytes_ok p →
  ∃ t', rm t p x = Some (rm_answer (pipes_at t p) x, t') ∧ wf t' ∧
        ∀ q, pipes_at t' q = if decide (q = p) then pipes_at t p ∖ {[x]} else pipes_at t q.
Proof.
  unfold rm. intros Hwf Hp. revert t Hwf. induction Hp as [|c p Hc Hp IH]; intros t Hwf;
    pose proof Hwf as Hwf'; destruct Hwf' as [s mn ct ln nx Hs Htab Hnr Hch].
  - cbn [rm_one pipes_at pipes]. destruct s as [s|]; simpl; unfold rm_answer.
    2:{ eexists. split; [done|]. split; [done|]. intros [|d q]; simpl; [|done].
        by rewrite empty_difference. }
    destruct (decide (x ∈ s)) as [Hx|Hx].
    + rewrite (bool_decide_eq_true_2 (x ∈ s)) by done.
      destruct (decide (s ∖ {[x]} = ∅)) as [He|He].
      * rewrite bool_decide_eq_true_2 by done. simpl. eexists. split; [done|]. split.
        { by constructor. } intros [|d q]; simpl; [by rewrite He|done].
      * rewrite bool_decide_eq_false_2 by done. eexists. split; [done|]. split.
        { constructor; [congruence|done..]. } by intros [|d q].
    + rewrite (bool_decide_eq_false_2 (x ∈ s)) by done.
      rewrite difference_absent by done.
      rewrite bool_decide_eq_false_2 by congruence. eexists. split; [done|].
      split; [done|]. by intros [|d q].
  - cbn [rm_one pipes_at mchild]. destruct (out_of_range mn ct c) eqn:E.
    { rewrite orb_true_r. assert (child mn ct nx c = None) as ->.
      { unfold child. by rewrite E. }
      eexists. split; [done|]. split; [done|].
      intros [|d q]; [done|]. case_decide; simplify_eq; [|done].
      cbn [pipes_at mchild]. unfold child. rewrite E. by rewrite empty_difference. }
    assert (ct =? 0 = false) as ->.
    { pose proof E as E'%in_range. apply Z.eqb_neq. lia. }
    simpl. rewrite (slot_child _ _ _ _ _ Htab E). simpl.
    destruct (child mn ct nx c) as [n|] eqn:En.
    2:{ eexists. split; [done|]. split; [done|].
        intros [|d q]; [done|]. case_decide; simplify_eq; [|done].
        cbn [pipes_at mchild]. rewrite En. by rewrite empty_difference. }
    destruct (IH n) as (n' & Hrm & Hn' & Hq); [by eapply Hch|]. rewrite Hrm. simpl.
    destruct (is_redundant n') eqn:Er.
    + rewrite mtrie_delete_wf by done. simpl.
      destruct (mprune_spec _ _ _ _ _ _ Htab En) as (mn' & ct' & ln' & nx' & -> & Htab' & Hch').
      simpl. eexists. split; [done|]. split.
      * constructor; [done|done| |]; intros d m; rewrite Hch'; zcase; intros;
          simplify_eq; eauto.
      * intros [|d q]; [done|]. cbn [pipes_at mchild]. rewrite Hch'.
        generalize (Hq q). rewrite redundant_pipes by done. intros Hq'.
        destruct (Z.eqb_spec d c) as [->|]; [|by rewrite decide_False by congruence].
        rewrite En, Hq'. destruct (decide (q = p)) as [->|].
        -- by rewrite decide_True.
        -- by rewrite decide_False by congruence.
    + eexists. split; [done|].
      assert (table_ready c mn ct ln nx) as Hready by (by apply table_wf_ready).
      destruct (ready_put c mn ct ln nx n' Hready) as [Htab' Hput].
      unfold live_after in Htab'. rewrite En in Htab'. split.
      * by eapply mwf_replace.
      * intros [|d q]; [done|]. cbn [pipes_at mchild]. rewrite Hput.
        destruct (Z.eqb_spec d c) as [->|]; [|by rewrite decide_False by congruence].
        rewrite En, Hq. destruct (decide (q = p)) as [->|].
        -- by rewrite decide_True.
        -- by rewrite decide_False by congruence.
Qed.

(** The pipes of every prefix of the data, shortest first. *)
Fixpoint matching (t : list Z → gset Z) (data : list Z) : list Z :=
  set_iter (t []) ++
  match data with [] => [] | c :: data => matching (λ p, t (c :: p)) data end.

Lemma matching_ext f g data : (∀ p, f p = g p) → matching f data = matching g data.
Proof.
  revert f g. induction data as [|c data IH]; intros f g Hfg; simpl; rewrite Hfg; [done|].
  f_equal. by apply IH.
Qed.

Lemma matching_empty data : matching (λ _, ∅) data = [].
Proof. induction data; simpl; [done|]. done. Qed.

Lemma elem_of_matching f data x :
  x ∈ matching f data ↔ ∃ p, p `prefix_of` data ∧ x ∈ f p.
Proof.
  revert f. induction data as [|c data IH]; intros f; simpl;
    rewrite elem_of_app, elem_of_set_iter.
  - rewrite elem_of_nil. split.
    + intros [?|[]]. by exists [].
    + intros (p & ->%prefix_nil_inv & ?). by left.
  - rewrite IH. split.
    + intros [?|(p & Hp & ?)]; [exists []|exists (c :: p)];
        (split; [|done]); [apply prefix_nil|by apply prefix_cons].
    + intros ([|d p] & Hp & Hx); [by left|right].
      pose proof (prefix_cons_inv_1 _ _ _ _ Hp) as ->.
      exists p. split; [by eapply prefix_cons_inv_2|done].
Qed.

Lemma mmatch_spec t data :
  wf t → bytes_ok data → mmatch t data = Some (matching (pipes_at t) data).
Proof.
  intros Hwf Hd. revert t Hwf. induction Hd as [|c data Hc Hd IH]; intros t Hwf;
    destruct Hwf as [s mn ct ln nx Hs Htab Hnr Hch].
  - simpl. rewrite app_nil_r. by destruct s.
  - cbn [mmatch matching pipes_at pipes mchild].
    assert (set_iter (default ∅ s) = match s with Some s => set_iter s | None => [] end)
      as Hhere by by destruct s.
    rewrite <-Hhere. clear Hhere.
    assert (child mn ct nx c = None →
      Some (set_iter (default ∅ s)) = Some (set_iter (default ∅ s) ++ matching (λ p,
        match child mn ct nx c with Some n => pipes_at n p | None => ∅ end) data)) as Hnone.
    { intros ->. by rewrite matching_empty, app_nil_r. }
    destruct Htab as [mn nx Hmn|mn n Hmn|mn ct ln t a b ?? Hct -> Hln].
    + apply Hnone, child_0.
    + simpl. rewrite child_1 in *. destruct (Z.eqb_spec c mn); [|by apply Hnone].
      simpl. rewrite (IH n); [done|]. apply (Hch mn). by rewrite child_1, Z.eqb_refl.
    + zdecide. destruct (out_of_range mn _ c) eqn:E.
      { apply Hnone. unfold child. by rewrite E. }
      pose proof E as Hr%in_range. rewrite table_at_lookup by lia.
      destruct (lookup_lt_is_Some_2 t (Z.to_nat (c - mn))) as [o Ho]; [lia|].
      rewrite Ho. simpl. rewrite child_table in *. revert Hnone. zdecide. rewrite Ho.
      intros Hnone. destruct o as [n|]; simpl in *; [|by apply Hnone].
      rewrite (IH n); [done|]. apply (Hch c). rewrite child_table. zdecide. by rewrite Ho.
Qed.

(** ** Removing a pipe everywhere *)

(** [new_min] and [new_max] after visiting the slots [c, c+1, ...] of [tbl]
    (the array as the visit leaves it), from the values [lo] and [hi]. *)
Definition extremes (mn c : Z) (tbl : list (option mtrie)) (lo hi lo' hi' : Z) : Prop :=
  lo' ≤ lo ∧ hi ≤ hi' ∧
  (∀ i n, tbl !! i = Some (Some n) → lo' ≤ mn + c + Z.of_nat i ≤ hi') ∧
  (lo' = lo ∨ ∃ i n, tbl !! i = Some (Some n) ∧ lo' = mn + c + Z.of_nat i) ∧
  (hi' = hi ∨ ∃ i n, tbl !! i = Some (Some n) ∧ hi' = mn + c + Z.of_nat i).

Lemma extremes_nil mn c lo hi : extremes mn c [] lo hi lo hi.
Proof. split; [lia|]. split; [lia|]. split; [by intros i|]. by split; left. Qed.

Lemma extremes_none mn c tbl lo hi lo' hi' :
  extremes mn (c + 1) tbl lo hi lo' hi' → extremes mn c (None :: tbl) lo hi lo' hi'.
Proof.
  intros (H1 & H2 & H3 & H4 & H5). split; [done|]. split; [done|]. split; [|split].
  - intros [|i] n; simpl; [done|]. intros Hi. specialize (H3 _ _ Hi). lia.
  - destruct H4 as [?|(i & n & Hi & ?)]; [by left|right]. exists (S i), n. split; [done|lia].
  - destruct H5 as [?|(i & n & Hi & ?)]; [by left|right]. exists (S i), n. split; [done|lia].
Qed.

Lemma extremes_some mn c tbl n lo hi lo' hi' :
  extremes mn (c + 1) tbl (Z.min lo (mn + c)) (Z.max hi (mn + c)) lo' hi' →
  extremes mn c (Some n :: tbl) lo hi lo' hi'.
Proof.
  intros (H1 & H2 & H3 & H4 & H5). split; [lia|]. split; [lia|]. split; [|split].
  - intros [|i] m; simpl; [lia|]. intros Hi. specialize (H3 _ _ Hi). lia.
  - destruct H4 as [?|(i & m & Hi & ?)].
    + destruct (Z.min_spec lo (mn + c)) as [[_ ?]|[_ ?]]; [left; lia|right].
      exists 0%nat, n. split; [done|lia].
    + right. exists (S i), m. split; [done|lia].
  - destruct H5 as [?|(i & m & Hi & ?)].
    + destruct (Z.max_spec hi (mn + c)) as [[_ ?]|[_ ?]]; [right|left; lia].
      exists 0%nat, n. split; [done|lia].
    + right. exists (S i), m. split; [done|lia].
Qed.

(** One live slot: both extremes are its character. *)
Lemma extremes_1 mn tbl lo hi :
  live tbl = 1 → extremes mn 0 tbl (mn + Z.of_nat (length tbl) - 1) mn lo hi →
  ∃ i n, tbl !! i = Some (Some n) ∧ lo = mn + Z.of_nat i ∧ hi = lo.
Proof.
  intros Hl (_ & _ & Hall & Hlo & Hhi).
  destruct (first_live_is_Some tbl) as [i Hi]; [lia|].
  destruct (first_live_Some _ _ Hi) as [[n Hn] _]. exists i, n. split; [done|].
  pose proof (lookup_lt_Some _ _ _ Hn). specialize (Hall _ _ Hn) as Hb.
  assert (∀ j m, tbl !! j = Some (Some m) → j = i) as Huniq.
  { intros j m Hj. destruct (decide (j = i)); [done|].
    pose proof (live_ge_2 _ _ _ _ _ n0 Hj Hn). lia. }
  destruct Hlo as [?|(j & m & Hj & ?)], Hhi as [?|(k & m' & Hk & ?)];
    repeat match goal with H : tbl !! _ = Some (Some _) |- _ => apply Huniq in H as -> end; lia.
Qed.

(** Two live slots at least: the extremes are live. *)
Lemma extremes_2 mn tbl lo hi :
  2 ≤ live tbl → extremes mn 0 tbl (mn + Z.of_nat (length tbl) - 1) mn lo hi →
  ∃ i j a b, tbl !! i = Some (Some a) ∧ tbl !! j = Some (Some b) ∧ (i < j)%nat ∧
    lo = mn + Z.of_nat i ∧ hi = mn + Z.of_nat j ∧
    (∀ k, (k < i)%nat → mjoin (tbl !! k) = None) ∧
    (∀ k, (j < k)%nat → mjoin (tbl !! k) = None).
Proof.
  intros Hl (_ & _ & Hall & Hlo & Hhi).
  destruct (first_live_is_Some tbl) as [i0 Hi0]; [lia|].
  destruct (first_live_Some _ _ Hi0) as [[a0 Ha0] _].
  assert (1 ≤ live (<[i0:=None]> tbl)) as Hl1.
  { rewrite (live_clear _ _ a0) by done. lia. }
  destruct (first_live_is_Some _ Hl1) as [j0 Hj0].
  destruct (first_live_Some _ _ Hj0) as [[b0 Hb0] _].
  assert (i0 ≠ j0 ∧ tbl !! j0 = Some (Some b0)) as [Hne Hb0'].
  { pose proof (lookup_lt_Some _ _ _ Ha0).
    destruct (decide (i0 = j0)) as [->|]; [by rewrite list_lookup_insert_eq in Hb0|].
    by rewrite list_lookup_insert_ne in Hb0. }
  pose proof (lookup_lt_Some _ _ _ Ha0). pose proof (lookup_lt_Some _ _ _ Hb0').
  pose proof (Hall _ _ Ha0). pose proof (Hall _ _ Hb0').
  assert (∃ i a, tbl !! i = Some (Some a) ∧ lo = mn + Z.of_nat i) as (i & a & Ha & ->).
  { destruct Hlo as [?|(i & a & ? & ?)]; [lia|]. exists i, a. split; [done|lia]. }
  assert (∃ j b, tbl !! j = Some (Some b) ∧ hi = mn + Z.of_nat j) as (j & b & Hb & ->).
  { destruct Hhi as [?|(j & b & ? & ?)]; [lia|]. exists j, b. split; [done|lia]. }
  exists i, j, a, b. do 2 (split; [done|]). split; [lia|]. do 2 (split; [done|]).
  split; intros k Hk; destruct (tbl !! k) as [[m|]|] eqn:Ek; try done;
    specialize (Hall _ _ Ek); lia.
Qed.

Lemma compact_multiple_spec mn tbl lo hi :
  0 ≤ mn → mn + Z.of_nat (length tbl) ≤ 256 → 2 ≤ Z.of_nat (length tbl) →
  extremes mn 0 tbl (mn + Z.of_nat (length tbl) - 1) mn lo hi →
  ∃ mn' ct' ln' nx',
    compact_multiple mn (Z.of_nat (length tbl)) (live tbl) tbl lo hi =
      Some (mn', ct', ln', nx') ∧
    table_wf mn' ct' ln' nx' ∧
    ∀ d, child mn' ct' nx' d = child mn (Z.of_nat (length tbl)) (NTable tbl) d.
Proof.
  intros Hmn Hmx Hct Hext. pose proof (live_nonneg tbl). unfold compact_multiple, zmq_assert.
  zdecide. destruct (Z.eqb_spec (live tbl) 0) as [H0|H0].
  { do 4 eexists. split; [done|]. split; [rewrite H0; apply table_wf_0; unfold byte_ok; lia|].
    intros d. rewrite child_0, child_table. zcase; [done|]. by rewrite live_0_lookup. }
  destruct (Z.eqb_spec (live tbl) 1) as [H1|H1].
  { destruct (extremes_1 _ _ _ _ H1 Hext) as (i & n & Hi & -> & ->).
    pose proof (lookup_lt_Some _ _ _ Hi). zdecide.
    rewrite table_at_lookup by lia. replace (Z.to_nat _) with i by lia. rewrite Hi. simpl.
    do 4 eexists. split; [done|]. split; [rewrite H1; apply table_wf_1; unfold byte_ok; lia|].
    intros d. by apply child_single. }
  destruct (extremes_2 mn tbl lo hi) as (i & j & a & b & Hi & Hj & Hij & -> & -> & Hbef & Haft);
    [lia|done|].
  pose proof (lookup_lt_Some _ _ _ Hj).
  (* first drop the empty slots on the right, then those on the left *)
  destruct (decide (i = 0%nat ∧ S j = length tbl)) as [[-> Hjl]|Hcut].
  { zdecide. do 4 eexists. split; [done|]. split; [|done].
    apply (table_wf_n _ _ _ _ a b); try done; try lia.
    rewrite last_lookup. rewrite <-Hj. f_equal. lia. }
  assert ((mn <? mn + Z.of_nat i) || (mn + Z.of_nat j <? mn + Z.of_nat (length tbl) - 1) = true)
    as -> by (rewrite orb_true_iff, !Z.ltb_lt; lia).
  zdecide. rewrite u16_small by lia.
  set (u := drop i tbl).
  assert (length u = (length tbl - i)%nat) as Hu by apply length_drop.
  assert (live u = live tbl) as Hlu by (by apply live_firstn_none).
  destruct (take_table_wf (mn + Z.of_nat i) u (j - i) a b) as [Hwf Hch].
  { lia. } { lia. } { unfold u. by rewrite lookup_drop, Nat.add_0_r. }
  { unfold u. rewrite lookup_drop. by replace (i + (j - i))%nat with j by lia. } { lia. }
  { intros k Hk. unfold u. rewrite lookup_drop. apply Haft. lia. }
  replace (Z.to_nat (mn + Z.of_nat i - mn)) with i by lia. fold u.
  replace (mn + Z.of_nat j - (mn + Z.of_nat i) + 1) with (Z.of_nat (j - i) + 1) by lia.
  replace (Z.to_nat (Z.of_nat (j - i) + 1)) with (S (j - i)) by lia.
  do 4 eexists. split; [done|]. split; [by rewrite <-Hlu|].
  intros d. rewrite Hch, !child_table. unfold u.
  destruct (Z.ltb_spec d (mn + Z.of_nat i)).
  - zcase; [done|]. by rewrite Hbef by lia.
  - zdecide. rewrite lookup_drop. do 2 f_equal. lia.
Qed.

(** The keys [func_] is called for. *)
Definition reported (x : Z) (uniq : bool) (t : mtrie) (p : list Z) : Prop :=
  x ∈ pipes_at t p ∧ (uniq = false ∨ pipes_at t p ∖ {[x]} = ∅).

Definition rm_post (x : Z) (uniq : bool) (buff : list Z) (t : mtrie)
    (r : option (list (list Z) * mtrie)) : Prop :=
  ∃ l t', r = Some (map (app buff) l, t') ∧ enumerates (reported x uniq t) l ∧
    wf t' ∧ ∀ q, pipes_at t' q = pipes_at t q ∖ {[x]}.

(** The reported keys below the slots [c, c+1, ...]. *)
Definition reported_slots (x : Z) (uniq : bool) (mn c : Z) (tbl : list (option mtrie))
    (p : list Z) : Prop :=
  ∃ i n q, tbl !! i = Some (Some n) ∧ p = (mn + c + Z.of_nat i) :: q ∧ reported x uniq n q.

Lemma reported_slots_cons x uniq mn c o tbl p :
  reported_slots x uniq mn c (o :: tbl) p ↔
  (∃ n q, o = Some n ∧ p = (mn + c) :: q ∧ reported x uniq n q) ∨
  reported_slots x uniq mn (c + 1) tbl p.
Proof.
  unfold reported_slots. split.
  - intros ([|i] & n & q & Hi & -> & Hq); simplify_eq/=.
    + left. exists n, q. rewrite Z.add_0_r. done.
    + right. exists i, n, q. split; [done|]. split; [f_equal; lia|done].
  - intros [(n & q & -> & -> & Hq)|(i & n & q & Hi & -> & Hq)].
    + exists 0%nat, n, q. split; [done|]. split; [f_equal; lia|done].
    + exists (S i), n, q. split; [done|]. split; [f_equal; lia|done].
Qed.

(** A slot before and after the visit. *)
Definition slot_post (x : Z) (o o' : option mtrie) : Prop :=
  match o with
  | None => o' = None
  | Some n => ∃ n', wf n' ∧ (∀ q, pipes_at n' q = pipes_at n q ∖ {[x]}) ∧
                    o' = if is_redundant n' then None else Some n'
  end.

Lemma rm_subnodes_spec x uniq rec buff mn c tbl ln lo hi :
  0 ≤ mn + c → mn + c + Z.of_nat (length tbl) ≤ 256 →
  live tbl ≤ ln ≤ 256 →
  (∀ n, Some n ∈ tbl → ∀ b, rm_post x uniq b n (rec b n)) →
  ∃ l tbl' lo' hi',
    rm_subnodes rec buff mn c tbl ln lo hi =
      Some (map (app buff) l, tbl', ln - live tbl + live tbl', lo', hi') ∧
    enumerates (reported_slots x uniq mn c tbl) l ∧
    Forall2 (slot_post x) tbl tbl' ∧ live tbl' ≤ live tbl ∧
    extremes mn c tbl' lo hi lo' hi'.
Proof.
  revert c ln lo hi. induction tbl as [|o tbl IH]; intros c ln lo hi H0 Hb Hln Hall.
  - exists [], [], lo, hi. split; [simpl; by rewrite Z.sub_0_r, Z.add_0_r|]. split.
    { split; [constructor|]. intros p. split; [by intros ?%elem_of_nil|].
      by intros (i & n & q & Hi & _). }
    split; [constructor|]. split; [done|apply extremes_nil].
  - assert (∀ n, Some n ∈ tbl → ∀ b, rm_post x uniq b n (rec b n)) as Hall'
      by (intros; apply Hall; by right).
    rewrite live_cons in Hln. pose proof (live_nonneg tbl).
    cbn [length] in Hb. destruct o as [n|]; cbn [occ] in Hln.
    2:{ destruct (IH (c + 1) ln lo hi) as (l & tbl' & lo' & hi' & Hgo & Hen & Hpost & Hl & Hext);
          [lia..|done|].
        exists l, (None :: tbl'), lo', hi'. cbn [rm_subnodes]. rewrite Hgo.
        cbn [mbind option_bind]. rewrite !live_cons. split; [do 4 f_equal; simpl; lia|].
        split; [|split; [by constructor|split; [simpl; lia|by apply extremes_none]]].
        destruct Hen as [Hs Hm]. split; [done|]. intros p.
        rewrite Hm, reported_slots_cons. naive_solver. }
    destruct (Hall n ltac:(by left) (buff ++ [mn + c])) as (l1 & n' & Hrec & Hen1 & Hn' & Hq).
    destruct (emits_child buff (mn + c) _ _ (ex_intro _ l1 (conj eq_refl Hen1)))
      as (l1' & Hl1 & Hs1 & Hm1). injection Hl1 as Hl1.
    cbn [rm_subnodes]. rewrite (u8_small (mn + c)) by lia. rewrite Hrec. cbn [mbind option_bind].
    assert (∀ l2, enumerates (reported_slots x uniq mn (c + 1) tbl) l2 →
      enumerates (reported_slots x uniq mn c (Some n :: tbl)) (l1' ++ l2)) as Hcat.
    { intros l2 [Hs2 Hm2]. split.
      - apply sorted_app; [done..|]. intros p q Hp Hq'.
        apply Hm1 in Hp as (p' & -> & _). apply Hm2 in Hq' as (i & ? & q' & _ & -> & _).
        left. lia.
      - intros p. rewrite elem_of_app, Hm1, Hm2, reported_slots_cons. naive_solver. }
    destruct (is_redundant n') eqn:Er.
    + rewrite mtrie_delete_wf by done. cbn [mbind option_bind]. unfold zmq_assert. zdecide.
      rewrite u16_small by lia.
      destruct (IH (c + 1) (ln - 1) lo hi) as (l & tbl' & lo' & hi' & Hgo & Hen & Hpost & Hl & Hext);
        [lia..|done|].
      exists (l1' ++ l), (None :: tbl'), lo', hi'. rewrite Hgo. simpl.
      rewrite !live_cons, map_app, Hl1. split; [do 4 f_equal; simpl; lia|].
      split; [by apply Hcat|]. split.
      { constructor; [|done]. exists n'. by rewrite Er. }
      split; [simpl; lia|by apply extremes_none].
    + destruct (IH (c + 1) ln (Z.min lo (mn + c)) (Z.max hi (mn + c)))
        as (l & tbl' & lo' & hi' & Hgo & Hen & Hpost & Hl & Hext); [lia..|done|].
      exists (l1' ++ l), (Some n' :: tbl'), lo', hi'.
      rewrite u8_small by lia.
      replace (if c + mn <? lo then c + mn else lo) with (Z.min lo (mn + c)) by (zcase; lia).
      replace (if hi <? c + mn then c + mn else hi) with (Z.max hi (mn + c)) by (zcase; lia).
      rewrite Hgo. cbn [mbind option_bind].
      rewrite !live_cons, map_app, Hl1. split; [do 4 f_equal; simpl; lia|].
      split; [by apply Hcat|]. split.
      { constructor; [|done]. exists n'. by rewrite Er. }
      split; [simpl; lia|by apply extremes_some].
Qed.

(** A child of the table the visit leaves, in terms of the child it found. *)
Lemma slots_post_child x mn tbl tbl' d :
  Forall2 (slot_post x) tbl tbl' →
  slot_post x (child mn (Z.of_nat (length tbl)) (NTable tbl) d)
              (child mn (Z.of_nat (length tbl')) (NTable tbl') d).
Proof.
  intros Hp. rewrite !child_table. zcase; [done|].
  destruct (tbl !! Z.to_nat (d - mn)) as [o|] eqn:E.
  - destruct (Forall2_lookup_l _ _ _ _ _ Hp E) as (o' & -> & Ho). done.
  - assert (tbl' !! Z.to_nat (d - mn) = None) as ->; [|done].
    apply lookup_ge_None. apply lookup_ge_None in E. by rewrite <-(Forall2_length _ _ _ Hp).
Qed.

(** The contents of a node whose children were visited. *)
Lemma pipes_post x s s' mn ct ln nx mn' ct' ln' nx' :
  (∀ d, slot_post x (child mn ct nx d) (child mn' ct' nx' d)) →
  default ∅ s' = default ∅ s ∖ {[x]} →
  ∀ q, pipes_at (MTrie s' mn' ct' ln' nx') q = pipes_at (MTrie s mn ct ln nx) q ∖ {[x]}.
Proof.
  intros Hch Hs [|d q]; [done|]. cbn [pipes_at mchild]. specialize (Hch d).
  destruct (child mn ct nx d) as [n|]; simpl in Hch.
  - destruct Hch as (n' & Hn' & Hq & ->). specialize (Hq q).
    destruct (is_redundant n') eqn:E; [|done]. by rewrite <-Hq, redundant_pipes.
  - rewrite Hch. by rewrite empty_difference.
Qed.

Lemma wf_post x s' mn ct nx mn' ct' ln' nx' :
  s' ≠ Some ∅ → table_wf mn' ct' ln' nx' →
  (∀ d, slot_post x (child mn ct nx d) (child mn' ct' nx' d)) →
  wf (MTrie s' mn' ct' ln' nx').
Proof.
  intros Hs Htab Hch. constructor; [done|done|..]; intros d m Hm; specialize (Hch d);
    rewrite Hm in Hch; destruct (child mn ct nx d) as [n|]; simpl in Hch; [|done| |done];
    destruct Hch as (n' & Hn' & Hq & Heq); destruct (is_redundant n') eqn:E; congruence.
Qed.

(** The calls below a node with the call at the node itself in front. *)
Lemma reported_here x uniq s mn ct ln nx (l : list (list Z)) (b : bool) :
  b = bool_decide (reported x uniq (MTrie s mn ct ln nx) []) →
  enumerates (λ p, p ≠ [] ∧ reported x uniq (MTrie s mn ct ln nx) p) l →
  enumerates (reported x uniq (MTrie s mn ct ln nx)) ((if b then [[]] else []) ++ l).
Proof.
  intros Hb [Hs Hm]. split.
  - destruct b; simpl; [|done]. constructor; [done|]. apply Forall_forall.
    intros [|c p] Hp; [|done]. by apply Hm in Hp as [? _].
  - intros p. rewrite elem_of_app, Hm. destruct p as [|c p].
    + destruct b; symmetry in Hb; [apply bool_decide_eq_true in Hb|apply bool_decide_eq_false in Hb];
        rewrite ?elem_of_nil, ?list_elem_of_singleton; naive_solver.
    + split; [|by right]. intros [Hin|[_ ?]]; [exfalso|done].
      revert Hin. destruct b; rewrite ?elem_of_nil, ?list_elem_of_singleton; done.
Qed.

(** What [rm_helper] does to the set of the node itself. *)
Lemma rm_here x uniq s mn ct ln nx (buff : list Z) :
  s ≠ Some ∅ →
  ∃ (b : bool) (s' : option (gset Z)),
    match s with
    | Some s =>
        if bool_decide (x ∈ s) then
          let s := s ∖ {[x]} in
          (if negb uniq || bool_decide (s = ∅) then [buff] else [],
           if bool_decide (s = ∅) then None else Some s)
        else ([], Some s)
    | None => ([], None)
    end = (map (app buff) (if b then [[]] else []), s') ∧
    b = bool_decide (reported x uniq (MTrie s mn ct ln nx) []) ∧
    s' ≠ Some ∅ ∧ default ∅ s' = default ∅ s ∖ {[x]}.
Proof.
  intros Hs. exists (bool_decide (reported x uniq (MTrie s mn ct ln nx) [])).
  destruct s as [s|]; simpl.
  2:{ exists None. rewrite bool_decide_eq_false_2 by (intros [[]%not_elem_of_empty _]).
      repeat split; [done|]. by rewrite empty_difference. }
  unfold reported; cbn [pipes_at pipes default from_option id].
  destruct (decide (x ∈ s)) as [Hx|Hx].
  - rewrite (bool_decide_eq_true_2 (x ∈ s)) by done.
    destruct (decide (s ∖ {[x]} = ∅)) as [He|He].
    + exists None. rewrite (bool_decide_eq_true_2 (s ∖ {[x]} = ∅)) by done.
      rewrite bool_decide_eq_true_2 by (split; [done|by right]).
      rewrite orb_true_r. simpl. rewrite app_nil_r. repeat split; done.
    + exists (Some (s ∖ {[x]})). rewrite (bool_decide_eq_false_2 (s ∖ {[x]} = ∅)) by done.
      rewrite orb_false_r. repeat split; [|congruence].
      destruct uniq; simpl.
      * rewrite bool_decide_eq_false_2; [done|]. intros [_ [|]]; done.
      * rewrite bool_decide_eq_true_2 by (split; [done|by left]). simpl. by rewrite app_nil_r.
  - exists (Some s). rewrite (bool_decide_eq_false_2 (x ∈ s)) by done.
    rewrite bool_decide_eq_false_2 by (by intros [? _]). repeat split; [congruence|].
    simpl. by rewrite difference_absent.
Qed.

Lemma rm_helper_spec x uniq t : wf t → ∀ buff, rm_post x uniq buff t (rm_helper x uniq buff t).
Proof.
  induction 1 as [s mn ct ln nx Hs Htab Hnr Hwf IH]. intros buff.
  destruct (rm_here x uniq s mn ct ln nx buff Hs) as (b & s' & Hhere & Hb & Hs' & Hds).
  pose proof (λ l, reported_here x uniq s mn ct ln nx l b Hb) as Hrep. clear Hb.
  assert (∀ mn' ct' ln' nx' l,
    table_wf mn' ct' ln' nx' →
    (∀ d, slot_post x (child mn ct nx d) (child mn' ct' nx' d)) →
    enumerates (λ p, p ≠ [] ∧ reported x uniq (MTrie s mn ct ln nx) p) l →
    rm_post x uniq buff (MTrie s mn ct ln nx)
      (Some (map (app buff) (if b then [[]] else []) ++ map (app buff) l,
             MTrie s' mn' ct' ln' nx'))) as Hfin.
  { intros mn' ct' ln' nx' l Htab' Hch Hl. do 2 eexists. rewrite <-map_app.
    split; [done|]. split; [by apply Hrep|]. split; [by eapply wf_post|by apply pipes_post]. }
  clear Hrep. cbn [rm_helper]. cbv zeta in Hhere.
  rewrite Hhere.
  destruct Htab as [mn nx Hmn|mn n Hmn|mn ct ln t a0 b0 Hmn Hmx Hct Hlen Hln Ha Hb0].
  - zdecide. specialize (Hfin mn 0 0 nx []). simpl in Hfin. rewrite app_nil_r in Hfin.
    apply Hfin; [by apply table_wf_0| |].
    + intros d. by rewrite child_0.
    + split; [constructor|]. intros [|c p]; rewrite elem_of_nil; [naive_solver|].
      unfold reported. cbn [pipes_at mchild]. rewrite child_0. set_solver.
  - simpl. assert (child mn 1 (NNode (Some n)) mn = Some n) as Hn by by rewrite child_1, Z.eqb_refl.
    destruct (IH mn n Hn (buff ++ [mn])) as (l1 & n' & Hrec & Hen & Hn' & Hq).
    destruct (emits_child buff mn _ _ (ex_intro _ l1 (conj eq_refl Hen)))
      as (l & Hl & Hs1 & Hm). injection Hl as Hl.
    rewrite Hrec. simpl. rewrite Hl.
    assert (enumerates (λ p, p ≠ [] ∧ reported x uniq (MTrie s mn 1 1 (NNode (Some n))) p) l)
      as Hen'.
    { split; [done|]. intros p. rewrite Hm. unfold reported. split.
      - intros (q & -> & Hq'). split; [done|]. cbn [pipes_at mchild]. by rewrite Hn.
      - intros [Hne Hp]. destruct p as [|c p]; [done|]. cbn [pipes_at mchild] in Hp.
        rewrite child_1 in Hp. revert Hp. zcase; [subst; intros; by exists p|set_solver]. }
    destruct (is_redundant n') eqn:Er.
    + rewrite mtrie_delete_wf by done. simpl.
      apply Hfin; [by apply table_wf_0| |done].
      intros d. rewrite child_0, child_1. zcase; [|done]. exists n'. by rewrite Er.
    + apply Hfin; [by apply table_wf_1| |done].
      intros d. rewrite !child_1. zcase; [|done]. exists n'. by rewrite Er.
  - subst ct ln. zdecide. pose proof (live_le_length t).
    destruct (rm_subnodes_spec x uniq (rm_helper x uniq) buff mn 0 t (live t)
                (mn + Z.of_nat (length t) - 1) mn)
      as (l & t' & lo & hi & Hgo & [Hsl Hml] & Hpost & Hll & Hext); [lia..| |].
    { intros n [i Hi]%list_elem_of_lookup. apply (IH (mn + Z.of_nat i)).
      rewrite child_table. zdecide. replace (Z.to_nat _) with i by lia. by rewrite Hi. }
    rewrite u8_small by lia. rewrite Hgo. cbn [mbind option_bind].
    pose proof (Forall2_length _ _ _ Hpost) as Hlen. rewrite Hlen in Hext |- *.
    destruct (compact_multiple_spec mn t' lo hi) as (mn' & ct' & ln' & nx' & Hcm & Htab & Hch);
      [lia..|done|].
    replace (live t - live t + live t') with (live t') by lia.
    rewrite Hcm. cbn [mbind option_bind]. rewrite <-Hlen. apply Hfin; [done| |].
    + intros d. rewrite Hch. by apply slots_post_child.
    + split; [done|]. intros p. rewrite Hml. unfold reported_slots, reported. split.
      * intros (i & n & q & Hi & -> & Hq). split; [done|]. cbn [pipes_at mchild].
        rewrite child_table. zdecide. replace (Z.to_nat _) with i by lia. by rewrite Hi.
      * intros [Hne Hp]. destruct p as [|c p]; [done|]. cbn [pipes_at mchild] in Hp.
        destruct (child mn (Z.of_nat (length t)) (NTable t) c) as [n|] eqn:En; [|set_solver].
        pose proof (child_lookup _ _ _ _ En) as [Hr Hi].
        exists (Z.to_nat (c - mn)), n, p. split; [done|]. split; [f_equal; lia|done].
Qed.

(** ** Refinement: the multi-trie implements a relation between keys and pipes *)

Inductive mop : Type :=
| MAdd (p : list Z) (x : Z)
| MRm (p : list Z) (x : Z)
| MRmValue (x : Z) (uniq : bool)
| MMatch (data : list Z).

Inductive mout : Type :=
| OAdded (b : bool)
| ORemoved (r : rm_result)
| OCalls (l : list (list Z))
| OMatched (l : list Z).

Definition mop_ok (o : mop) : Prop :=
  match o with
  | MAdd p _ | MRm p _ | MMatch p => bytes_ok p
  | MRmValue _ _ => True
  end.

Definition mtrie_step (t : mtrie) (o : mop) : option (mout * mtrie) :=
  match o with
  | MAdd p x => '(b, t) ← add t p x; Some (OAdded b, t)
  | MRm p x => '(r, t) ← rm t p x; Some (ORemoved r, t)
  | MRmValue x uniq => '(l, t) ← rm_value t x uniq; Some (OCalls l, t)
  | MMatch data => l ← mmatch t data; Some (OMatched l, t)
  end.

(** The abstract state is the set of (key, pipe) subscriptions. *)
Definition sub_step (m : gset (list Z * Z)) (o : mop) : gset (list Z * Z) :=
  match o with
  | MAdd p x => {[(p, x)]} ∪ m
  | MRm p x => m ∖ {[(p, x)]}
  | MRmValue x _ => filter (λ kx, kx.2 ≠ x) m
  | MMatch _ => m
  end.

(** The answer each operation owes to the subscriptions it started from. *)
Definition sub_out (m : gset (list Z * Z)) (o : mop) (r : mout) : Prop :=
  match o, r with
  | MAdd p _, OAdded b => b = true ↔ ∀ x, (p, x) ∉ m
  | MRm p x, ORemoved r =>
      match r with
      | not_found => (p, x) ∉ m
      | last_value_removed => (p, x) ∈ m ∧ ∀ y, (p, y) ∈ m → y = x
      | values_remain => (p, x) ∈ m ∧ ∃ y, (p, y) ∈ m ∧ y ≠ x
      end
  | MRmValue x uniq, OCalls l =>
      StronglySorted lex_lt l ∧
      ∀ p, p ∈ l ↔ (p, x) ∈ m ∧ (uniq = false ∨ ∀ y, (p, y) ∈ m → y = x)
  | MMatch data, OMatched l => ∀ x, x ∈ l ↔ ∃ p, p `prefix_of` data ∧ (p, x) ∈ m
  | _, _ => False
  end.

Definition subscribes (t : mtrie) (m : gset (list Z * Z)) : Prop :=
  wf t ∧ ∀ p x, x ∈ pipes_at t p ↔ (p, x) ∈ m.

Lemma subscribes_new : subscribes mtrie_new ∅.
Proof. split; [apply mwf_new|]. intros p x. rewrite pipes_new. set_solver. Qed.

Lemma pipes_at_empty t m p : subscribes t m → (pipes_at t p = ∅ ↔ ∀ x, (p, x) ∉ m).
Proof.
  intros [_ Hm]. split.
  - intros He x. rewrite <-Hm, He. apply not_elem_of_empty.
  - intros Hx. apply set_eq. intros x. rewrite Hm. split; [by intros ?%Hx|].
    by intros ?%not_elem_of_empty.
Qed.

Lemma pipes_at_only t m p x :
  subscribes t m → (pipes_at t p ∖ {[x]} = ∅ ↔ ∀ y, (p, y) ∈ m → y = x).
Proof.
  intros [_ Hm]. split.
  - intros He y. rewrite <-Hm. intros Hy. destruct (decide (y = x)); [done|].
    assert (y ∈ pipes_at t p ∖ {[x]}) as Hy' by set_solver.
    rewrite He in Hy'. by apply not_elem_of_empty in Hy'.
  - intros Hx. apply set_eq. intros y. rewrite elem_of_difference, Hm, elem_of_singleton.
    split; [|by intros ?%not_elem_of_empty]. intros [Hy Hne]. by apply Hx in Hy.
Qed.

Lemma rm_answer_spec t m p x :
  subscribes t m → sub_out m (MRm p x) (ORemoved (rm_answer (pipes_at t p) x)).
Proof.
  intros Hs. pose proof Hs as [_ Hm]. unfold rm_answer. simpl.
  destruct (decide (x ∈ pipes_at t p)) as [Hx|Hx]; [|by rewrite <-Hm].
  rewrite Hm in Hx. destruct (decide (pipes_at t p ∖ {[x]} = ∅)) as [He|He].
  - split; [done|]. by apply (pipes_at_only _ _ _ _ Hs).
  - split; [done|]. apply set_choose_L in He as [y Hy].
    rewrite elem_of_difference, Hm, elem_of_singleton in Hy. by exists y.
Qed.

Lemma mtrie_step_refines t m o :
  subscribes t m → mop_ok o →
  ∃ r t', mtrie_step t o = Some (r, t') ∧ sub_out m o r ∧ subscribes t' (sub_step m o).
Proof.
  intros Hs Ho. pose proof Hs as [Hwf Hm]. destruct o as [p x|p x|x uniq|data].
  - destruct (madd_spec t p x Hwf Ho) as (t' & Hadd & Hwf' & Hq).
    exists (OAdded (bool_decide (pipes_at t p = ∅))), t'. cbn [mtrie_step]. rewrite Hadd. split; [done|].
    split; [|split; [done|]].
    + cbn [sub_out]. rewrite bool_decide_eq_true. by apply pipes_at_empty.
    + intros q y. rewrite Hq. cbn [sub_step]. rewrite elem_of_union, elem_of_singleton, <-Hm.
      destruct (decide (q = p)) as [->|]; [|naive_solver].
      rewrite elem_of_union, elem_of_singleton. naive_solver.
  - destruct (mrm_spec t p x Hwf Ho) as (t' & Hrm & Hwf' & Hq).
    eexists (ORemoved _), t'. cbn [mtrie_step]. rewrite Hrm. split; [done|].
    split; [by apply rm_answer_spec|]. split; [done|].
    intros q y. rewrite Hq. cbn [sub_step]. rewrite elem_of_difference, elem_of_singleton, <-Hm.
    destruct (decide (q = p)) as [->|]; [|naive_solver].
    rewrite elem_of_difference, elem_of_singleton. naive_solver.
  - destruct (rm_helper_spec x uniq t Hwf []) as (l & t' & Hrm & [Hsort Hen] & Hwf' & Hq).
    exists (OCalls l), t'. cbn [mtrie_step]. unfold rm_value. rewrite Hrm.
    split; [cbn; do 3 f_equal; apply list_fmap_id|]. split; [|split; [done|]].
    + split; [done|]. intros p. rewrite Hen. unfold reported.
      by rewrite Hm, (pipes_at_only _ _ _ _ Hs).
    + intros q y. rewrite Hq. cbn [sub_step].
      rewrite elem_of_filter, elem_of_difference, elem_of_singleton, <-Hm. naive_solver.
  - exists (OMatched (matching (pipes_at t) data)), t. cbn [mtrie_step].
    rewrite mmatch_spec by done. split; [done|]. split; [|done].
    intros x. rewrite elem_of_matching. by setoid_rewrite Hm.
Qed.

Fixpoint mtrie_run (t : mtrie) (ops : list mop) : option (list mout * mtrie) :=
  match ops with
  | [] => Some ([], t)
  | o :: ops => '(r, t) ← mtrie_step t o; '(rs, t) ← mtrie_run t ops; Some (r :: rs, t)
  end.

Fixpoint sub_run (m : gset (list Z * Z)) (ops : list mop) : gset (list Z * Z) :=
  match ops with [] => m | o :: ops => sub_run (sub_step m o) ops end.

Fixpoint sub_outs (m : gset (list Z * Z)) (ops : list mop) (rs : list mout) : Prop :=
  match ops, rs with
  | [], [] => True
  | o :: ops, r :: rs => sub_out m o r ∧ sub_outs (sub_step m o) ops rs
  | _, _ => False
  end.

Lemma mtrie_run_refines ops t m :
  subscribes t m → Forall mop_ok ops →
  ∃ rs t', mtrie_run t ops = Some (rs, t') ∧ sub_outs m ops rs ∧ subscribes t' (sub_run m ops).
Proof.
  revert t m. induction ops as [|o ops IH]; intros t m Hs Hops; [by exists [], t|].
  apply Forall_cons in Hops as [Ho Hops].
  destruct (mtrie_step_refines t m o Hs Ho) as (r & t' & Hstep & Hout & Hs').
  destruct (IH _ _ Hs' Hops) as (rs & t'' & Hrun & Houts & Hs'').
  exists (r :: rs), t''. cbn [mtrie_run]. rewrite Hstep. cbn [mbind option_bind].
  rewrite Hrun. done.
Qed.

(** From an empty [generic_mtrie_t], every sequence of [add],
    [rm (prefix, pipe)], [rm (pipe, func)] and [match] calls runs without
    failing an assertion or touching memory out of bounds, and answers as a
    set of (key, pipe) subscriptions does: [add] tells whether the key was
    new, [rm] whether the pipe was absent, the last or one of several,
    [rm (pipe, func)] calls back once per key of the pipe (or, with
    [call_on_uniq], once per key left without pipes), [match] calls exactly
    the pipes subscribed to a prefix; and once no subscription is left all
    the nodes below the root have been freed. *)
Theorem mtrie_refines_relation ops :
  Forall mop_ok ops →
  ∃ rs t, mtrie_run mtrie_new ops = Some (rs, t) ∧ sub_outs ∅ ops rs ∧
          subscribes t (sub_run ∅ ops) ∧
          (sub_run ∅ ops = ∅ → is_redundant t = true).
Proof.
  intros Hops. destruct (mtrie_run_refines ops _ _ subscribes_new Hops)
    as (rs & t & Hrun & Houts & Hs).
  exists rs, t. do 3 (split; [done|]). intros He.
  destruct (is_redundant t) eqn:E; [done|]. pose proof Hs as [Hwf _].
  apply nonredundant_pipes in E as (p & _ & Hp); [|done]. exfalso. apply Hp.
  apply (pipes_at_empty _ _ _ Hs). rewrite He. intros x. apply not_elem_of_empty.
Qed.

Definition sample_mops : list mop :=
  [MAdd [65; 66] 1; MAdd [65; 66] 2; MAdd [65; 70] 1; MAdd [60] 1; MAdd [] 3;
   MMatch [65; 66; 67]; MRmValue 1 true; MRm [65; 66] 1; MRm [65; 66] 2; MRm [] 3].

Lemma mtrie_refines_relation_witness :
  fst <$> mtrie_run mtrie_new sample_mops =
    Some [OAdded true; OAdded false; OAdded true; OAdded true; OAdded true;
          OMatched [3; 1; 2]; OCalls [[60]; [65; 70]]; ORemoved not_found;
          ORemoved last_value_removed; ORemoved last_value_removed] ∧
  ∃ rs t, mtrie_run mtrie_new sample_mops = Some (rs, t) ∧ sub_outs ∅ sample_mops rs ∧
          subscribes t (sub_run ∅ sample_mops) ∧
          (sub_run ∅ sample_mops = ∅ → is_redundant t = true).
Proof.
  split; [vm_compute; reflexivity|]. apply mtrie_refines_relation.
  repeat (constructor; [repeat (constructor; [unfold byte_ok; lia|]); constructor|]).
  constructor.
Defined.
