(* ===== verification/Wire.v ===== *)
(** * Network byte order (src/wire.hpp)

    [put_uintN] gives the bytes it stores, most significant first; [get_uintN]
    reads as many bytes from the front of a buffer ([None]: the buffer is too
    short, and the C++ reads past its end). *)

From S2P Require Import Prelude.

Definition byte_of (v s : Z) : Z := Z.land (Z.shiftr v s) 255.

Definition put_uint8 (v : Z) : list Z := [v].
Definition put_uint16 (v : Z) : list Z := [byte_of v 8; Z.land v 255].
Definition put_uint32 (v : Z) : list Z :=
  [byte_of v 24; byte_of v 16; byte_of v 8; Z.land v 255].
Definition put_uint64 (v : Z) : list Z :=
  [byte_of v 56; byte_of v 48; byte_of v 40; byte_of v 32;
   byte_of v 24; byte_of v 16; byte_of v 8; Z.land v 255].

Definition get_uint8 (buffer : list Z) : option Z :=
  match buffer with b0 :: _ => Some b0 | _ => None end.
Definition get_uint16 (buffer : list Z) : option Z :=
  match buffer with
  | b0 :: b1 :: _ => Some (Z.lor (Z.shiftl b0 8) b1)
  | _ => None
  end.
Definition get_uint32 (buffer : list Z) : option Z :=
  match buffer with
  | b0 :: b1 :: b2 :: b3 :: _ =>
      Some (Z.lor (Z.lor (Z.lor (Z.shiftl b0 24) (Z.shiftl b1 16)) (Z.shiftl b2 8)) b3)
  | _ => None
  end.
Definition get_uint64 (buffer : list Z) : option Z :=
  match buffer with
  | b0 :: b1 :: b2 :: b3 :: b4 :: b5 :: b6 :: b7 :: _ =>
      Some (Z.lor (Z.lor (Z.lor (Z.lor (Z.lor (Z.lor (Z.lor
        (Z.shiftl b0 56) (Z.shiftl b1 48)) (Z.shiftl b2 40)) (Z.shiftl b3 32))
        (Z.shiftl b4 24)) (Z.shiftl b5 16)) (Z.shiftl b6 8)) b7)
  | _ => None
  end.

(** ** Big-endian value of a byte list: the reference *)

Definition be_value (bs : list Z) : Z := fold_left (λ acc b, acc * 256 + b) bs 0.

Lemma be_value_range bs : bytes_ok bs → 0 ≤ be_value bs < 256 ^ Z.of_nat (length bs).
Proof.
  intros Hok. unfold be_value.
  assert (∀ acc k, 0 ≤ acc < 256 ^ Z.of_nat k →
    0 ≤ fold_left (λ acc b, acc * 256 + b) bs acc < 256 ^ Z.of_nat (k + length bs)) as H.
  { induction Hok as [|b bs Hb _ IH]; intros acc k Hacc; cbn [fold_left length].
    - by rewrite Nat.add_0_r.
    - rewrite <-Nat.add_succ_comm. apply IH. unfold byte_ok in Hb.
      rewrite Nat2Z.inj_succ, Z.pow_succ_r by lia. lia. }
  apply (H 0 0%nat). simpl. lia.
Qed.

Lemma byte_of_div v s : 0 ≤ s → byte_of v s = (v / 2 ^ s) mod 256.
Proof.
  intros. unfold byte_of. rewrite Z.shiftr_div_pow2 by done.
  by rewrite (Z.land_ones _ 8).
Qed.

Lemma land_255 v : Z.land v 255 = v mod 256.
Proof. by rewrite (Z.land_ones _ 8). Qed.

Lemma byte_of_ok v s : 0 ≤ s → byte_ok (byte_of v s).
Proof. intros. rewrite byte_of_div by done. apply Z.mod_pos_bound. lia. Qed.

Lemma land_255_ok v : byte_ok (Z.land v 255).
Proof. rewrite land_255. apply Z.mod_pos_bound. lia. Qed.

#[export] Hint Resolve byte_of_ok land_255_ok : zmq.

(** A byte next to the bits above it. *)
Lemma lor_byte x y k :
  0 ≤ k → byte_ok y →
  Z.lor (Z.shiftl x (k + 8)) (Z.shiftl y k) = Z.shiftl (x * 256 + y) k.
Proof.
  intros Hk Hy. rewrite Z.add_comm, <-Z.shiftl_shiftl by lia. rewrite <-Z.shiftl_lor.
  f_equal. rewrite <-Z.lxor_lor, <-Z.add_nocarry_lxor; try (rewrite Z.shiftl_mul_pow2 by lia; done).
  all: apply Z.bits_inj'; intros n Hn; rewrite Z.land_spec, Z.bits_0.
  all: destruct (Z.lt_ge_cases n 8) as [Hlt|Hge];
    [by rewrite Z.shiftl_spec_low|].
  all: replace y with (y mod 2 ^ 8) by (apply Z.mod_small; unfold byte_ok in Hy; lia).
  all: by rewrite Z.mod_pow2_bits_high, andb_false_r by lia.
Qed.

Lemma lor_byte_0 x y : byte_ok y → Z.lor (Z.shiftl x 8) y = x * 256 + y.
Proof.
  intros Hy. pose proof (lor_byte x y 0 ltac:(lia) Hy) as H.
  by rewrite !Z.shiftl_0_r in H.
Qed.

Lemma get_uint64_be bs :
  length bs = 8%nat → bytes_ok bs → get_uint64 bs = Some (be_value bs).
Proof.
  intros Hlen Hok. do 8 (destruct bs as [|? bs]; [done|]). destruct bs; [|done].
  repeat match goal with H : bytes_ok (_ :: _) |- _ => apply Forall_cons in H as [? H] end.
  unfold get_uint64, be_value. cbn [fold_left].
  rewrite (lor_byte _ _ 48), (lor_byte _ _ 40), (lor_byte _ _ 32), (lor_byte _ _ 24),
    (lor_byte _ _ 16), (lor_byte _ _ 8), lor_byte_0 by done.
  done.
Qed.

Lemma get_uint32_be bs :
  length bs = 4%nat → bytes_ok bs → get_uint32 bs = Some (be_value bs).
Proof.
  intros Hlen Hok. do 4 (destruct bs as [|? bs]; [done|]). destruct bs; [|done].
  repeat match goal with H : bytes_ok (_ :: _) |- _ => apply Forall_cons in H as [? H] end.
  unfold get_uint32, be_value. cbn [fold_left].
  rewrite (lor_byte _ _ 16), (lor_byte _ _ 8), lor_byte_0 by done.
  done.
Qed.

Lemma get_uint16_be bs :
  length bs = 2%nat → bytes_ok bs → get_uint16 bs = Some (be_value bs).
Proof.
  intros Hlen Hok. do 2 (destruct bs as [|? bs]; [done|]). destruct bs; [|done].
  repeat match goal with H : bytes_ok (_ :: _) |- _ => apply Forall_cons in H as [? H] end.
  unfold get_uint16, be_value. cbn [fold_left]. by rewrite lor_byte_0.
Qed.

(** ** The bytes of a value *)

Lemma put_uint64_ok v : bytes_ok (put_uint64 v).
Proof. unfold put_uint64. repeat (apply Forall_cons; split; [auto with zmq lia|]). done. Qed.
Lemma put_uint32_ok v : bytes_ok (put_uint32 v).
Proof. unfold put_uint32. repeat (apply Forall_cons; split; [auto with zmq lia|]). done. Qed.
Lemma put_uint16_ok v : bytes_ok (put_uint16 v).
Proof. unfold put_uint16. repeat (apply Forall_cons; split; [auto with zmq lia|]). done. Qed.

(** The bits above [s] from those above [s + 8] and the byte in between. *)
Lemma div_step v s s' :
  0 ≤ s → s' = s + 8 → v / 2 ^ s' * 256 + (v / 2 ^ s) mod 256 = v / 2 ^ s.
Proof.
  intros ? ->. rewrite Z.pow_add_r, <-Z.div_div by lia. change (2 ^ 8) with 256.
  rewrite (Z.mul_comm _ 256). symmetry. apply Z.div_mod. done.
Qed.

Lemma div_step_0 v : v / 2 ^ 8 * 256 + v mod 256 = v.
Proof. pose proof (div_step v 0 8 ltac:(lia) eq_refl) as H. by rewrite Z.div_1_r in H. Qed.

Lemma top_byte v s w :
  0 ≤ s → w = s + 8 → 0 ≤ v < 2 ^ w → 0 * 256 + (v / 2 ^ s) mod 256 = v / 2 ^ s.
Proof.
  intros ? -> Hv. rewrite <-(div_step v s (s + 8)) at 2 by lia.
  by rewrite (Z.div_small v (2 ^ (s + 8))) by done.
Qed.

Lemma put_uint64_be v : 0 ≤ v < 2 ^ 64 → be_value (put_uint64 v) = v.
Proof.
  intros Hv. unfold put_uint64, be_value. cbn [fold_left].
  rewrite !byte_of_div, land_255 by lia.
  rewrite (top_byte v 56 64) by lia.
  rewrite (div_step v 48 56), (div_step v 40 48), (div_step v 32 40), (div_step v 24 32), (div_step v 16 24), (div_step v 8 16) by lia.
  apply div_step_0.
Qed.

Lemma put_uint32_be v : 0 ≤ v < 2 ^ 32 → be_value (put_uint32 v) = v.
Proof.
  intros Hv. unfold put_uint32, be_value. cbn [fold_left].
  rewrite !byte_of_div, land_255 by lia.
  rewrite (top_byte v 24 32) by lia.
  rewrite (div_step v 16 24), (div_step v 8 16) by lia.
  apply div_step_0.
Qed.

Lemma put_uint16_be v : 0 ≤ v < 2 ^ 16 → be_value (put_uint16 v) = v.
Proof.
  intros Hv. unfold put_uint16, be_value. cbn [fold_left].
  rewrite !byte_of_div, land_255 by lia.
  rewrite (top_byte v 8 16) by lia.
  apply div_step_0.
Qed.

Lemma get_put_uint64 v rest :
  0 ≤ v < 2 ^ 64 → get_uint64 (put_uint64 v ++ rest) = Some v.
Proof.
  intros Hv. rewrite <-(put_uint64_be v Hv) at 2.
  rewrite <-(get_uint64_be (put_uint64 v)); [done|done|apply put_uint64_ok].
Qed.

(** [get_uint16/32/64] reads back the value [put_uint16/32/64] stored, for
    every value of the type and whatever follows in the buffer; and the bytes
    written are the big-endian digits of the value. *)
Theorem wire_roundtrip v16 v32 v64 rest :
  0 ≤ v16 < 2 ^ 16 → 0 ≤ v32 < 2 ^ 32 → 0 ≤ v64 < 2 ^ 64 →
  get_uint16 (put_uint16 v16 ++ rest) = Some v16 ∧
  get_uint32 (put_uint32 v32 ++ rest) = Some v32 ∧
  get_uint64 (put_uint64 v64 ++ rest) = Some v64 ∧
  be_value (put_uint16 v16) = v16 ∧ be_value (put_uint32 v32) = v32 ∧
  be_value (put_uint64 v64) = v64.
Proof.
  intros H16 H32 H64. rewrite put_uint16_be, put_uint32_be, put_uint64_be by done.
  split; [|split; [|split; [by apply get_put_uint64|done]]].
  - rewrite <-(put_uint16_be v16 H16) at 2.
    rewrite <-(get_uint16_be (put_uint16 v16)); [done|done|apply put_uint16_ok].
  - rewrite <-(put_uint32_be v32 H32) at 2.
    rewrite <-(get_uint32_be (put_uint32 v32)); [done|done|apply put_uint32_ok].
Qed.

Lemma wire_roundtrip_witness :
  put_uint64 258 = [0; 0; 0; 0; 0; 0; 1; 2] ∧
  (get_uint16 (put_uint16 770 ++ [7]) = Some 770 ∧
   get_uint32 (put_uint32 16909060 ++ [7]) = Some 16909060 ∧
   get_uint64 (put_uint64 258 ++ [7]) = Some 258 ∧
   be_value (put_uint16 770) = 770 ∧ be_value (put_uint32 16909060) = 16909060 ∧
   be_value (put_uint64 258) = 258).
Proof. split; [vm_compute; reflexivity|]. apply (wire_roundtrip 770 16909060 258 [7]); lia. Defined.
