(* ===== verification/Msg.v ===== *)
(** * Messages (src/msg.hpp, src/msg.cpp)

    A [msg_t] is a value of [msg]; the reference-counted contents and metadata
    its pointers lead to live in a [heap].  Freed objects leave the heap, so a
    read or a second release through a dangling pointer gives [None], as a
    failed assertion does.  Messages stand in the slots of a [store], because
    [move] and [copy] work on two messages that may be the same. *)

From S2P Require Import Prelude.

(** ** Constants *)

(** The flags of [msg_t]. *)
Definition more := 1.
Definition command := 2.
Definition ping := 4.
Definition pong := 8.
Definition subscribe := 12.
Definition cancel := 16.
Definition credential := 32.
Definition routing_id := 64.
Definition shared := 128.
Definition CMD_TYPE_MASK := 28.

(** [msg_t::type_t] *)
Definition type_min := 101.
Definition type_vsm := 101.
Definition type_lmsg := 102.
Definition type_delimiter := 103.
Definition type_cmsg := 104.
Definition type_zclmsg := 105.
Definition type_join := 106.
Definition type_leave := 107.
Definition type_max := 107.

(** [msg_t_size - (sizeof (metadata_t * ) + 3 + 16 + sizeof (uint32_t))] with
    8-byte pointers, and [sizeof (content_t)]. *)
Definition max_vsm_size : Z := 64 - (8 + 3 + 16 + 4).
Definition sizeof_content : Z := 40.
Definition ZMQ_GROUP_MAX_LENGTH : Z := 15.
Definition ping_cmd_name_size : Z := 5.
Definition cancel_cmd_name_size : Z := 7.
Definition sub_cmd_name_size : Z := 10.

(** ** Data *)

(** [msg_t::content_t]; [c_data] holds the bytes [data] points to, [c_ffn]
    whether there is a deallocation function. *)
Record content : Type := Content {
  c_data : list Z;
  c_size : Z;
  c_ffn : bool;
  c_hint : Z;
  c_refcnt : Z;
}.

(** The union [_u]: the part that depends on the type of the message. *)
Inductive body : Type :=
| BVsm (data : list Z) (size : Z)
| BContent (l : nat)
| BCmsg (data : list Z) (size : Z)
| BNone.

Record msg : Type := Msg {
  m_type : Z;
  m_flags : Z;
  m_metadata : option nat;
  m_body : body;
  m_group : list Z;
  m_routing_id : Z;
}.

(** Contents, metadata reference counts and the calls of deallocation
    functions so far, latest first. *)
Record heap : Type := Heap {
  conts : gmap nat content;
  metas : gmap nat Z;
  freed : list (list Z * Z);
}.

Definition set_conts (f : gmap nat content → gmap nat content) (h : heap) : heap :=
  Heap (f (conts h)) (metas h) (freed h).

Section msg.
(** What the C library decides: the bytes of fresh memory and whether an
    allocation of so many bytes succeeds. *)
Context (uninit : Z → list Z) (malloc_ok : Z → bool).

(** ** Predicates *)

Definition check (m : msg) : bool := (type_min <=? m_type m) && (m_type m <=? type_max).
Definition is_vsm (m : msg) : bool := m_type m =? type_vsm.
Definition is_cmsg (m : msg) : bool := m_type m =? type_cmsg.
Definition is_lmsg (m : msg) : bool := m_type m =? type_lmsg.
Definition is_zcmsg (m : msg) : bool := m_type m =? type_zclmsg.
Definition is_delimiter (m : msg) : bool := m_type m =? type_delimiter.
Definition is_join (m : msg) : bool := m_type m =? type_join.
Definition is_leave (m : msg) : bool := m_type m =? type_leave.
Definition is_routing_id (m : msg) : bool := Z.land (m_flags m) routing_id =? routing_id.
Definition is_credential (m : msg) : bool := Z.land (m_flags m) credential =? credential.
Definition is_ping (m : msg) : bool := Z.land (m_flags m) CMD_TYPE_MASK =? ping.
Definition is_pong (m : msg) : bool := Z.land (m_flags m) CMD_TYPE_MASK =? pong.
Definition is_subscribe (m : msg) : bool := Z.land (m_flags m) CMD_TYPE_MASK =? subscribe.
Definition is_cancel (m : msg) : bool := Z.land (m_flags m) CMD_TYPE_MASK =? cancel.
Definition is_shared (m : msg) : bool := negb (Z.land (m_flags m) shared =? 0).

Definition set_flags (f : Z) (m : msg) : msg :=
  Msg (m_type m) (Z.lor (m_flags m) f) (m_metadata m) (m_body m) (m_group m) (m_routing_id m).
Definition reset_flags (f : Z) (m : msg) : msg :=
  Msg (m_type m) (Z.ldiff (m_flags m) f) (m_metadata m) (m_body m) (m_group m) (m_routing_id m).
Definition set_type (t : Z) (m : msg) : msg :=
  Msg t (m_flags m) (m_metadata m) (m_body m) (m_group m) (m_routing_id m).
Definition with_metadata (md : option nat) (m : msg) : msg :=
  Msg (m_type m) (m_flags m) md (m_body m) (m_group m) (m_routing_id m).

(** ** Initialisation *)

Definition msg_init : msg := Msg type_vsm 0 None (BVsm [] 0) [] 0.
Definition init_delimiter : msg := Msg type_delimiter 0 None BNone [] 0.
Definition init_join : msg := Msg type_join 0 None BNone [] 0.
Definition init_leave : msg := Msg type_leave 0 None BNone [] 0.

(** A fresh content in the heap. *)
Definition new_content (c : content) (h : heap) : nat * heap :=
  let l := fresh (dom (conts h)) in (l, set_conts (insert l c) h).

(** [init_size]; on failure the message is left half initialised. *)
Definition init_size (size : Z) (h : heap) : rc * msg * heap :=
  if size <=? max_vsm_size then
    (RcOk, Msg type_vsm 0 None (BVsm (uninit size) size) [] 0, h)
  else if (size <? u64 (sizeof_content + size)) && malloc_ok (sizeof_content + size) then
    let '(l, h) := new_content (Content (uninit size) size false 0 0) h in
    (RcOk, Msg type_lmsg 0 None (BContent l) [] 0, h)
  else (RcErr ENOMEM, Msg type_lmsg 0 None BNone [] 0, h).

(** [init_external_storage]; NULL is [None]. *)
Definition init_external_storage (data : option (list Z)) (size : Z) (ffn : bool) (hint : Z)
    (h : heap) : option (rc * msg * heap) :=
  data ← data;
  let '(l, h) := new_content (Content data size ffn hint 0) h in
  Some (RcOk, Msg type_zclmsg 0 None (BContent l) [] 0, h).

(** [init_data] *)
Definition init_data (data : option (list Z)) (size : Z) (ffn : bool) (hint : Z)
    (h : heap) : option (rc * msg * heap) :=
  _ ← zmq_assert (bool_decide (is_Some data) || (size =? 0));
  if negb ffn then Some (RcOk, Msg type_cmsg 0 None (BCmsg (default [] data) size) [] 0, h)
  else if malloc_ok sizeof_content then
    let '(l, h) := new_content (Content (default [] data) size ffn hint 0) h in
    Some (RcOk, Msg type_lmsg 0 None (BContent l) [] 0, h)
  else Some (RcErr ENOMEM, Msg type_lmsg 0 None BNone [] 0, h).

(** [init (data, size, ffn, hint, content)]; [external] tells whether storage for
    the content is provided. *)
Definition init (data : option (list Z)) (size : Z) (ffn : bool) (hint : Z) (external : bool)
    (h : heap) : option (rc * msg * heap) :=
  if size <? max_vsm_size then
    let '(r, m, h) := init_size size h in
    match r with
    | RcOk =>
        _ ← zmq_assert (bool_decide (is_Some data) || (size =? 0));
        let bytes := take (Z.to_nat size) (default [] data) in
        Some (RcOk, Msg type_vsm 0 None (BVsm bytes size) [] 0, h)
    | e => Some (e, m, h)
    end
  else if external then init_external_storage data size ffn hint h
  else init_data data size ffn hint h.

(** ** Access *)

Definition msg_content (m : msg) (h : heap) : option (nat * content) :=
  match m_body m with
  | BContent l => c ← conts h !! l; Some (l, c)
  | _ => None
  end.

(** [data]: the bytes of the message. *)
Definition data (m : msg) (h : heap) : option (list Z) :=
  _ ← zmq_assert (check m);
  if is_vsm m then match m_body m with BVsm d _ => Some d | _ => None end
  else if is_lmsg m || is_zcmsg m then c ← msg_content m h; Some (c_data c.2)
  else if is_cmsg m then match m_body m with BCmsg d _ => Some d | _ => None end
  else None.

(** [size] *)
Definition size (m : msg) (h : heap) : option Z :=
  _ ← zmq_assert (check m);
  if is_vsm m then match m_body m with BVsm _ n => Some n | _ => None end
  else if is_lmsg m || is_zcmsg m then c ← msg_content m h; Some (c_size c.2)
  else if is_cmsg m then match m_body m with BCmsg _ n => Some n | _ => None end
  else None.

(** [refcnt]: the counter, with the content it belongs to. *)
Definition refcnt (m : msg) (h : heap) : option (nat * content) :=
  if is_lmsg m || is_zcmsg m then msg_content m h else None.

Definition set_refcnt (v : Z) (c : content) : content :=
  Content (c_data c) (c_size c) (c_ffn c) (c_hint c) v.

(** [atomic_counter_t::add] and [sub] on the counter of a content. *)
Definition refcnt_add (l : nat) (c : content) (n : Z) (h : heap) : heap :=
  set_conts (insert l (set_refcnt (u32 (c_refcnt c + n)) c)) h.
Definition refcnt_sub (l : nat) (c : content) (n : Z) (h : heap) : bool * heap :=
  let v := u32 (c_refcnt c - n) in
  (negb (v =? 0), set_conts (insert l (set_refcnt v c)) h).

(** Running the deallocation function and releasing the content. *)
Definition destroy_content (l : nat) (c : content) (h : heap) : heap :=
  Heap (delete l (conts h)) (metas h)
       (if c_ffn c then (c_data c, c_hint c) :: freed h else freed h).

(** [metadata_t::add_ref], [metadata_t::drop_ref] followed by the deletion of
    the object when the count drops to zero. *)
Definition meta_add_ref (l : nat) (h : heap) : option heap :=
  n ← metas h !! l; Some (Heap (conts h) (<[l := u32 (n + 1)]> (metas h)) (freed h)).
Definition meta_drop_ref (l : nat) (h : heap) : option heap :=
  n ← metas h !! l;
  let n := u32 (n - 1) in
  Some (Heap (conts h) (if n =? 0 then delete l (metas h) else <[l := n]> (metas h)) (freed h)).

(** [command_body_size] and [command_body] *)
Definition command_body_size (m : msg) (h : heap) : option Z :=
  if is_ping m || is_pong m then n ← size m h; Some (u64 (n - ping_cmd_name_size))
  else if is_subscribe m then n ← size m h; Some (u64 (n - sub_cmd_name_size))
  else if is_cancel m then n ← size m h; Some (u64 (n - cancel_cmd_name_size))
  else Some 0.
Definition command_body (m : msg) (h : heap) : option (option (list Z)) :=
  if is_ping m || is_pong m then d ← data m h; Some (Some (drop (Z.to_nat ping_cmd_name_size) d))
  else if is_subscribe m then d ← data m h; Some (Some (drop (Z.to_nat sub_cmd_name_size) d))
  else if is_cancel m then d ← data m h; Some (Some (drop (Z.to_nat cancel_cmd_name_size) d))
  else Some None.

(** ** Release *)

(** The reference of one message on its content: released when the content is
    not shared or its count drops to zero. *)
Definition release_content (m : msg) (h : heap) : option heap :=
  c ← msg_content m h;
  let '(l, c) := c in
  if negb (is_shared m) then Some (destroy_content l c h)
  else let '(alive, h) := refcnt_sub l c 1 h in
       if negb alive then Some (destroy_content l c h) else Some h.

(** [reset_metadata] *)
Definition reset_metadata (m : msg) (h : heap) : option (msg * heap) :=
  match m_metadata m with
  | None => Some (m, h)
  | Some l => h ← meta_drop_ref l h; Some (with_metadata None m, h)
  end.

(** [close] *)
Definition close (m : msg) (h : heap) : option (rc * msg * heap) :=
  if negb (check m) then Some (RcErr EFAULT, m, h)
  else
    h ← (if is_lmsg m then release_content m h else Some h);
    h ← (if is_zcmsg m then
           c ← msg_content m h;
           _ ← zmq_assert (c_ffn c.2);
           release_content m h
         else Some h);
    '(m, h) ← reset_metadata m h;
    Some (RcOk, set_type 0 m, h).

(** [set_metadata] *)
Definition set_metadata (l : nat) (m : msg) (h : heap) : option (msg * heap) :=
  _ ← zmq_assert (bool_decide (m_metadata m = None));
  h ← meta_add_ref l h;
  Some (with_metadata (Some l) m, h).

(** [add_refs] and [rm_refs] *)
Definition add_refs (refs : Z) (m : msg) (h : heap) : option (msg * heap) :=
  _ ← zmq_assert (0 <=? refs);
  _ ← zmq_assert (bool_decide (m_metadata m = None));
  if refs =? 0 then Some (m, h)
  else if is_lmsg m || is_zcmsg m then
    c ← refcnt m h;
    let '(l, c) := c in
    if is_shared m then Some (m, refcnt_add l c refs h)
    else Some (set_flags shared m, set_conts (insert l (set_refcnt (u32 (refs + 1)) c)) h)
  else Some (m, h).

Definition rm_refs (refs : Z) (m : msg) (h : heap) : option (bool * msg * heap) :=
  _ ← zmq_assert (0 <=? refs);
  _ ← zmq_assert (bool_decide (m_metadata m = None));
  if refs =? 0 then Some (true, m, h)
  else if negb (is_lmsg m || is_zcmsg m) || negb (is_shared m) then
    '(_, m, h) ← close m h; Some (false, m, h)
  else
    c ← msg_content m h;
    let '(l, c) := c in
    let '(alive, h) := refcnt_sub l c refs h in
    if alive then Some (true, m, h) else Some (false, m, destroy_content l c h).

(** ** Routing id and group *)

Definition get_routing_id (m : msg) : Z := m_routing_id m.
Definition set_routing_id (v : Z) (m : msg) : rc * msg :=
  if negb (v =? 0) then
    (RcOk, Msg (m_type m) (m_flags m) (m_metadata m) (m_body m) (m_group m) v)
  else (RcErr EINVAL, m).
Definition reset_routing_id (m : msg) : msg :=
  Msg (m_type m) (m_flags m) (m_metadata m) (m_body m) (m_group m) 0.

(** The characters before the first NUL. *)
Fixpoint cstring (s : list Z) : list Z :=
  match s with
  | [] => []
  | c :: s => if c =? 0 then [] else c :: cstring s
  end.

(** [set_group (group, length)]; [m_group] is the group as a C string. *)
Definition set_group_n (g : list Z) (length : Z) (m : msg) : rc * msg :=
  if ZMQ_GROUP_MAX_LENGTH <? length then (RcErr EINVAL, m)
  else (RcOk, Msg (m_type m) (m_flags m) (m_metadata m) (m_body m)
                  (cstring (take (Z.to_nat length) g)) (m_routing_id m)).
Definition set_group (g : list Z) (m : msg) : rc * msg :=
  set_group_n g ZMQ_GROUP_MAX_LENGTH m.

(** ** Two messages *)

Record store : Type := Store { slots : list msg; hp : heap }.

(** [close] of the message in slot [d]. *)
Definition close_at (d : nat) (st : store) : option (rc * store) :=
  m ← slots st !! d;
  '(r, m, h) ← close m (hp st);
  Some (r, Store (<[d := m]> (slots st)) h).

(** [slot d].move ([slot s]) *)
Definition move (d s : nat) (st : store) : option (rc * store) :=
  src ← slots st !! s;
  if negb (check src) then Some (RcErr EFAULT, st)
  else
    '(r, st) ← close_at d st;
    match r with
    | RcErr _ => Some (r, st)
    | RcOk =>
        src ← slots st !! s;
        let sl := <[d := src]> (slots st) in
        Some (RcOk, Store (<[s := msg_init]> sl) (hp st))
    end.

(** [slot d].copy ([slot s]) *)
Definition copy (d s : nat) (st : store) : option (rc * store) :=
  src ← slots st !! s;
  if negb (check src) then Some (RcErr EFAULT, st)
  else
    '(r, st) ← close_at d st;
    match r with
    | RcErr _ => Some (r, st)
    | RcOk =>
        src ← slots st !! s;
        '(src, h) ← (if is_lmsg src || is_zcmsg src then
                       c ← refcnt src (hp st);
                       let '(l, c) := c in
                       if is_shared src then Some (src, refcnt_add l c 1 (hp st))
                       else Some (set_flags shared src,
                                  set_conts (insert l (set_refcnt 2 c)) (hp st))
                     else Some (src, hp st));
        h ← match m_metadata src with
            | Some l => meta_add_ref l h
            | None => Some h
            end;
        Some (RcOk, Store (<[d := src]> (<[s := src]> (slots st))) h)
    end.
End msg.

(** ** Properties *)

(** A message initialised from a buffer reads as the buffer; its type tells
    where the bytes are: in the message itself below [max_vsm_size], else in the
    storage the caller provided, in a reference-counted content when there is a
    deallocation function, or in the caller's constant buffer. *)
Theorem msg_init_reads uninit malloc_ok bytes ffn hint external h r m h'
  (Hinit : init uninit malloc_ok (Some bytes) (Z.of_nat (length bytes)) ffn hint external h
           = Some (r, m, h')) :
  (r = RcOk ∨ r = RcErr ENOMEM) ∧ m_flags m = 0 ∧ m_metadata m = None ∧
  (r = RcOk →
    data m h' = Some bytes ∧ size m h' = Some (Z.of_nat (length bytes)) ∧
    m_type m = (if Z.of_nat (length bytes) <? max_vsm_size then type_vsm
                else if external then type_zclmsg
                else if ffn then type_lmsg else type_cmsg)).
Proof.
  assert (∀ ty l c (h0 : heap), ty = type_lmsg ∨ ty = type_zclmsg → conts h0 !! l = Some c →
    data (Msg ty 0 None (BContent l) [] 0) h0 = Some (c_data c) ∧
    size (Msg ty 0 None (BContent l) [] 0) h0 = Some (c_size c)) as Hread.
  { intros ty l c h0 Hty Hl. destruct Hty as [-> | ->]; unfold data, size, msg_content;
      cbn -[lookup]; by rewrite Hl. }
  revert Hinit. unfold init. destruct (Z.ltb_spec (Z.of_nat (length bytes)) max_vsm_size).
  - unfold init_size. zdecide. rewrite Nat2Z.id, firstn_all. intros [= <- <- <-].
    by split_and!; [left|..].
  - destruct external.
    + intros [= <- <- <-]. split_and!; [by left|done..|]. intros _.
      match goal with |- data _ ?h0 = _ ∧ _ =>
        destruct (Hread type_zclmsg (fresh (dom (conts h)))
          (Content bytes (Z.of_nat (length bytes)) ffn hint 0) h0) as [? ?];
        [by right|apply lookup_insert_eq|done] end.
    + unfold init_data. rewrite bool_decide_eq_true_2 by (by eexists).
      destruct ffn; cbn [zmq_assert orb negb mbind option_bind].
      * destruct (malloc_ok _); intros [= <- <- <-]; (split_and!; [by auto|done|done|]); [|done].
        intros _. match goal with |- data _ ?h0 = _ ∧ _ =>
          destruct (Hread type_lmsg (fresh (dom (conts h)))
            (Content bytes (Z.of_nat (length bytes)) true hint 0) h0) as [? ?];
          [by left|apply lookup_insert_eq|done] end.
      * intros [= <- <- <-]. by split_and!; [left|..].
Qed.

Lemma msg_init_reads_witness :
  let '(_, h) := new_content (Content (replicate 40 0) 40 true 9 0) (Heap ∅ ∅ []) in
  ∃ m, data m h = Some (replicate 40 0).
Proof.
  pose proof (msg_init_reads (λ n, replicate (Z.to_nat n) 0) (λ _, true) (replicate 40 0) true 9 true (Heap ∅ ∅ []) RcOk _ _ eq_refl)
    as (_ & _ & _ & H).
  destruct (H eq_refl) as [Hd _]. eexists. exact Hd.
Defined.
