(* ===== verification/MsgOwn.v ===== *)
(** * Ownership of message contents (src/msg.cpp)

    Which message refers to which content and metadata object, the invariant
    that ties the reference counters to the messages, and the proof that the
    operations of [msg_t] keep it: no counter underflows, no content is freed
    while a message refers to it, and each is freed with its last reference. *)

From S2P Require Import Prelude Msg.

Definition long (m : msg) : bool := is_lmsg m || is_zcmsg m.

(** The message holds a reference on content [l], on metadata [l]. *)
Definition owns (l : nat) (m : msg) : bool :=
  long m && match m_body m with BContent l' => bool_decide (l' = l) | _ => false end.
Definition holds (l : nat) (m : msg) : bool := bool_decide (m_metadata m = Some l).

(** The body fits the type, and pointers lead to live contents. *)
Definition body_wf (cs : gmap nat content) (m : msg) : Prop :=
  (is_vsm m = true → ∃ d, m_body m = BVsm d (Z.of_nat (length d))) ∧
  (is_cmsg m = true → ∃ d, m_body m = BCmsg d (Z.of_nat (length d))) ∧
  (long m = true → ∃ l c, m_body m = BContent l ∧ cs !! l = Some c ∧
                          (is_zcmsg m = true → c_ffn c = true)).

(** Every content is referenced; its counter is the number of messages that
    share it, and a message that does not share is alone. *)
Record inv_contents (sl : list msg) (cs : gmap nat content) : Prop := {
  ic_body : ∀ m, m ∈ sl → body_wf cs m;
  ic_owned : ∀ l c, cs !! l = Some c → 1 ≤ count (owns l) sl;
  ic_count : ∀ l c m, cs !! l = Some c → m ∈ sl → owns l m = true →
    if is_shared m then c_refcnt c = count (owns l) sl else count (owns l) sl = 1;
  ic_size : ∀ l c, cs !! l = Some c → c_size c = Z.of_nat (length (c_data c));
}.

(** Every metadata object's counter is the number of messages that hold it,
    plus one while its creator ([ext]) does. *)
Definition meta_refs (sl : list msg) (ext : gset nat) (l : nat) : Z :=
  count (holds l) sl + b2z (bool_decide (l ∈ ext)).

Record inv_metas (sl : list msg) (ms : gmap nat Z) (ext : gset nat) : Prop := {
  im_live : ∀ m l, m ∈ sl → m_metadata m = Some l → is_Some (ms !! l);
  im_count : ∀ l n, ms !! l = Some n →
    n = meta_refs sl ext l ∧ 1 ≤ n;
}.

(** ** Basic facts *)

Lemma owns_body l m : owns l m = true ↔ long m = true ∧ m_body m = BContent l.
Proof.
  unfold owns. destruct (long m); simpl; [|split; [done|by intros []]].
  destruct (m_body m) as [| l' | |]; try (split; [done|intros [_ ?]; done]).
  rewrite bool_decide_eq_true. split; [by intros ->|by intros [_ [= ->]]].
Qed.

Lemma owns_other l l' m : owns l m = true → l' ≠ l → owns l' m = false.
Proof.
  intros [Hm Hb]%owns_body Hne. unfold owns. rewrite Hm, Hb. simpl.
  by apply bool_decide_eq_false_2.
Qed.

Lemma not_long_owns l m : long m = false → owns l m = false.
Proof. unfold owns. by intros ->. Qed.

Lemma holds_none l m : m_metadata m = None → holds l m = false.
Proof. unfold holds. intros ->. by apply bool_decide_eq_false. Qed.

Lemma owns_ext l m m' : m_type m' = m_type m → m_body m' = m_body m → owns l m' = owns l m.
Proof. unfold owns, long, is_lmsg, is_zcmsg. by intros -> ->. Qed.

Lemma body_wf_ext cs m m' :
  m_type m' = m_type m → m_body m' = m_body m → body_wf cs m → body_wf cs m'.
Proof. unfold body_wf, long, is_vsm, is_cmsg, is_lmsg, is_zcmsg. by intros -> ->. Qed.

Lemma body_wf_mono cs cs' m :
  body_wf cs m →
  (∀ l c, owns l m = true → cs !! l = Some c → ∃ c', cs' !! l = Some c' ∧ c_ffn c' = c_ffn c) →
  body_wf cs' m.
Proof.
  intros (H1 & H2 & H3) Hcs. split; [done|]. split; [done|]. intros Hl.
  destruct (H3 Hl) as (l & c & Hb & Hc & Hf).
  destruct (Hcs l c ltac:(by apply owns_body) Hc) as (c' & Hc' & Heq).
  exists l, c'. by rewrite Heq.
Qed.

Lemma long_types m : long m = true → is_vsm m = false ∧ is_cmsg m = false ∧ check m = true.
Proof.
  unfold long, is_vsm, is_cmsg, is_lmsg, is_zcmsg, check.
  rewrite orb_true_iff, !Z.eqb_eq, !Z.eqb_neq, andb_true_iff, !Z.leb_le.
  unfold type_lmsg, type_zclmsg, type_vsm, type_cmsg, type_min, type_max. lia.
Qed.

Lemma long_wf cs m l c :
  long m = true → m_body m = BContent l → cs !! l = Some c →
  (is_zcmsg m = true → c_ffn c = true) → body_wf cs m.
Proof.
  intros Hl Hb Hc Hf. destruct (long_types _ Hl) as (Hv & Hcm & _).
  split; [congruence|]. split; [congruence|]. intros _. by exists l, c.
Qed.

Lemma msg_content_wf cs h m :
  conts h = cs → body_wf cs m → long m = true →
  ∃ l c, msg_content m h = Some (l, c) ∧ m_body m = BContent l ∧ cs !! l = Some c ∧
         owns l m = true ∧ (is_zcmsg m = true → c_ffn c = true).
Proof.
  intros <- (_ & _ & Hl) Hlong. destruct (Hl Hlong) as (l & c & Hb & Hc & Hz).
  exists l, c. unfold msg_content. rewrite Hb, Hc. split_and!; try done. by apply owns_body.
Qed.

(** ** The contents *)

Section contents.
Context (sl : list msg) (cs : gmap nat content).
Hypothesis Hinv : inv_contents sl cs.

Lemma owns_live l m : m ∈ sl → owns l m = true → is_Some (cs !! l).
Proof.
  intros Hm [Hl Hb]%owns_body. destruct (ic_body _ _ Hinv _ Hm) as (_ & _ & H).
  destruct (H Hl) as (l' & c & ? & ? & _).
  assert (l = l') as -> by congruence. by eexists.
Qed.

(** A change that keeps every reference. *)
Lemma inv_contents_same sl' :
  (∀ x, x ∈ sl' → x ∈ sl ∨ body_wf cs x ∧
     ∀ l, owns l x = true → ∃ y, y ∈ sl ∧ owns l y = true ∧ is_shared x = is_shared y) →
  (∀ l, count (owns l) sl' = count (owns l) sl) →
  inv_contents sl' cs.
Proof.
  intros Hx Hcount. constructor.
  - intros x [Hin|[Hwf _]]%Hx; [by apply (ic_body _ _ Hinv)|done].
  - intros l c Hl. rewrite Hcount. by eapply ic_owned.
  - intros l c x Hl Hin Hox. rewrite Hcount. destruct (Hx _ Hin) as [Hin'|[_ H]].
    + by eapply (ic_count _ _ Hinv).
    + destruct (H _ Hox) as (y & Hy & Hoy & ->). by eapply (ic_count _ _ Hinv).
  - apply (ic_size _ _ Hinv).
Qed.

(** The number of references on one content changes and stays positive; all
    that remain share it. *)
Lemma inv_contents_recount l c k sl' :
  cs !! l = Some c →
  (∀ x, x ∈ sl' → x ∈ sl ∨ body_wf cs x ∧ ∀ l', owns l' x = true → l' = l) →
  (∀ l', l' ≠ l → count (owns l') sl' = count (owns l') sl) →
  count (owns l) sl' = k → 1 ≤ k →
  (∀ x, x ∈ sl' → owns l x = true → is_shared x = true) →
  inv_contents sl' (<[l := set_refcnt k c]> cs).
Proof.
  intros Hl Hx Hne Hk Hpos Hsh.
  assert (∀ x, body_wf cs x → body_wf (<[l := set_refcnt k c]> cs) x) as Hmono.
  { intros x Hw. eapply body_wf_mono; [done|]. intros l' c' _ Hl'.
    rewrite lookup_insert. destruct (decide (l = l')) as [->|]; [|eauto].
    simplify_eq. by eexists. }
  constructor.
  - intros x [Hin|[Hwf _]]%Hx; apply Hmono; [by apply (ic_body _ _ Hinv)|done].
  - intros l' c'. rewrite lookup_insert. case_decide as E; subst; [done|].
    intros Hl'. rewrite Hne by done. by eapply (ic_owned _ _ Hinv).
  - intros l' c' x. rewrite lookup_insert. case_decide as E; subst.
    + intros [= <-] Hin Hox. by rewrite (Hsh _ Hin Hox).
    + intros Hl' Hin Hox. rewrite Hne by done. destruct (Hx _ Hin) as [Hin'|[_ H]].
      * by eapply (ic_count _ _ Hinv).
      * by apply H in Hox as ->.
  - intros l' c'. rewrite lookup_insert. case_decide; [|apply (ic_size _ _ Hinv)].
    intros [= <-]. subst. by apply (ic_size _ _ Hinv _ _ Hl).
Qed.

(** The last references on a content go away, and the content with them. *)
Lemma inv_contents_delete l sl' :
  (∀ x, x ∈ sl' → x ∈ sl ∨ body_wf cs x ∧ long x = false) →
  (∀ l', l' ≠ l → count (owns l') sl' = count (owns l') sl) →
  count (owns l) sl' = 0 →
  inv_contents sl' (delete l cs).
Proof.
  intros Hx Hne H0. constructor.
  - intros x Hin. assert (body_wf cs x) as Hw.
    { destruct (Hx _ Hin) as [?|[??]]; [by apply (ic_body _ _ Hinv)|done]. }
    eapply body_wf_mono; [done|]. intros l' c' Ho Hl'.
    rewrite lookup_delete_ne; [eauto|]. intros ->.
    by rewrite (count_0_elem _ _ _ H0 Hin) in Ho.
  - intros l' c' [? Hl']%lookup_delete_Some. rewrite Hne by done. by eapply (ic_owned _ _ Hinv).
  - intros l' c' x [? Hl']%lookup_delete_Some Hin Hox. rewrite Hne by done.
    destruct (Hx _ Hin) as [?|[_ Hn]]; [by eapply (ic_count _ _ Hinv)|].
    by rewrite not_long_owns in Hox.
  - intros l' c' [_ Hl']%lookup_delete_Some. by apply (ic_size _ _ Hinv _ _ Hl').
Qed.

(** A fresh unshared content for a message that owned nothing. *)
Lemma inv_contents_new d m m' l c :
  sl !! d = Some m → long m = false → cs !! l = None →
  long m' = true → m_body m' = BContent l → is_shared m' = false →
  c_size c = Z.of_nat (length (c_data c)) → (is_zcmsg m' = true → c_ffn c = true) →
  inv_contents (<[d:=m']> sl) (<[l:=c]> cs).
Proof.
  intros Hd Hm Hl Hm' Hbody Hsh Hsz Hz. pose proof (lookup_lt_Some _ _ _ Hd) as Hlt.
  assert (∀ x, x ∈ sl → owns l x = false) as Hfresh.
  { intros x Hx. destruct (owns l x) eqn:E; [|done].
    destruct (owns_live _ _ Hx E) as [? ?]. congruence. }
  assert (count (owns l) sl = 0) as H0.
  { rewrite (count_ext _ (λ _, false)) by done. clear. induction sl; simpl; lia. }
  assert (∀ l', count (owns l') (<[d:=m']> sl) =
                count (owns l') sl + b2z (bool_decide (l' = l))) as Hcount.
  { intros l'. rewrite (count_insert _ _ _ m) by done. rewrite (not_long_owns l' m) by done.
    unfold owns at 2. rewrite Hm', Hbody. simpl.
    rewrite (bool_decide_ext (l = l') (l' = l)) by naive_solver. lia. }
  constructor.
  - intros x [->|Hin]%elem_of_insert.
    + eapply long_wf; [done..| |done]. by rewrite lookup_insert_eq.
    + eapply body_wf_mono; [by apply (ic_body _ _ Hinv)|]. intros l' c' Ho Hl'.
      exists c'. rewrite lookup_insert_ne by congruence. done.
  - intros l' c'. rewrite Hcount, lookup_insert. case_decide as E; subst.
    + rewrite bool_decide_eq_true_2 by done. simpl. lia.
    + intros Hl'. pose proof (ic_owned _ _ Hinv _ _ Hl'). destruct (bool_decide _); simpl; lia.
  - intros l' c' x. rewrite Hcount, lookup_insert. case_decide as E; subst.
    + rewrite bool_decide_eq_true_2, H0 by done. intros _ [->|Hin]%elem_of_insert Ho.
      * by rewrite Hsh.
      * by rewrite (Hfresh _ Hin) in Ho.
    + rewrite (bool_decide_eq_false_2 (l' = l)), Z.add_0_r by done.
      intros Hl' [->|Hin]%elem_of_insert Ho.
      * apply owns_body in Ho as [_ Ho]. congruence.
      * by eapply (ic_count _ _ Hinv).
  - intros l' c'. rewrite lookup_insert.
    case_decide; [by intros [= <-]|apply (ic_size _ _ Hinv)].
Qed.
End contents.

(** ** Deallocation functions *)

(** The calls a content still has to make, and those of all contents. *)
Definition token (c : content) : list (list Z * Z) :=
  if c_ffn c then [(c_data c, c_hint c)] else [].
Definition tokens (cs : gmap nat content) : list (list Z * Z) :=
  map_to_list cs ≫= λ p, token p.2.

(** What the heap has called and will call. *)
Definition ledger (h : heap) : list (list Z * Z) := tokens (conts h) ++ freed h.

Lemma tokens_insert cs l c : cs !! l = None → tokens (<[l:=c]> cs) ≡ₚ token c ++ tokens cs.
Proof. intros Hl. unfold tokens. by rewrite (map_to_list_insert cs l c Hl). Qed.

Lemma tokens_delete cs l c : cs !! l = Some c → tokens cs ≡ₚ token c ++ tokens (delete l cs).
Proof.
  intros Hl. rewrite <- tokens_insert by apply lookup_delete_eq.
  by rewrite insert_delete_id.
Qed.

Lemma tokens_update cs l c k :
  cs !! l = Some c → tokens (<[l:=set_refcnt k c]> cs) ≡ₚ tokens cs.
Proof.
  intros Hl. rewrite <- insert_delete_eq, tokens_insert by apply lookup_delete_eq.
  by rewrite (tokens_delete cs l c Hl).
Qed.

Lemma ledger_destroy l c h :
  conts h !! l = Some c → ledger (destroy_content l c h) ≡ₚ ledger h.
Proof.
  intros Hl. unfold ledger, destroy_content; cbn [conts freed].
  rewrite (tokens_delete (conts h) l c Hl). unfold token. destruct (c_ffn c); [|done].
  simpl. by rewrite Permutation_middle.
Qed.

Lemma ledger_update l c k h :
  conts h !! l = Some c → ledger (set_conts (insert l (set_refcnt k c)) h) ≡ₚ ledger h.
Proof. intros Hl. unfold ledger, set_conts; cbn [conts freed]. by rewrite tokens_update. Qed.

Lemma destroy_after_update l c c' h :
  destroy_content l c (set_conts (insert l c') h) = destroy_content l c h.
Proof. unfold destroy_content, set_conts; cbn [conts metas freed]. by rewrite delete_insert_eq. Qed.

(** ** Releasing a reference *)

Lemma in_slot_owned sl d m l :
  sl !! d = Some m → owns l m = true → 1 ≤ count (owns l) sl.
Proof. apply count_ge_1. Qed.

(** The counter after [n] references on a shared content are given back. *)
Lemma inv_contents_sub sl cs l c n sl' m :
  inv_contents sl cs → cs !! l = Some c → m ∈ sl → owns l m = true →
  is_shared m = true → Z.of_nat (length sl) < 4294967296 → 1 ≤ n ≤ count (owns l) sl →
  (∀ x, x ∈ sl' → x ∈ sl ∨ body_wf cs x ∧ long x = false) →
  (∀ l', count (owns l') sl' = count (owns l') sl - (if decide (l' = l) then n else 0)) →
  let v := u32 (c_refcnt c - n) in
  v = count (owns l) sl - n ∧
  inv_contents sl' (if v =? 0 then delete l cs else <[l := set_refcnt v c]> cs).
Proof.
  intros Hinv Hl Hm Ho Hsh Hlen Hn Hx Hcount v.
  pose proof (ic_count _ _ Hinv _ _ _ Hl Hm Ho) as Hc. rewrite Hsh in Hc.
  pose proof (count_le_length (owns l) sl) as Hle.
  assert (v = count (owns l) sl - n) as Hv by (subst v; rewrite u32_small; lia).
  split; [done|].
  assert (∀ l', l' ≠ l → count (owns l') sl' = count (owns l') sl) as Hne.
  { intros l' Hll. rewrite Hcount, decide_False by done. lia. }
  pose proof (Hcount l) as Hcl. rewrite decide_True in Hcl by done.
  destruct (Z.eqb_spec v 0).
  - apply (inv_contents_delete _ _ Hinv); [done..|lia].
  - apply (inv_contents_recount _ _ Hinv); [done| |done|lia|lia|].
    + intros x [?|[? Hnl]]%Hx; [by left|right]. split; [done|]. intros l' Ho'.
      by rewrite not_long_owns in Ho'.
    + intros x Hin Hox. destruct (Hx _ Hin) as [Hin'|[_ Hnl]].
      2:{ by rewrite not_long_owns in Hox. }
      pose proof (ic_count _ _ Hinv _ _ _ Hl Hin' Hox) as Hxc.
      destruct (is_shared x) eqn:Hxs; [done|]. exfalso.
      pose proof (count_elem _ _ _ Hin Hox). lia.
Qed.

Section release.
Context (sl : list msg) (h : heap).
Hypothesis Hinv : inv_contents sl (conts h).
Hypothesis Hlen : Z.of_nat (length sl) < 4294967296.

Lemma count_replace d m m' l :
  sl !! d = Some m → long m' = false →
  count (owns l) (<[d:=m']> sl) = count (owns l) sl - b2z (owns l m).
Proof.
  intros Hd Hm'. rewrite (count_insert _ _ _ m) by done.
  rewrite (not_long_owns l m') by done. simpl. lia.
Qed.

Lemma release_content_spec d m m' :
  sl !! d = Some m → long m = true → long m' = false → body_wf (conts h) m' →
  ∃ h', release_content m h = Some h' ∧ inv_contents (<[d:=m']> sl) (conts h') ∧
        metas h' = metas h ∧ ledger h' ≡ₚ ledger h.
Proof.
  intros Hd Hm Hm' Hwf. pose proof (list_elem_of_lookup_2 _ _ _ Hd) as Hin.
  destruct (msg_content_wf _ h m eq_refl (ic_body _ _ Hinv _ Hin) Hm)
    as (l & c & Hmc & Hb & Hl & Ho & _).
  assert (∀ x, x ∈ <[d:=m']> sl → x ∈ sl ∨ body_wf (conts h) x ∧ long x = false) as Hx.
  { intros x [->|?]%elem_of_insert; auto. }
  assert (∀ l', count (owns l') (<[d:=m']> sl) =
                count (owns l') sl - (if decide (l' = l) then 1 else 0)) as Hcount.
  { intros l'. rewrite (count_replace d m) by done. destruct (decide (l' = l)) as [->|Hne].
    - by rewrite Ho.
    - by rewrite (owns_other l l'). }
  pose proof (count_elem _ _ _ Hin Ho).
  unfold release_content. rewrite Hmc. cbn [mbind option_bind].
  destruct (is_shared m) eqn:Hsh; cbn [negb].
  - destruct (inv_contents_sub _ _ _ _ 1 _ _ Hinv Hl Hin Ho Hsh Hlen ltac:(lia) Hx Hcount)
      as [Hv Hi]. unfold refcnt_sub. destruct (u32 (c_refcnt c - 1) =? 0); cbn [negb].
    + eexists. split; [done|]. split_and!; [|done|].
      * by rewrite destroy_after_update.
      * rewrite destroy_after_update. by apply ledger_destroy.
    + eexists. split; [done|]. split_and!; [done|done|by apply ledger_update].
  - pose proof (ic_count _ _ Hinv _ _ _ Hl Hin Ho) as Hc. rewrite Hsh in Hc.
    eexists. split; [done|]. split_and!; [|done|by apply ledger_destroy].
    apply (inv_contents_delete _ _ Hinv); [done|..].
    + intros l' Hne. rewrite Hcount, decide_False by done. lia.
    + rewrite Hcount, decide_True by done. lia.
Qed.
End release.

(** ** Metadata *)

Section metas.
Context (sl : list msg) (ext : gset nat) (h : heap).
Hypothesis Hinv : inv_metas sl (metas h) ext.
Hypothesis Hlen : Z.of_nat (length sl) < 2147483648.

Lemma meta_refs_bound l n : metas h !! l = Some n → 1 ≤ n < 4294967295 ∧ n = meta_refs sl ext l.
Proof.
  intros [Hn ?]%(im_count _ _ _ Hinv). pose proof (count_le_length (holds l) sl).
  unfold meta_refs in *. destruct (bool_decide _); simpl in *; lia.
Qed.

Lemma inv_metas_same sl' :
  (∀ x, x ∈ sl' → x ∈ sl ∨ ∀ l, m_metadata x = Some l → ∃ y, y ∈ sl ∧ m_metadata y = Some l) →
  (∀ l, count (holds l) sl' = count (holds l) sl) →
  inv_metas sl' (metas h) ext.
Proof.
  intros Hx Hcount. constructor.
  - intros x l Hin Hl. destruct (Hx _ Hin) as [?|Hy]; [by eapply im_live|].
    destruct (Hy _ Hl) as (y & ? & ?). by eapply im_live.
  - intros l n. unfold meta_refs. rewrite Hcount. apply (im_count _ _ _ Hinv).
Qed.

Lemma meta_drop_spec l sl' ext' :
  is_Some (metas h !! l) →
  (∀ x, x ∈ sl' → x ∈ sl ∨ m_metadata x = None) →
  (∀ l', meta_refs sl' ext' l' = meta_refs sl ext l' - (if decide (l' = l) then 1 else 0)) →
  ∃ h', meta_drop_ref l h = Some h' ∧ conts h' = conts h ∧ freed h' = freed h ∧
        inv_metas sl' (metas h') ext'.
Proof.
  intros [n Hn] Hx Hrefs. destruct (meta_refs_bound _ _ Hn) as [Hb Heq].
  unfold meta_drop_ref. rewrite Hn. cbn [mbind option_bind].
  rewrite u32_small by lia. eexists. split_and!; [done..|]. cbn [metas].
  assert (∀ l', (if n - 1 =? 0 then delete l (metas h) else <[l:=n - 1]> (metas h)) !! l' =
    if decide (l' = l) then (if n - 1 =? 0 then None else Some (n - 1)) else metas h !! l') as Hlk.
  { intros l'. destruct (decide (l' = l)) as [->|]; destruct (n - 1 =? 0).
    - apply lookup_delete_eq.
    - apply lookup_insert_eq.
    - by apply lookup_delete_ne.
    - by apply lookup_insert_ne. }
  constructor.
  - intros x l' Hin Hl'. rewrite Hlk.
    pose proof (count_elem (holds l') _ _ Hin ltac:(by apply bool_decide_eq_true)).
    destruct (Hx _ Hin) as [Hin'|]; [|congruence].
    destruct (decide (l' = l)) as [->|]; [|by eapply im_live].
    specialize (Hrefs l). rewrite decide_True in Hrefs by done. unfold meta_refs in Hrefs at 1.
    destruct (Z.eqb_spec (n - 1) 0); [|by eexists].
    destruct (bool_decide (l ∈ ext')); simpl in *; lia.
  - intros l' n'. rewrite Hlk, Hrefs. destruct (decide (l' = l)) as [->|].
    + destruct (Z.eqb_spec (n - 1) 0); [done|]. intros [= <-]. lia.
    + rewrite Z.sub_0_r. apply (im_count _ _ _ Hinv).
Qed.

Lemma meta_add_spec l sl' :
  is_Some (metas h !! l) →
  (∀ x, x ∈ sl' → x ∈ sl ∨ m_metadata x = None ∨ m_metadata x = Some l) →
  (∀ l', meta_refs sl' ext l' = meta_refs sl ext l' + (if decide (l' = l) then 1 else 0)) →
  ∃ h', meta_add_ref l h = Some h' ∧ conts h' = conts h ∧ freed h' = freed h ∧
        inv_metas sl' (metas h') ext.
Proof.
  intros [n Hn] Hx Hrefs. destruct (meta_refs_bound _ _ Hn) as [Hb Heq].
  unfold meta_add_ref. rewrite Hn. cbn [mbind option_bind].
  rewrite u32_small by lia. eexists. split_and!; [done..|]. cbn [metas].
  constructor.
  - intros x l' Hin Hl'. rewrite lookup_insert. case_decide; [by eexists|].
    destruct (Hx _ Hin) as [?|[?|?]]; [by eapply im_live|congruence..].
  - intros l' n'. rewrite lookup_insert, Hrefs. destruct (decide (l = l')) as [<-|].
    + intros [= <-]. rewrite decide_True by done. lia.
    + rewrite decide_False by congruence. rewrite Z.add_0_r. apply (im_count _ _ _ Hinv).
Qed.
End metas.

(** ** The operations *)

(** The invariant of a set of messages: [ext] are the metadata objects whose
    creator still holds a reference, [given] the deallocation calls owed since
    the beginning. *)
Record msg_inv (sl : list msg) (h : heap) (ext : gset nat) (given : list (list Z * Z)) : Prop := {
  mi_contents : inv_contents sl (conts h);
  mi_metas : inv_metas sl (metas h) ext;
  mi_ledger : ledger h ≡ₚ given;
  mi_length : Z.of_nat (length sl) < 2147483648;
}.

Definition closed (m : msg) : msg := set_type 0 (with_metadata None m).

Lemma body_wf_vsm cs f md bytes n g r :
  n = Z.of_nat (length bytes) → body_wf cs (Msg type_vsm f md (BVsm bytes n) g r).
Proof. intros ->. split_and!; try done. intros _. by exists bytes. Qed.

Lemma body_wf_cmsg cs f md bytes n g r :
  n = Z.of_nat (length bytes) → body_wf cs (Msg type_cmsg f md (BCmsg bytes n) g r).
Proof. intros ->. split_and!; try done. intros _. by exists bytes. Qed.

Lemma closed_plain m :
  long (closed m) = false ∧ m_metadata (closed m) = None ∧ check (closed m) = false ∧
  ∀ cs, body_wf cs (closed m).
Proof. by split_and!. Qed.

Lemma msg_init_plain :
  long msg_init = false ∧ m_metadata msg_init = None ∧ check msg_init = true ∧
  ∀ cs, body_wf cs msg_init.
Proof. split_and!; try done. intros cs. split_and!; try done. intros _. by exists []. Qed.

(** Replacing a message without content by another. *)
Lemma inv_contents_plain sl cs d m m' :
  inv_contents sl cs → sl !! d = Some m → long m = false → long m' = false →
  body_wf cs m' → inv_contents (<[d:=m']> sl) cs.
Proof.
  intros Hinv Hd Hm Hm' Hwf. apply (inv_contents_same _ _ Hinv).
  - intros x [->|?]%elem_of_insert; [right|by left]. split; [done|]. intros l Ho.
    by rewrite not_long_owns in Ho.
  - intros l. rewrite (count_insert _ _ _ m), !not_long_owns by done. simpl. lia.
Qed.

Lemma inv_metas_plain sl h ext d m m' :
  inv_metas sl (metas h) ext → sl !! d = Some m → m_metadata m' = m_metadata m →
  inv_metas (<[d:=m']> sl) (metas h) ext.
Proof.
  intros Hinv Hd Hm. apply (inv_metas_same sl); [done|..].
  - intros x [->|?]%elem_of_insert; [right|by left]. intros l Hl. exists m. split; [|congruence].
    by eapply list_elem_of_lookup_2.
  - intros l. rewrite (count_insert _ _ _ m) by done.
    assert (holds l m' = holds l m) as -> by (unfold holds; by rewrite Hm). lia.
Qed.

Lemma reset_metadata_spec sl h ext d m m' :
  inv_metas sl (metas h) ext → Z.of_nat (length sl) < 2147483648 →
  sl !! d = Some m → m_metadata m' = None →
  ∃ h', reset_metadata m h = Some (with_metadata None m, h') ∧
        conts h' = conts h ∧ freed h' = freed h ∧ inv_metas (<[d:=m']> sl) (metas h') ext.
Proof.
  intros Hinv Hlen Hd Hm'. unfold reset_metadata.
  destruct (m_metadata m) as [l|] eqn:Hm.
  - pose proof (list_elem_of_lookup_2 _ _ _ Hd) as Hin.
    destruct (meta_drop_spec sl ext h Hinv Hlen l (<[d:=m']> sl) ext) as (h' & -> & ? & ? & ?).
    + by eapply im_live.
    + intros x [->|?]%elem_of_insert; auto.
    + intros l'. unfold meta_refs. rewrite (count_insert _ _ _ m) by done.
      rewrite (holds_none l' m') by done. unfold holds at 2. rewrite Hm.
      destruct (decide (l' = l)) as [->|].
      * rewrite (bool_decide_eq_true_2 (Some l = Some l)) by done. simpl. lia.
      * rewrite (bool_decide_eq_false_2 (Some l = Some l')) by congruence. simpl. lia.
    + cbn [mbind option_bind]. by exists h'.
  - exists h. split_and!; [|done..|].
    + do 2 f_equal. destruct m; simpl in *; by subst.
    + eapply inv_metas_plain; [done..|congruence].
Qed.

Lemma close_spec sl h ext given d m :
  msg_inv sl h ext given → sl !! d = Some m → check m = true →
  ∃ h', close m h = Some (RcOk, closed m, h') ∧ msg_inv (<[d:=closed m]> sl) h' ext given.
Proof.
  intros [Hc Hm Hl Hlen] Hd Hck. destruct (closed_plain m) as (Hn & Hmd & _ & Hwf).
  assert (∃ h', (h1 ← (if is_lmsg m then release_content m h else Some h);
    if is_zcmsg m then c ← msg_content m h1; _ ← zmq_assert (c_ffn c.2); release_content m h1
    else Some h1) = Some h' ∧ inv_contents (<[d:=closed m]> sl) (conts h') ∧
    metas h' = metas h ∧ ledger h' ≡ₚ ledger h) as (h1 & Hrel & Hc1 & Hm1 & Hl1).
  { destruct (long m) eqn:Hlong.
    - destruct (release_content_spec sl h Hc ltac:(lia) d m (closed m) Hd Hlong Hn (Hwf _))
        as (h1 & Hr & ?). exists h1. split; [|done].
      pose proof (list_elem_of_lookup_2 _ _ _ Hd) as Hin.
      destruct (msg_content_wf _ h m eq_refl (ic_body _ _ Hc _ Hin) Hlong)
        as (l & c & Hmc & _ & _ & _ & Hf).
      unfold long, is_lmsg, is_zcmsg in *. revert Hlong Hf.
      destruct (Z.eqb_spec (m_type m) type_lmsg) as [E|E]; intros Hlong Hf.
      + rewrite Hr, E. done.
      + cbn [mbind option_bind]. simpl in Hlong. rewrite Hlong, Hmc in *.
        cbn [mbind option_bind snd]. rewrite (Hf eq_refl). done.
    - exists h. pose proof Hlong as Hty. unfold long in Hty.
      apply orb_false_iff in Hty as [-> ->].
      split; [done|]. split; [|done]. by eapply inv_contents_plain. }
  rewrite <- Hm1 in Hm.
  destruct (reset_metadata_spec sl h1 ext d m (closed m) Hm Hlen Hd Hmd)
    as (h2 & Hreset & Hc2 & Hf2 & Hm2).
  exists h2. split.
  - unfold close. rewrite Hck. cbn [negb].
    destruct (if is_lmsg m then release_content m h else Some h) as [h0|]; [|done].
    cbn [mbind option_bind] in Hrel |- *. rewrite Hrel. cbn [mbind option_bind].
    by rewrite Hreset.
  - constructor; [by rewrite Hc2|done| |by rewrite length_insert].
    rewrite <- Hl, <- Hl1. unfold ledger. by rewrite Hc2, Hf2.
Qed.

Lemma msg_inv_same sl h ext given sl' :
  msg_inv sl h ext given →
  (∀ x, x ∈ sl' → x ∈ sl ∨ body_wf (conts h) x ∧ long x = false ∧ m_metadata x = None) →
  (∀ l, count (owns l) sl' = count (owns l) sl) →
  (∀ l, count (holds l) sl' = count (holds l) sl) →
  (length sl' ≤ length sl)%nat →
  msg_inv sl' h ext given.
Proof.
  intros [Hc Hm Hl Hlen] Hx Ho Hh Heq. constructor; [| |done|lia].
  - apply (inv_contents_same _ _ Hc); [|done].
    intros x [?|(Hw & Hn & _)]%Hx; [by left|right]. split; [done|]. intros l Hol.
    by rewrite not_long_owns in Hol.
  - apply (inv_metas_same _ _ _ Hm); [|done].
    intros x [?|(_ & _ & Hn)]%Hx; [by left|right]. intros l. by rewrite Hn.
Qed.

Lemma close_at_spec d st ext given m :
  msg_inv (slots st) (hp st) ext given → slots st !! d = Some m → check m = true →
  ∃ st', close_at d st = Some (RcOk, st') ∧ slots st' = <[d:=closed m]> (slots st) ∧
         msg_inv (slots st') (hp st') ext given.
Proof.
  intros Hinv Hd Hck. destruct (close_spec _ _ _ _ _ _ Hinv Hd Hck) as (h' & Hcl & Hinv').
  unfold close_at. rewrite Hd. cbn [mbind option_bind]. rewrite Hcl. cbn [mbind option_bind].
  by eexists.
Qed.

(** [move] hands over the reference of the source, or releases the message when
    it is moved onto itself. *)
Lemma move_spec d s st ext given md ms :
  msg_inv (slots st) (hp st) ext given →
  slots st !! d = Some md → slots st !! s = Some ms → check md = true → check ms = true →
  ∃ st', move d s st = Some (RcOk, st') ∧ msg_inv (slots st') (hp st') ext given ∧
    slots st' = <[s:=msg_init]> (if decide (d = s) then slots st else <[d:=ms]> (slots st)).
Proof.
  intros Hinv Hd Hs Hckd Hcks.
  destruct (close_at_spec d st ext given md Hinv Hd Hckd) as (st1 & Hcl & Hsl & Hinv1).
  destruct msg_init_plain as (Hi1 & Hi2 & _ & Hi3).
  destruct (closed_plain md) as (Hn & Hmd & _ & _).
  pose proof (lookup_lt_Some _ _ _ Hd) as Hlt.
  assert (∃ src, slots st1 !! s = Some src ∧ (d ≠ s → src = ms)) as (src & Hsrc & Hms).
  { rewrite Hsl. destruct (decide (d = s)) as [->|Hne].
    - rewrite list_lookup_insert_eq by done. by eexists.
    - rewrite list_lookup_insert_ne by done. by exists ms. }
  assert (slots st1 !! d = Some (closed md)) as Hd1 by (rewrite Hsl; by apply list_lookup_insert_eq).
  unfold move. rewrite Hs. cbn [mbind option_bind]. rewrite Hcks. cbn [negb].
  rewrite Hcl. cbn [mbind option_bind]. rewrite Hsrc. cbn [mbind option_bind]. eexists.
  split; [done|]. cbn [slots hp].
  assert (∀ P, P (closed md) = false → P msg_init = false →
    count P (<[s:=msg_init]> (<[d:=src]> (slots st1))) = count P (slots st1)) as Hcount.
  { intros P H1 H2. rewrite (count_insert P _ _ src), (count_insert P _ _ (closed md)), H1, H2.
    - simpl. lia.
    - done.
    - destruct (decide (d = s)) as [<-|].
      + apply list_lookup_insert_eq. by eapply lookup_lt_Some.
      + by rewrite list_lookup_insert_ne. }
  split.
  - apply (msg_inv_same _ _ _ _ _ Hinv1); [| | |by rewrite !length_insert].
    + intros x [->|[->|?]%elem_of_insert]%elem_of_insert; [by auto|left|by left].
      by eapply list_elem_of_lookup_2.
    + intros l. apply Hcount; by apply not_long_owns.
    + intros l. apply Hcount; by apply holds_none.
  - rewrite Hsl. destruct (decide (d = s)) as [->|Hne].
    + by rewrite !list_insert_insert_eq.
    + by rewrite list_insert_insert_eq, Hms.
Qed.

Lemma is_shared_set m : is_shared (set_flags shared m) = true.
Proof.
  unfold is_shared, set_flags; cbn [m_flags]. rewrite Z.land_lor_distr_l.
  apply negb_true_iff, Z.eqb_neq. intros [_ H]%Z.lor_eq_0_iff. done.
Qed.

(** What a long message becomes when references to it are added. *)
Definition as_shared (m : msg) : msg :=
  if long m then if is_shared m then m else set_flags shared m else m.

Lemma as_shared_facts m :
  (∀ l, owns l (as_shared m) = owns l m) ∧ long (as_shared m) = long m ∧
  m_metadata (as_shared m) = m_metadata m ∧ (∀ cs, body_wf cs m → body_wf cs (as_shared m)) ∧
  check (as_shared m) = check m ∧ (long m = true → is_shared (as_shared m) = true).
Proof.
  unfold as_shared. destruct (long m) eqn:El; [destruct (is_shared m) eqn:E|]; split_and!;
    auto using is_shared_set; congruence.
Qed.

Lemma elem_of_insert_other {A} (sl : list A) i x y z : x ∈ <[i:=y]> sl → x = y ∨ x ∈ <[i:=z]> sl.
Proof.
  intros [j Hj]%list_elem_of_lookup. apply list_lookup_insert_Some in Hj as [(-> & -> & _)|[Hij Hj]].
  - by left.
  - right. apply list_elem_of_lookup. exists j. by rewrite list_lookup_insert_ne.
Qed.

(** [n] references are added to the content of slot [s], whose message now
    stands [n] more times among the messages. *)
Lemma share_contents sl h s m n sl' :
  inv_contents sl (conts h) → sl !! s = Some m → long m = true → 1 ≤ n →
  (∀ x, x ∈ sl' → x = as_shared m ∨ x ∈ <[s:=msg_init]> sl) →
  (∀ l, count (owns l) sl' = count (owns l) sl + n * b2z (owns l m)) →
  ∃ l c, msg_content m h = Some (l, c) ∧ conts h !! l = Some c ∧
    (is_shared m = true → c_refcnt c = count (owns l) sl) ∧
    inv_contents sl' (<[l := set_refcnt (if is_shared m then c_refcnt c + n else n + 1) c]> (conts h)).
Proof.
  intros Hinv Hs Hm Hn Hx Hcount. pose proof (list_elem_of_lookup_2 _ _ _ Hs) as Hin.
  pose proof (ic_body _ _ Hinv _ Hin) as Hwf.
  destruct (msg_content_wf _ h m eq_refl Hwf Hm) as (l & c & Hmc & Hb & Hl & Ho & _).
  pose proof (ic_count _ _ Hinv _ _ _ Hl Hin Ho) as Hc.
  destruct (as_shared_facts m) as (Ho' & Hlong' & _ & Hwf' & _ & Hsh').
  exists l, c. split; [done|]. split; [done|].
  assert ((if is_shared m then c_refcnt c + n else n + 1) = count (owns l) sl + n) as ->.
  { destruct (is_shared m); lia. }
  split; [by intros Hsh; rewrite Hsh in Hc|].
  assert (∀ x, x ∈ <[s:=msg_init]> sl → x = msg_init ∨ x ∈ sl) as Hsub.
  { intros x. apply elem_of_insert. }
  apply (inv_contents_recount _ _ Hinv _ _ _ _ Hl).
  - intros x Hin'. destruct (Hx _ Hin') as [->|[->|?]%Hsub]; [right|right|by left].
    + split; [by apply Hwf'|]. intros l'. rewrite Ho'. intros Hol.
      destruct (decide (l' = l)) as [|Hne]; [done|]. by rewrite (owns_other l l' m) in Hol.
    + split; [apply msg_init_plain|done].
  - intros l' Hne. rewrite Hcount, (owns_other l l' m) by done. simpl. lia.
  - rewrite Hcount, Ho. simpl. lia.
  - pose proof (count_nonneg (owns l) sl). lia.
  - intros x Hin' Hox. destruct (Hx _ Hin') as [->|Hini]; [by apply Hsh'|].
    destruct (Hsub _ Hini) as [->|Hxs]; [done|].
    pose proof (ic_count _ _ Hinv _ _ _ Hl Hxs Hox) as Hxc.
    destruct (is_shared x); [done|]. exfalso.
    pose proof (count_elem (owns l) _ _ Hini Hox) as H1.
    rewrite (count_insert _ _ _ m), Ho in H1 by done. simpl in H1. lia.
Qed.

(** The sharing step of [copy]. *)
Definition share (m : msg) (h : heap) : option (msg * heap) :=
  if long m then
    c ← refcnt m h;
    let '(l, c) := c in
    if is_shared m then Some (m, refcnt_add l c 1 h)
    else Some (set_flags shared m, set_conts (insert l (set_refcnt 2 c)) h)
  else Some (m, h).

Section copy.
Context (sl : list msg) (h : heap) (d s : nat) (md m : msg).
Hypothesis Hc : inv_contents sl (conts h).
Hypothesis Hlen : Z.of_nat (length sl) < 2147483648.
Hypothesis Hd : sl !! d = Some md.
Hypothesis Hs : sl !! s = Some m.
Hypothesis Hne : d ≠ s.
Hypothesis Hplain : long md = false.
Hypothesis Hnometa : m_metadata md = None.

Let sl' := <[d:=as_shared m]> (<[s:=as_shared m]> sl).

Lemma copy_count P : P md = false → P (as_shared m) = P m → count P sl' = count P sl + b2z (P m).
Proof.
  intros H1 H2. unfold sl'. rewrite (count_insert P _ _ md).
  - rewrite (count_insert P _ _ m), H1, H2 by done. simpl. lia.
  - by rewrite list_lookup_insert_ne.
Qed.

Lemma copy_elem x : x ∈ sl' → x = as_shared m ∨ x ∈ <[s:=msg_init]> sl.
Proof. intros [->|H]%elem_of_insert; [by left|]. by eapply elem_of_insert_other. Qed.

Lemma share_spec :
  ∃ h', share m h = Some (as_shared m, h') ∧ inv_contents sl' (conts h') ∧
        metas h' = metas h ∧ ledger h' ≡ₚ ledger h.
Proof.
  destruct (as_shared_facts m) as (Ho & Hlong & _ & Hwf & _ & _).
  unfold share. destruct (long m) eqn:Hm.
  - destruct (share_contents sl h s m 1 sl' Hc Hs Hm ltac:(lia) copy_elem)
      as (l & c & Hmc & Hl & Hsh & Hinv).
    { intros l. rewrite copy_count by (rewrite ?Ho; auto using not_long_owns). lia. }
    unfold refcnt. unfold long in Hm. rewrite Hm, Hmc. cbn [mbind option_bind].
    unfold as_shared, long. rewrite Hm. destruct (is_shared m).
    + pose proof (count_le_length (owns l) sl). pose proof (count_nonneg (owns l) sl).
      unfold refcnt_add. rewrite u32_small by (rewrite Hsh by done; lia).
      eexists. split; [done|]. split_and!; [done|done|by apply ledger_update].
    + eexists. split; [done|]. split_and!; [done|done|by apply ledger_update].
  - exists h. unfold as_shared. rewrite Hm. split; [done|]. split; [|done].
    apply (inv_contents_same _ _ Hc).
    + intros x [->|Hx]%copy_elem.
      * left. unfold as_shared. rewrite Hm. by eapply list_elem_of_lookup_2.
      * apply elem_of_insert in Hx as [->|?]; [right|by left].
        split; [apply msg_init_plain|done].
    + intros l. rewrite copy_count by (rewrite ?Ho; auto using not_long_owns).
      rewrite not_long_owns by done. simpl. lia.
Qed.

Lemma copy_metas ext :
  inv_metas sl (metas h) ext →
  ∃ h', (match m_metadata m with Some l => meta_add_ref l h | None => Some h end) = Some h' ∧
    conts h' = conts h ∧ freed h' = freed h ∧ inv_metas sl' (metas h') ext.
Proof.
  intros Hm. destruct (as_shared_facts m) as (_ & _ & Hmd & _).
  assert (∀ l, holds l (as_shared m) = holds l m) as Hh by (intros; unfold holds; by rewrite Hmd).
  assert (∀ l, count (holds l) sl' = count (holds l) sl + b2z (holds l m)) as Hcount.
  { intros l. apply copy_count; auto using holds_none. }
  assert (∀ x, x ∈ sl' → x ∈ sl ∨ m_metadata x = None ∨ m_metadata x = m_metadata m) as Hx.
  { intros x [->|[->|?]%elem_of_insert]%copy_elem; auto. }
  destruct (m_metadata m) as [l|] eqn:E.
  - apply meta_add_spec with (sl := sl); [done|done| |done|].
    + apply (im_live _ _ _ Hm m l); [by eapply list_elem_of_lookup_2|done].
    + intros l'. unfold meta_refs. rewrite Hcount. unfold holds at 2. rewrite E.
      destruct (decide (l' = l)) as [->|].
      * rewrite (bool_decide_eq_true_2 (Some l = Some l)) by done. simpl. lia.
      * rewrite (bool_decide_eq_false_2 (Some l = Some l')) by congruence. simpl. lia.
  - exists h. split_and!; try done. apply (inv_metas_same sl _ _ Hm).
    + intros x [?|[Hn|Hn]]%Hx; [by left|right..]; by rewrite Hn.
    + intros l. rewrite Hcount, holds_none by done. simpl. lia.
Qed.
End copy.

(** [copy]: both messages refer to the content afterwards. *)
Lemma copy_spec d s st ext given md ms :
  msg_inv (slots st) (hp st) ext given →
  slots st !! d = Some md → slots st !! s = Some ms → check md = true → check ms = true →
  ∃ st', copy d s st = Some (RcOk, st') ∧ msg_inv (slots st') (hp st') ext given ∧
    slots st' = if decide (d = s) then <[d:=closed md]> (slots st)
                else <[d:=as_shared ms]> (<[s:=as_shared ms]> (slots st)).
Proof.
  intros Hinv Hd Hs Hckd Hcks.
  destruct (close_at_spec d st ext given md Hinv Hd Hckd) as (st1 & Hcl & Hsl & Hinv1).
  assert (slots st1 !! d = Some (closed md)) as Hd1.
  { rewrite Hsl. apply list_lookup_insert_eq. by eapply lookup_lt_Some. }
  unfold copy. rewrite Hs. cbn [mbind option_bind]. rewrite Hcks. cbn [negb].
  rewrite Hcl. cbn [mbind option_bind].
  destruct (decide (d = s)) as [<-|Hne].
  - rewrite Hd1. cbn [mbind option_bind]. eexists. split; [done|]. cbn [slots hp].
    by rewrite list_insert_insert_eq, list_insert_id.
  - assert (slots st1 !! s = Some ms) as Hs1 by (by rewrite Hsl, list_lookup_insert_ne).
    rewrite Hs1. cbn [mbind option_bind]. destruct Hinv1 as [Hc Hm Hl Hlen].
    destruct (share_spec _ _ d s _ _ Hc Hlen Hd1 Hs1 Hne eq_refl) as (h1 & Hsh & Hc1 & Hm1 & Hl1).
    change (is_lmsg ms || is_zcmsg ms) with (long ms).
    change (if long ms then _ else _) with (share ms (hp st1)). rewrite Hsh.
    cbn [mbind option_bind].
    destruct (as_shared_facts ms) as (_ & _ & -> & _). rewrite <- Hm1 in Hm.
    destruct (copy_metas _ h1 d s (closed md) ms Hlen Hd1 Hs1 Hne eq_refl ext Hm)
      as (h2 & -> & Hc2 & Hf2 & Hm2).
    cbn [mbind option_bind]. eexists. split; [done|]. cbn [slots hp]. split.
    + constructor; [by rewrite Hc2|done| |by rewrite !length_insert].
      rewrite <- Hl, <- Hl1. unfold ledger. by rewrite Hc2, Hf2.
    + by rewrite Hsl, (list_insert_insert_ne _ s d), list_insert_insert_eq.
Qed.

(** ** Adding and removing references in bulk *)

Lemma count_tail P (a : list msg) n m :
  count P (a ++ replicate n m) = count P a + Z.of_nat n * b2z (P m).
Proof. rewrite count_app, count_replicate. lia. Qed.

(** [add_refs]: [n] more messages may now be made by copying the bits of this
    one. *)
Lemma add_refs_spec sl h ext given d m n :
  msg_inv sl h ext given → sl !! d = Some m → m_metadata m = None →
  Z.of_nat (length sl + n) < 2147483648 →
  ∃ m' h', add_refs (Z.of_nat n) m h = Some (m', h') ∧
    m' = (if decide (n = 0%nat) then m else as_shared m) ∧
    msg_inv (<[d:=m']> sl ++ replicate n m') h' ext given.
Proof.
  intros Hinv Hd Hmd Hn. unfold add_refs. rewrite bool_decide_eq_true_2 by done. zdecide.
  destruct (decide (n = 0%nat)) as [->|Hn0].
  { exists m, h. split_and!; [done..|]. simpl. by rewrite app_nil_r, list_insert_id. }
  zdecide. destruct Hinv as [Hc Hm Hl Hlen].
  destruct (as_shared_facts m) as (Ho & Hlong & Hmd' & Hwf & _ & _).
  set (sl' := <[d:=as_shared m]> sl ++ replicate n (as_shared m)).
  assert (∀ x, x ∈ sl' → x = as_shared m ∨ x ∈ <[d:=msg_init]> sl) as Hx.
  { intros x [H|[-> _]%elem_of_replicate]%elem_of_app; [|by left].
    by eapply elem_of_insert_other. }
  assert (∀ P, P (as_shared m) = P m → count P sl' = count P sl + Z.of_nat n * b2z (P m)) as Hcount.
  { intros P HP. unfold sl'. rewrite count_tail, (count_insert P _ _ m), HP by done. lia. }
  assert (inv_metas sl' (metas h) ext) as Hm'.
  { apply (inv_metas_same _ _ _ Hm).
    - intros x [->|[->|?]%elem_of_insert]%Hx; [right|by right|by left].
      rewrite Hmd', Hmd. done.
    - intros l. rewrite Hcount; [rewrite holds_none by done; simpl; lia|].
      by rewrite !holds_none by congruence. }
  assert (Z.of_nat (length sl') < 2147483648).
  { unfold sl'. rewrite length_app, length_insert, length_replicate. lia. }
  change (is_lmsg m || is_zcmsg m) with (long m). destruct (long m) eqn:Hm1.
  - destruct (share_contents sl h d m (Z.of_nat n) sl' Hc Hd Hm1 ltac:(lia) Hx)
      as (l & c & Hmc & Hlk & Hsh & Hinv).
    { intros l. rewrite Hcount by done. lia. }
    unfold refcnt. unfold long in Hm1. rewrite Hm1, Hmc. cbn [mbind option_bind].
    unfold sl', as_shared, long in *. rewrite Hm1 in *. destruct (is_shared m).
    + pose proof (count_le_length (owns l) sl). pose proof (count_nonneg (owns l) sl).
      unfold refcnt_add. rewrite u32_small by (rewrite Hsh by done; lia).
      do 2 eexists. split_and!; [done..|]. constructor; try done.
      by rewrite ledger_update.
    + rewrite u32_small by lia. do 2 eexists. split_and!; [done..|].
      constructor; try done. by rewrite ledger_update.
  - assert (as_shared m = m) as E by (unfold as_shared; by rewrite Hm1).
    exists (as_shared m), h. split; [by rewrite E|]. split; [done|]. fold sl'.
    constructor; try done. apply (inv_contents_same _ _ Hc).
    + intros x [->|[->|?]%elem_of_insert]%Hx; [left|right|by left].
      * rewrite E. by eapply list_elem_of_lookup_2.
      * split; [apply msg_init_plain|done].
    + intros l. rewrite Hcount by done. rewrite not_long_owns by done. simpl. lia.
Qed.

(** [rm_refs]: [n] of the messages go away at once. *)
Lemma rm_refs_spec a h ext given m n :
  (1 ≤ n)%nat → msg_inv (a ++ replicate n m) h ext given → m_metadata m = None →
  (long m = true → is_shared m = true ∨ n = 1%nat) →
  ∃ alive m' h', rm_refs (Z.of_nat n) m h = Some (alive, m', h') ∧ msg_inv a h' ext given ∧
    ((∃ l, owns l m = true ∧ 1 ≤ count (owns l) a) ↔ alive = true).
Proof.
  intros Hn Hinv Hmd Hsh. unfold rm_refs. rewrite bool_decide_eq_true_2 by done. zdecide.
  assert (m ∈ a ++ replicate n m) as Hin.
  { apply elem_of_app. right. apply elem_of_replicate. split; [done|lia]. }
  change (is_lmsg m || is_zcmsg m) with (long m).
  destruct (long m) eqn:Hm; cbn [negb orb].
  - destruct (is_shared m) eqn:Hs; cbn [negb].
    + destruct Hinv as [Hc Hme Hl Hlen].
      destruct (msg_content_wf _ h m eq_refl (ic_body _ _ Hc _ Hin) Hm)
        as (l & c & Hmc & Hb & Hlk & Ho & _).
      assert (∀ l', count (owns l') a = count (owns l') (a ++ replicate n m) -
                (if decide (l' = l) then Z.of_nat n else 0)) as Hcount.
      { intros l'. rewrite count_tail. destruct (decide (l' = l)) as [->|Hne].
        - rewrite Ho. simpl. lia.
        - rewrite (owns_other l l' m) by done. simpl. lia. }
      pose proof (count_nonneg (owns l) a). pose proof (Hcount l) as Hcl.
      rewrite decide_True in Hcl by done.
      destruct (inv_contents_sub _ _ _ _ (Z.of_nat n) a _ Hc Hlk Hin Ho Hs
        ltac:(lia) ltac:(lia)) as [Hv Hi]; [|done|].
      { intros x Hx. left. apply elem_of_app. by left. }
      assert (∀ alive : bool, (alive = true ↔ 1 ≤ count (owns l) a) →
        ((∃ l, owns l m = true ∧ 1 ≤ count (owns l) a) ↔ alive = true)) as Hal.
      { intros alive ->. split; [|by eauto]. intros (l' & Ho' & ?).
        destruct (decide (l' = l)) as [->|]; [done|]. by rewrite (owns_other l l') in Ho'. }
      assert (inv_metas a (metas h) ext) as Hme'.
      { apply (inv_metas_same _ _ _ Hme).
        - intros x Hx. left. apply elem_of_app. by left.
        - intros l'. rewrite count_tail, holds_none by done. simpl. lia. }
      rewrite length_app in Hlen.
      rewrite Hmc. cbn [mbind option_bind]. unfold refcnt_sub.
      destruct (Z.eqb_spec (u32 (c_refcnt c - Z.of_nat n)) 0); cbn [negb].
      * do 3 eexists. split; [done|]. split; [|apply Hal; split; [done|lia]].
        rewrite destroy_after_update. constructor; [done|done| |lia].
        by rewrite ledger_destroy.
      * do 3 eexists. split; [done|]. split; [|apply Hal; split; [lia|done]].
        constructor; [done|done| |cbn; lia]. by rewrite ledger_update.
    + destruct (Hsh eq_refl) as [H|H]; [done|subst n]. simpl replicate in *.
      assert ((a ++ [m]) !! length a = Some m) as Hlk by (by apply list_lookup_middle).
      destruct (close_spec _ _ _ _ _ _ Hinv Hlk (proj2 (proj2 (long_types _ Hm))))
        as (h' & Hcl & Hinv'). rewrite Hcl. cbn [mbind option_bind].
      do 3 eexists. split; [done|]. split.
      * rewrite insert_app_r_alt, Nat.sub_diag in Hinv' by done. simpl in Hinv'.
        apply (msg_inv_same _ _ _ _ _ Hinv').
        -- intros x Hx. left. apply elem_of_app. by left.
        -- intros l. rewrite count_app. simpl. lia.
        -- intros l. rewrite count_app. simpl. lia.
        -- rewrite length_app. lia.
      * split; [|done]. intros (l & Ho & H1). destruct Hinv as [Hc _ _ _].
        destruct (owns_live _ _ Hc _ _ Hin Ho) as [c Hl].
        pose proof (ic_count _ _ Hc _ _ _ Hl Hin Ho) as Hc1. rewrite Hs in Hc1.
        rewrite count_app in Hc1. cbn [count] in Hc1. rewrite Ho in Hc1. simpl in Hc1. lia.
  - assert (∃ m', close m h = Some (if check m then RcOk else RcErr EFAULT, m', h)) as [m' Hcl].
    { unfold close. destruct (check m); cbn [negb]; [|by eexists].
      pose proof Hm as Hty. unfold long in Hty. apply orb_false_iff in Hty as [-> ->].
      cbn [mbind option_bind]. unfold reset_metadata. rewrite Hmd. by eexists. }
    rewrite Hcl. cbn [mbind option_bind]. do 3 eexists. split; [done|]. split.
    + apply (msg_inv_same _ _ _ _ _ Hinv).
      * intros x Hx. left. apply elem_of_app. by left.
      * intros l. rewrite count_tail, not_long_owns by done. simpl. lia.
      * intros l. rewrite count_tail, holds_none by done. simpl. lia.
      * rewrite length_app. lia.
    + split; [|done]. intros (l & Ho & _). by rewrite not_long_owns in Ho.
Qed.
