(* ===== verification/MsgSys.v ===== *)
(** * Programs over messages

    Sequences of the public operations of [msg_t] on a set of messages, under
    the discipline the library follows: a message is initialised only when it
    holds nothing, a failed initialisation is followed by [init ()] as in
    [v2_decoder_t::size_ready], the [shared] flag is left to [copy] and
    [add_refs], and [rm_refs] takes back references that [add_refs] made. *)

From S2P Require Import Prelude Msg MsgOwn.

Inductive op : Type :=
| OInit (d : nat)
| ODelimiter (d : nat)
| OInitSize (d : nat) (n : Z)
| OInitData (d : nat) (bytes : list Z) (ffn : bool) (hint : Z)
| OInitMsg (d : nat) (bytes : list Z) (ffn : bool) (hint : Z) (external : bool)
| OClose (d : nat)
| OMove (d s : nat)
| OCopy (d s : nat)
| OSetFlags (d : nat) (f : Z)
| ONewMeta (l : nat)
| OSetMeta (d : nat) (l : nat)
| OResetMeta (d : nat)
| ODropMeta (l : nat)
| OAddRefs (d n : nat)
| ORmRefs (k : nat).

(** The messages and their heap; the metadata objects whose creator still
    holds its reference; the deallocation calls the messages have been asked
    to make. *)
Record sys : Type := Sys {
  st : store;
  ext : gset nat;
  given : list (list Z * Z);
}.

(** The message [d] holds neither content nor metadata. *)
Definition empty_slot (d : nat) (s : sys) : bool :=
  match slots (st s) !! d with
  | Some m => negb (long m) && bool_decide (m_metadata m = None)
  | None => false
  end.

#[global] Instance body_eq_dec : EqDecision body.
Proof. solve_decision. Defined.
#[global] Instance msg_eq_dec : EqDecision msg.
Proof. solve_decision. Defined.

(** When an operation respects the discipline. *)
Definition legal (o : op) (s : sys) : bool :=
  match o with
  | OInit d | ODelimiter d => empty_slot d s
  | OInitSize d n => empty_slot d s && (0 <=? n)
  | OInitData d _ _ _ => empty_slot d s
  | OInitMsg d _ ffn _ external => empty_slot d s && (ffn || negb external)
  | OClose d | OResetMeta d => bool_decide (d < length (slots (st s)))%nat
  | OSetFlags d f =>
      bool_decide (d < length (slots (st s)))%nat && (Z.land f shared =? 0)
  | OMove d s' | OCopy d s' =>
      bool_decide (d < length (slots (st s)) ∧ s' < length (slots (st s)))%nat
  | ONewMeta l => bool_decide (metas (hp (st s)) !! l = None)
  | OSetMeta d l =>
      match slots (st s) !! d with
      | Some m => bool_decide (m_metadata m = None) &&
                  bool_decide (is_Some (metas (hp (st s)) !! l))
      | None => false
      end
  | ODropMeta l => bool_decide (l ∈ ext s) && bool_decide (is_Some (metas (hp (st s)) !! l))
  | OAddRefs d n =>
      match slots (st s) !! d with
      | Some m => bool_decide (m_metadata m = None) &&
                  (Z.of_nat (length (slots (st s)) + n) <? 2147483648)
      | None => false
      end
  | ORmRefs k =>
      match drop k (slots (st s)) with
      | m :: ms => bool_decide (Forall (eq m) ms) && bool_decide (m_metadata m = None) &&
                   (negb (long m) || is_shared m || bool_decide (ms = []))
      | [] => false
      end
  end.

Section run.
Context (uninit : Z → list Z) (malloc_ok : Z → bool).

(** The message left in slot [d] by an initialisation, or by the [init ()] that
    follows a failed one. *)
Definition settle (d : nat) (toks : list (list Z * Z)) (s : sys) (r : rc * msg * heap) : rc * sys :=
  let '(r, m, h) := r in
  match r with
  | RcOk => (r, Sys (Store (<[d:=m]> (slots (st s))) h) (ext s) (toks ++ given s))
  | RcErr _ => (r, Sys (Store (<[d:=msg_init]> (slots (st s))) h) (ext s) (given s))
  end.

(** Changing one message and the heap. *)
Definition on_msg (d : nat) (s : sys) (f : msg → heap → option (msg * heap)) : option (rc * sys) :=
  m ← slots (st s) !! d;
  '(m, h) ← f m (hp (st s));
  Some (RcOk, Sys (Store (<[d:=m]> (slots (st s))) h) (ext s) (given s)).

(** Which initialisations make the message own a deallocation call. *)
Definition owed (bytes : list Z) (ffn : bool) (hint : Z) : list (list Z * Z) :=
  if ffn then [(bytes, hint)] else [].

Definition step (o : op) (s : sys) : option (rc * sys) :=
  let h := hp (st s) in
  match o with
  | OInit d => Some (settle d [] s (RcOk, msg_init, h))
  | ODelimiter d => Some (settle d [] s (RcOk, init_delimiter, h))
  | OInitSize d n => Some (settle d [] s (init_size uninit malloc_ok n h))
  | OInitData d bytes ffn hint =>
      r ← init_data malloc_ok (Some bytes) (Z.of_nat (length bytes)) ffn hint h;
      Some (settle d (owed bytes ffn hint) s r)
  | OInitMsg d bytes ffn hint external =>
      r ← init uninit malloc_ok (Some bytes) (Z.of_nat (length bytes)) ffn hint external h;
      let copied := Z.of_nat (length bytes) <? max_vsm_size in
      Some (settle d (if copied then [] else owed bytes ffn hint) s r)
  | OClose d =>
      '(r, st') ← close_at d (st s);
      Some (r, Sys st' (ext s) (given s))
  | OMove d s' => '(r, st') ← move d s' (st s); Some (r, Sys st' (ext s) (given s))
  | OCopy d s' => '(r, st') ← copy d s' (st s); Some (r, Sys st' (ext s) (given s))
  | OSetFlags d f => on_msg d s (λ m h, Some (set_flags f m, h))
  | ONewMeta l =>
      Some (RcOk, Sys (Store (slots (st s)) (Heap (conts h) (<[l:=1]> (metas h)) (freed h)))
                      ({[l]} ∪ ext s) (given s))
  | OSetMeta d l => on_msg d s (λ m h, set_metadata l m h)
  | OResetMeta d => on_msg d s (λ m h, reset_metadata m h)
  | ODropMeta l =>
      h ← meta_drop_ref l h;
      Some (RcOk, Sys (Store (slots (st s)) h) (ext s ∖ {[l]}) (given s))
  | OAddRefs d n =>
      m ← slots (st s) !! d;
      '(m, h) ← add_refs (Z.of_nat n) m h;
      Some (RcOk, Sys (Store (<[d:=m]> (slots (st s)) ++ replicate n m) h) (ext s) (given s))
  | ORmRefs k =>
      m ← slots (st s) !! k;
      '(_, _, h) ← rm_refs (Z.of_nat (length (slots (st s)) - k)) m h;
      Some (RcOk, Sys (Store (take k (slots (st s))) h) (ext s) (given s))
  end.

(** Operations that break the discipline are not run. *)
Fixpoint run (os : list op) (s : sys) : option sys :=
  match os with
  | [] => Some s
  | o :: os =>
      if legal o s then '(_, s) ← step o s; run os s else run os s
  end.

(** [n] messages, none of them initialised yet. *)
Definition start (n : nat) : sys :=
  Sys (Store (replicate n (closed msg_init)) (Heap ∅ ∅ [])) ∅ [].

Definition sys_inv (s : sys) : Prop :=
  msg_inv (slots (st s)) (hp (st s)) (ext s) (given s).

Hypothesis Huninit : ∀ n, 0 ≤ n → length (uninit n) = Z.to_nat n.

Lemma start_inv n : Z.of_nat n < 2147483648 → sys_inv (start n).
Proof.
  intros Hn. destruct (closed_plain msg_init) as (Hl & Hmd & _ & Hwf).
  unfold sys_inv, start; cbn [st slots hp ext given]. constructor.
  - constructor; [|done..]. intros m [-> _]%elem_of_replicate. apply Hwf.
  - constructor; [|done]. intros m l [-> _]%elem_of_replicate. by rewrite Hmd.
  - done.
  - by rewrite length_replicate.
Qed.

Lemma empty_slot_true d s :
  empty_slot d s = true →
  ∃ m, slots (st s) !! d = Some m ∧ long m = false ∧ m_metadata m = None.
Proof.
  unfold empty_slot. destruct (slots (st s) !! d) as [m|]; [|done].
  rewrite andb_true_iff, negb_true_iff, bool_decide_eq_true. intros [? ?]. by exists m.
Qed.

Lemma settle_plain d s m h' r toks :
  sys_inv s → empty_slot d s = true → h' = hp (st s) →
  (r = RcOk → long m = false ∧ m_metadata m = None ∧ body_wf (conts h') m ∧ toks = []) →
  sys_inv (settle d toks s (r, m, h')).2.
Proof.
  intros Hinv He -> Hr. destruct (empty_slot_true _ _ He) as (m0 & Hd & Hm0 & Hmd0).
  assert (∃ m1 r1, long m1 = false ∧ m_metadata m1 = None ∧ body_wf (conts (hp (st s))) m1 ∧
    settle d toks s (r, m, hp (st s)) =
      (r1, Sys (Store (<[d:=m1]> (slots (st s))) (hp (st s))) (ext s) (given s)))
    as (m1 & r1 & Hl & Hmd & Hwf & ->).
  { destruct r as [|e]; simpl.
    - destruct (Hr eq_refl) as (? & ? & ? & ->). by exists m, RcOk.
    - destruct msg_init_plain as (? & ? & _ & ?). by exists msg_init, (RcErr e). }
  apply (msg_inv_same _ _ _ _ _ Hinv); cbn [st slots hp snd].
  - intros x [->|?]%elem_of_insert; auto.
  - intros l. rewrite (count_insert _ _ _ m0), !not_long_owns by done. lia.
  - intros l. rewrite (count_insert _ _ _ m0), !holds_none by done. lia.
  - by rewrite length_insert.
Qed.

Lemma settle_content d s c ty :
  sys_inv s → empty_slot d s = true → ty = type_lmsg ∨ ty = type_zclmsg ∧ c_ffn c = true →
  c_size c = Z.of_nat (length (c_data c)) →
  let l := (new_content c (hp (st s))).1 in
  sys_inv (settle d (token c) s
    (RcOk, Msg ty 0 None (BContent l) [] 0, (new_content c (hp (st s))).2)).2.
Proof.
  intros Hinv He Hty Hsz l. destruct (empty_slot_true _ _ He) as (m0 & Hd & Hm0 & Hmd0).
  destruct Hinv as [Hc Hm Hl Hlen].
  assert (conts (hp (st s)) !! l = None) as Hfresh.
  { apply not_elem_of_dom. unfold l, new_content; simpl. apply is_fresh. }
  constructor; cbn [settle snd st slots hp new_content fst set_conts conts metas freed ext given].
  - apply (inv_contents_new _ _ Hc d m0); try done.
    + destruct Hty as [->|[-> _]]; done.
    + destruct Hty as [->|[-> Hf]]; done.
  - eapply (inv_metas_plain _ _ _ d m0); [done|done|by rewrite Hmd0].
  - transitivity (tokens (<[l:=c]> (conts (hp (st s)))) ++ freed (hp (st s))); [done|].
    rewrite tokens_insert by done. rewrite <- Hl. unfold ledger. by rewrite app_assoc.
  - by rewrite length_insert.
Qed.

Lemma init_size_inv d n s :
  0 ≤ n → sys_inv s → empty_slot d s = true →
  sys_inv (settle d [] s (init_size uninit malloc_ok n (hp (st s)))).2.
Proof.
  intros Hn Hinv He. unfold init_size. destruct (n <=? max_vsm_size).
  - apply settle_plain; [done..|]. intros _. split_and!; try done.
    apply body_wf_vsm. rewrite Huninit by done. by rewrite Z2Nat.id.
  - destruct (_ && _); [|by apply settle_plain].
    apply (settle_content d s (Content (uninit n) n false 0 0)); [done|done|by left|].
    cbn [c_size c_data]. rewrite Huninit by done. by rewrite Z2Nat.id.
Qed.

Lemma init_data_inv d bytes ffn hint s :
  sys_inv s → empty_slot d s = true →
  ∃ r, init_data malloc_ok (Some bytes) (Z.of_nat (length bytes)) ffn hint (hp (st s)) = Some r ∧
       sys_inv (settle d (owed bytes ffn hint) s r).2.
Proof.
  intros Hinv He. unfold init_data. rewrite bool_decide_eq_true_2 by (by eexists). simpl.
  destruct ffn; simpl.
  - destruct (malloc_ok _); eexists; split; try done.
    + by apply (settle_content d s (Content bytes (Z.of_nat (length bytes)) true hint 0)); try left.
    + by apply settle_plain.
  - eexists. split; [done|]. apply settle_plain; [done..|]. intros _. split_and!; try done.
    by apply body_wf_cmsg.
Qed.

Lemma init_inv d bytes ffn hint external s :
  sys_inv s → empty_slot d s = true → ffn || negb external = true →
  ∃ r, init uninit malloc_ok (Some bytes) (Z.of_nat (length bytes)) ffn hint external (hp (st s))
         = Some r ∧
       sys_inv (settle d (if Z.of_nat (length bytes) <? max_vsm_size then []
                          else owed bytes ffn hint) s r).2.
Proof.
  intros Hinv He Hf. unfold init. destruct (Z.ltb_spec (Z.of_nat (length bytes)) max_vsm_size).
  - unfold init_size. zdecide. eexists. split; [done|].
    apply settle_plain; [done..|]. intros _. split_and!; try done.
    apply body_wf_vsm. cbn [default]. by rewrite Nat2Z.id, firstn_all.
  - destruct external; [|by apply init_data_inv]. simpl in Hf. rewrite orb_false_r in Hf.
    subst ffn. eexists. split; [done|].
    apply (settle_content d s (Content bytes (Z.of_nat (length bytes)) true hint 0)); try done.
    by right.
Qed.

Lemma on_msg_plain d s f m' :
  sys_inv s → (d < length (slots (st s)))%nat →
  (∀ m, slots (st s) !! d = Some m → f m (hp (st s)) = Some (m' m, hp (st s)) ∧
    m_type (m' m) = m_type m ∧ m_body (m' m) = m_body m ∧ is_shared (m' m) = is_shared m ∧
    m_metadata (m' m) = m_metadata m) →
  ∃ s', on_msg d s f = Some (RcOk, s') ∧ sys_inv s'.
Proof.
  intros [Hc Hm Hl Hlen] Hd Hf. apply lookup_lt_is_Some in Hd as [m Hd].
  destruct (Hf _ Hd) as (Hfm & Ht & Hb & Hs & Hmd).
  unfold on_msg. rewrite Hd. cbn [mbind option_bind]. rewrite Hfm. cbn [mbind option_bind].
  eexists. split; [done|]. pose proof (list_elem_of_lookup_2 _ _ _ Hd) as Hin.
  constructor; cbn [st slots hp ext given]; [|by eapply inv_metas_plain|done|by rewrite length_insert].
  apply (inv_contents_same _ _ Hc).
  - intros x [->|?]%elem_of_insert; [right|by left]. split.
    + eapply body_wf_ext; [done..|]. by apply (ic_body _ _ Hc).
    + intros l. rewrite (owns_ext l m) by done. by exists m.
  - intros l. rewrite (count_insert _ _ _ m), (owns_ext l m (m' m)) by done. lia.
Qed.

Lemma is_shared_set_other f m : Z.land f shared = 0 → is_shared (set_flags f m) = is_shared m.
Proof.
  intros Hf. unfold is_shared, set_flags; cbn [m_flags].
  by rewrite Z.land_lor_distr_l, Hf, Z.lor_0_r.
Qed.

Lemma set_metadata_inv d l s m :
  sys_inv s → slots (st s) !! d = Some m → m_metadata m = None → is_Some (metas (hp (st s)) !! l) →
  ∃ s', on_msg d s (λ m h, set_metadata l m h) = Some (RcOk, s') ∧ sys_inv s'.
Proof.
  intros [Hc Hm Hl Hlen] Hd Hmd Hlive. unfold on_msg. rewrite Hd. cbn [mbind option_bind].
  unfold set_metadata. rewrite bool_decide_eq_true_2 by done. cbn [zmq_assert mbind option_bind].
  destruct (meta_add_spec _ _ _ Hm Hlen l (<[d:=with_metadata (Some l) m]> (slots (st s))))
    as (h' & -> & Hc' & Hf' & Hm').
  - done.
  - intros x [->|?]%elem_of_insert; auto.
  - intros l'. unfold meta_refs. rewrite (count_insert _ _ _ m), (holds_none l' m) by done.
    unfold holds at 2. cbn [m_metadata with_metadata]. destruct (decide (l' = l)) as [->|].
    + rewrite (bool_decide_eq_true_2 (Some l = Some l)) by done. simpl. lia.
    + rewrite (bool_decide_eq_false_2 (Some l = Some l')) by congruence. simpl. lia.
  - cbn [mbind option_bind]. eexists. split; [done|].
    pose proof (list_elem_of_lookup_2 _ _ _ Hd) as Hin.
    constructor; cbn [st slots hp ext given]; [|done| |by rewrite length_insert].
    + rewrite Hc'. apply (inv_contents_same _ _ Hc).
      * intros x [->|?]%elem_of_insert; [right|by left]. split.
        -- eapply (body_wf_ext _ m); [done..|]. by apply (ic_body _ _ Hc).
        -- intros l' Ho. by exists m.
      * intros l'. rewrite (count_insert _ _ _ m) by done.
        rewrite (owns_ext l' m (with_metadata (Some l) m)) by done. lia.
    + rewrite <- Hl. unfold ledger. by rewrite Hc', Hf'.
Qed.

Lemma reset_metadata_inv d s m :
  sys_inv s → slots (st s) !! d = Some m →
  ∃ s', on_msg d s (λ m h, reset_metadata m h) = Some (RcOk, s') ∧ sys_inv s'.
Proof.
  intros [Hc Hm Hl Hlen] Hd. unfold on_msg. rewrite Hd. cbn [mbind option_bind].
  destruct (reset_metadata_spec _ _ _ d m (with_metadata None m) Hm Hlen Hd eq_refl)
    as (h' & -> & Hc' & Hf' & Hm').
  cbn [mbind option_bind]. eexists. split; [done|].
  pose proof (list_elem_of_lookup_2 _ _ _ Hd) as Hin.
  constructor; cbn [st slots hp ext given]; [|done| |by rewrite length_insert].
  - rewrite Hc'. apply (inv_contents_same _ _ Hc).
    + intros x [->|?]%elem_of_insert; [right|by left]. split.
      * eapply (body_wf_ext _ m); [done..|]. by apply (ic_body _ _ Hc).
      * intros l' Ho. by exists m.
    + intros l'. rewrite (count_insert _ _ _ m) by done.
      rewrite (owns_ext l' m (with_metadata None m)) by done. lia.
  - rewrite <- Hl. unfold ledger. by rewrite Hc', Hf'.
Qed.

Lemma new_meta_inv l s :
  sys_inv s → metas (hp (st s)) !! l = None → ∃ r s', step (ONewMeta l) s = Some (r, s') ∧ sys_inv s'.
Proof.
  intros [Hc Hm Hl Hlen] Hfresh. do 2 eexists. split; [done|].
  constructor; cbn [st slots hp ext given conts metas freed]; [done| |done|done].
  assert (count (holds l) (slots (st s)) = 0) as H0.
  { rewrite (count_ext _ (λ _, false)).
    - clear. induction (slots (st s)); simpl; lia.
    - intros x Hx. apply bool_decide_eq_false. intros Hmd.
      destruct (im_live _ _ _ Hm _ _ Hx Hmd). congruence. }
  constructor.
  - intros m l' Hin Hmd. rewrite lookup_insert. case_decide; [by eexists|]. by eapply im_live.
  - intros l' n. rewrite lookup_insert. unfold meta_refs. destruct (decide (l = l')) as [<-|Hne].
    + intros [= <-]. rewrite H0, bool_decide_eq_true_2 by set_solver. done.
    + intros Hn. destruct (im_count _ _ _ Hm _ _ Hn) as [-> ?]. unfold meta_refs in *.
      rewrite (bool_decide_ext (l' ∈ {[l]} ∪ ext s) (l' ∈ ext s)) by set_solver. done.
Qed.

Lemma drop_meta_inv l s :
  sys_inv s → l ∈ ext s → is_Some (metas (hp (st s)) !! l) →
  ∃ r s', step (ODropMeta l) s = Some (r, s') ∧ sys_inv s'.
Proof.
  intros [Hc Hm Hl Hlen] Hin Hlive. cbn [step].
  destruct (meta_drop_spec _ _ _ Hm Hlen l (slots (st s)) (ext s ∖ {[l]}))
    as (h' & -> & Hc' & Hf' & Hm').
  - done.
  - by left.
  - intros l'. unfold meta_refs. destruct (decide (l' = l)) as [->|Hne].
    + rewrite bool_decide_eq_false_2, bool_decide_eq_true_2 by set_solver. simpl. lia.
    + rewrite (bool_decide_ext (l' ∈ ext s ∖ {[l]}) (l' ∈ ext s)) by set_solver. lia.
  - cbn [mbind option_bind]. do 2 eexists. split; [done|].
    constructor; cbn [st slots hp ext given]; [by rewrite Hc'|done| |done].
    rewrite <- Hl. unfold ledger. by rewrite Hc', Hf'.
Qed.

Lemma close_at_inv d st' e g :
  msg_inv (slots st') (hp st') e g → (d < length (slots st'))%nat →
  ∃ r st'', close_at d st' = Some (r, st'') ∧ msg_inv (slots st'') (hp st'') e g ∧
    (r = RcOk ∨ st'' = st' ∧ ∃ err, r = RcErr err).
Proof.
  intros Hinv [m Hd]%lookup_lt_is_Some. destruct (check m) eqn:Hck.
  - destruct (close_at_spec _ _ _ _ _ Hinv Hd Hck) as (st'' & ? & _ & ?).
    exists RcOk, st''. auto.
  - unfold close_at. rewrite Hd. cbn [mbind option_bind]. unfold close. rewrite Hck.
    cbn [negb mbind option_bind]. do 2 eexists. split; [done|].
    rewrite list_insert_id by done. destruct st'; cbn in *. split; [done|]. right. eauto.
Qed.

Lemma move_copy_inv d s' st0 e g :
  msg_inv (slots st0) (hp st0) e g → (d < length (slots st0))%nat → (s' < length (slots st0))%nat →
  (∃ r st1, move d s' st0 = Some (r, st1) ∧ msg_inv (slots st1) (hp st1) e g) ∧
  (∃ r st1, copy d s' st0 = Some (r, st1) ∧ msg_inv (slots st1) (hp st1) e g).
Proof.
  intros Hinv Hd Hs. destruct (close_at_inv _ _ _ _ Hinv Hd) as (r & st1 & Hcl & Hinv1 & Hr).
  apply lookup_lt_is_Some in Hs as [ms Hs]. apply lookup_lt_is_Some in Hd as [md Hd].
  destruct (check ms) eqn:Hcks; [destruct (check md) eqn:Hckd|].
  - split.
    + destruct (move_spec _ _ _ _ _ _ _ Hinv Hd Hs Hckd Hcks) as (st2 & ? & ? & _). eauto.
    + destruct (copy_spec _ _ _ _ _ _ _ Hinv Hd Hs Hckd Hcks) as (st2 & ? & ? & _). eauto.
  - assert (∃ e', close_at d st0 = Some (RcErr e', st0)) as [e' He].
    { destruct Hr as [->|[-> [e' ->]]]; [|by eexists]. revert Hcl. unfold close_at, close.
      rewrite Hd. cbn [mbind option_bind]. by rewrite Hckd. }
    unfold move, copy. rewrite Hs. cbn [mbind option_bind]. rewrite Hcks. cbn [negb].
    rewrite He. cbn [mbind option_bind]. eauto 10.
  - unfold move, copy. rewrite Hs. cbn [mbind option_bind]. rewrite Hcks. cbn [negb]. eauto 10.
Qed.

Lemma tail_replicate (sl : list msg) k m ms :
  drop k sl = m :: ms → Forall (eq m) ms →
  sl = take k sl ++ replicate (length sl - k) m ∧ (1 ≤ length sl - k)%nat ∧ sl !! k = Some m ∧
  length ms = (length sl - k - 1)%nat.
Proof.
  intros Hdrop Hall. assert (length (drop k sl) = S (length ms)) as Hlen by (by rewrite Hdrop).
  rewrite length_drop in Hlen. split_and!; [|lia| |lia].
  - rewrite <- (firstn_skipn k sl) at 1. f_equal. rewrite Hdrop, Hlen. simpl. f_equal.
    symmetry. by apply replicate_as_Forall_2.
  - rewrite <- (Nat.add_0_r k), <- lookup_drop, Hdrop. done.
Qed.

Lemma rm_refs_inv k s :
  sys_inv s → legal (ORmRefs k) s = true → ∃ r s', step (ORmRefs k) s = Some (r, s') ∧ sys_inv s'.
Proof.
  intros Hinv. cbn [legal step]. destruct (drop k (slots (st s))) as [|m ms] eqn:Hdrop; [done|].
  rewrite !andb_true_iff, !bool_decide_eq_true, !orb_true_iff, negb_true_iff, bool_decide_eq_true.
  intros [[Hall Hmd] Hone].
  destruct (tail_replicate _ _ _ _ Hdrop Hall) as (Heq & Hn & Hk & Hlen).
  rewrite Hk. cbn [mbind option_bind]. unfold sys_inv in Hinv.
  destruct (rm_refs_spec (take k (slots (st s))) (hp (st s)) (ext s) (given s) m
    (length (slots (st s)) - k) Hn ltac:(by rewrite <- Heq) Hmd) as (al & m' & h' & -> & Hinv' & _).
  - intros Hl. destruct Hone as [[?|?]| ->]; [congruence|by left|right]. simpl in Hlen. lia.
  - cbn [mbind option_bind]. eauto.
Qed.

Lemma step_inv o s :
  sys_inv s → legal o s = true → ∃ r s', step o s = Some (r, s') ∧ sys_inv s'.
Proof.
  intros Hinv Hlegal.
  assert (∀ (x : rc * sys), sys_inv x.2 → ∃ r s', Some x = Some (r, s') ∧ sys_inv s') as Hx.
  { intros [r s'] ?. eauto. }
  destruct o as [d|d|d n|d b f hi|d b f hi e|d|d s'|d s'|d f|l|d l|d|l|d n|k]; cbn [legal] in Hlegal.
  - apply Hx, settle_plain; [done..|]. intros _. by destruct msg_init_plain as (? & ? & _ & ?).
  - apply Hx, settle_plain; [done..|]. intros _. by split_and!.
  - apply andb_true_iff in Hlegal as [? ?%Z.leb_le]. by apply Hx, init_size_inv.
  - destruct (init_data_inv d b f hi s Hinv Hlegal) as (r & Hr & ?). cbn [step].
    rewrite Hr. by apply Hx.
  - apply andb_true_iff in Hlegal as [He Hf].
    destruct (init_inv d b f hi e s Hinv He Hf) as (r & Hr & ?). cbn [step]. rewrite Hr. by apply Hx.
  - apply bool_decide_eq_true in Hlegal. cbn [step].
    destruct (close_at_inv d (st s) _ _ Hinv Hlegal) as (r & st1 & -> & ? & _).
    cbn [mbind option_bind]. eauto.
  - apply bool_decide_eq_true in Hlegal as [Hd Hs]. cbn [step].
    destruct (move_copy_inv d s' (st s) _ _ Hinv Hd Hs) as [(r & st1 & -> & ?) _].
    cbn [mbind option_bind]. eauto.
  - apply bool_decide_eq_true in Hlegal as [Hd Hs]. cbn [step].
    destruct (move_copy_inv d s' (st s) _ _ Hinv Hd Hs) as [_ (r & st1 & -> & ?)].
    cbn [mbind option_bind]. eauto.
  - apply andb_true_iff in Hlegal as [Hd%bool_decide_eq_true Hf%Z.eqb_eq].
    destruct (on_msg_plain d s (λ m h, Some (set_flags f m, h)) (set_flags f) Hinv Hd)
      as (s' & ? & ?); [|eauto].
    intros m Hm. by split_and!; try apply is_shared_set_other.
  - apply bool_decide_eq_true in Hlegal. by apply new_meta_inv.
  - destruct (slots (st s) !! d) as [m|] eqn:Hd; [|done].
    apply andb_true_iff in Hlegal as [Hm%bool_decide_eq_true Hl%bool_decide_eq_true].
    destruct (set_metadata_inv d l s m Hinv Hd Hm Hl) as (s' & ? & ?). eauto.
  - apply bool_decide_eq_true in Hlegal. apply lookup_lt_is_Some in Hlegal as [m Hd].
    destruct (reset_metadata_inv d s m Hinv Hd) as (s' & ? & ?). eauto.
  - apply andb_true_iff in Hlegal as [?%bool_decide_eq_true ?%bool_decide_eq_true].
    by apply drop_meta_inv.
  - destruct (slots (st s) !! d) as [m|] eqn:Hd; [|done].
    apply andb_true_iff in Hlegal as [Hm%bool_decide_eq_true Hl%Z.ltb_lt].
    destruct (add_refs_spec _ _ _ _ _ _ _ Hinv Hd Hm Hl) as (m' & h' & Ha & _ & ?).
    cbn [step]. rewrite Hd. cbn [mbind option_bind]. rewrite Ha. cbn [mbind option_bind]. eauto.
  - by apply rm_refs_inv.
Qed.

Lemma run_inv os s : sys_inv s → ∃ s', run os s = Some s' ∧ sys_inv s'.
Proof.
  revert s. induction os as [|o os IH]; intros s Hinv; [by exists s|]. cbn [run].
  destruct (legal o s) eqn:Hl; [|by apply IH].
  destruct (step_inv o s Hinv Hl) as (r & s' & -> & Hinv'). cbn [mbind option_bind]. by apply IH.
Qed.
End run.

(** ** Properties *)

(** Every message that carries data can be read. *)
Lemma data_size cs m h :
  conts h = cs → body_wf cs m → (∀ l c, cs !! l = Some c → c_size c = Z.of_nat (length (c_data c))) →
  is_vsm m || is_cmsg m || long m = true →
  ∃ bs, data m h = Some bs ∧ size m h = Some (Z.of_nat (length bs)).
Proof.
  intros Heq Hwf Hsz Hty. unfold data, size.
  destruct (is_vsm m) eqn:Hv; [|destruct (long m) eqn:Hl].
  - assert (check m = true) as ->.
    { unfold check, is_vsm in *. apply Z.eqb_eq in Hv. by rewrite Hv. }
    destruct (proj1 Hwf Hv) as [d ->]. by exists d.
  - destruct (long_types _ Hl) as (_ & _ & ->).
    destruct (msg_content_wf _ h m Heq Hwf Hl) as (l & c & Hmc & _ & Hc & _).
    change (is_lmsg m || is_zcmsg m) with (long m). rewrite Hl, Hmc. cbn [zmq_assert mbind option_bind].
    eexists. split; [done|]. cbn [snd]. f_equal. by eapply Hsz.
  - simpl in Hty. rewrite orb_false_r in Hty.
    assert (check m = true) as ->.
    { unfold check, is_cmsg in *. apply Z.eqb_eq in Hty. by rewrite Hty. }
    change (is_lmsg m || is_zcmsg m) with (long m). rewrite Hl, Hty.
    destruct (proj1 (proj2 Hwf) Hty) as [d ->]. by exists d.
Qed.

(** C13. Any sequence of msg_t operations that follows the library's discipline
    runs without a failed assertion, a dangling pointer or a second release:
    afterwards every message that carries data can be read and its size is the
    length of the data, the counter of a shared content is the number of
    messages that share it while an unshared content belongs to one message,
    and the deallocation functions called so far together with those of the
    live contents are exactly the ones handed to the messages. *)
Theorem msg_lifecycle uninit malloc_ok n os
  (Huninit : ∀ k, 0 ≤ k → length (uninit k) = Z.to_nat k) (Hn : Z.of_nat n < 2147483648) :
  ∃ s, run uninit malloc_ok os (start n) = Some s ∧
    (∀ m, m ∈ slots (st s) → is_vsm m || is_cmsg m || is_lmsg m || is_zcmsg m = true →
      ∃ bs, data m (hp (st s)) = Some bs ∧ size m (hp (st s)) = Some (Z.of_nat (length bs))) ∧
    (∀ l c m, conts (hp (st s)) !! l = Some c → m ∈ slots (st s) → owns l m = true →
      if is_shared m then c_refcnt c = count (owns l) (slots (st s))
      else count (owns l) (slots (st s)) = 1) ∧
    ledger (hp (st s)) ≡ₚ given s.
Proof.
  destruct (run_inv uninit malloc_ok Huninit os (start n) (start_inv n Hn)) as (s & Hrun & Hinv).
  exists s. split; [done|]. destruct Hinv as [Hc _ Hl _]. split_and!; [|apply (ic_count _ _ Hc)|done].
  intros m Hin Hty. eapply data_size; [done|by apply (ic_body _ _ Hc)|apply (ic_size _ _ Hc)|].
  unfold long. by rewrite orb_assoc.
Qed.

(** When no message holds a content any more, all contents have been freed
    and every deallocation function has been called exactly once: nothing leaks
    and nothing is freed twice. *)
Theorem msg_no_leak uninit malloc_ok n os s
  (Huninit : ∀ k, 0 ≤ k → length (uninit k) = Z.to_nat k) (Hn : Z.of_nat n < 2147483648)
  (Hrun : run uninit malloc_ok os (start n) = Some s)
  (Hclosed : ∀ m, m ∈ slots (st s) → is_lmsg m || is_zcmsg m = false) :
  conts (hp (st s)) = ∅ ∧ freed (hp (st s)) ≡ₚ given s.
Proof.
  destruct (run_inv uninit malloc_ok Huninit os (start n) (start_inv n Hn)) as (s' & Hrun' & Hinv).
  assert (s' = s) as -> by congruence. destruct Hinv as [Hc _ Hl _].
  assert (conts (hp (st s)) = ∅) as He.
  { apply map_empty. intros l. destruct (conts (hp (st s)) !! l) as [c|] eqn:E; [|done].
    pose proof (ic_owned _ _ Hc _ _ E) as H.
    rewrite (count_ext _ (λ _, false)) in H by (intros x Hx; apply not_long_owns; by apply Hclosed).
    exfalso. clear -H. induction (slots (st s)); simpl in *; lia. }
  split; [done|]. rewrite <- Hl. unfold ledger. by rewrite He.
Qed.

(** No operation changes the bytes of a content. *)
Definition preserves (h h' : heap) : Prop :=
  ∀ l c', conts h' !! l = Some c' → ∃ c, conts h !! l = Some c ∧ c_data c' = c_data c.

#[global] Instance preserves_preorder : PreOrder preserves.
Proof.
  split; [by intros h l c; eauto|]. intros h1 h2 h3 H12 H23 l c Hl.
  destruct (H23 _ _ Hl) as (c2 & H2 & ->). destruct (H12 _ _ H2) as (c1 & ? & ->). eauto.
Qed.

Lemma preserves_update l c k h :
  conts h !! l = Some c → preserves h (set_conts (insert l (set_refcnt k c)) h).
Proof.
  intros Hl l' c'. cbn [set_conts conts]. rewrite lookup_insert.
  case_decide; subst; [intros [= <-]|]; eauto.
Qed.

Lemma preserves_destroy l c h : preserves h (destroy_content l c h).
Proof. intros l' c'. cbn [destroy_content conts]. intros [_ Hl]%lookup_delete_Some. eauto. Qed.

Lemma preserves_conts h h' : conts h' = conts h → preserves h h'.
Proof. intros E l c'. rewrite E. eauto. Qed.

Lemma msg_content_lookup m h l c : msg_content m h = Some (l, c) → conts h !! l = Some c.
Proof.
  unfold msg_content. destruct (m_body m) as [| l' | |]; try done.
  destruct (conts h !! l') eqn:E; cbn [mbind option_bind]; [|done]. by intros [= <- <-].
Qed.

Lemma release_preserves m h h' : release_content m h = Some h' → preserves h h'.
Proof.
  unfold release_content. destruct (msg_content m h) as [[l c]|] eqn:E; [|done].
  apply msg_content_lookup in E. cbn [mbind option_bind].
  destruct (is_shared m); cbn [negb].
  - unfold refcnt_sub. destruct (u32 (c_refcnt c - 1) =? 0); cbn [negb]; intros [= <-].
    + rewrite destroy_after_update. apply preserves_destroy.
    + by apply preserves_update.
  - intros [= <-]. apply preserves_destroy.
Qed.

Lemma meta_drop_conts l h h' : meta_drop_ref l h = Some h' → conts h' = conts h.
Proof. unfold meta_drop_ref. destruct (metas h !! l); [|done]. by intros [= <-]. Qed.

Lemma close_preserves m h r m' h' : close m h = Some (r, m', h') → preserves h h'.
Proof.
  unfold close. destruct (check m); cbn [negb]; [|by intros [= _ _ <-]].
  destruct (if is_lmsg m then _ else _) as [h1|] eqn:E1; [|done]. cbn [mbind option_bind].
  destruct (if is_zcmsg m then _ else _) as [h2|] eqn:E2; [|done]. cbn [mbind option_bind].
  assert (preserves h h1) as H1.
  { destruct (is_lmsg m); [by eapply release_preserves|by injection E1 as <-]. }
  assert (preserves h1 h2) as H2.
  { destruct (is_zcmsg m); [|by injection E2 as <-].
    destruct (msg_content m h1) as [c|]; [|done]. cbn [mbind option_bind] in E2.
    destruct (zmq_assert _); [|done]. by eapply release_preserves. }
  unfold reset_metadata. destruct (m_metadata m) as [l|].
  - destruct (meta_drop_ref l h2) as [h3|] eqn:E3; cbn [mbind option_bind]; [|done].
    intros [= _ _ <-]. transitivity h1; [done|]. transitivity h2; [done|].
    by apply preserves_conts, meta_drop_conts with l.
  - cbn [mbind option_bind]. intros [= _ _ <-]. by transitivity h1.
Qed.

Lemma close_at_preserves d st r st' : close_at d st = Some (r, st') → preserves (hp st) (hp st').
Proof.
  unfold close_at. destruct (slots st !! d) as [m|]; [|done]. cbn [mbind option_bind].
  destruct (close m (hp st)) as [[[r' m'] h']|] eqn:E; [|done]. cbn [mbind option_bind].
  intros [= _ <-]. by eapply close_preserves.
Qed.

Lemma move_preserves d i st r st' : move d i st = Some (r, st') → preserves (hp st) (hp st').
Proof.
  unfold move. destruct (slots st !! i) as [ms|]; [|done]. cbn [mbind option_bind].
  destruct (check ms); cbn [negb]; [|by intros [= _ <-]].
  destruct (close_at d st) as [[r1 st1]|] eqn:E; [|done]. cbn [mbind option_bind].
  apply close_at_preserves in E. destruct r1; [|by intros [= _ <-]].
  destruct (slots st1 !! i); [|done]. cbn [mbind option_bind]. by intros [= _ <-].
Qed.

Lemma share_preserves m h m' h' : share m h = Some (m', h') → preserves h h'.
Proof.
  unfold share. destruct (long m); [|by intros [= _ <-]].
  unfold refcnt. destruct (_ || _); [|done].
  destruct (msg_content m h) as [[l c]|] eqn:E; [|done]. apply msg_content_lookup in E.
  cbn [mbind option_bind]. destruct (is_shared m); intros [= _ <-]; by apply preserves_update.
Qed.

Lemma copy_preserves d i st r st' : copy d i st = Some (r, st') → preserves (hp st) (hp st').
Proof.
  unfold copy. destruct (slots st !! i) as [ms|]; [|done]. cbn [mbind option_bind].
  destruct (check ms); cbn [negb]; [|by intros [= _ <-]].
  destruct (close_at d st) as [[r1 st1]|] eqn:E; [|done]. cbn [mbind option_bind].
  apply close_at_preserves in E. destruct r1; [|by intros [= _ <-]].
  destruct (slots st1 !! i) as [src|]; [|done]. cbn [mbind option_bind].
  change (if is_lmsg src || is_zcmsg src then _ else _) with (share src (hp st1)).
  destruct (share src (hp st1)) as [[m' h1]|] eqn:E1; [|done]. apply share_preserves in E1.
  cbn [mbind option_bind].
  destruct (m_metadata m') as [l|]; [unfold meta_add_ref; destruct (metas h1 !! l)|];
    cbn [mbind option_bind]; [|done|]; intros [= _ <-]; cbn [hp]; transitivity (hp st1);
    try done; transitivity h1; try done; by apply preserves_conts.
Qed.

(** Two messages on the same body read the same in a later heap. *)
Lemma data_preserved m m' h h' bs :
  data m h = Some bs → m_type m' = m_type m → m_body m' = m_body m → preserves h h' →
  body_wf (conts h') m' → data m' h' = Some bs.
Proof.
  intros Hd Ht Hb Hp Hwf. revert Hd. unfold data.
  assert (check m' = check m ∧ is_vsm m' = is_vsm m ∧ is_cmsg m' = is_cmsg m ∧ long m' = long m)
    as (-> & -> & -> & Hlong).
  { unfold check, is_vsm, is_cmsg, long, is_lmsg, is_zcmsg. by rewrite Ht. }
  rewrite Hb. destruct (check m); [|done]. cbn [zmq_assert mbind option_bind].
  destruct (is_vsm m); [done|].
  change (is_lmsg m' || is_zcmsg m') with (long m'). change (is_lmsg m || is_zcmsg m) with (long m).
  rewrite Hlong. destruct (long m) eqn:Hl; [|done].
  destruct (msg_content_wf _ h' m' eq_refl Hwf Hlong) as (l & c & Hmc & Hb' & Hc & _).
  rewrite Hmc. unfold msg_content. rewrite <- Hb, Hb'.
  destruct (Hp _ _ Hc) as (c0 & -> & Heq). cbn [mbind option_bind snd]. by rewrite Heq.
Qed.

(** In any reachable state, copying a valid message into another slot holding
    a valid message succeeds and both messages then read as the source did;
    moving it succeeds, the destination reads as the source did and the source
    is an empty message. *)
Theorem msg_copy_move uninit malloc_ok n os s d i md ms bs
  (Huninit : ∀ k, 0 ≤ k → length (uninit k) = Z.to_nat k) (Hn : Z.of_nat n < 2147483648)
  (Hrun : run uninit malloc_ok os (start n) = Some s) (Hdi : d ≠ i)
  (Hd : slots (st s) !! d = Some md) (Hi : slots (st s) !! i = Some ms)
  (Hvalid : check md = true) (Hbs : data ms (hp (st s)) = Some bs) :
  (∃ st' m1 m2, copy d i (st s) = Some (RcOk, st') ∧
     slots st' !! d = Some m1 ∧ slots st' !! i = Some m2 ∧
     data m1 (hp st') = Some bs ∧ data m2 (hp st') = Some bs) ∧
  (∃ st' m1, move d i (st s) = Some (RcOk, st') ∧
     slots st' !! d = Some m1 ∧ slots st' !! i = Some msg_init ∧ data m1 (hp st') = Some bs).
Proof.
  destruct (run_inv uninit malloc_ok Huninit os (start n) (start_inv n Hn)) as (s' & Hrun' & Hinv).
  assert (s' = s) as -> by congruence. clear Hrun'.
  assert (check ms = true) as Hcks.
  { revert Hbs. unfold data. destruct (check ms); [done|]. by cbn [zmq_assert mbind option_bind]. }
  pose proof (lookup_lt_Some _ _ _ Hd). pose proof (lookup_lt_Some _ _ _ Hi).
  assert (∀ st' m1 k, msg_inv (slots st') (hp st') (ext s) (given s) →
    preserves (hp (st s)) (hp st') → slots st' !! k = Some m1 →
    m_type m1 = m_type ms → m_body m1 = m_body ms → data m1 (hp st') = Some bs) as Hread.
  { intros st' m1 k [Hc _ _ _] Hp Hk Ht Hb. eapply data_preserved; [done..|].
    eapply (ic_body _ _ Hc), list_elem_of_lookup_2, Hk. }
  assert (m_type (as_shared ms) = m_type ms ∧ m_body (as_shared ms) = m_body ms) as [Ht Hb].
  { unfold as_shared. by destruct (long ms), (is_shared ms). }
  split.
  - destruct (copy_spec _ _ _ _ _ _ _ Hinv Hd Hi Hvalid Hcks) as (st' & Hcp & Hinv' & Hsl).
    rewrite decide_False in Hsl by done. pose proof (copy_preserves _ _ _ _ _ Hcp) as Hp.
    assert (slots st' !! d = Some (as_shared ms)) as Hd'.
    { rewrite Hsl. apply list_lookup_insert_eq. by rewrite length_insert. }
    assert (slots st' !! i = Some (as_shared ms)) as Hi'.
    { rewrite Hsl, list_lookup_insert_ne by done. by apply list_lookup_insert_eq. }
    exists st', (as_shared ms), (as_shared ms). split_and!; try done; by eapply Hread.
  - destruct (move_spec _ _ _ _ _ _ _ Hinv Hd Hi Hvalid Hcks) as (st' & Hmv & Hinv' & Hsl).
    rewrite decide_False in Hsl by done. pose proof (move_preserves _ _ _ _ _ Hmv) as Hp.
    assert (slots st' !! d = Some ms) as Hd'.
    { rewrite Hsl, list_lookup_insert_ne by done. by apply list_lookup_insert_eq. }
    exists st', ms. split_and!; [done|done| |by eapply Hread].
    rewrite Hsl. apply list_lookup_insert_eq. by rewrite length_insert.
Qed.

(** ** Witnesses *)

Definition zeroes (n : Z) : list Z := replicate (Z.to_nat n) 0.

Lemma zeroes_length n : 0 ≤ n → length (zeroes n) = Z.to_nat n.
Proof. intros _. apply length_replicate. Qed.

(** A shared message is copied, moved and closed; contents of all kinds. *)
Definition demo : list op :=
  [OInitData 0 [1; 2; 3] true 7; OInit 1; OCopy 1 0; OInitSize 2 100; OMove 0 2; OClose 1;
   OInitMsg 1 (zeroes 40) true 9 true; OInit 2; OAddRefs 1 2; ORmRefs 3; OCopy 2 1].
Definition demo_end : list op := [OClose 0; OClose 1; OClose 2].
Definition demo_state (os : list op) : sys :=
  default (start 3) (run zeroes (λ _, true) os (start 3)).

Lemma msg_lifecycle_witness :
  ∃ s, run zeroes (λ _, true) demo (start 3) = Some s ∧ ledger (hp (st s)) ≡ₚ given s.
Proof.
  destruct (msg_lifecycle zeroes (λ _, true) 3 demo zeroes_length ltac:(done))
    as (s & H1 & _ & _ & H2).
  exists s. exact (conj H1 H2).
Defined.

Lemma msg_no_leak_witness :
  let s := demo_state (demo ++ demo_end) in
  given s = [(zeroes 40, 9); ([1; 2; 3], 7)] ∧ conts (hp (st s)) = ∅ ∧ freed (hp (st s)) ≡ₚ given s.
Proof.
  split; [vm_compute; reflexivity|].
  apply (msg_no_leak zeroes (λ _, true) 3 (demo ++ demo_end)); [apply zeroes_length|done|vm_compute; reflexivity|].
  apply (Forall_forall (λ m, is_lmsg m || is_zcmsg m = false)).
  vm_compute. repeat constructor.
Defined.

Lemma msg_copy_move_witness :
  let s := demo_state [OInitData 0 [1; 2; 3] true 7; OInit 1] in
  ∃ st' m1, move 1 0 (st s) = Some (RcOk, st') ∧ slots st' !! 1%nat = Some m1 ∧
            data m1 (hp st') = Some [1; 2; 3].
Proof.
  intros s. assert (∃ m, slots (st s) !! 0%nat = Some m ∧ data m (hp (st s)) = Some [1; 2; 3])
    as (m & Hm & Hd) by (eexists; split; vm_compute; reflexivity).
  destruct (msg_copy_move zeroes (λ _, true) 3 [OInitData 0 [1; 2; 3] true 7; OInit 1] s 1 0
    msg_init m [1; 2; 3] zeroes_length ltac:(done) ltac:(vm_compute; reflexivity) ltac:(done)
    ltac:(vm_compute; reflexivity) Hm ltac:(done) Hd) as [_ (st' & m1 & H1 & H2 & _ & H3)].
  exists st', m1. exact (conj H1 (conj H2 H3)).
Defined.
