(* ===== verification/Codec.v ===== *)
(** * Frames on the wire

    What the ZMTP encoders must produce and the decoders must accept, stated
    without their buffers and state machines: the byte format of a frame in
    ZMTP/1.0 ([v1_encoder_t], [v1_decoder_t]) and ZMTP/2.0 ([v2_encoder_t],
    [v2_decoder_t]), and the interface of a parser that takes its input a byte
    at a time. *)

From S2P Require Import Prelude Wire.

(** A message as the codecs see it: the flags of [msg_t] and the data. *)
Record frame : Type := Frame { f_flags : Z; f_data : list Z }.

Definition f_size (f : frame) : Z := Z.of_nat (length (f_data f)).

Definition flag_set (flags f : Z) : bool := negb (Z.land flags f =? 0).

(** The bits [msg_t::more] and [msg_t::command]. *)
Definition flag_more := 1.
Definition flag_command := 2.
Definition UCHAR_MAX := 255.

(** [v2_protocol_t] *)
Definition more_flag := 1.
Definition large_flag := 2.
Definition command_flag := 4.

(** ** Formats *)

(** ZMTP/1.0: the length counts the flags byte that follows it. *)
Definition v1_header (f : frame) : list Z :=
  let size := f_size f + 1 in
  (if size <? UCHAR_MAX then [size] else UCHAR_MAX :: put_uint64 size)
    ++ [Z.land (f_flags f) flag_more].
Definition v1_wire (f : frame) : list Z := v1_header f ++ f_data f.

(** ZMTP/2.0: the flags come first and tell the width of the length. *)
Definition v2_flags (f : frame) : Z :=
  Z.lor (Z.lor (if flag_set (f_flags f) flag_more then more_flag else 0)
               (if UCHAR_MAX <? f_size f then large_flag else 0))
        (if flag_set (f_flags f) flag_command then command_flag else 0).
Definition v2_header (f : frame) : list Z :=
  v2_flags f :: (if UCHAR_MAX <? f_size f then put_uint64 (f_size f) else [f_size f]).
Definition v2_wire (f : frame) : list Z := v2_header f ++ f_data f.

(** The flags a frame still has after a trip over the wire. *)
Definition v1_trip (f : frame) : frame := Frame (Z.land (f_flags f) flag_more) (f_data f).
Definition v2_trip (f : frame) : frame :=
  Frame (Z.lor (if flag_set (f_flags f) flag_more then flag_more else 0)
               (if flag_set (f_flags f) flag_command then flag_command else 0)) (f_data f).

Definition frame_ok (f : frame) : Prop :=
  bytes_ok (f_data f) ∧ f_size f < 18446744073709551615.

(** ** Parsers *)

(** What the last byte of an item leads to. *)
Inductive outcome (P : Type) : Type :=
| OErr (e : errno)
| OMore (p : P)
| OFrame (f : frame) (p : P).
Arguments OErr {P} e.
Arguments OMore {P} p.
Arguments OFrame {P} f p.

(** A parser collects [need p] bytes ([push]) and then decides ([finish]). *)
Class Parser (P : Type) := {
  start : P;
  need : P → nat;
  push : P → list Z → P;
  finish : P → list Z → outcome P;
}.

Class ParserLaws (P : Type) `{Parser P} := {
  need_start : (0 < need start)%nat;
  push_nil p : push p [] = p;
  need_push p bs : (length bs < need p)%nat → need (push p bs) = (need p - length bs)%nat;
  push_push p a b : (length a + length b < need p)%nat → push (push p a) b = push p (a ++ b);
  finish_push p a b :
    (length a + length b = need p)%nat → b ≠ [] → finish (push p a) b = finish p (a ++ b);
  need_finish p bs :
    match finish p bs with OErr _ => True | OMore q | OFrame _ q => (0 < need q)%nat end;
}.

Section parse.
Context {P : Type} `{Parser P}.

(** The frames in the input, and the state reached or the error met. *)
Fixpoint parse (p : P) (input : list Z) : list frame * (P + errno) :=
  match input with
  | [] => ([], inl p)
  | b :: input =>
      if decide (need p = 1%nat) then
        match finish p [b] with
        | OErr e => ([], inr e)
        | OMore q => parse q input
        | OFrame f q => let '(fs, r) := parse q input in (f :: fs, r)
        end
      else parse (push p [b]) input
  end.

Context `{!ParserLaws P}.

(** The parser on a part of the next item, and on all of it. *)
Lemma parse_push p bs input :
  (length bs < need p)%nat → parse p (bs ++ input) = parse (push p bs) input.
Proof.
  revert p. induction bs as [|b bs IH]; intros p Hlen; [by rewrite push_nil|].
  simpl in Hlen. cbn [app parse]. rewrite decide_False by lia.
  rewrite IH by (rewrite need_push; simpl; lia). by rewrite push_push by (simpl; lia).
Qed.

Lemma parse_finish p bs input :
  length bs = need p → (0 < need p)%nat →
  parse p (bs ++ input) =
    match finish p bs with
    | OErr e => ([], inr e)
    | OMore q => parse q input
    | OFrame f q => let '(fs, r) := parse q input in (f :: fs, r)
    end.
Proof.
  intros Hlen Hpos. destruct bs as [|b bs _] using rev_ind; [simpl in Hlen; lia|].
  rewrite length_app in Hlen. simpl in Hlen. rewrite <- app_assoc.
  rewrite parse_push by lia. cbn [app parse].
  rewrite decide_True by (rewrite need_push; lia).
  by rewrite finish_push by (simpl; lia || done).
Qed.

Lemma parse_app p a b :
  parse p (a ++ b) =
    match parse p a with
    | (fs, inl q) => let '(gs, r) := parse q b in (fs ++ gs, r)
    | (fs, inr err) => (fs, inr err)
    end.
Proof.
  revert p. induction a as [|x a IH]; intros p; [cbn [app parse]; by destruct (parse p b)|].
  cbn [app parse]. destruct (decide _); [|apply IH].
  destruct (finish p [x]) as [?|q|f q]; [done|apply IH|]. rewrite IH.
  destruct (parse q a) as [fs [q'|?]]; [|done]. by destruct (parse q' b).
Qed.

(** A property of the frames, by an invariant of the parser. *)
Lemma parse_forall (I : P → Prop) (Q : frame → Prop) p input :
  (∀ p b, I p → byte_ok b →
     if decide (need p = 1%nat) then
       match finish p [b] with
       | OErr _ => True | OMore q => I q | OFrame f q => Q f ∧ I q
       end
     else I (push p [b])) →
  I p → bytes_ok input → Forall Q (parse p input).1.
Proof.
  intros Hstep Hp Hok. revert p Hp. induction Hok as [|b input Hb Hok IH]; intros p Hp; [done|].
  cbn [parse]. specialize (Hstep p b Hp Hb). destruct (decide _); [|by apply IH].
  destruct (finish p [b]) as [?|q|f q]; [done|by apply IH|]. destruct Hstep as [Hf Hq].
  specialize (IH q Hq). destruct (parse q input) as [fs r]. by constructor.
Qed.

Lemma parse_need p input fs q : (0 < need p)%nat → parse p input = (fs, inl q) → (0 < need q)%nat.
Proof.
  revert p fs. induction input as [|b input IH]; intros p fs Hp; cbn [parse].
  - by intros [= _ <-].
  - destruct (decide _).
    + pose proof (need_finish p [b]) as Hf. destruct (finish p [b]) as [?|q'|f q']; [done|by apply IH|].
      destruct (parse q' input) as [gs [q''|?]] eqn:E; [|done]. intros [= _ <-]. by eapply IH.
    + apply IH. rewrite need_push by (simpl; lia). simpl. lia.
Qed.
End parse.

(** ** The ZMTP/2.0 parser *)

Inductive v2_state : Type :=
| V2Flags
| V2Size1 (flags : Z)
| V2Size8 (flags : Z) (acc : list Z)
| V2Body (flags : Z) (size : nat) (acc : list Z).

Section v2.
Context (max_msg_size : Z).

Definition too_big (size : Z) : bool := (0 <=? max_msg_size) && (max_msg_size <? size).

Definition v2_body (flags size : Z) : outcome v2_state :=
  if too_big size then OErr EMSGSIZE
  else if decide (Z.to_nat size = 0%nat) then OFrame (Frame flags []) V2Flags
  else OMore (V2Body flags (Z.to_nat size) []).

Definition v2_need (p : v2_state) : nat :=
  match p with
  | V2Flags | V2Size1 _ => 1
  | V2Size8 _ acc => 8 - length acc
  | V2Body _ size acc => size - length acc
  end.

Definition v2_push (p : v2_state) (bs : list Z) : v2_state :=
  match p with
  | V2Flags | V2Size1 _ => p
  | V2Size8 flags acc => V2Size8 flags (acc ++ bs)
  | V2Body flags size acc => V2Body flags size (acc ++ bs)
  end.

(** The flags of the message from the flags byte. *)
Definition v2_msg_flags (b : Z) : Z :=
  Z.lor (if flag_set b more_flag then flag_more else 0)
        (if flag_set b command_flag then flag_command else 0).

Definition v2_finish (p : v2_state) (bs : list Z) : outcome v2_state :=
  match p with
  | V2Flags =>
      let b := hd 0 bs in
      OMore (if flag_set b large_flag then V2Size8 (v2_msg_flags b) []
             else V2Size1 (v2_msg_flags b))
  | V2Size1 flags => v2_body flags (hd 0 bs)
  | V2Size8 flags acc => v2_body flags (be_value (acc ++ bs))
  | V2Body flags _ acc => OFrame (Frame flags (acc ++ bs)) V2Flags
  end.

#[local] Instance v2_parser : Parser v2_state := {
  start := V2Flags; need := v2_need; push := v2_push; finish := v2_finish;
}.

#[local] Instance v2_parser_laws : ParserLaws v2_state.
Proof.
  assert (∀ fl n, match v2_body fl n with
    | OErr _ => True | OMore q | OFrame _ q => (0 < v2_need q)%nat end) as Hbody.
  { intros fl n. unfold v2_body. destruct (too_big n); [done|].
    destruct (decide _); simpl; lia. }
  split.
  - simpl. lia.
  - intros []; simpl; by rewrite ?app_nil_r.
  - intros [] bs; simpl; rewrite ?length_app; lia.
  - intros [] a b; simpl; by rewrite ?app_assoc.
  - intros [|fl|fl acc|fl n acc] a b Hlen Hb; simpl in *; rewrite ?app_assoc; try done.
    + destruct a; simpl in *; [done|]. destruct b; simpl in *; [done|lia].
    + destruct a; simpl in *; [done|]. destruct b; simpl in *; [done|lia].
  - intros [|fl|fl acc|fl n acc] bs; simpl; try apply Hbody; [|lia].
    destruct (flag_set _ _); simpl; lia.
Qed.
End v2.

(** ** The ZMTP/1.0 parser *)

Inductive v1_state : Type :=
| V1Size
| V1Size8 (acc : list Z)
| V1Flags (size : nat)
| V1Body (flags : Z) (size : nat) (acc : list Z).

Section v1.
Context (max_msg_size : Z).

(** The length counts the flags byte. *)
Definition v1_payload (length : Z) : outcome v1_state :=
  if length <=? 0 then OErr EPROTO
  else if too_big max_msg_size (length - 1) then OErr EMSGSIZE
  else OMore (V1Flags (Z.to_nat (length - 1))).

Definition v1_need (p : v1_state) : nat :=
  match p with
  | V1Size | V1Flags _ => 1
  | V1Size8 acc => 8 - length acc
  | V1Body _ size acc => size - length acc
  end.

Definition v1_push (p : v1_state) (bs : list Z) : v1_state :=
  match p with
  | V1Size | V1Flags _ => p
  | V1Size8 acc => V1Size8 (acc ++ bs)
  | V1Body flags size acc => V1Body flags size (acc ++ bs)
  end.

Definition v1_finish (p : v1_state) (bs : list Z) : outcome v1_state :=
  match p with
  | V1Size => let b := hd 0 bs in if b =? UCHAR_MAX then OMore (V1Size8 []) else v1_payload b
  | V1Size8 acc => v1_payload (be_value (acc ++ bs))
  | V1Flags size =>
      let flags := Z.land (hd 0 bs) flag_more in
      if decide (size = 0%nat) then OFrame (Frame flags []) V1Size
      else OMore (V1Body flags size [])
  | V1Body flags _ acc => OFrame (Frame flags (acc ++ bs)) V1Size
  end.

#[local] Instance v1_parser : Parser v1_state := {
  start := V1Size; need := v1_need; push := v1_push; finish := v1_finish;
}.

#[local] Instance v1_parser_laws : ParserLaws v1_state.
Proof.
  assert (∀ n, match v1_payload n with
    | OErr _ => True | OMore q | OFrame _ q => (0 < v1_need q)%nat end) as Hbody.
  { intros n. unfold v1_payload. repeat (case_match; try done); simplify_eq; simpl; lia. }
  split.
  - simpl. lia.
  - intros []; simpl; by rewrite ?app_nil_r.
  - intros [] bs; simpl; rewrite ?length_app; lia.
  - intros [] a b; simpl; by rewrite ?app_assoc.
  - intros [|acc|n|fl n acc] a b Hlen Hb; simpl in *; rewrite ?app_assoc; try done.
    + destruct a; simpl in *; [done|]. destruct b; simpl in *; [done|lia].
    + destruct a; simpl in *; [done|]. destruct b; simpl in *; [done|lia].
  - intros [|acc|n|fl n acc] bs; simpl; try apply Hbody; [| |lia].
    + destruct (_ =? _); [simpl; lia|apply Hbody].
    + destruct (decide _); simpl; lia.
Qed.
End v1.

(** ** The parsers read what the formats write *)

Definition v1_parse (max : Z) : v1_state → list Z → list frame * (v1_state + errno) :=
  parse (H := v1_parser max).
Definition v2_parse (max : Z) : v2_state → list Z → list frame * (v2_state + errno) :=
  parse (H := v2_parser max).

#[global] Arguments parse : simpl never.
#[global] Arguments v1_parse : simpl never.
#[global] Arguments v2_parse : simpl never.

(** One more frame in front of a result. *)
Definition cons_frame {A} (f : frame) (r : list frame * A) : list frame * A := (f :: r.1, r.2).

Lemma cons_frame_eq {A} f (r : list frame * A) :
  (let '(fs, x) := r in (f :: fs, x)) = cons_frame f r.
Proof. by destruct r. Qed.

Lemma v2_flags_trip f :
  v2_msg_flags (v2_flags f) = f_flags (v2_trip f) ∧
  flag_set (v2_flags f) large_flag = (UCHAR_MAX <? f_size f).
Proof.
  unfold v2_flags, v2_trip; cbn [f_flags].
  destruct (flag_set (f_flags f) flag_more), (UCHAR_MAX <? f_size f),
    (flag_set (f_flags f) flag_command); by vm_compute.
Qed.

Lemma f_size_nonneg f : 0 ≤ f_size f.
Proof. unfold f_size. lia. Qed.

Lemma put_uint64_value v : 0 ≤ v < 18446744073709551616 → be_value (put_uint64 v) = v.
Proof. intros. by apply put_uint64_be. Qed.

Section trip.
Context (max : Z).
#[local] Existing Instance v1_parser.
#[local] Existing Instance v1_parser_laws.
#[local] Existing Instance v2_parser.
#[local] Existing Instance v2_parser_laws.

Lemma v2_parse_body fl (data rest : list Z) n :
  n = Z.of_nat (length data) → too_big max n = false →
  match v2_body max fl n with
  | OErr e => ([], inr e)
  | OMore q => v2_parse max q (data ++ rest)
  | OFrame f q => let '(fs, r) := v2_parse max q (data ++ rest) in (f :: fs, r)
  end = cons_frame (Frame fl data) (v2_parse max V2Flags rest).
Proof.
  intros -> Hbig. unfold v2_body. rewrite Hbig, Nat2Z.id. destruct (decide _) as [H0|H0].
  - apply length_zero_iff_nil in H0 as ->. apply cons_frame_eq.
  - unfold v2_parse. rewrite parse_finish by (simpl; lia). apply cons_frame_eq.
Qed.

Lemma v2_parse_wire f rest :
  frame_ok f → too_big max (f_size f) = false →
  v2_parse max V2Flags (v2_wire f ++ rest) =
    cons_frame (v2_trip f) (v2_parse max V2Flags rest).
Proof.
  intros [Hok Hsz] Hbig. destruct (v2_flags_trip f) as [Hfl Hlarge].
  pose proof (f_size_nonneg f).
  unfold v2_wire, v2_header. rewrite <- app_assoc. cbn [app].
  change (v2_flags f :: ?l) with ([v2_flags f] ++ l). unfold v2_parse at 1.
  rewrite parse_finish by (simpl; lia). cbn [v2_finish finish v2_parser hd].
  rewrite Hfl, Hlarge. destruct (Z.ltb_spec UCHAR_MAX (f_size f)).
  - rewrite parse_finish by (simpl; lia). cbn [finish v2_parser v2_finish app].
    rewrite put_uint64_value by lia. apply (v2_parse_body _ _ _ _ eq_refl Hbig).
  - change ([f_size f] ++ f_data f ++ rest) with ([f_size f] ++ (f_data f ++ rest)).
    rewrite parse_finish by (simpl; lia). cbn [finish v2_parser v2_finish hd].
    apply (v2_parse_body _ _ _ _ eq_refl Hbig).
Qed.

(** The bits of the flags byte other than the one that counts are ignored. *)
Lemma v1_parse_payload f b rest n :
  n = f_size f + 1 → too_big max (f_size f) = false → Z.land b flag_more = Z.land (f_flags f) flag_more →
  match v1_payload max n with
  | OErr e => ([], inr e)
  | OMore q => v1_parse max q (b :: f_data f ++ rest)
  | OFrame g q => let '(fs, r) := v1_parse max q (b :: f_data f ++ rest) in (g :: fs, r)
  end = cons_frame (v1_trip f) (v1_parse max V1Size rest).
Proof.
  intros -> Hbig Hb. pose proof (f_size_nonneg f). unfold v1_payload. zdecide.
  rewrite Z.add_simpl_r, Hbig. unfold v1_parse at 1.
  change (?b :: f_data f ++ rest) with ([b] ++ (f_data f ++ rest)).
  rewrite parse_finish by (simpl; lia). cbn [finish v1_parser v1_finish hd].
  rewrite Hb. unfold f_size. rewrite Nat2Z.id.
  destruct (decide _) as [H0|H0].
  - unfold v1_trip. apply length_zero_iff_nil in H0 as ->. apply cons_frame_eq.
  - rewrite parse_finish by (simpl; lia). apply cons_frame_eq.
Qed.

Lemma land_more_twice b : Z.land (Z.land b flag_more) flag_more = Z.land b flag_more.
Proof. by rewrite <- Z.land_assoc, Z.land_diag. Qed.

(** The long form is accepted for a frame of any size. *)
Lemma v1_parse_long f b rest :
  frame_ok f → too_big max (f_size f) = false → Z.land b flag_more = Z.land (f_flags f) flag_more →
  v1_parse max V1Size ([UCHAR_MAX] ++ put_uint64 (f_size f + 1) ++ [b] ++ f_data f ++ rest) =
    cons_frame (v1_trip f) (v1_parse max V1Size rest).
Proof.
  intros [Hok Hsz] Hbig Hb. pose proof (f_size_nonneg f). unfold v1_parse at 1.
  rewrite parse_finish by (simpl; lia). cbn [finish v1_parser v1_finish hd].
  rewrite Z.eqb_refl. rewrite parse_finish by (simpl; lia).
  cbn [finish v1_parser v1_finish app]. rewrite put_uint64_value by lia.
  by apply v1_parse_payload.
Qed.

Lemma v1_parse_wire f rest :
  frame_ok f → too_big max (f_size f) = false →
  v1_parse max V1Size (v1_wire f ++ rest) = cons_frame (v1_trip f) (v1_parse max V1Size rest).
Proof.
  intros [Hok Hsz] Hbig. pose proof (f_size_nonneg f). unfold v1_wire, v1_header.
  rewrite <- !app_assoc.
  destruct (Z.ltb_spec (f_size f + 1) UCHAR_MAX) as [Hlt|Hge].
  2: { apply (v1_parse_long f (Z.land (f_flags f) flag_more) rest); [done|done|apply land_more_twice]. }
  unfold v1_parse at 1. rewrite parse_finish by (simpl; lia). cbn [finish v1_parser v1_finish hd].
  unfold UCHAR_MAX in *. zdecide. apply v1_parse_payload; [done|done|apply land_more_twice].
Qed.

Definition fits (f : frame) : Prop := frame_ok f ∧ too_big max (f_size f) = false.

(** A stream of frames is parsed back frame by frame. *)
Lemma v1_parse_stream fs :
  Forall fits fs → v1_parse max V1Size (fs ≫= v1_wire) = (v1_trip <$> fs, inl V1Size).
Proof.
  induction 1 as [|f fs [Hok Hbig] _ IH]; [done|]. cbn [mbind list_bind].
  rewrite v1_parse_wire by done. by rewrite IH.
Qed.

Lemma v2_parse_stream fs :
  Forall fits fs → v2_parse max V2Flags (fs ≫= v2_wire) = (v2_trip <$> fs, inl V2Flags).
Proof.
  induction 1 as [|f fs [Hok Hbig] _ IH]; [done|]. cbn [mbind list_bind].
  rewrite v2_parse_wire by done. by rewrite IH.
Qed.
End trip.
