(* ===== verification/Encoder.v ===== *)
(** * Encoders (src/encoder.hpp, v1_encoder.cpp, v2_encoder.cpp, raw_encoder.cpp)

    [encoder_base_t<T>] over a class of step functions, its three instances and
    the loop of [stream_engine_t::out_event] that fills a batch.  A pointer into
    memory to be written is the bytes from there on; a message is its frame. *)

From S2P Require Import Prelude Wire Codec.

(** ** The interface: what [T] gives to [encoder_base_t<T>] *)

(** The arguments of [next_step].  [T] stands for the pointer to the next step
    function together with the scratch buffer of the derived class. *)
Record estep (T : Type) : Type := EStep {
  es_write_pos : list Z;
  es_to_write : nat;
  es_next : T;
  es_new_msg : bool;
}.
Arguments EStep {T}.
Arguments es_write_pos {T}.
Arguments es_to_write {T}.
Arguments es_next {T}.
Arguments es_new_msg {T}.

Class Encoder (T : Type) := {
  e_scratch : nat;             (* the size of the scratch buffer *)
  e_init : list Z → T;         (* from its initial contents *)
  e_run : T → frame → estep T;
}.

(** The bytes a step and the one after it write. *)
Definition chunk {T} (s : estep T) : list Z := take (es_to_write s) (es_write_pos s).
Definition es_bytes {T} `{Encoder T} (s : estep T) (f : frame) : list Z :=
  chunk s ++ (if es_new_msg s then [] else chunk (e_run (es_next s) f)).
Definition es_ok {T} (s : estep T) : Prop := (es_to_write s ≤ length (es_write_pos s))%nat.

(** What [encoder_base_t] relies on: from an idle state one or two steps write
    the wire format of the message and lead to an idle state again. *)
Class EncoderLaws (T : Type) `{Encoder T} := {
  idle : T → Prop;
  wire : frame → list Z;
  idle_init junk : length junk = e_scratch → idle (e_init junk);
  run_ok t f : idle t → f_size f < 18446744073709551615 →
    let s := e_run t f in
    es_ok s ∧ es_bytes s f = wire f ∧
    if es_new_msg s then idle (es_next s)
    else let s' := e_run (es_next s) f in
         es_ok s' ∧ es_new_msg s' = true ∧ idle (es_next s');
}.

(** ** [encoder_base_t] *)

Record enc (T : Type) : Type := Enc {
  write_pos : list Z;
  to_write : nat;
  next : T;
  new_msg_flag : bool;
  buf_size : nat;
  in_progress : option frame;
}.
Arguments Enc {T}.
Arguments write_pos {T}.
Arguments to_write {T}.
Arguments next {T}.
Arguments new_msg_flag {T}.
Arguments buf_size {T}.
Arguments in_progress {T}.

Section encoder.
Context {T : Type} `{Encoder T}.

Definition next_step (s : estep T) (e : enc T) : enc T :=
  Enc (es_write_pos s) (es_to_write s) (es_next s) (es_new_msg s) (buf_size e) (in_progress e).

(** Construction: the derived class schedules its first step with no bytes. *)
Definition encoder_new (junk : list Z) (bufsize : nat) : enc T :=
  next_step (EStep [] 0 (e_init junk) true) (Enc [] 0 (e_init junk) false bufsize None).

Definition load_msg (f : frame) (e : enc T) : option (enc T) :=
  _ ← zmq_assert (bool_decide (in_progress e = None));
  let e := Enc (write_pos e) (to_write e) (next e) (new_msg_flag e) (buf_size e) (Some f) in
  Some (next_step (e_run (next e) f) e).

(** When there is nothing left to write: [None] when the message is done, else
    the state after the next step. *)
Definition refill (e : enc T) : option (option (enc T)) :=
  if decide (to_write e = 0%nat) then
    if new_msg_flag e then Some None
    else f ← in_progress e; Some (Some (next_step (e_run (next e) f) e))
  else Some (Some e).

Definition advance (n : nat) (e : enc T) : enc T :=
  Enc (drop n (write_pos e)) (to_write e - n) (next e) (new_msg_flag e) (buf_size e) (in_progress e).

(** The message is closed and given up. *)
Definition finish_msg (e : enc T) : enc T :=
  Enc (write_pos e) (to_write e) (next e) (new_msg_flag e) (buf_size e) None.

(** The bytes are handed out in place. *)
Definition detach (e : enc T) : enc T :=
  Enc [] 0 (next e) (new_msg_flag e) (buf_size e) (in_progress e).

(** The loop of [encode].  [own]: no buffer was supplied; [buffer] is what has
    been written so far.  The result tells whether the data were given in place. *)
Fixpoint encode_loop (fuel : nat) (own : bool) (buffersize : nat) (buffer : list Z)
    (e : enc T) : option (bool * list Z * enc T) :=
  match fuel with
  | O => None
  | S fuel =>
      if decide (length buffer < buffersize)%nat then
        r ← refill e;
        match r with
        | None => Some (false, buffer, finish_msg e)
        | Some e =>
            if bool_decide (buffer = []) && own && bool_decide (buffersize ≤ to_write e)%nat then
              Some (true, take (to_write e) (write_pos e), detach e)
            else
              let to_copy := Nat.min (to_write e) (buffersize - length buffer) in
              encode_loop fuel own buffersize (buffer ++ take to_copy (write_pos e))
                          (advance to_copy e)
        end
      else Some (false, buffer, e)
  end.

(** [encode]; [data] is the size of the supplied buffer, if there is one. *)
Definition encode (data : option nat) (e : enc T) : option (bool * list Z * enc T) :=
  if bool_decide (in_progress e = None) then Some (false, [], e)
  else encode_loop 5 (bool_decide (data = None)) (default (buf_size e) data) [] e.

(** ** [stream_engine_t::out_event]: filling the batch *)

(** [queue]: the messages [_next_msg] will give; [started]: [_outpos] is not
    NULL; [batch]: the bytes from [_outpos] on. *)
Fixpoint fill_batch (out_batch_size : nat) (started : bool) (batch : list Z) (e : enc T)
    (queue : list frame) : option (list Z * enc T * list frame) :=
  if decide (length batch < out_batch_size)%nat then
    match queue with
    | [] => Some (batch, e, [])
    | f :: queue =>
        e ← load_msg f e;
        '(_, bytes, e) ← encode (if started then Some (out_batch_size - length batch)%nat
                                 else None) e;
        _ ← zmq_assert (bool_decide (bytes ≠ []));
        fill_batch out_batch_size true (batch ++ bytes) e queue
    end
  else Some (batch, e, queue).

Definition out_event (out_batch_size : nat) (e : enc T) (queue : list frame) :
    option (list Z * enc T * list frame) :=
  '(_, bytes, e') ← encode None e;
  fill_batch out_batch_size (negb (bool_decide (in_progress e = None))) bytes e' queue.

(** ** Correctness *)

Context `{!EncoderLaws T}.

Record einv (e : enc T) : Prop := {
  ei_bound : (to_write e ≤ length (write_pos e))%nat;
  ei_step :
    match in_progress e with
    | None => to_write e = 0%nat ∧ idle (next e)
    | Some f =>
        if new_msg_flag e then idle (next e)
        else let s := e_run (next e) f in es_ok s ∧ es_new_msg s = true ∧ idle (es_next s)
    end;
}.

(** The bytes of the message in progress still to be written. *)
Definition pending (e : enc T) : list Z :=
  match in_progress e with
  | None => []
  | Some f => take (to_write e) (write_pos e) ++
              (if new_msg_flag e then [] else chunk (e_run (next e) f))
  end.

Lemma encoder_new_inv junk n : length junk = e_scratch → einv (encoder_new junk n).
Proof. split; simpl; [lia|]. split; [done|by apply idle_init]. Qed.

Lemma load_msg_spec e f :
  einv e → in_progress e = None → f_size f < 18446744073709551615 →
  ∃ e', load_msg f e = Some e' ∧ einv e' ∧ in_progress e' = Some f ∧ pending e' = wire f ∧
        buf_size e' = buf_size e.
Proof.
  intros [Hb Hs] Hn Hsize. rewrite Hn in Hs. destruct Hs as [_ Hidle].
  destruct (run_ok _ f Hidle Hsize) as (Hok & Hbytes & Hnext).
  unfold load_msg. rewrite bool_decide_eq_true_2 by done. eexists. split; [done|].
  split; [|split_and!; [done|exact Hbytes|done]]. split; [done|exact Hnext].
Qed.

(** What [refill] leaves to be written. *)
Lemma refill_spec e f :
  einv e → in_progress e = Some f →
  (refill e = Some None ∧ to_write e = 0%nat ∧ new_msg_flag e = true) ∨
  (∃ e', refill e = Some (Some e') ∧ einv e' ∧ in_progress e' = Some f ∧
         pending e' = pending e ∧ buf_size e' = buf_size e ∧
         (e' = e ∧ to_write e ≠ 0%nat ∨
          to_write e = 0%nat ∧ new_msg_flag e = false ∧ new_msg_flag e' = true)).
Proof.
  intros [Hb Hs] Hf. rewrite Hf in Hs. unfold refill.
  destruct (decide (to_write e = 0%nat)) as [H0|H0].
  - destruct (new_msg_flag e) eqn:Hflag; [by left|right].
    destruct Hs as (Hok & Hnew & Hidle). rewrite Hf. cbn [mbind option_bind].
    eexists. split; [done|]. split; [|split_and!; try done].
    + split; [done|]. cbn [next_step in_progress new_msg_flag next]. rewrite Hf, Hnew. done.
    + unfold pending. cbn [next_step in_progress to_write write_pos new_msg_flag next].
      rewrite Hf, Hflag, H0, Hnew, app_nil_r. done.
    + right. done.
  - right. exists e. split; [done|]. split; [split; [done|by rewrite Hf]|].
    split_and!; try done. by left.
Qed.

Lemma advance_spec e f n :
  einv e → in_progress e = Some f → (n ≤ to_write e)%nat →
  einv (advance n e) ∧ take n (write_pos e) ++ pending (advance n e) = pending e.
Proof.
  intros [Hb Hs] Hf Hn. rewrite Hf in Hs. split.
  - split; cbn [advance to_write write_pos in_progress new_msg_flag next].
    + rewrite length_drop. lia.
    + by rewrite Hf.
  - unfold pending; cbn [advance to_write write_pos in_progress new_msg_flag next]. rewrite Hf.
    rewrite app_assoc. f_equal. rewrite <- (take_drop n (take (to_write e) (write_pos e))).
    rewrite take_take, skipn_firstn_comm. do 2 f_equal. lia.
Qed.

(** How many iterations a call may still take. *)
Definition weight (e : enc T) : nat :=
  (if decide (to_write e = 0%nat) then 1 else 2) + (if new_msg_flag e then 0 else 2).

Lemma encode_loop_spec fuel own bs buffer e f :
  einv e → in_progress e = Some f → (0 < bs)%nat → (length buffer ≤ bs)%nat →
  ((if decide (length buffer < bs)%nat then weight e else 1) ≤ fuel)%nat →
  ∃ zc out e', encode_loop fuel own bs buffer e = Some (zc, out, e') ∧ einv e' ∧
    out ++ pending e' = buffer ++ pending e ∧ buf_size e' = buf_size e ∧
    (in_progress e' = None ∨ (bs ≤ length out)%nat) ∧ (length buffer ≤ length out)%nat.
Proof.
  revert buffer e. induction fuel as [|fuel IH]; intros buffer e He Hf Hbs Hlen Hfuel.
  { unfold weight in Hfuel. repeat case_decide; lia. }
  cbn [encode_loop]. destruct (decide (length buffer < bs)%nat) as [Hlt|Hge].
  2:{ exists false, buffer, e. split; [done|]. split_and!; try done; try lia. }
  destruct (refill_spec e f He Hf)
    as [(-> & H0 & Hflag)|(e1 & -> & He1 & Hf1 & Hp1 & Hs1 & Hcase)]; cbn [mbind option_bind].
  - exists false, buffer, (finish_msg e). split; [done|].
    assert (pending e = []) as -> by (unfold pending; by rewrite Hf, Hflag, H0).
    destruct He as [_ Hi]. rewrite Hf, Hflag in Hi.
    split_and!; try done; [|by left]. split; simpl; [lia|done].
  - rewrite <- Hp1, <- Hs1. destruct (bool_decide (buffer = []) && own && _) eqn:Ezc.
    + rewrite !andb_true_iff, !bool_decide_eq_true in Ezc. destruct Ezc as [[-> _] Hbig].
      do 3 eexists. split; [done|]. destruct He1 as [Hb1 Hi1]. rewrite Hf1 in Hi1.
      split; [split; simpl; [lia|by rewrite Hf1]|]. split; [|split; [done|]].
      * unfold pending, detach; cbn [in_progress to_write write_pos new_msg_flag next].
        by rewrite Hf1.
      * rewrite length_take. simpl. split; [right; lia|lia].
    + set (n := Nat.min (to_write e1) (bs - length buffer)).
      destruct (advance_spec e1 f n He1 Hf1 ltac:(lia)) as [Ha Hp].
      assert (length (take n (write_pos e1)) = n) as Hn.
      { rewrite length_take. pose proof (ei_bound _ He1). lia. }
      destruct (IH (buffer ++ take n (write_pos e1)) (advance n e1))
        as (zc & out & e' & -> & He' & Hout & Hsz & Hdone & Hle).
      * done.
      * done.
      * done.
      * rewrite length_app. lia.
      * rewrite length_app, Hn. unfold weight in *. cbn [advance to_write new_msg_flag].
        destruct Hcase as [[-> Hne]|(H0 & Hfl & Hfl')].
        -- destruct (decide (to_write e = 0%nat)); [done|].
           destruct (new_msg_flag e); repeat case_decide; lia.
        -- rewrite Hfl, H0 in Hfuel. rewrite Hfl'. repeat case_decide; simpl in *; lia.
      * exists zc, out, e'. split; [done|]. split_and!; try done.
        -- rewrite Hout, <- app_assoc. by f_equal.
        -- rewrite length_app in Hle. lia.
Qed.

(** One call of [encode]: the bytes it gives are the next ones, and it gives
    none only when the message is complete. *)
Lemma encode_spec data e :
  einv e → (0 < default (buf_size e) data)%nat →
  ∃ zc out e', encode data e = Some (zc, out, e') ∧ einv e' ∧
    out ++ pending e' = pending e ∧ buf_size e' = buf_size e ∧
    (in_progress e' = None ∨ (default (buf_size e) data ≤ length out)%nat).
Proof.
  intros He Hpos. unfold encode. destruct (in_progress e) as [f|] eqn:Hf.
  - rewrite bool_decide_eq_false_2 by done.
    destruct (encode_loop_spec 5 (bool_decide (data = None)) (default (buf_size e) data) [] e f)
      as (zc & out & e' & -> & ? & ? & ? & ? & _); try done.
    + simpl. lia.
    + unfold weight. repeat case_decide; destruct (new_msg_flag e); simpl; lia.
    + by exists zc, out, e'.
  - rewrite bool_decide_eq_true_2 by done. exists false, [], e. split; [done|].
    unfold pending. rewrite Hf. split_and!; try done. by left.
Qed.

(** The messages the engine may load: of a size that exists, and with at least
    one byte to write ([zmq_assert (n > 0)]). *)
Definition sendable (f : frame) : Prop := f_size f < 18446744073709551615 ∧ wire f ≠ [].

(** Bytes still to be written by the encoder and for the queued messages. *)
Definition backlog (e : enc T) (queue : list frame) : list Z := pending e ++ (queue ≫= wire).

Lemma fill_batch_spec size started batch e queue :
  einv e → Forall sendable queue → (0 < size)%nat → buf_size e = size →
  (in_progress e = None ∨ (size ≤ length batch)%nat) →
  ∃ batch' e' queue', fill_batch size started batch e queue = Some (batch', e', queue') ∧
    einv e' ∧ buf_size e' = size ∧ batch' ++ backlog e' queue' = batch ++ backlog e queue ∧
    ((size ≤ length batch')%nat ∨ in_progress e' = None ∧ queue' = []) ∧
    (∃ k, queue' = drop k queue).
Proof.
  revert started batch e. induction queue as [|f queue IH];
    intros started batch e He Hq Hsize Hbuf Hready; cbn [fill_batch].
  - destruct (decide _) as [Hlt|Hge].
    + exists batch, e, []. destruct Hready as [?|?]; [|lia].
      split_and!; try done; [by right|by exists 0%nat].
    + exists batch, e, []. split_and!; try done; [left; lia|by exists 0%nat].
  - destruct (decide _) as [Hlt|Hge].
    2:{ exists batch, e, (f :: queue). split_and!; try done; [left; lia|by exists 0%nat]. }
    destruct Hready as [Hnone|?]; [|lia]. apply Forall_cons in Hq as [[Hsz Hf] Hq].
    destruct (load_msg_spec e f He Hnone Hsz) as (e1 & -> & He1 & Hf1 & Hp1 & Hb1).
    cbn [mbind option_bind].
    assert (0 < default (buf_size e1) (if started then Some (size - length batch) else None))%nat.
    { destruct started; simpl; lia. }
    destruct (encode_spec (if started then Some (size - length batch)%nat else None) e1 He1)
      as (zc & out & e2 & -> & He2 & Hout & Hb2 & Hdone); [done|].
    cbn [mbind option_bind].
    assert (out ≠ []) as Hne.
    { intros ->. destruct Hdone as [Hd|Hd]; [|simpl in Hd; lia].
      unfold pending in Hout at 1. rewrite Hd, Hp1 in Hout. simpl in Hout. congruence. }
    rewrite bool_decide_eq_true_2 by done. cbn [zmq_assert mbind option_bind].
    destruct (IH true (batch ++ out) e2) as (batch' & e' & queue' & -> & He' & Hb' & Heq & Hr & k & Hk).
    + done.
    + done.
    + done.
    + congruence.
    + destruct Hdone as [?|Hd]; [by left|right]. rewrite length_app.
      destruct started; simpl in Hd; lia.
    + exists batch', e', queue'. split_and!; try done; [|by exists (S k)].
      rewrite Heq. unfold backlog. unfold pending at 2. rewrite Hnone.
      cbn [mbind list_bind app]. rewrite <- Hp1, <- Hout, <- !app_assoc. done.
Qed.

Lemma out_event_spec size e queue :
  einv e → Forall sendable queue → (0 < size)%nat → buf_size e = size →
  ∃ batch e' queue', out_event size e queue = Some (batch, e', queue') ∧
    einv e' ∧ buf_size e' = size ∧ batch ++ backlog e' queue' = backlog e queue ∧
    ((size ≤ length batch)%nat ∨ in_progress e' = None ∧ queue' = []) ∧
    (∃ k, queue' = drop k queue).
Proof.
  intros He Hq Hsize Hbuf. unfold out_event.
  destruct (encode_spec None e He) as (zc & out & e1 & -> & He1 & Hout & Hb1 & Hdone);
    [simpl; lia|]. cbn [mbind option_bind]. simpl in Hdone.
  destruct (fill_batch_spec size (negb (bool_decide (in_progress e = None))) out e1 queue)
    as (batch' & e' & queue' & -> & ? & ? & Heq & ? & ?); try done; [congruence|by rewrite <- Hbuf|].
  do 3 eexists. split; [done|]. split_and!; try done.
  rewrite Heq. unfold backlog. by rewrite <- Hout, <- !app_assoc.
Qed.

(** The bytes of repeated calls of [out_event], each batch written in full. *)
Fixpoint out_events (n : nat) (size : nat) (e : enc T) (queue : list frame) :
    option (list Z * enc T * list frame) :=
  match n with
  | O => Some ([], e, queue)
  | S n =>
      '(bytes, e, queue) ← out_event size e queue;
      '(rest, e, queue) ← out_events n size e queue;
      Some (bytes ++ rest, e, queue)
  end.

Lemma out_events_spec n size e queue :
  einv e → Forall sendable queue → (0 < size)%nat → buf_size e = size →
  ∃ bytes e' queue', out_events n size e queue = Some (bytes, e', queue') ∧
    bytes ++ backlog e' queue' = backlog e queue ∧
    ((n ≤ length bytes)%nat ∨ in_progress e' = None ∧ queue' = []).
Proof.
  revert e queue. induction n as [|n IH]; intros e queue He Hq Hsize Hbuf; cbn [out_events].
  { exists [], e, queue. split_and!; [done..|]. left. simpl. lia. }
  destruct (out_event_spec size e queue He Hq Hsize Hbuf)
    as (batch & e1 & q1 & -> & He1 & Hb1 & Heq1 & Hprog & k & ->). cbn [mbind option_bind].
  destruct (IH e1 (drop k queue)) as (rest & e2 & q2 & Hrun & Heq2 & Hprog2); try done.
  { by apply Forall_drop. }
  rewrite Hrun.   cbn [mbind option_bind]. exists (batch ++ rest), e2, q2. split; [done|]. split.
  - by rewrite <- app_assoc, Heq2.
  - rewrite length_app. destruct Hprog as [?|[Hn Hq1]].
    + destruct Hprog2 as [?|[? ?]]; [left; lia|by right].
    + right. destruct Hprog2 as [Hle|?]; [|done].
      assert (backlog e1 (drop k queue) = []) as Hbl by (unfold backlog, pending; by rewrite Hn, Hq1).
      rewrite Hbl in Heq2. apply app_eq_nil in Heq2 as [-> _].
      destruct n as [|n]; [|simpl in Hle; lia]. injection Hrun as <- <-. done.
Qed.
End encoder.

(** ** The encoders *)

(** Storing bytes at an offset of the scratch buffer. *)
Definition write_at (o : nat) (bs buf : list Z) : list Z :=
  take o buf ++ bs ++ drop (o + length bs) buf.

Inductive two_step : Type := message_ready | size_ready.

(** [v1_encoder_t] and [v2_encoder_t]: the scratch buffer and the next step. *)
Record v1_encoder : Type := V1Enc { v1_tmpbuf : list Z; v1_next : two_step }.
Record v2_encoder : Type := V2Enc { v2_tmp_buf : list Z; v2_next : two_step }.
(** [raw_encoder_t]: the only step is [raw_message_ready]. *)
Record raw_encoder : Type := RawEnc { }.

Definition v1_size_ready (t : v1_encoder) (f : frame) : estep v1_encoder :=
  EStep (f_data f) (length (f_data f)) (V1Enc (v1_tmpbuf t) message_ready) true.

Definition v1_message_ready (t : v1_encoder) (f : frame) : estep v1_encoder :=
  let size := u64 (f_size f + 1) in
  if size <? UCHAR_MAX then
    let tmp := write_at 0 [u8 size] (v1_tmpbuf t) in
    let tmp := write_at 1 [Z.land (f_flags f) flag_more] tmp in
    EStep tmp 2 (V1Enc tmp size_ready) false
  else
    let tmp := write_at 0 [UCHAR_MAX] (v1_tmpbuf t) in
    let tmp := write_at 1 (put_uint64 size) tmp in
    let tmp := write_at 9 [Z.land (f_flags f) flag_more] tmp in
    EStep tmp 10 (V1Enc tmp size_ready) false.

#[export] Instance v1_is_encoder : Encoder v1_encoder := {
  e_scratch := 10;
  e_init junk := V1Enc junk message_ready;
  e_run t f := match v1_next t with
               | message_ready => v1_message_ready t f
               | size_ready => v1_size_ready t f
               end;
}.

Definition v2_size_ready (t : v2_encoder) (f : frame) : estep v2_encoder :=
  EStep (f_data f) (length (f_data f)) (V2Enc (v2_tmp_buf t) message_ready) true.

Definition v2_message_ready (t : v2_encoder) (f : frame) : estep v2_encoder :=
  let flags := 0 in
  let flags := if flag_set (f_flags f) flag_more then Z.lor flags more_flag else flags in
  let flags := if UCHAR_MAX <? f_size f then Z.lor flags large_flag else flags in
  let flags := if flag_set (f_flags f) flag_command then Z.lor flags command_flag else flags in
  let tmp := write_at 0 [flags] (v2_tmp_buf t) in
  if UCHAR_MAX <? f_size f then
    let tmp := write_at 1 (put_uint64 (f_size f)) tmp in
    EStep tmp 9 (V2Enc tmp size_ready) false
  else
    let tmp := write_at 1 [u8 (f_size f)] tmp in
    EStep tmp 2 (V2Enc tmp size_ready) false.

#[export] Instance v2_is_encoder : Encoder v2_encoder := {
  e_scratch := 9;
  e_init junk := V2Enc junk message_ready;
  e_run t f := match v2_next t with
               | message_ready => v2_message_ready t f
               | size_ready => v2_size_ready t f
               end;
}.

Definition raw_message_ready (t : raw_encoder) (f : frame) : estep raw_encoder :=
  EStep (f_data f) (length (f_data f)) t true.

#[export] Instance raw_is_encoder : Encoder raw_encoder := {
  e_scratch := 0;
  e_init _ := RawEnc;
  e_run := raw_message_ready;
}.

Lemma length_write_at o bs buf :
  (o + length bs ≤ length buf)%nat → length (write_at o bs buf) = length buf.
Proof. intros. unfold write_at. rewrite !length_app, length_take, length_drop. lia. Qed.

Lemma chunk_data {T} (t : T) f b : chunk (EStep (f_data f) (length (f_data f)) t b) = f_data f.
Proof. apply firstn_all. Qed.

Lemma v1_header_chunk t f :
  length (v1_tmpbuf t) = 10%nat → f_size f < 18446744073709551615 →
  let s := v1_message_ready t f in
  chunk s = v1_header f ∧ es_ok s ∧ es_new_msg s = false ∧ v1_next (es_next s) = size_ready ∧
  length (v1_tmpbuf (es_next s)) = 10%nat.
Proof.
  intros Hlen Hsize s. pose proof (f_size_nonneg f). destruct t as [tmp st]; cbn [v1_tmpbuf] in Hlen.
  do 10 (destruct tmp as [|? tmp]; [done|]). destruct tmp; [|done].
  subst s. unfold v1_message_ready, v1_header, UCHAR_MAX, put_uint64. rewrite u64_small by lia.
  destruct (Z.ltb_spec (f_size f + 1) 255); [rewrite u8_small by lia|];
    split_and!; try done; unfold es_ok; simpl; lia.
Qed.

Lemma v2_header_chunk t f :
  length (v2_tmp_buf t) = 9%nat →
  let s := v2_message_ready t f in
  chunk s = v2_header f ∧ es_ok s ∧ es_new_msg s = false ∧ v2_next (es_next s) = size_ready ∧
  length (v2_tmp_buf (es_next s)) = 9%nat.
Proof.
  intros Hlen s. pose proof (f_size_nonneg f). destruct t as [tmp st]; cbn [v2_tmp_buf] in Hlen.
  do 9 (destruct tmp as [|? tmp]; [done|]). destruct tmp; [|done].
  subst s. unfold v2_message_ready, v2_header, v2_flags, put_uint64.
  destruct (Z.ltb_spec UCHAR_MAX (f_size f)); [|rewrite u8_small by (unfold UCHAR_MAX in *; lia)];
    destruct (flag_set (f_flags f) flag_more), (flag_set (f_flags f) flag_command);
    split_and!; try done; unfold es_ok; simpl; lia.
Qed.

#[export, refine] Instance v1_encoder_laws : EncoderLaws v1_encoder := {
  idle t := v1_next t = message_ready ∧ length (v1_tmpbuf t) = 10%nat;
  wire := v1_wire;
  idle_init := _;
  run_ok := _;
}.
Proof.
  - by intros junk.
  - intros t f [Hn Hlen] Hsize. cbn [e_run v1_is_encoder]. rewrite Hn.
    destruct (v1_header_chunk t f Hlen Hsize) as (Hc & Hok & Hnew & Hn' & Hlen').
    split; [done|]. unfold es_bytes. rewrite Hnew, Hc. cbn [e_run v1_is_encoder]. rewrite Hn'.
    split; [unfold v1_size_ready; by rewrite chunk_data|].
    split_and!; try done. unfold es_ok; simpl; lia.
Defined.

#[export, refine] Instance v2_encoder_laws : EncoderLaws v2_encoder := {
  idle t := v2_next t = message_ready ∧ length (v2_tmp_buf t) = 9%nat;
  wire := v2_wire;
  idle_init := _;
  run_ok := _;
}.
Proof.
  - by intros junk.
  - intros t f [Hn Hlen] _. cbn [e_run v2_is_encoder]. rewrite Hn.
    destruct (v2_header_chunk t f Hlen) as (Hc & Hok & Hnew & Hn' & Hlen').
    split; [done|]. unfold es_bytes. rewrite Hnew, Hc. cbn [e_run v2_is_encoder]. rewrite Hn'.
    split; [unfold v2_size_ready; by rewrite chunk_data|].
    split_and!; try done. unfold es_ok; simpl; lia.
Defined.

#[export, refine] Instance raw_encoder_laws : EncoderLaws raw_encoder := {
  idle _ := True;
  wire := f_data;
  idle_init := _;
  run_ok := _;
}.
Proof.
  - done.
  - intros t f _ _. split; [unfold es_ok; simpl; lia|]. split; [|done].
    unfold es_bytes. cbn [e_run raw_is_encoder raw_message_ready es_new_msg].
    rewrite app_nil_r. apply (chunk_data t f true).
Defined.

(** ** Properties *)

(** Whatever the encoder (ZMTP/1.0, ZMTP/2.0, raw), a fresh encoder fed by
    the engine's batch loop puts on the wire exactly the messages of the queue,
    in order and in their wire format: after any number of [out_event] calls the
    bytes given so far followed by the backlog are that sequence, no assertion
    fails, every call makes progress, and enough calls write everything. *)
Theorem encoder_stream {T} `{EncoderLaws T} n size junk queue
  (Hjunk : length junk = e_scratch) (Hsize : (0 < size)%nat) (Hq : Forall sendable queue) :
  ∃ bytes e' queue', out_events n size (encoder_new junk size) queue = Some (bytes, e', queue') ∧
    bytes ++ backlog e' queue' = queue ≫= wire ∧
    ((length (queue ≫= wire) < n)%nat → bytes = queue ≫= wire ∧ in_progress e' = None ∧ queue' = []).
Proof.
  pose proof (encoder_new_inv junk size Hjunk) as He.
  destruct (out_events_spec n size _ queue He Hq Hsize eq_refl)
    as (bytes & e' & queue' & Hrun & Heq & Hprog).
  exists bytes, e', queue'. split; [done|]. split; [exact Heq|].
  intros Hn. change (backlog (encoder_new junk size) queue) with (queue ≫= wire) in Heq.
  destruct Hprog as [Hle|[Hnone ->]].
  - apply (f_equal length) in Heq. rewrite length_app in Heq. lia.
  - split; [|done]. rewrite <- Heq. unfold backlog, pending. rewrite Hnone. simpl.
    by rewrite app_nil_r.
Qed.

Lemma encoder_stream_witness :
  let queue := [Frame 1 [65; 66]; Frame 0 (replicate 300 7)] in
  ∃ bytes e' queue', out_events 400 8 (encoder_new (T := v2_encoder) (replicate 9 0) 8) queue = Some (bytes, e', queue') ∧
    bytes = queue ≫= v2_wire.
Proof.
  intros queue.
  destruct (@encoder_stream v2_encoder v2_is_encoder v2_encoder_laws 400 8 (replicate 9 0) queue eq_refl ltac:(lia))
    as (bytes & e' & queue' & Hrun & _ & Hall).
  - repeat constructor; done.
  - exists bytes, e', queue'. split; [exact Hrun|]. apply Hall. apply Nat.ltb_lt; vm_compute; reflexivity.
Defined.
