(* ===== verification/Allocator.v ===== *)
(** * Receive buffers (src/decoder_allocators.hpp, decoder_allocators.cpp)

    [c_single_allocator] keeps one buffer for ever.
    [shared_message_memory_allocator] hands out buffers that zero-copy messages
    keep alive: a counter at the start of the buffer counts the allocator's own
    reference and those messages.  Memory is a map from live buffers to their
    counters; freed buffers leave it, so using one gives [None]. *)

From S2P Require Import Prelude.

(** ** [c_single_allocator] *)

Record c_single_allocator : Type := CSingle {
  cs_buf_size : nat;
  cs_malloced : nat;           (* bytes [_buf] points to *)
}.

Definition cs_new (bufsize : nat) : c_single_allocator := CSingle bufsize bufsize.
Definition cs_allocate (a : c_single_allocator) : c_single_allocator := a.
Definition cs_deallocate (a : c_single_allocator) : c_single_allocator := a.
Definition cs_size (a : c_single_allocator) : nat := cs_buf_size a.
Definition cs_resize (new_size : nat) (a : c_single_allocator) : c_single_allocator :=
  CSingle new_size (cs_malloced a).

(** ** [shared_message_memory_allocator] *)

Definition max_vsm_size : nat := 33.

Record shared_allocator : Type := Shared {
  sa_mem : gmap nat Z;              (* counters of the live buffers *)
  sa_buf : option nat;              (* [_buf] *)
  sa_buf_size : nat;
  sa_max_size : nat;
  sa_msg_content : option nat;      (* [_msg_content], an index into the counters *)
  sa_max_counters : nat;
}.

(** [ceil (bufsize / max_vsm_size)] counters, or as many as asked for. *)
Definition sa_new (bufsize : nat) : shared_allocator :=
  Shared ∅ None 0 bufsize None ((bufsize + (max_vsm_size - 1)) / max_vsm_size).
Definition sa_new_messages (bufsize max_messages : nat) : shared_allocator :=
  Shared ∅ None 0 bufsize None max_messages.

Definition with_mem (f : gmap nat Z → gmap nat Z) (a : shared_allocator) : shared_allocator :=
  Shared (f (sa_mem a)) (sa_buf a) (sa_buf_size a) (sa_max_size a) (sa_msg_content a)
         (sa_max_counters a).

Definition sa_clear (a : shared_allocator) : shared_allocator :=
  Shared (sa_mem a) None 0 (sa_max_size a) None (sa_max_counters a).

(** [release]: the buffer is left to its messages. *)
Definition sa_release (a : shared_allocator) : option nat * shared_allocator :=
  (sa_buf a, sa_clear a).

(** [atomic_counter_t::sub (1)] on the counter of buffer [b]: [false] at zero. *)
Definition buf_sub (b : nat) (a : shared_allocator) : option (bool * shared_allocator) :=
  v ← sa_mem a !! b;
  let v := u32 (v - 1) in
  Some (negb (v =? 0), with_mem (insert b v) a).

Definition sa_allocate (a : shared_allocator) : option shared_allocator :=
  a ← match sa_buf a with
      | Some b =>
          '(alive, a) ← buf_sub b a;
          Some (if alive : bool then (sa_release a).2 else a)
      | None => Some a
      end;
  '(b, a) ← match sa_buf a with
            | None => let b := fresh (dom (sa_mem a)) in Some (b, with_mem (insert b 1) a)
            | Some b => _ ← sa_mem a !! b; Some (b, with_mem (insert b 1) a)
            end;
  Some (Shared (sa_mem a) (Some b) (sa_max_size a) (sa_max_size a) (Some 0%nat)
               (sa_max_counters a)).

Definition sa_deallocate (a : shared_allocator) : option shared_allocator :=
  a ← match sa_buf a with
      | Some b =>
          '(alive, a) ← buf_sub b a;
          Some (if alive : bool then a else with_mem (delete b) a)
      | None => Some a
      end;
  Some (sa_clear a).

Definition sa_inc_ref (a : shared_allocator) : option shared_allocator :=
  b ← sa_buf a;
  v ← sa_mem a !! b;
  Some (with_mem (insert b (u32 (v + 1))) a).

(** [call_dec_ref], the deallocation function of the zero-copy messages. *)
Definition sa_call_dec_ref (b : nat) (a : shared_allocator) : option shared_allocator :=
  '(alive, a) ← buf_sub b a;
  Some (if alive : bool then a else with_mem (delete b) a).

Definition sa_size (a : shared_allocator) : nat := sa_buf_size a.
Definition sa_resize (new_size : nat) (a : shared_allocator) : shared_allocator :=
  Shared (sa_mem a) (sa_buf a) new_size (sa_max_size a) (sa_msg_content a) (sa_max_counters a).

(** [provide_content]; there is no counter past the last one. *)
Definition sa_provide_content (a : shared_allocator) : option nat :=
  k ← sa_msg_content a;
  _ ← zmq_assert (bool_decide (k < sa_max_counters a)%nat);
  Some k.
Definition sa_advance_content (a : shared_allocator) : shared_allocator :=
  Shared (sa_mem a) (sa_buf a) (sa_buf_size a) (sa_max_size a) (S <$> sa_msg_content a)
         (sa_max_counters a).

(** A zero-copy message on the current buffer takes a counter and a reference. *)
Definition sa_new_message (a : shared_allocator) : option shared_allocator :=
  _ ← sa_provide_content a;
  sa_inc_ref (sa_advance_content a).

(** [raw_decoder_t::decode]: the message takes over the allocator's reference. *)
Definition sa_raw_message (a : shared_allocator) : option shared_allocator :=
  _ ← sa_provide_content a;
  Some (sa_release (sa_advance_content a)).2.

(** ** Buffers are not reused under a message *)

(** What the decoders and the messages do with the allocator. *)
Inductive aop : Type :=
| AAllocate
| AMessage             (* a message on the current buffer *)
| ARawMessage          (* a message that takes the current buffer over *)
| AClose (b : nat)     (* a message on buffer [b] is closed *)
| ADeallocate.

(** [live]: the buffers of the messages not closed yet. *)
Record astate : Type := AState { al : shared_allocator; live : list nat }.

Definition on_buf (b b' : nat) : bool := bool_decide (b' = b).

Fixpoint remove_one (b : nat) (l : list nat) : list nat :=
  match l with
  | [] => []
  | x :: l => if decide (x = b) then l else x :: remove_one b l
  end.

Definition astep (o : aop) (s : astate) : option astate :=
  match o with
  | AAllocate => a ← sa_allocate (al s); Some (AState a (live s))
  | AMessage =>
      match sa_buf (al s), sa_msg_content (al s) with
      | Some b, Some k =>
          if decide ((k < sa_max_counters (al s))%nat ∧ Z.of_nat (length (live s)) < 4294967294) then
            a ← sa_new_message (al s); Some (AState a (b :: live s))
          else Some s
      | _, _ => Some s
      end
  | ARawMessage =>
      match sa_buf (al s), sa_msg_content (al s) with
      | Some b, Some k =>
          if decide ((k < sa_max_counters (al s))%nat ∧ Z.of_nat (length (live s)) < 4294967294) then
            a ← sa_raw_message (al s); Some (AState a (b :: live s))
          else Some s
      | _, _ => Some s
      end
  | AClose b =>
      if decide (b ∈ live s) then
        a ← sa_call_dec_ref b (al s); Some (AState a (remove_one b (live s)))
      else Some s
  | ADeallocate => a ← sa_deallocate (al s); Some (AState a (live s))
  end.

Fixpoint arun (os : list aop) (s : astate) : option astate :=
  match os with
  | [] => Some s
  | o :: os => s ← astep o s; arun os s
  end.

(** The counter of every buffer in memory is the number of its messages, plus
    one for the allocator's current buffer; buffers nobody refers to are freed. *)
Record ainv (s : astate) : Prop := {
  ai_count : ∀ b v, sa_mem (al s) !! b = Some v →
    v = count (on_buf b) (live s) + b2z (bool_decide (sa_buf (al s) = Some b)) ∧ 1 ≤ v;
  ai_live : ∀ b, b ∈ live s ∨ sa_buf (al s) = Some b → is_Some (sa_mem (al s) !! b);
  ai_bound : Z.of_nat (length (live s)) < 4294967295;
}.

Lemma elem_on_buf b l : b ∈ l ↔ 1 ≤ count (on_buf b) l.
Proof.
  split.
  - intros H. apply (count_elem _ _ _ H). by apply bool_decide_eq_true.
  - induction l as [|x l IH]; simpl; [lia|]. unfold on_buf at 1.
    destruct (bool_decide_reflect (x = b)) as [->|]; simpl; intros; [by left|right]. apply IH. lia.
Qed.

Lemma count_on_buf_cons b x l :
  count (on_buf b) (x :: l) = count (on_buf b) l + b2z (bool_decide (x = b)).
Proof. simpl. unfold on_buf at 1. lia. Qed.

Lemma count_remove_one b x l :
  x ∈ l → count (on_buf b) (remove_one x l) = count (on_buf b) l - b2z (bool_decide (x = b)).
Proof.
  induction l as [|y l IH]; [by intros ?%elem_of_nil|]. intros Hin. cbn [remove_one].
  destruct (decide (y = x)) as [->|Hne].
  - rewrite count_on_buf_cons. lia.
  - rewrite !count_on_buf_cons, IH by set_solver. lia.
Qed.

Lemma length_remove_one x l : x ∈ l → length l = S (length (remove_one x l)).
Proof.
  induction l as [|y l IH]; [by intros ?%elem_of_nil|]. intros Hin. cbn [remove_one].
  destruct (decide (y = x)) as [->|Hne]; [done|]. simpl. rewrite <- IH; set_solver.
Qed.

Lemma elem_remove_one b x l : b ∈ remove_one x l → b ∈ l.
Proof.
  induction l as [|y l IH]; cbn [remove_one]; [done|].
  destruct (decide (y = x)); [by right|]. set_solver.
Qed.

Lemma ainv_bound s b v : ainv s → sa_mem (al s) !! b = Some v → 1 ≤ v < 4294967296.
Proof.
  intros [Hc _ Hb] Hv. destruct (Hc _ _ Hv) as [-> ?].
  pose proof (count_le_length (on_buf b) (live s)). destruct (bool_decide _); simpl in *; lia.
Qed.

(** A change of the counter of one buffer, of its messages and of the current
    buffer; the buffer is freed when nothing refers to it any more. *)
Lemma ainv_change s b v mem l buf size maxs mc maxc :
  ainv s →
  (∀ b', b' ≠ b → mem !! b' = sa_mem (al s) !! b' ∧
     count (on_buf b') l = count (on_buf b') (live s) ∧
     (buf = Some b' ↔ sa_buf (al s) = Some b')) →
  v = count (on_buf b) l + b2z (bool_decide (buf = Some b)) →
  mem !! b = (if decide (1 ≤ v) then Some v else None) →
  Z.of_nat (length l) < 4294967295 →
  ainv (AState (Shared mem buf size maxs mc maxc) l).
Proof.
  intros [Hc Hl Hb] Hother Hv Hmem Hlen. pose proof (count_nonneg (on_buf b) l).
  split; cbn [al live sa_mem sa_buf].
  - intros b' v'. destruct (decide (b' = b)) as [->|Hne].
    + rewrite Hmem. destruct (decide (1 ≤ v)); [|done]. intros [= <-]. done.
    + destruct (Hother _ Hne) as (-> & -> & Hbuf). intros Hv'. destruct (Hc _ _ Hv') as [-> ?].
      by rewrite (bool_decide_ext _ _ Hbuf).
  - intros b' Hin. destruct (decide (b' = b)) as [->|Hne].
    + rewrite Hmem, decide_True; [by eexists|]. rewrite Hv. destruct Hin as [Hin%elem_on_buf| ->].
      * destruct (bool_decide _); simpl; lia.
      * rewrite bool_decide_eq_true_2 by done. simpl. lia.
    + destruct (Hother _ Hne) as (-> & Hcount & Hbuf). apply Hl.
      destruct Hin as [Hin|Hin]; [left|right; by apply Hbuf].
      apply elem_on_buf. rewrite <- Hcount. by apply elem_on_buf.
  - done.
Qed.

Lemma buf_sub_spec s b :
  ainv s → (b ∈ live s ∨ sa_buf (al s) = Some b) →
  ∃ v, sa_mem (al s) !! b = Some v ∧ 1 ≤ v < 4294967296 ∧
    buf_sub b (al s) = Some (negb (v - 1 =? 0), with_mem (insert b (v - 1)) (al s)).
Proof.
  intros Hinv Hin. destruct (ai_live _ Hinv b Hin) as [v Hv].
  pose proof (ainv_bound _ _ _ Hinv Hv). exists v. split; [done|]. split; [done|].
  unfold buf_sub. rewrite Hv. cbn [mbind option_bind]. by rewrite u32_small by lia.
Qed.

Lemma close_inv s b :
  ainv s → b ∈ live s →
  ∃ a, sa_call_dec_ref b (al s) = Some a ∧ ainv (AState a (remove_one b (live s))).
Proof.
  intros Hinv Hin. destruct (buf_sub_spec s b Hinv (or_introl Hin)) as (v & Hv & Hr & Hsub).
  unfold sa_call_dec_ref. rewrite Hsub. cbn [mbind option_bind].
  destruct (ai_count _ Hinv _ _ Hv) as [Heq _].
  eexists. split; [done|].
  assert (∀ mem, mem !! b = (if decide (1 ≤ v - 1) then Some (v - 1) else None) →
    (∀ b', b' ≠ b → mem !! b' = sa_mem (al s) !! b') →
    ainv (AState (with_mem (λ _, mem) (al s)) (remove_one b (live s)))) as Hgoal.
  { intros mem Hm Hm'. apply (ainv_change s b (v - 1)); try done.
    - intros b' Hne. split; [by apply Hm'|]. split; [|done].
      rewrite count_remove_one, bool_decide_eq_false_2 by done. simpl. lia.
    - rewrite count_remove_one, Heq, (bool_decide_eq_true_2 (b = b)) by done. simpl. lia.
    - pose proof (ai_bound _ Hinv). rewrite (length_remove_one _ _ Hin) in H. lia. }
  destruct (Z.eqb_spec (v - 1) 0); cbn [negb].
  - apply (Hgoal (delete b (<[b:=v - 1]> (sa_mem (al s))))).
    + rewrite decide_False by lia. apply lookup_delete_eq.
    + intros b' Hne. by rewrite lookup_delete_ne, lookup_insert_ne.
  - apply (Hgoal (<[b:=v - 1]> (sa_mem (al s)))).
    + rewrite decide_True by lia. apply lookup_insert_eq.
    + intros b' Hne. by rewrite lookup_insert_ne.
Qed.

Lemma message_inv s b k :
  ainv s → sa_buf (al s) = Some b → sa_msg_content (al s) = Some k →
  (k < sa_max_counters (al s))%nat → Z.of_nat (length (live s)) < 4294967294 →
  ∃ a, sa_new_message (al s) = Some a ∧ ainv (AState a (b :: live s)).
Proof.
  intros Hinv Hb Hk Hlt Hlen. unfold sa_new_message, sa_provide_content. rewrite Hk.
  cbn [mbind option_bind]. rewrite bool_decide_eq_true_2 by done.
  cbn [zmq_assert mbind option_bind]. unfold sa_inc_ref. cbn [sa_advance_content sa_buf sa_mem].
  rewrite Hb. cbn [mbind option_bind].
  destruct (ai_live _ Hinv b (or_intror Hb)) as [v Hv]. rewrite Hv. cbn [mbind option_bind].
  destruct (ai_count _ Hinv _ _ Hv) as [Heq ?].
  assert (v < 4294967295).
  { rewrite Heq. pose proof (count_le_length (on_buf b) (live s)).
    destruct (bool_decide _); simpl; lia. }
  rewrite u32_small by lia. eexists. split; [done|].
  apply (ainv_change s b (v + 1)); [done|..].
  - intros b' Hne. cbn [sa_mem with_mem]. rewrite lookup_insert_ne by done. split; [done|].
    rewrite count_on_buf_cons, bool_decide_eq_false_2 by done. split; [simpl; lia|].
    cbn [sa_buf with_mem sa_advance_content]. done.
  - rewrite count_on_buf_cons, (bool_decide_eq_true_2 (b = b)) by done. rewrite Heq. simpl. lia.
  - cbn [sa_mem with_mem]. rewrite lookup_insert_eq. by rewrite decide_True by lia.
  - simpl. lia.
Qed.

Lemma raw_message_inv s b k :
  ainv s → sa_buf (al s) = Some b → sa_msg_content (al s) = Some k →
  (k < sa_max_counters (al s))%nat → Z.of_nat (length (live s)) < 4294967294 →
  ∃ a, sa_raw_message (al s) = Some a ∧ ainv (AState a (b :: live s)).
Proof.
  intros Hinv Hb Hk Hlt Hlen. unfold sa_raw_message, sa_provide_content. rewrite Hk.
  cbn [mbind option_bind]. rewrite bool_decide_eq_true_2 by done.
  cbn [zmq_assert mbind option_bind]. eexists. split; [done|].
  destruct (ai_live _ Hinv b (or_intror Hb)) as [v Hv].
  destruct (ai_count _ Hinv _ _ Hv) as [Heq ?]. rewrite bool_decide_eq_true_2 in Heq by done.
  apply (ainv_change s b v); [done|..].
  - intros b' Hne. split; [done|]. rewrite count_on_buf_cons, bool_decide_eq_false_2 by done.
    split; [simpl; lia|]. rewrite Hb. split; congruence.
  - rewrite count_on_buf_cons, (bool_decide_eq_true_2 (b = b)) by done.
    rewrite bool_decide_eq_false_2 by done. rewrite Heq. simpl. lia.
  - cbn. by rewrite decide_True.
  - simpl. lia.
Qed.

Lemma release_inv s b :
  ainv s → sa_buf (al s) = Some b →
  ∃ v, sa_mem (al s) !! b = Some v ∧ v = count (on_buf b) (live s) + 1 ∧ 1 ≤ v < 4294967296.
Proof.
  intros Hinv Hb. destruct (ai_live _ Hinv b (or_intror Hb)) as [v Hv].
  exists v. split; [done|]. destruct (ai_count _ Hinv _ _ Hv) as [Heq _].
  rewrite bool_decide_eq_true_2 in Heq by done. split; [done|]. by eapply ainv_bound.
Qed.

Lemma allocate_fresh s :
  ainv s → sa_buf (al s) = None →
  let b := fresh (dom (sa_mem (al s))) in
  b ∉ live s ∧ ∀ size maxs mc maxc,
  ainv (AState (Shared (<[b:=1]> (sa_mem (al s))) (Some b) size maxs mc maxc) (live s)).
Proof.
  intros Hinv Hnone b.
  assert (sa_mem (al s) !! b = None) as Hfresh by (apply not_elem_of_dom, is_fresh).
  assert (b ∉ live s) as Hnin.
  { intros Hin. destruct (ai_live _ Hinv b (or_introl Hin)). congruence. }
  assert (count (on_buf b) (live s) = 0) as H0.
  { pose proof (count_nonneg (on_buf b) (live s)). rewrite elem_on_buf in Hnin. lia. }
  split; [done|]. intros size maxs mc maxc. apply (ainv_change s b 1); [done|..].
  - intros b' Hne. rewrite lookup_insert_ne by done. split; [done|]. split; [done|].
    rewrite Hnone. split; congruence.
  - by rewrite H0, bool_decide_eq_true_2.
  - by rewrite lookup_insert_eq.
  - apply (ai_bound _ Hinv).
Qed.

Lemma allocate_inv s :
  ainv s →
  ∃ a b, sa_allocate (al s) = Some a ∧ sa_buf a = Some b ∧ b ∉ live s ∧
    sa_buf_size a = sa_max_size (al s) ∧ sa_max_size a = sa_max_size (al s) ∧
    sa_msg_content a = Some 0%nat ∧ sa_max_counters a = sa_max_counters (al s) ∧
    ainv (AState a (live s)).
Proof.
  intros Hinv. unfold sa_allocate. destruct (sa_buf (al s)) as [b|] eqn:Hb.
  - destruct (release_inv s b Hinv Hb) as (v & Hv & Heq & Hr).
    pose proof (count_nonneg (on_buf b) (live s)).
    unfold buf_sub. rewrite Hv. cbn [mbind option_bind]. rewrite u32_small by lia.
    destruct (Z.eqb_spec (v - 1) 0) as [H0|H0]; cbn [negb].
    + cbn [mbind option_bind sa_buf with_mem sa_mem]. rewrite Hb. cbn [mbind option_bind].
      rewrite lookup_insert_eq. cbn [mbind option_bind]. do 2 eexists. split; [done|].
      split_and!; try done.
      * rewrite elem_on_buf. lia.
      * apply (ainv_change s b 1); [done|..].
        -- intros b' Hne. cbn [sa_mem with_mem]. rewrite !lookup_insert_ne by done.
           split; [done|]. split; [done|]. rewrite Hb. done.
        -- rewrite bool_decide_eq_true_2 by done. simpl. lia.
        -- cbn [sa_mem with_mem]. by rewrite lookup_insert_eq.
        -- apply (ai_bound _ Hinv).
    + assert (ainv (AState (sa_clear (with_mem (insert b (v - 1)) (al s))) (live s))) as Hinv1.
      { apply (ainv_change s b (v - 1)); [done|..].
        - intros b' Hne. cbn [sa_mem with_mem]. rewrite lookup_insert_ne by done.
          split; [done|]. split; [done|]. rewrite Hb. split; congruence.
        - rewrite bool_decide_eq_false_2 by done. simpl. lia.
        - cbn [sa_mem with_mem]. rewrite lookup_insert_eq. by rewrite decide_True by lia.
        - apply (ai_bound _ Hinv). }
      destruct (allocate_fresh _ Hinv1 eq_refl) as [Hnin Hinv2].
      cbn [mbind option_bind]. cbn [sa_release snd sa_clear sa_buf al live sa_mem] in *.
      do 2 eexists. split; [done|]. split_and!; try done; apply Hinv2.
  - cbn [mbind option_bind]. rewrite Hb. destruct (allocate_fresh _ Hinv Hb) as [Hnin Hinv2].
    cbn [mbind option_bind]. do 2 eexists. split; [done|]. split_and!; try done; apply Hinv2.
Qed.

Lemma deallocate_inv s :
  ainv s → ∃ a, sa_deallocate (al s) = Some a ∧ sa_buf a = None ∧ ainv (AState a (live s)).
Proof.
  intros Hinv. unfold sa_deallocate. destruct (sa_buf (al s)) as [b|] eqn:Hb.
  - destruct (release_inv s b Hinv Hb) as (v & Hv & Heq & Hr).
    pose proof (count_nonneg (on_buf b) (live s)).
    unfold buf_sub. rewrite Hv. cbn [mbind option_bind]. rewrite u32_small by lia.
    eexists. split; [done|]. split; [by destruct (negb _)|].
    assert (∀ mem, mem !! b = (if decide (1 ≤ v - 1) then Some (v - 1) else None) →
      (∀ b', b' ≠ b → mem !! b' = sa_mem (al s) !! b') →
      ainv (AState (sa_clear (with_mem (λ _, mem) (al s))) (live s))) as Hgoal.
    { intros mem Hm Hm'. apply (ainv_change s b (v - 1)); try done.
      - intros b' Hne. split; [by apply Hm'|]. split; [done|]. rewrite Hb. split; congruence.
      - rewrite bool_decide_eq_false_2 by done. simpl. lia.
      - apply (ai_bound _ Hinv). }
    destruct (Z.eqb_spec (v - 1) 0); cbn [negb].
    + apply (Hgoal (delete b (<[b:=v - 1]> (sa_mem (al s))))).
      * rewrite decide_False by lia. apply lookup_delete_eq.
      * intros b' Hne. by rewrite lookup_delete_ne, lookup_insert_ne.
    + apply (Hgoal (<[b:=v - 1]> (sa_mem (al s)))).
      * rewrite decide_True by lia. apply lookup_insert_eq.
      * intros b' Hne. by rewrite lookup_insert_ne.
  - cbn [mbind option_bind]. eexists. split; [done|]. split; [done|].
    destruct Hinv as [Hc Hl Hbd]. split; [|intros b [?|?]; [|done]|done].
    + intros b v Hv. cbn [sa_buf sa_clear live al sa_mem] in *. by rewrite <- Hb; apply Hc.
    + cbn [sa_buf sa_clear live al sa_mem] in *. apply Hl. by left.
Qed.

Lemma astep_inv o s : ainv s → ∃ s', astep o s = Some s' ∧ ainv s'.
Proof.
  intros Hinv. destruct o as [| | |b|]; cbn [astep].
  - destruct (allocate_inv s Hinv) as (a & b & -> & ? & ? & ? & ? & ? & ? & ?).
    cbn [mbind option_bind]. eauto.
  - destruct (sa_buf (al s)) as [b|] eqn:Hb; [|eauto].
    destruct (sa_msg_content (al s)) as [k|] eqn:Hk; [|eauto].
    destruct (decide _) as [[Hlt Hlen]|]; [|eauto].
    destruct (message_inv s b k Hinv Hb Hk Hlt Hlen) as (a & -> & ?).
    cbn [mbind option_bind]. eauto.
  - destruct (sa_buf (al s)) as [b|] eqn:Hb; [|eauto].
    destruct (sa_msg_content (al s)) as [k|] eqn:Hk; [|eauto].
    destruct (decide _) as [[Hlt Hlen]|]; [|eauto].
    destruct (raw_message_inv s b k Hinv Hb Hk Hlt Hlen) as (a & -> & ?).
    cbn [mbind option_bind]. eauto.
  - destruct (decide (b ∈ live s)) as [Hin|]; [|eauto].
    destruct (close_inv s b Hinv Hin) as (a & -> & ?). cbn [mbind option_bind]. eauto.
  - destruct (deallocate_inv s Hinv) as (a & -> & _ & ?). cbn [mbind option_bind]. eauto.
Qed.

Lemma arun_inv os s : ainv s → ∃ s', arun os s = Some s' ∧ ainv s'.
Proof.
  revert s. induction os as [|o os IH]; intros s Hinv; cbn [arun]; [eauto|].
  destruct (astep_inv o s Hinv) as (s1 & -> & Hinv1). cbn [mbind option_bind]. by apply IH.
Qed.

Lemma sa_new_inv bufsize : ainv (AState (sa_new bufsize) []).
Proof.
  split; [|intros b [?%elem_of_nil|?]; done|done]. intros b v.
  cbn [al sa_new sa_mem]. by rewrite lookup_empty.
Qed.

(** Under any interleaving of buffer requests, zero-copy messages created and
    closed (in any order, also after the decoder is gone) the allocator never
    touches a freed buffer, and a request succeeds with a buffer no live message
    lies in; once the allocator has let go and all messages are closed, every
    buffer has been freed. *)
Theorem allocator_safe os bufsize :
  ∃ s, arun os (AState (sa_new bufsize) []) = Some s ∧
    (∀ b, b ∈ live s → is_Some (sa_mem (al s) !! b)) ∧
    (∃ a b, sa_allocate (al s) = Some a ∧ sa_buf a = Some b ∧ b ∉ live s) ∧
    (sa_buf (al s) = None → live s = [] → sa_mem (al s) = ∅).
Proof.
  destruct (arun_inv os _ (sa_new_inv bufsize)) as (s & Hrun & Hinv).
  exists s. split; [done|]. split_and!.
  - intros b Hb. apply (ai_live _ Hinv). by left.
  - destruct (allocate_inv s Hinv) as (a & b & ? & ? & ? & _). by exists a, b.
  - intros Hb Hl. apply map_empty. intros b. destruct (sa_mem (al s) !! b) as [v|] eqn:E; [|done].
    destruct (ai_count _ Hinv _ _ E) as [-> Hpos]. rewrite Hb, Hl in Hpos.
    rewrite bool_decide_eq_false_2 in Hpos by done. simpl in Hpos. lia.
Qed.
