(* ===== verification/Decoder.v ===== *)
(** * Decoders (src/decoder.hpp and stream_engine_t::in_event)

    [decoder_base_t<T, A>] over a class of step functions and allocators, with
    the memory its pointers lead to written out: the scratch buffer of the
    derived class, the data of the message in progress and the current receive
    buffer.  A write outside them gives [None].  [receive] is the input loop of
    the engine.  The refinement to a byte-at-a-time [Parser] is proved once, for
    every derived class that satisfies [DecoderLaws]. *)

From S2P Require Import Prelude Codec.

(** ** Pointers and memory *)

Inductive ptr : Type :=
| PTmp (o : nat)        (* into [_tmpbuf] *)
| PMsg (o : nat)        (* into the data of the message in progress *)
| PArena (o : nat).     (* into the receive buffer *)

#[global] Instance ptr_eq_dec : EqDecision ptr.
Proof. solve_decision. Defined.

Definition ptr_add (p : ptr) (n : nat) : ptr :=
  match p with
  | PTmp o => PTmp (o + n)
  | PMsg o => PMsg (o + n)
  | PArena o => PArena (o + n)
  end.

(** Where the data of the message in progress are: in memory of its own, or in
    [n] bytes of the receive buffer. *)
Inductive storage : Type :=
| SOwn (bytes : list Z)
| SArena (o n : nat).

Record dmsg : Type := DMsg { dm_flags : Z; dm_store : storage }.

(** [msg_t::init ()] *)
Definition dmsg_init : dmsg := DMsg 0 (SOwn []).

(** [msg_t::data ()] and [size ()] *)
Definition dm_data (m : dmsg) : ptr :=
  match dm_store m with SOwn _ => PMsg 0 | SArena o _ => PArena o end.
Definition dm_size (m : dmsg) : nat :=
  match dm_store m with SOwn bytes => length bytes | SArena _ n => n end.

(** Storing bytes at an offset; [None] past the end. *)
Definition poke (o : nat) (bs buf : list Z) : option (list Z) :=
  if decide (o + length bs ≤ length buf)%nat
  then Some (take o buf ++ bs ++ drop (o + length bs) buf) else None.

(** ** The interface of allocators and derived classes *)

Class Allocator (A : Type) := {
  a_allocate : A → option A;
  a_size : A → nat;
  a_resize : nat → A → A;
}.

Record dec (T A : Type) : Type := Dec {
  d_next : T;             (* the next step, with the members of the derived class *)
  d_read_pos : ptr;
  d_to_read : nat;
  d_alloc : A;
  d_arena : list Z;       (* the bytes of [_buf] *)
  d_tmp : list Z;         (* [_tmpbuf] *)
  d_msg : dmsg;           (* [_in_progress] *)
}.
Arguments Dec {T A}.
Arguments d_next {T A}.
Arguments d_read_pos {T A}.
Arguments d_to_read {T A}.
Arguments d_alloc {T A}.
Arguments d_arena {T A}.
Arguments d_tmp {T A}.
Arguments d_msg {T A}.

(** The return codes of a step and of [decode]: 0, 1, or -1 with [errno]. *)
Inductive drc : Type := DMore | DDone | DErr (e : errno).

Class Decoder (T A : Type) := {
  d_run : dec T A → ptr → option (drc * dec T A);
}.

(** ** [decoder_base_t] *)

Section decoder.
Context {T A : Type} `{Allocator A} `{Decoder T A}.
(** The bytes a fresh receive buffer happens to hold. *)
Context (uninit : Z → list Z).

Definition set_next (p : ptr) (n : nat) (t : T) (d : dec T A) : dec T A :=
  Dec t p n (d_alloc d) (d_arena d) (d_tmp d) (d_msg d).

Definition moved (n : nat) (d : dec T A) : dec T A :=
  set_next (ptr_add (d_read_pos d) n) (d_to_read d - n) (d_next d) d.

(** Writing [bs] to memory. *)
Definition store (p : ptr) (bs : list Z) (d : dec T A) : option (dec T A) :=
  match p with
  | PTmp o =>
      tmp ← poke o bs (d_tmp d);
      Some (Dec (d_next d) (d_read_pos d) (d_to_read d) (d_alloc d) (d_arena d) tmp (d_msg d))
  | PMsg o =>
      match dm_store (d_msg d) with
      | SOwn bytes =>
          bytes ← poke o bs bytes;
          Some (Dec (d_next d) (d_read_pos d) (d_to_read d) (d_alloc d) (d_arena d) (d_tmp d)
                    (DMsg (dm_flags (d_msg d)) (SOwn bytes)))
      | SArena _ _ => None
      end
  | PArena o =>
      arena ← poke o bs (d_arena d);
      Some (Dec (d_next d) (d_read_pos d) (d_to_read d) (d_alloc d) arena (d_tmp d) (d_msg d))
  end.

Definition with_alloc (a : A) (arena : list Z) (d : dec T A) : dec T A :=
  Dec (d_next d) (d_read_pos d) (d_to_read d) a arena (d_tmp d) (d_msg d).
Definition with_msg (m : dmsg) (d : dec T A) : dec T A :=
  Dec (d_next d) (d_read_pos d) (d_to_read d) (d_alloc d) (d_arena d) (d_tmp d) m.

(** [get_buffer]: where to read to, and how much. *)
Definition get_buffer (d : dec T A) : option (ptr * nat * dec T A) :=
  a ← a_allocate (d_alloc d);
  let d := with_alloc a (uninit (Z.of_nat (length (d_arena d)))) d in
  if decide (a_size a ≤ d_to_read d)%nat then Some (d_read_pos d, d_to_read d, d)
  else Some (PArena 0, a_size a, d).

(** [while (!_to_read) { rc = _next (pos); if (rc != 0) return rc; }]; a step that
    leaves nothing to read is followed by at most two others. *)
Fixpoint run_steps (fuel : nat) (d : dec T A) (pos : ptr) : option (drc * dec T A) :=
  match fuel with
  | O => None
  | S fuel =>
      if decide (d_to_read d = 0%nat) then
        '(rc, d) ← d_run d pos;
        match rc with
        | DMore => run_steps fuel d pos
        | rc => Some (rc, d)
        end
      else Some (DMore, d)
  end.
Definition step_fuel : nat := 4.

(** The loop of [decode]: [input] is what remains at [pos]. *)
Fixpoint decode_loop (fuel : nat) (pos : ptr) (input : list Z) (used : nat) (d : dec T A) :
    option (drc * nat * dec T A) :=
  match fuel with
  | O => None
  | S fuel =>
      match input with
      | [] => Some (DMore, used, d)
      | _ =>
          let to_copy := Nat.min (d_to_read d) (length input) in
          d ← (if decide (d_read_pos d = pos) then Some d
               else store (d_read_pos d) (take to_copy input) d);
          '(rc, d) ← run_steps step_fuel (moved to_copy d) (ptr_add pos to_copy);
          match rc with
          | DMore => decode_loop fuel (ptr_add pos to_copy) (drop to_copy input) (used + to_copy) d
          | rc => Some (rc, (used + to_copy)%nat, d)
          end
      end
  end.

(** [decode (data_, size_, bytes_used_)]: [input] are the bytes at [data]. *)
Definition decode (data : ptr) (input : list Z) (d : dec T A) : option (drc * nat * dec T A) :=
  if decide (data = d_read_pos d) then
    _ ← zmq_assert (bool_decide (length input ≤ d_to_read d)%nat);
    '(rc, d) ← run_steps step_fuel (moved (length input) d) (ptr_add data (length input));
    Some (rc, length input, d)
  else decode_loop (S (length input)) data input 0 d.

(** ** The engine *)

(** The message of the decoder, as the engine reads it. *)
Definition dmsg_frame (d : dec T A) : frame :=
  Frame (dm_flags (d_msg d))
        (match dm_store (d_msg d) with
         | SOwn bytes => bytes
         | SArena o n => take n (drop o (d_arena d))
         end).

(** The engine takes the message and leaves an empty one. *)
Definition take_msg (d : dec T A) : frame * dec T A := (dmsg_frame d, with_msg dmsg_init d).

(** [while (_insize > 0)] of [in_event], all messages being accepted. *)
Fixpoint process (fuel : nat) (pos : ptr) (input : list Z) (d : dec T A) :
    option (list frame * (dec T A + errno)) :=
  match fuel with
  | O => None
  | S fuel =>
      match input with
      | [] => Some ([], inl d)
      | _ =>
          '(rc, used, d) ← decode pos input d;
          _ ← zmq_assert (bool_decide (used ≤ length input)%nat);
          match rc with
          | DMore => Some ([], inl d)
          | DErr e => Some ([], inr e)
          | DDone =>
              let '(f, d) := take_msg d in
              '(fs, r) ← process fuel (ptr_add pos used) (drop used input) d;
              Some (f :: fs, r)
          end
      end
  end.

(** One [in_event]: the peer's bytes [chunk] are read into the buffer. *)
Definition in_event (k : nat) (input : list Z) (d : dec T A) :
    option (list frame * (dec T A + errno) * list Z) :=
  '(data, n, d) ← get_buffer d;
  let chunk := take (Nat.min k n) input in
  if decide (chunk = []) then Some ([], inl d, input)     (* EAGAIN *)
  else
    d ← store data chunk d;
    let d := with_alloc (a_resize (length chunk) (d_alloc d)) (d_arena d) d in
    '(fs, r) ← process (S (length chunk)) data chunk d;
    Some (fs, r, drop (length chunk) input).

(** Successive [in_event]s, the socket giving at most [reads] bytes each time,
    until an error closes the connection. *)
Fixpoint receive (reads : list nat) (input : list Z) (d : dec T A) :
    option (list frame * (dec T A + errno) * list Z) :=
  match reads with
  | [] => Some ([], inl d, input)
  | k :: reads =>
      '(fs, r, input) ← in_event k input d;
      match r with
      | inl d => '(gs, r, input) ← receive reads input d; Some (fs ++ gs, r, input)
      | inr e => Some (fs, inr e, input)
      end
  end.

(** ** Refinement *)

(** What a step function must do for the base class to decode the inputs of the
    parser [P]: [repr pos input d p] says that with [input] at [pos] still to be
    decoded the decoder stands for the parser state [p]; [rest d p] the same
    between two reads.  Reads are of a size [may_read]. *)
Class DecoderLaws (P : Type) `{ParserLaws P} := {
  repr : ptr → list Z → dec T A → P → Prop;
  rest : dec T A → P → Prop;
  may_read : nat → Prop;
  oom : Prop;              (* an allocation can fail *)
  repr_need pos input d p : repr pos input d p → d_to_read d = need p ∧ (0 < need p)%nat;
  repr_push pos bs input d p :
    repr pos (bs ++ input) d p → bs ≠ [] → (length bs < need p)%nat →
    ∃ d', (if decide (d_read_pos d = pos) then Some d else store (d_read_pos d) bs d) = Some d' ∧
          d_to_read d' = d_to_read d ∧
          repr (ptr_add pos (length bs)) input (moved (length bs) d') (push p bs);
  repr_finish pos bs input d p :
    repr pos (bs ++ input) d p → length bs = need p →
    ∃ d' rc d'',
      (if decide (d_read_pos d = pos) then Some d else store (d_read_pos d) bs d) = Some d' ∧
      run_steps step_fuel (moved (length bs) d') (ptr_add pos (length bs)) = Some (rc, d'') ∧
      (rc = DErr ENOMEM ∧ oom ∨
       match finish p bs with
       | OErr e => rc = DErr e
       | OMore q => rc = DMore ∧ repr (ptr_add pos (length bs)) input d'' q
       | OFrame f q =>
           rc = DDone ∧ (take_msg d'').1 = f ∧
           repr (ptr_add pos (length bs)) input (take_msg d'').2 q ∧
           (input ≠ [] → d_read_pos (take_msg d'').2 ≠ ptr_add pos (length bs))
       end);
  rest_read d p :
    rest d p →
    ∃ data n d1, get_buffer d = Some (data, n, d1) ∧ (0 < n)%nat ∧ rest d1 p ∧
      ∀ chunk, chunk ≠ [] → bytes_ok chunk → (length chunk ≤ n)%nat → may_read (length chunk) →
      ∃ d2, store data chunk d1 = Some d2 ∧
        repr data chunk (with_alloc (a_resize (length chunk) (d_alloc d2)) (d_arena d2) d2) p ∧
        (d_read_pos d2 = data → length chunk ≤ need p)%nat;
  repr_rest pos d p : repr pos [] d p → rest d p;
}.

(** The outcome of a decoder against that of the parser: equal, unless an
    allocation failed. *)
Definition agrees {P} (R : dec T A → P → Prop) (O : Prop) (c : list frame * (dec T A + errno))
    (a : list frame * (P + errno)) : Prop :=
  match c.2 with
  | inl d => c.1 = a.1 ∧ ∃ q, a.2 = inl q ∧ R d q
  | inr e => (e = ENOMEM ∧ O) ∧ c.1 `prefix_of` a.1 ∨ c.1 = a.1 ∧ a.2 = inr e
  end.

Context {P : Type} `{DecoderLaws P}.

(** [decode] may be called: when the data are at [_read_pos] they are for the
    current item only. *)
Definition entry (pos : ptr) (input : list Z) (d : dec T A) (p : P) : Prop :=
  repr pos input d p ∧ (input ≠ [] → d_read_pos d = pos → (length input ≤ need p)%nat).

(** What one call of [decode] on [input] amounts to for the parser. *)
Definition decoded (p : P) (pos : ptr) (input : list Z) (rc : drc) (u : nat) (d' : dec T A) : Prop :=
  (u ≤ length input)%nat ∧
  match rc with
  | DErr e => e = ENOMEM ∧ oom ∨ parse p input = ([], inr e)
  | DMore => u = length input ∧ ∃ q, parse p input = ([], inl q) ∧ repr (ptr_add pos u) [] d' q
  | DDone => (0 < u)%nat ∧ ∃ f q, parse p input = cons_frame f (parse q (drop u input)) ∧
      (take_msg d').1 = f ∧ entry (ptr_add pos u) (drop u input) (take_msg d').2 q
  end.

Lemma ptr_add_add p a b : ptr_add (ptr_add p a) b = ptr_add p (a + b).
Proof. destruct p; simpl; f_equal; lia. Qed.

(** One item, or the part of it that is there. *)
Lemma item_spec pos input d p :
  repr pos input d p → input ≠ [] →
  let n := Nat.min (d_to_read d) (length input) in
  (0 < n)%nat ∧
  ∃ d' rc d'',
    (if decide (d_read_pos d = pos) then Some d
     else store (d_read_pos d) (take n input) d) = Some d' ∧
    run_steps step_fuel (moved n d') (ptr_add pos n) = Some (rc, d'') ∧
    match rc with
    | DErr e => e = ENOMEM ∧ oom ∨ parse p input = ([], inr e)
    | DMore => ∃ q, repr (ptr_add pos n) (drop n input) d'' q ∧ parse p input = parse q (drop n input)
    | DDone => ∃ f q, parse p input = cons_frame f (parse q (drop n input)) ∧
        (take_msg d'').1 = f ∧ entry (ptr_add pos n) (drop n input) (take_msg d'').2 q
    end.
Proof.
  intros Hr Hne n. destruct (repr_need _ _ _ _ Hr) as [Hneed Hpos].
  assert (0 < length input)%nat by (destruct input; simpl; [done|lia]).
  split; [lia|]. destruct (decide (length input < need p)%nat) as [Hlt|Hge].
  - assert (n = length input) as -> by lia. rewrite firstn_all, drop_all.
    rewrite <- (app_nil_r input) in Hr.
    destruct (repr_push _ _ _ _ _ Hr Hne Hlt) as (d' & -> & Hto & Hr').
    exists d', DMore, (moved (length input) d'). split; [done|]. split.
    + unfold step_fuel. cbn [run_steps]. rewrite decide_False; [done|]. simpl. lia.
    + exists (push p input). split; [done|].
      rewrite <- (app_nil_r input) at 1. by rewrite parse_push.
  - assert (n = need p) as Hn by lia.
    assert (length (take n input) = need p) as Hlen by (rewrite length_take; lia).
    rewrite <- (take_drop n input) in Hr.
    destruct (repr_finish _ _ _ _ _ Hr Hlen) as (d' & rc & d'' & -> & Hrun & Hrc).
    rewrite Hlen, <- Hn in Hrun, Hrc.
    exists d', rc, d''. split; [done|]. split; [done|].
    assert (parse p input = parse p (take n input ++ drop n input)) as -> by (by rewrite take_drop).
    rewrite parse_finish by done.
    destruct Hrc as [[-> ?]|Hrc]; [by left|].
    destruct (finish p (take n input)) as [e|q|f q].
    + subst. by right.
    + destruct Hrc as [-> ?]. by exists q.
    + destruct Hrc as (-> & ? & ? & Hrp). exists f, q. split; [apply cons_frame_eq|].
      split; [done|]. split; [done|]. intros Hd E. by apply Hrp in Hd.
Qed.

Lemma decode_loop_spec fuel pos input used d p :
  repr pos input d p → (length input < fuel)%nat →
  ∃ rc u d', decode_loop fuel pos input used d = Some (rc, (used + u)%nat, d') ∧
             decoded p pos input rc u d'.
Proof.
  revert pos input used d p. induction fuel as [|fuel IH]; intros pos input used d p Hr Hfuel; [lia|].
  cbn [decode_loop]. destruct input as [|b input].
  { exists DMore, 0%nat, d. rewrite Nat.add_0_r. split; [done|]. split; [done|]. split; [done|].
    exists p. split; [done|]. by destruct pos; simpl; rewrite Nat.add_0_r. }
  destruct (item_spec pos (b :: input) d p Hr ltac:(done)) as [Hn (d' & rc & d'' & -> & Hrun & Hrc)].
  set (n := Nat.min (d_to_read d) (length (b :: input))) in *.
  cbn [mbind option_bind]. rewrite Hrun. cbn [mbind option_bind]. destruct rc as [| |e].
  - destruct Hrc as (q & Hr' & Hparse).
    destruct (IH _ _ (used + n)%nat _ _ Hr') as (rc & u & d3 & Hdec & Hle & Hrc).
    { rewrite length_drop. lia. }
    exists rc, (n + u)%nat, d3. rewrite Hdec. split; [do 3 f_equal; lia|].
    rewrite length_drop in Hle. split; [lia|]. rewrite Hparse. destruct rc as [| |e].
    + destruct Hrc as (-> & q' & ? & ?). split; [rewrite length_drop; lia|].
      exists q'. by rewrite <- ptr_add_add.
    + destruct Hrc as (? & f & q' & ? & ? & ?). split; [lia|]. exists f, q'.
      by rewrite <- ptr_add_add, <- drop_drop.
    + done.
  - exists DDone, n, d''. split; [done|]. split; [lia|]. done.
  - exists (DErr e), n, d''. split; [done|]. split; [lia|]. done.
Qed.

Lemma decode_spec pos input d p :
  entry pos input d p → input ≠ [] →
  ∃ rc u d', decode pos input d = Some (rc, u, d') ∧ decoded p pos input rc u d'.
Proof.
  intros [Hr Hdirect] Hne. unfold decode. destruct (decide (pos = d_read_pos d)) as [Heq|Hneq].
  - pose proof (Hdirect Hne (eq_sym Heq)) as Hle.
    destruct (repr_need _ _ _ _ Hr) as [Hneed _].
    destruct (item_spec pos input d p Hr Hne) as [Hn (d' & rc & d'' & Hst & Hrun & Hrc)].
    rewrite decide_True in Hst by done. injection Hst as <-.
    assert (Nat.min (d_to_read d) (length input) = length input) as Hmin by lia.
    rewrite Hmin in *. rewrite bool_decide_eq_true_2 by lia. cbn [zmq_assert mbind option_bind].
    rewrite Hrun. cbn [mbind option_bind]. do 3 eexists. split; [done|]. split; [done|].
    rewrite drop_all in *. destruct rc as [| |e]; [|split; [done|exact Hrc]|exact Hrc].
    destruct Hrc as (q & ? & Hparse). split; [done|]. exists q. by rewrite Hparse.
  - destruct (decode_loop_spec (S (length input)) pos input 0 d p Hr ltac:(lia))
      as (rc & u & d' & -> & ?). by exists rc, u, d'.
Qed.

Lemma process_spec fuel pos input d p :
  entry pos input d p → (length input < fuel)%nat →
  ∃ r, process fuel pos input d = Some r ∧ agrees rest oom r (parse p input).
Proof.
  revert pos input d p. induction fuel as [|fuel IH]; intros pos input d p Hr Hfuel; [lia|].
  cbn [process]. destruct input as [|b input].
  { eexists. split; [done|]. split; [done|]. exists p. split; [done|]. destruct Hr as [Hr _]. by eapply repr_rest. }
  destruct (decode_spec pos (b :: input) d p Hr ltac:(done)) as (rc & u & d' & -> & Hle & Hrc).
  cbn [mbind option_bind]. rewrite bool_decide_eq_true_2 by done. cbn [zmq_assert mbind option_bind].
  destruct rc as [| |e].
  - destruct Hrc as (_ & q & -> & Hr'). eexists. split; [done|]. split; [done|].
    exists q. split; [done|]. by eapply repr_rest.
  - destruct Hrc as (Hu & f & q & -> & Hf & Hr').
    destruct (take_msg d') as [f' d2] eqn:E. cbn [fst snd] in *. subst f'.
    destruct (IH _ _ _ _ Hr') as ([fs r] & -> & Hag); [rewrite length_drop; lia|].
    cbn [mbind option_bind]. eexists. split; [done|].
    destruct (parse q (drop u (b :: input))) as [gs r']. unfold agrees, cons_frame in *.
    cbn [fst snd] in *. destruct r as [d3|e].
    + destruct Hag as [-> ?]. done.
    + destruct Hag as [[[-> ?] Hpre]|[-> ->]]; [left|by right]. split; [done|].
      by apply prefix_cons.
  - eexists. split; [done|]. unfold agrees; cbn [fst snd].
    destruct Hrc as [[-> ?]| ->]; [left|by right]. split; [done|apply prefix_nil].
Qed.

Lemma in_event_spec k input d p :
  rest d p → bytes_ok input → (∀ j, (j ≤ k)%nat → may_read j) →
  ∃ fs r c input', in_event k input d = Some (fs, r, input') ∧ input = c ++ input' ∧
    agrees rest oom (fs, r) (parse p c).
Proof.
  intros Hrest Hok Hmay.
  destruct (rest_read _ _ Hrest) as (data & n & d1 & Hget & Hn & Hrest1 & Hread).
  unfold in_event. rewrite Hget. cbn [mbind option_bind].
  set (chunk := take (Nat.min k n) input). destruct (decide (chunk = [])) as [He|Hne].
  - exists [], (inl d1), [], input. split_and!; try done. split; [done|]. by exists p.
  - assert (length chunk ≤ Nat.min k n)%nat by (unfold chunk; rewrite length_take; lia).
    assert (bytes_ok chunk) by (by apply Forall_take).
    destruct (Hread chunk) as (d2 & -> & Hr & Hdirect); [done|done|lia|apply Hmay; lia|].
    cbn [mbind option_bind].
    destruct (process_spec (S (length chunk)) _ _ _ _ (conj Hr (λ _, Hdirect)) ltac:(lia))
      as ([fs r] & -> & Hag).
    cbn [mbind option_bind]. exists fs, r, chunk, (drop (length chunk) input).
    split; [done|]. split; [|done]. unfold chunk. rewrite length_take.
    rewrite <- (take_drop (Nat.min k n) input) at 1. f_equal.
    destruct (decide (Nat.min k n ≤ length input)%nat) as [?|?].
    + by rewrite (Nat.min_l (Nat.min k n) (length input)).
    + by rewrite !drop_ge by lia.
Qed.

(** The decoder as the engine drives it is the parser on what has been read, for
    every split of the input into reads. *)
Lemma receive_spec reads input d p :
  rest d p → bytes_ok input → Forall (λ k, ∀ j, (j ≤ k)%nat → may_read j) reads →
  ∃ fs r c input', receive reads input d = Some (fs, r, input') ∧ input = c ++ input' ∧
    agrees rest oom (fs, r) (parse p c).
Proof.
  revert input d p. induction reads as [|k reads IH]; intros input d p Hrest Hok Hmay; cbn [receive].
  { exists [], (inl d), [], input. split_and!; try done. split; [done|]. by exists p. }
  apply Forall_cons in Hmay as [Hk Hmay].
  destruct (in_event_spec k input d p Hrest Hok Hk) as (fs & r & c & input1 & -> & -> & Hag).
  cbn [mbind option_bind]. destruct r as [d1|e].
  - destruct Hag as [Hfs (q & Hq & Hrest1)]. cbn [fst snd] in Hfs, Hq.
    apply Forall_app in Hok as [_ Hok].
    destruct (IH input1 d1 q Hrest1 Hok Hmay) as (gs & r & c' & input' & -> & -> & Hag).
    cbn [mbind option_bind]. exists (fs ++ gs), r, (c ++ c'), input'.
    split; [done|]. split; [by rewrite app_assoc|]. rewrite parse_app.
    destruct (parse p c) as [fs0 r0]. cbn [fst snd] in *. subst fs0 r0.
    destruct (parse q c') as [gs0 r0]. unfold agrees in *. cbn [fst snd] in *.
    destruct r as [d2|e].
    + destruct Hag as [-> ?]. done.
    + destruct Hag as [[[-> ?] Hpre]|[-> ->]]; [left|by right]. split; [done|]. by apply prefix_app.
  - by exists fs, (inr e), c, input1.
Qed.

(** Reading everything: while bytes remain and no error occurs each non-empty
    read takes at least one of them. *)
Lemma receive_all reads input d p :
  rest d p → bytes_ok input → Forall (λ k, (0 < k)%nat ∧ ∀ j, (j ≤ k)%nat → may_read j) reads →
  (length input ≤ length reads)%nat →
  ∃ fs r input', receive reads input d = Some (fs, r, input') ∧
    ((∃ d', r = inl d') → input' = []).
Proof.
  revert input d p. induction reads as [|k reads IH]; intros input d p Hrest Hok Hmay Hlen; cbn [receive].
  { exists [], (inl d), input. split; [done|]. intros _. destruct input; [done|simpl in Hlen; lia]. }
  apply Forall_cons in Hmay as [[Hk0 Hk] Hmay].
  destruct (in_event_spec k input d p Hrest Hok Hk) as (fs & r & c & input1 & Hev & -> & Hag).
  rewrite Hev. cbn [mbind option_bind]. destruct r as [d1|e].
  - destruct Hag as [Hfs (q & Hq & Hrest1)].
    assert (bytes_ok input1) as Hok1 by (by apply Forall_app in Hok as [_ ?]).
    assert (c ++ input1 = [] ∨ c ≠ []) as Hc.
    { destruct (rest_read _ _ Hrest) as (data & n & d2 & Hget & Hn & _).
      unfold in_event in Hev. rewrite Hget in Hev. cbn [mbind option_bind] in Hev.
      destruct (c ++ input1) as [|b l] eqn:E; [by left|right]. intros ->. simpl in E. subst input1.
      destruct (decide (take (Nat.min k n) (b :: l) = [])) as [He|_].
      - destruct (Nat.min k n) eqn:Em; [lia|done].
      - destruct (store _ _ _); [|done]. cbn [mbind option_bind] in Hev.
        destruct (process _ _ _ _) as [[gs r]|]; [|done]. cbn [mbind option_bind] in Hev.
        injection Hev as _ _ Hdrop. apply (f_equal length) in Hdrop.
        rewrite length_drop, length_take in Hdrop. simpl in Hdrop. lia. }
    destruct (IH input1 d1 q Hrest1 Hok1 Hmay) as (gs & r & input' & -> & Hall).
    { rewrite length_app in Hlen. simpl in Hlen. destruct Hc as [Hc|Hc].
      - apply app_eq_nil in Hc as [_ ->]. simpl. lia.
      - destruct c; simpl in *; [done|lia]. }
    cbn [mbind option_bind]. do 3 eexists. split; [done|]. exact Hall.
  - do 3 eexists. split; [done|]. by intros [? ?].
Qed.
End decoder.

Lemma run_steps_S {T A} `{Decoder T A} n (d : dec T A) pos :
  run_steps (S n) d pos =
    if decide (d_to_read d = 0%nat) then
      '(rc, d) ← d_run d pos;
      match rc with DMore => run_steps n d pos | rc => Some (rc, d) end
    else Some (DMore, d).
Proof. done. Qed.

#[global] Arguments run_steps : simpl never.
