(* ===== verification/V1Decoder.v ===== *)
(** * The ZMTP/1.0 decoder (src/v1_decoder.cpp)

    The step functions of [v1_decoder_t] over [c_single_allocator], and their
    refinement of the ZMTP/1.0 parser.  The helper lemmas on where the bytes of
    the input go are shared with [V2Decoder]. *)

From S2P Require Import Prelude Wire Msg Codec Allocator Decoder.

(** ** Where the input goes *)

Section fetch.
Context {T A : Type} `{Allocator A}.

(** The memory [_read_pos] points into, when it is not the receive buffer. *)
Definition region (d : dec T A) : option (list Z) :=
  match d_read_pos d with
  | PTmp _ => Some (d_tmp d)
  | PMsg _ => match dm_store (d_msg d) with SOwn bytes => Some bytes | SArena _ _ => None end
  | PArena _ => None
  end.

Definition with_region (buf : list Z) (d : dec T A) : dec T A :=
  match d_read_pos d with
  | PTmp _ => Dec (d_next d) (d_read_pos d) (d_to_read d) (d_alloc d) (d_arena d) buf (d_msg d)
  | PMsg _ => with_msg (DMsg (dm_flags (d_msg d)) (SOwn buf)) d
  | PArena _ => d
  end.

Definition offset (p : ptr) : nat := match p with PTmp o | PMsg o | PArena o => o end.

(** The input still at [pos] is in the receive buffer, up to the end of what was
    received, or already where it belongs. *)
Definition src_ok (pos : ptr) (input : list Z) (d : dec T A) : Prop :=
  bytes_ok input ∧
  (input = [] ∨
   (∃ o, pos = PArena o ∧ take (length input) (drop o (d_arena d)) = input) ∨
   (pos = d_read_pos d ∧ (length input ≤ d_to_read d)%nat ∧
    ∃ buf, region d = Some buf ∧ take (length input) (drop (offset pos) buf) = input)).

Lemma region_tmp o buf d : d_read_pos d = PTmp o → region d = Some buf → buf = d_tmp d.
Proof. unfold region. intros ->. by intros [= <-]. Qed.

Lemma region_with buf buf' d : region d = Some buf → region (with_region buf' d) = Some buf'.
Proof. unfold region, with_region. destruct (d_read_pos d) eqn:E; simpl; by rewrite ?E. Qed.

Lemma with_region_id buf d : region d = Some buf → with_region buf d = d.
Proof.
  destruct d as [t rp n a ar tmp [fl st]]; unfold region, with_region; simpl.
  destruct rp; [by intros [= ->]| |done]. destruct st; [by intros [= ->]|done].
Qed.

Lemma poke_spec o bs buf :
  (o + length bs ≤ length buf)%nat →
  ∃ buf', poke o bs buf = Some buf' ∧ length buf' = length buf ∧
    take (o + length bs) buf' = take o buf ++ bs.
Proof.
  intros Hle. unfold poke. rewrite decide_True by done. eexists. split; [done|].
  assert (length (take o buf) = o) as Ho by (rewrite length_take; lia). split.
  - rewrite !length_app, length_drop, Ho. lia.
  - rewrite app_assoc. rewrite take_app_le by (rewrite length_app, Ho; lia).
    apply take_ge. rewrite length_app, Ho. lia.
Qed.

Lemma store_region bs d buf :
  region d = Some buf → (offset (d_read_pos d) + length bs ≤ length buf)%nat →
  ∃ buf', store (d_read_pos d) bs d = Some (with_region buf' d) ∧ length buf' = length buf ∧
    take (offset (d_read_pos d) + length bs) buf' = take (offset (d_read_pos d)) buf ++ bs.
Proof.
  intros Hr Hle. destruct (poke_spec _ bs buf Hle) as (buf' & Hp & Hlen & Htake).
  exists buf'. split; [|done]. unfold store, region, with_region in *.
  destruct (d_read_pos d) as [o|o|o] eqn:E; [|destruct (dm_store (d_msg d))|]; simplify_eq/=;
    rewrite Hp; unfold with_msg; by rewrite ?E.
Qed.

Lemma take_split {B} n m o (l : list B) xs ys :
  take (n + m) (drop o l) = xs ++ ys → length xs = n →
  take n (drop o l) = xs ∧ take m (drop (o + n) l) = ys.
Proof.
  intros Heq Hlen. split.
  - apply (f_equal (take n)) in Heq. rewrite take_take, Nat.min_l in Heq by lia.
    rewrite Heq, take_app_le by lia. by rewrite take_ge by lia.
  - apply (f_equal (drop n)) in Heq. rewrite drop_app_ge, Hlen, Nat.sub_diag in Heq by lia.
    rewrite drop_0 in Heq. rewrite <- Heq, <- drop_drop, skipn_firstn_comm. f_equal. lia.
Qed.

(** [bs] is copied to [_read_pos], or is there already. *)
Lemma fetch bs input pos d buf :
  region d = Some buf → bs ≠ [] → (length bs ≤ d_to_read d)%nat →
  (offset (d_read_pos d) + d_to_read d ≤ length buf)%nat → src_ok pos (bs ++ input) d →
  ∃ buf', (if decide (d_read_pos d = pos) then Some d else store (d_read_pos d) bs d)
            = Some (with_region buf' d) ∧
    length buf' = length buf ∧
    take (offset (d_read_pos d) + length bs) buf' = take (offset (d_read_pos d)) buf ++ bs ∧
    src_ok (ptr_add pos (length bs)) input (moved (length bs) (with_region buf' d)).
Proof.
  intros Hr Hne Hle Hroom [Hok Hsrc]. apply Forall_app in Hok as [_ Hok].
  destruct Hsrc as [Hnil|[(o & -> & Hin)|(-> & Hlen & buf0 & Hr0 & Hin)]].
  - by apply app_eq_nil in Hnil as [? _].
  - destruct (store_region bs d buf Hr ltac:(lia)) as (buf' & Hst & Hlen & Htake).
    rewrite decide_False by (intros E; unfold region in Hr; by rewrite E in Hr).
    exists buf'. split_and!; try done. split; [done|]. right. left. exists (o + length bs)%nat.
    split; [done|]. rewrite length_app in Hin.
    destruct (take_split _ _ _ _ _ _ Hin eq_refl) as [_ Hin'].
    unfold moved, with_region. by destruct (d_read_pos d).
  - assert (buf0 = buf) as -> by congruence. rewrite length_app in Hin, Hlen.
    destruct (take_split _ _ _ _ _ _ Hin eq_refl) as [Hbs Hin'].
    rewrite decide_True by done. exists buf. rewrite with_region_id by done.
    split_and!; try done.
    + rewrite <- (take_drop (offset (d_read_pos d)) (take _ buf)) at 1.
      rewrite take_take, Nat.min_l by lia. f_equal. rewrite skipn_firstn_comm.
      rewrite <- Hbs at 2. f_equal. lia.
    + split; [done|]. right. right. split; [done|]. cbn [moved set_next d_to_read d_read_pos].
      split; [lia|]. exists buf. split.
      * unfold region in *. cbn. by destruct (d_read_pos d).
      * by destruct (d_read_pos d).
Qed.

(** When the item is complete the rest of the input can only be in the receive
    buffer. *)
Lemma src_ok_done bs input pos d d' :
  src_ok pos (bs ++ input) d → length bs = d_to_read d → d_arena d' = d_arena d →
  src_ok (ptr_add pos (length bs)) input d' ∧
  (input ≠ [] → ∃ o, ptr_add pos (length bs) = PArena o).
Proof.
  intros [Hok Hsrc] Hlen Harena. apply Forall_app in Hok as [_ Hok].
  destruct Hsrc as [Hnil|[(o & -> & Hin)|(-> & Hle & _)]].
  - apply app_eq_nil in Hnil as [_ ->]. split; [|done]. split; [done|by left].
  - split; [|by eexists]. split; [done|]. right. left. exists (o + length bs)%nat.
    split; [done|]. rewrite length_app in Hin.
    destruct (take_split _ _ _ _ _ _ Hin eq_refl) as [_ Hin']. by rewrite Harena.
  - rewrite length_app in Hle. destruct input; [|simpl in Hle; lia].
    split; [|done]. split; [done|by left].
Qed.

Lemma region_not_arena buf o d : region d = Some buf → d_read_pos d ≠ PArena o.
Proof. unfold region. intros Hr E. by rewrite E in Hr. Qed.

(** A byte read into the scratch buffer. *)
Lemma tmp_byte d buf' bs :
  d_read_pos d = PTmp 0 → length bs = 1%nat → take (0 + length bs) buf' = take 0 (d_tmp d) ++ bs →
  ∃ b, bs = [b] ∧ d_tmp (with_region buf' d) !! 0%nat = Some b.
Proof.
  intros Hrp Hlen Htake. destruct bs as [|b []]; try done. exists b. split; [done|].
  unfold with_region. rewrite Hrp. cbn [d_tmp]. destruct buf' as [|x buf']; [done|].
  simpl in Htake. by injection Htake as ->.
Qed.

Lemma with_region_fields buf d :
  d_next (with_region buf d) = d_next d ∧ d_read_pos (with_region buf d) = d_read_pos d ∧
  d_to_read (with_region buf d) = d_to_read d ∧ d_alloc (with_region buf d) = d_alloc d ∧
  d_arena (with_region buf d) = d_arena d.
Proof. unfold with_region. by destruct (d_read_pos d) eqn:E; split_and!; rewrite ?E. Qed.
End fetch.

Section run.
Context {T A : Type} `{Decoder T A}.
Implicit Types d : dec T A.

Lemma run_more n d d' pos :
  d_to_read d = 0%nat → d_run d pos = Some (DMore, d') → d_to_read d' ≠ 0%nat →
  run_steps (S (S n)) d pos = Some (DMore, d').
Proof.
  intros H0 Hr H1. rewrite run_steps_S, decide_True, Hr by done. cbn [mbind option_bind].
  by rewrite run_steps_S, decide_False.
Qed.

Lemma run_stop n d d' rc pos :
  d_to_read d = 0%nat → d_run d pos = Some (rc, d') → rc ≠ DMore →
  run_steps (S n) d pos = Some (rc, d').
Proof.
  intros H0 Hr H1. rewrite run_steps_S, decide_True, Hr by done. cbn [mbind option_bind].
  by destruct rc.
Qed.

Lemma run_again n d d' pos :
  d_to_read d = 0%nat → d_run d pos = Some (DMore, d') →
  run_steps (S n) d pos = run_steps n d' pos.
Proof. intros H0 Hr. by rewrite run_steps_S, decide_True, Hr by done. Qed.
End run.

(** ** [v1_decoder_t] *)

#[export] Instance single_is_allocator : Allocator c_single_allocator := {
  a_allocate a := Some (cs_allocate a);
  a_size := cs_size;
  a_resize := cs_resize;
}.

(** [_in_progress.init_size (n)]; [None] when out of memory. *)
Definition dmsg_init_size (uninit : Z → list Z) (malloc_ok : Z → bool) (n : Z) : option dmsg :=
  if n <=? Msg.max_vsm_size then Some (DMsg 0 (SOwn (uninit n)))
  else if (n <? u64 (sizeof_content + n)) && malloc_ok (sizeof_content + n)
  then Some (DMsg 0 (SOwn (uninit n))) else None.

Inductive v1_dstep : Type :=
| D1_one_byte_size_ready
| D1_eight_byte_size_ready
| D1_flags_ready
| D1_message_ready.

Section v1.
Context (uninit : Z → list Z) (malloc_ok : Z → bool) (max_msg_size : Z).

Abbreviation dec1 := (dec v1_dstep c_single_allocator).

(** The message is sized, and then its flags are read. *)
Definition v1_init_size (n : Z) (d : dec1) : drc * dec1 :=
  match dmsg_init_size uninit malloc_ok n with
  | None => (DErr ENOMEM, with_msg dmsg_init d)
  | Some m => (DMore, set_next (PTmp 0) 1 D1_flags_ready (with_msg m d))
  end.

Definition v1_one_byte_size_ready (d : dec1) : option (drc * dec1) :=
  b ← d_tmp d !! 0%nat;
  Some (if b =? UCHAR_MAX then (DMore, set_next (PTmp 0) 8 D1_eight_byte_size_ready d)
        else if b =? 0 then (DErr EPROTO, d)
        else if (0 <=? max_msg_size) && (max_msg_size <? b - 1) then (DErr EMSGSIZE, d)
        else v1_init_size (b - 1) d).

Definition v1_eight_byte_size_ready (d : dec1) : option (drc * dec1) :=
  payload_length ← get_uint64 (d_tmp d);
  Some (if payload_length =? 0 then (DErr EPROTO, d)
        else if (0 <=? max_msg_size) && (max_msg_size <? payload_length - 1)
        then (DErr EMSGSIZE, d)
        else if 18446744073709551615 <? payload_length - 1 then (DErr EMSGSIZE, d)
        else v1_init_size (payload_length - 1) d).

Definition v1_flags_ready (d : dec1) : option (drc * dec1) :=
  b ← d_tmp d !! 0%nat;
  let m := DMsg (Z.lor (dm_flags (d_msg d)) (Z.land b flag_more)) (dm_store (d_msg d)) in
  let d := with_msg m d in
  Some (DMore, set_next (dm_data m) (dm_size m) D1_message_ready d).

Definition v1_message_ready (d : dec1) : option (drc * dec1) :=
  Some (DDone, set_next (PTmp 0) 1 D1_one_byte_size_ready d).

#[local] Instance v1_is_decoder : Decoder v1_dstep c_single_allocator := {
  d_run d _ := match d_next d with
               | D1_one_byte_size_ready => v1_one_byte_size_ready d
               | D1_eight_byte_size_ready => v1_eight_byte_size_ready d
               | D1_flags_ready => v1_flags_ready d
               | D1_message_ready => v1_message_ready d
               end;
}.

(** Construction; [junk]: what [_tmpbuf] and the buffer hold. *)
Definition v1_decoder_new (bufsize : nat) (junk : list Z) : dec1 :=
  Dec D1_one_byte_size_ready (PTmp 0) 1 (cs_allocate (cs_new bufsize))
      (uninit (Z.of_nat bufsize)) junk dmsg_init.

(** ** Refinement *)

Hypothesis Huninit : ∀ n, 0 ≤ n → length (uninit n) = Z.to_nat n.
Context (bufsize : nat).

(** The state of the decoder against that of the parser. *)
Definition v1_matches (d : dec1) (p : v1_state) : Prop :=
  match p with
  | V1Size => d_next d = D1_one_byte_size_ready ∧ d_read_pos d = PTmp 0 ∧ d_to_read d = 1%nat
  | V1Size8 acc =>
      d_next d = D1_eight_byte_size_ready ∧ d_read_pos d = PTmp (length acc) ∧
      d_to_read d = (8 - length acc)%nat ∧ (length acc < 8)%nat ∧
      take (length acc) (d_tmp d) = acc ∧ bytes_ok acc
  | V1Flags n =>
      d_next d = D1_flags_ready ∧ d_read_pos d = PTmp 0 ∧ d_to_read d = 1%nat ∧
      ∃ bytes, d_msg d = DMsg 0 (SOwn bytes) ∧ length bytes = n
  | V1Body fl n acc =>
      d_next d = D1_message_ready ∧ d_read_pos d = PMsg (length acc) ∧
      d_to_read d = (n - length acc)%nat ∧ (length acc < n)%nat ∧
      ∃ bytes, d_msg d = DMsg fl (SOwn bytes) ∧ length bytes = n ∧ take (length acc) bytes = acc
  end.

Record v1_rest (d : dec1) (p : v1_state) : Prop := {
  v1r_tmp : length (d_tmp d) = 8%nat;
  v1r_arena : length (d_arena d) = bufsize;
  v1r_size : (0 < cs_buf_size (d_alloc d) ≤ bufsize)%nat;
  v1r_matches : v1_matches d p;
}.

Definition v1_repr (pos : ptr) (input : list Z) (d : dec1) (p : v1_state) : Prop :=
  v1_rest d p ∧ src_ok pos input d.

Lemma v1_region d p :
  v1_rest d p →
  ∃ buf, region d = Some buf ∧ d_to_read d = v1_need p ∧ (0 < d_to_read d)%nat ∧
    (offset (d_read_pos d) + d_to_read d ≤ length buf)%nat.
Proof.
  intros [Ht _ _ Hm]. unfold region. destruct p as [|acc|n|fl n acc]; simpl in Hm.
  - destruct Hm as (_ & -> & ->). eexists. split; [done|]. simpl. lia.
  - destruct Hm as (_ & -> & -> & ? & _). eexists. split; [done|]. simpl. lia.
  - destruct Hm as (_ & -> & -> & _). eexists. split; [done|]. simpl. lia.
  - destruct Hm as (_ & -> & -> & ? & bytes & -> & ? & _). eexists. split; [done|]. simpl. lia.
Qed.

(** Part of an item is stored. *)
Lemma v1_matches_push d p buf buf' bs :
  v1_rest d p → region d = Some buf → (0 < length bs < d_to_read d)%nat → length buf' = length buf →
  bytes_ok bs →
  take (offset (d_read_pos d) + length bs) buf' = take (offset (d_read_pos d)) buf ++ bs →
  v1_rest (moved (length bs) (with_region buf' d)) (v1_push p bs).
Proof.
  intros [Ht Ha Hs Hm] Hr Hlt Hlen Hok Htake. destruct p as [|acc|n|fl n acc]; simpl in Hm.
  - destruct Hm as (_ & _ & Hto). lia.
  - destruct Hm as (? & Hrp & Hto & ? & Hacc & Hbok). unfold region in Hr. rewrite Hrp in *.
    injection Hr as <-. simpl in Htake. rewrite Hacc in Htake. rewrite Hto in Hlt.
    split; unfold with_region, moved, set_next; rewrite Hrp; simpl; try done; [lia|].
    rewrite length_app, Htake. split_and!; try done; rewrite ?Hto; try lia.
    by apply Forall_app.
  - destruct Hm as (_ & _ & Hto & _). lia.
  - destruct Hm as (? & Hrp & Hto & ? & bytes & Hmsg & Hbl & Hacc).
    unfold region in Hr. rewrite Hrp in *. rewrite Hmsg in Hr. injection Hr as <-.
    simpl in Htake. rewrite Hacc in Htake. rewrite Hto in Hlt.
    split; unfold with_region, moved, set_next; rewrite Hrp, Hmsg; simpl; try done.
    rewrite length_app. split_and!; rewrite ?Hto, ?Hrp; try done; try lia.
    exists buf'. split_and!; [done|lia|done].
Qed.

Lemma dmsg_init_size_spec n m :
  0 ≤ n → dmsg_init_size uninit malloc_ok n = Some m →
  ∃ bytes, m = DMsg 0 (SOwn bytes) ∧ length bytes = Z.to_nat n.
Proof.
  intros Hn. unfold dmsg_init_size. repeat case_match; intros; simplify_eq;
    eexists; split; try done; by apply Huninit.
Qed.

(** A message of an acceptable size cannot be allocated. *)
Definition v1_oom : Prop :=
  ∃ n, 0 ≤ n < 2 ^ 64 ∧ too_big max_msg_size n = false ∧
       dmsg_init_size uninit malloc_ok n = None.

(** The outcome of a step against that of the parser. *)
Definition v1_outcome (d : dec1) (o : outcome v1_state) (rc : drc) (d' : dec1) : Prop :=
  d_arena d' = d_arena d ∧
  (rc = DErr ENOMEM ∧ v1_oom ∨
   match o with
   | OErr e => rc = DErr e
   | OMore q => rc = DMore ∧ v1_rest d' q
   | OFrame f q => rc = DDone ∧ (take_msg d').1 = f ∧ v1_rest (take_msg d').2 q
   end).

Lemma v1_payload_step n d pos :
  length (d_tmp d) = 8%nat → length (d_arena d) = bufsize →
  (0 < cs_buf_size (d_alloc d) ≤ bufsize)%nat → d_to_read d = 0%nat → 0 ≤ n < 2 ^ 64 →
  d_run d pos =
    Some (if n =? 0 then (DErr EPROTO, d)
          else if (0 <=? max_msg_size) && (max_msg_size <? n - 1) then (DErr EMSGSIZE, d)
          else v1_init_size (n - 1) d) →
  ∃ rc d', run_steps step_fuel d pos = Some (rc, d') ∧ v1_outcome d (v1_payload max_msg_size n) rc d'.
Proof.
  intros Ht Ha Hs H0 Hn Hrun. unfold v1_payload, too_big.
  destruct (Z.eqb_spec n 0) as [->|Hne].
  { do 2 eexists. split; [by apply run_stop|]. split; [done|]. by right. }
  zdecide. destruct (_ && _) eqn:Ebig.
  { do 2 eexists. split; [by apply run_stop|]. split; [done|]. by right. }
  unfold v1_init_size in Hrun. destruct (dmsg_init_size _ _ _) as [m|] eqn:Em.
  - apply dmsg_init_size_spec in Em as (bytes & -> & Hlen); [|lia].
    do 2 eexists. split; [by apply run_more|]. split; [done|]. right. split; [done|].
    split; try done. split_and!; try done. by exists bytes.
  - do 2 eexists. split; [by apply run_stop|]. split; [done|]. left. split; [done|].
    exists (n - 1). split_and!; try done; lia.
Qed.

(** An item is complete. *)
Lemma v1_matches_finish d p buf buf' bs pos :
  v1_rest d p → region d = Some buf → length bs = d_to_read d → length buf' = length buf →
  bytes_ok bs →
  take (offset (d_read_pos d) + length bs) buf' = take (offset (d_read_pos d)) buf ++ bs →
  ∃ rc d', run_steps step_fuel (moved (length bs) (with_region buf' d)) pos = Some (rc, d') ∧
    v1_outcome d (v1_finish max_msg_size p bs) rc d'.
Proof.
  intros [Ht Ha Hs Hm] Hr Hto Hlen Hok Htake.
  destruct (with_region_fields buf' d) as (En & Erp & Et & Eal & Ear).
  assert (region (with_region buf' d) = Some buf') as Er by (by eapply region_with).
  set (d1 := with_region buf' d) in *. set (d2 := moved (length bs) d1).
  assert (d_to_read d2 = 0%nat) as H0 by (cbn [d2 moved set_next d_to_read]; lia).
  assert (length (d_tmp d2) = 8%nat) as Ht2.
  { change (length (d_tmp d1) = 8%nat). unfold d1, with_region, region in *.
    destruct (d_read_pos d); simpl; try done. simplify_eq. lia. }
  assert (∀ d' q, d_arena d' = d_arena d1 → d_alloc d' = d_alloc d1 → d_tmp d' = d_tmp d1 →
    v1_matches d' q → v1_rest d' q) as Hrest.
  { intros d' q E1 E2 E3 Hm'. split; [by rewrite E3|by rewrite E1, Ear|by rewrite E2, Eal|done]. }
  assert (∀ n, 0 ≤ n < 2 ^ 64 → d_run d2 pos =
    Some (if n =? 0 then (DErr EPROTO, d2)
          else if (0 <=? max_msg_size) && (max_msg_size <? n - 1) then (DErr EMSGSIZE, d2)
          else v1_init_size (n - 1) d2) →
    ∃ rc d', run_steps step_fuel d2 pos = Some (rc, d') ∧
      v1_outcome d (v1_payload max_msg_size n) rc d') as Hpay.
  { intros n Hn Hrun. destruct (v1_payload_step n d2 pos) as (rc & d' & ? & [Hd' ?]); try done.
    - change (length (d_arena d1) = bufsize). by rewrite Ear.
    - change (0 < cs_buf_size (d_alloc d1) ≤ bufsize)%nat. by rewrite Eal.
    - exists rc, d'. split; [done|]. split; [|done]. rewrite Hd'. exact Ear. }
  destruct p as [|acc|n|fl n acc]; cbn [v1_matches] in Hm.
  - destruct Hm as (Hn & Hrp & Hto1). rewrite Hto1 in Hto.
    rewrite (region_tmp _ _ _ Hrp Hr), Hrp in Htake.
    destruct (tmp_byte d buf' bs) as (b & -> & Hb); [done|done|done|].
    apply Forall_cons in Hok as [Hbok _]. unfold byte_ok in Hbok.
    assert (d_run d2 pos = v1_one_byte_size_ready d2) as Hrun.
    { cbn [d_run v1_is_decoder]. change (d_next d2) with (d_next d1). by rewrite En, Hn. }
    unfold v1_one_byte_size_ready in Hrun. change (d_tmp d2) with (d_tmp d1) in Hrun.
    fold d1 in Hb. rewrite Hb in Hrun. cbn [mbind option_bind] in Hrun. cbn [v1_finish hd].
    destruct (b =? UCHAR_MAX).
    + do 2 eexists. split; [by apply run_more|]. split; [exact Ear|]. right. split; [done|].
      apply Hrest; try done. cbn [v1_matches length]. split_and!; try done; simpl; lia.
    + apply Hpay; [lia|]. exact Hrun.
  - destruct Hm as (Hn & Hrp & Hto1 & Hacc8 & Hacc & Haok). rewrite Hto1 in Hto.
    rewrite (region_tmp _ _ _ Hrp Hr), Hrp in Htake. cbn [offset] in Htake. rewrite Hacc in Htake.
    rewrite take_ge in Htake by (rewrite Hlen, (region_tmp _ _ _ Hrp Hr); lia).
    assert (d_tmp d2 = acc ++ bs) as Htmp.
    { change (d_tmp d1 = acc ++ bs). rewrite <- Htake. symmetry. eapply region_tmp; [|done].
      by rewrite Erp. }
    assert (d_run d2 pos = v1_eight_byte_size_ready d2) as Hrun.
    { cbn [d_run v1_is_decoder]. change (d_next d2) with (d_next d1). by rewrite En, Hn. }
    unfold v1_eight_byte_size_ready in Hrun.
    assert (bytes_ok (acc ++ bs)) as Hok8 by (by apply Forall_app).
    assert (length (acc ++ bs) = 8%nat) as Hlen8 by (rewrite length_app; lia).
    pose proof (be_value_range _ Hok8) as Hrange. rewrite Hlen8 in Hrange.
    rewrite Htmp, get_uint64_be in Hrun by done. cbn [mbind option_bind] in Hrun.
    cbn [v1_finish]. apply Hpay; [done|]. rewrite Hrun. f_equal.
    rewrite (proj2 (Z.ltb_ge 18446744073709551615 (be_value (acc ++ bs) - 1))); [done|].
    change (256 ^ Z.of_nat 8) with 18446744073709551616 in Hrange. lia.
  - destruct Hm as (Hn & Hrp & Hto1 & bytes & Hmsg & Hbl). rewrite Hto1 in Hto.
    rewrite (region_tmp _ _ _ Hrp Hr), Hrp in Htake.
    destruct (tmp_byte d buf' bs) as (b & -> & Hb); [done|done|done|].
    assert (d_run d2 pos = v1_flags_ready d2) as Hrun.
    { cbn [d_run v1_is_decoder]. change (d_next d2) with (d_next d1). by rewrite En, Hn. }
    assert (d_msg d2 = DMsg 0 (SOwn bytes)) as Hm2.
    { change (d_msg d1 = DMsg 0 (SOwn bytes)). unfold d1, with_region. by rewrite Hrp. }
    unfold v1_flags_ready in Hrun. change (d_tmp d2) with (d_tmp d1) in Hrun.
    fold d1 in Hb. rewrite Hb, Hm2 in Hrun. cbn [mbind option_bind dm_flags dm_store] in Hrun.
    cbn [v1_finish hd]. rewrite Z.lor_0_l in Hrun.
    unfold dm_data, dm_size in Hrun; cbn [dm_store] in Hrun.
    destruct (decide (n = 0%nat)) as [->|Hn0].
    + do 2 eexists. split.
      * unfold step_fuel. rewrite (run_again _ _ _ _ H0 Hrun). apply run_stop; try done.
      * split; [exact Ear|]. right. split; [done|]. destruct bytes; [|done]. split; [done|].
        by apply Hrest.
    + do 2 eexists. split; [apply run_more; [done|exact Hrun|simpl; lia]|].
      split; [exact Ear|]. right. split; [done|].
      apply Hrest; try done.
      cbn [v1_matches set_next d_next d_read_pos d_to_read d_msg with_msg length].
      rewrite Nat.sub_0_r. split_and!; try done; [lia|]. by exists bytes.
  - destruct Hm as (Hn & Hrp & Hto1 & Hacc8 & bytes & Hmsg & Hbl & Hacc). rewrite Hto1 in Hto.
    assert (buf = bytes) as ->.
    { unfold region in Hr. rewrite Hrp, Hmsg in Hr. by injection Hr. }
    rewrite Hrp in Htake. cbn [offset] in Htake. rewrite Hacc in Htake.
    rewrite take_ge in Htake by lia.
    assert (d_run d2 pos = v1_message_ready d2) as Hrun.
    { cbn [d_run v1_is_decoder]. change (d_next d2) with (d_next d1). by rewrite En, Hn. }
    do 2 eexists. split; [by apply run_stop|]. split; [exact Ear|]. right. split; [done|].
    assert (d_msg d1 = DMsg fl (SOwn (acc ++ bs))) as Hm1.
    { unfold d1, with_region. rewrite Hrp. cbn [d_msg with_msg]. by rewrite Hmsg, Htake. }
    split.
    + unfold take_msg, dmsg_frame. cbn [fst].
      change (d_msg (set_next (PTmp 0) 1 D1_one_byte_size_ready d2)) with (d_msg d1).
      by rewrite Hm1.
    + by apply Hrest.
Qed.

#[local] Instance this_parser : Parser v1_state := v1_parser max_msg_size.
#[local] Instance this_parser_laws : ParserLaws v1_state := v1_parser_laws max_msg_size.

(** Bytes written ahead of time at [_read_pos] do not count yet. *)
Lemma v1_rest_region d p buf buf' :
  v1_rest d p → region d = Some buf → length buf' = length buf →
  take (offset (d_read_pos d)) buf' = take (offset (d_read_pos d)) buf →
  v1_rest (with_region buf' d) p.
Proof.
  intros [Ht Ha Hs Hm] Hr Hlen Htake.
  destruct (with_region_fields buf' d) as (En & Erp & Et & Eal & Ear).
  split; [|by rewrite Ear|by rewrite Eal|].
  - unfold with_region, region in *. destruct (d_read_pos d); simpl; try done. simplify_eq. lia.
  - destruct p as [|acc|n|fl n acc]; cbn [v1_matches] in *; rewrite ?En, ?Erp, ?Et.
    + done.
    + destruct Hm as (? & Hrp & ? & ? & Hacc & ?). split_and!; try done.
      rewrite Hrp in Htake. rewrite (region_tmp _ _ _ Hrp Hr) in Htake. cbn [offset] in Htake.
      rewrite <- Hacc at 2. rewrite <- Htake. unfold with_region. by rewrite Hrp.
    + destruct Hm as (? & Hrp & ? & bytes & Hmsg & ?). split_and!; try done.
      exists bytes. split; [|done]. unfold with_region. by rewrite Hrp.
    + destruct Hm as (? & Hrp & ? & ? & bytes & Hmsg & ? & Hacc). split_and!; try done.
      assert (buf = bytes) as ->.
      { unfold region in Hr. rewrite Hrp, Hmsg in Hr. by injection Hr. }
      exists buf'. split_and!.
      * unfold with_region. rewrite Hrp. cbn [d_msg with_msg]. by rewrite Hmsg.
      * lia.
      * rewrite Hrp in Htake. cbn [offset] in Htake. congruence.
Qed.

Lemma v1_rest_alloc d p a arena :
  v1_rest d p → length arena = bufsize → (0 < cs_buf_size a ≤ bufsize)%nat →
  v1_rest (with_alloc a arena d) p.
Proof. intros [Ht Ha Hs Hm] Hl Ha'. by split. Qed.

Lemma v1_rest_read d p :
  v1_rest d p →
  ∃ data n d1, get_buffer uninit d = Some (data, n, d1) ∧ (0 < n)%nat ∧ v1_rest d1 p ∧
    ∀ chunk, chunk ≠ [] → bytes_ok chunk → (length chunk ≤ n)%nat → (length chunk ≤ bufsize)%nat →
    ∃ d2, store data chunk d1 = Some d2 ∧
      v1_repr data chunk (with_alloc (a_resize (length chunk) (d_alloc d2)) (d_arena d2) d2) p ∧
      (d_read_pos d2 = data → length chunk ≤ v1_need p)%nat.
Proof.
  intros Hrest. unfold get_buffer. cbn [a_allocate a_size single_is_allocator mbind option_bind].
  unfold cs_allocate, cs_size.
  set (d1 := with_alloc (d_alloc d) (uninit (Z.of_nat (length (d_arena d)))) d).
  assert (v1_rest d1 p) as Hrest1.
  { apply v1_rest_alloc; [done| |by apply (v1r_size _ _ Hrest)].
    rewrite Huninit, Nat2Z.id by lia. apply (v1r_arena _ _ Hrest). }
  destruct (v1_region d1 p Hrest1) as (buf & Hr & Hneed & Hpos & Hroom).
  pose proof (v1r_size _ _ Hrest1) as Hsz.
  assert (∀ chunk : list Z, chunk ≠ [] → (0 < length chunk)%nat) as Hne.
  { intros [|? ?]; simpl; [done|lia]. }
  destruct (decide (cs_buf_size (d_alloc d) ≤ d_to_read d1)%nat) as [Hle|Hgt].
  - exists (d_read_pos d1), (d_to_read d1), d1. split; [done|]. split; [done|]. split; [done|].
    intros chunk Hchunk Hok Hlen Hbuf.
    destruct (store_region chunk d1 buf Hr ltac:(lia)) as (buf' & Hst & Hlen' & Htake).
    exists (with_region buf' d1). split; [done|].
    destruct (with_region_fields buf' d1) as (En & Erp & Et & Eal & Ear).
    assert (take (offset (d_read_pos d1)) buf' = take (offset (d_read_pos d1)) buf) as Hpre.
    { apply (f_equal (take (offset (d_read_pos d1)))) in Htake.
      rewrite take_take, Nat.min_l in Htake by lia. rewrite Htake.
      rewrite take_app_le by (rewrite length_take; lia). rewrite take_take. f_equal. lia. }
    split; [|lia]. split.
    + apply v1_rest_alloc; [by eapply v1_rest_region|by rewrite Ear; apply (v1r_arena _ _ Hrest1)|].
      rewrite Eal. cbn. specialize (Hne _ Hchunk). lia.
    + split; [done|]. right. right. cbn [with_alloc d_read_pos d_to_read]. rewrite Erp, Et.
      split; [done|]. split; [lia|]. exists buf'. split.
      * apply (region_with buf buf') in Hr. unfold region in *. cbn. rewrite Erp in *. exact Hr.
      * apply (f_equal (drop (offset (d_read_pos d1)))) in Htake.
        rewrite skipn_firstn_comm in Htake. rewrite drop_app_ge in Htake by (rewrite length_take; lia).
        rewrite length_take, Nat.min_l, Nat.sub_diag, drop_0 in Htake by lia.
        rewrite <- Htake at 2. f_equal. lia.
  - exists (PArena 0), (cs_buf_size (d_alloc d)), d1. split; [done|]. split; [lia|]. split; [done|].
    intros chunk Hchunk Hok Hlen Hbuf. unfold store.
    destruct (poke_spec 0 chunk (d_arena d1)) as (ar' & -> & Hlen' & Htake).
    { rewrite (v1r_arena _ _ Hrest1). lia. }
    cbn [mbind option_bind]. eexists. split; [done|].
    split; [|intros E; by apply (region_not_arena buf 0%nat d1 Hr) in E]. split.
    + destruct Hrest1 as [H1 H2 H3 H4]. split; try done.
      * cbn [d_arena with_alloc]. by rewrite Hlen'.
      * cbn. specialize (Hne _ Hchunk). lia.
    + split; [done|]. right. left. exists 0%nat. split; [done|]. cbn [d_arena with_alloc].
      rewrite drop_0. exact Htake.
Qed.

Lemma v1_repr_push pos bs input d p :
  v1_repr pos (bs ++ input) d p → bs ≠ [] → (length bs < need p)%nat →
  ∃ d', (if decide (d_read_pos d = pos) then Some d else store (d_read_pos d) bs d) = Some d' ∧
        d_to_read d' = d_to_read d ∧
        v1_repr (ptr_add pos (length bs)) input (moved (length bs) d') (push p bs).
Proof.
  intros [Hrest Hsrc] Hne Hlt. destruct (v1_region d p Hrest) as (buf & Hr & Hneed & Hpos & Hroom).
  change (need p) with (v1_need p) in Hlt. rewrite <- Hneed in Hlt.
  assert (bytes_ok bs) as Hok by (by destruct Hsrc as [[? ?]%Forall_app _]).
  destruct (fetch bs input pos d buf Hr Hne ltac:(lia) Hroom Hsrc) as (buf' & -> & Hlen & Htake & Hs').
  eexists. split; [done|]. split; [apply with_region_fields|]. split; [|done].
  apply (v1_matches_push d p buf buf' bs); try done. destruct bs; [done|]. simpl in *. lia.
Qed.

Lemma v1_repr_finish pos bs input d p :
  v1_repr pos (bs ++ input) d p → length bs = need p →
  ∃ d' rc d'',
    (if decide (d_read_pos d = pos) then Some d else store (d_read_pos d) bs d) = Some d' ∧
    run_steps step_fuel (moved (length bs) d') (ptr_add pos (length bs)) = Some (rc, d'') ∧
    (rc = DErr ENOMEM ∧ v1_oom ∨
     match finish p bs with
     | OErr e => rc = DErr e
     | OMore q => rc = DMore ∧ v1_repr (ptr_add pos (length bs)) input d'' q
     | OFrame f q =>
         rc = DDone ∧ (take_msg d'').1 = f ∧
         v1_repr (ptr_add pos (length bs)) input (take_msg d'').2 q ∧
         (input ≠ [] → d_read_pos (take_msg d'').2 ≠ ptr_add pos (length bs))
     end).
Proof.
  intros [Hrest Hsrc] Hlen. destruct (v1_region d p Hrest) as (buf & Hr & Hneed & Hpos & Hroom).
  change (need p) with (v1_need p) in Hlen. rewrite <- Hneed in Hlen.
  assert (bytes_ok bs) as Hok by (by destruct Hsrc as [[? ?]%Forall_app _]).
  destruct (fetch bs input pos d buf Hr) as (buf' & Hst & Hlen' & Htake & _); try done.
  { destruct bs; [simpl in *; lia|done]. }
  { lia. }
  rewrite Hst. clear Hst.
  destruct (v1_matches_finish d p buf buf' bs (ptr_add pos (length bs)) Hrest Hr Hlen Hlen' Hok Htake)
    as (rc & d'' & Hrun & Har & Hout).
  exists (with_region buf' d), rc, d''. split; [done|]. split; [done|].
  destruct Hout as [[-> ?]|Hout]; [by left|right]. change (finish p bs) with (v1_finish max_msg_size p bs).
  destruct (v1_finish max_msg_size p bs) as [e|q|f q]; [done|..].
  - destruct Hout as [-> ?]. split; [done|]. split; [done|]. by eapply src_ok_done.
  - destruct Hout as (-> & ? & Hq). split; [done|]. split; [done|].
    destruct (src_ok_done bs input pos d (take_msg d'').2 Hsrc Hlen Har) as [Hs Har'].
    split; [done|]. intros [o ->]%Har'. destruct (v1_region _ _ Hq) as (b & Hb & _).
    by eapply region_not_arena.
Qed.

#[local, refine] Instance v1_decoder_laws : DecoderLaws (T := v1_dstep) uninit v1_state := {
  repr := v1_repr;
  rest := v1_rest;
  oom := v1_oom;
  may_read k := (k ≤ bufsize)%nat;
  repr_need := _; repr_push := v1_repr_push; repr_finish := v1_repr_finish;
  rest_read := v1_rest_read; repr_rest := _;
}.
Proof.
  - intros pos input d p [Hrest _]. destruct (v1_region d p Hrest) as (_ & _ & Hneed & Hpos & _).
    change (need p) with (v1_need p). rewrite <- Hneed. done.
  - by intros pos d p [? _].
Defined.

Lemma v1_decoder_new_rest junk :
  length junk = 8%nat → (0 < bufsize)%nat → v1_rest (v1_decoder_new bufsize junk) V1Size.
Proof.
  intros Hj Hb. split; try done. cbn [v1_decoder_new d_arena].
  rewrite Huninit by lia. lia.
Qed.

Lemma v1_receive_spec reads input junk :
  length junk = 8%nat → (0 < bufsize)%nat → bytes_ok input → Forall (λ k, k ≤ bufsize)%nat reads →
  ∃ fs r c input', receive uninit reads input (v1_decoder_new bufsize junk) = Some (fs, r, input') ∧
    input = c ++ input' ∧ agrees v1_rest v1_oom (fs, r) (v1_parse max_msg_size V1Size c).
Proof.
  intros Hj Hb Hok Hreads.
  apply (receive_spec (H3 := v1_decoder_laws) uninit reads input (v1_decoder_new bufsize junk) V1Size);
    [|done|].
  - by apply v1_decoder_new_rest.
  - eapply Forall_impl; [done|]. intros k Hk j Hj'.
    change (k ≤ bufsize)%nat in Hk. change (j ≤ bufsize)%nat. lia.
Qed.
End v1.

(** ** Properties *)

(** The ZMTP/1.0 decoder, driven by the engine, refines the ZMTP/1.0 parser on
    any input, valid or not: however the bytes are split into reads of at most
    the buffer size, no write leaves its buffer, the messages delivered and the
    error met are those of the parser on the bytes read (or memory runs out). *)
Theorem v1_decoder_refines uninit malloc_ok max_msg_size bufsize junk reads input
  (Huninit : ∀ n, 0 ≤ n → length (uninit n) = Z.to_nat n)
  (Hjunk : length junk = 8%nat) (Hbuf : (0 < bufsize)%nat) (Hinput : bytes_ok input)
  (Hreads : Forall (λ k, k ≤ bufsize)%nat reads) :
  ∃ fs r c input',
    receive (H0 := v1_is_decoder uninit malloc_ok max_msg_size) uninit reads input
            (v1_decoder_new uninit bufsize junk) = Some (fs, r, input') ∧
    input = c ++ input' ∧
    match r with
    | inl d => ∃ q, v1_parse max_msg_size V1Size c = (fs, inl q) ∧ v1_matches d q
    | inr e => e = ENOMEM ∧ v1_oom uninit malloc_ok max_msg_size ∧
               fs `prefix_of` (v1_parse max_msg_size V1Size c).1 ∨
               v1_parse max_msg_size V1Size c = (fs, inr e)
    end.
Proof.
  destruct (v1_receive_spec uninit malloc_ok max_msg_size Huninit bufsize reads input junk
    Hjunk Hbuf Hinput Hreads) as (fs & r & c & input' & Hrun & Heq & Hag).
  exists fs, r, c, input'. split; [done|]. split; [done|].
  unfold agrees in Hag. destruct (v1_parse max_msg_size V1Size c) as [gs r'].
  cbn [fst snd] in *. destruct r as [d|e].
  - destruct Hag as [-> (q & -> & Hrest)]. exists q. split; [done|]. apply (v1r_matches _ _ _ Hrest).
  - destruct Hag as [[[-> ?] ?]|[-> ->]]; [by left|by right].
Qed.

(** The decoder with the default buffer of [in_batch_size] bytes and no bound on
    the size of messages. *)
Definition sample_uninit (n : Z) : list Z := replicate (Z.to_nat n) 0.
Definition v1_receive (bufsize : nat) (reads : list nat) (input : list Z) :=
  receive (H0 := v1_is_decoder sample_uninit (λ _, true) (-1)) sample_uninit reads input
          (v1_decoder_new sample_uninit bufsize (replicate 8 0)).

Lemma sample_uninit_length n : 0 ≤ n → length (sample_uninit n) = Z.to_nat n.
Proof. intros _. apply length_replicate. Qed.

Lemma v1_decoder_refines_witness :
  let input := v1_wire (Frame 1 [65; 66]) ++ v1_wire (Frame 0 (replicate 20 7)) in
  ∃ fs r c input', v1_receive 8 [1; 5; 3; 8; 8; 8]%nat input = Some (fs, r, input') ∧ input = c ++ input'.
Proof.
  intros input.
  destruct (v1_decoder_refines sample_uninit (λ _, true) (-1) 8 (replicate 8 0)
    [1; 5; 3; 8; 8; 8]%nat input sample_uninit_length eq_refl ltac:(lia)
    ltac:(repeat constructor; vm_compute; done) ltac:(repeat constructor; lia))
    as (fs & r & c & input' & H1 & H2 & _).
  exists fs, r, c, input'. exact (conj H1 H2).
Defined.

(** Without the bound on the reads the buffer overflows: [resize_buffer] makes
    [c_single_allocator] report as its capacity the size of the last read, which
    may have gone straight into a large message; the next read into the 8192-byte
    buffer is then allowed more than that.  Here a peer sends a message of 30000
    bytes and one of 9000, both well formed. *)
Theorem v1_decoder_overflow :
  let input := v1_wire (Frame 0 (replicate (Z.to_nat 30000) 7)) ++
               v1_wire (Frame 0 (replicate (Z.to_nat 9000) 7)) in
  match v1_receive (Z.to_nat 8192) [Z.to_nat 8192; Z.to_nat 21817] input with
  | Some (_, inl d, _) => Z.of_nat (cs_buf_size (d_alloc d)) = 21817 ∧
                          Z.of_nat (cs_malloced (d_alloc d)) = 8192
  | _ => False
  end ∧
  v1_receive (Z.to_nat 8192) [Z.to_nat 8192; Z.to_nat 21817; Z.to_nat 20000] input = None.
Proof. vm_compute. done. Qed.
