(* ===== verification/V2Decoder.v ===== *)
(** * The ZMTP/2.0 decoder (src/v2_decoder.cpp, raw_decoder.cpp)

    The step functions of [v2_decoder_t] over [shared_message_memory_allocator],
    with messages that lie in the receive buffer ([SArena]), and their refinement
    of the ZMTP/2.0 parser. *)

From S2P Require Import Prelude Wire Msg Codec Allocator Decoder V1Decoder.

#[export] Instance shared_is_allocator : Allocator shared_allocator := {
  a_allocate := sa_allocate;
  a_size := sa_size;
  a_resize := sa_resize;
}.

Inductive v2_dstep : Type :=
| D2_flags_ready
| D2_one_byte_size_ready
| D2_eight_byte_size_ready
| D2_message_ready.

(** The next step and [_msg_flags]. *)
Record v2_member : Type := V2D { v2_dnext : v2_dstep; v2_dflags : Z }.

Section v2.
Context (uninit : Z → list Z) (malloc_ok : Z → bool) (max_msg_size : Z) (zero_copy : bool).

Abbreviation dec2 := (dec v2_member shared_allocator).

Definition v2_flags_ready (d : dec2) : option (drc * dec2) :=
  b ← d_tmp d !! 0%nat;
  let flags := 0 in
  let flags := if flag_set b more_flag then Z.lor flags flag_more else flags in
  let flags := if flag_set b command_flag then Z.lor flags flag_command else flags in
  Some (DMore,
        if flag_set b large_flag
        then set_next (PTmp 0) 8 (V2D D2_eight_byte_size_ready flags) d
        else set_next (PTmp 0) 1 (V2D D2_one_byte_size_ready flags) d).

(** [_in_progress.init (read_pos, n, call_dec_ref, buffer, content)]: small
    messages are copied, others stay in the buffer and take a counter and a
    reference. *)
Definition v2_init_zero_copy (o : nat) (n : Z) (d : dec2) : option (dmsg * dec2) :=
  if n <? Msg.max_vsm_size then
    Some (DMsg 0 (SOwn (take (Z.to_nat n) (drop o (d_arena d)))), d)
  else
    a ← sa_new_message (d_alloc d);
    Some (DMsg 0 (SArena o (Z.to_nat n)), with_alloc a (d_arena d) d).

(** The bytes of the buffer from [read_pos] on. *)
Definition v2_room (pos : ptr) (d : dec2) : option Z :=
  match pos with
  | PArena o => Some (Z.of_nat (a_size (d_alloc d)) - Z.of_nat o)
  | _ => None
  end.

Definition v2_size_ready (n : Z) (pos : ptr) (d : dec2) : option (drc * dec2) :=
  if (0 <=? max_msg_size) && (max_msg_size <? n) then Some (DErr EMSGSIZE, d)
  else if negb (n =? u64 n) then Some (DErr EMSGSIZE, d)
  else
    copy ← (if negb zero_copy then Some true
            else room ← v2_room pos d; Some (u64 room <? n));
    '(m, d) ← (if copy : bool then Some (dmsg_init_size uninit malloc_ok n, d)
               else '(m, d) ← v2_init_zero_copy (offset pos) n d; Some (Some m, d));
    Some match m with
         | None => (DErr ENOMEM, with_msg dmsg_init d)
         | Some m =>
             let m := DMsg (Z.lor (dm_flags m) (v2_dflags (d_next d))) (dm_store m) in
             (DMore, set_next (dm_data m) (dm_size m)
                              (V2D D2_message_ready (v2_dflags (d_next d))) (with_msg m d))
         end.

Definition v2_one_byte_size_ready (pos : ptr) (d : dec2) : option (drc * dec2) :=
  b ← d_tmp d !! 0%nat; v2_size_ready b pos d.

Definition v2_eight_byte_size_ready (pos : ptr) (d : dec2) : option (drc * dec2) :=
  n ← get_uint64 (d_tmp d); v2_size_ready n pos d.

Definition v2_message_ready (d : dec2) : option (drc * dec2) :=
  Some (DDone, set_next (PTmp 0) 1 (V2D D2_flags_ready (v2_dflags (d_next d))) d).

#[local] Instance v2_is_decoder : Decoder v2_member shared_allocator := {
  d_run d pos := match v2_dnext (d_next d) with
                 | D2_flags_ready => v2_flags_ready d
                 | D2_one_byte_size_ready => v2_one_byte_size_ready pos d
                 | D2_eight_byte_size_ready => v2_eight_byte_size_ready pos d
                 | D2_message_ready => v2_message_ready d
                 end;
}.

(** Construction; the base class asks for a first buffer. *)
Definition v2_decoder_new (bufsize : nat) (junk : list Z) : option dec2 :=
  a ← sa_allocate (sa_new bufsize);
  Some (Dec (V2D D2_flags_ready 0) (PTmp 0) 1 a (uninit (Z.of_nat bufsize)) junk dmsg_init).

(** ** Refinement *)

Hypothesis Huninit : ∀ n, 0 ≤ n → length (uninit n) = Z.to_nat n.
Context (bufsize : nat).
Hypothesis Hbufsize : (8 < bufsize)%nat.
Hypothesis Hbufmax : Z.of_nat bufsize < 18446744073709551616.

(** The state between two reads: nothing lies in the receive buffer. *)
Definition v2_matches (d : dec2) (p : v2_state) : Prop :=
  match p with
  | V2Flags => v2_dnext (d_next d) = D2_flags_ready ∧ d_read_pos d = PTmp 0 ∧ d_to_read d = 1%nat
  | V2Size1 fl =>
      d_next d = V2D D2_one_byte_size_ready fl ∧ d_read_pos d = PTmp 0 ∧ d_to_read d = 1%nat
  | V2Size8 fl acc =>
      d_next d = V2D D2_eight_byte_size_ready fl ∧ d_read_pos d = PTmp (length acc) ∧
      d_to_read d = (8 - length acc)%nat ∧ (length acc < 8)%nat ∧
      take (length acc) (d_tmp d) = acc ∧ bytes_ok acc
  | V2Body fl n acc =>
      v2_dnext (d_next d) = D2_message_ready ∧ d_read_pos d = PMsg (length acc) ∧
      d_to_read d = (n - length acc)%nat ∧ (length acc < n)%nat ∧
      ∃ bytes, d_msg d = DMsg fl (SOwn bytes) ∧ length bytes = n ∧ take (length acc) bytes = acc
  end.

(** The allocator has a buffer, of the size it was made with. *)
Record v2_alloc (a : shared_allocator) : Prop := {
  v2a_buf : ∃ b, sa_buf a = Some b ∧ is_Some (sa_mem a !! b);
  v2a_max : sa_max_size a = bufsize;
  v2a_counters : sa_max_counters a = ((bufsize + (max_vsm_size - 1)) / max_vsm_size)%nat;
}.

Record v2_rest (d : dec2) (p : v2_state) : Prop := {
  v2r_tmp : length (d_tmp d) = 8%nat;
  v2r_arena : length (d_arena d) = bufsize;
  v2r_alloc : v2_alloc (d_alloc d);
  v2r_matches : v2_matches d p;
}.

(** Zero-copy messages made so far take a counter for every [max_vsm_size] bytes
    before [o]. *)
Definition counters_ok (o : nat) (a : shared_allocator) : Prop :=
  ∃ k, sa_msg_content a = Some k ∧ (max_vsm_size * k ≤ o)%nat ∧ (sa_buf_size a ≤ bufsize)%nat.

(** The message in progress lies in the receive buffer, from [o] to [o + n]. *)
Definition v2_in_arena (pos : ptr) (input : list Z) (d : dec2) (p : v2_state) : Prop :=
  ∃ fl n acc o, p = V2Body fl n acc ∧ v2_dnext (d_next d) = D2_message_ready ∧
    d_msg d = DMsg fl (SArena o n) ∧ pos = PArena (o + length acc) ∧ d_read_pos d = pos ∧
    d_to_read d = (n - length acc)%nat ∧ (length acc < n)%nat ∧
    take (length acc) (drop o (d_arena d)) = acc ∧ (n - length acc ≤ length input)%nat ∧
    counters_ok (o + n) (d_alloc d).

Record v2_repr (pos : ptr) (input : list Z) (d : dec2) (p : v2_state) : Prop := {
  v2p_tmp : length (d_tmp d) = 8%nat;
  v2p_arena : length (d_arena d) = bufsize;
  v2p_alloc : v2_alloc (d_alloc d);
  v2p_src : src_ok pos input d;
  v2p_end : ∀ o, pos = PArena o → (o + length input)%nat = sa_buf_size (d_alloc d);
  v2p_body : input ≠ [] → (∃ o, pos = PArena o) ∨ (∃ fl n acc, p = V2Body fl n acc);
  v2p_state :
    v2_matches d p ∧ (∀ o, pos = PArena o → counters_ok o (d_alloc d)) ∨
    v2_in_arena pos input d p;
}.

Lemma new_message_ok o n a :
  v2_alloc a → counters_ok o a → (max_vsm_size ≤ n)%nat → (o + n ≤ sa_buf_size a)%nat →
  ∃ a', sa_new_message a = Some a' ∧ v2_alloc a' ∧ counters_ok (o + n) a' ∧
        sa_buf_size a' = sa_buf_size a.
Proof.
  intros [(b & Hb & [v Hv]) Hmax Hcnt] (k & Hk & Hle & Hsz) Hn Hend.
  assert (k < sa_max_counters a)%nat as Hlt.
  { rewrite Hcnt. unfold max_vsm_size in *. apply Nat.div_le_lower_bound; lia. }
  unfold sa_new_message, sa_provide_content. rewrite Hk. cbn [mbind option_bind].
  rewrite bool_decide_eq_true_2 by done. cbn [zmq_assert mbind option_bind].
  unfold sa_inc_ref. cbn [sa_advance_content sa_buf sa_mem]. rewrite Hb. cbn [mbind option_bind].
  rewrite Hv. cbn [mbind option_bind]. eexists. split; [done|]. split; [|split; [|done]].
  - split; cbn; [|done|done]. exists b. split; [done|]. rewrite lookup_insert_eq. by eexists.
  - exists (S k). cbn. rewrite Hk. split; [done|]. split; [|done]. unfold max_vsm_size in *. lia.
Qed.

(** A message of an acceptable size cannot be allocated. *)
Definition v2_oom : Prop :=
  ∃ n, 0 ≤ n < 2 ^ 64 ∧ too_big max_msg_size n = false ∧
       dmsg_init_size uninit malloc_ok n = None.

(** The outcome of a step against that of the parser. *)
Definition v2_outcome (pos : ptr) (input : list Z) (o : outcome v2_state) (rc : drc) (d' : dec2) : Prop :=
  rc = DErr ENOMEM ∧ v2_oom ∨
  match o with
  | OErr e => rc = DErr e
  | OMore q => rc = DMore ∧ v2_repr pos input d' q
  | OFrame f q => rc = DDone ∧ (take_msg d').1 = f ∧ v2_repr pos input (take_msg d').2 q
  end.

Section size.
Context (o : nat) (input : list Z) (d : dec2).
Let pos := PArena o.
Hypothesis Htmp : length (d_tmp d) = 8%nat.
Hypothesis Harena : length (d_arena d) = bufsize.
Hypothesis Halloc : v2_alloc (d_alloc d).
Hypothesis Hok : bytes_ok input.
Hypothesis Hin : take (length input) (drop o (d_arena d)) = input.
Hypothesis Hend : (o + length input)%nat = sa_buf_size (d_alloc d).
Hypothesis Hcount : counters_ok o (d_alloc d).
Hypothesis Hto : d_to_read d = 0%nat.

(** A state that keeps the buffers. *)
Lemma v2_repr_keep d' q :
  d_tmp d' = d_tmp d → d_arena d' = d_arena d → d_alloc d' = d_alloc d → v2_matches d' q →
  v2_repr pos input d' q.
Proof.
  intros E1 E2 E3 Hm. split; rewrite ?E1, ?E2, ?E3; try done.
  - split; [done|]. right. left. exists o. by rewrite E2.
  - by intros o' [= <-].
  - intros _. left. by exists o.
  - left. split; [done|]. by intros o' [= <-].
Qed.

(** The message has memory of its own. *)
Lemma v2_own_step fl n bytes :
  0 ≤ n → length bytes = Z.to_nat n → too_big max_msg_size n = false →
  let m := DMsg fl (SOwn bytes) in
  d_run d pos = Some (DMore, set_next (dm_data m) (dm_size m) (V2D D2_message_ready fl) (with_msg m d)) →
  ∃ rc d', run_steps step_fuel d pos = Some (rc, d') ∧
           v2_outcome pos input (v2_body max_msg_size fl n) rc d'.
Proof.
  intros Hn Hlen Hbig m Hrun. unfold v2_body. rewrite Hbig.
  unfold m, dm_data, dm_size in Hrun; cbn [dm_store] in Hrun.
  destruct (decide (Z.to_nat n = 0%nat)) as [H0|H0].
  - destruct bytes; [|simpl in Hlen; lia]. do 2 eexists. split.
    + unfold step_fuel. rewrite (run_again _ _ _ _ Hto Hrun). by apply run_stop.
    + right. split; [done|]. split; [done|]. by apply v2_repr_keep.
  - do 2 eexists. split; [apply run_more; [done|exact Hrun|simpl; lia]|]. right. split; [done|].
    apply v2_repr_keep; try done. cbn [v2_matches length]. split_and!; try done; try (simpl; lia).
    exists bytes. split_and!; try done.
Qed.

(** [size_ready] is the parser's [v2_body]. *)
Lemma v2_size_step fl n :
  v2_dflags (d_next d) = fl → 0 ≤ n < 2 ^ 64 → d_run d pos = v2_size_ready n pos d →
  ∃ rc d', run_steps step_fuel d pos = Some (rc, d') ∧
           v2_outcome pos input (v2_body max_msg_size fl n) rc d'.
Proof.
  intros Hfl Hn Hrun. unfold v2_size_ready in Hrun.
  change ((0 <=? max_msg_size) && (max_msg_size <? n)) with (too_big max_msg_size n) in Hrun.
  destruct (too_big max_msg_size n) eqn:Hbig.
  { do 2 eexists. split; [by apply run_stop|]. right. unfold v2_body. by rewrite Hbig. }
  rewrite u64_small, Z.eqb_refl in Hrun by done. cbn [negb] in Hrun.
  assert (d_run d pos = Some match dmsg_init_size uninit malloc_ok n with
       | None => (DErr ENOMEM, with_msg dmsg_init d)
       | Some m => let m := DMsg (Z.lor (dm_flags m) fl) (dm_store m) in
                   (DMore, set_next (dm_data m) (dm_size m) (V2D D2_message_ready fl) (with_msg m d))
       end →
    ∃ rc d', run_steps step_fuel d pos = Some (rc, d') ∧
             v2_outcome pos input (v2_body max_msg_size fl n) rc d') as Hcopy.
  { destruct (dmsg_init_size uninit malloc_ok n) as [m|] eqn:Hm; intros Hr.
    - apply (dmsg_init_size_spec uninit malloc_ok Huninit) in Hm as (bytes & -> & Hlen); [|lia].
      apply (v2_own_step fl n bytes); [lia|done|done|exact Hr].
    - do 2 eexists. split; [by apply run_stop|]. left. split; [done|]. by exists n. }
  destruct zero_copy; cbn [negb mbind option_bind] in Hrun; [|by rewrite Hfl in Hrun; apply Hcopy].
  unfold v2_room in Hrun. cbn [pos mbind option_bind] in Hrun.
  change (a_size (d_alloc d)) with (sa_buf_size (d_alloc d)) in Hrun.
  pose proof Hcount as (k & _ & _ & Hsz).
  rewrite <- Hend, Nat2Z.inj_add, Z.add_simpl_l in Hrun. rewrite u64_small in Hrun by lia.
  destruct (Z.ltb_spec (Z.of_nat (length input)) n) as [Hgt|Hle];
    cbn [mbind option_bind] in Hrun; [by rewrite Hfl in Hrun; apply Hcopy|].
  unfold v2_init_zero_copy in Hrun. cbn [offset] in Hrun.
  destruct (Z.ltb_spec n Msg.max_vsm_size) as [Hsmall|Hlarge].
  - cbn [mbind option_bind dm_flags dm_store] in Hrun. rewrite Hfl in Hrun.
    apply (v2_own_step fl n (take (Z.to_nat n) (drop o (d_arena d)))); [lia| |done|exact Hrun].
    assert (length (take (length input) (drop o (d_arena d))) = length input) as Hl by (by rewrite Hin).
    rewrite length_take in *. lia.
  - unfold Msg.max_vsm_size in Hlarge.
    destruct (new_message_ok o (Z.to_nat n) (d_alloc d) Halloc Hcount) as (a' & Ha & Halloc' & Hcount' & Hsz').
    { unfold max_vsm_size. lia. }
    { lia. }
    rewrite Ha in Hrun. cbn [mbind option_bind dm_flags dm_store with_alloc d_next] in Hrun.
    rewrite Hfl in Hrun. rewrite Z.lor_0_l in Hrun.
    unfold dm_data, dm_size in Hrun; cbn [dm_store] in Hrun.
    do 2 eexists. split; [apply run_more; [done|exact Hrun|simpl; lia]|]. right.
    unfold v2_body. rewrite Hbig, decide_False by lia. split; [done|].
    split; try done.
    + split; [done|]. right. left. exists o. split; [done|]. exact Hin.
    + intros o' [= <-]. cbn [set_next with_msg with_alloc d_alloc]. by rewrite Hsz'.
    + intros _. left. by exists o.
    + right. exists fl, (Z.to_nat n), [], o. cbn [length]. rewrite Nat.add_0_r, Nat.sub_0_r.
      split_and!; try done; lia.
Qed.
End size.

Lemma v2_region d p :
  length (d_tmp d) = 8%nat → v2_matches d p →
  ∃ buf, region d = Some buf ∧ d_to_read d = v2_need p ∧ (0 < d_to_read d)%nat ∧
    (offset (d_read_pos d) + d_to_read d ≤ length buf)%nat.
Proof.
  intros Ht Hm. unfold region. destruct p as [|fl|fl acc|fl n acc]; simpl in Hm.
  - destruct Hm as (_ & -> & ->). eexists. split; [done|]. simpl. lia.
  - destruct Hm as (_ & -> & ->). eexists. split; [done|]. simpl. lia.
  - destruct Hm as (_ & -> & -> & ? & _). eexists. split; [done|]. simpl. lia.
  - destruct Hm as (_ & -> & -> & ? & bytes & -> & ? & _). eexists. split; [done|]. simpl. lia.
Qed.

Lemma v2_repr_need pos input d p :
  v2_repr pos input d p → d_to_read d = v2_need p ∧ (0 < v2_need p)%nat.
Proof.
  intros [Ht _ _ _ _ _ [[Hm _]|Ha]].
  - destruct (v2_region d p Ht Hm) as (_ & _ & Hn & ? & _). lia.
  - destruct Ha as (fl & n & acc & o & -> & _ & _ & _ & _ & Hto & ? & _). simpl. lia.
Qed.

(** Part of an item is stored. *)
Lemma v2_matches_push d p buf buf' bs :
  v2_matches d p → region d = Some buf → (0 < length bs < d_to_read d)%nat →
  length buf' = length buf → bytes_ok bs →
  take (offset (d_read_pos d) + length bs) buf' = take (offset (d_read_pos d)) buf ++ bs →
  v2_matches (moved (length bs) (with_region buf' d)) (v2_push p bs).
Proof.
  intros Hm Hr Hlt Hlen Hok Htake. destruct p as [|fl|fl acc|fl n acc]; simpl in Hm.
  - destruct Hm as (_ & _ & Hto). lia.
  - destruct Hm as (_ & _ & Hto). lia.
  - destruct Hm as (Hn & Hrp & Hto & ? & Hacc & Hbok). unfold region in Hr. rewrite Hrp in *.
    injection Hr as <-. simpl in Htake. rewrite Hacc in Htake. rewrite Hto in Hlt.
    unfold with_region, moved, set_next; rewrite Hrp; simpl.
    rewrite length_app, Htake. split_and!; try done; rewrite ?Hto; try lia.
    by apply Forall_app.
  - destruct Hm as (Hn & Hrp & Hto & ? & bytes & Hmsg & Hbl & Hacc).
    unfold region in Hr. rewrite Hrp in *. rewrite Hmsg in Hr. injection Hr as <-.
    simpl in Htake. rewrite Hacc in Htake. rewrite Hto in Hlt.
    unfold with_region, moved, set_next; rewrite Hrp, Hmsg; simpl.
    rewrite length_app. split_and!; rewrite ?Hto, ?Hrp; try done; try lia.
    exists buf'. split_and!; [done|lia|done].
Qed.

Lemma with_region_tmp buf buf' (d : dec2) :
  region d = Some buf → length buf' = length buf → length (d_tmp (with_region buf' d)) = length (d_tmp d).
Proof. unfold with_region, region. destruct (d_read_pos d); simpl; try done. by intros [= <-]. Qed.

(** Input that follows the bytes just taken, in the receive buffer. *)
Lemma src_ok_arena o bs input (d d' : dec2) :
  src_ok (PArena o) (bs ++ input) d → d_arena d' = d_arena d →
  take (length bs) (drop o (d_arena d)) = bs ∧ bytes_ok bs ∧
  src_ok (PArena (o + length bs)) input d'.
Proof.
  intros [Hok Hsrc] Har. apply Forall_app in Hok as [Hok1 Hok2].
  destruct Hsrc as [Hnil|[(o' & [= <-] & Hin)|(Hrp & _ & buf & Hr & _)]].
  - apply app_eq_nil in Hnil as [-> ->]. split; [done|]. split; [done|]. split; [done|]. by left.
  - rewrite length_app in Hin. destruct (take_split _ _ _ _ _ _ Hin eq_refl) as [H1 H2].
    split; [done|]. split; [done|]. split; [done|]. right. left. eexists. split; [done|]. by rewrite Har.
  - unfold region in Hr. by rewrite <- Hrp in Hr.
Qed.

Lemma v2_repr_push pos bs input d p :
  v2_repr pos (bs ++ input) d p → bs ≠ [] → (length bs < v2_need p)%nat →
  ∃ d', (if decide (d_read_pos d = pos) then Some d else store (d_read_pos d) bs d) = Some d' ∧
        d_to_read d' = d_to_read d ∧
        v2_repr (ptr_add pos (length bs)) input (moved (length bs) d') (v2_push p bs).
Proof.
  intros Hrep Hne Hlt. destruct (v2_repr_need _ _ _ _ Hrep) as [Hneed _].
  destruct Hrep as [Ht Ha Hal Hsrc Hend Hbody Hst]. rewrite <- Hneed in Hlt.
  assert (0 < length bs)%nat by (destruct bs; simpl; [done|lia]).
  assert (input ≠ [] → (∃ o, ptr_add pos (length bs) = PArena o) ∨
    (∃ fl n acc, v2_push p bs = V2Body fl n acc)) as Hbody'.
  { intros _. destruct Hbody as [[o ->]|(fl & n & acc & ->)]; [|left; by eexists|right; by do 3 eexists].
    by destruct bs. }
  assert (∀ o, ptr_add pos (length bs) = PArena o →
    (o + length input)%nat = sa_buf_size (d_alloc d)) as Hend'.
  { intros o E. destruct pos; simplify_eq/=. rewrite <- (Hend _ eq_refl), length_app. lia. }
  destruct Hst as [[Hm Hcnt]|(fl & n & acc & o & -> & Hn & Hmsg & -> & Hrp & Hto & Hacc & Htk & Hfit & Hcnt)].
  - destruct (v2_region d p Ht Hm) as (buf & Hr & _ & Hpos & Hroom).
    assert (bytes_ok bs) as Hok by (by destruct Hsrc as [[? ?]%Forall_app _]).
    destruct (fetch bs input pos d buf Hr Hne ltac:(lia) Hroom Hsrc) as (buf' & -> & Hlen & Htake & Hs').
    destruct (with_region_fields buf' d) as (En & Erp & Et & Eal & Ear).
    exists (with_region buf' d). split; [done|]. split; [done|].
    split; try done; cbn [moved set_next d_tmp d_arena d_alloc]; rewrite ?Ear, ?Eal; try done.
    + by rewrite (with_region_tmp buf).
    + left. split; [by eapply v2_matches_push|]. intros o E. destruct pos; simplify_eq/=.
      destruct (Hcnt _ eq_refl) as (k & ? & ? & ?). exists k. split_and!; try done. lia.
  - rewrite Hto in Hlt. rewrite decide_True by done. exists d. split; [done|]. split; [done|].
    destruct (src_ok_arena _ _ _ _ (moved (length bs) d) Hsrc eq_refl) as (Hbs & Hok & Hsrc').
    split; try done. right. rewrite length_app in Hfit. exists fl, n, (acc ++ bs), o.
    cbn [moved set_next d_next d_msg d_read_pos d_to_read d_arena d_alloc v2_push ptr_add].
    rewrite length_app, Hrp, Hto. cbn [ptr_add].
    split_and!; try done; try lia; [f_equal; lia|].
    rewrite <- drop_drop in Hbs. rewrite <- take_take_drop. by rewrite Htk, Hbs.
Qed.

Lemma v2_msg_flags_eq b :
  (let flags := 0 in
   let flags := if flag_set b more_flag then Z.lor flags flag_more else flags in
   if flag_set b command_flag then Z.lor flags flag_command else flags) = v2_msg_flags b.
Proof. unfold v2_msg_flags. by destruct (flag_set b more_flag), (flag_set b command_flag). Qed.

(** The message in the receive buffer is complete. *)
Lemma v2_arena_finish pos bs input d p :
  v2_repr pos (bs ++ input) d p → v2_in_arena pos (bs ++ input) d p → length bs = v2_need p →
  ∃ rc d'', run_steps step_fuel (moved (length bs) d) (ptr_add pos (length bs)) = Some (rc, d'') ∧
    v2_outcome (ptr_add pos (length bs)) input (v2_finish max_msg_size p bs) rc d''.
Proof.
  intros [Ht Ha Hal Hsrc Hend _ _]
    (fl & n & acc & o & -> & Hn & Hmsg & -> & Hrp & Hto & Hacc & Htk & Hfit & Hcnt) Hlen.
  cbn [v2_need] in Hlen.
  destruct (src_ok_arena _ _ _ _ d Hsrc eq_refl) as (Hbs & Hok & [Hoki Hsrc']).
  set (d2 := moved (length bs) d).
  assert (d_run d2 (ptr_add (PArena (o + length acc)) (length bs)) = v2_message_ready d2) as Hrun.
  { cbn [d_run v2_is_decoder]. change (d_next d2) with (d_next d). by rewrite Hn. }
  do 2 eexists. split; [apply run_stop; [simpl; lia|exact Hrun|done]|]. right. cbn [v2_finish].
  split; [done|]. split.
  - unfold take_msg, dmsg_frame. cbn [fst set_next d_msg d2 moved d_arena].
    rewrite Hmsg. cbn [dm_flags dm_store]. f_equal.
    rewrite <- drop_drop in Hbs.
    replace n with (length acc + length bs)%nat by lia.
    rewrite <- take_take_drop. by rewrite Htk, Hbs.
  - specialize (Hend _ eq_refl). rewrite length_app in Hend.
    split; try done; cbn [take_msg snd with_msg set_next d2 moved d_alloc d_arena ptr_add].
    + split; [done|]. destruct Hsrc' as [?|[(o' & [= <-] & Hin)|(Hrp' & _ & buf & Hr & _)]].
      * by left.
      * right. left. eexists. split; [done|]. done.
      * unfold region in Hr. by rewrite Hrp in Hr.
    + intros o' [= <-]. lia.
    + intros _. left. by eexists.
    + left. split; [done|]. intros o' [= <-]. by replace (o + length acc + length bs)%nat with (o + n)%nat by lia.
Qed.

Lemma v2_matches_finish pos bs input d p buf buf' :
  v2_repr pos (bs ++ input) d p → v2_matches d p →
  (∀ o, pos = PArena o → counters_ok o (d_alloc d)) →
  region d = Some buf → length bs = d_to_read d → length buf' = length buf →
  take (offset (d_read_pos d) + length bs) buf' = take (offset (d_read_pos d)) buf ++ bs →
  ∃ rc d'', run_steps step_fuel (moved (length bs) (with_region buf' d)) (ptr_add pos (length bs))
              = Some (rc, d'') ∧
    v2_outcome (ptr_add pos (length bs)) input (v2_finish max_msg_size p bs) rc d''.
Proof.
  intros Hrep Hm Hcnt Hr Hto Hlen Htake.
  destruct (v2_repr_need _ _ _ _ Hrep) as [Hneed Hpos].
  destruct Hrep as [Ht Ha Hal Hsrc Hend Hbody _].
  destruct (with_region_fields buf' d) as (En & Erp & Et & Eal & Ear).
  assert (region (with_region buf' d) = Some buf') as Er by (by eapply region_with).
  pose proof (with_region_tmp buf buf' d Hr Hlen) as Etmp.
  set (d1 := with_region buf' d) in *. set (d2 := moved (length bs) d1).
  assert (d_to_read d2 = 0%nat) as H0 by (cbn [d2 moved set_next d_to_read]; lia).
  assert (bs ++ input ≠ []) as Hne by (destruct bs; simpl in *; [lia|done]).
  assert (bytes_ok bs) as Hok by (by destruct Hsrc as [[? ?]%Forall_app _]).
  assert (∀ o, pos = PArena o →
    length (d_tmp d2) = 8%nat ∧ length (d_arena d2) = bufsize ∧ v2_alloc (d_alloc d2) ∧
    bytes_ok input ∧ take (length input) (drop (o + length bs) (d_arena d2)) = input ∧
    (o + length bs + length input)%nat = sa_buf_size (d_alloc d2) ∧
    counters_ok (o + length bs) (d_alloc d2)) as Harena.
  { intros o ->. cbn [d2 moved set_next d_tmp d_arena d_alloc].
    rewrite Etmp, Ear, Eal. split_and!; try done.
    - destruct Hsrc as [Hoks _]. by apply Forall_app in Hoks as [_ ?].
    - destruct (src_ok_arena _ _ _ _ d Hsrc eq_refl) as (_ & _ & [_ Hs]).
      destruct Hs as [->|[(o' & [= <-] & ?)|(Hrp' & _ & b0 & Hr0 & _)]]; [done|done|].
      unfold region in Hr0. by rewrite <- Hrp' in Hr0.
    - rewrite <- (Hend _ eq_refl), length_app. lia.
    - destruct (Hcnt _ eq_refl) as (k & ? & ? & ?). exists k. split_and!; try done. lia. }
  destruct p as [|fl|fl acc|fl n acc]; cbn [v2_matches] in Hm.
  - destruct Hm as (Hn & Hrp & Hto1). rewrite Hto1 in Hto.
    rewrite (region_tmp _ _ _ Hrp Hr), Hrp in Htake.
    destruct (tmp_byte d buf' bs) as (b & -> & Hb); [done|done|done|]. fold d1 in Hb.
    destruct (Hbody Hne) as [[o ->]|(? & ? & ? & ?)]; [|done].
    destruct (Harena o eq_refl) as (A1 & A2 & A3 & A4 & A5 & A6 & A7).
    assert (d_run d2 (ptr_add (PArena o) 1) = v2_flags_ready d2) as Hrun.
    { cbn [d_run v2_is_decoder]. change (d_next d2) with (d_next d1). by rewrite En, Hn. }
    unfold v2_flags_ready in Hrun. change (d_tmp d2) with (d_tmp d1) in Hrun.
    rewrite Hb in Hrun. cbn [mbind option_bind] in Hrun.
    pose proof (v2_msg_flags_eq b) as Hfl. cbv zeta in Hfl, Hrun. rewrite Hfl in Hrun.
    cbn [v2_finish hd length].
    do 2 eexists. split; [apply run_more; [done|exact Hrun|by destruct (flag_set b large_flag)]|].
    right. split; [done|].
    apply (v2_repr_keep (o + 1) input d2); try done; destruct (flag_set b large_flag); try done.
    cbn [v2_matches length]. split_and!; try done; simpl; lia.
  - destruct Hm as (Hn & Hrp & Hto1). rewrite Hto1 in Hto.
    rewrite (region_tmp _ _ _ Hrp Hr), Hrp in Htake.
    destruct (tmp_byte d buf' bs) as (b & -> & Hb); [done|done|done|]. fold d1 in Hb.
    destruct (Hbody Hne) as [[o ->]|(? & ? & ? & ?)]; [|done].
    destruct (Harena o eq_refl) as (A1 & A2 & A3 & A4 & A5 & A6 & A7).
    apply Forall_cons in Hok as [Hbok _]. unfold byte_ok in Hbok.
    apply (v2_size_step (o + 1) input d2); try done.
    + change (v2_dflags (d_next d1) = fl). by rewrite En, Hn.
    + cbn [hd]. lia.
    + cbn [d_run v2_is_decoder]. change (d_next d2) with (d_next d1). rewrite En, Hn.
      cbn [v2_dnext]. unfold v2_one_byte_size_ready. change (d_tmp d2) with (d_tmp d1). by rewrite Hb.
  - destruct Hm as (Hn & Hrp & Hto1 & Hacc8 & Hacc & Haok). rewrite Hto1 in Hto.
    rewrite (region_tmp _ _ _ Hrp Hr), Hrp in Htake. cbn [offset] in Htake. rewrite Hacc in Htake.
    rewrite take_ge in Htake by (rewrite Hlen, (region_tmp _ _ _ Hrp Hr); lia).
    assert (d_tmp d2 = acc ++ bs) as Htmp.
    { change (d_tmp d1 = acc ++ bs). rewrite <- Htake. symmetry. eapply region_tmp; [|done].
      by rewrite Erp. }
    destruct (Hbody Hne) as [[o ->]|(? & ? & ? & ?)]; [|done].
    destruct (Harena o eq_refl) as (A1 & A2 & A3 & A4 & A5 & A6 & A7).
    assert (bytes_ok (acc ++ bs)) as Hok8 by (by apply Forall_app).
    assert (length (acc ++ bs) = 8%nat) as Hlen8 by (rewrite length_app; lia).
    pose proof (be_value_range _ Hok8) as Hrange. rewrite Hlen8 in Hrange.
    apply (v2_size_step (o + length bs) input d2); try done.
    + change (v2_dflags (d_next d1) = fl). by rewrite En, Hn.
    + cbn [d_run v2_is_decoder]. change (d_next d2) with (d_next d1). rewrite En, Hn.
      cbn [v2_dnext]. unfold v2_eight_byte_size_ready. by rewrite Htmp, get_uint64_be.
  - destruct Hm as (Hn & Hrp & Hto1 & Hacc8 & bytes & Hmsg & Hbl & Hacc). rewrite Hto1 in Hto.
    assert (buf = bytes) as ->.
    { unfold region in Hr. rewrite Hrp, Hmsg in Hr. by injection Hr. }
    rewrite Hrp in Htake. cbn [offset] in Htake. rewrite Hacc in Htake.
    rewrite take_ge in Htake by lia.
    assert (d_run d2 (ptr_add pos (length bs)) = v2_message_ready d2) as Hrun.
    { cbn [d_run v2_is_decoder]. change (d_next d2) with (d_next d1). by rewrite En, Hn. }
    do 2 eexists. split; [by apply run_stop|]. right. cbn [v2_finish]. split; [done|].
    assert (d_msg d1 = DMsg fl (SOwn (acc ++ bs))) as Hm1.
    { unfold d1, with_region. rewrite Hrp. cbn [d_msg with_msg]. by rewrite Hmsg, Htake. }
    split.
    + unfold take_msg, dmsg_frame. cbn [fst].
      match goal with |- context [d_msg (set_next ?a ?b ?c d2)] =>
        change (d_msg (set_next a b c d2)) with (d_msg d1) end.
      by rewrite Hm1.
    + destruct Hsrc as [_ [?|[(o & -> & _)|(-> & Hle & _)]]]; [done|..].
      * destruct (Harena o eq_refl) as (A1 & A2 & A3 & A4 & A5 & A6 & A7).
        by apply (v2_repr_keep (o + length bs) input d2).
      * assert (input = []) as ->.
        { rewrite length_app in Hle. destruct input; [done|simpl in Hle; lia]. }
        rewrite Hrp. split; try done.
        -- cbn [take_msg snd with_msg set_next d2 moved d_tmp]. by rewrite Etmp.
        -- cbn [take_msg snd with_msg set_next d2 moved d_arena]. by rewrite Ear.
        -- cbn [take_msg snd with_msg set_next d2 moved d_alloc]. by rewrite Eal.
        -- split; [done|]. by left.
        -- by left.
Qed.

Lemma v2_repr_finish pos bs input d p :
  v2_repr pos (bs ++ input) d p → length bs = v2_need p →
  ∃ d' rc d'',
    (if decide (d_read_pos d = pos) then Some d else store (d_read_pos d) bs d) = Some d' ∧
    run_steps step_fuel (moved (length bs) d') (ptr_add pos (length bs)) = Some (rc, d'') ∧
    v2_outcome (ptr_add pos (length bs)) input (v2_finish max_msg_size p bs) rc d''.
Proof.
  intros Hrep Hlen. destruct (v2_repr_need _ _ _ _ Hrep) as [Hneed Hpos].
  destruct (v2p_state _ _ _ _ Hrep) as [[Hm Hcnt]|Hin].
  - destruct (v2_region d p (v2p_tmp _ _ _ _ Hrep) Hm) as (buf & Hr & _ & _ & Hroom).
    destruct (fetch bs input pos d buf Hr) as (buf' & -> & Hlen' & Htake & _).
    { destruct bs; [simpl in *; lia|done]. }
    { lia. }
    { done. }
    { apply (v2p_src _ _ _ _ Hrep). }
    destruct (v2_matches_finish pos bs input d p buf buf') as (rc & d'' & ? & ?); try done; [lia|].
    by exists (with_region buf' d), rc, d''.
  - assert (d_read_pos d = pos) as Hrp by (by destruct Hin as (? & ? & ? & ? & _ & _ & _ & _ & ? & _)).
    rewrite decide_True by done.
    destruct (v2_arena_finish pos bs input d p Hrep Hin Hlen) as (rc & d'' & ? & ?).
    by exists d, rc, d''.
Qed.

(** ** Between two reads *)

Lemma allocate_ok a :
  v2_alloc a →
  ∃ a', sa_allocate a = Some a' ∧ v2_alloc a' ∧ sa_buf_size a' = bufsize ∧
        sa_msg_content a' = Some 0%nat.
Proof.
  intros [(b & Hb & [v Hv]) Hmax Hcnt]. unfold sa_allocate. rewrite Hb. unfold buf_sub. rewrite Hv.
  cbn [mbind option_bind]. destruct (u32 (v - 1) =? 0); cbn [negb mbind option_bind].
  - cbn [sa_buf with_mem sa_mem]. rewrite Hb, lookup_insert_eq. cbn [mbind option_bind].
    eexists. split; [done|]. split_and!; try done. split; try done.
    exists b. split; [done|]. cbn [sa_mem with_mem]. rewrite lookup_insert_eq. by eexists.
  - cbn [sa_release snd sa_clear sa_buf mbind option_bind]. eexists. split; [done|].
    split_and!; try done. split; try done.
    eexists. split; [done|]. cbn [sa_mem with_mem sa_clear]. rewrite lookup_insert_eq. by eexists.
Qed.

Lemma resize_ok n a : v2_alloc a → v2_alloc (sa_resize n a).
Proof. intros [? ? ?]. by split. Qed.

(** Bytes written ahead of time at [_read_pos] do not count yet. *)
Lemma v2_matches_region d p buf buf' :
  v2_matches d p → region d = Some buf → length buf' = length buf →
  take (offset (d_read_pos d)) buf' = take (offset (d_read_pos d)) buf →
  v2_matches (with_region buf' d) p.
Proof.
  intros Hm Hr Hlen Htake.
  destruct (with_region_fields buf' d) as (En & Erp & Et & _ & _).
  destruct p as [|fl|fl acc|fl n acc]; cbn [v2_matches] in *; rewrite ?En, ?Erp, ?Et; try done.
  - destruct Hm as (? & Hrp & ? & ? & Hacc & ?). split_and!; try done.
    rewrite Hrp in Htake. rewrite (region_tmp _ _ _ Hrp Hr) in Htake. cbn [offset] in Htake.
    rewrite <- Hacc at 2. rewrite <- Htake. unfold with_region. by rewrite Hrp.
  - destruct Hm as (? & Hrp & ? & ? & bytes & Hmsg & ? & Hacc). split_and!; try done.
    assert (buf = bytes) as ->.
    { unfold region in Hr. rewrite Hrp, Hmsg in Hr. by injection Hr. }
    exists buf'. split_and!.
    + unfold with_region. rewrite Hrp. cbn [d_msg with_msg]. by rewrite Hmsg.
    + lia.
    + rewrite Hrp in Htake. cbn [offset] in Htake. congruence.
Qed.

Lemma v2_rest_read d p :
  v2_rest d p →
  ∃ data n d1, get_buffer uninit d = Some (data, n, d1) ∧ (0 < n)%nat ∧ v2_rest d1 p ∧
    ∀ chunk, chunk ≠ [] → bytes_ok chunk → (length chunk ≤ n)%nat → True →
    ∃ d2, store data chunk d1 = Some d2 ∧
      v2_repr data chunk (with_alloc (a_resize (length chunk) (d_alloc d2)) (d_arena d2) d2) p ∧
      (d_read_pos d2 = data → length chunk ≤ v2_need p)%nat.
Proof.
  intros [Ht Ha Hal Hm]. unfold get_buffer. cbn [a_allocate a_size a_resize shared_is_allocator].
  destruct (allocate_ok _ Hal) as (a & -> & Hal1 & Hsz & Hcont). cbn [mbind option_bind].
  set (d1 := with_alloc a (uninit (Z.of_nat (length (d_arena d)))) d).
  assert (length (d_arena d1) = bufsize) as Ha1.
  { cbn [d1 with_alloc d_arena]. rewrite Huninit, Nat2Z.id by lia. done. }
  assert (v2_rest d1 p) as Hrest1 by (by split).
  assert (v2_matches d1 p) as Hm1 by done.
  destruct (v2_region d1 p Ht Hm1) as (buf & Hr & Hneed & Hpos & Hroom).
  unfold sa_size. rewrite Hsz.
  destruct (decide (bufsize ≤ d_to_read d1)%nat) as [Hle|Hgt].
  - exists (d_read_pos d1), (d_to_read d1), d1. split; [done|]. split; [done|]. split; [done|].
    intros chunk Hchunk Hok Hlen _.
    destruct (store_region chunk d1 buf Hr ltac:(lia)) as (buf' & Hst & Hlen' & Htake).
    exists (with_region buf' d1). split; [done|].
    destruct (with_region_fields buf' d1) as (En & Erp & Et & Eal & Ear).
    assert (∀ o, d_read_pos d1 ≠ PArena o) as Hrp by (intros o E; unfold region in Hr; by rewrite E in Hr).
    assert (take (offset (d_read_pos d1)) buf' = take (offset (d_read_pos d1)) buf) as Hpre.
    { apply (f_equal (take (offset (d_read_pos d1)))) in Htake.
      rewrite take_take, Nat.min_l in Htake by lia. rewrite Htake.
      rewrite take_app_le by (rewrite length_take; lia). rewrite take_take. f_equal. lia. }
    split; [|lia]. split; cbn [with_alloc d_tmp d_arena d_alloc].
    + by rewrite (with_region_tmp buf).
    + by rewrite Ear.
    + apply resize_ok. by rewrite Eal.
    + split; [done|]. right. right. cbn [with_alloc d_read_pos d_to_read]. rewrite Erp, Et.
      split; [done|]. split; [lia|]. exists buf'. split.
      * apply (region_with buf buf') in Hr. unfold region in *. cbn. rewrite Erp in *. exact Hr.
      * apply (f_equal (drop (offset (d_read_pos d1)))) in Htake.
        rewrite skipn_firstn_comm in Htake. rewrite drop_app_ge in Htake by (rewrite length_take; lia).
        rewrite length_take, Nat.min_l, Nat.sub_diag, drop_0 in Htake by lia.
        rewrite <- Htake at 2. f_equal. lia.
    + intros o E. by apply Hrp in E.
    + intros _. right. rewrite Hneed in Hle.
      destruct p as [|fl|fl acc|fl n acc]; cbn [v2_need] in Hle; [lia..|by do 3 eexists].
    + left. split; [|intros o E; by apply Hrp in E].
      change (v2_matches (with_region buf' d1) p). by eapply v2_matches_region.
  - exists (PArena 0), bufsize, d1. split; [done|]. split; [lia|]. split; [done|].
    intros chunk Hchunk Hok Hlen _. unfold store.
    destruct (poke_spec 0 chunk (d_arena d1)) as (ar' & -> & Hlen' & Htake); [lia|].
    cbn [mbind option_bind]. eexists. split; [done|].
    split; [|intros E; by apply (region_not_arena buf 0%nat d1 Hr) in E].
    split; try done; cbn [with_alloc d_tmp d_arena d_alloc].
    + lia.
    + by apply resize_ok.
    + split; [done|]. right. left. exists 0%nat. split; [done|]. cbn [d_arena with_alloc].
      rewrite drop_0. exact Htake.
    + intros o [= <-]. done.
    + intros _. left. by eexists.
    + left. split; [done|]. intros o [= <-]. exists 0%nat. split; [done|].
      cbn [sa_buf_size sa_resize]. lia.
Qed.

#[local] Instance this_parser : Parser v2_state := v2_parser max_msg_size.
#[local] Instance this_parser_laws : ParserLaws v2_state := v2_parser_laws max_msg_size.

Lemma v2_finish_frame p bs f q : v2_finish max_msg_size p bs = OFrame f q → q = V2Flags.
Proof.
  assert (∀ fl n, v2_body max_msg_size fl n = OFrame f q → q = V2Flags) as Hbody.
  { intros fl n. unfold v2_body. by repeat case_match; intros; simplify_eq. }
  destruct p; cbn [v2_finish]; try done; [apply Hbody..|]. by intros [= _ <-].
Qed.

Lemma v2_repr_finish_law pos bs input d p :
  v2_repr pos (bs ++ input) d p → length bs = need p →
  ∃ d' rc d'',
    (if decide (d_read_pos d = pos) then Some d else store (d_read_pos d) bs d) = Some d' ∧
    run_steps step_fuel (moved (length bs) d') (ptr_add pos (length bs)) = Some (rc, d'') ∧
    (rc = DErr ENOMEM ∧ v2_oom ∨
     match finish p bs with
     | OErr e => rc = DErr e
     | OMore q => rc = DMore ∧ v2_repr (ptr_add pos (length bs)) input d'' q
     | OFrame f q =>
         rc = DDone ∧ (take_msg d'').1 = f ∧
         v2_repr (ptr_add pos (length bs)) input (take_msg d'').2 q ∧
         (input ≠ [] → d_read_pos (take_msg d'').2 ≠ ptr_add pos (length bs))
     end).
Proof.
  intros Hrep Hlen. destruct (v2_repr_finish _ _ _ _ _ Hrep Hlen) as (d' & rc & d'' & H1 & H2 & H3).
  exists d', rc, d''. split; [done|]. split; [done|]. destruct H3 as [?|H3]; [by left|right].
  change (finish p bs) with (v2_finish max_msg_size p bs).
  destruct (v2_finish max_msg_size p bs) as [e|q|f q] eqn:E; [done..|].
  apply v2_finish_frame in E as ->. destruct H3 as (? & ? & Hq). split_and!; try done.
  intros Hne. destruct (v2p_body _ _ _ _ Hq Hne) as [[o ->]|(? & ? & ? & ?)]; [|done].
  destruct (v2p_state _ _ _ _ Hq) as [[(_ & -> & _) _]|(? & ? & ? & ? & ? & _)]; done.
Qed.

#[local, refine] Instance v2_decoder_laws : DecoderLaws (T := v2_member) uninit v2_state := {
  repr := v2_repr;
  rest := v2_rest;
  oom := v2_oom;
  may_read _ := True;
  repr_need := v2_repr_need; repr_push := v2_repr_push; repr_finish := v2_repr_finish_law;
  rest_read := v2_rest_read; repr_rest := _;
}.
Proof.
  intros pos d p [Ht Ha Hal _ _ _ [[Hm _]|Hin]]; [by split|].
  destruct Hin as (fl & n & acc & o & _ & _ & _ & _ & _ & _ & ? & _ & Hfit & _). simpl in Hfit. lia.
Defined.

Lemma v2_decoder_new_rest junk :
  length junk = 8%nat → ∃ d, v2_decoder_new bufsize junk = Some d ∧ v2_rest d V2Flags.
Proof.
  intros Hj. unfold v2_decoder_new, sa_allocate. cbn [sa_new sa_buf mbind option_bind].
  eexists. split; [done|]. split; try done.
  - cbn [d_arena]. rewrite Huninit by lia. lia.
  - split; try done. eexists. split; [done|]. cbn [d_alloc sa_mem with_mem].
    rewrite lookup_insert_eq. by eexists.
Qed.

Lemma v2_receive_spec reads input junk :
  length junk = 8%nat → bytes_ok input →
  ∃ d fs r c input', v2_decoder_new bufsize junk = Some d ∧
    receive uninit reads input d = Some (fs, r, input') ∧
    input = c ++ input' ∧ agrees v2_rest v2_oom (fs, r) (v2_parse max_msg_size V2Flags c).
Proof.
  intros Hj Hok. destruct (v2_decoder_new_rest junk Hj) as (d & Hd & Hrest).
  destruct (receive_spec (H3 := v2_decoder_laws) uninit reads input d V2Flags Hrest Hok)
    as (fs & r & c & input' & ? & ? & ?).
  - apply Forall_forall. done.
  - by exists d, fs, r, c, input'.
Qed.
End v2.

(** ** [raw_decoder_t] *)

Record raw_dec : Type := RawDec {
  raw_alloc : shared_allocator;
  raw_arena : list Z;
  raw_msg : dmsg;
}.

Definition raw_decoder_new (bufsize : nat) : raw_dec :=
  RawDec (sa_new_messages bufsize 1) [] dmsg_init.

Definition raw_get_buffer (uninit : Z → list Z) (d : raw_dec) : option (nat * raw_dec) :=
  a ← sa_allocate (raw_alloc d);
  Some (sa_size a, RawDec a (uninit (Z.of_nat (sa_max_size a))) (raw_msg d)).

(** [decode (data, n)] with [data] the start of the buffer: one message. *)
Definition raw_decode (n : nat) (d : raw_dec) : option (drc * nat * raw_dec) :=
  if Z.of_nat n <? Msg.max_vsm_size then
    Some (DDone, n, RawDec (raw_alloc d) (raw_arena d) (DMsg 0 (SOwn (take n (raw_arena d)))))
  else
    a ← sa_raw_message (raw_alloc d);
    Some (DDone, n, RawDec a (raw_arena d) (DMsg 0 (SArena 0 n))).

(** Reading [chunk] and decoding it. *)
Definition raw_receive (uninit : Z → list Z) (chunk : list Z) (d : raw_dec) :
    option (frame * raw_dec) :=
  '(n, d) ← raw_get_buffer uninit d;
  arena ← poke 0 (take n chunk) (raw_arena d);
  let d := RawDec (sa_resize (length (take n chunk)) (raw_alloc d)) arena (raw_msg d) in
  '(_, _, d) ← raw_decode (length (take n chunk)) d;
  Some (Frame (dm_flags (raw_msg d))
              (match dm_store (raw_msg d) with
               | SOwn bytes => bytes
               | SArena o k => take k (drop o (raw_arena d))
               end), d).

(** The state between two reads: the buffer, if any, is live and has a counter. *)
Record raw_ok (bufsize : nat) (d : raw_dec) : Prop := {
  ro_buf : ∀ b, sa_buf (raw_alloc d) = Some b → is_Some (sa_mem (raw_alloc d) !! b);
  ro_max : sa_max_size (raw_alloc d) = bufsize;
  ro_counters : sa_max_counters (raw_alloc d) = 1%nat;
}.

Lemma raw_allocate_ok bufsize d :
  raw_ok bufsize d →
  ∃ a b, sa_allocate (raw_alloc d) = Some a ∧ sa_buf a = Some b ∧ is_Some (sa_mem a !! b) ∧
    sa_max_size a = bufsize ∧ sa_max_counters a = 1%nat ∧ sa_buf_size a = bufsize ∧
    sa_msg_content a = Some 0%nat.
Proof.
  intros [Hb Hm Hc]. unfold sa_allocate. destruct (sa_buf (raw_alloc d)) as [b|] eqn:E.
  - destruct (Hb b eq_refl) as [v Hv]. unfold buf_sub. rewrite Hv. cbn [mbind option_bind].
    destruct (u32 (v - 1) =? 0); cbn [negb mbind option_bind].
    + cbn [sa_buf with_mem sa_mem]. rewrite E, lookup_insert_eq. cbn [mbind option_bind].
      do 2 eexists. split; [done|]. split; [done|]. split; [|done].
      cbn [sa_mem with_mem]. rewrite lookup_insert_eq. by eexists.
    + cbn [sa_release snd sa_clear sa_buf mbind option_bind].
      do 2 eexists. split; [done|]. split; [done|]. split; [|done].
      cbn [sa_mem with_mem sa_clear]. rewrite lookup_insert_eq. by eexists.
  - cbn [mbind option_bind]. rewrite E. cbn [mbind option_bind].
    do 2 eexists. split; [done|]. split; [done|]. split; [|done].
    cbn [sa_mem with_mem]. rewrite lookup_insert_eq. by eexists.
Qed.

Lemma raw_receive_spec uninit bufsize chunk d :
  (∀ n, 0 ≤ n → length (uninit n) = Z.to_nat n) → raw_ok bufsize d →
  ∃ d', raw_receive uninit chunk d = Some (Frame 0 (take bufsize chunk), d') ∧ raw_ok bufsize d'.
Proof.
  intros Huninit Hd. unfold raw_receive, raw_get_buffer.
  destruct (raw_allocate_ok bufsize d Hd) as (a & b & -> & Hb & Hl & Hm & Hc & Hsz & Hk).
  cbn [mbind option_bind]. unfold sa_size. rewrite Hsz. cbn [raw_arena raw_alloc raw_msg].
  set (c := take bufsize chunk).
  assert (length c ≤ bufsize)%nat by (unfold c; rewrite length_take; lia).
  destruct (poke_spec 0 c (uninit (Z.of_nat (sa_max_size a)))) as (ar & -> & Hlen & Htake).
  { rewrite Huninit, Nat2Z.id by lia. lia. }
  cbn [mbind option_bind]. unfold raw_decode. cbn [raw_arena raw_alloc raw_msg].
  change (take (length c) ar = c) in Htake.
  destruct (Z.of_nat (length c) <? Msg.max_vsm_size).
  - cbn [mbind option_bind raw_msg dm_store dm_flags]. rewrite Htake. eexists. split; [done|].
    split; cbn; try done. intros b'. rewrite Hb. by intros [= <-].
  - unfold sa_raw_message, sa_provide_content. cbn [sa_resize sa_msg_content sa_max_counters].
    rewrite Hk, Hc. cbn [mbind option_bind zmq_assert bool_decide decide].
    rewrite bool_decide_eq_true_2 by lia.
    cbn [mbind option_bind zmq_assert raw_msg dm_store dm_flags raw_arena].
    rewrite drop_0, Htake. eexists. split; [done|]. split; cbn; done.
Qed.
