(* ===== verification/Roundtrip.v ===== *)
(** * The codecs end to end

    The encoders feed the decoders: what [stream_engine_t::out_event] puts on the
    wire on one side is what [in_event] delivers on the other, for every batch
    size and every split into reads. *)

From S2P Require Import Prelude Wire Msg Codec Allocator Encoder Decoder V1Decoder V2Decoder.

(** ** Sizes *)

Section sizes.
Context (max : Z).

Definition within (f : frame) : Prop := 0 ≤ max → f_size f ≤ max.

Lemma too_big_within fl bs : too_big max (Z.of_nat (length bs)) = false → within (Frame fl bs).
Proof.
  unfold too_big, within, f_size. cbn [f_data]. rewrite andb_false_iff, Z.leb_gt, Z.ltb_ge. lia.
Qed.

(** The size announced is acceptable and the data do not exceed it. *)
Definition v2_within (p : v2_state) : Prop :=
  match p with
  | V2Body _ n acc => too_big max (Z.of_nat n) = false ∧ (length acc < n)%nat
  | V2Size8 _ acc => bytes_ok acc
  | _ => True
  end.

Lemma v2_body_within fl n :
  0 ≤ n →
  match v2_body max fl n with
  | OErr _ => True
  | OMore q => v2_within q
  | OFrame f q => within f ∧ v2_within q
  end.
Proof.
  intros Hn. unfold v2_body. destruct (too_big max n) eqn:E; [done|].
  destruct (decide (Z.to_nat n = 0%nat)) as [H0|H0].
  - split; [|done]. apply too_big_within. cbn [length]. by replace (Z.of_nat 0) with n by lia.
  - split; [|simpl; lia]. by rewrite Z2Nat.id.
Qed.

Lemma v2_parse_within input p :
  v2_within p → bytes_ok input → Forall within (v2_parse max p input).1.
Proof.
  intros Hp Hok. unfold v2_parse. apply (parse_forall v2_within); [|done|done].
  clear. intros p b Hp Hb. cbn [need finish push v2_parser].
  destruct p as [|fl|fl acc|fl n acc]; cbn [v2_need v2_finish v2_push v2_within] in *.
  - rewrite decide_True by done. destruct (flag_set _ _); [by apply Forall_nil|done].
  - rewrite decide_True by done. apply v2_body_within. unfold byte_ok in Hb. simpl. lia.
  - assert (bytes_ok (acc ++ [b])) as Hok by (apply Forall_app; split; [done|by constructor]).
    destruct (decide _); [|done]. apply v2_body_within. apply be_value_range. done.
  - destruct Hp as [Hbig Hlt]. destruct (decide _) as [H1|H1].
    + split; [|done]. apply too_big_within. rewrite length_app. cbn [length].
      by replace (length acc + 1)%nat with n by lia.
    + split; [done|]. rewrite length_app. simpl. lia.
Qed.

Definition v1_within (p : v1_state) : Prop :=
  match p with
  | V1Body _ n acc => too_big max (Z.of_nat n) = false ∧ (length acc < n)%nat
  | V1Flags n => too_big max (Z.of_nat n) = false
  | _ => True
  end.

Lemma v1_payload_within n :
  match v1_payload max n with
  | OErr _ => True
  | OMore q => v1_within q
  | OFrame f q => within f ∧ v1_within q
  end.
Proof.
  unfold v1_payload. destruct (Z.leb_spec n 0); [done|]. destruct (too_big max (n - 1)) eqn:E; [done|].
  cbn [v1_within]. by rewrite Z2Nat.id by lia.
Qed.

Lemma v1_parse_within input p :
  v1_within p → bytes_ok input → Forall within (v1_parse max p input).1.
Proof.
  intros Hp Hok. unfold v1_parse. apply (parse_forall v1_within); [|done|done].
  clear. intros p b Hp Hb. cbn [need finish push v1_parser].
  destruct p as [|acc|n|fl n acc]; cbn [v1_need v1_finish v1_push v1_within hd] in *.
  - rewrite decide_True by done. destruct (b =? UCHAR_MAX); [done|apply v1_payload_within].
  - destruct (decide _); [apply v1_payload_within|done].
  - rewrite decide_True by done. destruct (decide (n = 0%nat)) as [->|].
    + split; [|done]. by apply too_big_within.
    + split; [done|]. simpl. lia.
  - destruct Hp as [Hbig Hlt]. destruct (decide _) as [H1|H1].
    + split; [|done]. apply too_big_within. rewrite length_app. cbn [length].
      by replace (length acc + 1)%nat with n by lia.
    + split; [done|]. rewrite length_app. simpl. lia.
Qed.
End sizes.

(** ** Properties *)

(** C33. The ZMTP/2.0 decoder, with or without zero-copy, refines the ZMTP/2.0
    parser on any input, valid or not, and any split into reads: every write and
    every message stays inside its buffer (in particular the array of content
    slots is never overrun), the messages delivered and the error met are those
    of the parser on the bytes read (or memory runs out), and no delivered
    message exceeds [max_msg_size]. *)
Theorem v2_decoder_refines uninit malloc_ok max_msg_size zero_copy bufsize junk reads input
  (Huninit : ∀ n, 0 ≤ n → length (uninit n) = Z.to_nat n)
  (Hjunk : length junk = 8%nat)
  (Hbuf : (8 < bufsize)%nat ∧ Z.of_nat bufsize < 18446744073709551616)
  (Hinput : bytes_ok input) :
  ∃ d fs r c input', v2_decoder_new uninit bufsize junk = Some d ∧
    receive (H0 := v2_is_decoder uninit malloc_ok max_msg_size zero_copy) uninit reads input d
      = Some (fs, r, input') ∧
    input = c ++ input' ∧ Forall (within max_msg_size) fs ∧
    match r with
    | inl d => ∃ q, v2_parse max_msg_size V2Flags c = (fs, inl q) ∧ v2_matches d q
    | inr e => e = ENOMEM ∧ v2_oom uninit malloc_ok max_msg_size ∧
               fs `prefix_of` (v2_parse max_msg_size V2Flags c).1 ∨
               v2_parse max_msg_size V2Flags c = (fs, inr e)
    end.
Proof.
  destruct Hbuf as [Hbuf Hmax].
  destruct (v2_receive_spec uninit malloc_ok max_msg_size zero_copy Huninit bufsize Hbuf Hmax
    reads input junk Hjunk Hinput) as (d & fs & r & c & input' & Hnew & Hrun & Heq & Hag).
  exists d, fs, r, c, input'. split; [done|]. split; [done|]. split; [done|].
  assert (bytes_ok c) as Hc by (subst; by apply Forall_app in Hinput as [? _]).
  pose proof (v2_parse_within max_msg_size c V2Flags I Hc) as Hw.
  unfold agrees in Hag. destruct (v2_parse max_msg_size V2Flags c) as [gs r'].
  cbn [fst snd] in *. destruct r as [d'|e].
  - destruct Hag as [-> (q & -> & Hrest)]. split; [done|]. exists q. split; [done|].
    apply (v2r_matches _ _ _ Hrest).
  - destruct Hag as [[[-> ?] Hpre]|[-> ->]].
    + split; [|by left]. destruct Hpre as [l ->]. by apply Forall_app in Hw as [? _].
    + split; [done|by right].
Qed.

Lemma v2_decoder_refines_witness :
  let input := v2_wire (Frame 1 [65; 66]) ++ v2_wire (Frame 0 (replicate 40 7)) in
  ∃ d fs r c input', v2_decoder_new sample_uninit 64 (replicate 8 0) = Some d ∧
    receive (H0 := v2_is_decoder sample_uninit (λ _, true) (-1) true) sample_uninit
            [10; 64; 64]%nat input d = Some (fs, r, input') ∧ input = c ++ input'.
Proof.
  intros input.
  destruct (v2_decoder_refines sample_uninit (λ _, true) (-1) true 64 (replicate 8 0)
    [10; 64; 64]%nat input sample_uninit_length eq_refl ltac:(split; [lia|done])
    ltac:(repeat constructor; vm_compute; done))
    as (d & fs & r & c & input' & H1 & H2 & H3 & _).
  exists d, fs, r, c, input'. exact (conj H1 (conj H2 H3)).
Defined.

(** ** Round trips *)

Lemma v2_flags_ok f : byte_ok (v2_flags f).
Proof.
  unfold v2_flags, byte_ok. destruct (flag_set (f_flags f) flag_more), (UCHAR_MAX <? f_size f),
    (flag_set (f_flags f) flag_command); vm_compute; split; congruence.
Qed.

Lemma v2_wire_ok f : frame_ok f → bytes_ok (v2_wire f).
Proof.
  intros [Hok Hsz]. pose proof (f_size_nonneg f). unfold v2_wire, v2_header.
  apply Forall_app. split; [|done]. constructor; [apply v2_flags_ok|].
  destruct (Z.ltb_spec UCHAR_MAX (f_size f)); [apply put_uint64_ok|].
  constructor; [|done]. unfold UCHAR_MAX, byte_ok in *. lia.
Qed.

Lemma v1_wire_ok f : frame_ok f → bytes_ok (v1_wire f).
Proof.
  intros [Hok Hsz]. pose proof (f_size_nonneg f). unfold v1_wire, v1_header.
  apply Forall_app. split; [|done]. apply Forall_app. split.
  - destruct (Z.ltb_spec (f_size f + 1) UCHAR_MAX).
    + constructor; [|done]. unfold UCHAR_MAX, byte_ok in *. lia.
    + constructor; [by vm_compute|apply put_uint64_ok].
  - constructor; [|done]. unfold flag_more, byte_ok.
    pose proof (Z.mod_pos_bound (f_flags f) 2 ltac:(lia)) as Hm.
    change 1 with (Z.ones 1). rewrite Z.land_ones by lia. change (2 ^ 1) with 2. lia.
Qed.

Lemma stream_ok (w : frame → list Z) fs :
  (∀ f, frame_ok f → bytes_ok (w f)) → Forall frame_ok fs → bytes_ok (fs ≫= w).
Proof.
  intros Hw. induction 1 as [|f fs Hf _ IH]; [done|]. cbn [mbind list_bind].
  apply Forall_app. auto.
Qed.

(** Every message of an acceptable size can be allocated. *)
Lemma no_oom uninit max n :
  0 ≤ max < 9223372036854775808 → 0 ≤ n → too_big max n = false →
  dmsg_init_size uninit (λ _, true) n ≠ None.
Proof.
  intros Hmax Hn. unfold too_big. rewrite andb_false_iff, Z.leb_gt, Z.ltb_ge. intros Hbig.
  unfold dmsg_init_size, sizeof_content. destruct (n <=? _); [done|].
  rewrite u64_small by lia. rewrite (proj2 (Z.ltb_lt n (40 + n))) by lia. done.
Qed.

(** A receiver that parses all of [input] and cannot run out of memory. *)
Lemma agrees_all {T A P} `{ParserLaws P} (R : dec T A → P → Prop) (O : Prop) p c input' fs gs q r
  (Hag : agrees R O (fs, r) (parse p c)) (Hparse : parse p (c ++ input') = (gs, inl q))
  (Hoom : ¬ O) (Hall : (∃ d, r = inl d) → input' = []) :
  fs = gs ∧ (∃ d, r = inl d) ∧ input' = [].
Proof.
  rewrite parse_app in Hparse. destruct (parse p c) as [hs r0]. unfold agrees in Hag.
  cbn [fst snd] in Hag. destruct r as [d|e].
  - destruct Hag as [-> (q' & -> & _)]. rewrite (Hall (ex_intro _ d eq_refl)) in *.
    change (parse q' []) with (@nil frame, @inl P errno q') in Hparse. cbv beta iota in Hparse.
    rewrite app_nil_r in Hparse. split_and!; [congruence|eauto|done].
  - destruct Hag as [[[_ ?] _]|[-> ->]]; done.
Qed.

Section roundtrip.
Context (uninit : Z → list Z) (max_msg_size : Z) (bufsize : nat) (junk : list Z).
Hypothesis Huninit : ∀ n, 0 ≤ n → length (uninit n) = Z.to_nat n.
Hypothesis Hmax : 0 ≤ max_msg_size < 9223372036854775808.
Hypothesis Hjunk : length junk = 8%nat.

Lemma v2_receive_stream zero_copy queue reads :
  (8 < bufsize)%nat → Z.of_nat bufsize < 18446744073709551616 →
  Forall (fits max_msg_size) queue → Forall (λ k, 0 < k)%nat reads →
  (length (queue ≫= v2_wire) ≤ length reads)%nat →
  ∃ d d', v2_decoder_new uninit bufsize junk = Some d ∧
    receive (H0 := v2_is_decoder uninit (λ _, true) max_msg_size zero_copy) uninit reads
            (queue ≫= v2_wire) d = Some (v2_trip <$> queue, inl d', []).
Proof.
  intros Hbuf Hbmax Hfits Hreads Hlen.
  assert (bytes_ok (queue ≫= v2_wire)) as Hok.
  { apply stream_ok; [apply v2_wire_ok|]. eapply Forall_impl; [done|]. by intros f [? _]. }
  destruct (v2_decoder_new_rest uninit Huninit bufsize Hbuf junk Hjunk) as (d & Hd & Hrest).
  destruct (receive_spec (H3 := v2_decoder_laws uninit (λ _, true) max_msg_size zero_copy Huninit
    bufsize Hbuf Hbmax) uninit reads _ d V2Flags Hrest Hok) as (fs & r & c & input' & Hrun & Heq & Hag).
  { by apply Forall_forall. }
  destruct (receive_all (H3 := v2_decoder_laws uninit (λ _, true) max_msg_size zero_copy Huninit
    bufsize Hbuf Hbmax) uninit reads _ d V2Flags Hrest Hok) as (fs' & r' & i' & Hrun' & Hall).
  { eapply Forall_impl; [done|]. by intros k Hk. }
  { done. }
  assert (fs' = fs ∧ r' = r ∧ i' = input') as (-> & -> & ->) by (split_and!; congruence).
  pose proof (v2_parse_stream max_msg_size queue Hfits) as Hparse. rewrite Heq in Hparse.
  unfold v2_parse in Hparse.
  destruct (@agrees_all _ _ _ (v2_parser max_msg_size) (v2_parser_laws max_msg_size) _ _ _ _ _ _ _ _ _
    Hag Hparse) as (-> & [d' ->] & ->).
  - intros (n & Hn & Hbig & Hnone). exact (no_oom uninit max_msg_size n Hmax (proj1 Hn) Hbig Hnone).
  - done.
  - by exists d, d'.
Qed.

Lemma v1_receive_stream queue reads :
  (0 < bufsize)%nat →
  Forall (fits max_msg_size) queue → Forall (λ k, 0 < k ≤ bufsize)%nat reads →
  (length (queue ≫= v1_wire) ≤ length reads)%nat →
  ∃ d', receive (H0 := v1_is_decoder uninit (λ _, true) max_msg_size) uninit reads
          (queue ≫= v1_wire) (v1_decoder_new uninit bufsize junk)
        = Some (v1_trip <$> queue, inl d', []).
Proof.
  intros Hbuf Hfits Hreads Hlen.
  assert (bytes_ok (queue ≫= v1_wire)) as Hok.
  { apply stream_ok; [apply v1_wire_ok|]. eapply Forall_impl; [done|]. by intros f [? _]. }
  pose proof (v1_decoder_new_rest uninit Huninit bufsize junk Hjunk Hbuf) as Hrest.
  assert (Forall (λ k, (0 < k)%nat ∧ ∀ j, (j ≤ k)%nat → (j ≤ bufsize)%nat) reads) as Hmay.
  { eapply Forall_impl; [done|]. intros k Hk. cbn beta in Hk. split; [lia|]. intros j Hj. lia. }
  destruct (receive_spec (H3 := v1_decoder_laws uninit (λ _, true) max_msg_size Huninit bufsize)
    uninit reads _ _ V1Size Hrest Hok) as (fs & r & c & input' & Hrun & Heq & Hag).
  { eapply Forall_impl; [done|]. by intros k [_ Hk]. }
  destruct (receive_all (H3 := v1_decoder_laws uninit (λ _, true) max_msg_size Huninit bufsize)
    uninit reads _ _ V1Size Hrest Hok Hmay Hlen) as (fs' & r' & i' & Hrun' & Hall).
  assert (fs' = fs ∧ r' = r ∧ i' = input') as (-> & -> & ->) by (split_and!; congruence).
  pose proof (v1_parse_stream max_msg_size queue Hfits) as Hparse. rewrite Heq in Hparse.
  unfold v1_parse in Hparse.
  destruct (@agrees_all _ _ _ (v1_parser max_msg_size) (v1_parser_laws max_msg_size) _ _ _ _ _ _ _ _ _
    Hag Hparse) as (-> & [d' ->] & ->).
  - intros (n & Hn & Hbig & Hnone). exact (no_oom uninit max_msg_size n Hmax (proj1 Hn) Hbig Hnone).
  - done.
  - by exists d'.
Qed.
End roundtrip.

(** C1. ZMTP/2.0 end to end: the bytes an encoder emits for a queue of messages,
    whatever the batch size, and read in pieces of any sizes, make a decoder
    (with or without zero-copy) deliver exactly those messages in order with
    their data and their [more] and [command] flags, and end in between two
    messages. *)
Theorem v2_roundtrip uninit max_msg_size bufsize junk junk' zero_copy size queue n reads
  (Huninit : ∀ k, 0 ≤ k → length (uninit k) = Z.to_nat k)
  (Hmax : 0 ≤ max_msg_size < 9223372036854775808)
  (Hjunk : length junk = 8%nat ∧ length junk' = 9%nat)
  (Hbuf : (8 < bufsize)%nat ∧ Z.of_nat bufsize < 18446744073709551616) (Hsize : (0 < size)%nat)
  (Hqueue : Forall (fits max_msg_size) queue)
  (Hn : (length (queue ≫= v2_wire) < n)%nat)
  (Hreads : Forall (λ k, 0 < k)%nat reads ∧ (length (queue ≫= v2_wire) ≤ length reads)%nat) :
  ∃ bytes e' d d', out_events n size (encoder_new (T := v2_encoder) junk' size) queue
                   = Some (bytes, e', []) ∧
    v2_decoder_new uninit bufsize junk = Some d ∧
    receive (H0 := v2_is_decoder uninit (λ _, true) max_msg_size zero_copy) uninit reads bytes d
      = Some (v2_trip <$> queue, inl d', []).
Proof.
  destruct Hjunk as [Hj Hj'], Hbuf as [Hb Hbm], Hreads as [Hr Hl].
  assert (Forall (sendable (T := v2_encoder)) queue) as Hsend.
  { eapply Forall_impl; [done|]. intros f [[_ ?] _]. split; [done|]. by cbn. }
  destruct (out_events_spec n size (encoder_new (T := v2_encoder) junk' size) queue)
    as (bytes & e' & queue' & Hrun & Heq & Hprog); [by apply encoder_new_inv|done|done|done|].
  change (backlog (encoder_new junk' size) queue) with (queue ≫= v2_wire) in Heq.
  assert (in_progress e' = None ∧ queue' = []) as [Hnone ->].
  { destruct Hprog as [Hle|?]; [|done]. apply (f_equal length) in Heq. rewrite length_app in Heq. lia. }
  unfold backlog, pending in Heq. rewrite Hnone in Heq. simpl in Heq. rewrite app_nil_r in Heq. subst.
  destruct (v2_receive_stream uninit max_msg_size bufsize junk Huninit Hmax Hj zero_copy queue reads
    Hb Hbm Hqueue Hr Hl) as (d & d' & ? & ?).
  by exists (queue ≫= v2_wire), e', d, d'.
Qed.

(** C34. ZMTP/1.0 end to end: as for ZMTP/2.0, for reads of at most the buffer
    size; of the flags only [more] makes the trip. *)
Theorem v1_roundtrip uninit max_msg_size bufsize junk junk' size queue n reads
  (Huninit : ∀ k, 0 ≤ k → length (uninit k) = Z.to_nat k)
  (Hmax : 0 ≤ max_msg_size < 9223372036854775808)
  (Hjunk : length junk = 8%nat ∧ length junk' = 10%nat)
  (Hbuf : (0 < bufsize)%nat) (Hsize : (0 < size)%nat)
  (Hqueue : Forall (fits max_msg_size) queue)
  (Hn : (length (queue ≫= v1_wire) < n)%nat)
  (Hreads : Forall (λ k, 0 < k ≤ bufsize)%nat reads ∧
            (length (queue ≫= v1_wire) ≤ length reads)%nat) :
  ∃ bytes e' d', out_events n size (encoder_new (T := v1_encoder) junk' size) queue
                 = Some (bytes, e', []) ∧
    receive (H0 := v1_is_decoder uninit (λ _, true) max_msg_size) uninit reads bytes
            (v1_decoder_new uninit bufsize junk) = Some (v1_trip <$> queue, inl d', []).
Proof.
  destruct Hjunk as [Hj Hj'], Hreads as [Hr Hl].
  assert (Forall (sendable (T := v1_encoder)) queue) as Hsend.
  { eapply Forall_impl; [done|]. intros f [[_ ?] _]. split; [done|]. cbn. unfold v1_wire, v1_header.
    by destruct (_ <? _). }
  destruct (out_events_spec n size (encoder_new (T := v1_encoder) junk' size) queue)
    as (bytes & e' & queue' & Hrun & Heq & Hprog); [by apply encoder_new_inv|done|done|done|].
  change (backlog (encoder_new junk' size) queue) with (queue ≫= v1_wire) in Heq.
  assert (in_progress e' = None ∧ queue' = []) as [Hnone ->].
  { destruct Hprog as [Hle|?]; [|done]. apply (f_equal length) in Heq. rewrite length_app in Heq. lia. }
  unfold backlog, pending in Heq. rewrite Hnone in Heq. simpl in Heq. rewrite app_nil_r in Heq. subst.
  destruct (v1_receive_stream uninit max_msg_size bufsize junk Huninit Hmax Hj queue reads
    Hbuf Hqueue Hr Hl) as (d' & ?).
  by exists (queue ≫= v1_wire), e', d'.
Qed.

(** A message of one part, one with a command flag, a long and an empty one. *)
Definition sample_queue : list frame :=
  [Frame 1 [65; 66]; Frame 2 [4; 80]; Frame 0 (replicate 300 7); Frame 0 []].

Lemma sample_queue_fits : Forall (fits 1000) sample_queue.
Proof.
  repeat constructor; try done; unfold f_size; cbn [f_data length]; rewrite ?length_replicate; try done;
    try (apply Forall_replicate; done).
Qed.

Lemma v2_roundtrip_witness :
  ∃ bytes e' d d', out_events 400 8 (encoder_new (T := v2_encoder) (replicate 9 0) 8) sample_queue
                   = Some (bytes, e', []) ∧
    v2_decoder_new sample_uninit 64 (replicate 8 0) = Some d ∧
    receive (H0 := v2_is_decoder sample_uninit (λ _, true) 1000 true) sample_uninit
            (replicate 400 13%nat) bytes d
      = Some (v2_trip <$> sample_queue, inl d', []).
Proof.
  apply (v2_roundtrip sample_uninit 1000 64 (replicate 8 0) (replicate 9 0) true 8 sample_queue 400);
    [apply sample_uninit_length|lia|done|split; [lia|done]|lia|apply sample_queue_fits| |split].
  - apply Nat.ltb_lt. vm_compute. reflexivity.
  - apply Forall_replicate. lia.
  - apply Nat.leb_le. vm_compute. reflexivity.
Defined.

Lemma v1_roundtrip_witness :
  ∃ bytes e' d', out_events 400 8 (encoder_new (T := v1_encoder) (replicate 10 0) 8) sample_queue
                 = Some (bytes, e', []) ∧
    receive (H0 := v1_is_decoder sample_uninit (λ _, true) 1000) sample_uninit
            (replicate 400 5%nat) bytes (v1_decoder_new sample_uninit 16 (replicate 8 0))
      = Some (v1_trip <$> sample_queue, inl d', []).
Proof.
  apply (v1_roundtrip sample_uninit 1000 16 (replicate 8 0) (replicate 10 0) 8 sample_queue 400);
    [apply sample_uninit_length|lia|done|lia|lia|apply sample_queue_fits| |split].
  - apply Nat.ltb_lt. vm_compute. reflexivity.
  - apply Forall_replicate. lia.
  - apply Nat.leb_le. vm_compute. reflexivity.
Defined.
