(* ===== verification/Z85.v ===== *)
(** * The Z85 codec

    [zmq_z85_encode] and [zmq_z85_decode] (src/zmq_utils.cpp), the text form
    of CURVE keys: the two loops with their [unsigned int] counters, their
    [uint32_t] accumulator and its overflow checks, writing into a destination
    of a given size.  A write outside the destination or a read outside the
    source is undefined behaviour ([None]); a C string is its bytes followed by
    a NUL.  [z85_text] is the specification (RFC 32), and the theorems say that
    the encoder writes it, that the decoder accepts exactly the texts that are
    the encoding of something, and that it gives back what was encoded. *)

From S2P Require Import Prelude.
From stdpp Require Import strings.

#[local] Open Scope Z_scope.

Module Z85.

(** ** The tables *)

Definition encoder : list Z :=
  (λ a, Z.of_N (Ascii.N_of_ascii a)) <$>
  String.list_ascii_of_string
    "0123456789abcdefghijklmnopqrstuvwxyzABCDEFGHIJKLMNOPQRSTUVWXYZ.-:+=^!/*?&<>()[]{}@%$#".

Definition decoder : list Z :=
  [0xFF; 0x44; 0xFF; 0x54; 0x53; 0x52; 0x48; 0xFF; 0x4B; 0x4C; 0x46; 0x41;
   0xFF; 0x3F; 0x3E; 0x45; 0x00; 0x01; 0x02; 0x03; 0x04; 0x05; 0x06; 0x07;
   0x08; 0x09; 0x40; 0xFF; 0x49; 0x42; 0x4A; 0x47; 0x51; 0x24; 0x25; 0x26;
   0x27; 0x28; 0x29; 0x2A; 0x2B; 0x2C; 0x2D; 0x2E; 0x2F; 0x30; 0x31; 0x32;
   0x33; 0x34; 0x35; 0x36; 0x37; 0x38; 0x39; 0x3A; 0x3B; 0x3C; 0x3D; 0x4D;
   0xFF; 0x4E; 0x43; 0xFF; 0xFF; 0x0A; 0x0B; 0x0C; 0x0D; 0x0E; 0x0F; 0x10;
   0x11; 0x12; 0x13; 0x14; 0x15; 0x16; 0x17; 0x18; 0x19; 0x1A; 0x1B; 0x1C;
   0x1D; 0x1E; 0x1F; 0x20; 0x21; 0x22; 0x23; 0x4F; 0xFF; 0x50; 0xFF; 0xFF].

Definition UINT32_MAX : Z := 4294967295.

(** ** Memory *)

(** [dest_[i] = x] *)
Definition store (dest : list Z) (i x : Z) : option (list Z) :=
  if (0 <=? i) && (i <? Z.of_nat (length dest)) then Some (<[Z.to_nat i := x]> dest) else None.

(** [src[i]] *)
Definition load (src : list Z) (i : Z) : option Z :=
  if 0 <=? i then src !! Z.to_nat i else None.

(** ** The encoder *)

(** [while (divisor) { dest_[char_nbr++] = encoder[value / divisor % 85]; divisor /= 85; }] *)
Fixpoint put_digits (fuel : nat) (value divisor char_nbr : Z) (dest : list Z)
    : option (Z * list Z) :=
  match fuel with
  | O => None
  | S fuel =>
      if divisor =? 0 then Some (char_nbr, dest)
      else
        c ← load encoder (value / divisor mod 85);
        dest ← store dest char_nbr c;
        put_digits fuel value (divisor / 85) (u32 (char_nbr + 1)) dest
  end.

Fixpoint z85_encode_loop (fuel : nat) (data : list Z)
    (size byte_nbr char_nbr value : Z) (dest : list Z) : option (Z * list Z) :=
  match fuel with
  | O => None
  | S fuel =>
      if byte_nbr <? size then
        b ← load data byte_nbr;
        let value := u32 (value * 256 + b) in
        let byte_nbr := u32 (byte_nbr + 1) in
        if byte_nbr mod 4 =? 0 then
          '(char_nbr, dest) ← put_digits 6 value (85 * 85 * 85 * 85) char_nbr dest;
          z85_encode_loop fuel data size byte_nbr char_nbr 0 dest
        else z85_encode_loop fuel data size byte_nbr char_nbr value dest
      else Some (char_nbr, dest)
  end.

(** The destination afterwards, and NULL with [errno] or [dest_]. *)
Definition zmq_z85_encode (dest data : list Z) (size : Z) : option (list Z * rc) :=
  if negb (size mod 4 =? 0) then Some (dest, RcErr EINVAL)
  else
    '(char_nbr, dest) ← z85_encode_loop (S (Z.to_nat size)) data size 0 0 0 dest;
    _ ← zmq_assert (char_nbr =? size * 5 / 4);
    dest ← store dest char_nbr 0;
    Some (dest, RcOk).

(** ** The decoder *)

(** The checks on one character; [None] is [goto error_inval]. *)
Definition z85_accumulate (value c : Z) : option Z :=
  if UINT32_MAX / 85 <? value then None
  else
    let value := u32 (value * 85) in
    let index := u8 (c - 32) in
    if Z.of_nat (length decoder) <=? index then None
    else
      match load decoder index with
      | None => None
      | Some summand =>
          if (summand =? 0xFF) || (UINT32_MAX - value <? summand) then None
          else Some (u32 (value + summand))
      end.

(** [while (divisor) { dest_[byte_nbr++] = value / divisor % 256; divisor /= 256; }] *)
Fixpoint put_bytes (fuel : nat) (value divisor byte_nbr : Z) (dest : list Z)
    : option (Z * list Z) :=
  match fuel with
  | O => None
  | S fuel =>
      if divisor =? 0 then Some (byte_nbr, dest)
      else
        dest ← store dest byte_nbr (u8 (value / divisor mod 256));
        put_bytes fuel value (divisor / 256) (u32 (byte_nbr + 1)) dest
  end.

Fixpoint z85_decode_loop (fuel : nat) (string : list Z)
    (byte_nbr char_nbr value : Z) (dest : list Z) : option (Z * Z * list Z * rc) :=
  match fuel with
  | O => None
  | S fuel =>
      c ← load string char_nbr;
      if c =? 0 then Some (byte_nbr, char_nbr, dest, RcOk)
      else
        match z85_accumulate value c with
        | None => Some (byte_nbr, char_nbr, dest, RcErr EINVAL)
        | Some value =>
            let char_nbr := u32 (char_nbr + 1) in
            if char_nbr mod 5 =? 0 then
              '(byte_nbr, dest) ← put_bytes 5 value (256 * 256 * 256) byte_nbr dest;
              z85_decode_loop fuel string byte_nbr char_nbr 0 dest
            else z85_decode_loop fuel string byte_nbr char_nbr value dest
        end
  end.

(** [strlen]: the characters before the first NUL. *)
Fixpoint strlen (string : list Z) : Z :=
  match string with [] => 0 | c :: string => if c =? 0 then 0 else 1 + strlen string end.

Definition zmq_z85_decode (dest string : list Z) : option (list Z * rc) :=
  '(byte_nbr, char_nbr, dest, r) ←
    z85_decode_loop (S (length string)) string 0 0 0 dest;
  match r with
  | RcErr e => Some (dest, RcErr e)
  | RcOk =>
      if negb (char_nbr mod 5 =? 0) then Some (dest, RcErr EINVAL)
      else
        _ ← zmq_assert (byte_nbr =? strlen string * 4 / 5);
        Some (dest, RcOk)
  end.

(** ** The specification *)

(** The big-endian value of four bytes, its base-85 digits and its bytes. *)
Definition word (a b c d : Z) : Z := ((a * 256 + b) * 256 + c) * 256 + d.

Definition digits85 (v : Z) : list Z :=
  [v / 52200625 mod 85; v / 614125 mod 85; v / 7225 mod 85; v / 85 mod 85; v mod 85].

Definition bytes256 (v : Z) : list Z :=
  [v / 16777216 mod 256; v / 65536 mod 256; v / 256 mod 256; v mod 256].

Definition digit_char (k : Z) : Z := default 0 (encoder !! Z.to_nat k).

(** The text of a binary frame: each group of four bytes as five characters. *)
Fixpoint z85_text (d : list Z) : list Z :=
  match d with
  | a :: b :: c :: e :: d => (digit_char <$> digits85 (word a b c e)) ++ z85_text d
  | _ => []
  end.

(** A C string's characters. *)
Definition char_ok (c : Z) : Prop := 0 < c < 256.

(** ** Memory lemmas *)

Lemma store_app (pre post : list Z) y x n :
  n = Z.of_nat (length pre) → store (pre ++ y :: post) n x = Some ((pre ++ [x]) ++ post).
Proof.
  intros ->. unfold store. rewrite length_app. cbn [length].
  zdecide.
  replace (Z.to_nat _) with (length pre + 0)%nat by lia. rewrite insert_app_r. simpl.
  by rewrite <- (assoc_L _ pre).
Qed.

Lemma load_app (pre post : list Z) c n :
  n = Z.of_nat (length pre) → load (pre ++ c :: post) n = Some c.
Proof.
  intros ->. unfold load. zdecide.
  rewrite lookup_app_r by lia. by replace (_ - _)%nat with 0%nat by lia.
Qed.

Lemma strlen_text (s rest : list Z) :
  Forall char_ok s → strlen (s ++ 0 :: rest) = Z.of_nat (length s).
Proof.
  induction 1 as [|c s Hc _ IH]; [done|]. cbn [app strlen length].
  unfold char_ok in Hc. zdecide. rewrite IH. lia.
Qed.

(** ** The tables are inverse to each other *)

Definition index_ok (c : Z) : bool :=
  match load decoder (u8 (c - 32)) with
  | Some k => if k =? 0xFF then true else (0 <=? k) && (k <? 85) && (digit_char k =? c)
  | None => true
  end.

Lemma tables_lookup k : 0 ≤ k < 85 → load encoder k = Some (digit_char k).
Proof.
  intros H. unfold load, digit_char. zdecide.
  destruct (lookup_lt_is_Some_2 encoder (Z.to_nat k)) as [c ->]; [|done].
  change (length encoder) with 85%nat. lia.
Qed.

(** A property of all numbers below a bound, checked by evaluation. *)
Lemma seqZ_check (P : Z → bool) n m : forallb P (seqZ n m) = true → ∀ k, n ≤ k < n + m → P k = true.
Proof.
  intros H k Hk. rewrite forallb_forall in H. apply H.
  rewrite <- list_elem_of_In. apply elem_of_seqZ. lia.
Qed.

Lemma digit_char_ok k : 0 ≤ k < 85 → char_ok (digit_char k).
Proof.
  intros H. pose proof (seqZ_check (λ k, (0 <? digit_char k) && (digit_char k <? 256)) 0 85 eq_refl k H) as Hc.
  cbn beta in Hc. apply andb_prop in Hc as [?%Z.ltb_lt ?%Z.ltb_lt]. done.
Qed.

Lemma decoder_digit k :
  0 ≤ k < 85 → load decoder (u8 (digit_char k - 32)) = Some k.
Proof.
  intros H.
  pose proof (seqZ_check (λ k, bool_decide (load decoder (u8 (digit_char k - 32)) = Some k)) 0 85 eq_refl k H) as Hc.
  by apply bool_decide_eq_true in Hc.
Qed.

Lemma decoder_inv c k :
  char_ok c → load decoder (u8 (c - 32)) = Some k → k ≠ 0xFF → 0 ≤ k < 85 ∧ digit_char k = c.
Proof.
  intros H Hk Hn. pose proof (seqZ_check index_ok 0 256 eq_refl c) as Hc.
  unfold char_ok, index_ok in *. rewrite Hk in Hc. specialize (Hc ltac:(lia)).
  destruct (Z.eqb_spec k 0xFF); [done|].
  apply andb_prop in Hc as [[?%Z.leb_le ?%Z.ltb_lt]%andb_prop ?%Z.eqb_eq]. done.
Qed.

(** [lia] with division and modulo by constants. *)
Ltac mlia := Z.to_euclidean_division_equations; lia.

(** ** The inner loops *)

Lemma put_digits_step fuel value divisor n pre y post :
  divisor ≠ 0 → n = Z.of_nat (length pre) → n + 1 < 2 ^ 32 →
  put_digits (S fuel) value divisor n (pre ++ y :: post) =
  put_digits fuel value (divisor / 85) (n + 1)
    ((pre ++ [digit_char (value / divisor mod 85)]) ++ post).
Proof.
  intros Hd Hn Hlt. cbn [put_digits]. zdecide.
  rewrite tables_lookup by (apply Z.mod_pos_bound; lia). cbn [mbind option_bind].
  rewrite (store_app pre post y _ n Hn). cbn [mbind option_bind].
  by rewrite u32_small by lia.
Qed.

Lemma put_bytes_step fuel value divisor n pre y post :
  divisor ≠ 0 → n = Z.of_nat (length pre) → n + 1 < 2 ^ 32 →
  put_bytes (S fuel) value divisor n (pre ++ y :: post) =
  put_bytes fuel value (divisor / 256) (n + 1)
    ((pre ++ [value / divisor mod 256]) ++ post).
Proof.
  intros Hd Hn Hlt. cbn [put_bytes]. zdecide.
  rewrite u8_small by (apply Z.mod_pos_bound; lia).
  rewrite (store_app pre post y _ n Hn). cbn [mbind option_bind].
  by rewrite u32_small by lia.
Qed.

Ltac put_step lem :=
  rewrite lem; [| lia | rewrite ?length_app; cbn [length]; lia | lia].

Lemma put_digits_spec value n pre ys post :
  n = Z.of_nat (length pre) → length ys = 5%nat → n + 5 < 2 ^ 32 →
  put_digits 6 value (85 * 85 * 85 * 85) n (pre ++ ys ++ post) =
  Some (n + 5, (pre ++ (digit_char <$> digits85 value)) ++ post).
Proof.
  intros Hn Hys Hlt. destruct ys as [|y1 [|y2 [|y3 [|y4 [|y5 [|]]]]]]; try done.
  change (85 * 85 * 85 * 85) with 52200625. cbn [app].
  put_step put_digits_step. change (52200625 / 85) with 614125.
  put_step put_digits_step. change (614125 / 85) with 7225.
  put_step put_digits_step. change (7225 / 85) with 85.
  put_step put_digits_step. change (85 / 85) with 1.
  put_step put_digits_step. change (1 / 85) with 0.
  cbn [put_digits Z.eqb]. f_equal. f_equal; [lia|].
  unfold digits85. rewrite !fmap_cons, fmap_nil, Z.div_1_r, <- !(assoc_L _ pre).
  by cbn [app].
Qed.

Lemma put_bytes_spec value n pre ys post :
  n = Z.of_nat (length pre) → length ys = 4%nat → n + 4 < 2 ^ 32 →
  put_bytes 5 value (256 * 256 * 256) n (pre ++ ys ++ post) =
  Some (n + 4, (pre ++ bytes256 value) ++ post).
Proof.
  intros Hn Hys Hlt. destruct ys as [|y1 [|y2 [|y3 [|y4 [|]]]]]; try done.
  change (256 * 256 * 256) with 16777216. cbn [app].
  put_step put_bytes_step. change (16777216 / 256) with 65536.
  put_step put_bytes_step. change (65536 / 256) with 256.
  put_step put_bytes_step. change (256 / 256) with 1.
  put_step put_bytes_step. change (1 / 256) with 0.
  cbn [put_bytes Z.eqb]. f_equal. f_equal; [lia|].
  unfold bytes256. rewrite Z.div_1_r, <- !(assoc_L _ pre). by cbn [app].
Qed.

(** ** The encoder's loop *)

Lemma encode_step fuel data size n m v dest pre b post :
  data = pre ++ b :: post → n = Z.of_nat (length pre) → n < size < 2 ^ 32 →
  (n + 1) mod 4 ≠ 0 → 0 ≤ v * 256 + b < 2 ^ 32 →
  z85_encode_loop (S fuel) data size n m v dest =
  z85_encode_loop fuel data size (n + 1) m (v * 256 + b) dest.
Proof.
  intros -> Hn Hs Hm Hv. cbn [z85_encode_loop]. zdecide.
  rewrite (load_app pre post b n Hn). cbn [mbind option_bind].
  rewrite (u32_small (n + 1)), (u32_small (v * 256 + b)) by lia. by zdecide.
Qed.

Lemma encode_chunk fuel data size n m pre a b c e post out ys rest :
  data = pre ++ a :: b :: c :: e :: post → bytes_ok [a; b; c; e] →
  n = Z.of_nat (length pre) → n mod 4 = 0 → n + 4 ≤ size < 2 ^ 32 →
  m = Z.of_nat (length out) → length ys = 5%nat → m + 5 < 2 ^ 32 →
  z85_encode_loop (S (S (S (S fuel)))) data size n m 0 (out ++ ys ++ rest) =
  z85_encode_loop fuel data size (n + 4) (m + 5) 0
    ((out ++ (digit_char <$> digits85 (word a b c e))) ++ rest).
Proof.
  intros -> Hb Hn H4 Hs Hm Hys Hlt. rewrite !Forall_cons in Hb. unfold byte_ok in Hb.
  destruct Hb as (Ha & Hb & Hc & He & _).
  rewrite (encode_step _ _ _ _ _ _ _ pre a (b :: c :: e :: post)); [|done|done|lia|mlia|lia].
  rewrite (encode_step _ _ _ _ _ _ _ (pre ++ [a]) b (c :: e :: post));
    [|by rewrite <- (assoc_L _ pre)|rewrite length_app; cbn [length]; lia|lia|mlia|lia].
  rewrite (encode_step _ _ _ _ _ _ _ (pre ++ [a; b]) c (e :: post));
    [|by rewrite <- (assoc_L _ pre)|rewrite length_app; cbn [length]; lia|lia|mlia|lia].
  cbn [z85_encode_loop]. rewrite (proj2 (Z.ltb_lt _ size)) by lia.
  replace (pre ++ a :: b :: c :: e :: post) with ((pre ++ [a; b; c]) ++ e :: post)
    by (by rewrite <- (assoc_L _ pre)).
  rewrite (load_app (pre ++ [a; b; c]) post e) by (rewrite length_app; cbn [length]; lia).
  cbn [mbind option_bind].
  replace (((0 * 256 + a) * 256 + b) * 256 + c) with ((a * 256 + b) * 256 + c) by lia.
  rewrite (u32_small (_ + 1)), (u32_small (_ * 256 + e)) by lia.
  replace (n + 1 + 1 + 1 + 1) with (n + 4) by lia.
  rewrite (proj2 (Z.eqb_eq _ 0)) by mlia.
  rewrite put_digits_spec by done. by cbn [mbind option_bind].
Qed.


(** Induction over groups of four. *)
Lemma list_ind4 (P : list Z → Prop) :
  P [] → (∀ a b c e d, Z.of_nat (length d) mod 4 = 0 → P d → P (a :: b :: c :: e :: d)) →
  ∀ d, Z.of_nat (length d) mod 4 = 0 → P d.
Proof.
  intros H0 H4 d. remember (length d) as n eqn:Hn. revert d Hn.
  induction (lt_wf n) as [n _ IH]. intros d -> Hm.
  destruct d as [|a [|b [|c [|e d]]]]; cbn [length] in Hm; [done|mlia..|].
  assert (Hd : Z.of_nat (length d) mod 4 = 0) by mlia.
  apply H4; [done|]. by apply (IH (length d)); [cbn [length]; lia|..].
Qed.

Lemma z85_text_length d : Z.of_nat (length d) mod 4 = 0 →
  Z.of_nat (length (z85_text d)) = Z.of_nat (length d) * 5 / 4.
Proof.
  revert d. apply list_ind4; [done|]. intros a b c e d Hd IH.
  cbn [z85_text]. rewrite length_app, length_fmap. cbn [length digits85].
  rewrite Nat2Z.inj_add, IH. mlia.
Qed.

Lemma z85_encode_loop_spec d :
  Z.of_nat (length d) mod 4 = 0 → ∀ pre post out ys rest size fuel,
  bytes_ok d → size = Z.of_nat (length pre + length d) → size < 2 ^ 32 →
  Z.of_nat (length pre) mod 4 = 0 → length ys = length (z85_text d) →
  Z.of_nat (length out + length ys) < 2 ^ 32 → (length d < fuel)%nat →
  z85_encode_loop fuel (pre ++ d ++ post) size (Z.of_nat (length pre))
    (Z.of_nat (length out)) 0 (out ++ ys ++ rest) =
  Some (Z.of_nat (length out + length ys), (out ++ z85_text d) ++ rest).
Proof.
  revert d. refine (list_ind4 _ _ _).
  - intros pre post out ys rest size fuel _ -> _ _ Hys _ Hf.
    destruct ys; [|done]. destruct fuel as [|fuel]; [lia|].
    cbn [z85_encode_loop length z85_text app]. rewrite !Nat.add_0_r, Z.ltb_irrefl.
    by rewrite app_nil_r.
  - intros a b c e d Hd IH pre post out ys rest size fuel Hb Hs Hs32 Hpre Hys Hout Hf.
    cbn [z85_text] in Hys. rewrite length_app, length_fmap in Hys. cbn [length digits85] in Hys, Hf, Hs.
    do 4 (destruct fuel as [|fuel]; [lia|]).
    apply (Forall_app _ [a; b; c; e] d) in Hb as [Hb4 Hbd].
    rewrite <- (take_drop 5 ys), <- (assoc_L _ (take 5 ys)).
    rewrite (encode_chunk _ _ _ _ _ pre a b c e (d ++ post) out (take 5 ys)) by
      (first [done | rewrite ?length_take; lia]).
    replace (Z.of_nat (length pre) + 4) with (Z.of_nat (length (pre ++ [a; b; c; e])))
      by (rewrite length_app; cbn [length]; lia).
    replace (Z.of_nat (length out) + 5)
      with (Z.of_nat (length (out ++ (digit_char <$> digits85 (word a b c e)))))
      by (rewrite length_app, length_fmap; cbn [length digits85]; lia).
    replace (pre ++ (a :: b :: c :: e :: d) ++ post) with ((pre ++ [a; b; c; e]) ++ d ++ post)
      by (by rewrite <- (assoc_L _ pre)).
    rewrite IH; rewrite ?length_app, ?length_fmap, ?length_drop; cbn [length digits85] in *;
      try done; try lia; [|mlia].
    f_equal. f_equal; [rewrite length_take; lia|].
    cbn [z85_text]. by rewrite !(assoc_L _).
Qed.

(** ** The decoder's loop *)

Fixpoint accumulate (v : Z) (cs : list Z) : option Z :=
  match cs with [] => Some v | c :: cs => v ← z85_accumulate v c; accumulate v cs end.

Lemma z85_accumulate_Some v c v' :
  0 ≤ v → char_ok c →
  z85_accumulate v c = Some v' ↔
  ∃ k, 0 ≤ k < 85 ∧ digit_char k = c ∧ v' = v * 85 + k ∧ v' ≤ UINT32_MAX.
Proof.
  intros Hv Hc. unfold z85_accumulate, UINT32_MAX. change (4294967295 / 85) with 50529027.
  change (Z.of_nat (length decoder)) with 96.
  destruct (Z.ltb_spec 50529027 v) as [Hbig|Hsmall].
  { split; [done|]. intros (k & ? & ? & ? & ?). lia. }
  rewrite (u32_small (v * 85)) by lia.
  split.
  - destruct (_ <=? _); [done|].
    destruct (load decoder (u8 (c - 32))) as [k|] eqn:Hk; [|done].
    destruct (Z.eqb_spec k 255); [done|]. cbn [orb].
    destruct (Z.ltb_spec (4294967295 - v * 85) k); [done|].
    destruct (decoder_inv c k Hc Hk) as [Hk85 <-]; [done|].
    rewrite u32_small by lia. intros [= <-]. exists k. split_and!; lia || done.
  - intros (k & Hk & <- & -> & Hle).
    rewrite (decoder_digit k Hk).
    assert (Hi : u8 (digit_char k - 32) < 96).
    { pose proof (lookup_lt_Some decoder (Z.to_nat (u8 (digit_char k - 32))) k) as Hl.
      pose proof (decoder_digit k Hk) as Hd. unfold load in Hd.
      destruct (0 <=? _); [|done]. specialize (Hl Hd).
      change (length decoder) with 96%nat in Hl. lia. }
    rewrite (proj2 (Z.leb_gt _ _)) by done.
    rewrite (proj2 (Z.eqb_neq k 255)), (proj2 (Z.ltb_ge _ _)) by lia. cbn [orb].
    by rewrite u32_small by lia.
Qed.

(** The digits of a word, most significant first, as iterated divisions. *)
Lemma digits85_div w :
  digits85 w = [w / 85 / 85 / 85 / 85 mod 85; w / 85 / 85 / 85 mod 85;
                w / 85 / 85 mod 85; w / 85 mod 85; w mod 85].
Proof. unfold digits85. by rewrite !Z.div_div by lia. Qed.

(** Five characters are accepted exactly when they are the digits of a word. *)
Lemma accumulate_digits w :
  0 ≤ w ≤ UINT32_MAX → accumulate 0 (digit_char <$> digits85 w) = Some w.
Proof.
  intros Hw. unfold UINT32_MAX in Hw.
  assert (Hstep : ∀ v, 0 ≤ v ≤ UINT32_MAX →
    z85_accumulate (v / 85) (digit_char (v mod 85)) = Some v).
  { intros v Hv. apply z85_accumulate_Some; [mlia|apply digit_char_ok; mlia|].
    exists (v mod 85). split_and!; [mlia..|done|mlia|lia]. }
  rewrite digits85_div, !fmap_cons, fmap_nil. cbn [accumulate].
  replace 0 with (w / 85 / 85 / 85 / 85 / 85) by mlia.
  do 5 (rewrite Hstep by (unfold UINT32_MAX; mlia); cbn [mbind option_bind]).
  done.
Qed.

Lemma accumulate_inv cs w :
  length cs = 5%nat → Forall char_ok cs → accumulate 0 cs = Some w →
  0 ≤ w ≤ UINT32_MAX ∧ cs = digit_char <$> digits85 w.
Proof.
  intros Hlen Hcs H.
  destruct cs as [|c1 [|c2 [|c3 [|c4 [|c5 [|]]]]]]; try done.
  rewrite !Forall_cons in Hcs. destruct Hcs as (H1 & H2 & H3 & H4 & H5 & _).
  cbn [accumulate] in H.
  apply bind_Some in H as (v1 & (k1 & Hk1 & <- & -> & _)%z85_accumulate_Some & H); [|lia|done].
  apply bind_Some in H as (v2 & (k2 & Hk2 & <- & -> & _)%z85_accumulate_Some & H); [|lia|done].
  apply bind_Some in H as (v3 & (k3 & Hk3 & <- & -> & _)%z85_accumulate_Some & H); [|lia|done].
  apply bind_Some in H as (v4 & (k4 & Hk4 & <- & -> & _)%z85_accumulate_Some & H); [|lia|done].
  apply bind_Some in H as (v5 & (k5 & Hk5 & <- & -> & Hle)%z85_accumulate_Some & [= <-]); [|lia|done].
  split; [lia|].
  assert (Hdiv : ∀ v k, 0 ≤ k < 85 → (v * 85 + k) / 85 = v ∧ (v * 85 + k) mod 85 = k) by (intros; mlia).
  rewrite digits85_div.
  rewrite !(λ v k H, proj1 (Hdiv v k H)) by done.
  by rewrite !(λ v k H, proj2 (Hdiv v k H)) by done.
Qed.

(** Running the decoder over characters that do not complete a group. *)
Lemma decode_partial cs : ∀ pre post n m v dest fuel,
  Forall char_ok cs → m = Z.of_nat (length pre) →
  m mod 5 + Z.of_nat (length cs) < 5 → m + Z.of_nat (length cs) < 2 ^ 32 →
  match accumulate v cs with
  | None => ∃ m', z85_decode_loop (length cs + fuel) (pre ++ cs ++ post) n m v dest =
                  Some (n, m', dest, RcErr EINVAL)
  | Some v' => z85_decode_loop (length cs + fuel) (pre ++ cs ++ post) n m v dest =
      z85_decode_loop fuel (pre ++ cs ++ post) n (m + Z.of_nat (length cs)) v' dest
  end.
Proof.
  induction cs as [|c cs IH]; intros pre post n m v dest fuel Hcs Hm Hl Hlt.
  { cbn [accumulate length plus]. by rewrite Z.add_0_r. }
  apply Forall_cons in Hcs as [Hc Hcs]. cbn [accumulate length plus] in *.
  cbn [z85_decode_loop].
  change (pre ++ (c :: cs) ++ post) with (pre ++ c :: (cs ++ post)).
  rewrite (load_app pre (cs ++ post) c m Hm).
  cbn [mbind option_bind]. unfold char_ok in Hc. rewrite (proj2 (Z.eqb_neq c 0)) by lia.
  destruct (z85_accumulate v c) as [v1|]; cbn [mbind option_bind]; [|eauto].
  rewrite u32_small by lia. rewrite (proj2 (Z.eqb_neq _ 0)) by mlia.
  specialize (IH (pre ++ [c]) post n (m + 1) v1 dest fuel Hcs).
  rewrite <- (assoc_L _ pre [c]) in IH. cbn [app] in IH.
  replace (m + Z.of_nat (S (length cs))) with (m + 1 + Z.of_nat (length cs)) by lia.
  apply IH; [rewrite length_app; cbn [length]; lia|mlia|lia].
Qed.

(** Words and their bytes. *)
Lemma bytes256_ok v : bytes_ok (bytes256 v).
Proof. unfold bytes256, byte_ok. repeat constructor; mlia. Qed.

Lemma word_bytes v : 0 ≤ v ≤ UINT32_MAX →
  ∃ a b c e, bytes256 v = [a; b; c; e] ∧ word a b c e = v.
Proof. intros Hv. unfold UINT32_MAX in Hv. do 4 eexists. split; [done|]. unfold word. mlia. Qed.

Lemma word_range a b c e : bytes_ok [a; b; c; e] → 0 ≤ word a b c e ≤ UINT32_MAX.
Proof. rewrite !Forall_cons. unfold byte_ok, word, UINT32_MAX. lia. Qed.

(** A text of at least five characters is that of a frame of at least four bytes. *)
Lemma z85_text_cons d cs s :
  Z.of_nat (length d) mod 4 = 0 → length cs = 5%nat → z85_text d = cs ++ s →
  ∃ a b c e d', d = a :: b :: c :: e :: d' ∧ Z.of_nat (length d') mod 4 = 0 ∧
    cs = digit_char <$> digits85 (word a b c e) ∧ z85_text d' = s.
Proof.
  intros Hd Hcs Heq. destruct d as [|a [|b [|c [|e d]]]]; cbn [length] in Hd;
    [by destruct cs|mlia..|].
  cbn [z85_text] in Heq. apply app_inj_1 in Heq as [<- <-]; [|by rewrite Hcs].
  exists a, b, c, e, d. split_and!; [done|mlia|done..].
Qed.

(** The decoder's loop on the remaining characters [s] of the string, at a
    group boundary. *)
Definition decoded (s out ys : list Z) (res : option (Z * Z * list Z * rc)) : Prop :=
  (∃ d m', Z.of_nat (length d) mod 4 = 0 ∧ bytes_ok d ∧ z85_text d = s ∧ m' mod 5 = 0 ∧
     res = Some (Z.of_nat (length (out ++ d)), m', (out ++ d) ++ drop (length d) ys, RcOk)) ∨
  (∃ n' m' dest' r, (∀ d, Z.of_nat (length d) mod 4 = 0 → bytes_ok d → z85_text d ≠ s) ∧
     (r = RcErr EINVAL ∨ r = RcOk ∧ m' mod 5 ≠ 0) ∧ res = Some (n', m', dest', r)).

Lemma decode_short s pre junk out ys fuel :
  Forall char_ok s → (length s < 5)%nat → (length s < fuel)%nat →
  Z.of_nat (length pre) mod 5 = 0 → Z.of_nat (length pre + length s) < 2 ^ 32 →
  decoded s out ys (z85_decode_loop fuel (pre ++ s ++ 0 :: junk)
    (Z.of_nat (length out)) (Z.of_nat (length pre)) 0 (out ++ ys)).
Proof.
  intros Hs Hl Hf Hpre Hlt. replace fuel with (length s + S (fuel - length s - 1))%nat by lia.
  pose proof (decode_partial s pre (0 :: junk) (Z.of_nat (length out)) (Z.of_nat (length pre)) 0
    (out ++ ys) (S (fuel - length s - 1)) Hs eq_refl ltac:(mlia) ltac:(lia)) as H.
  destruct (decide (s = [])) as [->|Hne].
  - left. exists [], (Z.of_nat (length pre)). cbn [length plus app z85_decode_loop].
    rewrite load_app by done. cbn [mbind option_bind Z.eqb].
    rewrite !app_nil_r, drop_0. split_and!; done.
  - right. assert (Hno : ∀ d, Z.of_nat (length d) mod 4 = 0 → bytes_ok d → z85_text d ≠ s).
    { intros d Hd _ <-. pose proof (z85_text_length d Hd). destruct d; [done|].
      cbn [length] in *. mlia. }
    destruct (accumulate 0 s) as [v|].
    + rewrite H. cbn [z85_decode_loop].
      rewrite (assoc_L _ pre s), load_app by (rewrite length_app; lia).
      cbn [mbind option_bind Z.eqb]. do 4 eexists. split; [exact Hno|]. split; [|done].
      right. split; [done|]. destruct s; [done|]. cbn [length] in *. mlia.
    + destruct H as [m' H]. do 4 eexists. split; [exact Hno|]. eauto.
Qed.

Lemma decode_chunk cs s pre junk out ys fuel :
  Forall char_ok cs → length cs = 5%nat → (4 ≤ length ys)%nat →
  Z.of_nat (length pre) mod 5 = 0 → Z.of_nat (length pre + 5) < 2 ^ 32 →
  Z.of_nat (length out + 4) < 2 ^ 32 →
  match accumulate 0 cs with
  | None => ∃ m', z85_decode_loop (5 + fuel) (pre ++ cs ++ s ++ 0 :: junk)
      (Z.of_nat (length out)) (Z.of_nat (length pre)) 0 (out ++ ys) =
      Some (Z.of_nat (length out), m', out ++ ys, RcErr EINVAL)
  | Some w => z85_decode_loop (5 + fuel) (pre ++ cs ++ s ++ 0 :: junk)
      (Z.of_nat (length out)) (Z.of_nat (length pre)) 0 (out ++ ys) =
      z85_decode_loop fuel ((pre ++ cs) ++ s ++ 0 :: junk)
        (Z.of_nat (length (out ++ bytes256 w))) (Z.of_nat (length (pre ++ cs))) 0
        ((out ++ bytes256 w) ++ drop 4 ys)
  end.
Proof.
  intros Hcs Hlen Hys Hpre Hlt Hout.
  assert (Hsplit : cs = take 4 cs ++ drop 4 cs) by (by rewrite take_drop).
  destruct (drop 4 cs) as [|c [|]] eqn:Hd;
    try (apply (f_equal length) in Hd; rewrite length_drop in Hd; cbn [length] in Hd; lia).
  assert (H4 : length (take 4 cs) = 4%nat) by (rewrite length_take; lia).
  set (t := take 4 cs) in *. clearbody t. subst cs. clear Hd Hlen.
  apply Forall_app in Hcs as [Ht Hc%Forall_inv].
  pose proof (decode_partial t pre (c :: s ++ 0 :: junk) (Z.of_nat (length out)) (Z.of_nat (length pre)) 0
    (out ++ ys) (1 + fuel) Ht eq_refl ltac:(lia) ltac:(lia)) as H.
  rewrite H4 in H. change (4 + (1 + fuel))%nat with (5 + fuel)%nat in H.
  replace (accumulate 0 (t ++ [c])) with (v ← accumulate 0 t; z85_accumulate v c).
  2:{ clear. generalize 0. induction t as [|x t IH]; intros v; cbn [app accumulate mbind option_bind].
      - by destruct (z85_accumulate v c).
      - destruct (z85_accumulate v x); cbn [mbind option_bind]; [apply IH|done]. }
  replace (pre ++ (t ++ [c]) ++ s ++ 0 :: junk) with (pre ++ t ++ c :: s ++ 0 :: junk)
    by (by rewrite <- (assoc_L _ t)).
  destruct (accumulate 0 t) as [v|]; cbn [mbind option_bind]; [|done].
  rewrite H. change (1 + fuel)%nat with (S fuel). cbn [z85_decode_loop].
  rewrite (assoc_L _ pre t), load_app by (rewrite length_app; lia). cbn [mbind option_bind].
  unfold char_ok in Hc. rewrite (proj2 (Z.eqb_neq c 0)) by lia.
  destruct (z85_accumulate v c) as [w|]; [|eauto].
  rewrite u32_small by lia. rewrite (proj2 (Z.eqb_eq _ 0)) by mlia.
  rewrite <- (take_drop 4 ys) at 1. rewrite put_bytes_spec by (rewrite ?length_take; lia).
  cbn [mbind option_bind]. f_equal.
  - by rewrite <- !(assoc_L _).
  - rewrite length_app. cbn [length bytes256]. lia.
  - rewrite !length_app. cbn [length]. lia.
Qed.

Lemma z85_decode_loop_spec k : ∀ s pre junk out ys fuel,
  (length s < 5 * k)%nat → Forall char_ok s → (length s < fuel)%nat →
  Z.of_nat (length s) * 4 / 5 ≤ Z.of_nat (length ys) →
  Z.of_nat (length pre) mod 5 = 0 → Z.of_nat (length pre + length s) < 2 ^ 32 →
  Z.of_nat (length out) ≤ Z.of_nat (length pre) →
  decoded s out ys (z85_decode_loop fuel (pre ++ s ++ 0 :: junk)
    (Z.of_nat (length out)) (Z.of_nat (length pre)) 0 (out ++ ys)).
Proof.
  induction k as [|k IH]; intros s pre junk out ys fuel Hk Hs Hf Hys Hpre Hlt Hout; [lia|].
  destruct (decide (length s < 5)%nat); [by apply decode_short|].
  assert (H5 : length (take 5 s) = 5%nat) by (rewrite length_take; lia).
  assert (Hd : length (drop 5 s) = (length s - 5)%nat) by apply length_drop.
  rewrite <- (take_drop 5 s) in Hs |- *. apply Forall_app in Hs as [Hcs Hs].
  set (cs := take 5 s) in *. set (t := drop 5 s) in *. clearbody cs t.
  replace fuel with (5 + (fuel - 5))%nat by lia.
  pose proof (decode_chunk cs t pre junk out ys (fuel - 5) Hcs H5 ltac:(mlia) Hpre ltac:(lia) ltac:(lia)) as H.
  rewrite <- (assoc_L _ cs).
  destruct (accumulate 0 cs) as [w|] eqn:Hacc.
  - destruct (accumulate_inv cs w H5 Hcs Hacc) as [Hw ->].
    destruct (word_bytes w Hw) as (a & b & c & e & Hbytes & Hword).
    rewrite H. clear H.
    assert (Hdec : decoded t (out ++ bytes256 w) (drop 4 ys)
      (z85_decode_loop (fuel - 5) ((pre ++ (digit_char <$> digits85 w)) ++ t ++ 0 :: junk)
        (Z.of_nat (length (out ++ bytes256 w)))
        (Z.of_nat (length (pre ++ (digit_char <$> digits85 w)))) 0
        ((out ++ bytes256 w) ++ drop 4 ys))).
    { apply IH; rewrite ?length_app, ?length_fmap, ?length_drop; cbn [length digits85 bytes256];
        done || lia || mlia. }
    destruct Hdec as [(d & m' & Hd4 & Hb & Ht & Hm & Hres)|(n' & m' & dest' & r & Hno & Hr & Hres)];
      rewrite Hres.
    + left. exists (bytes256 w ++ d), m'. rewrite length_app. cbn [length bytes256].
      split_and!; [mlia| |..|done|].
      * by apply Forall_app_2; [apply bytes256_ok|].
      * rewrite Hbytes. cbn [app z85_text]. by rewrite Hword, Ht.
      * by rewrite (assoc_L _ out), drop_drop.
    + right. do 4 eexists. split; [|by split].
      intros d Hd4 Hb Heq. apply z85_text_cons in Heq as (a' & b' & c' & e' & d' & -> & Hd' & _ & Ht); [|done..].
      apply (Forall_app _ [a'; b'; c'; e'] d') in Hb as [_ Hb]. by apply (Hno d').
  - destruct H as [m' H]. right. do 4 eexists. split; [|split; [by left|exact H]].
    intros d Hd4 Hb Heq. apply z85_text_cons in Heq as (a & b & c & e & d' & -> & Hd' & -> & Ht); [|done..].
    apply (Forall_app _ [a; b; c; e] d') in Hb as [Hb _].
    by rewrite (accumulate_digits _ (word_range _ _ _ _ Hb)) in Hacc.
Qed.

(** What [zmq_z85_decode] does with a C string. *)
Lemma decode_result s junk dest :
  Forall char_ok s → Z.of_nat (length s) < 2 ^ 32 →
  Z.of_nat (length s) * 4 / 5 ≤ Z.of_nat (length dest) →
  (∃ d, Z.of_nat (length d) mod 4 = 0 ∧ bytes_ok d ∧ z85_text d = s ∧
     zmq_z85_decode dest (s ++ 0 :: junk) = Some (d ++ drop (length d) dest, RcOk)) ∨
  ((∀ d, Z.of_nat (length d) mod 4 = 0 → bytes_ok d → z85_text d ≠ s) ∧
   ∃ dest', zmq_z85_decode dest (s ++ 0 :: junk) = Some (dest', RcErr EINVAL)).
Proof.
  intros Hs Hlt Hdest. unfold zmq_z85_decode.
  assert (Hf : (length s < S (length (s ++ 0%Z :: junk)))%nat) by (rewrite length_app; lia).
  destruct (z85_decode_loop_spec (S (length s)) s [] junk [] dest _ ltac:(lia) Hs Hf Hdest eq_refl
      ltac:(cbn [length]; lia) ltac:(cbn [length]; lia))
    as [(d & m' & Hd4 & Hb & Ht & Hm & Hres)|(n' & m' & dest' & r & Hno & Hr & Hres)];
    cbn [app length] in Hres; change (Z.of_nat 0) with 0 in Hres; rewrite Hres; cbn [mbind option_bind].
  - left. exists d. split_and!; [done..|].
    rewrite Hm. cbn [Z.eqb negb]. rewrite strlen_text by done.
    rewrite <- Ht, z85_text_length by done. cbn [app].
    rewrite zmq_assert_true; [done|]. apply Z.eqb_eq. mlia.
  - right. split; [done|]. destruct Hr as [->|[-> Hm]]; [eauto|].
    rewrite (proj2 (Z.eqb_neq _ _)) by done. cbn [negb]. eauto.
Qed.

(** What [zmq_z85_encode] does with a frame. *)
Lemma encode_result data post dest :
  bytes_ok data → Z.of_nat (length data) mod 4 = 0 →
  Z.of_nat (length data) * 5 / 4 < 2 ^ 32 →
  Z.of_nat (length data) * 5 / 4 < Z.of_nat (length dest) →
  zmq_z85_encode dest (data ++ post) (Z.of_nat (length data)) =
  Some (z85_text data ++ 0 :: drop (S (length (z85_text data))) dest, RcOk).
Proof.
  intros Hb H4 Hlt Hdest. unfold zmq_z85_encode.
  rewrite (proj2 (Z.eqb_eq _ 0)) by done. cbn [negb]. rewrite Nat2Z.id.
  pose proof (z85_text_length data H4) as Hl.
  assert (Htl : length (take (length (z85_text data)) dest) = length (z85_text data))
    by (rewrite length_take; lia).
  rewrite <- (take_drop (length (z85_text data)) dest) at 1.
  pose proof (z85_encode_loop_spec data H4 [] post [] (take (length (z85_text data)) dest)
    (drop (length (z85_text data)) dest) (Z.of_nat (length data)) (S (length data)) Hb) as H.
  cbn [app length plus] in H. change (Z.of_nat 0) with 0 in H.
  rewrite H by (done || mlia || lia). cbn [mbind option_bind].
  rewrite zmq_assert_true by (apply Z.eqb_eq; lia). cbn [mbind option_bind].
  destruct (drop (length (z85_text data)) dest) as [|y rest] eqn:Hdrop.
  { apply (f_equal length) in Hdrop. rewrite length_drop in Hdrop. cbn [length] in Hdrop. lia. }
  rewrite store_app by lia. cbn [mbind option_bind].
  rewrite <- Nat.add_1_r, <- drop_drop, Hdrop, <- (assoc_L _ (z85_text data)). done.
Qed.

Lemma z85_text_char_ok d : Forall char_ok (z85_text d).
Proof.
  remember (length d) as n eqn:Hn. revert d Hn. induction (lt_wf n) as [n _ IH]. intros d ->.
  destruct d as [|a [|b [|c [|e d]]]]; [by apply Forall_nil..|]. cbn [z85_text].
  apply Forall_app_2; [|apply (IH (length d)); [cbn [length]; lia|done]].
  unfold digits85. repeat constructor; apply digit_char_ok, Z.mod_pos_bound; lia.
Qed.

Lemma z85_text_inj d1 d2 :
  Z.of_nat (length d1) mod 4 = 0 → Z.of_nat (length d2) mod 4 = 0 → bytes_ok d1 → bytes_ok d2 →
  z85_text d1 = z85_text d2 → d1 = d2.
Proof.
  intros H1. revert d1 H1 d2. refine (list_ind4 _ _ _).
  - intros d2 H2 _ _ Heq. apply (f_equal length) in Heq. pose proof (z85_text_length d2 H2) as Hl.
    rewrite <- Heq in Hl. destruct d2; [done|]. cbn [length z85_text] in *. mlia.
  - intros a b c e d1 _ IH d2 H2 Hb1 Hb2 Heq. cbn [z85_text] in Heq. symmetry in Heq.
    apply z85_text_cons in Heq as (a' & b' & c' & e' & d' & -> & Hd' & Hcs & Ht); [|done..].
    apply (Forall_app _ [a; b; c; e] d1) in Hb1 as [Hw1 Hb1].
    apply (Forall_app _ [a'; b'; c'; e'] d') in Hb2 as [Hw2 Hb2].
    assert (Hw : word a b c e = word a' b' c' e').
    { pose proof (accumulate_digits _ (word_range _ _ _ _ Hw1)) as Ha.
      rewrite Hcs, (accumulate_digits _ (word_range _ _ _ _ Hw2)) in Ha. congruence. }
    rewrite (IH d') by done.
    rewrite !Forall_cons in Hw1, Hw2. unfold byte_ok, word in *. repeat f_equal; lia.
Qed.

(** ** The properties *)

(** Given a frame whose size is a multiple of 4 and a destination of at
    least size * 5 / 4 + 1 bytes, the encoder writes the frame's Z85 text and a
    NUL and nothing else, without a write out of bounds, a counter overflow or
    the final assertion failing; given any other size it returns NULL with
    EINVAL and leaves the destination alone. *)
Theorem z85_encode_spec (dest data post : list Z) :
  bytes_ok data → Z.of_nat (length data) * 5 / 4 < 2 ^ 32 →
  Z.of_nat (length data) * 5 / 4 < Z.of_nat (length dest) →
  zmq_z85_encode dest (data ++ post) (Z.of_nat (length data)) =
  Some (if Z.of_nat (length data) mod 4 =? 0
        then (z85_text data ++ 0 :: drop (S (length (z85_text data))) dest, RcOk)
        else (dest, RcErr EINVAL)).
Proof.
  intros Hb Hlt Hdest. destruct (Z.eqb_spec (Z.of_nat (length data) mod 4) 0) as [H4|H4].
  - by apply encode_result.
  - unfold zmq_z85_encode. by rewrite (proj2 (Z.eqb_neq _ _)).
Qed.

(** The decoder accepts a C string exactly when it is the Z85 text of a
    frame: it then writes that frame, and nothing else, into the destination;
    on every other string (a length that is not a multiple of 5, an invalid
    character, a group whose value exceeds 32 bits) it returns NULL with
    EINVAL.  It never writes out of a destination of length * 4 / 5 bytes. *)
Theorem z85_decode_exact (dest s junk : list Z) :
  Forall char_ok s → Z.of_nat (length s) < 2 ^ 32 →
  Z.of_nat (length s) * 4 / 5 ≤ Z.of_nat (length dest) →
  ∃ dest' r, zmq_z85_decode dest (s ++ 0 :: junk) = Some (dest', r) ∧
    ((r = RcOk ∧ ∃ d, bytes_ok d ∧ Z.of_nat (length d) mod 4 = 0 ∧ z85_text d = s ∧
                      dest' = d ++ drop (length d) dest) ∨
     (r = RcErr EINVAL ∧ ∀ d, bytes_ok d → Z.of_nat (length d) mod 4 = 0 → z85_text d ≠ s)).
Proof.
  intros Hs Hlt Hdest.
  destruct (decode_result s junk dest Hs Hlt Hdest)
    as [(d & Hd4 & Hb & Ht & Heq)|[Hno [dest' Heq]]]; rewrite Heq; do 2 eexists; (split; [done|]).
  - left. split; [done|]. by exists d.
  - right. split; [done|]. auto.
Qed.

(** Decoding what the encoder wrote gives the frame back. *)
Theorem z85_roundtrip (data dest1 dest2 : list Z) :
  bytes_ok data → Z.of_nat (length data) mod 4 = 0 → Z.of_nat (length data) * 5 / 4 < 2 ^ 32 →
  Z.of_nat (length data) * 5 / 4 < Z.of_nat (length dest1) → length dest2 = length data →
  ∃ text, zmq_z85_encode dest1 data (Z.of_nat (length data)) = Some (text, RcOk) ∧
    zmq_z85_decode dest2 text = Some (data, RcOk).
Proof.
  intros Hb H4 Hlt Hdest1 Hdest2. eexists.
  pose proof (encode_result data [] dest1 Hb H4 Hlt Hdest1) as He.
  rewrite app_nil_r in He. split; [exact He|]. pose proof (z85_text_length data H4) as Hl.
  destruct (decode_result (z85_text data) (drop (S (length (z85_text data))) dest1) dest2)
    as [(d & Hd4 & Hbd & Ht & ->)|[Hno _]]; [apply z85_text_char_ok|lia|mlia|..].
  - apply z85_text_inj in Ht as ->; [|done..]. by rewrite <- Hdest2, drop_all, app_nil_r.
  - by destruct (Hno data H4 Hb).
Qed.

(** ** Witnesses *)

Definition ex_frame : list Z := [0x86; 0x4F; 0xD2; 0x6F; 0xB5; 0x59; 0xF7; 0x5B].

Lemma z85_encode_spec_witness :
  zmq_z85_encode (replicate 11 7) ex_frame 8 =
  Some ([72; 101; 108; 108; 111; 87; 111; 114; 108; 100; 0], RcOk).
Proof.
  pose proof (z85_encode_spec (replicate 11 7) ex_frame []
    ltac:(repeat constructor; done) ltac:(done) ltac:(done)) as H.
  rewrite app_nil_r in H. exact H.
Defined.

Lemma z85_decode_exact_witness :
  ∃ dest' r, zmq_z85_decode (replicate 8 0) [72; 101; 108; 108; 111; 0] = Some (dest', r) ∧ r = RcOk.
Proof.
  destruct (z85_decode_exact (replicate 8 0) [72; 101; 108; 108; 111] []
    ltac:(repeat constructor; done) ltac:(done) ltac:(done)) as (dest' & r & H & [[Hr _]|[Hr _]]).
  - exists dest', r. exact (conj H Hr).
  - subst r. exfalso. vm_compute in H. congruence.
Defined.

Lemma z85_roundtrip_witness :
  ∃ text, zmq_z85_encode (replicate 12 7) ex_frame 8 = Some (text, RcOk) ∧
    zmq_z85_decode (replicate 8 0) text = Some (ex_frame, RcOk).
Proof.
  exact (z85_roundtrip ex_frame (replicate 12 7) (replicate 8 0)
    ltac:(repeat constructor; done) eq_refl eq_refl eq_refl eq_refl).
Defined.

End Z85.
