(* ===== verification/YQueue.v ===== *)
(** * The chunked queue of a pipe

    [yqueue_t] (src/yqueue.hpp): a queue whose elements live in linked chunks of
    [N] values, with a spare chunk kept for the next allocation.  The model has
    the chunks in a heap with their [prev] and [next] pointers; dereferencing a
    pointer that is NULL, uninitialised or freed is [None].  [QueueLaws] is what
    the queue promises to [ypipe_t]: a window of slots, each with its address
    and its current value, that [push], [unpush] and [pop] extend or shorten by
    one slot; this file proves that the chunked queue implements it and that
    its destructor frees every chunk. *)

From S2P Require Import Prelude.

(** ** The interface *)

(** Operations of a queue [Q] of values [T] whose elements have addresses [A]. *)
Class Queue (T A Q : Type) := {
  q_front : Q → option T;          (* the value of [front ()] *)
  q_front_addr : Q → A;            (* [&front ()] *)
  q_back : Q → option T;           (* the value of [back ()] *)
  q_back_addr : Q → option A;      (* [&back ()] *)
  q_set_back : T → Q → option Q;   (* [back () = value] *)
  q_push : Q → option Q;
  q_unpush : Q → option Q;
  q_pop : Q → option Q }.

(** The window of a queue: its elements from front to back and then the slot
    the next [push] takes; a slot is its address and its value. *)
Class QueueLaws (T A Q : Type) `{Queue T A Q} := {
  q_repr : Q → list (A * option T) → Prop;
  q_repr_nodup q win : q_repr q win → NoDup win.*1;
  q_front_spec q a v win : q_repr q ((a, v) :: win) → q_front_addr q = a ∧ q_front q = v;
  q_back_spec q a v x win : q_repr q (win ++ [(a, v); x]) → q_back_addr q = Some a ∧ q_back q = v;
  q_set_back_spec q a v x win y :
    q_repr q (win ++ [(a, v); x]) →
    ∃ q', q_set_back y q = Some q' ∧ q_repr q' (win ++ [(a, Some y); x]);
  q_push_spec q win : q_repr q win →
    ∃ q' x, q_push q = Some q' ∧ q_repr q' (win ++ [x]);
  q_unpush_spec q x y win : q_repr q (win ++ [x; y]) →
    ∃ q', q_unpush q = Some q' ∧ q_repr q' (win ++ [x]);
  q_pop_spec q x y win : q_repr q (x :: y :: win) →
    ∃ q', q_pop q = Some q' ∧ q_repr q' (y :: win) }.

(** ** Programs over a queue *)

Inductive qop (T : Type) : Type := OSetBack (x : T) | OPush | OUnpush | OPop.
Arguments OSetBack {T} _.
Arguments OPush {T}.
Arguments OUnpush {T}.
Arguments OPop {T}.

Section programs.
Context {T A Q : Type} `{QueueLaws T A Q}.

Definition run_op (q : Q) (o : qop T) : option Q :=
  match o with
  | OSetBack x => q_set_back x q
  | OPush => q_push q
  | OUnpush => q_unpush q
  | OPop => q_pop q
  end.

Fixpoint run_ops (q : Q) (os : list (qop T)) : option Q :=
  match os with [] => Some q | o :: os => q ← run_op q o; run_ops q os end.

(** The specification: the elements from front to back, [None] for one that was
    pushed and not written yet.  [back], [unpush] and [pop] need an element. *)
Definition spec_op (l : list (option T)) (o : qop T) : option (list (option T)) :=
  match o with
  | OSetBack x => if decide (l = []) then None else Some (<[pred (length l) := Some x]> l)
  | OPush => Some (l ++ [None])
  | OUnpush => if decide (l = []) then None else Some (take (pred (length l)) l)
  | OPop => match l with [] => None | _ :: l => Some l end
  end.

Fixpoint spec_ops (l : list (option T)) (os : list (qop T)) : option (list (option T)) :=
  match os with [] => Some l | o :: os => l ← spec_op l o; spec_ops l os end.

Definition agrees (o : option T) (s : A * option T) : Prop := o = None ∨ s.2 = o.

(** A queue that holds the elements [l]. *)
Definition holds (q : Q) (l : list (option T)) : Prop :=
  ∃ win e, q_repr q (win ++ [e]) ∧ Forall2 agrees l win.

Lemma list_last_cases {B} (l : list B) : l = [] ∨ ∃ l' x, l = l' ++ [x].
Proof. destruct l as [|x l _] using rev_ind; eauto. Qed.

Lemma forall2_last l l' o win :
  l = l' ++ [o] → Forall2 agrees l win → ∃ win' s, win = win' ++ [s] ∧ Forall2 agrees l' win' ∧ agrees o s.
Proof.
  intros -> Hf. apply Forall2_app_inv_l in Hf as (win' & k & Hw & Hk & ->).
  apply Forall2_cons_inv_l in Hk as (s & k' & Hs & Hk' & ->). apply Forall2_nil_inv_l in Hk' as ->. eauto.
Qed.

Lemma run_op_spec q l o l' : holds q l → spec_op l o = Some l' → ∃ q', run_op q o = Some q' ∧ holds q' l'.
Proof.
  intros (win & e & Hq & Hl) Hspec. destruct o as [x| | |]; cbn [spec_op run_op] in *.
  - destruct (decide _) as [|Hne]; [done|]. injection Hspec as <-.
    destruct (list_last_cases l) as [|(l0 & o & Heq)]; [done|].
    destruct (forall2_last _ _ _ _ Heq Hl) as (win' & [a v] & -> & Hl0 & Ho).
    rewrite <- (assoc_L _ win') in Hq. cbn [app] in Hq.
    destruct (q_set_back_spec _ _ _ _ _ x Hq) as (q' & Hq' & Hrepr). exists q'. split; [done|].
    exists (win' ++ [(a, Some x)]), e. rewrite <- (assoc_L _ win'). split; [done|].
    rewrite Heq, length_app. cbn [length]. replace (pred (length l0 + 1)) with (length l0 + 0)%nat by lia.
    rewrite insert_app_r. apply Forall2_app; [done|]. constructor; [by right|constructor].
  - injection Hspec as <-. destruct (q_push_spec _ _ Hq) as (q' & x & Hq' & Hrepr). exists q'. split; [done|].
    exists (win ++ [e]), x. split; [done|]. apply Forall2_app; [done|]. constructor; [by left|constructor].
  - destruct (decide _) as [|Hne]; [done|]. injection Hspec as <-.
    destruct (list_last_cases l) as [|(l0 & o & Heq)]; [done|].
    destruct (forall2_last _ _ _ _ Heq Hl) as (win' & s & -> & Hl0 & Ho).
    rewrite <- (assoc_L _ win') in Hq. cbn [app] in Hq.
    destruct (q_unpush_spec _ _ _ _ Hq) as (q' & Hq' & Hrepr). exists q'. split; [done|].
    exists win', s. split; [done|]. rewrite Heq, length_app. cbn [length].
    replace (pred (length l0 + 1)) with (length l0) by lia. by rewrite take_app_length.
  - destruct l as [|o l]; [done|]. injection Hspec as <-.
    apply Forall2_cons_inv_l in Hl as (s & win' & Hs & Hl & ->).
    destruct (list_last_cases win') as [->|(w & s' & ->)]; cbn [app] in Hq.
    + destruct (q_pop_spec _ _ _ _ Hq) as (q' & Hq' & Hrepr). exists q'. split; [done|]. by exists [], e.
    + destruct w as [|y w]; cbn [app] in Hq; destruct (q_pop_spec _ _ _ _ Hq) as (q' & Hq' & Hrepr);
        exists q'; (split; [done|]).
      * by exists [s'], e.
      * by exists (y :: w ++ [s']), e.
Qed.

Lemma run_ops_spec os : ∀ q l l',
  holds q l → spec_ops l os = Some l' → ∃ q', run_ops q os = Some q' ∧ holds q' l'.
Proof.
  induction os as [|o os IH]; intros q l l' Hq Hl; cbn [spec_ops run_ops] in *.
  - injection Hl as <-. eauto.
  - apply bind_Some in Hl as (l1 & Hl1 & Hl). destruct (run_op_spec _ _ _ _ Hq Hl1) as (q1 & -> & Hq1).
    cbn [mbind option_bind]. eauto.
Qed.

Lemma holds_front q x l : holds q (Some x :: l) → q_front q = Some x.
Proof.
  intros (win & e & Hq & Hl). apply Forall2_cons_inv_l in Hl as ([a v] & win' & [|Hv] & _ & ->); [done|].
  cbn in Hv. subst v. by destruct (q_front_spec _ _ _ _ Hq).
Qed.

Lemma holds_back q x l : holds q (l ++ [Some x]) → q_back q = Some x.
Proof.
  intros (win & e & Hq & Hl). destruct (forall2_last _ _ _ _ eq_refl Hl) as (win' & [a v] & -> & _ & [|Hv]); [done|].
  cbn in Hv. subst v. rewrite <- (assoc_L _ win') in Hq. by destruct (q_back_spec _ _ _ _ _ Hq).
Qed.
End programs.

(** A pointer: NULL, never initialised, or the address of a chunk. *)
Inductive ptr : Type := PNull | PJunk | PAddr (a : Z).

Definition deref (p : ptr) : option Z := match p with PAddr a => Some a | _ => None end.

Module YQueue.
Section yqueue.
Context {T : Type} (N : nat) (malloc : gset Z → Z).

Record chunk := Chunk { values : list (option T); prev : ptr; next : ptr }.

Abbreviation heap := (gmap Z chunk).

(** The data members, and the heap the pointers lead to.  The positions are
    [int]s between 0 and [N]. *)
Record yqueue := YQ {
  begin_chunk : Z; begin_pos : nat;
  back_chunk : ptr; back_pos : nat;
  end_chunk : Z; end_pos : nat;
  spare_chunk : ptr;
  mem : heap }.

(** [allocate_chunk ()]: the memory is uninitialised. *)
Definition allocate_chunk (h : heap) : Z * heap :=
  let a := malloc (dom h) in
  (a, <[a := Chunk (replicate N None) PJunk PJunk]> h).

(** [free (p)]: nothing for NULL; freeing what is not allocated is undefined. *)
Definition free (p : ptr) (h : heap) : option heap :=
  match p with
  | PNull => Some h
  | PJunk => None
  | PAddr a => match h !! a with Some _ => Some (delete a h) | None => None end
  end.

Definition set_prev (a : Z) (p : ptr) (h : heap) : option heap :=
  c ← h !! a; Some (<[a := Chunk (values c) p (next c)]> h).

Definition set_next (a : Z) (p : ptr) (h : heap) : option heap :=
  c ← h !! a; Some (<[a := Chunk (values c) (prev c) p]> h).

Definition yqueue_new : yqueue :=
  let '(a, h) := allocate_chunk ∅ in YQ a 0 PNull 0 a 0 PNull h.

(** [_begin_chunk->values[_begin_pos]]: its value and its address. *)
Definition front (q : yqueue) : option T :=
  c ← mem q !! begin_chunk q; mjoin (values c !! begin_pos q).
Definition front_addr (q : yqueue) : Z * nat := (begin_chunk q, begin_pos q).

Definition back (q : yqueue) : option T :=
  a ← deref (back_chunk q); c ← mem q !! a; mjoin (values c !! back_pos q).
Definition back_addr (q : yqueue) : option (Z * nat) :=
  a ← deref (back_chunk q); Some (a, back_pos q).

(** [back () = value] *)
Definition set_back (x : T) (q : yqueue) : option yqueue :=
  a ← deref (back_chunk q);
  c ← mem q !! a;
  if decide (back_pos q < length (values c))%nat then
    Some (YQ (begin_chunk q) (begin_pos q) (back_chunk q) (back_pos q)
             (end_chunk q) (end_pos q) (spare_chunk q)
             (<[a := Chunk (<[back_pos q := Some x]> (values c)) (prev c) (next c)]> (mem q)))
  else None.

Definition push (q : yqueue) : option yqueue :=
  let bc := PAddr (end_chunk q) in
  let bp := end_pos q in
  if negb (S (end_pos q) =? N)%nat then
    Some (YQ (begin_chunk q) (begin_pos q) bc bp (end_chunk q) (S (end_pos q))
             (spare_chunk q) (mem q))
  else
    (* sc = _spare_chunk.xchg (NULL), or a new chunk *)
    let '(n, h) := match spare_chunk q with
                   | PAddr sc => (sc, mem q)
                   | _ => allocate_chunk (mem q)
                   end in
    h ← set_next (end_chunk q) (PAddr n) h;
    h ← set_prev n (PAddr (end_chunk q)) h;
    Some (YQ (begin_chunk q) (begin_pos q) bc bp n 0 PNull h).

Definition unpush (q : yqueue) : option yqueue :=
  '(bc, bp) ← (if negb (back_pos q =? 0)%nat then Some (back_chunk q, pred (back_pos q))
               else
                 a ← deref (back_chunk q);
                 c ← mem q !! a;
                 Some (prev c, pred N));
  if negb (end_pos q =? 0)%nat then
    Some (YQ (begin_chunk q) (begin_pos q) bc bp (end_chunk q) (pred (end_pos q))
             (spare_chunk q) (mem q))
  else
    c ← mem q !! end_chunk q;
    e ← deref (prev c);
    ec ← mem q !! e;
    h ← free (next ec) (mem q);
    h ← set_next e PNull h;
    Some (YQ (begin_chunk q) (begin_pos q) bc bp e (pred N) (spare_chunk q) h).

Definition pop (q : yqueue) : option yqueue :=
  if (S (begin_pos q) =? N)%nat then
    let o := begin_chunk q in
    c ← mem q !! o;
    b ← deref (next c);
    h ← set_prev b PNull (mem q);
    (* cs = _spare_chunk.xchg (o); free (cs) *)
    h ← free (spare_chunk q) h;
    Some (YQ b 0 (back_chunk q) (back_pos q) (end_chunk q) (end_pos q) (PAddr o) h)
  else
    Some (YQ (begin_chunk q) (S (begin_pos q)) (back_chunk q) (back_pos q)
             (end_chunk q) (end_pos q) (spare_chunk q) (mem q)).

(** The destructor's loop; what is left of the heap. *)
Fixpoint destroy_loop (fuel : nat) (b e : Z) (h : heap) : option heap :=
  match fuel with
  | O => None
  | S fuel =>
      if b =? e then free (PAddr b) h
      else
        c ← h !! b;
        n ← deref (next c);
        h ← free (PAddr b) h;
        destroy_loop fuel n e h
  end.

Definition destroy (q : yqueue) : option heap :=
  h ← destroy_loop (S (size (mem q))) (begin_chunk q) (end_chunk q) (mem q);
  free (spare_chunk q) h.

#[export] Instance yqueue_queue : Queue T (Z * nat) yqueue := {|
  q_front := front; q_front_addr := front_addr; q_back := back; q_back_addr := back_addr;
  q_set_back := set_back; q_push := push; q_unpush := unpush; q_pop := pop |}.

Definition run (q : yqueue) (os : list (qop T)) : option yqueue := run_ops (A := Z * nat) q os.

(** ** The representation *)

(** The chunks from [_begin_chunk] to [_end_chunk], each with its address and
    its values; slot [j] of the queue is slot [j mod N] of chunk [j / N]. *)
Definition entry (chs : list (Z * list (option T))) (j : nat) : (Z * nat) * option T :=
  match chs !! (j / N)%nat with
  | Some (a, vs) => ((a, (j mod N)%nat), mjoin (vs !! (j mod N)%nat))
  | None => ((0, 0%nat), None)
  end.

Definition window (chs : list (Z * list (option T))) (b e : nat) : list ((Z * nat) * option T) :=
  entry chs <$> seq b (S e - b).

(** The index of the end slot. *)
Definition end_index (chs : list (Z * list (option T))) (q : yqueue) : nat :=
  (pred (length chs) * N + end_pos q)%nat.

Record chunk_ok (h : heap) (chs : list (Z * list (option T))) (i : nat) (a : Z)
    (vs : list (option T)) : Prop := {
  co_len : length vs = N;
  co_mem : ∃ c, h !! a = Some c ∧ values c = vs ∧
    (∀ b ws, chs !! S i = Some (b, ws) → next c = PAddr b) ∧
    (∀ j b ws, i = S j → chs !! j = Some (b, ws) → prev c = PAddr b) }.

Record yq_inv (q : yqueue) (chs : list (Z * list (option T))) : Prop := {
  yi_first : ∃ vs, chs !! 0%nat = Some (begin_chunk q, vs);
  yi_last : ∃ vs, chs !! pred (length chs) = Some (end_chunk q, vs);
  yi_begin : (begin_pos q < N)%nat;
  yi_end : (end_pos q < N)%nat;
  yi_order : (begin_pos q ≤ end_index chs q)%nat;
  yi_back : (begin_pos q < end_index chs q)%nat →
    ∃ a vs, chs !! (pred (end_index chs q) / N)%nat = Some (a, vs) ∧
            back_chunk q = PAddr a ∧ back_pos q = (pred (end_index chs q) mod N)%nat;
  yi_nodup : NoDup chs.*1;
  yi_chunks : ∀ i a vs, chs !! i = Some (a, vs) → chunk_ok (mem q) chs i a vs;
  yi_dom : dom (mem q) = list_to_set chs.*1 ∪ (match spare_chunk q with PAddr s => {[s]} | _ => ∅ end);
  yi_spare : ∀ s, spare_chunk q = PAddr s →
    s ∉ chs.*1 ∧ ∃ c, mem q !! s = Some c ∧ length (values c) = N;
  yi_spare_init : spare_chunk q ≠ PJunk }.

Definition yq_repr (q : yqueue) (win : list ((Z * nat) * option T)) : Prop :=
  ∃ chs, yq_inv q chs ∧ win = window chs (begin_pos q) (end_index chs q).

(** ** Windows *)

Lemma window_length chs b e : length (window chs b e) = (S e - b)%nat.
Proof. unfold window. by rewrite length_fmap, length_seq. Qed.

Lemma window_cons chs b e : (b ≤ e)%nat → window chs b e = entry chs b :: window chs (S b) e.
Proof. intros H. unfold window. replace (S e - b)%nat with (S (S e - S b)) by lia. done. Qed.

Lemma window_snoc chs b e :
  (b ≤ S e)%nat → window chs b (S e) = window chs b e ++ [entry chs (S e)].
Proof.
  intros H. unfold window. replace (S (S e) - b)%nat with (S (S e - b)) by lia.
  rewrite seq_S, fmap_app. cbn [fmap list_fmap]. by replace (b + (S e - b))%nat with (S e) by lia.
Qed.

Lemma window_snoc2 chs b e win x y :
  window chs b e = win ++ [x; y] →
  (b < e)%nat ∧ x = entry chs (pred e) ∧ y = entry chs e ∧ win ++ [x] = window chs b (pred e).
Proof.
  intros Heq. pose proof (f_equal length Heq) as Hl.
  rewrite window_length, length_app in Hl. cbn [length] in Hl.
  destruct e as [|e]; [lia|]. rewrite window_snoc in Heq by lia.
  change [x; y] with ([x] ++ [y]) in Heq. rewrite (assoc_L _ win) in Heq.
  apply app_inj_tail in Heq as [Heq ->]. cbn [pred]. split_and!; [lia| |done..].
  destruct (decide (b = S e)) as [->|]; [lia|].
  destruct e as [|e].
  - replace b with 0%nat in * by lia. unfold window in Heq. cbn [seq fmap list_fmap Nat.sub] in Heq.
    by destruct win as [|? []]; simplify_eq/=.
  - rewrite window_snoc in Heq by lia. by apply app_inj_tail in Heq as [_ ->].
Qed.

Lemma window_ext chs chs' b e :
  (∀ j, (b ≤ j ≤ e)%nat → entry chs j = entry chs' j) → window chs b e = window chs' b e.
Proof. intros H. apply list_fmap_ext. intros i j Hj%lookup_seq. apply H. lia. Qed.

Lemma entry_app chs chs' j : (j < length chs * N)%nat → entry (chs ++ chs') j = entry chs j.
Proof.
  intros H. unfold entry. rewrite lookup_app_l; [done|].
  apply Nat.Div0.div_lt_upper_bound. lia.
Qed.

Lemma entry_tail c chs j : (0 < N)%nat → entry (c :: chs) (N + j) = entry chs j.
Proof.
  intros HN. unfold entry. replace (N + j)%nat with (j + 1 * N)%nat by lia.
  rewrite Nat.div_add, Nat.Div0.mod_add by lia. by rewrite Nat.add_1_r.
Qed.

Lemma window_tail c chs b e : (0 < N)%nat → window (c :: chs) (N + b) (N + e) = window chs b e.
Proof.
  intros HN. unfold window. replace (S (N + e) - (N + b))%nat with (S e - b)%nat by lia.
  generalize (S e - b)%nat. intros n. revert b. induction n as [|n IH]; intros b; [done|].
  cbn [seq fmap list_fmap]. rewrite entry_tail by done. f_equal.
  replace (S (N + b)) with (N + S b)%nat by lia. apply IH.
Qed.

(** ** The invariant *)

Section ops.
Context (malloc_fresh : ∀ X, malloc X ∉ X).

Lemma inv_pos q chs : yq_inv q chs → (0 < N)%nat ∧ (0 < length chs)%nat.
Proof.
  intros H. split; [pose proof (yi_begin _ _ H); lia|].
  destruct (yi_first _ _ H) as [vs Hvs%lookup_lt_Some]. lia.
Qed.

Lemma end_div q chs :
  yq_inv q chs → (end_index chs q / N = pred (length chs) ∧ end_index chs q mod N = end_pos q)%nat.
Proof.
  intros H. pose proof (inv_pos _ _ H). pose proof (yi_end _ _ H). unfold end_index. split.
  - rewrite Nat.add_comm, Nat.div_add, Nat.div_small by lia. lia.
  - by rewrite Nat.add_comm, Nat.Div0.mod_add, Nat.mod_small by lia.
Qed.

Lemma index_chunk q chs j :
  yq_inv q chs → (j ≤ end_index chs q)%nat → ∃ a vs, chs !! (j / N)%nat = Some (a, vs).
Proof.
  intros H Hj. pose proof (inv_pos _ _ H). destruct (end_div _ _ H) as [Hd _].
  assert (j / N ≤ pred (length chs))%nat by (rewrite <- Hd; apply Nat.Div0.div_le_mono; lia).
  destruct (lookup_lt_is_Some_2 chs (j / N)%nat ltac:(lia)) as [[a vs] ?]. eauto.
Qed.

Lemma chunk_lookup q chs i a vs :
  yq_inv q chs → chs !! i = Some (a, vs) → ∃ c, mem q !! a = Some c ∧ values c = vs ∧ length vs = N.
Proof.
  intros H Hi. destruct (yi_chunks _ _ H _ _ _ Hi) as [Hl (c & Hc & Hv & _)]. eauto.
Qed.

Lemma addr_elem chs i (a : Z) (vs : list (option T)) : chs !! i = Some (a, vs) → a ∈ chs.*1.
Proof. intros Hi. apply list_elem_of_fmap. exists (a, vs). split; [done|]. by eapply list_elem_of_lookup_2. Qed.

Lemma addr_inj chs i j (a : Z) (vs ws : list (option T)) :
  NoDup chs.*1 → chs !! i = Some (a, vs) → chs !! j = Some (a, ws) → i = j.
Proof.
  intros Hnd Hi Hj. eapply NoDup_lookup; [exact Hnd| |]; rewrite list_lookup_fmap.
  - by rewrite Hi.
  - by rewrite Hj.
Qed.

Lemma window_nodup q chs :
  yq_inv q chs → NoDup (window chs (begin_pos q) (end_index chs q)).*1.
Proof.
  intros H. unfold window. rewrite <- list_fmap_compose.
  apply NoDup_fmap_2_strong; [|apply NoDup_seq].
  intros i j Hi Hj Heq. apply elem_of_seq in Hi, Hj. pose proof (yi_order _ _ H). pose proof (inv_pos _ _ H).
  destruct (index_chunk q chs i H ltac:(lia)) as (a & vs & Ha).
  destruct (index_chunk q chs j H ltac:(lia)) as (b & ws & Hb).
  unfold compose, entry in Heq. rewrite Ha, Hb in Heq. cbn [fst] in Heq.
  apply pair_equal_spec in Heq as [-> Hmod].
  pose proof (addr_inj _ _ _ _ _ _ (yi_nodup _ _ H) Ha Hb) as Hdiv.
  rewrite (Nat.div_mod_eq i N), (Nat.div_mod_eq j N), Hdiv, Hmod. done.
Qed.

(** Adding the chunk [n] after the last one. *)
Lemma chunks_link q chs h1 n cn ce :
  yq_inv q chs → n ∉ chs.*1 → h1 !! n = Some cn → length (values cn) = N →
  (∀ a, a ∈ chs.*1 → h1 !! a = mem q !! a) → mem q !! end_chunk q = Some ce →
  ∀ i a vs, (chs ++ [(n, values cn)]) !! i = Some (a, vs) →
  chunk_ok (<[n := Chunk (values cn) (PAddr (end_chunk q)) (next cn)]>
             (<[end_chunk q := Chunk (values ce) (prev ce) (PAddr n)]> h1))
    (chs ++ [(n, values cn)]) i a vs.
Proof.
  intros H Hn Hcn Hlen Hsame Hce i a vs Hi. destruct (yi_last _ _ H) as [wl Hlast].
  pose proof (inv_pos _ _ H) as [_ Hpos].
  apply lookup_app_Some in Hi as [Hi|[Hge Hi]].
  - pose proof (lookup_lt_Some _ _ _ Hi). destruct (yi_chunks _ _ H _ _ _ Hi) as [Hl (c & Hc & Hv & Hnext & Hprev)].
    split; [done|]. assert (a ≠ n) by (intros ->; by apply Hn, (addr_elem _ _ _ _ Hi)).
    rewrite lookup_insert_ne by done.
    assert (Hp : ∀ j b ws, i = S j → (chs ++ [(n, values cn)]) !! j = Some (b, ws) → chs !! j = Some (b, ws)).
    { intros j b ws -> Hj. by rewrite lookup_app_l in Hj by lia. }
    destruct (decide (a = end_chunk q)) as [->|Hne].
    + rewrite lookup_insert_eq. eexists. split; [done|]. cbn [values prev next].
      assert (i = pred (length chs)) as -> by (eapply addr_inj; [apply (yi_nodup _ _ H)|done..]).
      assert (c = ce) as -> by congruence. split_and!; [done| |].
      * intros b ws Hb. rewrite lookup_app_r in Hb by lia.
        replace (S _ - _)%nat with 0%nat in Hb by lia. by simplify_eq/=.
      * intros j b ws Hij Hj. eapply Hprev; [done|]. by eapply Hp.
    + rewrite lookup_insert_ne by done. rewrite Hsame by (by eapply addr_elem).
      exists c. split_and!; [done..| |].
      * intros b ws Hb. assert (i ≠ pred (length chs)) by congruence.
        rewrite lookup_app_l in Hb by lia. eauto.
      * intros j b ws -> Hj. eapply Hprev; [done|]. by eapply Hp.
  - destruct (i - length chs)%nat as [|k] eqn:Hik; [|done]. cbn in Hi. injection Hi as <- <-.
    split; [done|]. rewrite lookup_insert_eq. eexists. split; [done|]. cbn [values prev next].
    split_and!; [done| |].
    + intros b ws Hb%lookup_lt_Some. rewrite length_app in Hb. cbn [length] in Hb. lia.
    + intros j b ws -> Hj. rewrite lookup_app_l in Hj by lia.
      replace j with (pred (length chs)) in Hj by lia. congruence.
Qed.

Lemma set_next_Some a p (h : gmap Z chunk) c :
  h !! a = Some c → set_next a p h = Some (<[a := Chunk (values c) (prev c) p]> h).
Proof. intros H. unfold set_next. by rewrite H. Qed.
Lemma set_prev_Some a p (h : gmap Z chunk) c :
  h !! a = Some c → set_prev a p h = Some (<[a := Chunk (values c) p (next c)]> h).
Proof. intros H. unfold set_prev. by rewrite H. Qed.
Lemma free_Some a (h : gmap Z chunk) c : h !! a = Some c → free (PAddr a) h = Some (delete a h).
Proof. intros H. cbn [free]. by rewrite H. Qed.

(** The chunk [push] appends: the spare one or a new one. *)
Lemma push_chunk q chs :
  yq_inv q chs →
  ∃ n h1 cn, (match spare_chunk q with PAddr sc => (sc, mem q) | _ => allocate_chunk (mem q) end) = (n, h1) ∧
    n ∉ chs.*1 ∧ h1 !! n = Some cn ∧ length (values cn) = N ∧
    (∀ a, a ∈ chs.*1 → h1 !! a = mem q !! a) ∧
    dom h1 = list_to_set chs.*1 ∪ {[n]}.
Proof.
  intros H. pose proof (yi_dom _ _ H) as Hdom. pose proof (yi_spare _ _ H) as Hsp.
  destruct (spare_chunk q) as [| |sc] eqn:Hs; [|by destruct (yi_spare_init _ _ H)|].
  - pose proof (malloc_fresh (dom (mem q))) as Hf. unfold allocate_chunk.
    set (n := malloc (dom (mem q))) in *. do 3 eexists. split; [done|].
    assert (Hn : n ∉ chs.*1) by set_solver.
    split_and!; [done|apply lookup_insert_eq|cbn [values]; apply length_replicate| |].
    + intros a Ha. apply lookup_insert_ne. intros ->. done.
    + rewrite dom_insert_L, Hdom. set_solver.
  - destruct (Hsp sc eq_refl) as [Hn (c & Hc & Hl)]. exists sc, (mem q), c. done.
Qed.

Lemma push_inv q chs :
  yq_inv q chs → ∃ q' chs', push q = Some q' ∧ yq_inv q' chs' ∧
    begin_pos q' = begin_pos q ∧ end_index chs' q' = S (end_index chs q) ∧
    (∀ j, (j ≤ end_index chs q)%nat → entry chs' j = entry chs j).
Proof.
  intros H. destruct (inv_pos _ _ H) as [HN Hpos]. destruct (end_div _ _ H) as [Hdiv Hmod].
  destruct (yi_last _ _ H) as [wl Hlast]. destruct (yi_first _ _ H) as [wf Hfirst].
  pose proof (yi_end _ _ H) as Hend. pose proof (yi_order _ _ H).
  unfold push. destruct (Nat.eqb_spec (S (end_pos q)) N) as [HeN|HeN]; cbn [negb].
  - destruct (push_chunk q chs H) as (n & h1 & cn & -> & Hn & Hcn & Hln & Hsame & Hdom).
    destruct (chunk_lookup q chs _ _ _ H Hlast) as (ce & Hce & Hcv & _).
    assert (n ≠ end_chunk q) by (intros ->; by apply Hn, (addr_elem _ _ _ _ Hlast)).
    rewrite (set_next_Some _ _ _ ce) by (rewrite Hsame; [done|by eapply addr_elem]).
    cbn [mbind option_bind].
    rewrite (set_prev_Some _ _ _ cn) by (by rewrite lookup_insert_ne).
    cbn [mbind option_bind]. do 2 eexists. split; [done|].
    assert (He : end_index (chs ++ [(n, values cn)]) (YQ (begin_chunk q) (begin_pos q)
        (PAddr (end_chunk q)) (end_pos q) n 0 PNull
        (<[n:=Chunk (values cn) (PAddr (end_chunk q)) (next cn)]>
          (<[end_chunk q:=Chunk (values ce) (prev ce) (PAddr n)]> h1))) = S (end_index chs q)).
    { unfold end_index. cbn [end_pos]. rewrite length_app. cbn [length].
      replace (length chs) with (S (pred (length chs))) by lia. cbn [pred Nat.add]. nia. }
    split; [|split_and!; [done|exact He|intros j Hj; apply entry_app; unfold end_index in Hj; nia]].
    split; rewrite ?He; cbn [begin_chunk begin_pos back_chunk back_pos end_chunk end_pos spare_chunk mem pred].
    + exists wf. by rewrite lookup_app_l by lia.
    + exists (values cn). rewrite length_app. cbn [length].
      by rewrite lookup_app_r, Nat.add_1_r, Nat.sub_diag by lia.
    + apply (yi_begin _ _ H).
    + lia.
    + lia.
    + intros _. exists (end_chunk q), wl. rewrite Hdiv, Hmod. by rewrite lookup_app_l by lia.
    + rewrite fmap_app. cbn [fmap list_fmap fst]. apply NoDup_app.
      split_and!; [apply (yi_nodup _ _ H)| |apply NoDup_singleton]. set_solver.
    + eapply chunks_link; eauto.
    + rewrite !dom_insert_L, Hdom, fmap_app, list_to_set_app_L. cbn [fmap list_fmap fst list_to_set].
      pose proof (addr_elem _ _ _ _ Hlast). set_solver.
    + done.
    + done.
  - do 2 eexists. split; [done|].
    assert (He : ∀ a b c d e f g, end_index chs (YQ a b c d e (S (end_pos q)) f g) = S (end_index chs q)).
    { intros. unfold end_index. cbn [end_pos]. lia. }
    split; [|by rewrite He].
    destruct H. split; rewrite ?He; cbn [begin_chunk begin_pos back_chunk back_pos end_chunk end_pos spare_chunk mem pred];
      try done; [eauto..|lia|lia|].
    intros _. exists (end_chunk q), wl. by rewrite Hdiv, Hmod.
Qed.

(** [free (cs)] in [pop] leaves the chunks of the queue alone. *)
Lemma free_spare q chs b (h1 : gmap Z chunk) c :
  yq_inv q chs → b ∈ chs.*1 → h1 = <[b := c]> (mem q) →
  ∃ h2, free (spare_chunk q) h1 = Some h2 ∧ (∀ a, a ∈ chs.*1 → h2 !! a = h1 !! a) ∧
    dom h2 = list_to_set chs.*1.
Proof.
  intros H Hb ->. pose proof (yi_dom _ _ H) as Hdom.
  destruct (spare_chunk q) as [| |sp] eqn:Hsp; [|by destruct (yi_spare_init _ _ H)|].
  - eexists. split_and!; [done..|]. rewrite dom_insert_L, Hdom. set_solver.
  - destruct (yi_spare _ _ H sp Hsp) as [Hspn (cs & Hcs & _)].
    rewrite (free_Some _ _ cs) by (rewrite lookup_insert_ne by set_solver; done).
    eexists. split; [done|]. split.
    + intros a Ha. apply lookup_delete_ne. intros ->. done.
    + rewrite dom_delete_L, dom_insert_L, Hdom. set_solver.
Qed.

Lemma pop_inv q chs :
  yq_inv q chs → (begin_pos q < end_index chs q)%nat →
  ∃ q' chs', pop q = Some q' ∧ yq_inv q' chs' ∧
    window chs' (begin_pos q') (end_index chs' q') = window chs (S (begin_pos q)) (end_index chs q).
Proof.
  intros H Hlt. destruct (inv_pos _ _ H) as [HN Hpos]. pose proof (yi_begin _ _ H) as Hb.
  unfold pop. destruct (Nat.eqb_spec (S (begin_pos q)) N) as [HbN|HbN].
  - pose proof (yi_end _ _ H) as He. destruct (yi_first _ _ H) as [wf Hfirst].
    destruct chs as [|[o vs] [|[b ws] chs]]; cbn [length] in Hpos; [lia| |].
    { unfold end_index in Hlt. cbn [length pred] in Hlt. lia. }
    cbn in Hfirst. injection Hfirst as -> <-.
    destruct (yi_chunks _ _ H 0%nat _ _ eq_refl) as [Hlo (c & Hc & Hcv & Hnext & _)].
    destruct (chunk_lookup _ _ 1%nat b ws H eq_refl) as (cb & Hcb & Hcbv & Hlb).
    pose proof (yi_nodup _ _ H) as Hnd. cbn [fmap list_fmap fst] in Hnd.
    apply NoDup_cons in Hnd as [Ho Hnd].
    assert (Hob : begin_chunk q ≠ b) by set_solver.
    rewrite Hc. cbn [mbind option_bind]. rewrite (Hnext b ws eq_refl). cbn [deref mbind option_bind].
    rewrite (set_prev_Some _ _ _ cb) by done. cbn [mbind option_bind].
    set (h1 := <[b := _]> (mem q)).
    destruct (free_spare q ((begin_chunk q, vs) :: (b, ws) :: chs) b h1 (Chunk (values cb) PNull (next cb)) H
      ltac:(cbn; set_solver) eq_refl)
      as (h2 & Hfree & Hsame & Hdom). cbn [fmap list_fmap fst] in Hsame, Hdom.
    rewrite Hfree. cbn [mbind option_bind].
    eexists _, ((b, ws) :: chs). split; [done|].
    assert (He' : ∀ x y z t u v,
      (N + end_index ((b, ws) :: chs) (YQ x y z t u (end_pos q) v h2))%nat =
      end_index ((begin_chunk q, vs) :: (b, ws) :: chs) q).
    { intros. unfold end_index. cbn [end_pos length pred]. lia. }
    split.
    + split; cbn [begin_chunk begin_pos back_chunk back_pos end_chunk end_pos spare_chunk mem].
      * by exists ws.
      * destruct (yi_last _ _ H) as [wl Hl]. exists wl. exact Hl.
      * done.
      * done.
      * lia.
      * intros Hlt'. destruct (yi_back _ _ H Hlt) as (a & ws' & Ha & Hbc & Hbp).
        rewrite <- (He' b 0%nat (back_chunk q) (back_pos q) (end_chunk q) (PAddr (begin_chunk q))) in Ha, Hbp.
        set (e' := end_index ((b, ws) :: chs) _) in *.
        replace (pred (N + e'))%nat with (pred e' + 1 * N)%nat in Ha, Hbp by lia.
        rewrite Nat.div_add in Ha by lia. rewrite Nat.Div0.mod_add in Hbp. rewrite Nat.add_1_r in Ha.
        eauto.
      * done.
      * intros i a us Hi. destruct (yi_chunks _ _ H (S i) a us Hi) as [Hl (c' & Hc' & Hv' & Hn' & Hp')].
        split; [done|]. pose proof (addr_elem _ _ _ _ Hi) as Hin. cbn [fmap list_fmap fst] in Hin.
        rewrite Hsame by set_solver. unfold h1.
        destruct (decide (a = b)) as [->|Hne].
        -- rewrite lookup_insert_eq. eexists. split; [done|]. cbn [values prev next].
           assert (c' = cb) as -> by congruence. split_and!; [done|eauto|].
           intros j b' ws' -> Hj.
           assert (Hij : S j = 0%nat) by (by apply (addr_inj ((b, ws) :: chs) _ _ b us ws)). lia.
        -- rewrite lookup_insert_ne by done. exists c'. split_and!; [done|done|eauto|].
           intros j b' ws' -> Hj. by eapply Hp'.
      * rewrite Hdom. cbn [fmap list_fmap fst list_to_set]. set_solver.
      * intros s [= <-]. split; [done|]. rewrite Hsame by left. unfold h1.
        rewrite lookup_insert_ne by done. exists c. by rewrite Hcv.
      * done.
    + cbn [begin_pos]. rewrite HbN, <- (window_tail (begin_chunk q, vs)) by done.
      rewrite He', Nat.add_0_r. done.
  - do 2 eexists. split; [done|].
    assert (He : ∀ a b c d e f g, end_index chs (YQ a b c d e (end_pos q) f g) = end_index chs q) by done.
    split; [|by rewrite He].
    destruct H. split; rewrite ?He; cbn [begin_chunk begin_pos back_chunk back_pos end_chunk end_pos spare_chunk mem];
      try done; [lia..|]. intros ?. apply yi_back0. lia.
Qed.

(** The back pointer leads to the slot before the end slot. *)
Lemma back_chunk_at q chs :
  yq_inv q chs → (begin_pos q < end_index chs q)%nat →
  ∃ a vs c, chs !! (pred (end_index chs q) / N)%nat = Some (a, vs) ∧ back_chunk q = PAddr a ∧
    back_pos q = (pred (end_index chs q) mod N)%nat ∧
    mem q !! a = Some c ∧ values c = vs ∧ length vs = N ∧ (back_pos q < N)%nat.
Proof.
  intros H Hlt. destruct (yi_back _ _ H Hlt) as (a & vs & Ha & Hbc & Hbp).
  destruct (chunk_lookup _ _ _ _ _ H Ha) as (c & Hc & Hv & Hl). exists a, vs, c.
  split_and!; try done. rewrite Hbp. apply Nat.mod_upper_bound. destruct (inv_pos _ _ H). lia.
Qed.

Lemma front_inv q chs :
  yq_inv q chs → entry chs (begin_pos q) = (front_addr q, front q).
Proof.
  intros H. destruct (yi_first _ _ H) as [vs Hvs]. destruct (chunk_lookup _ _ _ _ _ H Hvs) as (c & Hc & Hv & _).
  pose proof (yi_begin _ _ H). unfold entry, front_addr, front.
  rewrite Nat.div_small, Nat.mod_small, Hvs, Hc by done. cbn [mbind option_bind]. by rewrite Hv.
Qed.

Lemma back_inv q chs :
  yq_inv q chs → (begin_pos q < end_index chs q)%nat →
  ∃ a v, entry chs (pred (end_index chs q)) = (a, v) ∧ back_addr q = Some a ∧ back q = v.
Proof.
  intros H Hlt. destruct (back_chunk_at _ _ H Hlt) as (a & vs & c & Ha & Hbc & Hbp & Hc & Hv & _).
  unfold entry, back_addr, back. rewrite Ha, Hbc. cbn [deref mbind option_bind].
  rewrite Hc, Hbp. cbn [mbind option_bind]. rewrite Hv. eauto.
Qed.

(** Storing into a chunk keeps the links. *)
Lemma chunks_store q chs ib a vs vs' c :
  yq_inv q chs → chs !! ib = Some (a, vs) → mem q !! a = Some c → length vs' = N →
  ∀ i b ws, (<[ib := (a, vs')]> chs) !! i = Some (b, ws) →
  chunk_ok (<[a := Chunk vs' (prev c) (next c)]> (mem q)) (<[ib := (a, vs')]> chs) i b ws.
Proof.
  intros H Ha Hc Hl' i b ws Hi.
  assert (Hlk : ∀ i b ws, (<[ib := (a, vs')]> chs) !! i = Some (b, ws) → ∃ us, chs !! i = Some (b, us)).
  { intros i' b' ws' Hi'. apply list_lookup_insert_Some in Hi' as [(<- & [= <- <-] & _)|[_ Hi']]; eauto. }
  destruct (Hlk _ _ _ Hi) as [us Hus].
  destruct (yi_chunks _ _ H _ _ _ Hus) as [Hl (cb & Hcb & Hvb & Hn & Hp)].
  destruct (decide (i = ib)) as [->|Hne].
  - rewrite list_lookup_insert_eq in Hi by (by eapply lookup_lt_Some). injection Hi as <- <-.
    assert (cb = c) as -> by congruence. split; [done|]. rewrite lookup_insert_eq.
    eexists. split; [done|]. cbn [values prev next]. split_and!; [done| |].
    + intros b' ws' Hb'. destruct (Hlk _ _ _ Hb') as [us' Hus']. eauto.
    + intros j b' ws' Hij Hb'. destruct (Hlk _ _ _ Hb') as [us' Hus']. eauto.
  - rewrite list_lookup_insert_ne in Hi by done. assert (ws = us) as -> by congruence.
    split; [done|]. rewrite lookup_insert_ne.
    2:{ intros ->. apply Hne. eapply addr_inj; [apply (yi_nodup _ _ H)|done..]. }
    exists cb. split_and!; [done..| |].
    + intros b' ws' Hb'. destruct (Hlk _ _ _ Hb') as [us' Hus']. eauto.
    + intros j b' ws' Hij Hb'. destruct (Hlk _ _ _ Hb') as [us' Hus']. eauto.
Qed.

Lemma set_back_inv q chs x :
  yq_inv q chs → (begin_pos q < end_index chs q)%nat →
  ∃ q' chs', set_back x q = Some q' ∧ yq_inv q' chs' ∧
    begin_pos q' = begin_pos q ∧ end_index chs' q' = end_index chs q ∧
    entry chs' (pred (end_index chs q)) = ((entry chs (pred (end_index chs q))).1, Some x) ∧
    (∀ j, j ≠ pred (end_index chs q) → entry chs' j = entry chs j).
Proof.
  intros H Hlt. destruct (back_chunk_at _ _ H Hlt) as (a & vs & c & Ha & Hbc & Hbp & Hc & Hv & Hl & Hbl).
  set (p := pred (end_index chs q)) in *. set (ib := (p / N)%nat) in *.
  unfold set_back. rewrite Hbc. cbn [deref mbind option_bind]. rewrite Hc. cbn [mbind option_bind].
  rewrite decide_True by (by rewrite Hv, Hl). rewrite Hv.
  set (vs' := <[back_pos q := Some x]> vs).
  exists (YQ (begin_chunk q) (begin_pos q) (PAddr a) (back_pos q) (end_chunk q) (end_pos q)
            (spare_chunk q) (<[a := Chunk vs' (prev c) (next c)]> (mem q))), (<[ib := (a, vs')]> chs).
  split; [done|].
  assert (Hfst : (<[ib := (a, vs')]> chs).*1 = chs.*1).
  { rewrite list_fmap_insert. cbn [fst]. apply list_insert_id. by rewrite list_lookup_fmap, Ha. }
  assert (Hlk' : ∀ i b us, chs !! i = Some (b, us) → ∃ ws, (<[ib := (a, vs')]> chs) !! i = Some (b, ws)).
  { intros i b us Hi. destruct (decide (i = ib)) as [->|].
    - rewrite list_lookup_insert_eq by (by eapply lookup_lt_Some).
      exists vs'. do 2 f_equal. congruence.
    - rewrite list_lookup_insert_ne by done. eauto. }
  assert (He : end_index (<[ib := (a, vs')]> chs) (YQ (begin_chunk q) (begin_pos q) (PAddr a) (back_pos q)
      (end_chunk q) (end_pos q) (spare_chunk q) (<[a := Chunk vs' (prev c) (next c)]> (mem q))) =
      end_index chs q) by (unfold end_index; cbn [end_pos]; by rewrite length_insert).
  split; [|split_and!; [done..| |]].
  - destruct (yi_first _ _ H) as [wf Hf]. destruct (yi_last _ _ H) as [wl Hlast].
    split; rewrite ?He, ?Hfst; cbn [begin_chunk begin_pos back_chunk back_pos end_chunk end_pos spare_chunk mem];
      [by eapply Hlk'|rewrite length_insert; by eapply Hlk'|apply (yi_begin _ _ H)|apply (yi_end _ _ H)|apply (yi_order _ _ H)| | | | | |].
    + intros _. destruct (Hlk' ib a vs Ha) as [ws Hws]. exists a, ws. done.
    + apply (yi_nodup _ _ H).
    + intros i b ws Hi. eapply chunks_store; eauto. unfold vs'. by rewrite length_insert.
    + rewrite dom_insert_L, (yi_dom _ _ H). pose proof (addr_elem _ _ _ _ Ha). set_solver.
    + intros s Hs. destruct (yi_spare _ _ H s Hs) as [Hn (cs & Hcs & Hlcs)]. split; [done|].
      exists cs. rewrite lookup_insert_ne; [done|]. intros ->. by apply Hn, (addr_elem _ _ _ _ Ha).
    + apply (yi_spare_init _ _ H).
  - unfold entry. fold ib. rewrite Ha, list_lookup_insert_eq by (by eapply lookup_lt_Some).
    cbn [fst]. unfold vs'. rewrite Hbp, list_lookup_insert_eq by (rewrite Hl, <- Hbp; done). done.
  - intros j Hj. unfold entry. destruct (decide (j / N = ib)%nat) as [Heq|Hne].
    + rewrite Heq, Ha, list_lookup_insert_eq by (by eapply lookup_lt_Some). unfold vs'.
      rewrite list_lookup_insert_ne; [done|]. rewrite Hbp. intros Hm. apply Hj.
      rewrite (Nat.div_mod_eq j N), Heq, <- Hm. symmetry. apply Nat.div_mod_eq.
    + by rewrite list_lookup_insert_ne.
Qed.

(** The back pointer after [unpush]. *)
Lemma unpush_back q chs :
  yq_inv q chs → (begin_pos q < end_index chs q)%nat →
  ∃ bc bp,
    (if negb (back_pos q =? 0)%nat then Some (back_chunk q, pred (back_pos q))
     else a ← deref (back_chunk q); c ← mem q !! a; Some (prev c, pred N)) = Some (bc, bp) ∧
    ((begin_pos q < pred (end_index chs q))%nat →
     ∃ a vs, chs !! (pred (pred (end_index chs q)) / N)%nat = Some (a, vs) ∧
             bc = PAddr a ∧ bp = (pred (pred (end_index chs q)) mod N)%nat).
Proof.
  intros H Hlt. destruct (back_chunk_at _ _ H Hlt) as (a & vs & c & Ha & Hbc & Hbp & Hc & Hv & Hl & Hbl).
  set (p := pred (end_index chs q)) in *. rewrite Hbc. cbn [deref mbind option_bind]. rewrite Hc.
  cbn [mbind option_bind]. pose proof (Nat.div_mod_eq p N) as Hp.
  destruct (Nat.eqb_spec (back_pos q) 0) as [H0|H0]; cbn [negb]; do 2 eexists; (split; [done|]); intros Hpb.
  - assert (Hdiv : (pred p = pred N + (pred (p / N)) * N)%nat).
    { assert (p / N ≠ 0)%nat by (intros ?; nia). nia. }
    assert (Hq : (pred p / N = pred (p / N) ∧ pred p mod N = pred N)%nat).
    { rewrite Hdiv. rewrite Nat.div_add, Nat.Div0.mod_add, Nat.div_small, Nat.mod_small by lia. lia. }
    destruct Hq as [Hq1 Hq2]. rewrite Hq1, Hq2.
    assert (Hip : (p / N = S (pred (p / N)))%nat) by (assert (p / N ≠ 0)%nat by (intros ?; nia); lia).
    destruct (lookup_lt_is_Some_2 chs (pred (p / N))) as [[b ws] Hb];
      [apply lookup_lt_Some in Ha; lia|].
    exists b, ws. split_and!; [done| |done].
    destruct (yi_chunks _ _ H _ _ _ Ha) as [_ (c' & Hc' & _ & _ & Hprev)].
    assert (c' = c) as -> by congruence. by eapply Hprev.
  - assert (Hdiv : (pred p = pred (p mod N) + (p / N) * N)%nat) by lia.
    assert (Hq : (pred p / N = p / N ∧ pred p mod N = pred (p mod N))%nat).
    { rewrite Hdiv. rewrite Nat.div_add, Nat.Div0.mod_add, Nat.div_small, Nat.mod_small by lia. lia. }
    destruct Hq as [Hq1 Hq2]. rewrite Hq1, Hq2. exists a, vs. by rewrite Hbp.
Qed.

(** [unpush] when the end slot is the first of its chunk: the chunk is freed. *)
Lemma chunks_unlink q chs e we p wp cp :
  yq_inv q (chs ++ [(p, wp); (e, we)]) → mem q !! p = Some cp →
  ∀ i a vs, (chs ++ [(p, wp)]) !! i = Some (a, vs) →
  chunk_ok (<[p := Chunk (values cp) (prev cp) PNull]> (delete e (mem q))) (chs ++ [(p, wp)]) i a vs.
Proof.
  intros H Hcp i a vs Hi. pose proof (yi_nodup _ _ H) as Hnd.
  assert (Hi' : (chs ++ [(p, wp); (e, we)]) !! i = Some (a, vs)).
  { change [(p, wp); (e, we)] with ([(p, wp)] ++ [(e, we)]). rewrite (assoc_L _ chs).
    by apply lookup_app_l_Some. }
  assert (Hj : ∀ j b ws, (chs ++ [(p, wp)]) !! j = Some (b, ws) →
    (chs ++ [(p, wp); (e, we)]) !! j = Some (b, ws)).
  { intros j b ws Hj. change [(p, wp); (e, we)] with ([(p, wp)] ++ [(e, we)]). rewrite (assoc_L _ chs).
    by apply lookup_app_l_Some. }
  assert (Hep : (chs ++ [(p, wp); (e, we)]) !! S (length chs) = Some (e, we)).
  { rewrite lookup_app_r by lia. by replace (S (length chs) - length chs)%nat with 1%nat by lia. }
  pose proof (lookup_lt_Some _ _ _ Hi) as Hil. rewrite length_app in Hil. cbn [length] in Hil.
  assert (a ≠ e).
  { intros ->. assert (i = S (length chs)) by (by eapply (addr_inj _ _ _ _ _ _ Hnd)). lia. }
  destruct (yi_chunks _ _ H _ _ _ Hi') as [Hl (c & Hc & Hv & Hn & Hp)]. split; [done|].
  destruct (decide (a = p)) as [->|Hne].
  - rewrite lookup_insert_eq. eexists. split; [done|]. cbn [values prev next].
    assert (cp = c) as -> by congruence. split_and!; [done| |eauto].
    intros b ws Hb. exfalso. assert (i = length chs) as ->.
    { eapply (addr_inj _ _ _ _ _ _ Hnd); [exact Hi'|]. rewrite lookup_app_r, Nat.sub_diag by lia. done. }
    apply lookup_lt_Some in Hb. rewrite length_app in Hb. cbn [length] in Hb. lia.
  - rewrite lookup_insert_ne, lookup_delete_ne by done. exists c. split_and!; [done|done|eauto|eauto].
Qed.

Definition unpushed (q : yqueue) (bc : ptr) (bp : nat) (p : Z) (cp : chunk) : yqueue :=
  YQ (begin_chunk q) (begin_pos q) bc bp p (pred N) (spare_chunk q)
     (<[p := Chunk (values cp) (prev cp) PNull]> (delete (end_chunk q) (mem q))).

Lemma unpushed_inv q chs0 p wp we bc bp cp :
  let chs := chs0 ++ [(p, wp); (end_chunk q, we)] in
  yq_inv q chs → end_pos q = 0%nat → (begin_pos q < end_index chs q)%nat →
  mem q !! p = Some cp →
  ((begin_pos q < pred (end_index chs q))%nat →
   ∃ a vs, chs !! (pred (pred (end_index chs q)) / N)%nat = Some (a, vs) ∧
           bc = PAddr a ∧ bp = (pred (pred (end_index chs q)) mod N)%nat) →
  end_index (chs0 ++ [(p, wp)]) (unpushed q bc bp p cp) = pred (end_index chs q) ∧
  yq_inv (unpushed q bc bp p cp) (chs0 ++ [(p, wp)]).
Proof.
  cbv zeta. intros H H0 Hlt Hcp Hbspec. unfold unpushed.
  destruct (inv_pos _ _ H) as [HN Hpos]. destruct (yi_first _ _ H) as [wf Hf].
  assert (He : ∀ a b c d e f g, end_index (chs0 ++ [(p, wp)]) (YQ a b c d e (pred N) f g) =
     pred (end_index (chs0 ++ [(p, wp); (end_chunk q, we)]) q)).
  { intros. unfold end_index. cbn [end_pos]. rewrite !length_app, H0. cbn [length]. nia. }
  split; [apply He|].
  split; rewrite ?He; cbn [begin_chunk begin_pos back_chunk back_pos end_chunk end_pos spare_chunk mem].
  - destruct chs0; [exists wp; cbn in Hf |- *; congruence|by exists wf].
  - exists wp. rewrite length_app, lookup_app_r by (cbn; lia). cbn [length].
    by replace (pred (length chs0 + 1) - length chs0)%nat with 0%nat by lia.
  - apply (yi_begin _ _ H).
  - lia.
  - lia.
  - intros Hb. destruct (Hbspec Hb) as (a & vs & Ha & -> & ->). exists a, vs. split_and!; [|done..].
    rewrite <- Ha. change [(p, wp); (end_chunk q, we)] with ([(p, wp)] ++ [(end_chunk q, we)]).
    rewrite (assoc_L _ chs0), (lookup_app_l (chs0 ++ [_])); [done|].
    apply Nat.Div0.div_lt_upper_bound. rewrite !length_app in *. unfold end_index. rewrite H0, !length_app. cbn [length]. nia.
  - pose proof (yi_nodup _ _ H) as Hnd. rewrite !fmap_app in *. cbn [fmap list_fmap fst] in *.
    change [p; end_chunk q] with ([p] ++ [end_chunk q]) in Hnd. rewrite (assoc_L _ (chs0.*1)) in Hnd.
    by apply NoDup_app in Hnd as [Hnd _].
  - by eapply chunks_unlink.
  - rewrite dom_insert_L, dom_delete_L, (yi_dom _ _ H).
    pose proof (yi_spare _ _ H) as Hsp. pose proof (yi_nodup _ _ H) as Hnd.
    rewrite !fmap_app, !list_to_set_app_L in *. cbn [fmap list_fmap fst list_to_set] in *.
    apply NoDup_app in Hnd as (_ & Hnd & _).
    assert (end_chunk q ∉ chs0.*1) by set_solver.
    destruct (spare_chunk q) as [| |s]; [set_solver..|].
    destruct (Hsp s eq_refl) as [Hs _]. set_solver.
  - intros s Hs. destruct (yi_spare _ _ H s Hs) as [Hn (c & Hc & Hl)].
    rewrite fmap_app in Hn |- *. cbn [fmap list_fmap fst] in Hn |- *.
    split; [set_solver|]. exists c. rewrite lookup_insert_ne, lookup_delete_ne by set_solver. done.
  - apply (yi_spare_init _ _ H).
Qed.

Lemma unpush_inv q chs :
  yq_inv q chs → (begin_pos q < end_index chs q)%nat →
  ∃ q' chs', unpush q = Some q' ∧ yq_inv q' chs' ∧
    begin_pos q' = begin_pos q ∧ end_index chs' q' = pred (end_index chs q) ∧
    (∀ j, (j ≤ pred (end_index chs q))%nat → entry chs' j = entry chs j).
Proof.
  intros H Hlt. destruct (inv_pos _ _ H) as [HN Hpos].
  destruct (unpush_back q chs H Hlt) as (bc & bp & Hback & Hbspec). unfold unpush. rewrite Hback.
  cbn [mbind option_bind]. clear Hback. pose proof (yi_end _ _ H) as Hend.
  destruct (yi_first _ _ H) as [wf Hf]. destruct (yi_last _ _ H) as [we Hlast].
  destruct (Nat.eqb_spec (end_pos q) 0) as [H0|H0]; cbn [negb].
  - assert (Hlen : (1 < length chs)%nat) by (unfold end_index in Hlt; rewrite H0 in Hlt; nia).
    assert (∃ chs0 p wp, chs = chs0 ++ [(p, wp); (end_chunk q, we)]) as (chs0 & p & wp & ->).
    { destruct chs as [|x chs _] using rev_ind; [cbn in Hlen; lia|].
      destruct chs as [|[p wp] chs _] using rev_ind; [cbn in Hlen; lia|].
      exists chs, p, wp. rewrite <- (assoc_L _ chs). cbn [app].
      rewrite lookup_app_r in Hlast by (rewrite !length_app; cbn [length]; lia).
      rewrite !length_app in Hlast. cbn [length] in Hlast.
      replace (pred (length chs + 1 + 1) - (length chs + 1))%nat with 0%nat in Hlast by lia.
      cbn in Hlast. by injection Hlast as ->. }
    assert (Hp1 : (chs0 ++ [(p, wp); (end_chunk q, we)]) !! length chs0 = Some (p, wp))
      by (by rewrite lookup_app_r, Nat.sub_diag by lia).
    assert (He1 : (chs0 ++ [(p, wp); (end_chunk q, we)]) !! S (length chs0) = Some (end_chunk q, we)).
    { rewrite lookup_app_r by lia. by replace (S (length chs0) - length chs0)%nat with 1%nat by lia. }
    destruct (yi_chunks _ _ H _ _ _ He1) as [_ (ce & Hce & _ & _ & Hprev)].
    destruct (yi_chunks _ _ H _ _ _ Hp1) as [_ (cp & Hcp & Hcpv & Hnext & _)].
    rewrite Hce. cbn [mbind option_bind]. rewrite (Hprev _ _ _ eq_refl Hp1). cbn [deref mbind option_bind].
    rewrite Hcp. cbn [mbind option_bind]. rewrite (Hnext _ _ He1), (free_Some _ _ ce) by done.
    cbn [mbind option_bind].
    assert (Hpe : p ≠ end_chunk q).
    { intros ->. pose proof (addr_inj _ _ _ _ _ _ (yi_nodup _ _ H) Hp1 He1). lia. }
    rewrite (set_next_Some _ _ _ cp) by (by rewrite lookup_delete_ne). cbn [mbind option_bind].
    eexists _, (chs0 ++ [(p, wp)]). split; [done|].
    destruct (unpushed_inv q chs0 p wp we bc bp cp H H0 Hlt Hcp Hbspec) as [He Hinv].
    split; [exact Hinv|]. split_and!; [done|exact He|].
    intros j Hj. change [(p, wp); (end_chunk q, we)] with ([(p, wp)] ++ [(end_chunk q, we)]).
    rewrite (assoc_L _ chs0). symmetry. apply entry_app.
    unfold end_index in Hj. rewrite H0, length_app in Hj. cbn [length] in Hj.
    replace (pred (length chs0 + 2)) with (length chs0 + 1)%nat in Hj by lia.
    rewrite length_app. cbn [length]. assert (0 < (length chs0 + 1) * N)%nat by nia. lia.
  - do 2 eexists. split; [done|].
    assert (He : ∀ a b c d e f g, end_index chs (YQ a b c d e (pred (end_pos q)) f g) = pred (end_index chs q)).
    { intros. unfold end_index. cbn [end_pos]. by rewrite Nat.add_pred_r. }
    split; [|by rewrite He].
    destruct H. split; rewrite ?He; cbn [begin_chunk begin_pos back_chunk back_pos end_chunk end_pos spare_chunk mem];
      try done; lia.
Qed.

(** ** The queue implements its interface *)

Lemma new_inv : (0 < N)%nat → ∃ chs, yq_inv yqueue_new chs ∧ end_index chs yqueue_new = 0%nat.
Proof.
  intros HN. exists [(malloc ∅, replicate N (@None T))]. split; [|done].
  unfold yqueue_new, allocate_chunk. rewrite dom_empty_L.
  split; cbn [begin_chunk begin_pos back_chunk back_pos end_chunk end_pos spare_chunk mem]; try done.
  - by eexists.
  - by eexists.
  - unfold end_index. cbn. lia.
  - apply NoDup_singleton.
  - intros i a vs Hi. destruct i; [|done]. cbn in Hi. injection Hi as <- <-. split; [apply length_replicate|].
    rewrite lookup_insert_eq. eexists. by split_and!.
  - cbn. rewrite dom_insert_L. set_solver.
Qed.

#[refine] Instance yqueue_laws : QueueLaws T (Z * nat) yqueue := {| q_repr := yq_repr |}.
Proof.
  - intros q win (chs & H & ->). by apply window_nodup.
  - intros q a v win (chs & H & Hw). rewrite window_cons in Hw by apply (yi_order _ _ H).
    rewrite (front_inv _ _ H) in Hw. by injection Hw as -> ->.
  - intros q a v x win (chs & H & Hw). symmetry in Hw.
    apply window_snoc2 in Hw as (Hlt & Hx & _). destruct (back_inv _ _ H Hlt) as (a' & v' & He & Hb & Hv).
    rewrite He in Hx. simplify_eq. done.
  - intros q a v x win y (chs & H & Hw). symmetry in Hw.
    pose proof (window_snoc2 _ _ _ _ _ _ Hw) as (Hlt & Hx & Hy & Hw').
    destruct (set_back_inv q chs y H Hlt) as (q' & chs' & Hq' & Hinv' & Hb & He & Hat & Hother).
    exists q'. split; [done|]. exists chs'. split; [done|]. rewrite Hb, He.
    set (e := end_index chs q) in *. destruct e as [|e]; [lia|]. cbn [pred] in *.
    rewrite window_snoc by lia. rewrite (Hother (S e)) by lia. rewrite <- Hy.
    change [(a, Some y); x] with ([(a, Some y)] ++ [x]). rewrite (assoc_L _ win). f_equal.
    assert (Hl : length win = (e - begin_pos q)%nat).
    { apply (f_equal length) in Hw'. rewrite length_app, window_length in Hw'. cbn [length] in Hw'. lia. }
    destruct (decide (begin_pos q = e)) as [Hbe|Hbe].
    + destruct win; [|cbn in Hl; lia]. rewrite window_cons by lia. rewrite Hbe, Hat, <- Hx.
      unfold window. by rewrite Nat.sub_diag.
    + destruct e as [|e]; [lia|]. rewrite window_snoc in Hw' |- * by lia. rewrite Hat.
      apply app_inj_tail in Hw' as [-> <-]. f_equal. apply window_ext. intros j Hj. symmetry. apply Hother. lia.
  - intros q win (chs & H & ->). destruct (push_inv q chs H) as (q' & chs' & Hq' & Hinv' & Hb & He & Hsame).
    exists q', (entry chs' (end_index chs' q')). split; [done|]. exists chs'. split; [done|].
    rewrite Hb, He. pose proof (yi_order _ _ H). rewrite window_snoc by lia. f_equal.
    apply window_ext. intros j Hj. symmetry. apply Hsame. lia.
  - intros q x y win (chs & H & Hw). symmetry in Hw.
    pose proof (window_snoc2 _ _ _ _ _ _ Hw) as (Hlt & _ & _ & ->).
    destruct (unpush_inv q chs H Hlt) as (q' & chs' & Hq' & Hinv' & Hb & He & Hsame).
    exists q'. split; [done|]. exists chs'. split; [done|]. rewrite Hb, He.
    apply window_ext. intros j Hj. symmetry. apply Hsame. lia.
  - intros q x y win (chs & H & Hw).
    assert (Hlt : (begin_pos q < end_index chs q)%nat).
    { apply (f_equal length) in Hw. rewrite window_length in Hw. cbn [length] in Hw. lia. }
    destruct (pop_inv q chs H Hlt) as (q' & chs' & Hq' & Hinv' & Hwin).
    exists q'. split; [done|]. exists chs'. split; [done|].
    rewrite Hwin. rewrite window_cons in Hw by lia. by injection Hw.
Defined.

(** ** The destructor *)

Lemma destroy_loop_spec (chs : list (Z * list (option T))) : ∀ i fuel (h : gmap Z chunk) b e vs,
  NoDup chs.*1 → chs !! i = Some (b, vs) → (∃ ws, chs !! pred (length chs) = Some (e, ws)) →
  (length chs - i ≤ fuel)%nat →
  (∀ j a us, (i ≤ j)%nat → chs !! j = Some (a, us) →
     ∃ c, h !! a = Some c ∧ ∀ b' ws, chs !! S j = Some (b', ws) → next c = PAddr b') →
  ∃ h', destroy_loop fuel b e h = Some h' ∧ dom h' = dom h ∖ list_to_set (drop i chs.*1) ∧
    (∀ a, a ∉ chs.*1 → h' !! a = h !! a).
Proof.
  intros i. remember (length chs - i)%nat as k eqn:Hk. revert i Hk.
  induction k as [|k IH]; intros i Hk fuel h b e vs Hnd Hi [ws He] Hf Hh.
  { apply lookup_lt_Some in Hi. lia. }
  destruct fuel as [|fuel]; [lia|]. cbn [destroy_loop].
  destruct (Hh i b vs ltac:(lia) Hi) as (c & Hc & Hn).
  assert (Hdrop : drop i chs.*1 = b :: drop (S i) chs.*1).
  { apply drop_S. by rewrite list_lookup_fmap, Hi. }
  destruct (Z.eqb_spec b e) as [->|Hne].
  - assert (i = pred (length chs)) as -> by (by eapply addr_inj).
    rewrite (free_Some _ _ c) by done. eexists. split; [done|]. split.
    + rewrite dom_delete_L, Hdrop, (drop_ge _ (S _)) by (rewrite length_fmap; lia). set_solver.
    + intros a Ha. apply lookup_delete_ne. intros ->. by apply Ha, (addr_elem _ _ _ _ Hi).
  - assert (Hlt : (S i < length chs)%nat).
    { pose proof (lookup_lt_Some _ _ _ Hi). destruct (decide (i = pred (length chs))); [congruence|lia]. }
    destruct (lookup_lt_is_Some_2 _ _ Hlt) as [[b' us] Hb'].
    rewrite Hc. cbn [mbind option_bind]. rewrite (Hn _ _ Hb'). cbn [deref mbind option_bind].
    rewrite (free_Some _ _ c) by done. cbn [mbind option_bind].
    destruct (IH (S i) ltac:(lia) fuel (delete b h) b' e us Hnd Hb' ltac:(eauto) ltac:(lia)) as (h' & -> & Hdom & Hout).
    + intros j a vs' Hj Ha. destruct (Hh j a vs' ltac:(lia) Ha) as (ca & Hca & Hna). exists ca. split; [|done].
      rewrite lookup_delete_ne; [done|]. intros <-. pose proof (addr_inj _ _ _ _ _ _ Hnd Hi Ha). lia.
    + exists h'. split; [done|]. split.
      * rewrite Hdom, dom_delete_L, Hdrop. set_solver.
      * intros a Ha. rewrite Hout by done. apply lookup_delete_ne. intros ->. by apply Ha, (addr_elem _ _ _ _ Hi).
Qed.

Lemma destroy_inv q chs : yq_inv q chs → destroy q = Some ∅.
Proof.
  intros H. destruct (inv_pos _ _ H) as [_ Hpos]. destruct (yi_first _ _ H) as [wf Hf].
  pose proof (yi_dom _ _ H) as Hd.
  destruct (destroy_loop_spec chs 0 (S (size (mem q))) (mem q) (begin_chunk q) (end_chunk q) wf
    (yi_nodup _ _ H) Hf (yi_last _ _ H)) as (h' & Hh' & Hdom & Hout).
  - rewrite <- size_dom, Hd. pose proof (subseteq_size (C := gset Z) (list_to_set chs.*1) (dom (mem q)) ltac:(set_solver)) as Hs.
    rewrite size_list_to_set, length_fmap in Hs by apply (yi_nodup _ _ H). rewrite Hd in Hs. lia.
  - intros j a us _ Ha. destruct (yi_chunks _ _ H _ _ _ Ha) as [_ (c & Hc & _ & Hn & _)]. eauto.
  - unfold destroy. rewrite Hh'. cbn [mbind option_bind]. rewrite drop_0, Hd in Hdom.
    destruct (spare_chunk q) as [| |s] eqn:Hs; [|by destruct (yi_spare_init _ _ H)|].
    + cbn [free]. f_equal. apply dom_empty_inv_L. set_solver.
    + destruct (yi_spare _ _ H s Hs) as [Hn (c & Hc & _)].
      rewrite (free_Some _ _ c) by (by rewrite Hout). f_equal. apply dom_empty_inv_L.
      rewrite dom_delete_L. set_solver.
Qed.

(** A chunked queue, whatever its chunk size and wherever malloc puts the
    chunks, run through any sequence of writes to the back, [push], [unpush]
    and [pop] that respects the emptiness conditions, never dereferences an
    invalid pointer, has the front and the back that the list of its elements
    has, and its destructor frees every chunk and nothing twice. *)
Theorem yqueue_refines (HN : (0 < N)%nat) (os : list (qop T)) (l : list (option T)) :
  spec_ops [] os = Some l →
  ∃ q, run yqueue_new os = Some q ∧
    (∀ x l', l = Some x :: l' → front q = Some x) ∧
    (∀ x l', l = l' ++ [Some x] → back q = Some x) ∧
    destroy q = Some ∅.
Proof.
  intros Hl. destruct (new_inv HN) as (chs & Hinv & He).
  assert (Hnew : holds (Q := yqueue) (A := Z * nat) yqueue_new []).
  { exists [], (entry chs 0%nat). split; [|constructor]. exists chs. split; [done|].
    by rewrite He. }
  destruct (run_ops_spec os _ _ _ Hnew Hl) as (q & Hq & Hh). exists q. split_and!; [done| | |].
  - intros x l' ->. by apply holds_front in Hh.
  - intros x l' ->. by apply holds_back in Hh.
  - destruct Hh as (win & e & (chs' & Hinv' & _) & _). by eapply destroy_inv.
Qed.
End ops.
End yqueue.

(** A concrete allocator: the least address not in use. *)
Definition lowest (X : gset Z) : Z := fresh X.

Lemma yqueue_refines_witness :
  ∃ q, run 2 lowest (yqueue_new 2 lowest)
         [OPush; OSetBack 10; OPush; OSetBack 11; OPush; OSetBack 12; OPop; OPop; OPush; OUnpush; OPush; OPush; OSetBack 15]
       = Some q ∧ front q = Some 12 ∧ back q = Some 15 ∧ destroy q = Some ∅.
Proof.
  destruct (yqueue_refines 2 lowest (is_fresh (C := gset Z)) ltac:(lia)
    [OPush; OSetBack 10; OPush; OSetBack 11; OPush; OSetBack 12; OPop; OPop; OPush; OUnpush; OPush; OPush; OSetBack 15]
    [Some 12; None; Some 15] eq_refl) as (q & Hq & Hf & Hb & Hd).
  exists q. exact (conj Hq (conj (Hf 12 [None; Some 15] eq_refl) (conj (Hb 15 [Some 12; None] eq_refl) Hd))).
Defined.

End YQueue.
