(* ===== verification/YPipe.v ===== *)
(** * The lock-free pipe

    [ypipe_t] (src/ypipe.hpp): one writer thread and one reader thread share a
    queue and an atomic pointer [_c].  [YpipeBase] is the interface of
    src/ypipe_base.hpp; [ypipe] is [ypipe_t] over any queue that satisfies
    [QueueLaws] (such as [yqueue_t]).  The specification [pspec] is a list of
    flushed items, one of completed items, one of items of an incomplete
    message, and whether the reader sleeps; [ypipe_refines] shows that every
    interleaving of the writer's and the reader's atomic accesses gives the
    results the specification gives, in the order the accesses take effect. *)

From S2P Require Import Prelude YQueue.

(** ** The interface of src/ypipe_base.hpp *)

Class YpipeBase (T P : Type) := {
  y_write : T → bool → P → option P;
  y_unwrite : P → option (option T * P);
  y_flush : P → bool * P;
  y_check_read : P → bool * P;
  y_read : P → option (option T * P);
  y_probe : (T → bool) → P → option (bool * P) }.

(** ** The specification *)

Record pspec (T : Type) := PS {
  flushed : list T;    (* for the reader *)
  complete : list T;   (* whole messages not flushed yet *)
  partial : list T;    (* the items of a message still being written *)
  asleep : bool }.
Arguments PS {T} _ _ _ _.
Arguments flushed {T} _.
Arguments complete {T} _.
Arguments partial {T} _.
Arguments asleep {T} _.

Section spec.
Context {T : Type}.

Definition s_write (v : T) (incomplete : bool) (s : pspec T) : pspec T :=
  if incomplete then PS (flushed s) (complete s) (partial s ++ [v]) (asleep s)
  else PS (flushed s) (complete s ++ partial s ++ [v]) [] (asleep s).

Definition s_unwrite (s : pspec T) : option T * pspec T :=
  (last (partial s), PS (flushed s) (complete s) (removelast (partial s)) (asleep s)).

(** The result is whether the reader is awake. *)
Definition s_flush (s : pspec T) : bool * pspec T :=
  if complete s is [] then (true, s)
  else (negb (asleep s), PS (flushed s ++ complete s) [] (partial s) false).

Definition s_check_read (s : pspec T) : bool * pspec T :=
  if flushed s is [] then (false, PS [] (complete s) (partial s) true) else (true, s).

Definition s_read (s : pspec T) : option T * pspec T :=
  match flushed s with
  | [] => (None, PS [] (complete s) (partial s) true)
  | x :: l => (Some x, PS l (complete s) (partial s) (asleep s))
  end.
End spec.

Module YPipe.
Section ypipe.
Context {T A Q : Type} `{!Queue T A Q} `{!EqDecision A}.

(** The data members; [_w] and [_f] are never NULL. *)
Record ypipe := YP {
  queue : Q;
  w : A;             (* the first un-flushed item *)
  r : option A;      (* the first un-prefetched item *)
  f : A;             (* the first item to be flushed in the future *)
  c : option A }.    (* past the last flushed item, NULL when the reader sleeps *)

(** The constructor, over a new queue. *)
Definition ypipe_new (q : Q) : option ypipe :=
  q ← q_push q;
  a ← q_back_addr q;
  Some (YP q a (Some a) a (Some a)).

Definition write (v : T) (incomplete : bool) (p : ypipe) : option ypipe :=
  q ← q_set_back v (queue p);
  q ← q_push q;
  if incomplete then Some (YP q (w p) (r p) (f p) (c p))
  else a ← q_back_addr q; Some (YP q (w p) (r p) a (c p)).

Definition unwrite (p : ypipe) : option (option T * ypipe) :=
  a ← q_back_addr (queue p);
  if decide (f p = a) then Some (None, p)
  else
    q ← q_unpush (queue p);
    v ← q_back q;
    Some (Some v, YP q (w p) (r p) (f p) (c p)).

(** [_c.cas (cmp, val)]: the old value, and the new one. *)
Definition cas (cmp val : option A) (p : ypipe) : option A * ypipe :=
  (c p, YP (queue p) (w p) (r p) (f p) (if decide (c p = cmp) then val else c p)).

(** [flush] in its two accesses to [_c]: the compare-and-swap and, when it
    failed, the plain store. *)
Definition flush_cas (p : ypipe) : bool * ypipe :=
  let '(old, p) := cas (Some (w p)) (Some (f p)) p in
  if decide (old = Some (w p)) then (true, YP (queue p) (f p) (r p) (f p) (c p))
  else (false, p).

Definition flush_set (p : ypipe) : ypipe := YP (queue p) (f p) (r p) (f p) (Some (f p)).

Definition flush (p : ypipe) : bool * ypipe :=
  if decide (w p = f p) then (true, p)
  else
    let '(ok, p) := flush_cas p in
    if ok then (true, p) else (false, flush_set p).

Definition check_read (p : ypipe) : bool * ypipe :=
  let front := Some (q_front_addr (queue p)) in
  if decide (front ≠ r p ∧ r p ≠ None) then (true, p)
  else
    let '(old, p) := cas front None p in
    let p := YP (queue p) (w p) old (f p) (c p) in
    if decide (front = r p ∨ r p = None) then (false, p) else (true, p).

Definition read (p : ypipe) : option (option T * ypipe) :=
  let '(ok, p) := check_read p in
  if ok then
    v ← q_front (queue p);
    q ← q_pop (queue p);
    Some (Some v, YP q (w p) (r p) (f p) (c p))
  else Some (None, p).

Definition probe (fn : T → bool) (p : ypipe) : option (bool * ypipe) :=
  let '(ok, p) := check_read p in
  _ ← zmq_assert ok;
  v ← q_front (queue p);
  Some (fn v, p).

#[export] Instance ypipe_is_base : YpipeBase T ypipe := {|
  y_write := write; y_unwrite := unwrite; y_flush := flush;
  y_check_read := check_read; y_read := read; y_probe := probe |}.

(** ** The representation *)

Context `{!QueueLaws T A Q}.

Record repr_at (p : ypipe) (s : pspec T) (win : list (A * option T)) (t e : A * option T) : Prop := {
  ra_queue : q_repr (queue p) (win ++ [t; e]);
  ra_items : win.*2 = Some <$> flushed s ++ complete s ++ partial s;
  ra_w : (win ++ [t]).*1 !! length (flushed s) = Some (w p);
  ra_f : (win ++ [t]).*1 !! (length (flushed s) + length (complete s))%nat = Some (f p);
  ra_c : c p = if asleep s then None else Some (w p);
  ra_asleep : asleep s = true → flushed s = [];
  ra_r : r p = None ∨ ∃ k a, (k ≤ length (flushed s))%nat ∧ (win ++ [t]).*1 !! k = Some a ∧ r p = Some a }.

Definition repr (p : ypipe) (s : pspec T) : Prop := ∃ win t e, repr_at p s win t e.

Lemma repr_length p s win t e :
  repr_at p s win t e → length win = (length (flushed s) + length (complete s) + length (partial s))%nat.
Proof.
  intros H. pose proof (f_equal length (ra_items _ _ _ _ _ H)) as Hl.
  rewrite !length_fmap, !length_app in Hl. lia.
Qed.

(** Two slots of the queue with the same address are the same slot. *)
Lemma repr_inj p s win t e i j a :
  repr_at p s win t e → (win ++ [t]).*1 !! i = Some a → (win ++ [t]).*1 !! j = Some a → i = j.
Proof.
  intros H Hi Hj. pose proof (q_repr_nodup _ _ (ra_queue _ _ _ _ _ H)) as Hnd.
  change [t; e] with ([t] ++ [e]) in Hnd. rewrite (assoc_L _ win), fmap_app in Hnd.
  apply NoDup_app in Hnd as [Hnd _]. by eapply NoDup_lookup.
Qed.

Lemma front_at p s win t e :
  repr_at p s win t e → (win ++ [t]).*1 !! 0%nat = Some (q_front_addr (queue p)).
Proof.
  intros H. pose proof (ra_queue _ _ _ _ _ H) as Hq.
  destruct win as [|[a v] win]; cbn [app] in *; [destruct t as [a v]|];
    destruct (q_front_spec _ _ _ _ Hq) as [-> _]; done.
Qed.

Lemma back_at p s win t e : repr_at p s win t e →
  q_back_addr (queue p) = Some t.1 ∧ (win ++ [t]).*1 !! length win = Some t.1.
Proof.
  intros H. destruct t as [a v]. destruct (q_back_spec _ _ _ _ _ (ra_queue _ _ _ _ _ H)) as [-> _].
  split; [done|]. rewrite list_lookup_fmap, lookup_app_r, Nat.sub_diag by lia. done.
Qed.

(** ** The operations of the writer *)

Lemma ypipe_new_spec q x : q_repr q [x] → ∃ p, ypipe_new q = Some p ∧ repr p (PS [] [] [] false).
Proof.
  intros Hq. unfold ypipe_new. destruct (q_push_spec _ _ Hq) as (q' & e & -> & Hq').
  destruct x as [a v]. cbn [mbind option_bind]. destruct (q_back_spec q' a v e [] Hq') as [-> _].
  cbn [mbind option_bind]. eexists. split; [done|]. exists [], (a, v), e.
  split; cbn; try done. right. exists 0%nat, a. done.
Qed.

Lemma write_spec v incomplete p s : repr p s →
  ∃ p', write v incomplete p = Some p' ∧ repr p' (s_write v incomplete s).
Proof.
  intros (win & [a o] & e & H). unfold write. pose proof (repr_length _ _ _ _ _ H) as Hlen.
  destruct (q_set_back_spec _ _ _ _ _ v (ra_queue _ _ _ _ _ H)) as (q1 & -> & Hq1). cbn [mbind option_bind].
  destruct (q_push_spec _ _ Hq1) as (q2 & x & -> & Hq2). cbn [mbind option_bind].
  rewrite <- (assoc_L _ win) in Hq2. cbn [app] in Hq2.
  change [(a, Some v); e; x] with ([(a, Some v)] ++ [e; x]) in Hq2. rewrite (assoc_L _ win) in Hq2.
  set (win' := win ++ [(a, Some v)]) in *.
  assert (Hads : ∀ i, (i ≤ length win)%nat → (win' ++ [e]).*1 !! i = (win ++ [(a, o)]).*1 !! i).
  { intros i Hi. unfold win'. rewrite !fmap_app, lookup_app_l by (rewrite length_app, !length_fmap; cbn [length]; lia).
    done. }
  assert (Hitems : win'.*2 = Some <$> (flushed s ++ complete s ++ partial s) ++ [v]).
  { unfold win'. rewrite !fmap_app, (ra_items _ _ _ _ _ H). by rewrite !fmap_app. }
  assert (Hr : ∀ P : Prop, True → r p = None ∨ ∃ k b, (k ≤ length (flushed s))%nat ∧ (win' ++ [e]).*1 !! k = Some b ∧ r p = Some b).
  { intros _ _. destruct (ra_r _ _ _ _ _ H) as [|(k & b & Hk & Hb & Hrb)]; [by left|]. right. exists k, b.
    rewrite Hads by lia. done. }
  destruct incomplete.
  - eexists. split; [done|]. exists win', e, x. split; cbn [queue w r f c s_write flushed complete partial asleep].
    + exact Hq2.
    + rewrite Hitems. by rewrite <- !(assoc_L _).
    + rewrite Hads by lia. apply H.
    + rewrite Hads by lia. apply H.
    + apply (ra_c _ _ _ _ _ H).
    + apply (ra_asleep _ _ _ _ _ H).
    + by apply (Hr True).
  - destruct e as [b u]. destruct (q_back_spec _ _ _ _ _ Hq2) as [-> _]. cbn [mbind option_bind].
    eexists. split; [done|]. exists win', (b, u), x. split; cbn [queue w r f c s_write flushed complete partial asleep].
    + exact Hq2.
    + rewrite Hitems. by rewrite app_nil_r, <- !(assoc_L _).
    + rewrite Hads by lia. apply H.
    + rewrite fmap_app, lookup_app_r; rewrite length_fmap; unfold win'; rewrite !length_app; cbn [length]; [|lia].
      by replace (_ - _)%nat with 0%nat by lia.
    + apply (ra_c _ _ _ _ _ H).
    + apply (ra_asleep _ _ _ _ _ H).
    + by apply (Hr True).
Qed.

Lemma partial_nil p s win t e : repr_at p s win t e → f p = t.1 ↔ partial s = [].
Proof.
  intros H. pose proof (repr_length _ _ _ _ _ H) as Hlen. destruct (back_at _ _ _ _ _ H) as [_ Ht].
  split.
  - intros Heq. rewrite <- Heq in Ht. pose proof (repr_inj _ _ _ _ _ _ _ _ H Ht (ra_f _ _ _ _ _ H)).
    apply nil_length_inv. lia.
  - intros Hp. pose proof (ra_f _ _ _ _ _ H) as Hf. rewrite Hp in Hlen. cbn [length] in Hlen.
    rewrite Nat.add_0_r in Hlen. rewrite <- Hlen in Hf. congruence.
Qed.

Lemma complete_nil p s : repr p s → w p = f p ↔ complete s = [].
Proof.
  intros (win & t & e & H). pose proof (ra_w _ _ _ _ _ H) as Hw. pose proof (ra_f _ _ _ _ _ H) as Hf. split.
  - intros Heq. rewrite <- Heq in Hf. pose proof (repr_inj _ _ _ _ _ _ _ _ H Hw Hf).
    apply nil_length_inv. lia.
  - intros Hc. rewrite Hc in Hf. cbn [length] in Hf. rewrite Nat.add_0_r in Hf. congruence.
Qed.

Lemma unwrite_spec p s : repr p s →
  ∃ p', unwrite p = Some ((s_unwrite s).1, p') ∧ repr p' (s_unwrite s).2.
Proof.
  intros (win & t & e & H). unfold unwrite, s_unwrite. cbn [fst snd].
  destruct (back_at _ _ _ _ _ H) as [-> Ht]. cbn [mbind option_bind].
  pose proof (partial_nil _ _ _ _ _ H) as Hpn. pose proof (repr_length _ _ _ _ _ H) as Hlen.
  destruct (decide (f p = t.1)) as [Hft|Hft].
  - apply Hpn in Hft. rewrite Hft. exists p. split; [done|]. destruct s as [fl co pa sl]. cbn in Hft. subst pa.
    by exists win, t, e.
  - destruct (list_last_cases (partial s)) as [Hnil|(pa & v & Hpa)]; [by apply Hpn in Hnil|].
    pose proof (ra_items _ _ _ _ _ H) as Hitems. rewrite Hpa, !(assoc_L app), fmap_app in Hitems.
    destruct (list_last_cases win) as [->|(win' & y & ->)].
    { apply (f_equal length) in Hitems. rewrite length_app in Hitems. cbn in Hitems. lia. }
    rewrite fmap_app in Hitems. cbn [fmap list_fmap] in Hitems. apply app_inj_tail in Hitems as [Hitems Hy].
    pose proof (ra_queue _ _ _ _ _ H) as Hq. rewrite <- (assoc_L _ win') in Hq. cbn [app] in Hq.
    change [y; t; e] with ([y] ++ [t; e]) in Hq. rewrite (assoc_L _ win') in Hq.
    destruct (q_unpush_spec _ _ _ _ Hq) as (q' & -> & Hq'). cbn [mbind option_bind].
    rewrite <- (assoc_L _ win') in Hq'. cbn [app] in Hq'. destruct y as [a o]. cbn in Hy. subst o.
    destruct (q_back_spec _ _ _ _ _ Hq') as [_ ->]. cbn [mbind option_bind].
    rewrite Hpa, last_snoc, removelast_last. eexists. split; [done|].
    rewrite Hpa, !length_app in Hlen. cbn [length] in Hlen.
    assert (Hads : ∀ i, (i ≤ length win')%nat → (win' ++ [(a, Some v)]).*1 !! i = ((win' ++ [(a, Some v)]) ++ [t]).*1 !! i).
    { intros i Hi. rewrite (fmap_app _ (win' ++ _)), lookup_app_l; [done|].
      rewrite length_fmap, length_app. cbn [length]. lia. }
    exists win', (a, Some v), t. split; cbn [queue w r f c flushed complete partial asleep].
    + exact Hq'.
    + rewrite Hitems. by rewrite (assoc_L app).
    + rewrite Hads by lia. apply H.
    + rewrite Hads by lia. apply H.
    + apply (ra_c _ _ _ _ _ H).
    + apply (ra_asleep _ _ _ _ _ H).
    + destruct (ra_r _ _ _ _ _ H) as [|(k & b & Hk & Hb & Hrb)]; [by left|]. right. exists k, b.
      rewrite Hads by lia. done.
Qed.

(** The compare-and-swap of [flush] fails exactly when the reader sleeps, and
    then changes nothing. *)
Lemma flush_cas_spec p s : repr p s →
  if asleep s then flush_cas p = (false, p)
  else ∃ p', flush_cas p = (true, p') ∧ repr p' (PS (flushed s ++ complete s) [] (partial s) false).
Proof.
  intros (win & t & e & H). unfold flush_cas, cas. rewrite (ra_c _ _ _ _ _ H).
  destruct (asleep s) eqn:Hs.
  - rewrite !decide_False by done. pose proof (ra_c _ _ _ _ _ H) as Hc. rewrite Hs in Hc. by destruct p; cbn in *; subst.
  - rewrite !decide_True by done. eexists. split; [done|]. exists win, t, e.
    split; cbn [queue w r f c flushed complete partial asleep].
    + apply H.
    + rewrite (ra_items _ _ _ _ _ H). by rewrite <- (assoc_L app).
    + rewrite length_app. apply H.
    + rewrite length_app. cbn [length]. rewrite Nat.add_0_r. apply H.
    + done.
    + done.
    + destruct (ra_r _ _ _ _ _ H) as [|(k & b & Hk & Hb & Hrb)]; [by left|]. right. exists k, b.
      rewrite length_app. split_and!; [lia|done..].
Qed.

Lemma flush_set_spec p s : repr p s → asleep s = true →
  repr (flush_set p) (PS (flushed s ++ complete s) [] (partial s) false).
Proof.
  intros (win & t & e & H) Hs. exists win, t, e. pose proof (ra_asleep _ _ _ _ _ H Hs) as Hfl.
  split; cbn [flush_set queue w r f c flushed complete partial asleep]; rewrite ?length_app.
  - apply H.
  - rewrite (ra_items _ _ _ _ _ H). by rewrite <- (assoc_L app).
  - apply H.
  - cbn [length]. rewrite Nat.add_0_r. apply H.
  - done.
  - done.
  - destruct (ra_r _ _ _ _ _ H) as [|(k & b & Hk & Hb & Hrb)]; [by left|]. right. exists k, b.
    split_and!; [lia|done..].
Qed.

Lemma flush_spec p s : repr p s →
  ∃ p', flush p = ((s_flush s).1, p') ∧ repr p' (s_flush s).2.
Proof.
  intros H. unfold flush, s_flush. pose proof (complete_nil _ _ H) as Hn.
  destruct (decide (w p = f p)) as [Hwf|Hwf].
  - apply Hn in Hwf. rewrite Hwf. eauto.
  - destruct (complete s) as [|x l] eqn:Hc; [by destruct Hwf; apply Hn|]. cbn [fst snd].
    pose proof (flush_cas_spec _ _ H) as Hcas. pose proof (flush_set_spec _ _ H) as Hset.
    rewrite Hc in Hcas, Hset.
    destruct (asleep s).
    + rewrite Hcas. eauto.
    + destruct Hcas as (p' & -> & Hp'). eauto.
Qed.

(** ** The operations of the reader *)

Lemma check_read_spec p s : repr p s →
  ∃ p', check_read p = ((s_check_read s).1, p') ∧ repr p' (s_check_read s).2 ∧
    queue p' = queue p.
Proof.
  intros (win & t & e & H). unfold check_read, s_check_read. pose proof (front_at _ _ _ _ _ H) as Hfront.
  set (a := q_front_addr (queue p)) in *.
  destruct (decide (Some a ≠ r p ∧ r p ≠ None)) as [[Hne Hnn]|Hpre].
  { destruct (ra_r _ _ _ _ _ H) as [|(k & b & Hk & Hb & Hrb)]; [done|].
    destruct (flushed s) as [|x l] eqn:Hfl; [|cbn [fst snd]; exists p; split_and!; [done|by exists win, t, e|done]].
    cbn [length] in Hk. replace k with 0%nat in Hb by lia. congruence. }
  unfold cas. cbn [queue r]. rewrite (ra_c _ _ _ _ _ H).
  destruct (asleep s) eqn:Hs.
  { rewrite (ra_asleep _ _ _ _ _ H Hs). cbn [fst snd]. rewrite decide_True by (by right).
    eexists. split_and!; [done| |done]. exists win, t, e. pose proof (ra_asleep _ _ _ _ _ H Hs) as Hfl.
    destruct H. rewrite Hs, Hfl in *. split; cbn [queue w r f c flushed complete partial asleep]; try done; by left. }
  pose proof (ra_w _ _ _ _ _ H) as Hw.
  destruct (flushed s) as [|x l] eqn:Hfl; cbn [fst snd].
  - assert (w p = a) as Hwa by (cbn [length] in Hw; congruence).
    rewrite decide_True by (left; congruence). eexists. split_and!; [done| |done]. exists win, t, e.
    destruct H. rewrite Hfl in *. split; cbn [queue w r f c flushed complete partial asleep]; try done.
    + rewrite decide_True by congruence. done.
    + right. exists 0%nat, a. split_and!; [lia|done|congruence].
  - assert (Hwa : w p ≠ a).
    { intros Hwa. rewrite Hwa in Hw. pose proof (repr_inj _ _ _ _ _ _ _ _ H Hw Hfront) as Hl. done. }
    rewrite decide_False by (intros [|]; congruence). eexists. split_and!; [done| |done]. exists win, t, e.
    destruct H. rewrite Hfl in *. split; cbn [queue w r f c flushed complete partial asleep]; rewrite ?Hfl; try done.
    + rewrite decide_False by congruence. by rewrite Hs.
    + right. exists (length (x :: l)), (w p). split_and!; [lia|done|done].
Qed.

Lemma check_read_prefetched p p' :
  check_read p = (true, p') → Some (q_front_addr (queue p')) ≠ r p' ∧ r p' ≠ None.
Proof.
  unfold check_read, cas. destruct (decide (Some _ ≠ _ ∧ _)) as [Hp|_]; [by intros [= <-]|].
  destruct (decide (_ ∨ _)) as [|Hn]; [done|]. intros [= <-]. cbn [queue r] in *. tauto.
Qed.

Lemma pop_repr p s x l : repr p s → flushed s = x :: l →
  Some (q_front_addr (queue p)) ≠ r p → r p ≠ None →
  ∃ q, q_front (queue p) = Some x ∧ q_pop (queue p) = Some q ∧
    repr (YP q (w p) (r p) (f p) (c p)) (PS l (complete s) (partial s) (asleep s)).
Proof.
  intros (win & t & e & H) Hfl Hne Hnn. pose proof (front_at _ _ _ _ _ H) as Hfront.
  pose proof (ra_items _ _ _ _ _ H) as Hitems. rewrite Hfl in Hitems.
  destruct win as [|[a o] win]; [done|]. cbn in Hitems. injection Hitems as -> Hitems.
  pose proof (ra_queue _ _ _ _ _ H) as Hq. cbn [app] in Hq.
  destruct (q_front_spec _ _ _ _ Hq) as [_ ->].
  assert (∃ q, q_pop (queue p) = Some q ∧ q_repr q (win ++ [t; e])) as (q & -> & Hq').
  { destruct win as [|y win]; cbn [app] in Hq; apply q_pop_spec in Hq; naive_solver. }
  exists q. split_and!; [done..|]. exists win, t, e. pose proof (ra_w _ _ _ _ _ H) as Hw.
  pose proof (ra_f _ _ _ _ _ H) as Hf. rewrite Hfl in Hw, Hf. cbn in Hw, Hf.
  split; cbn [queue w r f c flushed complete partial asleep]; try done.
  - apply (ra_c _ _ _ _ _ H).
  - intros Hs. pose proof (ra_asleep _ _ _ _ _ H Hs). congruence.
  - right. destruct (ra_r _ _ _ _ _ H) as [|(k & b & Hk & Hb & Hrb)]; [done|].
    destruct k as [|k]; [congruence|]. exists k, b. rewrite Hfl in Hk. cbn in Hb, Hk.
    split_and!; [lia|done|done].
Qed.

Lemma read_spec p s : repr p s → ∃ p', read p = Some ((s_read s).1, p') ∧ repr p' (s_read s).2.
Proof.
  intros H. unfold read. destruct (check_read_spec p s H) as (p1 & Hc & Hp1 & _).
  pose proof (check_read_prefetched p p1) as Hpre. rewrite Hc in Hpre |- *.
  unfold s_check_read, s_read in *. destruct (flushed s) as [|x l] eqn:Hfl; cbn [fst snd] in *; [eauto|].
  destruct (Hpre eq_refl) as [Hne Hnn].
  destruct (pop_repr p1 s x l Hp1 Hfl Hne Hnn) as (q & -> & -> & Hq). cbn [mbind option_bind]. eauto.
Qed.

Lemma probe_spec fn p s x l : repr p s → flushed s = x :: l →
  ∃ p', probe fn p = Some (fn x, p') ∧ repr p' s.
Proof.
  intros H Hfl. unfold probe. destruct (check_read_spec p s H) as (p1 & Hc & Hp1 & _).
  pose proof (check_read_prefetched p p1) as Hpre. rewrite Hc in Hpre |- *.
  unfold s_check_read in *. rewrite Hfl in *. cbn [fst snd zmq_assert mbind option_bind] in *.
  destruct (Hpre eq_refl) as [Hne Hnn].
  destruct (pop_repr p1 s x l Hp1 Hfl Hne Hnn) as (q & -> & _). cbn [mbind option_bind]. eauto.
Qed.

(** ** Two threads

    An action is one thread's operation up to its access to [_c]; [flush] is
    two actions, its compare-and-swap and, when that failed, its store. *)

Inductive action : Type :=
| AWrite (v : T) (incomplete : bool)
| AUnwrite
| AFlush      (* up to the compare-and-swap *)
| AFlushSet   (* the store after a failed compare-and-swap *)
| ACheckRead
| ARead.

Inductive event : Type :=
| EWrite (v : T) (incomplete : bool)
| EUnwrite (res : option T)
| EFlush (res : bool)
| ECheckRead (res : bool)
| ERead (res : option T).

(** The state: the pipe, and whether the writer is between the two accesses of
    a [flush].  An action its thread cannot take now does nothing. *)
Definition step (st : ypipe * bool) (a : action) : option (ypipe * bool * list event) :=
  let '(p, pending) := st in
  match a with
  | AWrite v inc =>
      if pending then Some (p, pending, []) else p ← write v inc p; Some (p, false, [EWrite v inc])
  | AUnwrite =>
      if pending then Some (p, pending, [])
      else '(res, p) ← unwrite p; Some (p, false, [EUnwrite res])
  | AFlush =>
      if pending then Some (p, pending, [])
      else if decide (w p = f p) then Some (p, false, [EFlush true])
      else let '(ok, p) := flush_cas p in Some (p, negb ok, if ok then [EFlush true] else [])
  | AFlushSet =>
      if pending then Some (flush_set p, false, [EFlush false]) else Some (p, pending, [])
  | ACheckRead => let '(res, p) := check_read p in Some (p, pending, [ECheckRead res])
  | ARead => '(res, p) ← read p; Some (p, pending, [ERead res])
  end.

Fixpoint run (st : ypipe * bool) (acts : list action) : option (ypipe * bool * list event) :=
  match acts with
  | [] => Some (st.1, st.2, [])
  | a :: acts =>
      '(p, b, es) ← step st a;
      '(p, b, es') ← run (p, b) acts;
      Some (p, b, es ++ es')
  end.

(** The specification as a relation on events. *)
Definition accepts1 (s : pspec T) (e : event) (s' : pspec T) : Prop :=
  match e with
  | EWrite v inc => s' = s_write v inc s
  | EUnwrite res => s_unwrite s = (res, s')
  | EFlush res => s_flush s = (res, s')
  | ECheckRead res => s_check_read s = (res, s')
  | ERead res => s_read s = (res, s')
  end.

Fixpoint accepts (s : pspec T) (es : list event) (s' : pspec T) : Prop :=
  match es with [] => s' = s | e :: es => ∃ s1, accepts1 s e s1 ∧ accepts s1 es s' end.

Lemma accepts_app es1 : ∀ es2 s s1 s2,
  accepts s es1 s1 → accepts s1 es2 s2 → accepts s (es1 ++ es2) s2.
Proof.
  induction es1 as [|e es1 IH]; intros es2 s s1 s2 H1 H2; cbn [accepts app] in *.
  - by subst s1.
  - destruct H1 as (s' & He & H1). eauto.
Qed.

(** In between the two accesses of a [flush] there are items to flush and the
    reader sleeps. *)
Definition pending_ok (b : bool) (s : pspec T) : Prop :=
  b = true → asleep s = true ∧ complete s ≠ [].

Lemma step_spec p b s a : repr p s → pending_ok b s →
  ∃ p' b' es s', step (p, b) a = Some (p', b', es) ∧ accepts s es s' ∧ repr p' s' ∧ pending_ok b' s'.
Proof.
  intros H Hb. destruct a as [v inc| | | | |]; cbn [step].
  - destruct b; [by exists p, true, [], s|]. destruct (write_spec v inc p s H) as (p' & -> & Hp').
    cbn [mbind option_bind]. do 4 eexists. split_and!; [done|eexists; by split|done|by intros ?].
  - destruct b; [by exists p, true, [], s|]. destruct (unwrite_spec p s H) as (p' & -> & Hp').
    cbn [mbind option_bind]. do 4 eexists. split_and!; [done| |done|by intros ?].
    eexists. split; [|done]. apply surjective_pairing.
  - destruct b; [by exists p, true, [], s|]. pose proof (complete_nil p s H) as Hn.
    pose proof (flush_cas_spec p s H) as Hcas.
    destruct (decide (w p = f p)) as [Hwf|Hwf].
    { apply Hn in Hwf. do 4 eexists. split_and!; [done| |done|by intros ?].
      eexists. split; [|done]. cbn [accepts1]. unfold s_flush. by rewrite Hwf. }
    assert (Hne : complete s ≠ []) by tauto. destruct (asleep s) eqn:Hs.
    + rewrite Hcas. exists p, true, [], s. split_and!; try done.
    + destruct Hcas as (p' & -> & Hp'). do 4 eexists. split_and!; [done| |done|by intros ?].
      eexists. split; [|done]. cbn [accepts1]. unfold s_flush. rewrite Hs. by destruct (complete s).
  - destruct b; [|by exists p, false, [], s]. destruct (Hb eq_refl) as [Hs Hne].
    pose proof (flush_set_spec p s H Hs) as Hp'. do 4 eexists. split_and!; [done| |done|by intros ?].
    eexists. split; [|done]. cbn [accepts1]. unfold s_flush. rewrite Hs. by destruct (complete s).
  - destruct (check_read_spec p s H) as (p' & -> & Hp' & _). do 4 eexists. split_and!; [done| |done|].
    + eexists. split; [|done]. apply surjective_pairing.
    + intros Hbt. destruct (Hb Hbt) as [Hs Hne]. cbn [snd]. unfold s_check_read. by destruct (flushed s).
  - destruct (read_spec p s H) as (p' & -> & Hp'). cbn [mbind option_bind]. do 4 eexists. split_and!; [done| |done|].
    + eexists. split; [|done]. apply surjective_pairing.
    + intros Hbt. destruct (Hb Hbt) as [Hs Hne]. unfold s_read. by destruct (flushed s).
Qed.

Lemma run_spec acts : ∀ p b s, repr p s → pending_ok b s →
  ∃ p' b' es s', run (p, b) acts = Some (p', b', es) ∧ accepts s es s' ∧ repr p' s' ∧ pending_ok b' s'.
Proof.
  induction acts as [|a acts IH]; intros p b s H Hb; cbn [run].
  - by exists p, b, [], s.
  - destruct (step_spec p b s a H Hb) as (p1 & b1 & es1 & s1 & -> & Ha & H1 & Hb1). cbn [mbind option_bind].
    destruct (IH p1 b1 s1 H1 Hb1) as (p2 & b2 & es2 & s2 & -> & Ha2 & H2 & Hb2). cbn [mbind option_bind].
    do 4 eexists. split_and!; [done|by eapply accepts_app|done|done].
Qed.

(** What was read, in order, and what was written and not taken back. *)
Fixpoint reads (es : list event) : list T :=
  match es with [] => [] | ERead (Some x) :: es => x :: reads es | _ :: es => reads es end.

Fixpoint writes (l : list T) (es : list event) : list T :=
  match es with
  | [] => l
  | EWrite v _ :: es => writes (l ++ [v]) es
  | EUnwrite (Some _) :: es => writes (removelast l) es
  | _ :: es => writes l es
  end.

Definition content (s : pspec T) : list T := flushed s ++ complete s ++ partial s.

Lemma accepts_fifo es : ∀ s s' pre,
  accepts s es s' → writes (pre ++ content s) es = pre ++ reads es ++ content s'.
Proof.
  induction es as [|e es IH]; intros s s' pre H; cbn [accepts] in H; [by subst s'|].
  destruct H as (s1 & He & H). specialize (IH s1 s').
  destruct e as [v inc|res|res|res|res]; cbn [accepts1] in He; cbn [writes reads].
  - subst s1. rewrite <- IH by done. f_equal. rewrite <- (assoc_L app). f_equal.
    unfold s_write, content. destruct inc; cbn [flushed complete partial]; by rewrite ?app_nil_r, <- !(assoc_L app).
  - unfold s_unwrite in He. injection He as <- <-.
    destruct (list_last_cases (partial s)) as [Hp|(pa & v & Hp)].
    + rewrite Hp. cbn [last]. rewrite <- IH by done. unfold content. cbn [flushed complete partial]. by rewrite Hp.
    + rewrite <- (IH pre H). replace (last (partial s)) with (Some v) by (by rewrite Hp, last_snoc).
      cbn [writes]. f_equal. unfold content. cbn [flushed complete partial].
      by rewrite Hp, removelast_last, !(assoc_L app), removelast_last.
  - unfold s_flush in He. rewrite <- IH by done. f_equal. f_equal. unfold content.
    destruct (complete s) as [|x l] eqn:Hc; injection He as _ <-; cbn [flushed complete partial app]; [by rewrite Hc|].
    by rewrite <- (assoc_L app).
  - unfold s_check_read in He. rewrite <- IH by done. f_equal. f_equal. unfold content.
    destruct (flushed s) as [|x l] eqn:Hf; injection He as _ <-; cbn [flushed complete partial]; by rewrite ?Hf.
  - unfold s_read in He. unfold content at 1.
    destruct (flushed s) as [|x l] eqn:Hf; injection He as <- <-.
    + rewrite <- IH by done. done.
    + specialize (IH (pre ++ [x]) H). unfold content in IH at 1. cbn [flushed complete partial] in IH.
      rewrite <- !(assoc_L app) in IH. cbn [app] in IH |- *. exact IH.
Qed.
End ypipe.

(** ** The pipe over the chunked queue *)

Section over_yqueue.
Context {T : Type} (N : nat) (malloc : gset Z → Z)
  (malloc_fresh : ∀ X, malloc X ∉ X) (HN : (0 < N)%nat).

#[local] Instance this_queue : Queue T (Z * nat) YQueue.yqueue := YQueue.yqueue_queue N malloc.
#[local] Instance this_laws : QueueLaws T (Z * nat) YQueue.yqueue :=
  YQueue.yqueue_laws N malloc malloc_fresh.

Definition new_pipe : option (ypipe (A := Z * nat) (Q := YQueue.yqueue (T := T))) :=
  ypipe_new (YQueue.yqueue_new N malloc).

Lemma new_pipe_spec : ∃ p, new_pipe = Some p ∧ repr p (PS [] [] [] false).
Proof.
  destruct (YQueue.new_inv (T := T) N malloc malloc_fresh HN) as (chs & Hinv & He).
  apply (ypipe_new_spec _ (YQueue.entry N chs 0)). exists chs. split; [done|]. by rewrite He.
Qed.

(** C10. The lock-free pipe is linearizable: under any interleaving of the
    writer's and the reader's actions no operation touches an invalid pointer
    and the results are those of the specification, in which readers see only
    whole flushed messages, [flush] reports a sleeping reader and a reader
    falls asleep only when everything flushed was read. *)
Theorem ypipe_refines (acts : list (action (T := T))) :
  ∃ p0 p pending es s, new_pipe = Some p0 ∧ run (p0, false) acts = Some (p, pending, es) ∧
    accepts (PS [] [] [] false) es s ∧
    (pending = true → asleep s = true ∧ flushed s = [] ∧ complete s ≠ []).
Proof.
  destruct new_pipe_spec as (p0 & Hp0 & Hr). exists p0.
  destruct (run_spec acts p0 false _ Hr) as (p & b & es & s & Hrun & Hacc & Hrepr & Hpend); [by intros ?|].
  exists p, b, es, s. split_and!; [done..|]. intros Hb. destruct (Hpend Hb) as [Hs Hc].
  destruct Hrepr as (win & t & e & H). split_and!; [done|by eapply ra_asleep|done].
Qed.

(** The pipe is a FIFO: under any interleaving, the items read so far, then
    the items in the pipe, are the items written and not taken back by
    [unwrite]. *)
Theorem ypipe_fifo (acts : list (action (T := T))) p0 p pending es :
  new_pipe = Some p0 → run (p0, false) acts = Some (p, pending, es) →
  ∃ rest, writes [] es = reads es ++ rest.
Proof.
  intros Hp0 Hrun. destruct new_pipe_spec as (p0' & Hp0' & Hr). assert (p0' = p0) as -> by congruence.
  destruct (run_spec acts p0 false _ Hr) as (p' & b & es' & s & Hrun' & Hacc & _); [by intros ?|].
  assert (es' = es) as -> by congruence. exists (content s).
  exact (accepts_fifo es (PS [] [] [] false) s [] Hacc).
Qed.
End over_yqueue.

Definition ex_acts : list (action (T := Z)) :=
  [AWrite 1 false; ARead; AFlush; ARead; AFlushSet; ARead; AWrite 2 true; AWrite 3 true; AUnwrite;
   AWrite 4 false; AFlush; ARead; AFlushSet; ARead; ARead; ARead].

Lemma ypipe_refines_witness :
  ∃ p0 p pending es s, new_pipe 2 YQueue.lowest = Some p0 ∧
    run (Queue0 := YQueue.yqueue_queue 2 YQueue.lowest) (p0, false) ex_acts = Some (p, pending, es) ∧
    accepts (PS [] [] [] false) es s.
Proof.
  destruct (ypipe_refines 2 YQueue.lowest (is_fresh (C := gset Z)) ltac:(lia) ex_acts)
    as (p0 & p & b & es & s & H1 & H2 & H3 & _).
  exists p0, p, b, es, s. exact (conj H1 (conj H2 H3)).
Defined.

Lemma ypipe_fifo_witness :
  ∃ p0 p pending es rest, new_pipe 2 YQueue.lowest = Some p0 ∧
    run (Queue0 := YQueue.yqueue_queue 2 YQueue.lowest) (p0, false) ex_acts = Some (p, pending, es) ∧
    writes [] es = reads es ++ rest ∧ reads es = [1; 2; 4].
Proof.
  destruct (new_pipe 2 YQueue.lowest) as [p0|] eqn:H0; [|vm_compute in H0; discriminate].
  destruct (run (Queue0 := YQueue.yqueue_queue 2 YQueue.lowest) (p0, false) ex_acts) as [[[p b] es]|] eqn:H1;
    [|apply (f_equal (λ o, p ← o; run (Queue0 := YQueue.yqueue_queue 2 YQueue.lowest) (p, false) ex_acts)) in H0;
      cbn [mbind option_bind] in H0; rewrite H1 in H0; vm_compute in H0; discriminate].
  destruct (ypipe_fifo 2 YQueue.lowest (is_fresh (C := gset Z)) ltac:(lia) ex_acts p0 p b es H0 H1) as [rest Hr].
  exists p0, p, b, es, rest. refine (conj eq_refl (conj H1 (conj Hr _))).
  apply (f_equal (λ o, p ← o; '(_, _, es) ← run (Queue0 := YQueue.yqueue_queue 2 YQueue.lowest) (p, false) ex_acts; Some (reads es))) in H0.
  cbn [mbind option_bind] in H0. rewrite H1 in H0. vm_compute in H0. injection H0 as H0. exact (eq_sym H0).
Defined.
End YPipe.
