(* ===== verification/Mailbox.v ===== *)
(** * Mailboxes

    [mailbox_t] (src/mailbox.cpp) carries the commands between threads: a pipe
    of commands written under a mutex by any thread, and a signaler
    (src/signaler.cpp, on an eventfd) that wakes the one thread that reads.
    [send] and [recv] are split where another thread can come in between; the
    theorems quantify over every interleaving. *)

From S2P Require Import Prelude YQueue YPipe.
Import YPipe.

Module Mailbox.

(** ** The signaler: the counter of its eventfd *)

Definition signaler_send (efd : Z) : Z := efd + 1.

(** Whether [wait] succeeds; [interrupted] is a signal handler returning first. *)
Definition signaler_wait (interrupted : bool) (efd : Z) : bool := negb interrupted && (0 <? efd).

(** [recv_failable]: false is -1 with EAGAIN. *)
Definition recv_failable (efd : Z) : option (bool * Z) :=
  if efd =? 0 then Some (false, efd)
  else
    let dummy := efd in
    let efd := 0 in
    if 1 <? dummy then Some (true, efd + (dummy - 1))
    else _ ← zmq_assert (dummy =? 1); Some (true, efd).

Section mailbox.
Context {T A Q : Type} `{!Queue T A Q} `{!EqDecision A}.

Abbreviation ypipe := (ypipe (A := A) (Q := Q)).

Record mailbox := MB { cpipe : ypipe; active : bool; efd : Z }.

Definition mailbox_new (q : Q) : option mailbox :=
  p ← ypipe_new q;
  let '(ok, p) := check_read p in
  _ ← zmq_assert (negb ok);
  Some (MB p false 0).

(** ** [send]

    Under the mutex: the write and [flush] up to its compare-and-swap. *)
Definition send_begin (cmd : T) (m : mailbox) : option (bool * mailbox) :=
  p ← write cmd false (cpipe m);
  if decide (w p = f p) then Some (true, MB p (active m) (efd m))
  else let '(ok, p) := flush_cas p in Some (ok, MB p (active m) (efd m)).

(** The rest of a [flush] whose compare-and-swap failed, and the unlock. *)
Definition send_set (m : mailbox) : mailbox := MB (flush_set (cpipe m)) (active m) (efd m).

(** After the unlock, when [flush] returned false. *)
Definition send_signal (m : mailbox) : mailbox := MB (cpipe m) (active m) (signaler_send (efd m)).

Definition send (cmd : T) (m : mailbox) : option mailbox :=
  '(ok, m) ← send_begin cmd m;
  Some (if (ok : bool) then m else send_signal (send_set m)).

(** ** [recv] *)

Definition recv_try (m : mailbox) : option (option T * mailbox) :=
  if active m then
    '(v, p) ← read (cpipe m);
    match v with
    | Some v => Some (Some v, MB p (active m) (efd m))
    | None => Some (None, MB p false (efd m))
    end
  else Some (None, m).

Definition recv_signal (m : mailbox) : option (bool * mailbox) :=
  '(ok, e) ← recv_failable (efd m);
  Some (ok, MB (cpipe m) (active m) e).

Definition recv_read (m : mailbox) : option (T * mailbox) :=
  '(v, p) ← read (cpipe m);
  v ← v;     (* zmq_assert (ok) *)
  Some (v, MB p true (efd m)).

(** [None] as the result is -1, with EAGAIN or EINTR. *)
Definition recv (interrupted : bool) (m : mailbox) : option (option T * mailbox) :=
  '(v, m) ← recv_try m;
  match v with
  | Some v => Some (Some v, m)
  | None =>
      if signaler_wait interrupted (efd m) then
        '(ok, m) ← recv_signal m;
        if (ok : bool) then '(v, m) ← recv_read m; Some (Some v, m) else Some (None, m)
      else Some (None, m)
  end.

(** ** Many senders and a receiver *)

(** Where the receiver is in [recv]. *)
Inductive phase : Type := Idle | Waiting | Ready | Reading.

Inductive action : Type :=
| SBegin (cmd : T)
| SSet
| SSignal
| RTry
| RWait (interrupted : bool)
| RSignal
| RRead.

(** [locked]: a sender holds the mutex, between the accesses of [flush];
    [due]: the senders that have unlocked and have to signal; and what was sent
    (in the order the mutex was taken) and received. *)
Record sys := Sys {
  mb : mailbox; locked : bool; due : nat; ph : phase; sent : list T; received : list T }.

(** An action that no thread can take now does nothing. *)
Definition step (st : sys) (a : action) : option sys :=
  let '(Sys m lk d ph se re) := st in
  match a, ph with
  | SBegin cmd, _ =>
      if lk then Some st
      else '(ok, m) ← send_begin cmd m; Some (Sys m (negb ok) d ph (se ++ [cmd]) re)
  | SSet, _ => if lk then Some (Sys (send_set m) false (S d) ph se re) else Some st
  | SSignal, _ =>
      match d with O => Some st | S d => Some (Sys (send_signal m) lk d ph se re) end
  | RTry, Idle =>
      '(v, m) ← recv_try m;
      match v with
      | Some v => Some (Sys m lk d Idle se (re ++ [v]))
      | None => Some (Sys m lk d Waiting se re)
      end
  | RWait i, Waiting => Some (Sys m lk d (if signaler_wait i (efd m) then Ready else Idle) se re)
  | RSignal, Ready =>
      '(ok, m) ← recv_signal m; Some (Sys m lk d (if (ok : bool) then Reading else Idle) se re)
  | RRead, Reading => '(v, m) ← recv_read m; Some (Sys m lk d Idle se (re ++ [v]))
  | _, _ => Some st
  end.

Fixpoint run (st : sys) (acts : list action) : option sys :=
  match acts with [] => Some st | a :: acts => st ← step st a; run st acts end.

(** ** The invariant *)

Context `{!QueueLaws T A Q}.

(** The wake-ups on their way to the receiver. *)
Definition wakes (st : sys) : Z :=
  Z.of_nat (due st) + efd (mb st) + (if ph st is Reading then 1 else 0).

Record inv (st : sys) (s : pspec T) : Prop := {
  in_repr : repr (cpipe (mb st)) s;
  in_partial : partial s = [];
  in_complete : locked st = true ↔ complete s ≠ [];
  in_locked : locked st = true → asleep s = true;
  in_fifo : sent st = received st ++ flushed s ++ complete s;
  in_efd : 0 ≤ efd (mb st);
  in_active : active (mb st) = true → asleep s = false ∧ ph st = Idle;
  in_ready : ph st = Ready → 0 < efd (mb st);
  in_wakes : wakes st = if asleep s || active (mb st) then 0 else 1;
  in_passive : active (mb st) = false → asleep s = false → flushed s ≠ [] }.

Lemma send_begin_spec cmd m s : repr (cpipe m) s → complete s = [] → partial s = [] →
  if asleep s then
    ∃ p, send_begin cmd m = Some (false, MB p (active m) (efd m)) ∧ repr p (PS (flushed s) [cmd] [] true)
  else
    ∃ p, send_begin cmd m = Some (true, MB p (active m) (efd m)) ∧ repr p (PS (flushed s ++ [cmd]) [] [] false).
Proof.
  intros H Hc Hp. unfold send_begin. destruct (write_spec cmd false _ _ H) as (p & -> & Hr).
  cbn [mbind option_bind]. unfold s_write in Hr. rewrite Hc, Hp in Hr. cbn [app] in Hr.
  pose proof (complete_nil _ _ Hr) as Hn. cbn [complete] in Hn. rewrite decide_False by (intros ?; by apply Hn in H0).
  pose proof (flush_cas_spec _ _ Hr) as Hcas. cbn [asleep flushed complete partial] in Hcas.
  destruct (asleep s).
  - rewrite Hcas. eauto.
  - destruct Hcas as (p' & -> & Hp'). eauto.
Qed.

Lemma repr_asleep p s : repr p s → asleep s = true → flushed s = [].
Proof. intros (win & t & e & H). by eapply ra_asleep. Qed.

Ltac fields := cbn [mb locked due ph sent received cpipe active efd flushed complete partial asleep send_signal send_set wakes].

(** Whether the receiver is awake follows from the wake-ups. *)
Lemma inv_woken st s : inv st s → 0 < wakes st →
  wakes st = 1 ∧ asleep s = false ∧ active (mb st) = false ∧ flushed s ≠ [].
Proof.
  intros H Hw. pose proof (in_wakes _ _ H) as Hwk. destruct (asleep s) eqn:Hs, (active (mb st)) eqn:Ha;
    cbn [orb] in Hwk; try lia. split_and!; [done..|]. by apply (in_passive _ _ H).
Qed.

Lemma step_send_begin st s cmd : inv st s → ∃ st' s', step st (SBegin cmd) = Some st' ∧ inv st' s'.
Proof.
  intros H. destruct st as [m lk d h se re]. cbn [step]. destruct lk eqn:Hl; [eauto|].
  assert (Hc : complete s = []).
  { destruct (complete s) eqn:E; [done|]. exfalso. assert (false = true); [|done].
    apply (in_complete _ _ H). by rewrite E. }
  pose proof (send_begin_spec cmd m s (in_repr _ _ H) Hc (in_partial _ _ H)) as Hb.
  pose proof (in_fifo _ _ H) as Hf. pose proof (in_wakes _ _ H) as Hw. unfold wakes in *. cbn [mb due ph sent received] in *.
  rewrite Hc, app_nil_r in Hf.
  destruct (asleep s) eqn:Hs; destruct Hb as (p & -> & Hp); cbn [mbind option_bind negb]; do 2 eexists; (split; [done|]);
    (eapply Build_inv; [exact Hp|..]; unfold wakes; fields; try done).
  - rewrite Hf. by rewrite <- (assoc_L app).
  - apply (in_efd _ _ H).
  - intros Ha. destruct (in_active _ _ H Ha). congruence.
  - apply (in_ready _ _ H).
  - rewrite Hf. by rewrite app_nil_r, <- (assoc_L app).
  - apply (in_efd _ _ H).
  - intros Ha. by destruct (in_active _ _ H Ha).
  - apply (in_ready _ _ H).
  - intros _ _ Hn. by apply app_eq_nil in Hn as [_ ?].
Qed.

Lemma step_send_end st s a : inv st s → a = SSet ∨ a = SSignal →
  ∃ st' s', step st a = Some st' ∧ inv st' s'.
Proof.
  intros H Ha. destruct st as [m lk d h se re].
  pose proof (in_fifo _ _ H) as Hf. pose proof (in_wakes _ _ H) as Hw. unfold wakes in *.
  destruct Ha as [->| ->]; cbn [step].
  - destruct lk; [|eauto]. pose proof (in_locked _ _ H eq_refl) as Hs. cbn [mb due ph sent received] in *.
    pose proof (repr_asleep _ _ (in_repr _ _ H) Hs) as Hfl. rewrite Hs in Hw. cbn [orb] in Hw.
    assert (Hact : active m = false).
    { destruct (active m) eqn:E; [|done]. destruct (in_active _ _ H E). congruence. }
    assert (Hne : complete s ≠ []) by (by apply (in_complete _ _ H)).
    do 2 eexists. split; [done|]. eapply Build_inv; [by apply flush_set_spec; [apply H|]|..]; unfold wakes; fields; try done.
    + apply (in_partial _ _ H).
    + by rewrite app_nil_r.
    + apply (in_efd _ _ H).
    + by rewrite Hact.
    + apply (in_ready _ _ H).
    + rewrite Hact. cbn [orb]. lia.
    + intros _ _. rewrite Hfl. done.
  - destruct d as [|d]; [eauto|]. do 2 eexists. split; [done|]. cbn [mb due ph sent received] in *. unfold signaler_send.
    destruct H. unfold wakes in *. cbn [mb due ph sent received] in *.
    eapply Build_inv; unfold wakes; fields; unfold signaler_send;
      first [eassumption | lia | intros Hr; specialize (in_ready0 Hr); lia].
Qed.

Lemma step_recv st s a : inv st s → (∀ cmd, a ≠ SBegin cmd) → a ≠ SSet → a ≠ SSignal →
  ∃ st' s', step st a = Some st' ∧ inv st' s'.
Proof.
  intros H Ha1 Ha2 Ha3. destruct st as [m lk d h se re].
  pose proof (in_fifo _ _ H) as Hf. pose proof (in_wakes _ _ H) as Hw. unfold wakes in Hw. cbn [mb due ph sent received] in Hf, Hw.
  destruct a as [cmd| | | |i| |]; try done; [by destruct (Ha1 cmd)|..]; destruct h; cbn [step]; try (by eauto).
  - unfold recv_try. destruct (active m) eqn:Hact.
    + destruct (in_active _ _ H Hact) as [Hs _]. destruct (read_spec _ _ (in_repr _ _ H)) as (p & Hp & Hr).
      cbn [mb] in Hp. rewrite Hp. cbn [mbind option_bind]. unfold s_read in Hr |- *.
      rewrite Hs in Hw. cbn [orb] in Hw.
      destruct (flushed s) as [|x l] eqn:Hfl; cbn [fst snd]; do 2 eexists; (split; [done|]).
      * destruct H. eapply Build_inv; [exact Hr|..]; unfold wakes; fields; eauto; cbn in *; congruence || lia || idtac.
      * destruct H. eapply Build_inv; [exact Hr|..]; unfold wakes; fields; eauto; cbn in *; try congruence; try lia.
        -- rewrite in_fifo0, Hfl. by rewrite <- !(assoc_L app).
        -- by rewrite orb_true_r.
    + cbn [mbind option_bind]. do 2 eexists. split; [done|]. destruct H.
      eapply Build_inv; unfold wakes; fields; eauto; cbn in *; congruence.
  - destruct (signaler_wait i (efd m)) eqn:Hsw; do 2 eexists; (split; [done|]); destruct H;
      (eapply Build_inv; unfold wakes; fields; eauto; cbn in *; try congruence).
    + intros Ha. by destruct (in_active0 Ha).
    + intros _. unfold signaler_wait in Hsw. destruct i; [done|]. by apply Z.ltb_lt in Hsw.
    + intros Ha. by destruct (in_active0 Ha).
  - pose proof (in_ready _ _ H eq_refl) as He. cbn [mb] in He.
    destruct (inv_woken _ _ H) as (Hw1 & Hs & Hact & Hne); [unfold wakes; cbn [mb due ph]; lia|].
    unfold wakes in Hw1. cbn [mb due ph] in *. assert (efd m = 1) as He1 by lia.
    unfold recv_signal, recv_failable. rewrite He1. cbn [Z.eqb Pos.eqb Z.ltb Z.compare Pos.compare Pos.compare_cont].
    cbn [zmq_assert mbind option_bind]. do 2 eexists. split; [done|]. destruct H.
    eapply Build_inv; unfold wakes; fields; eauto; cbn in *; try congruence; try lia.
  - destruct (inv_woken _ _ H) as (Hw1 & Hs & Hact & Hne); [unfold wakes; cbn [mb due ph]; pose proof (in_efd _ _ H); cbn [mb] in *; lia|].
    unfold wakes in Hw1. cbn [mb due ph] in *. unfold recv_read.
    destruct (read_spec _ _ (in_repr _ _ H)) as (p & Hp & Hr). cbn [mb] in Hp. rewrite Hp. cbn [mbind option_bind].
    unfold s_read in Hr |- *. destruct (flushed s) as [|x l] eqn:Hfl; [done|]. cbn [fst snd mbind option_bind] in *.
    do 2 eexists. split; [done|]. pose proof (in_efd _ _ H). destruct H.
    eapply Build_inv; [exact Hr|..]; unfold wakes; fields; eauto; cbn in *; try congruence; try lia.
    + rewrite in_fifo0, Hfl. by rewrite <- !(assoc_L app).
    + rewrite orb_true_r. lia.
Qed.

Lemma mailbox_step_inv st s a : inv st s → ∃ st' s', step st a = Some st' ∧ inv st' s'.
Proof.
  intros H. destruct a; [by eapply step_send_begin|..];
    first [by eapply step_send_end; eauto | by eapply step_recv; eauto].
Qed.

Lemma mailbox_run_inv acts : ∀ st s, inv st s → ∃ st' s', run st acts = Some st' ∧ inv st' s'.
Proof.
  induction acts as [|a acts IH]; intros st s H; cbn [run]; [eauto|].
  destruct (mailbox_step_inv st s a H) as (st1 & s1 & -> & H1). cbn [mbind option_bind]. eauto.
Qed.

(** ** The results *)

Lemma mailbox_new_inv q x : q_repr q [x] →
  ∃ m, mailbox_new q = Some m ∧ inv (Sys m false 0 Idle [] []) (PS [] [] [] true).
Proof.
  intros Hq. unfold mailbox_new. destruct (ypipe_new_spec q x Hq) as (p & -> & Hp). cbn [mbind option_bind].
  destruct (check_read_spec p _ Hp) as (p' & -> & Hp' & _). cbn. eexists. split; [done|].
  by eapply Build_inv; unfold wakes; fields.
Qed.

(** The commands sent and not received are in the pipe. *)
Lemma inv_pending st s : inv st s → locked st = false → sent st = received st ++ flushed s.
Proof.
  intros H Hl. pose proof (in_fifo _ _ H) as Hf. destruct (complete s) as [|x l] eqn:Hc; [by rewrite app_nil_r in Hf|].
  assert (locked st = true) by (apply (in_complete _ _ H); by rewrite Hc). congruence.
Qed.

Lemma recv_spec st s : inv st s → locked st = false → due st = 0%nat → ph st = Idle →
  ∃ m', recv false (mb st) = Some (head (flushed s), m').
Proof.
  intros H Hl Hd Hph. unfold recv, recv_try. pose proof (in_wakes _ _ H) as Hw. unfold wakes in Hw.
  rewrite Hd, Hph in Hw. destruct (read_spec _ _ (in_repr _ _ H)) as (p & Hp & Hr). unfold s_read in Hp.
  destruct (active (mb st)) eqn:Hact.
  - destruct (in_active _ _ H Hact) as [Hs _]. rewrite Hs in Hw. cbn [orb] in Hw.
    assert (He : efd (mb st) = 0) by lia. rewrite Hp. cbn [mbind option_bind].
    destruct (flushed s) as [|x l]; cbn [fst mbind option_bind head]; [|eauto].
    unfold signaler_wait. cbn [efd]. rewrite He. cbn. eauto.
  - cbn [mbind option_bind]. unfold signaler_wait. cbn [negb andb].
    destruct (asleep s) eqn:Hs; cbn [orb] in Hw.
    + assert (He : efd (mb st) = 0) by lia. rewrite He. cbn [Z.ltb Z.compare].
      rewrite (repr_asleep _ _ (in_repr _ _ H) Hs). eauto.
    + assert (He : efd (mb st) = 1) by lia. rewrite He. cbn [Z.ltb Z.compare Pos.compare].
      unfold recv_signal, recv_failable. rewrite He. cbn [Z.eqb Pos.eqb Z.ltb Z.compare Pos.compare Pos.compare_cont zmq_assert mbind option_bind].
      unfold recv_read. cbn [cpipe]. rewrite Hp. pose proof (in_passive _ _ H Hact Hs).
      destruct (flushed s) as [|x l]; [done|]. cbn [fst mbind option_bind head]. eauto.
Qed.
End mailbox.

(** ** Mailboxes over the chunked queue *)

Section over_yqueue.
Context {T : Type} (N : nat) (malloc : gset Z → Z)
  (malloc_fresh : ∀ X, malloc X ∉ X) (HN : (0 < N)%nat).

#[local] Instance this_queue : Queue T (Z * nat) YQueue.yqueue := YQueue.yqueue_queue N malloc.
#[local] Instance this_laws : QueueLaws T (Z * nat) YQueue.yqueue :=
  YQueue.yqueue_laws N malloc malloc_fresh.

(** A new mailbox, before anything is sent. *)
Definition start : option (sys (T := T) (A := Z * nat) (Q := YQueue.yqueue (T := T))) :=
  m ← mailbox_new (YQueue.yqueue_new N malloc);
  Some (Sys m false 0 Idle [] []).

Lemma mailbox_start_inv : ∃ st, start = Some st ∧ inv st (PS [] [] [] true).
Proof.
  destruct (YQueue.new_inv (T := T) N malloc malloc_fresh HN) as (chs & Hinv & He).
  destruct (mailbox_new_inv (YQueue.yqueue_new N malloc) (YQueue.entry N chs 0)) as (m & Hm & Hi).
  { exists chs. split; [done|]. by rewrite He. }
  unfold start. rewrite Hm. cbn [mbind option_bind]. eauto.
Qed.

Lemma mailbox_reachable_inv acts st0 st :
  start = Some st0 → run st0 acts = Some st → ∃ s, inv st s.
Proof.
  intros H0 Hrun. destruct mailbox_start_inv as (st0' & H0' & Hi). assert (st0' = st0) as -> by congruence.
  destruct (mailbox_run_inv acts st0 _ Hi) as (st' & s & Hrun' & H). assert (st' = st) as -> by congruence. eauto.
Qed.

(** Whatever the interleaving of any number of senders and the receiver,
    no assertion of the mailbox, its pipe or its signaler fails (in particular
    a signal is never received before its command can be read), commands are
    received in the order the mutex was taken, and there is at most one signal. *)
Theorem mailbox_safe (acts : list (action (T := T))) :
  ∃ st0 st, start = Some st0 ∧ run st0 acts = Some st ∧
    (∃ rest, sent st = received st ++ rest) ∧
    0 ≤ efd (mb st) ≤ 1 ∧
    (active (mb st) = true → efd (mb st) = 0).
Proof.
  destruct mailbox_start_inv as (st0 & H0 & Hi). exists st0.
  destruct (mailbox_run_inv acts st0 _ Hi) as (st & s & Hrun & H). exists st.
  pose proof (in_wakes _ _ H) as Hw. unfold wakes in Hw. pose proof (in_efd _ _ H).
  split_and!; [done..| | | |].
  - exists (flushed s ++ complete s). apply (in_fifo _ _ H).
  - done.
  - destruct (asleep s || active (mb st)), (ph st); lia.
  - intros Ha. rewrite Ha, orb_true_r in Hw. destruct (ph st); lia.
Qed.

(** C32. No wake-up is lost: in every reachable state in which the senders are
    done and the receiver is between calls, [recv] returns the next command if
    one was sent, without waiting, and times out only if all were received. *)
Theorem mailbox_no_lost_wakeup (acts : list (action (T := T))) st0 st :
  start = Some st0 → run st0 acts = Some st →
  locked st = false → due st = 0%nat → ph st = Idle →
  ∃ m', recv false (mb st) = Some (sent st !! length (received st), m').
Proof.
  intros H0 Hrun Hl Hd Hph. destruct (mailbox_reachable_inv acts st0 st H0 Hrun) as (s & H).
  destruct (recv_spec st s H Hl Hd Hph) as (m' & Hm). exists m'. rewrite Hm.
  rewrite (inv_pending st s H Hl), lookup_app_r, Nat.sub_diag by lia. by destruct (flushed s).
Qed.
End over_yqueue.

Definition ex_acts : list (action (T := Z)) :=
  [RTry; SBegin 1; RWait false; SSet; SBegin 2; SSignal; RTry; RWait false; RSignal; RRead; RTry; SBegin 3].

Lemma mailbox_safe_witness :
  ∃ st0 st, start 16 YQueue.lowest = Some st0 ∧ run (Queue0 := YQueue.yqueue_queue 16 YQueue.lowest) st0 ex_acts = Some st ∧
    ∃ rest, sent st = received st ++ rest.
Proof.
  destruct (mailbox_safe 16 YQueue.lowest (is_fresh (C := gset Z)) ltac:(lia) ex_acts)
    as (st0 & st & H1 & H2 & H3 & _).
  exists st0, st. exact (conj H1 (conj H2 H3)).
Defined.

Lemma mailbox_no_lost_wakeup_witness :
  match start 16 YQueue.lowest with
  | None => False
  | Some st0 =>
      match run (Queue0 := YQueue.yqueue_queue 16 YQueue.lowest) st0 ex_acts with
      | None => False
      | Some st => ∃ m', recv (Queue0 := YQueue.yqueue_queue 16 YQueue.lowest) false (mb st)
                         = Some (sent st !! length (received st), m')
      end
  end.
Proof.
  pose (X := match start 16 YQueue.lowest with
    | Some st0 => match run (Queue0 := YQueue.yqueue_queue 16 YQueue.lowest) st0 ex_acts with
                  | Some st => (locked st, due st, ph st) | None => (true, 0%nat, Idle) end
    | None => (true, 0%nat, Idle) end).
  assert (HX : X = (false, 0%nat, Idle)) by (vm_compute; reflexivity). unfold X in HX. clear X.
  destruct (start 16 YQueue.lowest) as [st0|] eqn:H0; [|discriminate].
  destruct (run (Queue0 := YQueue.yqueue_queue 16 YQueue.lowest) st0 ex_acts) as [st|] eqn:H1; [|discriminate].
  injection HX as Hl Hd Hp.
  exact (mailbox_no_lost_wakeup 16 YQueue.lowest (is_fresh (C := gset Z)) ltac:(lia) ex_acts st0 st H0 H1 Hl Hd Hp).
Defined.

End Mailbox.
