(* ===== verification/Array.v ===== *)
(** * Arrays of pipes

    [array_t] (src/array.hpp): a vector of pointers whose elements know their
    index, so that looking an element up and erasing it take constant time; the
    fair queue, the load balancer and the distributor keep their pipes in one.
    An element is the identity of a pipe ([Z]; the pointers libzmq puts in an
    array are never NULL), and the [_array_index] members of the elements are a
    map from identities.  Indexing out of the vector is undefined. *)

From S2P Require Import Prelude.

Module Array.

Record array := Arr { items : list Z; array_index : gmap Z nat }.

Definition empty : array := Arr [] ∅.

Definition size (a : array) : nat := length (items a).

Definition at_ (a : array) (i : nat) : option Z := items a !! i.

Definition push_back (x : Z) (a : array) : array :=
  Arr (items a ++ [x]) (<[x := size a]> (array_index a)).

Definition erase_at (i : nat) (a : array) : option array :=
  b ← last (items a);
  _ ← at_ a i;
  Some (Arr (removelast (<[i := b]> (items a))) (<[b := i]> (array_index a))).

Definition index (x : Z) (a : array) : option nat := array_index a !! x.

Definition erase (x : Z) (a : array) : option array := i ← index x a; erase_at i a.

Definition swap (i j : nat) (a : array) : option array :=
  xi ← at_ a i;
  xj ← at_ a j;
  Some (Arr (<[i := xj]> (<[j := xi]> (items a)))
            (<[xj := i]> (<[xi := j]> (array_index a)))).

(** ** The invariant: every element knows where it is. *)

Record ok (a : array) : Prop := {
  ok_nodup : NoDup (items a);
  ok_index i x : items a !! i = Some x → array_index a !! x = Some i }.

Lemma ok_empty : ok empty.
Proof. split; [constructor|done]. Qed.

Lemma ok_lookup a i x : ok a → x ∈ items a → array_index a !! x = Some i → items a !! i = Some x.
Proof.
  intros H [j Hj]%list_elem_of_lookup Hi. pose proof (ok_index _ H _ _ Hj). congruence.
Qed.

(** The transposition of two indices. *)
Definition transp (i j k : nat) : nat :=
  if decide (k = i) then j else if decide (k = j) then i else k.

Lemma transp_inv i j k : transp i j (transp i j k) = k.
Proof. unfold transp. repeat case_decide; congruence. Qed.

Lemma transp_other i j k : k ≠ i → k ≠ j → transp i j k = k.
Proof. intros. unfold transp. by rewrite !decide_False. Qed.
Lemma transp_l i j : transp i j i = j.
Proof. unfold transp. by rewrite decide_True. Qed.
Lemma transp_r i j : transp i j j = i.
Proof. unfold transp. by case_decide; [|rewrite decide_True]. Qed.

Lemma transp_lt i j k n : (i < n)%nat → (j < n)%nat → (transp i j k < n)%nat ↔ (k < n)%nat.
Proof. intros. unfold transp. repeat case_decide; lia. Qed.

(** What a permutation of the positions does. *)
Record moved (f : nat → nat) (a a' : array) : Prop := {
  mv_ok : ok a';
  mv_at k : items a' !! k = items a !! f k;
  mv_size : size a' = size a;
  mv_elem x : x ∈ items a' ↔ x ∈ items a }.

Lemma swap_spec a i j : ok a → (i < size a)%nat → (j < size a)%nat →
  ∃ a', swap i j a = Some a' ∧ moved (transp i j) a a'.
Proof.
  unfold size. intros H Hi Hj. destruct (lookup_lt_is_Some_2 _ _ Hi) as [xi Hxi].
  destruct (lookup_lt_is_Some_2 _ _ Hj) as [xj Hxj]. unfold swap, at_. rewrite Hxi, Hxj. cbn [mbind option_bind].
  eexists. split; [done|].
  assert (Hat : ∀ k, (<[i:=xj]> (<[j:=xi]> (items a))) !! k = items a !! transp i j k).
  { intros k. unfold transp. case_decide as Hki; [subst k|case_decide as Hkj; [subst k|]].
    - rewrite list_lookup_insert_eq by (by rewrite length_insert). done.
    - rewrite list_lookup_insert_ne by done. by rewrite list_lookup_insert_eq.
    - by rewrite !list_lookup_insert_ne. }
  split; cbn [items array_index].
  - split; cbn [items array_index].
    + apply NoDup_alt. intros k l x Hk Hl. rewrite Hat in Hk, Hl.
      pose proof (NoDup_lookup _ _ _ _ (ok_nodup _ H) Hk Hl) as Heq.
      apply (f_equal (transp i j)) in Heq. by rewrite !transp_inv in Heq.
    + intros k x Hk. rewrite Hat in Hk. pose proof (ok_index _ H _ _ Hk) as Hx.
      pose proof (ok_index _ H _ _ Hxi) as Hi'. pose proof (ok_index _ H _ _ Hxj) as Hj'.
      destruct (decide (x = xj)) as [->|Hnj].
      * rewrite lookup_insert_eq. f_equal. assert (transp i j k = j) as Ht by congruence.
        rewrite <- (transp_inv i j k), Ht, transp_r. done.
      * rewrite lookup_insert_ne by done. destruct (decide (x = xi)) as [->|Hni].
        -- rewrite lookup_insert_eq. f_equal. assert (transp i j k = i) as Ht by congruence.
           rewrite <- (transp_inv i j k), Ht, transp_l. done.
        -- rewrite lookup_insert_ne by done. rewrite Hx. f_equal. unfold transp in *.
           repeat case_decide; congruence.
  - apply Hat.
  - unfold size. cbn [items]. by rewrite !length_insert.
  - intros x. rewrite !list_elem_of_lookup. split; intros [k Hk].
    + rewrite Hat in Hk. eauto.
    + exists (transp i j k). by rewrite Hat, transp_inv.
Qed.

Lemma swap_moved a i j a' : ok a → swap i j a = Some a' → moved (transp i j) a a'.
Proof.
  intros Hok Hs. assert ((i < size a)%nat ∧ (j < size a)%nat) as [Hi Hj].
  { unfold swap, at_ in Hs. destruct (items a !! i) as [xi|] eqn:Hi; [|done]. cbn [mbind option_bind] in Hs.
    destruct (items a !! j) as [xj|] eqn:Hj; [|done]. split; by eapply lookup_lt_Some. }
  destruct (swap_spec a i j Hok Hi Hj) as (a2 & Heq & Hm). congruence.
Qed.

Lemma push_back_spec a x : ok a → x ∉ items a →
  ok (push_back x a) ∧ items (push_back x a) = items a ++ [x].
Proof.
  intros H Hx. split; [|done]. split; cbn [push_back items array_index].
  - apply NoDup_app. split_and!; [apply H|set_solver|apply NoDup_singleton].
  - intros i y Hy. apply lookup_app_Some in Hy as [Hy|[Hge Hy]].
    + rewrite lookup_insert_ne; [by apply H|]. intros ->. by apply Hx, list_elem_of_lookup; exists i.
    + apply list_lookup_singleton_Some in Hy as [Hi <-]. rewrite lookup_insert_eq. f_equal. unfold size. lia.
Qed.

Lemma removelast_take {A} (l : list A) : removelast l = take (pred (length l)) l.
Proof.
  destruct l as [|x l _] using rev_ind; [done|]. rewrite removelast_last, length_app. cbn [length].
  replace (pred (length l + 1)) with (length l) by lia. by rewrite take_app_length.
Qed.

(** Erasing [x] moves the last element into its place. *)
Lemma erase_spec a x i : ok a → items a !! i = Some x →
  ∃ a', erase x a = Some a' ∧ ok a' ∧ size a' = pred (size a) ∧
    (∀ k, (k < pred (size a))%nat → items a' !! k = items a !! (if decide (k = i) then pred (size a) else k)) ∧
    (∀ y, y ∈ items a' ↔ y ∈ items a ∧ y ≠ x).
Proof.
  intros H Hi. pose proof (lookup_lt_Some _ _ _ Hi) as Hlt. unfold erase, index.
  rewrite (ok_index _ H _ _ Hi). cbn [mbind option_bind]. unfold erase_at, at_.
  rewrite last_lookup. destruct (lookup_lt_is_Some_2 (items a) (pred (length (items a)))) as [b Hb]; [lia|].
  rewrite Hb, Hi. cbn [mbind option_bind]. eexists. split; [done|].
  set (l := removelast _).
  assert (Hl : length l = pred (size a)).
  { unfold l. rewrite removelast_take, length_take, length_insert. unfold size. lia. }
  assert (Hat : ∀ k, (k < pred (size a))%nat → l !! k = items a !! (if decide (k = i) then pred (size a) else k)).
  { intros k Hk. unfold l. rewrite removelast_take, lookup_take_lt by (rewrite length_insert; done).
    case_decide as Hki; [subst k|].
    - rewrite list_lookup_insert_eq by done. by rewrite <- Hb.
    - by rewrite list_lookup_insert_ne. }
  assert (Hat' : ∀ k y, l !! k = Some y → (k < pred (size a))%nat ∧ items a !! (if decide (k = i) then pred (size a) else k) = Some y).
  { intros k y Hk. pose proof (lookup_lt_Some _ _ _ Hk) as Hkl. rewrite Hl in Hkl. split; [done|]. by rewrite <- Hat. }
  assert (Hinj : ∀ k m, (if decide (k = i) then pred (size a) else k) = (if decide (m = i) then pred (size a) else m) →
    (k < pred (size a))%nat → (m < pred (size a))%nat → k = m).
  { intros k m Heq Hk Hm. repeat case_decide; lia. }
  split_and!; cbn [items]; [split; cbn [items array_index]|done|done|].
  - apply NoDup_alt. intros k m y Hk Hm. apply Hat' in Hk as [Hk1 Hk2]. apply Hat' in Hm as [Hm1 Hm2].
    apply (Hinj k m); [|done..]. by eapply (NoDup_lookup _ _ _ _ (ok_nodup _ H)).
  - intros k y Hk. apply Hat' in Hk as [Hk1 Hk2]. destruct (decide (y = b)) as [->|Hne].
    + rewrite lookup_insert_eq. f_equal. case_decide as Hki; [done|].
      pose proof (NoDup_lookup _ _ _ _ (ok_nodup _ H) Hk2 Hb). unfold size in Hk1. lia.
    + rewrite lookup_insert_ne by done. case_decide as Hki; [unfold size in Hk2; congruence|]. by apply H.
  - intros y. rewrite !list_elem_of_lookup. split.
    + intros [k Hk]. apply Hat' in Hk as [Hk1 Hk2]. split; [eauto|]. intros ->.
      pose proof (NoDup_lookup _ _ _ _ (ok_nodup _ H) Hk2 Hi) as Heq. case_decide; lia.
    + intros [[k Hk] Hyx]. pose proof (lookup_lt_Some _ _ _ Hk) as Hkl.
      destruct (decide (k = pred (size a))) as [->|Hkn].
      * exists i. assert (i ≠ pred (size a)) by congruence. rewrite Hat by (unfold size in *; lia).
        by rewrite decide_True.
      * exists k. rewrite Hat by (unfold size in *; lia). rewrite decide_False; [done|]. intros ->. congruence.
Qed.

(** ** The elements before a bound

    The patterns keep the pipes in some state before an index: the active ones,
    the matching ones. *)

Definition within (a : array) (n : nat) (x : Z) : Prop := ∃ k, (k < n)%nat ∧ items a !! k = Some x.

Lemma within_take a n x : within a n x ↔ x ∈ take n (items a).
Proof.
  rewrite list_elem_of_lookup. split.
  - intros (k & Hk & Hx). exists k. by rewrite lookup_take_lt.
  - intros [k Hk]. apply lookup_take_Some in Hk as [Hk Hlt]. by exists k.
Qed.

Lemma within_elem a n x : within a n x → x ∈ items a.
Proof. intros (k & _ & Hk). by eapply list_elem_of_lookup_2. Qed.

Lemma within_mono a n m x : (n ≤ m)%nat → within a n x → within a m x.
Proof. intros Hnm (k & Hk & Hx). exists k. split; [lia|done]. Qed.

Lemma within_0 a x : ¬ within a 0 x.
Proof. intros (k & Hk & _). lia. Qed.

Lemma within_all a x : within a (size a) x ↔ x ∈ items a.
Proof.
  split; [apply within_elem|]. intros [k Hk]%list_elem_of_lookup. exists k. split; [by apply lookup_lt_Some in Hk|done].
Qed.

Lemma within_index a n x k : ok a → items a !! k = Some x → within a n x ↔ (k < n)%nat.
Proof.
  intros H Hk. split; [|by exists k]. intros (j & Hj & Hx).
  by rewrite (NoDup_lookup _ _ _ _ (ok_nodup _ H) Hk Hx).
Qed.

(** A transposition on one side of the bound changes nothing. *)
Lemma within_same_side a a' i j n x : moved (transp i j) a a' →
  ((i < n)%nat ↔ (j < n)%nat) → within a' n x ↔ within a n x.
Proof.
  intros Hmv Hij. assert (Ht : ∀ k, (k < n)%nat → (transp i j k < n)%nat).
  { intros k Hk. unfold transp. repeat case_decide; subst; tauto || lia. }
  split; intros (k & Hk & Hx); exists (transp i j k); (split; [auto|]).
  - by rewrite (mv_at _ _ _ Hmv) in Hx.
  - by rewrite (mv_at _ _ _ Hmv), transp_inv.
Qed.

(** Moving an element to the last place before the bound, and the bound before it. *)
Lemma within_demote a a' i n x y : ok a → moved (transp i (pred n)) a a' → (i < n)%nat →
  items a !! i = Some x → within a' (pred n) y ↔ within a n y ∧ y ≠ x.
Proof.
  intros H Hmv Hi Hx. assert (Hxp : items a' !! pred n = Some x) by (by rewrite (mv_at _ _ _ Hmv), transp_r).
  assert (Hs : within a' n y ↔ within a n y) by (apply (within_same_side a a' i (pred n)); [done|lia]).
  split.
  - intros Hy. split; [apply Hs; eapply within_mono; [|done]; lia|]. intros ->.
    apply (within_index a' _ _ (pred n) (mv_ok _ _ _ Hmv) Hxp) in Hy. lia.
  - intros [(k & Hk & Hy)%Hs Hne]. exists k. split; [|done]. assert (k ≠ pred n) by congruence. lia.
Qed.

(** Moving an element to the first place after the bound, and the bound after it. *)
Lemma within_promote a a' i n x y : ok a → moved (transp i n) a a' → (n ≤ i)%nat →
  items a !! i = Some x → within a' (S n) y ↔ within a n y ∨ y = x.
Proof.
  intros H Hmv Hi Hx. assert (Hxp : items a' !! n = Some x) by (by rewrite (mv_at _ _ _ Hmv), transp_r).
  assert (Hs : within a' n y ↔ within a n y) by (apply (within_same_side a a' i n); [done|lia]).
  rewrite <- Hs. split.
  - intros (k & Hk & Hy). destruct (decide (k = n)) as [->|]; [right; congruence|left]. exists k. split; [lia|done].
  - intros [(k & Hk & Hy)| ->]; [exists k|exists n]; (split; [lia|done]).
Qed.
End Array.
