(* ===== verification/PipeIface.v ===== *)
(** * What a socket pattern sees of its pipes

    The fair queue, the load balancer and the distributor read from and write to
    pipes ([pipe_t], src/pipe.cpp) through a few operations.  The pipes'
    state is in a world [W] that the operations pass on; a message of type [M]
    is one part, [is_more] its [more] flag.  The laws are what the patterns rely
    on: reading takes the first message that can be read; a successful write
    appends to the messages written, a failed one changes nothing; [rollback]
    removes the parts of an unfinished message. *)

From S2P Require Import Prelude.

(** ** Sequences of whole messages *)

Section whole.
Context {M : Type} (is_more : M → bool).

(** The parts end with the end of a message. *)
Definition whole (l : list M) : Prop := ∀ m, last l = Some m → is_more m = false.

Lemma whole_tail m l : whole (m :: l) → whole l.
Proof. intros H x Hx. apply H. destruct l; [done|]. by rewrite last_cons_cons. Qed.

Lemma whole_more m l : whole (m :: l) → is_more m = true → l ≠ [].
Proof. intros H Hm ->. by rewrite (H m) in Hm. Qed.

Lemma whole_app l1 l2 : whole l1 → whole l2 → whole (l1 ++ l2).
Proof.
  intros H1 H2 m. rewrite last_app. destruct (last l2) as [x|] eqn:Hx; [|apply H1].
  intros [= ->]. by apply H2.
Qed.

Lemma whole_nil : whole [].
Proof. done. Qed.

Lemma whole_snoc l m : is_more m = false → whole (l ++ [m]).
Proof. intros Hm m'. rewrite last_snoc. by intros [= <-]. Qed.

(** The parts of an unfinished message. *)
Definition unfinished (l : list M) : Prop := Forall (λ m, is_more m = true) l.
End whole.

(** ** Reading *)

Class InPipes (M W : Type) := {
  in_read : Z → W → option M * W;
  in_check_read : Z → W → bool * W }.

(** [content w p]: the messages [p] can be read for now. *)
Class InPipesLaws (M W : Type) `{InPipes M W} := {
  content : W → Z → list M;
  in_read_res p w : (in_read p w).1 = head (content w p);
  in_read_content p w q :
    content (in_read p w).2 q = if decide (q = p) then tail (content w q) else content w q;
  in_check_read_res p w : (in_check_read p w).1 = true ↔ content w p ≠ [];
  in_check_read_content p w q : content (in_check_read p w).2 q = content w q }.

(** ** Writing *)

Class OutPipes (M W : Type) := {
  out_check_write : Z → W → bool * W;
  out_write : Z → M → W → bool * W;
  out_rollback : Z → W → W;
  out_flush : Z → W → W;
  out_check_hwm : Z → W → bool }.

(** [written w p]: the parts written to [p] and not rolled back. *)
Class OutPipesLaws (M W : Type) `{OutPipes M W} (is_more : M → bool) := {
  written : W → Z → list M;
  out_check_write_written p w q : written (out_check_write p w).2 q = written w q;
  out_write_written p m w q :
    written (out_write p m w).2 q =
    if (out_write p m w).1 && bool_decide (q = p) then written w q ++ [m] else written w q;
  out_rollback_written p w l s :
    written w p = l ++ s → whole is_more l → unfinished is_more s →
    written (out_rollback p w) p = l;
  out_rollback_other p w q : q ≠ p → written (out_rollback p w) q = written w q;
  out_flush_written p w q : written (out_flush p w) q = written w q }.

(** What a call that writes two parts relies on besides: when nothing happens to
    the pipe between the two, a pipe that took a part which is not the last of
    its message takes the next part ([write_next] in Pipe.v).  Later it may refuse. *)
Class OutPipesNext (M W : Type) `{!OutPipes M W} (is_more : M → bool) :=
  out_write_next p m m' w :
    is_more m = true → (out_write p m w).1 = true → (out_write p m' (out_write p m w).2).1 = true.

(** ** Both directions

    The two directions of a pipe are independent: writing does not change what
    can be read nor reading what was written. *)
Class DuplexPipes (M W : Type) (is_more : M → bool)
    `{!InPipes M W} `{!OutPipes M W} `{!InPipesLaws M W} `{!OutPipesLaws M W is_more} := {
  in_read_written p w q : written (in_read p w).2 q = written w q;
  in_check_read_written p w q : written (in_check_read p w).2 q = written w q;
  out_check_write_content p w q : content (out_check_write p w).2 q = content w q;
  out_write_content p m w q : content (out_write p m w).2 q = content w q;
  out_rollback_content p w q : content (out_rollback p w) q = content w q;
  out_flush_content p w q : content (out_flush p w) q = content w q }.

(** ** Ending a pipe

    [pipe_t::terminate]: the parts of an unfinished message are rolled back;
    what the pipe can still read stays or is given up. *)
Class TermPipes (W : Type) := { pipe_terminate : Z → bool → W → W }.

Class TermPipesLaws (M W : Type) (is_more : M → bool)
    `{!InPipes M W} `{!OutPipes M W} `{!InPipesLaws M W} `{!OutPipesLaws M W is_more} `{!TermPipes W} := {
  term_content p d w q :
    content (pipe_terminate p d w) q = content w q ∨ q = p ∧ content (pipe_terminate p d w) q = [];
  term_written p d w q : q ≠ p → written (pipe_terminate p d w) q = written w q;
  term_unfinished p d w :
    ∃ s, unfinished is_more s ∧ written w p = written (pipe_terminate p d w) p ++ s ∧
         whole is_more (written (pipe_terminate p d w) p) }.

(** ** Pipes as lists

    The simplest pipes: each is the list of the parts written to it, a part its
    value and its [more] flag; pipe [0] refuses to start a message. *)

Module Lists.
Definition lists : Type := Z → list (Z * bool).

Definition in_middle (l : list (Z * bool)) : bool :=
  match last l with Some m => snd m | None => false end.

Definition drop_unfinished (l : list (Z * bool)) : list (Z * bool) :=
  foldr (λ (m : Z * bool) (acc : list (Z * bool)),
           if decide (acc = []) then (if snd m then [] else [m]) else m :: acc) [] l.

#[export] Instance lists_out : OutPipes (Z * bool) lists := {|
  out_check_write p w := (negb (bool_decide (p = 0)), w);
  out_write p m w :=
    if bool_decide (p = 0) && negb (in_middle (w p)) then (false, w)
    else (true, λ q, if decide (q = p) then w q ++ [m] else w q);
  out_rollback p w := λ q, if decide (q = p) then drop_unfinished (w q) else w q;
  out_flush p w := w;
  out_check_hwm p w := negb (bool_decide (p = 0)) |}.

Lemma drop_unfinished_app l s : whole snd l → unfinished snd s → drop_unfinished (l ++ s) = l.
Proof.
  intros Hl Hs. assert (Hnil : drop_unfinished s = []).
  { induction Hs as [|m s Hm _ IH]; [done|]. cbn. fold (drop_unfinished s). rewrite IH, decide_True by done. by rewrite Hm. }
  induction l as [|x l IH]; [done|]. cbn. fold (drop_unfinished (l ++ s)).
  destruct (decide (l = [])) as [->|Hne].
  - cbn [app]. rewrite Hnil, decide_True by done. by rewrite (Hl x eq_refl).
  - rewrite IH; [by rewrite decide_False|]. intros m Hm. apply Hl. destruct l; [done|]. by rewrite last_cons_cons.
Qed.

#[export, refine] Instance lists_out_laws : OutPipesLaws (Z * bool) lists snd := {| written w p := w p |}.
Proof.
  - done.
  - intros p m w q. cbn. destruct (_ && _); cbn; [done|]. by case_decide; case_bool_decide.
  - intros p w l s Hw Hl Hs. cbn. rewrite decide_True by done. rewrite Hw. by apply drop_unfinished_app.
  - intros p w q Hq. cbn. by rewrite decide_False.
  - done.
Defined.

#[export] Instance lists_next : OutPipesNext (Z * bool) lists snd.
Proof.
  intros p m m' w Hm. cbn. destruct (bool_decide (p = 0)) eqn:Hp; cbn [andb]; [|done].
  destruct (in_middle (w p)); cbn [negb]; [|done]. intros _. cbn. rewrite decide_True by done.
  unfold in_middle at 1. by rewrite last_snoc, Hm.
Qed.
End Lists.

(** ** Pipes as pairs of lists

    Both directions, for any type of messages: what can be read from each pipe
    and what was written to it.  Pipe [0] refuses to start a message; a negative
    pipe has reached its high-water mark but still takes messages. *)

Module Duo.
Section duo.
Context {M : Type} (is_more : M → bool).

Record duo := Two { incoming : Z → list M; outgoing : Z → list M }.

Definition starts (l : list M) : bool :=
  match last l with Some m => negb (is_more m) | None => true end.

Definition finished (l : list M) : list M :=
  foldr (λ m acc, match acc with [] => if is_more m then [] else [m] | _ => m :: acc end) [] l.

Definition upd (p : Z) (l : list M) (f : Z → list M) : Z → list M := λ q, if decide (q = p) then l else f q.

#[export] Instance duo_in : InPipes M duo := {|
  in_read p w := (head (incoming w p), Two (upd p (tail (incoming w p)) (incoming w)) (outgoing w));
  in_check_read p w := (match incoming w p with [] => false | _ => true end, w) |}.

#[export] Instance duo_out : OutPipes M duo := {|
  out_check_write p w := (negb (p =? 0), w);
  out_write p m w :=
    if (p =? 0) && starts (outgoing w p) then (false, w)
    else (true, Two (incoming w) (upd p (outgoing w p ++ [m]) (outgoing w)));
  out_rollback p w := Two (incoming w) (upd p (finished (outgoing w p)) (outgoing w));
  out_flush p w := w;
  out_check_hwm p w := 0 <? p |}.

#[export, refine] Instance duo_in_laws : InPipesLaws M duo := {| content w p := incoming w p |}.
Proof.
  - done.
  - intros p w q. cbn. unfold upd. case_decide; [by subst|done].
  - intros p w. cbn. destruct (incoming w p); split; congruence.
  - done.
Defined.

Lemma finished_app l s : whole is_more l → unfinished is_more s → finished (l ++ s) = l.
Proof.
  intros Hl Hs. assert (Hnil : finished s = []).
  { induction Hs as [|m s Hm _ IH]; [done|]. cbn. fold (finished s). by rewrite IH, Hm. }
  induction l as [|x l IH]; [done|]. cbn. fold (finished (l ++ s)).
  destruct l as [|y l].
  - cbn [app]. by rewrite Hnil, (Hl x eq_refl).
  - rewrite IH; [done|]. intros m Hm. apply Hl. by rewrite last_cons_cons.
Qed.

#[export, refine] Instance duo_out_laws : OutPipesLaws M duo is_more := {| written w p := outgoing w p |}.
Proof.
  - done.
  - intros p m w q. cbn. destruct (_ && _); cbn; [done|]. unfold upd. case_decide; [subst|].
    + by rewrite bool_decide_eq_true_2.
    + by rewrite bool_decide_eq_false_2.
  - intros p w l s Hw Hl Hs. cbn. unfold upd. rewrite decide_True by done. rewrite Hw. by apply finished_app.
  - intros p w q Hq. cbn. unfold upd. by rewrite decide_False.
  - done.
Defined.

#[export] Instance duo_duplex : DuplexPipes M duo is_more.
Proof.
  split; try done. intros p m w q. cbn. by destruct (_ && _).
Qed.

#[export] Instance duo_next : OutPipesNext M duo is_more.
Proof.
  intros p m m' w Hm. cbn. destruct (p =? 0) eqn:Hp; cbn [andb]; [|done].
  destruct (starts (outgoing w p)); [done|]. intros _. cbn. unfold upd. rewrite decide_True by done.
  unfold starts. by rewrite last_snoc, Hm.
Qed.

(** A terminated pipe gives up what it could read unless [delay] is set. *)
#[export] Instance duo_term : TermPipes duo := {|
  pipe_terminate p delay w :=
    Two (if delay : bool then incoming w else upd p [] (incoming w)) (upd p (finished (outgoing w p)) (outgoing w)) |}.

Lemma finished_rest l : ∃ s, unfinished is_more s ∧ l = finished l ++ s ∧ whole is_more (finished l).
Proof.
  induction l as [|m l (s & Hs & Heq & Hw)]; [exists []; split_and!; [constructor|done..]|]. cbn. fold (finished l).
  destruct (finished l) as [|y f] eqn:Hf.
  - destruct (is_more m) eqn:Hm.
    + exists (m :: l). split_and!; [|done..]. constructor; [done|]. by rewrite Heq.
    + exists l. split_and!; [by rewrite Heq|done|]. intros x [= <-]. done.
  - exists s. split_and!; [done| |].
    + cbn [app]. f_equal. exact Heq.
    + intros x. rewrite last_cons_cons. apply Hw.
Qed.

#[export] Instance duo_term_laws : TermPipesLaws M duo is_more.
Proof.
  split.
  - intros p d w q. cbn. destruct d; [by left|]. unfold upd. case_decide; [by right|by left].
  - intros p d w q Hq. cbn. unfold upd. by rewrite decide_False.
  - intros p d w. cbn. unfold upd. rewrite decide_True by done. apply finished_rest.
Qed.
End duo.
End Duo.
