(* ===== verification/Fq.v ===== *)
(** * Fair queueing

    [fq_t] (src/fq.cpp) reads from a set of pipes in turn, whole messages at a
    time.  The pipes are behind the interface [InPipes] ([pipe_t::read] and
    [pipe_t::check_read]); the world [W] holds their state, and the laws say
    that reading takes the first message of a pipe's content.  The theorems: no
    assertion fails, the parts of a message come from one pipe and in sequence,
    EAGAIN is returned only when every active pipe is empty, and a pipe with a
    message waits for at most one message from each other active pipe. *)

From S2P Require Import Prelude Array PipeIface.
Import Array.

Module Fq.
Section fq.
Context {M W : Type} `{!InPipes M W} (is_more : M → bool).

(** The data members. *)
Record fq := FQ {
  pipes : array;
  active : nat;         (* the active pipes are the first ones *)
  last_in : option Z;
  current : nat;        (* the pipe to read next *)
  more : bool }.        (* in the middle of a message *)

Definition fq_new : fq := FQ empty 0 None 0 false.

Definition attach (p : Z) (f : fq) : option fq :=
  let ps := push_back p (pipes f) in
  ps ← swap (active f) (size ps - 1) ps;
  Some (FQ ps (S (active f)) (last_in f) (current f) (more f)).

Definition pipe_terminated (p : Z) (f : fq) : option fq :=
  i ← index p (pipes f);
  '(ps, ac, cur) ←
    (if decide (i < active f)%nat then
       let ac := pred (active f) in
       ps ← swap i ac (pipes f);
       Some (ps, ac, if decide (current f = ac) then 0%nat else current f)
     else Some (pipes f, active f, current f));
  ps ← erase p ps;
  Some (FQ ps ac (if decide (last_in f = Some p) then None else last_in f) cur (more f)).

Definition activated (p : Z) (f : fq) : option fq :=
  i ← index p (pipes f);
  ps ← swap i (active f) (pipes f);
  Some (FQ ps (S (active f)) (last_in f) (current f) (more f)).

(** The current pipe has nothing: another active pipe takes its place. *)
Definition deactivate (f : fq) : option fq :=
  let ac := pred (active f) in
  ps ← swap (current f) ac (pipes f);
  Some (FQ ps ac (last_in f) (if decide (current f = ac) then 0%nat else current f) (more f)).

(** [while (_active > 0)]: every round that does not return deactivates a pipe. *)
Fixpoint recv_loop (fuel : nat) (f : fq) (w : W) : option (option (M * Z) * fq * W) :=
  match fuel with
  | O => None
  | S fuel =>
      if decide (active f = 0)%nat then Some (None, f, w)
      else
        p ← at_ (pipes f) (current f);
        let '(res, w) := in_read p w in
        match res with
        | Some m =>
            if is_more m then
              Some (Some (m, p), FQ (pipes f) (active f) (last_in f) (current f) true, w)
            else
              Some (Some (m, p),
                    FQ (pipes f) (active f) (Some p) ((S (current f)) mod active f)%nat false, w)
        | None =>
            _ ← zmq_assert (negb (more f));
            f ← deactivate f;
            recv_loop fuel f w
        end
  end.

(** [recvpipe]: the message and the pipe it came from; [None] is -1 with
    EAGAIN and an empty message. *)
Definition recvpipe (f : fq) (w : W) : option (option (M * Z) * fq * W) :=
  recv_loop (S (active f)) f w.

Fixpoint has_in_loop (fuel : nat) (f : fq) (w : W) : option (bool * fq * W) :=
  match fuel with
  | O => None
  | S fuel =>
      if decide (active f = 0)%nat then Some (false, f, w)
      else
        p ← at_ (pipes f) (current f);
        let '(res, w) := in_check_read p w in
        if res then Some (true, f, w)
        else f ← deactivate f; has_in_loop fuel f w
  end.

Definition has_in (f : fq) (w : W) : option (bool * fq * W) :=
  if more f then Some (true, f, w) else has_in_loop (S (active f)) f w.

(** ** The invariant *)

Context `{!InPipesLaws M W}.

Record inv (f : fq) (w : W) : Prop := {
  i_ok : ok (pipes f);
  i_active : (active f ≤ size (pipes f))%nat;
  i_current : (current f < active f)%nat ∨ current f = 0%nat;
  i_whole p : p ∈ items (pipes f) → whole is_more (content w p);
  i_more : more f = true → ∃ p, (current f < active f)%nat ∧
             items (pipes f) !! current f = Some p ∧ content w p ≠ [] }.

(** [p] is one of the active pipes. *)
Definition is_active (f : fq) (p : Z) : Prop :=
  ∃ k, (k < active f)%nat ∧ items (pipes f) !! k = Some p.

(** The number of other pipes to serve before [p]. *)
Definition rank (f : fq) (k : nat) : nat :=
  if decide (current f ≤ k)%nat then (k - current f)%nat else (k + active f - current f)%nat.

Lemma fq_inv_new w : inv fq_new w.
Proof. split; cbn; [apply ok_empty|lia|by right|set_solver|done]. Qed.

Lemma fq_current_at f w : inv f w → active f ≠ 0%nat →
  (current f < active f)%nat ∧ ∃ p, items (pipes f) !! current f = Some p.
Proof.
  intros H Ha. pose proof (i_active _ _ H). destruct (i_current _ _ H) as [Hc|Hc].
  - split; [done|]. apply lookup_lt_is_Some_2. unfold size in *. lia.
  - rewrite Hc. split; [lia|]. apply lookup_lt_is_Some_2. unfold size in *. lia.
Qed.

(** Deactivating the current pipe. *)
Lemma deactivate_spec f w : inv f w → active f ≠ 0%nat → more f = false →
  ∃ f', deactivate f = Some f' ∧ inv f' w ∧ active f' = pred (active f) ∧ more f' = false ∧
    moved (transp (current f) (pred (active f))) (pipes f) (pipes f') ∧
    (∀ p k, (k < active f)%nat → items (pipes f) !! k = Some p → k ≠ current f →
      ∃ k', (k' < active f')%nat ∧ items (pipes f') !! k' = Some p ∧ (rank f' k' ≤ rank f k)%nat).
Proof.
  intros H Ha Hm. destruct (fq_current_at _ _ H Ha) as [Hc [p0 Hp0]]. pose proof (i_active _ _ H) as Hac.
  destruct (swap_spec (pipes f) (current f) (pred (active f)) (i_ok _ _ H)) as (ps & Hps & Hmv); [lia..|].
  unfold deactivate. rewrite Hps. cbn [mbind option_bind]. eexists. split; [done|].
  split_and!; cbn [active more pipes]; [|done|done|done|].
  - split; cbn [pipes active current more].
    + apply Hmv.
    + rewrite (mv_size _ _ _ Hmv). lia.
    + case_decide; [by right|left; lia].
    + intros p Hp. apply (i_whole _ _ H). by apply (mv_elem _ _ _ Hmv).
    + rewrite Hm. done.
  - intros p k Hk Hpk Hkc. exists (transp (current f) (pred (active f)) k).
    rewrite (mv_at _ _ _ Hmv), transp_inv. split_and!; [|done|].
    + unfold transp. rewrite decide_False by done. case_decide; lia.
    + unfold rank, transp. cbn [current active]. rewrite (decide_False (P := k = current f)) by done.
      repeat case_decide; lia.
Qed.

Lemma recv_loop_S n f w :
  recv_loop (S n) f w =
  if decide (active f = 0)%nat then Some (None, f, w)
  else
    p ← at_ (pipes f) (current f);
    let '(res, w) := in_read p w in
    match res with
    | Some m =>
        if is_more m then
          Some (Some (m, p), FQ (pipes f) (active f) (last_in f) (current f) true, w)
        else
          Some (Some (m, p), FQ (pipes f) (active f) (Some p) ((S (current f)) mod active f)%nat false, w)
    | None => _ ← zmq_assert (negb (more f)); f ← deactivate f; recv_loop n f w
    end.
Proof. done. Qed.

Lemma recv_loop_spec n : ∀ f w, inv f w → active f = n →
  ∃ r f' w', recv_loop (S n) f w = Some (r, f', w') ∧ inv f' w' ∧
    (∀ q, q ∈ items (pipes f') ↔ q ∈ items (pipes f)) ∧
    match r with
    | Some (m, p) =>
        is_active f p ∧ is_active f' p ∧ content w p = m :: content w' p ∧ (∀ q, q ≠ p → content w' q = content w q) ∧
        more f' = is_more m ∧ (is_more m = true → items (pipes f') !! current f' = Some p) ∧
        (more f = true → items (pipes f) !! current f = Some p) ∧
        (∀ q k, q ≠ p → (k < active f)%nat → items (pipes f) !! k = Some q → content w q ≠ [] →
           ∃ k', (k' < active f')%nat ∧ items (pipes f') !! k' = Some q ∧
             (if is_more m then rank f' k' ≤ rank f k else rank f' k' < rank f k)%nat)
    | None =>
        (∀ q, is_active f q → content w q = []) ∧ (∀ q, content w' q = content w q) ∧
        more f = false ∧ more f' = false ∧ active f' = 0%nat
    end.
Proof.
  induction n as [|n IH]; intros f w H Hn; rewrite recv_loop_S.
  - rewrite decide_True by done. assert (more f = false).
    { destruct (more f) eqn:E; [|done]. destruct (i_more _ _ H E) as (p & ? & _). lia. }
    exists None, f, w. split_and!; try done. intros q (k & Hk & _). lia.
  - rewrite decide_False by lia. destruct (fq_current_at _ _ H ltac:(lia)) as [Hc [p Hp]].
    unfold at_. rewrite Hp. cbn [mbind option_bind].
    pose proof (in_read_res p w) as Hres. pose proof (in_read_content p w) as Hcont.
    assert (Hpin : p ∈ items (pipes f)) by (by eapply list_elem_of_lookup_2).
    destruct (in_read p w) as [res w1]. cbn [fst snd] in *. subst res.
    destruct (content w p) as [|m l] eqn:Hl; cbn [head].
    + assert (Hm : more f = false).
      { destruct (more f) eqn:E; [|done]. destruct (i_more _ _ H E) as (p' & ? & Hp' & Hne). congruence. }
      rewrite Hm. cbn [negb zmq_assert mbind option_bind].
      assert (Hsame : ∀ q, content w1 q = content w q).
      { intros q. rewrite Hcont. case_decide; [subst q; by rewrite Hl|done]. }
      destruct (deactivate_spec f w H ltac:(lia) Hm) as (f1 & -> & H1 & Ha1 & Hm1 & Hmv & Hrank).
      cbn [mbind option_bind].
      assert (H1' : inv f1 w1).
      { destruct H1. split; try done.
        - intros q Hq. rewrite Hsame. auto.
        - rewrite Hm1. done. }
      destruct (IH f1 w1 H1' ltac:(lia)) as (r & f' & w' & -> & Hinv' & Hitems & Hr).
      exists r, f', w'. split_and!; [done..| |].
      { intros q. rewrite Hitems. apply (mv_elem _ _ _ Hmv). }
      assert (Hact1 : ∀ q, is_active f1 q → is_active f q).
      { intros q (k & Hk & Hq). rewrite (mv_at _ _ _ Hmv) in Hq. eexists. split; [|done].
        apply transp_lt; lia. }
      destruct r as [[m q0]|].
      * destruct Hr as (Hq0 & Hq0' & Hcq0 & Hoth & Hmore & Hcur & Hcont1 & Hrk).
        split_and!; [auto|done|by rewrite <- Hsame|intros q Hq; rewrite Hoth by done; apply Hsame|done..|].
        intros q k Hq Hk Hqk Hne. assert (k ≠ current f) by (intros ->; congruence).
        destruct (Hrank q k Hk Hqk ltac:(done)) as (k1 & Hk1 & Hqk1 & Hle).
        destruct (Hrk q k1 Hq Hk1 Hqk1 ltac:(by rewrite Hsame)) as (k2 & Hk2 & Hqk2 & Hlt).
        exists k2. split_and!; [done..|]. destruct (is_more m); lia.
      * destruct Hr as (Hempty & Hcw & Hmf & Hmf' & Haf). split_and!; [|intros q; by rewrite Hcw, Hsame|done..].
        intros q (k & Hk & Hq). destruct (decide (k = current f)) as [->|Hne]; [congruence|].
        destruct (Hrank q k Hk Hq Hne) as (k' & Hk' & Hq' & _).
        rewrite <- Hsame. apply Hempty. by exists k'.
    + assert (Hw : whole is_more (m :: l)) by (rewrite <- Hl; by apply (i_whole _ _ H)).
      assert (Hp1 : content w1 p = l) by (by rewrite Hcont, decide_True, Hl).
      assert (Hoth : ∀ q, q ≠ p → content w1 q = content w q) by (intros q Hq; by rewrite Hcont, decide_False).
      assert (Hwh : ∀ q, q ∈ items (pipes f) → whole is_more (content w1 q)).
      { intros q Hq. destruct (decide (q = p)) as [->|Hne]; [rewrite Hp1; by eapply whole_tail|].
        rewrite Hoth by done. by apply (i_whole _ _ H). }
      assert (Hact : is_active f p) by (by exists (current f)).
      destruct (is_more m) eqn:Hmm; do 3 eexists; (split; [done|]).
      * split_and!; try done; cbn [pipes active current more].
        -- destruct H. split; cbn [pipes active current more]; try done. intros _. exists p.
           split_and!; [done..|]. rewrite Hp1. by eapply whole_more.
        -- by rewrite Hp1.
        -- intros q k Hq Hk Hqk Hne. exists k. split_and!; [done..|]. by rewrite Hmm.
      * split_and!; try done; cbn [pipes active current more].
        -- destruct H. split; cbn [pipes active current more]; try done.
           left. apply Nat.mod_upper_bound. lia.
        -- by rewrite Hp1.
        -- congruence.
        -- intros q k Hq Hk Hqk Hne. exists k. split_and!; [done..|]. rewrite Hmm.
           assert (k ≠ current f) by congruence. unfold rank. cbn [current active].
           destruct (decide (S (current f) = active f)) as [He|He].
           ++ rewrite He, Nat.Div0.mod_same. rewrite decide_True by lia. case_decide; lia.
           ++ rewrite Nat.mod_small by lia. repeat case_decide; lia.
Qed.

Lemma has_in_loop_spec n : ∀ f w, inv f w → active f = n → more f = false →
  ∃ r f' w', has_in_loop (S n) f w = Some (r, f', w') ∧ inv f' w' ∧ more f' = false ∧
    (∀ q, q ∈ items (pipes f') ↔ q ∈ items (pipes f)) ∧ (∀ q, content w' q = content w q) ∧
    (r = true ↔ ∃ q, is_active f q ∧ content w q ≠ []).
Proof.
  induction n as [|n IH]; intros f w H Hn Hm.
  - cbn [has_in_loop]. rewrite decide_True by done. exists false, f, w. split_and!; try done.
    split; [done|]. intros (q & (k & Hk & _) & _). lia.
  - destruct (fq_current_at _ _ H ltac:(lia)) as [Hc [p Hp]].
    assert (Heq : has_in_loop (S (S n)) f w =
      let '(res, w) := in_check_read p w in
      if res then Some (true, f, w) else f ← deactivate f; has_in_loop (S n) f w).
    { cbn [has_in_loop]. rewrite decide_False by lia. unfold at_. by rewrite Hp. }
    rewrite Heq. clear Heq. pose proof (in_check_read_res p w) as Hres. pose proof (in_check_read_content p w) as Hcont.
    destruct (in_check_read p w) as [res w1]. cbn [fst snd] in *.
    assert (H1 : inv f w1).
    { destruct H. split; try done; [intros q Hq; rewrite Hcont; auto|by rewrite Hm]. }
    destruct res.
    + exists true, f, w1. split_and!; try done. split; [|done]. intros _. exists p. split; [by exists (current f)|by apply Hres].
    + assert (Hempty : content w p = []).
      { destruct (content w p) eqn:E; [done|]. assert (false = true); [|done]. by apply Hres. }
      destruct (deactivate_spec f w1 H1 ltac:(lia) Hm) as (f1 & -> & Hf1 & Ha1 & Hm1 & Hmv & Hrank).
      cbn [mbind option_bind].
      destruct (IH f1 w1 Hf1 ltac:(lia) Hm1) as (r & f' & w' & -> & Hinv & Hm' & Hit & Hcw & Hr).
      exists r, f', w'. split_and!; try done.
      { intros q. rewrite Hit. apply (mv_elem _ _ _ Hmv). }
      { intros q. by rewrite Hcw. }
      rewrite Hr. split.
      * intros (q & (k & Hk & Hq) & Hne). exists q. split; [|by rewrite <- Hcont]. rewrite (mv_at _ _ _ Hmv) in Hq.
        eexists. split; [|done]. apply transp_lt; lia.
      * intros (q & (k & Hk & Hq) & Hne). exists q. split; [|by rewrite Hcont].
        destruct (Hrank q k Hk Hq) as (k' & Hk' & Hq' & _); [|by exists k'].
        intros ->. congruence.
Qed.

(** ** Pipes come and go *)

Lemma fq_attach_inv p f w : inv f w → p ∉ items (pipes f) → whole is_more (content w p) →
  ∃ f', attach p f = Some f' ∧ inv f' w ∧ more f' = more f ∧
    (∀ q, q ∈ items (pipes f') ↔ q = p ∨ q ∈ items (pipes f)) ∧
    (more f = true → items (pipes f') !! current f' = items (pipes f) !! current f) ∧ is_active f' p.
Proof.
  intros H Hp Hw. destruct (push_back_spec _ _ (i_ok _ _ H) Hp) as [Hok Hit]. pose proof (i_active _ _ H) as Hac.
  unfold attach. set (ps := push_back p (pipes f)) in *.
  assert (Hsz : size ps = S (size (pipes f))) by (unfold size; rewrite Hit, length_app; cbn; lia).
  destruct (swap_spec ps (active f) (size ps - 1)) as (ps' & -> & Hmv); [done|lia..|]. cbn [mbind option_bind].
  assert (Hat : ∀ k, (k < active f)%nat → items ps' !! k = items (pipes f) !! k).
  { intros k Hk. rewrite (mv_at _ _ _ Hmv), transp_other, Hit, lookup_app_l by (unfold size in *; lia). done. }
  eexists. split; [done|]. split_and!; cbn [pipes active current more]; [|done| | |].
  - split; cbn [pipes active current more].
    + apply Hmv.
    + rewrite (mv_size _ _ _ Hmv). lia.
    + destruct (i_current _ _ H); [left; lia|by right].
    + intros q Hq. apply (mv_elem _ _ _ Hmv) in Hq. rewrite Hit in Hq. apply elem_of_app in Hq as [Hq|Hq].
      * by apply (i_whole _ _ H).
      * apply list_elem_of_singleton in Hq. by subst q.
    + intros Hm. destruct (i_more _ _ H Hm) as (q & Hc & Hq & Hne). exists q. split_and!; [lia|by rewrite Hat|done].
  - intros q. rewrite (mv_elem _ _ _ Hmv), Hit, elem_of_app, list_elem_of_singleton. tauto.
  - intros Hm. destruct (i_more _ _ H Hm) as (q & Hc & _). by apply Hat.
  - exists (active f). cbn [active pipes]. split; [lia|]. rewrite (mv_at _ _ _ Hmv), transp_l, Hit.
    rewrite lookup_app_r by (unfold size in *; lia). by replace (_ - _)%nat with 0%nat by (unfold size in *; lia).
Qed.

Lemma fq_activated_inv p k f w : inv f w → items (pipes f) !! k = Some p → (active f ≤ k)%nat →
  ∃ f', activated p f = Some f' ∧ inv f' w ∧ more f' = more f ∧
    (∀ q, q ∈ items (pipes f') ↔ q ∈ items (pipes f)) ∧
    (more f = true → items (pipes f') !! current f' = items (pipes f) !! current f) ∧ is_active f' p.
Proof.
  intros H Hk Hge. pose proof (i_active _ _ H) as Hac. pose proof (lookup_lt_Some _ _ _ Hk) as Hlt.
  unfold activated, index. rewrite (ok_index _ (i_ok _ _ H) _ _ Hk). cbn [mbind option_bind].
  destruct (swap_spec (pipes f) k (active f) (i_ok _ _ H)) as (ps & -> & Hmv); [unfold size in *; lia..|]. cbn [mbind option_bind].
  assert (Hat : ∀ j, (j < active f)%nat → items ps !! j = items (pipes f) !! j).
  { intros j Hj. by rewrite (mv_at _ _ _ Hmv), transp_other by lia. }
  eexists. split; [done|]. split_and!; cbn [pipes active current more]; [|done| | |].
  - split; cbn [pipes active current more].
    + apply Hmv.
    + rewrite (mv_size _ _ _ Hmv). unfold size in *. lia.
    + destruct (i_current _ _ H); [left; lia|by right].
    + intros q Hq. apply (mv_elem _ _ _ Hmv) in Hq. by apply (i_whole _ _ H).
    + intros Hm. destruct (i_more _ _ H Hm) as (q & Hc & Hq & Hne). exists q. split_and!; [lia|by rewrite Hat|done].
  - apply (mv_elem _ _ _ Hmv).
  - intros Hm. destruct (i_more _ _ H Hm) as (q & Hc & _). by apply Hat.
  - exists (active f). cbn [active pipes]. split; [lia|]. by rewrite (mv_at _ _ _ Hmv), transp_r.
Qed.

(** Terminating a pipe keeps the state right between messages; in the middle of
    one it does if the pipe read from is neither the one that goes nor the last
    active one (see [run_mid] for the other case). *)
Definition can_terminate (f : fq) (p : Z) (k : nat) : Prop :=
  items (pipes f) !! k = Some p ∧
  (more f = true → k ≠ current f ∧ ((active f ≤ k)%nat ∨ S (current f) ≠ active f)).

Lemma fq_terminated_inv p k f w : inv f w → can_terminate f p k →
  ∃ f', pipe_terminated p f = Some f' ∧ inv f' w ∧ more f' = more f ∧
    (∀ q, q ∈ items (pipes f') ↔ q ∈ items (pipes f) ∧ q ≠ p) ∧
    (more f = true → items (pipes f') !! current f' = items (pipes f) !! current f).
Proof.
  intros H [Hk Hcan]. pose proof (i_active _ _ H) as Hac. pose proof (lookup_lt_Some _ _ _ Hk) as Hlt.
  unfold pipe_terminated, index. rewrite (ok_index _ (i_ok _ _ H) _ _ Hk). cbn [mbind option_bind].
  assert (Hgoal : ∀ ps ac cur li kp, ok ps → size ps = size (pipes f) → items ps !! kp = Some p → (ac ≤ kp)%nat →
    (∀ q, q ∈ items ps ↔ q ∈ items (pipes f)) → (cur < ac ∨ cur = 0)%nat →
    (more f = true → (cur < ac)%nat ∧ items ps !! cur = items (pipes f) !! current f) →
    ∃ ps', erase p ps = Some ps' ∧ inv (FQ ps' ac li cur (more f)) w ∧
      (∀ q, q ∈ items ps' ↔ q ∈ items (pipes f) ∧ q ≠ p) ∧
      (more f = true → items ps' !! cur = items (pipes f) !! current f)).
  { intros ps ac cur li kp Hok Hsz Hkp Hackp Hel Hcur Hmore.
    destruct (erase_spec ps p kp Hok Hkp) as (ps' & -> & Hok' & Hsz' & Hat & Hel'). exists ps'.
    pose proof (lookup_lt_Some _ _ _ Hkp) as Hkps. fold (size ps) in Hkps.
    assert (Hlow : ∀ j, (j < ac)%nat → items ps' !! j = items ps !! j).
    { intros j Hj. rewrite Hat by lia. by rewrite decide_False by lia. }
    split_and!; [done| |intros q; by rewrite Hel', Hel|].
    - split; cbn [pipes active current more]; [done|lia|done| |].
      + intros q Hq. apply (i_whole _ _ H), Hel. by apply Hel' in Hq as [? _].
      + intros Hm. destruct (Hmore Hm) as [Hc Hcq]. destruct (i_more _ _ H Hm) as (q & _ & Hq & Hne).
        exists q. split_and!; [done| |done]. by rewrite Hlow, Hcq.
    - intros Hm. destruct (Hmore Hm) as [Hc Hcq]. by rewrite Hlow. }
  fold (size (pipes f)) in Hlt.
  destruct (decide (k < active f)%nat) as [Hka|Hka].
  - destruct (swap_spec (pipes f) k (pred (active f)) (i_ok _ _ H)) as (ps & -> & Hmv); [lia..|]. cbn [mbind option_bind].
    destruct (Hgoal ps (pred (active f)) (if decide (current f = pred (active f)) then 0%nat else current f)
      (if decide (last_in f = Some p) then None else last_in f) (pred (active f))) as (ps' & -> & Hinv & Hel & Hc).
    + apply Hmv.
    + apply Hmv.
    + by rewrite (mv_at _ _ _ Hmv), transp_r.
    + done.
    + apply Hmv.
    + pose proof (i_current _ _ H). case_decide; lia.
    + intros Hm. destruct (Hcan Hm) as [Hkc [?|Hsc]]; [lia|]. destruct (i_more _ _ H Hm) as (q & Hcl & _).
      rewrite decide_False by lia. split; [lia|]. by rewrite (mv_at _ _ _ Hmv), transp_other by lia.
    + cbn [mbind option_bind]. eexists. split; [done|]. by split_and!.
  - cbn [mbind option_bind].
    destruct (Hgoal (pipes f) (active f) (current f) (if decide (last_in f = Some p) then None else last_in f) k)
      as (ps' & -> & Hinv & Hel & Hc); try done.
    + apply (i_ok _ _ H).
    + lia.
    + destruct (i_current _ _ H); [by left|by right].
    + intros Hm. destruct (i_more _ _ H Hm) as (q & Hcl & _). done.
    + cbn [mbind option_bind]. eexists. split; [done|]. by split_and!.
Qed.

(** ** All the behaviours

    A step of a socket that uses the fair queue, of its pipes or of their
    writers, with the messages it received; writers add whole messages. *)
Inductive step : fq * W → list (M * Z) → fq * W → Prop :=
| s_recv f w r f' w' :
    recvpipe f w = Some (r, f', w') → step (f, w) (option_list r) (f', w')
| s_has_in f w r f' w' :
    has_in f w = Some (r, f', w') → step (f, w) [] (f', w')
| s_arrive f w w' p l :
    whole is_more l → (∀ q, content w' q = content w q ++ (if decide (q = p) then l else [])) →
    step (f, w) [] (f, w')
| s_attach f w p f' :
    p ∉ items (pipes f) → whole is_more (content w p) → attach p f = Some f' → step (f, w) [] (f', w)
| s_activated f w p k f' :
    items (pipes f) !! k = Some p → (active f ≤ k)%nat → activated p f = Some f' →
    step (f, w) [] (f', w)
| s_terminated f w p k f' :
    can_terminate f p k → pipe_terminated p f = Some f' → step (f, w) [] (f', w).

Inductive steps : fq * W → list (M * Z) → fq * W → Prop :=
| steps_refl st : steps st [] st
| steps_snoc st1 out1 st2 out2 st3 :
    steps st1 out1 st2 → step st2 out2 st3 → steps st1 (out1 ++ out2) st3.

(** The part after a part that is not the last comes from the same pipe. *)
Definition atomic (out : list (M * Z)) : Prop :=
  ∀ i m p m' p', out !! i = Some (m, p) → is_more m = true → out !! S i = Some (m', p') → p' = p.

(** What the state knows of the message being received. *)
Definition tracks (f : fq) (out : list (M * Z)) : Prop :=
  match last out with
  | Some (m, p) => more f = is_more m ∧ (is_more m = true → items (pipes f) !! current f = Some p)
  | None => more f = false
  end.

Lemma atomic_snoc out m p : atomic out →
  (∀ m' p', last out = Some (m', p') → is_more m' = true → p = p') → atomic (out ++ [(m, p)]).
Proof.
  intros Ha Hl i m1 p1 m2 p2 H1 Hm H2.
  pose proof (lookup_lt_Some _ _ _ H2) as Hlt. rewrite length_app in Hlt. cbn [length] in Hlt.
  rewrite lookup_app_l in H1 by lia.
  destruct (decide (S i < length out)%nat) as [Hi|Hi].
  - rewrite lookup_app_l in H2 by done. by eapply Ha.
  - rewrite lookup_app_r in H2 by lia. replace (S i - length out)%nat with 0%nat in H2 by lia.
    injection H2 as <- <-. apply (Hl m1); [|done]. rewrite last_lookup. by replace (pred (length out)) with i by lia.
Qed.

Lemma tracks_same f f' out : tracks f out → more f' = more f →
  (more f = true → items (pipes f') !! current f' = items (pipes f) !! current f) → tracks f' out.
Proof.
  unfold tracks. destruct (last out) as [[m p]|]; [|congruence].
  intros [Hm Hc] Hm' Hc'. rewrite Hm'. split; [done|]. intros Hmm. rewrite Hc' by congruence. auto.
Qed.

Lemma recvpipe_spec f w : inv f w →
  ∃ r f' w', recvpipe f w = Some (r, f', w') ∧ inv f' w' ∧
    (∀ q, q ∈ items (pipes f') ↔ q ∈ items (pipes f)) ∧
    match r with
    | Some (m, p) =>
        is_active f p ∧ is_active f' p ∧ content w p = m :: content w' p ∧ (∀ q, q ≠ p → content w' q = content w q) ∧
        more f' = is_more m ∧ (is_more m = true → items (pipes f') !! current f' = Some p) ∧
        (more f = true → items (pipes f) !! current f = Some p) ∧
        (∀ q k, q ≠ p → (k < active f)%nat → items (pipes f) !! k = Some q → content w q ≠ [] →
           ∃ k', (k' < active f')%nat ∧ items (pipes f') !! k' = Some q ∧
             (if is_more m then rank f' k' ≤ rank f k else rank f' k' < rank f k)%nat)
    | None =>
        (∀ q, is_active f q → content w q = []) ∧ (∀ q, content w' q = content w q) ∧
        more f = false ∧ more f' = false ∧ active f' = 0%nat
    end.
Proof. intros H. by apply recv_loop_spec. Qed.

Lemma has_in_spec f w : inv f w →
  ∃ r f' w', has_in f w = Some (r, f', w') ∧ inv f' w' ∧ more f' = more f ∧
    (more f = true → f' = f) ∧ (r = true ↔ ∃ q, is_active f q ∧ content w q ≠ []).
Proof.
  intros H. unfold has_in. destruct (more f) eqn:Hm.
  - exists true, f, w. split_and!; [done..|]. split; [|done]. intros _.
    destruct (i_more _ _ H Hm) as (p & Hc & Hp & Hne). exists p. split; [by exists (current f)|done].
  - destruct (has_in_loop_spec _ f w H eq_refl Hm) as (r & f' & w' & Heq & Hinv & Hm' & _ & _ & Hr).
    exists r, f', w'. by split_and!.
Qed.

Lemma fq_step_ok f w out out2 f' w' :
  inv f w → atomic out → tracks f out → step (f, w) out2 (f', w') →
  inv f' w' ∧ atomic (out ++ out2) ∧ tracks f' (out ++ out2).
Proof.
  intros H Ha Ht Hs. inversion Hs; subst; clear Hs.
  - destruct (recvpipe_spec f w H) as (r1 & f1 & w1 & Heq & Hinv & _ & Hr). simplify_eq.
    destruct r as [[m p]|]; unfold option_list; cbn [option_rect].
    + destruct Hr as (_ & _ & _ & _ & Hmore & Hcur & Hsame & _). split_and!; [done| |].
      * apply atomic_snoc; [done|]. intros m' p' Hl Hm'. unfold tracks in Ht. rewrite Hl in Ht.
        destruct Ht as [Hmf Hc]. specialize (Hc Hm'). rewrite <- Hmf in Hm'. specialize (Hsame Hm'). congruence.
      * unfold tracks. by rewrite last_snoc.
    + destruct Hr as (_ & _ & Hm & Hm' & _). rewrite app_nil_r. split_and!; [done..|].
      apply (tracks_same f); [done|congruence|]. intros Hmt. congruence.
  - destruct (has_in_spec f w H) as (r1 & f1 & w1 & Heq & Hinv & Hm & Hsame & _). simplify_eq. rewrite app_nil_r.
    split_and!; [done..|]. apply (tracks_same f); [done..|]. intros Hmt. by rewrite Hsame.
  - rewrite app_nil_r. split_and!; [|done..]. destruct H. split; try done.
    + intros q Hq. rewrite H6. case_decide; [apply whole_app; auto|rewrite app_nil_r; auto].
    + intros Hm. destruct (i_more0 Hm) as (q & ? & ? & Hne). exists q. split_and!; [done..|].
      rewrite H6. intros [Hn _]%app_eq_nil. done.
  - destruct (fq_attach_inv p f w' H) as (f1 & Heq & Hinv & Hm & _ & Hc & _); [done..|]. simplify_eq.
    rewrite app_nil_r. split_and!; [done..|]. by apply (tracks_same f).
  - destruct (fq_activated_inv p k f w' H) as (f1 & Heq & Hinv & Hm & _ & Hc & _); [done..|]. simplify_eq.
    rewrite app_nil_r. split_and!; [done..|]. by apply (tracks_same f).
  - destruct (fq_terminated_inv p k f w' H) as (f1 & Heq & Hinv & Hm & _ & Hc); [done..|]. simplify_eq.
    rewrite app_nil_r. split_and!; [done..|]. by apply (tracks_same f).
Qed.

Lemma steps_ok st1 out st2 : steps st1 out st2 → st1.1 = fq_new →
  inv st2.1 st2.2 ∧ atomic out ∧ tracks st2.1 out.
Proof.
  induction 1 as [[f w]|st1 out1 [f2 w2] out2 [f3 w3] _ IH Hs]; intros Hst.
  - cbn in Hst |- *. subst f. split_and!; [apply fq_inv_new|intros ? * ?; done|done].
  - destruct (IH Hst) as (H & Ha & Ht). by eapply fq_step_ok.
Qed.

(** C28. Fair queueing never mixes messages: in every run in which writers write
    whole messages (and no pipe is terminated at a bad moment, see
    [can_terminate]), no assertion of the queue fails, no index is out of
    range, and every part of a multipart message is followed by a part from the
    same pipe. *)
Theorem fq_atomic w0 out f w : steps (fq_new, w0) out (f, w) →
  atomic out ∧
  (∃ r f' w', recvpipe f w = Some (r, f', w')) ∧
  (∃ r f' w', has_in f w = Some (r, f', w')).
Proof.
  intros Hs. destruct (steps_ok _ _ _ Hs eq_refl) as (H & Ha & _). cbn [fst snd] in H. split_and!; [done| |].
  - destruct (recvpipe_spec f w H) as (r & f' & w' & Heq & _). eauto.
  - destruct (has_in_spec f w H) as (r & f' & w' & Heq & _). eauto.
Qed.

(** C29. Fair queueing starves no pipe: while an active pipe has a message to
    read, [recvpipe] never returns EAGAIN, and it returns a part from that pipe
    or, with the pipe still active and its content untouched, brings it
    strictly closer to its turn at the end of each whole message; its turn is
    less than the number of active pipes away. *)
Theorem fq_fair w0 out f w k p :
  steps (fq_new, w0) out (f, w) →
  (k < active f)%nat → items (pipes f) !! k = Some p → content w p ≠ [] →
  (rank f k < active f)%nat ∧
  ∃ m q f' w', recvpipe f w = Some (Some (m, q), f', w') ∧
    (q = p ∨
     content w' p = content w p ∧
     ∃ k', (k' < active f')%nat ∧ items (pipes f') !! k' = Some p ∧
       (if is_more m then rank f' k' ≤ rank f k else rank f' k' < rank f k)%nat).
Proof.
  intros Hs Hk Hp Hne. destruct (steps_ok _ _ _ Hs eq_refl) as (H & _ & _). cbn [fst snd] in H. split.
  { pose proof (i_current _ _ H). unfold rank. case_decide; lia. }
  destruct (recvpipe_spec f w H) as (r & f' & w' & Heq & _ & _ & Hr). destruct r as [[m q]|].
  - exists m, q, f', w'. split; [done|]. destruct Hr as (_ & _ & _ & Hoth & _ & _ & _ & Hrank).
    destruct (decide (q = p)) as [|Hqp]; [by left|]. right. split; [by apply Hoth|]. by apply Hrank.
  - destruct Hr as (Hempty & _). exfalso. apply Hne, Hempty. by exists k.
Qed.
End fq.

(** ** Pipes as lists *)

(** The simplest pipes: each is the list of its messages, a message its value
    and its [more] flag. *)
Definition lists : Type := Z → list (Z * bool).

#[export] Instance lists_in : InPipes (Z * bool) lists := {|
  in_read p w := (head (w p), λ q, if decide (q = p) then tail (w q) else w q);
  in_check_read p w := (negb (bool_decide (w p = [])), w) |}.

#[export, refine] Instance lists_in_laws : InPipesLaws (Z * bool) lists := {| content w p := w p |}.
Proof.
  - done.
  - done.
  - intros p w. cbn. destruct (w p); cbn; split; congruence.
  - done.
Defined.

(** Receive [n] times. *)
Fixpoint recv_n (n : nat) (f : fq) (w : lists) : option (list ((Z * bool) * Z) * fq * lists) :=
  match n with
  | O => Some ([], f, w)
  | S n =>
      '(r, f, w) ← recvpipe snd f w;
      '(rs, f, w) ← recv_n n f w;
      Some (option_list r ++ rs, f, w)
  end.

Definition three_pipes : option fq :=
  f ← attach 1 fq_new; f ← attach 2 f; attach 3 f.

(** The first part of a two-part message of pipe 3 is received, pipe 2 ends, and
    another part is received (see [Dealer.terminated_mid_message]). *)
Definition run_mid (w : lists) : option (list ((Z * bool) * Z) * option (option ((Z * bool) * Z))) :=
  f ← three_pipes;
  '(rs, f, w) ← recv_n 3 f w;
  f ← pipe_terminated 2 f;
  Some (rs, fst ∘ fst <$> recvpipe snd f w).

(** ** Witnesses *)

Definition ex_world : lists := λ p, if decide (p = 1) then [(10, true); (11, false)] else [(20, false)].

Definition ex_fq1 : fq := FQ (push_back 1 empty) 1 None 0 false.
Definition ex_fq2 : fq := FQ (push_back 2 (push_back 1 empty)) 2 None 0 false.
Definition ex_fq3 : fq := FQ (push_back 2 (push_back 1 empty)) 2 None 0 true.
Definition ex_world3 : lists := λ q, if decide (q = 1) then tail (ex_world q) else ex_world q.

Lemma ex_attach1 : attach 1 fq_new = Some ex_fq1.
Proof. vm_compute. reflexivity. Qed.
Lemma ex_attach2 : attach 2 ex_fq1 = Some ex_fq2.
Proof. vm_compute. reflexivity. Qed.
Lemma ex_recv : recvpipe snd ex_fq2 ex_world = Some (Some ((10, true), 1), ex_fq3, ex_world3).
Proof. vm_compute. reflexivity. Qed.

Lemma fq_steps : steps snd (fq_new, ex_world) [((10, true), 1)] (ex_fq3, ex_world3).
Proof.
  assert (Hw : ∀ p, whole snd (ex_world p)).
  { intros p m. unfold ex_world. case_decide; intros Hm; by injection Hm as <-. }
  apply (steps_snoc snd _ [] (ex_fq2, ex_world) [((10, true), 1)]);
    [|exact (s_recv snd _ _ (Some ((10, true), 1)) _ _ ex_recv)].
  apply (steps_snoc snd _ [] (ex_fq1, ex_world) []);
    [|apply (s_attach snd _ _ 2); [cbn; set_solver|apply Hw|exact ex_attach2]].
  apply (steps_snoc snd _ [] (fq_new, ex_world) []); [constructor|].
  apply (s_attach snd _ _ 1); [cbn; set_solver|apply Hw|exact ex_attach1].
Qed.

Lemma fq_atomic_witness : steps snd (fq_new, ex_world) [((10, true), 1)] (ex_fq3, ex_world3) ∧
  atomic snd [((10, true), 1)] ∧ ∃ r f' w', recvpipe snd ex_fq3 ex_world3 = Some (r, f', w').
Proof.
  destruct (fq_atomic snd ex_world _ _ _ fq_steps) as (Ha & Hr & _). exact (conj fq_steps (conj Ha Hr)).
Defined.

Lemma fq_fair_witness : steps snd (fq_new, ex_world) [((10, true), 1)] (ex_fq3, ex_world3) ∧
  ∃ m q f' w', recvpipe snd ex_fq3 ex_world3 = Some (Some (m, q), f', w').
Proof.
  destruct (fq_fair snd ex_world _ _ _ 1 2 fq_steps ltac:(cbn; lia) eq_refl ltac:(done)) as [_ (m & q & f' & w' & Hr & _)].
  exact (conj fq_steps (ex_intro _ m (ex_intro _ q (ex_intro _ f' (ex_intro _ w' Hr))))).
Defined.
End Fq.
