(* ===== verification/Lb.v ===== *)
(** * Load balancing

    [lb_t] (src/lb.cpp) sends each message to one of a set of pipes, in turn,
    skipping those that are full.  The pipes are behind [OutPipes].  A history
    records every message the user finished sending, with the pipe it went to
    if any; the theorems say that each pipe was written exactly the messages
    the history gives it, in order and whole, that a message is dropped only
    when its pipe failed in the middle of it, and that EAGAIN means that every
    active pipe refused the message. *)

From S2P Require Import Prelude Array PipeIface.
Import Array Lists.

Module Lb.

(** The results of [sendpipe]: 0, -1 with EAGAIN, -2 with EAGAIN. *)
Inductive send_rc : Type := Sent | Again | Dropped.

Section lb.
Context {M W : Type} `{!OutPipes M W} (is_more : M → bool).

(** The data members. *)
Record lb := LB {
  pipes : array;
  active : nat;        (* the active pipes are the first ones *)
  current : nat;       (* the pipe to write next *)
  more : bool;         (* the last part sent has the [more] flag *)
  dropping : bool }.   (* the rest of the message is dropped *)

Definition lb_new : lb := LB empty 0 0 false false.

Definition activated (p : Z) (l : lb) : option lb :=
  i ← index p (pipes l);
  ps ← swap i (active l) (pipes l);
  Some (LB ps (S (active l)) (current l) (more l) (dropping l)).

Definition attach (p : Z) (l : lb) : option lb :=
  activated p (LB (push_back p (pipes l)) (active l) (current l) (more l) (dropping l)).

Definition pipe_terminated (p : Z) (l : lb) : option lb :=
  i ← index p (pipes l);
  let dr := if decide (i = current l ∧ more l = true) then true else dropping l in
  '(ps, ac, cur) ←
    (if decide (i < active l)%nat then
       let ac := pred (active l) in
       ps ← swap i ac (pipes l);
       Some (ps, ac, if decide (current l = ac) then 0%nat else current l)
     else Some (pipes l, active l, current l));
  ps ← erase p ps;
  Some (LB ps ac cur (more l) dr).

(** [while (_active > 0)] in [sendpipe]: [Some Dropped] is the early return,
    [None] the end of the loop. *)
Fixpoint send_loop (fuel : nat) (m : M) (l : lb) (w : W) : option (option send_rc * lb * W) :=
  match fuel with
  | O => None
  | S fuel =>
      if decide (active l = 0)%nat then Some (None, l, w)
      else
        p ← at_ (pipes l) (current l);
        let '(ok, w) := out_write p m w in
        if ok then Some (None, l, w)
        else if more l then
          let w := out_rollback p w in
          Some (Some Dropped, LB (pipes l) (active l) (current l) false (is_more m), w)
        else
          let ac := pred (active l) in
          '(ps, cur) ← (if decide (current l < ac)%nat
                        then ps ← swap (current l) ac (pipes l); Some (ps, current l)
                        else Some (pipes l, 0%nat));
          send_loop fuel m (LB ps ac cur (more l) (dropping l)) w
  end.

(** The result, and the pipe the message was written to. *)
Definition sendpipe (m : M) (l : lb) (w : W) : option (send_rc * option Z * lb * W) :=
  if dropping l then
    Some (Sent, None, LB (pipes l) (active l) (current l) (is_more m) (is_more m), w)
  else
    '(r, l, w) ← send_loop (S (active l)) m l w;
    match r with
    | Some r => Some (r, None, l, w)
    | None =>
        if decide (active l = 0)%nat then Some (Again, None, l, w)
        else
          p ← at_ (pipes l) (current l);
          if is_more m then
            Some (Sent, Some p, LB (pipes l) (active l) (current l) true (dropping l), w)
          else
            let w := out_flush p w in
            let cur := if decide (active l ≤ S (current l))%nat then 0%nat else S (current l) in
            Some (Sent, Some p, LB (pipes l) (active l) cur false (dropping l), w)
    end.

Fixpoint has_out_loop (fuel : nat) (l : lb) (w : W) : option (bool * lb * W) :=
  match fuel with
  | O => None
  | S fuel =>
      if decide (active l = 0)%nat then Some (false, l, w)
      else
        p ← at_ (pipes l) (current l);
        let '(ok, w) := out_check_write p w in
        if ok then Some (true, l, w)
        else
          let ac := pred (active l) in
          ps ← swap (current l) ac (pipes l);
          has_out_loop fuel
            (LB ps ac (if decide (current l = ac) then 0%nat else current l) (more l) (dropping l)) w
  end.

Definition has_out (l : lb) (w : W) : option (bool * lb * W) :=
  if more l then Some (true, l, w) else has_out_loop (S (active l)) l w.

(** ** The shape of the state *)

Record shape (l : lb) : Prop := {
  sh_ok : ok (pipes l);
  sh_active : (active l ≤ size (pipes l))%nat;
  sh_current : (current l < active l)%nat ∨ current l = 0%nat }.

Definition is_active (l : lb) (p : Z) : Prop :=
  ∃ k, (k < active l)%nat ∧ items (pipes l) !! k = Some p.

Lemma lb_current_at l : shape l → active l ≠ 0%nat →
  (current l < active l)%nat ∧ ∃ p, items (pipes l) !! current l = Some p.
Proof.
  intros H Ha. pose proof (sh_active _ H). assert (Hc : (current l < active l)%nat) by (destruct (sh_current _ H); lia).
  split; [done|]. apply lookup_lt_is_Some_2. unfold size in *. lia.
Qed.

(** Deactivating the current pipe, as [sendpipe] and [has_out] do it. *)
Lemma deactivate_shape l : shape l → active l ≠ 0%nat →
  (∃ ps cur, (if decide (current l < pred (active l))%nat
              then ps ← swap (current l) (pred (active l)) (pipes l); Some (ps, current l)
              else Some (pipes l, 0%nat)) = Some (ps, cur) ∧
     shape (LB ps (pred (active l)) cur (more l) (dropping l)) ∧
     (∀ q, q ∈ items ps ↔ q ∈ items (pipes l)) ∧
     (∀ q, is_active l q → is_active (LB ps (pred (active l)) cur (more l) (dropping l)) q ∨
                           items (pipes l) !! current l = Some q)) ∧
  (∃ ps, swap (current l) (pred (active l)) (pipes l) = Some ps ∧
     shape (LB ps (pred (active l)) (if decide (current l = pred (active l)) then 0%nat else current l)
              (more l) (dropping l)) ∧
     (∀ q, q ∈ items ps ↔ q ∈ items (pipes l))).
Proof.
  intros H Ha. destruct (lb_current_at l H Ha) as [Hc [p Hp]]. pose proof (sh_active _ H) as Hac.
  destruct (swap_spec (pipes l) (current l) (pred (active l)) (sh_ok _ H)) as (ps & Hps & Hmv); [lia..|].
  rewrite Hps. cbn [mbind option_bind]. split.
  - destruct (decide (current l < pred (active l))%nat) as [Hlt|Hge]; do 2 eexists; (split; [done|]); split_and!.
    + split; cbn [pipes active current]; [apply Hmv|rewrite (mv_size _ _ _ Hmv); lia|by left].
    + apply (mv_elem _ _ _ Hmv).
    + intros q (k & Hk & Hq). destruct (decide (k = current l)) as [->|Hkc]; [by right|]. left.
      exists (transp (current l) (pred (active l)) k). cbn [active pipes].
      rewrite (mv_at _ _ _ Hmv), transp_inv. split; [|done]. unfold transp. rewrite decide_False by done. case_decide; lia.
    + split; cbn [pipes active current]; [apply H|lia|by right].
    + done.
    + intros q (k & Hk & Hq). destruct (decide (k = current l)) as [->|Hkc]; [by right|]. left.
      exists k. cbn [active pipes]. split; [lia|done].
  - eexists. split; [done|]. split; [|apply (mv_elem _ _ _ Hmv)].
    split; cbn [pipes active current]; [apply Hmv|rewrite (mv_size _ _ _ Hmv); lia|].
    case_decide; [by right|left; lia].
Qed.

(** ** Sending *)

Context `{!OutPipesLaws M W is_more}.

Lemma send_loop_S n m l w :
  send_loop (S n) m l w =
  if decide (active l = 0)%nat then Some (None, l, w)
  else
    p ← at_ (pipes l) (current l);
    let '(ok, w) := out_write p m w in
    if ok then Some (None, l, w)
    else if more l then
      Some (Some Dropped, LB (pipes l) (active l) (current l) false (is_more m), out_rollback p w)
    else
      '(ps, cur) ← (if decide (current l < pred (active l))%nat
                    then ps ← swap (current l) (pred (active l)) (pipes l); Some (ps, current l)
                    else Some (pipes l, 0%nat));
      send_loop n m (LB ps (pred (active l)) cur (more l) (dropping l)) w.
Proof. done. Qed.

(** What [send_loop] did when it ends normally with a pipe, and when it rolls back. *)
Definition wrote (m : M) (p : Z) (w w' : W) : Prop :=
  written w' p = written w p ++ [m] ∧ ∀ q, q ≠ p → written w' q = written w q.

Definition rolled_back (p : Z) (w w' : W) : Prop :=
  (∀ a b, written w p = a ++ b → whole is_more a → unfinished is_more b → written w' p = a) ∧
  ∀ q, q ≠ p → written w' q = written w q.

Lemma wrote_same m p w w1 w' :
  (∀ q, written w1 q = written w q) → wrote m p w1 w' → wrote m p w w'.
Proof. intros Hs [H1 H2]. split; [by rewrite H1, Hs|]. intros q Hq. by rewrite H2, Hs. Qed.

Lemma send_loop_spec m n : ∀ l w, shape l → active l = n → dropping l = false →
  (more l = true → active l ≠ 0%nat) →
  ∃ r l' w', send_loop (S n) m l w = Some (r, l', w') ∧ shape l' ∧
    (∀ q, q ∈ items (pipes l') ↔ q ∈ items (pipes l)) ∧
    match r with
    | None => dropping l' = false ∧ more l' = more l ∧
        if decide (active l' = 0)%nat then more l = false ∧ ∀ q, written w' q = written w q
        else ∃ p, items (pipes l') !! current l' = Some p ∧ (current l' < active l')%nat ∧ wrote m p w w' ∧
               (more l = true → items (pipes l) !! current l = Some p)
    | Some r => r = Dropped ∧ more l = true ∧ more l' = false ∧ dropping l' = is_more m ∧
        ∃ p, items (pipes l) !! current l = Some p ∧ rolled_back p w w'
    end.
Proof.
  induction n as [|n IH]; intros l w H Hn Hd Hm; rewrite send_loop_S.
  - rewrite decide_True by done. exists None, l, w. split_and!; [done..|]. rewrite decide_True by done.
    split; [|done]. destruct (more l); [|done]. by destruct (Hm eq_refl).
  - rewrite decide_False by lia. destruct (lb_current_at l H ltac:(lia)) as [Hc [p Hp]].
    unfold at_. rewrite Hp. cbn [mbind option_bind].
    pose proof (out_write_written p m w) as Hw. destruct (out_write p m w) as [wok w1]. cbn [fst snd] in Hw.
    destruct wok; cbn [andb] in Hw.
    + exists None, l, w1. split_and!; [done..|]. rewrite decide_False by lia. exists p. split_and!; [done..| |done].
      split; [by rewrite Hw, bool_decide_eq_true_2|]. intros q Hq. by rewrite Hw, bool_decide_eq_false_2.
    + destruct (more l) eqn:Hmore.
      * do 3 eexists. split; [done|]. cbn [pipes active current more dropping].
        split_and!; try done; [by destruct H; split|]. exists p. split; [done|]. split.
        -- intros a b Hab Ha Hb. eapply out_rollback_written; [by rewrite Hw|done..].
        -- intros q Hq. by rewrite out_rollback_other.
      * destruct (deactivate_shape l H ltac:(lia)) as [(ps & cur & -> & Hsh & Hel & _) _]. cbn [mbind option_bind].
        rewrite Hmore in Hsh.
        destruct (IH (LB ps (pred (active l)) cur false (dropping l)) w1 Hsh ltac:(cbn; lia) Hd ltac:(done))
          as (r & l' & w' & -> & Hsh' & Hel' & Hr).
        exists r, l', w'. split_and!; [done..| |].
        { intros q. rewrite Hel'. apply Hel. }
        cbn [more] in Hr. destruct r as [r|]; [by destruct Hr as (_ & ? & _)|].
        destruct Hr as (Hd' & Hm' & Hr). split_and!; [done..|]. case_decide.
        -- destruct Hr as [_ Hr]. split; [done|]. intros q. by rewrite Hr, Hw.
        -- destruct Hr as (p' & Hp' & Hc' & Hwr & _). exists p'. split_and!; try done.
           eapply wrote_same; [|exact Hwr]. done.
Qed.

(** ** The history *)

Record ghost := Ghost {
  begun : list M;                        (* the parts of the message being sent *)
  history : list (list M * option Z) }.  (* the messages sent, and their pipes *)

(** The effect of a call of [sendpipe]; with EAGAIN the user still has the part. *)
Definition record_send (m : M) (r : send_rc) (dest : option Z) (g : ghost) : ghost :=
  match r with
  | Again => g
  | _ => if is_more m then Ghost (begun g ++ [m]) (history g)
         else Ghost [] (history g ++ [(begun g ++ [m], dest)])
  end.

Fixpoint delivered (p : Z) (h : list (list M * option Z)) : list M :=
  match h with
  | [] => []
  | (ms, d) :: h => (if decide (d = Some p) then ms else []) ++ delivered p h
  end.

Lemma lb_delivered_snoc p h ms d :
  delivered p (h ++ [(ms, d)]) = delivered p h ++ (if decide (d = Some p) then ms else []).
Proof.
  induction h as [|[ms' d'] h IH]; cbn [app delivered]; [by rewrite app_nil_r|].
  by rewrite IH, (assoc_L app).
Qed.

Definition whole_message (ms : list M) : Prop :=
  ∃ a x, ms = a ++ [x] ∧ unfinished is_more a ∧ is_more x = false.

Lemma delivered_whole p h : Forall (λ e, whole_message e.1) h → whole is_more (delivered p h).
Proof.
  induction 1 as [|[ms d] h Hm _ IH]; [apply whole_nil|]. destruct Hm as (a & x & Hms & _ & Hx).
  cbn [fst] in Hms. subst ms. cbn [delivered].
  apply whole_app; [|done]. case_decide; [by apply whole_snoc|apply whole_nil].
Qed.

(** The part of the current message that [q] has been written. *)
Definition partly (l : lb) (g : ghost) (q : Z) : list M :=
  if more l && negb (dropping l) && bool_decide (items (pipes l) !! current l = Some q) then begun g else [].

Record inv (l : lb) (w : W) (g : ghost) : Prop := {
  i_shape : shape l;
  i_written q : q ∈ items (pipes l) → written w q = delivered q (history g) ++ partly l g q;
  i_more : more l = true → dropping l = false → (current l < active l)%nat;
  i_idle : more l = false → dropping l = false → begun g = [];
  i_begun : unfinished is_more (begun g);
  i_history : Forall (λ e, whole_message e.1) (history g) }.

Lemma lb_inv_new w : inv lb_new w (Ghost [] []).
Proof. split; cbn; try done; [split; cbn; [apply ok_empty|lia|by right]|set_solver|constructor]. Qed.

(** Recording a part keeps the history right. *)
Lemma record_ok m r d g :
  unfinished is_more (begun g) → Forall (λ e, whole_message e.1) (history g) →
  unfinished is_more (begun (record_send m r d g)) ∧
  Forall (λ e, whole_message e.1) (history (record_send m r d g)).
Proof.
  intros Hb Hh. assert (Hm : ∀ r', r' ≠ Again →
    unfinished is_more (begun (record_send m r' d g)) ∧ Forall (λ e, whole_message e.1) (history (record_send m r' d g))).
  { intros r' Hr'. destruct (is_more m) eqn:Hm; destruct r'; try done; cbn [record_send]; rewrite Hm; cbn [begun history].
    1,2: split; [|done]; apply Forall_app_2; [done|by constructor].
    all: split; [constructor|]; apply Forall_app_2; [done|]; constructor; [|constructor]; by exists (begun g), m. }
  destruct r; [by apply Hm|done|by apply Hm].
Qed.

Lemma partly_other l g p q : items (pipes l) !! current l = Some p → q ≠ p → partly l g q = [].
Proof. intros Hp Hq. unfold partly. rewrite bool_decide_eq_false_2 by congruence. by rewrite andb_false_r. Qed.

Lemma partly_current l g p : items (pipes l) !! current l = Some p → more l = true → dropping l = false →
  partly l g p = begun g.
Proof. intros Hp Hm Hd. unfold partly. by rewrite Hm, Hd, bool_decide_eq_true_2. Qed.

Lemma partly_idle l g q : more l = false ∨ dropping l = true → partly l g q = [].
Proof. intros [Hm|Hd]; unfold partly; [by rewrite Hm|by rewrite Hd, andb_false_r]. Qed.

Lemma sendpipe_dropping m l w g : inv l w g → dropping l = true →
  ∃ l', sendpipe m l w = Some (Sent, None, l', w) ∧ inv l' w (record_send m Sent None g) ∧ items (pipes l') = items (pipes l).
Proof.
  intros H Hd. unfold sendpipe. rewrite Hd. eexists. split; [done|]. split; [|done].
  destruct (record_ok m Sent None g (i_begun _ _ _ H) (i_history _ _ _ H)) as [Hb Hh].
  split; cbn [pipes active current more dropping]; try done.
  - destruct (i_shape _ _ _ H). by split.
  - intros q Hq. rewrite (i_written _ _ _ H q Hq), (partly_idle l) by (by right).
    rewrite partly_idle by (cbn; destruct (is_more m); [by right|by left]). cbn [record_send].
    destruct (is_more m); cbn [history]; [done|]. rewrite lb_delivered_snoc, decide_False by done. by rewrite !app_nil_r.
  - congruence.
  - intros Hm _. cbn [record_send]. by rewrite Hm.
Qed.

Lemma sendpipe_inv m l w g : inv l w g →
  ∃ r d l' w', sendpipe m l w = Some (r, d, l', w') ∧ inv l' w' (record_send m r d g) ∧
    (∀ q, q ∈ items (pipes l') ↔ q ∈ items (pipes l)) ∧
    (r = Again → d = None ∧ more l = false ∧ active l' = 0%nat ∧ ∀ q, written w' q = written w q) ∧
    (r = Dropped → more l = true ∧ dropping l = false) ∧
    (r = Sent → dropping l = false → ∃ p, d = Some p ∧ wrote m p w w').
Proof.
  intros H. destruct (dropping l) eqn:Hd.
  { destruct (sendpipe_dropping m l w g H Hd) as (l' & -> & Hinv & Hit). do 4 eexists. split; [done|].
    split_and!; try done. intros q. by rewrite Hit. }
  unfold sendpipe. rewrite Hd. pose proof (i_shape _ _ _ H) as Hsh.
  assert (Hact : more l = true → active l ≠ 0%nat) by (intros Hm; pose proof (i_more _ _ _ H Hm Hd); lia).
  destruct (send_loop_spec m (active l) l w Hsh eq_refl Hd Hact) as (r & l' & w' & -> & Hsh' & Hel & Hr).
  cbn [mbind option_bind]. destruct r as [r|].
  - destruct Hr as (-> & Hm & Hm' & Hd' & p & Hp & Hrb & Hoth). do 4 eexists. split; [done|].
    destruct (record_ok m Dropped None g (i_begun _ _ _ H) (i_history _ _ _ H)) as [Hb Hh].
    split_and!; try done. split; try done.
    + intros q Hq. apply Hel in Hq. rewrite (partly_idle l') by (by left).
      assert (Hw : written w' q = delivered q (history g)).
      { pose proof (i_written _ _ _ H q Hq) as Hwq. destruct (decide (q = p)) as [->|Hqp].
        - rewrite (partly_current l g p Hp Hm Hd) in Hwq.
          apply (Hrb _ _ Hwq); [apply delivered_whole, H|apply H].
        - by rewrite Hoth, Hwq, (partly_other l g p q), app_nil_r by done. }
      rewrite Hw, app_nil_r. cbn [record_send]. destruct (is_more m); cbn [history]; [done|].
      rewrite lb_delivered_snoc, decide_False by done. by rewrite !app_nil_r.
    + congruence.
    + intros _ Hdf. rewrite Hd' in Hdf. cbn [record_send]. by rewrite Hdf.
  - destruct Hr as (Hd' & Hm' & Hr). destruct (decide (active l' = 0)%nat) as [Ha|Ha].
    + destruct Hr as [Hm Hw]. do 4 eexists. split; [done|]. split_and!; try done; cbn [record_send].
      destruct H. split; try done.
      * intros q Hq. apply Hel in Hq. rewrite Hw, (i_written0 q Hq), !partly_idle by (left; congruence). done.
      * intros Hmt. congruence.
      * auto.
    + destruct Hr as (p & Hp & Hc & Hwr & Hsame). unfold at_. rewrite Hp. cbn [mbind option_bind].
      assert (Hpin : p ∈ items (pipes l')) by (by eapply list_elem_of_lookup_2).
      assert (Hbeg : ∀ q, q ∈ items (pipes l) → written w q = delivered q (history g) ++ (if decide (q = p) then begun g else [])).
      { intros q Hq. rewrite (i_written _ _ _ H q Hq). f_equal. destruct (more l) eqn:Hm.
        - specialize (Hsame eq_refl). case_decide; [subst q; by apply partly_current|by eapply partly_other].
        - rewrite partly_idle by (by left). rewrite (i_idle _ _ _ H Hm Hd). by case_decide. }
      destruct (record_ok m Sent (Some p) g (i_begun _ _ _ H) (i_history _ _ _ H)) as [Hb Hh].
      destruct Hwr as [Hwp Hwo]. pose proof (sh_active _ Hsh') as Hac.
      destruct (is_more m) eqn:Hmm; do 4 eexists; (split; [done|]).
      * split_and!; try done; [|intros _ _; exists p; by split].
        split; cbn [pipes active current more dropping]; try done.
        -- destruct Hsh'. by split.
        -- intros q Hq. pose proof (proj1 (Hel q) Hq) as Hql. cbn [record_send]. rewrite Hmm. cbn [history].
           destruct (decide (q = p)) as [->|Hqp].
           ++ rewrite partly_current by done. cbn [begun]. rewrite Hwp, (Hbeg p Hql), decide_True by done.
              by rewrite (assoc_L app).
           ++ rewrite Hwo, (Hbeg q Hql), decide_False by done. by rewrite (partly_other _ _ p q).
      * split_and!; try done; [|intros _ _; exists p; split; [done|]; split; intros; by rewrite out_flush_written; auto].
        split; cbn [pipes active current more dropping]; try done.
        -- destruct Hsh'. split; cbn [pipes active current]; try done. case_decide; [by right|left; lia].
        -- intros q Hq. pose proof (proj1 (Hel q) Hq) as Hql. rewrite out_flush_written, partly_idle by (by left).
           cbn [record_send]. rewrite Hmm, app_nil_r. cbn [history]. rewrite lb_delivered_snoc.
           destruct (decide (q = p)) as [->|Hqp].
           ++ rewrite Hwp, (Hbeg p Hql), !decide_True by done. by rewrite (assoc_L app).
           ++ rewrite Hwo, (Hbeg q Hql), !decide_False by congruence. done.
        -- cbn [record_send]. by rewrite Hmm.
Qed.

Lemma has_out_loop_spec g n : ∀ l w, inv l w g → active l = n → more l = false →
  ∃ r l' w', has_out_loop (S n) l w = Some (r, l', w') ∧ inv l' w' g ∧ (r = true → active l' ≠ 0%nat) ∧
    (∀ q, q ∈ items (pipes l') ↔ q ∈ items (pipes l)) ∧ more l' = more l ∧ dropping l' = dropping l.
Proof.
  induction n as [|n IH]; intros l w H Hn Hm.
  - cbn [has_out_loop]. rewrite decide_True by done. exists false, l, w. by split_and!.
  - destruct (lb_current_at l (i_shape _ _ _ H) ltac:(lia)) as [Hc [p Hp]].
    assert (Heq : has_out_loop (S (S n)) l w =
      let '(ok, w) := out_check_write p w in
      if ok then Some (true, l, w)
      else
        ps ← swap (current l) (pred (active l)) (pipes l);
        has_out_loop (S n) (LB ps (pred (active l)) (if decide (current l = pred (active l)) then 0%nat else current l)
                              (more l) (dropping l)) w).
    { cbn [has_out_loop]. rewrite decide_False by lia. unfold at_. by rewrite Hp. }
    rewrite Heq. clear Heq. pose proof (out_check_write_written p w) as Hw.
    destruct (out_check_write p w) as [wok w1]. cbn [snd] in Hw.
    assert (H1 : inv l w1 g).
    { destruct H. split; try done. intros q Hq. rewrite Hw. auto. }
    destruct wok; [exists true, l, w1; split_and!; [done..|lia|done|done|done]|].
    destruct (deactivate_shape l (i_shape _ _ _ H) ltac:(lia)) as [_ (ps & -> & Hsh & Hel)]. cbn [mbind option_bind].
    set (l2 := LB ps _ _ _ _). destruct (IH l2 w1) as (r & l' & w' & Heq & Hi & Ha & Hel' & Hfl); [|cbn; lia|done|].
    { destruct H1. split; try done.
      - intros q Hq. apply Hel in Hq. rewrite (i_written0 q Hq), !partly_idle by (by left). done.
      - intros Hmt. cbn [more l2] in Hmt. congruence. }
    exists r, l', w'. split_and!; try done; [|apply Hfl..]. intros q. rewrite Hel'. apply Hel.
Qed.

Lemma has_out_spec l w g : inv l w g → ∃ r l' w', has_out l w = Some (r, l', w') ∧ inv l' w' g ∧
  (∀ q, q ∈ items (pipes l') ↔ q ∈ items (pipes l)) ∧ more l' = more l ∧ dropping l' = dropping l.
Proof.
  intros H. unfold has_out. destruct (more l) eqn:Hm; [by exists true, l, w|].
  destruct (has_out_loop_spec g _ l w H eq_refl Hm) as (r & l' & w' & Heq & Hinv & _ & Hit & Hm' & Hd').
  rewrite Hm in Hm'. by exists r, l', w'.
Qed.

(** ** Pipes come and go *)

Lemma lb_activated_inv p k l w g : inv l w g → items (pipes l) !! k = Some p → (active l ≤ k)%nat →
  ∃ l', activated p l = Some l' ∧ inv l' w g ∧ (∀ q, q ∈ items (pipes l') ↔ q ∈ items (pipes l)).
Proof.
  intros H Hk Hge. pose proof (i_shape _ _ _ H) as Hsh. pose proof (sh_active _ Hsh) as Hac.
  pose proof (lookup_lt_Some _ _ _ Hk) as Hlt. unfold activated, index.
  rewrite (ok_index _ (sh_ok _ Hsh) _ _ Hk). cbn [mbind option_bind].
  destruct (swap_spec (pipes l) k (active l) (sh_ok _ Hsh)) as (ps & -> & Hmv); [unfold size in *; lia..|].
  cbn [mbind option_bind]. eexists. split; [done|]. cbn [pipes]. split; [|apply (mv_elem _ _ _ Hmv)].
  split; cbn [pipes active current more dropping]; try apply H.
  - split; cbn [pipes active current]; [apply Hmv|rewrite (mv_size _ _ _ Hmv); unfold size in *; lia|].
    destruct (sh_current _ Hsh); [left; lia|by right].
  - intros q Hq. apply (mv_elem _ _ _ Hmv) in Hq. rewrite (i_written _ _ _ H q Hq). f_equal. unfold partly.
    cbn [pipes current more dropping]. destruct (more l) eqn:Hm, (dropping l) eqn:Hd; try done. cbn [andb negb].
    pose proof (i_more _ _ _ H Hm Hd). by rewrite (mv_at _ _ _ Hmv), transp_other by lia.
  - intros Hm Hd. pose proof (i_more _ _ _ H Hm Hd). lia.
Qed.

Lemma lb_attach_inv p l w g : inv l w g → p ∉ items (pipes l) → written w p = [] → delivered p (history g) = [] →
  ∃ l', attach p l = Some l' ∧ inv l' w g ∧ (∀ q, q ∈ items (pipes l') ↔ q = p ∨ q ∈ items (pipes l)).
Proof.
  intros H Hp Hw Hdel. pose proof (i_shape _ _ _ H) as Hsh. pose proof (sh_active _ Hsh) as Hac.
  destruct (push_back_spec _ _ (sh_ok _ Hsh) Hp) as [Hok Hit]. unfold attach.
  set (l1 := LB (push_back p (pipes l)) (active l) (current l) (more l) (dropping l)).
  assert (H1 : inv l1 w g).
  { split; unfold l1; cbn [pipes active current more dropping]; try apply H.
    - split; cbn [pipes active current]; [done| |apply Hsh]. unfold size. rewrite Hit, length_app. unfold size in Hac. lia.
    - intros q Hq. rewrite Hit in Hq. apply elem_of_app in Hq as [Hq|Hq%list_elem_of_singleton].
      + rewrite (i_written _ _ _ H q Hq). f_equal. unfold partly. cbn [pipes current more dropping].
        destruct (more l) eqn:Hm, (dropping l) eqn:Hd; try done. cbn [andb negb].
        pose proof (i_more _ _ _ H Hm Hd). by rewrite Hit, lookup_app_l by (unfold size in *; lia).
      + subst q. rewrite Hw, Hdel. unfold partly. cbn [pipes current more dropping].
        destruct (more l) eqn:Hm, (dropping l) eqn:Hd; try done. cbn [andb negb].
        pose proof (i_more _ _ _ H Hm Hd). rewrite Hit, lookup_app_l by (unfold size in *; lia).
        rewrite bool_decide_eq_false_2; [done|]. intros Hc. by apply Hp, list_elem_of_lookup; exists (current l). }
  destruct (lb_activated_inv p (size (pipes l)) l1 w g H1) as (l' & Heq & Hinv & Hel).
  - unfold l1. cbn [pipes]. rewrite Hit, lookup_app_r by (unfold size; lia). by rewrite Nat.sub_diag.
  - done.
  - exists l'. split_and!; [done..|]. intros q. rewrite Hel. unfold l1. cbn [pipes].
    rewrite Hit, elem_of_app, list_elem_of_singleton. tauto.
Qed.

(** Terminating a pipe in the middle of a message sent to another one keeps the
    state right unless that one is the last active pipe (see
    [run_mid]). *)
Definition can_terminate (l : lb) (p : Z) (k : nat) : Prop :=
  items (pipes l) !! k = Some p ∧
  (more l = true → dropping l = false → k = current l ∨ (active l ≤ k)%nat ∨ S (current l) ≠ active l).

Lemma lb_terminated_inv p k l w g : inv l w g → can_terminate l p k →
  ∃ l', pipe_terminated p l = Some l' ∧ inv l' w g ∧ (∀ q, q ∈ items (pipes l') ↔ q ∈ items (pipes l) ∧ q ≠ p).
Proof.
  intros H [Hk Hcan]. pose proof (i_shape _ _ _ H) as Hsh. pose proof (sh_active _ Hsh) as Hac.
  pose proof (lookup_lt_Some _ _ _ Hk) as Hlt. fold (size (pipes l)) in Hlt.
  unfold pipe_terminated, index. rewrite (ok_index _ (sh_ok _ Hsh) _ _ Hk). cbn [mbind option_bind].
  set (dr := if decide (k = current l ∧ more l = true) then true else dropping l).
  assert (Hgoal : ∀ ps ac cur kp, ok ps → size ps = size (pipes l) → items ps !! kp = Some p → (ac ≤ kp)%nat →
    (∀ q, q ∈ items ps ↔ q ∈ items (pipes l)) → (cur < ac ∨ cur = 0)%nat →
    (more l = true → dr = false → (cur < ac)%nat ∧ items ps !! cur = items (pipes l) !! current l) →
    ∃ ps', erase p ps = Some ps' ∧ inv (LB ps' ac cur (more l) dr) w g ∧
      (∀ q, q ∈ items ps' ↔ q ∈ items (pipes l) ∧ q ≠ p)).
  { intros ps ac cur kp Hok Hsz Hkp Hackp Hel Hcur Hmore.
    destruct (erase_spec ps p kp Hok Hkp) as (ps' & -> & Hok' & Hsz' & Hat & Hel'). exists ps'.
    pose proof (lookup_lt_Some _ _ _ Hkp) as Hkps. fold (size ps) in Hkps.
    split_and!; [done| |intros q; by rewrite Hel', Hel].
    split; cbn [pipes active current more dropping]; try apply H.
    - split; cbn [pipes active current]; [done|lia|done].
    - intros q Hq. apply Hel' in Hq as [Hq Hqp]. apply Hel in Hq. rewrite (i_written _ _ _ H q Hq). f_equal.
      destruct (more l) eqn:Hm; [|by rewrite !partly_idle by (by left)].
      destruct dr eqn:Hdr.
      + rewrite (partly_idle (LB _ _ _ _ _)) by (by right). unfold dr in Hdr. case_decide as Hkc.
        * destruct Hkc as [-> _]. by rewrite (partly_other l g p q).
        * by rewrite partly_idle by (by right).
      + destruct (Hmore eq_refl eq_refl) as [Hc Hcq].
        assert (Hd : dropping l = false) by (unfold dr in Hdr; case_decide; done).
        unfold partly. cbn [pipes current more dropping]. rewrite Hm, Hd. cbn [andb negb].
        by rewrite Hat, decide_False, Hcq by lia.
    - intros Hm Hd. by destruct (Hmore Hm Hd).
    - intros Hm Hd. apply (i_idle _ _ _ H Hm). unfold dr in Hd. by case_decide. }
  destruct (decide (k < active l)%nat) as [Hka|Hka].
  - destruct (swap_spec (pipes l) k (pred (active l)) (sh_ok _ Hsh)) as (ps & -> & Hmv); [lia..|]. cbn [mbind option_bind].
    destruct (Hgoal ps (pred (active l)) (if decide (current l = pred (active l)) then 0%nat else current l) (pred (active l)))
      as (ps' & -> & Hinv & Hel).
    + apply Hmv.
    + apply Hmv.
    + by rewrite (mv_at _ _ _ Hmv), transp_r.
    + done.
    + apply Hmv.
    + pose proof (sh_current _ Hsh). case_decide; lia.
    + intros Hm Hdr. unfold dr in Hdr. destruct (decide (k = current l ∧ more l = true)) as [|Hkc]; [done|].
      pose proof (i_more _ _ _ H Hm Hdr). assert (k ≠ current l) by tauto.
      destruct (Hcan Hm Hdr) as [?|[?|?]]; [lia..|]. rewrite decide_False by lia. split; [lia|].
      by rewrite (mv_at _ _ _ Hmv), transp_other by lia.
    + cbn [mbind option_bind]. eauto.
  - cbn [mbind option_bind]. destruct (Hgoal (pipes l) (active l) (current l) k) as (ps' & -> & Hinv & Hel); try done.
    + apply (sh_ok _ Hsh).
    + lia.
    + apply (sh_current _ Hsh).
    + intros Hm Hdr. split; [|done]. apply (i_more _ _ _ H Hm). unfold dr in Hdr. by case_decide.
    + cbn [mbind option_bind]. eauto.
Qed.

(** ** All the behaviours

    A step of the socket or of the pipes; the ghost records what the user sent. *)
Inductive step : lb * W * ghost → lb * W * ghost → Prop :=
| s_send l w g m r d l' w' :
    sendpipe m l w = Some (r, d, l', w') → step (l, w, g) (l', w', record_send m r d g)
| s_has_out l w g r l' w' : has_out l w = Some (r, l', w') → step (l, w, g) (l', w', g)
| s_pipes l w g w' : (∀ q, written w' q = written w q) → step (l, w, g) (l, w', g)
| s_attach l w g p l' :
    p ∉ items (pipes l) → written w p = [] → delivered p (history g) = [] →
    attach p l = Some l' → step (l, w, g) (l', w, g)
| s_activated l w g p k l' :
    items (pipes l) !! k = Some p → (active l ≤ k)%nat → activated p l = Some l' →
    step (l, w, g) (l', w, g)
| s_terminated l w g p k l' :
    can_terminate l p k → pipe_terminated p l = Some l' → step (l, w, g) (l', w, g).

Definition reachable (w0 : W) (st : lb * W * ghost) : Prop :=
  rtc step (lb_new, w0, Ghost [] []) st.

Lemma lb_step_ok l w g l' w' g' : inv l w g → step (l, w, g) (l', w', g') → inv l' w' g'.
Proof.
  intros H Hs. inversion Hs; subst; clear Hs.
  - destruct (sendpipe_inv m l w g H) as (r' & d' & l1 & w1 & Heq & Hinv & _). by simplify_eq.
  - destruct (has_out_spec l w g' H) as (r' & l1 & w1 & Heq & Hinv & _). by simplify_eq.
  - destruct H. split; try done. intros q Hq. rewrite H1. auto.
  - destruct (lb_attach_inv p l w' g' H) as (l1 & Heq & Hinv & _); [done..|]. by simplify_eq.
  - destruct (lb_activated_inv p k l w' g' H) as (l1 & Heq & Hinv & _); [done..|]. by simplify_eq.
  - destruct (lb_terminated_inv p k l w' g' H) as (l1 & Heq & Hinv & _); [done..|]. by simplify_eq.
Qed.

Lemma lb_reachable_inv w0 l w g : reachable w0 (l, w, g) → inv l w g.
Proof.
  intros Hr. refine (rtc_ind_r (λ st, inv st.1.1 st.1.2 st.2) _ _ _ _ Hr).
  - apply lb_inv_new.
  - intros [[l1 w1] g1] [[l2 w2] g2] _ Hs H1. by eapply lb_step_ok.
Qed.

(** C30. Load balancing: in every run (with no pipe terminated at a bad moment,
    see [can_terminate]), each attached pipe has been written exactly the whole
    messages that went to it, in order, and the parts of the current message if
    it goes there; the next [sendpipe] fails no assertion and no index is out of
    range; it returns EAGAIN, without any effect, only between messages and when
    no active pipe is left, and drops a message only in the middle of it. *)
Theorem lb_atomic w0 l w g : reachable w0 (l, w, g) →
  (∀ q, q ∈ items (pipes l) → written w q = delivered q (history g) ++ partly l g q) ∧
  Forall (λ e, whole_message e.1) (history g) ∧
  ∀ m, ∃ r d l' w', sendpipe m l w = Some (r, d, l', w') ∧
    (r = Sent → dropping l = false → ∃ p, d = Some p ∧ wrote m p w w') ∧
    (r = Again → more l = false ∧ active l' = 0%nat ∧ ∀ q, written w' q = written w q) ∧
    (r = Dropped → more l = true ∧ dropping l = false).
Proof.
  intros Hr. pose proof (lb_reachable_inv _ _ _ _ Hr) as H. split_and!; [apply H..|].
  intros m. destruct (sendpipe_inv m l w g H) as (r & d & l' & w' & Heq & _ & _ & Ha & Hd & Hs).
  exists r, d, l', w'. split_and!; try done. intros ->. by destruct (Ha eq_refl) as (_ & ? & ? & ?).
Qed.
End lb.

(** Send some parts one after the other. *)
Fixpoint send_all (ms : list (Z * bool)) (l : lb) (w : lists) : option (lb * lists) :=
  match ms with
  | [] => Some (l, w)
  | m :: ms => '(_, _, l, w) ← sendpipe snd m l w; send_all ms l w
  end.

Definition three_pipes : option lb :=
  l ← attach 1 lb_new; l ← attach 2 l; attach 3 l.

(** The first part of a two-part message goes to pipe 3, pipe 2 ends, and the
    second part is sent: what the pipes 1 and 3 were written (see
    [Dealer.terminated_mid_message]). *)
Definition run_mid : option (list (Z * bool) * list (Z * bool)) :=
  l ← three_pipes;
  '(l, w) ← send_all [(10, false); (20, false); (30, true)] l (λ _, []);
  l ← pipe_terminated 2 l;
  '(l, w) ← send_all [(31, false)] l w;
  Some (w 1, w 3).

(** ** Witnesses *)

Definition ex_lb1 : lb := LB (push_back 1 empty) 1 0 false false.
Definition ex_lb2 : lb := LB (push_back 1 empty) 1 0 true false.
Definition ex_world : lists := λ q, if decide (q = 1) then [(10, true)] else [].

Definition ex_empty : lists := λ _, [].

Lemma lb_reachable : reachable snd ex_empty (ex_lb2, ex_world, Ghost [(10, true)] []).
Proof.
  eapply rtc_l; [apply (s_attach snd lb_new ex_empty (Ghost [] []) 1 ex_lb1); [cbn; set_solver|done|done|vm_compute; reflexivity]|].
  eapply rtc_l; [|apply rtc_refl].
  apply (s_send snd ex_lb1 ex_empty (Ghost [] []) (10, true) Sent (Some 1) ex_lb2 ex_world). reflexivity.
Qed.

Lemma lb_atomic_witness :
  reachable snd ex_empty (ex_lb2, ex_world, Ghost [(10, true)] []) ∧
  ∃ r d l' w', sendpipe snd (11, false) ex_lb2 ex_world = Some (r, d, l', w').
Proof.
  destruct (lb_atomic snd _ _ _ _ lb_reachable) as (_ & _ & Hs).
  destruct (Hs (11, false)) as (r & d & l' & w' & Heq & _).
  exact (conj lb_reachable (ex_intro _ r (ex_intro _ d (ex_intro _ l' (ex_intro _ w' Heq))))).
Defined.
End Lb.
