(* ===== verification/Dist.v ===== *)
(** * Distribution

    [dist_t] (src/dist.cpp) sends each message to all the matching pipes of a
    set, sharing the content by reference counting.  Its array is divided by
    three bounds: the matching pipes come before [_matching], those that take
    part in the current message before [_active], those that will take part in
    the next one before [_eligible].  The theorems: the bounds stay ordered, a
    message reaches every matching pipe that accepts it exactly once and no
    other, a pipe that never refuses a part in the middle of a message holds
    whole messages only, and the references added are the references handed
    out.  A pipe may refuse in the middle of a message (its peer ended it, or its
    high-water mark was lowered): it then keeps the beginning of the message. *)

From S2P Require Import Prelude Array PipeIface.
Import Array Lists.

Module Dist.
Section dist.
Context {M W : Type} `{!OutPipes M W} (is_more is_vsm : M → bool).

(** The data members. *)
Record dist := Dist {
  pipes : array;
  matching : nat;
  active : nat;
  eligible : nat;
  more : bool }.       (* in the middle of a message *)

Definition dist_new : dist := Dist empty 0 0 0 false.

Definition attach (p : Z) (d : dist) : option dist :=
  let ps := push_back p (pipes d) in
  if more d then
    ps ← swap (eligible d) (size ps - 1) ps;
    Some (Dist ps (matching d) (active d) (S (eligible d)) (more d))
  else
    ps ← swap (active d) (size ps - 1) ps;
    Some (Dist ps (matching d) (S (active d)) (S (eligible d)) (more d)).

Definition match_ (p : Z) (d : dist) : option dist :=
  i ← index p (pipes d);
  if decide (i < matching d)%nat then Some d
  else if decide (eligible d ≤ i)%nat then Some d
  else
    ps ← swap i (matching d) (pipes d);
    Some (Dist ps (S (matching d)) (active d) (eligible d) (more d)).

Definition unmatch (d : dist) : dist := Dist (pipes d) 0 (active d) (eligible d) (more d).

(** [for (i = prev_matching; i < _eligible; ++i) _pipes.swap (i, _matching++)] *)
Fixpoint reverse_loop (fuel i : nat) (d : dist) : option dist :=
  match fuel with
  | O => None
  | S fuel =>
      if decide (i < eligible d)%nat then
        ps ← swap i (matching d) (pipes d);
        reverse_loop fuel (S i) (Dist ps (S (matching d)) (active d) (eligible d) (more d))
      else Some d
  end.

Definition reverse_match (d : dist) : option dist :=
  reverse_loop (S (eligible d)) (matching d) (unmatch d).

Definition pipe_terminated (p : Z) (d : dist) : option dist :=
  i ← index p (pipes d);
  '(ps, m) ← (if decide (i < matching d)%nat
              then ps ← swap i (matching d - 1) (pipes d); Some (ps, matching d - 1)%nat
              else Some (pipes d, matching d));
  i ← index p ps;
  '(ps, a) ← (if decide (i < active d)%nat
              then ps ← swap i (active d - 1) ps; Some (ps, active d - 1)%nat
              else Some (ps, active d));
  i ← index p ps;
  '(ps, e) ← (if decide (i < eligible d)%nat
              then ps ← swap i (eligible d - 1) ps; Some (ps, eligible d - 1)%nat
              else Some (ps, eligible d));
  ps ← erase p ps;
  Some (Dist ps m a e (more d)).

Definition activated (p : Z) (d : dist) : option dist :=
  d ← (if decide (eligible d < size (pipes d))%nat then
         i ← index p (pipes d);
         ps ← swap i (eligible d) (pipes d);
         Some (Dist ps (matching d) (active d) (S (eligible d)) (more d))
       else Some d);
  if negb (more d) && bool_decide (active d < size (pipes d))%nat then
    ps ← swap (eligible d - 1) (active d) (pipes d);
    Some (Dist ps (matching d) (S (active d)) (eligible d) (more d))
  else Some d.

Definition write (p : Z) (m : M) (d : dist) (w : W) : option (bool * dist * W) :=
  let '(ok, w) := out_write p m w in
  if ok then Some (true, d, if is_more m then w else out_flush p w)
  else
    i ← index p (pipes d);
    ps ← swap i (matching d - 1) (pipes d);
    i ← index p ps;
    ps ← swap i (active d - 1) ps;
    ps ← swap (active d - 1) (eligible d - 1) ps;
    Some (false, Dist ps (matching d - 1) (active d - 1) (eligible d - 1) (more d), w).

(** [for (i = 0; i < _matching; ++i) if (!write (_pipes[i], msg_)) { ++failed; --i; }] *)
Fixpoint dist_loop (fuel : nat) (m : M) (i failed : nat) (d : dist) (w : W) : option (nat * dist * W) :=
  match fuel with
  | O => None
  | S fuel =>
      if decide (i < matching d)%nat then
        p ← at_ (pipes d) i;
        '(ok, d, w) ← write p m d w;
        if (ok : bool) then dist_loop fuel m (S i) failed d w else dist_loop fuel m i (S failed) d w
      else Some (failed, d, w)
  end.

(** The references to the message's content that are left (the caller's, which
    was one, is given up), and the new state. *)
Definition distribute (m : M) (d : dist) (w : W) : option (Z * dist * W) :=
  if decide (matching d = 0)%nat then Some (0, d, w)   (* close: the only reference *)
  else if is_vsm m then
    '(_, d, w) ← dist_loop (S (matching d)) m 0 0 d w;
    Some (0, d, w)                                     (* nothing is shared *)
  else
    let refs := 1 + (Z.of_nat (matching d) - 1) in     (* add_refs *)
    '(failed, d, w) ← dist_loop (S (matching d)) m 0 0 d w;
    let refs := if decide (failed = 0)%nat then refs else refs - Z.of_nat failed in   (* rm_refs *)
    Some (refs, d, w).

Definition send_to_matching (m : M) (d : dist) (w : W) : option (Z * dist * W) :=
  '(refs, d, w) ← distribute m d w;
  Some (refs, Dist (pipes d) (matching d) (if is_more m then active d else eligible d) (eligible d) (is_more m), w).

Definition send_to_all (m : M) (d : dist) (w : W) : option (Z * dist * W) :=
  send_to_matching m (Dist (pipes d) (active d) (active d) (eligible d) (more d)) w.

(** [for (i = 0; i < _matching; ++i) if (!_pipes[i]->check_hwm ()) return false] *)
Definition check_hwm (d : dist) (w : W) : bool :=
  forallb (λ p, out_check_hwm p w) (take (matching d) (items (pipes d))).

Definition has_out : bool := true.

(** ** The shape of the state *)

Record shape (d : dist) : Prop := {
  sh_ok : ok (pipes d);
  sh_matching : (matching d ≤ active d)%nat;
  sh_active : (active d ≤ eligible d)%nat;
  sh_eligible : (eligible d ≤ size (pipes d))%nat;
  sh_idle : more d = false → active d = eligible d }.

Abbreviation matches d := (within (pipes d) (matching d)).
Abbreviation is_active d := (within (pipes d) (active d)).
Abbreviation is_eligible d := (within (pipes d) (eligible d)).

(** [p] leaves the matching, the active and the eligible pipes. *)
Record demoted (p : Z) (d d' : dist) : Prop := {
  de_shape : shape d';
  de_more : more d' = more d;
  de_elem q : q ∈ items (pipes d') ↔ q ∈ items (pipes d);
  de_matching q : matches d' q ↔ matches d q ∧ q ≠ p;
  de_active q : is_active d' q ↔ is_active d q ∧ q ≠ p;
  de_eligible q : is_eligible d' q ↔ is_eligible d q ∧ q ≠ p }.

Lemma at_within a n p k : items a !! k = Some p → (k < n)%nat → within a n p.
Proof. intros. by exists k. Qed.

(** The failure branch of [write]. *)
Lemma write_fail d p i : shape d → items (pipes d) !! i = Some p → (i < matching d)%nat →
  ∃ ps, (i ← index p (pipes d);
         ps ← swap i (matching d - 1) (pipes d);
         i ← index p ps;
         ps ← swap i (active d - 1) ps;
         swap (active d - 1) (eligible d - 1) ps) = Some ps ∧
    demoted p d (Dist ps (matching d - 1) (active d - 1) (eligible d - 1) (more d)) ∧
    (∀ k, (k < i)%nat → items ps !! k = items (pipes d) !! k).
Proof.
  intros H Hi Him. destruct H as [Hok Hma Hae Hes Hidle].
  unfold index. rewrite (ok_index _ Hok _ _ Hi). cbn [mbind option_bind].
  replace (matching d - 1)%nat with (pred (matching d)) by lia.
  replace (active d - 1)%nat with (pred (active d)) by lia. replace (eligible d - 1)%nat with (pred (eligible d)) by lia.
  destruct (swap_spec (pipes d) i (pred (matching d)) Hok) as (a1 & -> & Hm1); [lia..|]. cbn [mbind option_bind].
  assert (H1 : items a1 !! pred (matching d) = Some p) by (by rewrite (mv_at _ _ _ Hm1), transp_r).
  pose proof (mv_ok _ _ _ Hm1) as Hok1. rewrite (ok_index _ Hok1 _ _ H1). cbn [mbind option_bind].
  pose proof (mv_size _ _ _ Hm1) as Hs1.
  destruct (swap_spec a1 (pred (matching d)) (pred (active d)) Hok1) as (a2 & -> & Hm2); [lia..|]. cbn [mbind option_bind].
  assert (H2 : items a2 !! pred (active d) = Some p) by (by rewrite (mv_at _ _ _ Hm2), transp_r).
  pose proof (mv_ok _ _ _ Hm2) as Hok2. pose proof (mv_size _ _ _ Hm2) as Hs2.
  destruct (swap_spec a2 (pred (active d)) (pred (eligible d)) Hok2) as (a3 & -> & Hm3); [lia..|].
  pose proof (mv_size _ _ _ Hm3) as Hs3. exists a3. split; [done|].
  assert (HM : ∀ q, within a3 (pred (matching d)) q ↔ within (pipes d) (matching d) q ∧ q ≠ p).
  { intros q. rewrite (within_same_side _ _ _ _ _ _ Hm3), (within_same_side _ _ _ _ _ _ Hm2) by lia.
    by apply (within_demote _ _ i). }
  assert (HA : ∀ q, within a3 (pred (active d)) q ↔ within (pipes d) (active d) q ∧ q ≠ p).
  { intros q. rewrite (within_same_side _ _ _ _ _ _ Hm3) by lia.
    rewrite (within_demote a1 a2 (pred (matching d)) (active d) p q Hok1 Hm2) by (done || lia).
    by rewrite (within_same_side _ _ _ _ _ _ Hm1) by lia. }
  assert (HE : ∀ q, within a3 (pred (eligible d)) q ↔ within (pipes d) (eligible d) q ∧ q ≠ p).
  { intros q. rewrite (within_demote a2 a3 (pred (active d)) (eligible d) p q Hok2 Hm3) by (done || lia).
    by rewrite (within_same_side _ _ _ _ _ _ Hm2), (within_same_side _ _ _ _ _ _ Hm1) by lia. }
  split; [split; cbn [pipes matching active eligible more]; try done|].
  - split; cbn [pipes matching active eligible more]; [apply Hm3|lia|lia|lia|]. intros Hm. specialize (Hidle Hm). lia.
  - intros q. by rewrite (mv_elem _ _ _ Hm3), (mv_elem _ _ _ Hm2), (mv_elem _ _ _ Hm1).
  - intros k Hk. by rewrite (mv_at _ _ _ Hm3), transp_other, (mv_at _ _ _ Hm2), transp_other, (mv_at _ _ _ Hm1), transp_other by lia.
Qed.

(** ** Sending *)

Context `{!OutPipesLaws M W is_more}.

(** [write] either wrote to the pipe, or left it and demoted it. *)
Lemma dist_write_spec p m i d w : shape d → items (pipes d) !! i = Some p → (i < matching d)%nat →
  ∃ b d' w', write p m d w = Some (b, d', w') ∧
    if (b : bool) then d' = d ∧ written w' p = written w p ++ [m] ∧ ∀ q, q ≠ p → written w' q = written w q
    else demoted p d d' ∧ matching d' = pred (matching d) ∧ (∀ q, written w' q = written w q) ∧
         (out_write p m w).1 = false ∧ ∀ k, (k < i)%nat → items (pipes d') !! k = items (pipes d) !! k.
Proof.
  intros H Hp Hi. unfold write. pose proof (out_write_written p m w) as Hw.
  destruct (out_write p m w) as [wok w1]. cbn [fst snd] in *. destruct wok; cbn [andb] in Hw.
  - do 3 eexists. split; [done|]. cbn [fst snd].
    assert (Hf : ∀ q, written (if is_more m then w1 else out_flush p w1) q = written w1 q).
    { intros q. destruct (is_more m); [done|apply out_flush_written]. }
    split_and!; [done|by rewrite Hf, Hw, bool_decide_eq_true_2|].
    intros q Hq. by rewrite Hf, Hw, bool_decide_eq_false_2.
  - destruct (write_fail d p i H Hp Hi) as (ps & Hps & Hdem & Hlow).
    exists false, (Dist ps (matching d - 1) (active d - 1) (eligible d - 1) (more d)), w1.
    split; [|split_and!; [done|cbn; lia|done|done|done]].
    revert Hps. clear. destruct (index p (pipes d)) as [j|]; [|done]. cbn [mbind option_bind].
    destruct (swap j _ _) as [a1|]; [|done]. cbn [mbind option_bind].
    destruct (index p a1) as [j1|]; [|done]. cbn [mbind option_bind].
    destruct (swap j1 _ _) as [a2|]; [|done]. cbn [mbind option_bind]. by intros ->.
Qed.

Record sent (m : M) (i k : nat) (d : dist) (w : W) (d' : dist) (w' : W) : Prop := {
  se_shape : shape d';
  se_more : more d' = more d;
  se_count : (matching d' + k = matching d)%nat;
  se_bound : (i ≤ matching d')%nat;
  se_elem q : q ∈ items (pipes d') ↔ q ∈ items (pipes d);
  se_low j : (j < i)%nat → items (pipes d') !! j = items (pipes d) !! j;
  se_matching q : matches d' q → matches d q;
  se_active q : is_active d' q ↔ is_active d q ∧ (matches d q → matches d' q);
  se_eligible q : is_eligible d' q ↔ is_eligible d q ∧ (matches d q → matches d' q);
  se_written j q : (i ≤ j < matching d')%nat → items (pipes d') !! j = Some q →
    written w' q = written w q ++ [m];
  se_other q : ¬ (∃ j, (i ≤ j < matching d')%nat ∧ items (pipes d') !! j = Some q) →
    written w' q = written w q;
  se_failed q : matches d q → ¬ matches d' q → ∃ w1, (out_write q m w1).1 = false }.

Lemma sent_done m i d w : shape d → (matching d = i)%nat → sent m i 0 d w d w.
Proof.
  intros H Hi. split; try done; try lia.
  - tauto.
  - tauto.
Qed.

Lemma sent_wrote m i k p d w w1 d' w' : items (pipes d) !! i = Some p → (i < matching d)%nat →
  written w1 p = written w p ++ [m] → (∀ q, q ≠ p → written w1 q = written w q) →
  sent m (S i) k d w1 d' w' → sent m i k d w d' w'.
Proof.
  intros Hp Hi Hw1 Ho [Hsh Hmo Hcn Hbd Hel Hlow Hma Hac Hli Hwr Hot Hfa].
  pose proof (sh_ok _ Hsh) as Hok.
  assert (Hp' : items (pipes d') !! i = Some p) by (rewrite Hlow by lia; done).
  assert (Hpm : matches d' p) by (exists i; split; [lia|done]).
  assert (Hne : ∀ j q, items (pipes d') !! j = Some q → j ≠ i → q ≠ p).
  { intros j q Hj Hji ->. by apply Hji, (NoDup_lookup _ _ _ _ (ok_nodup _ Hok) Hj Hp'). }
  split; try done; try lia.
  - intros j Hj. apply Hlow. lia.
  - intros j q Hj Hq. destruct (decide (j = i)) as [->|Hji].
    + assert (q = p) as -> by congruence. rewrite Hot; [done|]. intros (j & Hj' & Hq').
      assert (j = i) by (by apply (NoDup_lookup _ _ _ _ (ok_nodup _ Hok) Hq' Hp')). lia.
    + rewrite (Hwr j q) by (lia || done). by rewrite Ho by (by eapply Hne).
  - intros q Hq. assert (q ≠ p) by (intros ->; apply Hq; exists i; split; [lia|done]).
    rewrite Hot, Ho; [done|done|]. intros (j & Hj & Hjq). apply Hq. exists j. split; [lia|done].
Qed.

Lemma sent_failed m i k p d w d1 w1 d' w' : (i < matching d)%nat → items (pipes d) !! i = Some p →
  demoted p d d1 → matching d1 = pred (matching d) → (∀ q, written w1 q = written w q) →
  (out_write p m w).1 = false → (∀ j, (j < i)%nat → items (pipes d1) !! j = items (pipes d) !! j) →
  sent m i k d1 w1 d' w' → sent m i (S k) d w d' w'.
Proof.
  intros Hi Hp [Hsh1 Hmo1 Hel1 Hma1 Hac1 Hli1] Hm1 Hw1 Hwh Hlow1 [Hsh Hmo Hcn Hbd Hel Hlow Hma Hac Hli Hwr Hot Hfa].
  assert (Hpd : matches d p) by (by exists i).
  assert (Hpm : ¬ matches d' p) by (intros Hpm; by apply Hma, Hma1 in Hpm as [_ ?]).
  split; try done; try lia.
  - congruence.
  - intros q. by rewrite Hel.
  - intros j Hj. rewrite Hlow by done. auto.
  - intros q Hq. by apply Hma, Hma1 in Hq as [? _].
  - intros q. rewrite Hac, Hac1, Hma1. destruct (decide (q = p)) as [->|]; tauto.
  - intros q. rewrite Hli, Hli1, Hma1. destruct (decide (q = p)) as [->|]; tauto.
  - intros j q Hj Hq. by rewrite (Hwr j q), Hw1.
  - intros q Hq. by rewrite Hot, Hw1.
  - intros q Hq Hnq. destruct (decide (q = p)) as [->|]; [by exists w|]. apply Hfa; [|done]. by apply Hma1.
Qed.

Lemma dist_loop_spec m n : ∀ i failed d w, shape d → (i ≤ matching d)%nat → (matching d - i = n)%nat →
  ∃ k d' w', dist_loop (S n) m i failed d w = Some ((failed + k)%nat, d', w') ∧ sent m i k d w d' w'.
Proof.
  induction n as [|n IH]; intros i failed d w H Hi Hn.
  - cbn [dist_loop]. rewrite decide_False by lia. exists 0%nat, d, w. rewrite Nat.add_0_r. split; [done|].
    apply sent_done; [done|lia].
  - assert (Hlt : (i < matching d)%nat) by lia.
    destruct (lookup_lt_is_Some_2 (items (pipes d)) i) as [p Hp].
    { destruct H. unfold size in *. lia. }
    assert (Heq : dist_loop (S (S n)) m i failed d w =
      '(b, d, w) ← write p m d w;
      if (b : bool) then dist_loop (S n) m (S i) failed d w else dist_loop (S n) m i (S failed) d w).
    { cbn [dist_loop]. rewrite decide_True by done. unfold at_. by rewrite Hp. }
    rewrite Heq. clear Heq. destruct (dist_write_spec p m i d w H Hp Hlt) as (b & d1 & w1 & -> & Hb). cbn [mbind option_bind].
    destruct b.
    + destruct Hb as (-> & Hw1 & Ho). destruct (IH (S i) failed d w1 H Hlt ltac:(lia)) as (k & d' & w' & -> & Hs).
      exists k, d', w'. split; [done|]. by eapply sent_wrote.
    + destruct Hb as (Hdem & Hm1 & Hw1 & Hwh & Hlow).
      destruct (IH i (S failed) d1 w1 (de_shape _ _ _ Hdem) ltac:(lia) ltac:(lia)) as (k & d' & w' & -> & Hs).
      exists (S k), d', w'. split; [f_equal; f_equal; f_equal; lia|]. by eapply sent_failed.
Qed.

(** The references handed out are those the pipes got. *)
Lemma distribute_spec m d w : shape d →
  ∃ k d' w', distribute m d w =
      Some (if is_vsm m then 0 else Z.of_nat (matching d'), d', w') ∧ sent m 0 k d w d' w'.
Proof.
  intros H. unfold distribute. destruct (decide (matching d = 0)%nat) as [H0|H0].
  - exists 0%nat, d, w. split; [by rewrite H0; destruct (is_vsm m)|]. by apply sent_done.
  - destruct (dist_loop_spec m (matching d) 0 0 d w H ltac:(lia) ltac:(lia)) as (k & d' & w' & -> & Hs).
    cbn [mbind option_bind Nat.add]. exists k, d', w'. pose proof (se_count _ _ _ _ _ _ _ Hs).
    destruct (is_vsm m); (split; [|done]); [done|]. f_equal. f_equal. f_equal. case_decide; lia.
Qed.

(** ** The history *)

Record ghost := Ghost {
  begun : list M;                         (* the parts of the message being sent *)
  history : list (list M * list Z);       (* the messages sent, and who got them *)
  broken : list Z }.                      (* who refused a part in the middle of a message *)

(** The part [m] was sent to the pipes [old]; the pipes [new] accepted it. *)
Definition record_send (m : M) (old new : list Z) (g : ghost) : ghost :=
  let refused := match begun g with [] => [] | _ :: _ => filter (λ q, q ∉ new) old end in
  if is_more m then Ghost (begun g ++ [m]) (history g) (refused ++ broken g)
  else Ghost [] (history g ++ [(begun g ++ [m], new)]) (refused ++ broken g).

Lemma record_broken m old new g q :
  q ∉ broken (record_send m old new g) ↔ q ∉ broken g ∧ (begun g ≠ [] → q ∈ old → q ∈ new).
Proof.
  assert (broken (record_send m old new g) =
    match begun g with [] => [] | _ :: _ => filter (λ q, q ∉ new) old end ++ broken g) as ->
    by (unfold record_send; by destruct (is_more m)).
  rewrite not_elem_of_app. destruct (begun g) as [|b bs]; [set_solver|].
  rewrite list_elem_of_filter. destruct (decide (q ∈ new)); naive_solver.
Qed.

Fixpoint delivered (p : Z) (h : list (list M * list Z)) : list M :=
  match h with
  | [] => []
  | (ms, ps) :: h => (if decide (p ∈ ps) then ms else []) ++ delivered p h
  end.

Lemma dist_delivered_snoc p h ms ps :
  delivered p (h ++ [(ms, ps)]) = delivered p h ++ (if decide (p ∈ ps) then ms else []).
Proof.
  induction h as [|[ms' ps'] h IH]; cbn [app delivered]; [by rewrite app_nil_r|].
  by rewrite IH, (assoc_L app).
Qed.

(** The pipes that match now. *)
Definition receivers (d : dist) : list Z := take (matching d) (items (pipes d)).

Lemma receivers_matches d q : q ∈ receivers d ↔ matches d q.
Proof. symmetry. apply within_take. Qed.

Definition partly (d : dist) (g : ghost) (q : Z) : list M :=
  if decide (more d = true ∧ q ∈ receivers d) then begun g else [].

Record inv (d : dist) (w : W) (g : ghost) : Prop := {
  i_shape : shape d;
  i_written q : q ∈ items (pipes d) → q ∉ broken g → written w q = delivered q (history g) ++ partly d g q;
  i_begun : unfinished is_more (begun g);
  i_more : more d = true ↔ begun g ≠ [] }.

Lemma dist_inv_new w : inv dist_new w (Ghost [] [] []).
Proof. split; cbn; [split; cbn; [apply ok_empty|lia..]|set_solver|constructor|done]. Qed.

Lemma send_to_matching_inv m d w g : inv d w g →
  ∃ d' w', send_to_matching m d w =
      Some (if is_vsm m then 0 else Z.of_nat (matching d'), d', w') ∧
    inv d' w' (record_send m (receivers d) (receivers d') g) ∧
    (∀ q, q ∈ items (pipes d') ↔ q ∈ items (pipes d)) ∧
    (∀ q, matches d' q → matches d q ∧ written w' q = written w q ++ [m]) ∧
    (∀ q, ¬ matches d' q → written w' q = written w q) ∧
    (∀ q, is_eligible d' q ↔ is_eligible d q ∧ (matches d q → matches d' q)) ∧
    (∀ q, matches d q → ¬ matches d' q → ∃ w1, (out_write q m w1).1 = false).
Proof.
  intros H. destruct H as [Hsh Hw Hb Hm]. unfold send_to_matching.
  destruct (distribute_spec m d w Hsh) as (k & d1 & w1 & -> & Hs). cbn [mbind option_bind].
  exists (Dist (pipes d1) (matching d1) (if is_more m then active d1 else eligible d1) (eligible d1) (is_more m)), w1.
  split; [done|]. destruct Hs as [Hsh1 Hmo1 Hcn Hbd Hel Hlow Hma Hac Hli Hwr Hot Hfa]. cbn [pipes matching active eligible more].
  assert (Hyes : ∀ q, matches d1 q → written w1 q = written w q ++ [m]).
  { intros q (j & Hj & Hq). apply (Hwr j q); [lia|done]. }
  assert (Hno : ∀ q, ¬ matches d1 q → written w1 q = written w q).
  { intros q Hq. apply Hot. intros (j & Hj & Hjq). apply Hq. exists j. split; [lia|done]. }
  split_and!; [|done|intros q Hq; split; auto|done|done|intros q Hq Hn; apply (Hfa q Hq Hn)].
  assert (Hcase : ∀ q, q ∈ items (pipes d1) → q ∉ broken (record_send m (receivers d) (receivers d1) g) → written w1 q =
     delivered q (history g) ++ (if decide (q ∈ receivers d1) then begun g ++ [m] else [])).
  { intros q Hq [Hbr Hrec]%record_broken. apply Hel in Hq. specialize (Hw q Hq Hbr). unfold partly in Hw.
    destruct (decide (q ∈ receivers d1)) as [Hr|Hr].
    - apply receivers_matches in Hr. rewrite Hyes, Hw, <- (assoc_L app) by done. f_equal. f_equal.
      destruct (decide _) as [|Hn]; [done|]. destruct (begun g) eqn:Hbg; [done|]. exfalso. apply Hn.
      split; [by apply Hm|]. apply receivers_matches. auto.
    - rewrite receivers_matches in Hr. rewrite Hno, Hw by done. f_equal.
      destruct (decide _) as [[Hmo Hrd]|]; [|done]. apply Hm in Hmo.
      by apply Hrec, receivers_matches in Hrd. }
  change (receivers (Dist (pipes d1) (matching d1) _ _ _)) with (receivers d1).
  unfold record_send in *. destruct (is_more m) eqn:Hmm; split; cbn [begun history more pipes].
  - destruct Hsh1. split; cbn [pipes matching active eligible more]; try done.
  - intros q Hq Hbr. rewrite (Hcase q Hq Hbr). f_equal. unfold partly, receivers. cbn [more pipes matching begun].
    fold (receivers d1). repeat case_decide; tauto || done.
  - apply Forall_app_2; [done|by constructor].
  - split; [|done]. intros _ Hn. by apply app_eq_nil in Hn as [_ ?].
  - destruct Hsh1. split; cbn [pipes matching active eligible more]; try done. lia.
  - intros q Hq Hbr. unfold partly. cbn [more]. rewrite (decide_False (P := _ ∧ _)) by (intros [? _]; done).
    rewrite app_nil_r, dist_delivered_snoc. by apply Hcase.
  - constructor.
  - done.
Qed.

(** ** Pipes come and go *)

(** Changes of the array that keep the matching pipes and their history. *)
Lemma inv_pipes d w g d' : inv d w g → shape d' → more d' = more d →
  (∀ q, q ∈ items (pipes d') → q ∈ items (pipes d) ∧ (more d = true → (matches d' q ↔ matches d q)) ∨
        written w q = [] ∧ delivered q (history g) = [] ∧ (more d = true → ¬ matches d' q)) →
  inv d' w g.
Proof.
  intros [Hsh Hw Hb Hm] Hsh' Hmo Hq. split; [done| |done|by rewrite Hmo].
  intros q Hin Hbr. destruct (Hq q Hin) as [[Hin' Hmt]|(Hwq & Hdq & Hmt)].
  - rewrite (Hw q Hin' Hbr). f_equal. unfold partly. rewrite Hmo.
    destruct (more d) eqn:E; [|repeat case_decide; naive_solver].
    specialize (Hmt eq_refl). rewrite <- !receivers_matches in Hmt. repeat case_decide; tauto || done.
  - rewrite Hwq, Hdq. unfold partly. rewrite decide_False; [done|]. rewrite Hmo, receivers_matches.
    intros [Hd Hmq]. by apply Hmt.
Qed.

Lemma dist_attach_inv p d w g : inv d w g → p ∉ items (pipes d) → written w p = [] → delivered p (history g) = [] →
  ∃ d', attach p d = Some d' ∧ inv d' w g ∧ is_eligible d' p ∧ (more d = false → is_active d' p).
Proof.
  intros H Hp Hw Hdel. pose proof (i_shape _ _ _ H) as [Hok Hma Hae Hes Hidle].
  destruct (push_back_spec _ _ Hok Hp) as [Hok1 Hit]. unfold attach. set (ps := push_back p (pipes d)) in *.
  assert (Hsz : size ps = S (size (pipes d))) by (unfold size; rewrite Hit, length_app; cbn; lia).
  assert (Hpl : items ps !! (size ps - 1)%nat = Some p).
  { rewrite Hit, lookup_app_r by (unfold size in *; lia). by replace (_ - _)%nat with 0%nat by (unfold size in *; lia). }
  assert (Hold : ∀ n q, (n ≤ size (pipes d))%nat → within ps n q ↔ within (pipes d) n q).
  { intros n q Hn. unfold within. setoid_rewrite Hit. split; intros (k & Hk & Hq); exists k; (split; [done|]).
    - by rewrite lookup_app_l in Hq by (unfold size in *; lia).
    - by rewrite lookup_app_l by (unfold size in *; lia). }
  destruct (swap_spec ps (eligible d) (size ps - 1) Hok1) as (a1 & Ha1 & Hmv); [lia..|].
  assert (Hma1 : ∀ q, within a1 (matching d) q ↔ within (pipes d) (matching d) q).
  { intros q. rewrite (within_same_side _ _ _ _ _ _ Hmv) by lia. apply Hold. lia. }
  assert (Hin : ∀ q, q ∈ items a1 → q = p ∨ q ∈ items (pipes d)).
  { intros q Hq. apply (mv_elem _ _ _ Hmv) in Hq. rewrite Hit, elem_of_app, list_elem_of_singleton in Hq. tauto. }
  assert (Hnp : ¬ within (pipes d) (matching d) p) by (intros Hc%within_elem; done).
  assert (Hpe : items a1 !! eligible d = Some p) by (by rewrite (mv_at _ _ _ Hmv), transp_l).
  assert (Hres : ∀ a, shape (Dist a1 (matching d) a (S (eligible d)) (more d)) → inv (Dist a1 (matching d) a (S (eligible d)) (more d)) w g).
  { intros a Hsh. apply (inv_pipes d); [done..|]. intros q Hq. cbn [pipes matching].
    destruct (decide (q = p)) as [->|Hne]; [right; split_and!; [done..|]; intros _; by rewrite Hma1|].
    left. split; [|by intros _]. by destruct (Hin q Hq). }
  destruct (more d) eqn:Hm.
  - rewrite Ha1. cbn [mbind option_bind]. eexists. split; [done|]. split_and!; [|exists (eligible d); cbn; split; [lia|done]|done].
    apply Hres. split; cbn [pipes matching active eligible more]; [apply Hmv|lia|lia| |done].
    rewrite (mv_size _ _ _ Hmv). lia.
  - rewrite (Hidle eq_refl), Ha1. cbn [mbind option_bind]. eexists. split; [done|].
    split_and!; [|exists (eligible d); cbn; split; [lia|done]|intros _; exists (eligible d); cbn; split; [lia|done]].
    apply Hres. split; cbn [pipes matching active eligible more]; [apply Hmv|lia|lia| |done].
    rewrite (mv_size _ _ _ Hmv). lia.
Qed.

Lemma dist_activated_inv p k d w g : inv d w g → items (pipes d) !! k = Some p → (eligible d ≤ k)%nat →
  ∃ d', activated p d = Some d' ∧ inv d' w g ∧ is_eligible d' p ∧ (more d = false → is_active d' p).
Proof.
  intros H Hk Hge. pose proof (i_shape _ _ _ H) as [Hok Hma Hae Hes Hidle].
  pose proof (lookup_lt_Some _ _ _ Hk) as Hlt. fold (size (pipes d)) in Hlt. unfold activated.
  rewrite decide_True by lia. unfold index. rewrite (ok_index _ Hok _ _ Hk). cbn [mbind option_bind].
  destruct (swap_spec (pipes d) k (eligible d) Hok) as (a1 & -> & Hmv); [lia..|]. cbn [mbind option_bind].
  assert (Hpe : items a1 !! eligible d = Some p) by (by rewrite (mv_at _ _ _ Hmv), transp_r).
  pose proof (mv_size _ _ _ Hmv) as Hs1. cbn [pipes matching active eligible more].
  assert (Hres : ∀ a2 ac, (∀ n q, (n ≤ eligible d)%nat → within a2 n q ↔ within a1 n q) → (∀ q, q ∈ items a2 ↔ q ∈ items a1) →
    shape (Dist a2 (matching d) ac (S (eligible d)) (more d)) → inv (Dist a2 (matching d) ac (S (eligible d)) (more d)) w g).
  { intros a2 ac Hwi He2 Hsh. apply (inv_pipes d); [done..|]. intros q Hq. left. cbn [pipes matching] in *.
    split; [by apply He2, (mv_elem _ _ _ Hmv) in Hq|]. intros _.
    rewrite Hwi, (within_same_side _ _ _ _ _ _ Hmv) by lia. done. }
  destruct (more d) eqn:Hm; cbn [negb andb].
  - eexists. split; [done|]. split_and!; [|exists (eligible d); cbn; split; [lia|done]|done].
    apply Hres; [done..|]. split; cbn [pipes matching active eligible more]; [apply Hmv|lia|lia|lia|done].
  - rewrite bool_decide_eq_true_2 by lia. pose proof (Hidle eq_refl) as Hai.
    destruct (swap_spec a1 (S (eligible d) - 1) (active d) (mv_ok _ _ _ Hmv)) as (a2 & -> & Hmv2); [lia..|].
    cbn [mbind option_bind]. eexists. split; [done|]. pose proof (mv_size _ _ _ Hmv2) as Hs2.
    assert (Hpe2 : items a2 !! eligible d = Some p).
    { rewrite (mv_at _ _ _ Hmv2). unfold transp. rewrite decide_True by lia. by rewrite Hai. }
    split_and!; [|exists (eligible d); cbn; split; [lia|done]|intros _; exists (eligible d); cbn; split; [lia|done]].
    apply Hres.
    + intros n q Hn. apply (within_same_side _ _ _ _ _ _ Hmv2). lia.
    + apply (mv_elem _ _ _ Hmv2).
    + split; cbn [pipes matching active eligible more]; [apply Hmv2|lia|lia|lia|intros; lia].
Qed.

(** One of the three stages of [pipe_terminated]: the pipe leaves the pipes
    before the bound [n]. *)
Definition cut (a : array) (p : Z) (n : nat) : option (array * nat) :=
  i ← index p a;
  if decide (i < n)%nat then ps ← swap i (n - 1) a; Some (ps, n - 1)%nat else Some (a, n).

Lemma cut_spec a p i n : ok a → items a !! i = Some p → (n ≤ size a)%nat →
  ∃ a' n' i', cut a p n = Some (a', n') ∧ ok a' ∧ size a' = size a ∧ items a' !! i' = Some p ∧
    (n' = if decide (i < n)%nat then pred n else n) ∧ (i' = if decide (i < n)%nat then pred n else i) ∧
    (∀ q, q ∈ items a' ↔ q ∈ items a) ∧
    (∀ q, within a' n' q ↔ within a n q ∧ q ≠ p) ∧
    (∀ b q, (n ≤ b)%nat → within a' b q ↔ within a b q) ∧
    (∀ b q, (b ≤ i)%nat → (b ≤ n')%nat → within a' b q ↔ within a b q).
Proof.
  intros H Hi Hn. unfold cut, index. rewrite (ok_index _ H _ _ Hi). cbn [mbind option_bind].
  destruct (decide (i < n)%nat) as [Hin|Hin].
  - replace (n - 1)%nat with (pred n) by lia. destruct (swap_spec a i (pred n) H) as (a' & -> & Hmv); [lia..|].
    cbn [mbind option_bind]. exists a', (pred n), (pred n).
    assert (Hp : items a' !! pred n = Some p) by (by rewrite (mv_at _ _ _ Hmv), transp_r).
    split_and!; [done|apply Hmv|apply Hmv|done|done|done|apply Hmv| | |].
    + intros q. by apply (within_demote a a' i).
    + intros b q Hb. apply (within_same_side _ _ _ _ _ _ Hmv). lia.
    + intros b q Hb Hbn. apply (within_same_side _ _ _ _ _ _ Hmv). lia.
  - exists a, n, i. split_and!; try done. intros q. split; [|by intros [? _]]. intros Hq. split; [done|]. intros ->.
    apply (within_index a n p i H Hi) in Hq. done.
Qed.

Lemma pipe_terminated_cut p d :
  pipe_terminated p d =
  '(ps, m) ← cut (pipes d) p (matching d);
  '(ps, a) ← cut ps p (active d);
  '(ps, e) ← cut ps p (eligible d);
  ps ← erase p ps;
  Some (Dist ps m a e (more d)).
Proof.
  unfold pipe_terminated, cut. destruct (index p (pipes d)) as [i|]; [|done]. cbn [mbind option_bind].
  destruct (if decide (i < matching d)%nat then _ else _) as [[a1 n1]|]; [|done]. cbn [mbind option_bind].
  destruct (index p a1) as [i1|]; [|done]. cbn [mbind option_bind].
  destruct (if decide (i1 < active d)%nat then _ else _) as [[a2 n2]|]; [|done]. cbn [mbind option_bind].
  destruct (index p a2) as [i2|]; [|done]. cbn [mbind option_bind]. done.
Qed.

Lemma dist_terminated_inv p k d w g : inv d w g → items (pipes d) !! k = Some p →
  ∃ d', pipe_terminated p d = Some d' ∧ inv d' w g ∧
    (∀ q, q ∈ items (pipes d') ↔ q ∈ items (pipes d) ∧ q ≠ p) ∧
    (∀ q, matches d' q ↔ matches d q ∧ q ≠ p).
Proof.
  intros H Hk. pose proof (i_shape _ _ _ H) as [Hok Hma Hae Hes Hidle]. rewrite pipe_terminated_cut.
  destruct (cut_spec (pipes d) p k (matching d) Hok Hk) as (a1 & m' & k1 & -> & Hok1 & Hs1 & Hk1 & Hm' & Hk1' & He1 & Hw1 & Hup1 & Hlo1); [lia|].
  cbn [mbind option_bind].
  destruct (cut_spec a1 p k1 (active d) Hok1 Hk1) as (a2 & ac & k2 & -> & Hok2 & Hs2 & Hk2 & Hac & Hk2' & He2 & Hw2 & Hup2 & Hlo2); [lia|].
  cbn [mbind option_bind].
  destruct (cut_spec a2 p k2 (eligible d) Hok2 Hk2) as (a3 & el & k3 & -> & Hok3 & Hs3 & Hk3 & Hel & Hk3' & He3 & Hw3 & Hup3 & Hlo3); [lia|].
  cbn [mbind option_bind].
  destruct (erase_spec a3 p k3 Hok3 Hk3) as (a4 & -> & Hok4 & Hs4 & Hat4 & He4). cbn [mbind option_bind].
  pose proof (lookup_lt_Some _ _ _ Hk3) as Hk3l. fold (size a3) in Hk3l.
  assert (Hb : (m' ≤ ac)%nat ∧ (ac ≤ el)%nat ∧ (el ≤ k3)%nat ∧ (m' ≤ k1)%nat ∧ (m' ≤ k2)%nat ∧ (ac ≤ k2)%nat ∧ (more d = false → ac = el)).
  { split_and!; repeat case_decide; subst; try lia. all: intros Hm; specialize (Hidle Hm); lia. }
  destruct Hb as (Hb1 & Hb2 & Hb3 & Hb4 & Hb5 & Hb6 & Hb7).
  assert (Hm4 : ∀ q, within a4 m' q ↔ within (pipes d) (matching d) q ∧ q ≠ p).
  { intros q. rewrite <- Hw1, <- (Hlo2 m' q), <- (Hlo3 m' q) by lia. unfold within.
    split; intros (j & Hj & Hq); exists j; (split; [done|]).
    - rewrite Hat4 in Hq by lia. by rewrite decide_False in Hq by lia.
    - rewrite Hat4 by lia. by rewrite decide_False by lia. }
  assert (Hin : ∀ q, q ∈ items a4 ↔ q ∈ items (pipes d) ∧ q ≠ p) by (intros q; by rewrite He4, He3, He2, He1).
  eexists. split; [done|]. cbn [pipes matching]. split_and!; [|done|done].
  apply (inv_pipes d); [done|split; cbn [pipes matching active eligible more]; [done|lia|lia|lia|done]|done|].
  intros q Hq. left. cbn [pipes matching] in *. apply Hin in Hq as [Hq Hqp]. split; [done|]. intros _. rewrite Hm4. tauto.
Qed.

(** ** Matching *)

Lemma match_inv p k d w g : inv d w g → items (pipes d) !! k = Some p → more d = false →
  ∃ d', match_ p d = Some d' ∧ inv d' w g ∧
    (∀ q, matches d' q ↔ matches d q ∨ (q = p ∧ is_eligible d p)) ∧ more d' = more d ∧
    (∀ q, q ∈ items (pipes d') ↔ q ∈ items (pipes d)) ∧ (∀ q, is_eligible d' q ↔ is_eligible d q).
Proof.
  intros H Hk Hm. pose proof (i_shape _ _ _ H) as [Hok Hma Hae Hes Hidle]. specialize (Hidle Hm).
  unfold match_, index. rewrite (ok_index _ Hok _ _ Hk). cbn [mbind option_bind].
  pose proof (within_index (pipes d) (eligible d) p k Hok Hk) as Hwi.
  destruct (decide (k < matching d)%nat) as [Hkm|Hkm].
  { exists d. split_and!; try done. intros q. split; [tauto|]. intros [?|[-> _]]; [done|]. by exists k. }
  destruct (decide (eligible d ≤ k)%nat) as [Hke|Hke].
  { exists d. split_and!; try done. intros q. split; [tauto|]. intros [?|[_ ?%Hwi]]; [done|lia]. }
  destruct (swap_spec (pipes d) k (matching d) Hok) as (a1 & -> & Hmv); [lia..|]. cbn [mbind option_bind].
  eexists. split; [done|]. cbn [pipes matching eligible more]. split_and!; [| |done|apply Hmv|].
  - apply (inv_pipes d); [done| |done|].
    + split; cbn [pipes matching active eligible more]; [apply Hmv|lia|lia| |done]. by rewrite (mv_size _ _ _ Hmv).
    + intros q Hq. left. cbn [pipes] in Hq. split; [by apply (mv_elem _ _ _ Hmv)|]. by rewrite Hm.
  - intros q. rewrite (within_promote (pipes d) a1 k (matching d) p q Hok Hmv) by (done || lia).
    split; [intros [?|?]; [by left|right; split; [done|apply Hwi; lia]]|intros [?|[? _]]; [by left|by right]].
  - intros q. apply (within_same_side _ _ _ _ _ _ Hmv). lia.
Qed.

Lemma unmatch_inv d w g : inv d w g → more d = false → inv (unmatch d) w g ∧ ∀ q, ¬ matches (unmatch d) q.
Proof.
  intros H Hm. split; [|intros q; apply within_0]. pose proof (i_shape _ _ _ H) as [Hok Hma Hae Hes Hidle].
  apply (inv_pipes d); [done|split; cbn [unmatch pipes matching active eligible more]; (done || lia)|done|].
  intros q Hq. left. cbn [unmatch pipes] in Hq. split; [done|]. by rewrite Hm.
Qed.

Lemma reverse_loop_spec a0 e ac mo prev fuel : ∀ i a mt,
  ok a → size a = size a0 → (∀ q, q ∈ items a ↔ q ∈ items a0) → (e ≤ size a0)%nat → (i ≤ e)%nat →
  (e - i < fuel)%nat → (prev + mt = i)%nat →
  (∀ j, (j < mt)%nat → items a !! j = items a0 !! (prev + j)%nat) →
  (∀ j, (i ≤ j)%nat → items a !! j = items a0 !! j) →
  ∃ a', reverse_loop fuel i (Dist a mt ac e mo) = Some (Dist a' (e - prev) ac e mo) ∧
    ok a' ∧ size a' = size a0 ∧ (∀ q, q ∈ items a' ↔ q ∈ items a0) ∧
    (∀ j, (j < e - prev)%nat → items a' !! j = items a0 !! (prev + j)%nat) ∧
    (∀ j, (e ≤ j)%nat → items a' !! j = items a0 !! j).
Proof.
  induction fuel as [|fuel IH]; intros i a mt Hok Hs Hel He Hi Hn Hpm Hlow Hhigh; [lia|].
  cbn [reverse_loop eligible pipes matching active more].
  destruct (decide (i < e)%nat) as [Hie|Hie].
  - destruct (swap_spec a i mt Hok) as (a1 & -> & Hmv); [lia..|]. cbn [mbind option_bind].
    apply IH; try lia.
    + apply Hmv.
    + by rewrite (mv_size _ _ _ Hmv).
    + intros q. by rewrite (mv_elem _ _ _ Hmv).
    + intros j Hj. rewrite (mv_at _ _ _ Hmv). unfold transp. destruct (decide (j = i)) as [->|Hji].
      * replace mt with i by lia. rewrite Hhigh by lia. f_equal. lia.
      * destruct (decide (j = mt)) as [->|Hjm]; [rewrite Hhigh by lia; f_equal; lia|]. apply Hlow. lia.
    + intros j Hj. rewrite (mv_at _ _ _ Hmv), transp_other by lia. apply Hhigh. lia.
  - exists a. replace (e - prev)%nat with mt by lia. split_and!; try done. intros j Hj. apply Hhigh. lia.
Qed.

Lemma reverse_match_inv d w g : inv d w g → more d = false →
  ∃ d', reverse_match d = Some d' ∧ inv d' w g ∧ (∀ q, matches d' q ↔ is_eligible d q ∧ ¬ matches d q) ∧
    more d' = more d ∧ (∀ q, q ∈ items (pipes d') ↔ q ∈ items (pipes d)) ∧ ∀ q, is_eligible d' q → is_eligible d q.
Proof.
  intros H Hm. pose proof (i_shape _ _ _ H) as [Hok Hma Hae Hes Hidle]. specialize (Hidle Hm).
  unfold reverse_match, unmatch.
  destruct (reverse_loop_spec (pipes d) (eligible d) (active d) (more d) (matching d) (S (eligible d)) (matching d) (pipes d) 0)
    as (a' & -> & Hok' & Hs' & Hel' & Hat' & Htop'); try done; [lia..|].
  eexists. split; [done|]. cbn [pipes matching eligible more]. split_and!; [| |done|done|].
  - apply (inv_pipes d); [done|split; cbn [pipes matching active eligible more]; done || lia|done|].
    intros q Hq. left. cbn [pipes] in Hq. split; [by apply Hel'|]. by rewrite Hm.
  - intros q. split.
    + intros (j & Hj & Hq). rewrite Hat' in Hq by done. split; [exists (matching d + j)%nat; split; [lia|done]|].
      intros Hc. apply (within_index _ _ _ _ Hok Hq) in Hc. lia.
    + intros [(j & Hj & Hq) Hn]. assert (matching d ≤ j)%nat.
      { destruct (decide (j < matching d)%nat); [|lia]. destruct Hn. by exists j. }
      exists (j - matching d)%nat. split; [lia|]. rewrite Hat' by lia. by replace (matching d + (j - matching d))%nat with j by lia.
  - intros q (k & Hk & Hq). assert (q ∈ items (pipes d)) as [j Hj]%list_elem_of_lookup by (by apply Hel', (list_elem_of_lookup_2 _ k)).
    exists j. split; [|done]. destruct (decide (j < eligible d)%nat); [done|]. rewrite <- Htop' in Hj by lia.
    pose proof (NoDup_lookup _ _ _ _ (ok_nodup _ Hok') Hq Hj). lia.
Qed.

(** ** Other writers *)

Lemma dist_inv_written d w w' g : inv d w g → (∀ q, written w' q = written w q) → inv d w' g.
Proof. intros [Hsh Hw Hb Hm] Hww. split; try done. intros q Hq Hbr. rewrite Hww. auto. Qed.

(** A pipe that is gone leaves the history. *)
Definition purge (p : Z) (g : ghost) : ghost :=
  Ghost (begun g) ((λ h, (h.1, filter (λ q, q ≠ p) h.2)) <$> history g) (filter (λ q, q ≠ p) (broken g)).

Lemma delivered_purge p h q :
  delivered q ((λ h : list M * list Z, (h.1, filter (λ q, q ≠ p) h.2)) <$> h) = if decide (q = p) then [] else delivered q h.
Proof.
  induction h as [|[ms ps] h IH]; cbn [fmap list_fmap delivered fst snd]; [by case_decide|].
  rewrite IH. destruct (decide (q = p)) as [->|Hq].
  - rewrite decide_False; [done|]. rewrite list_elem_of_filter. by intros [? _].
  - f_equal. apply decide_ext. rewrite list_elem_of_filter. tauto.
Qed.

Lemma dist_purge p d w g : inv d w g → p ∉ items (pipes d) →
  inv d w (purge p g) ∧ delivered p (history (purge p g)) = [] ∧ p ∉ broken (purge p g).
Proof.
  intros [Hsh Hw Hb Hm] Hp. split; [|cbn [purge history broken]; rewrite delivered_purge, decide_True, list_elem_of_filter by done; tauto].
  split; [done| |done|done]. intros q Hq Hbr. assert (q ≠ p) by (intros ->; done). cbn [purge history broken] in *.
  rewrite delivered_purge, decide_False by done. apply Hw; [done|]. intros Hc. apply Hbr. by apply list_elem_of_filter.
Qed.

(** Messages written to one pipe by the owner of the distributor. *)
Lemma dist_extra d w w' g p ms : inv d w g → partly d g p = [] →
  (∀ q, written w' q = if decide (q = p) then written w q ++ ms else written w q) →
  inv d w' (Ghost (begun g) (history g ++ [(ms, [p])]) (broken g)).
Proof.
  intros [Hsh Hw Hb Hm] Hp Hw'. split; [done| |done|done]. intros q Hq Hbr. cbn [history broken] in *.
  rewrite Hw', dist_delivered_snoc, (Hw q Hq Hbr).
  change (partly d (Ghost (begun g) (history g ++ [(ms, [p])]) (broken g)) q) with (partly d g q).
  destruct (decide (q = p)) as [->|Hne].
  - by rewrite Hp, !app_nil_r, decide_True by (by left).
  - rewrite (decide_False (P := q ∈ [p])) by set_solver. by rewrite app_nil_r.
Qed.

Lemma partly_new d w g p : inv d w g → p ∈ items (pipes d) → p ∉ broken g → written w p = [] → partly d g p = [].
Proof. intros [_ Hw _ _] Hp Hbr Hwp. rewrite (Hw p Hp Hbr) in Hwp. by apply app_eq_nil in Hwp as [_ ?]. Qed.

(** ** What the other operations leave alone *)

Lemma attach_frame p d w g d' : inv d w g → p ∉ items (pipes d) → attach p d = Some d' →
  matching d' = matching d ∧ more d' = more d ∧ ∀ q, q ∈ items (pipes d') ↔ q = p ∨ q ∈ items (pipes d).
Proof.
  intros H Hp. pose proof (i_shape _ _ _ H) as [Hok _ _ _ _]. destruct (push_back_spec _ _ Hok Hp) as [Hok1 Hit].
  unfold attach. set (ps := push_back p (pipes d)) in *.
  assert (Hel : ∀ i j a, swap i j ps = Some a → ∀ q, q ∈ items a ↔ q = p ∨ q ∈ items (pipes d)).
  { intros i j a Hs q. rewrite (mv_elem _ _ _ (swap_moved _ _ _ _ Hok1 Hs)), Hit, elem_of_app, list_elem_of_singleton. tauto. }
  destruct (more d) eqn:Hm; destruct (swap _ _ ps) as [a|] eqn:Hs; try done; cbn [mbind option_bind]; intros [= <-]; eauto.
Qed.

Lemma activated_frame p d w g d' : inv d w g → activated p d = Some d' →
  matching d' = matching d ∧ more d' = more d ∧ ∀ q, q ∈ items (pipes d') ↔ q ∈ items (pipes d).
Proof.
  intros H. pose proof (i_shape _ _ _ H) as [Hok _ _ _ _]. unfold activated. intros Ha.
  destruct (if decide (eligible d < size (pipes d))%nat then _ else _) as [d1|] eqn:Hd1; [|done]. cbn [mbind option_bind] in Ha.
  assert (H1 : ok (pipes d1) ∧ matching d1 = matching d ∧ more d1 = more d ∧ ∀ q, q ∈ items (pipes d1) ↔ q ∈ items (pipes d)).
  { case_decide; [|by simplify_eq]. destruct (index p (pipes d)) as [i|]; [|done]. cbn [mbind option_bind] in Hd1.
    destruct (swap i _ _) as [a|] eqn:Hs; [|done]. cbn [mbind option_bind] in Hd1. simplify_eq.
    pose proof (swap_moved _ _ _ _ Hok Hs) as Hmv. cbn. split_and!; [apply Hmv|done..|apply Hmv]. }
  destruct H1 as (Hok1 & Hma1 & Hmo1 & Hel1). destruct (negb (more d1) && _); [|by simplify_eq].
  destruct (swap _ _ (pipes d1)) as [a|] eqn:Hs; [|done]. cbn [mbind option_bind] in Ha. simplify_eq. cbn.
  split_and!; [done..|]. intros q. by rewrite (mv_elem _ _ _ (swap_moved _ _ _ _ Hok1 Hs)).
Qed.

Lemma terminated_frame p d d' : pipe_terminated p d = Some d' → (matching d' ≤ matching d)%nat ∧ more d' = more d.
Proof.
  rewrite pipe_terminated_cut. intros H.
  destruct (cut (pipes d) p (matching d)) as [[a1 m]|] eqn:H1; [|done]. cbn [mbind option_bind] in H.
  destruct (cut a1 p _) as [[a2 ac]|]; [|done]. cbn [mbind option_bind] in H.
  destruct (cut a2 p _) as [[a3 e]|]; [|done]. cbn [mbind option_bind] in H.
  destruct (erase p a3) as [a4|]; [|done]. cbn [mbind option_bind] in H. simplify_eq. cbn. split; [|done].
  unfold cut in H1. destruct (index p (pipes d)) as [i|]; [|done]. cbn [mbind option_bind] in H1. case_decide.
  - destruct (swap _ _ _); [|done]. cbn [mbind option_bind] in H1. simplify_eq. lia.
  - by simplify_eq.
Qed.

(** ** All the behaviours

    A step of the socket or of its pipes.  The socket changes the matching
    pipes between messages only; [send_to_all] starts a message or goes on with
    one that was started with it. *)
Inductive step : dist * W * ghost → dist * W * ghost → Prop :=
| s_send d w g m refs d' w' :
    send_to_matching m d w = Some (refs, d', w') →
    step (d, w, g) (d', w', record_send m (receivers d) (receivers d') g)
| s_send_all d w g m refs d' w' :
    (more d = true → matching d = active d) → send_to_all m d w = Some (refs, d', w') →
    step (d, w, g) (d', w', record_send m (take (active d) (items (pipes d))) (receivers d') g)
| s_match d w g p d' :
    more d = false → p ∈ items (pipes d) → match_ p d = Some d' → step (d, w, g) (d', w, g)
| s_unmatch d w g : more d = false → step (d, w, g) (unmatch d, w, g)
| s_reverse d w g d' : more d = false → reverse_match d = Some d' → step (d, w, g) (d', w, g)
| s_pipes d w g w' : (∀ q, written w' q = written w q) → step (d, w, g) (d, w', g)
| s_attach d w g p d' :
    p ∉ items (pipes d) → written w p = [] → delivered p (history g) = [] → attach p d = Some d' →
    step (d, w, g) (d', w, g)
| s_activated d w g p k d' :
    items (pipes d) !! k = Some p → (eligible d ≤ k)%nat → activated p d = Some d' →
    step (d, w, g) (d', w, g)
| s_terminated d w g p k d' :
    items (pipes d) !! k = Some p → pipe_terminated p d = Some d' → step (d, w, g) (d', w, g).

Definition reachable (w0 : W) (st : dist * W * ghost) : Prop :=
  rtc step (dist_new, w0, Ghost [] [] []) st.

Lemma all_inv d w g : inv d w g → (more d = true → matching d = active d) →
  inv (Dist (pipes d) (active d) (active d) (eligible d) (more d)) w g.
Proof.
  intros H Hm. pose proof (i_shape _ _ _ H) as [Hok Hma Hae Hes Hidle].
  apply (inv_pipes d); [done|split; cbn [pipes matching active eligible more]; done || lia|done|].
  intros q Hq. left. cbn [pipes matching] in *. split; [done|]. intros Hmt. by rewrite (Hm Hmt).
Qed.

Lemma dist_step_ok d w g d' w' g' : inv d w g → step (d, w, g) (d', w', g') → inv d' w' g'.
Proof.
  intros H Hs. inversion Hs; subst; clear Hs.
  - destruct (send_to_matching_inv m d w g H) as (d1 & w1 & Heq & Hinv & _). by simplify_eq.
  - destruct (send_to_matching_inv m _ w g (all_inv d w g H ltac:(done))) as (d1 & w1 & Heq & Hinv & _).
    unfold send_to_all in *. by simplify_eq.
  - match goal with Hp : _ ∈ items (pipes d) |- _ => destruct (proj1 (list_elem_of_lookup _ _) Hp) as [k Hk] end.
    destruct (match_inv p k d w' g' H Hk) as (d1 & Heq & Hinv & _); [done|]. by simplify_eq.
  - by apply unmatch_inv.
  - destruct (reverse_match_inv d w' g' H) as (d1 & Heq & Hinv & _); [done|]. by simplify_eq.
  - by eapply dist_inv_written.
  - destruct (dist_attach_inv p d w' g' H) as (d1 & Heq & Hinv & _); [done..|]. by simplify_eq.
  - destruct (dist_activated_inv p k d w' g' H) as (d1 & Heq & Hinv & _); [done..|]. by simplify_eq.
  - destruct (dist_terminated_inv p k d w' g' H) as (d1 & Heq & Hinv & _); [done|]. by simplify_eq.
Qed.

Lemma dist_reachable_inv w0 d w g : reachable w0 (d, w, g) → inv d w g.
Proof.
  intros Hr. refine (rtc_ind_r (λ st, inv st.1.1 st.1.2 st.2) _ _ _ _ Hr).
  - apply dist_inv_new.
  - intros [[d1 w1] g1] [[d2 w2] g2] _ Hs H1. by eapply dist_step_ok.
Qed.

(** C31. Distribution: in every run (the socket chooses the matching pipes between
    messages only, see [step]) the bounds of the array stay ordered, and each attached pipe that never refused a part in the middle of a message has
    been written exactly the whole messages it was among the receivers of, in
    order, and the parts of the current message if it still matches.  The next
    part is written once to every matching pipe that accepts it and to no other;
    a pipe that refuses it has nothing written, leaves the matching, the active
    and the eligible pipes, and so gets no further part of the message; and of
    the references added to the message's content exactly one is left per pipe
    that was written it (none for a message without shared content). *)
Theorem dist_delivers w0 d w g m : reachable w0 (d, w, g) →
  (matching d ≤ active d ≤ eligible d)%nat ∧ (eligible d ≤ size (pipes d))%nat ∧
  (∀ q, q ∈ items (pipes d) → q ∉ broken g → written w q = delivered q (history g) ++ partly d g q) ∧
  ∃ d' w', send_to_matching m d w = Some (if is_vsm m then 0 else Z.of_nat (length (receivers d')), d', w') ∧
    (∀ q, q ∈ receivers d' → q ∈ receivers d ∧ written w' q = written w q ++ [m]) ∧
    (∀ q, q ∉ receivers d' → written w' q = written w q) ∧
    (∀ q, q ∈ receivers d → q ∉ receivers d' →
       (∃ w1, (out_write q m w1).1 = false) ∧ ¬ is_active d' q ∧ ¬ is_eligible d' q).
Proof.
  intros Hr. pose proof (dist_reachable_inv _ _ _ _ Hr) as H. pose proof (i_shape _ _ _ H) as [Hok Hma Hae Hes Hidle].
  destruct (send_to_matching_inv m d w g H) as (d' & w' & Heq & Hinv & Hel & Hyes & Hno & Hli & Href).
  split_and!; [lia..|apply H|]. exists d', w'.
  assert (Hlen : length (receivers d') = matching d').
  { unfold receivers. rewrite length_take. pose proof (i_shape _ _ _ Hinv) as [_ ? ? ? _]. unfold size in *. lia. }
  rewrite Hlen. split_and!; [done| | |].
  - intros q Hq. rewrite receivers_matches in *. by apply Hyes.
  - intros q Hq. rewrite receivers_matches in *. by apply Hno.
  - intros q Hq Hnq. rewrite receivers_matches in *. split; [by apply Href|].
    assert (He : ¬ is_eligible d' q) by (intros He; apply Hli in He as [_ He]; auto).
    split; [|done]. intros Ha. apply He. eapply within_mono; [|exact Ha]. apply Hinv.
Qed.

(** Matching, inverting the match and removing a pipe change the set of
    matching pipes as they should: [match_] adds an eligible pipe,
    [reverse_match] takes exactly the eligible pipes that did not match, and
    [pipe_terminated] removes the pipe from the array. *)
Theorem dist_matching w0 d w g p k : reachable w0 (d, w, g) → items (pipes d) !! k = Some p →
  (more d = false →
     (∃ d', match_ p d = Some d' ∧ ∀ q, matches d' q ↔ matches d q ∨ (q = p ∧ is_eligible d p)) ∧
     (∃ d', reverse_match d = Some d' ∧ ∀ q, matches d' q ↔ is_eligible d q ∧ ¬ matches d q)) ∧
  ∃ d', pipe_terminated p d = Some d' ∧ (∀ q, q ∈ items (pipes d') ↔ q ∈ items (pipes d) ∧ q ≠ p) ∧
    ∀ q, matches d' q ↔ matches d q ∧ q ≠ p.
Proof.
  intros Hr Hk. pose proof (dist_reachable_inv _ _ _ _ Hr) as H. split.
  - intros Hm. split.
    + destruct (match_inv p k d w g H Hk Hm) as (d' & Heq & _ & Hd & _). eauto.
    + destruct (reverse_match_inv d w g H Hm) as (d' & Heq & _ & Hd & _). eauto.
  - destruct (dist_terminated_inv p k d w g H Hk) as (d' & Heq & _ & Hd1 & Hd2). eauto.
Qed.
End dist.

(** ** Witnesses: the pipes 1 and 2 of three match. *)

Definition ex_empty : lists := λ _, [].
Definition ex_pipes : array := push_back 3 (push_back 2 (push_back 1 empty)).
Definition ex_dist1 : dist := Dist (push_back 1 empty) 0 1 1 false.
Definition ex_dist2 : dist := Dist (push_back 2 (push_back 1 empty)) 0 2 2 false.
Definition ex_dist3 : dist := Dist ex_pipes 0 3 3 false.
Definition ex_dist4 : dist := Dist ex_pipes 1 3 3 false.
Definition ex_dist5 : dist := Dist ex_pipes 2 3 3 false.

Lemma dist_reachable : reachable snd (λ _, false) ex_empty (ex_dist5, ex_empty, Ghost [] [] []).
Proof.
  eapply rtc_l; [apply (s_attach snd _ dist_new ex_empty (Ghost [] [] []) 1 ex_dist1); [cbn; set_solver|done|done|vm_compute; reflexivity]|].
  eapply rtc_l; [apply (s_attach snd _ ex_dist1 ex_empty (Ghost [] [] []) 2 ex_dist2); [cbn; set_solver|done|done|vm_compute; reflexivity]|].
  eapply rtc_l; [apply (s_attach snd _ ex_dist2 ex_empty (Ghost [] [] []) 3 ex_dist3); [cbn; set_solver|done|done|vm_compute; reflexivity]|].
  eapply rtc_l; [apply (s_match snd _ ex_dist3 ex_empty (Ghost [] [] []) 1 ex_dist4); [done|cbn; set_solver|vm_compute; reflexivity]|].
  eapply rtc_l; [apply (s_match snd _ ex_dist4 ex_empty (Ghost [] [] []) 2 ex_dist5); [done|cbn; set_solver|vm_compute; reflexivity]|].
  apply rtc_refl.
Qed.

Lemma dist_delivers_witness :
  reachable snd (λ _, false) ex_empty (ex_dist5, ex_empty, Ghost [] [] []) ∧
  ∃ d' w', send_to_matching snd (λ _, false) (7, false) ex_dist5 ex_empty = Some (Z.of_nat (length (receivers d')), d', w').
Proof.
  destruct (dist_delivers snd (λ _, false) _ _ _ _ (7, false) dist_reachable) as (_ & _ & _ & d' & w' & Heq & _).
  exact (conj dist_reachable (ex_intro _ d' (ex_intro _ w' Heq))).
Defined.

Lemma dist_matching_witness :
  reachable snd (λ _, false) ex_empty (ex_dist5, ex_empty, Ghost [] [] []) ∧
  ∃ d', pipe_terminated 2 ex_dist5 = Some d' ∧ ∀ q, q ∈ items (pipes d') ↔ q ∈ items (pipes ex_dist5) ∧ q ≠ 2.
Proof.
  destruct (dist_matching snd (λ _, false) _ _ _ _ 2 1 dist_reachable eq_refl) as [_ (d' & Heq & Hd & _)].
  exact (conj dist_reachable (ex_intro _ d' (conj Heq Hd))).
Defined.
End Dist.
