(* ===== verification/Pipe.v ===== *)
(** * Message pipes between two objects

    [pipe_t] (src/pipe.hpp, src/pipe.cpp): a pair of endpoints, connected by
    two lock-free pipes, each in the thread of its own object; the endpoints send
    each other commands (src/object.cpp) that arrive in order, some time later.
    An operation of an endpoint is a computation [M] over what the endpoint sees:
    its members and the allocated lock-free pipes.  A lock-free pipe is its
    specification [pspec], which [YPipe.ypipe_refines] relates to the code; a
    pipe that was deleted is no longer allocated, so its use is an abort.  This
    file has the operations, [PipePair] the pair and its theorems. *)

From S2P Require Import Prelude Msg YPipe.

Module Pipe.

(** ** Data *)

(** [pipe_t::_state] *)
Inductive pstate : Type :=
| active | delimiter_received | waiting_for_delimiter | term_ack_sent | term_req_sent1 | term_req_sent2.

#[export] Instance pstate_eq_dec : EqDecision pstate.
Proof. solve_decision. Defined.

(** The data members; the peer is known from the pair.  [out_pipe] is NULL after
    the peer was told that it will not be used any more. *)
Record pipe := MkPipe {
  in_pipe : nat;
  out_pipe : option nat;
  in_active : bool;
  out_active : bool;
  hwm : Z;
  lwm : Z;
  in_hwm_boost : Z;
  out_hwm_boost : Z;
  msgs_read : Z;
  msgs_written : Z;
  peers_msgs_read : Z;
  sink : bool;
  state : pstate;
  delay : bool }.

(** The commands of command.hpp between pipes. *)
Inductive command : Type :=
| CActivateRead
| CActivateWrite (msgs_read : Z)
| CHiccup (pipe : nat)
| CPipeTerm
| CPipeTermAck
| CPipeHwm (inhwm outhwm : Z).

(** The calls of [i_pipe_events]. *)
Inductive event : Type := ReadActivated | WriteActivated | Hiccuped | PipeTerminated.

(** The lock-free pipes: those allocated, and a number never used so far.  A
    deleted pipe's messages are [leaked]: deleting the pipe does not close them. *)
Record store := Store {
  live : gmap nat (pspec msg);
  next : nat;
  closed : list msg;
  leaked : list msg }.

(** What an operation of an endpoint works on; [self] is [None] once the
    endpoint was deallocated.  [put] and [taken] record the messages the endpoint
    put into its outbound pipe (without those it took back) and the ones it took
    from its inbound pipe. *)
Record env := Env {
  self : option pipe;
  pipes : store;
  commands : list command;
  events : list event;
  put : list msg;
  taken : list msg }.

(** ** Computations *)

Definition M (A : Type) : Type := env → option (A * env).

#[export] Instance M_ret : MRet M := λ A x e, Some (x, e).
#[export] Instance M_bind : MBind M := λ A B k m e, r ← m e; k r.1 r.2.

Definition fail {A} : M A := λ _, None.
Definition assert (b : bool) : M unit := λ e, if b then Some (tt, e) else None.

Definition this : M pipe := λ e, p ← self e; Some (p, e).
Definition upd (f : pipe → pipe) : M unit := λ e,
  p ← self e; Some (tt, Env (Some (f p)) (pipes e) (commands e) (events e) (put e) (taken e)).
Definition delete_this : M unit := λ e,
  p ← self e; Some (tt, Env None (pipes e) (commands e) (events e) (put e) (taken e)).

(** [send_activate_read (_peer)] and the others. *)
Definition send (c : command) : M unit := λ e,
  Some (tt, Env (self e) (pipes e) (commands e ++ [c]) (events e) (put e) (taken e)).

(** A call of the sink, which must be set. *)
Definition notify (ev : event) : M unit := λ e,
  p ← self e;
  _ ← zmq_assert (sink p);
  Some (tt, Env (self e) (pipes e) (commands e) (events e ++ [ev]) (put e) (taken e)).

Definition on_store {A} (f : store → option (A * store)) : M A := λ e,
  r ← f (pipes e); Some (r.1, Env (self e) r.2 (commands e) (events e) (put e) (taken e)).
Definition log_put (f : list msg → list msg) : M unit := λ e,
  Some (tt, Env (self e) (pipes e) (commands e) (events e) (f (put e)) (taken e)).
Definition log_taken (m : msg) : M unit := λ e,
  Some (tt, Env (self e) (pipes e) (commands e) (events e) (put e) (taken e ++ [m])).

(** An operation of the lock-free pipe [id]. *)
Definition on_ypipe {A} (id : nat) (f : pspec msg → A * pspec msg) : M A := on_store (λ st,
  s ← live st !! id;
  let r := f s in Some (r.1, Store (<[id := r.2]> (live st)) (next st) (closed st) (leaked st))).

Definition new_ypipe : M nat := on_store (λ st,
  Some (next st, Store (<[next st := PS [] [] [] false]> (live st)) (S (next st)) (closed st) (leaked st))).

Definition delete_ypipe (id : nat) : M unit := on_store (λ st,
  s ← live st !! id;
  Some (tt, Store (delete id (live st)) (next st) (closed st) (leaked st ++ flushed s ++ complete s ++ partial s))).

(** [msg_t::close] of a message of a pipe *)
Definition close_msg (m : msg) : M unit := on_store (λ st,
  Some (tt, Store (live st) (next st) (closed st ++ [m]) (leaked st))).

(** *** Assignments to the data members *)

Definition set_in_active (b : bool) (p : pipe) : pipe :=
  MkPipe (in_pipe p) (out_pipe p) b (out_active p) (hwm p) (lwm p) (in_hwm_boost p) (out_hwm_boost p)
    (msgs_read p) (msgs_written p) (peers_msgs_read p) (sink p) (state p) (delay p).
Definition set_out_active (b : bool) (p : pipe) : pipe :=
  MkPipe (in_pipe p) (out_pipe p) (in_active p) b (hwm p) (lwm p) (in_hwm_boost p) (out_hwm_boost p)
    (msgs_read p) (msgs_written p) (peers_msgs_read p) (sink p) (state p) (delay p).
Definition set_in_pipe (i : nat) (p : pipe) : pipe :=
  MkPipe i (out_pipe p) (in_active p) (out_active p) (hwm p) (lwm p) (in_hwm_boost p) (out_hwm_boost p)
    (msgs_read p) (msgs_written p) (peers_msgs_read p) (sink p) (state p) (delay p).
Definition set_out_pipe (o : option nat) (p : pipe) : pipe :=
  MkPipe (in_pipe p) o (in_active p) (out_active p) (hwm p) (lwm p) (in_hwm_boost p) (out_hwm_boost p)
    (msgs_read p) (msgs_written p) (peers_msgs_read p) (sink p) (state p) (delay p).
Definition set_marks (h l : Z) (p : pipe) : pipe :=
  MkPipe (in_pipe p) (out_pipe p) (in_active p) (out_active p) h l (in_hwm_boost p) (out_hwm_boost p)
    (msgs_read p) (msgs_written p) (peers_msgs_read p) (sink p) (state p) (delay p).
Definition set_boosts (i o : Z) (p : pipe) : pipe :=
  MkPipe (in_pipe p) (out_pipe p) (in_active p) (out_active p) (hwm p) (lwm p) i o
    (msgs_read p) (msgs_written p) (peers_msgs_read p) (sink p) (state p) (delay p).
Definition set_msgs_read (n : Z) (p : pipe) : pipe :=
  MkPipe (in_pipe p) (out_pipe p) (in_active p) (out_active p) (hwm p) (lwm p) (in_hwm_boost p) (out_hwm_boost p)
    n (msgs_written p) (peers_msgs_read p) (sink p) (state p) (delay p).
Definition set_msgs_written (n : Z) (p : pipe) : pipe :=
  MkPipe (in_pipe p) (out_pipe p) (in_active p) (out_active p) (hwm p) (lwm p) (in_hwm_boost p) (out_hwm_boost p)
    (msgs_read p) n (peers_msgs_read p) (sink p) (state p) (delay p).
Definition set_peers_msgs_read (n : Z) (p : pipe) : pipe :=
  MkPipe (in_pipe p) (out_pipe p) (in_active p) (out_active p) (hwm p) (lwm p) (in_hwm_boost p) (out_hwm_boost p)
    (msgs_read p) (msgs_written p) n (sink p) (state p) (delay p).
Definition set_sink (b : bool) (p : pipe) : pipe :=
  MkPipe (in_pipe p) (out_pipe p) (in_active p) (out_active p) (hwm p) (lwm p) (in_hwm_boost p) (out_hwm_boost p)
    (msgs_read p) (msgs_written p) (peers_msgs_read p) b (state p) (delay p).
Definition set_state (s : pstate) (p : pipe) : pipe :=
  MkPipe (in_pipe p) (out_pipe p) (in_active p) (out_active p) (hwm p) (lwm p) (in_hwm_boost p) (out_hwm_boost p)
    (msgs_read p) (msgs_written p) (peers_msgs_read p) (sink p) s (delay p).
Definition set_delay (b : bool) (p : pipe) : pipe :=
  MkPipe (in_pipe p) (out_pipe p) (in_active p) (out_active p) (hwm p) (lwm p) (in_hwm_boost p) (out_hwm_boost p)
    (msgs_read p) (msgs_written p) (peers_msgs_read p) (sink p) (state p) b.

(** *** The lock-free pipes of an endpoint *)

Definition in_check_read : M bool := p ← this; on_ypipe (in_pipe p) s_check_read.
Definition in_probe (fn : msg → bool) : M bool :=
  p ← this;
  r ← on_ypipe (in_pipe p) (λ s, let '(ok, s) := s_check_read s in
    (if ok then fn <$> head (flushed s) else None, s));
  match r with Some b => mret b | None => fail end.
Definition in_read : M (option msg) :=
  p ← this;
  r ← on_ypipe (in_pipe p) s_read;
  match r with Some m => log_taken m;; mret r | None => mret r end.

(** The outbound pipe, which must not be NULL. *)
Definition out_id : M nat := p ← this; match out_pipe p with Some id => mret id | None => fail end.
Definition out_write (m : msg) (incomplete : bool) : M unit :=
  id ← out_id;
  on_ypipe id (λ s, (tt, s_write m incomplete s));;
  log_put (λ l, l ++ [m]).
Definition out_unwrite (id : nat) : M (option msg) :=
  r ← on_ypipe id s_unwrite;
  match r with Some m => log_put (λ l, removelast l);; mret r | None => mret r end.
Definition out_flush : M bool := id ← out_id; on_ypipe id s_flush.

(** The number of messages of a pipe: the fuel of the loops that empty it. *)
Definition fuel (id : nat) : M nat := on_store (λ st,
  s ← live st !! id;
  Some (S (length (flushed s ++ complete s ++ partial s)), st)).

(** ** Watermarks *)

(** The sum of two [int]s; an overflow is undefined. *)
Definition add_int (x y : Z) : option Z :=
  if (- 2147483648 <=? x + y) && (x + y <=? 2147483647) then Some (x + y) else None.

Definition compute_lwm (hwm : Z) : option Z := s ← add_int hwm 1; Some (Z.quot s 2).

Definition check_hwm (p : pipe) : bool :=
  let full := (0 <? hwm p) && (u64 (hwm p) <=? u64 (msgs_written p - peers_msgs_read p)) in
  negb full.

Definition lift {A} (o : option A) : M A := λ e, x ← o; Some (x, e).

Definition set_hwms (inhwm outhwm : Z) : M unit :=
  p ← this;
  in_ ← lift (add_int inhwm (Z.max (in_hwm_boost p) 0));
  out ← lift (add_int outhwm (Z.max (out_hwm_boost p) 0));
  let in_ := if (inhwm <=? 0) || (in_hwm_boost p =? 0) then 0 else in_ in
  let out := if (outhwm <=? 0) || (out_hwm_boost p =? 0) then 0 else out in
  l ← lift (compute_lwm in_);
  upd (set_marks out l).

Definition set_hwms_boost (inhwmboost outhwmboost : Z) : M unit := upd (set_boosts inhwmboost outhwmboost).

Definition send_hwms_to_peer (inhwm outhwm : Z) : M unit := p ← this; send (CPipeHwm inhwm outhwm).

(** ** Reading *)

(** Messages can be read in these states. *)
Definition readable (s : pstate) : bool :=
  match s with active | waiting_for_delimiter => true | _ => false end.

Definition send_term_ack (s : pstate) : M unit :=
  upd (set_out_pipe None);; send CPipeTermAck;; upd (set_state s).

Definition process_delimiter : M unit :=
  p ← this;
  assert (readable (state p));;
  if decide (state p = active) then upd (set_state delimiter_received)
  else send_term_ack term_ack_sent.

Definition check_read : M bool :=
  p ← this;
  if negb (in_active p) then mret false
  else if negb (readable (state p)) then mret false
  else
    ok ← in_check_read;
    if negb ok then upd (set_in_active false);; mret false
    else
      d ← in_probe is_delimiter;
      if (d : bool) then
        m ← in_read;
        match m with
        | Some _ => process_delimiter;; mret false
        | None => fail
        end
      else mret true.

(** The loop that skips credentials: [None] when nothing can be read. *)
Fixpoint read_loop (fuel : nat) : M (option msg) :=
  match fuel with
  | O => fail
  | S fuel =>
    m ← in_read;
    match m with
    | None => upd (set_in_active false);; mret None
    | Some m => if is_credential m then close_msg m;; read_loop fuel else mret (Some m)
    end
  end.

Definition is_more (m : msg) : bool := negb (Z.land (m_flags m) more =? 0).

Definition read : M (option msg) :=
  p ← this;
  if negb (in_active p) then mret None
  else if negb (readable (state p)) then mret None
  else
    n ← fuel (in_pipe p);
    r ← read_loop n;
    match r with
    | None => mret None
    | Some m =>
      if is_delimiter m then process_delimiter;; mret None
      else
        (if negb (is_more m) && negb (is_routing_id m)
         then upd (λ p, set_msgs_read (u64 (msgs_read p + 1)) p) else mret tt);;
        p ← this;
        (if (0 <? lwm p) && (msgs_read p mod lwm p =? 0)
         then send (CActivateWrite (msgs_read p)) else mret tt);;
        mret (Some m)
    end.

(** ** Writing *)

Definition check_write : M bool :=
  p ← this;
  if negb (out_active p) || negb (bool_decide (state p = active)) then mret false
  else if negb (check_hwm p) then upd (set_out_active false);; mret false
  else mret true.

Definition write (m : msg) : M bool :=
  ok ← check_write;
  if negb ok then mret false
  else
    out_write m (is_more m);;
    (if negb (is_more m) && negb (is_routing_id m)
     then upd (λ p, set_msgs_written (u64 (msgs_written p + 1)) p) else mret tt);;
    mret true.

Fixpoint rollback_loop (fuel id : nat) : M unit :=
  match fuel with
  | O => fail
  | S fuel =>
    m ← out_unwrite id;
    match m with
    | None => mret tt
    | Some m => assert (is_more m);; close_msg m;; rollback_loop fuel id
    end
  end.

Definition rollback : M unit :=
  p ← this;
  match out_pipe p with
  | None => mret tt
  | Some id => n ← fuel id; rollback_loop n id
  end.

Definition flush : M unit :=
  p ← this;
  if decide (state p = term_ack_sent) then mret tt
  else
    match out_pipe p with
    | None => mret tt
    | Some _ => awake ← out_flush; if (awake : bool) then mret tt else send CActivateRead
    end.

(** [id] is the message made of the routing id in the socket's options. *)
Definition send_routing_id (id : msg) : M unit :=
  written ← write (set_flags routing_id id);
  assert written;;
  flush.

(** ** Termination *)

Definition set_event_sink : M unit := p ← this; assert (negb (sink p));; upd (set_sink true).

Definition set_nodelay : M unit := upd (set_delay false).

Definition terminate (delay_ : bool) : M unit :=
  upd (set_delay delay_);;
  p ← this;
  match state p with
  | term_req_sent1 | term_req_sent2 => mret tt
  | term_ack_sent => mret tt
  | st =>
    match st with
    | waiting_for_delimiter =>
      if negb (delay p) then rollback;; send_term_ack term_ack_sent else mret tt
    | _ => send CPipeTerm;; upd (set_state term_req_sent1)
    end;;
    upd (set_out_active false);;
    p ← this;
    match out_pipe p with
    | None => mret tt
    | Some _ => rollback;; out_write init_delimiter false;; flush
    end
  end.

(** The new pipe of [hiccup] belongs to the reader until the peer has the
    command. *)
Definition hiccup : M unit :=
  p ← this;
  if decide (state p = active) then
    id ← new_ypipe;
    upd (set_in_pipe id);;
    upd (set_in_active true);;
    send (CHiccup id)
  else mret tt.

(** ** The handlers of commands *)

Definition process_activate_read : M unit :=
  p ← this;
  if negb (in_active p) && readable (state p)
  then upd (set_in_active true);; notify ReadActivated
  else mret tt.

Definition process_activate_write (n : Z) : M unit :=
  upd (set_peers_msgs_read n);;
  p ← this;
  if negb (out_active p) && bool_decide (state p = active)
  then upd (set_out_active true);; notify WriteActivated
  else mret tt.

(** Reading and closing what is left in the pipe [id]. *)
Fixpoint drain (fuel id : nat) (each : msg → M unit) : M unit :=
  match fuel with
  | O => fail
  | S fuel =>
    m ← on_ypipe id s_read;
    match m with
    | None => mret tt
    | Some m => each m;; close_msg m;; drain fuel id each
    end
  end.

Definition process_hiccup (id : nat) : M unit :=
  old ← out_id;
  out_flush;;
  n ← fuel old;
  drain n old (λ m,
    if negb (is_more m) then upd (λ p, set_msgs_written (u64 (msgs_written p - 1)) p) else mret tt);;
  delete_ypipe old;;
  upd (set_out_pipe (Some id));;
  upd (set_out_active true);;
  p ← this;
  if decide (state p = active) then notify Hiccuped else mret tt.

Definition process_pipe_term : M unit :=
  p ← this;
  match state p with
  | active => if delay p then upd (set_state waiting_for_delimiter) else send_term_ack term_ack_sent
  | delimiter_received => send_term_ack term_ack_sent
  | term_req_sent1 => send_term_ack term_req_sent2
  | _ => fail
  end.

(** Closing the unread messages, deallocating the inbound pipe and this
    endpoint. *)
Definition release : M unit :=
  p ← this;
  n ← fuel (in_pipe p);
  drain n (in_pipe p) (λ _, mret tt);;
  delete_ypipe (in_pipe p);;
  delete_this.

Definition process_pipe_term_ack : M unit :=
  notify PipeTerminated;;
  p ← this;
  match state p with
  | term_req_sent1 => upd (set_out_pipe None);; send CPipeTermAck
  | term_ack_sent | term_req_sent2 => mret tt
  | _ => fail
  end;;
  release.

Definition process_pipe_hwm (inhwm outhwm : Z) : M unit := set_hwms inhwm outhwm.

Definition process_command (c : command) : M unit :=
  match c with
  | CActivateRead => process_activate_read
  | CActivateWrite n => process_activate_write n
  | CHiccup id => process_hiccup id
  | CPipeTerm => process_pipe_term
  | CPipeTermAck => process_pipe_term_ack
  | CPipeHwm i o => process_pipe_hwm i o
  end.

(** ** Construction *)

Definition pipe_new (in_ out : nat) (inhwm outhwm : Z) : option pipe :=
  l ← compute_lwm inhwm;
  Some (MkPipe in_ (Some out) true true outhwm l (-1) (-1) 0 0 0 false active true).

(** Two connected endpoints over two new lock-free pipes, neither of which has a
    sink yet. *)
Definition pipepair (hwm0 hwm1 : Z) : option (pipe * pipe * store) :=
  p0 ← pipe_new 0 1 hwm1 hwm0;
  p1 ← pipe_new 1 0 hwm0 hwm1;
  Some (p0, p1, Store {[0%nat := PS [] [] [] false; 1%nat := PS [] [] [] false]} 2 [] []).

(** ** The operations in closed form

    What each operation does on an endpoint [p], as an equation. *)

Definition put_spec (id : nat) (s : pspec msg) (t : store) : store :=
  Store (<[id := s]> (live t)) (next t) (closed t) (leaked t).
Definition add_closed (l : list msg) (t : store) : store := Store (live t) (next t) (closed t ++ l) (leaked t).

Lemma put_spec_id id s t : live t !! id = Some s → put_spec id s t = t.
Proof. intros H. destruct t as [l n c k]. unfold put_spec. cbn in *. by rewrite insert_id. Qed.

Lemma put_spec_twice id s s' t : put_spec id s (put_spec id s' t) = put_spec id s t.
Proof. unfold put_spec. cbn. by rewrite insert_insert_eq. Qed.

Lemma put_spec_closed id s l t : put_spec id s (add_closed l t) = add_closed l (put_spec id s t).
Proof. done. Qed.

Lemma add_closed_app l l' t : add_closed l' (add_closed l t) = add_closed (l ++ l') t.
Proof. unfold add_closed. cbn. by rewrite app_assoc. Qed.

Lemma add_closed_nil t : add_closed [] t = t.
Proof. destruct t. unfold add_closed. cbn. by rewrite app_nil_r. Qed.

Lemma put_spec_live id s t : live (put_spec id s t) !! id = Some s.
Proof. cbn. by rewrite lookup_insert_eq. Qed.

(** The effect of a delimiter. *)
Definition delimited (p : pipe) : pipe :=
  if decide (state p = active) then set_state delimiter_received p
  else set_state term_ack_sent (set_out_pipe None p).
Definition delimited_cmds (p : pipe) : list command :=
  if decide (state p = active) then [] else [CPipeTermAck].

Section closed_form.
Context (ev : list event).
Implicit Types (p : pipe) (t : store) (cs : list command) (pu ta : list msg) (s : pspec msg).

Lemma process_delimiter_eq p t cs pu ta : readable (state p) = true →
  process_delimiter (Env (Some p) t cs ev pu ta) =
  Some (tt, Env (Some (delimited p)) t (cs ++ delimited_cmds p) ev pu ta).
Proof.
  intros Hr. unfold process_delimiter, delimited, delimited_cmds, mbind, M_bind, this, assert. cbn. rewrite Hr.
  cbn. case_decide; cbn; [by rewrite app_nil_r|done].
Qed.

(** *** Rolling back *)

Definition rolled (s : pspec msg) : pspec msg := PS (flushed s) (complete s) [] (asleep s).
Definition unput (n : nat) (l : list msg) : list msg := take (length l - n) l.

Lemma removelast_as_take {A} (l : list A) : removelast l = take (length l - 1) l.
Proof. rewrite removelast_firstn_len. by rewrite <-Nat.sub_1_r. Qed.

Lemma unput_S n l : unput n (removelast l) = unput (S n) l.
Proof.
  unfold unput. rewrite removelast_as_take, length_take, take_take. f_equal. lia.
Qed.

Lemma rollback_loop_eq n id p t cs pu ta s :
  live t !! id = Some s → Forall (λ m, is_more m = true) (partial s) → (length (partial s) < n)%nat →
  rollback_loop n id (Env (Some p) t cs ev pu ta) =
  Some (tt, Env (Some p) (add_closed (reverse (partial s)) (put_spec id (rolled s) t)) cs ev
    (unput (length (partial s)) pu) ta).
Proof.
  revert t pu s. induction n as [|n IH]; intros t pu s Hs Hm Hn; [lia|].
  cbn [rollback_loop]. unfold out_unwrite, on_ypipe, on_store, mbind, M_bind. cbn. rewrite Hs. cbn.
  destruct (partial s) as [|x l] eqn:Hp using rev_ind.
  - cbn. unfold unput. by rewrite add_closed_nil, Nat.sub_0_r, firstn_all.
  - clear IHl. rewrite last_snoc, removelast_last. cbn.
    apply Forall_app in Hm as [Hl Hx]. inversion Hx as [|? ? Hx' _]; subst. unfold assert. rewrite Hx'. cbn.
    rewrite length_app in Hn. cbn in Hn.
    rewrite (IH _ _ (PS (flushed s) (complete s) l (asleep s))); [|apply lookup_insert_eq|done|cbn; lia].
    unfold rolled. cbn [partial flushed complete asleep]. rewrite reverse_app, length_app.
    unfold add_closed, put_spec. cbn. rewrite insert_insert_eq, <-app_assoc, unput_S.
    by rewrite Nat.add_1_r.
Qed.

#[local] Arguments rollback_loop : simpl never.

Lemma rollback_eq p t cs pu ta id s :
  out_pipe p = Some id → live t !! id = Some s → Forall (λ m, is_more m = true) (partial s) →
  rollback (Env (Some p) t cs ev pu ta) =
  Some (tt, Env (Some p) (add_closed (reverse (partial s)) (put_spec id (rolled s) t)) cs ev
    (unput (length (partial s)) pu) ta).
Proof.
  intros Ho Hs Hm. unfold rollback, fuel, on_store, mbind, M_bind, this. cbn. rewrite Ho. cbn. rewrite Hs. cbn.
  rewrite (rollback_loop_eq _ _ _ _ _ _ _ s); [done..|]. rewrite !length_app. lia.
Qed.

Lemma rollback_none p t cs pu ta : out_pipe p = None →
  rollback (Env (Some p) t cs ev pu ta) = Some (tt, Env (Some p) t cs ev pu ta).
Proof. intros Ho. unfold rollback, mbind, M_bind, this. cbn. by rewrite Ho. Qed.

(** *** Writing *)

Lemma flush_eq p t cs pu ta id s :
  out_pipe p = Some id → live t !! id = Some s → state p ≠ term_ack_sent →
  flush (Env (Some p) t cs ev pu ta) =
  Some (tt, Env (Some p) (put_spec id (s_flush s).2 t)
    (cs ++ (if (s_flush s).1 then [] else [CActivateRead])) ev pu ta).
Proof.
  intros Ho Hs Ha. unfold flush, out_flush, out_id, on_ypipe, on_store, mbind, M_bind, this. cbn.
  rewrite decide_False by done. rewrite Ho. cbn. rewrite Ho. cbn. rewrite Hs. cbn.
  destruct (s_flush s) as [[] s']; cbn; [by rewrite app_nil_r|done].
Qed.

Lemma flush_none p t cs pu ta : out_pipe p = None →
  flush (Env (Some p) t cs ev pu ta) = Some (tt, Env (Some p) t cs ev pu ta).
Proof. intros Ho. unfold flush, mbind, M_bind, this. cbn. case_decide; [done|]. by rewrite Ho. Qed.

Definition may_write (p : pipe) : bool := out_active p && bool_decide (state p = active) && check_hwm p.
Definition blocked (p : pipe) : pipe :=
  if out_active p && bool_decide (state p = active) && negb (check_hwm p) then set_out_active false p else p.

Lemma check_write_eq p t cs pu ta :
  check_write (Env (Some p) t cs ev pu ta) = Some (may_write p, Env (Some (blocked p)) t cs ev pu ta).
Proof.
  unfold check_write, may_write, blocked, mbind, M_bind, this. cbn.
  destruct (out_active p), (bool_decide (state p = active)), (check_hwm p); done.
Qed.

(** The messages the watermarks count. *)
Definition counted (m : msg) : bool := negb (is_more m) && negb (is_routing_id m).
Definition wrote (m : msg) (p : pipe) : pipe :=
  if counted m then set_msgs_written (u64 (msgs_written p + 1)) p else p.

Lemma write_full m p t cs pu ta : may_write p = false →
  write m (Env (Some p) t cs ev pu ta) = Some (false, Env (Some (blocked p)) t cs ev pu ta).
Proof. intros Hw. unfold write. unfold mbind, M_bind at 1. rewrite check_write_eq, Hw. done. Qed.

Lemma write_eq m p t cs pu ta id s :
  may_write p = true → out_pipe p = Some id → live t !! id = Some s →
  write m (Env (Some p) t cs ev pu ta) =
  Some (true, Env (Some (wrote m p)) (put_spec id (s_write m (is_more m) s) t) cs ev (pu ++ [m]) ta).
Proof.
  intros Hw Ho Hs.
  assert (Hb : blocked p = p).
  { unfold may_write in Hw. unfold blocked. by destruct (out_active p), (bool_decide _), (check_hwm p). }
  unfold write. unfold mbind, M_bind at 1. rewrite check_write_eq, Hw, Hb. cbn.
  unfold out_write, out_id, on_ypipe, on_store, mbind, M_bind, this. cbn. rewrite Ho. cbn. rewrite Hs. cbn.
  unfold wrote, counted. by destruct (negb (is_more m) && negb (is_routing_id m)).
Qed.

(** A pipe that took a part which does not end its message takes the next one, if
    nothing happens in between ([OutPipesNext] of PipeIface.v). *)
Lemma write_next m m' p t cs pu ta id s e : out_pipe p = Some id → live t !! id = Some s → is_more m = true →
  write m (Env (Some p) t cs ev pu ta) = Some (true, e) → ∃ e', write m' e = Some (true, e').
Proof.
  intros Ho Hs Hm Hw. destruct (may_write p) eqn:Hmay; [|by rewrite write_full in Hw].
  rewrite (write_eq _ _ _ _ _ _ _ _ Hmay Ho Hs) in Hw. injection Hw as <-.
  assert (Hp : wrote m p = p) by (unfold wrote, counted; by rewrite Hm). rewrite Hp.
  eexists. apply write_eq with (id := id) (s := s_write m true s); [done|done|]. rewrite Hm. apply lookup_insert_eq.
Qed.

(** *** Reading *)

Definition asleep_spec (s : pspec msg) : pspec msg := PS [] (complete s) (partial s) true.
Definition tail_spec (l : list msg) (s : pspec msg) : pspec msg := PS l (complete s) (partial s) (asleep s).

Lemma check_read_off p t cs pu ta : in_active p && readable (state p) = false →
  check_read (Env (Some p) t cs ev pu ta) = Some (false, Env (Some p) t cs ev pu ta).
Proof.
  intros H. unfold check_read, mbind, M_bind, this. cbn. by destruct (in_active p), (readable (state p)).
Qed.

Lemma check_read_empty p t cs pu ta s : in_active p && readable (state p) = true →
  live t !! in_pipe p = Some s → flushed s = [] →
  check_read (Env (Some p) t cs ev pu ta) =
  Some (false, Env (Some (set_in_active false p)) (put_spec (in_pipe p) (asleep_spec s) t) cs ev pu ta).
Proof.
  intros [Ha Hr]%andb_true_iff Hs Hf. unfold check_read, in_check_read, on_ypipe, on_store, mbind, M_bind, this. cbn.
  rewrite Ha, Hr. cbn. rewrite Hs. unfold s_check_read. cbn. rewrite Hf. done.
Qed.

Lemma check_read_eq p t cs pu ta s m l : in_active p && readable (state p) = true →
  live t !! in_pipe p = Some s → flushed s = m :: l →
  check_read (Env (Some p) t cs ev pu ta) =
  if is_delimiter m
  then Some (false, Env (Some (delimited p)) (put_spec (in_pipe p) (tail_spec l s) t)
    (cs ++ delimited_cmds p) ev pu (ta ++ [m]))
  else Some (true, Env (Some p) t cs ev pu ta).
Proof.
  intros [Ha Hr]%andb_true_iff Hs Hf.
  assert (Hc : s_check_read s = (true, s)) by (unfold s_check_read; by rewrite Hf).
  unfold check_read, in_check_read, in_probe, in_read, on_ypipe, on_store, mbind, M_bind, this. cbn.
  rewrite Ha, Hr. cbn. rewrite Hs. cbn. rewrite Hc. cbn. rewrite lookup_insert_eq. cbn. rewrite Hc. cbn. rewrite Hf. cbn.
  rewrite insert_insert_eq.
  assert (Hl : s_read s = (Some m, tail_spec l s)) by (unfold s_read; by rewrite Hf).
  destruct (is_delimiter m) eqn:Hd; cbn.
  - rewrite lookup_insert_eq. cbn. rewrite Hl. cbn. rewrite process_delimiter_eq by done. cbn.
    by rewrite insert_insert_eq.
  - by rewrite insert_id by done; destruct t.
Qed.

(** The credentials at the front of [l], and what follows them. *)
Fixpoint credentials (l : list msg) : list msg :=
  match l with m :: l => if is_credential m then m :: credentials l else [] | [] => [] end.
Fixpoint after (l : list msg) : list msg :=
  match l with m :: l' => if is_credential m then after l' else l | [] => [] end.

Lemma credentials_after l : l = credentials l ++ after l.
Proof. induction l as [|m l IH]; cbn; [done|]. destruct (is_credential m); cbn; by rewrite <-?IH. Qed.

Lemma credentials_all l : Forall (λ m, is_credential m = true) (credentials l).
Proof. induction l as [|m l IH]; cbn; [done|]. destruct (is_credential m) eqn:H; [by constructor|done]. Qed.

Lemma after_head l m l' : after l = m :: l' → is_credential m = false.
Proof. induction l as [|x l IH]; cbn; [done|]. destruct (is_credential x) eqn:H; [done|]. by intros [= <- _]. Qed.

Lemma read_loop_eq n p t cs pu ta s :
  live t !! in_pipe p = Some s → (length (flushed s) < n)%nat →
  let t' s' := add_closed (credentials (flushed s)) (put_spec (in_pipe p) s' t) in
  let ta' := ta ++ credentials (flushed s) in
  read_loop n (Env (Some p) t cs ev pu ta) =
  match after (flushed s) with
  | [] => Some (None, Env (Some (set_in_active false p)) (t' (asleep_spec s)) cs ev pu ta')
  | m :: l => Some (Some m, Env (Some p) (t' (tail_spec l s)) cs ev pu (ta' ++ [m]))
  end.
Proof.
  revert t ta s. induction n as [|n IH]; intros t ta s Hs Hn; cbn zeta; [lia|].
  cbn [read_loop]. unfold in_read, on_ypipe, on_store, mbind, M_bind, this. cbn. rewrite Hs. cbn.
  destruct (flushed s) as [|m l] eqn:Hf.
  - unfold s_read. rewrite Hf. cbn. by rewrite app_nil_r, add_closed_nil.
  - unfold s_read. rewrite Hf. cbn. cbn in Hn. destruct (is_credential m) eqn:Hc; cbn.
    + rewrite (IH _ _ (tail_spec l s)); [|apply lookup_insert_eq|cbn; lia]. cbn.
      unfold add_closed, put_spec. cbn.
      destruct (after l); cbn; by rewrite insert_insert_eq, <-!app_assoc.
    + by rewrite app_nil_r, add_closed_nil.
Qed.
#[local] Arguments read_loop : simpl never.

Lemma read_off p t cs pu ta : in_active p && readable (state p) = false →
  read (Env (Some p) t cs ev pu ta) = Some (None, Env (Some p) t cs ev pu ta).
Proof.
  intros H. unfold read, mbind, M_bind, this. cbn. by destruct (in_active p), (readable (state p)).
Qed.

(** Counting a message that was read, and telling the peer. *)
Definition count_read (m : msg) (p : pipe) : pipe :=
  if counted m then set_msgs_read (u64 (msgs_read p + 1)) p else p.
Definition activation (p : pipe) : list command :=
  if (0 <? lwm p) && (msgs_read p mod lwm p =? 0) then [CActivateWrite (msgs_read p)] else [].

Lemma read_eq p t cs pu ta s : in_active p && readable (state p) = true →
  live t !! in_pipe p = Some s →
  let t' s' := add_closed (credentials (flushed s)) (put_spec (in_pipe p) s' t) in
  let ta' := ta ++ credentials (flushed s) in
  read (Env (Some p) t cs ev pu ta) =
  match after (flushed s) with
  | [] => Some (None, Env (Some (set_in_active false p)) (t' (asleep_spec s)) cs ev pu ta')
  | m :: l =>
    if is_delimiter m
    then Some (None, Env (Some (delimited p)) (t' (tail_spec l s)) (cs ++ delimited_cmds p) ev pu (ta' ++ [m]))
    else Some (Some m, Env (Some (count_read m p)) (t' (tail_spec l s))
      (cs ++ activation (count_read m p)) ev pu (ta' ++ [m]))
  end.
Proof.
  intros [Ha Hr]%andb_true_iff Hs t' ta'. unfold read, fuel, on_store, mbind, M_bind, this. cbn.
  rewrite Ha, Hr. cbn. rewrite Hs. cbn.
  rewrite (read_loop_eq _ _ _ _ _ _ s); [|done|rewrite length_app; lia]. cbn zeta. fold t' ta'.
  destruct (after (flushed s)) as [|m l] eqn:Hl; cbn; [done|].
  destruct (is_delimiter m) eqn:Hd; [by rewrite process_delimiter_eq by done|].
  unfold count_read, activation, counted. destruct (negb (is_more m) && negb (is_routing_id m)); cbn;
    destruct ((0 <? lwm p) && _); cbn; by rewrite ?app_nil_r.
Qed.

(** *** Termination and the handlers of commands *)

(** [terminate] has nothing to do in these states. *)
Definition terminating (s : pstate) : bool :=
  match s with term_req_sent1 | term_req_sent2 | term_ack_sent => true | _ => false end.

Lemma terminate_done d p t cs pu ta : terminating (state p) = true →
  terminate d (Env (Some p) t cs ev pu ta) = Some (tt, Env (Some (set_delay d p)) t cs ev pu ta).
Proof. intros H. unfold terminate, mbind, M_bind, this. cbn. by destruct (state p). Qed.

(** What stays in a lock-free pipe that is rolled back and closed with the
    delimiter. *)
Definition ended (s : pspec msg) : pspec msg := PS (flushed s ++ complete s ++ [init_delimiter]) [] [] false.
Definition wake (s : pspec msg) : list command := if asleep s then [CActivateRead] else [].

Lemma finish_eq p t cs pu ta id s :
  out_pipe p = Some id → live t !! id = Some s → Forall (λ m, is_more m = true) (partial s) →
  state p ≠ term_ack_sent →
  (_ ← rollback; _ ← out_write init_delimiter false; flush) (Env (Some p) t cs ev pu ta) =
  Some (tt, Env (Some p) (add_closed (reverse (partial s)) (put_spec id (ended s) t))
    (cs ++ wake s) ev (unput (length (partial s)) pu ++ [init_delimiter]) ta).
Proof.
  intros Ho Hs Hm Hst. unfold mbind, M_bind. rewrite (rollback_eq p _ _ _ _ id s) by done. cbn.
  unfold out_write, out_id, on_ypipe, on_store, mbind, M_bind, this. cbn. rewrite Ho. cbn.
  rewrite lookup_insert_eq. cbn.
  rewrite (flush_eq p _ _ _ _ id (PS (flushed s) (complete s ++ [init_delimiter]) [] (asleep s)));
    [|done|cbn; by rewrite lookup_insert_eq|done].
  assert (Hf : s_flush (PS (flushed s) (complete s ++ [init_delimiter]) [] (asleep s)) = (negb (asleep s), ended s)).
  { unfold s_flush, ended. cbn. by destruct (complete s). }
  rewrite Hf. cbn. unfold put_spec, add_closed. cbn. rewrite !insert_insert_eq.
  by unfold wake; destruct (asleep s).
Qed.

(** Asking for termination: from the states [active] and [delimiter_received]. *)
Lemma terminate_request d p t cs pu ta id s :
  state p = active ∨ state p = delimiter_received →
  out_pipe p = Some id → live t !! id = Some s → Forall (λ m, is_more m = true) (partial s) →
  terminate d (Env (Some p) t cs ev pu ta) =
  Some (tt, Env (Some (set_out_active false (set_state term_req_sent1 (set_delay d p))))
    (add_closed (reverse (partial s)) (put_spec id (ended s) t))
    (cs ++ [CPipeTerm] ++ wake s) ev (unput (length (partial s)) pu ++ [init_delimiter]) ta).
Proof.
  intros Hst Ho Hs Hm. rewrite app_assoc.
  rewrite <-(finish_eq (set_out_active false (set_state term_req_sent1 (set_delay d p)))) by done.
  unfold terminate, mbind, M_bind, this. cbn. destruct Hst as [-> | ->]; cbn; by rewrite Ho.
Qed.

(** In [waiting_for_delimiter] with [delay]: the delimiter is written. *)
Lemma terminate_wait p t cs pu ta id s :
  state p = waiting_for_delimiter →
  out_pipe p = Some id → live t !! id = Some s → Forall (λ m, is_more m = true) (partial s) →
  terminate true (Env (Some p) t cs ev pu ta) =
  Some (tt, Env (Some (set_out_active false (set_delay true p)))
    (add_closed (reverse (partial s)) (put_spec id (ended s) t))
    (cs ++ wake s) ev (unput (length (partial s)) pu ++ [init_delimiter]) ta).
Proof.
  intros Hst Ho Hs Hm.
  rewrite <-(finish_eq (set_out_active false (set_delay true p))) by (done || cbn; by rewrite Hst).
  unfold terminate, mbind, M_bind, this. cbn. rewrite Hst. cbn. by rewrite Ho.
Qed.

(** In [waiting_for_delimiter] without: the termination is acknowledged. *)
Lemma terminate_nodelay p t cs pu ta id s :
  state p = waiting_for_delimiter →
  out_pipe p = Some id → live t !! id = Some s → Forall (λ m, is_more m = true) (partial s) →
  terminate false (Env (Some p) t cs ev pu ta) =
  Some (tt, Env (Some (set_out_active false (set_state term_ack_sent (set_out_pipe None (set_delay false p)))))
    (add_closed (reverse (partial s)) (put_spec id (rolled s) t))
    (cs ++ [CPipeTermAck]) ev (unput (length (partial s)) pu) ta).
Proof.
  intros Hst Ho Hs Hm. unfold terminate, send_term_ack, mbind, M_bind, this. cbn. rewrite Hst. cbn.
  rewrite (rollback_eq (set_delay false p) _ _ _ _ id s) by done. done.
Qed.

Lemma drain_eq n id each g p t cs pu ta s :
  (∀ m p t, each m (Env (Some p) t cs ev pu ta) = Some (tt, Env (Some (g p m)) t cs ev pu ta)) →
  live t !! id = Some s → (length (flushed s) < n)%nat →
  drain n id each (Env (Some p) t cs ev pu ta) =
  Some (tt, Env (Some (foldl g p (flushed s)))
    (add_closed (flushed s) (put_spec id (asleep_spec s) t)) cs ev pu ta).
Proof.
  intros Hg. revert p t s. induction n as [|n IH]; intros p t s Hs Hn; [lia|].
  cbn [drain]. unfold on_ypipe, on_store, mbind, M_bind. cbn. rewrite Hs. cbn.
  destruct (flushed s) as [|m l] eqn:Hf; unfold s_read; rewrite Hf; cbn; [by rewrite add_closed_nil|].
  rewrite Hg. cbn. cbn in Hn. rewrite (IH _ _ (tail_spec l s)); [|apply lookup_insert_eq|cbn; lia]. cbn.
  unfold add_closed, put_spec. cbn. by rewrite insert_insert_eq, <-app_assoc.
Qed.
#[local] Arguments drain : simpl never.

Definition uncount (p : pipe) (m : msg) : pipe :=
  if is_more m then p else set_msgs_written (u64 (msgs_written p - 1)) p.

(** What the reader could still read of a lock-free pipe after a last flush. *)
Definition all_flushed (s : pspec msg) : list msg := flushed s ++ complete s.

Definition hiccuped_pipe (id : nat) (l : list msg) (p : pipe) : pipe :=
  set_out_active true (set_out_pipe (Some id) (foldl uncount p l)).

Lemma uncount_keeps l p :
  state (foldl uncount p l) = state p ∧ out_pipe (foldl uncount p l) = out_pipe p ∧
  sink (foldl uncount p l) = sink p.
Proof.
  revert p. induction l as [|m l IH]; intros p; [done|]. cbn. destruct (IH (uncount p m)) as (-> & -> & ->).
  unfold uncount. by destruct (is_more m).
Qed.

Lemma s_flush_spec s : (s_flush s).2 = PS (all_flushed s) [] (partial s) (asleep (s_flush s).2).
Proof.
  unfold s_flush, all_flushed. destruct s as [fl co pa b]. cbn. destruct co; cbn; [by rewrite app_nil_r|done].
Qed.

Lemma process_hiccup_eq id p t cs pu ta old s : sink p = true →
  out_pipe p = Some old → live t !! old = Some s →
  process_hiccup id (Env (Some p) t cs ev pu ta) =
  Some (tt, Env (Some (hiccuped_pipe id (all_flushed s) p))
    (Store (delete old (live t)) (next t) (closed t ++ all_flushed s) (leaked t ++ partial s))
    cs (ev ++ (if decide (state p = active) then [Hiccuped] else [])) pu ta).
Proof.
  intros Hk Ho Hs. unfold process_hiccup, out_flush, out_id, fuel, on_ypipe, on_store, mbind, M_bind, this. cbn.
  rewrite Ho. cbn. rewrite Ho. cbn. rewrite Hs. cbn. rewrite lookup_insert_eq. cbn.
  rewrite (drain_eq _ _ _ uncount _ _ _ _ _ (s_flush s).2).
  - cbn. unfold delete_ypipe, on_store. cbn. rewrite lookup_insert_eq. cbn.
    destruct (uncount_keeps (all_flushed s) p) as (Hst & _ & Hsk).
    rewrite s_flush_spec. cbn. rewrite Hst. rewrite insert_insert_eq, delete_insert_eq.
    unfold notify, hiccuped_pipe. cbn. case_decide; cbn; [by rewrite Hsk, Hk|by rewrite app_nil_r].
  - intros m p' t'. unfold uncount. by destruct (is_more m).
  - apply lookup_insert_eq.
  - rewrite length_app. lia.
Qed.

Lemma release_eq p t cs pu ta s : live t !! in_pipe p = Some s →
  release (Env (Some p) t cs ev pu ta) =
  Some (tt, Env None
    (Store (delete (in_pipe p) (live t)) (next t) (closed t ++ flushed s) (leaked t ++ complete s ++ partial s))
    cs ev pu ta).
Proof.
  intros Hs. unfold release, fuel, on_store, mbind, M_bind, this. cbn. rewrite Hs. cbn.
  rewrite (drain_eq _ _ _ (λ p _, p) _ _ _ _ _ s); [|done|done|rewrite length_app; lia]. cbn.
  assert (Hf : ∀ l : list msg, foldl (λ (q : pipe) _, q) p l = p) by (induction l; done).
  rewrite Hf. unfold delete_ypipe, on_store. cbn. rewrite lookup_insert_eq. cbn.
  by rewrite delete_insert_eq.
Qed.
End closed_form.

Lemma process_pipe_term_ack_eq p t cs ev pu ta s : sink p = true → terminating (state p) = true →
  live t !! in_pipe p = Some s →
  process_pipe_term_ack (Env (Some p) t cs ev pu ta) =
  Some (tt, Env None
    (Store (delete (in_pipe p) (live t)) (next t) (closed t ++ flushed s) (leaked t ++ complete s ++ partial s))
    (cs ++ (if decide (state p = term_req_sent1) then [CPipeTermAck] else [])) (ev ++ [PipeTerminated]) pu ta).
Proof.
  intros Hk Hst Hs. unfold process_pipe_term_ack, notify, mbind, M_bind. cbn. rewrite Hk. cbn.
  destruct (state p); try done; cbn; rewrite (release_eq _ _ _ _ _ _ s) by exact Hs; by rewrite ?app_nil_r.
Qed.
End Pipe.
