(* ===== verification/PipePair.v ===== *)
(** * A pair of message pipes

    Two endpoints of [Pipe] with the commands on their way between them.  A step
    is one call of an operation on one endpoint, or the delivery of the first
    command to one; the steps of the two endpoints interleave in any order.
    [pipe_safe]: no assertion fails and nothing deallocated is used, whatever
    the owners of the endpoints call while their endpoint exists. *)

From S2P Require Import Prelude Msg YPipe Pipe.

Module PipePair.
Import Pipe.

(** ** The pair *)

(** One endpoint: the commands sent to it and not delivered yet, and what its
    owner has been given. *)
Record side := Side {
  ep : option pipe;
  inbox : list command;
  s_events : list event;
  s_put : list msg;
  s_taken : list msg;
  got : list msg }.

Record world := World { st : store; left : side; right : side }.

Definition get (s : bool) (w : world) : side := if s then left w else right w.
Definition build (s : bool) (t : store) (x y : side) : world := if s then World t x y else World t y x.

(** Calling [m] on the endpoint [s], with [inb] as what is left of its
    commands.  A command to a deallocated endpoint is an abort: sending it reads
    the thread id of the endpoint. *)
Definition call {A} (s : bool) (inb : list command) (m : M A) (w : world) : option (A * world) :=
  let x := get s w in
  let y := get (negb s) w in
  r ← m (Env (ep x) (st w) [] (s_events x) (s_put x) (s_taken x));
  let e := r.2 in
  _ ← zmq_assert (bool_decide (commands e = []) || bool_decide (is_Some (ep y)));
  Some (r.1, build s (pipes e)
    (Side (self e) inb (events e) (put e) (taken e) (got x))
    (Side (ep y) (inbox y ++ commands e) (s_events y) (s_put y) (s_taken y) (got y))).

Inductive action : Type :=
| ACheckRead | ARead | ACheckWrite | AWrite (m : msg) | ARollback | AFlush
| ATerminate (delay_ : bool) | AHiccup | ASetNodelay
| ASetHwms (inhwm outhwm : Z) | ASetHwmsBoost (inhwm outhwm : Z) | ASendHwms (inhwm outhwm : Z)
| ADeliver.

Definition delivered (s : bool) (m : option msg) (w : world) : world :=
  let x := get s w in
  build s (st w) (Side (ep x) (inbox x) (s_events x) (s_put x) (s_taken x) (got x ++ option_list m)) (get (negb s) w).

Definition step (s : bool) (a : action) (w : world) : option world :=
  let inb := inbox (get s w) in
  match a with
  | ACheckRead => snd <$> call s inb check_read w
  | ARead => r ← call s inb read w; Some (delivered s r.1 r.2)
  | ACheckWrite => snd <$> call s inb check_write w
  | AWrite m => snd <$> call s inb (write m) w
  | ARollback => snd <$> call s inb rollback w
  | AFlush => snd <$> call s inb flush w
  | ATerminate d => snd <$> call s inb (terminate d) w
  | AHiccup => snd <$> call s inb hiccup w
  | ASetNodelay => snd <$> call s inb set_nodelay w
  | ASetHwms i o => snd <$> call s inb (set_hwms i o) w
  | ASetHwmsBoost i o => snd <$> call s inb (set_hwms_boost i o) w
  | ASendHwms i o => snd <$> call s inb (send_hwms_to_peer i o) w
  | ADeliver =>
    match inb with
    | [] => Some w
    | c :: inb => snd <$> call s inb (process_command c) w
    end
  end.

Fixpoint run (acts : list (bool * action)) (w : world) : option world :=
  match acts with
  | [] => Some w
  | (s, a) :: acts => w ← step s a w; run acts w
  end.

(** The pair [pipepair] creates, each endpoint with a sink. *)
Definition start (hwm0 hwm1 : Z) : option world :=
  r ← pipepair hwm0 hwm1;
  let side p := Side (Some (set_sink true p)) [] [] [] [] [] in
  Some (World r.2 (side r.1.1) (side r.1.2)).

(** ** What the owners may call *)

(** Watermarks whose sums are no overflow. *)
Definition small (z : Z) : Prop := -1000000000 ≤ z ≤ 1000000000.

#[export] Instance small_dec z : Decision (small z).
Proof. unfold small. apply _. Defined.

(** Once an endpoint has acknowledged the termination, its peer may be gone. *)
Definition acked (p : pipe) : bool :=
  match state p with term_ack_sent | term_req_sent2 => true | _ => false end.

(** The owner calls an endpoint while it exists, and sends no watermarks once
    the endpoint has acknowledged the termination. *)
Definition may (a : action) (p : option pipe) : Prop :=
  match a with
  | ADeliver => True
  | AWrite m => is_Some p ∧ is_delimiter m = false
  | ASetHwms i o | ASetHwmsBoost i o => is_Some p ∧ small i ∧ small o
  | ASendHwms i o => (∃ q, p = Some q ∧ acked q = false) ∧ small i ∧ small o
  | _ => is_Some p
  end.

Definition allowed (s : bool) (a : action) (w : world) : Prop := may a (ep (get s w)).

#[export] Instance may_dec a p : Decision (may a p).
Proof.
  destruct a; try (cbn; apply _). cbn. destruct p as [q|].
  - destruct (decide (acked q = false ∧ small inhwm ∧ small outhwm)) as [H|H]; [left|right].
    + destruct H as (? & ? & ?). eauto 6.
    + intros [(? & [= <-] & ?) ?]. by apply H.
  - right. by intros [(? & [=] & _) _].
Defined.

#[export] Instance allowed_dec s a w : Decision (allowed s a w) := may_dec a (ep (get s w)).

(** The worlds the pair can get to by the actions that satisfy [ok]. *)
Inductive reach (ok : action → Prop) (w0 : world) : world → Prop :=
| reach_start : reach ok w0 w0
| reach_step w s a w' : reach ok w0 w → allowed s a w → ok a → step s a w = Some w' → reach ok w0 w'.

(** A run of allowed actions. *)
Fixpoint play (acts : list (bool * action)) (w : world) : option world :=
  match acts with
  | [] => Some w
  | (s, a) :: acts => if decide (allowed s a w) then w ← step s a w; play acts w else None
  end.

Lemma play_reach ok acts w0 w w' :
  reach ok w0 w → play acts w = Some w' → Forall (λ x, ok x.2) acts → reach ok w0 w'.
Proof.
  revert w. induction acts as [|[s a] acts IH]; cbn; intros w Hr Hp Hok; [by injection Hp as <-|].
  inversion Hok as [|? ? Ha Hok']; subst. case_decide as Hal; [|done]. destruct (step s a w) as [w1|] eqn:Hs; [|done].
  cbn in Hp. eapply IH; [|done|done]. by eapply reach_step.
Qed.

(** ** The termination handshake

    The commands of the handshake among those on the way, and the new pipes
    among them. *)

Inductive hcmd : Type := Term | Ack.

Definition hs (l : list command) : list hcmd :=
  omap (λ c, match c with CPipeTerm => Some Term | CPipeTermAck => Some Ack | _ => None end) l.
Definition hic (l : list command) : list nat :=
  omap (λ c, match c with CHiccup id => Some id | _ => None end) l.

Lemma hs_app l l' : hs (l ++ l') = hs l ++ hs l'.
Proof. apply omap_app. Qed.
Lemma hic_app l l' : hic (l ++ l') = hic l ++ hic l'.
Proof. apply omap_app. Qed.

(** Where a pair can be in the handshake: the state of each endpoint ([None]:
    deallocated) and the commands of the handshake on their way to it. *)
Inductive phase : option pstate → list hcmd → option pstate → list hcmd → Prop :=
| ph_open : phase (Some active) [] (Some active) []
| ph_request r : r = active ∨ r = delimiter_received → phase (Some term_req_sent1) [] (Some r) [Term]
| ph_wait : phase (Some term_req_sent1) [] (Some waiting_for_delimiter) []
| ph_ack : phase (Some term_req_sent1) [Ack] (Some term_ack_sent) []
| ph_last : phase None [] (Some term_ack_sent) [Ack]
| ph_both : phase (Some term_req_sent1) [Term] (Some term_req_sent1) [Term]
| ph_both1 : phase (Some term_req_sent2) [] (Some term_req_sent1) [Term; Ack]
| ph_both2 : phase (Some term_req_sent2) [Ack] (Some term_req_sent2) [Ack]
| ph_last2 : phase None [] (Some term_req_sent2) [Ack]
| ph_done : phase None [] None [].

Definition phases (px : option pstate) (hx : list hcmd) (py : option pstate) (hy : list hcmd) : Prop :=
  phase px hx py hy ∨ phase py hy px hx.

Lemma phases_sym px hx py hy : phases px hx py hy ↔ phases py hy px hx.
Proof. unfold phases. tauto. Qed.

(** What an endpoint's state says of the rest. *)
Lemma phases_cases s hx py hy : phases (Some s) hx py hy →
  match s with
  | active => hy = [] ∧ (hx = [] ∧ py = Some active ∨ hx = [Term] ∧ py = Some term_req_sent1)
  | delimiter_received => hy = [] ∧ hx = [Term] ∧ py = Some term_req_sent1
  | waiting_for_delimiter => hx = [] ∧ hy = [] ∧ py = Some term_req_sent1
  | term_ack_sent => hx = [] ∧ hy = [Ack] ∧ py = Some term_req_sent1 ∨ hx = [Ack] ∧ hy = [] ∧ py = None
  | term_req_sent1 =>
    hx = [] ∧ hy = [Term] ∧ (py = Some active ∨ py = Some delimiter_received) ∨
    hx = [] ∧ hy = [] ∧ py = Some waiting_for_delimiter ∨
    hx = [Ack] ∧ hy = [] ∧ py = Some term_ack_sent ∨
    hx = [Term] ∧ hy = [Term] ∧ py = Some term_req_sent1 ∨
    hx = [Term; Ack] ∧ hy = [] ∧ py = Some term_req_sent2
  | term_req_sent2 =>
    hx = [] ∧ hy = [Term; Ack] ∧ py = Some term_req_sent1 ∨
    hx = [Ack] ∧ hy = [Ack] ∧ py = Some term_req_sent2 ∨
    hx = [Ack] ∧ hy = [] ∧ py = None
  end.
Proof.
  intros [H|H]; inversion H as [|r [-> | ->]| | | | | | | |]; subst; tauto.
Qed.

(** The new pipes come before the commands of the handshake, and nothing comes
    after an acknowledgement. *)
Fixpoint ordered (l : list command) : Prop :=
  match l with
  | [] => True
  | CPipeTerm :: l => hic l = [] ∧ ordered l
  | CPipeTermAck :: l => l = []
  | _ :: l => ordered l
  end.

Lemma ordered_tail c l : ordered (c :: l) → ordered l.
Proof. destruct c; cbn; try done; [by intros []|by intros ->]. Qed.

Lemma ordered_snoc l c : ordered l → Ack ∉ hs l → (hic [c] ≠ [] → hs l = []) → ordered (l ++ [c]).
Proof.
  induction l as [|x l IH]; intros Ho Ha Hc; [by destruct c; cbn; auto|].
  assert (Hhs : hs (x :: l) = hs [x] ++ hs l) by apply (hs_app [x]).
  destruct x; cbn in Ho |- *; try (by apply IH).
  - destruct Ho as [Hl Ho]. split.
    + rewrite hic_app, Hl. destruct (decide (hic [c] = [])) as [->|Hh]; [done|]. by specialize (Hc Hh).
    + apply IH; [done| |].
      * intros H. apply Ha. rewrite Hhs. apply elem_of_app. by right.
      * intros H. specialize (Hc H). by rewrite Hhs in Hc.
  - exfalso. apply Ha. rewrite Hhs. cbn. left.
Qed.

(** ** The invariant *)

Definition content (s : pspec msg) : list msg := flushed s ++ complete s ++ partial s.

(** States before the endpoint asked for the termination or was asked, and
    states after the peer's request came. *)
Definition early (p : pipe) : bool := match state p with active | delimiter_received => true | _ => false end.
Definition late (p : pipe) : bool :=
  match state p with waiting_for_delimiter | term_ack_sent | term_req_sent2 => true | _ => false end.

Definition cmd_ok (c : command) : Prop := match c with CPipeHwm i o => small i ∧ small o | _ => True end.

(** The lock-free pipes from [x] to [y], oldest first: the one [x] writes to, and
    those on their way to [x]. *)
Definition ids (px py : option pipe) (ix : list command) : list nat :=
  match px ≫= out_pipe with
  | Some a => a :: hic ix
  | None => option_list (in_pipe <$> py)
  end.

Record pipe_ok (p : pipe) (ix : list command) : Prop := {
  p_sink : sink p = true;
  p_boosts : small (in_hwm_boost p) ∧ small (out_hwm_boost p);
  p_acked : out_pipe p = None ↔ acked p = true;
  p_late : late p = true → hic ix = [] }.

(** What holds of the endpoint [x], its commands and its outbound pipes. *)
Record half (px py : option pipe) (ix : list command) (t : store) : Prop := {
  h_ord : ordered ix;
  h_cmds : Forall cmd_ok ix;
  h_pipe p : px = Some p → pipe_ok p ix;
  h_dead : px = None → ix = [];
  h_chain p a : px = Some p → out_pipe p = Some a → ∃ q, py = Some q ∧ last (a :: hic ix) = Some (in_pipe q);
  h_delim p id s : px = Some p → early p = true → id ∈ ids px py ix → live t !! id = Some s →
    Forall (λ m, is_delimiter m = false) (content s) }.

Record inv (px py : option pipe) (ix iy : list command) (t : store) : Prop := {
  i_phase : phases (state <$> px) (hs ix) (state <$> py) (hs iy);
  i_x : half px py ix t;
  i_y : half py px iy t;
  i_nodup : NoDup (ids px py ix ++ ids py px iy);
  i_dom id : is_Some (live t !! id) ↔ id ∈ ids px py ix ++ ids py px iy;
  i_next id : is_Some (live t !! id) → (id < next t)%nat;
  i_more id s : live t !! id = Some s → Forall (λ m, is_more m = true) (partial s) }.

Lemma inv_sym px py ix iy t : inv px py ix iy t → inv py px iy ix t.
Proof.
  intros [Hp Hx Hy Hn Hd Hx' Hm]. split; [by apply phases_sym|done|done| |intros id|done|done].
  - by rewrite Permutation_app_comm.
  - rewrite Hd, !elem_of_app. tauto.
Qed.

(** The members the invariant looks at. *)
Definition same (p p' : pipe) : Prop :=
  in_pipe p' = in_pipe p ∧ out_pipe p' = out_pipe p ∧ sink p' = sink p ∧ state p' = state p.

Lemma ids_same p p' py ix : same p p' → ids (Some p') py ix = ids (Some p) py ix.
Proof. intros (_ & Ho & _). unfold ids. cbn. by rewrite Ho. Qed.

Lemma ids_same_peer px q q' ix : same q q' → ids px (Some q') ix = ids px (Some q) ix.
Proof. intros (Hi & _). unfold ids. cbn. by rewrite Hi. Qed.

Lemma inv_self p p' py ix iy t : inv (Some p) py ix iy t → same p p' →
  small (in_hwm_boost p') → small (out_hwm_boost p') → inv (Some p') py ix iy t.
Proof.
  intros [Hp [Ho Hc Hk Hd Hch Hdl] [Ho' Hc' Hk' Hd' Hch' Hdl'] Hn Hdom Hnx Hm] Hs Hb1 Hb2.
  assert (Hi1 : ∀ ix, ids (Some p') py ix = ids (Some p) py ix) by (intros; by apply ids_same).
  assert (Hi2 : ∀ iy, ids py (Some p') iy = ids py (Some p) iy) by (intros; by apply ids_same_peer).
  destruct Hs as (Hin & Hout & Hsk & Hst).
  split; rewrite ?Hi1, ?Hi2; [by cbn; rewrite Hst| | |done|done|done|done].
  - split; [done|done| |done| |].
    + intros ? [= <-]. destruct (Hk p eq_refl) as [Ks Kb Ka Kl].
      split; [by rewrite Hsk|done| |]; unfold acked, late; rewrite ?Hout, ?Hst; [apply Ka|apply Kl].
    + intros ? a [= <-]. rewrite Hout. by apply Hch.
    + intros ? id s [= <-]. unfold early. rewrite Hst, Hi1. by apply Hdl.
  - split; [done..| |].
    + intros q a Hq Ha. destruct (Hch' q a Hq Ha) as (r & [= <-] & Hl). exists p'. by rewrite Hin.
    + intros q id s. rewrite Hi2. apply Hdl'.
Qed.

(** Changing the lock-free pipe [id]: no delimiter gets into a pipe of an
    endpoint that did not ask for the termination. *)
Lemma inv_store px py ix iy t id s s' t' :
  inv px py ix iy t → live t !! id = Some s → live t' = <[id := s']> (live t) → next t' = next t →
  Forall (λ m, is_more m = true) (partial s') →
  (∀ m, m ∈ content s' → m ∈ content s ∨ is_delimiter m = false ∨
     ∃ p, px = Some p ∧ early p = false ∧ out_pipe p = Some id) →
  inv px py ix iy t'.
Proof.
  intros [Hp Hx Hy Hn Hdom Hnx Hm] Hs Ht Hnt Hm' Hc.
  assert (Hid : id ∈ ids px py ix ++ ids py px iy) by (apply Hdom; eauto).
  split; [done| | |done| | |].
  - destruct Hx as [Ho Hco Hk Hd Hch Hdl]. split; [done..|].
    intros p i s1 Hpx He Hi. rewrite Ht. intros [[<- <-]|[Hne Hs1]]%lookup_insert_Some; [|by eapply Hdl].
    specialize (Hdl p id s Hpx He Hi Hs). apply Forall_forall. intros m Hmc.
    destruct (Hc m Hmc) as [Hin|[?|(p' & Hp' & He' & _)]]; [by eapply Forall_forall in Hdl|done|congruence].
  - destruct Hy as [Ho Hco Hk Hd Hch Hdl]. split; [done..|].
    intros p i s1 Hpy He Hi. rewrite Ht. intros [[<- <-]|[Hne Hs1]]%lookup_insert_Some; [|by eapply Hdl].
    specialize (Hdl p id s Hpy He Hi Hs). apply Forall_forall. intros m Hmc.
    destruct (Hc m Hmc) as [Hin|[?|(p' & Hp' & He' & Ho')]]; [by eapply Forall_forall in Hdl|done|].
    exfalso. apply NoDup_app in Hn as (_ & Hn & _). apply (Hn id); [|done].
    unfold ids. rewrite Hp'. cbn. rewrite Ho'. left.
  - intros i. rewrite Ht, lookup_insert_is_Some', Hdom. split; [|tauto]. by intros [<-|?].
  - intros i. rewrite Ht, Hnt, lookup_insert_is_Some'. intros [<-|?]; apply Hnx; eauto.
  - intros i s1. rewrite Ht. intros [[<- <-]|[Hne Hs1]]%lookup_insert_Some; eauto.
Qed.

Lemma inv_closed px py ix iy t t' :
  inv px py ix iy t → live t' = live t → next t' = next t → inv px py ix iy t'.
Proof.
  intros [Hp [] [] Hn Hdom Hnx Hm] Hl Hnt.
  split; [done|split; try done; by rewrite Hl|split; try done; by rewrite Hl|done|..]; by rewrite Hl, ?Hnt.
Qed.

Definition plain (c : command) : Prop := hs [c] = [] ∧ hic [c] = [].

Lemma half_inbox px py ix ix' t : half px py ix t → ordered ix' → Forall cmd_ok ix' → hic ix' = hic ix →
  (px = None → ix' = []) → half px py ix' t.
Proof.
  intros [Ho Hco Hk Hd Hch Hdl] Ho' Hco' Hh Hnone. unfold ids in *. split; rewrite ?Hh; [done|done| |done|done|].
  - intros p Hp. destruct (Hk p Hp). by split; rewrite ?Hh.
  - intros p id s. unfold ids. rewrite Hh. apply Hdl.
Qed.

Lemma ids_inbox px py ix ix' : hic ix' = hic ix → ids px py ix' = ids px py ix.
Proof. intros Hh. unfold ids. by rewrite Hh. Qed.

(** A command outside the handshake is sent. *)
Lemma inv_send px py ix iy t c : inv px py ix iy t → plain c → cmd_ok c → is_Some py → Ack ∉ hs iy →
  inv px py ix (iy ++ [c]) t.
Proof.
  intros [Hp Hx Hy Hn Hdom Hnx Hm] [Hc1 Hc2] Hok [q ->] Ha.
  assert (Hh : hic (iy ++ [c]) = hic iy) by (by rewrite hic_app, Hc2, app_nil_r).
  split; [|done| | | |done|done].
  - by rewrite hs_app, Hc1, app_nil_r.
  - pose proof Hy as [Ho Hco _ _ _ _]. eapply half_inbox; [done| | |done|done].
    + apply ordered_snoc; [done|done|by rewrite Hc2].
    + apply Forall_app. split; [done|by constructor].
  - by rewrite (ids_inbox _ _ iy (iy ++ [c])).
  - intros id. by rewrite (ids_inbox _ _ iy (iy ++ [c])).
Qed.

(** A command outside the handshake arrives. *)
Lemma inv_pop px py ix iy t c : inv px py (c :: ix) iy t → plain c → inv px py ix iy t.
Proof.
  intros [Hp Hx Hy Hn Hdom Hnx Hm] [Hc1 Hc2].
  assert (Hs : hs (c :: ix) = hs ix) by (change (hs ([c] ++ ix) = hs ix); by rewrite hs_app, Hc1).
  assert (Hh : hic (c :: ix) = hic ix) by (change (hic ([c] ++ ix) = hic ix); by rewrite hic_app, Hc2).
  split; [|  |done| | |done|done].
  - by rewrite <-Hs.
  - eapply half_inbox; [done|by eapply ordered_tail, Hx| |done|by intros Hn'; specialize (h_dead _ _ _ _ Hx Hn')].
    pose proof (h_cmds _ _ _ _ Hx) as H. by inversion H.
  - by rewrite (ids_inbox _ _ (c :: ix) ix).
  - intros id. by rewrite (ids_inbox _ _ (c :: ix) ix).
Qed.

(** The peer's half, when its commands and this endpoint change. *)
Lemma half_peer p p' py iy cs t : half py (Some p) iy t → in_pipe p' = in_pipe p →
  hic cs = [] → ordered (iy ++ cs) → Forall cmd_ok cs → is_Some py → half py (Some p') (iy ++ cs) t.
Proof.
  intros H Hin Hcs Ho Hcmd [q0 ->].
  assert (Hh : hic (iy ++ cs) = hic iy) by (by rewrite hic_app, Hcs, app_nil_r).
  eapply half_inbox; [|done|apply Forall_app; split; [by destruct H|done]|done|done].
  destruct H as [Ho' Hco Hk Hd Hch Hdl]. split; [done..| |].
  - intros q a Hq Ha. destruct (Hch q a Hq Ha) as (r & [= <-] & Hl). exists p'. by rewrite Hin.
  - intros q id s Hq He Hi. apply (Hdl q id s Hq He). revert Hi. unfold ids. cbn. by rewrite Hin.
Qed.

(** A step of the handshake by an endpoint that then no longer starts anything
    new: it sends the commands [cs]. *)
Lemma inv_handshake p p' py ix ix' iy cs t : inv (Some p) py ix iy t →
  in_pipe p' = in_pipe p → early p' = false → pipe_ok p' ix' →
  ids (Some p') py ix' = ids (Some p) py ix →
  (∀ a, out_pipe p' = Some a → out_pipe p = Some a) →
  hic ix' = hic ix → ordered ix' → Forall cmd_ok ix' →
  hic cs = [] → ordered (iy ++ cs) → Forall cmd_ok cs → is_Some py →
  phases (Some (state p')) (hs ix') (state <$> py) (hs (iy ++ cs)) →
  inv (Some p') py ix' (iy ++ cs) t.
Proof.
  intros [Hp Hx Hy Hn Hdom Hnx Hm] Hin He Hok Hids Hout Hh Ho Hc Hcs Hocs Hccs Hpy Hph.
  assert (Hi2 : ids py (Some p') (iy ++ cs) = ids py (Some p) iy).
  { unfold ids. cbn. by rewrite hic_app, Hcs, app_nil_r, Hin. }
  split; [done| |by eapply half_peer|by rewrite Hids, Hi2|by intros id; rewrite Hids, Hi2|done|done].
  split; [done|done|by intros ? [= <-]|done| |].
  - intros ? a [= <-] Ha. rewrite Hh. by apply (h_chain _ _ _ _ Hx p a); [|apply Hout].
  - intros ? id s [= <-]. by rewrite He.
Qed.

Lemma ids_out p py ix iy a t : inv (Some p) py ix iy t → out_pipe p = Some a → hic ix = [] →
  ids (Some p) py ix = [a] ∧ option_list (in_pipe <$> py) = [a].
Proof.
  intros Hi Ho Hh. unfold ids. cbn. rewrite Ho, Hh. split; [done|].
  destruct (h_chain _ _ _ _ (i_x _ _ _ _ _ Hi) p a eq_refl Ho) as (q & -> & Hl). rewrite Hh in Hl. by simplify_eq/=.
Qed.

(** Acknowledging, possibly after a request that just arrived. *)
Lemma inv_ack p s' py ix ix' iy t : inv (Some p) py ix iy t →
  ix = ix' ∧ late p = true ∨ ix = CPipeTerm :: ix' →
  out_pipe p ≠ None → s' = term_ack_sent ∨ s' = term_req_sent2 → Ack ∉ hs iy →
  phases (Some s') (hs ix') (state <$> py) (hs iy ++ [Ack]) →
  inv (Some (set_state s' (set_out_pipe None p))) py ix' (iy ++ [CPipeTermAck]) t.
Proof.
  intros Hi Hix Hout Hs' Ha Hph.
  pose proof (i_x _ _ _ _ _ Hi) as Hx. pose proof (h_pipe _ _ _ _ Hx p eq_refl) as [Ks Kb Ka Kl].
  assert (Hh : hic ix = [] ∧ hic ix' = [] ∧ ordered ix' ∧ Forall cmd_ok ix').
  { destruct Hx as [Ho Hc _ _ _ _]. destruct Hix as [[-> Hl] | ->]; [by rewrite Kl|].
    cbn in Ho. destruct Ho as [Hh Ho]. inversion Hc; subst. done. }
  destruct Hh as (Hh & Hh' & Ho & Hc). destruct (out_pipe p) as [a|] eqn:Hop; [|done].
  destruct (ids_out _ _ _ _ _ _ Hi Hop Hh) as [Hids Hpy].
  eapply inv_handshake; [exact Hi|done|by destruct Hs' as [-> | ->]| | |done|by rewrite Hh'|done|done|done| |by constructor|by destruct py|].
  - split; [done|done| |by intros]. cbn. unfold acked. cbn. by destruct Hs' as [-> | ->].
  - rewrite Hids. unfold ids. cbn. by rewrite <-Hpy.
  - apply ordered_snoc; [apply (i_y _ _ _ _ _ Hi)|done|done].
  - by rewrite hs_app.
Qed.

(** Asking for the termination. *)
Lemma inv_request p py ix iy t : inv (Some p) py ix iy t → early p = true →
  inv (Some (set_state term_req_sent1 p)) py ix (iy ++ [CPipeTerm]) t.
Proof.
  intros Hi He. pose proof (i_x _ _ _ _ _ Hi) as Hx.
  pose proof (h_pipe _ _ _ _ Hx p eq_refl) as [Ks Kb Ka Kl].
  pose proof (i_phase _ _ _ _ _ Hi) as Hp%phases_cases.
  assert (Hph : hs iy = [] ∧ is_Some (state <$> py) ∧ phases (Some term_req_sent1) (hs ix) (state <$> py) [Term]).
  { unfold early in He. destruct (state p); try done.
    - destruct Hp as (-> & [[-> ->]|[-> ->]]); (split_and!; [done|done|]); left; constructor; auto.
    - destruct Hp as (-> & -> & ->). split_and!; [done|done|]. left. constructor. }
  destruct Hph as (Hn & Hpy%fmap_is_Some & Hph).
  eapply inv_handshake; [exact Hi|done|done| |done|done|done|apply Hx|apply Hx|done| |by constructor|done|].
  - split; [done|done| |by intros]. rewrite Ka. unfold acked, early in *. cbn. by destruct (state p).
  - apply ordered_snoc; [apply (i_y _ _ _ _ _ Hi)|rewrite Hn; apply not_elem_of_nil|done].
  - by rewrite hs_app, Hn.
Qed.

(** A new inbound pipe. *)
Lemma inv_hiccup p p' py ix iy t t' : inv (Some p) py ix iy t → state p = active →
  same (set_in_pipe (next t) p) p' → in_hwm_boost p' = in_hwm_boost p → out_hwm_boost p' = out_hwm_boost p →
  live t' = <[next t := PS [] [] [] false]> (live t) → next t' = S (next t) →
  inv (Some p') py ix (iy ++ [CHiccup (next t)]) t'.
Proof.
  intros Hi Hst (Hin & Hout & Hsk & Hst') Hb1 Hb2 Hl Hnt. cbn in Hin, Hout, Hsk, Hst'.
  pose proof (phases_cases _ _ _ _ (i_phase _ _ _ _ _ Hi)) as Hp. rewrite Hst in Hp. destruct Hp as (Hhy & Hpy).
  destruct Hi as [Hp Hx Hy Hn Hdom Hnx Hm].
  assert (∃ q a, py = Some q ∧ out_pipe q = Some a ∧ late q = false ∧ acked q = false) as (q & a & -> & Ha & Hlq & Haq).
  { destruct py as [q|]; [|by destruct Hpy as [[_ H]|[_ H]]]. destruct (out_pipe q) as [a|] eqn:Ho.
    - exists q, a. repeat split; [done| |]; unfold late, acked; cbn in Hpy; by destruct Hpy as [[_ [= ->]]|[_ [= ->]]].
    - destruct (h_pipe _ _ _ _ Hy q eq_refl) as [_ _ Ka _]. apply Ka in Ho. unfold acked in Ho. cbn in Hpy.
      destruct Hpy as [[_ [= H]]|[_ [= H]]]; by rewrite H in Ho. }
  assert (Hi1 : ids (Some p') (Some q) ix = ids (Some p) (Some q) ix) by (unfold ids; cbn; by rewrite Hout).
  assert (Hi2 : ids (Some q) (Some p') (iy ++ [CHiccup (next t)]) = ids (Some q) (Some p) iy ++ [next t]).
  { unfold ids. cbn. rewrite Ha, hic_app. done. }
  assert (Hfresh : live t !! next t = None).
  { apply eq_None_not_Some. intros Hs%Hnx. lia. }
  split.
  - cbn. rewrite Hst'. by rewrite hs_app, Hhy in *.
  - destruct Hx as [Ho Hc Hk Hd Hch Hdl]. split; [done|done| |done| |].
    + intros ? [= <-]. destruct (Hk p eq_refl) as [Ks Kb Ka Kl].
      split; rewrite ?Hsk, ?Hb1, ?Hb2, ?Hout; unfold acked, late; rewrite ?Hst'; done.
    + intros ? b [= <-]. rewrite Hout. by apply Hch.
    + intros ? id s [= <-]. unfold early. rewrite Hst', Hi1, Hl.
      intros He Hid [[<- <-]|[Hne Hs]]%lookup_insert_Some; [constructor|by eapply Hdl].
  - destruct Hy as [Ho Hc Hk Hd Hch Hdl]. split; [| | |done| |].
    + apply ordered_snoc; [done|rewrite Hhy; apply not_elem_of_nil|done].
    + apply Forall_app. split; [done|by constructor].
    + intros ? [= <-]. destruct (Hk q eq_refl) as [Ks Kb Ka Kl]. split; [done..|]. by rewrite Hlq.
    + intros ? b [= <-] Hb. exists p'. split; [done|]. rewrite hic_app. cbn.
      change (b :: hic iy ++ [next t]) with ((b :: hic iy) ++ [next t]). by rewrite last_snoc, Hin.
    + intros ? id s [= <-] He. rewrite Hi2, Hl.
      intros Hid [[<- <-]|[Hne Hs]]%lookup_insert_Some; [constructor|]. eapply Hdl; [done|done| |done].
      apply elem_of_app in Hid as [?|Hid]; [done|]. by apply list_elem_of_singleton in Hid.
  - rewrite Hi1, Hi2, app_assoc. apply NoDup_app. split; [done|]. split; [|apply NoDup_singleton].
    intros id Hid Hid'. apply list_elem_of_singleton in Hid' as ->. apply Hdom in Hid. rewrite Hfresh in Hid. by destruct Hid.
  - intros id. rewrite Hi1, Hi2, app_assoc, elem_of_app, <-Hdom, list_elem_of_singleton, Hl, lookup_insert_is_Some'.
    split; [intros [->|H]|intros [H| ->]]; auto.
  - intros id. rewrite Hl, Hnt, lookup_insert_is_Some'. intros [<-|H]; [lia|]. apply Hnx in H. lia.
  - intros id s. rewrite Hl. intros [[<- <-]|[Hne Hs]]%lookup_insert_Some; [constructor|eauto].
Qed.

(** The new outbound pipe arrives: the old one is deleted. *)
Lemma inv_process_hiccup p p' py ix iy t t' id old : inv (Some p) py (CHiccup id :: ix) iy t →
  out_pipe p = Some old → out_pipe p' = Some id → in_pipe p' = in_pipe p → sink p' = sink p → state p' = state p →
  in_hwm_boost p' = in_hwm_boost p → out_hwm_boost p' = out_hwm_boost p →
  live t' = delete old (live t) → next t' = next t →
  inv (Some p') py ix iy t'.
Proof.
  intros [Hp Hx Hy Hn Hdom Hnx Hm] Ho Ho' Hin Hsk Hst Hb1 Hb2 Hl Hnt.
  assert (Hi1 : ids (Some p) py (CHiccup id :: ix) = old :: ids (Some p') py ix).
  { unfold ids. cbn. by rewrite Ho, Ho'. }
  assert (Hi2 : ids py (Some p') iy = ids py (Some p) iy) by (unfold ids; cbn; by rewrite Hin).
  rewrite Hi1 in Hn, Hdom. apply NoDup_cons in Hn as [Hno Hn].
  split; [by cbn; rewrite Hst| | |by rewrite Hi2| | |].
  - destruct Hx as [Hor Hc Hk Hd Hch Hdl]. inversion Hc; subst. split; [done|done| |done| |].
    + intros ? [= <-]. destruct (Hk p eq_refl) as [Ks Kb Ka Kl].
      split; rewrite ?Hsk, ?Hb1, ?Hb2; [done|done| |].
      * unfold acked. rewrite Ho', Hst. fold (acked p). rewrite <-Ka, Ho. done.
      * unfold late. rewrite Hst. intros Hla. by specialize (Kl Hla).
    + intros ? b [= <-]. rewrite Ho'. intros [= <-]. destruct (Hch p old eq_refl Ho) as (q & -> & Hla).
      exists q. split; [done|]. exact Hla.
    + intros ? i s [= <-]. unfold early. rewrite Hst, Hl. fold (early p). intros He Hid [_ Hs]%lookup_delete_Some.
      eapply Hdl; [done|done| |done]. rewrite Hi1. by right.
  - destruct Hy as [Hor Hc Hk Hd Hch Hdl]. split; [done..| |].
    + intros q a Hq Ha. destruct (Hch q a Hq Ha) as (r & [= <-] & Hla). exists p'. by rewrite Hin.
    + intros q i s Hq He. rewrite Hi2, Hl. intros Hid [_ Hs]%lookup_delete_Some. by eapply Hdl.
  - intros i. rewrite Hi2, Hl, lookup_delete_is_Some, Hdom. cbn. rewrite elem_of_cons. split; [by intros [? [->|?]]|].
    intros Hid. split; [by intros ->|by right].
  - intros i. rewrite Hl, Hnt, lookup_delete_is_Some. intros [_ H]. by apply Hnx.
  - intros i s. rewrite Hl. intros [_ H]%lookup_delete_Some. eauto.
Qed.

(** An endpoint that gets the acknowledgement has asked for the termination,
    or the peer has; the peer no longer writes. *)
Lemma ack_cases p py iy cs : phases (Some (state p)) [Ack] (state <$> py) (hs iy) →
  cs = (if decide (state p = term_req_sent1) then [CPipeTermAck] else []) →
  terminating (state p) = true ∧ phases None [] (state <$> py) (hs (iy ++ cs)) ∧
  (cs = [] ∨ hs iy = []) ∧ (∀ q, py = Some q → acked q = true) ∧ (py = None → cs = []).
Proof.
  intros Hp%phases_cases ->. destruct (state p); cbn in Hp |- *; rewrite ?app_nil_r.
  - by destruct Hp as (_ & [[? _]|[? _]]).
  - by destruct Hp as (_ & ? & _).
  - by destruct Hp as (? & _).
  - destruct Hp as [(? & _)|(_ & -> & Hp)]; [done|]. destruct py; [done|].
    repeat split; [left; constructor|by left|done].
  - destruct Hp as [(? & _)|[(? & _)|[(_ & Hh & Hp)|[(? & _)|(? & _)]]]]; try done.
    rewrite hs_app, Hh, Hp. repeat split; [left; constructor|auto| |by destruct py].
    intros q ->. unfold acked. by injection Hp as ->.
  - destruct Hp as [(? & _)|[(_ & Hh & Hp)|(_ & Hh & Hp)]]; [done| |].
    + rewrite Hh, Hp. repeat split; [left; constructor|auto|].
      intros q ->. unfold acked. by injection Hp as ->.
    + destruct py; [done|]. rewrite Hh. repeat split; [left; constructor|by left|done].
Qed.

(** The acknowledgement arrives: the endpoint is deallocated with its inbound
    pipe. *)
Lemma inv_release p py ix iy t t' cs : inv (Some p) py (CPipeTermAck :: ix) iy t →
  cs = (if decide (state p = term_req_sent1) then [CPipeTermAck] else []) →
  live t' = delete (in_pipe p) (live t) → next t' = next t →
  inv None py ix (iy ++ cs) t' ∧ terminating (state p) = true ∧ (py = None → cs = []).
Proof.
  intros Hi Hcs Hl Hnt. pose proof (i_phase _ _ _ _ _ Hi) as Hp.
  assert (Hix : ix = []) by apply (h_ord _ _ _ _ (i_x _ _ _ _ _ Hi)). subst ix. change (hs [CPipeTermAck]) with [Ack] in Hp.
  assert (Hid : ids (Some p) py [CPipeTermAck] = option_list (in_pipe <$> py)).
  { destruct (out_pipe p) as [a|] eqn:Ho.
    - destruct (ids_out _ _ _ _ _ _ Hi Ho eq_refl) as [-> ->]. done.
    - unfold ids. cbn. by rewrite Ho. }
  destruct Hi as [_ Hx Hy Hn Hdom Hnx Hm].
  destruct (ack_cases _ _ _ _ Hp Hcs) as (Hterm & Hph & Hcases & Hack & Hnil). split; [|done].
  assert (Hout : ∀ q, py = Some q → out_pipe q = None).
  { intros q Hq. apply (h_pipe _ _ _ _ Hy q Hq). by apply Hack. }
  assert (Hi1 : ids py (Some p) iy = [in_pipe p]).
  { unfold ids. destruct py as [q|]; cbn; [by rewrite (Hout q)|done]. }
  assert (Hi2 : ids py None (iy ++ cs) = []).
  { unfold ids. destruct py as [q|]; cbn; [by rewrite (Hout q)|done]. }
  assert (Hhic : hic (iy ++ cs) = hic iy).
  { rewrite hic_app. subst cs. case_decide; cbn; by rewrite app_nil_r. }
  rewrite Hid, Hi1 in Hn, Hdom.
  split; [done| | | | | |].
  - by split.
  - destruct Hy as [Ho Hc Hk Hd Hch Hdl]. split; rewrite ?Hhic; [| | | | |].
    + destruct Hcases as [->|Hh]; rewrite ?app_nil_r; [done|]. subst cs.
      case_decide; rewrite ?app_nil_r; [|done]. apply ordered_snoc; [done|rewrite Hh; apply not_elem_of_nil|done].
    + apply Forall_app. split; [done|]. subst cs. case_decide; by repeat constructor.
    + intros q Hq. destruct (Hk q Hq) as [Ks Kb Ka Kl]. split; [done..|by rewrite Hhic].
    + intros Hq. by rewrite (Hd Hq), (Hnil Hq).
    + intros q a Hq Ha. by rewrite (Hout q Hq) in Ha.
    + intros q id s Hq He. specialize (Hack q Hq). unfold acked in Hack. unfold early in He. by destruct (state q).
  - rewrite Hi2. unfold ids. cbn. rewrite app_nil_r. by apply NoDup_app in Hn as [? _].
  - intros id. rewrite Hi2, Hl, lookup_delete_is_Some, Hdom. unfold ids. cbn. rewrite app_nil_r, elem_of_app, list_elem_of_singleton.
    apply NoDup_app in Hn as (_ & Hn & _). split; [by intros [? [?|?]]|].
    intros Hin. split; [|by left]. intros <-. by apply (Hn (in_pipe p)), list_elem_of_singleton.
  - intros id. rewrite Hl, Hnt, lookup_delete_is_Some. intros [_ H]. by apply Hnx.
  - intros id s. rewrite Hl. intros [_ H]%lookup_delete_Some. eauto.
Qed.

(** ** The operations keep the invariant *)

Section ops.
Context (p : pipe) (py : option pipe) (ix iy : list command) (t : store).
Hypothesis Hi : inv (Some p) py ix iy t.

Lemma inv_in : ∃ s, live t !! in_pipe p = Some s.
Proof.
  apply (i_dom _ _ _ _ _ Hi), elem_of_app. right. unfold ids. destruct py as [q|]; cbn; [|by left].
  destruct (out_pipe q) as [a|] eqn:Ho; cbn; [|by left].
  destruct (h_chain _ _ _ _ (i_y _ _ _ _ _ Hi) q a eq_refl Ho) as (r & [= <-] & Hl). by apply last_Some_elem_of.
Qed.

Lemma inv_out id : out_pipe p = Some id → ∃ s, live t !! id = Some s ∧ Forall (λ m, is_more m = true) (partial s).
Proof.
  intros Ho. destruct (proj2 (i_dom _ _ _ _ _ Hi id)) as [s Hs].
  - apply elem_of_app. left. unfold ids. cbn. rewrite Ho. left.
  - exists s. split; [done|]. by apply (i_more _ _ _ _ _ Hi id).
Qed.

Lemma inv_pipe_ok : pipe_ok p ix.
Proof. by apply (h_pipe _ _ _ _ (i_x _ _ _ _ _ Hi)). Qed.

Lemma inv_cases : match state p with
  | active => hs iy = [] ∧ (hs ix = [] ∧ state <$> py = Some active ∨ hs ix = [Term] ∧ state <$> py = Some term_req_sent1)
  | delimiter_received => hs iy = [] ∧ hs ix = [Term] ∧ state <$> py = Some term_req_sent1
  | waiting_for_delimiter => hs ix = [] ∧ hs iy = [] ∧ state <$> py = Some term_req_sent1
  | term_req_sent1 => acked p = false ∧ Ack ∉ hs iy ∧ is_Some py
  | _ => acked p = true
  end.
Proof.
  pose proof (phases_cases _ _ _ _ (i_phase _ _ _ _ _ Hi)) as Hp. unfold acked. destruct (state p); try done.
  assert (∀ s, state <$> py = Some s → is_Some py) by (intros s; by destruct py).
  split; [done|]. decompose [and or] Hp; (split; [|by eauto]);
    match goal with H : hs iy = _ |- _ => rewrite H end; set_solver.
Qed.

(** Before it acknowledged, an endpoint may send the peer commands. *)
Lemma inv_may_send : acked p = false → is_Some py ∧ Ack ∉ hs iy.
Proof.
  pose proof inv_cases as Hc. intros Ha. unfold acked in *.
  assert (∀ s, state <$> py = Some s → is_Some py) by (intros s; by destruct py).
  destruct (state p); try done; decompose [and or] Hc; (split; [by eauto|]); try done;
    match goal with H : hs iy = _ |- _ => rewrite H end; apply not_elem_of_nil.
Qed.

Lemma inv_out_some : acked p = false → ∃ id, out_pipe p = Some id.
Proof.
  intros Ha. destruct (out_pipe p) as [id|] eqn:Ho; [by exists id|].
  apply (p_acked _ _ inv_pipe_ok) in Ho. by rewrite Ho in Ha.
Qed.

(** A delimiter in the inbound pipe: the peer asked for the termination. *)
Lemma inv_delim s m : live t !! in_pipe p = Some s → m ∈ content s → is_delimiter m = true →
  ∀ q, py = Some q → early q = false.
Proof.
  intros Hs Hm Hd q Hq. destruct (early q) eqn:He; [|done]. exfalso.
  assert (Hf : Forall (λ m, is_delimiter m = false) (content s)).
  { apply (h_delim _ _ _ _ (i_y _ _ _ _ _ Hi) q (in_pipe p) s Hq He); [|done].
    unfold ids. rewrite Hq. cbn. destruct (out_pipe q) as [a|] eqn:Ho; cbn; [|by left].
    destruct (h_chain _ _ _ _ (i_y _ _ _ _ _ Hi) q a Hq Ho) as (r & [= <-] & Hl). by apply last_Some_elem_of. }
  eapply Forall_forall in Hf; [|done]. congruence.
Qed.
End ops.

(** What is to be proved of an operation on the endpoint [p]. *)
Definition good {A} (py : option pipe) (ix iy : list command) (m : M A) (e : env) : Prop :=
  ∃ r e', m e = Some (r, e') ∧ (commands e' = [] ∨ is_Some py) ∧ inv (self e') py ix (iy ++ commands e') (pipes e').

Lemma good_eq {A} py ix iy (m : M A) e r e' : m e = Some (r, e') → (commands e' = [] ∨ is_Some py) →
  inv (self e') py ix (iy ++ commands e') (pipes e') → good py ix iy m e.
Proof. intros H1 H2 H3. by exists r, e'. Qed.

Section good.
Context (p : pipe) (py : option pipe) (ix iy : list command) (t : store) (ev : list event) (pu ta : list msg).
Hypothesis Hi : inv (Some p) py ix iy t.
Let e0 : env := Env (Some p) t [] ev pu ta.

Lemma good_check_write : good py ix iy check_write e0.
Proof.
  eapply good_eq; [apply check_write_eq|by left|]. cbn. rewrite app_nil_r.
  destruct (p_boosts _ _ (inv_pipe_ok _ _ _ _ _ Hi)). unfold blocked. destruct (_ && _); [|done].
  by eapply inv_self.
Qed.

Lemma good_write m : is_delimiter m = false → good py ix iy (write m) e0.
Proof.
  intros Hd. destruct (p_boosts _ _ (inv_pipe_ok _ _ _ _ _ Hi)). destruct (may_write p) eqn:Hw.
  - assert (Hst : state p = active).
    { unfold may_write in Hw. by apply andb_true_iff in Hw as [[_ H1%bool_decide_eq_true]%andb_true_iff _]. }
    destruct (inv_out_some _ _ _ _ _ Hi) as [id Ho]; [by unfold acked; rewrite Hst|].
    destruct (inv_out _ _ _ _ _ Hi id Ho) as (s & Hs & Hm).
    eapply good_eq; [by apply (write_eq ev m p t [] pu ta id s)|by left|]. cbn. rewrite app_nil_r.
    assert (Hst1 : inv (Some p) py ix iy (put_spec id (s_write m (is_more m) s) t)).
    { eapply inv_store; [exact Hi|exact Hs|done|done| |].
      - unfold s_write. destruct (is_more m) eqn:Hmo; cbn; [|constructor].
        apply Forall_app. split; [done|by constructor].
      - intros x. unfold content, s_write. destruct (is_more m); cbn; rewrite ?app_nil_r, !elem_of_app, list_elem_of_singleton.
        + intros [?|[?|[?| ->]]]; auto 6.
        + intros [?|[?|[?| ->]]]; auto 6. }
    unfold wrote. destruct (counted m); [|done]. by eapply inv_self.
  - eapply good_eq; [by apply write_full|by left|]. cbn. rewrite app_nil_r.
    unfold blocked. destruct (_ && _); [|done]. by eapply inv_self.
Qed.

(** A change of the outbound pipe that brings in no delimiter. *)
Lemma inv_out_store q id s s' t' : inv (Some q) py ix iy t → live t !! id = Some s →
  live t' = <[id := s']> (live t) → next t' = next t → Forall (λ m, is_more m = true) (partial s') →
  (∀ m, m ∈ content s' → m ∈ content s) → inv (Some q) py ix iy t'.
Proof. intros. eapply inv_store; eauto. Qed.

Lemma good_rollback : good py ix iy rollback e0.
Proof.
  destruct (out_pipe p) as [id|] eqn:Ho.
  - destruct (inv_out _ _ _ _ _ Hi id Ho) as (s & Hs & Hm).
    eapply good_eq; [by apply (rollback_eq ev p t [] pu ta id s)|by left|]. cbn. rewrite app_nil_r.
    eapply (inv_out_store p id s (rolled s)); [done..|constructor|].
    intros m. unfold content, rolled. cbn. rewrite app_nil_r, !elem_of_app. tauto.
  - eapply good_eq; [by apply rollback_none|by left|]. cbn. by rewrite app_nil_r.
Qed.

Lemma flush_content s m : m ∈ content (s_flush s).2 → m ∈ content s.
Proof. rewrite s_flush_spec. unfold content, all_flushed. cbn. rewrite !elem_of_app. tauto. Qed.

Lemma good_flush : good py ix iy flush e0.
Proof.
  destruct (out_pipe p) as [id|] eqn:Ho.
  - destruct (inv_out _ _ _ _ _ Hi id Ho) as (s & Hs & Hm).
    assert (Ha : acked p = false).
    { destruct (acked p) eqn:Ha; [|done]. apply (p_acked _ _ (inv_pipe_ok _ _ _ _ _ Hi)) in Ha. congruence. }
    destruct (inv_may_send _ _ _ _ _ Hi Ha) as [Hpy Hack].
    eapply good_eq; [apply (flush_eq ev p t [] pu ta id s); [done..|]|by right|].
    { intros H. unfold acked in Ha. by rewrite H in Ha. }
    assert (H1 : inv (Some p) py ix iy (put_spec id (s_flush s).2 t)).
    { eapply (inv_out_store p id s); [done..|by rewrite s_flush_spec|apply flush_content]. }
    cbn. destruct (s_flush s).1; [by rewrite app_nil_r|]. by apply inv_send.
  - eapply good_eq; [by apply flush_none|by left|]. cbn. by rewrite app_nil_r.
Qed.

Lemma good_set_nodelay : good py ix iy set_nodelay e0.
Proof.
  eapply good_eq; [done|by left|]. cbn. rewrite app_nil_r.
  destruct (p_boosts _ _ (inv_pipe_ok _ _ _ _ _ Hi)). by eapply inv_self.
Qed.

Lemma good_set_hwms_boost i o : small i → small o → good py ix iy (set_hwms_boost i o) e0.
Proof. intros. eapply good_eq; [done|by left|]. cbn. rewrite app_nil_r. by eapply inv_self. Qed.

Lemma good_send_hwms i o : small i → small o → acked p = false → good py ix iy (send_hwms_to_peer i o) e0.
Proof.
  intros Hsi Hso Ha. destruct (inv_may_send _ _ _ _ _ Hi Ha) as [Hpy Hack].
  eapply good_eq; [done|by right|]. cbn. by apply inv_send.
Qed.

Lemma add_int_small x y : small x → small y → add_int x (Z.max y 0) = Some (x + Z.max y 0).
Proof. unfold small, add_int. intros. destruct (_ && _) eqn:Hadd; [done|]. apply andb_false_iff in Hadd. lia. Qed.

Lemma compute_lwm_some x : - 2147483649 ≤ x → x ≤ 2147483646 → compute_lwm x = Some (Z.quot (x + 1) 2).
Proof.
  intros. unfold compute_lwm, add_int. destruct (_ && _) eqn:H1; [done|]. apply andb_false_iff in H1. lia.
Qed.

Lemma set_hwms_eq i o cs : small i → small o →
  ∃ h l, set_hwms i o (Env (Some p) t cs ev pu ta) = Some (tt, Env (Some (set_marks h l p)) t cs ev pu ta).
Proof.
  intros Hsi Hso. destruct (p_boosts _ _ (inv_pipe_ok _ _ _ _ _ Hi)) as [Hb1 Hb2].
  unfold set_hwms, mbind, M_bind, this, lift. cbn. rewrite !add_int_small by done. cbn.
  rewrite compute_lwm_some by (unfold small in *; destruct (_ || _); lia). cbn. eauto.
Qed.

Lemma good_set_hwms i o : small i → small o → good py ix iy (set_hwms i o) e0.
Proof.
  intros Hsi Hso. destruct (set_hwms_eq i o [] Hsi Hso) as (h & l & Heq).
  eapply good_eq; [exact Heq|by left|]. cbn. rewrite app_nil_r.
  destruct (p_boosts _ _ (inv_pipe_ok _ _ _ _ _ Hi)). by eapply inv_self.
Qed.

Lemma good_terminate d : good py ix iy (terminate d) e0.
Proof.
  destruct (p_boosts _ _ (inv_pipe_ok _ _ _ _ _ Hi)) as [Hb1 Hb2].
  destruct (terminating (state p)) eqn:Hterm.
  { eapply good_eq; [by apply terminate_done|by left|]. cbn. rewrite app_nil_r. by eapply inv_self. }
  assert (Ha : acked p = false) by (unfold acked; by destruct (state p)).
  destruct (inv_may_send _ _ _ _ _ Hi Ha) as [Hpy Hack].
  destruct (inv_out_some _ _ _ _ _ Hi Ha) as [id Ho]. destruct (inv_out _ _ _ _ _ Hi id Ho) as (s & Hs & Hm).
  assert (Hend : ∀ q iy, inv (Some q) py ix iy t → early q = false → out_pipe q = Some id →
    inv (Some q) py ix iy (add_closed (reverse (partial s)) (put_spec id (ended s) t))).
  { intros q iy' Hq He Hoq. eapply inv_store; [exact Hq|exact Hs|done|done|constructor|eauto 6]. }
  assert (Hwake : ∀ q iy t', inv (Some q) py ix iy t' → Ack ∉ hs iy → inv (Some q) py ix (iy ++ wake s) t').
  { intros q iy' t' Hq Hk. unfold wake. destruct (asleep s); [by apply inv_send|by rewrite app_nil_r]. }
  destruct (decide (state p = waiting_for_delimiter)) as [Hw|Hw]; [destruct d|].
  - eapply good_eq; [by apply (terminate_wait ev p t [] pu ta id s)|by right|]. cbn.
    apply Hwake; [|done]. apply Hend; [by eapply inv_self|by unfold early; cbn; rewrite Hw|done].
  - eapply good_eq; [by apply (terminate_nodelay ev p t [] pu ta id s)|by right|]. cbn.
    pose proof (inv_cases _ _ _ _ _ Hi) as Hc. rewrite Hw in Hc. destruct Hc as (Hhx & Hhy & Hst).
    assert (H1 : inv (Some p) py ix iy (add_closed (reverse (partial s)) (put_spec id (rolled s) t))).
    { eapply (inv_out_store p id s (rolled s)); [done..|constructor|].
      intros m. unfold content, rolled. cbn. rewrite app_nil_r, !elem_of_app. tauto. }
    eapply inv_self; [eapply (inv_ack p term_ack_sent); [exact H1| |congruence|by left|done|]|done..].
    + left. split; [done|]. unfold late. by rewrite Hw.
    + rewrite Hhx, Hhy, Hst. right. constructor.
  - assert (He : early p = true) by (unfold early; by destruct (state p)).
    eapply good_eq; [apply (terminate_request ev d p t [] pu ta id s); [|done..]|by right|].
    { unfold early in He. destruct (state p); try done; auto. }
    cbn. rewrite (cons_middle CPipeTerm iy), app_assoc. apply Hwake; [|].
    + apply Hend; [|done|done]. eapply inv_self; [by apply inv_request|done..].
    + rewrite hs_app, not_elem_of_app. split; [done|]. cbn. set_solver.
Qed.

Lemma good_hiccup : good py ix iy hiccup e0.
Proof.
  destruct (decide (state p = active)) as [Hst|Hst].
  - assert (Hpy : is_Some py) by (apply (inv_may_send _ _ _ _ _ Hi); unfold acked; by rewrite Hst).
    eapply good_eq; [unfold hiccup, mbind, M_bind, this; cbn; rewrite Hst; reflexivity|by right|]. cbn.
    by eapply inv_hiccup.
  - eapply good_eq; [unfold hiccup, mbind, M_bind, this; cbn; by rewrite decide_False|by left|]. cbn. by rewrite app_nil_r.
Qed.

(** The delimiter of a peer that asked for the termination. *)
Lemma inv_delimited t' : inv (Some p) py ix iy t' → readable (state p) = true →
  (∀ q, py = Some q → early q = false) →
  is_Some py ∧ inv (Some (delimited p)) py ix (iy ++ delimited_cmds p) t'.
Proof.
  intros Hi' Hr Hq. pose proof (inv_pipe_ok _ _ _ _ _ Hi') as [Ks Kb Ka Kl].
  assert (Ha : acked p = false) by (unfold acked; by destruct (state p)).
  destruct (inv_may_send _ _ _ _ _ Hi' Ha) as [Hpy Hack]. split; [done|].
  pose proof (inv_cases _ _ _ _ _ Hi') as Hc. destruct (inv_out_some _ _ _ _ _ Hi' Ha) as [id Ho].
  unfold delimited, delimited_cmds. destruct (state p) eqn:Hst; try done; cbn.
  - destruct Hc as (Hhy & [[Hhx Hp]|[Hhx Hp]]).
    { destruct Hpy as [q ->]. specialize (Hq q eq_refl). unfold early in Hq. cbn in Hp. injection Hp as Hp. by rewrite Hp in Hq. }
    pose proof (i_x _ _ _ _ _ Hi') as Hx. pose proof (i_y _ _ _ _ _ Hi') as Hy.
    destruct Hi' as [_ _ _ Hn Hdom Hnx Hm]. rewrite app_nil_r.
    split; [cbn; rewrite Hhx, Hhy, Hp; right; constructor; by right| | |exact Hn|exact Hdom|done|done].
    + destruct Hx as [Hor Hco Hk Hd Hch Hdl]. split; [done|done| |done| |].
      * intros ? [= <-]. split; [done|done| |done]. cbn. rewrite Ka. unfold acked. cbn. by rewrite Hst.
      * intros ? a [= <-]. cbn. by apply Hch.
      * intros ? i s [= <-] _ Hid Hs. apply (Hdl p i s eq_refl); [unfold early; by rewrite Hst|exact Hid|done].
    + rewrite <-(app_nil_r iy). eapply half_peer; [exact Hy|done|done|rewrite app_nil_r; apply Hy|constructor|done].
  - destruct Hc as (Hhx & Hhy & Hp).
    apply (inv_ack p term_ack_sent _ ix); [done|left; unfold late; by rewrite Hst|congruence|by left|done|].
    rewrite Hhx, Hhy, Hp. right. constructor.
Qed.

Lemma read_store s l t' : live t !! in_pipe p = Some s → live t' = <[in_pipe p := tail_spec l s]> (live t) →
  next t' = next t → (∀ m, m ∈ l → m ∈ flushed s) → inv (Some p) py ix iy t'.
Proof.
  intros Hs Hl Hn Hsub. eapply inv_store; [exact Hi|exact Hs|exact Hl|done| |].
  - by apply (i_more _ _ _ _ _ Hi (in_pipe p) s).
  - intros m. unfold content, tail_spec. cbn. rewrite !elem_of_app. intros [H|[H|H]]; auto.
Qed.

Lemma sleep_store s t' : live t !! in_pipe p = Some s → live t' = <[in_pipe p := asleep_spec s]> (live t) →
  next t' = next t → inv (Some p) py ix iy t'.
Proof.
  intros Hs Hl Hn. eapply inv_store; [exact Hi|exact Hs|exact Hl|done| |].
  - by apply (i_more _ _ _ _ _ Hi (in_pipe p) s).
  - intros m. unfold content, asleep_spec. cbn. rewrite !elem_of_app. intros [H|H]; auto.
Qed.

Lemma good_check_read : good py ix iy check_read e0.
Proof.
  destruct (p_boosts _ _ (inv_pipe_ok _ _ _ _ _ Hi)) as [Hb1 Hb2].
  destruct (in_active p && readable (state p)) eqn:Hr.
  2: { eapply good_eq; [by apply check_read_off|by left|]. cbn. by rewrite app_nil_r. }
  destruct (inv_in _ _ _ _ _ Hi) as [s Hs]. destruct (flushed s) as [|m l] eqn:Hf.
  - eapply good_eq; [by apply (check_read_empty ev p t [] pu ta s)|by left|]. cbn. rewrite app_nil_r.
    eapply inv_self; [by apply (sleep_store s)|done..].
  - pose proof (check_read_eq ev p t [] pu ta s m l Hr Hs Hf) as Heq. destruct (is_delimiter m) eqn:Hd.
    + assert (Hq : ∀ q, py = Some q → early q = false).
      { apply (inv_delim _ _ _ _ _ Hi s m); [done| |done]. unfold content. rewrite Hf. left. }
      apply andb_true_iff in Hr as [_ Hr].
      destruct (inv_delimited (put_spec (in_pipe p) (tail_spec l s) t)) as [Hpy Hi']; [|done..|].
      { apply (read_store s l); [done..|]. rewrite Hf. by right. }
      eapply good_eq; [exact Heq|by right|exact Hi'].
    + eapply good_eq; [exact Heq|by left|]. cbn. by rewrite app_nil_r.
Qed.

Lemma good_read : good py ix iy read e0.
Proof.
  destruct (p_boosts _ _ (inv_pipe_ok _ _ _ _ _ Hi)) as [Hb1 Hb2].
  destruct (in_active p && readable (state p)) eqn:Hr.
  2: { eapply good_eq; [by apply read_off|by left|]. cbn. by rewrite app_nil_r. }
  destruct (inv_in _ _ _ _ _ Hi) as [s Hs].
  pose proof (read_eq ev p t [] pu ta s Hr Hs) as Heq. cbn zeta in Heq.
  pose proof (credentials_after (flushed s)) as Hca. destruct (after (flushed s)) as [|m l] eqn:Haf.
  - eapply good_eq; [exact Heq|by left|]. cbn. rewrite app_nil_r. eapply inv_self; [by apply (sleep_store s)|done..].
  - assert (Hsub : ∀ x, x ∈ m :: l → x ∈ flushed s) by (intros x Hx; rewrite Hca, elem_of_app; by right).
    set (t' := add_closed (credentials (flushed s)) (put_spec (in_pipe p) (tail_spec l s) t)) in *.
    assert (Hi' : inv (Some p) py ix iy t').
    { apply (read_store s l); [done..|]. intros x Hx. apply Hsub. by right. }
    apply andb_true_iff in Hr as [_ Hr].
    destruct (is_delimiter m) eqn:Hd.
    + assert (Hq : ∀ q, py = Some q → early q = false).
      { apply (inv_delim _ _ _ _ _ Hi s m); [done| |done]. unfold content. apply elem_of_app. left. apply Hsub. left. }
      destruct (inv_delimited t') as [Hpy Hi'']; [done..|].
      eapply good_eq; [exact Heq|by right|exact Hi''].
    + destruct (inv_may_send _ _ _ _ _ Hi) as [Hpy Hack]; [unfold acked; by destruct (state p)|].
      eapply good_eq; [exact Heq|by right|]. cbn.
      assert (Hi2 : inv (Some (count_read m p)) py ix iy t').
      { unfold count_read. destruct (counted m); [by eapply inv_self|done]. }
      unfold activation. destruct (_ && _); [by apply inv_send|by rewrite app_nil_r].
Qed.
End good.

(** *** The handlers *)

Section handlers.
Context (p : pipe) (py : option pipe) (ix iy : list command) (t : store) (ev : list event) (pu ta : list msg).
Let e0 : env := Env (Some p) t [] ev pu ta.

Lemma good_activate_read : inv (Some p) py (CActivateRead :: ix) iy t → good py ix iy process_activate_read e0.
Proof.
  intros Hi%inv_pop; [|done]. destruct (inv_pipe_ok _ _ _ _ _ Hi) as [Ks [Hb1 Hb2] _ _].
  unfold process_activate_read. destruct (negb (in_active p) && readable (state p)) eqn:Ha.
  - eapply good_eq; [unfold mbind, M_bind, this; cbn; rewrite Ha; cbn; unfold notify; cbn; by rewrite Ks|by left|].
    cbn. rewrite app_nil_r. by eapply inv_self.
  - eapply good_eq; [unfold mbind, M_bind, this; cbn; by rewrite Ha|by left|]. cbn. by rewrite app_nil_r.
Qed.

Lemma good_activate_write n : inv (Some p) py (CActivateWrite n :: ix) iy t →
  good py ix iy (process_activate_write n) e0.
Proof.
  intros Hi%inv_pop; [|done]. destruct (inv_pipe_ok _ _ _ _ _ Hi) as [Ks [Hb1 Hb2] _ _].
  unfold process_activate_write. destruct (negb (out_active p) && bool_decide (state p = active)) eqn:Ha.
  - eapply good_eq; [unfold mbind, M_bind, this; cbn; rewrite Ha; cbn; unfold notify; cbn; by rewrite Ks|by left|].
    cbn. rewrite app_nil_r. by eapply inv_self.
  - eapply good_eq; [unfold mbind, M_bind, this; cbn; by rewrite Ha|by left|]. cbn. rewrite app_nil_r. by eapply inv_self.
Qed.

Lemma good_process_hiccup id : inv (Some p) py (CHiccup id :: ix) iy t → good py ix iy (process_hiccup id) e0.
Proof.
  intros Hi. destruct (inv_pipe_ok _ _ _ _ _ Hi) as [Ks Kb Ka Kl].
  destruct (out_pipe p) as [old|] eqn:Ho.
  2: { assert (Hl : late p = true) by (unfold late, acked in *; destruct Ka as [Ka _]; by destruct (state p), Ka).
       by specialize (Kl Hl). }
  destruct (inv_out _ _ _ _ _ Hi old Ho) as (s & Hs & Hm).
  eapply good_eq; [by apply (process_hiccup_eq ev id p t [] pu ta old s)|by left|]. cbn. rewrite app_nil_r.
  assert (Hu : ∀ l p, in_pipe (foldl uncount p l) = in_pipe p ∧ in_hwm_boost (foldl uncount p l) = in_hwm_boost p ∧
    out_hwm_boost (foldl uncount p l) = out_hwm_boost p).
  { induction l as [|m l IH]; intros q; [done|]. cbn. destruct (IH (uncount q m)) as (-> & -> & ->).
    unfold uncount. by destruct (is_more m). }
  destruct (Hu (all_flushed s) p) as (H1 & H2 & H3). destruct (uncount_keeps (all_flushed s) p) as (H4 & _ & H5).
  by eapply (inv_process_hiccup p _ _ _ _ t _ id old).
Qed.

Lemma good_pipe_term : inv (Some p) py (CPipeTerm :: ix) iy t → good py ix iy process_pipe_term e0.
Proof.
  intros Hi. pose proof (phases_cases _ _ _ _ (i_phase _ _ _ _ _ Hi)) as Hp.
  change (hs (CPipeTerm :: ix)) with (Term :: hs ix) in Hp.
  destruct (inv_pipe_ok _ _ _ _ _ Hi) as [Ks [Hb1 Hb2] Ka Kl].
  assert (Hout : acked p = false → out_pipe p ≠ None) by (intros Ha Hn; apply Ka in Hn; congruence).
  assert (Hack : ∀ s', s' = term_ack_sent ∨ s' = term_req_sent2 → acked p = false → Ack ∉ hs iy → is_Some py →
    phases (Some s') (hs ix) (state <$> py) (hs iy ++ [Ack]) →
    good py ix iy (send_term_ack s') e0).
  { intros s' Hs' Ha Hn Hpy Hph. eapply good_eq; [done|by right|]. cbn. apply (inv_ack p s' _ _ ix _ _ Hi); auto. }
  assert (Hsome : ∀ s, state <$> py = Some s → is_Some py) by (intros s; by destruct py).
  unfold process_pipe_term. unfold good. cbn. unfold mbind, M_bind, this. cbn.
  destruct (state p) eqn:Hst.
  - destruct Hp as (Hhy & [[? _]|[[= Hhx] Hpy]]); [done|]. destruct (delay p).
    + eexists _, _. split; [reflexivity|]. split; [by left|]. cbn. rewrite app_nil_r.
      pose proof (i_x _ _ _ _ _ Hi) as Hx. pose proof (i_y _ _ _ _ _ Hi) as Hy.
      rewrite <-(app_nil_r iy).
      destruct Hx as [Hor Hc _ _ _ _]. cbn in Hor. destruct Hor as [Hh Hor]. inversion Hc; subst.
      eapply inv_handshake; [exact Hi|done|done| |by unfold ids|done|done|done|done|done|
        rewrite app_nil_r; apply Hy|constructor|by eauto|].
      * split; [done|done| |done]. cbn. rewrite Ka. unfold acked. cbn. by rewrite Hst.
      * rewrite app_nil_r, Hhx, Hhy, Hpy. right. constructor.
    + apply Hack; [by left|unfold acked; by rewrite Hst|rewrite Hhy; apply not_elem_of_nil|by eauto|].
      rewrite Hhx, Hhy, Hpy. right. constructor.
  - destruct Hp as (Hhy & [= Hhx] & Hpy).
    apply Hack; [by left|unfold acked; by rewrite Hst|rewrite Hhy; apply not_elem_of_nil|by eauto|].
    rewrite Hhx, Hhy, Hpy. right. constructor.
  - by destruct Hp as [? _].
  - by destruct Hp as [[? _]|[? _]].
  - destruct Hp as [[? _]|[[? _]|[[? _]|[([= Hhx] & Hhy & Hpy)|([= Hhx] & Hhy & Hpy)]]]]; try done.
    + apply Hack; [by right|unfold acked; by rewrite Hst|rewrite Hhy; set_solver|by eauto|].
      rewrite Hhx, Hhy, Hpy. left. constructor.
    + apply Hack; [by right|unfold acked; by rewrite Hst|rewrite Hhy; set_solver|by eauto|].
      rewrite Hhx, Hhy, Hpy. left. constructor.
  - by destruct Hp as [[? _]|[[? _]|[? _]]].
Qed.

Lemma good_pipe_term_ack : inv (Some p) py (CPipeTermAck :: ix) iy t → good py ix iy process_pipe_term_ack e0.
Proof.
  intros Hi. destruct (inv_in _ _ _ _ _ Hi) as [s Hs]. destruct (inv_pipe_ok _ _ _ _ _ Hi) as [Ks _ _ _].
  destruct (inv_release p py ix iy t (Store (delete (in_pipe p) (live t)) (next t) (closed t ++ flushed s)
    (leaked t ++ complete s ++ partial s)) _ Hi eq_refl eq_refl eq_refl) as (Hi' & Hterm & Hpy).
  eapply good_eq; [by apply (process_pipe_term_ack_eq p t [] ev pu ta s)| |exact Hi'].
  cbn. destruct py; [by right|left; by apply Hpy].
Qed.

Lemma good_pipe_hwm i o : inv (Some p) py (CPipeHwm i o :: ix) iy t → good py ix iy (process_pipe_hwm i o) e0.
Proof.
  intros Hi. pose proof (h_cmds _ _ _ _ (i_x _ _ _ _ _ Hi)) as Hc. apply Forall_cons in Hc as [Hc _]. cbn in Hc. destruct Hc as [Hsi Hso].
  apply inv_pop in Hi; [|done]. by apply good_set_hwms.
Qed.

Lemma good_process_command c : inv (Some p) py (c :: ix) iy t → good py ix iy (process_command c) e0.
Proof.
  destruct c; [apply good_activate_read|apply good_activate_write|apply good_process_hiccup|apply good_pipe_term|
    apply good_pipe_term_ack|apply good_pipe_hwm].
Qed.
End handlers.

(** ** The pair *)

Definition winv (w : world) : Prop := inv (ep (left w)) (ep (right w)) (inbox (left w)) (inbox (right w)) (st w).

Lemma winv_get s w : winv w ↔ inv (ep (get s w)) (ep (get (negb s) w)) (inbox (get s w)) (inbox (get (negb s) w)) (st w).
Proof. destruct s; cbn; [done|]. split; apply inv_sym. Qed.

Lemma winv_build s t x y : winv (build s t x y) ↔ inv (ep x) (ep y) (inbox x) (inbox y) t.
Proof. destruct s; cbn; [done|]. split; apply inv_sym. Qed.

Lemma call_good {A} s inb (m : M A) w :
  let x := get s w in
  good (ep (get (negb s) w)) inb (inbox (get (negb s) w)) m (Env (ep x) (st w) [] (s_events x) (s_put x) (s_taken x)) →
  ∃ r w', call s inb m w = Some (r, w') ∧ winv w'.
Proof.
  intros x (r & e & He & Hc & Hi). unfold call. fold x. rewrite He. cbn.
  assert (Hb : bool_decide (commands e = []) || bool_decide (is_Some (ep (get (negb s) w))) = true).
  { apply orb_true_iff. destruct Hc; [left|right]; by apply bool_decide_eq_true. }
  rewrite Hb. cbn. eexists _, _. split; [reflexivity|]. by apply winv_build.
Qed.

Lemma call_step {A} s inb (m : M A) w :
  let x := get s w in
  good (ep (get (negb s) w)) inb (inbox (get (negb s) w)) m (Env (ep x) (st w) [] (s_events x) (s_put x) (s_taken x)) →
  ∃ w', snd <$> call s inb m w = Some w' ∧ winv w'.
Proof. intros x (r & w' & -> & H)%call_good. by exists w'. Qed.

Lemma step_winv s a w : winv w → allowed s a w → ∃ w', step s a w = Some w' ∧ winv w'.
Proof.
  intros Hw Ha. pose proof (proj1 (winv_get s w) Hw) as Hi. unfold allowed in Ha.
  destruct (ep (get s w)) as [p|] eqn:Hp.
  2: { assert (Hin : inbox (get s w) = []) by (by apply (h_dead _ _ _ _ (i_x _ _ _ _ _ Hi))).
       destruct a; cbn in Ha |- *; rewrite ?Hin; try done;
         repeat match goal with
         | H : _ ∧ _ |- _ => destruct H
         | H : ∃ _, _ |- _ => destruct H
         | H : is_Some None |- _ => by destruct H
         end; try done. by exists w. }
  destruct a; cbn [step] in *; cbn [may] in Ha; try (apply call_step; rewrite Hp).
  - by apply good_check_read.
  - destruct (call_good s (inbox (get s w)) read w) as (r & w' & Hc & Hw'); [rewrite Hp; by apply good_read|].
    rewrite Hc. cbn. eexists. split; [reflexivity|]. apply winv_build. cbn. by apply (winv_get s w').
  - by apply good_check_write.
  - destruct Ha as [_ Hd]. by apply good_write.
  - by apply good_rollback.
  - by apply good_flush.
  - by apply good_terminate.
  - by apply good_hiccup.
  - by apply good_set_nodelay.
  - apply good_set_hwms; by destruct Ha as (_ & ? & ?).
  - apply good_set_hwms_boost; by destruct Ha as (_ & ? & ?).
  - destruct Ha as ((q & [= <-] & Hq) & ? & ?). by apply good_send_hwms.
  - destruct (inbox (get s w)) as [|c l] eqn:Hin; [by exists w|]. apply call_step. rewrite Hp. by apply good_process_command.
Qed.

Lemma start_winv hwm0 hwm1 w0 : start hwm0 hwm1 = Some w0 → winv w0.
Proof.
  unfold start, pipepair, pipe_new. destruct (compute_lwm hwm1) as [l1|]; [|done]. cbn.
  destruct (compute_lwm hwm0) as [l0|]; [|done]. cbn. intros [= <-].
  assert (Hs : ∀ id s, ({[0%nat := PS [] [] [] false; 1%nat := PS [] [] [] false]} : gmap nat (pspec msg)) !! id = Some s →
    s = PS [] [] [] false ∧ (id = 0 ∨ id = 1)%nat).
  { intros id s. rewrite lookup_insert_Some, lookup_singleton_Some. naive_solver. }
  split; cbn.
  - left. constructor.
  - split; [done|constructor| |done| |].
    + intros ? [= <-]. by repeat split.
    + intros ? a [= <-] [= <-]. eexists. done.
    + intros ? id s [= <-] _ _ [-> _]%Hs. constructor.
  - split; [done|constructor| |done| |].
    + intros ? [= <-]. by repeat split.
    + intros ? a [= <-] [= <-]. eexists. done.
    + intros ? id s [= <-] _ _ [-> _]%Hs. constructor.
  - apply NoDup_cons. split; [|apply NoDup_singleton]. intros H%list_elem_of_singleton. done.
  - intros id. cbn. rewrite lookup_insert_is_Some', !elem_of_cons, elem_of_nil. split.
    + intros [<-|[s [<- _]%lookup_singleton_Some]]; auto.
    + intros [->|[->|[]]]; [right; by rewrite lookup_singleton_eq|by left].
  - intros id [s [_ Hid]%Hs]. lia.
  - intros id s [-> _]%Hs. constructor.
Qed.

Lemma reach_winv ok hwm0 hwm1 w0 w : start hwm0 hwm1 = Some w0 → reach ok w0 w → winv w.
Proof.
  intros Hs. induction 1 as [|w s a w' _ IH Ha _ Hstep]; [by eapply start_winv|].
  destruct (step_winv s a w IH Ha) as (w2 & Hw2 & Hi). congruence.
Qed.

(** C12. No call on a pipe, made while its endpoint exists, and no delivery of a
    command ever aborts, but for what [allowed] leaves out: [send_hwms_to_peer]
    once the endpoint has acknowledged the termination (its peer may be gone, see
    [pipe_defects]), watermarks so large that their sums overflow an int, and
    writing a delimiter by hand.  No assertion of pipe.cpp fails, whatever the
    order of the other calls, hiccups, terminations and deliveries; no lock-free
    pipe and no endpoint is used after its deallocation; an endpoint that was
    deallocated has no command on its way to it; the lock-free pipes that are
    allocated are the ones the endpoints still use or hand over; and when both
    endpoints are deallocated, all the lock-free pipes are. *)
Theorem pipe_safe hwm0 hwm1 w0 w s a :
  start hwm0 hwm1 = Some w0 → reach (λ _, True) w0 w → allowed s a w →
  is_Some (step s a w) ∧
  (ep (get s w) = None → inbox (get s w) = []) ∧
  (∀ id, is_Some (live (st w) !! id) ↔
     id ∈ ids (ep (left w)) (ep (right w)) (inbox (left w)) ++ ids (ep (right w)) (ep (left w)) (inbox (right w))) ∧
  (ep (left w) = None → ep (right w) = None → live (st w) = ∅).
Proof.
  intros Hs Hr Ha. pose proof (reach_winv _ _ _ _ _ Hs Hr) as Hw.
  destruct (step_winv s a w Hw Ha) as (w' & Hstep & _).
  split_and!; [by eexists| |apply (i_dom _ _ _ _ _ Hw)|].
  - apply (h_dead _ _ _ _ (i_x _ _ _ _ _ (proj1 (winv_get s w) Hw))).
  - intros Hl Hrt. apply map_empty. intros id. apply eq_None_not_Some.
    rewrite (i_dom _ _ _ _ _ Hw id). unfold ids. rewrite Hl, Hrt. cbn. apply not_elem_of_nil.
Qed.

(** *** A small pair: its messages have one byte. *)

Definition ex_msg (b : Z) : msg := Msg type_vsm 0 None (BVsm [b] 1) [] 0.
Definition ex_start : world :=
  let side i o := Side (Some (MkPipe i (Some o) true true 2 1 (-1) (-1) 0 0 0 true active true)) [] [] [] [] [] in
  World (Store {[0%nat := PS [] [] [] false; 1%nat := PS [] [] [] false]} 2 [] []) (side 0%nat 1%nat) (side 1%nat 0%nat).

(** The left endpoint writes a message, replaces its inbound pipe and asks for the
    termination; the right one has taken over the new pipe. *)
Definition ex_acts : list (bool * action) :=
  [(true, AWrite (ex_msg 7)); (true, AFlush); (true, AHiccup); (true, ATerminate false); (false, ADeliver)].

Lemma pipe_safe_witness :
  ∃ w0 w, start 2 2 = Some w0 ∧ play ex_acts w0 = Some w ∧ allowed false ADeliver w ∧
    is_Some (step false ADeliver w).
Proof.
  exists ex_start. destruct (play ex_acts ex_start) as [w|] eqn:Hp; [|by vm_compute in Hp].
  exists w. assert (Hs : start 2 2 = Some ex_start) by (vm_compute; reflexivity).
  split; [exact Hs|]. split; [done|]. split; [done|].
  apply (pipe_safe 2 2 ex_start w false ADeliver); [exact Hs| |done].
  apply (play_reach _ ex_acts ex_start ex_start); [constructor|exact Hp|repeat constructor].
Defined.
End PipePair.
