(* ===== verification/PipeFlow.v ===== *)
(** * What a pair of pipes delivers

    The pairs of [PipePair] whose owners do not call [hiccup]: the messages of
    one direction arrive in order, none is lost before the delimiter, a reader
    with something to read is awake or being woken, and the termination
    handshake comes to its end ([pipe_fifo], [pipe_terminates]). *)

From S2P Require Import Prelude Msg YPipe Pipe PipePair.

Module PipeFlow.
Import Pipe PipePair.

(** ** One direction *)

Definition nodelim : list msg → Prop := Forall (λ m, is_delimiter m = false).

(** A message that is a delimiter is the one [terminate] writes. *)
Definition clean (m : msg) : Prop := is_delimiter m = false ∨ m = init_delimiter.

(** Of the direction from [x] to [y]: the commands [iy] to [y], the lock-free pipe
    [s], what [x] put into it and [y] took out of it. *)
Record flow (px py : option pipe) (iy : list command) (s : option (pspec msg)) (put taken : list msg) : Prop := {
  f_fifo sp : s = Some sp → put = taken ++ content sp;
  f_dead : s = None → taken `prefix_of` put;
  f_wake q sp : py = Some q → readable (state q) = true → in_active q = false → s = Some sp →
    flushed sp = [] ∧ asleep sp = true ∨ CActivateRead ∈ iy;
  f_early p : px = Some p → early p = true → nodelim put;
  f_end p : px = Some p → state p = term_req_sent1 → (∃ l, put = l ++ [init_delimiter] ∧ nodelim l) ∧
    ∀ sp, s = Some sp → complete sp = [] ∧ partial sp = [];
  f_reading q : py = Some q → readable (state q) = true → nodelim taken;
  f_received q sp : py = Some q → state q = delimiter_received → s = Some sp → content sp = [];
  f_put : Forall clean put }.

Lemma flow_writer p p' py iy s put taken : flow (Some p) py iy s put taken →
  (early p' = true → early p = true) → (state p' = term_req_sent1 → state p = term_req_sent1) →
  flow (Some p') py iy s put taken.
Proof.
  intros [H1 H2 H3 H4 H5 H6 H7 H8] He Hr. split; [done|done|done| | |done|done|done].
  - intros ? [= <-] H. by apply (H4 p); [|apply He].
  - intros ? [= <-] H. by apply (H5 p); [|apply Hr].
Qed.

Lemma flow_writer_dead px py iy s put taken : flow px py iy s put taken → flow None py iy s put taken.
Proof. intros []. by split. Qed.

Lemma flow_send px py iy s put taken cs : flow px py iy s put taken → flow px py (iy ++ cs) s put taken.
Proof.
  intros [H1 H2 H3 H4 H5 H6 H7 H8]. split; [done|done| |done|done|done|done|done].
  intros q sp Hq Hr Ha Hs. destruct (H3 q sp Hq Hr Ha Hs) as [?|Hc]; [by left|right]. apply elem_of_app. by left.
Qed.

Lemma flow_pop px py iy s put taken c : flow px py (c :: iy) s put taken → c ≠ CActivateRead →
  flow px py iy s put taken.
Proof.
  intros [H1 H2 H3 H4 H5 H6 H7 H8] Hc. split; [done|done| |done|done|done|done|done].
  intros q sp Hq Hr Ha Hs. destruct (H3 q sp Hq Hr Ha Hs) as [?|Hin]; [by left|right].
  by apply elem_of_cons in Hin as [<-|?].
Qed.

(** The reader's endpoint changes: it reads no more than before and sleeps no
    longer. *)
Lemma flow_reader px q q' iy s put taken : flow px (Some q) iy s put taken →
  (state q' = state q ∨ readable (state q') = false ∧ state q' ≠ delimiter_received ∨
   readable (state q) = true ∧ readable (state q') = true) →
  (in_active q' = false → in_active q = false) → flow px (Some q') iy s put taken.
Proof.
  intros [H1 H2 H3 H4 H5 H6 H7 H8] Hst Ha. split; [done|done| |done|done| | |done].
  - intros ? sp [= <-] Hr' Ha' Hs. apply (H3 q); [done| |by apply Ha|done].
    destruct Hst as [<-|[[Hr _]|[Hr _]]]; [done|congruence|done].
  - intros ? [= <-] Hr'. apply (H6 q); [done|]. destruct Hst as [<-|[[Hr _]|[Hr _]]]; [done|congruence|done].
  - intros ? sp [= <-] Hd Hs. destruct Hst as [Hst|[[_ Hn]|[_ Hr]]]; [|done|by rewrite Hd in Hr].
    apply (H7 q); [done|congruence|done].
Qed.

(** The reader reaches the end of its pipe: it has taken [l], all there was. *)
Lemma flow_sleep px q q' iy sp sp' put taken l : flow px (Some q) iy (Some sp) put taken →
  state q' = state q → readable (state q) = true → flushed sp = l → nodelim l → sp' = asleep_spec sp →
  flow px (Some q') iy (Some sp') put (taken ++ l).
Proof.
  intros [H1 H2 H3 H4 H5 H6 H7 H8] Hst Hr Hf Hl ->. split; [|done| |done| | | |done].
  - intros ? [= <-]. rewrite (H1 sp eq_refl) at 1. unfold content, asleep_spec. cbn. by rewrite Hf, !app_assoc.
  - intros ? ? [= <-] _ _ [= <-]. by left.
  - intros p Hp Hp'. destruct (H5 p Hp Hp') as [He Hs]. split; [done|]. intros ? [= <-]. by apply (Hs sp).
  - intros ? [= <-] _. apply Forall_app. split; [by apply (H6 q)|done].
  - intros ? ? [= <-] Hd. rewrite Hst in Hd. by rewrite Hd in Hr.
Qed.

(** The reader takes [l] from the front. *)
Lemma flow_take px q q' iy sp put taken l r : flow px (Some q) iy (Some sp) put taken →
  state q' = state q → in_active q' = true → flushed sp = l ++ r → nodelim l → readable (state q) = true →
  flow px (Some q') iy (Some (tail_spec r sp)) put (taken ++ l).
Proof.
  intros [H1 H2 H3 H4 H5 H6 H7 H8] Hst Hia Hf Hl Hr. split; [|done| |done| | | |done].
  - intros ? [= <-]. rewrite (H1 sp eq_refl) at 1. unfold content, tail_spec. cbn. by rewrite Hf, <-!app_assoc.
  - intros ? ? [= <-] _. congruence.
  - intros p Hp Hp'. destruct (H5 p Hp Hp') as [He Hs]. split; [done|]. intros ? [= <-]. by apply (Hs sp).
  - intros ? [= <-] _. apply Forall_app. split; [by apply (H6 q)|done].
  - intros ? ? [= <-] Hd. rewrite Hst in Hd. by rewrite Hd in Hr.
Qed.

(** The delimiter is the last message of a writer that asked for the
    termination. *)
Lemma delim_last (l l' r : list msg) m : nodelim l → nodelim l' → is_delimiter m = true →
  l ++ m :: r = l' ++ [init_delimiter] → r = [] ∧ m = init_delimiter ∧ l = l'.
Proof.
  revert l'. induction l as [|x l IH]; intros [|y l'] Hl Hl' Hm; cbn.
  - by intros [= -> ->].
  - intros [= -> _]. inversion Hl'; subst. congruence.
  - intros [= -> H]. by destruct l.
  - intros [= -> H]. inversion Hl; inversion Hl'; subst. by destruct (IH l' ltac:(done) ltac:(done) Hm H) as (-> & -> & ->).
Qed.

(** The reader takes the delimiter. *)
Lemma flow_delim p q q' iy sp put taken l m r : flow (Some p) (Some q) iy (Some sp) put taken →
  state p = term_req_sent1 → readable (state q) = true → readable (state q') = false →
  flushed sp = l ++ m :: r → nodelim l → is_delimiter m = true →
  r = [] ∧ flow (Some p) (Some q') iy (Some (tail_spec r sp)) put (taken ++ l ++ [m]).
Proof.
  intros [H1 H2 H3 H4 H5 H6 H7 H8] Hp Hr Hr' Hf Hl Hm.
  destruct (H5 p eq_refl Hp) as [(l0 & Hput & Hl0) Hcp]. destruct (Hcp sp eq_refl) as [Hc Hpa].
  assert (Hcont : content sp = l ++ m :: r) by (unfold content; by rewrite Hf, Hc, Hpa, !app_nil_r).
  pose proof (H1 sp eq_refl) as Hfifo. rewrite Hcont, Hput, app_assoc in Hfifo.
  destruct (delim_last (taken ++ l) l0 r m) as (-> & -> & Hl0'); [|done..|].
  { apply Forall_app. split; [by apply (H6 q)|done]. }
  split; [done|]. split; [|done| |done| | | |done].
  - intros ? [= <-]. unfold content, tail_spec. cbn. by rewrite Hc, Hpa, app_nil_r, Hput, <-Hl0', app_assoc.
  - intros ? ? [= <-] ?. congruence.
  - intros ? [= <-] _. split; [by exists l0|]. by intros ? [= <-].
  - intros ? [= <-] ?. congruence.
  - intros ? ? [= <-] Hd [= <-]. unfold content, tail_spec. cbn. by rewrite Hc, Hpa.
Qed.

(** ** The operations *)

Section flows.
Context (o i : nat) (py : option pipe) (ix iy : list command) (puy tay : list msg).

(** The messages [read] gives its caller: [g] is those so far. *)
Definition is_data (m : msg) : Prop := is_credential m = false ∧ is_delimiter m = false.
#[export] Instance is_data_dec m : Decision (is_data m).
Proof. unfold is_data. apply _. Defined.

(** Both directions, seen from the endpoint that calls an operation: it writes to
    the lock-free pipe [o] and reads from [i]. *)
Record flows (g : list msg) (e : env) : Prop := {
  fl_out : flow (self e) py (iy ++ commands e) (live (pipes e) !! o) (put e) tay;
  fl_in : flow py (self e) ix (live (pipes e) !! i) puy (taken e);
  fl_self p : self e = Some p → in_pipe p = i ∧ ∀ a, out_pipe p = Some a → a = o;
  fl_hic : hic (commands e) = [];
  fl_got : filter is_data (taken e) = g }.

Context (Hoi : o ≠ i) (p : pipe) (t : store) (ev : list event) (pu ta g : list msg).
Hypothesis Hi : inv (Some p) py ix iy t.
Let e0 : env := Env (Some p) t [] ev pu ta.
Hypothesis Hf : flows g e0.

Definition flow_ok {A} (m : M A) : Prop := ∀ r e', m e0 = Some (r, e') → flows g e'.

Lemma flow_ok_eq {A} (m : M A) r e' : m e0 = Some (r, e') → flows g e' → flow_ok m.
Proof. intros H1 H2 r2 e2 H3. rewrite H1 in H3. by injection H3 as <- <-. Qed.

(** The endpoint's members change without effect on what flows. *)
Lemma Hin : in_pipe p = i.
Proof. by apply (fl_self _ _ Hf p). Qed.
Lemma Hout a : out_pipe p = Some a → a = o.
Proof. by apply (fl_self _ _ Hf p). Qed.

Lemma flows_self p' cs ev' : state p' = state p → in_active p' = in_active p →
  in_pipe p' = in_pipe p → out_pipe p' = out_pipe p → hic cs = [] → flows g (Env (Some p') t cs ev' pu ta).
Proof.
  intros Hst Ha Hi1 Ho1 Hcs. destruct Hf as [Ho Hn Hs _ Hg]. cbn in Ho, Hn. rewrite app_nil_r in Ho.
  split; cbn; [| | |done|done].
  - apply flow_send. eapply flow_writer; [exact Ho| |]; unfold early; by rewrite Hst.
  - eapply flow_reader; [exact Hn|left; done|by rewrite Ha].
  - intros ? [= <-]. rewrite Hi1, Ho1. by apply Hs.
Qed.

Lemma flow_check_write : flow_ok check_write.
Proof.
  eapply flow_ok_eq; [apply check_write_eq|]. unfold blocked. destruct (_ && _); by apply flows_self.
Qed.

Lemma flow_set_nodelay : flow_ok set_nodelay.
Proof. eapply flow_ok_eq; [done|]. by apply flows_self. Qed.
Lemma flow_set_boosts a b : flow_ok (set_hwms_boost a b).
Proof. eapply flow_ok_eq; [done|]. by apply flows_self. Qed.
Lemma flow_send_hwms a b : flow_ok (send_hwms_to_peer a b).
Proof. eapply flow_ok_eq; [done|]. by apply flows_self. Qed.
Lemma flow_set_hwms a b : small a → small b → flow_ok (set_hwms a b).
Proof.
  intros Ha Hb. destruct (set_hwms_eq p py ix iy t ev pu ta Hi a b [] Ha Hb) as (h & l & Heq).
  eapply flow_ok_eq; [exact Heq|]. by apply flows_self.
Qed.

(** The outbound pipe changes. *)
Lemma flows_out p' cs ev' t' s' pu' :
  state p' = state p ∨ readable (state p') = false ∧ state p' ≠ delimiter_received →
  in_active p' = in_active p → in_pipe p' = in_pipe p → (∀ a, out_pipe p' = Some a → out_pipe p = Some a) →
  hic cs = [] → live t' = <[o := s']> (live t) →
  flow (Some p') py (iy ++ cs) (Some s') pu' tay → flows g (Env (Some p') t' cs ev' pu' ta).
Proof.
  intros Hst Ha Hi1 Ho1 Hcs Hl Hw. destruct Hf as [Ho Hn Hs _ Hg]. cbn in Ho, Hn. split; cbn; [| | |done|done].
  - by rewrite Hl, lookup_insert_eq.
  - rewrite Hl, lookup_insert_ne by done. eapply flow_reader; [exact Hn|tauto|by rewrite Ha].
  - intros ? [= <-]. rewrite Hi1. split; [by apply Hs|]. intros a Ha'. by apply Hout, Ho1.
Qed.

(** Messages are added to the outbound pipe, or taken back. *)
Lemma flow_puts p' s s' pu' : live t !! o = Some s → state p' = state p →
  (∀ tk, pu = tk ++ content s → pu' = tk ++ content s') → flushed s' = flushed s → asleep s' = asleep s →
  (early p = true → nodelim pu → nodelim pu') →
  (Forall clean pu → Forall clean pu') →
  (state p = term_req_sent1 → complete s = [] → partial s = [] → complete s' = [] ∧ partial s' = [] ∧ pu' = pu) →
  (∀ q, py = Some q → state q = delimiter_received → content s = [] → content s' = []) →
  flow (Some p') py iy (Some s') pu' tay.
Proof.
  intros Hs Hst Hpu Hfl Has He Hpt Hr Hd. destruct Hf as [Ho _]. cbn in Ho. rewrite app_nil_r, Hs in Ho.
  destruct Ho as [H1 H2 H3 H4 H5 H6 H7 H8]. split; [|done| | | |done| |by apply Hpt].
  - intros ? [= <-]. apply Hpu. by apply H1.
  - intros q ? Hq Hr' Ha' [= <-]. rewrite Hfl, Has. by apply (H3 q s).
  - intros ? [= <-] He'. assert (He'' : early p = true) by (unfold early in *; by rewrite <-Hst).
    apply He; [done|]. by apply (H4 p).
  - intros ? [= <-] Hp'. rewrite Hst in Hp'. destruct (H5 p eq_refl Hp') as [Hput Hcp].
    destruct (Hcp s eq_refl) as [Hc Hp]. destruct (Hr Hp' Hc Hp) as (? & ? & ->). split; [done|]. by intros ? [= <-].
  - intros q ? Hq Hd' [= <-]. apply (Hd q Hq Hd'). by apply (H7 q).
Qed.

Lemma peer_received q : py = Some q → state q = delimiter_received → state p ≠ active.
Proof.
  intros Hq Hd Hst. pose proof (inv_cases _ _ _ _ _ Hi) as Hc. rewrite Hst, Hq in Hc. cbn in Hc. rewrite Hd in Hc.
  by destruct Hc as (_ & [[_ ?]|[_ ?]]).
Qed.

Lemma flow_write m : is_delimiter m = false → flow_ok (write m).
Proof.
  intros Hd. destruct (may_write p) eqn:Hw.
  - assert (Hst : state p = active).
    { unfold may_write in Hw. by apply andb_true_iff in Hw as [[_ H1%bool_decide_eq_true]%andb_true_iff _]. }
    destruct (inv_out_some _ _ _ _ _ Hi) as [id Ho]; [by unfold acked; rewrite Hst|].
    destruct (inv_out _ _ _ _ _ Hi id Ho) as (s & Hs & Hm). assert (id = o) as -> by by apply Hout.
    eapply flow_ok_eq; [by apply (write_eq ev m p t [] pu ta o s)|].
    assert (Hwst : state (wrote m p) = state p ∧ in_active (wrote m p) = in_active p).
    { unfold wrote. by destruct (counted m). }
    destruct Hwst as [Hw1 Hw2]. eapply flows_out; [by left|done|unfold wrote; by destruct (counted m)|unfold wrote; by destruct (counted m)|done|done|].
    rewrite app_nil_r. apply (flow_puts _ s); [done|done| | | | | | |]; unfold s_write; destruct (is_more m); try done.
    + intros tk ->. unfold content. cbn. by rewrite <-!app_assoc.
    + intros tk ->. unfold content. cbn. by rewrite !app_nil_r, <-!app_assoc.
    + intros _ H. apply Forall_app. split; [done|by constructor].
    + intros _ H. apply Forall_app. split; [done|by constructor].
    + intros H. apply Forall_app. split; [done|]. constructor; [by left|constructor].
    + intros H. apply Forall_app. split; [done|]. constructor; [by left|constructor].
    + congruence.
    + congruence.
    + intros q Hq Hd'. by destruct (peer_received q Hq Hd').
    + intros q Hq Hd'. by destruct (peer_received q Hq Hd').
  - eapply flow_ok_eq; [by apply write_full|]. unfold blocked. destruct (_ && _); by apply flows_self.
Qed.

Lemma unput_content (tk : list msg) (s : pspec msg) :
  unput (length (partial s)) (tk ++ content s) = tk ++ content (rolled s).
Proof.
  unfold unput, content, rolled. cbn. rewrite app_nil_r.
  rewrite (app_assoc (flushed s)), (app_assoc tk).
  rewrite length_app, Nat.add_sub, take_app_length. done.
Qed.

Lemma flow_rolled p' s : live t !! o = Some s → state p' = state p →
  flow (Some p') py iy (Some (rolled s)) (unput (length (partial s)) pu) tay.
Proof.
  intros Hs Hst. apply (flow_puts _ s); [done|done| |done|done| | | |].
  - intros tk ->. apply unput_content.
  - intros _ H. unfold unput. by apply Forall_take.
  - intros H. unfold unput. by apply Forall_take.
  - intros _ Hc Hp. rewrite Hp. unfold unput. cbn. by rewrite Nat.sub_0_r, firstn_all.
  - intros q _ _. unfold content, rolled. cbn. by intros [-> [-> _]%app_nil]%app_nil.
Qed.

Lemma flow_rollback : flow_ok rollback.
Proof.
  destruct (out_pipe p) as [id|] eqn:Ho.
  - destruct (inv_out _ _ _ _ _ Hi id Ho) as (s & Hs & Hm). assert (id = o) as -> by by apply Hout.
    eapply flow_ok_eq; [by apply (rollback_eq ev p t [] pu ta o s)|].
    eapply flows_out; [by left|done|done|done|done|done|]. rewrite app_nil_r. by apply flow_rolled.
  - eapply flow_ok_eq; [by apply rollback_none|]. by apply flows_self.
Qed.

Lemma flow_flushed s : live t !! o = Some s →
  flow (Some p) py (iy ++ (if (s_flush s).1 then [] else [CActivateRead])) (Some (s_flush s).2) pu tay.
Proof.
  intros Hs. destruct Hf as [Ho _]. cbn in Ho. rewrite app_nil_r, Hs in Ho.
  destruct Ho as [H1 H2 H3 H4 H5 H6 H7 H8].
  assert (Hc : content (s_flush s).2 = content s).
  { rewrite s_flush_spec. unfold content, all_flushed. cbn. by rewrite <-app_assoc. }
  split; [|done| |done| |done| |done].
  - intros ? [= <-]. rewrite Hc. by apply H1.
  - intros q ? Hq Hr Ha [= <-]. destruct (H3 q s Hq Hr Ha eq_refl) as [[Hfl Has]|Hw].
    + unfold s_flush. destruct (complete s); [by left|]. rewrite Has. cbn. right. apply elem_of_app. right. left.
    + right. apply elem_of_app. by left.
  - intros ? [= <-] Hp'. destruct (H5 p eq_refl Hp') as [Hput Hcp]. split; [done|]. intros ? [= <-].
    destruct (Hcp s eq_refl) as [Hco Hpa]. by rewrite s_flush_spec.
  - intros q ? Hq Hd [= <-]. rewrite Hc. by apply (H7 q).
Qed.

Lemma flow_flush : flow_ok flush.
Proof.
  destruct (out_pipe p) as [id|] eqn:Ho.
  - destruct (inv_out _ _ _ _ _ Hi id Ho) as (s & Hs & Hm). assert (id = o) as -> by by apply Hout.
    eapply flow_ok_eq; [apply (flush_eq ev p t [] pu ta o s); [done..|]|].
    { intros H. pose proof (p_acked _ _ (inv_pipe_ok _ _ _ _ _ Hi)) as Ha. unfold acked in Ha. rewrite H, Ho in Ha.
      by destruct Ha as [_ Ha]; specialize (Ha eq_refl). }
    eapply flows_out; [by left|done|done|done|by destruct (s_flush s).1|done|]. by apply flow_flushed.
  - eapply flow_ok_eq; [by apply flush_none|]. by apply flows_self.
Qed.

(** The delimiter is written and everything flushed. *)
Lemma flow_ended p' s cs : live t !! o = Some s → early p' = false →
  (state p' = term_req_sent1 → early p = true) → (∀ q, py = Some q → state q ≠ delimiter_received) →
  flow (Some p') py (iy ++ cs ++ wake s) (Some (ended s)) (unput (length (partial s)) pu ++ [init_delimiter]) tay.
Proof.
  intros Hs He' Hr Hd. destruct Hf as [Ho _]. cbn in Ho. rewrite app_nil_r, Hs in Ho.
  destruct Ho as [H1 H2 H3 H4 H5 H6 H7 H8]. split; [|done| | | |done| |].
  - intros ? [= <-]. rewrite (H1 s eq_refl), unput_content. unfold content, rolled, ended. cbn.
    by rewrite !app_nil_r, <-!app_assoc.
  - intros q ? Hq Hr' Ha [= <-]. right. destruct (H3 q s Hq Hr' Ha eq_refl) as [[Hfl Has]|Hw].
    + unfold wake. rewrite Has, !elem_of_app. right. right. left.
    + apply elem_of_app. by left.
  - intros ? [= <-]. by rewrite He'.
  - intros ? [= <-] Hp'. split.
    + exists (unput (length (partial s)) pu). split; [done|]. unfold unput. apply Forall_take. apply (H4 p); auto.
    + by intros ? [= <-].
  - intros q ? Hq Hdq. by destruct (Hd q Hq).
  - apply Forall_app. split; [unfold unput; by apply Forall_take|]. constructor; [by right|constructor].
Qed.

Lemma flow_terminate d : flow_ok (terminate d).
Proof.
  destruct (terminating (state p)) eqn:Hterm.
  { eapply flow_ok_eq; [by apply terminate_done|]. by apply flows_self. }
  assert (Ha : acked p = false) by (unfold acked; by destruct (state p)).
  destruct (inv_out_some _ _ _ _ _ Hi Ha) as [id Ho].
  destruct (inv_out _ _ _ _ _ Hi id Ho) as (s & Hs & Hm). assert (id = o) as -> by by apply Hout.
  pose proof (inv_cases _ _ _ _ _ Hi) as Hc.
  assert (Hd : ∀ q, py = Some q → state q ≠ delimiter_received).
  { intros q -> Hd. cbn in Hc. rewrite Hd in Hc. destruct (state p); try done.
    - by destruct Hc as (_ & [[_ ?]|[_ ?]]).
    - by destruct Hc as (_ & _ & ?).
    - by destruct Hc as (_ & _ & ?). }
  assert (Hwk : hic (wake s) = []) by (unfold wake; by destruct (asleep s)).
  destruct (decide (state p = waiting_for_delimiter)) as [Hw|Hw]; [destruct d|].
  - eapply flow_ok_eq; [by apply (terminate_wait ev p t [] pu ta o s)|]. eapply flows_out; [by left|done|done|done|done|done|].
    apply (flow_ended _ s []); [done| | |done]; [unfold early; cbn; by rewrite Hw|cbn; by rewrite Hw].
  - eapply flow_ok_eq; [by apply (terminate_nodelay ev p t [] pu ta o s)|]. eapply flows_out; [by right|done|done|done|done|done|].
    eapply flow_writer; [apply flow_send, (flow_rolled p s); [done|done]|done|done].
  - assert (He : early p = true) by (unfold early; by destruct (state p)).
    eapply flow_ok_eq; [apply (terminate_request ev d p t [] pu ta o s); [|done..]|].
    { unfold early in He. destruct (state p); try done; auto. }
    eapply flows_out; [by right|done|done|done|done|done|].
    by apply (flow_ended _ s [CPipeTerm]).
Qed.

(** *** Reading *)

(** The inbound pipe changes. *)
Lemma flows_in p' cs ev' t' s' ta' l r :
  (early p' = true → early p = true) → (state p' = term_req_sent1 → state p = term_req_sent1) →
  in_pipe p' = in_pipe p → (∀ a, out_pipe p' = Some a → out_pipe p = Some a) → hic cs = [] →
  ta' = ta ++ l → filter is_data l = r →
  live t' = <[i := s']> (live t) → flow py (Some p') ix (Some s') puy ta' →
  flows (g ++ r) (Env (Some p') t' cs ev' pu ta').
Proof.
  intros He Hr Hi1 Ho1 Hcs Hta Hl1 Hl Hrd. destruct Hf as [Ho Hn Hs _ Hg]. cbn in Ho. rewrite app_nil_r in Ho.
  split; cbn; [| | |done|].
  - rewrite Hl, lookup_insert_ne by done. apply flow_send. by eapply flow_writer.
  - by rewrite Hl, lookup_insert_eq.
  - intros ? [= <-]. rewrite Hi1. split; [by apply Hs|]. intros a Ha'. by apply Hout, Ho1.
  - rewrite Hta, filter_app, Hl1. f_equal. exact Hg.
Qed.

Lemma flow_in_now s : live t !! i = Some s → flow py (Some p) ix (Some s) puy ta.
Proof. intros Hs. destruct Hf as [_ Hn]. cbn in Hn. by rewrite Hs in Hn. Qed.

(** The peer of a reader that finds the delimiter. *)
Lemma delim_peer s m : live t !! i = Some s → m ∈ content s → is_delimiter m = true → readable (state p) = true →
  ∃ q, py = Some q ∧ state q = term_req_sent1.
Proof.
  intros Hs Hm Hd Hr. rewrite <-Hin in Hs. pose proof (inv_delim _ _ _ _ _ Hi s m Hs Hm Hd) as Hq.
  pose proof (inv_cases _ _ _ _ _ Hi) as Hc. destruct py as [q|]; cbn in Hc.
  - exists q. split; [done|]. specialize (Hq q eq_refl). unfold early in Hq.
    destruct (state p); try done.
    + destruct Hc as (_ & [[_ [= Hst]]|[_ [= Hst]]]); [by rewrite Hst in Hq|done].
    + by destruct Hc as (_ & _ & [= Hst]).
  - destruct (state p); try done; [by destruct Hc as (_ & [[_ ?]|[_ ?]])|by destruct Hc as (_ & _ & ?)].
Qed.

Lemma delimited_state : readable (state p) = true → readable (state (delimited p)) = false ∧
  (early (delimited p) = true → early p = true) ∧ state (delimited p) ≠ term_req_sent1.
Proof.
  unfold delimited, early. intros Hr. case_decide as Hst; cbn; [by rewrite Hst|by destruct (state p)].
Qed.

Lemma delimited_keeps : in_pipe (delimited p) = in_pipe p ∧ (∀ a, out_pipe (delimited p) = Some a → out_pipe p = Some a) ∧
  hic (delimited_cmds p) = [].
Proof. unfold delimited, delimited_cmds. by case_decide. Qed.

Lemma no_credentials l : Forall (λ m, is_credential m = true) l → filter is_data l = [].
Proof.
  induction 1 as [|x l Hx _ IH]; [done|].
  by rewrite filter_cons_False by (unfold is_data; intros [? _]; congruence).
Qed.

Lemma no_data l m : is_delimiter m = true → Forall (λ m, is_credential m = true) l → filter is_data (l ++ [m]) = [].
Proof.
  intros Hm Hl. rewrite filter_app. rewrite (filter_cons_False _ m) by (unfold is_data; intros [_ ?]; congruence).
  by rewrite app_nil_r, no_credentials.
Qed.

Lemma flow_check_read : flow_ok check_read.
Proof.
  destruct (in_active p && readable (state p)) eqn:Hr.
  2: { eapply flow_ok_eq; [by apply check_read_off|]. by apply flows_self. }
  destruct (inv_in _ _ _ _ _ Hi) as [s Hs]. assert (Hs' : live t !! i = Some s) by (by rewrite <-Hin).
  pose proof (flow_in_now s Hs') as Hn. pose proof Hr as [Hact Hrd]%andb_true_iff.
  destruct (flushed s) as [|m l] eqn:Hfl.
  - eapply flow_ok_eq; [by apply (check_read_empty ev p t [] pu ta s)|]. rewrite Hin.
    rewrite <-(app_nil_r g), <-(app_nil_r ta). eapply flows_in; [done..|].
    eapply flow_sleep; [exact Hn|done|done|exact Hfl|constructor|done].
  - pose proof (check_read_eq ev p t [] pu ta s m l Hr Hs Hfl) as Heq. rewrite Hin in Heq.
    destruct (is_delimiter m) eqn:Hd.
    + destruct (delim_peer s m Hs') as (q & Hq & Hst); [unfold content; rewrite Hfl; left|done|done|].
      destruct (delimited_state Hrd) as (Hd1 & Hd2 & Hd3).
      eapply flow_ok_eq; [exact Heq|]. rewrite <-(app_nil_r g).
      eapply flows_in; [done|done|apply delimited_keeps|apply delimited_keeps|apply delimited_keeps|done|by apply (no_data [])|done|].
      rewrite Hq in Hn |- *. by destruct (flow_delim q p (delimited p) ix s puy ta [] m l Hn Hst Hrd Hd1 Hfl (List.Forall_nil _) Hd) as [-> ?].
    + eapply flow_ok_eq; [exact Heq|]. by apply flows_self.
Qed.

Lemma nodelim_credentials l : Forall clean l → nodelim (credentials l).
Proof.
  induction l as [|m l IH]; intros H; cbn; [constructor|]. inversion H as [|? ? Hm Hl]; subst.
  destruct (is_credential m) eqn:Hc; [|constructor]. constructor; [|by apply IH].
  by destruct Hm as [?| ->].
Qed.

Lemma credentials_in s : live t !! i = Some s → nodelim (credentials (flushed s)).
Proof.
  intros Hs. apply nodelim_credentials. destruct (flow_in_now s Hs) as [H1 _ _ _ _ _ _ H8].
  rewrite (H1 s eq_refl) in H8. unfold content in H8. by repeat apply Forall_app in H8 as [? H8].
Qed.

Lemma flow_read r e' : read e0 = Some (r, e') → flows (g ++ option_list r) e'.
Proof.
  assert (Hok : ∀ r1 e1, read e0 = Some (r1, e1) → flows (g ++ option_list r1) e1 →
    read e0 = Some (r, e') → flows (g ++ option_list r) e').
  { intros r1 e1 H1 H2 H3. rewrite H1 in H3. by injection H3 as <- <-. }
  destruct (in_active p && readable (state p)) eqn:Hr.
  2: { eapply Hok; [by apply read_off|]. rewrite app_nil_r. by apply flows_self. }
  destruct (inv_in _ _ _ _ _ Hi) as [s Hs]. assert (Hs' : live t !! i = Some s) by (by rewrite <-Hin).
  pose proof (credentials_in s Hs') as Hcr. pose proof (credentials_all (flushed s)) as Hca2.
  pose proof (flow_in_now s Hs') as Hn. pose proof Hr as [Hact Hrd]%andb_true_iff.
  pose proof (read_eq ev p t [] pu ta s Hr Hs) as Heq. cbn zeta in Heq. rewrite Hin in Heq.
  pose proof (no_credentials _ Hca2) as Hcd.
  pose proof (credentials_after (flushed s)) as Hca. destruct (after (flushed s)) as [|m l] eqn:Haf.
  - eapply Hok; [exact Heq|]. eapply flows_in; [done..|].
    rewrite app_nil_r in Hca. by eapply flow_sleep.
  - destruct (is_delimiter m) eqn:Hd.
    + destruct (delim_peer s m Hs') as (q & Hq & Hst); [|done|done|].
      { unfold content. rewrite Hca, !elem_of_app. left. right. left. }
      destruct (delimited_state Hrd) as (Hd1 & Hd2 & Hd3).
      eapply Hok; [exact Heq|]. rewrite <-app_assoc.
      eapply flows_in; [done|done|apply delimited_keeps|apply delimited_keeps|apply delimited_keeps|done|by apply no_data|done|].
      rewrite Hq in Hn |- *.
      by destruct (flow_delim q p (delimited p) ix s puy ta _ m l Hn Hst Hrd Hd1 Hca Hcr Hd) as [-> ?].
    + assert (Hw : state (count_read m p) = state p ∧ in_active (count_read m p) = true ∧
        in_pipe (count_read m p) = in_pipe p ∧ out_pipe (count_read m p) = out_pipe p).
      { unfold count_read. by destruct (counted m). }
      destruct Hw as (Hw1 & Hw2 & Hw3 & Hw4). eapply Hok; [exact Heq|]. rewrite <-app_assoc.
      eapply flows_in; [unfold early; by rewrite Hw1|by rewrite Hw1|done|by rewrite Hw4| |done| |done|].
      * unfold activation. by destruct ((0 <? lwm _) && _).
      * rewrite filter_app, Hcd. cbn. unfold filter; cbn. rewrite decide_True; [done|].
        split; [by eapply after_head|done].
      * eapply flow_take; [exact Hn|done|done| | |done].
        -- rewrite Hca at 1. by rewrite <-app_assoc.
        -- apply Forall_app. split; [done|by constructor].
Qed.
End flows.

(** *** The handlers *)

Section handlers.
Context (o i : nat) (py : option pipe) (ix iy : list command) (puy tay : list msg).
Context (Hoi : o ≠ i) (p : pipe) (t : store) (ev : list event) (pu ta g : list msg).
Let e0 : env := Env (Some p) t [] ev pu ta.

(** A handler that changes only the endpoint's members. *)
Lemma flows_handler c p' cs ev' : flows o i py (c :: ix) iy puy tay g e0 → c ≠ CActivateRead →
  (early p' = true → early p = true) → (state p' = term_req_sent1 → state p = term_req_sent1) →
  in_pipe p' = in_pipe p → (∀ a, out_pipe p' = Some a → out_pipe p = Some a) → hic cs = [] →
  (state p' = state p ∨ readable (state p') = false ∧ state p' ≠ delimiter_received ∨
   readable (state p) = true ∧ readable (state p') = true) → in_active p' = in_active p →
  flows o i py ix iy puy tay g (Env (Some p') t cs ev' pu ta).
Proof.
  intros [Ho Hn Hs _ Hg] Hc He Hr Hi1 Ho1 Hcs Hst Ha. cbn in Ho, Hn. rewrite app_nil_r in Ho.
  split; cbn; [| | |done|done].
  - apply flow_send. by eapply flow_writer.
  - eapply flow_reader; [by eapply flow_pop|done|by rewrite Ha].
  - intros ? [= <-]. rewrite Hi1. destruct (Hs p eq_refl) as [? Ho2]. split; [done|]. intros a Ha'. by apply Ho2, Ho1.
Qed.

Lemma flow_activate_read : flows o i py (CActivateRead :: ix) iy puy tay g e0 →
  sink p = true → ∀ r e', process_activate_read e0 = Some (r, e') → flows o i py ix iy puy tay g e'.
Proof.
  intros [Ho Hn Hs _ Hg] Hk r e'. cbn in Ho, Hn.
  unfold process_activate_read, mbind, M_bind, this. cbn.
  destruct Hn as [H1 H2 H3 H4 H5 H6 H7 H8].
  destruct (negb (in_active p) && readable (state p)) eqn:Ha; cbn.
  - unfold notify. cbn. rewrite Hk. cbn. intros [= <- <-]. split; cbn; [| | |done|done].
    + eapply flow_writer; [exact Ho|done|done].
    + split; [done|done| |done|done| | |done].
      * by intros ? sp [= <-].
      * intros ? [= <-]. by apply (H6 p).
      * intros ? sp [= <-]. by apply (H7 p).
    + intros ? [= <-]. by apply (Hs p).
  - intros [= <- <-]. split; [done| |done|done|done]. split; [done|done| |done|done|done|done|done].
    intros q sp [= <-] Hr Hia. by rewrite Hr, Hia in Ha.
Qed.

Lemma flow_activate_write n : flows o i py (CActivateWrite n :: ix) iy puy tay g e0 →
  sink p = true → ∀ r e', process_activate_write n e0 = Some (r, e') → flows o i py ix iy puy tay g e'.
Proof.
  intros Hf Hk r e'. unfold process_activate_write, mbind, M_bind, this. cbn.
  destruct (negb (out_active p) && bool_decide (state p = active)) eqn:Ha; cbn.
  - unfold notify. cbn. rewrite Hk. cbn. intros [= <- <-]. by eapply flows_handler; [exact Hf|done..|left|].
  - intros [= <- <-]. by eapply flows_handler; [exact Hf|done..|left|].
Qed.

Lemma flow_pipe_term : flows o i py (CPipeTerm :: ix) iy puy tay g e0 →
  ∀ r e', process_pipe_term e0 = Some (r, e') → flows o i py ix iy puy tay g e'.
Proof.
  intros Hf r e'. unfold process_pipe_term, send_term_ack, mbind, M_bind, this. cbn.
  destruct (state p) eqn:Hst; cbn; try done; [destruct (delay p); cbn|..]; intros [= <- <-];
    (eapply flows_handler; [exact Hf|done..| |done]); first [by right; left|right; right; by rewrite Hst].
Qed.

Lemma flow_pipe_hwm a b : inv (Some p) py ix iy t → small a → small b →
  flows o i py (CPipeHwm a b :: ix) iy puy tay g e0 →
  ∀ r e', process_pipe_hwm a b e0 = Some (r, e') → flows o i py ix iy puy tay g e'.
Proof.
  intros Hi Ha Hb Hf r e'. destruct (set_hwms_eq p py ix iy t ev pu ta Hi a b [] Ha Hb) as (h & l & Heq).
  unfold process_pipe_hwm, e0. rewrite Heq. intros [= <- <-].
  by eapply flows_handler; [exact Hf|done..|left|].
Qed.

Lemma flow_pipe_term_ack : inv (Some p) py (CPipeTermAck :: ix) iy t →
  flows o i py (CPipeTermAck :: ix) iy puy tay g e0 →
  ∀ r e', process_pipe_term_ack e0 = Some (r, e') → flows o i py ix iy puy tay g e'.
Proof.
  intros Hi [Ho Hn Hsf _ Hg] r e'. cbn in Ho, Hn. rewrite app_nil_r in Ho. apply flow_pop in Hn; [|done].
  destruct (Hsf p eq_refl) as [Hin _].
  destruct (inv_in _ _ _ _ _ Hi) as [s Hs]. destruct (inv_pipe_ok _ _ _ _ _ Hi) as [Ks _ _ _].
  assert (Hix : ix = []) by apply (h_ord _ _ _ _ (i_x _ _ _ _ _ Hi)). subst ix.
  destruct (ack_cases p py iy _ (i_phase _ _ _ _ _ Hi) eq_refl) as (Hterm & _ & _ & Hack & _).
  unfold e0. rewrite (process_pipe_term_ack_eq p t [] ev pu ta s Ks Hterm Hs). intros [= <- <-]. rewrite Hin in *.
  split; cbn; [| |done|by case_decide|done].
  - rewrite lookup_delete_ne by done. apply flow_send. by eapply flow_writer_dead.
  - rewrite lookup_delete_eq. rewrite Hs in Hn. destruct Hn as [H1 H2 H3 H4 H5 H6 H7 H8].
    split; [done| |done|done| |done|done|done].
    + intros _. rewrite (H1 s eq_refl). by apply prefix_app_r.
    + intros q Hq Hr. specialize (Hack q Hq). unfold acked in Hack. by rewrite Hr in Hack.
Qed.
End handlers.

(** ** The pair *)

(** The lock-free pipe the endpoint [s] writes to. *)
Definition pid (s : bool) : nat := if s then 1%nat else 0%nat.

Definition env_of (s : bool) (w : world) : env :=
  let x := get s w in Env (ep x) (st w) [] (s_events x) (s_put x) (s_taken x).

Definition flows_at (s : bool) (w : world) (g : list msg) : Prop :=
  let y := get (negb s) w in
  flows (pid s) (pid (negb s)) (ep y) (inbox (get s w)) (inbox y) (s_put y) (s_taken y) g (env_of s w).

(** The invariant of a pair without hiccups; [g] is what the endpoint [s] gave its
    owner. *)
Record wflow (s : bool) (w : world) (g : list msg) : Prop := {
  w_inv : winv w;
  w_here : flows_at s w g;
  w_there : flows_at (negb s) w (got (get (negb s) w));
  w_hic b : hic (inbox (get b w)) = [] }.

Lemma wflow_other s w : wflow s w (got (get s w)) → wflow (negb s) w (got (get (negb s) w)).
Proof. intros [H1 H2 H3 H4]. split; [done|done| |done]. by rewrite negb_involutive. Qed.

Lemma wflow_any s s' w : wflow s w (got (get s w)) → wflow s' w (got (get s' w)).
Proof. destruct (decide (s = s')) as [<-|H]; [done|]. replace s' with (negb s) by (by destruct s, s'). apply wflow_other. Qed.

Lemma pid_ne s : pid s ≠ pid (negb s).
Proof. by destruct s. Qed.

(** Calling an operation that keeps [flows]. *)
Lemma call_wflow {A} s inb (m : M A) w g g' r w' :
  wflow s w g → hic inb = [] →
  (∀ r e', m (env_of s w) = Some (r, e') →
     flows (pid s) (pid (negb s)) (ep (get (negb s) w)) inb (inbox (get (negb s) w))
       (s_put (get (negb s) w)) (s_taken (get (negb s) w)) (g' r) e') →
  call s inb m w = Some (r, w') → winv w' → wflow s w' (g' r) ∧ got (get s w') = got (get s w).
Proof.
  intros [Hi H1 H2 H3] Hinb Hm Hc Hi'. unfold call in Hc. fold (env_of s w) in Hc.
  destruct (m (env_of s w)) as [[r1 e]|] eqn:He; [|done]. cbn in Hc.
  destruct (zmq_assert _) as [u|]; [|done]. cbn in Hc. injection Hc as <- <-.
  specialize (Hm r1 e eq_refl). destruct Hm as [Ho Hn Hs Hh Hg].
  assert (Hgs : ∀ t x y, get s (build s t x y) = x) by (by destruct s).
  assert (Hgn : ∀ t x y, get (negb s) (build s t x y) = y) by (by destruct s).
  assert (Hst : ∀ t x y, st (build s t x y) = t) by (by destruct s).
  split; [split; [done| | |]|by rewrite Hgs].
  - unfold flows_at, env_of. rewrite Hgs, Hgn, Hst. cbn. split; cbn; [by rewrite app_nil_r|done..].
  - unfold flows_at, env_of. rewrite negb_involutive, Hgs, Hgn, Hst. cbn.
    destruct H2 as [_ _ Hs2 _ Hg2]. rewrite negb_involutive in Hs2. cbn in Hs2, Hg2.
    split; cbn; [by rewrite app_nil_r|done..].
  - intros b. destruct (decide (b = s)) as [->|Hb]; [by rewrite Hgs|].
    replace b with (negb s) by (by destruct s, b). rewrite Hgn. cbn. by rewrite hic_app, Hh, (H3 (negb s)).
Qed.

Lemma step_wflow s a w w' : wflow s w (got (get s w)) → allowed s a w → a ≠ AHiccup → step s a w = Some w' →
  wflow s w' (got (get s w')).
Proof.
  intros Hw Ha Hnh Hstep. pose proof Hw as [Hi H1 H2 H3].
  destruct (step_winv s a w Hi Ha) as (w2 & Hw2 & Hi'). rewrite Hstep in Hw2. injection Hw2 as <-.
  assert (Hcall : ∀ A (m : M A) inb, hic inb = [] → snd <$> call s inb m w = Some w' →
    (∀ r e', m (env_of s w) = Some (r, e') →
       flows (pid s) (pid (negb s)) (ep (get (negb s) w)) inb (inbox (get (negb s) w))
         (s_put (get (negb s) w)) (s_taken (get (negb s) w)) (got (get s w)) e') →
    wflow s w' (got (get s w'))).
  { intros A m inb Hinb Hc Hm. destruct (call s inb m w) as [[r w1]|] eqn:Hcl; [|done]. injection Hc as ->.
    destruct (call_wflow s inb m w _ (λ _, got (get s w)) r w' Hw Hinb Hm Hcl Hi') as [Hr Hg]. by rewrite Hg. }
  pose proof (proj1 (winv_get s w) Hi) as Hiv. unfold allowed in Ha.
  destruct (ep (get s w)) as [p|] eqn:Hp.
  2: { assert (Hin : inbox (get s w) = []) by (by apply (h_dead _ _ _ _ (i_x _ _ _ _ _ Hiv))).
       destruct a; cbn [step may] in Ha, Hstep; rewrite ?Hin in Hstep; [..|by injection Hstep as <-]; exfalso;
         repeat match goal with
         | H : _ ∧ _ |- _ => destruct H
         | H : ∃ _, _ |- _ => destruct H
         | H : is_Some None |- _ => by destruct H
         end; try done. }
  assert (He : env_of s w = Env (Some p) (st w) [] (s_events (get s w)) (s_put (get s w)) (s_taken (get s w)))
    by (unfold env_of; by rewrite Hp).
  unfold flows_at in H1. rewrite He in H1. rewrite He in Hcall. pose proof (pid_ne s) as Hne.
  destruct a; cbn [step] in Hstep; cbn [may] in Ha; try (eapply Hcall; [by apply H3|exact Hstep|]).
  - by eapply flow_check_read.
  - destruct (call s (inbox (get s w)) read w) as [[r w1]|] eqn:Hcl; [|done]. cbn in Hstep. injection Hstep as Hst'.
    assert (Hi1 : winv w1).
    { destruct (call_good s (inbox (get s w)) read w) as (r2 & w2 & Hc2 & Hw2).
      - rewrite Hp. by apply good_read.
      - rewrite Hcl in Hc2. by injection Hc2 as <- <-. }
    destruct (call_wflow s _ read w _ (λ r, got (get s w) ++ option_list r) r w1 Hw (H3 s)) as [Hr Hg]; [|done|done|].
    { intros r0 e' Hread. rewrite He in Hread. by eapply flow_read. }
    subst w'. unfold delivered. destruct Hr as [_ Hr1 Hr2 Hr3].
    unfold flows_at, env_of in *. split; [done|..]; destruct s; cbn in *; rewrite ?Hg; try done; intros []; cbn; by apply (Hr3 true) || by apply (Hr3 false).
  - by eapply flow_check_write.
  - destruct Ha as [_ Hd]. by eapply flow_write.
  - by eapply flow_rollback.
  - by eapply flow_flush.
  - by eapply flow_terminate.
  - done.
  - by eapply flow_set_nodelay.
  - destruct Ha as (_ & ? & ?). by eapply flow_set_hwms.
  - by eapply flow_set_boosts.
  - by eapply flow_send_hwms.
  - destruct (inbox (get s w)) as [|c l] eqn:Hin; [by injection Hstep as <-|].
    assert (Hl : hic l = []).
    { pose proof (H3 s) as Hh. rewrite Hin in Hh. destruct c; try done; by cbn in Hh. }
    eapply Hcall; [exact Hl|exact Hstep|]. pose proof (inv_pipe_ok _ _ _ _ _ Hiv) as [Ks _ _ _].
    destruct c; cbn [process_command].
    + by eapply flow_activate_read.
    + by eapply flow_activate_write.
    + pose proof (H3 s) as Hh. by rewrite Hin in Hh.
    + by eapply flow_pipe_term.
    + by eapply flow_pipe_term_ack.
    + pose proof (h_cmds _ _ _ _ (i_x _ _ _ _ _ Hiv)) as Hc. apply Forall_cons in Hc as [[Hs1 Hs2] _].
      eapply flow_pipe_hwm; [by eapply inv_pop|exact Hs1|exact Hs2|exact H1].
Qed.

Definition no_hiccup (a : action) : Prop := a ≠ AHiccup.

Lemma start_wflow hwm0 hwm1 w0 s : start hwm0 hwm1 = Some w0 → wflow s w0 (got (get s w0)).
Proof.
  intros Hs. apply (wflow_any true). pose proof (start_winv _ _ _ Hs) as Hi. unfold start, pipepair, pipe_new in Hs.
  destruct (compute_lwm hwm1) as [l1|]; [|done]. cbn in Hs.
  destruct (compute_lwm hwm0) as [l0|]; [|done]. cbn in Hs. injection Hs as <-.
  assert (Hflow : ∀ p q, state p = active → state q = active → in_active q = true →
    flow (Some p) (Some q) [] (Some (PS [] [] [] false)) [] []).
  { intros p q Hp Hq Ha. split; [|done| | | | | |constructor].
    - by intros ? [= <-].
    - intros ? ? [= <-]. congruence.
    - intros. constructor.
    - intros ? [= <-]. congruence.
    - intros. constructor.
    - intros ? ? [= <-]. congruence. }
  assert (H0 : ({[0%nat := PS [] [] [] false; 1%nat := PS [] [] [] false]} : gmap nat (pspec msg)) !! 0%nat = Some (PS [] [] [] false)).
  { by rewrite lookup_insert_eq. }
  assert (H1 : ({[0%nat := PS [] [] [] false; 1%nat := PS [] [] [] false]} : gmap nat (pspec msg)) !! 1%nat = Some (PS [] [] [] false)).
  { by rewrite lookup_insert_ne, lookup_singleton_eq by done. }
  split; [done| | |by intros []].
  - split; cbn -[lookup insert]; rewrite ?H0, ?H1; [by apply Hflow|by apply Hflow| |done|done].
    intros ? [= <-]. cbn. split; [done|]. by intros ? [= <-].
  - split; cbn -[lookup insert]; rewrite ?H0, ?H1; [by apply Hflow|by apply Hflow| |done|done].
    intros ? [= <-]. cbn. split; [done|]. by intros ? [= <-].
Qed.

Lemma reach_wflow (ok : action → Prop) hwm0 hwm1 w0 w s : (∀ a, ok a → no_hiccup a) →
  start hwm0 hwm1 = Some w0 → reach ok w0 w → wflow s w (got (get s w)).
Proof.
  intros Hok Hs. induction 1 as [|w s' a w' _ IH Ha Hnh Hstep]; [by eapply start_wflow|].
  apply (wflow_any s'). eapply step_wflow; [|exact Ha|by apply Hok|exact Hstep]. by apply (wflow_any s).
Qed.

(** C2. Without hiccups, what an endpoint's reads return is, in order, the messages
    its peer put into the pipe, without the credentials and the delimiter: no
    message is lost, duplicated or reordered, whatever the interleaving, the
    watermarks and the termination.  While the lock-free pipe exists the
    messages not taken yet are all in it; once the delimiter was received every
    message of the peer has been returned or was a credential. *)
Theorem pipe_fifo hwm0 hwm1 w0 w s :
  start hwm0 hwm1 = Some w0 → reach no_hiccup w0 w →
  let x := get s w in
  let y := get (negb s) w in
  got y = filter is_data (s_taken y) ∧
  s_taken y `prefix_of` s_put x ∧
  (∀ sp, live (st w) !! pid s = Some sp → s_put x = s_taken y ++ content sp) ∧
  (∀ q, ep y = Some q → state q = delimiter_received → got y = filter is_data (s_put x)).
Proof.
  intros Hs Hr x y. pose proof (reach_wflow _ _ _ _ _ s (λ a H, H) Hs Hr) as [Hi [Ho _ _ _ _] [_ _ _ _ Hg] _].
  cbn in Ho, Hg. rewrite app_nil_r in Ho. fold x y in Ho. fold y in Hg. destruct Ho as [H1 H2 H3 H4 H5 H6 H7 H8].
  assert (Hpre : s_taken y `prefix_of` s_put x).
  { destruct (live (st w) !! pid s) as [sp|]; [|by apply H2]. rewrite (H1 sp eq_refl). by apply prefix_app_r. }
  split_and!; [done|done|done|]. intros q Hq Hd.
  pose proof (proj1 (winv_get (negb s) w) Hi) as Hiv. rewrite negb_involutive in Hiv. fold x y in Hiv.
  rewrite Hq in Hiv. destruct (inv_in _ _ _ _ _ Hiv) as [sp Hsp].
  pose proof (reach_wflow _ _ _ _ _ s (λ a H, H) Hs Hr) as [_ _ [_ _ Hself _ _] _].
  destruct (Hself q Hq) as [Hin _]. rewrite negb_involutive in Hin. rewrite Hin in Hsp.
  rewrite <-Hg, (H1 sp Hsp), (H7 q sp Hq Hd Hsp), app_nil_r. done.
Qed.

(** ** Termination

    The steps that need no call of the owners but the reads of an endpoint that
    waits for the delimiter. *)

Definition busy (s : bool) (a : action) (w : world) : Prop :=
  match a with
  | ADeliver => inbox (get s w) ≠ []
  | ARead => ∃ p, ep (get s w) = Some p ∧ state p = waiting_for_delimiter ∧ in_active p = true
  | _ => False
  end.

Inductive progress : world → nat → world → Prop :=
| progress_0 w : progress w 0 w
| progress_S w s a w1 n w' : busy s a w → step s a w = Some w1 → progress w1 n w' → progress w (S n) w'.

(** Some endpoint asked for the termination. *)
Definition requested (w : world) : Prop := ∃ s, state <$> ep (get s w) ≠ Some active.

(** What is left to do. *)
Definition w_state (p : option pipe) : nat :=
  match p with
  | None => 0
  | Some p => (if acked p then 1 else 2) + (if in_active p then 1 else 0)
  end.
Definition w_flushed (t : store) (id : nat) : nat := length (from_option flushed [] (live t !! id)).
Definition measure (w : world) : nat :=
  2 * (length (inbox (left w)) + length (inbox (right w))) + w_state (ep (left w)) + w_state (ep (right w)) +
  4 * (w_flushed (st w) 0 + w_flushed (st w) 1).

(** The part of the measure an operation of [x] can change. *)
Definition weight (o i : nat) (e : env) : nat :=
  2 * length (commands e) + w_state (self e) + 4 * (w_flushed (pipes e) o + w_flushed (pipes e) i).

Lemma measure_get s w : measure w =
  (2 * (length (inbox (get s w)) + length (inbox (get (negb s) w))) + w_state (ep (get (negb s) w)) +
   weight (pid s) (pid (negb s)) (env_of s w))%nat.
Proof. unfold measure, weight. destruct s; cbn -[Nat.mul]; lia. Qed.

Lemma call_measure {A} s inb (m : M A) w r w' k :
  call s inb m w = Some (r, w') → length (inbox (get s w)) = (length inb + k)%nat →
  (∀ r e', m (env_of s w) = Some (r, e') →
     weight (pid s) (pid (negb s)) e' < 2 * k + weight (pid s) (pid (negb s)) (env_of s w))%nat →
  (measure w' < measure w)%nat.
Proof.
  intros Hc Hk Hm. unfold call in Hc. fold (env_of s w) in Hc.
  destruct (m (env_of s w)) as [[r1 e]|] eqn:He; [|done]. cbn in Hc.
  destruct (zmq_assert _) as [u|]; [|done]. cbn in Hc. injection Hc as _ <-.
  specialize (Hm r1 e eq_refl). rewrite (measure_get s w).
  rewrite (measure_get s). unfold env_of, weight in *. destruct s; cbn -[Nat.mul] in *; rewrite length_app; lia.
Qed.

Section weight.
Context (o i : nat) (Hoi : o ≠ i) (p : pipe) (t : store) (ev : list event) (pu ta : list msg).
Let e0 : env := Env (Some p) t [] ev pu ta.

Lemma w_flushed_ne id s t' : id ≠ o → live t' = <[o := s]> (live t) → w_flushed t' id = w_flushed t id.
Proof. intros Hne Hl. unfold w_flushed. by rewrite Hl, lookup_insert_ne by done. Qed.

Lemma w_flushed_delete id id' t' : live t' = delete id' (live t) → (w_flushed t' id ≤ w_flushed t id)%nat.
Proof.
  intros Hl. unfold w_flushed. rewrite Hl. destruct (decide (id' = id)) as [->|Hne].
  - rewrite lookup_delete_eq. cbn. lia.
  - by rewrite lookup_delete_ne.
Qed.

Lemma weight_read r e' s : in_pipe p = i → live t !! i = Some s → state p = waiting_for_delimiter →
  in_active p = true → read e0 = Some (r, e') → (weight o i e' < weight o i e0)%nat.
Proof.
  intros Hin Hs Hst Ha. rewrite <-Hin in Hs.
  pose proof (read_eq ev p t [] pu ta s) as Heq. rewrite Ha, Hst, Hin in Heq. specialize (Heq eq_refl).
  rewrite Hin in Hs. specialize (Heq Hs). cbn zeta in Heq. unfold e0. rewrite Heq.
  assert (Hw : ∀ l s', (w_flushed (add_closed l (put_spec i s' t)) i = length (flushed s'))%nat ∧
    w_flushed (add_closed l (put_spec i s' t)) o = w_flushed t o ∧ w_flushed t i = length (flushed s)).
  { intros l s'. unfold w_flushed. cbn. rewrite lookup_insert_eq, lookup_insert_ne by done. by rewrite Hs. }
  pose proof (f_equal length (credentials_after (flushed s))) as Hlen. rewrite length_app in Hlen.
  destruct (after (flushed s)) as [|m l].
  - intros [= <- <-]. unfold weight, w_state. cbn -[Nat.mul w_flushed].
    destruct (Hw (credentials (flushed s)) (asleep_spec s)) as (-> & -> & ->).
    cbn -[Nat.mul]. rewrite Ha. change (acked (set_in_active false p)) with (acked p). destruct (acked p); lia.
  - cbn in Hlen. destruct (is_delimiter m); intros [= <- <-]; unfold weight, w_state; cbn -[Nat.mul w_flushed];
      destruct (Hw (credentials (flushed s)) (tail_spec l s)) as (-> & -> & ->); cbn -[Nat.mul].
    + unfold delimited, delimited_cmds. rewrite !decide_False by (by rewrite Hst). cbn -[Nat.mul].
      unfold acked. rewrite Hst, Ha. cbn -[Nat.mul]. lia.
    + assert (Hc : acked (count_read m p) = acked p ∧ in_active (count_read m p) = true).
      { unfold count_read. by destruct (counted m). }
      destruct Hc as [-> ->]. rewrite Ha. unfold activation. destruct ((0 <? lwm _) && _); cbn -[Nat.mul]; lia.
Qed.

Lemma weight_command c py ix iy r e' : inv (Some p) py (c :: ix) iy t → hic [c] = [] →
  process_command c e0 = Some (r, e') → (weight o i e' < 2 + weight o i e0)%nat.
Proof.
  intros Hi Hc. destruct (inv_pipe_ok _ _ _ _ _ Hi) as [Ks Kb _ _]. unfold e0.
  destruct c; cbn [process_command]; [| |done|..].
  - unfold process_activate_read, mbind, M_bind, this. cbn.
    destruct (negb (in_active p) && readable (state p)) eqn:Ha; cbn.
    + unfold notify. cbn. rewrite Ks. intros [= <- <-]. unfold weight, w_state, acked. cbn -[Nat.mul].
      apply andb_true_iff in Ha as [Ha%negb_true_iff _]. rewrite Ha. lia.
    + intros [= <- <-]. unfold weight; cbn -[Nat.mul]; lia.
  - unfold process_activate_write, mbind, M_bind, this. cbn.
    destruct (negb (out_active p) && bool_decide (state p = active)) eqn:Ha; cbn.
    + unfold notify. cbn. rewrite Ks. intros [= <- <-]. unfold weight, w_state, acked. cbn -[Nat.mul]. lia.
    + intros [= <- <-]. unfold weight, w_state, acked. cbn -[Nat.mul]. lia.
  - unfold process_pipe_term, send_term_ack, mbind, M_bind, this. cbn.
    destruct (state p) eqn:Hst; cbn; try done; [destruct (delay p); cbn|..]; intros [= <- <-];
      unfold weight, w_state, acked; cbn -[Nat.mul]; rewrite Hst; lia.
  - destruct (inv_in _ _ _ _ _ Hi) as [s Hs].
    assert (Hix : ix = []) by apply (h_ord _ _ _ _ (i_x _ _ _ _ _ Hi)). subst ix.
    destruct (ack_cases p py iy _ (i_phase _ _ _ _ _ Hi) eq_refl) as (Hterm & _).
    unfold e0. rewrite (process_pipe_term_ack_eq p t [] ev pu ta s Ks Hterm Hs). intros [= <- <-].
    unfold weight, w_state, acked. cbn -[Nat.mul w_flushed].
    match goal with |- context [w_flushed ?t' o] =>
      pose proof (w_flushed_delete o (in_pipe p) t' eq_refl); pose proof (w_flushed_delete i (in_pipe p) t' eq_refl) end.
    case_decide as Hst; cbn -[Nat.mul w_flushed]; [rewrite Hst|destruct (state p)]; lia.
  - pose proof (h_cmds _ _ _ _ (i_x _ _ _ _ _ Hi)) as Hcm. apply Forall_cons in Hcm as [[Hs1 Hs2] _].
    destruct (set_hwms_eq p py _ iy t ev pu ta Hi inhwm outhwm [] Hs1 Hs2) as (h & l & Heq).
    unfold process_pipe_hwm, e0. rewrite Heq. intros [= <- <-]. unfold weight, w_state, acked. cbn -[Nat.mul]. lia.
Qed.

(** An endpoint never becomes active again. *)
Lemma command_state c py ix iy r e' : inv (Some p) py (c :: ix) iy t →
  process_command c e0 = Some (r, e') → state <$> self e' = Some active → state p = active.
Proof.
  intros Hi. destruct (inv_pipe_ok _ _ _ _ _ Hi) as [Ks Kb _ _]. unfold e0.
  destruct c; cbn [process_command].
  - unfold process_activate_read, notify, mbind, M_bind, this. cbn.
    destruct (negb (in_active p) && readable (state p)); cbn; rewrite ?Ks; intros [= _ <-]; cbn; by intros [= ->].
  - unfold process_activate_write, notify, mbind, M_bind, this. cbn.
    destruct (negb (out_active p) && bool_decide (state p = active)); cbn; rewrite ?Ks; intros [= _ <-]; cbn; by intros [= ->].
  - destruct (out_pipe p) as [old|] eqn:Ho.
    + destruct (inv_out _ _ _ _ _ Hi old Ho) as (sp & Hs & _).
      rewrite (process_hiccup_eq _ _ p _ _ _ _ old sp Ks Ho Hs). intros [= _ <-]. cbn.
      destruct (uncount_keeps (all_flushed sp) p) as (-> & _). by intros [= ->].
    + unfold process_hiccup, out_id, mbind, M_bind, this. cbn. by rewrite Ho.
  - unfold process_pipe_term, send_term_ack, mbind, M_bind, this. cbn.
    destruct (state p) eqn:Hst; cbn; try done; by intros [= _ <-].
  - destruct (inv_in _ _ _ _ _ Hi) as [sp Hs].
    assert (ix = []) as -> by apply (h_ord _ _ _ _ (i_x _ _ _ _ _ Hi)).
    destruct (ack_cases _ _ _ _ (i_phase _ _ _ _ _ Hi) eq_refl) as (Hterm & _).
    rewrite (process_pipe_term_ack_eq p _ _ _ _ _ sp Ks Hterm Hs). by intros [= _ <-].
  - pose proof (h_cmds _ _ _ _ (i_x _ _ _ _ _ Hi)) as Hcm. apply Forall_cons in Hcm as [[Hs1 Hs2] _].
    destruct (set_hwms_eq p _ _ _ _ ev pu ta Hi inhwm outhwm [] Hs1 Hs2) as (h & l & Heq).
    unfold process_pipe_hwm. rewrite Heq. intros [= _ <-]. cbn. by intros [= ->].
Qed.

Lemma read_state r e' s : live t !! in_pipe p = Some s → read e0 = Some (r, e') →
  state <$> self e' = Some active → state p = active.
Proof.
  intros Hs. unfold e0. destruct (in_active p && readable (state p)) eqn:Hr.
  - rewrite (read_eq ev p t [] pu ta s Hr Hs). destruct (after (flushed s)) as [|m l].
    + intros [= _ <-]. cbn. by intros [= ->].
    + destruct (is_delimiter m); intros [= _ <-]; cbn.
      * unfold delimited. case_decide; [done|]. by cbn.
      * unfold count_read. destruct (counted m); cbn; by intros [= ->].
  - rewrite read_off by done. intros [= _ <-]. cbn. by intros [= ->].
Qed.
End weight.

Lemma busy_allowed s a w : busy s a w → allowed s a w ∧ no_hiccup a.
Proof. unfold allowed. destruct a; cbn; try done. by intros (p & -> & _). Qed.

Lemma busy_measure s a w w' : wflow s w (got (get s w)) → busy s a w → step s a w = Some w' →
  (measure w' < measure w)%nat.
Proof.
  intros [Hi H1 _ H3] Hb Hstep. pose proof (proj1 (winv_get s w) Hi) as Hiv.
  destruct a; cbn [busy step] in *; try done.
  - destruct Hb as (p & Hp & Hst & Ha). rewrite Hp in Hiv. destruct (inv_in _ _ _ _ _ Hiv) as [sp Hs].
    destruct (fl_self _ _ _ _ _ _ _ _ _ H1 p Hp) as [Hin _]. rewrite Hin in Hs.
    destruct (call s (inbox (get s w)) read w) as [[r w1]|] eqn:Hc; [|done]. cbn in Hstep. injection Hstep as <-.
    assert (Hm : measure (delivered s r w1) = measure w1) by (by destruct s).
    rewrite Hm. eapply (call_measure s _ read w r w1 0); [exact Hc|lia|].
    intros r0 e0 He. unfold env_of in *. rewrite Hp in *.
    eapply weight_read; [apply pid_ne|exact Hin|exact Hs|done|done|exact He].
  - destruct (inbox (get s w)) as [|c l] eqn:Hin; [done|].
    destruct (call s l (process_command c) w) as [[r w1]|] eqn:Hc; [|done]. cbn in Hstep. injection Hstep as ->.
    eapply (call_measure s _ _ w r w' 1); [exact Hc|rewrite Hin; cbn; lia|].
    intros r0 e0 He. unfold env_of in *.
    destruct (ep (get s w)) as [p|] eqn:Hp.
    + eapply weight_command; [apply pid_ne|exact Hiv| |exact He]. pose proof (H3 s) as Hh. rewrite Hin in Hh.
      destruct c; try done; by cbn in Hh.
    + by pose proof (h_dead _ _ _ _ (i_x _ _ _ _ _ Hiv) eq_refl).
Qed.

Lemma active_before s a w w' s' : busy s a w → winv w → step s a w = Some w' →
  state <$> ep (get s' w') = Some active → state <$> ep (get s' w) = Some active.
Proof.
  intros Hb Hi Hstep Hact. pose proof (proj1 (winv_get s w) Hi) as Hiv.
  assert (Hcall : ∀ A inb (m : M A) r w1, call s inb m w = Some (r, w1) →
    (∀ r e, m (env_of s w) = Some (r, e) → state <$> self e = Some active → state <$> ep (get s w) = Some active) →
    state <$> ep (get s' w1) = Some active → state <$> ep (get s' w) = Some active).
  { intros A inb m r w1 Hc Hm Ha. unfold call in Hc. fold (env_of s w) in Hc.
    destruct (m (env_of s w)) as [[r1 e]|] eqn:He; [|done]. cbn in Hc.
    destruct (zmq_assert _) as [u|]; [|done]. cbn in Hc. injection Hc as _ <-. specialize (Hm r1 e eq_refl).
    destruct s, s'; cbn in *; auto. }
  destruct a; cbn [busy step] in *; try done.
  - destruct Hb as (p & Hp & Hst & Ha). rewrite Hp in Hiv. destruct (inv_in _ _ _ _ _ Hiv) as [sp Hs].
    destruct (call s (inbox (get s w)) read w) as [[r w1]|] eqn:Hc; [|done]. cbn in Hstep. injection Hstep as <-.
    eapply Hcall; [exact Hc| |by destruct s, s'].
    intros r0 e0 He Hae. unfold env_of in He. rewrite Hp in He |- *. cbn. f_equal. by eapply read_state.
  - destruct (inbox (get s w)) as [|c l] eqn:Hin; [done|].
    destruct (call s l (process_command c) w) as [[r w1]|] eqn:Hc; [|done]. cbn in Hstep. injection Hstep as ->.
    eapply Hcall; [exact Hc| |exact Hact]. intros r0 e0 He Hae. unfold env_of in He.
    destruct (ep (get s w)) as [p|] eqn:Hp; [|by pose proof (h_dead _ _ _ _ (i_x _ _ _ _ _ Hiv) eq_refl)].
    cbn. f_equal. by eapply command_state.
Qed.

(** When nothing is left to do, an endpoint does not wait for the delimiter: the
    delimiter is in its pipe, so it is awake or being woken. *)
Lemma quiet_not_waiting s w p : wflow s w (got (get s w)) → (∀ s a, ¬ busy s a w) →
  ep (get s w) = Some p → state p ≠ waiting_for_delimiter.
Proof.
  intros [Hi [_ Hn Hself _ _] _ _] Hq Hp Hst. cbn in Hn, Hself.
  assert (Hin : inbox (get s w) = []).
  { destruct (inbox (get s w)) eqn:H; [done|]. exfalso. apply (Hq s ADeliver). cbn. by rewrite H. }
  assert (Ha : in_active p = false).
  { destruct (in_active p) eqn:Ha; [|done]. exfalso. apply (Hq s ARead). by exists p. }
  pose proof (proj1 (winv_get s w) Hi) as Hiv. rewrite Hp in Hiv.
  destruct (inv_in _ _ _ _ _ Hiv) as [sp Hs]. destruct (Hself p Hp) as [Hip _]. rewrite Hip in Hs.
  pose proof (inv_cases _ _ _ _ _ Hiv) as Hc. rewrite Hst in Hc. destruct Hc as (_ & _ & Hpy).
  destruct (ep (get (negb s) w)) as [q|] eqn:Hpq; [|done]. cbn in Hpy. injection Hpy as Hpy.
  rewrite Hs, Hp, Hin in Hn. destruct Hn as [H1 _ H3 _ H5 H6 _ _].
  destruct (H3 p sp eq_refl ltac:(by rewrite Hst) Ha eq_refl) as [[Hf _]|Hw]; [|by apply elem_of_nil in Hw].
  destruct (H5 q eq_refl Hpy) as [(l & Hput & _) Hcp]. destruct (Hcp sp eq_refl) as [Hco Hpa].
  pose proof (H6 p eq_refl ltac:(by rewrite Hst)) as Htk.
  specialize (H1 sp eq_refl). unfold content in H1. rewrite Hf, Hco, Hpa, app_nil_r, Hput in H1.
  rewrite <-H1 in Htk. apply Forall_app in Htk as [_ Htk]. by inversion Htk.
Qed.

Lemma quiet_done w : wflow true w (got (get true w)) → (∀ s a, ¬ busy s a w) →
  state <$> ep (left w) = Some active ∧ state <$> ep (right w) = Some active ∨
  ep (left w) = None ∧ ep (right w) = None.
Proof.
  intros Hw Hq. pose proof (w_inv _ _ _ Hw) as Hi.
  assert (Hin : ∀ s, inbox (get s w) = []).
  { intros s. destruct (inbox (get s w)) eqn:H; [done|]. exfalso. apply (Hq s ADeliver). cbn. by rewrite H. }
  assert (Hnw : ∀ s, state <$> ep (get s w) ≠ Some waiting_for_delimiter).
  { intros s H. destruct (ep (get s w)) as [p|] eqn:Hp; [|done]. injection H as H.
    by eapply (quiet_not_waiting s w p); [by apply (wflow_any true)|..]. }
  pose proof (Hin true) as Hl. pose proof (Hin false) as Hr. pose proof (Hnw true) as Hwl. pose proof (Hnw false) as Hwr.
  cbn in Hl, Hr, Hwl, Hwr. pose proof (i_phase _ _ _ _ _ Hi) as Hp. rewrite Hl, Hr in Hp. change (hs []) with (@nil hcmd) in Hp.
  destruct (ep (left w)) as [p|], (ep (right w)) as [q|]; cbn in *.
  - left. destruct Hp as [Hp|Hp]; inversion Hp; subst; congruence || (split; congruence).
  - destruct Hp as [Hp|Hp]; inversion Hp.
  - destruct Hp as [Hp|Hp]; inversion Hp.
  - by right.
Qed.

(** C25. Without hiccups, once an endpoint has asked for the termination the
    handshake comes to its end by itself: delivering the commands and, on an
    endpoint that waits for the delimiter, reading cannot go on for more than
    [measure] steps, in whatever order; and when no such step is left both
    endpoints and both lock-free pipes are deallocated.  The states in between
    are never stuck: no command is lost and no reader sleeps on its
    delimiter. *)
Theorem pipe_terminates hwm0 hwm1 w0 w n w' :
  start hwm0 hwm1 = Some w0 → reach no_hiccup w0 w → requested w → progress w n w' →
  (n ≤ measure w)%nat ∧ requested w' ∧
  ((∀ s a, ¬ busy s a w') → ep (left w') = None ∧ ep (right w') = None ∧ live (st w') = ∅).
Proof.
  intros Hs Hr Hq Hprog. induction Hprog as [w|w s a w1 n w' Hb Hstep Hprog IH].
  - split; [lia|]. split; [done|]. intros Hquiet.
    pose proof (reach_wflow _ _ _ _ _ true (λ a H, H) Hs Hr) as Hw.
    destruct (quiet_done w Hw Hquiet) as [[Hl Hrt]|[Hl Hrt]].
    + destruct Hq as [[] Hq]; done.
    + split_and!; [done|done|]. apply map_empty. intros id. apply eq_None_not_Some.
      rewrite (i_dom _ _ _ _ _ (w_inv _ _ _ Hw) id). unfold ids. rewrite Hl, Hrt. cbn. apply not_elem_of_nil.
  - destruct (busy_allowed _ _ _ Hb) as [Ha Hn].
    pose proof (reach_wflow _ _ _ _ _ s (λ a H, H) Hs Hr) as Hw.
    assert (Hr1 : reach no_hiccup w0 w1) by (by eapply reach_step).
    assert (Hq1 : requested w1).
    { destruct Hq as [s' Hq]. exists s'. intros H. apply Hq. by eapply active_before; [exact Hb|apply Hw|exact Hstep|]. }
    destruct (IH Hr1 Hq1) as (Hle & Hrest). pose proof (busy_measure _ _ _ _ Hw Hb Hstep). split; [lia|done].
Qed.

(** C27. Without hiccups, an endpoint that may read and found nothing more to read
    is never left asleep: the lock-free pipe has nothing flushed and knows that
    the reader sleeps, so that the next flush wakes it, or the command that
    wakes it is on its way. *)
Theorem pipe_reader_awake hwm0 hwm1 w0 w s q sp :
  start hwm0 hwm1 = Some w0 → reach no_hiccup w0 w →
  let x := get s w in
  ep x = Some q → readable (state q) = true → in_active q = false →
  live (st w) !! in_pipe q = Some sp →
  flushed sp = [] ∧ asleep sp = true ∨ CActivateRead ∈ inbox x.
Proof.
  intros Hs Hr x Hq Hrd Ha Hsp.
  pose proof (reach_wflow _ _ _ _ _ s (λ a H, H) Hs Hr) as [_ [_ Hn Hself _ _] _ _]. cbn in Hn, Hself.
  fold x in Hn, Hself. destruct (Hself q Hq) as [Hin _]. rewrite <-Hin in Hn. by apply (f_wake _ _ _ _ _ _ Hn q sp).
Qed.

(** *** Runs *)

#[export] Instance busy_dec s a w : Decision (busy s a w).
Proof.
  destruct a; cbn; try apply _. destruct (ep (get s w)) as [p|].
  - destruct (decide (state p = waiting_for_delimiter ∧ in_active p = true)) as [[H1 H2]|H]; [left; by exists p|right].
    intros (? & [= <-] & H1 & H2). by apply H.
  - right. by intros (? & [=] & _).
Defined.

Fixpoint drive (acts : list (bool * action)) (w : world) : option world :=
  match acts with
  | [] => Some w
  | (s, a) :: acts => if decide (busy s a w) then w ← step s a w; drive acts w else None
  end.

Lemma drive_progress acts w w' : drive acts w = Some w' → progress w (length acts) w'.
Proof.
  revert w. induction acts as [|[s a] acts IH]; cbn; intros w Hd; [injection Hd as <-; constructor|].
  case_decide as Hb; [|done]. destruct (step s a w) as [w1|] eqn:Hs; [|done]. cbn in Hd. econstructor; eauto.
Qed.

(** The left endpoint writes two messages and asks for the termination; the right
    one has yet to read them. *)
Definition ex_acts1 : list (bool * action) :=
  [(true, AWrite (ex_msg 7)); (true, AFlush); (false, ARead); (true, AWrite (ex_msg 8)); (true, ATerminate false)].
Definition ex_acts2 : list (bool * action) :=
  [(false, ADeliver); (false, ARead); (false, ARead); (true, ADeliver); (true, ADeliver); (true, ADeliver);
   (false, ADeliver)].

Lemma pipe_fifo_witness :
  ∃ w0 w, start 2 2 = Some w0 ∧ play ex_acts1 w0 = Some w ∧ got (right w) = [ex_msg 7] ∧
    s_taken (right w) `prefix_of` s_put (left w).
Proof.
  exists ex_start. destruct (play ex_acts1 ex_start) as [w|] eqn:Hp; [|by vm_compute in Hp].
  exists w. assert (Hs : start 2 2 = Some ex_start) by (vm_compute; reflexivity).
  split; [exact Hs|]. split; [done|]. split; [vm_compute in Hp; by injection Hp as <-|].
  apply (pipe_fifo 2 2 ex_start w true); [exact Hs|].
  apply (play_reach _ ex_acts1 ex_start ex_start); [constructor|exact Hp|repeat constructor; discriminate].
Defined.

Lemma pipe_terminates_witness :
  ∃ w0 w w', start 2 2 = Some w0 ∧ play ex_acts1 w0 = Some w ∧ drive ex_acts2 w = Some w' ∧
    got (right w') = [ex_msg 7; ex_msg 8] ∧ live (st w') = ∅ ∧ (length ex_acts2 ≤ measure w)%nat.
Proof.
  exists ex_start. destruct (play ex_acts1 ex_start) as [w|] eqn:Hp; [|by vm_compute in Hp].
  exists w. destruct (drive ex_acts2 w) as [w'|] eqn:Hd.
  2: { vm_compute in Hp. injection Hp as <-. by vm_compute in Hd. }
  exists w'. assert (Hs : start 2 2 = Some ex_start) by (vm_compute; reflexivity).
  assert (Hq : requested w) by (vm_compute in Hp; injection Hp as <-; exists true; by vm_compute).
  assert (Hr : reach no_hiccup ex_start w).
  { apply (play_reach _ ex_acts1 ex_start ex_start); [constructor|exact Hp|repeat constructor; discriminate]. }
  destruct (pipe_terminates 2 2 ex_start w (length ex_acts2) w' Hs Hr Hq (drive_progress _ _ _ Hd)) as (Hn & _ & Hdone).
  split; [exact Hs|]. split; [done|]. split; [done|].
  split; [vm_compute in Hp; injection Hp as <-; vm_compute in Hd; by injection Hd as <-|].
  split; [|exact Hn]. apply Hdone. vm_compute in Hp. injection Hp as <-. vm_compute in Hd. injection Hd as <-.
  intros [] []; cbn; naive_solver.
Defined.

Lemma pipe_reader_awake_witness :
  ∃ w0 w q sp, start 2 2 = Some w0 ∧ play [(false, ARead)] w0 = Some w ∧ ep (right w) = Some q ∧
    in_active q = false ∧ live (st w) !! in_pipe q = Some sp ∧
    (flushed sp = [] ∧ asleep sp = true ∨ CActivateRead ∈ inbox (right w)).
Proof.
  exists ex_start. destruct (play [(false, ARead)] ex_start) as [w|] eqn:Hp; [|by vm_compute in Hp].
  assert (Hs : start 2 2 = Some ex_start) by (vm_compute; reflexivity).
  assert (Hr : reach no_hiccup ex_start w).
  { apply (play_reach _ [(false, ARead)] ex_start ex_start); [constructor|exact Hp|repeat constructor; discriminate]. }
  destruct (ep (right w)) as [q|] eqn:Hq; [|vm_compute in Hp; injection Hp as <-; done].
  destruct (live (st w) !! in_pipe q) as [sp|] eqn:Hsp.
  2: { vm_compute in Hp. injection Hp as <-. injection Hq as <-. by vm_compute in Hsp. }
  assert (Ha : in_active q = false ∧ readable (state q) = true).
  { vm_compute in Hp. injection Hp as <-. by injection Hq as <-. }
  exists w, q, sp. split_and!; [exact Hs|done|done|apply Ha|done|].
  apply (pipe_reader_awake 2 2 ex_start w false q sp Hs Hr Hq); [apply Ha|apply Ha|exact Hsp].
Defined.
End PipeFlow.
