(* ===== verification/PipeHwm.v ===== *)
(** * The watermarks of a pair of pipes

    The pairs of [PipeFlow] whose watermarks stay as they were created.  The
    64-bit counters wrap around; what counts are their differences.  [pipe_hwm]:
    no more messages wait in a pipe than its high watermark; [pipe_not_stuck]:
    a writer blocked by the watermark gets an activation before the reader has
    read half of what it may hold. *)

From S2P Require Import Prelude Msg YPipe Pipe PipePair PipeFlow.

Module PipeHwm.
Import Pipe PipePair PipeFlow.

(** The messages the writer counts, and those the reader counts. *)
Definition counts_w (m : msg) : bool := counted m && negb (is_delimiter m).
Definition counts_r (m : msg) : bool := counts_w m && negb (is_credential m).
Definition nw : list msg → Z := count counts_w.
Definition nr : list msg → Z := count counts_r.

Lemma nr_le_nw l : nr l ≤ nw l.
Proof.
  induction l as [|m l IH]; unfold nr, nw in *; cbn; [done|]. unfold counts_r at 1.
  destruct (counts_w m), (is_credential m); cbn; lia.
Qed.

Lemma nw_app l l' : nw (l ++ l') = nw l + nw l'.
Proof. apply count_app. Qed.

Lemma nw_prefix l l' : l `prefix_of` l' → nw l ≤ nw l'.
Proof. intros [k ->]. unfold nw. rewrite count_app. pose proof (count_nonneg counts_w k). lia. Qed.

(** The activations among the commands. *)
Definition acts (l : list command) : list Z :=
  omap (λ c, match c with CActivateWrite n => Some n | _ => None end) l.

Lemma acts_app l l' : acts (l ++ l') = acts l ++ acts l'.
Proof. apply omap_app. Qed.

(** The changes of the watermarks among the commands. *)
Definition hwmc (l : list command) : list (Z * Z) :=
  omap (λ c, match c with CPipeHwm a b => Some (a, b) | _ => None end) l.

Lemma hwmc_app l l' : hwmc (l ++ l') = hwmc l ++ hwmc l'.
Proof. apply omap_app. Qed.

(** Numbers that grow from [k] to at most [n], and the last of them. *)
Fixpoint ascending (k : Z) (ks : list Z) (n : Z) : Prop :=
  match ks with [] => k ≤ n | k' :: ks => k ≤ k' ∧ ascending k' ks n end.
Fixpoint latest (k : Z) (ks : list Z) : Z := match ks with [] => k | k' :: ks => latest k' ks end.

Lemma ascending_le k ks n : ascending k ks n → k ≤ n.
Proof. revert k. induction ks as [|k' ks IH]; cbn; intros k; [done|]. intros [H1 H2%IH]. lia. Qed.

Lemma ascending_latest k ks n : ascending k ks n → latest k ks ≤ n.
Proof. revert k. induction ks as [|k' ks IH]; cbn; intros k; [done|]. intros [_ H]. by apply IH. Qed.

Lemma ascending_mono k ks n n' : ascending k ks n → n ≤ n' → ascending k ks n'.
Proof. revert k. induction ks as [|k' ks IH]; cbn; intros k; [lia|]. intros [? ?] ?. auto. Qed.

Lemma ascending_snoc k ks n : ascending k ks n → ascending k (ks ++ [n]) n.
Proof. revert k. induction ks as [|k' ks IH]; cbn; intros k H; [lia|]. destruct H. auto. Qed.

Lemma latest_snoc k ks n : latest k (ks ++ [n]) = n.
Proof. revert k. induction ks as [|k' ks IH]; cbn; intros k; [done|]. apply IH. Qed.

(** ** One direction

    [k] is the number of messages the writer knows were read, [ks] those in the
    activations on their way to it; [H] is the high watermark. *)

Record ctl_at (px py : option pipe) (ix : list command) (put taken : list msg) (H k : Z) (ks : list Z) : Prop := {
  c_written p : px = Some p → msgs_written p = u64 (nw put);
  c_read q : py = Some q → msgs_read q = u64 (nr taken);
  c_hwm p : px = Some p → hwm p = H;
  c_lwm q : py = Some q → lwm q = Z.quot (H + 1) 2;
  c_peers p : px = Some p → peers_msgs_read p = u64 k;
  c_acts : acts ix = (λ z, u64 z) <$> ks;
  c_asc : ascending k ks (nr taken);
  c_k : 0 ≤ k;
  c_gap q : 0 < H → py = Some q → nr taken - latest k ks ≤ u64 (nr taken) mod lwm q;
  c_full : 0 < H → nw put - k ≤ H;
  c_blocked p : px = Some p → state p = active → out_active p = false → 0 < H ∧ H ≤ nw put - k }.

Definition ctl px py ix put taken H : Prop := ∃ k ks, ctl_at px py ix put taken H k ks.

Lemma ctl_frame p p' py ix ix' put put' taken H : ctl (Some p) py ix put taken H →
  msgs_written p' = msgs_written p → hwm p' = hwm p → peers_msgs_read p' = peers_msgs_read p →
  (state p' = active → out_active p' = false → state p = active ∧ out_active p = false) →
  nw put' = nw put → acts ix' = acts ix → ctl (Some p') py ix' put' taken H.
Proof.
  intros (k & ks & []) Hw Hh Hp Hs Hn Ha. exists k, ks. split; rewrite ?Hn, ?Ha; try done.
  - intros ? [= <-]. rewrite Hw. auto.
  - intros ? [= <-]. rewrite Hh. auto.
  - intros ? [= <-]. rewrite Hp. auto.
  - intros ? [= <-] H1 H2. destruct (Hs H1 H2). eauto.
Qed.

Lemma ctl_frame_reader px q q' ix ix' put taken taken' H : ctl px (Some q) ix put taken H →
  msgs_read q' = msgs_read q → lwm q' = lwm q → nr taken' = nr taken → acts ix' = acts ix →
  ctl px (Some q') ix' put taken' H.
Proof.
  intros (k & ks & []) Hr Hl Hn Ha. exists k, ks. split; rewrite ?Hn, ?Ha; try done.
  - intros ? [= <-]. rewrite Hr. auto.
  - intros ? [= <-]. rewrite Hl. auto.
  - intros ? ? [= <-]. rewrite Hl. auto.
Qed.

Lemma ctl_dead px py ix ix' put taken H : ctl px py ix put taken H → acts ix' = acts ix →
  ctl None py ix' put taken H ∧ ctl px None ix' put taken H.
Proof. intros (k & ks & []) Ha. split; exists k, ks; split; rewrite ?Ha; try done. Qed.

(** ** The arithmetic of the counters *)

Lemma u64_diff a b : u64 (u64 a - u64 b) = u64 (a - b).
Proof. unfold wrap. by rewrite <-Zminus_mod. Qed.

Lemma u64_succ a : u64 (u64 a + 1) = u64 (a + 1).
Proof. unfold wrap. by rewrite Zplus_mod_idemp_l. Qed.

(** One more modulo [2^64] and modulo [l]: the remainder grows by one unless it
    becomes [0]. *)
Lemma u64_mod_succ n l : 0 < l → u64 (n + 1) mod l = 0 ∨ u64 (n + 1) mod l = u64 n mod l + 1.
Proof.
  intros Hl. pose proof (wrap_range 64 n ltac:(lia)) as Hn.
  destruct (decide (u64 n + 1 = 2 ^ 64)) as [He|Hne].
  - left. rewrite <-u64_succ, He. unfold wrap. by rewrite Z_mod_same_full, Zmod_0_l.
  - rewrite <-u64_succ. rewrite (wrap_small 64 (u64 n + 1)) by lia.
    pose proof (Z.mod_pos_bound (u64 n) l Hl).
    destruct (decide (u64 n mod l + 1 = l)) as [He|Hne'].
    + left. rewrite <-Zplus_mod_idemp_l, He. apply Z_mod_same_full.
    + right. rewrite <-Zplus_mod_idemp_l. apply Z.mod_small. lia.
Qed.

(** ** The operations *)

Section ops.
Context (o i : nat) (py : option pipe) (ix iy : list command) (puy tay : list msg) (Hx Hy : Z).

(** Both directions, seen from the endpoint that calls an operation: [Hx] is its
    high watermark, [Hy] the peer's. *)
Record ctls (e : env) : Prop := {
  ct_out : ctl (self e) py ix (put e) tay Hx;
  ct_in : ctl py (self e) (iy ++ commands e) puy (taken e) Hy;
  ct_hwm : hwmc (commands e) = [] }.

Context (Hoi : o ≠ i) (p : pipe) (t : store) (ev : list event) (pu ta g : list msg).
Hypothesis Hi : inv (Some p) py ix iy t.
Let e0 : env := Env (Some p) t [] ev pu ta.
Hypothesis Hf : flows o i py ix iy puy tay g e0.
Hypothesis Hc : ctls e0.
Hypothesis Hx_small : Hx < 2 ^ 32.

Definition ctl_ok {A} (m : M A) : Prop := ∀ r e', m e0 = Some (r, e') → ctls e'.

Lemma ctl_ok_eq {A} (m : M A) r e' : m e0 = Some (r, e') → ctls e' → ctl_ok m.
Proof. intros H1 H2 r2 e2 H3. rewrite H1 in H3. by injection H3 as <- <-. Qed.

(** Nothing that counts changes. *)
Lemma ctls_frame p' t' cs ev' pu' ta' :
  msgs_written p' = msgs_written p → hwm p' = hwm p → peers_msgs_read p' = peers_msgs_read p →
  msgs_read p' = msgs_read p → lwm p' = lwm p →
  (state p' = active → out_active p' = false → state p = active ∧ out_active p = false) →
  nw pu' = nw pu → nr ta' = nr ta → acts cs = [] ∧ hwmc cs = [] → ctls (Env (Some p') t' cs ev' pu' ta').
Proof.
  intros H1 H2 H3 H4 H5 H6 H7 H8 [H9 H12]. destruct Hc as [H10 H11 _]. cbn in H10, H11. split; cbn; [| |done].
  - by eapply ctl_frame.
  - eapply ctl_frame_reader; [exact H11|done..|]. by rewrite acts_app, H9, !app_nil_r.
Qed.

(** The difference of the counters is exact. *)
Lemma check_hwm_exact k ks : ctl_at (Some p) py ix pu tay Hx k ks →
  (check_hwm p = true ↔ Hx ≤ 0 ∨ nw pu - k < Hx) ∧ k ≤ nw pu.
Proof.
  intros []. assert (Hk : k ≤ nw pu).
  { pose proof (ascending_le _ _ _ c_asc0). pose proof (nr_le_nw tay). destruct Hf as [[H1 H2 _ _ _ _ _ _] _ _ _ _].
    cbn in H1, H2. assert (tay `prefix_of` pu) as Hp%nw_prefix; [|lia].
    destruct (live t !! o) as [s|]; [|by apply H2]. rewrite (H1 s eq_refl). by apply prefix_app_r. }
  split; [|done]. unfold check_hwm. rewrite (c_hwm0 p eq_refl), (c_written0 p eq_refl), (c_peers0 p eq_refl), u64_diff.
  destruct (decide (0 < Hx)) as [Hpos|Hneg].
  - rewrite (wrap_small 64 Hx) by lia. specialize (c_full0 Hpos). rewrite (wrap_small 64 (nw pu - k)) by lia.
    rewrite negb_true_iff, andb_false_iff, Z.ltb_ge, Z.leb_gt. lia.
  - replace (0 <? Hx) with false by (symmetry; apply Z.ltb_ge; lia). cbn. split; [lia|done].
Qed.

Lemma ctl_check_write : ctl_ok check_write.
Proof.
  eapply ctl_ok_eq; [apply check_write_eq|]. unfold blocked.
  destruct (out_active p && bool_decide (state p = active) && negb (check_hwm p)) eqn:Hb; [|by apply ctls_frame].
  apply andb_true_iff in Hb as [_ Hh%negb_true_iff]. destruct Hc as [(k & ks & Hk) Hin _]. cbn in Hk, Hin.
  split; cbn; [| |done].
  - exists k, ks. destruct (check_hwm_exact k ks Hk) as [He _]. destruct Hk. split; try done.
    + intros ? [= <-]. exact (c_written0 p eq_refl).
    + intros ? [= <-]. exact (c_hwm0 p eq_refl).
    + intros ? [= <-]. exact (c_peers0 p eq_refl).
    + intros ? [= <-] _ _. destruct (decide (Hx ≤ 0 ∨ nw pu - k < Hx)) as [H|H]; [|lia].
      apply He in H. congruence.
  - rewrite app_nil_r in *. by eapply ctl_frame_reader.
Qed.

Lemma nw_snoc l m : nw (l ++ [m]) = nw l + b2z (counts_w m).
Proof. unfold nw. rewrite count_app. cbn. lia. Qed.
Lemma nr_snoc l m : nr (l ++ [m]) = nr l + b2z (counts_r m).
Proof. unfold nr. rewrite count_app. cbn. lia. Qed.

Lemma ctl_write m : is_delimiter m = false → ctl_ok (write m).
Proof.
  intros Hd. destruct (may_write p) eqn:Hw.
  - assert (Hst : out_active p = true ∧ state p = active ∧ check_hwm p = true).
    { unfold may_write in Hw. by apply andb_true_iff in Hw as [[? ?%bool_decide_eq_true]%andb_true_iff ?]. }
    destruct Hst as (Hoa & Hst & Hh). destruct (inv_out_some _ _ _ _ _ Hi) as [id Ho]; [by unfold acked; rewrite Hst|].
    destruct (inv_out _ _ _ _ _ Hi id Ho) as (s & Hs & _).
    eapply ctl_ok_eq; [by apply (write_eq ev m p t [] pu ta id s)|].
    assert (Hcw : counts_w m = counted m) by (unfold counts_w; by rewrite Hd, andb_true_r).
    destruct (counted m) eqn:Hcm; unfold wrote; rewrite Hcm.
    + destruct Hc as [(k & ks & Hk) Hin _]. cbn in Hk, Hin. destruct (check_hwm_exact k ks Hk) as [He _].
      split; cbn; [|rewrite app_nil_r in *; by eapply ctl_frame_reader|done].
      exists k, ks. destruct Hk. split; rewrite ?nw_snoc, ?Hcw; cbn [b2z]; try done.
      * intros ? [= <-]. cbn. by rewrite (c_written0 p eq_refl), u64_succ.
      * intros ? [= <-]. exact (c_hwm0 p eq_refl).
      * intros ? [= <-]. exact (c_peers0 p eq_refl).
      * intros Hpos. apply He in Hh. lia.
      * intros ? [= <-] _. cbn. congruence.
    + apply ctls_frame; try done. rewrite nw_snoc, Hcw. cbn. lia.
  - eapply ctl_ok_eq; [by apply write_full|]. by eapply ctl_check_write, check_write_eq.
Qed.

Lemma nw_partial l : Forall (λ m, is_more m = true) l → nw l = 0.
Proof.
  induction 1 as [|m l Hm _ IH]; [done|]. unfold nw in *. cbn. rewrite IH. unfold counts_w, counted. by rewrite Hm.
Qed.

Lemma nw_unput s : live t !! o = Some s → Forall (λ m, is_more m = true) (partial s) →
  nw (unput (length (partial s)) pu) = nw pu.
Proof.
  intros Hs Hm. destruct Hf as [[H1 _ _ _ _ _ _ _] _ _ _ _]. cbn in H1. rewrite (H1 s Hs), unput_content.
  unfold content, rolled. cbn. rewrite app_nil_r, !nw_app, (nw_partial (partial s) Hm). lia.
Qed.

Lemma out_is_o id : out_pipe p = Some id → id = o.
Proof. by apply (fl_self _ _ _ _ _ _ _ _ _ Hf p). Qed.

Lemma ctl_rollback : ctl_ok rollback.
Proof.
  destruct (out_pipe p) as [id|] eqn:Ho.
  - destruct (inv_out _ _ _ _ _ Hi id Ho) as (s & Hs & Hm). pose proof (out_is_o id Ho) as ->.
    eapply ctl_ok_eq; [by apply (rollback_eq ev p t [] pu ta o s)|]. apply ctls_frame; try done. by apply nw_unput.
  - eapply ctl_ok_eq; [by apply rollback_none|]. by apply ctls_frame.
Qed.

Lemma ctl_flush : ctl_ok flush.
Proof.
  destruct (out_pipe p) as [id|] eqn:Ho.
  - destruct (inv_out _ _ _ _ _ Hi id Ho) as (s & Hs & Hm).
    eapply ctl_ok_eq; [apply (flush_eq ev p t [] pu ta id s); [done..|]|].
    { intros H. pose proof (p_acked _ _ (inv_pipe_ok _ _ _ _ _ Hi)) as Ha. unfold acked in Ha. rewrite H, Ho in Ha.
      by destruct Ha as [_ Ha]; specialize (Ha eq_refl). }
    apply ctls_frame; try done. by destruct (s_flush s).1.
  - eapply ctl_ok_eq; [by apply flush_none|]. by apply ctls_frame.
Qed.

Lemma ctl_set_nodelay : ctl_ok set_nodelay.
Proof. eapply ctl_ok_eq; [done|]. by apply ctls_frame. Qed.

Lemma ctl_terminate d : ctl_ok (terminate d).
Proof.
  destruct (terminating (state p)) eqn:Hterm.
  { eapply ctl_ok_eq; [by apply terminate_done|]. by apply ctls_frame. }
  assert (Ha : acked p = false) by (unfold acked; by destruct (state p)).
  destruct (inv_out_some _ _ _ _ _ Hi Ha) as [id Ho].
  destruct (inv_out _ _ _ _ _ Hi id Ho) as (s & Hs & Hm). pose proof (out_is_o id Ho) as ->.
  assert (Hend : nw (unput (length (partial s)) pu ++ [init_delimiter]) = nw pu) by (by rewrite nw_snoc, nw_unput, Z.add_0_r).
  assert (Hwk : acts (wake s) = [] ∧ hwmc (wake s) = []) by (unfold wake; by destruct (asleep s)).
  destruct (decide (state p = waiting_for_delimiter)) as [Hw|Hw]; [destruct d|].
  - eapply ctl_ok_eq; [by apply (terminate_wait ev p t [] pu ta o s)|]. apply ctls_frame; try done.
    cbn. by rewrite Hw.
  - eapply ctl_ok_eq; [by apply (terminate_nodelay ev p t [] pu ta o s)|]. apply ctls_frame; try done. by apply nw_unput.
  - eapply ctl_ok_eq; [apply (terminate_request ev d p t [] pu ta o s); [|done..]|].
    { destruct (state p); try done; auto. }
    by apply ctls_frame.
Qed.

Lemma delimited_frame : msgs_written (delimited p) = msgs_written p ∧ hwm (delimited p) = hwm p ∧
  peers_msgs_read (delimited p) = peers_msgs_read p ∧ msgs_read (delimited p) = msgs_read p ∧
  lwm (delimited p) = lwm p ∧ state (delimited p) ≠ active ∧ acts (delimited_cmds p) = [] ∧ hwmc (delimited_cmds p) = [].
Proof. unfold delimited, delimited_cmds. by case_decide. Qed.

Lemma nr_delim l m : is_delimiter m = true → nr (l ++ [m]) = nr l.
Proof. intros Hd. rewrite nr_snoc. unfold counts_r, counts_w. rewrite Hd, andb_false_r. cbn. lia. Qed.

Lemma nr_credentials l l' : nr (l ++ credentials l') = nr l.
Proof.
  unfold nr. rewrite count_app. induction (credentials_all l') as [|m k Hm _ IH]; cbn; [lia|].
  unfold counts_r at 2. rewrite Hm, andb_false_r. cbn. exact IH.
Qed.

Lemma ctl_check_read : ctl_ok check_read.
Proof.
  destruct (in_active p && readable (state p)) eqn:Hr.
  2: { eapply ctl_ok_eq; [by apply check_read_off|]. by apply ctls_frame. }
  destruct (inv_in _ _ _ _ _ Hi) as [s Hs]. destruct (flushed s) as [|m l] eqn:Hfl.
  - eapply ctl_ok_eq; [by apply (check_read_empty ev p t [] pu ta s)|]. by apply ctls_frame.
  - pose proof (check_read_eq ev p t [] pu ta s m l Hr Hs Hfl) as Heq. destruct (is_delimiter m) eqn:Hd.
    + destruct delimited_frame as (H1 & H2 & H3 & H4 & H5 & H6 & H7).
      eapply ctl_ok_eq; [exact Heq|]. apply ctls_frame; try done. by apply nr_delim.
    + eapply ctl_ok_eq; [exact Heq|]. by apply ctls_frame.
Qed.

(** A message that counts is read: the reader may tell the peer. *)
Lemma ctl_read_data m ta' t' : nr ta' = nr ta → is_credential m = false → is_delimiter m = false →
  ctls (Env (Some (count_read m p)) t' (activation (count_read m p)) ev pu (ta' ++ [m])).
Proof.
  intros Hta Hcr Hd. assert (Hcm : counts_r m = counted m) by (unfold counts_r, counts_w; by rewrite Hd, Hcr, !andb_true_r).
  destruct Hc as [Hout (k & ks & Hk) _]. cbn in Hout, Hk. rewrite app_nil_r in Hk.
  set (q := count_read m p). set (n' := nr (ta' ++ [m])).
  assert (Hn' : n' = nr ta + b2z (counted m)) by (unfold n'; by rewrite nr_snoc, Hta, Hcm).
  assert (Hq : msgs_written q = msgs_written p ∧ hwm q = hwm p ∧ peers_msgs_read q = peers_msgs_read p ∧
    lwm q = lwm p ∧ state q = state p ∧ out_active q = out_active p ∧ msgs_read q = u64 n').
  { rewrite Hn'. pose proof (c_read _ _ _ _ _ _ _ _ Hk p eq_refl) as Hrd. unfold q, count_read.
    destruct (counted m); cbn; repeat split; rewrite ?Hrd; [by rewrite u64_succ|by rewrite Z.add_0_r]. }
  destruct Hq as (Hq1 & Hq2 & Hq3 & Hq4 & Hq5 & Hq6 & Hq7). split; cbn;
    [| |unfold activation; by destruct ((0 <? lwm _) && _)].
  { eapply ctl_frame; [exact Hout|done..| |done|done]. by rewrite Hq5, Hq6. }
  fold q n'. destruct Hk. assert (Hle : nr ta ≤ n') by (rewrite Hn'; destruct (counted m); cbn; lia).
  unfold activation. rewrite Hq4, Hq7. destruct ((0 <? lwm p) && (u64 n' mod lwm p =? 0)) eqn:Hact.
  - apply andb_true_iff in Hact as [Hl%Z.ltb_lt Hz%Z.eqb_eq].
    exists k, (ks ++ [n']). split; fold n'; try done.
    + intros ? [= <-]. by rewrite Hq7.
    + intros ? [= <-]. rewrite Hq4. by apply c_lwm0.
    + rewrite acts_app, c_acts0, fmap_app. done.
    + apply ascending_snoc. by eapply ascending_mono.
    + intros ? Hpos [= <-]. rewrite latest_snoc, Hq4. pose proof (Z.mod_pos_bound (u64 n') (lwm p) Hl). lia.
  - rewrite app_nil_r. exists k, ks. split; fold n'; try done.
    + intros ? [= <-]. by rewrite Hq7.
    + intros ? [= <-]. rewrite Hq4. by apply c_lwm0.
    + by eapply ascending_mono.
    + intros ? Hpos [= <-]. rewrite Hq4. specialize (c_gap0 p Hpos eq_refl).
      assert (Hl : 0 < lwm p).
      { rewrite (c_lwm0 p eq_refl). pose proof (Z.quot_le_lower_bound (Hy + 1) 2 1 ltac:(lia) ltac:(lia)). lia. }
      apply andb_false_iff in Hact as [Hact%Z.ltb_ge|Hact%Z.eqb_neq]; [lia|].
      rewrite Hn' in *. destruct (counted m); cbn [b2z] in *; [|rewrite Z.add_0_r; lia].
      destruct (u64_mod_succ (nr ta) (lwm p) Hl) as [Hz|Hz]; [done|]. lia.
Qed.

Lemma ctl_read : ctl_ok read.
Proof.
  destruct (in_active p && readable (state p)) eqn:Hr.
  2: { eapply ctl_ok_eq; [by apply read_off|]. by apply ctls_frame. }
  destruct (inv_in _ _ _ _ _ Hi) as [s Hs].
  pose proof (read_eq ev p t [] pu ta s Hr Hs) as Heq. cbn zeta in Heq.
  destruct (after (flushed s)) as [|m l] eqn:Haf.
  - eapply ctl_ok_eq; [exact Heq|]. apply ctls_frame; try done. apply nr_credentials.
  - destruct (is_delimiter m) eqn:Hd; (eapply ctl_ok_eq; [exact Heq|]).
    + destruct delimited_frame as (H1 & H2 & H3 & H4 & H5 & H6 & H7). apply ctls_frame; try done.
      rewrite nr_delim by done. apply nr_credentials.
    + apply ctl_read_data; [apply nr_credentials|by eapply after_head|done].
Qed.
End ops.

(** *** The handlers *)

Section handlers.
Context (py : option pipe) (ix iy : list command) (puy tay : list msg) (Hx Hy : Z).
Context (p : pipe) (t : store) (ev : list event) (pu ta : list msg).
Let e0 : env := Env (Some p) t [] ev pu ta.

Lemma ctl_handler c p' t' cs ev' : ctls py (c :: ix) iy puy tay Hx Hy e0 → acts [c] = [] →
  msgs_written p' = msgs_written p → hwm p' = hwm p → peers_msgs_read p' = peers_msgs_read p →
  msgs_read p' = msgs_read p → lwm p' = lwm p →
  (state p' = active → out_active p' = false → state p = active ∧ out_active p = false) →
  acts cs = [] ∧ hwmc cs = [] → ctls py ix iy puy tay Hx Hy (Env (Some p') t' cs ev' pu ta).
Proof.
  intros [H1 H2 _] Hc Hw Hh Hp Hr Hl Hs [Hcs Hcs']. cbn in H1, H2. rewrite app_nil_r in H2. split; cbn; [| |done].
  - eapply ctl_frame; [exact H1|done..|]. change (acts ix = acts ([c] ++ ix)). by rewrite acts_app, Hc.
  - eapply ctl_frame_reader; [exact H2|done..|]. by rewrite acts_app, Hcs, app_nil_r.
Qed.

Lemma ctl_activate_write n r e' : ctls py (CActivateWrite n :: ix) iy puy tay Hx Hy e0 → sink p = true →
  process_activate_write n e0 = Some (r, e') → ctls py ix iy puy tay Hx Hy e'.
Proof.
  intros [(k & ks & Hk) H2 _] Hsk. cbn in Hk, H2. rewrite app_nil_r in H2.
  assert (Hp' : ∀ p' ev', msgs_written p' = msgs_written p → hwm p' = hwm p → peers_msgs_read p' = n →
    msgs_read p' = msgs_read p → lwm p' = lwm p → (state p' = active → out_active p' = true) →
    ctls py ix iy puy tay Hx Hy (Env (Some p') t [] ev' pu ta)).
  { intros p' ev' Hw Hh Hp Hr Hl Ha. split; cbn; [|rewrite app_nil_r; by eapply ctl_frame_reader|done].
    destruct Hk. destruct ks as [|k' ks]; [done|]. cbn in c_acts0. injection c_acts0 as Hn Hacts.
    destruct c_asc0 as [Hkk' Hasc]. exists k', ks. split; try done.
    - intros ? [= <-]. rewrite Hw. by apply c_written0.
    - intros ? [= <-]. rewrite Hh. by apply c_hwm0.
    - intros ? [= <-]. by rewrite Hp.
    - lia.
    - intros Hpos. specialize (c_full0 Hpos). lia.
    - intros ? [= <-] H3 H4. rewrite Ha in H4; done. }
  unfold e0, process_activate_write, mbind, M_bind, this. cbn.
  destruct (negb (out_active p) && bool_decide (state p = active)) eqn:Ha; cbn.
  - unfold notify. cbn. rewrite Hsk. intros [= _ <-]. by apply Hp'.
  - intros [= _ <-]. apply Hp'; try done. cbn. intros Hst. rewrite bool_decide_eq_true_2 in Ha by done.
    by destruct (out_active p).
Qed.

Lemma ctl_command c r e' : inv (Some p) py (c :: ix) iy t → ctls py (c :: ix) iy puy tay Hx Hy e0 →
  hic [c] = [] → hwmc [c] = [] → process_command c e0 = Some (r, e') → ctls py ix iy puy tay Hx Hy e'.
Proof.
  intros Hi Hc Hh1 Hh2. destruct (inv_pipe_ok _ _ _ _ _ Hi) as [Ks Kb _ _].
  destruct c; cbn [process_command]; [|by apply ctl_activate_write|done| | |done]; unfold e0.
  - unfold process_activate_read, mbind, M_bind, this. cbn.
    destruct (negb (in_active p) && readable (state p)); cbn; [unfold notify; cbn; rewrite Ks|]; intros [= _ <-];
      by eapply ctl_handler.
  - unfold process_pipe_term, send_term_ack, mbind, M_bind, this. cbn.
    destruct (state p) eqn:Hst; cbn; try done; [destruct (delay p); cbn|..]; intros [= _ <-];
      eapply ctl_handler; first [exact Hc|done].
  - destruct (inv_in _ _ _ _ _ Hi) as [s Hs].
    assert (Hix : ix = []) by apply (h_ord _ _ _ _ (i_x _ _ _ _ _ Hi)).
    destruct (ack_cases p py iy _ ltac:(rewrite Hix in Hi; exact (i_phase _ _ _ _ _ Hi)) eq_refl) as (Hterm & _).
    rewrite (process_pipe_term_ack_eq p t [] ev pu ta s Ks Hterm Hs). intros [= _ <-].
    destruct Hc as [H1 H2 _]. cbn in H1, H2. split; cbn; [| |by case_decide].
    + by eapply ctl_dead.
    + eapply ctl_dead; [exact H2|]. rewrite !acts_app. by case_decide.
Qed.
End handlers.

(** ** The pair *)

(** The watermarks stay as they are. *)
Definition steady (a : action) : Prop :=
  match a with AHiccup | ASetHwms _ _ | ASetHwmsBoost _ _ | ASendHwms _ _ => False | _ => True end.

Lemma steady_no_hiccup a : steady a → no_hiccup a.
Proof. by destruct a. Qed.

Definition ctls_of (hwms : bool → Z) (s : bool) (w : world) : Prop :=
  let y := get (negb s) w in
  ctls (ep y) (inbox (get s w)) (inbox y) (s_put y) (s_taken y) (hwms s) (hwms (negb s)) (env_of s w).

Definition wctl (hwms : bool → Z) (w : world) : Prop := (∀ s, ctls_of hwms s w) ∧ ∀ s, hwmc (inbox (get s w)) = [].

Lemma call_wctl {A} hwms s inb (m : M A) w r w' :
  wctl hwms w → hwmc inb = [] →
  (∀ r e', m (env_of s w) = Some (r, e') →
     ctls (ep (get (negb s) w)) inb (inbox (get (negb s) w)) (s_put (get (negb s) w)) (s_taken (get (negb s) w))
       (hwms s) (hwms (negb s)) e') →
  call s inb m w = Some (r, w') → wctl hwms w'.
Proof.
  intros [_ Hh] Hinb Hm Hc. unfold call in Hc. fold (env_of s w) in Hc.
  destruct (m (env_of s w)) as [[r1 e]|] eqn:He; [|done]. cbn in Hc.
  destruct (zmq_assert _) as [u|]; [|done]. cbn in Hc. injection Hc as <- <-.
  destruct (Hm r1 e eq_refl) as [Ho Hin Hhw].
  assert (Hgs : ∀ t x y, get s (build s t x y) = x) by (by destruct s).
  assert (Hgn : ∀ t x y, get (negb s) (build s t x y) = y) by (by destruct s).
  split; intros b; destruct (decide (b = s)) as [->|Hb].
  - unfold ctls_of, env_of. rewrite Hgs, Hgn. cbn. split; cbn; [done|by rewrite app_nil_r|done].
  - replace b with (negb s) by (by destruct s, b). unfold ctls_of, env_of. rewrite negb_involutive, Hgs, Hgn.
    cbn. split; cbn; [done|by rewrite app_nil_r|done].
  - by rewrite Hgs.
  - replace b with (negb s) by (by destruct s, b). rewrite Hgn. cbn. by rewrite hwmc_app, Hhw, Hh.
Qed.

Lemma delivered_wctl hwms s m w : wctl hwms w → wctl hwms (delivered s m w).
Proof.
  intros [H1 H2]. split; intros b; [specialize (H1 b)|specialize (H2 b)];
    destruct s, b; unfold ctls_of, env_of, delivered in *; exact H1 || exact H2.
Qed.

Lemma step_wctl hwms s a w w' : (∀ b, hwms b < 2 ^ 32) → wflow s w (got (get s w)) → wctl hwms w →
  allowed s a w → steady a → step s a w = Some w' → wctl hwms w'.
Proof.
  intros Hsm [Hi H1 _ H3] Hc Ha Hst Hstep. pose proof (proj1 (winv_get s w) Hi) as Hiv. unfold allowed in Ha.
  assert (Hcall : ∀ A (m : M A) inb, hwmc inb = [] → snd <$> call s inb m w = Some w' →
    (∀ r e', m (env_of s w) = Some (r, e') →
       ctls (ep (get (negb s) w)) inb (inbox (get (negb s) w)) (s_put (get (negb s) w)) (s_taken (get (negb s) w))
         (hwms s) (hwms (negb s)) e') → wctl hwms w').
  { intros A m inb Hinb Hcl Hm. destruct (call s inb m w) as [[r w1]|] eqn:Hw1; [|done]. injection Hcl as ->.
    by eapply call_wctl. }
  destruct (ep (get s w)) as [p|] eqn:Hp.
  2: { assert (Hin : inbox (get s w) = []) by (by apply (h_dead _ _ _ _ (i_x _ _ _ _ _ Hiv))).
       destruct a; cbn [step may] in Ha, Hstep; rewrite ?Hin in Hstep; [..|by injection Hstep as <-]; exfalso;
         repeat match goal with
         | H : _ ∧ _ |- _ => destruct H
         | H : ∃ _, _ |- _ => destruct H
         | H : is_Some None |- _ => by destruct H
         end; try done. }
  assert (He : env_of s w = Env (Some p) (st w) [] (s_events (get s w)) (s_put (get s w)) (s_taken (get s w)))
    by (unfold env_of; by rewrite Hp).
  pose proof (proj1 Hc s) as Hcs. pose proof (proj2 Hc s) as Hhw. unfold ctls_of in Hcs. unfold flows_at in H1.
  rewrite He in H1, Hcs, Hcall. specialize (Hsm s). pose proof (pid_ne s) as Hne.
  destruct a; cbn [step] in Hstep; cbn [may] in Ha; try done; try (eapply Hcall; [exact Hhw|exact Hstep|]).
  - eapply ctl_check_read; eassumption.
  - destruct (call s (inbox (get s w)) read w) as [[r w1]|] eqn:Hcl; [|done]. cbn in Hstep. injection Hstep as <-.
    apply delivered_wctl. eapply call_wctl; [exact Hc|exact Hhw| |exact Hcl]. rewrite He. eapply ctl_read; eassumption.
  - eapply ctl_check_write; eassumption.
  - destruct Ha as [_ Hd]. eapply ctl_write; eassumption.
  - eapply ctl_rollback; eassumption.
  - eapply ctl_flush; eassumption.
  - eapply ctl_terminate; eassumption.
  - eapply ctl_set_nodelay; eassumption.
  - destruct (inbox (get s w)) as [|c l] eqn:Hin; [by injection Hstep as <-|].
    change (hwmc (c :: l)) with (hwmc ([c] ++ l)) in Hhw. rewrite hwmc_app in Hhw. apply app_nil in Hhw as [Hhc Hhl].
    pose proof (H3 s) as Hh. rewrite Hin in Hh. change (hic (c :: l)) with (hic ([c] ++ l)) in Hh.
    rewrite hic_app in Hh. apply app_nil in Hh as [Hh _].
    eapply Hcall; [exact Hhl|exact Hstep|]. intros r e' Hcm. by eapply ctl_command.
Qed.

(** The watermarks of a new pair: [hwms true] bounds what the left endpoint
    writes. *)
Definition marks (hwm0 hwm1 : Z) (s : bool) : Z := if s then hwm0 else hwm1.

Lemma start_wctl hwm0 hwm1 w0 : start hwm0 hwm1 = Some w0 →
  wctl (marks hwm0 hwm1) w0 ∧ ∀ s, marks hwm0 hwm1 s < 2 ^ 32.
Proof.
  intros Hs. unfold start, pipepair, pipe_new in Hs.
  destruct (compute_lwm hwm1) as [l1|] eqn:H1; [|done]. cbn in Hs.
  destruct (compute_lwm hwm0) as [l0|] eqn:H0; [|done]. cbn in Hs. injection Hs as <-.
  assert (Hl : ∀ h l, compute_lwm h = Some l → l = Z.quot (h + 1) 2 ∧ h < 2 ^ 32).
  { intros h l. unfold compute_lwm, add_int. destruct (_ && _) eqn:Hb; [|done]. cbn. intros [= <-].
    apply andb_true_iff in Hb. split; [done|]. lia. }
  destruct (Hl _ _ H0) as [-> Hs0]. destruct (Hl _ _ H1) as [-> Hs1].
  assert (Hctl : ∀ h p q, msgs_written p = 0 → peers_msgs_read p = 0 → hwm p = h → out_active p = true →
    msgs_read q = 0 → lwm q = Z.quot (h + 1) 2 → ctl (Some p) (Some q) [] [] [] h).
  { intros h p q Hw Hpr Hh Ha Hr Hlw. exists 0, []. split; try done; try (by intros ? [= <-]); try (cbn; lia).
    - intros ? [= <-]. congruence. }
  split; [|by intros []]. split; [|by intros []]. intros []; split; cbn; try done; by apply Hctl.
Qed.

Lemma reach_wctl hwm0 hwm1 w0 w : start hwm0 hwm1 = Some w0 → reach steady w0 w → wctl (marks hwm0 hwm1) w.
Proof.
  intros Hs. destruct (start_wctl _ _ _ Hs) as [H0 Hsm].
  induction 1 as [|w s a w' Hr IH Ha Hok Hstep]; [done|].
  eapply step_wctl; [exact Hsm| |exact IH|exact Ha|exact Hok|exact Hstep].
  eapply (reach_wflow steady); [apply steady_no_hiccup|exact Hs|exact Hr].
Qed.

(** C26. While the watermarks stay as they were created, a high watermark above zero
    bounds the messages in a pipe, in every interleaving and however often the
    64-bit counters wrap around: the whole messages (other than routing ids) put
    into the pipe and not taken yet are never more than the watermark. *)
Theorem pipe_hwm hwm0 hwm1 w0 w s :
  start hwm0 hwm1 = Some w0 → reach steady w0 w → 0 < marks hwm0 hwm1 s →
  ∀ sp, live (st w) !! pid s = Some sp → nw (content sp) ≤ marks hwm0 hwm1 s.
Proof.
  intros Hs Hr Hpos sp Hsp. destruct (reach_wctl _ _ _ _ Hs Hr) as [Hc _].
  destruct (Hc s) as [(k & ks & []) _ _]. cbn in *.
  pose proof (reach_wflow steady _ _ _ _ s steady_no_hiccup Hs Hr) as [_ [[H1 _ _ _ _ _ _ _] _ _ _ _] _ _].
  cbn in H1. rewrite (H1 sp Hsp), nw_app in c_full0. specialize (c_full0 Hpos).
  pose proof (ascending_le _ _ _ c_asc0). pose proof (nr_le_nw (s_taken (get (negb s) w))). lia.
Qed.

(** The messages a writer counted that the reader does not count. *)
Definition skipped (l : list msg) : Z := nw l - nr l.

(** While the watermarks stay as they were created, a writer is never left
    blocked by the watermark: an active endpoint that refuses to write has an
    activation on its way to it, or more than half of the high watermark of
    messages waits to be read (and the reader sends an activation after each
    half).  The messages with credentials count as never read: each one for good
    takes one place. *)
Theorem pipe_not_stuck hwm0 hwm1 w0 w s p q :
  start hwm0 hwm1 = Some w0 → reach steady w0 w →
  let x := get s w in
  let y := get (negb s) w in
  ep x = Some p → ep y = Some q → state p = active → may_write p = false → acts (inbox x) = [] →
  ∀ sp, live (st w) !! pid s = Some sp →
  marks hwm0 hwm1 s / 2 < nw (content sp) + skipped (s_taken y).
Proof.
  intros Hs Hr x y Hp Hq Hst Hw Ha sp Hsp. subst x y. destruct (reach_wctl _ _ _ _ Hs Hr) as [Hc _].
  destruct (start_wctl _ _ _ Hs) as [_ Hsm].
  destruct (Hc s) as [(k & ks & Hk) _ _]. cbn in Hk.
  pose proof (reach_wflow steady _ _ _ _ s steady_no_hiccup Hs Hr) as [_ Hfl _ _].
  unfold flows_at, env_of in Hfl. pose proof (f_fifo _ _ _ _ _ _ (fl_out _ _ _ _ _ _ _ _ _ Hfl) sp Hsp) as Hput.
  cbn in Hput. rewrite Hp in Hfl, Hk.
  destruct (check_hwm_exact (pid s) (pid (negb s)) _ _ _ _ _ (marks hwm0 hwm1 s) (pid_ne s) p _ _ _ _ _ Hfl (Hsm s) k ks Hk) as [He _].
  rewrite Hq in Hk. destruct Hk.
  assert (Hfull : 0 < marks hwm0 hwm1 s ∧ marks hwm0 hwm1 s ≤ nw (s_put (get s w)) - k).
  { unfold may_write in Hw. rewrite bool_decide_eq_true_2, andb_true_r in Hw by done.
    destruct (out_active p) eqn:Hoa; [|by apply (c_blocked0 p)]. cbn in Hw.
    destruct (decide (marks hwm0 hwm1 s ≤ 0 ∨ nw (s_put (get s w)) - k < marks hwm0 hwm1 s)) as [H|H]; [|lia].
    apply He in H. congruence. }
  destruct Hfull as [Hpos Hfull]. rewrite Ha in c_acts0. destruct ks; [|done].
  specialize (c_gap0 q Hpos eq_refl). cbn in c_gap0. rewrite (c_lwm0 q eq_refl) in c_gap0.
  rewrite Hput, nw_app in Hfull. unfold skipped. set (H := marks hwm0 hwm1 s) in *.
  rewrite Z.quot_div_nonneg in c_gap0 by lia.
  assert (Hhalf : (H + 1) / 2 = H - H / 2) by (pose proof (Z.div_mod H 2); pose proof (Z.div_mod (H + 1) 2);
    pose proof (Z.mod_pos_bound H 2); pose proof (Z.mod_pos_bound (H + 1) 2); lia).
  rewrite Hhalf in c_gap0. assert (0 < H - H / 2) by (pose proof (Z.div_lt H 2); lia).
  pose proof (Z.mod_pos_bound (u64 (nr (s_taken (get (negb s) w)))) (H - H / 2) ltac:(lia)). lia.
Qed.

(** *** Runs *)

Definition ex_fill : list (bool * action) :=
  [(true, AWrite (ex_msg 7)); (true, AWrite (ex_msg 8)); (true, AFlush); (true, AWrite (ex_msg 9))].

Lemma pipe_hwm_witness :
  ∃ w0 w sp, start 2 2 = Some w0 ∧ play ex_fill w0 = Some w ∧ live (st w) !! pid true = Some sp ∧
    content sp = [ex_msg 7; ex_msg 8] ∧ nw (content sp) ≤ 2.
Proof.
  exists ex_start. destruct (play ex_fill ex_start) as [w|] eqn:Hp; [|by vm_compute in Hp].
  assert (Hs : start 2 2 = Some ex_start) by (vm_compute; reflexivity).
  assert (Hr : reach steady ex_start w).
  { apply (play_reach _ ex_fill ex_start ex_start); [constructor|exact Hp|repeat constructor]. }
  destruct (live (st w) !! pid true) as [sp|] eqn:Hsp.
  2: { vm_compute in Hp. injection Hp as <-. by vm_compute in Hsp. }
  exists w, sp. split; [exact Hs|]. split; [done|]. split; [done|]. split.
  - vm_compute in Hp. injection Hp as <-. vm_compute in Hsp. by injection Hsp as <-.
  - apply (pipe_hwm 2 2 ex_start w true Hs Hr); [done|exact Hsp].
Defined.

Lemma pipe_not_stuck_witness :
  ∃ w0 w sp, start 2 2 = Some w0 ∧ play ex_fill w0 = Some w ∧ live (st w) !! pid true = Some sp ∧
    (may_write <$> ep (left w)) = Some false ∧ 2 / 2 < nw (content sp) + skipped (s_taken (right w)).
Proof.
  exists ex_start. destruct (play ex_fill ex_start) as [w|] eqn:Hp; [|by vm_compute in Hp].
  assert (Hs : start 2 2 = Some ex_start) by (vm_compute; reflexivity).
  assert (Hr : reach steady ex_start w).
  { apply (play_reach _ ex_fill ex_start ex_start); [constructor|exact Hp|repeat constructor]. }
  destruct (live (st w) !! pid true) as [sp|] eqn:Hsp.
  2: { vm_compute in Hp. injection Hp as <-. by vm_compute in Hsp. }
  destruct (ep (left w)) as [p|] eqn:Hl; [|vm_compute in Hp; injection Hp as <-; done].
  destruct (ep (right w)) as [q|] eqn:Hq; [|vm_compute in Hp; injection Hp as <-; done].
  assert (Hst : state p = active ∧ may_write p = false ∧ acts (inbox (left w)) = []).
  { vm_compute in Hp. injection Hp as <-. by injection Hl as <-. }
  destruct Hst as (Hst & Hw & Ha).
  exists w, sp. split; [exact Hs|]. split; [done|]. split; [done|]. split; [rewrite Hl; exact (f_equal Some Hw)|].
  exact (pipe_not_stuck 2 2 ex_start w true p q Hs Hr Hl Hq Hst Hw Ha sp Hsp).
Defined.
End PipeHwm.
