(* ===== verification/PipeFindings.v ===== *)
(** * Where a pair of pipes goes wrong

    Runs of [PipePair] that the theorems on pipes exclude by their hypotheses,
    each a defect of src/pipe.cpp; what happens is evaluated.  All start from
    [ex_start], a pair with high watermarks of 2, or from [start] with others. *)

From S2P Require Import Prelude Msg YPipe Pipe PipePair PipeFlow PipeHwm.

Module PipeFindings.
Import Pipe PipePair PipeFlow PipeHwm.

(** The state of both endpoints. *)
Definition states (w : world) : option pstate * option pstate := (state <$> ep (left w), state <$> ep (right w)).

(** No command is on its way. *)
Definition settled (w : world) : Prop := inbox (left w) = [] ∧ inbox (right w) = [].

(** The left endpoint asks for the termination; before the request arrives the
    right one calls [hiccup], which drops its inbound pipe with the delimiter. *)
Definition hiccup_acts : list (bool * action) :=
  [(true, ATerminate false); (false, AHiccup); (false, ADeliver); (true, ADeliver); (false, ARead)].

(** The right endpoint acknowledges; the left one deallocates itself; the right
    one's owner changes a watermark. *)
Definition gone_acts : list (bool * action) :=
  [(false, ASetNodelay); (true, ATerminate false); (false, ADeliver); (true, ADeliver)].

(** The right endpoint is in the middle of a message when the left one asks for the
    termination. *)
Definition ex_more (b : Z) : msg := Msg type_vsm more None (BVsm [b] 1) [] 0.
Definition leak_acts : list (bool * action) :=
  [(false, AWrite (ex_more 7)); (true, ATerminate false); (false, ADeliver); (false, ARead); (true, ADeliver)].

(** A message with credentials, as an engine writes before the first message. *)
Definition ex_credential : msg := Msg type_vsm credential None (BVsm [1] 1) [] 0.
Definition credential_acts : list (bool * action) :=
  [(true, AWrite ex_credential); (true, AFlush); (false, ARead)].

(** The left endpoint's watermark goes from 6 to 2 while messages are on their way,
    and its peer is told. *)
Definition lower_acts : list (bool * action) :=
  [(true, AWrite (ex_msg 1)); (true, AWrite (ex_msg 2)); (true, AFlush); (false, ARead); (false, ARead); (false, ARead);
   (true, ASetHwms 2 2); (true, ASendHwms 2 2); (false, ADeliver); (true, ACheckWrite)].

(** What can go wrong in a pipe.  A hiccup that crosses the peer's request for
    the termination loses the delimiter: with every command delivered and
    everything read, one endpoint waits for the delimiter and the other for its
    acknowledgement, and nothing is left to do.  [send_hwms_to_peer] does not look
    at the state: after the peer was deallocated it sends it a command all the
    same.  An endpoint in the middle of a message that acknowledges the
    termination drops its outbound pipe without rolling back: the parts written are
    deleted with the pipe and never closed.  The watermarks can block a pipe for
    good, with nothing in it and nothing on its way: a message with credentials is
    counted when it is written and not when it is read; a watermark that is
    lowered applies to the messages whose reading was not reported yet.  And the
    greatest watermark an option accepts, [INT_MAX], makes [compute_lwm]
    overflow. *)
Theorem pipe_defects :
  (∃ w, play hiccup_acts ex_start = Some w ∧ requested w ∧ settled w ∧
     states w = (Some term_req_sent1, Some waiting_for_delimiter) ∧ (∀ s a, ¬ busy s a w)) ∧
  (∃ w, play gone_acts ex_start = Some w ∧ states w = (None, Some term_ack_sent) ∧
     step false (ASendHwms 1 1) w = None) ∧
  (∃ w, play leak_acts ex_start = Some w ∧ states w = (None, Some term_ack_sent) ∧
     leaked (st w) = [ex_more 7]) ∧
  (∃ w0 w, start 1 1 = Some w0 ∧ play credential_acts w0 = Some w ∧ settled w ∧
     states w = (Some active, Some active) ∧ (content <$> live (st w) !! 1%nat) = Some [] ∧
     (may_write <$> ep (left w)) = Some false) ∧
  (∃ w0 w, start 6 6 = Some w0 ∧ play lower_acts w0 = Some w ∧ settled w ∧
     states w = (Some active, Some active) ∧ (content <$> live (st w) !! 1%nat) = Some [] ∧
     (may_write <$> ep (left w)) = Some false) ∧
  compute_lwm 2147483647 = None.
Proof.
  split; [|split; [|split; [|split; [|split; [|done]]]]].
  - eexists. split; [vm_compute; reflexivity|]. split; [by exists true|]. split; [done|]. split; [done|].
    intros [] []; cbn; naive_solver.
  - eexists. split; [vm_compute; reflexivity|]. by vm_compute.
  - eexists. split; [vm_compute; reflexivity|]. by vm_compute.
  - eexists _, _. split; [vm_compute; reflexivity|]. split; [vm_compute; reflexivity|]. by vm_compute.
  - eexists _, _. split; [vm_compute; reflexivity|]. split; [vm_compute; reflexivity|]. by vm_compute.
Qed.
End PipeFindings.
