(* ===== verification/SubMsg.v ===== *)
(** * Subscription messages

    What XPUB and XSUB see of a [msg_t] (src/msg.cpp): its bytes, its flags and
    its metadata.  Subscriptions travel upstream in two forms, an old-style
    message whose first byte is 1 (subscribe) or 0 (cancel), or a ZMTP 3.1
    command marked by the command flags, whose body follows the name. *)

From S2P Require Import Prelude Msg.

Module SubMsg.

(** One part of a message.  The metadata object is an identity; the flag
    [shared], of the storage of the content, is left out. *)
Record part := Part { p_data : list Z; p_flags : Z; p_meta : option Z }.

Definition p_size (m : part) : Z := Z.of_nat (length (p_data m)).
Definition is_more (m : part) : bool := negb (Z.land (p_flags m) Msg.more =? 0).
Definition is_subscribe (m : part) : bool := Z.land (p_flags m) CMD_TYPE_MASK =? Msg.subscribe.
Definition is_cancel (m : part) : bool := Z.land (p_flags m) CMD_TYPE_MASK =? Msg.cancel.

(** [command_body] and [command_body_size] of a SUBSCRIBE or CANCEL command;
    [None] when the message is shorter than the name (the size wraps around). *)
Definition command_body (m : part) : option (list Z) :=
  let n := if is_subscribe m then sub_cmd_name_size else cancel_cmd_name_size in
  if p_size m <? n then None else Some (drop (Z.to_nat n) (p_data m)).

(** The old-style message for a key. *)
Definition sub_blob (b : bool) (key : list Z) : list Z := (if b then 1 else 0) :: key.

(** The [int] an option value holds (little-endian, two's complement). *)
Definition int_value (optval : list Z) : Z :=
  let u := foldr (λ b acc, b + 256 * acc) 0 optval in
  if u <? 2 ^ 31 then u else u - 2 ^ 32.

(** The parts of one message. *)
Fixpoint one_message (ms : list part) : Prop :=
  match ms with
  | [] => False
  | m :: ms => if is_more m then one_message ms else ms = []
  end.

Lemma one_message_inj a : ∀ b x y, one_message a → one_message b → a ++ x = b ++ y → a = b.
Proof.
  induction a as [|m a IH]; [done|]. intros [|m' b] x y Ha Hb; [done|]. intros [= <- Heq]. cbn in Ha, Hb.
  destruct (is_more m); [|by subst]. f_equal. by eapply IH.
Qed.

(** ** What a message says to XPUB *)

Inductive event := Subscribe (key : list Z) | Cancel (key : list Z) | User.

(** The meaning of a message, for the messages that have one. *)
Definition meaning (m : part) : option event :=
  if is_subscribe m then k ← command_body m; Some (Subscribe k)
  else if is_cancel m then k ← command_body m; Some (Cancel k)
  else match p_data m with
       | [] => Some User
       | b :: k => if b =? 1 then Some (Subscribe k) else if b =? 0 then Some (Cancel k) else None
       end.

Definition event_key (e : event) : list Z :=
  match e with Subscribe k | Cancel k => k | User => [] end.

(** A message XPUB can take: it has a meaning and its key is made of bytes. *)
Definition upstream_ok (m : part) : Prop := ∃ e, meaning m = Some e ∧ bytes_ok (event_key e).

Lemma is_cancel_subscribe m : is_cancel m = true → is_subscribe m = false.
Proof. unfold is_cancel, is_subscribe. intros ->%Z.eqb_eq. done. Qed.
End SubMsg.
