(* ===== verification/Mechanism.v ===== *)
(** * Metadata of the security mechanisms

    [mechanism_t] (src/mechanism.cpp): the properties a peer announces at the end
    of the handshake, as bytes and back.  Sizes are [nat]; a C string is the list
    of its bytes, which ends before the first zero when its length is taken with
    [strlen].

    The theorems: the exact language [parse_metadata] accepts and what it stores,
    without a read out of bounds; what one side writes the other reads back. *)

From Stdlib Require Import String Ascii.
From S2P Require Import Prelude Wire.
#[local] Open Scope Z_scope.

Module Mechanism.

(** The bytes of a string literal. *)
Definition bytes_of (s : string) : list Z := map (λ c, Z.of_N (N_of_ascii c)) (list_ascii_of_string s).

(** The bytes up to the terminating zero. *)
Fixpoint cstr (l : list Z) : list Z :=
  match l with [] => [] | b :: l => if b =? 0 then [] else b :: cstr l end.

(** ** Socket types *)

Definition ZMQ_PAIR := 0.
Definition ZMQ_PUB := 1.
Definition ZMQ_SUB := 2.
Definition ZMQ_REQ := 3.
Definition ZMQ_REP := 4.
Definition ZMQ_DEALER := 5.
Definition ZMQ_ROUTER := 6.
Definition ZMQ_PULL := 7.
Definition ZMQ_PUSH := 8.
Definition ZMQ_XPUB := 9.
Definition ZMQ_XSUB := 10.
Definition ZMQ_STREAM := 11.

Definition names : list (list Z) :=
  map bytes_of ["PAIR"; "PUB"; "SUB"; "REQ"; "REP"; "DEALER"; "ROUTER"; "PULL"; "PUSH"; "XPUB"; "XSUB"; "STREAM"]%string.

Definition socket_type_string (socket_type : Z) : option (list Z) :=
  _ ← zmq_assert ((0 <=? socket_type) && (socket_type <? Z.of_nat (length names)));
  names !! Z.to_nat socket_type.

(** The names a peer's socket type may have. *)
Definition compatible (socket_type : Z) : list (list Z) :=
  map bytes_of
    (if socket_type =? ZMQ_REQ then ["REP"; "ROUTER"]%string
     else if socket_type =? ZMQ_REP then ["REQ"; "DEALER"]%string
     else if socket_type =? ZMQ_DEALER then ["REP"; "DEALER"; "ROUTER"]%string
     else if socket_type =? ZMQ_ROUTER then ["REQ"; "DEALER"; "ROUTER"]%string
     else if socket_type =? ZMQ_PUSH then ["PULL"]%string
     else if socket_type =? ZMQ_PULL then ["PUSH"]%string
     else if socket_type =? ZMQ_PUB then ["SUB"; "XSUB"]%string
     else if socket_type =? ZMQ_SUB then ["PUB"; "XPUB"]%string
     else if socket_type =? ZMQ_XPUB then ["SUB"; "XSUB"]%string
     else if socket_type =? ZMQ_XSUB then ["PUB"; "XPUB"]%string
     else if socket_type =? ZMQ_PAIR then ["PAIR"]%string
     else []).

Definition check_socket_type (socket_type : Z) (type : list Z) : bool := bool_decide (type ∈ compatible socket_type).

(** ** State *)

(** The options a mechanism uses; [app_metadata] in the order of the map. *)
Record options := Options {
  type : Z;
  routing_id : list Z;
  recv_routing_id : bool;
  app_metadata : list (list Z * list Z);
  zap_domain : list Z;
  zap_enforce_domain : bool;
  plain_username : list Z;
  plain_password : list Z }.

(** The data members. *)
Record mechanism := Mech {
  zmtp_properties : gmap (list Z) (list Z);
  zap_properties : gmap (list Z) (list Z);
  peer_id : list Z;              (* [_routing_id] *)
  user_id : list Z }.

Definition mechanism_new : mechanism := Mech ∅ ∅ [] [].

Definition set_peer_routing_id (id : list Z) (m : mechanism) : mechanism :=
  Mech (zmtp_properties m) (zap_properties m) id (user_id m).

(** [insert] and [emplace] keep the entry that is there. *)
Definition insert_or_emplace (k v : list Z) (d : gmap (list Z) (list Z)) : gmap (list Z) (list Z) :=
  match d !! k with Some _ => d | None => <[k := v]> d end.

Definition set_user_id (id : list Z) (m : mechanism) : mechanism :=
  Mech (zmtp_properties m) (insert_or_emplace (bytes_of "User-Id") id (zap_properties m)) (peer_id m) id.

(** ** Writing *)

Definition name_len (name : list Z) : option nat :=
  let n := length (cstr name) in
  _ ← zmq_assert (n <=? 255)%nat; Some n.

Definition property_len (name : list Z) (value_len : nat) : option nat :=
  n ← name_len name; Some (1 + n + 4 + value_len)%nat.

(** The bytes that are written. *)
Definition add_property (capacity : nat) (name value : list Z) : option (list Z) :=
  n ← name_len name;
  let total_len := (1 + n + 4 + length value)%nat in
  _ ← zmq_assert (total_len <=? capacity)%nat;
  _ ← zmq_assert (Z.of_nat (length value) <=? 0x7FFFFFFF);
  Some (u8 (Z.of_nat n) :: cstr name ++ put_uint32 (u32 (Z.of_nat (length value))) ++ value).

Definition has_identity (o : options) : bool := (type o =? ZMQ_REQ) || (type o =? ZMQ_DEALER) || (type o =? ZMQ_ROUTER).

(** [for (it = options.app_metadata.begin (); ...)], [done]: the bytes written. *)
Fixpoint add_app_metadata (capacity : nat) (done : list Z) (l : list (list Z * list Z)) : option (list Z) :=
  match l with
  | [] => Some done
  | (k, v) :: l =>
      p ← add_property (capacity - length done) k (cstr v);
      add_app_metadata capacity (done ++ p) l
  end.

Definition add_basic_properties (capacity : nat) (o : options) : option (list Z) :=
  socket_type ← socket_type_string (type o);
  p ← add_property capacity (bytes_of "Socket-Type") socket_type;
  p ← (if has_identity o
       then q ← add_property (capacity - length p) (bytes_of "Identity") (routing_id o); Some (p ++ q)
       else Some p);
  add_app_metadata capacity p (app_metadata o).

Fixpoint app_metadata_len (l : list (list Z * list Z)) : option nat :=
  match l with
  | [] => Some 0%nat
  | (k, v) :: l => a ← property_len k (length (cstr v)); b ← app_metadata_len l; Some (a + b)%nat
  end.

Definition basic_properties_len (o : options) : option nat :=
  socket_type ← socket_type_string (type o);
  meta_len ← app_metadata_len (app_metadata o);
  a ← property_len (bytes_of "Socket-Type") (length socket_type);
  b ← (if has_identity o then property_len (bytes_of "Identity") (length (routing_id o)) else Some 0%nat);
  Some (a + meta_len + b)%nat.

(** The message is made with the size of the prefix and [basic_properties_len],
    which is what is written ([basic_properties_fill]). *)
Definition make_command_with_basic_properties (prefix : list Z) (o : options) : option (list Z) :=
  len ← basic_properties_len o;
  p ← add_basic_properties len o;
  Some (prefix ++ p).

(** ** Reading *)

(** The first property and what follows it, or the number of bytes left when the
    loop breaks. *)
Definition next_property (ptr : list Z) : option ((list Z * list Z * list Z) + nat) :=
  name_length ← head ptr;
  let name_length := Z.to_nat name_length in
  let ptr := tail ptr in
  if (length ptr <? name_length)%nat then Some (inr (length ptr))
  else
    let name := take name_length ptr in
    let ptr := drop name_length ptr in
    if (length ptr <? 4)%nat then Some (inr (length ptr))
    else
      value_length ← get_uint32 ptr;
      let ptr := drop 4 ptr in
      if Z.of_nat (length ptr) <? value_length then Some (inr (length ptr))
      else Some (inl (name, take (Z.to_nat value_length) ptr, drop (Z.to_nat value_length) ptr)).

Definition property (name value : list Z) : rc := RcOk.

(** One property: what the loop does with it. *)
Definition store_property (o : options) (zap_flag : bool) (name value : list Z) (m : mechanism) : rc * mechanism :=
  let '(r, m) :=
    if bool_decide (name = bytes_of "Identity") && recv_routing_id o then (RcOk, set_peer_routing_id value m)
    else if bool_decide (name = bytes_of "Socket-Type") then
      (if check_socket_type (type o) value then RcOk else RcErr EINVAL, m)
    else (property name value, m) in
  if negb (bool_decide (r = RcOk)) then (r, m)
  else if zap_flag then (RcOk, Mech (zmtp_properties m) (insert_or_emplace name value (zap_properties m)) (peer_id m) (user_id m))
  else (RcOk, Mech (insert_or_emplace name value (zmtp_properties m)) (zap_properties m) (peer_id m) (user_id m)).

(** [while (bytes_left > 1)] *)
Fixpoint parse_loop (fuel : nat) (o : options) (zap_flag : bool) (ptr : list Z) (m : mechanism) : option (rc * mechanism) :=
  match fuel with
  | O => None
  | S fuel =>
      if (length ptr <=? 1)%nat then Some (if (0 <? length ptr)%nat then RcErr EPROTO else RcOk, m)
      else
        p ← next_property ptr;
        match p with
        | inr bytes_left => Some (if (0 <? bytes_left)%nat then RcErr EPROTO else RcOk, m)
        | inl (name, value, ptr) =>
            let '(r, m) := store_property o zap_flag name value m in
            if negb (bool_decide (r = RcOk)) then Some (r, m) else parse_loop fuel o zap_flag ptr m
        end
  end.

Definition parse_metadata (o : options) (zap_flag : bool) (ptr : list Z) (m : mechanism) : option (rc * mechanism) :=
  parse_loop (S (length ptr)) o zap_flag ptr m.

(** * Correctness *)

(** ** The language *)

Definition prop_bytes (p : list Z * list Z) : list Z :=
  Z.of_nat (length p.1) :: p.1 ++ put_uint32 (Z.of_nat (length p.2)) ++ p.2.

Definition prop_ok (p : list Z * list Z) : Prop := (length p.1 ≤ 255)%nat ∧ Z.of_nat (length p.2) < 2 ^ 32.

Definition metadata (ps : list (list Z * list Z)) : list Z := concat (map prop_bytes ps).

(** The beginning of a property, and how many bytes follow the last field that
    is complete. *)
Inductive incomplete : list Z → nat → Prop :=
| in_name n rest : Z.of_nat (length rest) < n → incomplete (n :: rest) (length rest)
| in_size name rest :
    (length name ≤ 255)%nat → (length rest < 4)%nat → incomplete (Z.of_nat (length name) :: name ++ rest) (length rest)
| in_value name len rest :
    (length name ≤ 255)%nat → 0 ≤ len < 2 ^ 32 → Z.of_nat (length rest) < len →
    incomplete (Z.of_nat (length name) :: name ++ put_uint32 len ++ rest) (length rest).

(** What may follow the properties, and the result it gives. *)
Inductive ending : list Z → rc → Prop :=
| e_end : ending [] RcOk
| e_byte b : ending [b] (RcErr EPROTO)
| e_cut rest left : (1 < length rest)%nat → incomplete rest left → ending rest (if (0 <? left)%nat then RcErr EPROTO else RcOk).

Fixpoint store_all (o : options) (zap_flag : bool) (ps : list (list Z * list Z)) (m : mechanism) : rc * mechanism :=
  match ps with
  | [] => (RcOk, m)
  | (n, v) :: ps =>
      let '(r, m) := store_property o zap_flag n v m in
      if negb (bool_decide (r = RcOk)) then (r, m) else store_all o zap_flag ps m
  end.

Lemma get_put_uint32 v rest : 0 ≤ v < 2 ^ 32 → get_uint32 (put_uint32 v ++ rest) = Some v.
Proof.
  intros Hv. rewrite <- (put_uint32_be v Hv) at 2. rewrite <- (get_uint32_be (put_uint32 v)); [done|done|apply put_uint32_ok].
Qed.

Lemma length_put_uint32 v : length (put_uint32 v) = 4%nat.
Proof. done. Qed.

(** The two tests on the number of bytes, and the cuts between them. *)
Lemma next_name n rest : Z.of_nat (length rest) < n → next_property (n :: rest) = Some (inr (length rest)).
Proof.
  intros Hn. unfold next_property. cbn [head tail mbind option_bind].
  assert ((length rest <? Z.to_nat n)%nat = true) as -> by (apply Nat.ltb_lt; lia). done.
Qed.

Lemma next_size name rest : next_property (Z.of_nat (length name) :: name ++ rest) =
  if (length rest <? 4)%nat then Some (inr (length rest))
  else
    value_length ← get_uint32 rest;
    if Z.of_nat (length (drop 4 rest)) <? value_length then Some (inr (length (drop 4 rest)))
    else Some (inl (name, take (Z.to_nat value_length) (drop 4 rest), drop (Z.to_nat value_length) (drop 4 rest))).
Proof.
  unfold next_property. cbn [head tail mbind option_bind]. rewrite Nat2Z.id, take_app_length, drop_app_length, length_app.
  by assert ((length name + length rest <? length name)%nat = false) as -> by (apply Nat.ltb_ge; lia).
Qed.

Lemma next_value name len rest : 0 ≤ len < 2 ^ 32 → next_property (Z.of_nat (length name) :: name ++ put_uint32 len ++ rest) =
  if Z.of_nat (length rest) <? len then Some (inr (length rest))
  else Some (inl (name, take (Z.to_nat len) rest, drop (Z.to_nat len) rest)).
Proof.
  intros Hl. rewrite next_size, length_app, length_put_uint32. change (4 + length rest <? 4)%nat with false.
  by rewrite get_put_uint32.
Qed.

Lemma next_prop p rest : prop_ok p → next_property (prop_bytes p ++ rest) = Some (inl (p.1, p.2, rest)).
Proof.
  intros [Hn Hv]. destruct p as [n v]. unfold prop_bytes. cbn [fst snd app] in *. rewrite <- !(assoc_L app).
  rewrite next_value by lia. rewrite length_app.
  assert ((Z.of_nat (length v + length rest) <? Z.of_nat (length v)) = false) as -> by (apply Z.ltb_ge; lia).
  by rewrite Nat2Z.id, take_app_length, drop_app_length.
Qed.

Lemma next_incomplete ptr k : incomplete ptr k → next_property ptr = Some (inr k).
Proof.
  intros [n rest Hn|name rest Hn Hr|name len rest Hn Hl Hr].
  - by apply next_name.
  - rewrite next_size. by assert ((length rest <? 4)%nat = true) as -> by by apply Nat.ltb_lt.
  - rewrite next_value by done. by assert ((Z.of_nat (length rest) <? len) = true) as -> by (by apply Z.ltb_lt).
Qed.

(** Four bytes are the size they encode. *)
Lemma uint32_bytes l : bytes_ok l → (4 ≤ length l)%nat →
  ∃ v, 0 ≤ v < 2 ^ 32 ∧ l = put_uint32 v ++ drop 4 l.
Proof.
  intros Hb Hl. destruct l as [|b0 [|b1 [|b2 [|b3 l]]]]; cbn in Hl; try lia.
  do 4 (apply Forall_cons in Hb as [? Hb]). exists (be_value [b0; b1; b2; b3]).
  pose proof (be_value_range [b0; b1; b2; b3] ltac:(repeat (apply Forall_cons; split; [done|]); done)) as Hr. split; [cbn in Hr |- *; lia|].
  cbn [drop]. unfold be_value, put_uint32. cbn [fold_left app]. rewrite !byte_of_div, land_255 by lia. unfold byte_ok in *.
  repeat f_equal; Z.div_mod_to_equations; lia.
Qed.

(** A string of bytes begins with a property or with a part of one. *)
Lemma first_property ptr : bytes_ok ptr → ptr ≠ [] →
  (∃ p rest, prop_ok p ∧ ptr = prop_bytes p ++ rest) ∨ ∃ k, incomplete ptr k.
Proof.
  intros Hb Hne. destruct ptr as [|n ptr]; [done|]. apply Forall_cons in Hb as [Hn Hb]. unfold byte_ok in Hn.
  destruct (decide (Z.of_nat (length ptr) < n)) as [Hlt|Hge]; [right; eexists; by apply in_name|].
  set (name := take (Z.to_nat n) ptr). set (rest := drop (Z.to_nat n) ptr).
  assert (Hlen : length name = Z.to_nat n) by (unfold name; rewrite length_take; lia).
  assert (Hptr : ptr = name ++ rest) by (symmetry; apply take_drop).
  assert (Hn' : n = Z.of_nat (length name)) by lia. rewrite Hptr, Hn'. clearbody name rest. subst ptr. apply Forall_app in Hb as [_ Hb].
  destruct (decide (length rest < 4)%nat) as [H4|H4]; [right; eexists; apply in_size; lia|].
  destruct (uint32_bytes rest Hb ltac:(lia)) as (v & Hv & Hr). set (value := drop 4 rest) in *. clearbody value. subst rest.
  destruct (decide (Z.of_nat (length value) < v)) as [Hlv|Hlv]; [right; eexists; apply in_value; [lia|done|done]|].
  left. exists (name, take (Z.to_nat v) value), (drop (Z.to_nat v) value). unfold prop_ok, prop_bytes. cbn [fst snd].
  rewrite length_take, Nat.min_l by lia. split; [lia|]. rewrite Z2Nat.id by lia. cbn [app]. rewrite <- !(assoc_L app). by rewrite take_drop.
Qed.

Lemma length_prop_bytes p : (5 ≤ length (prop_bytes p))%nat.
Proof. unfold prop_bytes. cbn [length]. rewrite !length_app, length_put_uint32. lia. Qed.

(** ** Reading *)

Lemma parse_ending fuel o zap rest r m : ending rest r → (length rest < fuel)%nat → parse_loop fuel o zap rest m = Some (r, m).
Proof.
  intros H Hf. destruct fuel as [|fuel]; [lia|]. cbn [parse_loop]. destruct H as [|b|rest left Hl Hi]; [done|done|].
  assert ((length rest <=? 1)%nat = false) as -> by (apply Nat.leb_gt; lia). by rewrite (next_incomplete _ _ Hi).
Qed.

Lemma parse_all o zap rest r : ending rest r → ∀ ps fuel m, Forall prop_ok ps → (length (metadata ps ++ rest) < fuel)%nat →
  parse_loop fuel o zap (metadata ps ++ rest) m =
  Some (let '(r', m') := store_all o zap ps m in (if bool_decide (r' = RcOk) then r else r', m')).
Proof.
  intros He ps. induction ps as [|p ps IH]; intros fuel m Hps Hf.
  - cbn in *. by apply parse_ending.
  - inversion Hps as [|? ? Hp Hps']; subst. cbn [metadata map concat] in *. fold (metadata ps) in *. rewrite <- (assoc_L app) in *.
    destruct fuel as [|fuel]; [lia|]. cbn [parse_loop]. pose proof (length_prop_bytes p) as Hl. rewrite length_app in *.
    assert ((length (prop_bytes p) + length (metadata ps ++ rest) <=? 1)%nat = false) as -> by (apply Nat.leb_gt; lia).
    rewrite next_prop by done. cbn [mbind option_bind]. destruct p as [n v]. cbn [store_all fst snd].
    destruct (store_property o zap n v m) as [r1 m1]. destruct (bool_decide (r1 = RcOk)) eqn:Hr; cbn [negb].
    + apply IH; [done|]. rewrite ?length_app in *. lia.
    + by rewrite Hr.
Qed.

Lemma split_metadata n : ∀ ptr, (length ptr < n)%nat → bytes_ok ptr →
  ∃ ps rest r, Forall prop_ok ps ∧ ending rest r ∧ ptr = metadata ps ++ rest.
Proof.
  induction n as [|n IH]; intros ptr Hn Hb; [lia|]. destruct ptr as [|b [|b2 ptr]].
  - exists [], [], RcOk. split_and!; [constructor|constructor|done].
  - exists [], [b], (RcErr EPROTO). split_and!; [constructor|constructor|done].
  - destruct (first_property (b :: b2 :: ptr) Hb ltac:(done)) as [(p & rest & Hp & Heq)|[k Hk]].
    + rewrite Heq in *. apply Forall_app in Hb as [_ Hb]. pose proof (length_prop_bytes p). rewrite length_app in Hn.
      destruct (IH rest ltac:(lia) Hb) as (ps & rest' & r & Hps & He & ->). exists (p :: ps), rest', r.
      split_and!; [by constructor|done|]. cbn. by rewrite (assoc_L app).
    + exists [], (b :: b2 :: ptr), (if (0 <? k)%nat then RcErr EPROTO else RcOk). split_and!; [constructor| |done].
      apply e_cut; [cbn; lia|done].
Qed.

(** C35. [parse_metadata] reads exactly this language: any string of bytes is a
    sequence of complete properties and an ending, and on such a string the
    parser stores the properties in order until one is refused (a socket type
    that does not fit, EINVAL), and otherwise gives the result of the ending:
    success for the empty one, EPROTO for a property that is cut, except that a
    property cut exactly after its name, or after the size of its value, is
    dropped and reported as a success.  No byte is read out of bounds. *)
Theorem metadata_exact o zap_flag m :
  (∀ ps rest r, Forall prop_ok ps → ending rest r →
     parse_metadata o zap_flag (metadata ps ++ rest) m =
     Some (let '(r', m') := store_all o zap_flag ps m in (if bool_decide (r' = RcOk) then r else r', m'))) ∧
  ∀ ptr, bytes_ok ptr → ∃ ps rest r, Forall prop_ok ps ∧ ending rest r ∧ ptr = metadata ps ++ rest.
Proof.
  split.
  - intros ps rest r Hps He. apply parse_all; [done|done|lia].
  - intros ptr. apply (split_metadata (S (length ptr))). lia.
Qed.

(** ** Writing *)

Definition socket_name (t : Z) : list Z := default [] (names !! Z.to_nat t).

(** The properties of a socket. *)
Definition props (o : options) : list (list Z * list Z) :=
  (bytes_of "Socket-Type", socket_name (type o)) ::
  (if has_identity o then [(bytes_of "Identity", routing_id o)] else []) ++
  map (λ e, (cstr e.1, cstr e.2)) (app_metadata o).

(** What [setsockopt] lets in. *)
Definition valid (o : options) : Prop :=
  0 ≤ type o < 12 ∧ (length (routing_id o) ≤ 255)%nat ∧
  Forall (λ e, (length (cstr e.1) ≤ 255)%nat ∧ Z.of_nat (length (cstr e.2)) ≤ 0x7FFFFFFF ∧
               take 2 (cstr e.1) = bytes_of "X-") (app_metadata o).

Lemma socket_type_ok t : 0 ≤ t < 12 → socket_type_string t = Some (socket_name t).
Proof.
  intros Ht. unfold socket_type_string, socket_name. change (Z.of_nat (length names)) with 12.
  rewrite (proj2 (Z.leb_le _ _)), (proj2 (Z.ltb_lt _ _)) by lia. cbn [andb zmq_assert mbind option_bind].
  destruct (names !! Z.to_nat t) eqn:E; [done|]. apply lookup_ge_None in E. change (length names) with 12%nat in E. lia.
Qed.

Lemma socket_name_short t : (length (socket_name t) ≤ 6)%nat.
Proof.
  unfold socket_name. destruct (names !! Z.to_nat t) as [n|] eqn:E; [|cbn; lia]. cbn [default].
  assert (Hall : Forall (λ n, (length n ≤ 6)%nat) names) by (vm_compute; repeat constructor).
  by eapply Forall_lookup_1 in Hall.
Qed.

Lemma length_prop p : length (prop_bytes p) = (1 + length p.1 + 4 + length p.2)%nat.
Proof. unfold prop_bytes. cbn [length]. rewrite !length_app, length_put_uint32. lia. Qed.

Lemma add_property_ok capacity name value : (length (cstr name) ≤ 255)%nat → Z.of_nat (length value) ≤ 0x7FFFFFFF →
  (length (prop_bytes (cstr name, value)) ≤ capacity)%nat → add_property capacity name value = Some (prop_bytes (cstr name, value)).
Proof.
  intros Hn Hv Hc. rewrite length_prop in Hc. cbn [fst snd] in Hc. unfold add_property, name_len.
  rewrite (proj2 (Nat.leb_le _ _)) by done. cbn [zmq_assert mbind option_bind]. rewrite (proj2 (Nat.leb_le _ _)) by lia.
  cbn [zmq_assert mbind option_bind]. rewrite (proj2 (Z.leb_le _ _)) by done. cbn [zmq_assert mbind option_bind].
  by rewrite u8_small, u32_small by lia.
Qed.

Lemma property_len_ok name value : (length (cstr name) ≤ 255)%nat →
  property_len name (length value) = Some (length (prop_bytes (cstr name, value))).
Proof.
  intros Hn. unfold property_len, name_len. rewrite (proj2 (Nat.leb_le _ _)) by done. cbn [zmq_assert mbind option_bind]. by rewrite length_prop.
Qed.

Lemma length_metadata_cons p ps : length (metadata (p :: ps)) = (length (prop_bytes p) + length (metadata ps))%nat.
Proof. unfold metadata. cbn. by rewrite length_app. Qed.

Lemma app_metadata_ok l : Forall (λ e, (length (cstr e.1) ≤ 255)%nat ∧ Z.of_nat (length (cstr e.2)) ≤ 0x7FFFFFFF ∧
               take 2 (cstr e.1) = bytes_of "X-") l →
  app_metadata_len l = Some (length (metadata (map (λ e, (cstr e.1, cstr e.2)) l))) ∧
  ∀ capacity done, (length done + length (metadata (map (λ e, (cstr e.1, cstr e.2)) l)) ≤ capacity)%nat →
    add_app_metadata capacity done l = Some (done ++ metadata (map (λ e, (cstr e.1, cstr e.2)) l)).
Proof.
  induction 1 as [|[k v] l (Hk & Hv & _) _ [IHl IHa]].
  - split; [done|]. intros capacity done _. cbn. by rewrite app_nil_r.
  - cbn [map fst snd] in *. rewrite length_metadata_cons. split.
    + cbn [app_metadata_len]. rewrite property_len_ok by done. cbn [mbind option_bind]. by rewrite IHl.
    + intros capacity done Hc. cbn [add_app_metadata]. rewrite add_property_ok by (done || lia). cbn [mbind option_bind].
      rewrite IHa by (rewrite length_app; lia). unfold metadata. cbn [map concat fst snd]. by rewrite <- (assoc_L app).
Qed.

(** What is written fills the message. *)
Lemma basic_properties_fill o : valid o →
  basic_properties_len o = Some (length (metadata (props o))) ∧
  add_basic_properties (length (metadata (props o))) o = Some (metadata (props o)).
Proof.
  intros (Ht & Hid & Happ). destruct (app_metadata_ok _ Happ) as [Hl Ha]. set (pa := map _ (app_metadata o)) in *.
  set (p1 := (bytes_of "Socket-Type", socket_name (type o))). set (p2 := (bytes_of "Identity", routing_id o)).
  assert (Hp1 : ∀ c, (length (prop_bytes p1) ≤ c)%nat → add_property c (bytes_of "Socket-Type") (socket_name (type o)) = Some (prop_bytes p1)).
  { intros c Hc. apply add_property_ok; [by apply Nat.leb_le| |exact Hc]. pose proof (socket_name_short (type o)). lia. }
  assert (Hp2 : ∀ c, (length (prop_bytes p2) ≤ c)%nat → add_property c (bytes_of "Identity") (routing_id o) = Some (prop_bytes p2)).
  { intros c Hc. apply add_property_ok; [by apply Nat.leb_le|lia|exact Hc]. }
  assert (Hm : metadata (props o) = prop_bytes p1 ++ (if has_identity o then prop_bytes p2 else []) ++ metadata pa).
  { unfold props, metadata. fold p1 p2 pa. cbn [map concat]. destruct (has_identity o); done. }
  rewrite Hm, !length_app. split.
  - unfold basic_properties_len. rewrite socket_type_ok by done. cbn [mbind option_bind]. rewrite Hl. cbn [mbind option_bind].
    rewrite (property_len_ok (bytes_of "Socket-Type")) by (by apply Nat.leb_le). cbn [mbind option_bind].
    destruct (has_identity o); [rewrite property_len_ok by (by apply Nat.leb_le)|]; cbn [mbind option_bind].
    + f_equal. change (cstr (bytes_of "Socket-Type"), socket_name (type o)) with p1. change (cstr (bytes_of "Identity"), routing_id o) with p2. lia.
    + f_equal. change (cstr (bytes_of "Socket-Type"), socket_name (type o)) with p1. cbn [length]. lia.
  - unfold add_basic_properties. rewrite socket_type_ok by done. cbn [mbind option_bind]. rewrite Hp1 by lia. cbn [mbind option_bind].
    destruct (has_identity o).
    + rewrite Hp2 by lia. cbn [mbind option_bind]. rewrite Ha by (rewrite length_app; lia). by rewrite (assoc_L app).
    + cbn [mbind option_bind]. rewrite Ha by (cbn [length]; lia). done.
Qed.

(** ** Both ways *)

Lemma props_ok o : valid o → Forall prop_ok (props o).
Proof.
  intros (Ht & Hid & Happ). unfold props. constructor; [|apply Forall_app; split].
  - split; cbn [fst snd]; [by apply Nat.leb_le|]. pose proof (socket_name_short (type o)). lia.
  - destruct (has_identity o); constructor; [|constructor]. split; cbn [fst snd]; [by apply Nat.leb_le|lia].
  - apply Forall_map. eapply Forall_impl; [exact Happ|]. intros [k v] (Hk & Hv & _). split; cbn [fst snd] in *; lia.
Qed.

(** The peer's identity among the properties. *)
Fixpoint last_identity (ps : list (list Z * list Z)) (id : list Z) : list Z :=
  match ps with [] => id | (n, v) :: ps => last_identity ps (if bool_decide (n = bytes_of "Identity") then v else id) end.

Definition fits (o : options) (p : list Z * list Z) : bool :=
  if bool_decide (p.1 = bytes_of "Identity") && recv_routing_id o then true
  else if bool_decide (p.1 = bytes_of "Socket-Type") then check_socket_type (type o) p.2 else true.

Lemma emplace_union (k v : list Z) (d m : gmap (list Z) (list Z)) : insert_or_emplace k v d ∪ m = d ∪ <[k := v]> m.
Proof.
  unfold insert_or_emplace. apply map_eq. intros i. destruct (d !! k) as [x|] eqn:Hk; rewrite !lookup_union.
  - destruct (decide (i = k)) as [->|Hi]; [by rewrite Hk, !union_Some_l|by rewrite (lookup_insert_ne m)].
  - destruct (decide (i = k)) as [->|Hi]; [by rewrite !lookup_insert_eq, Hk; destruct (m !! k)|by rewrite !lookup_insert_ne].
Qed.

Lemma store_all_ok o ps : Forall (λ p, fits o p = true) ps → ∀ m,
  store_all o false ps m =
  (RcOk, Mech (zmtp_properties m ∪ list_to_map ps) (zap_properties m)
              (if recv_routing_id o then last_identity ps (peer_id m) else peer_id m) (user_id m)).
Proof.
  induction 1 as [|[n v] ps Hf _ IH]; intros m.
  - cbn. rewrite (right_id_L ∅ (∪)). by destruct m, (recv_routing_id o).
  - cbn [store_all]. unfold store_property, fits in *. cbn [fst snd] in Hf.
    destruct (bool_decide (n = bytes_of "Identity")) eqn:Hid, (recv_routing_id o) eqn:Hrr; cbn [andb] in *;
      try (destruct (bool_decide (n = bytes_of "Socket-Type")); [rewrite Hf|]);
      change (bool_decide (RcOk = RcOk)) with true; unfold property; change (bool_decide (RcOk = RcOk)) with true; cbn [negb];
      rewrite IH; cbn [zmtp_properties zap_properties peer_id user_id set_peer_routing_id last_identity list_to_map];
      rewrite ?Hid, emplace_union; done.
Qed.

Lemma store_all_misfit o n v ps m : fits o (n, v) = false → store_all o false ((n, v) :: ps) m = (RcErr EINVAL, m).
Proof.
  unfold fits. cbn [fst snd store_all]. unfold store_property. destruct (_ && _); [done|].
  destruct (bool_decide _); [|done]. by intros ->.
Qed.

Lemma app_fits o l : Forall (λ e, (length (cstr e.1) ≤ 255)%nat ∧ Z.of_nat (length (cstr e.2)) ≤ 0x7FFFFFFF ∧
               take 2 (cstr e.1) = bytes_of "X-") l →
  Forall (λ p, fits o p = true) (map (λ e, (cstr e.1, cstr e.2)) l) ∧
  ∀ id, last_identity (map (λ e, (cstr e.1, cstr e.2)) l) id = id.
Proof.
  induction 1 as [|[k v] l (_ & _ & Hk) _ [IHf IHi]]; [done|]. cbn [map fst snd] in *.
  assert (Hn : ∀ n, take 2 n ≠ bytes_of "X-" → cstr k ≠ n) by (intros n Hn <-; congruence). split.
  - constructor; [|done]. unfold fits. cbn [fst snd]. rewrite !bool_decide_eq_false_2; [done|by apply Hn|by apply Hn].
  - intros id. cbn [last_identity]. rewrite bool_decide_eq_false_2 by (by apply Hn). apply IHi.
Qed.

(** What a peer [o'] knows after the properties of [o]. *)
Definition introduced (o o' : options) : rc * mechanism :=
  if check_socket_type (type o') (socket_name (type o))
  then (RcOk, Mech (list_to_map (props o)) ∅ (if has_identity o && recv_routing_id o' then routing_id o else []) [])
  else (RcErr EINVAL, mechanism_new).

Definition fit (o o' : options) : bool := check_socket_type (type o') (socket_name (type o)).

Lemma props_fit o o' : valid o → fit o o' = true → Forall (λ p, fits o' p = true) (props o) ∧
  last_identity (props o) [] = if has_identity o then routing_id o else [].
Proof.
  intros (Ht & Hid & Happ) Hc. destruct (app_fits o' _ Happ) as [Hf Hl]. unfold props. split.
  - constructor; [|apply Forall_app; split; [|exact Hf]].
    + unfold fits. cbn [fst snd]. change (bool_decide (bytes_of "Socket-Type" = bytes_of "Identity")) with false. cbn [andb].
      by rewrite bool_decide_eq_true_2.
    + destruct (has_identity o); constructor; [|constructor]. unfold fits. cbn [fst snd]. rewrite bool_decide_eq_true_2 by done.
      by destruct (recv_routing_id o').
  - cbn [last_identity]. change (bool_decide (bytes_of "Socket-Type" = bytes_of "Identity")) with false. cbv iota.
    destruct (has_identity o); cbn [app last_identity]; by rewrite Hl.
Qed.

(** A mechanism that has read no properties of its peer. *)
Lemma store_props o o' m : valid o → fit o o' = true → zmtp_properties m = ∅ → peer_id m = [] →
  store_all o' false (props o) m =
  (RcOk, Mech (list_to_map (props o)) (zap_properties m) (if has_identity o && recv_routing_id o' then routing_id o else []) (user_id m)).
Proof.
  intros Hv Hf Hz Hp. destruct (props_fit o o' Hv Hf) as [Hfits Hid]. rewrite store_all_ok, Hz, Hp, Hid by done.
  rewrite (left_id_L ∅ (∪)). by destruct (has_identity o), (recv_routing_id o').
Qed.

Lemma introduced_ok o o' : valid o → store_all o' false (props o) mechanism_new = introduced o o'.
Proof.
  intros Hv. unfold introduced. fold (fit o o'). destruct (fit o o') eqn:Hc; [by apply store_props|].
  unfold props. apply store_all_misfit. unfold fits. cbn [fst snd].
  change (bool_decide (bytes_of "Socket-Type" = bytes_of "Identity")) with false. cbn [andb]. by rewrite bool_decide_eq_true_2.
Qed.

(** The command, what the peer makes of it, and the symmetry of the socket
    types. *)
Lemma make_command_ok prefix o : valid o → make_command_with_basic_properties prefix o = Some (prefix ++ metadata (props o)).
Proof.
  intros H. destruct (basic_properties_fill o H) as [Hl Ha]. unfold make_command_with_basic_properties. rewrite Hl.
  cbn [mbind option_bind]. by rewrite Ha.
Qed.

Lemma parse_store o o' m : valid o →
  parse_metadata o' false (metadata (props o)) m = Some (store_all o' false (props o) m).
Proof.
  intros H. unfold parse_metadata. pose proof (parse_all o' false [] RcOk e_end (props o) (S (length (metadata (props o)))) m) as Hp.
  rewrite app_nil_r in Hp. rewrite Hp by (by apply props_ok || lia). destruct (store_all _ _ _ _) as [r m']. by destruct r.
Qed.

Lemma parse_props o o' : valid o → parse_metadata o' false (metadata (props o)) mechanism_new = Some (introduced o o').
Proof.
  intros H. by rewrite parse_store, introduced_ok.
Qed.

Lemma introduced_rc o o' : introduced o o' = (if fit o o' then RcOk else RcErr EINVAL, (introduced o o').2).
Proof. unfold introduced, fit. by destruct (check_socket_type _ _). Qed.

Lemma introduced_props o o' : fit o o' = true → (introduced o o').2 =
  Mech (list_to_map (props o)) ∅ (if has_identity o && recv_routing_id o' then routing_id o else []) [].
Proof. unfold introduced, fit. by intros ->. Qed.

Lemma introduced_misfit o o' : fit o o' = false → (introduced o o').2 = mechanism_new.
Proof. unfold introduced, fit. by intros ->. Qed.

Lemma fit_sym o o' : valid o → valid o' → fit o o' = fit o' o.
Proof.
  intros [Ht _] [Ht' _].
  assert (Hall : forallb (λ t, forallb (λ t', Bool.eqb (check_socket_type t' (socket_name t)) (check_socket_type t (socket_name t')))
    (seqZ 0 12)) (seqZ 0 12) = true) by (vm_compute; reflexivity).
  rewrite forallb_forall in Hall. specialize (Hall (type o) ltac:(apply list_elem_of_In, elem_of_seqZ; lia)).
  rewrite forallb_forall in Hall. specialize (Hall (type o') ltac:(apply list_elem_of_In, elem_of_seqZ; lia)). by apply eqb_prop.
Qed.

(** C18. The properties a socket announces are read back by its peer: the command
    is made without an assertion failure, has exactly the size reserved for it,
    and after the prefix the peer's [parse_metadata] accepts it if and only if
    the socket types fit, and then holds exactly the announced properties (the
    socket type, the routing id for REQ, DEALER and ROUTER, the application's
    metadata) and, if it wants it, the routing id; otherwise it fails with EINVAL
    and holds nothing.  Two socket types fit one way if and only if they fit the
    other way. *)
Theorem metadata_roundtrip o o' prefix : valid o → valid o' →
  (∃ cmd, make_command_with_basic_properties prefix o = Some cmd ∧ take (length prefix) cmd = prefix ∧
     basic_properties_len o = Some (length cmd - length prefix)%nat ∧
     parse_metadata o' false (drop (length prefix) cmd) mechanism_new = Some (introduced o o')) ∧
  check_socket_type (type o') (socket_name (type o)) = check_socket_type (type o) (socket_name (type o')).
Proof.
  intros H H'. split; [|by apply fit_sym]. exists (prefix ++ metadata (props o)).
  rewrite (make_command_ok _ _ H), take_app_length, drop_app_length, length_app, (proj1 (basic_properties_fill o H)).
  split_and!; [done|done|f_equal; lia|by apply parse_props].
Qed.

(** ** Witness: a property that is cut after its name is dropped. *)

Lemma metadata_exact_witness :
  ending [3; 97; 98; 99] RcOk ∧
  parse_metadata (Options ZMQ_REQ [] false [] [] false [] []) false [3; 97; 98; 99] mechanism_new = Some (RcOk, mechanism_new).
Proof.
  assert (H : ending [3; 97; 98; 99] RcOk).
  { apply (e_cut [3; 97; 98; 99] 0); [cbn; lia|]. apply (in_size [97; 98; 99] []); cbn; lia. }
  split; [exact H|].
  apply (proj1 (metadata_exact (Options ZMQ_REQ [] false [] [] false [] []) false mechanism_new) [] [3; 97; 98; 99] RcOk); [constructor|exact H].
Defined.

(** ** Witness: a request socket introduces itself to a router. *)

Definition ex_req : options := Options ZMQ_REQ [65] false [(bytes_of "X-a", [1; 2])] [] false [] [].
Definition ex_router : options := Options ZMQ_ROUTER [] true [] [] false [] [].

Lemma metadata_valid : valid ex_req ∧ valid ex_router.
Proof.
  split; (split; [done|split; [by apply Nat.leb_le|]]); repeat constructor; try (by apply Nat.leb_le); by apply Z.leb_le.
Qed.

Lemma metadata_roundtrip_witness :
  valid ex_req ∧ valid ex_router ∧
  ∃ cmd, make_command_with_basic_properties [7] ex_req = Some cmd ∧
    parse_metadata ex_router false (drop 1 cmd) mechanism_new = Some (introduced ex_req ex_router).
Proof.
  destruct metadata_valid as [H1 H2].
  split; [exact H1|]. split; [exact H2|].
  destruct (metadata_roundtrip ex_req ex_router [7] H1 H2) as [(cmd & Hc & _ & _ & Hp) _]. exact (ex_intro _ cmd (conj Hc Hp)).
Defined.

End Mechanism.
