(* ===== verification/Zap.v ===== *)
(** * The ZAP client

    [zap_client_t] (src/zap_client.cpp) asks a ZAP handler, through a pipe of the
    session, whether a peer may connect; [mechanism_base_t]
    (src/mechanism_base.cpp) is what the mechanisms share.  The session
    ([session_base_t], src/session_base.cpp) is what the mechanisms use of it:
    the handler's endpoint, if there is one, the pipe to it, and the events sent
    to the monitor. *)

From Stdlib Require Import String.
From S2P Require Import Prelude Wire Msg PipeIface SubMsg Mechanism.
Import SubMsg Mechanism.
#[local] Open Scope Z_scope.

Module Zap.

(** ** Events *)

Inductive protocol_error :=
| Zmtp_unspecified | Zmtp_unexpected_command | Zmtp_malformed_unspecified | Zmtp_malformed_hello | Zmtp_malformed_error
| Zmtp_malformed_welcome | Zmtp_malformed_initiate | Zmtp_malformed_ready | Zmtp_malformed_message
| Zmtp_invalid_sequence | Zmtp_cryptographic | Zmtp_key_exchange | Zmtp_invalid_metadata
| Zap_unspecified | Zap_malformed_reply | Zap_bad_version | Zap_bad_request_id | Zap_invalid_status_code | Zap_invalid_metadata.

Inductive event :=
| Failed_no_detail (err : errno)
| Failed_protocol (err : protocol_error)
| Failed_auth (code : Z).

(** ** The session *)

Record session := Session {
  zap_handler : option (Z * bool);   (* its socket type and [recv_routing_id] *)
  zap_pipe : bool;                   (* [_zap_pipe != NULL] *)
  zap_active : bool;                 (* the pipe takes messages *)
  zap_out : list part;               (* written to it *)
  zap_in : list part;                (* can be read from it *)
  events : list event }.

Definition session_new (handler : option (Z * bool)) : session := Session handler false false [] [] [].

Definition emit (e : event) (s : session) : session :=
  Session (zap_handler s) (zap_pipe s) (zap_active s) (zap_out s) (zap_in s) (events s ++ [e]).
Definition zap_write (m : part) (s : session) : session :=
  Session (zap_handler s) (zap_pipe s) (zap_active s) (zap_out s ++ [m]) (zap_in s) (events s).

Definition read_zap_msg (s : session) : rc * option part * session :=
  if negb (zap_pipe s) then (RcErr ENOTCONN, None, s)
  else
    match zap_in s with
    | [] => (RcErr EAGAIN, None, s)
    | m :: l => (RcOk, Some m, Session (zap_handler s) (zap_pipe s) (zap_active s) (zap_out s) l (events s))
    end.

Definition write_zap_msg (m : part) (s : session) : rc * session :=
  if negb (zap_pipe s && zap_active s) then (RcErr ENOTCONN, s) else (RcOk, zap_write m s).

Definition ZMQ_SERVER := 12.

(** The endpoint is "inproc://zeromq.zap.01". *)
Definition zap_connect (s : session) : option (rc * session) :=
  if zap_pipe s then Some (RcOk, s)
  else
    match zap_handler s with
    | None => Some (RcErr ECONNREFUSED, s)
    | Some (peer_type, peer_recv_routing_id) =>
        _ ← zmq_assert ((peer_type =? ZMQ_REP) || (peer_type =? ZMQ_ROUTER) || (peer_type =? ZMQ_SERVER));
        let s := Session (zap_handler s) true true [] [] (events s) in
        Some (RcOk, if peer_recv_routing_id : bool then zap_write (Part [] Msg.routing_id None) s else s)
    end.

(** ** [mechanism_base_t] *)

Definition check_basic_command_structure (data : list Z) (s : session) : rc * session :=
  if (length data <=? 1)%nat || (Z.of_nat (length data) <=? default 0 (head data))
  then (RcErr EPROTO, emit (Failed_protocol Zmtp_malformed_unspecified) s) else (RcOk, s).

Definition handle_error_reason (reason : list Z) (s : session) : session :=
  match reason with
  | [d; z1; z2] =>
      if (z1 =? 48) && (z2 =? 48) && (51 <=? d) && (d <=? 53) then emit (Failed_auth ((d - 48) * 100)) s else s
  | _ => s
  end.

Definition zap_required (o : options) : bool := negb (bool_decide (zap_domain o = [])).

(** [data_size >= prefix_len && !memcmp (data, prefix, prefix_len)] *)
Definition has_prefix (prefix data : list Z) : bool :=
  (length prefix <=? length data)%nat && bool_decide (take (length prefix) data = prefix).

Lemma has_prefix_app p x : has_prefix p (p ++ x) = true.
Proof.
  unfold has_prefix. rewrite take_app_length, length_app, bool_decide_eq_true_2, andb_true_r by done. apply Nat.leb_le. lia.
Qed.

(** The reason in an ERROR command, after a prefix of [n] bytes: a length and
    as many bytes; more may follow. *)
Definition error_reason (n : nat) (data : list Z) : option (list Z) :=
  len ← data !! n;
  if (length data - S n <? Z.to_nat len)%nat then None else Some (take (Z.to_nat len) (drop (S n) data)).

(** ** [zap_client_t] *)

(** The data members, with those of [mechanism_t] and the session. *)
Record zap := Zap { mech : mechanism; sess : session; status_code : list Z }.

Definition set_sess (s : session) (z : zap) : zap := Zap (mech z) s (status_code z).
Definition with_event (e : event) (z : zap) : zap := set_sess (emit e (sess z)) z.

Definition zap_version : list Z := bytes_of "1.0".
Definition id : list Z := bytes_of "1".

Definition frame (data : list Z) (more : bool) : part := Part data (if more then Msg.more else 0) None.

(** [rc = session->write_zap_msg (&msg); errno_assert (rc == 0);] *)
Definition send_frame (m : part) (s : session) : option session :=
  let '(r, s) := write_zap_msg m s in _ ← zmq_assert (bool_decide (r = RcOk)); Some s.

Fixpoint send_frames (ms : list part) (s : session) : option session :=
  match ms with [] => Some s | m :: ms => s ← send_frame m s; send_frames ms s end.

(** The credentials: the last frame has no [more] flag. *)
Fixpoint credential_frames (credentials : list (list Z)) : list part :=
  match credentials with
  | [] => []
  | c :: l => frame c (negb (bool_decide (l = []))) :: credential_frames l
  end.

Section zap_client.
Context (o : options) (peer_address : list Z).

(** The frames of a request. *)
Definition request (mechanism : list Z) (credentials : list (list Z)) : list part :=
  [frame [] true; frame zap_version true; frame id true; frame (zap_domain o) true; frame peer_address true;
   frame (routing_id o) true; frame mechanism (negb (bool_decide (credentials = [])))] ++ credential_frames credentials.

Definition send_zap_request (mechanism : list Z) (credentials : list (list Z)) (z : zap) : option zap :=
  s ← send_frames (request mechanism credentials) (sess z); Some (set_sess s z).

(** The results: 0, 1 (no reply yet) and -1. *)
Inductive zap_rc := ZapDone | ZapAgain | ZapError (e : errno).

#[export] Instance zap_rc_eq_dec : EqDecision zap_rc.
Proof. solve_decision. Defined.

(** The first loop: [n] frames, the last one without the [more] flag. *)
Fixpoint read_frames (n : nat) (s : session) : zap_rc * list part * session :=
  match n with
  | O => (ZapDone, [], s)
  | S n =>
      let '(r, m, s) := read_zap_msg s in
      match r, m with
      | RcOk, Some m =>
          if Bool.eqb (is_more m) (bool_decide (n = 0%nat))
          then (ZapError EPROTO, [m], emit (Failed_protocol Zap_malformed_reply) s)
          else let '(r, ms, s) := read_frames n s in (r, m :: ms, s)
      | RcErr EAGAIN, _ => (ZapAgain, [], s)
      | RcErr e, _ => (ZapError e, [], s)
      | RcOk, None => (ZapDone, [], s)
      end
  end.

Definition status_code_ok (code : list Z) : bool :=
  match code with [d; z1; z2] => (50 <=? d) && (d <=? 53) && (z1 =? 48) && (z2 =? 48) | _ => false end.

Definition fail_zap (e : protocol_error) (z : zap) : zap_rc * zap := (ZapError EPROTO, with_event (Failed_protocol e) z).

(** [receive_and_process_zap_reply] up to [handle_zap_status_code]. *)
Definition receive_reply (z : zap) : option (zap_rc * zap) :=
  let '(r, ms, s) := read_frames 7 (sess z) in
  let z := set_sess s z in
  match r with
  | ZapAgain | ZapError _ => Some (r, z)
  | ZapDone =>
      match map p_data ms with
      | [m0; m1; m2; m3; m4; m5; m6] =>
          if negb (bool_decide (m0 = [])) then Some (fail_zap Zap_unspecified z)
          else if negb (bool_decide (m1 = zap_version)) then Some (fail_zap Zap_bad_version z)
          else if negb (bool_decide (m2 = id)) then Some (fail_zap Zap_bad_request_id z)
          else if negb (status_code_ok m3) then Some (fail_zap Zap_invalid_status_code z)
          else
            let z := Zap (set_user_id m5 (mech z)) (sess z) m3 in
            '(r, m) ← parse_metadata o true m6 (mech z);
            let z := Zap m (sess z) (status_code z) in
            if negb (bool_decide (r = RcOk)) then Some (fail_zap Zap_invalid_metadata z) else Some (ZapDone, z)
      | _ => None
      end
  end.

Definition handle_zap_status_code (z : zap) : zap :=
  match status_code z with
  | c :: _ => if (51 <=? c) && (c <=? 53) then with_event (Failed_auth ((c - 48) * 100)) z
              else if c =? 50 then z else with_event (Failed_auth 0) z
  | [] => with_event (Failed_auth 0) z
  end.

Definition receive_and_process_zap_reply (z : zap) : option (zap_rc * zap) :=
  '(r, z) ← receive_reply z;
  Some (r, if bool_decide (r = ZapDone) then handle_zap_status_code z else z).
End zap_client.

(** * Correctness *)

(** The [more] flags of the frames of a reply, and a reply. *)
Fixpoint more_flags (n : nat) : list bool :=
  match n with O => [] | S n => negb (bool_decide (n = 0%nat)) :: more_flags n end.

Definition is_reply (code uid : list Z) (ms : list part) : Prop :=
  status_code_ok code = true ∧ map is_more ms = more_flags 7 ∧
  ∃ text md, map p_data ms = [[]; zap_version; id; code; text; uid; md].

(** What a session keeps while its replies are read. *)
Definition same_pipe (s s' : session) : Prop :=
  zap_handler s' = zap_handler s ∧ zap_pipe s' = zap_pipe s ∧ zap_active s' = zap_active s ∧ zap_out s' = zap_out s.

#[export] Instance same_pipe_preorder : PreOrder same_pipe.
Proof. split; unfold same_pipe; [naive_solver|]. intros s1 s2 s3 (H1&H2&H3&H4) (G1&G2&G3&G4). by rewrite G1, G2, G3, G4. Qed.

Lemma read_zap_msg_spec s r m s' : read_zap_msg s = (r, m, s') → same_pipe s s' ∧ events s' = events s ∧
  zap_in s = from_option (λ m, [m]) [] m ++ zap_in s' ∧ match r with RcOk => m ≠ None | RcErr _ => m = None end.
Proof.
  unfold read_zap_msg, same_pipe. destruct (negb (zap_pipe s)); [intros [= <- <- <-]; done|].
  destruct (zap_in s) as [|x l] eqn:Hi; intros [= <- <- <-]; cbn; rewrite ?Hi; done.
Qed.

Lemma read_frames_spec n s r ms s' : read_frames n s = (r, ms, s') →
  same_pipe s s' ∧ (∃ cons, zap_in s = cons ++ zap_in s') ∧
  (r = ZapDone → zap_in s = ms ++ zap_in s' ∧ map is_more ms = more_flags n ∧ events s' = events s).
Proof.
  revert s r ms s'. induction n as [|n IH]; intros s r ms s'; cbn [read_frames].
  { intros [= <- <- <-]. split; [done|]. split; [by exists []|done]. }
  destruct (read_zap_msg s) as [[r1 m1] s1] eqn:H1. apply read_zap_msg_spec in H1 as (Hs & Hev & Hi & Hr).
  destruct r1 as [|e1], m1 as [m1|]; try done.
  - destruct (Bool.eqb _ _) eqn:Hm.
    + intros [= <- <- <-]. split; [exact Hs|]. split; [by exists [m1]|done].
    + destruct (read_frames n s1) as [[r2 ms2] s2] eqn:H2. intros [= <- <- <-].
      destruct (IH _ _ _ _ H2) as (Hs2 & (cons & Hc) & Hd). split; [by etransitivity|].
      split; [exists (m1 :: cons); by rewrite Hi, Hc|]. intros ->. destruct (Hd eq_refl) as (Hd1 & Hd2 & Hd3).
      split; [by rewrite Hi, Hd1|]. split; [|congruence]. cbn. rewrite Hd2. f_equal. by destruct (is_more m1), (bool_decide _).
  - destruct e1; intros [= <- <- <-]; (split; [exact Hs|]; split; [by exists []|done]).
Qed.

(** The reading of metadata leaves the user id. *)
Lemma store_property_user o zap n v m r m' : store_property o zap n v m = (r, m') → user_id m' = user_id m.
Proof.
  unfold store_property. destruct (_ && _); [|destruct (bool_decide _); [destruct (check_socket_type _ _)|]];
    cbn; destruct zap; by intros [= <- <-].
Qed.

Lemma parse_loop_user fuel o zap : ∀ ptr m r m', parse_loop fuel o zap ptr m = Some (r, m') → user_id m' = user_id m.
Proof.
  induction fuel as [|fuel IH]; intros ptr m r m'; cbn [parse_loop]; [done|].
  destruct (length ptr <=? 1)%nat; [by intros [= <- <-]|]. destruct (next_property ptr) as [[[[n v] rest]|k]|]; cbn; [| |done].
  - destruct (store_property o zap n v m) as [r1 m1] eqn:H1. apply store_property_user in H1.
    destruct (negb _); [intros [= <- <-]; congruence|]. intros H2%IH. congruence.
  - by intros [= <- <-].
Qed.

Lemma receive_reply_spec o z r z' : receive_reply o z = Some (r, z') →
  same_pipe (sess z) (sess z') ∧ ∃ cons, zap_in (sess z) = cons ++ zap_in (sess z') ∧
    (r = ZapDone → is_reply (status_code z') (user_id (mech z')) cons ∧ events (sess z') = events (sess z)).
Proof.
  unfold receive_reply. destruct (read_frames 7 (sess z)) as [[r1 ms] s1] eqn:H1.
  apply read_frames_spec in H1 as (Hs & (cons & Hc) & Hd).
  destruct r1; [|intros [= <- <-]; split; [exact Hs|by exists cons]..].
  destruct (Hd eq_refl) as (Hi & Hm & Hev). clear cons Hc Hd.
  assert (Hlen : length (map p_data ms) = 7%nat) by (by rewrite length_map, <- (length_map is_more), Hm).
  destruct (map p_data ms) as [|m0 l] eqn:Hms; [discriminate Hlen|].
  do 6 (destruct l as [|? l]; [discriminate Hlen|]). destruct l as [|? l]; [|discriminate Hlen]. clear Hlen.
  rename l0 into m1, l1 into m2, l2 into m3, l3 into m4, l4 into m5, l5 into m6.
  assert (Hfail : ∀ e z1, same_pipe (sess z) (sess z1) → zap_in (sess z) = ms ++ zap_in (sess z1) →
    Some (fail_zap e z1) = Some (r, z') →
    same_pipe (sess z) (sess z') ∧ ∃ cons, zap_in (sess z) = cons ++ zap_in (sess z') ∧
      (r = ZapDone → is_reply (status_code z') (user_id (mech z')) cons ∧ events (sess z') = events (sess z))).
  { intros e z1 Hs1 Hi1 [= <- <-]. split; [exact Hs1|by exists ms]. }
  destruct (bool_decide (m0 = [])) eqn:E0; cbn [negb]; [apply bool_decide_eq_true in E0 as ->|by apply Hfail].
  destruct (bool_decide (m1 = zap_version)) eqn:E1; cbn [negb]; [apply bool_decide_eq_true in E1 as ->|by apply Hfail].
  destruct (bool_decide (m2 = id)) eqn:E2; cbn [negb]; [apply bool_decide_eq_true in E2 as ->|by apply Hfail].
  destruct (status_code_ok m3) eqn:E3; cbn [negb]; [|by apply Hfail].
  cbn [mech set_sess sess status_code]. destruct (parse_metadata o true m6 _) as [[r2 m]|] eqn:Hp; cbn; [|done].
  apply parse_loop_user in Hp. destruct (bool_decide (r2 = RcOk)); cbn [negb]; [|by apply Hfail].
  intros [= <- <-]. split; [exact Hs|]. exists ms. split; [exact Hi|]. intros _. split; [|exact Hev]. cbn. split; [exact E3|].
  split; [exact Hm|]. exists m4, m6. by rewrite Hms, Hp.
Qed.

(** A request is written after what the new pipe has been given. *)
Lemma send_frames_spec ms s s' : send_frames ms s = Some s' →
  zap_out s' = zap_out s ++ ms ∧ zap_in s' = zap_in s ∧ zap_pipe s' = zap_pipe s ∧ zap_handler s' = zap_handler s.
Proof.
  revert s. induction ms as [|m ms IH]; intros s; cbn [send_frames].
  { intros [= <-]. by rewrite app_nil_r. }
  unfold send_frame. destruct (write_zap_msg m s) as [r s1] eqn:Hw. destruct r; cbn; [|done]. intros H.
  apply IH in H as (Ho & Hi & Hp & Hh). unfold write_zap_msg in Hw. destruct (negb _); [done|]. injection Hw as <-.
  cbn in *. by rewrite Ho, <- (assoc_L app), Hi, Hp, Hh.
Qed.

Lemma send_zap_request_spec o addr name credentials z z' : send_zap_request o addr name credentials z = Some z' →
  zap_out (sess z') = zap_out (sess z) ++ request o addr name credentials ∧ zap_in (sess z') = zap_in (sess z) ∧
  mech z' = mech z ∧ status_code z' = status_code z.
Proof.
  unfold send_zap_request. destruct (send_frames _ (sess z)) as [s|] eqn:Hs; [|done]. intros [= <-].
  by apply send_frames_spec in Hs as (Ho & Hi & _ & _).
Qed.

(** The messages of a new pipe to the handler. *)
Definition hello_parts (handler : option (Z * bool)) : list part :=
  match handler with Some (_, true) => [Part [] Msg.routing_id None] | _ => [] end.

Lemma zap_connect_spec s r s' : zap_pipe s = false → zap_connect s = Some (r, s') →
  zap_handler s' = zap_handler s ∧
  (if bool_decide (r = RcOk) then zap_pipe s' = true ∧ zap_in s' = [] ∧ zap_out s' = hello_parts (zap_handler s) else s' = s).
Proof.
  intros Hp. unfold zap_connect. rewrite Hp. destruct (zap_handler s) as [[t rr]|] eqn:E; [|by intros [= <- <-]].
  destruct (zmq_assert _); [|done]. intros [= <- <-]. destruct rr; cbn; by rewrite ?E.
Qed.

End Zap.
