(* ===== verification/Greeting.v ===== *)
(** * The greeting

    [stream_engine_t] (src/stream_engine.cpp) before any message: both sides send
    a signature that an old peer takes for the header of a routing id, find out
    from the first bytes received which version the peer speaks, and send the
    rest of their greeting accordingly.  The bytes come from the connection in
    pieces of any size and are written to it in pieces of any size.

    The theorems: the answer depends on the bytes received and not on their
    pieces; two engines always come to the end of the greeting and agree on the
    mechanism; an old peer gets the frame it expects. *)

From Stdlib Require Import String.
From S2P Require Import Prelude Wire Codec Encoder Mechanism Zap.
From stdpp Require Import relations.
Import Mechanism Zap.
#[local] Open Scope Z_scope.

Module Greeting.
#[local] Arguments bytes_of : simpl never.

(** ** State *)

Definition signature_size : nat := 10.
Definition v2_greeting_size : nat := 12.
Definition v3_greeting_size : nat := 64.
Definition revision_pos : nat := 10.
Definition ZMTP_1_0 := 0.
Definition ZMTP_2_0 := 1.
Definition ZMQ_NULL := 0.
Definition ZMQ_PLAIN := 1.
Definition ZMQ_CURVE := 2.
Definition ZMQ_GSSAPI := 3.

(** The options of the engine. *)
Record greeting_options := GOpts { g_opts : options; g_mechanism : Z; as_server : bool }.

(** The members used: [_greeting_recv] up to [_greeting_bytes_read], [_greeting_size],
    the bytes put in [_greeting_send], how many of them are not yet written
    ([_outsize]), whether the poller is asked for output. *)
Record greeting := Greet {
  greeting_recv : list Z;
  greeting_size : nat;
  greeting_send : list Z;
  outsize : nat;
  pollout : bool }.

Section greeting.
Context (o : greeting_options).

Definition signature : list Z :=
  [255] ++ put_uint64 (Z.of_nat (length (routing_id (g_opts o))) + 1) ++ [0x7f].

(** [plug], for a socket that is not raw. *)
Definition plug : greeting := Greet [] v2_greeting_size signature signature_size true.

(** [if (_outsize == 0) set_pollout (_handle);] and the bytes. *)
Definition put (bytes : list Z) (g : greeting) : greeting :=
  Greet (greeting_recv g) (greeting_size g) (greeting_send g ++ bytes) (outsize g + length bytes)
        (if (outsize g =? 0)%nat then true else pollout g).

Definition set_greeting_size (n : nat) (g : greeting) : greeting :=
  Greet (greeting_recv g) n (greeting_send g) (outsize g) (pollout g).

(** [memset (p, 0, n); memcpy (p, s, length s);] *)
Definition padded (n : nat) (s : list Z) : list Z := s ++ replicate (n - length s) 0.

Definition mechanism_name : list Z :=
  if g_mechanism o =? ZMQ_NULL then bytes_of "NULL"
  else if g_mechanism o =? ZMQ_PLAIN then bytes_of "PLAIN"
  else if g_mechanism o =? ZMQ_GSSAPI then bytes_of "GSSAPI"
  else if g_mechanism o =? ZMQ_CURVE then bytes_of "CURVE"
  else [].

Definition mechanism_ok : bool :=
  (g_mechanism o =? ZMQ_NULL) || (g_mechanism o =? ZMQ_PLAIN) || (g_mechanism o =? ZMQ_CURVE) || (g_mechanism o =? ZMQ_GSSAPI).

Definition receive_greeting_versioned (g : greeting) : option greeting :=
  let g := if (length (greeting_send g) =? signature_size)%nat then put [3] g else g in
  if (signature_size <? length (greeting_recv g))%nat && (length (greeting_send g) =? signature_size + 1)%nat then
    revision ← greeting_recv g !! revision_pos;
    if (revision =? ZMTP_1_0) || (revision =? ZMTP_2_0) then Some (put [u8 (type (g_opts o))] g)
    else
      _ ← zmq_assert mechanism_ok;
      Some (set_greeting_size v3_greeting_size (put ([0] ++ padded 20 mechanism_name ++ replicate 32 0) g))
  else Some g.

(** The connection: [tcp_read] gives at most [n] of the bytes that have come, and
    perhaps fewer ([k]). *)
Definition tcp_read (k n : nat) (avail : list Z) : list Z * list Z :=
  let m := Nat.min k n in (take m avail, drop m avail).

Inductive progress := Again | Unversioned | Versioned.

(** One turn of the loop of [receive_greeting], with the bytes of a [tcp_read]:
    the result if the loop ends, [Again] if it goes on. *)
Definition receive_chunk (chunk : list Z) (g : greeting) : option (progress * greeting) :=
  let g := Greet (greeting_recv g ++ chunk) (greeting_size g) (greeting_send g) (outsize g) (pollout g) in
  first ← greeting_recv g !! 0%nat;
  if negb (first =? 255) then Some (Unversioned, g)
  else if (length (greeting_recv g) <? signature_size)%nat then Some (Again, g)
  else
    flags ← greeting_recv g !! 9%nat;
    if Z.land flags 1 =? 0 then Some (Unversioned, g)
    else
      g ← receive_greeting_versioned g;
      Some (if (length (greeting_recv g) <? greeting_size g)%nat then Again else Versioned, g).

(** [receive_greeting], with what the connection gives at each [tcp_read]; [Again]
    is EAGAIN.  The rest of the bytes stays in the connection. *)
Fixpoint receive_greeting (ks : list nat) (avail : list Z) (g : greeting) : option (progress * greeting * list Z) :=
  match ks with
  | [] => Some (Again, g, avail)
  | k :: ks =>
      let '(chunk, avail) := tcp_read k (greeting_size g - length (greeting_recv g)) avail in
      if bool_decide (chunk = []) then Some (Again, g, avail)
      else
        '(p, g) ← receive_chunk chunk g;
        match p with Again => receive_greeting ks avail g | _ => Some (p, g, avail) end
  end.

(** [out_event] for the bytes of the greeting: [k] of them are written. *)
Definition out_event (handshaking : bool) (k : nat) (g : greeting) : greeting :=
  if (outsize g =? 0)%nat then g
  else
    let left := (outsize g - Nat.min k (outsize g))%nat in
    Greet (greeting_recv g) (greeting_size g) (greeting_send g) left
          (if handshaking && (left =? 0)%nat then false else pollout g).

(** ** After the greeting *)

Inductive mechanism_kind := Null_mechanism | Plain_server | Plain_client | Curve_server | Curve_client.
Inductive protocol := V1_0_unversioned | V1_0 | V2_0 | V3_0 (m : mechanism_kind).
Inductive verdict := Accepted (p : protocol) | Zap_refused | Mismatch.

#[export] Instance mechanism_kind_eq_dec : EqDecision mechanism_kind.
Proof. solve_decision. Defined.
#[export] Instance protocol_eq_dec : EqDecision protocol.
Proof. solve_decision. Defined.
#[export] Instance verdict_eq_dec : EqDecision verdict.
Proof. solve_decision. Defined.

(** [session_base_t::zap_enabled] *)
Definition zap_enabled : bool := negb (g_mechanism o =? ZMQ_NULL) || negb (bool_decide (zap_domain (g_opts o) = [])).

(** [memcmp (_greeting_recv + 12, name, 20) == 0] *)
Definition peer_mechanism_is (name : string) (recv : list Z) : bool :=
  bool_decide (take 20 (drop 12 recv) = padded 20 (bytes_of name)).

Definition handshake_v3_0 (recv : list Z) : verdict :=
  if (g_mechanism o =? ZMQ_NULL) && peer_mechanism_is "NULL" recv then Accepted (V3_0 Null_mechanism)
  else if (g_mechanism o =? ZMQ_PLAIN) && peer_mechanism_is "PLAIN" recv then Accepted (V3_0 (if as_server o then Plain_server else Plain_client))
  else if (g_mechanism o =? ZMQ_CURVE) && peer_mechanism_is "CURVE" recv then Accepted (V3_0 (if as_server o then Curve_server else Curve_client))
  else Mismatch.

Definition handshake_v2_0 : verdict := if zap_enabled then Zap_refused else Accepted V2_0.
Definition handshake_v1_0 : verdict := if zap_enabled then Zap_refused else Accepted V1_0.
Definition handshake_v1_0_unversioned : verdict := if zap_enabled then Zap_refused else Accepted V1_0_unversioned.

Definition select_handshake_fun (unversioned : bool) (recv : list Z) : verdict :=
  if unversioned then handshake_v1_0_unversioned
  else
    let revision := default 0 (recv !! revision_pos) in
    if revision =? ZMTP_1_0 then handshake_v1_0
    else if revision =? ZMTP_2_0 then handshake_v2_0
    else handshake_v3_0 recv.

(** [handshake]: the verdict, once the greeting is there. *)
Definition handshake (ks : list nat) (avail : list Z) (g : greeting) : option (option verdict * greeting * list Z) :=
  _ ← zmq_assert (length (greeting_recv g) <? greeting_size g)%nat;
  '(p, g, avail) ← receive_greeting ks avail g;
  match p with
  | Again => Some (None, g, avail)
  | _ =>
      let out := select_handshake_fun (match p with Unversioned => true | _ => false end) (greeting_recv g) in
      let g := match out with
               | Accepted _ => Greet (greeting_recv g) (greeting_size g) (greeting_send g) (outsize g) (if (outsize g =? 0)%nat then true else pollout g)
               | _ => g
               end in
      Some (Some out, g, avail)
  end.

(** The encoder that [handshake_v1_0_unversioned] leaves, the header of the
    routing id message being on the wire already. *)
Definition unversioned_encoder (junk : list Z) (out_batch_size : nat) : option (enc v1_encoder) :=
  let header_size := if 255 <=? Z.of_nat (length (routing_id (g_opts o))) + 1 then 10%nat else 2%nat in
  e ← load_msg (Frame 0 (routing_id (g_opts o))) (encoder_new junk out_batch_size);
  '(_, bytes, e) ← encode (Some header_size) e;
  _ ← zmq_assert (length bytes =? header_size)%nat;
  Some e.
End greeting.

(** * Correctness *)

(** ** What is sent, by what has been received *)

Section spec.
Context (o : greeting_options).
Hypothesis Hmech : mechanism_ok o = true.

(** So far the peer speaks a versioned protocol. *)
Definition versioned (recv : list Z) : bool :=
  match recv with
  | [] => true
  | first :: _ => (first =? 255) && (if decide (10 ≤ length recv)%nat then negb (Z.land (default 0 (recv !! 9%nat)) 1 =? 0) else true)
  end.

Definition old_revision (recv : list Z) : bool :=
  let revision := default 0 (recv !! revision_pos) in (revision =? ZMTP_1_0) || (revision =? ZMTP_2_0).

(** The greeting sent to a peer of the same version. *)
Definition full : list Z := signature o ++ [3] ++ [0] ++ padded 20 (mechanism_name o) ++ replicate 32 0.

Definition answer (recv : list Z) : list Z :=
  if (length recv <? 10)%nat then signature o
  else if (length recv =? 10)%nat then signature o ++ [3]
  else if old_revision recv then signature o ++ [3] ++ [u8 (type (g_opts o))]
  else full.

Definition expected (recv : list Z) : nat := if (10 <? length recv)%nat && negb (old_revision recv) then 64%nat else 12%nat.

(** Before the end of the greeting. *)
Record ginv (g : greeting) : Prop := {
  gi_versioned : versioned (greeting_recv g) = true;
  gi_send : greeting_send g = answer (greeting_recv g);
  gi_size : greeting_size g = expected (greeting_recv g);
  gi_recv : (length (greeting_recv g) ≤ greeting_size g)%nat;
  gi_out : (outsize g ≤ length (greeting_send g))%nat;
  gi_poll : (0 < outsize g)%nat → pollout g = true }.

Lemma length_signature : length (signature o) = 10%nat.
Proof. done. Qed.

Lemma length_mechanism_name : (length (mechanism_name o) ≤ 20)%nat.
Proof. unfold mechanism_name. repeat case_match; by apply Nat.leb_le. Qed.

Lemma length_padded n s : (length s ≤ n)%nat → length (padded n s) = n.
Proof. intros H. unfold padded. rewrite length_app, length_replicate. lia. Qed.

Lemma length_full : length full = 64%nat.
Proof.
  unfold full. rewrite !length_app, length_signature, length_padded, length_replicate by apply length_mechanism_name. done.
Qed.

Lemma length_answer recv : length (answer recv) =
  if (length recv <? 10)%nat then 10%nat else if (length recv =? 10)%nat then 11%nat else if old_revision recv then 12%nat else 64%nat.
Proof.
  unfold answer. repeat case_match; rewrite ?length_full, ?length_app, ?length_signature; done.
Qed.

Lemma plug_inv : ginv (plug o).
Proof. split; [done|done|done|by apply Nat.leb_le|by apply Nat.leb_le|done]. Qed.

Lemma versioned_app r1 r2 : versioned (r1 ++ r2) = true → versioned r1 = true.
Proof.
  destruct r1 as [|b r1]; [done|]. cbn [app versioned]. intros [-> H]%andb_prop. cbn [andb].
  change (b :: r1 ++ r2) with ((b :: r1) ++ r2) in H. rewrite length_app in H.
  destruct (decide (10 ≤ length (b :: r1))%nat) as [Hl|]; [|done]. rewrite decide_True in H by lia.
  by rewrite lookup_app_l in H by lia.
Qed.

Lemma old_revision_app r1 r2 : (10 < length r1)%nat → old_revision (r1 ++ r2) = old_revision r1.
Proof. intros H. unfold old_revision, revision_pos. by rewrite lookup_app_l by lia. Qed.

Lemma revision_at recv : (10 < length recv)%nat → recv !! revision_pos = Some (default 0 (recv !! revision_pos)).
Proof. intros H. destruct (lookup_lt_is_Some_2 recv revision_pos H) as [x Hx]. by rewrite Hx. Qed.

(** [put] keeps the poller informed. *)
Lemma put_poll bytes g : (outsize g ≤ length (greeting_send g))%nat → ((0 < outsize g)%nat → pollout g = true) →
  (outsize (put bytes g) ≤ length (greeting_send (put bytes g)))%nat ∧ ((0 < outsize (put bytes g))%nat → pollout (put bytes g) = true).
Proof.
  intros Ho Hp. cbn. rewrite length_app. split; [lia|]. intros _. destruct (outsize g) eqn:E; [done|]. cbn. apply Hp. lia.
Qed.

(** The rest of the greeting, once the revision is known. *)
Lemma revision_ok recv g : greeting_recv g = recv → (10 < length recv ≤ 12)%nat → versioned recv = true →
  greeting_send g = signature o ++ [3] → greeting_size g = 12%nat → (outsize g ≤ 11)%nat → ((0 < outsize g)%nat → pollout g = true) →
  ∃ g', (revision ← recv !! revision_pos;
         if (revision =? ZMTP_1_0) || (revision =? ZMTP_2_0) then Some (put [u8 (type (g_opts o))] g)
         else _ ← zmq_assert (mechanism_ok o);
              Some (set_greeting_size v3_greeting_size (put ([0] ++ padded 20 (mechanism_name o) ++ replicate 32 0) g))) = Some g' ∧
    ginv g' ∧ greeting_recv g' = recv.
Proof.
  intros Hrecv Hl Hv Hs Hsz Ho Hp. rewrite revision_at by lia. cbn [mbind option_bind].
  assert (Ho' : (outsize g ≤ length (greeting_send g))%nat) by (rewrite Hs, length_app; cbn; lia).
  assert (Hl10 : (length recv <? 10)%nat = false ∧ (length recv =? 10)%nat = false ∧ (10 <? length recv)%nat = true).
  { split; [apply Nat.ltb_ge; lia|]. split; [apply Nat.eqb_neq; lia|apply Nat.ltb_lt; lia]. }
  destruct Hl10 as (Hl1 & Hl2 & Hl3). fold (old_revision recv). destruct (old_revision recv) eqn:Hrev.
  - destruct (put_poll [u8 (type (g_opts o))] g Ho' Hp) as [H1 H2]. eexists. split; [reflexivity|]. split; [|exact Hrecv].
    split; [cbn; by rewrite Hrecv| | | |exact H1|exact H2]; cbn [put greeting_recv greeting_send greeting_size]; rewrite Hrecv.
    + unfold answer. by rewrite Hl1, Hl2, Hrev, Hs, <- (assoc_L app).
    + unfold expected. by rewrite Hl3, Hrev.
    + lia.
  - rewrite Hmech. cbn [zmq_assert mbind option_bind].
    destruct (put_poll ([0] ++ padded 20 (mechanism_name o) ++ replicate 32 0) g Ho' Hp) as [H1 H2]. eexists. split; [reflexivity|].
    split; [|exact Hrecv]. split; [cbn; by rewrite Hrecv| | | |exact H1|exact H2];
      cbn [put set_greeting_size greeting_recv greeting_send greeting_size]; rewrite Hrecv.
    + unfold answer. by rewrite Hl1, Hl2, Hrev, Hs, <- (assoc_L app).
    + unfold expected. by rewrite Hl3, Hrev.
    + unfold v3_greeting_size. lia.
Qed.

Lemma versioned_ok old chunk os po : chunk ≠ [] → let recv := old ++ chunk in
  (10 ≤ length recv ≤ expected old)%nat → versioned recv = true → (os ≤ length (answer old))%nat → ((0 < os)%nat → po = true) →
  ∃ g', receive_greeting_versioned o (Greet recv (expected old) (answer old) os po) = Some g' ∧ ginv g' ∧ greeting_recv g' = recv.
Proof.
  intros Hc recv Hl Hv Ho Hp. assert (Hlen : length recv = (length old + length chunk)%nat) by apply length_app.
  assert (Hpos : (0 < length chunk)%nat) by (destruct chunk; [done|cbn; lia]).
  unfold receive_greeting_versioned. cbn [greeting_send greeting_recv]. rewrite length_answer in Ho |- *. unfold signature_size.
  destruct (length old <? 10)%nat eqn:H1; [|destruct (length old =? 10)%nat eqn:H2].
  - apply Nat.ltb_lt in H1. unfold expected in *. rewrite (proj2 (Nat.ltb_ge 10 (length old))) in * by lia. cbn [andb] in *.
    change (10 =? 10)%nat with true. cbv iota zeta. unfold answer. rewrite (proj2 (Nat.ltb_lt _ _) H1).
    destruct (put_poll [3] (Greet recv 12 (signature o) os po)) as [Ho' Hp']; [done|done|].
    set (g := put [3] _) in *. change (greeting_recv g) with recv. change (length (greeting_send g) =? 10 + 1)%nat with true.
    destruct (10 <? length recv)%nat eqn:H3; cbn [andb].
    + apply Nat.ltb_lt in H3. apply revision_ok; [done|lia|done|done|done|exact Ho'|exact Hp'].
    + apply Nat.ltb_ge in H3. assert (Hr10 : length recv = 10%nat) by lia. eexists. split; [reflexivity|]. split; [|done].
      split; [exact Hv| | | |exact Ho'|exact Hp']; cbn [g put greeting_recv greeting_send greeting_size];
        unfold answer, expected; rewrite Hr10; first [done|lia].
  - apply Nat.eqb_eq in H2. unfold expected, answer in *. rewrite H2 in *. change (11 =? 10)%nat with false. cbn [greeting_recv greeting_send].
    change (10 <? 10)%nat with false in *. change (10 =? 10)%nat with true in *. cbn [andb] in *. cbv iota zeta in *.
    rewrite (proj2 (Nat.ltb_lt 10 (length recv))) by lia. change (length (signature o ++ [3%Z]) =? 10 + 1)%nat with true. cbn [andb].
    apply revision_ok; [done|lia|done|done|done|exact Ho|exact Hp].
  - apply Nat.ltb_ge in H1. apply Nat.eqb_neq in H2.
    assert (Hrev : old_revision recv = old_revision old) by (apply old_revision_app; lia).
    assert (Hsend : length (answer old) = if old_revision old then 12%nat else 64%nat).
    { rewrite length_answer. rewrite (proj2 (Nat.ltb_ge _ _)), (proj2 (Nat.eqb_neq _ _)) by lia. done. }
    assert (Hans : answer recv = answer old).
    { unfold answer. rewrite Hrev. rewrite !(proj2 (Nat.ltb_ge _ _)), !(proj2 (Nat.eqb_neq _ _)) by lia. done. }
    assert (Hexp : expected recv = expected old).
    { unfold expected. rewrite Hrev. by rewrite !(proj2 (Nat.ltb_lt _ _)) by lia. }
    assert (Hno : ((if old_revision old then 12 else 64) =? 10)%nat = false ∧ ((if old_revision old then 12 else 64) =? 10 + 1)%nat = false)
      by (by destruct (old_revision old)).
    destruct Hno as [Hno1 Hno2]. rewrite Hno1. cbv iota zeta. cbn [greeting_recv greeting_send]. rewrite Hsend, Hno2, andb_false_r.
    eexists. split; [reflexivity|]. split; [|done]. split; cbn [greeting_recv greeting_send greeting_size outsize pollout]; try done.
    + lia.
    + by rewrite Hsend.
Qed.

(** The end of a piece. *)
Lemma receive_chunk_ok chunk g : ginv g → chunk ≠ [] → (length (greeting_recv g) + length chunk ≤ greeting_size g)%nat →
  ∃ p g', receive_chunk o chunk g = Some (p, g') ∧ greeting_recv g' = greeting_recv g ++ chunk ∧
    match p with
    | Unversioned => versioned (greeting_recv g') = false ∧ greeting_send g' = signature o ∧ (length (greeting_recv g') ≤ 64)%nat
    | Versioned => ginv g' ∧ length (greeting_recv g') = greeting_size g'
    | Again => ginv g' ∧ (length (greeting_recv g') < greeting_size g')%nat
    end.
Proof.
  intros [Hv Hs Hsz Hr Ho Hp] Hc Hl. unfold receive_chunk. cbn [greeting_recv greeting_size greeting_send outsize pollout].
  set (recv := greeting_recv g ++ chunk) in *.
  assert (Hlen : length recv = (length (greeting_recv g) + length chunk)%nat) by apply length_app.
  assert (Hpos : (0 < length chunk)%nat) by (destruct chunk; [done|cbn; lia]).
  assert (Hshort : versioned recv = false → greeting_send g = signature o).
  { intros Hnv. rewrite Hs. unfold answer. destruct (length (greeting_recv g) <? 10)%nat eqn:H1; [done|]. apply Nat.ltb_ge in H1. exfalso.
    unfold recv in Hnv. destruct (greeting_recv g) as [|b r]; [cbn in H1; lia|]. cbn [app versioned] in *.
    change (b :: r ++ chunk) with ((b :: r) ++ chunk) in Hnv. rewrite decide_True in Hnv by (rewrite length_app; lia).
    rewrite lookup_app_l in Hnv by lia. rewrite decide_True in Hv by lia. congruence. }
  assert (Hsize : ∀ r, (expected r ≤ 64)%nat) by (intros r; unfold expected; destruct (_ && _); lia). specialize (Hsize (greeting_recv g)).
  destruct (recv !! 0%nat) as [first|] eqn:H0; [|apply lookup_ge_None in H0; lia]. cbn [mbind option_bind].
  assert (Hhead : recv = first :: tail recv) by (destruct recv; [done|]; by injection H0 as ->).
  destruct (first =? 255) eqn:Hf; cbn [negb].
  2: { exists Unversioned. eexists. split; [reflexivity|]. cbn. split; [done|].
       assert (Hnv : versioned recv = false) by (rewrite Hhead; cbn [versioned]; by rewrite Hf). split; [exact Hnv|]. split; [by apply Hshort|lia]. }
  unfold signature_size. destruct (length recv <? 10)%nat eqn:H10.
  { apply Nat.ltb_lt in H10. exists Again. eexists. split; [reflexivity|]. cbn [greeting_recv greeting_size]. split; [done|].
    assert (Hexp : ∀ r, (length r < 10)%nat → expected r = 12%nat) by (intros r Hr'; unfold expected; by rewrite (proj2 (Nat.ltb_ge _ _)) by lia).
    rewrite Hsz, Hexp by lia. split; [|lia]. split; cbn [greeting_recv greeting_send greeting_size outsize pollout]; try done.
    - rewrite Hhead. cbn [versioned]. rewrite <- Hhead, Hf, decide_False by lia. done.
    - rewrite Hs. unfold answer. by rewrite !(proj2 (Nat.ltb_lt _ _)) by lia.
    - by rewrite Hexp.
    - lia. }
  apply Nat.ltb_ge in H10. destruct (recv !! 9%nat) as [flags|] eqn:H9; [|apply lookup_ge_None in H9; lia]. cbn [mbind option_bind].
  assert (Hver : versioned recv = negb (Z.land flags 1 =? 0)).
  { rewrite Hhead. cbn [versioned]. rewrite <- Hhead, Hf, decide_True by lia. by rewrite H9. }
  destruct (Z.land flags 1 =? 0) eqn:Hflags.
  { exists Unversioned. eexists. split; [reflexivity|]. cbn. split; [done|]. split; [exact Hver|]. split; [by apply Hshort|lia]. }
  destruct (versioned_ok (greeting_recv g) chunk (outsize g) (pollout g) Hc) as (g' & Hg' & Hinv & Hrecv); [fold recv; lia|exact Hver|by rewrite <- Hs|exact Hp|].
  rewrite Hsz, Hs. fold recv in Hg'. rewrite Hg'. cbn [mbind option_bind]. pose proof (gi_recv _ Hinv).
  destruct (length (greeting_recv g') <? greeting_size g')%nat eqn:Hlt; eexists _, g'; (split; [reflexivity|]); (split; [exact Hrecv|]).
  - split; [done|by apply Nat.ltb_lt].
  - apply Nat.ltb_ge in Hlt. split; [done|lia].
Qed.

Lemma tcp_read_spec k n avail : let '(chunk, rest) := tcp_read k n avail in avail = chunk ++ rest ∧ (length chunk ≤ n)%nat.
Proof. unfold tcp_read. rewrite take_drop, length_take. split; [done|lia]. Qed.

Lemma receive_greeting_ok ks : ∀ avail g, ginv g → (length (greeting_recv g) < greeting_size g)%nat →
  ∃ p g' rest, receive_greeting o ks avail g = Some (p, g', rest) ∧ greeting_recv g ++ avail = greeting_recv g' ++ rest ∧
    match p with
    | Unversioned => versioned (greeting_recv g') = false ∧ greeting_send g' = signature o ∧ (length (greeting_recv g') ≤ 64)%nat
    | Versioned => ginv g' ∧ length (greeting_recv g') = greeting_size g'
    | Again => ginv g' ∧ (length (greeting_recv g') < greeting_size g')%nat
    end.
Proof.
  induction ks as [|k ks IH]; intros avail g Hg Hl; cbn [receive_greeting].
  { by exists Again, g, avail. }
  pose proof (tcp_read_spec k (greeting_size g - length (greeting_recv g)) avail) as Hr.
  destruct (tcp_read k _ avail) as [chunk rest]. destruct Hr as [-> Hn].
  destruct (bool_decide (chunk = [])) eqn:Hc; [apply bool_decide_eq_true in Hc as ->; by exists Again, g, rest|].
  apply bool_decide_eq_false in Hc. destruct (receive_chunk_ok chunk g Hg Hc) as (p & g1 & Hg1 & Hrecv & Hp); [lia|].
  rewrite Hg1. cbn [mbind option_bind]. rewrite (assoc_L app), <- Hrecv. destruct p.
  - destruct Hp as [Hg1' Hl1]. by apply IH.
  - by exists Unversioned, g1, rest.
  - by exists Versioned, g1, rest.
Qed.
End spec.

(** ** Reading writes nothing *)

Definition unwritten (g g' : greeting) : Prop :=
  (outsize g' + length (greeting_send g) = outsize g + length (greeting_send g'))%nat.

Lemma put_unwritten bytes g g0 : unwritten g0 g → unwritten g0 (put bytes g).
Proof. unfold unwritten. cbn. rewrite length_app. lia. Qed.

Lemma versioned_unwritten o g g' g0 : unwritten g0 g → receive_greeting_versioned o g = Some g' → unwritten g0 g'.
Proof.
  unfold receive_greeting_versioned. intros H0. set (g1 := if (_ =? _)%nat then _ else _).
  assert (H1 : unwritten g0 g1) by (unfold g1; destruct (_ =? _)%nat; [by apply put_unwritten|done]). clearbody g1.
  destruct (_ && _); [|by intros [= <-]]. destruct (_ !! _) as [rev|]; [|done]. cbn [mbind option_bind].
  destruct (_ || _); [intros [= <-]; by apply put_unwritten|]. destruct (zmq_assert _); [|done]. cbn [mbind option_bind].
  intros [= <-]. unfold unwritten, set_greeting_size. cbn [greeting_send outsize]. by apply put_unwritten.
Qed.

Lemma chunk_unwritten o c g p g' : receive_chunk o c g = Some (p, g') → unwritten g g'.
Proof.
  unfold receive_chunk. set (g1 := Greet _ _ _ _ _). assert (H1 : unwritten g g1) by done. clearbody g1.
  destruct (_ !! 0%nat); [|done]. cbn [mbind option_bind]. destruct (negb _); [by intros [= <- <-]|].
  destruct (_ <? _)%nat; [by intros [= <- <-]|]. destruct (_ !! 9%nat); [|done]. cbn [mbind option_bind].
  destruct (_ =? 0); [by intros [= <- <-]|]. destruct (receive_greeting_versioned o g1) as [g2|] eqn:H2; [|done].
  intros [= <- <-]. by eapply versioned_unwritten.
Qed.

Lemma greeting_unwritten o ks : ∀ avail g p g' rest, receive_greeting o ks avail g = Some (p, g', rest) → unwritten g g'.
Proof.
  induction ks as [|k ks IH]; intros avail g p g' rest; cbn [receive_greeting]; [by intros [= <- <- <-]|].
  destruct (tcp_read k _ avail) as [c rest1]. destruct (bool_decide _); [by intros [= <- <- <-]|].
  destruct (receive_chunk o c g) as [[p1 g1]|] eqn:H1; [|done]. cbn [mbind option_bind]. apply chunk_unwritten in H1.
  destruct p1; [|by intros [= <- <- <-]..]. intros H2%IH. unfold unwritten in *. lia.
Qed.

Lemma versioned_recv o g g' : receive_greeting_versioned o g = Some g' → greeting_recv g' = greeting_recv g.
Proof.
  unfold receive_greeting_versioned. set (g1 := if (_ =? _)%nat then _ else _).
  assert (H1 : greeting_recv g1 = greeting_recv g) by (unfold g1; by destruct (_ =? _)%nat). rewrite <- H1. clearbody g1.
  destruct (_ && _); [|by intros [= <-]]. destruct (_ !! _); [|done]. cbn [mbind option_bind].
  destruct (_ || _); [by intros [= <-]|]. destruct (zmq_assert _); [|done]. by intros [= <-].
Qed.

Lemma chunk_recv o c g p g' : receive_chunk o c g = Some (p, g') → greeting_recv g' = greeting_recv g ++ c.
Proof.
  unfold receive_chunk. set (g1 := Greet _ _ _ _ _). change (greeting_recv g ++ c) with (greeting_recv g1). clearbody g1.
  destruct (_ !! 0%nat); [|done]. cbn [mbind option_bind]. destruct (negb _); [by intros [= <- <-]|].
  destruct (_ <? _)%nat; [by intros [= <- <-]|]. destruct (_ !! 9%nat); [|done]. cbn [mbind option_bind].
  destruct (_ =? 0); [by intros [= <- <-]|]. destruct (receive_greeting_versioned o g1) as [g2|] eqn:H2; [|done].
  intros [= <- <-]. by eapply versioned_recv.
Qed.

Lemma greeting_grows o ks : ∀ avail g p g' rest, receive_greeting o ks avail g = Some (p, g', rest) →
  ∃ c, greeting_recv g' = greeting_recv g ++ c ∧ (c = [] → g' = g).
Proof.
  induction ks as [|k ks IH]; intros avail g p g' rest; cbn [receive_greeting].
  { intros [= <- <- <-]. exists []. by rewrite app_nil_r. }
  destruct (tcp_read k _ avail) as [c rest1]. destruct (bool_decide (c = [])) eqn:Hc.
  { intros [= <- <- <-]. exists []. by rewrite app_nil_r. }
  apply bool_decide_eq_false in Hc. destruct (receive_chunk o c g) as [[p1 g1]|] eqn:H1; [|done]. cbn [mbind option_bind]. apply chunk_recv in H1.
  assert (Hend : ∃ c0, greeting_recv g1 = greeting_recv g ++ c0 ∧ (c0 = [] → g1 = g)) by (exists c; split; [done|by intros ->]).
  destruct p1; [|by intros [= <- <- <-]..]. intros (c2 & H2 & _)%IH. exists (c ++ c2). rewrite H2, H1, (assoc_L app). split; [done|].
  by intros [-> _]%app_eq_nil.
Qed.

(** ** Any pieces *)

(** C40. The greeting depends on the bytes that come and not on the pieces they
    come in, and reads no byte too many: [receive_greeting] always returns and
    fails no assertion; it has an unversioned peer as soon as the first byte, or
    the tenth, says so, having sent the signature alone; it has a versioned peer
    after exactly 12 bytes if their revision is old, and 64 otherwise, having sent
    the major version and the socket type, or the whole greeting; until then it
    asks for more, having sent the part of the answer that is due.  Neither buffer
    of 64 bytes overflows, and the poller is asked for output while bytes remain
    to be written. *)
Theorem greeting_exact o ks avail : mechanism_ok o = true →
  ∃ p g rest, receive_greeting o ks avail (plug o) = Some (p, g, rest) ∧
    let recv := greeting_recv g in
    avail = recv ++ rest ∧ (length recv ≤ 64)%nat ∧ (length (greeting_send g) ≤ 64)%nat ∧
    match p with
    | Unversioned => versioned recv = false ∧ greeting_send g = signature o
    | Versioned => versioned recv = true ∧ length recv = expected recv ∧ greeting_send g = answer o recv ∧ greeting_size g = expected recv
    | Again => versioned recv = true ∧ (length recv < expected recv)%nat ∧ greeting_send g = answer o recv ∧
               ((0 < outsize g)%nat → pollout g = true)
    end.
Proof.
  intros Hm. destruct (receive_greeting_ok o Hm ks avail (plug o) (plug_inv o) ltac:(apply Nat.ltb_lt; done)) as (p & g & rest & Hr & Ha & Hp).
  exists p, g, rest. split; [exact Hr|]. cbn [plug greeting_recv app] in Ha. split; [exact Ha|].
  assert (Hx : ∀ r, (expected r ≤ 64)%nat) by (intros r; unfold expected; destruct (_ && _); lia). specialize (Hx (greeting_recv g)).
  assert (Hans : (length (answer o (greeting_recv g)) ≤ 64)%nat) by (rewrite length_answer; repeat case_match; lia).
  destruct p.
  - destruct Hp as [[Hv Hs Hsz Hl _ Hpo] Hlt]. rewrite Hsz in *. rewrite Hs. split; [lia|]. by split_and!.
  - destruct Hp as (Hv & Hs & Hl). split; [exact Hl|]. rewrite Hs. split; [by apply Nat.leb_le|]. done.
  - destruct Hp as [[Hv Hs Hsz Hl _ _] Hlt]. rewrite Hsz in *. rewrite Hs. split; [lia|]. by split_and!.
Qed.

(** ** Two engines *)

(** An engine in the greeting: the verdict, once there is one. *)
Record side := Side { greet : greeting; result : option verdict }.

Definition written_size (e : side) : nat := length (greeting_send (greet e)) - outsize (greet e).
Definition written (e : side) : list Z := take (written_size e) (greeting_send (greet e)).

(** An engine that is refused is gone. *)
Definition alive (e : side) : bool :=
  match result e with None | Some (Accepted _) => true | _ => false end.

Definition start_side (o : greeting_options) : side := Side (plug o) None.

(** [in_event] with one [tcp_read], and [out_event]. *)
Definition side_reads (o : greeting_options) (k : nat) (peer e : side) : option side :=
  '(v, g, _) ← handshake o [k] (drop (length (greeting_recv (greet e))) (written peer)) (greet e);
  Some (Side g v).

Definition side_writes (k : nat) (e : side) : side := Side (out_event (bool_decide (result e = None)) k (greet e)) (result e).

Inductive pair_step (o1 o2 : greeting_options) : side * side → side * side → Prop :=
| left_writes k l r : (0 < k)%nat → alive l = true → (0 < outsize (greet l))%nat → pollout (greet l) = true →
    pair_step o1 o2 (l, r) (side_writes k l, r)
| right_writes k l r : (0 < k)%nat → alive r = true → (0 < outsize (greet r))%nat → pollout (greet r) = true →
    pair_step o1 o2 (l, r) (l, side_writes k r)
| left_reads k l r l' : result l = None → side_reads o1 k r l = Some l' → greet l' ≠ greet l →
    pair_step o1 o2 (l, r) (l', r)
| right_reads k l r r' : result r = None → side_reads o2 k l r = Some r' → greet r' ≠ greet r →
    pair_step o1 o2 (l, r) (l, r').

(** What two engines come to. *)
Definition agreed (o o' : greeting_options) : verdict :=
  if (g_mechanism o =? g_mechanism o') && negb (g_mechanism o =? ZMQ_GSSAPI) then
    Accepted (V3_0 (if g_mechanism o =? ZMQ_NULL then Null_mechanism
                    else if g_mechanism o =? ZMQ_PLAIN then if as_server o then Plain_server else Plain_client
                    else if as_server o then Curve_server else Curve_client))
  else Mismatch.

(** One side *)
Section side.
Context (o o' : greeting_options).
Hypothesis Hm : mechanism_ok o = true.
Hypothesis Hm' : mechanism_ok o' = true.

(** How much of its greeting a side has to send. *)
Definition due (n : nat) : nat := if (n <? 10)%nat then 10%nat else if (n =? 10)%nat then 11%nat else 64%nat.

Lemma full_lookup i : (i ≤ 11)%nat → ∃ b, full o' !! i = Some b ∧
  (i = 0%nat → b = 255) ∧ (i = 9%nat → b = 0x7f) ∧ (i = 10%nat → b = 3).
Proof.
  intros Hi. unfold full, signature, put_uint64.
  do 12 (destruct i as [|i]; [eexists; split; [reflexivity|]; split; [lia|split; lia]|]). lia.
Qed.

Lemma full_at i b : (i ≤ 11)%nat → full o' !! i = Some b → (i = 0%nat → b = 255) ∧ (i = 9%nat → b = 0x7f) ∧ (i = 10%nat → b = 3).
Proof. intros Hi Hb. destruct (full_lookup i Hi) as (b' & Hb' & H). rewrite Hb in Hb'. by injection Hb' as <-. Qed.

Lemma versioned_full a : versioned (take a (full o')) = true.
Proof.
  destruct (full_lookup 0 ltac:(lia)) as (b0 & H0 & Hb0 & _). rewrite (Hb0 eq_refl) in H0.
  destruct a as [|a]; [done|]. destruct (full o') as [|b l] eqn:Hf; [done|]. injection H0 as ->. cbn [take versioned].
  rewrite Z.eqb_refl. cbn [andb]. destruct (decide _) as [Hl|]; [|done]. cbn [length] in Hl. rewrite length_take in Hl.
  change (255 :: take a l) with (take (S a) (255 :: l)). rewrite <- Hf, lookup_take_lt by lia.
  destruct (full_lookup 9 ltac:(lia)) as (b9 & H9 & _ & Hb9 & _). by rewrite H9, (Hb9 eq_refl).
Qed.

Lemma revision_full a : (10 < a)%nat → old_revision (take a (full o')) = false.
Proof.
  intros Ha. unfold old_revision, revision_pos. rewrite lookup_take_lt by lia.
  destruct (full_lookup 10 ltac:(lia)) as (b & Hb & _ & _ & H3). by rewrite Hb, (H3 eq_refl).
Qed.

Lemma length_take_full a : (a ≤ 64)%nat → length (take a (full o')) = a.
Proof. intros H. rewrite length_take, length_full. lia. Qed.

Lemma answer_full a : (a ≤ 64)%nat → answer o (take a (full o')) = take (due a) (full o).
Proof.
  intros Ha. unfold answer, due. rewrite length_take_full by done. destruct (a <? 10)%nat eqn:H1; [by unfold full; rewrite take_app_length'|].
  destruct (a =? 10)%nat eqn:H2; [unfold full; by rewrite (assoc_L app), take_app_length'|].
  apply Nat.ltb_ge in H1. apply Nat.eqb_neq in H2. rewrite revision_full by lia. rewrite take_ge; [done|by rewrite length_full].
Qed.

Lemma expected_full a : (a ≤ 64)%nat → expected (take a (full o')) = if (10 <? a)%nat then 64%nat else 12%nat.
Proof.
  intros Ha. unfold expected. rewrite length_take_full by done. destruct (10 <? a)%nat eqn:H; [|done].
  apply Nat.ltb_lt in H. by rewrite revision_full.
Qed.

Lemma peer_mechanism_full name : peer_mechanism_is name (full o') = bool_decide (padded 20 (mechanism_name o') = padded 20 (bytes_of name)).
Proof.
  unfold peer_mechanism_is. f_equal. unfold full. rewrite !(assoc_L app). rewrite <- (assoc_L app _ (padded _ _)).
  rewrite drop_app_length' by done. by rewrite take_app_length' by (rewrite length_padded; [done|apply length_mechanism_name]).
Qed.

Lemma mechanism_cases x : mechanism_ok x = true →
  g_mechanism x = 0 ∨ g_mechanism x = 1 ∨ g_mechanism x = 2 ∨ g_mechanism x = 3.
Proof. unfold mechanism_ok, ZMQ_NULL, ZMQ_PLAIN, ZMQ_CURVE, ZMQ_GSSAPI. intros H. lia. Qed.

(** The mechanisms are compared by the 20 bytes of their names. *)
Lemma select_full : select_handshake_fun o false (full o') = agreed o o'.
Proof.
  unfold select_handshake_fun, revision_pos. destruct (full_lookup 10 ltac:(lia)) as (b & Hb & _ & _ & H3). rewrite Hb, (H3 eq_refl).
  unfold handshake_v3_0, agreed. cbn [default]. change (3 =? ZMTP_1_0) with false. change (3 =? ZMTP_2_0) with false. cbv iota zeta.
  rewrite !peer_mechanism_full. unfold mechanism_name.
  destruct (mechanism_cases o Hm) as [E|[E|[E|E]]], (mechanism_cases o' Hm') as [E'|[E'|[E'|E']]]; rewrite E, E'; vm_compute; reflexivity.
Qed.

(** ** The invariant of one side *)

Record sinv (e : side) : Prop := {
  si_greet : ginv o (greet e);
  si_recv : greeting_recv (greet e) = take (length (greeting_recv (greet e))) (full o');
  si_result : match result e with
              | None => (length (greeting_recv (greet e)) < greeting_size (greet e))%nat
              | Some v => v = agreed o o' ∧ length (greeting_recv (greet e)) = greeting_size (greet e)
              end }.

Lemma sinv_start : sinv (start_side o).
Proof. split; [apply plug_inv|done|by apply Nat.ltb_lt]. Qed.

Lemma sinv_numbers e : sinv e → let a := length (greeting_recv (greet e)) in
  (a ≤ 64)%nat ∧ greeting_send (greet e) = take (due a) (full o) ∧ greeting_size (greet e) = (if (10 <? a)%nat then 64%nat else 12%nat) ∧
  match result e with None => (a < 64)%nat | Some v => v = agreed o o' ∧ a = 64%nat end.
Proof.
  intros [[Hv Hs Hsz Hl Ho Hp] Hr Hres] a.
  assert (Ha : (a ≤ 64)%nat).
  { unfold a. rewrite Hsz in Hl. unfold expected in Hl. destruct (_ && _) in Hl; lia. }
  assert (Hsize : greeting_size (greet e) = if (10 <? a)%nat then 64%nat else 12%nat) by (rewrite Hsz, Hr; by apply expected_full).
  split; [exact Ha|]. split; [rewrite Hs, Hr; by apply answer_full|]. split; [exact Hsize|].
  destruct (result e) as [v|].
  - destruct Hres as [-> Hlen]. split; [done|]. fold a in Hlen. rewrite Hsize in Hlen. destruct (10 <? a)%nat eqn:E; [done|]. apply Nat.ltb_ge in E. lia.
  - fold a in Hres. rewrite Hsize in Hres. destruct (10 <? a)%nat eqn:E; [done|]. apply Nat.ltb_ge in E. lia.
Qed.

Lemma due_bounds a : (10 ≤ due a ≤ 64)%nat.
Proof. unfold due. repeat case_match; lia. Qed.

(** ** Reading and writing *)

(** The verdict's change of the poller. *)
Lemma ginv_pollout g b : ginv o g → ginv o (Greet (greeting_recv g) (greeting_size g) (greeting_send g) (outsize g) (if (outsize g =? 0)%nat then b else pollout g)).
Proof.
  intros [H1 H2 H3 H4 H5 H6]. split; [done..|]. cbn [outsize pollout]. intros H. rewrite (proj2 (Nat.eqb_neq _ _)) by lia. by apply H6.
Qed.

Lemma side_handshake_ok k w e : sinv e → result e = None → (length (greeting_recv (greet e)) ≤ w ≤ 64)%nat →
  ∃ v g rest, handshake o [k] (drop (length (greeting_recv (greet e))) (take w (full o'))) (greet e) = Some (v, g, rest) ∧
    sinv (Side g v) ∧ written_size (Side g v) = written_size e ∧
    (length (greeting_recv (greet e)) ≤ length (greeting_recv g) ≤ w)%nat ∧
    (length (greeting_recv g) = length (greeting_recv (greet e)) → g = greet e).
Proof.
  intros He Hres [Haw Hw]. pose proof (sinv_numbers e He) as (Ha64 & _ & Hsz & Hlt). rewrite Hres in Hlt.
  destruct He as [Hg Hr Hsi]. rewrite Hres in Hsi. unfold handshake. rewrite (proj2 (Nat.ltb_lt _ _) Hsi). cbn [zmq_assert mbind option_bind].
  set (a := length (greeting_recv (greet e))) in *.
  destruct (receive_greeting_ok o Hm [k] (drop a (take w (full o'))) (greet e) Hg Hsi) as (p & g & rest & Hrg & Heq & Hp).
  rewrite Hrg. cbn [mbind option_bind]. pose proof (greeting_unwritten _ _ _ _ _ _ _ Hrg) as Hun.
  destruct (greeting_grows _ _ _ _ _ _ _ Hrg) as (c & Hgrow & Hnil).
  assert (Hfull : greeting_recv (greet e) ++ drop a (take w (full o')) = take w (full o')).
  { rewrite Hr at 1. rewrite <- (take_drop a (take w (full o'))) at 2. rewrite take_take, Nat.min_l by lia. done. }
  rewrite Hfull in Heq. assert (Hlen : (length (greeting_recv g) ≤ w)%nat).
  { apply (f_equal length) in Heq. rewrite length_app, length_take, length_full in Heq. lia. }
  assert (Hrecv : greeting_recv g = take (length (greeting_recv g)) (full o')).
  { apply (f_equal (take (length (greeting_recv g)))) in Heq. by rewrite take_app_length, take_take, Nat.min_l in Heq. }
  assert (Hmono : (a ≤ length (greeting_recv g))%nat) by (rewrite Hgrow, length_app; unfold a; lia).
  assert (Hsame : length (greeting_recv g) = a → g = greet e).
  { intros H. apply Hnil. destruct c; [done|]. rewrite Hgrow, length_app in H. cbn in H. unfold a in H. lia. }
  assert (Hws : ∀ po, (outsize g ≤ length (greeting_send g))%nat →
    (length (greeting_send g) - outsize (Greet (greeting_recv g) (greeting_size g) (greeting_send g) (outsize g) po) = written_size e)%nat).
  { intros po Ho. cbn [outsize]. unfold unwritten in Hun. unfold written_size. pose proof (gi_out _ _ Hg). lia. }
  destruct p.
  - destruct Hp as [Hgi Hl]. exists None, g, rest. split; [done|]. split; [by split|]. split; [|done].
    unfold written_size at 1. apply (Hws true), (gi_out _ _ Hgi).
  - destruct Hp as [Hnv _]. by rewrite Hrecv, versioned_full in Hnv.
  - destruct Hp as [Hgi Hl]. assert (H64 : greeting_recv g = full o').
    { rewrite Hrecv. apply take_ge. rewrite length_full. rewrite Hl, (gi_size _ _ Hgi), Hrecv, expected_full by lia.
      destruct (10 <? length (greeting_recv g))%nat eqn:E; [done|]. exfalso. apply Nat.ltb_ge in E.
      rewrite (gi_size _ _ Hgi), Hrecv, expected_full in Hl by lia. rewrite (proj2 (Nat.ltb_ge _ _) E) in Hl.
      rewrite length_take_full in Hl by lia. lia. }
    rewrite H64, select_full. set (g2 := match agreed o o' with Accepted _ => _ | _ => g end).
    assert (Hg2 : ginv o g2 ∧ greeting_recv g2 = greeting_recv g ∧ greeting_send g2 = greeting_send g ∧ outsize g2 = outsize g ∧ greeting_size g2 = greeting_size g).
    { unfold g2. rewrite <- H64. destruct (agreed o o'); [|done..]. split; [by apply ginv_pollout|done]. }
    destruct Hg2 as (Hgi2 & R1 & R2 & R3 & R4). exists (Some (agreed o o')), g2, rest.
    split; [done|]. clearbody g2. split; [split; cbn [greet result]; [exact Hgi2|by rewrite R1|by rewrite R1, R4]|]. cbn [greet].
    rewrite R1. split; [|split; [lia|]].
    + unfold written_size at 1. cbn [greet]. rewrite R2, R3. apply (Hws true), (gi_out _ _ Hgi).
    + intros H. exfalso. rewrite H64, length_full in H. lia.
Qed.

Lemma writes_ok k e : sinv e → (0 < k)%nat → (0 < outsize (greet e))%nat →
  sinv (side_writes k e) ∧ (written_size e < written_size (side_writes k e))%nat ∧
  greeting_recv (greet (side_writes k e)) = greeting_recv (greet e).
Proof.
  intros [[H1 H2 H3 H4 H5 H6] Hr Hres] Hk Ho. unfold side_writes, out_event, written_size. cbn [greet result].
  rewrite (proj2 (Nat.eqb_neq _ _)) by lia. set (n := Nat.min k (outsize (greet e))). assert (Hn : (0 < n ≤ outsize (greet e))%nat) by lia. clearbody n.
  cbn [greeting_recv greeting_send greeting_size outsize]. split; [|split; [lia|done]].
  split; cbn [greet result greeting_recv greeting_send greeting_size]; [|done|done]. split; cbn [greeting_recv greeting_send greeting_size outsize pollout]; [done..|lia|].
  intros Hleft. rewrite (proj2 (Nat.eqb_neq _ _)) by lia. rewrite andb_false_r. apply H6. lia.
Qed.

Lemma written_full e : sinv e → written e = take (written_size e) (full o) ∧ (written_size e ≤ due (length (greeting_recv (greet e))))%nat ∧
  (outsize (greet e) + written_size e = due (length (greeting_recv (greet e))))%nat.
Proof.
  intros He. pose proof (sinv_numbers e He) as (Ha & Hs & _). destruct He as [[_ _ _ _ Ho _] _ _]. pose proof (due_bounds (length (greeting_recv (greet e)))) as Hd.
  assert (Hlen : length (greeting_send (greet e)) = due (length (greeting_recv (greet e)))) by (rewrite Hs, length_take, length_full by done; lia).
  unfold written, written_size. rewrite Hlen in *. split; [|lia]. rewrite Hs, take_take. f_equal. lia.
Qed.
End side.

(** Both *)
Section pair.
Context (o1 o2 : greeting_options).
Hypothesis Hm1 : mechanism_ok o1 = true.
Hypothesis Hm2 : mechanism_ok o2 = true.

Definition got (e : side) : nat := length (greeting_recv (greet e)).

Record pinv (c : side * side) : Prop := {
  pi_left : sinv o1 o2 c.1;
  pi_right : sinv o2 o1 c.2;
  pi_got_left : (got c.1 ≤ written_size c.2)%nat;
  pi_got_right : (got c.2 ≤ written_size c.1)%nat }.

Definition progress_of (c : side * side) : nat := (got c.1 + written_size c.1 + got c.2 + written_size c.2)%nat.

Lemma reads_ok o o' k peer e : mechanism_ok o = true → mechanism_ok o' = true → sinv o o' e → sinv o' o peer →
  result e = None → (got e ≤ written_size peer)%nat →
  ∃ e', side_reads o k peer e = Some e' ∧ sinv o o' e' ∧ written_size e' = written_size e ∧
    (got e ≤ got e' ≤ written_size peer)%nat ∧ (got e' = got e → greet e' = greet e).
Proof.
  intros Hm Hm' He Hp Hres Hg. destruct (written_full o' o peer Hp) as (Hw & Hle & _).
  pose proof (due_bounds (length (greeting_recv (greet peer)))) as Hd.
  destruct (side_handshake_ok o o' Hm Hm' k (written_size peer) e He Hres) as (v & g & rest & Hh & Hs & Hws & Hlen & Hsame); [unfold got in Hg; lia|].
  unfold side_reads. rewrite Hw, Hh. cbn [mbind option_bind]. exists (Side g v). split; [done|]. split; [done|]. split; [done|].
  split; [exact Hlen|exact Hsame].
Qed.

Lemma pair_step_ok c c' : pinv c → pair_step o1 o2 c c' → pinv c' ∧ (progress_of c < progress_of c')%nat.
Proof.
  intros [Hl Hr Hgl Hgr] Hs. unfold progress_of. inversion Hs as [k l r Hk Ha Ho Hp|k l r Hk Ha Ho Hp|k l r l' Hres He Hne|k l r r' Hres He Hne]; subst; cbn [fst snd] in *.
  - destruct (writes_ok o1 o2 k l Hl Hk Ho) as (Hl' & Hw & Hrecv). split; [|unfold got; rewrite Hrecv; lia].
    split; cbn [fst snd]; [exact Hl'|exact Hr|unfold got; by rewrite Hrecv|lia].
  - destruct (writes_ok o2 o1 k r Hr Hk Ho) as (Hr' & Hw & Hrecv). split; [|unfold got; rewrite Hrecv; lia].
    split; cbn [fst snd]; [exact Hl|exact Hr'|lia|unfold got; by rewrite Hrecv].
  - destruct (reads_ok o1 o2 k r l Hm1 Hm2 Hl Hr Hres Hgl) as (e' & He' & Hs' & Hw & Hg & Hsame). rewrite He in He'. injection He' as <-.
    assert (got l' ≠ got l) by (intros H; by apply Hne, Hsame). split; [|lia]. split; cbn [fst snd]; [done|done|lia|lia].
  - destruct (reads_ok o2 o1 k l r Hm2 Hm1 Hr Hl Hres Hgr) as (e' & He' & Hs' & Hw & Hg & Hsame). rewrite He in He'. injection He' as <-.
    assert (got r' ≠ got r) by (intros H; by apply Hne, Hsame). split; [|lia]. split; cbn [fst snd]; [done|done|lia|lia].
Qed.

Lemma start_pinv : pinv (start_side o1, start_side o2).
Proof. split; cbn [fst snd]; [by apply sinv_start|by apply sinv_start|by apply Nat.leb_le|by apply Nat.leb_le]. Qed.

Lemma pair_reach n c : nsteps (pair_step o1 o2) n (start_side o1, start_side o2) c → pinv c ∧ (n ≤ progress_of c)%nat.
Proof.
  revert c. induction n as [|n IH]; intros c Hn.
  - inversion Hn; subst. split; [apply start_pinv|lia].
  - apply nsteps_inv_r in Hn as (c0 & Hn & Hs). destruct (IH _ Hn) as [Hi Hp]. destruct (pair_step_ok _ _ Hi Hs). split; [done|lia].
Qed.

Lemma progress_bound c : pinv c → (progress_of c ≤ 256)%nat.
Proof.
  intros [Hl Hr _ _]. pose proof (sinv_numbers o1 o2 _ Hl) as (H1 & _). pose proof (sinv_numbers o2 o1 _ Hr) as (H2 & _).
  destruct (written_full o1 o2 _ Hl) as (_ & H3 & _). destruct (written_full o2 o1 _ Hr) as (_ & H4 & _).
  pose proof (due_bounds (length (greeting_recv (greet c.1)))). pose proof (due_bounds (length (greeting_recv (greet c.2)))).
  unfold progress_of, got. lia.
Qed.

Lemma agreed_sym : agreed o1 o2 = Mismatch ↔ agreed o2 o1 = Mismatch.
Proof.
  unfold agreed. rewrite (Z.eqb_sym (g_mechanism o2)). destruct (g_mechanism o1 =? g_mechanism o2) eqn:E; [|done].
  apply Z.eqb_eq in E as ->. cbn [andb]. by destruct (negb _).
Qed.

(** ** The end *)

Lemma reads_some o k avail g p g' rest : receive_greeting o [S k] avail g = Some (p, g', rest) →
  avail ≠ [] → (length (greeting_recv g) < greeting_size g)%nat → (length (greeting_recv g) < length (greeting_recv g'))%nat.
Proof.
  intros Hg Ha Hl. cbn [receive_greeting] in Hg. unfold tcp_read in Hg. set (m := Nat.min _ _) in Hg.
  assert (Hm : (0 < m)%nat) by lia. clearbody m. destruct m as [|m]; [lia|]. destruct avail as [|b avail]; [done|].
  cbn [take] in Hg. rewrite bool_decide_eq_false_2 in Hg by done.
  destruct (receive_chunk o _ g) as [[p1 g1]|] eqn:H1; [|done]. cbn [mbind option_bind] in Hg. apply chunk_recv in H1.
  assert (g1 = g') as -> by (by destruct p1; injection Hg). rewrite H1, length_app. cbn. lia.
Qed.

Lemma reads_on o o' peer e : mechanism_ok o = true → mechanism_ok o' = true → sinv o o' e → sinv o' o peer →
  result e = None → (got e < written_size peer)%nat → ∃ e', side_reads o 1 peer e = Some e' ∧ greet e' ≠ greet e.
Proof.
  intros Hm Hm' He Hp Hres Hg. destruct (reads_ok o o' 1 peer e Hm Hm' He Hp Hres) as (e' & He' & _); [lia|].
  exists e'. split; [done|]. intros Heq. unfold side_reads, handshake in He'. pose proof (si_result _ _ _ He) as Hl. rewrite Hres in Hl.
  rewrite (proj2 (Nat.ltb_lt _ _) Hl) in He'. cbn [zmq_assert mbind option_bind] in He'.
  destruct (receive_greeting _ _ _ _) as [[[p g] rest]|] eqn:Hr; [|done].
  apply reads_some in Hr; [|intros Hn|done].
  - cbn [mbind option_bind] in He'. assert (greeting_recv (greet e') = greeting_recv g) as Hrecv.
    { destruct p; cbn [mbind option_bind] in He'; injection He' as <-; cbn [greet]; [done|repeat case_match; done..]. }
    rewrite <- Hrecv, Heq in Hr. lia.
  - apply (f_equal length) in Hn. unfold written in Hn. rewrite length_drop, length_take in Hn. unfold got, written_size in *. cbn in Hn. lia.
Qed.

(** While both are there, one of them can go on. *)
Lemma pair_end l r : pinv (l, r) → alive l = true → alive r = true → (∀ c, ¬ pair_step o1 o2 (l, r) c) →
  result l = Some (agreed o1 o2) ∧ result r = Some (agreed o2 o1) ∧ outsize (greet l) = 0%nat ∧ outsize (greet r) = 0%nat.
Proof.
  intros [Hl Hr Hgl Hgr] Hal Har Hq. cbn [fst snd] in *.
  pose proof (si_greet _ _ _ Hl) as Gl. pose proof (si_greet _ _ _ Hr) as Gr.
  assert (Hol : outsize (greet l) = 0%nat).
  { destruct (outsize (greet l)) eqn:E; [done|]. exfalso. eapply Hq, (left_writes o1 o2 1); [lia|done|lia|]. apply (gi_poll _ _ Gl). lia. }
  assert (Hor : outsize (greet r) = 0%nat).
  { destruct (outsize (greet r)) eqn:E; [done|]. exfalso. eapply Hq, (right_writes o1 o2 1); [lia|done|lia|]. apply (gi_poll _ _ Gr). lia. }
  destruct (written_full o1 o2 l Hl) as (_ & _ & Hwl). destruct (written_full o2 o1 r Hr) as (_ & _ & Hwr).
  pose proof (sinv_numbers o1 o2 l Hl) as (_ & _ & _ & Nl). pose proof (sinv_numbers o2 o1 r Hr) as (_ & _ & _ & Nr).
  assert (Sl : result l = None → (written_size r ≤ got l)%nat).
  { intros Hn. destruct (decide (got l < written_size r)%nat) as [H|]; [|lia]. exfalso.
    destruct (reads_on o1 o2 r l Hm1 Hm2 Hl Hr Hn H) as (e' & He' & Hne). by eapply Hq, left_reads. }
  assert (Sr : result r = None → (written_size l ≤ got r)%nat).
  { intros Hn. destruct (decide (got r < written_size l)%nat) as [H|]; [|lia]. exfalso.
    destruct (reads_on o2 o1 l r Hm2 Hm1 Hr Hl Hn H) as (e' & He' & Hne). by eapply Hq, right_reads. }
  rewrite Hol in Hwl. rewrite Hor in Hwr. fold (got l) in *. fold (got r) in *. clear Hq.
  assert (Hdue : ∀ a, (a < 64 → a < due a)%nat ∧ (a = 64 → due a = 64)%nat).
  { intros a. unfold due. destruct (a <? 10)%nat eqn:E1; [apply Nat.ltb_lt in E1; lia|]. destruct (a =? 10)%nat eqn:E2; [apply Nat.eqb_eq in E2; lia|].
    apply Nat.ltb_ge in E1. apply Nat.eqb_neq in E2. lia. }
  pose proof (Hdue (got l)) as [Dl Dl']. pose proof (Hdue (got r)) as [Dr Dr'].
  destruct (result l) as [vl|], (result r) as [vr|].
  - destruct Nl as [-> _], Nr as [-> _]. done.
  - specialize (Sr eq_refl). lia.
  - specialize (Sl eq_refl). lia.
  - specialize (Sl eq_refl). specialize (Sr eq_refl). lia.
Qed.
End pair.

(** C7. Two engines with a mechanism each, however their greetings are cut into
    pieces and their reads and writes interleave, stop within 256 steps; no
    assertion fails; an engine that has a verdict has the one of the table
    [agreed], whatever the order.  When nothing is left to do, two engines with the
    same mechanism other than GSSAPI have both accepted it, with all of the other's
    64 bytes read and all of their own written; otherwise neither has accepted
    anything and one of them at least has closed the connection. *)
Theorem greeting_agrees o1 o2 n l r :
  mechanism_ok o1 = true → mechanism_ok o2 = true →
  nsteps (pair_step o1 o2) n (start_side o1, start_side o2) (l, r) →
  (n ≤ 256)%nat ∧
  (∀ k, (result l = None → is_Some (side_reads o1 k r l)) ∧ (result r = None → is_Some (side_reads o2 k l r))) ∧
  (∀ v, (result l = Some v → v = agreed o1 o2) ∧ (result r = Some v → v = agreed o2 o1)) ∧
  ((∀ c, ¬ pair_step o1 o2 (l, r) c) →
     if (g_mechanism o1 =? g_mechanism o2) && negb (g_mechanism o1 =? ZMQ_GSSAPI) then
       (∃ p p', result l = Some (Accepted p) ∧ result r = Some (Accepted p')) ∧
       greeting_recv (greet l) = full o2 ∧ greeting_recv (greet r) = full o1 ∧
       outsize (greet l) = 0%nat ∧ outsize (greet r) = 0%nat
     else result l = Some Mismatch ∨ result r = Some Mismatch).
Proof.
  intros Hm1 Hm2 Hn. destruct (pair_reach o1 o2 Hm1 Hm2 n (l, r) Hn) as [Hi Hp]. pose proof (progress_bound o1 o2 _ Hi) as Hb. split; [lia|].
  destruct (Hi) as [Hl Hr Hgl Hgr]. cbn [fst snd] in *.
  pose proof (sinv_numbers o1 o2 l Hl) as (_ & _ & _ & Nl). pose proof (sinv_numbers o2 o1 r Hr) as (_ & _ & _ & Nr).
  pose proof (pair_end o1 o2 Hm1 Hm2 l r Hi) as Hend.
  split; [|split].
  - intros k. split; intros Hres.
    + by destruct (reads_ok o1 o2 k r l Hm1 Hm2 Hl Hr Hres Hgl) as (e' & -> & _).
    + by destruct (reads_ok o2 o1 k l r Hm2 Hm1 Hr Hl Hres Hgr) as (e' & -> & _).
  - intros v. split; intros Hres; rewrite Hres in *; [apply Nl|apply Nr].
  - intros Hq. destruct (_ && _) eqn:Hag.
    + assert (Hacc : ∃ p p', agreed o1 o2 = Accepted p ∧ agreed o2 o1 = Accepted p').
      { unfold agreed at 1. rewrite Hag. apply andb_prop in Hag as [E1 E2]. unfold agreed. apply Z.eqb_eq in E1. rewrite <- E1, Z.eqb_refl, E2. by do 2 eexists. }
      destruct Hacc as (p & p' & Hacc & Hacc').
      destruct Hend as (H1 & H2 & H3 & H4); [|  |exact Hq|].
      * unfold alive. destruct (result l) as [v|]; [|done]. by destruct Nl as [-> _]; rewrite Hacc.
      * unfold alive. destruct (result r) as [v|]; [|done]. by destruct Nr as [-> _]; rewrite Hacc'.
      * rewrite H1 in Nl. rewrite H2 in Nr. destruct Nl as [_ Nl], Nr as [_ Nr].
        split; [rewrite H1, H2, Hacc, Hacc'; by do 2 eexists|].
        split; [rewrite (si_recv _ _ _ Hl), Nl; apply take_ge; by rewrite length_full|].
        split; [rewrite (si_recv _ _ _ Hr), Nr; apply take_ge; by rewrite length_full|done].
    + assert (Hmis : agreed o1 o2 = Mismatch ∧ agreed o2 o1 = Mismatch).
      { assert (H : agreed o1 o2 = Mismatch) by (unfold agreed; by rewrite Hag). split; [done|]. by apply agreed_sym. }
      destruct Hmis as [M1 M2]. rewrite M1 in *. rewrite M2 in *.
      destruct (result l) as [v|] eqn:Rl; [left; by destruct Nl as [-> _]|].
      destruct (result r) as [v|] eqn:Rr; [right; by destruct Nr as [-> _]|].
      destruct Hend as (H1 & _); [by unfold alive; rewrite Rl|by unfold alive; rewrite Rr|exact Hq|]. done.
Qed.

(** ** A peer of the first version *)

(** The header is thrown away exactly. *)
Lemma throw_header f (tmp : list Z) h n (t : v1_encoder) : (h = 2 ∨ h = 10)%nat → length tmp = 10%nat →
  encode (Some h) (Enc tmp h t false n (Some f)) = Some (false, take h tmp, Enc (drop h tmp) 0 t false n (Some f)).
Proof.
  intros Hh Hl. do 10 (destruct tmp as [|? tmp]; [done|]). destruct tmp; [|done]. by destruct Hh as [-> | ->].
Qed.

Lemma unversioned_encoder_ok o junk n : length junk = 10%nat → (length (routing_id (g_opts o)) ≤ 255)%nat →
  ∃ e, unversioned_encoder o junk n = Some e ∧ einv e ∧ in_progress e = Some (Frame 0 (routing_id (g_opts o))) ∧
    pending e = routing_id (g_opts o).
Proof.
  intros Hj Hr. set (rid := routing_id (g_opts o)) in *. set (f := Frame 0 rid).
  unfold unversioned_encoder. fold rid f. destruct (v1_header_chunk (V1Enc junk message_ready) f Hj) as (Hc & Hok & Hnew & Hn & Hl).
  { unfold f_size, f. cbn [f_data]. lia. }
  set (h := if 255 <=? _ then 10%nat else 2%nat). set (s := v1_message_ready _ _) in *.
  assert (Hw : es_to_write s = h ∧ length (es_write_pos s) = 10%nat ∧ (h = 2 ∨ h = 10)%nat).
  { unfold s, v1_message_ready, UCHAR_MAX, h. change (f_size f) with (Z.of_nat (length rid)). rewrite u64_small by lia.
    clear -Hj. do 10 (destruct junk as [|? junk]; [done|]). destruct junk; [|done].
    destruct (Z.ltb_spec (Z.of_nat (length rid) + 1) 255), (Z.leb_spec 255 (Z.of_nat (length rid) + 1)); first [lia|split; [done|]; split; [done|auto]]. }
  destruct Hw as (Hw & Hw10 & Hh). unfold load_msg, encoder_new, next_step.
  cbn [in_progress next e_run e_init v1_is_encoder es_next v1_next mbind option_bind zmq_assert buf_size write_pos to_write new_msg_flag].
  rewrite bool_decide_eq_true_2 by done. cbn [zmq_assert mbind option_bind]. fold s. rewrite Hnew, Hw.
  rewrite throw_header by done. cbn [mbind option_bind]. rewrite (proj2 (Nat.eqb_eq _ _)).
  2: { rewrite length_take, Hw10. destruct Hh as [-> | ->]; done. }
  cbn [zmq_assert mbind option_bind]. eexists. split; [reflexivity|].
  assert (Hpend : e_run (es_next s) f = v1_size_ready (es_next s) f) by (cbn [e_run v1_is_encoder]; by rewrite Hn).
  split; [|split; [done|]].
  - split; cbn [to_write write_pos in_progress new_msg_flag next]; [lia|]. rewrite Hpend. split; [|split; [done|]].
    + unfold es_ok. cbn. lia.
    + by split.
  - unfold pending. cbn [in_progress to_write write_pos new_msg_flag next]. rewrite Hpend. cbn [take app]. apply chunk_data.
Qed.

(** A peer of the first version, which knows no greeting, takes the signature for
    the header of a frame: the encoder that [handshake_v1_0_unversioned] prepares
    exists, holds the routing id with its header consumed, and a ZMTP/1.0 parser
    reads from the signature and what the encoder still writes exactly one frame,
    the routing id, and is back at the start of the next one. *)
Theorem greeting_old_peer o junk n max :
  length junk = 10%nat → bytes_ok (routing_id (g_opts o)) → (length (routing_id (g_opts o)) ≤ 255)%nat →
  too_big max (Z.of_nat (length (routing_id (g_opts o)))) = false →
  ∃ e, unversioned_encoder o junk n = Some e ∧ einv e ∧
    v1_parse max V1Size (signature o ++ pending e) = ([Frame flag_more (routing_id (g_opts o))], inl V1Size).
Proof.
  intros Hj Hb Hr Hbig. destruct (unversioned_encoder_ok o junk n Hj Hr) as (e & He & Hi & _ & Hp). exists e. split; [done|]. split; [done|].
  rewrite Hp. set (f := Frame 0x7f (routing_id (g_opts o))).
  assert (Hstream : signature o ++ routing_id (g_opts o) = [UCHAR_MAX] ++ put_uint64 (f_size f + 1) ++ [0x7f] ++ f_data f ++ []).
  { by rewrite app_nil_r. }
  rewrite Hstream, v1_parse_long; [done|split; [done|unfold f_size, f; cbn [f_data]; lia]|done|done].
Qed.

(** ** Examples *)

Definition plain_side (server : bool) : greeting_options :=
  GOpts (Options 3 (if server then [] else [115; 117; 98]) true [] [] false [] []) ZMQ_PLAIN server.

(** A peer with the old revision 1, in pieces of four bytes. *)
Lemma greeting_exact_witness :
  mechanism_ok (plain_side true) = true ∧
  let avail := [255; 0; 0; 0; 0; 0; 0; 0; 1; 0x7f; 1; 3; 9] in
  ∃ p g rest, receive_greeting (plain_side true) [4; 4; 4; 4]%nat avail (plug (plain_side true)) = Some (p, g, rest) ∧
    avail = greeting_recv g ++ rest.
Proof.
  split; [reflexivity|].
  destruct (greeting_exact (plain_side true) [4; 4; 4; 4]%nat [255; 0; 0; 0; 0; 0; 0; 0; 1; 0x7f; 1; 3; 9] eq_refl) as (p & g & rest & H & H' & _).
  exists p, g, rest. split; [exact H|exact H'].
Defined.

(** Two engines by turns: who moves, whether it writes, and how many bytes. *)
Definition move : Type := bool * bool * nat.

Definition can_write (e : side) (k : nat) : bool := (0 <? k)%nat && alive e && (0 <? outsize (greet e))%nat && pollout (greet e).

Definition move_reads (o : greeting_options) (k : nat) (peer e : side) : option side :=
  _ ← zmq_assert (bool_decide (result e = None));
  e' ← side_reads o k peer e;
  _ ← zmq_assert (got e <? got e')%nat;
  Some e'.

Definition play1 (o1 o2 : greeting_options) (m : move) (c : side * side) : option (side * side) :=
  let '(l, r) := c in
  match m with
  | (true, true, k) => if can_write l k then Some (side_writes k l, r) else None
  | (false, true, k) => if can_write r k then Some (l, side_writes k r) else None
  | (true, false, k) => l' ← move_reads o1 k r l; Some (l', r)
  | (false, false, k) => r' ← move_reads o2 k l r; Some (l, r')
  end.

Fixpoint play (o1 o2 : greeting_options) (ms : list move) (c : side * side) : option (side * side) :=
  match ms with [] => Some c | m :: ms => c ← play1 o1 o2 m c; play o1 o2 ms c end.

Lemma move_reads_ok o k peer e e' : move_reads o k peer e = Some e' →
  result e = None ∧ side_reads o k peer e = Some e' ∧ greet e' ≠ greet e.
Proof.
  unfold move_reads. destruct (bool_decide (result e = None)) eqn:Hr; [|done]. apply bool_decide_eq_true in Hr. cbn [zmq_assert mbind option_bind].
  destruct (side_reads o k peer e) as [e1|] eqn:He; [|done]. cbn [mbind option_bind].
  destruct (got e <? got e1)%nat eqn:Hg; [|done]. intros [= <-]. split; [done|]. split; [done|]. intros Heq. unfold got in Hg. rewrite Heq, Nat.ltb_irrefl in Hg. done.
Qed.

Lemma can_write_ok e k : can_write e k = true → (0 < k)%nat ∧ alive e = true ∧ (0 < outsize (greet e))%nat ∧ pollout (greet e) = true.
Proof. unfold can_write. rewrite !andb_true_iff, !Nat.ltb_lt. tauto. Qed.

Lemma play_steps o1 o2 ms : ∀ c c', play o1 o2 ms c = Some c' → nsteps (pair_step o1 o2) (length ms) c c'.
Proof.
  induction ms as [|m ms IH]; intros c c'; cbn [play length]; [intros [= <-]; constructor|].
  destruct (play1 o1 o2 m c) as [c1|] eqn:H1; [|done]. cbn [mbind option_bind]. intros H. eapply nsteps_l; [|by apply IH]. clear H IH.
  destruct c as [l r], m as [[[] []] k]; unfold play1 in H1.
  - destruct (can_write l k) eqn:Hw; [|done]. injection H1 as <-. apply can_write_ok in Hw as (? & ? & ? & ?). by apply left_writes.
  - destruct (move_reads o1 k r l) as [l'|] eqn:Hr; [|done]. injection H1 as <-. apply move_reads_ok in Hr as (? & ? & ?). by eapply left_reads.
  - destruct (can_write r k) eqn:Hw; [|done]. injection H1 as <-. apply can_write_ok in Hw as (? & ? & ? & ?). by apply right_writes.
  - destruct (move_reads o2 k l r) as [r'|] eqn:Hr; [|done]. injection H1 as <-. apply move_reads_ok in Hr as (? & ? & ?). by eapply right_reads.
Qed.

(** A schedule that ends: the signatures, the versions, the rest. *)
Definition moves : list move :=
  [(true, true, 4%nat); (true, true, 64%nat); (false, true, 64%nat); (true, false, 64%nat); (false, false, 3%nat); (false, false, 64%nat);
   (true, true, 64%nat); (false, true, 64%nat); (true, false, 64%nat); (false, false, 64%nat);
   (true, true, 7%nat); (true, true, 64%nat); (false, true, 64%nat); (true, false, 40%nat); (true, false, 64%nat); (false, false, 64%nat)].

Lemma greeting_agrees_witness :
  ∃ l r, play (plain_side true) (plain_side false) moves (start_side (plain_side true), start_side (plain_side false)) = Some (l, r) ∧
    (∃ p p', result l = Some (Accepted p) ∧ result r = Some (Accepted p')) ∧
    greeting_recv (greet l) = full (plain_side false) ∧ greeting_recv (greet r) = full (plain_side true).
Proof.
  destruct (play (plain_side true) (plain_side false) moves (start_side (plain_side true), start_side (plain_side false))) as [[l r]|] eqn:H; [|exfalso; vm_compute in H; discriminate].
  exists l, r. split; [reflexivity|].
  destruct (greeting_agrees (plain_side true) (plain_side false) 16 l r eq_refl eq_refl (play_steps _ _ _ _ _ H)) as (_ & _ & _ & Hend).
  destruct Hend as (Ha & Hl & Hr & _).
  - vm_compute in H. injection H as <- <-. intros c Hc. inversion Hc; subst; try discriminate; cbn in *; lia.
  - exact (conj Ha (conj Hl Hr)).
Defined.

Lemma greeting_old_peer_witness :
  let o := GOpts (Options 3 [115; 117; 98] true [] [] false [] []) ZMQ_NULL false in
  ∃ e, unversioned_encoder o (replicate 10 0) 8192 = Some e ∧ einv e ∧
    v1_parse (-1) V1Size (signature o ++ pending e) = ([Frame flag_more [115; 117; 98]], inl V1Size).
Proof.
  apply (greeting_old_peer (GOpts (Options 3 [115; 117; 98] true [] [] false [] []) ZMQ_NULL false) (replicate 10 0) 8192 (-1));
    [reflexivity|repeat constructor; lia|cbn; lia|reflexivity].
Defined.

End Greeting.
