(* ===== verification/Options.v ===== *)
(** * Socket options

    [options_t] (src/options.cpp): the options of a socket, set and read through
    pointers and sizes.  The argument of [setsockopt] is the memory that can be
    read at [optval] ([None] for NULL) and [optvallen]; a read past it is [None].
    The build is the default one: CURVE, filters on credentials, no GSSAPI, no
    draft options.

    The theorems: the values stay in their ranges whatever is passed; a call that
    fails changes nothing, but for a key in Z85; what is set is what is read; the
    options meet what the mechanisms rely on. *)

From Stdlib Require Import String.
From stdpp Require Import functions relations.
From S2P Require Import Prelude Address Z85 Mechanism Greeting.
#[local] Open Scope Z_scope.

Module Options.

(** ** State *)

Inductive int_member :=
| sndhwm | rcvhwm | affinity | rate | recovery_ivl | multicast_hops | multicast_maxtpdu | sndbuf | rcvbuf | tos | type_
| linger | connect_timeout | tcp_maxrt | reconnect_ivl | reconnect_ivl_max | backlog | maxmsgsize | rcvtimeo | sndtimeo
| immediate | tcp_keepalive | tcp_keepalive_cnt | tcp_keepalive_idle | tcp_keepalive_intvl | mechanism | as_server
| handshake_ivl | heartbeat_ttl | heartbeat_interval | heartbeat_timeout | use_fd.
Inductive bool_member := ipv6 | invert_matching | conflate | zap_enforce_domain | loopback_fastpath | multicast_loop.
Inductive str_member := routing_id | socks_proxy_address | zap_domain | plain_username | plain_password | bound_device.
Inductive key_member := curve_public_key | curve_secret_key | curve_server_key.
Inductive set_member := ipc_uid_accept_filters | ipc_gid_accept_filters | ipc_pid_accept_filters.

#[export] Instance int_member_eq_dec : EqDecision int_member.
Proof. solve_decision. Defined.
#[export] Instance bool_member_eq_dec : EqDecision bool_member.
Proof. solve_decision. Defined.
#[export] Instance str_member_eq_dec : EqDecision str_member.
Proof. solve_decision. Defined.
#[export] Instance key_member_eq_dec : EqDecision key_member.
Proof. solve_decision. Defined.
#[export] Instance set_member_eq_dec : EqDecision set_member.
Proof. solve_decision. Defined.

(** The members, by their types; [app_metadata] in the order of the map. *)
Record options_t := Opts {
  ints : int_member → Z;
  bools : bool_member → bool;
  strs : str_member → list Z;
  keys : key_member → list Z;
  sets : set_member → gset Z;
  tcp_accept_filters : list Address.tcp_address_mask;
  app_metadata : list (list Z * list Z) }.

Definition put_int (m : int_member) (v : Z) (o : options_t) : options_t :=
  Opts (<[m := v]> (ints o)) (bools o) (strs o) (keys o) (sets o) (tcp_accept_filters o) (app_metadata o).
Definition put_bool (m : bool_member) (v : bool) (o : options_t) : options_t :=
  Opts (ints o) (<[m := v]> (bools o)) (strs o) (keys o) (sets o) (tcp_accept_filters o) (app_metadata o).
Definition put_str (m : str_member) (v : list Z) (o : options_t) : options_t :=
  Opts (ints o) (bools o) (<[m := v]> (strs o)) (keys o) (sets o) (tcp_accept_filters o) (app_metadata o).
Definition put_key (m : key_member) (v : list Z) (o : options_t) : options_t :=
  Opts (ints o) (bools o) (strs o) (<[m := v]> (keys o)) (sets o) (tcp_accept_filters o) (app_metadata o).
Definition put_set (m : set_member) (v : gset Z) (o : options_t) : options_t :=
  Opts (ints o) (bools o) (strs o) (keys o) (<[m := v]> (sets o)) (tcp_accept_filters o) (app_metadata o).
Definition put_filters (v : list Address.tcp_address_mask) (o : options_t) : options_t :=
  Opts (ints o) (bools o) (strs o) (keys o) (sets o) v (app_metadata o).
Definition put_metadata (v : list (list Z * list Z)) (o : options_t) : options_t :=
  Opts (ints o) (bools o) (strs o) (keys o) (sets o) (tcp_accept_filters o) v.

Definition default_int (m : int_member) : Z :=
  match m with
  | sndhwm | rcvhwm => 1000
  | rate | reconnect_ivl | backlog => 100
  | recovery_ivl => 10000
  | multicast_hops => 1
  | multicast_maxtpdu => 1500
  | handshake_ivl => 30000
  | sndbuf | rcvbuf | type_ | linger | maxmsgsize | rcvtimeo | sndtimeo | tcp_keepalive | tcp_keepalive_cnt | tcp_keepalive_idle
  | tcp_keepalive_intvl | heartbeat_timeout | use_fd => -1
  | affinity | tos | connect_timeout | tcp_maxrt | reconnect_ivl_max | immediate | mechanism | as_server | heartbeat_ttl | heartbeat_interval => 0
  end.

Definition CURVE_KEYSIZE : nat := 32.
Definition CURVE_KEYSIZE_Z85 : nat := 40.

(** [options_t::options_t] *)
Definition options_new : options_t :=
  Opts default_int (λ m, match m with multicast_loop => true | _ => false end) (λ _, []) (λ _, replicate CURVE_KEYSIZE 0) (λ _, ∅) [] [].

(** ** Options *)

Inductive sockopt :=
| ZMQ_SNDHWM | ZMQ_RCVHWM | ZMQ_AFFINITY | ZMQ_ROUTING_ID | ZMQ_RATE | ZMQ_RECOVERY_IVL | ZMQ_SNDBUF | ZMQ_RCVBUF | ZMQ_TOS | ZMQ_TYPE | ZMQ_LINGER
| ZMQ_CONNECT_TIMEOUT | ZMQ_TCP_MAXRT | ZMQ_RECONNECT_IVL | ZMQ_RECONNECT_IVL_MAX | ZMQ_BACKLOG | ZMQ_MAXMSGSIZE | ZMQ_MULTICAST_HOPS
| ZMQ_MULTICAST_MAXTPDU | ZMQ_RCVTIMEO | ZMQ_SNDTIMEO | ZMQ_IPV4ONLY | ZMQ_IPV6 | ZMQ_SOCKS_PROXY | ZMQ_TCP_KEEPALIVE
| ZMQ_TCP_KEEPALIVE_CNT | ZMQ_TCP_KEEPALIVE_IDLE | ZMQ_TCP_KEEPALIVE_INTVL | ZMQ_IMMEDIATE | ZMQ_TCP_ACCEPT_FILTER
| ZMQ_IPC_FILTER_UID | ZMQ_IPC_FILTER_GID | ZMQ_IPC_FILTER_PID | ZMQ_MECHANISM | ZMQ_PLAIN_SERVER | ZMQ_PLAIN_USERNAME | ZMQ_PLAIN_PASSWORD
| ZMQ_ZAP_DOMAIN | ZMQ_CURVE_SERVER | ZMQ_CURVE_PUBLICKEY | ZMQ_CURVE_SECRETKEY | ZMQ_CURVE_SERVERKEY | ZMQ_CONFLATE | ZMQ_HANDSHAKE_IVL
| ZMQ_INVERT_MATCHING | ZMQ_HEARTBEAT_IVL | ZMQ_HEARTBEAT_TTL | ZMQ_HEARTBEAT_TIMEOUT | ZMQ_USE_FD | ZMQ_BINDTODEVICE
| ZMQ_ZAP_ENFORCE_DOMAIN | ZMQ_LOOPBACK_FASTPATH | ZMQ_METADATA | ZMQ_MULTICAST_LOOP
| ZMQ_UNKNOWN.

#[export] Instance sockopt_eq_dec : EqDecision sockopt.
Proof. solve_decision. Defined.

(** Little-endian integers of [n] bytes in memory. *)
Definition le_value (bs : list Z) : Z := foldr (λ b acc, b + 256 * acc) 0 bs.
Fixpoint le_bytes (n : nat) (v : Z) : list Z := match n with O => [] | S n => v mod 256 :: le_bytes n (v / 256) end.
Definition i64 (z : Z) : Z := let u := u64 z in if u <? 2 ^ 63 then u else u - 2 ^ 64.

(** Reading [n] bytes; the C string there, up to its NUL. *)
Definition read (mem : option (list Z)) (n : nat) : option (list Z) :=
  match mem with
  | None => if decide (n = 0%nat) then Some [] else None
  | Some l => if decide (n ≤ length l)%nat then Some (take n l) else None
  end.

Fixpoint c_string (l : list Z) : option (list Z) :=
  match l with
  | [] => None
  | c :: l => if c =? 0 then Some [] else s ← c_string l; Some (c :: s)
  end.

Definition UINT8_MAX : nat := 255.
Definition BINDDEVSIZ : nat := 16.

Section setsockopt.
Context (sys : Address.system) (mem : option (list Z)) (optvallen : nat).

Definition is_null : bool := bool_decide (mem = None).
Definition is_int : bool := (optvallen =? 4)%nat.

Definition invalid (o : options_t) : option (rc * options_t) := Some (RcErr EINVAL, o).
Definition done_ (o : options_t) : option (rc * options_t) := Some (RcOk, o).

(** [do_setsockopt] at an unsigned and at a signed type of [n] bytes. *)
Definition do_setsockopt (n : nat) (conv : Z → Z) : option (option Z) :=
  if (optvallen =? n)%nat then bs ← read mem n; Some (Some (conv (le_value bs))) else Some None.

Definition do_setsockopt_num (n : nat) (conv : Z → Z) (m : int_member) (o : options_t) : option (rc * options_t) :=
  v ← do_setsockopt n conv;
  match v with Some v => done_ (put_int m v o) | None => invalid o end.

Definition do_setsockopt_int_as_bool_strict (set : bool → options_t → options_t) (o : options_t) : option (rc * options_t) :=
  v ← do_setsockopt 4 Address.i32;
  match v with
  | Some value => if (value =? 0) || (value =? 1) then done_ (set (negb (value =? 0)) o) else invalid o
  | None => invalid o
  end.

Definition do_setsockopt_int_as_bool_relaxed (set : bool → options_t → options_t) (o : options_t) : option (rc * options_t) :=
  v ← do_setsockopt 4 Address.i32;
  match v with
  | Some value => done_ (set (negb (value =? 0)) o)
  | None => invalid o
  end.

(** The string, or [None] if it is refused. *)
Definition string_allow_empty_strict (max_len : option nat) : option (option (list Z)) :=
  if is_null && (optvallen =? 0)%nat then Some (Some [])
  else if negb is_null && (0 <? optvallen)%nat && match max_len with Some n => (optvallen <=? n)%nat | None => true end then
    s ← read mem optvallen; Some (Some s)
  else Some None.

Definition do_setsockopt_string_allow_empty_strict (max_len : option nat) (m : str_member) (o : options_t) : option (rc * options_t) :=
  s ← string_allow_empty_strict max_len;
  match s with Some s => done_ (put_str m s o) | None => invalid o end.

Definition do_setsockopt_string_allow_empty_relaxed (max_len : nat) (m : str_member) (o : options_t) : option (rc * options_t) :=
  if (0 <? optvallen)%nat && (optvallen <=? max_len)%nat then s ← read mem optvallen; done_ (put_str m s o)
  else invalid o.

(** [do_setsockopt_set] at [uid_t], [gid_t] (unsigned) and [pid_t] (signed). *)
Definition do_setsockopt_set (conv : Z → Z) (m : set_member) (o : options_t) : option (rc * options_t) :=
  if (optvallen =? 0)%nat && is_null then done_ (put_set m ∅ o)
  else if (optvallen =? 4)%nat && negb is_null then
    bs ← read mem 4; done_ (put_set m ({[conv (le_value bs)]} ∪ sets o m) o)
  else invalid o.

(** A decoder writes the key as it goes, also when it fails. *)
Definition set_curve_key (m : key_member) (o : options_t) : option (rc * options_t) :=
  if (optvallen =? CURVE_KEYSIZE)%nat then
    key ← read mem optvallen; done_ (put_int mechanism Greeting.ZMQ_CURVE (put_key m key o))
  else if (optvallen =? CURVE_KEYSIZE_Z85 + 1)%nat || (optvallen =? CURVE_KEYSIZE_Z85)%nat then
    z85_key ← (if (optvallen =? CURVE_KEYSIZE_Z85 + 1)%nat then mem else s ← read mem optvallen; Some (s ++ [0]));
    '(key, r) ← Z85.zmq_z85_decode (keys o m) z85_key;
    match r with
    | RcOk => done_ (put_int mechanism Greeting.ZMQ_CURVE (put_key m key o))
    | RcErr _ => invalid (put_key m key o)
    end
  else invalid o.

(** The order of [std::string]. *)
Fixpoint string_lt (a b : list Z) : bool :=
  match a, b with
  | [], [] => false
  | [], _ :: _ => true
  | _ :: _, [] => false
  | x :: a, y :: b => (x <? y) || ((x =? y) && string_lt a b)
  end.

(** [std::map::insert]: a key that is there keeps its value. *)
Fixpoint map_insert (key val : list Z) (l : list (list Z * list Z)) : list (list Z * list Z) :=
  match l with
  | [] => [(key, val)]
  | (k, v) :: rest =>
      if bool_decide (k = key) then l
      else if string_lt key k then (key, val) :: l
      else (k, v) :: map_insert key val rest
  end.

(** What is on both sides of the first colon. *)
Fixpoint split_colon (s : list Z) : option (list Z * list Z) :=
  match s with
  | [] => None
  | c :: s => if c =? 58 then Some ([], s) else '(a, b) ← split_colon s; Some (c :: a, b)
  end.

Definition set_metadata (o : options_t) : option (rc * options_t) :=
  if (0 <? optvallen)%nat && negb is_int then
    l ← mem;
    s ← c_string l;
    match split_colon s with
    | Some (key, val) =>
        if negb (bool_decide (key = [])) && negb (bool_decide (val = [])) &&
           bool_decide (take 2 key = Address.chars "X-") && (length key <=? UINT8_MAX)%nat
        then done_ (put_metadata (map_insert key val (app_metadata o)) o)
        else invalid o
    | None => invalid o
    end
  else invalid o.

Definition set_accept_filter (o : options_t) : option (rc * options_t) :=
  s ← string_allow_empty_strict (Some UINT8_MAX);
  match s with
  | None => invalid o
  | Some filter_str =>
      if bool_decide (filter_str = []) then done_ (put_filters [] o)
      else
        name ← c_string (filter_str ++ [0]);
        '(r, mask) ← Address.mask_resolve sys name (bools o ipv6) Address.tcp_address_mask_new;
        match r with
        | RcOk => done_ (put_filters (tcp_accept_filters o ++ [mask]) o)
        | RcErr e => Some (RcErr e, o)
        end
  end.

(** ZMQ_PLAIN_USERNAME and ZMQ_PLAIN_PASSWORD. *)
Definition set_plain (m : str_member) (o : options_t) : option (rc * options_t) :=
  if (optvallen =? 0)%nat && is_null then done_ (put_int mechanism 0 o)
  else if (0 <? optvallen)%nat && (optvallen <=? UINT8_MAX)%nat && negb is_null then
    s ← read mem optvallen; done_ (put_int mechanism 1 (put_int as_server 0 (put_str m s o)))
  else invalid o.

(** ZMQ_PLAIN_SERVER and ZMQ_CURVE_SERVER. *)
Definition set_server (value mech : Z) (o : options_t) : option (rc * options_t) :=
  if is_int && ((value =? 0) || (value =? 1))
  then done_ (put_int mechanism (if value =? 0 then 0 else mech) (put_int as_server value o))
  else invalid o.

Definition set_int (ok : bool) (m : int_member) (value : Z) (o : options_t) : option (rc * options_t) :=
  if is_int && ok then done_ (put_int m value o) else invalid o.

Definition deciseconds_per_millisecond := 100.

Definition setsockopt (option_ : sockopt) (o : options_t) : option (rc * options_t) :=
  value ← (if is_int then bs ← read mem 4; Some (Address.i32 (le_value bs)) else Some 0);
  match option_ with
  | ZMQ_SNDHWM => set_int (0 <=? value) sndhwm value o
  | ZMQ_RCVHWM => set_int (0 <=? value) rcvhwm value o
  | ZMQ_AFFINITY => do_setsockopt_num 8 u64 affinity o
  | ZMQ_ROUTING_ID =>
      if (0 <? optvallen)%nat && (optvallen <=? UINT8_MAX)%nat then s ← read mem optvallen; done_ (put_str routing_id s o) else invalid o
  | ZMQ_RATE => set_int (0 <? value) rate value o
  | ZMQ_RECOVERY_IVL => set_int (0 <=? value) recovery_ivl value o
  | ZMQ_SNDBUF => set_int (-1 <=? value) sndbuf value o
  | ZMQ_RCVBUF => set_int (-1 <=? value) rcvbuf value o
  | ZMQ_TOS => set_int (0 <=? value) tos value o
  | ZMQ_LINGER => set_int (-1 <=? value) linger value o
  | ZMQ_CONNECT_TIMEOUT => set_int (0 <=? value) connect_timeout value o
  | ZMQ_TCP_MAXRT => set_int (0 <=? value) tcp_maxrt value o
  | ZMQ_RECONNECT_IVL => set_int (-1 <=? value) reconnect_ivl value o
  | ZMQ_RECONNECT_IVL_MAX => set_int (0 <=? value) reconnect_ivl_max value o
  | ZMQ_BACKLOG => set_int (0 <=? value) backlog value o
  | ZMQ_MAXMSGSIZE => do_setsockopt_num 8 i64 maxmsgsize o
  | ZMQ_MULTICAST_HOPS => set_int (0 <? value) multicast_hops value o
  | ZMQ_MULTICAST_MAXTPDU => set_int (0 <? value) multicast_maxtpdu value o
  | ZMQ_RCVTIMEO => set_int (-1 <=? value) rcvtimeo value o
  | ZMQ_SNDTIMEO => set_int (-1 <=? value) sndtimeo value o
  | ZMQ_IPV4ONLY => do_setsockopt_int_as_bool_strict (λ v, put_bool ipv6 (negb v)) o
  | ZMQ_IPV6 => do_setsockopt_int_as_bool_strict (put_bool ipv6) o
  | ZMQ_SOCKS_PROXY => do_setsockopt_string_allow_empty_strict None socks_proxy_address o
  | ZMQ_TCP_KEEPALIVE => set_int ((value =? -1) || (value =? 0) || (value =? 1)) tcp_keepalive value o
  | ZMQ_TCP_KEEPALIVE_CNT => set_int ((value =? -1) || (0 <=? value)) tcp_keepalive_cnt value o
  | ZMQ_TCP_KEEPALIVE_IDLE => set_int ((value =? -1) || (0 <=? value)) tcp_keepalive_idle value o
  | ZMQ_TCP_KEEPALIVE_INTVL => set_int ((value =? -1) || (0 <=? value)) tcp_keepalive_intvl value o
  | ZMQ_IMMEDIATE => set_int ((value =? 0) || (value =? 1)) immediate value o
  | ZMQ_TCP_ACCEPT_FILTER => set_accept_filter o
  | ZMQ_IPC_FILTER_UID => do_setsockopt_set u32 ipc_uid_accept_filters o
  | ZMQ_IPC_FILTER_GID => do_setsockopt_set u32 ipc_gid_accept_filters o
  | ZMQ_IPC_FILTER_PID => do_setsockopt_set Address.i32 ipc_pid_accept_filters o
  | ZMQ_PLAIN_SERVER => set_server value 1 o
  | ZMQ_PLAIN_USERNAME => set_plain plain_username o
  | ZMQ_PLAIN_PASSWORD => set_plain plain_password o
  | ZMQ_ZAP_DOMAIN => do_setsockopt_string_allow_empty_relaxed UINT8_MAX zap_domain o
  | ZMQ_CURVE_SERVER => set_server value Greeting.ZMQ_CURVE o
  | ZMQ_CURVE_PUBLICKEY => set_curve_key curve_public_key o
  | ZMQ_CURVE_SECRETKEY => set_curve_key curve_secret_key o
  | ZMQ_CURVE_SERVERKEY =>
      '(r, o) ← set_curve_key curve_server_key o;
      match r with RcOk => done_ (put_int as_server 0 o) | RcErr _ => invalid o end
  | ZMQ_CONFLATE => do_setsockopt_int_as_bool_strict (put_bool conflate) o
  | ZMQ_HANDSHAKE_IVL => set_int (0 <=? value) handshake_ivl value o
  | ZMQ_INVERT_MATCHING => do_setsockopt_int_as_bool_relaxed (put_bool invert_matching) o
  | ZMQ_HEARTBEAT_IVL => set_int (0 <=? value) heartbeat_interval value o
  | ZMQ_HEARTBEAT_TTL =>
      let value := Z.quot value deciseconds_per_millisecond in
      set_int ((0 <=? value) && (value <=? 65535)) heartbeat_ttl (u16 value) o
  | ZMQ_HEARTBEAT_TIMEOUT => set_int (0 <=? value) heartbeat_timeout value o
  | ZMQ_USE_FD => set_int (-1 <=? value) use_fd value o
  | ZMQ_BINDTODEVICE => do_setsockopt_string_allow_empty_strict (Some BINDDEVSIZ) bound_device o
  | ZMQ_ZAP_ENFORCE_DOMAIN => do_setsockopt_int_as_bool_relaxed (put_bool zap_enforce_domain) o
  | ZMQ_LOOPBACK_FASTPATH => do_setsockopt_int_as_bool_relaxed (put_bool loopback_fastpath) o
  | ZMQ_METADATA => set_metadata o
  | ZMQ_MULTICAST_LOOP => do_setsockopt_int_as_bool_relaxed (put_bool multicast_loop) o
  | ZMQ_TYPE | ZMQ_MECHANISM | ZMQ_UNKNOWN => invalid o
  end.
End setsockopt.

(** ** Reading options *)

Section getsockopt.
Context (optvallen : nat).

(** What is written at [optval] and the size afterwards. *)
Abbreviation answer := (option ((list Z * nat) + errno)).

Definition get_num (n : nat) (v : Z) : answer :=
  if (optvallen =? n)%nat then Some (inl (le_bytes n v, n)) else Some (inr EINVAL).

Definition get_int (v : Z) : answer := get_num 4 v.
Definition get_bool (v : bool) : answer := get_int (if v then 1 else 0).

Definition do_getsockopt (value : list Z) : answer :=
  if (optvallen <? length value)%nat then Some (inr EINVAL)
  else Some (inl (value ++ replicate (optvallen - length value) 0, length value)).

(** A string is given with its NUL. *)
Definition do_getsockopt_str (value : list Z) : answer := do_getsockopt (value ++ [0]).

Definition do_getsockopt_curve_key (key : list Z) : answer :=
  if (optvallen =? CURVE_KEYSIZE)%nat then Some (inl (key, optvallen))
  else if (optvallen =? CURVE_KEYSIZE_Z85 + 1)%nat then
    '(text, _) ← Z85.zmq_z85_encode (replicate optvallen 0) key (Z.of_nat CURVE_KEYSIZE); Some (inl (text, optvallen))
  else Some (inr EINVAL).

Definition getsockopt (option_ : sockopt) (o : options_t) : answer :=
  match option_ with
  | ZMQ_SNDHWM => get_int (ints o sndhwm)
  | ZMQ_RCVHWM => get_int (ints o rcvhwm)
  | ZMQ_AFFINITY => get_num 8 (ints o affinity)
  | ZMQ_ROUTING_ID => do_getsockopt (strs o routing_id)
  | ZMQ_RATE => get_int (ints o rate)
  | ZMQ_RECOVERY_IVL => get_int (ints o recovery_ivl)
  | ZMQ_SNDBUF => get_int (ints o sndbuf)
  | ZMQ_RCVBUF => get_int (ints o rcvbuf)
  | ZMQ_TOS => get_int (ints o tos)
  | ZMQ_TYPE => get_int (ints o type_)
  | ZMQ_LINGER => get_int (ints o linger)
  | ZMQ_CONNECT_TIMEOUT => get_int (ints o connect_timeout)
  | ZMQ_TCP_MAXRT => get_int (ints o tcp_maxrt)
  | ZMQ_RECONNECT_IVL => get_int (ints o reconnect_ivl)
  | ZMQ_RECONNECT_IVL_MAX => get_int (ints o reconnect_ivl_max)
  | ZMQ_BACKLOG => get_int (ints o backlog)
  | ZMQ_MAXMSGSIZE => get_num 8 (ints o maxmsgsize)
  | ZMQ_MULTICAST_HOPS => get_int (ints o multicast_hops)
  | ZMQ_MULTICAST_MAXTPDU => get_int (ints o multicast_maxtpdu)
  | ZMQ_RCVTIMEO => get_int (ints o rcvtimeo)
  | ZMQ_SNDTIMEO => get_int (ints o sndtimeo)
  | ZMQ_IPV4ONLY => get_int (1 - (if bools o ipv6 then 1 else 0))
  | ZMQ_IPV6 => get_bool (bools o ipv6)
  | ZMQ_IMMEDIATE => get_int (ints o immediate)
  | ZMQ_SOCKS_PROXY => do_getsockopt_str (strs o socks_proxy_address)
  | ZMQ_TCP_KEEPALIVE => get_int (ints o tcp_keepalive)
  | ZMQ_TCP_KEEPALIVE_CNT => get_int (ints o tcp_keepalive_cnt)
  | ZMQ_TCP_KEEPALIVE_IDLE => get_int (ints o tcp_keepalive_idle)
  | ZMQ_TCP_KEEPALIVE_INTVL => get_int (ints o tcp_keepalive_intvl)
  | ZMQ_MECHANISM => get_int (ints o mechanism)
  | ZMQ_PLAIN_SERVER => get_bool (negb (ints o as_server =? 0) && (ints o mechanism =? 1))
  | ZMQ_PLAIN_USERNAME => do_getsockopt_str (strs o plain_username)
  | ZMQ_PLAIN_PASSWORD => do_getsockopt_str (strs o plain_password)
  | ZMQ_ZAP_DOMAIN => do_getsockopt_str (strs o zap_domain)
  | ZMQ_CURVE_SERVER => get_bool (negb (ints o as_server =? 0) && (ints o mechanism =? Greeting.ZMQ_CURVE))
  | ZMQ_CURVE_PUBLICKEY => do_getsockopt_curve_key (keys o curve_public_key)
  | ZMQ_CURVE_SECRETKEY => do_getsockopt_curve_key (keys o curve_secret_key)
  | ZMQ_CURVE_SERVERKEY => do_getsockopt_curve_key (keys o curve_server_key)
  | ZMQ_CONFLATE => get_bool (bools o conflate)
  | ZMQ_HANDSHAKE_IVL => get_int (ints o handshake_ivl)
  | ZMQ_INVERT_MATCHING => get_bool (bools o invert_matching)
  | ZMQ_HEARTBEAT_IVL => get_int (ints o heartbeat_interval)
  | ZMQ_HEARTBEAT_TTL => get_int (ints o heartbeat_ttl * 100)
  | ZMQ_HEARTBEAT_TIMEOUT => get_int (ints o heartbeat_timeout)
  | ZMQ_USE_FD => get_int (ints o use_fd)
  | ZMQ_BINDTODEVICE => do_getsockopt_str (strs o bound_device)
  | ZMQ_ZAP_ENFORCE_DOMAIN => get_bool (bools o zap_enforce_domain)
  | ZMQ_LOOPBACK_FASTPATH => get_bool (bools o loopback_fastpath)
  | ZMQ_MULTICAST_LOOP => get_bool (bools o multicast_loop)
  | ZMQ_TCP_ACCEPT_FILTER | ZMQ_IPC_FILTER_UID | ZMQ_IPC_FILTER_GID | ZMQ_IPC_FILTER_PID | ZMQ_METADATA | ZMQ_UNKNOWN => Some (inr EINVAL)
  end.
End getsockopt.

(** [get_effective_conflate_option] *)
Definition get_effective_conflate_option (o : options_t) : bool :=
  bools o conflate && bool_decide (ints o type_ ∈ [5; 7; 8; 1; 2]).

(** * Correctness *)

(** ** Integers in memory *)

Lemma le_value_bytes n v : le_value (le_bytes n v) = v mod 256 ^ Z.of_nat n.
Proof.
  revert v. induction n as [|n IH]; intros v; [by rewrite Z.mod_1_r|]. change (le_value (le_bytes (S n) v)) with (v mod 256 + 256 * le_value (le_bytes n (v / 256))).
  rewrite IH. rewrite Nat2Z.inj_succ, Z.pow_succ_r by lia. rewrite Z.rem_mul_r by (first [lia|apply Z.pow_pos_nonneg; lia]). done.
Qed.

Lemma length_le_bytes n v : length (le_bytes n v) = n.
Proof. revert v. induction n as [|n IH]; intros v; cbn [le_bytes length]; [done|]. by rewrite IH. Qed.

Lemma i32_range z : - 2 ^ 31 ≤ Address.i32 z < 2 ^ 31.
Proof.
  unfold Address.i32. pose proof (wrap_range 32 z ltac:(lia)) as H. destruct (Z.ltb_spec (u32 z) (2 ^ 31)) as [Hl|Hl];
    change (2 ^ 32) with (2 * 2 ^ 31) in *; lia.
Qed.

Lemma i64_range z : - 2 ^ 63 ≤ i64 z < 2 ^ 63.
Proof.
  unfold i64. pose proof (wrap_range 64 z ltac:(lia)) as H. destruct (Z.ltb_spec (u64 z) (2 ^ 63)) as [Hl|Hl];
    change (2 ^ 64) with (2 * 2 ^ 63) in *; lia.
Qed.

Lemma i32_bytes v : - 2 ^ 31 ≤ v < 2 ^ 31 → Address.i32 (le_value (le_bytes 4 v)) = v.
Proof.
  intros Hv. rewrite le_value_bytes. unfold Address.i32, wrap. change (256 ^ Z.of_nat 4) with (2 ^ 32). rewrite Z.mod_mod by lia.
  destruct (decide (0 ≤ v)) as [Hp|Hn].
  - rewrite Z.mod_small by lia. rewrite (proj2 (Z.ltb_lt _ _)) by lia. done.
  - assert (Hm : v mod 2 ^ 32 = v + 2 ^ 32) by (symmetry; apply (Z.mod_unique v _ (-1)); lia). rewrite Hm.
    rewrite (proj2 (Z.ltb_ge _ _)) by lia. lia.
Qed.

(** ** Memory *)

Definition mem_ok (mem : option (list Z)) : Prop := match mem with Some l => bytes_ok l | None => True end.

Lemma read_Some mem n s : read mem n = Some s → length s = n ∧ (mem_ok mem → bytes_ok s).
Proof.
  unfold read. destruct mem as [l|]; case_decide; [|done| |done].
  - intros [= <-]. split; [rewrite length_take; lia|]. intros Hl. by apply Forall_take.
  - by intros [= <-].
Qed.

Lemma c_string_ok l s : c_string l = Some s → (bytes_ok l → bytes_ok s) ∧ Forall (λ c, c ≠ 0) s.
Proof.
  revert s. induction l as [|c l IH]; intros s; cbn [c_string]; [done|]. destruct (Z.eqb_spec c 0) as [->|Hc].
  - intros [= <-]. split; [by intros _|constructor].
  - destruct (c_string l) as [s'|]; [|done]. intros [= <-]. destruct (IH _ eq_refl) as [Hb Hz]. split; [|by constructor].
    intros [Hc' Hl]%Forall_cons_1. constructor; [done|by apply Hb].
Qed.

Lemma c_string_nul s : Forall (λ c, c ≠ 0) s → c_string (s ++ [0]) = Some s.
Proof. induction 1 as [|c s Hc Hs IH]; cbn [app c_string]; [done|]. rewrite (proj2 (Z.eqb_neq _ _)) by done. by rewrite IH. Qed.

Lemma split_colon_Some s a b : split_colon s = Some (a, b) → s = a ++ 58 :: b.
Proof.
  revert a b. induction s as [|c s IH]; intros a b; cbn [split_colon]; [done|]. destruct (Z.eqb_spec c 58) as [->|].
  - by intros [= <- <-].
  - destruct (split_colon s) as [[a' b']|]; [|done]. intros [= <- <-]. by rewrite (IH _ _ eq_refl).
Qed.

(** ** Keys *)

Lemma store_ok dest i x d : Z85.store dest i x = Some d → length d = length dest ∧ (bytes_ok dest → byte_ok x → bytes_ok d).
Proof.
  unfold Z85.store. destruct (_ && _); [|done]. intros [= <-]. split; [apply length_insert|]. intros Hd Hx. by apply Forall_insert.
Qed.

Lemma put_bytes_ok fuel : ∀ v dv n dest r d, Z85.put_bytes fuel v dv n dest = Some (r, d) →
  length d = length dest ∧ (bytes_ok dest → bytes_ok d).
Proof.
  induction fuel as [|fuel IH]; intros v dv n dest r d; cbn [Z85.put_bytes]; [done|]. destruct (dv =? 0); [by intros [= <- <-]|].
  destruct (Z85.store _ _ _) as [d1|] eqn:Hs; [|done]. apply store_ok in Hs as [Hl1 Hb1]. intros H. apply IH in H as [Hl Hb].
  split; [congruence|]. intros Hd. apply Hb, Hb1; [done|]. apply (wrap_range 8). lia.
Qed.

Lemma decode_loop_ok fuel : ∀ s bn cn v dest bn' cn' d r, Z85.z85_decode_loop fuel s bn cn v dest = Some (bn', cn', d, r) →
  length d = length dest ∧ (bytes_ok dest → bytes_ok d) ∧ (r = RcOk ∨ r = RcErr EINVAL).
Proof.
  induction fuel as [|fuel IH]; intros s bn cn v dest bn' cn' d r; cbn [Z85.z85_decode_loop]; [done|].
  destruct (Z85.load s cn) as [c|]; [|done]. cbn [mbind option_bind]. destruct (c =? 0); [intros [= <- <- <- <-]; auto|].
  destruct (Z85.z85_accumulate v c) as [v'|]; [|intros [= <- <- <- <-]; auto]. cbv zeta. destruct (_ =? 0); [|by intros H%IH].
  destruct (Z85.put_bytes _ _ _ _ _) as [[n1 d1]|] eqn:Hp; [|done]. cbn [mbind option_bind]. apply put_bytes_ok in Hp as [Hl1 Hb1].
  intros H. apply IH in H as (Hl & Hb & Hr). split; [congruence|]. auto.
Qed.

Lemma z85_decode_ok dest s d r : Z85.zmq_z85_decode dest s = Some (d, r) →
  length d = length dest ∧ (bytes_ok dest → bytes_ok d) ∧ (r = RcOk ∨ r = RcErr EINVAL).
Proof.
  unfold Z85.zmq_z85_decode. destruct (Z85.z85_decode_loop _ _ _ _ _ _) as [[[[bn cn] d1] r1]|] eqn:H; [|done]. cbn [mbind option_bind].
  apply decode_loop_ok in H as (Hl & Hb & Hr). destruct r1; [|intros [= <- <-]; auto].
  destruct (negb _); [intros [= <- <-]; auto|]. destruct (zmq_assert _); [|done]. intros [= <- <-]. auto.
Qed.

(** ** The metadata *)

Lemma string_lt_trans a : ∀ b c, string_lt a b = true → string_lt b c = true → string_lt a c = true.
Proof.
  induction a as [|x a IH]; intros [|y b] [|z c]; cbn [string_lt]; try done. rewrite !orb_true_iff, !andb_true_iff, !Z.ltb_lt, !Z.eqb_eq.
  intros [H1|[-> H1]] [H2|[-> H2]]; [left; lia|by left|by left|right]. split; [done|by eapply IH].
Qed.

Lemma string_lt_total a : ∀ b, a ≠ b → string_lt a b = false → string_lt b a = true.
Proof.
  induction a as [|x a IH]; intros [|y b] Hne; cbn [string_lt]; try done. rewrite orb_false_iff, andb_false_iff, Z.ltb_ge, Z.eqb_neq.
  intros [Hle [Hx|Hlt]]; apply orb_true_iff; [left; apply Z.ltb_lt; lia|].
  destruct (decide (x = y)) as [->|]; [|left; apply Z.ltb_lt; lia]. right. rewrite Z.eqb_refl. apply IH; [congruence|done].
Qed.

Lemma string_lt_irrefl a : string_lt a a = false.
Proof. induction a as [|x a IH]; cbn [string_lt]; [done|]. by rewrite Z.ltb_irrefl, Z.eqb_refl, IH. Qed.

Definition metadata_lt (a b : list Z * list Z) : Prop := string_lt a.1 b.1 = true.

Lemma map_insert_elem key val l e : e ∈ map_insert key val l → e = (key, val) ∨ e ∈ l.
Proof.
  induction l as [|[k v] l IH]; cbn [map_insert]; [intros ?%list_elem_of_singleton; by left|]. case_bool_decide as Hk; [by right|].
  destruct (string_lt key k); [intros [->|He]%elem_of_cons; [by left|by right]|].
  intros [->|He]%elem_of_cons; [right; by left|]. destruct (IH He); [by left|right; by right].
Qed.

Lemma map_insert_sorted key val l : StronglySorted metadata_lt l → StronglySorted metadata_lt (map_insert key val l).
Proof.
  induction 1 as [|[k v] l Hs IH Hf]; cbn [map_insert]; [repeat constructor|]. case_bool_decide as Hk; [by constructor|].
  destruct (string_lt key k) eqn:Hlt.
  - constructor; [by constructor|]. constructor; [done|]. eapply Forall_impl; [exact Hf|]. intros [k' v'] H. by eapply string_lt_trans.
  - constructor; [done|]. apply Forall_forall. intros e [->|He]%map_insert_elem; [by apply string_lt_total|].
    rewrite Forall_forall in Hf. by apply Hf.
Qed.

(** ** Types of the members *)

Section types.
(** The type of the socket, which its constructor sets. *)
Context (t : Z).

Definition int_min (m : int_member) : Z :=
  match m with
  | type_ => t
  | rate | multicast_hops | multicast_maxtpdu => 1
  | sndhwm | rcvhwm | recovery_ivl | tos | connect_timeout | tcp_maxrt | reconnect_ivl_max | backlog | handshake_ivl | heartbeat_interval
  | heartbeat_ttl | immediate | as_server | mechanism | affinity => 0
  | maxmsgsize => - 2 ^ 63
  | _ => -1
  end.

Definition int_max (m : int_member) : Z :=
  match m with
  | affinity => 2 ^ 64 - 1
  | maxmsgsize => 2 ^ 63 - 1
  | heartbeat_ttl => 65535
  | tcp_keepalive | immediate | as_server => 1
  | mechanism => 2
  | type_ => t
  | _ => 2 ^ 31 - 1
  end.

Definition str_max (m : str_member) : option nat :=
  match m with
  | socks_proxy_address => None
  | bound_device => Some BINDDEVSIZ
  | _ => Some UINT8_MAX
  end.

Definition entry_ok (e : list Z * list Z) : Prop :=
  take 2 e.1 = Address.chars "X-" ∧ (length e.1 ≤ UINT8_MAX)%nat ∧ e.2 ≠ [] ∧
  Forall (λ c, c ≠ 0) e.1 ∧ Forall (λ c, c ≠ 0) e.2.

Record typed (o : options_t) : Prop := {
  ty_int m : int_min m ≤ ints o m ≤ int_max m;
  ty_str m : bytes_ok (strs o m) ∧ match str_max m with Some n => (length (strs o m) ≤ n)%nat | None => True end;
  ty_key m : length (keys o m) = CURVE_KEYSIZE ∧ bytes_ok (keys o m);
  ty_filters : Forall Address.mask_ok (tcp_accept_filters o);
  ty_metadata : Forall entry_ok (app_metadata o);
  ty_sorted : StronglySorted metadata_lt (app_metadata o) }.

Lemma put_int_typed m v o : typed o → int_min m ≤ v ≤ int_max m → typed (put_int m v o).
Proof.
  intros [H1 H2 H3 H4 H5 H6] Hv. split; try done. intros m'. cbn [put_int ints]. destruct (decide (m = m')) as [<-|Hne].
  - by rewrite fn_lookup_insert.
  - by rewrite fn_lookup_insert_ne.
Qed.

Lemma put_bool_typed m v o : typed o → typed (put_bool m v o).
Proof. by intros [H1 H2 H3 H4 H5 H6]. Qed.

Lemma put_set_typed m v o : typed o → typed (put_set m v o).
Proof. by intros [H1 H2 H3 H4 H5 H6]. Qed.

Lemma put_str_typed m v o : typed o → bytes_ok v → match str_max m with Some n => (length v ≤ n)%nat | None => True end → typed (put_str m v o).
Proof.
  intros [H1 H2 H3 H4 H5 H6] Hb Hl. split; try done. intros m'. cbn [put_str strs]. destruct (decide (m = m')) as [<-|Hne].
  - by rewrite fn_lookup_insert.
  - by rewrite fn_lookup_insert_ne.
Qed.

Lemma put_key_typed m v o : typed o → length v = CURVE_KEYSIZE → bytes_ok v → typed (put_key m v o).
Proof.
  intros [H1 H2 H3 H4 H5 H6] Hb Hl. split; try done. intros m'. cbn [put_key keys]. destruct (decide (m = m')) as [<-|Hne].
  - by rewrite fn_lookup_insert.
  - by rewrite fn_lookup_insert_ne.
Qed.

(** ** One call *)

Section call.
Context (sys : Address.system) (mem : option (list Z)) (optvallen : nat).

(** What a handler does when it returns: it keeps the types, and changes nothing
    when it fails. *)
Definition sound (o : options_t) (res : option (rc * options_t)) : Prop :=
  ∀ r o', res = Some (r, o') → (Address.system_ok sys → mem_ok mem → typed o → typed o') ∧ (r ≠ RcOk → r = RcErr EINVAL ∧ o' = o).

Lemma sound_invalid o : sound o (invalid o).
Proof. by intros r o' [= <- <-]. Qed.

Lemma sound_done o o' : (Address.system_ok sys → mem_ok mem → typed o → typed o') → sound o (done_ o').
Proof. intros H r o1 [= <- <-]. by split. Qed.

Lemma sound_read n o f : (∀ s, length s = n → (mem_ok mem → bytes_ok s) → sound o (f s)) → sound o (s ← read mem n; f s).
Proof.
  intros H. destruct (read mem n) as [s|] eqn:Hr; cbn [mbind option_bind]; [|by intros r o']. apply read_Some in Hr as [Hl Hb]. by apply H.
Qed.

Lemma set_int_sound ok m v o : (ok = true → int_min m ≤ v ≤ int_max m) → sound o (set_int optvallen ok m v o).
Proof.
  intros Hok. unfold set_int. destruct (_ && ok) eqn:E; [|apply sound_invalid]. apply andb_true_iff in E as [_ E].
  apply sound_done. intros _ _ Ho. apply put_int_typed; auto.
Qed.

Lemma num_sound n conv m o : (∀ z, int_min m ≤ conv z ≤ int_max m) → sound o (do_setsockopt_num mem optvallen n conv m o).
Proof.
  intros Hc. unfold do_setsockopt_num, do_setsockopt. destruct (optvallen =? n)%nat; [|apply sound_invalid].
  destruct (read mem n); cbn [mbind option_bind]; [|by intros r o']. apply sound_done. intros _ _ Ho. by apply put_int_typed.
Qed.

Lemma strict_sound set o : (∀ b, typed o → typed (set b o)) → sound o (do_setsockopt_int_as_bool_strict mem optvallen set o).
Proof.
  intros Hs. unfold do_setsockopt_int_as_bool_strict, do_setsockopt. destruct (optvallen =? 4)%nat; [|apply sound_invalid].
  destruct (read mem 4); cbn [mbind option_bind]; [|by intros r o']. destruct (_ || _); [|apply sound_invalid]. apply sound_done; auto.
Qed.

Lemma relaxed_sound set o : (∀ b, typed o → typed (set b o)) → sound o (do_setsockopt_int_as_bool_relaxed mem optvallen set o).
Proof.
  intros Hs. unfold do_setsockopt_int_as_bool_relaxed, do_setsockopt. destruct (optvallen =? 4)%nat; [|apply sound_invalid].
  destruct (read mem 4); cbn [mbind option_bind]; [|by intros r o']. apply sound_done; auto.
Qed.

Lemma strict_string max s : string_allow_empty_strict mem optvallen max = Some (Some s) →
  (mem_ok mem → bytes_ok s) ∧ match max with Some n => (length s ≤ n)%nat | None => True end.
Proof.
  unfold string_allow_empty_strict. destruct (_ && _); [intros [= <-]; split; [by intros _|by destruct max; [cbn; lia|]]|].
  destruct (negb _ && _ && _) eqn:E; [|done]. destruct (read mem optvallen) as [s'|] eqn:Hr; [|done]. intros [= <-].
  apply read_Some in Hr as [Hl Hb]. split; [done|]. destruct max as [n|]; [|done]. apply andb_true_iff in E as [_ E]. apply Nat.leb_le in E. lia.
Qed.

Lemma str_sound max m o : max = str_max m → sound o (do_setsockopt_string_allow_empty_strict mem optvallen max m o).
Proof.
  intros ->. unfold do_setsockopt_string_allow_empty_strict. destruct (string_allow_empty_strict _ _ _) as [[s|]|] eqn:E; cbn [mbind option_bind];
    [|apply sound_invalid|by intros r o']. apply strict_string in E as [Hb Hl]. apply sound_done. intros _ Hm Ho. apply put_str_typed; auto.
Qed.

Lemma set_curve_key_ok m o r o' : set_curve_key mem optvallen m o = Some (r, o') →
  (mem_ok mem → typed o → typed o') ∧
  (r ≠ RcOk → r = RcErr EINVAL ∧ (o' = o ∨ (optvallen = 40 ∨ optvallen = 41)%nat ∧ ∃ key, o' = put_key m key o)).
Proof.
  unfold set_curve_key. destruct (Nat.eqb_spec optvallen CURVE_KEYSIZE) as [->|].
  { destruct (read mem _) as [s|] eqn:Hr; [|done]. intros [= <- <-]. split; [|done]. apply read_Some in Hr as [Hl Hb].
    intros Hm Ho. apply put_int_typed; [apply put_key_typed; auto|done]. }
  destruct (_ || _) eqn:E; [|intros [= <- <-]; split; [done|by auto]].
  destruct (if (_ =? _)%nat then mem else _) as [s|]; [|done]. cbn [mbind option_bind].
  destruct (Z85.zmq_z85_decode _ s) as [[key r']|] eqn:Hd; [|done]. cbn [mbind option_bind]. apply z85_decode_ok in Hd as (Hl & Hb & Hr).
  assert (Htk : typed o → typed (put_key m key o)).
  { intros Ho. destruct (ty_key _ Ho m) as [Hkl Hkb]. apply put_key_typed; [done|by rewrite Hl|by apply Hb]. }
  destruct Hr as [-> | ->]; intros [= <- <-].
  - split; [|done]. intros _ Ho. apply put_int_typed; [by apply Htk|done].
  - split; [by intros _|]. intros _. split; [done|]. right. split; [|by exists key]. unfold CURVE_KEYSIZE_Z85 in E.
    apply orb_true_iff in E as [E|E]; apply Nat.eqb_eq in E; [by right|by left].
Qed.

Lemma set_metadata_sound o : sound o (set_metadata mem optvallen o).
Proof.
  unfold set_metadata. destruct (_ && _); [|apply sound_invalid]. destruct mem as [l|] eqn:Hmem; cbn [mbind option_bind]; [|by intros r o'].
  destruct (c_string l) as [s|] eqn:Hs; cbn [mbind option_bind]; [|by intros r o']. destruct (split_colon s) as [[key val]|] eqn:Hsp; [|apply sound_invalid].
  destruct (negb _ && _ && _ && _) eqn:E; [|apply sound_invalid]. rewrite !andb_true_iff, !negb_true_iff, !bool_decide_eq_false, bool_decide_eq_true, Nat.leb_le in E.
  destruct E as [[[Hk Hv] Hx] Hl]. apply sound_done. intros _ _ [H1 H2 H3 H4 H5 H6]. split; try done; [|by apply map_insert_sorted].
  apply Forall_forall. intros e [->|He]%map_insert_elem; [|rewrite Forall_forall in H5; by apply H5].
  apply c_string_ok in Hs as [_ Hz]. apply split_colon_Some in Hsp as ->. apply Forall_app in Hz as [Hz1 Hz2]. apply Forall_cons_1 in Hz2 as [_ Hz2]. done.
Qed.

Lemma set_plain_sound m o : str_max m = Some UINT8_MAX → sound o (set_plain mem optvallen m o).
Proof.
  intros Hm. unfold set_plain. destruct (_ && _); [apply sound_done; intros _ _ Ho; by apply put_int_typed|].
  destruct (_ && _) eqn:E; [|apply sound_invalid]. apply andb_true_iff in E as [E _]. apply andb_true_iff in E as [_ E]. apply Nat.leb_le in E.
  apply sound_read. intros s Hl Hb. apply sound_done. intros _ Hmem Ho. apply put_int_typed; [|done]. apply put_int_typed; [|done].
  apply put_str_typed; [done|by apply Hb|]. rewrite Hm. lia.
Qed.

Lemma set_server_sound v mech o : mech ∈ [1; 2] → sound o (set_server optvallen v mech o).
Proof.
  intros Hmech. unfold set_server. destruct (_ && _) eqn:E; [|apply sound_invalid]. apply andb_true_iff in E as [_ E]. apply sound_done. intros _ _ Ho.
  apply put_int_typed; [apply put_int_typed; [done|cbn; lia]|]. assert (mech = 1 ∨ mech = 2) by set_solver. destruct (v =? 0); cbn; lia.
Qed.

Lemma set_set_sound conv m o : sound o (do_setsockopt_set mem optvallen conv m o).
Proof.
  unfold do_setsockopt_set. destruct (_ && _); [apply sound_done; intros _ _; by apply put_set_typed|]. destruct (_ && _); [|apply sound_invalid].
  apply sound_read. intros s _ _. apply sound_done. intros _ _. by apply put_set_typed.
Qed.

Lemma set_accept_filter_ok o r o' : set_accept_filter sys mem optvallen o = Some (r, o') →
  (Address.system_ok sys → typed o → typed o') ∧ (r ≠ RcOk → o' = o).
Proof.
  unfold set_accept_filter. destruct (string_allow_empty_strict _ _ _) as [[s|]|]; cbn [mbind option_bind]; [|by intros [= <- <-]|done].
  case_bool_decide; [intros [= <- <-]; split; [|done]; intros _ []; split; try done; constructor|].
  destruct (c_string _) as [name|]; cbn [mbind option_bind]; [|done].
  destruct (Address.mask_resolve _ _ _ _) as [[[|e] mask]|] eqn:Hm; cbn [mbind option_bind]; [|by intros [= <- <-]|done].
  intros [= <- <-]. split; [|done]. intros Hsys []. split; try done. cbn [put_filters tcp_accept_filters]. apply Forall_app. split; [done|]. constructor; [|done].
  by eapply Address.mask_resolve_ok.
Qed.

Definition key_of (option_ : sockopt) : option key_member :=
  match option_ with
  | ZMQ_CURVE_PUBLICKEY => Some curve_public_key
  | ZMQ_CURVE_SECRETKEY => Some curve_secret_key
  | ZMQ_CURVE_SERVERKEY => Some curve_server_key
  | _ => None
  end.

Lemma setsockopt_sound option_ o : key_of option_ = None → option_ ≠ ZMQ_TCP_ACCEPT_FILTER → sound o (setsockopt sys mem optvallen option_ o).
Proof.
  intros Hk Hf. unfold setsockopt.
  assert (Hv : ∀ f, (∀ v, - 2 ^ 31 ≤ v < 2 ^ 31 → sound o (f v)) → sound o (v ← (if is_int optvallen then bs ← read mem 4; Some (Address.i32 (le_value bs)) else Some 0); f v)).
  { intros f H. destruct (is_int optvallen); [|apply H; lia]. destruct (read mem 4); [|by intros r o']. apply H, i32_range. }
  apply Hv. clear Hv. intros v Hv. destruct option_; try done;
    try apply sound_invalid;
    try (apply set_int_sound; cbn [int_min int_max]; lia);
    try (apply strict_sound; intros; by apply put_bool_typed);
    try (apply relaxed_sound; intros; by apply put_bool_typed);
    try (apply str_sound; done);
    try apply set_set_sound;
    try (apply set_plain_sound; done);
    try (apply set_server_sound; set_solver);
    try apply set_metadata_sound.
  - apply num_sound. intros z. pose proof (wrap_range 64 z ltac:(lia)). cbn [int_min int_max]. lia.
  - destruct (_ && _) eqn:E; [|apply sound_invalid]. apply andb_true_iff in E as [_ E]. apply Nat.leb_le in E.
    apply sound_read. intros s Hl Hb. apply sound_done. intros _ Hm Ho. apply put_str_typed; [done|by apply Hb|cbn; lia].
  - apply num_sound. intros z. pose proof (i64_range z). cbn [int_min int_max]. lia.
  - unfold do_setsockopt_string_allow_empty_relaxed. destruct (_ && _) eqn:E; [|apply sound_invalid]. apply andb_true_iff in E as [_ E]. apply Nat.leb_le in E.
    apply sound_read. intros s Hl Hb. apply sound_done. intros _ Hm Ho. apply put_str_typed; [done|by apply Hb|cbn; lia].
  - apply set_int_sound. cbn [int_min int_max]. intros H. rewrite u16_small by lia. lia.
Qed.

Lemma setsockopt_key m option_ o r o' : key_of option_ = Some m → setsockopt sys mem optvallen option_ o = Some (r, o') →
  (mem_ok mem → typed o → typed o') ∧
  (r ≠ RcOk → r = RcErr EINVAL ∧ (o' = o ∨ (optvallen = 40 ∨ optvallen = 41)%nat ∧ ∃ key, o' = put_key m key o)).
Proof.
  intros Hk. unfold setsockopt. destruct (if is_int optvallen then _ else _) as [v|]; [|done]. cbn [mbind option_bind].
  destruct option_; try done; injection Hk as <-; [apply set_curve_key_ok..|].
  destruct (set_curve_key _ _ _ _) as [[r1 o1]|] eqn:Hc; [|done]. cbn [mbind option_bind]. apply set_curve_key_ok in Hc as [Ht He]. destruct r1 as [|e].
  - intros [= <- <-]. split; [|done]. intros Hm Ho. apply put_int_typed; [by apply Ht|done].
  - intros [= <- <-]. split; [done|]. intros _. split; [done|]. by apply He.
Qed.

Lemma setsockopt_typed option_ o r o' : Address.system_ok sys → mem_ok mem → setsockopt sys mem optvallen option_ o = Some (r, o') → typed o → typed o'.
Proof.
  intros Hsys Hm H Ho. destruct (key_of option_) as [m|] eqn:Hk; [by apply (setsockopt_key m) in H as [Ht _]; auto|].
  destruct (decide (option_ = ZMQ_TCP_ACCEPT_FILTER)) as [->|Hf]; [|by apply setsockopt_sound in H as [Ht _]; auto].
  unfold setsockopt in H. destruct (if is_int optvallen then _ else _) as [v|]; [|done]. by apply set_accept_filter_ok in H as [Ht _]; auto.
Qed.
End call.

End types.

(** ** Properties *)

(** A socket of a type, and a call of [setsockopt] that returns. *)
Definition socket_options (t : Z) : options_t := put_int type_ t options_new.

Inductive set_call (sys : Address.system) : options_t → options_t → Prop :=
| set_call_step mem len option_ o r o' : mem_ok mem → setsockopt sys mem len option_ o = Some (r, o') → set_call sys o o'.

Lemma socket_options_typed t : typed t (socket_options t).
Proof.
  split; [|intros m; split; [constructor|destruct m; cbn; try done; lia]|intros m; split; [done|repeat constructor; done]|constructor..].
  intros m. cbn [socket_options put_int ints options_new]. destruct (decide (type_ = m)) as [<-|Hne].
  - rewrite fn_lookup_insert. cbn. lia.
  - rewrite fn_lookup_insert_ne by done. destruct m; cbn; try done; lia.
Qed.

Lemma reachable_typed sys t o : Address.system_ok sys → rtc (set_call sys) (socket_options t) o → typed t o.
Proof.
  intros Hsys Hr. pose proof (socket_options_typed t) as Hs. induction Hr as [o|o o1 o2 Hc _ IH]; [done|]. apply IH. destruct Hc. by eapply setsockopt_typed.
Qed.

(** C36. Whatever calls of [setsockopt] a program makes, with whatever bytes, sizes and
    options, the type of the socket stays and the members of [options_t] keep the
    types the rest of the library relies on: each integer is in its range, the TTL
    of heartbeats fits 16 bits, strings and routing ids are at most 255 bytes long
    except the address of the SOCKS proxy, which has no limit ([str_max]), keys are
    32 bytes, filters have a number of bits that fits their network, and the
    metadata are sorted, with distinct names that begin with X-, and values that
    are not empty. *)
Theorem options_typed sys t o :
  Address.system_ok sys → rtc (set_call sys) (socket_options t) o →
  (∀ m, int_min t m ≤ ints o m ≤ int_max t m) ∧
  (∀ m, bytes_ok (strs o m) ∧ match str_max m with Some n => (length (strs o m) ≤ n)%nat | None => True end) ∧
  (∀ m, length (keys o m) = CURVE_KEYSIZE ∧ bytes_ok (keys o m)) ∧
  Forall Address.mask_ok (tcp_accept_filters o) ∧
  Forall entry_ok (app_metadata o) ∧ StronglySorted metadata_lt (app_metadata o).
Proof.
  intros Hsys Hr. by destruct (reachable_typed sys t o Hsys Hr).
Qed.

(** C37. A call of [setsockopt] that fails leaves every option as it was and sets EINVAL,
    with two exceptions: an address filter can also fail for want of memory in the
    resolver, and a CURVE key passed as Z85 text can be left half written; no other member is. *)
Theorem options_atomic sys mem len option_ o e o' :
  setsockopt sys mem len option_ o = Some (RcErr e, o') →
  (e = EINVAL ∨ option_ = ZMQ_TCP_ACCEPT_FILTER) ∧
  (o' = o ∨ ∃ m key, key_of option_ = Some m ∧ (len = 40 ∨ len = 41)%nat ∧ o' = put_key m key o).
Proof.
  intros H. destruct (key_of option_) as [m|] eqn:Hk.
  - destruct (setsockopt_key 0 sys mem len m option_ o _ _ Hk H) as [_ He]. destruct (He ltac:(done)) as [[= Hee] Ho]. split; [by left|].
    destruct Ho as [->|(Hl & key & ->)]; [by left|]. right. by exists m, key.
  - destruct (decide (option_ = ZMQ_TCP_ACCEPT_FILTER)) as [->|Hf].
    + split; [by right|]. left. unfold setsockopt in H. destruct (if is_int len then _ else _) as [v|]; [|done].
      apply (set_accept_filter_ok 0) in H as [_ Ho]. by apply Ho.
    + apply (setsockopt_sound 0) in H as [_ Ho]; [|done..]. destruct (Ho ltac:(done)) as [[= Hee] ->]. split; left; done.
Qed.

(** ** Setting and getting *)

(** The options that have an int, and what is read after setting [v]. *)
Definition numeric (option_ : sockopt) : bool :=
  match option_ with
  | ZMQ_AFFINITY | ZMQ_MAXMSGSIZE | ZMQ_ROUTING_ID | ZMQ_SOCKS_PROXY | ZMQ_PLAIN_USERNAME | ZMQ_PLAIN_PASSWORD | ZMQ_ZAP_DOMAIN | ZMQ_BINDTODEVICE
  | ZMQ_TCP_ACCEPT_FILTER | ZMQ_IPC_FILTER_UID | ZMQ_IPC_FILTER_GID | ZMQ_IPC_FILTER_PID
  | ZMQ_CURVE_PUBLICKEY | ZMQ_CURVE_SECRETKEY | ZMQ_CURVE_SERVERKEY | ZMQ_METADATA => false
  | _ => true
  end.

Definition read_back (option_ : sockopt) (v : Z) : Z :=
  match option_ with
  | ZMQ_HEARTBEAT_TTL => Z.quot v 100 * 100
  | ZMQ_INVERT_MATCHING | ZMQ_ZAP_ENFORCE_DOMAIN | ZMQ_LOOPBACK_FASTPATH | ZMQ_MULTICAST_LOOP => if v =? 0 then 0 else 1
  | _ => v
  end.

Definition string_member (option_ : sockopt) : option str_member :=
  match option_ with
  | ZMQ_SOCKS_PROXY => Some socks_proxy_address
  | ZMQ_PLAIN_USERNAME => Some plain_username
  | ZMQ_PLAIN_PASSWORD => Some plain_password
  | ZMQ_ZAP_DOMAIN => Some zap_domain
  | ZMQ_BINDTODEVICE => Some bound_device
  | _ => None
  end.

Lemma read_prefix l rest : read (Some (l ++ rest)) (length l) = Some l.
Proof. unfold read. rewrite decide_True by (rewrite length_app; lia). by rewrite take_app_length. Qed.

Lemma read_int v rest : read (Some (le_bytes 4 v ++ rest)) 4 = Some (le_bytes 4 v).
Proof. apply (read_prefix (le_bytes 4 v)). Qed.

Lemma set_int_Some ok m v o o' : set_int 4 ok m v o = Some (RcOk, o') → ok = true ∧ o' = put_int m v o.
Proof. unfold set_int. destruct ok; [|done]. by intros [= <-]. Qed.

Lemma bool_Some v rest set o o' : - 2 ^ 31 ≤ v < 2 ^ 31 →
  (do_setsockopt_int_as_bool_strict (Some (le_bytes 4 v ++ rest)) 4 set o = Some (RcOk, o') →
     (v = 0 ∧ o' = set false o) ∨ (v = 1 ∧ o' = set true o)) ∧
  (do_setsockopt_int_as_bool_relaxed (Some (le_bytes 4 v ++ rest)) 4 set o = Some (RcOk, o') → o' = set (negb (v =? 0)) o).
Proof.
  intros Hv. unfold do_setsockopt_int_as_bool_strict, do_setsockopt_int_as_bool_relaxed, do_setsockopt. change (4 =? 4)%nat with true. cbv iota.
  rewrite read_int. cbn [mbind option_bind]. rewrite i32_bytes by done. split; [|by intros [= <-]].
  destruct (Z.eqb_spec v 0) as [->|]; [intros [= <-]; by left|]. destruct (Z.eqb_spec v 1) as [->|]; [|done]. intros [= <-]. by right.
Qed.

Lemma set_server_Some v mech o o' : set_server 4 v mech o = Some (RcOk, o') →
  (v = 0 ∧ o' = put_int mechanism 0 (put_int as_server 0 o)) ∨ (v = 1 ∧ o' = put_int mechanism mech (put_int as_server 1 o)).
Proof.
  unfold set_server. change (is_int 4) with true. destruct (Z.eqb_spec v 0) as [->|]; [intros [= <-]; by left|].
  destruct (Z.eqb_spec v 1) as [->|]; [|done]. intros [= <-]. by right.
Qed.

Lemma set_get_int sys v rest option_ o o' : - 2 ^ 31 ≤ v < 2 ^ 31 → numeric option_ = true →
  setsockopt sys (Some (le_bytes 4 v ++ rest)) 4 option_ o = Some (RcOk, o') →
  getsockopt 4 option_ o' = Some (inl (le_bytes 4 (read_back option_ v), 4%nat)).
Proof.
  intros Hv Hn. unfold setsockopt. change (is_int 4) with true. cbv iota. rewrite read_int. cbn [mbind option_bind]. rewrite i32_bytes by done.
  destruct option_; try done;
    try (intros [_ ->]%set_int_Some; cbn [getsockopt put_int ints]; by rewrite fn_lookup_insert);
    try (intros [[-> ->]|[-> ->]]%(bool_Some v rest _ o o' Hv); cbn [getsockopt put_bool bools]; by rewrite fn_lookup_insert);
    try (intros ->%(bool_Some v rest _ o o' Hv); cbn [getsockopt put_bool bools read_back]; rewrite fn_lookup_insert; by destruct (v =? 0));
    try (intros [[-> ->]|[-> ->]]%set_server_Some; cbn [getsockopt put_int ints]; rewrite fn_lookup_insert, fn_lookup_insert_ne, fn_lookup_insert by done; done).
  intros [Hok ->]%set_int_Some. cbn [getsockopt put_int ints read_back]. rewrite fn_lookup_insert.
  unfold deciseconds_per_millisecond in *. rewrite u16_small by lia. done.
Qed.

Lemma set_get_str sys s rest option_ m o o' n : string_member option_ = Some m → s ≠ [] → (length s < n)%nat →
  setsockopt sys (Some (s ++ rest)) (length s) option_ o = Some (RcOk, o') →
  getsockopt n option_ o' = Some (inl ((s ++ [0]) ++ replicate (n - S (length s)) 0, S (length s))).
Proof.
  intros Hm Hs Hn. unfold setsockopt. destruct (if is_int (length s) then _ else _) as [v|]; [|done]. cbn [mbind option_bind].
  assert (Hpos : (0 <? length s)%nat = true ∧ (length s =? 0)%nat = false) by (destruct s; [done|by split]). destruct Hpos as [Hp Hz].
  assert (Hget : strs o' m = s → do_getsockopt_str n (strs o' m) = Some (inl ((s ++ [0]) ++ replicate (n - S (length s)) 0, S (length s)))).
  { intros ->. unfold do_getsockopt_str, do_getsockopt. rewrite length_app. cbn [length]. rewrite (proj2 (Nat.ltb_ge _ _)) by lia. rewrite Nat.add_1_r. done. }
  assert (Hset : ∀ max, do_setsockopt_string_allow_empty_strict (Some (s ++ rest)) (length s) max m o = Some (RcOk, o') → strs o' m = s).
  { intros max. unfold do_setsockopt_string_allow_empty_strict, string_allow_empty_strict. change (is_null (Some (s ++ rest))) with false. cbn [andb negb].
    rewrite Hp. cbn [andb]. destruct (match max with Some _ => _ | None => _ end); [|done]. rewrite read_prefix. intros [= <-]. cbn. by rewrite fn_lookup_insert. }
  assert (Hplain : set_plain (Some (s ++ rest)) (length s) m o = Some (RcOk, o') → strs o' m = s).
  { unfold set_plain. rewrite Hz, Hp. change (is_null (Some (s ++ rest))) with false. cbn [andb negb]. rewrite andb_true_r. destruct (_ <=? _)%nat; [|done].
    rewrite read_prefix. intros [= <-]. cbn. by rewrite fn_lookup_insert. }
  destruct option_; try done; injection Hm as <-; cbn [getsockopt]; intros H; apply Hget; try (by eapply Hset); try (by apply Hplain).
  unfold do_setsockopt_string_allow_empty_relaxed in H. rewrite Hp in H. cbn [andb] in H. destruct (_ <=? _)%nat in H; [|done].
  rewrite read_prefix in H. injection H as <-. cbn. by rewrite fn_lookup_insert.
Qed.

(** A key and its text. *)
Lemma key_text key : length key = CURVE_KEYSIZE → bytes_ok key → length (Z85.z85_text key) = 40%nat ∧
  Z85.zmq_z85_encode (replicate 41 0) key 32 = Some (Z85.z85_text key ++ [0], RcOk) ∧
  ∀ dest junk, length dest = CURVE_KEYSIZE → Z85.zmq_z85_decode dest (Z85.z85_text key ++ 0 :: junk) = Some (key, RcOk).
Proof.
  intros Hl Hb. unfold CURVE_KEYSIZE in *. assert (Htl : length (Z85.z85_text key) = 40%nat) by (pose proof (Z85.z85_text_length key ltac:(by rewrite Hl)) as H; rewrite Hl in H; change (Z.of_nat 32 * 5 / 4) with 40 in H; lia).
  split; [done|]. split.
  - pose proof (Z85.encode_result key [] (replicate 41 0) Hb) as He. rewrite Hl, app_nil_r in He. change (Z.of_nat 32) with 32 in He.
    rewrite He by done. rewrite Htl. done.
  - intros dest junk Hd. destruct (Z85.decode_result (Z85.z85_text key) junk dest) as [(d & Hd4 & Hdb & Heq & ->)|[Hno _]].
    + apply Z85.z85_text_char_ok.
    + rewrite Htl. done.
    + rewrite Htl, Hd. done.
    + apply Z85.z85_text_inj in Heq as ->; [|done|by rewrite Hl|done..]. rewrite Hl, drop_ge by lia. by rewrite app_nil_r.
    + exfalso. apply (Hno key); [by rewrite Hl|done..].
Qed.

Lemma set_get_key sys key rest rest' m option_ o1 o2 o1' : key_of option_ = Some m → length key = CURVE_KEYSIZE → bytes_ok key → length (keys o2 m) = CURVE_KEYSIZE →
  setsockopt sys (Some (key ++ rest)) 32 option_ o1 = Some (RcOk, o1') →
  getsockopt 32 option_ o1' = Some (inl (key, 32%nat)) ∧
  ∃ text, getsockopt 41 option_ o1' = Some (inl (text, 41%nat)) ∧
  ∃ o2', setsockopt sys (Some (text ++ rest')) 41 option_ o2 = Some (RcOk, o2') ∧ keys o2' m = key.
Proof.
  intros Hk Hl Hb Hl2. destruct (key_text key Hl Hb) as (Htl & Henc & Hdec). unfold setsockopt. change (is_int 32) with false. change (is_int 41) with false. cbv iota. cbn [mbind option_bind].
  assert (Hbin : ∀ m o, set_curve_key (Some (key ++ rest)) 32 m o = done_ (put_int mechanism Greeting.ZMQ_CURVE (put_key m key o))).
  { intros m0 o. unfold set_curve_key. change (32 =? CURVE_KEYSIZE)%nat with true. cbv iota. pose proof (read_prefix key rest) as Hr. rewrite Hl in Hr. unfold CURVE_KEYSIZE in Hr. by rewrite Hr. }
  assert (Htxt : set_curve_key (Some ((Z85.z85_text key ++ [0]) ++ rest')) 41 m o2 = done_ (put_int mechanism Greeting.ZMQ_CURVE (put_key m key o2))).
  { unfold set_curve_key. change (41 =? CURVE_KEYSIZE)%nat with false. change (41 =? CURVE_KEYSIZE_Z85 + 1)%nat with true. cbv iota. cbn [orb mbind option_bind].
    rewrite <- (assoc_L app). cbn [app]. by rewrite Hdec by done. }
  assert (Hget : ∀ o, keys o m = key → do_getsockopt_curve_key 32 (keys o m) = Some (inl (key, 32%nat)) ∧
    do_getsockopt_curve_key 41 (keys o m) = Some (inl (Z85.z85_text key ++ [0], 41%nat))).
  { intros o ->. split; [done|]. unfold do_getsockopt_curve_key. change (41 =? CURVE_KEYSIZE)%nat with false. change (41 =? CURVE_KEYSIZE_Z85 + 1)%nat with true. cbv iota.
    change (Z.of_nat CURVE_KEYSIZE) with 32. by rewrite Henc. }
  destruct option_; try done; injection Hk as <-; rewrite Hbin; intros [= <-]; cbn [getsockopt];
    match goal with |- context [keys ?o ?m] => destruct (Hget o) as [Hg1 Hg2]; [cbn; by rewrite fn_lookup_insert|] end;
    (split; [exact Hg1|]); eexists; (split; [exact Hg2|]); rewrite Htxt; eexists; (split; [reflexivity|]); cbn; by rewrite fn_lookup_insert.
Qed.

(** C38. What [setsockopt] stores is what [getsockopt] gives back: the int itself, or the
    TTL of heartbeats rounded to deciseconds and a truth value made 0 or 1; a string
    followed by its NUL, with the rest of the buffer cleared; a CURVE key as 32 bytes or
    as Z85 text, and that text, set on another socket, is the same key. *)
Theorem options_roundtrip sys rest :
  (∀ v option_ o o', - 2 ^ 31 ≤ v < 2 ^ 31 → numeric option_ = true →
     setsockopt sys (Some (le_bytes 4 v ++ rest)) 4 option_ o = Some (RcOk, o') →
     getsockopt 4 option_ o' = Some (inl (le_bytes 4 (read_back option_ v), 4%nat))) ∧
  (∀ s option_ m o o' n, string_member option_ = Some m → s ≠ [] → (length s < n)%nat →
     setsockopt sys (Some (s ++ rest)) (length s) option_ o = Some (RcOk, o') →
     getsockopt n option_ o' = Some (inl ((s ++ [0]) ++ replicate (n - S (length s)) 0, S (length s)))) ∧
  (∀ key rest' m option_ o1 o2 o1', key_of option_ = Some m → length key = CURVE_KEYSIZE → bytes_ok key → length (keys o2 m) = CURVE_KEYSIZE →
     setsockopt sys (Some (key ++ rest)) 32 option_ o1 = Some (RcOk, o1') →
     getsockopt 32 option_ o1' = Some (inl (key, 32%nat)) ∧
     ∃ text, getsockopt 41 option_ o1' = Some (inl (text, 41%nat)) ∧
     ∃ o2', setsockopt sys (Some (text ++ rest')) 41 option_ o2 = Some (RcOk, o2') ∧ keys o2' m = key).
Proof.
  split; [intros; by eapply set_get_int|]. split; [intros; by eapply set_get_str|]. intros; by eapply set_get_key.
Qed.

(** ** What the mechanisms rely on *)

Definition mech_options (o : options_t) : Mechanism.options :=
  Mechanism.Options (ints o type_) (strs o routing_id) false (app_metadata o) (strs o zap_domain) (bools o zap_enforce_domain)
                    (strs o plain_username) (strs o plain_password).
Definition engine_options (o : options_t) : Greeting.greeting_options :=
  Greeting.GOpts (mech_options o) (ints o mechanism) (negb (ints o as_server =? 0)).

Lemma cstr_id s : Forall (λ c, c ≠ 0) s → Mechanism.cstr s = s.
Proof. induction 1 as [|c s Hc Hs IH]; cbn [Mechanism.cstr]; [done|]. rewrite (proj2 (Z.eqb_neq _ _)) by done. by rewrite IH. Qed.

(** The options of a socket, after any calls of [setsockopt], are what the greeting and
    the mechanisms assert and assume: the mechanism is one of the four of the greeting, the
    socket type and the metadata can be put in a READY command without an assertion failing,
    provided no value is longer than a property can be, and a user name and a password fit
    the HELLO command of PLAIN. *)
Theorem options_valid sys t o :
  Address.system_ok sys → 0 ≤ t < 12 → rtc (set_call sys) (socket_options t) o →
  Forall (λ e, Z.of_nat (length e.2) ≤ 0x7FFFFFFF) (app_metadata o) →
  Mechanism.valid (mech_options o) ∧ Greeting.mechanism_ok (engine_options o) = true ∧
  (length (strs o plain_username) ≤ 255)%nat ∧ (length (strs o plain_password) ≤ 255)%nat.
Proof.
  intros Hsys Ht Hr Hval. pose proof (reachable_typed sys t o Hsys Hr) as Ho.
  split; [|split; [|split; [apply (ty_str _ _ Ho plain_username)|apply (ty_str _ _ Ho plain_password)]]].
  - split; [pose proof (ty_int _ _ Ho type_) as H; cbn [int_min int_max] in H; cbn; lia|]. split; [apply (ty_str _ _ Ho routing_id)|]. cbn [mech_options Mechanism.app_metadata].
    apply Forall_forall. intros e He. pose proof (ty_metadata _ _ Ho) as Hm. rewrite Forall_forall in Hm, Hval. destruct (Hm e He) as (H1 & H2 & _ & H3 & H4).
    rewrite !cstr_id by done. split; [done|]. split; [by apply Hval|done].
  - pose proof (ty_int _ _ Ho mechanism) as Hm. cbn [int_min int_max] in Hm. unfold Greeting.mechanism_ok, Greeting.ZMQ_NULL, Greeting.ZMQ_PLAIN, Greeting.ZMQ_CURVE, Greeting.ZMQ_GSSAPI.
    cbn [engine_options Greeting.g_mechanism]. lia.
Qed.

(** ** What is accepted or left behind *)

(** 41 bytes that begin with a NUL are taken for a key, which stays as it was; a text with
    an invalid character after ten valid ones fails, and has overwritten eight bytes; a TTL
    of -99 is 0. *)
Lemma options_defects sys :
  (∀ o, length (keys o curve_public_key) = CURVE_KEYSIZE →
    setsockopt sys (Some (replicate 41 0)) 41 ZMQ_CURVE_PUBLICKEY o = Some (RcOk, put_int mechanism Greeting.ZMQ_CURVE (put_key curve_public_key (keys o curve_public_key) o))) ∧
  setsockopt sys (Some (Address.chars "HelloWorld~~~~~~~~~~~~~~~~~~~~~~~~~~~~~~")) 40 ZMQ_CURVE_SERVERKEY options_new =
    Some (RcErr EINVAL, put_key curve_server_key ([0x86; 0x4F; 0xD2; 0x6F; 0xB5; 0x59; 0xF7; 0x5B] ++ replicate 24 0) options_new) ∧
  (∀ o, setsockopt sys (Some (le_bytes 4 (-99))) 4 ZMQ_HEARTBEAT_TTL o = Some (RcOk, put_int heartbeat_ttl 0 o)).
Proof.
  split; [|split; [|done]].
  - intros o Hl. unfold setsockopt, set_curve_key. change (is_int 41) with false. cbv iota. cbn [mbind option_bind].
    change (41 =? CURVE_KEYSIZE)%nat with false. change (41 =? CURVE_KEYSIZE_Z85 + 1)%nat with true. cbv iota. cbn [orb mbind option_bind].
    assert (Hz : Z85.zmq_z85_decode (keys o curve_public_key) (replicate 41 0) = Some (keys o curve_public_key, RcOk)) by done. by rewrite Hz.
  - reflexivity.
Qed.

(** ** Examples *)

Definition example_calls : list (sockopt * list Z) :=
  [(ZMQ_SNDHWM, le_bytes 4 10); (ZMQ_PLAIN_USERNAME, [98; 111; 98]); (ZMQ_METADATA, Address.chars "X-key:value" ++ [0]);
   (ZMQ_TCP_ACCEPT_FILTER, Address.chars "127.0.0.1/8"); (ZMQ_LINGER, le_bytes 4 (-2))].

Fixpoint example_run (calls : list (sockopt * list Z)) (o : options_t) : option options_t :=
  match calls with
  | [] => Some o
  | (option_, l) :: calls => '(_, o) ← setsockopt Address.small_system (Some l) (length l) option_ o; example_run calls o
  end.

Lemma example_run_calls calls : Forall (λ c, bytes_ok c.2) calls → ∀ o o', example_run calls o = Some o' → rtc (set_call Address.small_system) o o'.
Proof.
  induction 1 as [|[option_ l] calls Hl _ IH]; intros o o'; cbn [example_run]; [by intros [= <-]|].
  destruct (setsockopt _ _ _ _ _) as [[r o1]|] eqn:Hs; [|done]. cbn [mbind option_bind]. intros H. eapply rtc_l; [|by apply IH]. eapply (set_call_step _ (Some l)); [exact Hl|exact Hs].
Qed.

Lemma options_typed_witness :
  ∃ o, example_run example_calls (socket_options 5) = Some o ∧ ints o sndhwm = 10 ∧ 0 ≤ ints o sndhwm ≤ 2 ^ 31 - 1 ∧ Forall entry_ok (app_metadata o).
Proof.
  destruct (example_run example_calls (socket_options 5)) as [o|] eqn:H; [|exfalso; vm_compute in H; discriminate].
  exists o. split; [reflexivity|].
  assert (Hr : rtc (set_call Address.small_system) (socket_options 5) o)
    by (apply (example_run_calls example_calls); [apply (bool_decide_eq_true_1 _); vm_compute; reflexivity|exact H]).
  destruct (options_typed Address.small_system 5 o Address.small_system_ok Hr) as (Hi & _ & _ & _ & Hm & _).
  split; [vm_compute in H; injection H as <-; reflexivity|]. exact (conj (Hi sndhwm) Hm).
Defined.

Lemma options_valid_witness :
  ∃ o, example_run example_calls (socket_options 5) = Some o ∧ Mechanism.valid (mech_options o) ∧ Greeting.mechanism_ok (engine_options o) = true.
Proof.
  destruct (example_run example_calls (socket_options 5)) as [o|] eqn:H; [|exfalso; vm_compute in H; discriminate].
  exists o. split; [reflexivity|].
  assert (Hr : rtc (set_call Address.small_system) (socket_options 5) o)
    by (apply (example_run_calls example_calls); [apply (bool_decide_eq_true_1 _); vm_compute; reflexivity|exact H]).
  destruct (options_valid Address.small_system 5 o Address.small_system_ok ltac:(lia) Hr) as (Hv & Hm & _).
  { vm_compute in H. injection H as <-. repeat constructor. discriminate. }
  exact (conj Hv Hm).
Defined.

Lemma options_atomic_witness :
  let call := setsockopt Address.small_system (Some (le_bytes 4 (-2))) 4 ZMQ_LINGER options_new in
  ∃ o', call = Some (RcErr EINVAL, o') ∧ o' = options_new.
Proof.
  eexists. split; [reflexivity|].
  destruct (options_atomic Address.small_system (Some (le_bytes 4 (-2))) 4 ZMQ_LINGER options_new EINVAL options_new eq_refl) as [_ [H|(m & key & H & _)]];
    [exact H|discriminate H].
Defined.

Lemma options_roundtrip_witness :
  ∃ o', setsockopt Address.small_system (Some (le_bytes 4 550 ++ [])) 4 ZMQ_HEARTBEAT_TTL options_new = Some (RcOk, o') ∧
    getsockopt 4 ZMQ_HEARTBEAT_TTL o' = Some (inl (le_bytes 4 500, 4%nat)).
Proof.
  destruct (options_roundtrip Address.small_system []) as (Hint & _ & _). eexists. split; [reflexivity|].
  exact (Hint 550 ZMQ_HEARTBEAT_TTL options_new _ ltac:(lia) eq_refl eq_refl).
Defined.

End Options.
