(* ===== verification/Handshake.v ===== *)
(** * The handshake of an engine

    [stream_engine_t] (src/stream_engine.cpp) while its mechanism is not ready:
    it asks the mechanism for commands to send, gives it the commands received
    and the notices of the ZAP handler, and goes over to the flow of messages
    when the mechanism is ready ([mechanism_ready]).  A mechanism is an instance
    of [Mechanism_t], its virtual functions.

    Two engines connected by two queues of commands are a transition system: each
    engine takes its steps at any time. *)

From Stdlib Require Import String.
From S2P Require Import Prelude Msg SubMsg Mechanism Zap.
From stdpp Require Import relations.
Import SubMsg Mechanism Zap.
#[local] Open Scope Z_scope.

Module Handshake.

(** ** Mechanisms *)

Inductive status_t := Handshaking | Ready | Error.

#[export] Instance status_eq_dec : EqDecision status_t.
Proof. solve_decision. Defined.

(** [mechanism_t]'s virtual functions, and what the engine sees of its data. *)
Class Mechanism_t (S : Type) := {
  m_next : S → option (rc * option (list Z) * S);
  m_process : list Z → S → option (rc * S);
  m_zap_msg_available : S → option (rc * S);
  m_status : S → status_t;
  mech_of : S → mechanism;
  sess_of : S → session;
  with_session : session → S → S }.

(** ** The engine *)

(** The options the engine uses: those of the mechanism, whether
    [router_notify] has ZMQ_NOTIFY_CONNECT, and [heartbeat_interval]; the
    session's pipe, if it has one; the peer's address and the descriptor. *)
Record engine_env := Env {
  opts : options;
  notify_connect : bool;
  heartbeat_interval : Z;
  pipe_ok : bool;
  peer_address : list Z;
  fd_string : list Z }.

Record engine (S : Type) := Engine {
  mstate : S;
  msg_mode : bool;                               (* [_next_msg] is [pull_and_encode] *)
  pushed : list part;                            (* written to the session's pipe *)
  e_metadata : option (gmap (list Z) (list Z));  (* [_metadata] *)
  has_heartbeat_timer : bool;
  succeeded : bool;                              (* [event_handshake_succeeded] *)
  errored : bool;                                (* [error ()] *)
  sent : list (list Z) }.                        (* the commands for the peer *)
#[global] Arguments Engine {S}.
#[global] Arguments mstate {S}.
#[global] Arguments msg_mode {S}.
#[global] Arguments pushed {S}.
#[global] Arguments e_metadata {S}.
#[global] Arguments has_heartbeat_timer {S}.
#[global] Arguments succeeded {S}.
#[global] Arguments errored {S}.
#[global] Arguments sent {S}.

(** What the engine is given: the socket can be written to, a command, messages
    of the ZAP handler in the session's pipe, the notice of such messages. *)
Inductive input := Out | In (c : list Z) | Zap_reply (ms : list part) | Zap_event.

Section engine.
Context {S : Type} `{Mechanism_t S} (env : engine_env).
Implicit Types (m : S) (e : engine S).

Definition engine_new m : engine S := Engine m false [] None false false false [].

Definition set_mech m e : engine S :=
  Engine m (msg_mode e) (pushed e) (e_metadata e) (has_heartbeat_timer e) (succeeded e) (errored e) (sent e).
Definition error_ e : engine S :=
  Engine (mstate e) (msg_mode e) (pushed e) (e_metadata e) (has_heartbeat_timer e) (succeeded e) true (sent e).
Definition send c e : engine S :=
  Engine (mstate e) (msg_mode e) (pushed e) (e_metadata e) (has_heartbeat_timer e) (succeeded e) (errored e) (sent e ++ [c]).

(** [session_t::push_msg] *)
Definition push_msg (x : part) e : rc * engine S :=
  if negb (Z.land (p_flags x) Msg.command =? 0) && negb (is_subscribe x) && negb (is_cancel x) then (RcOk, e)
  else if pipe_ok env
  then (RcOk, Engine (mstate e) (msg_mode e) (pushed e ++ [x]) (e_metadata e) (has_heartbeat_timer e) (succeeded e) (errored e) (sent e))
  else (RcErr EAGAIN, e).

Definition peer_routing_id (d : mechanism) : part := Part (peer_id d) Msg.routing_id None.

Definition init_properties : gmap (list Z) (list Z) :=
  if bool_decide (peer_address env = []) then ∅
  else insert_or_emplace (bytes_of "__fd") (fd_string env) {[ bytes_of "Peer-Address" := peer_address env ]}.

(** The properties of the connection: the first ones of a name stay. *)
Definition all_properties (d : mechanism) : gmap (list Z) (list Z) :=
  init_properties ∪ zap_properties d ∪ zmtp_properties d.

(** From [_next_msg = ...] to the end of [mechanism_ready]. *)
Definition enter_msg_mode e : option (engine S) :=
  let properties := all_properties (mech_of (mstate e)) in
  _ ← zmq_assert (bool_decide (e_metadata e = None));
  Some (Engine (mstate e) true (pushed e) (if bool_decide (properties = ∅) then None else Some properties)
               (has_heartbeat_timer e) true (errored e) (sent e)).

(** A message for the session's pipe, if [b]: the early returns of
    [mechanism_ready] are its [false]. *)
Definition push_if (b : bool) (x : part) e : bool * engine S :=
  if b then let '(r, e) := push_msg x e in (bool_decide (r = RcOk), e) else (true, e).

Definition mechanism_ready e : option (engine S) :=
  let e := Engine (mstate e) (msg_mode e) (pushed e) (e_metadata e)
                  ((0 <? heartbeat_interval env) || has_heartbeat_timer e) (succeeded e) (errored e) (sent e) in
  let '(ok, e) := push_if (recv_routing_id (opts env)) (peer_routing_id (mech_of (mstate e))) e in
  if negb ok then Some e
  else
    let '(ok, e) := push_if (notify_connect env) (Part [] 0 None) e in
    if negb ok then Some e else enter_msg_mode e.

(** The engine's [next_handshake_command]; a message that [pull_and_encode]
    takes from the session is not a command. *)
Definition next_handshake_command e : option (engine S) :=
  match m_status (mstate e) with
  | Ready => mechanism_ready e
  | Error => Some e
  | Handshaking =>
      '(r, c, m) ← m_next (mstate e);
      let e := set_mech m e in
      Some (match r, c with RcOk, Some c => send c e | _, _ => e end)
  end.

Definition process_handshake_command c e : option (rc * engine S) :=
  '(r, m) ← m_process c (mstate e);
  let e := set_mech m e in
  match r with
  | RcErr _ => Some (r, e)
  | RcOk =>
      match m_status m with
      | Ready => e ← mechanism_ready e; Some (RcOk, e)
      | Error => Some (RcErr EPROTO, e)
      | Handshaking => Some (RcOk, e)
      end
  end.

Definition zap_msg_available e : option (engine S) :=
  '(r, m) ← m_zap_msg_available (mstate e);
  let e := set_mech m e in
  Some (match r with RcOk => e | RcErr _ => error_ e end).

Definition zap_deliver (ms : list part) (s : session) : session :=
  Session (zap_handler s) (zap_pipe s) (zap_active s) (zap_out s) (zap_in s ++ ms) (events s).

(** One step.  [error ()] deletes the engine; the flow of messages is not part of
    the handshake.  EAGAIN for a command would stop the input, with the command
    kept for [restart_input]; no mechanism here gives it. *)
Definition step (i : input) e : option (engine S) :=
  if errored e then Some e
  else
    match i with
    | Out => if msg_mode e then Some e else next_handshake_command e
    | In c =>
        if msg_mode e then Some e
        else '(r, e) ← process_handshake_command c e; Some (match r with RcOk | RcErr EAGAIN => e | RcErr _ => error_ e end)
    | Zap_reply ms => Some (set_mech (with_session (zap_deliver ms (sess_of (mstate e))) (mstate e)) e)
    | Zap_event => zap_msg_available e
    end.

Fixpoint run (l : list input) e : option (engine S) :=
  match l with [] => Some e | i :: l => e ← step i e; run l e end.

(** What an engine pushes to the socket when it is ready. *)
Definition greeting_parts (d : mechanism) : list part :=
  (if recv_routing_id (opts env) then [peer_routing_id d] else []) ++
  (if notify_connect env then [Part [] 0 None] else []).

Lemma push_msg_ok x e : pipe_ok env = true → Z.land (p_flags x) Msg.command = 0 →
  push_msg x e = (RcOk, Engine (mstate e) (msg_mode e) (pushed e ++ [x]) (e_metadata e) (has_heartbeat_timer e) (succeeded e) (errored e) (sent e)).
Proof. intros Hp Hx. unfold push_msg. by rewrite Hx, Hp. Qed.

Lemma mechanism_ready_ok e : pipe_ok env = true → e_metadata e = None →
  let d := mech_of (mstate e) in
  mechanism_ready e =
  Some (Engine (mstate e) true (pushed e ++ greeting_parts d) (if bool_decide (all_properties d = ∅) then None else Some (all_properties d))
               ((0 <? heartbeat_interval env) || has_heartbeat_timer e) true (errored e) (sent e)).
Proof.
  intros Hp Hm d. unfold mechanism_ready, push_if, enter_msg_mode, greeting_parts. subst d.
  destruct (recv_routing_id (opts env)), (notify_connect env);
    rewrite ?push_msg_ok by done; cbn -[all_properties peer_routing_id Z.ltb]; rewrite ?push_msg_ok by done;
    cbn -[all_properties peer_routing_id Z.ltb]; rewrite Hm, ?app_nil_r, <- ?(assoc_L app); done.
Qed.

Lemma push_if_frame b x e ok e' : push_if b x e = (ok, e') →
  mstate e' = mstate e ∧ sent e' = sent e ∧ errored e' = errored e ∧ e_metadata e' = e_metadata e.
Proof.
  unfold push_if, push_msg. destruct b; [|by intros [= <- <-]]. destruct (_ && _ && _); [by intros [= <- <-]|].
  destruct (pipe_ok env); by intros [= <- <-].
Qed.

Lemma mechanism_ready_frame e e' : mechanism_ready e = Some e' →
  mstate e' = mstate e ∧ sent e' = sent e ∧ errored e' = errored e.
Proof.
  unfold mechanism_ready. set (e0 := Engine _ _ _ _ _ _ _ _). destruct (push_if _ _ e0) as [ok1 e1] eqn:H1.
  apply push_if_frame in H1 as (Hm1 & Hs1 & He1 & Hd1). destruct ok1; cbn [negb]; [|by intros [= <-]].
  destruct (push_if _ _ e1) as [ok2 e2] eqn:H2. apply push_if_frame in H2 as (Hm2 & Hs2 & He2 & Hd2).
  destruct ok2; cbn [negb]; [|intros [= <-]; by rewrite Hm2, Hs2, He2].
  unfold enter_msg_mode. destruct (zmq_assert _); [|done]. intros [= <-]. cbn. by rewrite Hm2, Hs2, He2.
Qed.

Lemma run_app l1 l2 e : run (l1 ++ l2) e = e ← run l1 e; run l2 e.
Proof.
  revert e. induction l1 as [|i l1 IH]; intros e; [done|]. cbn [app run]. destruct (step i e); [apply IH|done].
Qed.

Lemma run_snoc l i e : run (l ++ [i]) e = e ← run l e; step i e.
Proof. rewrite run_app. cbn. destruct (run l e) as [e'|]; [|done]. cbn. by destruct (step i e'). Qed.
End engine.

(** ** Two engines *)

Section net.
Context {S1 S2 : Type} `{Mechanism_t S1} `{Mechanism_t S2} (env1 env2 : engine_env).

(** [got_left] commands of those sent by [right] are received. *)
Record net := Net { left : engine S1; right : engine S2; got_left : nat; got_right : nat }.

Inductive net_step : net → net → Prop :=
| left_out l r gl gr l' : step env1 Out l = Some l' → l' ≠ l → net_step (Net l r gl gr) (Net l' r gl gr)
| right_out l r gl gr r' : step env2 Out r = Some r' → r' ≠ r → net_step (Net l r gl gr) (Net l r' gl gr)
| left_in l r gl gr c l' : errored l = false → sent r !! gl = Some c → step env1 (In c) l = Some l' →
    net_step (Net l r gl gr) (Net l' r (S gl) gr)
| right_in l r gl gr c r' : errored r = false → sent l !! gr = Some c → step env2 (In c) r = Some r' →
    net_step (Net l r gl gr) (Net l r' gl (S gr)).

(** A schedule: an input for one of the engines, or the next command of its peer. *)
Inductive action := Left (i : input) | Right (i : input) | Left_receives | Right_receives.

Definition act (a : action) (n : net) : option net :=
  match a with
  | Left i => l ← step env1 i (left n); Some (Net l (right n) (got_left n) (got_right n))
  | Right i => r ← step env2 i (right n); Some (Net (left n) r (got_left n) (got_right n))
  | Left_receives =>
      match sent (right n) !! got_left n with
      | Some c => l ← step env1 (In c) (left n); Some (Net l (right n) (S (got_left n)) (got_right n))
      | None => Some n
      end
  | Right_receives =>
      match sent (left n) !! got_right n with
      | Some c => r ← step env2 (In c) (right n); Some (Net (left n) r (got_left n) (S (got_right n)))
      | None => Some n
      end
  end.

Fixpoint acts (l : list action) (n : net) : option net :=
  match l with [] => Some n | a :: l => n ← act a n; acts l n end.

Lemma acts_left i l l' r a b rest : step env1 i l = Some l' → acts (Left i :: rest) (Net l r a b) = acts rest (Net l' r a b).
Proof. intros H1. cbn [acts]. unfold act at 1. cbn. by rewrite H1. Qed.

Lemma acts_right i l r r' a b rest : step env2 i r = Some r' → acts (Right i :: rest) (Net l r a b) = acts rest (Net l r' a b).
Proof. intros H1. cbn [acts]. unfold act at 1. cbn. by rewrite H1. Qed.

Lemma acts_left_receives c l l' r a b rest : sent r !! a = Some c → step env1 (In c) l = Some l' →
  acts (Left_receives :: rest) (Net l r a b) = acts rest (Net l' r (S a) b).
Proof. intros Hc H1. cbn [acts]. unfold act at 1. cbn. rewrite Hc. by rewrite H1. Qed.

Lemma acts_right_receives c l r r' a b rest : sent l !! b = Some c → step env2 (In c) r = Some r' →
  acts (Right_receives :: rest) (Net l r a b) = acts rest (Net l r' a (S b)).
Proof. intros Hc H1. cbn [acts]. unfold act at 1. cbn. rewrite Hc. by rewrite H1. Qed.

Lemma acts_left_waits l r a b rest : sent r !! a = None → acts (Left_receives :: rest) (Net l r a b) = acts rest (Net l r a b).
Proof. intros Hc. cbn [acts]. unfold act at 1. cbn. by rewrite Hc. Qed.

Lemma acts_right_waits l r a b rest : sent l !! b = None → acts (Right_receives :: rest) (Net l r a b) = acts rest (Net l r a b).
Proof. intros Hc. cbn [acts]. unfold act at 1. cbn. by rewrite Hc. Qed.
End net.
#[global] Arguments Net {S1 S2}.
#[global] Arguments left {S1 S2}.
#[global] Arguments right {S1 S2}.
#[global] Arguments got_left {S1 S2}.
#[global] Arguments got_right {S1 S2}.
#[global] Arguments net : clear implicits.

End Handshake.
