(* ===== verification/Null.v ===== *)
(** * The NULL mechanism

    [null_mechanism_t] (src/null_mechanism.cpp): each side announces its
    properties in a READY command; a side with a ZAP domain asks the ZAP handler
    first, and sends an ERROR command when it is refused. *)

From Stdlib Require Import String.
From S2P Require Import Prelude Msg SubMsg Mechanism Zap Handshake.
From stdpp Require Import relations.
Import SubMsg Mechanism Zap Handshake.
#[local] Open Scope Z_scope.

Module Null.

(** ** State and operations *)

Definition error_command_name : list Z := 5 :: bytes_of "ERROR".
Definition ready_command_name : list Z := 5 :: bytes_of "READY".

Record null := NullM {
  ready_command_sent : bool;
  error_command_sent : bool;
  ready_command_received : bool;
  error_command_received : bool;
  zap_request_sent : bool;
  zap_reply_received : bool;
  n_zap : zap }.

Definition null_new (s : session) : null := NullM false false false false false false (Zap mechanism_new s []).

Definition set_ready_sent (n : null) : null :=
  NullM true (error_command_sent n) (ready_command_received n) (error_command_received n) (zap_request_sent n) (zap_reply_received n) (n_zap n).
Definition set_error_sent (n : null) : null :=
  NullM (ready_command_sent n) true (ready_command_received n) (error_command_received n) (zap_request_sent n) (zap_reply_received n) (n_zap n).
Definition set_ready_received (n : null) : null :=
  NullM (ready_command_sent n) (error_command_sent n) true (error_command_received n) (zap_request_sent n) (zap_reply_received n) (n_zap n).
Definition set_error_received (n : null) : null :=
  NullM (ready_command_sent n) (error_command_sent n) (ready_command_received n) true (zap_request_sent n) (zap_reply_received n) (n_zap n).
Definition set_request_sent (n : null) : null :=
  NullM (ready_command_sent n) (error_command_sent n) (ready_command_received n) (error_command_received n) true (zap_reply_received n) (n_zap n).
Definition set_reply_received (n : null) : null :=
  NullM (ready_command_sent n) (error_command_sent n) (ready_command_received n) (error_command_received n) (zap_request_sent n) true (n_zap n).
Definition set_zap (z : zap) (n : null) : null :=
  NullM (ready_command_sent n) (error_command_sent n) (ready_command_received n) (error_command_received n) (zap_request_sent n) (zap_reply_received n) z.

Section null.
Context (o : options) (peer_address : list Z).

Definition send_zap_request (z : zap) : option zap := Zap.send_zap_request o peer_address (bytes_of "NULL") [] z.

(** A ZAP reply: 0 and [zap_reply_received], or the result. *)
Definition receive_zap_reply (n : null) : option (zap_rc * null) :=
  '(r, z) ← receive_and_process_zap_reply o (n_zap n);
  let n := set_zap z n in
  Some (r, if bool_decide (r = ZapDone) then set_reply_received n else n).

(** [if (zap_required () && !_zap_reply_received) { ... }] *)
Definition authenticate (n : null) : option (rc * null) :=
  if zap_required o && negb (zap_reply_received n) then
    if zap_request_sent n then Some (RcErr EAGAIN, n)
    else
      '(r, s) ← zap_connect (sess (n_zap n));
      let n := set_zap (set_sess s (n_zap n)) n in
      match r with
      | RcErr _ =>
          if zap_enforce_domain o then Some (r, set_zap (with_event (Failed_no_detail EFAULT) (n_zap n)) n)
          else Some (RcOk, n)
      | RcOk =>
          z ← send_zap_request (n_zap n);
          '(r, n) ← receive_zap_reply (set_request_sent (set_zap z n));
          Some (match r with ZapDone => RcOk | ZapAgain => RcErr EAGAIN | ZapError e => RcErr e end, n)
      end
  else Some (RcOk, n).

Definition error_command (status : list Z) : option (list Z) :=
  _ ← zmq_assert (3 <=? length status)%nat; Some (error_command_name ++ [3] ++ take 3 status).

Definition next_handshake_command (n : null) : option (rc * option (list Z) * null) :=
  if ready_command_sent n || error_command_sent n then Some (RcErr EAGAIN, None, n)
  else
    '(r, n) ← authenticate n;
    if negb (bool_decide (r = RcOk)) then Some (r, None, n)
    else
      let status := status_code (n_zap n) in
      if zap_reply_received n && negb (bool_decide (status = bytes_of "200")) then
        let n := set_error_sent n in
        if negb (bool_decide (status = bytes_of "300")) then c ← error_command status; Some (RcOk, Some c, n)
        else Some (RcErr EAGAIN, None, n)
      else
        c ← make_command_with_basic_properties ready_command_name o;
        Some (RcOk, Some c, set_ready_sent n).

Definition fail_null (e : protocol_error) (n : null) : rc * null :=
  (RcErr EPROTO, set_zap (with_event (Failed_protocol e) (n_zap n)) n).

Definition process_ready_command (data : list Z) (n : null) : option (rc * null) :=
  let n := set_ready_received n in
  '(r, m) ← parse_metadata o false (drop (length ready_command_name) data) (mech (n_zap n));
  Some (r, set_zap (Zap m (sess (n_zap n)) (status_code (n_zap n))) n).

Definition process_error_command (data : list Z) (n : null) : rc * null :=
  match error_reason (length error_command_name) data with
  | None => fail_null Zmtp_malformed_error n
  | Some reason =>
      let z := n_zap n in
      (RcOk, set_error_received (set_zap (set_sess (handle_error_reason reason (sess z)) z) n))
  end.

Definition process_handshake_command (data : list Z) (n : null) : option (rc * null) :=
  if ready_command_received n || error_command_received n then Some (fail_null Zmtp_unexpected_command n)
  else if has_prefix ready_command_name data then process_ready_command data n
  else if has_prefix error_command_name data then Some (process_error_command data n)
  else Some (fail_null Zmtp_unexpected_command n).

Definition zap_msg_available (n : null) : option (rc * null) :=
  if zap_reply_received n then Some (RcErr EFSM, n)
  else
    '(r, n) ← receive_zap_reply n;
    Some (match r with ZapError e => RcErr e | _ => RcOk end, n).

Definition status (n : null) : status_t :=
  if ready_command_sent n && ready_command_received n then Ready
  else
    let command_sent := ready_command_sent n || error_command_sent n in
    let command_received := ready_command_received n || error_command_received n in
    if command_sent && command_received then Error else Handshaking.
End null.

Definition null_mechanism (o : options) (peer_address : list Z) : Mechanism_t null := {|
  m_next := next_handshake_command o peer_address;
  m_process := process_handshake_command o;
  m_zap_msg_available := zap_msg_available o;
  m_status := status;
  mech_of n := mech (n_zap n);
  sess_of n := sess (n_zap n);
  with_session s n := set_zap (set_sess s (n_zap n)) n |}.

(** * Two NULL mechanisms *)

(** An engine that has sent its READY ([s]), received the peer's ([r]), and is
    ready ([b]). *)
Definition side (env : engine_env) (peer : options) (s0 : session) (s r b : bool) : engine null :=
  let d := (introduced peer (opts env)).2 in
  Engine (NullM s false r false false false (Zap (if r then d else mechanism_new) s0 []))
    b (if b then greeting_parts env d else [])
    (if b then Some (init_properties env ∪ zmtp_properties d) else None)
    (b && (0 <? heartbeat_interval env)) b (r && negb (fit peer (opts env)))
    (if s then [ready_command_name ++ metadata (props (opts env))] else []).

Lemma list_to_map_props o : (list_to_map (props o) : gmap (list Z) (list Z)) ≠ ∅.
Proof. unfold props. cbn [list_to_map foldr]. apply insert_non_empty. Qed.

(** The mechanism of an engine. *)
Definition null_side (env : engine_env) : Mechanism_t null := null_mechanism (opts env) (Handshake.peer_address env).

(** One engine *)
Section side.
Context (env : engine_env) (peer : options) (s0 : session).
Hypothesis Hv : valid (opts env).
Hypothesis Hp : valid peer.
Hypothesis Hz : zap_domain (opts env) = [].
Hypothesis Hpipe : pipe_ok env = true.
#[local] Instance null_here : Mechanism_t null := null_side env.

Lemma side_ready e : fit peer (opts env) = true → mech_of (mstate e) = (introduced peer (opts env)).2 →
  e_metadata e = None → pushed e = [] → has_heartbeat_timer e = false →
  mechanism_ready env e = Some (Engine (mstate e) true (greeting_parts env (introduced peer (opts env)).2)
    (Some (init_properties env ∪ zmtp_properties (introduced peer (opts env)).2)) (0 <? heartbeat_interval env) true (errored e) (sent e)).
Proof.
  intros Hf Hm Hmd Hpu Hh. set (d := (introduced peer (opts env)).2) in *.
  assert (Hzp : zap_properties d = ∅) by (unfold d, introduced; by destruct (check_socket_type _ _)).
  assert (Hne : init_properties env ∪ zmtp_properties d ≠ ∅).
  { unfold d, introduced. unfold fit in Hf. rewrite Hf. cbn [snd zmtp_properties]. intros He. apply (list_to_map_props peer), map_empty.
    intros i. by eapply proj2, lookup_union_None; rewrite He. }
  rewrite mechanism_ready_ok by done. unfold all_properties. by rewrite Hm, Hpu, Hh, Hzp, orb_false_r, (right_id_L ∅ (∪)), (bool_decide_eq_false_2 _ Hne).
Qed.

Lemma side_out s r b : (b = true → s = true ∧ r = true) → (r && negb (fit peer (opts env)) = false) →
  step env Out (side env peer s0 s r b) = Some (side env peer s0 true r (s && r)).
Proof.
  intros Hb Hf. unfold step. cbn [errored side]. rewrite Hf. cbn [msg_mode]. destruct b; [destruct (Hb eq_refl) as [-> ->]; done|].
  unfold Handshake.next_handshake_command. cbn [mstate m_status null_here null_side null_mechanism side status]. unfold status.
  cbn [ready_command_sent ready_command_received error_command_sent error_command_received].
  destruct s; cbn [andb orb].
  - destruct r; [|done]. assert (Hfit : fit peer (opts env) = true) by (by destruct (fit peer (opts env))).
    rewrite side_ready by done. unfold side. cbn [andb negb]. by rewrite Hfit.
  - unfold m_next, null_here, null_side, null_mechanism, next_handshake_command, authenticate, zap_required. rewrite Hz.
    cbn [bool_decide negb andb ready_command_sent error_command_sent orb zap_reply_received mbind option_bind].
    rewrite make_command_ok by done. cbn [mbind option_bind]. unfold send, set_mech, side. by rewrite Hf.
Qed.

Lemma side_in s b : b = false →
  step env (In (ready_command_name ++ metadata (props peer))) (side env peer s0 s false b) =
  Some (side env peer s0 s true (s && fit peer (opts env))).
Proof.
  intros ->. unfold step. cbn [errored side andb msg_mode]. unfold Handshake.process_handshake_command.
  cbn [mstate m_process null_here null_side null_mechanism side]. unfold process_handshake_command.
  cbn [ready_command_received error_command_received orb]. rewrite has_prefix_app. unfold process_ready_command. rewrite drop_app_length.
  cbn [n_zap set_ready_received mech]. rewrite parse_props by done. rewrite introduced_rc.
  unfold side. destruct (fit peer (opts env)) eqn:Hf; cbn [mbind option_bind negb andb].
  - cbn [m_status null_here null_side null_mechanism]. unfold status.
    cbn [set_zap set_ready_received ready_command_sent ready_command_received error_command_sent error_command_received]. rewrite andb_true_r.
    destruct s; cbn [andb orb].
    + rewrite side_ready by done. done.
    + done.
  - by rewrite andb_false_r.
Qed.

(** The changes. *)
Definition b2n (b : bool) : nat := if b then 1%nat else 0%nat.

Lemma out_change s r b e : (b = true → s = true ∧ r = true ∧ fit peer (opts env) = true) →
  step env Out (side env peer s0 s r b) = Some e → e ≠ side env peer s0 s r b →
  e = side env peer s0 true r (s && r) ∧ (b2n s + b2n b < b2n true + b2n (s && r))%nat ∧
  (s && r = true → fit peer (opts env) = true).
Proof.
  intros Hb He Hne. destruct (r && negb (fit peer (opts env))) eqn:Herr.
  { exfalso. apply Hne. unfold step in He. cbn [errored side] in He. rewrite Herr in He. by injection He. }
  rewrite side_out in He; [|naive_solver|done]. injection He as <-.
  destruct s, r, b; cbn in Herr |- *; repeat split; try lia; try done; destruct (fit peer (opts env)); naive_solver.
Qed.

Lemma in_change s r b e (s' : bool) (c : list Z) : (b = true → s = true ∧ r = true ∧ fit peer (opts env) = true) →
  errored (side env peer s0 s r b) = false →
  (if s' then [ready_command_name ++ metadata (props peer)] else [] : list (list Z)) !! b2n r = Some c →
  step env (In c) (side env peer s0 s r b) = Some e →
  r = false ∧ b = false ∧ s' = true ∧ e = side env peer s0 s true (s && fit peer (opts env)).
Proof.
  intros Hb Herr Hc He. destruct s', r; cbn in Hc; simplify_eq. destruct b; [by destruct (Hb eq_refl) as (_ & ? & _)|].
  rewrite side_in in He by done. by injection He as <-.
Qed.
End side.

(** Two engines *)
Section pair.
Context (env1 env2 : engine_env) (s1 s2 : session).
Notation o1 := (opts env1).
Notation o2 := (opts env2).
Hypothesis Hv1 : valid o1.
Hypothesis Hv2 : valid o2.
Hypothesis Hz1 : zap_domain o1 = [].
Hypothesis Hz2 : zap_domain o2 = [].
Hypothesis Hp1 : pipe_ok env1 = true.
Hypothesis Hp2 : pipe_ok env2 = true.

(** A step of the two engines. *)
Definition pair_step : net null null → net null null → Prop := @net_step null null (null_side env1) (null_side env2) env1 env2.

(** The start, and what has happened in it. *)
Definition start : net null null := Net (engine_new (null_new s1)) (engine_new (null_new s2)) 0 0.

Definition at_ (l r b l' r' b' : bool) : net null null :=
  Net (side env1 o2 s1 l r b) (side env2 o1 s2 l' r' b') (b2n r) (b2n r').

Definition consistent (l r b l' r' b' : bool) : Prop :=
  (r = true → l' = true) ∧ (r' = true → l = true) ∧ (b = true → l = true ∧ r = true ∧ fit o2 o1 = true) ∧
  (b' = true → l' = true ∧ r' = true ∧ fit o1 o2 = true).

Lemma step_at n l r b l' r' b' : consistent l r b l' r' b' → pair_step (at_ l r b l' r' b') n →
  ∃ m r2 b2 m' r2' b2', n = at_ m r2 b2 m' r2' b2' ∧ consistent m r2 b2 m' r2' b2' ∧
    (b2n l + b2n r + b2n b + b2n l' + b2n r' + b2n b' < b2n m + b2n r2 + b2n b2 + b2n m' + b2n r2' + b2n b2')%nat.
Proof.
  intros (Hr & Hr' & Hb & Hb') Hs. unfold at_ in Hs. inversion Hs as [????? He Hne|????? He Hne|?????? Herr Hc He|?????? Herr Hc He]; subst; clear Hs.
  - destruct (out_change env1 o2 s1 Hv1 Hz1 Hp1 _ _ _ _ Hb He Hne) as (-> & Hlt & Hf). exists true, r, (l && r), l', r', b'. unfold consistent. split; [done|].
    split; [|lia]. destruct l, r; naive_solver.
  - destruct (out_change env2 o1 s2 Hv2 Hz2 Hp2 _ _ _ _ Hb' He Hne) as (-> & Hlt & Hf). exists l, r, b, true, r', (l' && r'). unfold consistent. split; [done|].
    split; [|lia]. destruct l', r'; naive_solver.
  - destruct (in_change env1 o2 s1 Hv2 Hp1 _ _ _ _ _ _ Hb Herr Hc He) as (-> & -> & -> & ->). exists l, true, (l && fit o2 o1), true, r', b'. unfold consistent.
    split; [done|]. split; [destruct l, (fit o2 o1) eqn:?; naive_solver|cbn; lia].
  - destruct (in_change env2 o1 s2 Hv1 Hp2 _ _ _ _ _ _ Hb' Herr Hc He) as (-> & -> & -> & ->). exists true, r, b, l', true, (l' && fit o1 o2). unfold consistent.
    split; [done|]. split; [destruct l', (fit o1 o2) eqn:?; naive_solver|cbn; lia].
Qed.

Lemma reach_at k n : nsteps pair_step k start n →
  ∃ l r b l' r' b', n = at_ l r b l' r' b' ∧ consistent l r b l' r' b' ∧
    (k ≤ b2n l + b2n r + b2n b + b2n l' + b2n r' + b2n b')%nat.
Proof.
  revert n. induction k as [|k IH]; intros n Hn.
  - inversion Hn; subst. exists false, false, false, false, false, false. unfold consistent. split; [done|]. split; [naive_solver|done].
  - apply nsteps_inv_r in Hn as (n0 & Hn & Hs). destruct (IH _ Hn) as (l & r & b & l' & r' & b' & -> & Hc & Hk).
    destruct (step_at _ _ _ _ _ _ _ Hc Hs) as (m & r2 & b2 & m' & r2' & b2' & -> & Hc' & Hk').
    exists m, r2, b2, m', r2', b2'. split; [done|]. split; [done|lia].
Qed.

(** Something is left to do. *)
Lemma pair_progress l r b l' r' b' : consistent l r b l' r' b' →
  (fit o2 o1 = true ∧ l && r && b && l' && r' && b' = false) ∨ (fit o2 o1 = false ∧ r || r' = false) →
  ∃ n, pair_step (at_ l r b l' r' b') n.
Proof.
  intros (Hr & Hr' & Hb & Hb') Hd. rewrite (fit_sym o1 o2) in Hb' by done.
  assert (Herr : r && negb (fit o2 o1) = false ∧ r' && negb (fit o2 o1) = false) by (destruct (fit o2 o1), r, r'; naive_solver).
  assert (Hfit : fit o1 o2 = fit o2 o1) by (by apply fit_sym).
  assert (Hout : l = false ∨ (l && r = true ∧ b = false) → ∃ n, pair_step (at_ l r b l' r' b') n).
  { intros Hl. eexists. eapply left_out; [eapply side_out; [done..|naive_solver|naive_solver]|].
    intros [= Hs Hm]. destruct Hl as [->|[Hl ->]]; congruence. }
  assert (Hout' : l' = false ∨ (l' && r' = true ∧ b' = false) → ∃ n, pair_step (at_ l r b l' r' b') n).
  { intros Hl. eexists. eapply right_out; [eapply side_out; [done..|naive_solver|rewrite Hfit; naive_solver]|].
    intros [= Hs Hm]. destruct Hl as [->|[Hl ->]]; congruence. }
  assert (Hin : r = false → b = false → l' = true → ∃ n, pair_step (at_ l r b l' r' b') n).
  { intros -> -> ->. eexists. eapply left_in; [done|reflexivity|by apply side_in]. }
  assert (Hin' : r' = false → b' = false → l = true → ∃ n, pair_step (at_ l r b l' r' b') n).
  { intros -> -> ->. eexists. eapply right_in; [done|reflexivity|by apply side_in]. }
  destruct l; [|by apply Hout; left]. destruct l'; [|by apply Hout'; left].
  destruct r, b, r', b'; cbn [orb andb negb] in *;
    first [by apply Hin|by apply Hin'|by apply Hout; right|by apply Hout'; right|exfalso; intuition congruence].
Qed.

Lemma side_total env peer s0 s r b : valid (opts env) → zap_domain (opts env) = [] → pipe_ok env = true →
  (b = true → s = true ∧ r = true ∧ fit peer (opts env) = true) → is_Some (@step _ (null_side env) env Out (side env peer s0 s r b)).
Proof.
  intros Hv Hz Hp Hb. destruct (r && negb (fit peer (opts env))) eqn:Herr.
  - unfold step. cbn [errored side]. rewrite Herr. by eexists.
  - rewrite side_out by naive_solver. by eexists.
Qed.

Lemma side_total_in env peer s0 s r b (s' : bool) (c : list Z) : valid peer → pipe_ok env = true →
  (b = true → s = true ∧ r = true ∧ fit peer (opts env) = true) →
  (if s' then [ready_command_name ++ metadata (props peer)] else [] : list (list Z)) !! b2n r = Some c →
  is_Some (@step _ (null_side env) env (In c) (side env peer s0 s r b)).
Proof.
  intros Hv Hp Hb Hc. destruct s', r; try discriminate Hc. injection Hc as <-. eexists. apply side_in; [done..|]. destruct b; naive_solver.
Qed.
End pair.

(** Both send, both receive. *)
Lemma pair_run env1 env2 s1 s2 : valid (opts env1) → valid (opts env2) → zap_domain (opts env1) = [] → zap_domain (opts env2) = [] →
  pipe_ok env1 = true → pipe_ok env2 = true → fit (opts env2) (opts env1) = true →
  nsteps (pair_step env1 env2) 4 (start s1 s2) (at_ env1 env2 s1 s2 true true true true true true).
Proof.
  intros Hv1 Hv2 Hz1 Hz2 Hp1 Hp2 Hf. assert (Hf' : fit (opts env1) (opts env2) = true) by (by rewrite fit_sym).
  change (start s1 s2) with (at_ env1 env2 s1 s2 false false false false false false).
  apply (nsteps_l _ _ _ (at_ env1 env2 s1 s2 true false false false false false)).
  { eapply left_out; [by apply side_out|]. by intros [=]. }
  apply (nsteps_l _ _ _ (at_ env1 env2 s1 s2 true false false true false false)).
  { eapply right_out; [by apply side_out|]. by intros [=]. }
  apply (nsteps_l _ _ _ (at_ env1 env2 s1 s2 true true true true false false)).
  { eapply left_in; [done|reflexivity|]. by rewrite side_in, Hf by done. }
  apply (nsteps_l _ _ _ (at_ env1 env2 s1 s2 true true true true true true)); [|apply nsteps_O].
  eapply right_in; [done|reflexivity|]. by rewrite side_in, Hf' by done.
Qed.

(** An engine that knows its peer. *)
Definition complete (env : engine_env) (peer : options) (e : engine null) : Prop :=
  let d := Mech (list_to_map (props peer)) ∅ (if has_identity peer && recv_routing_id (opts env) then routing_id peer else []) [] in
  errored e = false ∧ succeeded e = true ∧ mech (n_zap (mstate e)) = d ∧ pushed e = greeting_parts env d ∧
  e_metadata e = Some (init_properties env ∪ list_to_map (props peer)).

Lemma complete_side env peer s0 s r b : (b = true → s = true ∧ r = true ∧ fit peer (opts env) = true) →
  b = true → complete env peer (side env peer s0 s r b).
Proof.
  intros Hb ->. destruct (Hb eq_refl) as (-> & -> & Hf). unfold complete, side. rewrite Hf, introduced_props by done.
  cbn -[greeting_parts init_properties props]. done.
Qed.

(** C6. Two NULL mechanisms without ZAP, their engines taking their steps in any
    order: the handshake takes at most six steps and meets no assertion failure.
    An engine that is ready knows exactly the properties its peer announced: its
    metadata, and the routing id it pushes to the socket.  When nothing is left
    to do, both are ready and every command has been received if the socket types
    fit; if they do not, one of the engines has failed, and none is ever ready. *)
Theorem null_handshake env1 env2 s1 s2 k n :
  valid (opts env1) → valid (opts env2) → zap_domain (opts env1) = [] → zap_domain (opts env2) = [] →
  pipe_ok env1 = true → pipe_ok env2 = true → nsteps (pair_step env1 env2) k (start s1 s2) n →
  (k ≤ 6)%nat ∧
  (is_Some (@step _ (null_side env1) env1 Out (left n)) ∧ is_Some (@step _ (null_side env2) env2 Out (right n)) ∧
   (∀ c, sent (right n) !! got_left n = Some c → is_Some (@step _ (null_side env1) env1 (In c) (left n))) ∧
   ∀ c, sent (left n) !! got_right n = Some c → is_Some (@step _ (null_side env2) env2 (In c) (right n))) ∧
  (msg_mode (left n) = true → fit (opts env1) (opts env2) = true ∧ complete env1 (opts env2) (left n)) ∧
  (msg_mode (right n) = true → fit (opts env1) (opts env2) = true ∧ complete env2 (opts env1) (right n)) ∧
  ((∀ n', ¬ pair_step env1 env2 n n') →
   if fit (opts env1) (opts env2)
   then msg_mode (left n) = true ∧ msg_mode (right n) = true ∧ got_left n = length (sent (right n)) ∧ got_right n = length (sent (left n))
   else errored (left n) = true ∨ errored (right n) = true).
Proof.
  intros Hv1 Hv2 Hz1 Hz2 Hp1 Hp2 Hn.
  destruct (reach_at env1 env2 s1 s2 Hv1 Hv2 Hz1 Hz2 Hp1 Hp2 k n Hn) as (l & r & b & l' & r' & b' & -> & Hc & Hk).
  pose proof Hc as (Hr & Hr' & Hb & Hb'). pose proof (fit_sym _ _ Hv1 Hv2) as Hfit.
  split; [destruct l, r, b, l', r', b'; cbn in Hk; lia|].
  split; [split; [by apply side_total|split; [by apply side_total|split; intros c; by apply side_total_in]]|].
  split; [intros Hm; split; [rewrite Hfit; by apply Hb|by apply complete_side]|].
  split; [intros Hm; split; [by apply Hb'|by apply complete_side]|].
  intros Hq. pose proof (λ H, let (n', Hs) := pair_progress env1 env2 s1 s2 Hv1 Hv2 Hz1 Hz2 Hp1 Hp2 _ _ _ _ _ _ Hc H in Hq n' Hs) as Hno.
  rewrite Hfit in *. destruct (fit (opts env2) (opts env1)) eqn:Hf.
  - destruct (l && r && b && l' && r' && b') eqn:Hall; [|exfalso; apply Hno; by left].
    repeat (apply andb_prop in Hall as [Hall ->]). subst l. done.
  - destruct (r || r') eqn:Hrr; [|exfalso; apply Hno; by right]. cbn [at_ left right errored side].
    apply orb_prop in Hrr as [-> | ->]; [left|right]; rewrite ?Hf, ?Hfit; done.
Qed.

(** ** Witness: a request and a router socket. *)

Definition ex_env (o : options) : engine_env := Env o false 0 true [] [].

Lemma null_handshake_witness :
  let n := at_ (ex_env ex_req) (ex_env ex_router) (session_new None) (session_new None) true true true true true true in
  nsteps (pair_step (ex_env ex_req) (ex_env ex_router)) 4 (start (session_new None) (session_new None)) n ∧
  complete (ex_env ex_router) ex_req (right n).
Proof.
  intros n. destruct metadata_valid as [H1 H2].
  assert (Hn : nsteps (pair_step (ex_env ex_req) (ex_env ex_router)) 4 (start (session_new None) (session_new None)) n).
  { apply pair_run; first [exact H1|exact H2|reflexivity]. }
  split; [exact Hn|].
  destruct (null_handshake (ex_env ex_req) (ex_env ex_router) (session_new None) (session_new None) 4 n H1 H2 eq_refl eq_refl eq_refl eq_refl Hn)
    as (_ & _ & _ & Hr & _).
  exact (proj2 (Hr eq_refl)).
Defined.

End Null.
