(* ===== verification/Plain.v ===== *)
(** * The PLAIN mechanism

    [plain_client_t] (src/plain_client.cpp) sends a user name and a password,
    [plain_server_t] (src/plain_server.cpp) has them checked by the ZAP handler;
    then both announce their properties.  The states of the server are those of
    [zap_client_common_handshake_t] (src/zap_client.cpp). *)

From Stdlib Require Import String.
From S2P Require Import Prelude Msg SubMsg Mechanism Zap Handshake.
Import SubMsg Mechanism Zap Handshake.
#[local] Open Scope Z_scope.

Module Plain.

(** The prefixes of the commands (src/plain_common.hpp). *)
Definition hello_prefix : list Z := 5 :: bytes_of "WELCOME".
Definition welcome_prefix : list Z := 7 :: bytes_of "WELCOME".
Definition initiate_prefix : list Z := 8 :: bytes_of "INITIATE".
Definition ready_prefix : list Z := 5 :: bytes_of "READY".
(** ["\x05ERROR"]: an escape takes all the hexadecimal digits that follow, so that the
    first byte is 0x5E and the E of ERROR is gone; five bytes are left. *)
Definition error_prefix : list Z := 0x5E :: bytes_of "RROR".

(** ** The client *)

Inductive client_state :=
| c_sending_hello | c_waiting_for_welcome | c_sending_initiate | c_waiting_for_ready | c_error_command_received | c_ready.

Record plain_client := Client { c_state : client_state; c_mech : mechanism; c_sess : session }.

Definition plain_client_new (s : session) : plain_client := Client c_sending_hello mechanism_new s.

Definition fail_client (e : protocol_error) (c : plain_client) : rc * plain_client :=
  (RcErr EPROTO, Client (c_state c) (c_mech c) (emit (Failed_protocol e) (c_sess c))).

Section client.
Context (o : options).

Definition produce_hello : option (list Z) :=
  let username := plain_username o in
  _ ← zmq_assert (length username <=? 255)%nat;
  let password := plain_password o in
  _ ← zmq_assert (length password <=? 255)%nat;
  Some (hello_prefix ++ u8 (Z.of_nat (length username)) :: username ++ u8 (Z.of_nat (length password)) :: password).

Definition produce_initiate : option (list Z) := make_command_with_basic_properties initiate_prefix o.

Definition client_next (c : plain_client) : option (rc * option (list Z) * plain_client) :=
  match c_state c with
  | c_sending_hello => x ← produce_hello; Some (RcOk, Some x, Client c_waiting_for_welcome (c_mech c) (c_sess c))
  | c_sending_initiate => x ← produce_initiate; Some (RcOk, Some x, Client c_waiting_for_ready (c_mech c) (c_sess c))
  | _ => Some (RcErr EAGAIN, None, c)
  end.

Definition process_welcome (data : list Z) (c : plain_client) : rc * plain_client :=
  match c_state c with
  | c_waiting_for_welcome =>
      if negb (length data =? length welcome_prefix)%nat then fail_client Zmtp_malformed_welcome c
      else (RcOk, Client c_sending_initiate (c_mech c) (c_sess c))
  | _ => fail_client Zmtp_unexpected_command c
  end.

Definition process_ready (data : list Z) (c : plain_client) : option (rc * plain_client) :=
  match c_state c with
  | c_waiting_for_ready =>
      '(r, m) ← parse_metadata o false (drop (length ready_prefix) data) (c_mech c);
      Some (match r with
            | RcOk => (r, Client c_ready m (c_sess c))
            | _ => (r, Client (c_state c) m (emit (Failed_protocol Zmtp_invalid_metadata) (c_sess c)))
            end)
  | _ => Some (fail_client Zmtp_unexpected_command c)
  end.

Definition process_error (data : list Z) (c : plain_client) : rc * plain_client :=
  match c_state c with
  | c_waiting_for_welcome | c_waiting_for_ready =>
      match error_reason (length error_prefix) data with
      | None => fail_client Zmtp_malformed_error c
      | Some reason => (RcOk, Client c_error_command_received (c_mech c) (handle_error_reason reason (c_sess c)))
      end
  | _ => fail_client Zmtp_unexpected_command c
  end.

Definition client_process (data : list Z) (c : plain_client) : option (rc * plain_client) :=
  if has_prefix welcome_prefix data then Some (process_welcome data c)
  else if has_prefix ready_prefix data then process_ready data c
  else if has_prefix error_prefix data then Some (process_error data c)
  else Some (fail_client Zmtp_unexpected_command c).

Definition client_status (c : plain_client) : status_t :=
  match c_state c with c_ready => Ready | c_error_command_received => Error | _ => Handshaking end.

(** [mechanism_t::zap_msg_available] does nothing. *)
Definition client_mechanism : Mechanism_t plain_client := {|
  m_next := client_next;
  m_process := client_process;
  m_zap_msg_available c := Some (RcOk, c);
  m_status := client_status;
  mech_of := c_mech;
  sess_of := c_sess;
  with_session s c := Client (c_state c) (c_mech c) s |}.
End client.

(** ** The server *)

Inductive state_t :=
| waiting_for_hello | sending_welcome | waiting_for_initiate | waiting_for_zap_reply | sending_ready | sending_error
| error_sent | ready.

#[export] Instance state_eq_dec : EqDecision state_t.
Proof. solve_decision. Defined.

Record plain_server := Server { state : state_t; s_zap : zap }.

(** The constructor. *)
Definition plain_server_new (o : options) (s : session) : option plain_server :=
  _ ← zmq_assert (negb (zap_enforce_domain o) || zap_required o);
  Some (Server waiting_for_hello (Zap mechanism_new s [])).

Definition fail_server (e : protocol_error) (p : plain_server) : rc * plain_server :=
  (RcErr EPROTO, Server (state p) (with_event (Failed_protocol e) (s_zap p))).

Section server.
Context (o : options) (peer_address : list Z).

(** [zap_client_common_handshake_t]; [_zap_reply_ok_state] is [sending_welcome]. *)
Definition handle_zap_status_code (p : plain_server) : plain_server :=
  let z := Zap.handle_zap_status_code (s_zap p) in
  Server (match status_code z with
          | c :: _ => if c =? 50 then sending_welcome else if c =? 51 then error_sent else sending_error
          | [] => sending_error
          end) z.

Definition receive_and_process_zap_reply (p : plain_server) : option (zap_rc * plain_server) :=
  _ ← zmq_assert (bool_decide (state p = waiting_for_zap_reply));
  '(r, z) ← receive_reply o (s_zap p);
  let p := Server (state p) z in
  Some (r, if bool_decide (r = ZapDone) then handle_zap_status_code p else p).

Definition zap_result (r : zap_rc) : rc := match r with ZapError e => RcErr e | _ => RcOk end.

Definition zap_msg_available (p : plain_server) : option (rc * plain_server) :=
  _ ← zmq_assert (bool_decide (state p = waiting_for_zap_reply));
  '(r, p) ← receive_and_process_zap_reply p;
  Some (zap_result r, p).

(** The user name and the password of a HELLO command. *)
Definition parse_hello (data : list Z) : option (list Z * list Z) :=
  let ptr := drop (length hello_prefix) data in
  username_length ← head ptr;
  let ptr := tail ptr in
  if Z.of_nat (length ptr) <? username_length then None
  else
    let username := take (Z.to_nat username_length) ptr in
    let ptr := drop (Z.to_nat username_length) ptr in
    password_length ← head ptr;
    let ptr := tail ptr in
    if negb (Z.of_nat (length ptr) =? password_length) then None else Some (username, ptr).

Definition send_zap_request (username password : list Z) (z : zap) : option zap :=
  Zap.send_zap_request o peer_address (bytes_of "PLAIN") [username; password] z.

Definition process_hello (data : list Z) (p : plain_server) : option (rc * plain_server) :=
  let '(r, s) := check_basic_command_structure data (sess (s_zap p)) in
  let p := Server (state p) (set_sess s (s_zap p)) in
  if negb (bool_decide (r = RcOk)) then Some (r, p)
  else if negb (has_prefix hello_prefix data) then Some (fail_server Zmtp_unexpected_command p)
  else
    match parse_hello data with
    | None => Some (fail_server Zmtp_malformed_hello p)
    | Some (username, password) =>
        '(r, s) ← zap_connect (sess (s_zap p));
        let p := Server (state p) (set_sess s (s_zap p)) in
        if negb (bool_decide (r = RcOk)) then Some (r, Server (state p) (with_event (Failed_no_detail EFAULT) (s_zap p)))
        else
          z ← send_zap_request username password (s_zap p);
          '(r, p) ← receive_and_process_zap_reply (Server waiting_for_zap_reply z);
          Some (zap_result r, p)
    end.

Definition process_initiate (data : list Z) (p : plain_server) : option (rc * plain_server) :=
  if negb (has_prefix initiate_prefix data) then Some (fail_server Zmtp_unexpected_command p)
  else
    '(r, m) ← parse_metadata o false (drop (length initiate_prefix) data) (mech (s_zap p));
    let z := Zap m (sess (s_zap p)) (status_code (s_zap p)) in
    Some (r, Server (if bool_decide (r = RcOk) then sending_ready else state p) z).

Definition produce_welcome : list Z := welcome_prefix.
Definition produce_ready : option (list Z) := make_command_with_basic_properties ready_prefix o.
Definition produce_error (p : plain_server) : option (list Z) :=
  let status := status_code (s_zap p) in
  _ ← zmq_assert (length status =? 3)%nat; Some (error_prefix ++ 3 :: status).

Definition server_next (p : plain_server) : option (rc * option (list Z) * plain_server) :=
  match state p with
  | sending_welcome => Some (RcOk, Some produce_welcome, Server waiting_for_initiate (s_zap p))
  | sending_ready => c ← produce_ready; Some (RcOk, Some c, Server ready (s_zap p))
  | sending_error => c ← produce_error p; Some (RcOk, Some c, Server error_sent (s_zap p))
  | _ => Some (RcErr EAGAIN, None, p)
  end.

Definition server_process (data : list Z) (p : plain_server) : option (rc * plain_server) :=
  match state p with
  | waiting_for_hello => process_hello data p
  | waiting_for_initiate => process_initiate data p
  | _ => Some (fail_server Zmtp_unspecified p)
  end.

Definition server_status (p : plain_server) : status_t :=
  match state p with ready => Ready | error_sent => Error | _ => Handshaking end.

Definition server_mechanism : Mechanism_t plain_server := {|
  m_next := server_next;
  m_process := server_process;
  m_zap_msg_available := zap_msg_available;
  m_status := server_status;
  mech_of p := mech (s_zap p);
  sess_of p := sess (s_zap p);
  with_session s p := Server (state p) (set_sess s (s_zap p)) |}.
End server.

End Plain.
