(* ===== verification/PlainAuth.v ===== *)
(** * The PLAIN mechanism: who gets in

    Against arbitrary commands of the peer, the server is ready only after the
    ZAP handler has accepted the user name and the password the peer sent. *)

From Stdlib Require Import String.
From S2P Require Import Prelude Msg SubMsg Mechanism Zap Handshake Plain.
Import SubMsg Mechanism Zap Handshake Plain.
#[local] Open Scope Z_scope.

Module PlainAuth.
#[local] Arguments bytes_of : simpl never.

(** A HELLO command. *)
Definition hello (username password : list Z) : list Z :=
  hello_prefix ++ Z.of_nat (length username) :: username ++ Z.of_nat (length password) :: password.

(** [parse_hello] reads no other commands. *)
Lemma parse_hello_exact data u pw : bytes_ok data → has_prefix hello_prefix data = true →
  parse_hello data = Some (u, pw) → data = hello u pw.
Proof.
  unfold has_prefix, parse_hello. intros Hb [_ Hpre%bool_decide_eq_true]%andb_prop.
  pose proof (take_drop (length hello_prefix) data) as Hd. rewrite Hpre in Hd. clear Hpre.
  set (ptr := drop (length hello_prefix) data) in *. clearbody ptr. subst data. apply Forall_app in Hb as [_ Hb]. destruct ptr as [|n ptr]; [done|]. cbn [head tail mbind option_bind].
  apply Forall_cons in Hb as [Hn Hb]. destruct (Z.of_nat (length ptr) <? n) eqn:Hlt; [done|]. apply Z.ltb_ge in Hlt.
  destruct (drop (Z.to_nat n) ptr) as [|k rest] eqn:Hd; [done|]. cbn [head tail mbind option_bind].
  destruct (Z.of_nat (length rest) =? k) eqn:Hk; [|done]. apply Z.eqb_eq in Hk. intros [= <- <-]. unfold hello.
  f_equal. rewrite length_take, Nat.min_l, Z2Nat.id by (unfold byte_ok in Hn; lia). f_equal. by rewrite Hk, <- Hd, take_drop.
Qed.

(** What the ZAP handler has written. *)
Fixpoint delivered (l : list input) : list part :=
  match l with [] => [] | Zap_reply ms :: l => ms ++ delivered l | _ :: l => delivered l end.

Lemma delivered_app l1 l2 : delivered (l1 ++ l2) = delivered l1 ++ delivered l2.
Proof.
  induction l1 as [|i l1 IH]; [done|]. destruct i; cbn; rewrite ?IH, ?(assoc_L app); done.
Qed.

Definition input_ok (i : input) : Prop := match i with In c => bytes_ok c | _ => True end.

Section auth.
Context (env : engine_env) (s0 : session).
Notation o := (opts env).
Hypothesis Hs0 : zap_pipe s0 = false.
#[local] Instance server_here : Mechanism_t plain_server := server_mechanism o (Handshake.peer_address env).

(** The request for a user name and a password. *)
Definition request_parts (u pw : list Z) : list part :=
  hello_parts (zap_handler s0) ++ request o (Handshake.peer_address env) (bytes_of "PLAIN") [u; pw].

(** The HELLO command has been received, and its contents sent to the handler;
    what came after it. *)
Definition asked (l l2 : list input) (p : plain_server) : Prop :=
  ∃ l1 u pw, l = l1 ++ In (hello u pw) :: l2 ∧ zap_out (sess (s_zap p)) = request_parts u pw.

(** After that, the handler has answered [code]. *)
Definition answered (l : list input) (p : plain_server) (code : list Z) : Prop :=
  ∃ l2, asked l l2 p ∧ ∃ pre ms post, delivered l2 = pre ++ ms ++ post ∧ is_reply code (user_id (mech (s_zap p))) ms.

Definition refused (l : list input) (p : plain_server) : Prop :=
  answered l p (status_code (s_zap p)) ∧ status_code (s_zap p) ≠ bytes_of "200".

Definition inv (l : list input) (e : engine plain_server) : Prop :=
  let p := mstate e in
  (msg_mode e = true → state p = ready) ∧
  match state p with
  | waiting_for_hello =>
      sent e = [] ∧ (errored e = false → zap_pipe (sess (s_zap p)) = false ∧ zap_handler (sess (s_zap p)) = zap_handler s0)
  | waiting_for_zap_reply =>
      sent e = [] ∧ ∃ l2, asked l l2 p ∧ (errored e = false → ∃ pre, delivered l2 = pre ++ zap_in (sess (s_zap p)))
  | sending_welcome => sent e = [] ∧ answered l p (bytes_of "200")
  | waiting_for_initiate | sending_ready => sent e = [welcome_prefix] ∧ answered l p (bytes_of "200")
  | ready => (∃ c, produce_ready o = Some c ∧ sent e = [welcome_prefix; c]) ∧ answered l p (bytes_of "200")
  | sending_error => sent e = [] ∧ refused l p
  | error_sent => (sent e = [] ∨ sent e = [error_prefix ++ 3 :: status_code (s_zap p)]) ∧ refused l p
  end.

(** Later inputs change nothing of it. *)
Lemma asked_snoc l l2 p i : asked l l2 p → asked (l ++ [i]) (l2 ++ [i]) p.
Proof. intros (l1 & u & pw & -> & Ho). exists l1, u, pw. by rewrite <- (assoc_L app). Qed.

Lemma answered_snoc l p i code : answered l p code → answered (l ++ [i]) p code.
Proof.
  intros (l2 & Ha & pre & ms & post & Hd & Hr). exists (l2 ++ [i]). split; [by apply asked_snoc|].
  exists pre, ms, (post ++ delivered [i]). by rewrite delivered_app, Hd, <- !(assoc_L app).
Qed.

Lemma answered_ext l p p' code : zap_out (sess (s_zap p')) = zap_out (sess (s_zap p)) →
  user_id (mech (s_zap p')) = user_id (mech (s_zap p)) → answered l p code → answered l p' code.
Proof. unfold answered, asked. intros -> ->. done. Qed.

Lemma refused_snoc l p i : refused l p → refused (l ++ [i]) p.
Proof. intros [Ha Hn]. split; [by apply answered_snoc|exact Hn]. Qed.

Ltac later_phase Hi :=
  destruct (state _); try exact Hi;
  try (destruct Hi as [Hs Hi]; split; [exact Hs|first [by apply answered_snoc|by apply refused_snoc]]).

Lemma inv_errored l e i : errored e = true → inv l e → inv (l ++ [i]) e.
Proof.
  intros He [Hm Hi]. split; [exact Hm|]. later_phase Hi.
  destruct Hi as (Hs & l2 & Hl & _). split; [done|]. exists (l2 ++ [i]). split; [by apply asked_snoc|congruence].
Qed.

Lemma inv_same l e i : delivered [i] = [] → inv l e → inv (l ++ [i]) e.
Proof.
  intros Hd [Hm Hi]. split; [exact Hm|]. later_phase Hi.
  destruct Hi as (Hs & l2 & Hl & Hz). split; [done|]. exists (l2 ++ [i]). split; [by apply asked_snoc|]. intros [pre Hp]%Hz.
  exists pre. by rewrite delivered_app, Hd, app_nil_r.
Qed.

(** ** A reply *)

Lemma zap_handle_frame z : mech (Zap.handle_zap_status_code z) = mech z ∧ status_code (Zap.handle_zap_status_code z) = status_code z ∧
  zap_out (sess (Zap.handle_zap_status_code z)) = zap_out (sess z).
Proof.
  unfold Zap.handle_zap_status_code. destruct (status_code z) as [|c ?] eqn:E; [by rewrite <- E|].
  destruct (_ && _); [by rewrite <- E|]. destruct (c =? 50); by rewrite <- E.
Qed.

Lemma status_code_cases code : status_code_ok code = true → ∃ d, code = [d; 48; 48].
Proof.
  destruct code as [|d [|z1 [|z2 [|? ?]]]]; try done. cbn. intros [[_ H1%Z.eqb_eq]%andb_prop H2%Z.eqb_eq]%andb_prop. exists d. by subst.
Qed.

Lemma reply_inv l l2 p r p' : state p = waiting_for_zap_reply → asked l l2 p →
  (∃ pre, delivered l2 = pre ++ zap_in (sess (s_zap p))) → receive_and_process_zap_reply o p = Some (r, p') →
  match state p' with
  | waiting_for_zap_reply => asked l l2 p' ∧ ∃ pre, delivered l2 = pre ++ zap_in (sess (s_zap p'))
  | sending_welcome => answered l p' (bytes_of "200")
  | error_sent | sending_error => refused l p'
  | _ => False
  end.
Proof.
  intros Hst Hask [pre Hpre]. unfold receive_and_process_zap_reply. rewrite Hst. cbn.
  destruct (receive_reply o (s_zap p)) as [[r1 z]|] eqn:Hr; cbn; [|done]. intros [= <- <-].
  apply receive_reply_spec in Hr as ((_ & _ & _ & Ho) & cons & Hc & Hd).
  assert (Hask' : ∀ p2, zap_out (sess (s_zap p2)) = zap_out (sess z) → asked l l2 p2).
  { intros p2 Hp2. destruct Hask as (l1 & u & pw & Hl & Hout). exists l1, u, pw. by rewrite Hp2, Ho. }
  destruct (bool_decide (r1 = ZapDone)) eqn:Hdone.
  - apply bool_decide_eq_true in Hdone. destruct (Hd Hdone) as [Hrep _]. pose proof Hrep as [Hok _].
    destruct (status_code_cases _ Hok) as [d Hcode]. unfold handle_zap_status_code. cbn [state s_zap].
    destruct (zap_handle_frame z) as (Hm & Hsc & Hout). rewrite Hsc, Hcode.
    set (p2 := Server _ _). assert (Hans : answered l p2 [d; 48; 48]).
    { exists l2. split; [apply Hask'; exact Hout|]. exists pre, cons, (zap_in (sess z)). split; [by rewrite Hpre, Hc|].
      cbn. rewrite Hm, <- Hcode. exact Hrep. }
    assert (Hcode2 : status_code (s_zap p2) = [d; 48; 48]) by (cbn; congruence).
    assert (Hd50 : d ≠ 50 → refused l p2) by (intros Hne; unfold refused; rewrite Hcode2; split; [done|by intros [= ?]]).
    clearbody p2. cbn [state]. destruct (d =? 50) eqn:H50; cbn [state].
    + apply Z.eqb_eq in H50 as ->. exact Hans.
    + apply Z.eqb_neq in H50. destruct (d =? 51); by apply Hd50.
  - cbn [state]. split; [by apply Hask'|]. exists (pre ++ cons). cbn. by rewrite Hpre, Hc, (assoc_L app).
Qed.

(** ** Steps *)

Lemma inv_frame l e e' : mstate e' = mstate e → sent e' = sent e → errored e' = errored e →
  (msg_mode e' = true → state (mstate e') = ready) → inv l e → inv l e'.
Proof. unfold inv. intros Hm Hs He Hr [_ Hi]. split; [exact Hr|]. by rewrite Hm, Hs, He. Qed.

Lemma ready_inv l e e' : state (mstate e) = ready → mechanism_ready env e = Some e' → inv l e → inv l e'.
Proof.
  intros Hst Hr Hi. apply mechanism_ready_frame in Hr as (Hm & Hs & He).
  apply (inv_frame l e); [done..|by rewrite Hm|exact Hi].
Qed.

Lemma out_inv l e e' : inv l e → errored e = false → step env Out e = Some e' → inv l e'.
Proof.
  intros Hi He. unfold step. rewrite He. destruct (msg_mode e) eqn:Hmode; [by intros [= <-]|].
  unfold next_handshake_command. cbn [m_status server_here server_mechanism]. unfold server_status.
  destruct (state (mstate e)) eqn:Hst; [idtac..|by intros [= <-]|intros H; by apply (ready_inv l e e' Hst H)];
    cbn [m_next server_here server_mechanism]; unfold server_next; rewrite Hst; cbn [mbind option_bind];
    destruct Hi as [Hm Hi]; rewrite Hst in Hi.
  - intros [= <-]. split; [cbn; congruence|]. cbn. by rewrite Hst.
  - intros [= <-]. split; [cbn; congruence|]. cbn. destruct Hi as [-> Ha]. split; [done|]. by apply (answered_ext l (mstate e)).
  - intros [= <-]. split; [cbn; congruence|]. cbn. by rewrite Hst.
  - intros [= <-]. split; [cbn; congruence|]. cbn. by rewrite Hst.
  - destruct (produce_ready o) as [c|] eqn:Hc; cbn; [|done]. intros [= <-]. split; [done|]. cbn. destruct Hi as [-> Ha].
    split; [by exists c|]. by apply (answered_ext l (mstate e)).
  - unfold produce_error. destruct (zmq_assert _); cbn; [|done]. intros [= <-]. split; [cbn; congruence|]. cbn. destruct Hi as [-> Ha].
    split; [by right|done].
Qed.

Lemma reply_step_inv l ms e : inv l e → errored e = false →
  inv (l ++ [Zap_reply ms]) (set_mech (with_session (zap_deliver ms (sess_of (mstate e))) (mstate e)) e).
Proof.
  intros [Hm Hi] He. split; [exact Hm|]. cbn. set (p' := Server _ _).
  assert (Ho : zap_out (sess (s_zap p')) = zap_out (sess (s_zap (mstate e)))) by done.
  assert (Hu : user_id (mech (s_zap p')) = user_id (mech (s_zap (mstate e)))) by done.
  assert (Hans : ∀ c, answered l (mstate e) c → answered (l ++ [Zap_reply ms]) p' c).
  { intros c Ha. apply answered_snoc. by apply (answered_ext l (mstate e)). }
  assert (Href : refused l (mstate e) → refused (l ++ [Zap_reply ms]) p') by (intros [Ha Hn]; split; [by apply Hans|exact Hn]).
  destruct (state (mstate e)); cbn in Hi |- *.
  - exact Hi.
  - split; [apply Hi|apply Hans, Hi].
  - split; [apply Hi|apply Hans, Hi].
  - destruct Hi as (Hs & l2 & Hl & Hz). split; [done|]. exists (l2 ++ [Zap_reply ms]). split; [by apply asked_snoc|].
    intros _. destruct (Hz He) as [pre Hpre]. exists pre. rewrite delivered_app, Hpre. cbn. by rewrite app_nil_r, <- (assoc_L app).
  - split; [apply Hi|apply Hans, Hi].
  - split; [apply Hi|apply Href, Hi].
  - split; [apply Hi|apply Href, Hi].
  - split; [apply Hi|apply Hans, Hi].
Qed.

(** A state the reply leads to. *)
Definition decided (l l2 : list input) (p : plain_server) : Prop :=
  match state p with
  | waiting_for_zap_reply => asked l l2 p ∧ ∃ pre, delivered l2 = pre ++ zap_in (sess (s_zap p))
  | sending_welcome => answered l p (bytes_of "200")
  | error_sent | sending_error => refused l p
  | _ => False
  end.

Lemma decided_inv l l2 e : decided l l2 (mstate e) → sent e = [] → (msg_mode e = true → state (mstate e) = ready) → inv l e.
Proof.
  unfold decided. intros Hd Hs Hm. split; [exact Hm|]. destruct (state (mstate e)); try done.
  - split; [done|]. exists l2. split; [apply Hd|]. intros _. apply Hd.
  - split; [by left|exact Hd].
Qed.

Lemma zap_event_inv l e e' : inv l e → errored e = false → step env Zap_event e = Some e' → inv l e'.
Proof.
  intros [Hm Hi] He. unfold step. rewrite He. unfold Handshake.zap_msg_available. cbn [m_zap_msg_available server_here server_mechanism].
  unfold zap_msg_available. destruct (bool_decide (state (mstate e) = waiting_for_zap_reply)) eqn:Hst; [|done].
  apply bool_decide_eq_true in Hst. rewrite Hst in Hi. destruct Hi as (Hs & l2 & Hl & Hz). cbn [zmq_assert mbind option_bind].
  destruct (receive_and_process_zap_reply o (mstate e)) as [[r p]|] eqn:Hr; cbn; [|done].
  apply (reply_inv l l2) in Hr; [|done..|by apply Hz].
  assert (Hmm : msg_mode e = true → state p = ready) by (intros H%Hm; congruence).
  destruct (zap_result r); intros [= <-]; by apply (decided_inv l l2).
Qed.

(** A command of the peer. *)
Lemma hello_inv l data e r p : bytes_ok data → inv l e → errored e = false → state (mstate e) = waiting_for_hello →
  process_hello o (Handshake.peer_address env) data (mstate e) = Some (r, p) →
  (state p = waiting_for_hello ∧ zap_pipe (sess (s_zap p)) = false ∧ zap_handler (sess (s_zap p)) = zap_handler s0) ∨ decided (l ++ [In data]) [] p.
Proof.
  intros Hb [_ Hi] He Hst. rewrite Hst in Hi. destruct Hi as (_ & Hpipe). destruct (Hpipe He) as [Hnp Hh]. clear Hpipe.
  unfold process_hello. destruct (check_basic_command_structure data (sess (s_zap (mstate e)))) as [r1 s1] eqn:H1.
  assert (Hs1 : (r1 = RcOk → s1 = sess (s_zap (mstate e))) ∧ zap_pipe s1 = false ∧ zap_handler s1 = zap_handler s0).
  { unfold check_basic_command_structure in H1. destruct (_ || _); injection H1 as <- <-; done. }
  destruct Hs1 as (Hs1 & Hnp1 & Hh1).
  destruct (bool_decide (r1 = RcOk)) eqn:Hr1; cbn [negb].
  2: { intros [= <- <-]. by left. }
  apply bool_decide_eq_true in Hr1. rewrite (Hs1 Hr1). destruct (has_prefix hello_prefix data) eqn:Hpre; cbn [negb]; [|by intros [= <- <-]; left].
  destruct (parse_hello data) as [[u pw]|] eqn:Hparse; [|by intros [= <- <-]; left]. cbn [s_zap sess set_sess].
  destruct (zap_connect _) as [[r2 s2]|] eqn:Hc; cbn [mbind option_bind]; [|done]. apply zap_connect_spec in Hc as [Hh2 Hc]; [|done].
  destruct (bool_decide (r2 = RcOk)) eqn:Hr2; cbn [negb].
  2: { intros [= <- <-]. subst s2. by left. }
  destruct Hc as (Hp2 & Hi2 & Ho2). unfold send_zap_request.
  destruct (Zap.send_zap_request _ _ _ _ _) as [z|] eqn:Hsend; cbn [mbind option_bind]; [|done].
  apply send_zap_request_spec in Hsend as (Ho3 & Hi3 & _).
  destruct (receive_and_process_zap_reply o _) as [[r3 p3]|] eqn:Hr3; cbn [mbind option_bind]; [|done]. intros [= <- <-]. right.
  eapply reply_inv in Hr3; [exact Hr3|done| |].
  - exists l, u, pw. split; [by rewrite (parse_hello_exact data u pw Hb Hpre Hparse)|]. unfold request_parts. cbn [s_zap]. rewrite Ho3. cbn [s_zap sess set_sess]. by rewrite Ho2, Hh.
  - exists []. cbn [s_zap]. rewrite Hi3. cbn. by rewrite Hi2.
Qed.

Lemma error_inv l e : inv l e → inv l (error_ e).
Proof.
  intros [Hm Hi]. split; [exact Hm|]. cbn. destruct (state (mstate e)); try exact Hi.
  - by split; [apply Hi|].
  - destruct Hi as (Hs & l2 & Hl & _). split; [done|]. by exists l2.
Qed.

Lemma event_inv l ev e : inv l e → inv l (set_mech (Server (state (mstate e)) (with_event ev (s_zap (mstate e)))) e).
Proof. intros [Hm Hi]. split; [exact Hm|]. cbn. destruct (state (mstate e)); exact Hi. Qed.

(** What the mechanism makes of a command. *)
Lemma process_inv l data e r p : bytes_ok data → inv l e → errored e = false → msg_mode e = false →
  server_process o (Handshake.peer_address env) data (mstate e) = Some (r, p) →
  inv (l ++ [In data]) (set_mech p e) ∧ state p ≠ ready ∨ r = RcErr EPROTO ∧ inv (l ++ [In data]) (set_mech p e).
Proof.
  intros Hb Hi He Hmode. unfold server_process.
  destruct (state (mstate e)) eqn:Hst; try (intros [= <- <-]; right; split; [done|]; apply event_inv; by apply inv_same).
  - intros Hp. left. pose proof Hi as [_ Hi0]. rewrite Hst in Hi0. destruct Hi0 as [Hs _].
    destruct (hello_inv l data e r p Hb Hi He Hst Hp) as [(Hst' & Hnp & Hh)|Hd].
    + split; [|congruence]. split; [cbn; congruence|]. cbn. by rewrite Hst'.
    + split; [apply (decided_inv _ []); [exact Hd|exact Hs|cbn; congruence]|]. intros Hr. unfold decided in Hd. by rewrite Hr in Hd.
  - unfold process_initiate. destruct (has_prefix initiate_prefix data); cbn [negb].
    2: { intros [= <- <-]. right. split; [done|]. apply event_inv. by apply inv_same. }
    destruct (parse_metadata o false _ _) as [[r1 m]|] eqn:Hp; cbn [mbind option_bind]; [|done]. apply parse_loop_user in Hp.
    intros [= <- <-]. left. apply (inv_same l e (In data) eq_refl) in Hi as [Hm Hi]. rewrite Hst in Hi. destruct Hi as [Hs Ha].
    split; [|cbn; rewrite Hst; by destruct (bool_decide _)]. split; [cbn; congruence|].
    assert (Ha' : ∀ st, answered (l ++ [In data]) (Server st (Zap m (sess (s_zap (mstate e))) (status_code (s_zap (mstate e))))) (bytes_of "200")).
    { intros st. apply (answered_ext _ (mstate e)); [done|exact Hp|exact Ha]. }
    rewrite Hst. cbn. destruct (bool_decide (r1 = RcOk)); (split; [exact Hs|apply Ha']).
Qed.

Lemma in_inv l data e e' : bytes_ok data → inv l e → errored e = false → step env (In data) e = Some e' → inv (l ++ [In data]) e'.
Proof.
  intros Hb Hi He. unfold step. rewrite He. destruct (msg_mode e) eqn:Hmode; [intros [= <-]; by apply inv_same|].
  unfold Handshake.process_handshake_command. cbn [m_process server_here server_mechanism].
  destruct (server_process _ _ data (mstate e)) as [[r p]|] eqn:Hp; cbn [mbind option_bind]; [|done].
  assert (Hdone : ∀ r', inv (l ++ [In data]) (match r' with RcOk | RcErr EAGAIN => set_mech p e | RcErr _ => error_ (set_mech p e) end)
     ∧ (r = RcOk → state p ≠ ready)).
  { destruct (process_inv l data e r p Hb Hi He Hmode Hp) as [[Hinv Hr]|[Hr Hinv]];
      (intros r'; split; [destruct r' as [|[]]; first [exact Hinv|by apply error_inv]|congruence]). }
  destruct r as [|er].
  - cbn [m_status server_here server_mechanism]. unfold server_status. destruct (Hdone RcOk) as [_ Hr]. specialize (Hr eq_refl).
    destruct (state p); try done; cbn; intros [= <-]; [..|apply (Hdone (RcErr EPROTO))]; apply (Hdone RcOk).
  - cbn. intros [= <-]. apply (Hdone (RcErr er)).
Qed.

Lemma server_inv l : ∀ e e', (∃ p0, plain_server_new o s0 = Some p0 ∧ e = engine_new p0) → Forall input_ok l → run env l e = Some e' → inv l e'.
Proof.
  induction l as [|i l IH] using rev_ind; intros e e' Hp0 Hl.
  - destruct Hp0 as (p0 & Hp0 & ->). intros [= <-]. unfold plain_server_new in Hp0. destruct (zmq_assert _); [|done].
    injection Hp0 as <-. by split.
  - apply Forall_app in Hl as [Hl [Hi _]%Forall_cons]. rewrite run_snoc. destruct (run env l e) as [e1|] eqn:Hr; cbn [mbind option_bind]; [|done].
    apply (IH e e1 Hp0 Hl) in Hr. intros Hs. destruct (errored e1) eqn:He.
    + unfold step in Hs. rewrite He in Hs. injection Hs as <-. by apply inv_errored.
    + destruct i as [|c|ms|].
      * apply inv_same; [done|]. by eapply out_inv.
      * by eapply in_inv.
      * unfold step in Hs. rewrite He in Hs. injection Hs as <-. by apply reply_step_inv.
      * apply inv_same; [done|]. by eapply zap_event_inv.
Qed.

End auth.

(** C5. Whatever the peer sends and the ZAP handler writes, in any order: when the
    server has sent WELCOME, is ready or has gone over to messages, the peer has
    sent a HELLO command, exactly its user name and password (after the address,
    the domain and the routing id of the server) have been written to the handler
    and nothing else has, and after that the handler has answered with a
    well-formed reply of status 200, whose user id is the peer's.  The commands
    sent are none, the error command (as spelt in [error_prefix]) with the status
    of a reply that refused those credentials, or WELCOME and then READY. *)
Theorem plain_auth env s0 p0 l e :
  plain_server_new (opts env) s0 = Some p0 → zap_pipe s0 = false → Forall input_ok l →
  @run _ (server_here env) env l (engine_new p0) = Some e →
  let answered code := ∃ l1 username password l2 pre ms post, l = l1 ++ In (hello username password) :: l2 ∧
    zap_out (sess (s_zap (mstate e))) = request_parts env s0 username password ∧
    delivered l2 = pre ++ ms ++ post ∧ is_reply code (user_id (mech (s_zap (mstate e)))) ms in
  (server_status (mstate e) = Ready ∨ msg_mode e = true ∨ welcome_prefix ∈ sent e → answered (bytes_of "200")) ∧
  (sent e = [] ∨ (∃ code, answered code ∧ code ≠ bytes_of "200" ∧ sent e = [error_prefix ++ 3 :: code]) ∨
   sent e = [welcome_prefix] ∨ ∃ c, produce_ready (opts env) = Some c ∧ sent e = [welcome_prefix; c]).
Proof.
  intros Hp0 Hs0 Hl Hr answered'.
  assert (Hans : ∀ c, answered env s0 l (mstate e) c → answered' c).
  { intros c (l2 & (l1 & u & pw & Hl1 & Ho) & pre & ms & post & Hd & Hrep). by exists l1, u, pw, l2, pre, ms, post. }
  destruct (server_inv env s0 Hs0 l _ _ (ex_intro _ p0 (conj Hp0 eq_refl)) Hl Hr) as [Hm Hi]. unfold server_status.
  assert (Hmode : msg_mode e = true → state (mstate e) = ready) by done. clear Hm Hr.
  destruct (state (mstate e)) eqn:Hst; cbn in Hi.
  all: split; [intros [Hc|[Hc|Hc]]; try discriminate Hc; try (by specialize (Hmode Hc))|].
  all: try (apply Hans; apply Hi).
  all: try (destruct Hi as [Hi _]; rewrite Hi in Hc; by apply not_elem_of_nil in Hc).
  all: try (left; apply Hi).
  - right. right. left. apply Hi.
  - right. right. left. apply Hi.
  - destruct Hi as [[Hi|Hi] _]; rewrite Hi in Hc; [by apply not_elem_of_nil in Hc|]. by apply list_elem_of_singleton in Hc.
  - destruct Hi as [[Hi|Hi] [Ha Hn]]; [by left|]. right. left. eexists. split; [by apply Hans|done].
  - right. right. right. apply Hi.
Qed.

(** ** Witness: a login that is accepted. *)

Definition ex_client : options := Options ZMQ_REQ [] false [] [] false (bytes_of "admin") (bytes_of "secret").
Definition ex_server : options := Options ZMQ_REP [] false [] (bytes_of "global") true [] [].
Definition ex_env (o : options) : engine_env := Env o false 0 true [] [].
Definition ex_session : session := session_new (Some (ZMQ_REP, false)).

Definition ex_reply : list part :=
  [frame [] true; frame zap_version true; frame id true; frame (bytes_of "200") true; frame [] true; frame [7] true; frame [] false].

Definition ex_inputs : list input :=
  [In (hello (bytes_of "admin") (bytes_of "secret")); Zap_reply ex_reply; Zap_event; Out;
   In (initiate_prefix ++ metadata (props ex_client)); Out].

Definition ex_start : plain_server := Server waiting_for_hello (Zap mechanism_new ex_session []).
Definition ex_end : engine plain_server :=
  default (engine_new ex_start) (@run _ (server_here (ex_env ex_server)) (ex_env ex_server) ex_inputs (engine_new ex_start)).

Lemma plain_auth_witness :
  server_status (mstate ex_end) = Ready ∧
  ∃ l1 username password l2, ex_inputs = l1 ++ In (hello username password) :: l2 ∧
    zap_out (sess (s_zap (mstate ex_end))) = request_parts (ex_env ex_server) ex_session username password.
Proof.
  assert (Hr : server_status (mstate ex_end) = Ready) by (vm_compute; reflexivity).
  assert (Hl : Forall input_ok ex_inputs) by (repeat apply Forall_cons_2; try exact I; try apply Forall_nil_2; vm_compute; repeat constructor; done).
  split; [exact Hr|].
  destruct (plain_auth (ex_env ex_server) ex_session ex_start ex_inputs ex_end ltac:(reflexivity) ltac:(reflexivity) Hl
    ltac:(vm_compute; reflexivity)) as [Ha _].
  destruct (Ha (or_introl Hr)) as (l1 & u & pw & l2 & pre & ms & post & H1 & H2 & _). exists l1, u, pw, l2. exact (conj H1 H2).
Defined.

End PlainAuth.
