(* ===== verification/PlainLogin.v ===== *)
(** * The PLAIN mechanism: a login

    The client, the server and the ZAP handler, up to the end of the handshake:
    accepted, refused, or refused silently. *)

From Stdlib Require Import String.
From S2P Require Import Prelude Msg SubMsg Mechanism Zap Handshake Plain PlainAuth.
Import SubMsg Mechanism Zap Handshake Plain PlainAuth.
#[local] Open Scope Z_scope.

Module PlainLogin.
#[local] Arguments bytes_of : simpl never.

(** The frames of a reply without metadata. *)
Definition reply (code text uid : list Z) : list part :=
  [frame [] true; frame zap_version true; frame id true; frame code true; frame text true; frame uid true; frame [] false].

Section login.
Context (cenv senv : engine_env) (cs ss : session) (t : Z) (rr : bool) (code text uid : list Z).
Notation co := (opts cenv).
Notation so := (opts senv).
Notation u := (plain_username co).
Notation pw := (plain_password co).
Hypothesis Hvc : valid co.
Hypothesis Hvs : valid so.
Hypothesis Hu : (length u ≤ 255)%nat.
Hypothesis Hpw : (length pw ≤ 255)%nat.
Hypothesis Hnp : zap_pipe ss = false.
Hypothesis Hh : zap_handler ss = Some (t, rr).
Hypothesis Ht : (t =? ZMQ_REP) || (t =? ZMQ_ROUTER) || (t =? ZMQ_SERVER) = true.
Hypothesis Hcode : status_code_ok code = true.
Hypothesis Hpc : pipe_ok cenv = true.
Hypothesis Hps : pipe_ok senv = true.
Hypothesis Hfit : fit co so = true.
#[local] Instance client_side : Mechanism_t plain_client := client_mechanism co.
#[local] Instance server_side : Mechanism_t plain_server := server_mechanism so (Handshake.peer_address senv).

Definition client_at (st : client_state) (out : list (list Z)) : engine plain_client :=
  Engine (Client st mechanism_new cs) false [] None false false false out.

Definition asked_session : session :=
  Session (Some (t, rr)) true true (request_parts senv ss u pw) [] (events ss).

Definition server_waiting (s : session) : engine plain_server :=
  Engine (Server waiting_for_zap_reply (Zap mechanism_new s [])) false [] None false false false [].

Lemma client_hello : step cenv Out (engine_new (plain_client_new cs)) = Some (client_at c_waiting_for_welcome [hello u pw]).
Proof.
  unfold step. cbn [errored engine_new msg_mode]. unfold next_handshake_command. cbn [m_status client_side client_mechanism mstate m_next].
  unfold client_next, produce_hello. cbn [client_status c_state plain_client_new].
  rewrite (proj2 (Nat.leb_le _ _) Hu), (proj2 (Nat.leb_le _ _) Hpw). cbn [zmq_assert mbind option_bind].
  by rewrite !u8_small by lia.
Qed.

Lemma parse_hello_ok (n p : list Z) : parse_hello (hello n p) = Some (n, p).
Proof.
  unfold parse_hello, hello. rewrite drop_app_length. cbn [head tail mbind option_bind].
  rewrite length_app, Nat2Z.id, take_app_length, drop_app_length. cbn [head tail mbind option_bind].
  rewrite (proj2 (Z.ltb_ge _ _)) by lia. by rewrite Z.eqb_refl.
Qed.

Lemma send_frames_ok ms s : zap_pipe s = true → zap_active s = true →
  send_frames ms s = Some (Session (zap_handler s) true true (zap_out s ++ ms) (zap_in s) (events s)).
Proof.
  revert s. induction ms as [|m ms IH]; intros s Hp Ha; cbn [send_frames].
  { rewrite app_nil_r. by destruct s; cbn in *; subst. }
  unfold send_frame, write_zap_msg. rewrite Hp, Ha. change (negb (true && true)) with false. cbv beta iota zeta.
  change (bool_decide (RcOk = RcOk)) with true. cbn [zmq_assert mbind option_bind]. rewrite IH by done. cbn. by rewrite <- (assoc_L app).
Qed.

Lemma server_hello : step senv (In (hello u pw)) (engine_new (Server waiting_for_hello (Zap mechanism_new ss []))) =
  Some (server_waiting asked_session).
Proof.
  unfold step. cbn [errored engine_new msg_mode]. unfold process_handshake_command.
  cbn [m_process server_side server_mechanism mstate]. unfold server_process. cbn [state mstate engine_new]. unfold process_hello. cbn [sess s_zap mstate engine_new].
  assert (Hc : check_basic_command_structure (hello u pw) ss = (RcOk, ss)).
  { unfold check_basic_command_structure, hello. rewrite length_app. change (length hello_prefix) with 8%nat.
    rewrite (proj2 (Nat.leb_gt _ _)), (proj2 (Z.leb_gt _ _)); [done|cbn; lia|lia]. }
  rewrite Hc. change (bool_decide (RcOk = RcOk)) with true. cbn [negb]. change (has_prefix hello_prefix (hello u pw)) with
    (has_prefix hello_prefix (hello_prefix ++ Z.of_nat (length u) :: u ++ Z.of_nat (length pw) :: pw)). rewrite has_prefix_app, parse_hello_ok.
  cbn [negb]. unfold zap_connect. cbn [s_zap set_sess sess]. rewrite Hnp, Hh, Ht. cbn [zmq_assert mbind option_bind].
  change (bool_decide (RcOk = RcOk)) with true. cbn [negb]. unfold send_zap_request, Zap.send_zap_request.
  cbn [s_zap set_sess sess].
  rewrite send_frames_ok by (by destruct rr). cbn [mbind option_bind]. unfold receive_and_process_zap_reply. cbn [state bool_decide].
  assert (Hout : zap_out (if rr then zap_write (Part [] Msg.routing_id None) (Session (Some (t, rr)) true true [] [] (events ss))
    else Session (Some (t, rr)) true true [] [] (events ss)) = hello_parts (zap_handler ss)) by (rewrite Hh; by destruct rr).
  unfold server_waiting, asked_session, request_parts. rewrite <- Hout. by destruct rr.
Qed.

(** ** The reply *)

Definition decided_server : plain_server :=
  handle_zap_status_code (Server waiting_for_zap_reply (Zap (set_user_id uid mechanism_new) asked_session code)).

Definition server_at (p : plain_server) (out : list (list Z)) : engine plain_server := Engine p false [] None false false false out.

Lemma receive_reply_ok m s sc : zap_pipe s = true → zap_in s = reply code text uid →
  receive_reply so (Zap m s sc) =
  Some (ZapDone, Zap (set_user_id uid m) (Session (zap_handler s) true (zap_active s) (zap_out s) [] (events s)) code).
Proof.
  intros Hp Hi. unfold receive_reply.
  assert (Hr : read_frames 7 s = (ZapDone, reply code text uid, Session (zap_handler s) true (zap_active s) (zap_out s) [] (events s))).
  { destruct s as [h p a ou inn ev]. cbn in Hp, Hi. subst. by cbn. }
  cbn [sess]. rewrite Hr. cbn [reply map p_data frame].
  change (bool_decide ([] = [])) with true. cbn [negb].
  by rewrite !bool_decide_eq_true_2, Hcode by done.
Qed.

Definition replied_session : session :=
  Session (Some (t, rr)) true true (request_parts senv ss u pw) (reply code text uid) (events ss).

Lemma server_reply : step senv (Zap_reply (reply code text uid)) (server_waiting asked_session) = Some (server_waiting replied_session).
Proof. done. Qed.

Lemma server_decides : step senv Zap_event (server_waiting replied_session) = Some (server_at decided_server []).
Proof.
  unfold step. cbn [errored server_waiting].
  unfold Handshake.zap_msg_available. cbn [m_zap_msg_available server_side server_mechanism mstate server_waiting].
  unfold zap_msg_available, receive_and_process_zap_reply. cbn [state s_zap].
  change (bool_decide (waiting_for_zap_reply = waiting_for_zap_reply)) with true. cbn [zmq_assert mbind option_bind].
  by rewrite receive_reply_ok.
Qed.

Lemma decided_ok : decided_server =
  let z := Zap (set_user_id uid mechanism_new) asked_session code in
  if bool_decide (code = bytes_of "200") then Server sending_welcome z
  else Server (if bool_decide (code = bytes_of "300") then error_sent else sending_error)
              (with_event (Failed_auth ((default 0 (head code) - 48) * 100)) z).
Proof.
  destruct (status_code_cases _ Hcode) as [d Hc]. unfold decided_server, handle_zap_status_code, Zap.handle_zap_status_code.
  cbn [s_zap status_code]. rewrite Hc in *. assert (Hd : 50 ≤ d ≤ 53) by (cbn in Hcode; lia).
  destruct (decide (d = 50)) as [->|H50]; [by rewrite bool_decide_eq_true_2|].
  rewrite (bool_decide_eq_false_2 (_ = bytes_of "200")) by (intros Heq; vm_compute in Heq; congruence).
  destruct (decide (d = 51)) as [->|H51]; [by rewrite bool_decide_eq_true_2|].
  rewrite (bool_decide_eq_false_2 (_ = bytes_of "300")) by (intros Heq; vm_compute in Heq; congruence). rewrite (proj2 (Z.leb_le 51 d)), (proj2 (Z.leb_le d 53)) by lia.
  cbn [andb status_code with_event set_sess]. rewrite (proj2 (Z.eqb_neq d 50)), (proj2 (Z.eqb_neq d 51)) by lia. done.
Qed.

(** ** Accepted *)

Definition welcomed_server (m : mechanism) : zap := Zap m asked_session code.

Lemma server_welcome z : step senv Out (server_at (Server sending_welcome z) []) =
  Some (server_at (Server waiting_for_initiate z) [welcome_prefix]).
Proof. done. Qed.

Lemma client_welcome out : step cenv (In welcome_prefix) (client_at c_waiting_for_welcome out) = Some (client_at c_sending_initiate out).
Proof. done. Qed.

Lemma client_initiate out : step cenv Out (client_at c_sending_initiate out) =
  Some (client_at c_waiting_for_ready (out ++ [initiate_prefix ++ metadata (props co)])).
Proof.
  unfold step, next_handshake_command. cbn [errored client_at msg_mode m_status client_side client_mechanism mstate m_next].
  unfold client_next, produce_initiate. cbn [client_status c_state]. by rewrite make_command_ok.
Qed.

(** What the server knows of the client. *)
Definition client_known (m : mechanism) : mechanism :=
  Mech (list_to_map (props co)) (zap_properties m) (if has_identity co && recv_routing_id so then routing_id co else []) (user_id m).

Lemma server_initiate m s out : zmtp_properties m = ∅ → peer_id m = [] →
  step senv (In (initiate_prefix ++ metadata (props co))) (server_at (Server waiting_for_initiate (Zap m s code)) out) =
  Some (server_at (Server sending_ready (Zap (client_known m) s code)) out).
Proof.
  intros Hm1 Hm2. unfold step, process_handshake_command. cbn [errored server_at msg_mode m_process server_side server_mechanism mstate].
  unfold server_process. cbn [state]. unfold process_initiate. rewrite has_prefix_app, drop_app_length. cbn [negb s_zap mech].
  by rewrite parse_store, store_props by done.
Qed.

Lemma server_ready z out : step senv Out (server_at (Server sending_ready z) out) =
  Some (server_at (Server ready z) (out ++ [ready_prefix ++ metadata (props so)])).
Proof.
  unfold step, next_handshake_command. cbn [errored server_at msg_mode m_status server_side server_mechanism mstate m_next].
  unfold server_next, produce_ready. cbn [server_status state]. by rewrite make_command_ok.
Qed.

(** An engine that is ready. *)
Definition ready_engine {S} (env : engine_env) (d : mechanism) (st : S) (out : list (list Z)) : engine S :=
  Engine st true (greeting_parts env d) (if bool_decide (all_properties env d = ∅) then None else Some (all_properties env d))
         (0 <? heartbeat_interval env) true false out.

Lemma server_done z out : step senv Out (server_at (Server ready z) out) = Some (ready_engine senv (mech z) (Server ready z) out).
Proof.
  unfold step, next_handshake_command. cbn [errored server_at msg_mode m_status server_side server_mechanism mstate server_status state].
  rewrite mechanism_ready_ok by done. cbn. by rewrite orb_false_r.
Qed.

Lemma client_done out : step cenv (In (ready_prefix ++ metadata (props so))) (client_at c_waiting_for_ready out) =
  Some (ready_engine cenv (introduced so co).2 (Client c_ready (introduced so co).2 cs) out).
Proof.
  assert (Hfit' : fit so co = true) by (by rewrite fit_sym).
  unfold step, process_handshake_command. cbn [errored client_at msg_mode m_process client_side client_mechanism mstate].
  unfold client_process. assert (Hw : has_prefix welcome_prefix (ready_prefix ++ metadata (props so)) = false).
  { unfold has_prefix. rewrite bool_decide_eq_false_2; [by rewrite andb_false_r|]. by intros [=]. }
  rewrite Hw, has_prefix_app. unfold process_ready. cbn [c_state c_mech]. rewrite drop_app_length, parse_props by done.
  rewrite introduced_rc at 1. rewrite Hfit'. cbn [mbind option_bind c_sess m_status client_side client_mechanism client_status c_state].
  rewrite mechanism_ready_ok by done. cbn. by rewrite orb_false_r.
Qed.

(** ** Refused *)

Lemma server_error z : length (status_code z) = 3%nat →
  step senv Out (server_at (Server sending_error z) []) = Some (server_at (Server error_sent z) [error_prefix ++ 3 :: status_code z]).
Proof.
  intros Hl. unfold step, next_handshake_command. cbn [errored server_at msg_mode m_status server_side server_mechanism mstate m_next].
  unfold server_next, produce_error. cbn [server_status state s_zap]. by rewrite Hl.
Qed.

Lemma client_error out : code ≠ bytes_of "200" →
  step cenv (In (error_prefix ++ 3 :: code)) (client_at c_waiting_for_welcome out) =
  Some (Engine (Client c_error_command_received mechanism_new (emit (Failed_auth ((default 0 (head code) - 48) * 100)) cs))
               false [] None false false true out).
Proof.
  destruct (status_code_cases _ Hcode) as [d Hc]. pose proof Hcode as Hd. rewrite Hc in *. intros Hne.
  assert (Hd' : 51 ≤ d ≤ 53) by (destruct (decide (d = 50)) as [->|]; [by destruct Hne|cbn in Hd; lia]).
  unfold step, process_handshake_command. cbn [errored client_at msg_mode m_process client_side client_mechanism mstate].
  unfold client_process. change (has_prefix welcome_prefix (error_prefix ++ [3; d; 48; 48])) with false.
  change (has_prefix ready_prefix (error_prefix ++ [3; d; 48; 48])) with false. rewrite has_prefix_app.
  unfold process_error. cbn [c_state]. change (error_reason (length error_prefix) (error_prefix ++ [3; d; 48; 48])) with (Some [d; 48; 48]).
  unfold handle_error_reason. rewrite (proj2 (Z.leb_le 51 d)), (proj2 (Z.leb_le d 53)) by lia. done.
Qed.

(** ** The login *)

Definition schedule : list action :=
  [Left Out; Right_receives; Right (Zap_reply (reply code text uid)); Right Zap_event; Right Out; Left_receives;
   Left Out; Right_receives; Right Out; Right Out; Left_receives].

Definition run_login (p0 : plain_server) : option (net plain_client plain_server) :=
  @acts _ _ client_side server_side cenv senv schedule (Net (engine_new (plain_client_new cs)) (engine_new p0) 0 0).

Definition login_start : net plain_client plain_server :=
  Net (client_at c_waiting_for_welcome [hello u pw]) (server_at decided_server []) 0 1.

(** Up to the decision of the handler. *)
Lemma login_asks : run_login (Server waiting_for_hello (Zap mechanism_new ss [])) =
  acts cenv senv [Right Out; Left_receives; Left Out; Right_receives; Right Out; Right Out; Left_receives] login_start.
Proof.
  unfold run_login, schedule. erewrite acts_left by apply client_hello.
  erewrite acts_right_receives by first [apply server_hello|done]. erewrite acts_right by apply server_reply.
  by erewrite acts_right by apply server_decides.
Qed.

Lemma login_accepted : code = bytes_of "200" →
  run_login (Server waiting_for_hello (Zap mechanism_new ss [])) =
  Some (Net (ready_engine cenv (introduced so co).2 (Client c_ready (introduced so co).2 cs)
               [hello u pw; initiate_prefix ++ metadata (props co)])
            (let d := client_known (set_user_id uid mechanism_new) in
             ready_engine senv d (Server ready (Zap d asked_session code)) [welcome_prefix; ready_prefix ++ metadata (props so)]) 2 2).
Proof.
  intros Hc. rewrite login_asks. unfold login_start. rewrite decided_ok. cbv zeta. rewrite bool_decide_eq_true_2 by done.
  erewrite acts_right by apply server_welcome. erewrite acts_left_receives by first [apply client_welcome|done].
  erewrite acts_left by apply client_initiate. erewrite acts_right_receives by first [by apply server_initiate|done].
  erewrite acts_right by apply server_ready. erewrite acts_right by apply server_done.
  by erewrite acts_left_receives by first [apply client_done|done].
Qed.

(** The server after a refusal, whose status is [code]. *)
Definition refusing_zap : zap :=
  with_event (Failed_auth ((default 0 (head code) - 48) * 100)) (Zap (set_user_id uid mechanism_new) asked_session code).

Lemma server_refused z out : step senv Out (server_at (Server error_sent z) out) = Some (server_at (Server error_sent z) out).
Proof. done. Qed.

Lemma client_waits out : step cenv Out (client_at c_waiting_for_welcome out) = Some (client_at c_waiting_for_welcome out).
Proof. done. Qed.

Lemma login_silent : code = bytes_of "300" →
  run_login (Server waiting_for_hello (Zap mechanism_new ss [])) =
  Some (Net (client_at c_waiting_for_welcome [hello u pw]) (server_at (Server error_sent refusing_zap) []) 0 1).
Proof.
  intros Hc. rewrite login_asks. unfold login_start. rewrite decided_ok. cbv zeta. fold refusing_zap.
  rewrite bool_decide_eq_false_2, bool_decide_eq_true_2 by (by rewrite Hc).
  erewrite acts_right by apply server_refused. rewrite acts_left_waits by done. erewrite acts_left by apply client_waits.
  rewrite acts_right_waits by done. do 2 erewrite acts_right by apply server_refused. by rewrite acts_left_waits.
Qed.

Lemma login_refused : code ≠ bytes_of "200" → code ≠ bytes_of "300" →
  run_login (Server waiting_for_hello (Zap mechanism_new ss [])) =
  Some (Net (Engine (Client c_error_command_received mechanism_new (emit (Failed_auth ((default 0 (head code) - 48) * 100)) cs))
               false [] None false false true [hello u pw])
            (server_at (Server error_sent refusing_zap) [error_prefix ++ 3 :: code]) 1 1).
Proof.
  intros H2 H3. rewrite login_asks. unfold login_start. rewrite decided_ok. cbv zeta. fold refusing_zap.
  rewrite !bool_decide_eq_false_2 by done.
  assert (Hl : length (status_code refusing_zap) = 3%nat) by (destruct (status_code_cases _ Hcode) as [d Hc]; cbn; by rewrite Hc).
  erewrite acts_right by (apply server_error, Hl). erewrite acts_left_receives by first [by apply client_error|done].
  erewrite acts_left by done. rewrite acts_right_waits by done. do 2 erewrite acts_right by apply server_refused.
  by rewrite acts_left_waits.
Qed.

(** C17. A login with the user name and the password of the client's options, the
    ZAP handler answering [code]: the handler is sent one request with exactly
    those credentials.  With 200 both engines become ready, each with exactly the
    properties its peer announced, and the server with the user id of the reply.
    With 400 or 500 the server answers with the error command (of which
    [error_prefix] has the bytes 5E 52 52 4F 52, not those of ERROR), which the
    client of this library understands: it fails with the event of that status.
    With 300 the server sends nothing and neither engine fails: the peer is not
    disconnected, although a comment in zap_client.cpp says that it should be.  In
    the last two cases neither is ready, and the server reports the failure. *)
Theorem plain_login p0 : plain_server_new so ss = Some p0 →
  ∃ n, run_login p0 = Some n ∧ zap_out (sess (s_zap (mstate (right n)))) = request_parts senv ss u pw ∧
  let c := mstate (left n) in
  let s := mstate (right n) in
  if bool_decide (code = bytes_of "200") then
    msg_mode (left n) = true ∧ msg_mode (right n) = true ∧ errored (left n) = false ∧ errored (right n) = false ∧
    zmtp_properties (c_mech c) = list_to_map (props so) ∧ zmtp_properties (mech (s_zap s)) = list_to_map (props co) ∧
    peer_id (c_mech c) = (if has_identity so && recv_routing_id co then routing_id so else []) ∧
    peer_id (mech (s_zap s)) = (if has_identity co && recv_routing_id so then routing_id co else []) ∧
    user_id (mech (s_zap s)) = uid ∧ zap_properties (mech (s_zap s)) = {[ bytes_of "User-Id" := uid ]}
  else
    msg_mode (left n) = false ∧ msg_mode (right n) = false ∧ server_status s = Error ∧ c_mech c = mechanism_new ∧
    events (sess (s_zap s)) = events ss ++ [Failed_auth ((default 0 (head code) - 48) * 100)] ∧
    if bool_decide (code = bytes_of "300") then
      sent (right n) = [] ∧ client_status c = Handshaking ∧ errored (left n) = false ∧ errored (right n) = false
    else
      sent (right n) = [error_prefix ++ 3 :: code] ∧ client_status c = Error ∧ errored (left n) = true ∧
      events (c_sess c) = events cs ++ [Failed_auth ((default 0 (head code) - 48) * 100)].
Proof.
  unfold plain_server_new. destruct (zmq_assert _); [|done]. intros [= <-].
  destruct (bool_decide (code = bytes_of "200")) eqn:H2; [|destruct (bool_decide (code = bytes_of "300")) eqn:H3].
  - apply bool_decide_eq_true in H2. eexists. split; [by apply login_accepted|]. split; [done|].
    assert (Hfit' : fit so co = true) by (by rewrite fit_sym). cbn [left right mstate ready_engine c_mech s_zap mech].
    rewrite introduced_props by done. by split_and!.
  - apply bool_decide_eq_true in H3. eexists. split; [by apply login_silent|]. split; [done|]. by split_and!.
  - apply bool_decide_eq_false in H2, H3. eexists. split; [by apply login_refused|]. split; [done|]. by split_and!.
Qed.
End login.

(** ** Witness: a login that is refused. *)

Lemma plain_login_witness :
  valid ex_client ∧ valid ex_server ∧
  ∃ n, run_login (ex_env ex_client) (ex_env ex_server) (session_new None) (bytes_of "400") [] [] ex_start = Some n ∧
    client_status (mstate (left n)) = Error.
Proof.
  assert (H1 : valid ex_client) by (split; [done|split; [by apply Nat.leb_le|constructor]]).
  assert (H2 : valid ex_server) by (split; [done|split; [by apply Nat.leb_le|constructor]]).
  split; [exact H1|]. split; [exact H2|].
  destruct (plain_login (ex_env ex_client) (ex_env ex_server) (session_new None) ex_session ZMQ_REP false (bytes_of "400") [] []
    H1 H2 ltac:(by apply Nat.leb_le) ltac:(by apply Nat.leb_le) ltac:(reflexivity) ltac:(reflexivity) ltac:(reflexivity) ltac:(reflexivity)
    ltac:(reflexivity) ltac:(reflexivity) ltac:(vm_compute; reflexivity) ex_start ltac:(reflexivity)) as (n & Hn & _ & Hc).
  exact (ex_intro _ n (conj Hn (proj1 (proj2 (proj2 (proj2 (proj2 (proj2 (proj2 Hc))))))))).
Defined.
End PlainLogin.
