(* ===== verification/Curve.v ===== *)
(** * The CURVE mechanism

    [curve_client_t] (src/curve_client.cpp, curve_client_tools.hpp) and
    [curve_server_t] (src/curve_server.cpp): the handshake that gives both a key
    for the connection, and [curve_mechanism_base_t]
    (src/curve_mechanism_base.cpp), which encrypts the messages with it.

    The cryptographic functions are those of NaCl (libsodium or TweetNaCl, as the
    library is built), a parameter of the model: [Crypto] has the functions the
    code calls, with the padding of their C interface, and [CryptoLaws] what their
    documentation says of them.  The random bytes and what memory holds before it
    is written are parameters too. *)

From Stdlib Require Import String.
From S2P Require Import Prelude Wire Msg SubMsg Mechanism Zap Handshake.
Import SubMsg Mechanism Zap Handshake.
#[local] Open Scope Z_scope.

Module Curve.

(** ** NaCl *)

(** The functions: [None] is a result other than 0.  A plaintext begins with
    [crypto_box_ZEROBYTES] zeros, a ciphertext, of the same length, with
    [crypto_box_BOXZEROBYTES]. *)
Class Crypto := {
  crypto_box_beforenm (pk sk : list Z) : option (list Z);
  crypto_box_afternm (m n k : list Z) : option (list Z);
  crypto_box_open_afternm (c n k : list Z) : option (list Z);
  crypto_box (m n pk sk : list Z) : option (list Z);
  crypto_box_open (c n pk sk : list Z) : option (list Z);
  crypto_secretbox (m n k : list Z) : option (list Z);
  crypto_secretbox_open (c n k : list Z) : option (list Z);
  public_of (sk : list Z) : list Z  (* the public key of a pair *) }.

Definition crypto_box_ZEROBYTES : nat := 32.
Definition crypto_box_BOXZEROBYTES : nat := 16.
Definition zeros (n : nat) : list Z := replicate n 0.

(** What the documentation of NaCl says: a box is opened by the key that the other
    secret key gives; boxes are made and opened by a shared key in the same way; what
    is opened was made with that key. *)
Class CryptoLaws (C : Crypto) := {
  beforenm_pair a b : length a = 32%nat → length b = 32%nat →
    ∃ k, crypto_box_beforenm (public_of a) b = Some k ∧ crypto_box_beforenm (public_of b) a = Some k;
  afternm_ok m n k : ∃ c, crypto_box_afternm (zeros 32 ++ m) n k = Some c ∧ length c = (32 + length m)%nat ∧ take 16 c = zeros 16 ∧
    crypto_box_open_afternm c n k = Some (zeros 32 ++ m);
  open_afternm_made c n k m : take 16 c = zeros 16 → crypto_box_open_afternm c n k = Some m →
    crypto_box_afternm m n k = Some c ∧ length m = length c ∧ take 32 m = zeros 32;
  box_afternm m n pk sk : crypto_box m n pk sk = k ← crypto_box_beforenm pk sk; crypto_box_afternm m n k;
  box_open_afternm c n pk sk : crypto_box_open c n pk sk = k ← crypto_box_beforenm pk sk; crypto_box_open_afternm c n k;
  secretbox_ok m n k : ∃ c, crypto_secretbox (zeros 32 ++ m) n k = Some c ∧ length c = (32 + length m)%nat ∧ take 16 c = zeros 16 ∧
    crypto_secretbox_open c n k = Some (zeros 32 ++ m);
  secretbox_open_made c n k m : take 16 c = zeros 16 → crypto_secretbox_open c n k = Some m →
    crypto_secretbox m n k = Some c ∧ length m = length c ∧ take 32 m = zeros 32;
  public_length sk : length sk = 32%nat → length (public_of sk) = 32%nat }.

(** [memcpy] of [size] bytes from offset [off] of [src], and of [src] into a buffer of
    [capacity] bytes. *)
Definition copy (off size : nat) (src : list Z) : option (list Z) :=
  _ ← zmq_assert (off + size <=? length src)%nat; Some (take size (drop off src)).

Definition fits_in (capacity : nat) (src : list Z) : option unit := zmq_assert (length src <=? capacity)%nat.

(** A nonce of 24 bytes: a prefix and the rest. *)
Definition nonce (prefix : string) (rest : list Z) : list Z := bytes_of prefix ++ rest.

(** ** Messages: [curve_mechanism_base_t] *)

Record curve_base := Base { cn_nonce : Z; cn_peer_nonce : Z; cn_precom : list Z }.

(** [cn_precom] is not initialised. *)
Definition base_new (junk : list Z) : curve_base := Base 1 1 junk.

Definition message_prefix : list Z := 7 :: bytes_of "MESSAGE".

Section base.
Context `{Crypto}.

Definition message_flags (m : part) : Z :=
  Z.lor (if Z.land (p_flags m) Msg.more =? 0 then 0 else 1) (if Z.land (p_flags m) Msg.command =? 0 then 0 else 2).

Definition encode (encode_nonce_prefix : string) (m : part) (b : curve_base) : option (part * curve_base) :=
  let short := put_uint64 (cn_nonce b) in
  let message_plaintext := zeros crypto_box_ZEROBYTES ++ message_flags m :: p_data m in
  message_box ← crypto_box_afternm message_plaintext (nonce encode_nonce_prefix short) (cn_precom b);
  body ← copy crypto_box_BOXZEROBYTES (length message_plaintext - crypto_box_BOXZEROBYTES) message_box;
  Some (Part (message_prefix ++ short ++ body) 0 None, Base (u64 (cn_nonce b + 1)) (cn_peer_nonce b) (cn_precom b)).

Definition fail_decode (e : protocol_error) (b : curve_base) (s : session) : option (rc * option part * curve_base * session) :=
  Some (RcErr EPROTO, None, b, emit (Failed_protocol e) s).

(** The flags of the decrypted message. *)
Definition decoded_flags (flags : Z) : Z :=
  Z.lor (if Z.land flags 1 =? 0 then 0 else Msg.more) (if Z.land flags 2 =? 0 then 0 else Msg.command).

Definition decode (decode_nonce_prefix : string) (m : part) (b : curve_base) (s : session) : option (rc * option part * curve_base * session) :=
  let message := p_data m in
  let '(r, s) := check_basic_command_structure message s in
  if negb (bool_decide (r = RcOk)) then Some (r, None, b, s)
  else if negb (has_prefix message_prefix message) then fail_decode Zmtp_unexpected_command b s
  else if (length message <? 33)%nat then fail_decode Zmtp_malformed_message b s
  else
    short ← copy 8 8 message;
    n ← get_uint64 short;
    if n <=? cn_peer_nonce b then fail_decode Zmtp_invalid_sequence b s
    else
      let b := Base (cn_nonce b) n (cn_precom b) in
      body ← copy 16 (length message - 16) message;
      match crypto_box_open_afternm (zeros crypto_box_BOXZEROBYTES ++ body) (nonce decode_nonce_prefix short) (cn_precom b) with
      | None => fail_decode Zmtp_cryptographic b s
      | Some message_plaintext =>
          flags ← message_plaintext !! crypto_box_ZEROBYTES;
          data ← copy (crypto_box_ZEROBYTES + 1) (length message - 33) message_plaintext;
          Some (RcOk, Some (Part data (decoded_flags flags) None), b, s)
      end.
End base.

(** ** The client *)

Inductive client_state := send_hello | expect_welcome | send_initiate | expect_ready | error_received | connected.

#[export] Instance client_state_eq_dec : EqDecision client_state.
Proof. solve_decision. Defined.

(** The keys: C, c, S and the short-term pair C', c'. *)
Record client_keys := ClientKeys {
  public_key : list Z; secret_key : list Z; server_key : list Z; cn_public : list Z; cn_secret : list Z }.

(** [c_drawn] counts the calls of [randombytes]. *)
Record curve_client := Client {
  c_state : client_state; c_mech : mechanism; c_sess : session; c_base : curve_base;
  cn_server : list Z; cn_cookie : list Z; c_drawn : nat }.

(** What memory holds for [cn_precom], [cn_server] and [cn_cookie]. *)
Definition curve_client_new (s : session) (precom0 server0 cookie0 : list Z) : curve_client :=
  Client send_hello mechanism_new s (base_new precom0) server0 cookie0 0.

Definition set_c_state (st : client_state) (c : curve_client) : curve_client :=
  Client st (c_mech c) (c_sess c) (c_base c) (cn_server c) (cn_cookie c) (c_drawn c).
Definition client_event (e : event) (c : curve_client) : curve_client :=
  Client (c_state c) (c_mech c) (emit e (c_sess c)) (c_base c) (cn_server c) (cn_cookie c) (c_drawn c).
Definition fail_client (e : protocol_error) (c : curve_client) : rc * curve_client :=
  (RcErr EPROTO, client_event (Failed_protocol e) c).
Definition next_nonce (b : curve_base) : curve_base := Base (u64 (cn_nonce b + 1)) (cn_peer_nonce b) (cn_precom b).

Definition hello_prefix : list Z := 5 :: bytes_of "HELLO".
Definition welcome_prefix : list Z := 7 :: bytes_of "WELCOME".
Definition initiate_prefix : list Z := 8 :: bytes_of "INITIATE".
Definition ready_prefix : list Z := 5 :: bytes_of "READY".
Definition error_prefix : list Z := 5 :: bytes_of "ERROR".

Section client.
Context `{Crypto} (o : options) (keys : client_keys) (random : nat → nat → list Z).

(** [curve_client_tools_t::produce_hello] *)
Definition tools_produce_hello (n : Z) : option (list Z) :=
  let short := put_uint64 n in
  hello_box ← crypto_box (zeros (crypto_box_ZEROBYTES + 64)) (nonce "CurveZMQHELLO---" short) (server_key keys) (cn_secret keys);
  signature ← copy crypto_box_BOXZEROBYTES 80 hello_box;
  Some (hello_prefix ++ [1; 0] ++ zeros 72 ++ cn_public keys ++ short ++ signature).

(** [curve_client_tools_t::process_welcome]: S', the cookie and the shared key. *)
Definition tools_process_welcome (data : list Z) : option (option (list Z * list Z * list Z)) :=
  if negb (length data =? 168)%nat then Some None
  else
    body ← copy 24 144 data;
    random_part ← copy 8 16 data;
    match crypto_box_open (zeros crypto_box_BOXZEROBYTES ++ body) (nonce "WELCOME-" random_part) (server_key keys) (cn_secret keys) with
    | None => Some None
    | Some welcome_plaintext =>
        server ← copy crypto_box_ZEROBYTES 32 welcome_plaintext;
        cookie ← copy (crypto_box_ZEROBYTES + 32) 96 welcome_plaintext;
        precom ← crypto_box_beforenm server (cn_secret keys);
        Some (Some (server, cookie, precom))
    end.

(** [curve_client_tools_t::produce_initiate]; [None]: a box could not be made. *)
Definition tools_produce_initiate (n : Z) (server cookie vouch_random metadata_plaintext : list Z) : option (list Z) :=
  let short := put_uint64 n in
  vouch_box ← crypto_box (zeros crypto_box_ZEROBYTES ++ cn_public keys ++ server_key keys) (nonce "VOUCH---" vouch_random) server (secret_key keys);
  vouch ← copy crypto_box_BOXZEROBYTES 80 vouch_box;
  initiate_box ← crypto_box (zeros crypto_box_ZEROBYTES ++ public_key keys ++ vouch_random ++ vouch ++ metadata_plaintext)
    (nonce "CurveZMQINITIATE" short) server (cn_secret keys);
  body ← copy crypto_box_BOXZEROBYTES (128 + length metadata_plaintext + crypto_box_BOXZEROBYTES) initiate_box;
  Some (initiate_prefix ++ cookie ++ short ++ body).

(** A failed box leaves the error of some earlier call in [errno]. *)
Definition produce_hello (c : curve_client) : option (rc * option (list Z) * curve_client) :=
  match tools_produce_hello (cn_nonce (c_base c)) with
  | None => Some (RcErr EPROTO, None, client_event (Failed_protocol Zmtp_cryptographic) c)
  | Some hello =>
      Some (RcOk, Some hello, Client (c_state c) (c_mech c) (c_sess c) (next_nonce (c_base c)) (cn_server c) (cn_cookie c) (c_drawn c))
  end.

Definition produce_initiate (c : curve_client) : option (rc * option (list Z) * curve_client) :=
  metadata_length ← basic_properties_len o;
  metadata_plaintext ← add_basic_properties metadata_length o;
  let vouch_random := random (c_drawn c) 16 in
  let c := Client (c_state c) (c_mech c) (c_sess c) (c_base c) (cn_server c) (cn_cookie c) (S (c_drawn c)) in
  match tools_produce_initiate (cn_nonce (c_base c)) (cn_server c) (cn_cookie c) vouch_random metadata_plaintext with
  | None => Some (RcErr EPROTO, None, client_event (Failed_protocol Zmtp_cryptographic) c)
  | Some initiate =>
      Some (RcOk, Some initiate, Client (c_state c) (c_mech c) (c_sess c) (next_nonce (c_base c)) (cn_server c) (cn_cookie c) (c_drawn c))
  end.

Definition client_next (c : curve_client) : option (rc * option (list Z) * curve_client) :=
  match c_state c with
  | send_hello =>
      '(r, x, c) ← produce_hello c; Some (r, x, if bool_decide (r = RcOk) then set_c_state expect_welcome c else c)
  | send_initiate =>
      '(r, x, c) ← produce_initiate c; Some (r, x, if bool_decide (r = RcOk) then set_c_state expect_ready c else c)
  | _ => Some (RcErr EAGAIN, None, c)
  end.

Definition process_welcome (data : list Z) (c : curve_client) : option (rc * curve_client) :=
  w ← tools_process_welcome data;
  match w with
  | None => Some (fail_client Zmtp_cryptographic c)
  | Some (server, cookie, precom) =>
      Some (RcOk, Client send_initiate (c_mech c) (c_sess c) (Base (cn_nonce (c_base c)) (cn_peer_nonce (c_base c)) precom) server cookie (c_drawn c))
  end.

Definition process_ready (data : list Z) (c : curve_client) : option (rc * curve_client) :=
  if (length data <? 30)%nat then Some (fail_client Zmtp_malformed_ready c)
  else
    body ← copy 14 (length data - 14) data;
    short ← copy 6 8 data;
    n ← get_uint64 short;
    let c := Client (c_state c) (c_mech c) (c_sess c) (Base (cn_nonce (c_base c)) n (cn_precom (c_base c))) (cn_server c) (cn_cookie c) (c_drawn c) in
    match crypto_box_open_afternm (zeros crypto_box_BOXZEROBYTES ++ body) (nonce "CurveZMQREADY---" short) (cn_precom (c_base c)) with
    | None => Some (fail_client Zmtp_cryptographic c)
    | Some ready_plaintext =>
        '(r, m) ← parse_metadata o false (drop crypto_box_ZEROBYTES ready_plaintext) (c_mech c);
        let c := Client (c_state c) m (c_sess c) (c_base c) (cn_server c) (cn_cookie c) (c_drawn c) in
        Some (if bool_decide (r = RcOk) then (RcOk, set_c_state connected c) else fail_client Zmtp_invalid_metadata c)
    end.

Definition process_error (data : list Z) (c : curve_client) : rc * curve_client :=
  match c_state c with
  | expect_welcome | expect_ready =>
      match error_reason (length error_prefix) data with
      | None => fail_client Zmtp_malformed_error c
      | Some reason =>
          (RcOk, Client error_received (c_mech c) (handle_error_reason reason (c_sess c)) (c_base c) (cn_server c) (cn_cookie c) (c_drawn c))
      end
  | _ => fail_client Zmtp_unexpected_command c
  end.

(** The commands are taken in every state. *)
Definition client_process (data : list Z) (c : curve_client) : option (rc * curve_client) :=
  if has_prefix welcome_prefix data then process_welcome data c
  else if has_prefix ready_prefix data then process_ready data c
  else if has_prefix error_prefix data then Some (process_error data c)
  else Some (fail_client Zmtp_unexpected_command c).

Definition client_status (c : curve_client) : status_t :=
  match c_state c with connected => Ready | error_received => Error | _ => Handshaking end.

Definition client_mechanism : Mechanism_t curve_client := {|
  m_next := client_next;
  m_process := client_process;
  m_zap_msg_available c := Some (RcOk, c);
  m_status := client_status;
  mech_of := c_mech;
  sess_of := c_sess;
  with_session s c := Client (c_state c) (c_mech c) s (c_base c) (cn_server c) (cn_cookie c) (c_drawn c) |}.

Definition set_c_base (b : curve_base) (s : session) (c : curve_client) : curve_client :=
  Client (c_state c) (c_mech c) s b (cn_server c) (cn_cookie c) (c_drawn c).

Definition client_encode (m : part) (c : curve_client) : option (part * curve_client) :=
  _ ← zmq_assert (bool_decide (c_state c = connected));
  '(m, b) ← encode "CurveZMQMESSAGEC" m (c_base c); Some (m, set_c_base b (c_sess c) c).

Definition client_decode (m : part) (c : curve_client) : option (rc * option part * curve_client) :=
  _ ← zmq_assert (bool_decide (c_state c = connected));
  '(r, m, b, s) ← decode "CurveZMQMESSAGES" m (c_base c) (c_sess c); Some (r, m, set_c_base b s c).
End client.

(** ** The server *)

(** The states of [zap_client_common_handshake_t]. *)
Inductive state_t :=
| waiting_for_hello | sending_welcome | waiting_for_initiate | waiting_for_zap_reply | sending_ready | sending_error
| error_sent | ready.

#[export] Instance state_eq_dec : EqDecision state_t.
Proof. solve_decision. Defined.

(** The keys: s and the short-term pair S', s'. *)
Record server_keys := ServerKeys { s_secret_key : list Z; s_cn_public : list Z; s_cn_secret : list Z }.

Record curve_server := Server {
  state : state_t; s_zap : zap; s_base : curve_base; cn_client : list Z; cookie_key : list Z; s_drawn : nat }.

Definition set_state (st : state_t) (p : curve_server) : curve_server := Server st (s_zap p) (s_base p) (cn_client p) (cookie_key p) (s_drawn p).
Definition set_zap (z : zap) (p : curve_server) : curve_server := Server (state p) z (s_base p) (cn_client p) (cookie_key p) (s_drawn p).
Definition set_s_base (b : curve_base) (p : curve_server) : curve_server := Server (state p) (s_zap p) b (cn_client p) (cookie_key p) (s_drawn p).

(** The constructor, with what memory holds for [cn_precom], [_cn_client] and
    [_cookie_key]. *)
Definition curve_server_new (s : session) (precom0 client0 cookie_key0 : list Z) : curve_server :=
  Server waiting_for_hello (Zap mechanism_new s []) (base_new precom0) client0 cookie_key0 0.

Definition server_event (e : event) (p : curve_server) : curve_server := set_zap (with_event e (s_zap p)) p.
Definition fail_server (e : protocol_error) (p : curve_server) : rc * curve_server := (RcErr EPROTO, server_event (Failed_protocol e) p).
Definition check_structure (data : list Z) (p : curve_server) : rc * curve_server :=
  let '(r, s) := check_basic_command_structure data (sess (s_zap p)) in (r, set_zap (set_sess s (s_zap p)) p).

Section server.
Context `{Crypto} (o : options) (peer_address : list Z) (keys : server_keys) (random : nat → nat → list Z).

(** [zap_client_common_handshake_t]; [_zap_reply_ok_state] is [sending_ready]. *)
Definition handle_zap_status_code (p : curve_server) : curve_server :=
  let z := Zap.handle_zap_status_code (s_zap p) in
  set_zap z (set_state (match status_code z with
                        | c :: _ => if c =? 50 then sending_ready else if c =? 51 then error_sent else sending_error
                        | [] => sending_error
                        end) p).

Definition receive_and_process_zap_reply (p : curve_server) : option (zap_rc * curve_server) :=
  _ ← zmq_assert (bool_decide (state p = waiting_for_zap_reply));
  '(r, z) ← receive_reply o (s_zap p);
  let p := set_zap z p in
  Some (r, if bool_decide (r = ZapDone) then handle_zap_status_code p else p).

Definition zap_result (r : zap_rc) : rc := match r with ZapError e => RcErr e | _ => RcOk end.

Definition zap_msg_available (p : curve_server) : option (rc * curve_server) :=
  _ ← zmq_assert (bool_decide (state p = waiting_for_zap_reply));
  '(r, p) ← receive_and_process_zap_reply p;
  Some (zap_result r, p).

Definition send_zap_request (key : list Z) (z : zap) : option zap :=
  Zap.send_zap_request o peer_address (bytes_of "CURVE") [key] z.

Definition process_hello (data : list Z) (p : curve_server) : option (rc * curve_server) :=
  let '(r, p) := check_structure data p in
  if negb (bool_decide (r = RcOk)) then Some (r, p)
  else if negb (has_prefix hello_prefix data) then Some (fail_server Zmtp_unexpected_command p)
  else if negb (length data =? 200)%nat then Some (fail_server Zmtp_malformed_hello p)
  else if negb (bool_decide (take 2 (drop 6 data) = [1; 0])) then Some (fail_server Zmtp_malformed_hello p)
  else
    client ← copy 80 32 data;
    short ← copy 112 8 data;
    n ← get_uint64 short;
    signature ← copy 120 80 data;
    let p := Server (state p) (s_zap p) (Base (cn_nonce (s_base p)) n (cn_precom (s_base p))) client (cookie_key p) (s_drawn p) in
    match crypto_box_open (zeros crypto_box_BOXZEROBYTES ++ signature) (nonce "CurveZMQHELLO---" short) client (s_secret_key keys) with
    | None => Some (fail_server Zmtp_cryptographic p)
    | Some _ => Some (RcOk, set_state sending_welcome p)
    end.

(** [randombytes]: the nonce of the cookie, the key of the cookie, the nonce of the
    box.  The cookie key is assigned even if the box then fails. *)
Definition produce_welcome (p : curve_server) : option (rc * option (list Z) * curve_server) :=
  let cookie_random := random (s_drawn p) 16 in
  let key := random (S (s_drawn p)) 32 in
  let welcome_random := random (S (S (s_drawn p))) 16 in
  let p := Server (state p) (s_zap p) (s_base p) (cn_client p) key (S (S (S (s_drawn p)))) in
  cookie_ciphertext ← crypto_secretbox (zeros crypto_box_ZEROBYTES ++ cn_client p ++ s_cn_secret keys) (nonce "COOKIE--" cookie_random) key;
  cookie ← copy crypto_box_BOXZEROBYTES 80 cookie_ciphertext;
  match crypto_box (zeros crypto_box_ZEROBYTES ++ s_cn_public keys ++ cookie_random ++ cookie) (nonce "WELCOME-" welcome_random) (cn_client p) (s_secret_key keys) with
  | None => Some (RcErr EPROTO, None, p)
  | Some welcome_ciphertext =>
      body ← copy crypto_box_BOXZEROBYTES 144 welcome_ciphertext;
      Some (RcOk, Some (welcome_prefix ++ welcome_random ++ body), p)
  end.

(** The client is authenticated by the ZAP handler, if there is one. *)
Definition authenticate (client_key : list Z) (p : curve_server) : option (rc * curve_server) :=
  if zap_required o || negb (zap_enforce_domain o) then
    '(r, s) ← zap_connect (sess (s_zap p));
    let p := set_zap (set_sess s (s_zap p)) p in
    if bool_decide (r = RcOk) then
      z ← send_zap_request client_key (s_zap p);
      '(r, p) ← receive_and_process_zap_reply (set_zap z (set_state waiting_for_zap_reply p));
      Some (zap_result r, p)
    else if negb (zap_enforce_domain o) then Some (RcOk, set_state sending_ready p)
    else Some (r, server_event (Failed_no_detail EFAULT) p)
  else Some (RcOk, set_state sending_ready p).

(** The cookie: [Some false] is one that was not made for this client. *)
Definition open_cookie (initiate : list Z) (p : curve_server) : option (option bool) :=
  cookie ← copy 25 80 initiate;
  cookie_random ← copy 9 16 initiate;
  match crypto_secretbox_open (zeros crypto_box_BOXZEROBYTES ++ cookie) (nonce "COOKIE--" cookie_random) (cookie_key p) with
  | None => Some None
  | Some cookie_plaintext =>
      client ← copy crypto_box_ZEROBYTES 32 cookie_plaintext;
      secret ← copy (crypto_box_ZEROBYTES + 32) 32 cookie_plaintext;
      Some (Some (bool_decide (client = cn_client p) && bool_decide (secret = s_cn_secret keys)))
  end.

(** The box in INITIATE is copied to an array of 16 + 144 + 256 bytes on the stack, and
    opened into another of as many. *)
Definition initiate_box_size : nat := crypto_box_BOXZEROBYTES + 144 + 256.

Definition open_initiate (initiate : list Z) (p : curve_server) : option (option (list Z)) :=
  body ← copy 113 (length initiate - 113) initiate;
  let initiate_box := zeros crypto_box_BOXZEROBYTES ++ body in
  _ ← fits_in initiate_box_size initiate_box;
  short ← copy 105 8 initiate;
  Some (crypto_box_open initiate_box (nonce "CurveZMQINITIATE" short) (cn_client p) (s_cn_secret keys)).

(** The vouch, made with the client's key for its short-term key. *)
Definition open_vouch (client_key initiate_plaintext : list Z) : option (option (list Z)) :=
  vouch ← copy (crypto_box_ZEROBYTES + 48) 80 initiate_plaintext;
  vouch_random ← copy (crypto_box_ZEROBYTES + 32) 16 initiate_plaintext;
  Some (crypto_box_open (zeros crypto_box_BOXZEROBYTES ++ vouch) (nonce "VOUCH---" vouch_random) client_key (s_cn_secret keys)).

(** From the opening of the box on. *)
Definition process_initiate_box (initiate : list Z) (p : curve_server) : option (rc * curve_server) :=
  short ← copy 105 8 initiate;
  n ← get_uint64 short;
  initiate_plaintext ← open_initiate initiate p;
  let p := set_s_base (Base (cn_nonce (s_base p)) n (cn_precom (s_base p))) p in
  match initiate_plaintext with
  | None => Some (fail_server Zmtp_cryptographic p)
  | Some initiate_plaintext =>
      client_key ← copy crypto_box_ZEROBYTES 32 initiate_plaintext;
      vouch_plaintext ← open_vouch client_key initiate_plaintext;
      match vouch_plaintext with
      | None => Some (fail_server Zmtp_cryptographic p)
      | Some vouch_plaintext =>
          client ← copy crypto_box_ZEROBYTES 32 vouch_plaintext;
          if negb (bool_decide (client = cn_client p)) then Some (fail_server Zmtp_key_exchange p)
          else
            precom ← crypto_box_beforenm (cn_client p) (s_cn_secret keys);
            '(r, p) ← authenticate client_key (set_s_base (Base (cn_nonce (s_base p)) n precom) p);
            if negb (bool_decide (r = RcOk)) then Some (r, p)
            else
              '(r, m) ← parse_metadata o false (drop (crypto_box_ZEROBYTES + 128) initiate_plaintext) (mech (s_zap p));
              Some (r, set_zap (Zap m (sess (s_zap p)) (status_code (s_zap p))) p)
      end
  end.

Definition process_initiate (data : list Z) (p : curve_server) : option (rc * curve_server) :=
  let '(r, p) := check_structure data p in
  if negb (bool_decide (r = RcOk)) then Some (r, p)
  else if negb (has_prefix initiate_prefix data) then Some (fail_server Zmtp_unexpected_command p)
  else if (length data <? 257)%nat then Some (fail_server Zmtp_malformed_initiate p)
  else
    cookie ← open_cookie data p;
    match cookie with
    | Some true => process_initiate_box data p
    | _ => Some (fail_server Zmtp_cryptographic p)
    end.

Definition produce_ready (p : curve_server) : option (rc * option (list Z) * curve_server) :=
  metadata_length ← basic_properties_len o;
  metadata_plaintext ← add_basic_properties metadata_length o;
  let short := put_uint64 (cn_nonce (s_base p)) in
  ready_box ← crypto_box_afternm (zeros crypto_box_ZEROBYTES ++ metadata_plaintext) (nonce "CurveZMQREADY---" short) (cn_precom (s_base p));
  body ← copy crypto_box_BOXZEROBYTES (16 + length metadata_plaintext) ready_box;
  Some (RcOk, Some (ready_prefix ++ short ++ body), set_s_base (next_nonce (s_base p)) p).

Definition produce_error (p : curve_server) : option (list Z) :=
  let status := status_code (s_zap p) in
  _ ← zmq_assert (length status =? 3)%nat; Some (error_prefix ++ 3 :: status).

Definition server_next (p : curve_server) : option (rc * option (list Z) * curve_server) :=
  match state p with
  | sending_welcome =>
      '(r, x, p) ← produce_welcome p; Some (r, x, if bool_decide (r = RcOk) then set_state waiting_for_initiate p else p)
  | sending_ready => '(r, x, p) ← produce_ready p; Some (r, x, set_state ready p)
  | sending_error => x ← produce_error p; Some (RcOk, Some x, set_state error_sent p)
  | _ => Some (RcErr EAGAIN, None, p)
  end.

Definition server_process (data : list Z) (p : curve_server) : option (rc * curve_server) :=
  match state p with
  | waiting_for_hello => process_hello data p
  | waiting_for_initiate => process_initiate data p
  | _ => Some (fail_server Zmtp_unspecified p)
  end.

Definition server_status (p : curve_server) : status_t :=
  match state p with ready => Ready | error_sent => Error | _ => Handshaking end.

Definition server_mechanism : Mechanism_t curve_server := {|
  m_next := server_next;
  m_process := server_process;
  m_zap_msg_available := zap_msg_available;
  m_status := server_status;
  mech_of p := mech (s_zap p);
  sess_of p := sess (s_zap p);
  with_session s p := set_zap (set_sess s (s_zap p)) p |}.

Definition server_encode (m : part) (p : curve_server) : option (part * curve_server) :=
  _ ← zmq_assert (bool_decide (state p = ready));
  '(m, b) ← encode "CurveZMQMESSAGES" m (s_base p); Some (m, set_s_base b p).

Definition server_decode (m : part) (p : curve_server) : option (rc * option part * curve_server) :=
  _ ← zmq_assert (bool_decide (state p = ready));
  '(r, m, b, s) ← decode "CurveZMQMESSAGEC" m (s_base p) (sess (s_zap p));
  Some (r, m, set_zap (set_sess s (s_zap p)) (set_s_base b p)).
End server.

End Curve.
