(* ===== verification/CurveExample.v ===== *)
(** * The CURVE mechanism: concrete functions

    An instance of [Crypto] that keeps [CryptoLaws], to evaluate the model on concrete
    inputs: a shared key is the sum of two keys, a box its plaintext with a checksum of
    the key, the nonce and the plaintext.  (It hides nothing: the laws do not say that a
    box does.) *)

From S2P Require Import Prelude Curve.
Import Curve.
#[local] Open Scope Z_scope.

Module CurveExample.

Definition pad (l : list Z) : list Z := take 32 (l ++ zeros 32).

Definition ex_mac (k n m : list Z) : list Z := replicate 16 (foldr Z.add 0 (k ++ n ++ m) mod 256).

Definition ex_beforenm (pk sk : list Z) : option (list Z) := Some (zip_with (λ x y, (x + y) mod 256) (pad pk) (pad sk)).

Definition ex_box (m n k : list Z) : option (list Z) :=
  if bool_decide (take 32 m = zeros 32) then Some (zeros 16 ++ ex_mac k n (drop 32 m) ++ drop 32 m) else None.

Definition ex_open (c n k : list Z) : option (list Z) :=
  if bool_decide (take 16 c = zeros 16) && bool_decide (take 16 (drop 16 c) = ex_mac k n (drop 32 c))
  then Some (zeros 32 ++ drop 32 c) else None.

#[export] Instance ex_crypto : Crypto := {|
  crypto_box_beforenm := ex_beforenm;
  crypto_box_afternm := ex_box;
  crypto_box_open_afternm := ex_open;
  crypto_box m n pk sk := k ← ex_beforenm pk sk; ex_box m n k;
  crypto_box_open c n pk sk := k ← ex_beforenm pk sk; ex_open c n k;
  crypto_secretbox := ex_box;
  crypto_secretbox_open := ex_open;
  public_of := pad |}.

Lemma pad_length l : length (pad l) = 32%nat.
Proof. unfold pad, zeros. rewrite length_take, length_app, length_replicate. lia. Qed.

Lemma pad_pad l : pad (pad l) = pad l.
Proof. unfold pad at 1. by rewrite take_app_le, take_ge by (rewrite pad_length; lia). Qed.

Lemma ex_box_ok m n k : ∃ c, ex_box (zeros 32 ++ m) n k = Some c ∧ length c = (32 + length m)%nat ∧ take 16 c = zeros 16 ∧
  ex_open c n k = Some (zeros 32 ++ m).
Proof.
  unfold ex_box. rewrite (take_app_length' (zeros 32)), (drop_app_length' (zeros 32)), bool_decide_eq_true_2 by done.
  eexists. split; [done|]. split; [by rewrite !length_app|]. split; [done|]. unfold ex_open.
  change (take 16 (zeros 16 ++ ex_mac k n m ++ m)) with (zeros 16).
  change (drop 32 (zeros 16 ++ ex_mac k n m ++ m)) with m.
  change (take 16 (drop 16 (zeros 16 ++ ex_mac k n m ++ m))) with (ex_mac k n m).
  by rewrite !bool_decide_eq_true_2.
Qed.

Lemma ex_open_made c n k m : take 16 c = zeros 16 → ex_open c n k = Some m →
  ex_box m n k = Some c ∧ length m = length c ∧ take 32 m = zeros 32.
Proof.
  intros Hz. unfold ex_open. destruct (bool_decide (take 16 c = zeros 16)) eqn:H1; [|done].
  destruct (bool_decide (take 16 (drop 16 c) = _)) eqn:H2; [|done]. apply bool_decide_eq_true in H2. intros [= <-].
  assert (Hc : c = zeros 16 ++ ex_mac k n (drop 32 c) ++ drop 32 c).
  { rewrite <- H2, <- Hz at 1. change 32%nat with (16 + 16)%nat. by rewrite <- (drop_drop c 16 16), take_drop, take_drop. }
  split; [|split; [|done]].
  - unfold ex_box. rewrite bool_decide_eq_true_2 by done. by rewrite Hc at 3.
  - rewrite Hc at 2. by rewrite !length_app.
Qed.

#[export] Instance ex_laws : CryptoLaws ex_crypto.
Proof.
  split; cbn.
  - intros a b _ _. eexists. unfold ex_beforenm. rewrite !pad_pad. split; [done|]. f_equal.
    rewrite <- zip_with_flip. by apply zip_with_ext; [intros; unfold flip; f_equal; lia|..].
  - apply ex_box_ok.
  - apply ex_open_made.
  - done.
  - done.
  - apply ex_box_ok.
  - apply ex_open_made.
  - intros. apply pad_length.
Qed.

End CurveExample.
