(* ===== verification/CurveMsg.v ===== *)
(** * The CURVE mechanism: messages

    What [curve_mechanism_base_t] (src/curve_mechanism_base.cpp) promises for the messages
    of a connection: what one side encodes the other decodes, and whatever is on the wire,
    what is decoded is a subsequence of what was encoded. *)

From Stdlib Require Import String.
From S2P Require Import Prelude Wire Msg SubMsg Mechanism Zap Curve CurveExample.
Import SubMsg Mechanism Zap Curve CurveExample.
#[local] Open Scope Z_scope.

Module CurveMsg.
#[local] Arguments bytes_of : simpl never.

(** ** Lemmas on buffers *)

Lemma copy_ok off size src : (off + size ≤ length src)%nat → copy off size src = Some (take size (drop off src)).
Proof. intros H. unfold copy. by rewrite (proj2 (Nat.leb_le _ _) H). Qed.

Lemma copy_Some off size src x : copy off size src = Some x → (off + size ≤ length src)%nat ∧ x = take size (drop off src).
Proof. unfold copy. destruct (_ <=? _)%nat eqn:H; [|done]. apply Nat.leb_le in H. by intros [= <-]. Qed.

Lemma copy_length off size src x : copy off size src = Some x → length x = size.
Proof. intros [H ->]%copy_Some. rewrite length_take, length_drop. lia. Qed.

(** The field of [size] bytes after [pre]. *)
Lemma copy_app pre x post off size : off = length pre → size = length x → copy off size (pre ++ x ++ post) = Some x.
Proof.
  intros -> ->. rewrite copy_ok by (rewrite !length_app; lia). by rewrite drop_app_length, take_app_length.
Qed.

Lemma zeros_length n : length (zeros n) = n.
Proof. apply length_replicate. Qed.

(** The body of a box, and the box again. *)
Lemma unpad_box c : take 16 c = zeros 16 → zeros 16 ++ drop 16 c = c.
Proof. intros <-. apply take_drop. Qed.

Lemma take_zeros16 x : take 16 (zeros 16 ++ x) = zeros 16.
Proof. done. Qed.

Lemma length_put_uint64 v : length (put_uint64 v) = 8%nat.
Proof. done. Qed.

(** Eight bytes are the number they encode. *)
Lemma uint64_bytes l : bytes_ok l → length l = 8%nat → ∃ v, 0 ≤ v < 2 ^ 64 ∧ l = put_uint64 v.
Proof.
  intros Hb Hl. destruct l as [|b0 [|b1 [|b2 [|b3 [|b4 [|b5 [|b6 [|b7 [|? ?]]]]]]]]]; try done.
  exists (be_value [b0; b1; b2; b3; b4; b5; b6; b7]). split; [by apply (be_value_range [b0; b1; b2; b3; b4; b5; b6; b7])|].
  do 8 (apply Forall_cons in Hb as [? Hb]). unfold be_value, put_uint64, byte_ok in *. cbn [fold_left].
  rewrite !byte_of_div, !land_255 by lia. repeat f_equal; Z.div_mod_to_equations; lia.
Qed.

Lemma put_uint64_inj a b : 0 ≤ a < 2 ^ 64 → 0 ≤ b < 2 ^ 64 → put_uint64 a = put_uint64 b → a = b.
Proof. intros Ha Hb Heq. rewrite <- (put_uint64_be a), <- (put_uint64_be b) by done. by rewrite Heq. Qed.

(** ** One message *)

(** The commands, and what the peer gets of a message: its data, and the flags [more] and
    [command]. *)
Definition message (n : Z) (body : list Z) : list Z := message_prefix ++ put_uint64 n ++ body.
Definition carried (m : part) : part := Part (p_data m) (Z.land (p_flags m) (Z.lor Msg.more Msg.command)) None.

Lemma decoded_message_flags m : decoded_flags (message_flags m) = Z.land (p_flags m) (Z.lor Msg.more Msg.command).
Proof.
  unfold decoded_flags, message_flags, Msg.more, Msg.command. set (f := p_flags m).
  assert (Hb : ∀ i, 0 ≤ i → Z.land f (2 ^ i) = if Z.testbit f i then 2 ^ i else 0).
  { intros i Hi. apply Z.bits_inj'. intros j Hj. rewrite Z.land_spec. destruct (decide (j = i)) as [->|Hne].
    - rewrite Z.pow2_bits_true by done. destruct (Z.testbit f i); [by rewrite Z.pow2_bits_true|by rewrite Z.testbit_0_l].
    - rewrite Z.pow2_bits_false, andb_false_r by done. destruct (Z.testbit f i); [by rewrite Z.pow2_bits_false|by rewrite Z.testbit_0_l]. }
  rewrite Z.land_lor_distr_r. change (Z.land f 1) with (Z.land f (2 ^ 0)). change (Z.land f 2) with (Z.land f (2 ^ 1)).
  rewrite (Hb 0), (Hb 1) by done. by destruct (Z.testbit f 0), (Z.testbit f 1).
Qed.

(** ** Sequences *)

Section sequences.
Context `{Crypto}.

(** The messages one side sends, and what the calls of [decode] with the messages received
    give; those that fail change what [decode] changes. *)
Fixpoint encode_all (pre : string) (ms : list part) (b : curve_base) : option (list part * curve_base) :=
  match ms with
  | [] => Some ([], b)
  | m :: ms => '(x, b) ← encode pre m b; '(xs, b) ← encode_all pre ms b; Some (x :: xs, b)
  end.

Fixpoint decode_all (pre : string) (ms : list part) (b : curve_base) (s : session) : option (list part * curve_base * session) :=
  match ms with
  | [] => Some ([], b, s)
  | m :: ms =>
      '(r, x, b, s) ← decode pre m b s;
      '(xs, b, s) ← decode_all pre ms b s;
      Some (from_option (λ x, x :: xs) xs x, b, s)
  end.

(** Who does not have the key can make no box: a message received that opens has the
    nonce and the box of one of those sent. *)
Definition opens (pre : string) (k data : list Z) : bool :=
  match crypto_box_open_afternm (zeros 16 ++ drop 16 data) (nonce pre (take 8 (drop 8 data))) k with Some _ => true | None => false end.

Definition unforged (pre : string) (k : list Z) (sent received : list part) : Prop :=
  ∀ x, x ∈ received → opens pre k (p_data x) = true → ∃ y, y ∈ sent ∧ drop 8 (p_data y) = drop 8 (p_data x).
End sequences.

Section messages.
Context {C : Crypto} {HL : CryptoLaws C}.

(** What a message is sealed to. *)
Lemma encode_ok pre m b : ∃ box, encode pre m b = Some (Part (message (cn_nonce b) (drop 16 box)) 0 None, next_nonce b) ∧
  take 16 box = zeros 16 ∧ length box = (33 + length (p_data m))%nat ∧
  crypto_box_open_afternm box (nonce pre (put_uint64 (cn_nonce b))) (cn_precom b) = Some (zeros 32 ++ message_flags m :: p_data m).
Proof.
  destruct (afternm_ok (message_flags m :: p_data m) (nonce pre (put_uint64 (cn_nonce b))) (cn_precom b)) as (box & Hb & Hl & Hz & Ho).
  exists box. split; [|split; [done|split; [cbn in Hl; lia|done]]].
  unfold encode. unfold crypto_box_ZEROBYTES. rewrite Hb. cbn [mbind option_bind].
  rewrite copy_ok by (rewrite Hl, length_app, zeros_length; unfold crypto_box_BOXZEROBYTES; lia). cbn [mbind option_bind].
  unfold crypto_box_BOXZEROBYTES. rewrite take_ge; [done|]. rewrite length_drop, Hl, length_app, zeros_length. done.
Qed.

(** The decoding of a well-formed command. *)
Lemma decode_message pre n body fl mt b s : 0 ≤ n < 2 ^ 64 → (17 ≤ length body)%nat →
  decode pre (Part (message n body) fl mt) b s =
  if n <=? cn_peer_nonce b then fail_decode Zmtp_invalid_sequence b s
  else
    let b := Base (cn_nonce b) n (cn_precom b) in
    match crypto_box_open_afternm (zeros 16 ++ body) (nonce pre (put_uint64 n)) (cn_precom b) with
    | None => fail_decode Zmtp_cryptographic b s
    | Some pt =>
        flags ← pt !! 32%nat; data ← copy 33 (length body - 17) pt;
        Some (RcOk, Some (Part data (decoded_flags flags) None), b, s)
    end.
Proof.
  intros Hn Hb. unfold decode. cbn [p_data].
  assert (Hlen : length (message n body) = (16 + length body)%nat) by (unfold message; by rewrite !length_app).
  assert (Hc : check_basic_command_structure (message n body) s = (RcOk, s)).
  { unfold check_basic_command_structure. rewrite Hlen, (proj2 (Nat.leb_gt _ _)), (proj2 (Z.leb_gt _ _)); [done|cbn; lia|lia]. }
  rewrite Hc. change (negb (bool_decide (RcOk = RcOk))) with false. cbv beta iota.
  rewrite Hlen. unfold message at 1. rewrite has_prefix_app. cbn [negb].
  rewrite (proj2 (Nat.ltb_ge _ _)) by lia.
  unfold message. rewrite (copy_app message_prefix (put_uint64 n) body 8 8) by done. cbn [mbind option_bind].
  pose proof (get_put_uint64 n [] Hn) as Hg. rewrite app_nil_r in Hg. rewrite Hg. cbn [mbind option_bind].
  destruct (n <=? cn_peer_nonce b); [done|].
  rewrite copy_ok by (rewrite !length_app, length_put_uint64; change (length message_prefix) with 8%nat; lia).
  change (drop 16 (message_prefix ++ put_uint64 n ++ body)) with body. rewrite take_ge by lia. cbn [mbind option_bind].
  unfold crypto_box_BOXZEROBYTES, crypto_box_ZEROBYTES. cbn [cn_precom].
  replace (16 + length body - 33)%nat with (length body - 17)%nat by lia. done.
Qed.

(** Every received message is such a command or is refused before the nonce is read. *)
Lemma decode_cases pre m b s : bytes_ok (p_data m) →
  (∃ e, decode pre m b s = fail_decode e b s) ∨
  ∃ n body, p_data m = message n body ∧ 0 ≤ n < 2 ^ 64 ∧ (17 ≤ length body)%nat.
Proof.
  intros Hb. unfold decode, check_basic_command_structure.
  destruct (_ || _); [left; by exists Zmtp_malformed_unspecified|]. change (negb (bool_decide (RcOk = RcOk))) with false. cbv beta iota.
  destruct (has_prefix message_prefix (p_data m)) eqn:Hp; cbn [negb]; [|left; by exists Zmtp_unexpected_command].
  destruct (length (p_data m) <? 33)%nat eqn:Hl; [left; by exists Zmtp_malformed_message|]. apply Nat.ltb_ge in Hl. right.
  unfold has_prefix in Hp. apply andb_prop in Hp as [_ Hp%bool_decide_eq_true]. change (length message_prefix) with 8%nat in Hp.
  destruct (uint64_bytes (take 8 (drop 8 (p_data m)))) as (n & Hn & Hd).
  { by apply Forall_take, Forall_drop. }
  { rewrite length_take, length_drop. lia. }
  exists n, (drop 16 (p_data m)). split; [|split; [done|rewrite length_drop; lia]].
  unfold message. rewrite <- Hp, <- Hd. change 16%nat with (8 + 8)%nat. by rewrite <- drop_drop, !take_drop.
Qed.

(** The message with a nonce and the box of [m]. *)
Definition sealed (pre : string) (k : list Z) (n : Z) (m x : part) : Prop :=
  ∃ box, x = Part (message n (drop 16 box)) 0 None ∧ take 16 box = zeros 16 ∧ length box = (33 + length (p_data m))%nat ∧
    crypto_box_open_afternm box (nonce pre (put_uint64 n)) k = Some (zeros 32 ++ message_flags m :: p_data m).

Fixpoint sealed_from (pre : string) (k : list Z) (n : Z) (ms xs : list part) : Prop :=
  match ms, xs with
  | [], [] => True
  | m :: ms, x :: xs => sealed pre k n m x ∧ sealed_from pre k (n + 1) ms xs
  | _, _ => False
  end.

Lemma sealed_length pre k xs : ∀ n ms, sealed_from pre k n ms xs → length xs = length ms.
Proof. induction xs as [|x xs IH]; intros n [|m ms]; try done. intros [_ Hs]. cbn. f_equal. by eapply IH. Qed.

Lemma sealed_lookup pre k xs y : ∀ n ms, sealed_from pre k n ms xs → y ∈ xs → ∃ i m, ms !! i = Some m ∧ sealed pre k (n + Z.of_nat i) m y.
Proof.
  induction xs as [|x xs IH]; intros n [|m ms]; cbn [sealed_from]; intros Hs Hy; try done; [by apply not_elem_of_nil in Hy|].
  destruct Hs as [Hm Hs]. apply elem_of_cons in Hy as [->|Hy].
  - exists 0%nat, m. by rewrite Z.add_0_r.
  - destruct (IH _ _ Hs Hy) as (i & m' & Hi & Hm'). exists (S i), m'. split; [done|].
    by replace (n + Z.of_nat (S i)) with (n + 1 + Z.of_nat i) by lia.
Qed.

Lemma encode_all_ok pre ms : ∀ b, 0 ≤ cn_nonce b → cn_nonce b + Z.of_nat (length ms) < 2 ^ 64 →
  ∃ xs, encode_all pre ms b = Some (xs, Base (cn_nonce b + Z.of_nat (length ms)) (cn_peer_nonce b) (cn_precom b)) ∧
    sealed_from pre (cn_precom b) (cn_nonce b) ms xs.
Proof.
  induction ms as [|m ms IH]; intros b H0 Hn; cbn [length] in *.
  { exists []. split; [|done]. cbn. rewrite Z.add_0_r. by destruct b. }
  destruct (encode_ok pre m b) as (box & He & Hz & Hl & Ho). destruct (IH (next_nonce b)) as (xs & Hxs & Hf).
  { cbn. rewrite u64_small by lia. lia. }
  { cbn. rewrite u64_small by lia. lia. }
  cbn [next_nonce cn_nonce cn_peer_nonce cn_precom] in Hxs, Hf. rewrite u64_small in Hxs, Hf by lia.
  exists (Part (message (cn_nonce b) (drop 16 box)) 0 None :: xs). split; [|split; [by exists box|exact Hf]].
  cbn [encode_all]. rewrite He. cbn [mbind option_bind]. rewrite Hxs.
  cbn [mbind option_bind]. do 3 f_equal. lia.
Qed.

(** What is decoded of a sealed message. *)
Lemma open_sealed m (box : list Z) b s : length box = (33 + length (p_data m))%nat →
  (flags ← (zeros 32 ++ message_flags m :: p_data m) !! 32%nat;
   data ← copy 33 (length (drop 16 box) - 17) (zeros 32 ++ message_flags m :: p_data m);
   Some (RcOk, Some (Part data (decoded_flags flags) None), b, s)) = Some (RcOk, Some (carried m), b : curve_base, s : session).
Proof.
  intros Hl. rewrite list_lookup_middle by done. cbn [mbind option_bind].
  change (zeros 32 ++ message_flags m :: p_data m) with ((zeros 32 ++ [message_flags m]) ++ p_data m).
  rewrite copy_ok; rewrite length_drop, Hl.
  - rewrite drop_app_length', take_ge by (rewrite ?length_app; done || lia). cbn [mbind option_bind].
    by rewrite decoded_message_flags.
  - rewrite !length_app. cbn. lia.
Qed.

Lemma decode_sealed pre m x b s n : sealed pre (cn_precom b) n m x → cn_peer_nonce b < n → 0 ≤ n < 2 ^ 64 →
  decode pre x b s = Some (RcOk, Some (carried m), Base (cn_nonce b) n (cn_precom b), s).
Proof.
  intros (box & -> & Hz & Hl & Ho) Hp Hn. rewrite decode_message by (rewrite ?length_drop; lia).
  rewrite (proj2 (Z.leb_gt _ _)) by done. cbv zeta. cbn [cn_precom]. rewrite unpad_box, Ho by done. by apply open_sealed.
Qed.

Lemma decode_all_sealed pre xs : ∀ ms n b s, sealed_from pre (cn_precom b) n ms xs → cn_peer_nonce b < n → 0 ≤ n →
  n + Z.of_nat (length ms) < 2 ^ 64 →
  decode_all pre xs b s = Some (map carried ms, Base (cn_nonce b) (if bool_decide (ms = []) then cn_peer_nonce b else n + Z.of_nat (length ms) - 1) (cn_precom b), s).
Proof.
  induction xs as [|x xs IH]; intros [|m ms] n b s; cbn [sealed_from]; intros Hs Hp H0 Hn; try done.
  { destruct b; done. }
  destruct Hs as [Hm Hs]. cbn [length] in Hn. cbn [decode_all]. rewrite (decode_sealed pre m x b s n) by (done || lia). cbn [mbind option_bind].
  rewrite (IH ms (n + 1)); [|exact Hs|cbn; lia|lia|lia]. cbn [mbind option_bind from_option map cn_nonce cn_peer_nonce cn_precom].
  do 3 f_equal. rewrite (bool_decide_eq_false_2 (m :: ms = [])) by done. f_equal. destruct ms; cbn; lia.
Qed.

(** One message from the wire: refused, or one of those sent, with a nonce above the last
    one. *)
Definition refuses (d : option (rc * option part * curve_base * session)) (b : curve_base) : Prop :=
  ∃ e b' s', d = Some (RcErr e, None, b', s') ∧ cn_peer_nonce b ≤ cn_peer_nonce b' ∧ cn_precom b' = cn_precom b.

Definition takes (d : option (rc * option part * curve_base * session)) (b : curve_base) (s : session) (n0 : Z) (ms : list part) : Prop :=
  ∃ i m, ms !! i = Some m ∧ cn_peer_nonce b < n0 + Z.of_nat i ∧
    d = Some (RcOk, Some (carried m), Base (cn_nonce b) (n0 + Z.of_nat i) (cn_precom b), s).

Lemma fail_refuses e b b' s : cn_peer_nonce b ≤ cn_peer_nonce b' → cn_precom b' = cn_precom b → refuses (fail_decode e b' s) b.
Proof. intros Hp Hk. by exists EPROTO, b', (emit (Failed_protocol e) s). Qed.

Lemma decode_received pre ms wire x b s n0 : sealed_from pre (cn_precom b) n0 ms wire → 0 ≤ n0 → n0 + Z.of_nat (length ms) < 2 ^ 64 →
  bytes_ok (p_data x) → (opens pre (cn_precom b) (p_data x) = true → ∃ y, y ∈ wire ∧ drop 8 (p_data y) = drop 8 (p_data x)) →
  refuses (decode pre x b s) b ∨ takes (decode pre x b s) b s n0 ms.
Proof.
  intros Hw H0 H1 Hx Hun. destruct (decode_cases pre x b s Hx) as [[e ->]|(n & body & Hd & Hn & Hl)]; [left; by apply fail_refuses|].
  destruct x as [data fl mt]. cbn [p_data] in *. subst data. rewrite decode_message by done.
  destruct (n <=? cn_peer_nonce b) eqn:Hle; [left; by apply fail_refuses|]. apply Z.leb_gt in Hle. cbv zeta. cbn [cn_precom].
  unfold opens in Hun. change (drop 16 (message n body)) with body in Hun. change (take 8 (drop 8 (message n body))) with (put_uint64 n) in Hun.
  destruct (crypto_box_open_afternm _ _ _) as [pt|] eqn:Ho; [|left; apply fail_refuses; [cbn; lia|done]]. right.
  destruct (Hun eq_refl) as (y & Hy & Hyd). destruct (sealed_lookup _ _ _ _ _ _ Hw Hy) as (i & m & Hi & box & -> & Hz & Hbl & Hbo).
  pose proof (lookup_lt_Some _ _ _ Hi). cbn [p_data] in Hyd. change (drop 8 (message n body)) with (put_uint64 n ++ body) in Hyd.
  change (drop 8 (message (n0 + Z.of_nat i) (drop 16 box))) with (put_uint64 (n0 + Z.of_nat i) ++ drop 16 box) in Hyd.
  apply app_inj_1 in Hyd as [Hnn <-]; [|done]. apply put_uint64_inj in Hnn as <-; [|lia..].
  rewrite unpad_box, Hbo in Ho by done. injection Ho as <-. exists i, m. split; [done|]. split; [done|]. by apply open_sealed.
Qed.

(** The messages sent that can still be taken. *)
Lemma decode_all_received pre ms wire n0 received : ∀ b s, sealed_from pre (cn_precom b) n0 ms wire → 0 ≤ n0 →
  n0 + Z.of_nat (length ms) < 2 ^ 64 → Forall (λ x, bytes_ok (p_data x)) received → unforged pre (cn_precom b) wire received →
  ∃ xs b' s', decode_all pre received b s = Some (xs, b', s') ∧
    xs `sublist_of` drop (Z.to_nat (cn_peer_nonce b + 1 - n0)) (map carried ms).
Proof.
  induction received as [|x received IH]; intros b s Hw H0 H1 Hb Hun.
  { exists [], b, s. split; [done|]. apply sublist_nil_l. }
  apply Forall_cons in Hb as [Hx Hb]. cbn [decode_all].
  assert (Hun' : unforged pre (cn_precom b) wire received) by (intros y Hy; apply Hun; by right).
  destruct (decode_received pre ms wire x b s n0 Hw H0 H1 Hx (Hun x ltac:(by left))) as [(e & b' & s' & -> & Hp & Hk)|(i & m & Hi & Hp & ->)];
    cbn [mbind option_bind].
  - destruct (IH b' s') as (xs & b2 & s2 & -> & Hs); [by rewrite Hk|done|done|done|by rewrite Hk|]. cbn [mbind option_bind from_option].
    exists xs, b2, s2. split; [done|]. etransitivity; [exact Hs|].
    replace (Z.to_nat (cn_peer_nonce b' + 1 - n0)) with (Z.to_nat (cn_peer_nonce b + 1 - n0) +
      (Z.to_nat (cn_peer_nonce b' + 1 - n0) - Z.to_nat (cn_peer_nonce b + 1 - n0)))%nat by lia.
    rewrite <- drop_drop. apply sublist_drop.
  - destruct (IH (Base (cn_nonce b) (n0 + Z.of_nat i) (cn_precom b)) s Hw H0 H1 Hb Hun') as (xs & b2 & s2 & -> & Hs).
    cbn [mbind option_bind from_option cn_peer_nonce] in Hs |- *. exists (carried m :: xs), b2, s2. split; [done|].
    replace (Z.to_nat (n0 + Z.of_nat i + 1 - n0)) with (S i) in Hs by lia.
    assert (Hd : drop i (map carried ms) = carried m :: drop (S i) (map carried ms)) by (apply drop_S; by rewrite list_lookup_fmap, Hi).
    transitivity (drop i (map carried ms)); [rewrite Hd; by apply sublist_skip|].
    replace i with (Z.to_nat (cn_peer_nonce b + 1 - n0) + (i - Z.to_nat (cn_peer_nonce b + 1 - n0)))%nat at 1 by lia.
    rewrite <- drop_drop. apply sublist_drop.
Qed.

(** The messages of a connection: what one side encodes, its nonce not yet at its end,
    the other decodes, if it has the same key and its last nonce is a lower one: the same
    data in the same order, with the flags [more] and [command], and nothing is reported. *)
Theorem curve_messages pre ms b b' s : 0 ≤ cn_nonce b → cn_nonce b + Z.of_nat (length ms) < 2 ^ 64 →
  cn_precom b' = cn_precom b → cn_peer_nonce b' < cn_nonce b →
  ∃ wire b1 b1', encode_all pre ms b = Some (wire, b1) ∧ length wire = length ms ∧ cn_nonce b1 = cn_nonce b + Z.of_nat (length ms) ∧
    decode_all pre wire b' s = Some (map carried ms, b1', s) ∧ cn_precom b1' = cn_precom b1 ∧ cn_peer_nonce b1' < cn_nonce b1.
Proof.
  intros H0 H1 Hk Hp. destruct (encode_all_ok pre ms b H0 H1) as (wire & He & Hw). eexists wire, _, _. split; [done|].
  split; [by apply sealed_length in Hw|]. split; [done|]. rewrite <- Hk in Hw.
  split; [by apply (decode_all_sealed pre wire ms (cn_nonce b))|]. split; [done|]. cbn. destruct ms; cbn; lia.
Qed.

(** Nothing is inserted, changed, repeated or reordered: whatever messages arrive in
    place of those encoded (any bytes, in any order, any number of times), as long as a box
    that opens was made by the peer, the messages [decode] accepts are, in order, some of
    those encoded, each at most once; and no message makes it read out of bounds. *)
Theorem curve_no_replay pre ms b wire b1 received b' s : 0 ≤ cn_nonce b → cn_nonce b + Z.of_nat (length ms) < 2 ^ 64 →
  encode_all pre ms b = Some (wire, b1) → cn_precom b' = cn_precom b →
  Forall (λ x, bytes_ok (p_data x)) received → unforged pre (cn_precom b) wire received →
  ∃ xs b1' s', decode_all pre received b' s = Some (xs, b1', s') ∧ xs `sublist_of` map carried ms.
Proof.
  intros H0 H1 He Hk Hb Hun. destruct (encode_all_ok pre ms b H0 H1) as (wire' & He' & Hw). rewrite He in He'. injection He' as <- _.
  rewrite <- Hk in Hw, Hun. destruct (decode_all_received pre ms wire _ received b' s Hw H0 H1 Hb Hun) as (xs & b1' & s' & Hd & Hs).
  exists xs, b1', s'. split; [done|]. etransitivity; [exact Hs|apply sublist_drop].
Qed.
End messages.

(** ** Witnesses: two messages; the second is received three times, before and after the
    first. *)

Definition ex_base : curve_base := Base 5 3 (zeros 32).
Definition ex_messages : list part := [Part [1; 2] Msg.more None; Part [] 0 None].
Definition ex_wire : list part := default [] (fst <$> encode_all "CurveZMQMESSAGEC" ex_messages ex_base).
Definition ex_received : list part :=
  match ex_wire with [x; y] => [y; x; y; Part [0; 7] 0 None; y] | _ => [] end.

Lemma curve_messages_witness :
  ∃ wire b1 b1', encode_all "CurveZMQMESSAGEC" ex_messages ex_base = Some (wire, b1) ∧
    decode_all "CurveZMQMESSAGEC" wire (Base 2 4 (zeros 32)) (session_new None) = Some (map carried ex_messages, b1', session_new None).
Proof.
  destruct (curve_messages "CurveZMQMESSAGEC" ex_messages ex_base (Base 2 4 (zeros 32)) (session_new None)
    ltac:(done) ltac:(done) ltac:(reflexivity) ltac:(done)) as (wire & b1 & b1' & He & _ & _ & Hd & _).
  exists wire, b1, b1'. exact (conj He Hd).
Defined.

Lemma curve_no_replay_witness :
  decode_all "CurveZMQMESSAGEC" ex_received (Base 2 4 (zeros 32)) (session_new None) ≠ None ∧
  ∃ xs b1' s', decode_all "CurveZMQMESSAGEC" ex_received (Base 2 4 (zeros 32)) (session_new None) = Some (xs, b1', s') ∧
    xs `sublist_of` map carried ex_messages ∧ length xs = 1%nat.
Proof.
  assert (He : encode_all "CurveZMQMESSAGEC" ex_messages ex_base = Some (ex_wire, Base 7 3 (zeros 32))) by (vm_compute; reflexivity).
  assert (Hb : Forall (λ x, bytes_ok (p_data x)) ex_received) by (vm_compute; repeat constructor; discriminate).
  assert (Hun : unforged "CurveZMQMESSAGEC" (cn_precom ex_base) ex_wire ex_received).
  { intros x Hx Ho. assert (Hin : x ∈ ex_wire); [|by exists x]. revert Hx Ho. unfold ex_received.
    destruct ex_wire as [|x0 [|y0 [|? ?]]] eqn:Hw; try (by intros []%not_elem_of_nil).
    intros Hx Ho. repeat (apply elem_of_cons in Hx as [->|Hx]; [try (by repeat constructor); try (by vm_compute in Ho)|]).
    by apply not_elem_of_nil in Hx. }
  destruct (curve_no_replay "CurveZMQMESSAGEC" ex_messages ex_base ex_wire _ ex_received (Base 2 4 (zeros 32)) (session_new None)
    ltac:(done) ltac:(done) He ltac:(reflexivity) Hb Hun) as (xs & b1' & s' & Hd & Hs).
  split; [congruence|]. exists xs, b1', s'. split; [exact Hd|]. split; [exact Hs|].
  vm_compute in Hd. by injection Hd as <- _ _.
Defined.

End CurveMsg.
