(* ===== verification/CurveLogin.v ===== *)
(** * The CURVE mechanism: a login

    The client, the server and the ZAP handler, each side with its long-term and its
    short-term key pair, up to the end of the handshake: accepted, refused, or refused
    silently. *)

From Stdlib Require Import String.
From S2P Require Import Prelude Wire Msg SubMsg Mechanism Zap Handshake PlainAuth PlainLogin Curve CurveExample CurveMsg.
Import SubMsg Mechanism Zap Handshake Curve CurveExample CurveMsg.
#[local] Open Scope Z_scope.

Module CurveLogin.
#[local] Arguments bytes_of : simpl never.
#[local] Arguments put_uint64 : simpl never.
#[local] Arguments zeros : simpl never.

(** ** Fields *)

Create HintDb curve_len.
Hint Rewrite @length_app @zeros_length @length_put_uint64 : curve_len.

Lemma prefix_lengths : length hello_prefix = 6%nat ∧ length welcome_prefix = 8%nat ∧ length initiate_prefix = 9%nat ∧
  length ready_prefix = 6%nat ∧ length error_prefix = 6%nat.
Proof. done. Qed.

Ltac len :=
  autorewrite with curve_len; repeat match goal with H : length _ = _ |- _ => rewrite H end;
  change (length hello_prefix) with 6%nat; change (length welcome_prefix) with 8%nat; change (length initiate_prefix) with 9%nat;
  change (length ready_prefix) with 6%nat; change (length error_prefix) with 6%nat; cbn [length]; lia.

Lemma copy_field data pre x post off size : data = pre ++ x ++ post → off = length pre → size = length x → copy off size data = Some x.
Proof. intros ->. apply copy_app. Qed.

(** The field [x], of [size] bytes at [off], after [pre] and before [post]. *)
Tactic Notation "field" constr(off) constr(size) constr(pre) constr(x) constr(post) :=
  cbn [mbind option_bind]; rewrite (copy_field _ pre x post off size) by first [by rewrite <- ?(assoc_L app), ?app_nil_r|len]; cbn [mbind option_bind].

Lemma get_uint64_put n : 0 ≤ n < 2 ^ 64 → get_uint64 (put_uint64 n) = Some n.
Proof. intros Hn. pose proof (get_put_uint64 n [] Hn) as Hg. by rewrite app_nil_r in Hg. Qed.

(** ** Boxes between two key pairs *)

Section boxes.
Context {C : Crypto} {HL : CryptoLaws C}.

(** [body]: a box without its padding. *)
Lemma box_pair a b m n : length a = 32%nat → length b = 32%nat →
  ∃ body, crypto_box (zeros 32 ++ m) n (public_of a) b = Some (zeros 16 ++ body) ∧ length body = (16 + length m)%nat ∧
    crypto_box_open (zeros 16 ++ body) n (public_of b) a = Some (zeros 32 ++ m).
Proof.
  intros Ha Hb. destruct (beforenm_pair a b Ha Hb) as (k & Hk1 & Hk2). destruct (afternm_ok m n k) as (c & Hc & Hl & Hz & Ho).
  exists (drop 16 c). rewrite unpad_box by done. rewrite box_afternm, box_open_afternm, Hk1, Hk2. cbn [mbind option_bind].
  split; [done|]. split; [|done]. rewrite length_drop. lia.
Qed.

Lemma secretbox_pair m n k : ∃ body, crypto_secretbox (zeros 32 ++ m) n k = Some (zeros 16 ++ body) ∧ length body = (16 + length m)%nat ∧
  crypto_secretbox_open (zeros 16 ++ body) n k = Some (zeros 32 ++ m).
Proof.
  destruct (secretbox_ok m n k) as (c & Hc & Hl & Hz & Ho). exists (drop 16 c). rewrite unpad_box by done.
  split; [done|]. split; [|done]. rewrite length_drop. lia.
Qed.

Lemma afternm_pair m n k : ∃ body, crypto_box_afternm (zeros 32 ++ m) n k = Some (zeros 16 ++ body) ∧ length body = (16 + length m)%nat ∧
  crypto_box_open_afternm (zeros 16 ++ body) n k = Some (zeros 32 ++ m).
Proof.
  destruct (afternm_ok m n k) as (c & Hc & Hl & Hz & Ho). exists (drop 16 c). rewrite unpad_box by done.
  split; [done|]. split; [|done]. rewrite length_drop. lia.
Qed.
End boxes.

(** ** The commands *)

Definition hello_command (client : list Z) (n : Z) (signature : list Z) : list Z :=
  hello_prefix ++ [1; 0] ++ zeros 72 ++ client ++ put_uint64 n ++ signature.
Definition initiate_command (cookie : list Z) (n : Z) (body : list Z) : list Z := initiate_prefix ++ cookie ++ put_uint64 n ++ body.
Definition ready_command (n : Z) (body : list Z) : list Z := ready_prefix ++ put_uint64 n ++ body.

Section commands.
Context {C : Crypto} {HL : CryptoLaws C} (c_long c_short s_long s_short : list Z).
Hypothesis Hcl : length c_long = 32%nat.
Hypothesis Hcs : length c_short = 32%nat.
Hypothesis Hsl : length s_long = 32%nat.
Hypothesis Hss : length s_short = 32%nat.

Definition honest_client : client_keys := ClientKeys (public_of c_long) c_long (public_of s_long) (public_of c_short) c_short.
Definition honest_server : server_keys := ServerKeys s_long (public_of s_short) s_short.
Notation C' := (public_of c_short).
Notation S' := (public_of s_short).

Lemma hello_ok n : ∃ signature, tools_produce_hello honest_client n = Some (hello_command C' n signature) ∧
  length signature = 80%nat ∧ crypto_box_open (zeros 16 ++ signature) (nonce "CurveZMQHELLO---" (put_uint64 n)) C' s_long = Some (zeros 96).
Proof.
  destruct (box_pair s_long c_short (zeros 64) (nonce "CurveZMQHELLO---" (put_uint64 n)) Hsl Hcs) as (body & Hb & Hl & Ho).
  rewrite zeros_length in Hl. exists body. split; [|done]. unfold tools_produce_hello. cbn [server_key cn_secret cn_public honest_client].
  change (zeros (crypto_box_ZEROBYTES + 64)) with (zeros 32 ++ zeros 64). rewrite Hb. cbn [mbind option_bind].
  field 16%nat 80%nat (zeros 16) body (@nil Z). done.
Qed.

Lemma process_hello_ok n signature p : 0 ≤ n < 2 ^ 64 → length signature = 80%nat →
  crypto_box_open (zeros 16 ++ signature) (nonce "CurveZMQHELLO---" (put_uint64 n)) C' s_long = Some (zeros 96) →
  process_hello honest_server (hello_command C' n signature) p =
  Some (RcOk, Server sending_welcome (s_zap p) (Base (cn_nonce (s_base p)) n (cn_precom (s_base p))) C' (cookie_key p) (s_drawn p)).
Proof.
  intros Hn Hl Ho. pose proof (public_length c_short Hcs) as Hpl. unfold process_hello, check_structure.
  assert (Hlen : length (hello_command C' n signature) = 200%nat) by (unfold hello_command; len).
  assert (Hc : check_basic_command_structure (hello_command C' n signature) (sess (s_zap p)) = (RcOk, sess (s_zap p))).
  { unfold check_basic_command_structure. by rewrite Hlen. }
  rewrite Hc. change (negb (bool_decide (RcOk = RcOk))) with false. cbv beta iota.
  unfold hello_command at 1. rewrite has_prefix_app, Hlen. cbn [negb Nat.eqb].
  rewrite bool_decide_eq_true_2 by done. cbn [negb]. unfold hello_command.
  field 80%nat 32%nat (hello_prefix ++ [1; 0] ++ zeros 72) (C') (put_uint64 n ++ signature).
  field 112%nat 8%nat (hello_prefix ++ [1; 0] ++ zeros 72 ++ C') (put_uint64 n) signature. rewrite get_uint64_put by done. cbn [mbind option_bind].
  field 120%nat 80%nat (hello_prefix ++ [1; 0] ++ zeros 72 ++ C' ++ put_uint64 n) signature (@nil Z).
  cbn [s_secret_key honest_server]. unfold crypto_box_BOXZEROBYTES. rewrite Ho. destruct p as [st [m s sc] b cl ck d]. done.
Qed.

(** WELCOME, the cookie in it, and the shared key. *)
Lemma welcome_ok random p : (∀ i n, length (random i n) = n) → cn_client p = C' →
  let r := random (s_drawn p) 16%nat in
  let key := random (S (s_drawn p)) 32%nat in
  ∃ cookie welcome k, produce_welcome honest_server random p =
    Some (RcOk, Some (welcome_prefix ++ welcome), Server (state p) (s_zap p) (s_base p) C' key (S (S (S (s_drawn p))))) ∧
  length cookie = 80%nat ∧ crypto_secretbox_open (zeros 16 ++ cookie) (nonce "COOKIE--" r) key = Some (zeros 32 ++ C' ++ s_short) ∧
  crypto_box_beforenm S' c_short = Some k ∧ crypto_box_beforenm C' s_short = Some k ∧
  tools_process_welcome honest_client (welcome_prefix ++ welcome) = Some (Some (S', r ++ cookie, k)).
Proof.
  intros Hr Hp r key. pose proof (public_length c_short Hcs) as Hpl. pose proof (public_length s_short Hss) as Hpl'.
  destruct (secretbox_pair (C' ++ s_short) (nonce "COOKIE--" r) key) as (cookie & Hc & Hcl' & Hco).
  rewrite length_app, Hpl, Hss in Hcl'. set (w := random (S (S (s_drawn p))) 16%nat).
  destruct (box_pair c_short s_long (S' ++ r ++ cookie) (nonce "WELCOME-" w) Hcs Hsl) as (body & Hb & Hbl & Hbo).
  assert (Hrl : length r = 16%nat) by apply Hr. assert (Hwl : length w = 16%nat) by apply Hr.
  assert (Hbl' : length body = 144%nat) by (rewrite Hbl; len). clear Hbl.
  destruct (beforenm_pair s_short c_short Hss Hcs) as (k & Hk1 & Hk2).
  exists cookie, (w ++ body), k. split; [|split; [done|split; [done|split; [done|split; [done|]]]]].
  - unfold produce_welcome. cbn [state s_zap s_base cn_client cookie_key s_drawn s_cn_secret s_cn_public s_secret_key honest_server].
    rewrite Hp. unfold crypto_box_ZEROBYTES, crypto_box_BOXZEROBYTES. fold r key w. rewrite Hc. cbn [mbind option_bind].
    field 16%nat 80%nat (zeros 16) cookie (@nil Z). rewrite Hb. field 16%nat 144%nat (zeros 16) body (@nil Z). done.
  - unfold tools_process_welcome. assert (Hlen : length (welcome_prefix ++ w ++ body) = 168%nat) by len. rewrite Hlen. cbn [Nat.eqb negb].
    field 24%nat 144%nat (welcome_prefix ++ w) body (@nil Z). field 8%nat 16%nat welcome_prefix w body.
    cbn [server_key cn_secret honest_client]. unfold crypto_box_ZEROBYTES, crypto_box_BOXZEROBYTES. rewrite Hbo.
    field 32%nat 32%nat (zeros 32) (S') (r ++ cookie). field (32 + 32)%nat 96%nat (zeros 32 ++ S') (r ++ cookie) (@nil Z).
    by rewrite Hk1.
Qed.

(** INITIATE, and the vouch in it. *)
Lemma initiate_ok n cookie r md : length r = 16%nat →
  ∃ vouch body, tools_produce_initiate honest_client n S' cookie r md = Some (initiate_command cookie n body) ∧
  length vouch = 80%nat ∧ length body = (144 + length md)%nat ∧
  crypto_box_open (zeros 16 ++ body) (nonce "CurveZMQINITIATE" (put_uint64 n)) C' s_short = Some (zeros 32 ++ public_of c_long ++ r ++ vouch ++ md) ∧
  crypto_box_open (zeros 16 ++ vouch) (nonce "VOUCH---" r) (public_of c_long) s_short = Some (zeros 32 ++ C' ++ public_of s_long).
Proof.
  intros Hrl. pose proof (public_length c_short Hcs) as Hpl. pose proof (public_length s_long Hsl) as Hpl'. pose proof (public_length c_long Hcl) as Hpl''.
  destruct (box_pair s_short c_long (C' ++ public_of s_long) (nonce "VOUCH---" r) Hss Hcl) as (vouch & Hv & Hvl & Hvo).
  assert (Hvl' : length vouch = 80%nat) by (rewrite Hvl; len). clear Hvl.
  destruct (box_pair s_short c_short (public_of c_long ++ r ++ vouch ++ md) (nonce "CurveZMQINITIATE" (put_uint64 n)) Hss Hcs) as (body & Hb & Hbl & Hbo).
  assert (Hbl' : length body = (144 + length md)%nat) by (rewrite Hbl; len). clear Hbl.
  exists vouch, body. split; [|done]. unfold tools_produce_initiate. cbn [cn_public server_key secret_key public_key cn_secret honest_client].
  unfold crypto_box_ZEROBYTES, crypto_box_BOXZEROBYTES. rewrite Hv. field 16%nat 80%nat (zeros 16) vouch (@nil Z). rewrite Hb.
  field 16%nat (128 + length md + 16)%nat (zeros 16) body (@nil Z). done.
Qed.

(** What the server makes of an INITIATE of the client. *)
Lemma process_initiate_ok o addr p r cookie n vr vouch md body k : 0 ≤ n < 2 ^ 64 → length r = 16%nat → length vr = 16%nat → length cookie = 80%nat →
  crypto_secretbox_open (zeros 16 ++ cookie) (nonce "COOKIE--" r) (cookie_key p) = Some (zeros 32 ++ C' ++ s_short) →
  length vouch = 80%nat → length body = (144 + length md)%nat → (length md ≤ 256)%nat →
  crypto_box_open (zeros 16 ++ body) (nonce "CurveZMQINITIATE" (put_uint64 n)) C' s_short = Some (zeros 32 ++ public_of c_long ++ vr ++ vouch ++ md) →
  crypto_box_open (zeros 16 ++ vouch) (nonce "VOUCH---" vr) (public_of c_long) s_short = Some (zeros 32 ++ C' ++ public_of s_long) →
  crypto_box_beforenm C' s_short = Some k → cn_client p = C' →
  process_initiate o addr honest_server (initiate_command (r ++ cookie) n body) p =
  '(r, p) ← authenticate o addr (public_of c_long) (set_s_base (Base (cn_nonce (s_base p)) n k) p);
  if negb (bool_decide (r = RcOk)) then Some (r, p)
  else
    '(r, m) ← parse_metadata o false md (mech (s_zap p));
    Some (r, set_zap (Zap m (sess (s_zap p)) (status_code (s_zap p))) p).
Proof.
  intros Hn Hrl Hvrl Hcl' Hco Hvl Hbl Hml Hbo Hvo Hk Hp.
  pose proof (public_length c_short Hcs) as Hpl. pose proof (public_length s_long Hsl) as Hpl'. pose proof (public_length c_long Hcl) as Hpl''.
  unfold process_initiate, check_structure.
  assert (Hlen : length (initiate_command (r ++ cookie) n body) = (257 + length md)%nat) by (unfold initiate_command; len).
  assert (Hc : check_basic_command_structure (initiate_command (r ++ cookie) n body) (sess (s_zap p)) = (RcOk, sess (s_zap p))).
  { unfold check_basic_command_structure. rewrite Hlen, (proj2 (Nat.leb_gt _ _)), (proj2 (Z.leb_gt _ _)); [done|cbn; lia|lia]. }
  rewrite Hc. change (negb (bool_decide (RcOk = RcOk))) with false. cbv beta iota.
  assert (Hsame : set_zap (set_sess (sess (s_zap p)) (s_zap p)) p = p) by (by destruct p as [st [m s sc] b cl ck d]). rewrite Hsame. clear Hsame Hc.
  unfold initiate_command at 1. rewrite has_prefix_app, Hlen, (proj2 (Nat.ltb_ge _ _)) by lia. cbn [negb].
  assert (Hcookie : open_cookie honest_server (initiate_command (r ++ cookie) n body) p = Some (Some true)).
  { unfold open_cookie, initiate_command. field 25%nat 80%nat (initiate_prefix ++ r) cookie (put_uint64 n ++ body).
    field 9%nat 16%nat initiate_prefix r (cookie ++ put_uint64 n ++ body). unfold crypto_box_ZEROBYTES, crypto_box_BOXZEROBYTES. rewrite Hco.
    field 32%nat 32%nat (zeros 32) (C') s_short. field (32 + 32)%nat 32%nat (zeros 32 ++ C') s_short (@nil Z).
    cbn [s_cn_secret honest_server]. rewrite !bool_decide_eq_true_2 by done. done. }
  rewrite Hcookie. cbn [mbind option_bind]. unfold process_initiate_box.
  assert (Hshort : copy 105 8 (initiate_command (r ++ cookie) n body) = Some (put_uint64 n)).
  { unfold initiate_command. apply (copy_field _ (initiate_prefix ++ r ++ cookie) _ body); [by rewrite <- ?(assoc_L app)|len|len]. }
  rewrite Hshort. cbn [mbind option_bind]. rewrite get_uint64_put by done. cbn [mbind option_bind].
  assert (Hopen : open_initiate honest_server (initiate_command (r ++ cookie) n body) p = Some (Some (zeros 32 ++ public_of c_long ++ vr ++ vouch ++ md))).
  { unfold open_initiate. rewrite Hlen, Hshort. unfold initiate_command.
    field 113%nat (257 + length md - 113)%nat (initiate_prefix ++ r ++ cookie ++ put_uint64 n) body (@nil Z). unfold fits_in.
    rewrite (proj2 (Nat.leb_le _ _)) by (unfold initiate_box_size, crypto_box_BOXZEROBYTES; len). cbn [zmq_assert mbind option_bind].
    by rewrite Hp; cbn [s_cn_secret honest_server]; unfold crypto_box_BOXZEROBYTES; rewrite Hbo. }
  rewrite Hopen. cbn [mbind option_bind]. unfold crypto_box_ZEROBYTES. field 32%nat 32%nat (zeros 32) (public_of c_long) (vr ++ vouch ++ md).
  assert (Hvouch : open_vouch honest_server (public_of c_long) (zeros 32 ++ public_of c_long ++ vr ++ vouch ++ md) = Some (Some (zeros 32 ++ C' ++ public_of s_long))).
  { unfold open_vouch, crypto_box_ZEROBYTES. field (32 + 48)%nat 80%nat (zeros 32 ++ public_of c_long ++ vr) vouch md.
    field (32 + 32)%nat 16%nat (zeros 32 ++ public_of c_long) vr (vouch ++ md). cbn [s_cn_secret honest_server].
    unfold crypto_box_BOXZEROBYTES. by rewrite Hvo. }
  rewrite Hvouch. cbn [mbind option_bind]. field 32%nat 32%nat (zeros 32) (C') (public_of s_long).
  cbn [cn_client set_s_base s_cn_secret honest_server s_base cn_nonce cn_precom]. rewrite Hp, bool_decide_eq_true_2 by done. cbn [negb]. rewrite Hk. cbn [mbind option_bind].
  assert (Hmd : drop (32 + 128) (zeros 32 ++ public_of c_long ++ vr ++ vouch ++ md) = md).
  { rewrite !(assoc_L app), drop_app_length'; [done|]. len. }
  by rewrite Hmd.
Qed.

(** READY. *)
Lemma ready_ok o p : valid o → ∃ body, produce_ready o p =
    Some (RcOk, Some (ready_command (cn_nonce (s_base p)) body), set_s_base (next_nonce (s_base p)) p) ∧
  length body = (16 + length (metadata (props o)))%nat ∧
  crypto_box_open_afternm (zeros 16 ++ body) (nonce "CurveZMQREADY---" (put_uint64 (cn_nonce (s_base p)))) (cn_precom (s_base p)) =
    Some (zeros 32 ++ metadata (props o)).
Proof.
  intros Hv. destruct (basic_properties_fill o Hv) as [Hl Ha].
  destruct (afternm_pair (metadata (props o)) (nonce "CurveZMQREADY---" (put_uint64 (cn_nonce (s_base p)))) (cn_precom (s_base p))) as (body & Hb & Hbl & Hbo).
  exists body. split; [|done]. unfold produce_ready. rewrite Hl. cbn [mbind option_bind]. rewrite Ha. cbn [mbind option_bind].
  unfold crypto_box_ZEROBYTES, crypto_box_BOXZEROBYTES. rewrite Hb.
  field 16%nat (16 + length (metadata (props o)))%nat (zeros 16) body (@nil Z). done.
Qed.

Lemma process_ready_ok o o' c n body : valid o → fit o o' = true → c_mech c = mechanism_new → 0 ≤ n < 2 ^ 64 →
  length body = (16 + length (metadata (props o)))%nat →
  crypto_box_open_afternm (zeros 16 ++ body) (nonce "CurveZMQREADY---" (put_uint64 n)) (cn_precom (c_base c)) = Some (zeros 32 ++ metadata (props o)) →
  process_ready o' (ready_command n body) c =
  Some (RcOk, Client connected (introduced o o').2 (c_sess c) (Base (cn_nonce (c_base c)) n (cn_precom (c_base c))) (cn_server c) (cn_cookie c) (c_drawn c)).
Proof.
  intros Hv Hf Hm Hn Hbl Hbo. unfold process_ready.
  assert (Hlen : length (ready_command n body) = (30 + length (metadata (props o)))%nat) by (unfold ready_command; len).
  rewrite Hlen, (proj2 (Nat.ltb_ge _ _)) by lia. unfold ready_command.
  field 14%nat (30 + length (metadata (props o)) - 14)%nat (ready_prefix ++ put_uint64 n) body (@nil Z).
  field 6%nat 8%nat ready_prefix (put_uint64 n) body. rewrite get_uint64_put by done. cbn [mbind option_bind c_base cn_precom c_mech].
  unfold crypto_box_ZEROBYTES, crypto_box_BOXZEROBYTES. rewrite Hbo, Hm. rewrite drop_app_length', parse_props by done.
  rewrite introduced_rc at 1. by rewrite Hf.
Qed.
End commands.

(** ** The engines *)

Section login.
Context {C : Crypto} {HL : CryptoLaws C} (c_long c_short s_long s_short : list Z).
Context (cenv senv : engine_env) (cs ss : session) (t : Z) (rr : bool) (code text uid : list Z).
Context (crandom srandom : nat → nat → list Z) (cjunk sjunk : list Z).
Notation co := (opts cenv).
Notation so := (opts senv).
Notation C' := (public_of c_short).
Notation S' := (public_of s_short).
Notation ckeys := (honest_client c_long c_short s_long).
Notation skeys := (honest_server s_long s_short).
Hypothesis Hcl : length c_long = 32%nat.
Hypothesis Hcs : length c_short = 32%nat.
Hypothesis Hsl : length s_long = 32%nat.
Hypothesis Hss : length s_short = 32%nat.
Hypothesis Hcr : ∀ i n, length (crandom i n) = n.
Hypothesis Hsr : ∀ i n, length (srandom i n) = n.
Hypothesis Hvc : valid co.
Hypothesis Hvs : valid so.
Hypothesis Hmd : (length (metadata (props co)) ≤ 256)%nat.
Hypothesis Hzap : zap_required so || negb (zap_enforce_domain so) = true.
Hypothesis Hnp : zap_pipe ss = false.
Hypothesis Hh : zap_handler ss = Some (t, rr).
Hypothesis Ht : (t =? ZMQ_REP) || (t =? ZMQ_ROUTER) || (t =? ZMQ_SERVER) = true.
Hypothesis Hcode : status_code_ok code = true.
Hypothesis Hpc : pipe_ok cenv = true.
Hypothesis Hps : pipe_ok senv = true.
Hypothesis Hfit : fit co so = true.
#[local] Instance client_side : Mechanism_t curve_client := client_mechanism co ckeys crandom.
#[local] Instance server_side : Mechanism_t curve_server := server_mechanism so (Handshake.peer_address senv) skeys srandom.

Definition request_parts (s : session) (key : list Z) : list part :=
  hello_parts (zap_handler s) ++ request so (Handshake.peer_address senv) (bytes_of "CURVE") [key].

Definition asked_session (replies : list part) : session :=
  Session (Some (t, rr)) true true (request_parts ss (public_of c_long)) replies (events ss).

Definition client_at (c : curve_client) (out : list (list Z)) : engine curve_client := Engine c false [] None false false false out.
Definition server_at (p : curve_server) (out : list (list Z)) : engine curve_server := Engine p false [] None false false false out.

Definition client0 : curve_client := curve_client_new cs cjunk cjunk cjunk.
Definition server0 : curve_server := curve_server_new ss sjunk sjunk sjunk.

(** The steps of the mechanisms are those of the engines. *)
Lemma client_out c c' x out : client_next co ckeys crandom c = Some (RcOk, Some x, c') → client_status c = Handshaking →
  step cenv Out (client_at c out) = Some (client_at c' (out ++ [x])).
Proof.
  intros Hn Hst. unfold step, next_handshake_command. cbn [errored client_at msg_mode m_status client_side client_mechanism mstate m_next].
  by rewrite Hst, Hn.
Qed.

Lemma client_in c c' x out : client_process co ckeys x c = Some (RcOk, c') → client_status c' = Handshaking →
  step cenv (In x) (client_at c out) = Some (client_at c' out).
Proof.
  intros Hp Hst. unfold step, process_handshake_command. cbn [errored client_at msg_mode m_process client_side client_mechanism mstate].
  rewrite Hp. cbn [mbind option_bind m_status client_side client_mechanism server_side server_mechanism]. by rewrite Hst.
Qed.

Lemma server_out p p' x out : server_next so skeys srandom p = Some (RcOk, Some x, p') → server_status p = Handshaking →
  step senv Out (server_at p out) = Some (server_at p' (out ++ [x])).
Proof.
  intros Hn Hst. unfold step, next_handshake_command. cbn [errored server_at msg_mode m_status server_side server_mechanism mstate m_next].
  by rewrite Hst, Hn.
Qed.

Lemma server_in p p' x out : server_process so (Handshake.peer_address senv) skeys x p = Some (RcOk, p') → server_status p' = Handshaking →
  step senv (In x) (server_at p out) = Some (server_at p' out).
Proof.
  intros Hp Hst. unfold step, process_handshake_command. cbn [errored server_at msg_mode m_process server_side server_mechanism mstate].
  rewrite Hp. cbn [mbind option_bind m_status client_side client_mechanism server_side server_mechanism]. by rewrite Hst.
Qed.

(** ** The request *)

Lemma authenticate_ok p : sess (s_zap p) = ss →
  authenticate so (Handshake.peer_address senv) (public_of c_long) p =
  Some (RcOk, set_zap (set_sess (asked_session []) (s_zap p)) (set_state waiting_for_zap_reply p)).
Proof.
  intros Hp. unfold authenticate. rewrite Hzap, Hp. unfold zap_connect. rewrite Hnp, Hh, Ht. cbn [zmq_assert mbind option_bind].
  change (bool_decide (RcOk = RcOk)) with true. cbv iota. unfold send_zap_request, Zap.send_zap_request.
  cbn [s_zap set_zap set_sess sess]. rewrite PlainLogin.send_frames_ok by (by destruct rr). cbn [mbind option_bind].
  unfold receive_and_process_zap_reply. cbn [state set_zap set_state].
  change (bool_decide (waiting_for_zap_reply = waiting_for_zap_reply)) with true. cbn [zmq_assert mbind option_bind].
  unfold asked_session, request_parts, hello_parts. rewrite Hh. destruct p as [st [m s sc] b cl ck d]. by destruct rr.
Qed.

(** What the server knows of the client. *)
Definition client_known : mechanism :=
  Mech (list_to_map (props co)) ∅ (if has_identity co && recv_routing_id so then routing_id co else []) [].

Lemma authenticate_client p k n : sess (s_zap p) = ss → mech (s_zap p) = mechanism_new →
  ('(r, p) ← authenticate so (Handshake.peer_address senv) (public_of c_long) (set_s_base (Base (cn_nonce (s_base p)) n k) p);
   if negb (bool_decide (r = RcOk)) then Some (r, p)
   else
     '(r, m) ← parse_metadata so false (metadata (props co)) (mech (s_zap p));
     Some (r, set_zap (Zap m (sess (s_zap p)) (status_code (s_zap p))) p)) =
  Some (RcOk, Server waiting_for_zap_reply (Zap client_known (asked_session []) (status_code (s_zap p))) (Base (cn_nonce (s_base p)) n k)
                     (cn_client p) (cookie_key p) (s_drawn p)).
Proof.
  intros Hs Hm. rewrite authenticate_ok by done. cbn [mbind option_bind]. change (bool_decide (RcOk = RcOk)) with true.
  cbn [negb s_zap set_zap set_state set_s_base set_sess mech sess status_code]. rewrite Hm, parse_store, store_props by done. done.
Qed.

(** ** The reply *)

Definition waiting (k key : list Z) (replies : list part) : curve_server :=
  Server waiting_for_zap_reply (Zap client_known (asked_session replies) []) (Base 1 2 k) (C') key 3.
Definition decided (k key : list Z) : curve_server :=
  handle_zap_status_code (Server waiting_for_zap_reply (Zap (set_user_id uid client_known) (asked_session []) code) (Base 1 2 k) (C') key 3).

Lemma curve_server_reply k key out : step senv (Zap_reply (PlainLogin.reply code text uid)) (server_at (waiting k key []) out) =
  Some (server_at (waiting k key (PlainLogin.reply code text uid)) out).
Proof. done. Qed.

Lemma curve_server_decides k key out :
  step senv Zap_event (server_at (waiting k key (PlainLogin.reply code text uid)) out) = Some (server_at (decided k key) out).
Proof.
  unfold step. cbn [errored server_at]. unfold Handshake.zap_msg_available. cbn [m_zap_msg_available server_side server_mechanism mstate].
  unfold zap_msg_available, receive_and_process_zap_reply. cbn [mstate server_at state s_zap waiting].
  change (bool_decide (waiting_for_zap_reply = waiting_for_zap_reply)) with true. cbn [zmq_assert mbind option_bind].
  by rewrite (PlainLogin.receive_reply_ok senv code text uid Hcode).
Qed.

(** The status, and the event of a refusal. *)
Definition refusal : Zap.event := Failed_auth ((default 0 (head code) - 48) * 100).

Lemma curve_decided_ok k key : decided k key =
  let z := Zap (set_user_id uid client_known) (asked_session []) code in
  if bool_decide (code = bytes_of "200") then Server sending_ready z (Base 1 2 k) (C') key 3
  else Server (if bool_decide (code = bytes_of "300") then error_sent else sending_error) (with_event refusal z) (Base 1 2 k) (C') key 3.
Proof.
  destruct (PlainAuth.status_code_cases _ Hcode) as [d Hc]. unfold decided, handle_zap_status_code, Zap.handle_zap_status_code, refusal.
  cbn [s_zap status_code]. rewrite Hc in *. assert (Hd : 50 ≤ d ≤ 53) by (cbn in Hcode; lia).
  destruct (decide (d = 50)) as [->|H50]; [by rewrite bool_decide_eq_true_2|].
  rewrite (bool_decide_eq_false_2 (_ = bytes_of "200")) by (intros Heq; vm_compute in Heq; congruence).
  destruct (decide (d = 51)) as [->|H51]; [by rewrite bool_decide_eq_true_2|].
  rewrite (bool_decide_eq_false_2 (_ = bytes_of "300")) by (intros Heq; vm_compute in Heq; congruence). rewrite (proj2 (Z.leb_le 51 d)), (proj2 (Z.leb_le d 53)) by lia.
  cbn [andb status_code with_event set_sess]. rewrite (proj2 (Z.eqb_neq d 50)), (proj2 (Z.eqb_neq d 51)) by lia. done.
Qed.

(** ** The steps of the handshake *)

Definition greeted : curve_client := Client expect_welcome mechanism_new cs (Base 2 1 cjunk) cjunk cjunk 0.
Definition welcomed (k cookie : list Z) : curve_client := Client send_initiate mechanism_new cs (Base 2 1 k) (S') cookie 0.
Definition asking (k cookie : list Z) : curve_client := Client expect_ready mechanism_new cs (Base 3 1 k) (S') cookie 1.
Definition met : curve_server := Server sending_welcome (Zap mechanism_new ss []) (Base 1 1 sjunk) (C') sjunk 0.
Definition known (key : list Z) : curve_server := Server waiting_for_initiate (Zap mechanism_new ss []) (Base 1 1 sjunk) (C') key 3.

Lemma run_hello : ∃ hello, step cenv Out (client_at client0 []) = Some (client_at greeted [hello]) ∧
  step senv (In hello) (server_at server0 []) = Some (server_at met []).
Proof.
  destruct (hello_ok c_long c_short s_long Hcs Hsl 1) as (signature & Hh1 & Hl & Ho).
  exists (hello_command (C') 1 signature). split.
  - apply (client_out client0 greeted _ []); [|done]. unfold client_next, produce_hello. cbn [client0 curve_client_new c_state c_base base_new cn_nonce].
    by rewrite Hh1.
  - apply server_in; [|done]. unfold server_process. cbn [server0 curve_server_new state].
    by rewrite (process_hello_ok c_long c_short s_long s_short Hcl Hcs Hsl Hss 1 signature _ ltac:(lia) Hl Ho).
Qed.

Lemma run_welcome out : ∃ r cookie welcome key k,
  step senv Out (server_at met []) = Some (server_at (known key) [welcome]) ∧
  step cenv (In welcome) (client_at greeted out) = Some (client_at (welcomed k (r ++ cookie)) out) ∧
  length r = 16%nat ∧ length cookie = 80%nat ∧
  crypto_secretbox_open (zeros 16 ++ cookie) (nonce "COOKIE--" r) key = Some (zeros 32 ++ C' ++ s_short) ∧
  crypto_box_beforenm S' c_short = Some k ∧ crypto_box_beforenm C' s_short = Some k.
Proof.
  destruct (welcome_ok c_long c_short s_long s_short Hcl Hcs Hsl Hss srandom met Hsr eq_refl) as (cookie & welcome & k & Hp & Hl & Ho & Hk1 & Hk2 & Hw).
  exists (srandom 0%nat 16%nat), cookie, (welcome_prefix ++ welcome), (srandom 1%nat 32%nat), k. split; [|split].
  - apply (server_out met (known _) _ []); [|done]. unfold server_next. cbn [state met]. by rewrite Hp.
  - apply client_in; [|done]. unfold client_process. rewrite has_prefix_app. unfold process_welcome.
    cbn [met s_drawn] in Hw. by rewrite Hw.
  - split; [apply Hsr|]. by split_and!.
Qed.

Lemma run_initiate r cookie key k outc outs : length r = 16%nat → length cookie = 80%nat →
  crypto_secretbox_open (zeros 16 ++ cookie) (nonce "COOKIE--" r) key = Some (zeros 32 ++ C' ++ s_short) →
  crypto_box_beforenm C' s_short = Some k →
  ∃ initiate, step cenv Out (client_at (welcomed k (r ++ cookie)) outc) = Some (client_at (asking k (r ++ cookie)) (outc ++ [initiate])) ∧
    step senv (In initiate) (server_at (known key) outs) = Some (server_at (waiting k key []) outs).
Proof.
  intros Hr Hc Ho Hk. pose proof (Hcr 0%nat 16%nat) as Hvr.
  destruct (initiate_ok c_long c_short s_long s_short Hcl Hcs Hsl Hss 2 (r ++ cookie) (crandom 0%nat 16%nat) (metadata (props co)) Hvr)
    as (vouch & body & Hi & Hvl & Hbl & Hbo & Hvo).
  exists (initiate_command (r ++ cookie) 2 body). split.
  - apply client_out; [|done]. unfold client_next. cbn [welcomed c_state]. unfold produce_initiate.
    destruct (basic_properties_fill co Hvc) as [Hbp Hba]. rewrite Hbp. cbn [mbind option_bind]. rewrite Hba. cbn [mbind option_bind].
    cbn [welcomed c_drawn c_base cn_nonce cn_server cn_cookie c_state c_mech c_sess]. by rewrite Hi.
  - apply server_in; [|done]. unfold server_process. cbn [known state].
    rewrite (process_initiate_ok c_long c_short s_long s_short Hcl Hcs Hsl Hss so (Handshake.peer_address senv) (known key) r cookie 2
      (crandom 0%nat 16%nat) vouch (metadata (props co)) body k) by (done || lia).
    by rewrite (authenticate_client (known key) k 2).
Qed.

(** ** The login *)

Definition schedule : list action :=
  [Left Out; Right_receives; Right Out; Left_receives; Left Out; Right_receives; Right (Zap_reply (PlainLogin.reply code text uid)); Right Zap_event;
   Right Out; Right Out; Left_receives].

Definition run_login : option (net curve_client curve_server) :=
  @acts _ _ client_side server_side cenv senv schedule (Net (engine_new client0) (engine_new server0) 0 0).

(** Up to the decision of the handler. *)
Lemma curve_login_asks : ∃ hello initiate welcome cookie key k, crypto_box_beforenm S' c_short = Some k ∧
  run_login = acts cenv senv [Right Out; Right Out; Left_receives]
    (Net (client_at (asking k cookie) [hello; initiate]) (server_at (decided k key) [welcome]) 1 2).
Proof.
  destruct run_hello as (hello & H1 & H2). destruct (run_welcome [hello]) as (r & cookie & welcome & key & k & H3 & H4 & Hr & Hc & Ho & Hk1 & Hk2).
  destruct (run_initiate r cookie key k [hello] [welcome] Hr Hc Ho Hk2) as (initiate & H5 & H6).
  exists hello, initiate, welcome, (r ++ cookie), key, k. split; [done|]. unfold run_login, schedule.
  erewrite acts_left by apply H1. erewrite acts_right_receives by first [apply H2|done].
  erewrite acts_right by apply H3. erewrite acts_left_receives by first [apply H4|done].
  erewrite acts_left by apply H5. erewrite acts_right_receives by first [apply H6|done].
  erewrite acts_right by apply curve_server_reply. by erewrite acts_right by apply curve_server_decides.
Qed.

(** The server after the decision. *)
Definition accepting : zap := Zap (set_user_id uid client_known) (asked_session []) code.
Definition decided_at (st : state_t) (z : zap) (n : Z) (k key : list Z) : curve_server := Server st z (Base n 2 k) (C') key 3.

Lemma curve_server_ready k key out : ∃ ready, step senv Out (server_at (decided_at sending_ready accepting 1 k key) out) =
    Some (server_at (decided_at Curve.ready accepting 2 k key) (out ++ [ready])) ∧
  ∀ c outc, c_state c = expect_ready → c_mech c = mechanism_new → c_base c = Base 3 1 k →
    step cenv (In ready) (client_at c outc) =
    Some (PlainLogin.ready_engine cenv (introduced so co).2
            (Client connected (introduced so co).2 (c_sess c) (Base 3 1 k) (cn_server c) (cn_cookie c) (c_drawn c)) outc).
Proof.
  destruct (ready_ok so (decided_at sending_ready accepting 1 k key) Hvs) as (body & Hp & Hl & Ho). exists (ready_command 1 body). split.
  - apply server_out; [|done]. unfold server_next. cbn [state decided_at]. by rewrite Hp.
  - intros c outc Hst Hm Hb. assert (Hfit' : fit so co = true) by (by rewrite fit_sym).
    unfold step, process_handshake_command. cbn [errored client_at msg_mode m_process client_side client_mechanism mstate].
    unfold client_process. assert (Hw : has_prefix welcome_prefix (ready_command 1 body) = false).
    { unfold has_prefix. rewrite bool_decide_eq_false_2; [by rewrite andb_false_r|]. by intros [=]. }
    rewrite Hw. assert (Hr : has_prefix ready_prefix (ready_command 1 body) = true) by (unfold ready_command; apply has_prefix_app). rewrite Hr.
    rewrite (process_ready_ok c_long c_short s_long s_short Hcl Hcs Hsl Hss so co c 1 body) by (done || lia || by rewrite Hb).
    rewrite Hb. cbn [mbind option_bind m_status client_side client_mechanism client_status c_state cn_nonce cn_precom].
    rewrite mechanism_ready_ok by done. cbn. by rewrite orb_false_r.
Qed.

Lemma curve_server_done z k key out : step senv Out (server_at (decided_at Curve.ready z 2 k key) out) =
  Some (PlainLogin.ready_engine senv (mech z) (decided_at Curve.ready z 2 k key) out).
Proof.
  unfold step, next_handshake_command. cbn [errored server_at msg_mode m_status server_side server_mechanism mstate server_status state decided_at].
  rewrite mechanism_ready_ok by done. cbn. by rewrite orb_false_r.
Qed.

Lemma curve_server_error z k key out : length (status_code z) = 3%nat →
  step senv Out (server_at (decided_at sending_error z 1 k key) out) =
  Some (server_at (decided_at error_sent z 1 k key) (out ++ [error_prefix ++ 3 :: status_code z])).
Proof.
  intros Hl. unfold step, next_handshake_command. cbn [errored server_at msg_mode m_status server_side server_mechanism mstate m_next].
  unfold server_next, produce_error. cbn [server_status state s_zap decided_at]. by rewrite Hl.
Qed.

Lemma server_quiet z k key out : step senv Out (server_at (decided_at error_sent z 1 k key) out) = Some (server_at (decided_at error_sent z 1 k key) out).
Proof. done. Qed.

Definition refused (c : curve_client) : curve_client :=
  Client error_received (c_mech c) (emit refusal (c_sess c)) (c_base c) (cn_server c) (cn_cookie c) (c_drawn c).

Lemma curve_client_error c out : code ≠ bytes_of "200" → c_state c = expect_ready →
  step cenv (In (error_prefix ++ 3 :: code)) (client_at c out) = Some (Engine (refused c) false [] None false false true out).
Proof.
  destruct (PlainAuth.status_code_cases _ Hcode) as [d Hc]. pose proof Hcode as Hd. unfold refused, refusal. rewrite Hc in *. intros Hne Hst.
  assert (Hd' : 51 ≤ d ≤ 53) by (destruct (decide (d = 50)) as [->|]; [by destruct Hne|cbn in Hd; lia]).
  unfold step, process_handshake_command. cbn [errored client_at msg_mode m_process client_side client_mechanism mstate].
  unfold client_process. change (has_prefix welcome_prefix (error_prefix ++ [3; d; 48; 48])) with false.
  change (has_prefix ready_prefix (error_prefix ++ [3; d; 48; 48])) with false. rewrite has_prefix_app.
  unfold process_error. rewrite Hst. change (error_reason (length error_prefix) (error_prefix ++ [3; d; 48; 48])) with (Some [d; 48; 48]).
  unfold handle_error_reason. rewrite (proj2 (Z.leb_le 51 d)), (proj2 (Z.leb_le d 53)) by lia. done.
Qed.

(** The end of each login. *)
Lemma login_ends : ∃ hello initiate welcome cookie key k, crypto_box_beforenm S' c_short = Some k ∧
  let c := asking k cookie in
  if bool_decide (code = bytes_of "200") then
    ∃ ready, run_login = Some (Net
      (PlainLogin.ready_engine cenv (introduced so co).2
         (Client connected (introduced so co).2 cs (Base 3 1 k) (S') cookie 1) [hello; initiate])
      (PlainLogin.ready_engine senv (mech accepting) (decided_at Curve.ready accepting 2 k key) [welcome; ready]) 2 2)
  else
    let z := with_event refusal accepting in
    if bool_decide (code = bytes_of "300") then
      run_login = Some (Net (client_at c [hello; initiate]) (server_at (decided_at error_sent z 1 k key) [welcome]) 1 2)
    else
      run_login = Some (Net (Engine (refused c) false [] None false false true [hello; initiate])
                            (server_at (decided_at error_sent z 1 k key) [welcome; error_prefix ++ 3 :: code]) 2 2).
Proof.
  destruct curve_login_asks as (hello & initiate & welcome & cookie & key & k & Hk & Heq). exists hello, initiate, welcome, cookie, key, k.
  split; [done|]. rewrite Heq, curve_decided_ok. cbv zeta. fold accepting. destruct (bool_decide (code = bytes_of "200")) eqn:H2.
  - destruct (curve_server_ready k key [welcome]) as (ready & Hs & Hc). exists ready. erewrite acts_right by apply Hs.
    erewrite acts_right by apply curve_server_done. by erewrite acts_left_receives by first [by apply Hc|done].
  - apply bool_decide_eq_false in H2. destruct (bool_decide (code = bytes_of "300")) eqn:H3.
    + do 2 erewrite acts_right by apply server_quiet. by rewrite acts_left_waits.
    + assert (Hl : length (status_code (with_event refusal accepting)) = 3%nat) by (destruct (PlainAuth.status_code_cases _ Hcode) as [d Hc]; cbn; by rewrite Hc).
      erewrite acts_right by apply curve_server_error, Hl. erewrite acts_right by apply server_quiet.
      by erewrite acts_left_receives by first [by apply curve_client_error|done].
Qed.

(** A CURVE login between a client and a server that have each other's right keys,
    the ZAP handler answering [code]: the handler is sent one request with exactly the
    client's long-term public key.  With 200 both engines become ready with the same key
    for the messages, which is the key of the two short-term pairs, and nonces that the
    peer accepts; each has exactly the properties its peer announced, and the server the
    user id of the reply.  With 400 or 500 the server answers with an ERROR command and
    the client fails with the event of that status.  With 300 the server sends nothing
    more and neither engine fails.  In the last two cases neither is ready, and the server
    reports the failure.  Nothing depends on what memory held before. *)
Theorem curve_login :
  ∃ n k, run_login = Some n ∧ crypto_box_beforenm S' c_short = Some k ∧
  zap_out (sess (s_zap (mstate (right n)))) = request_parts ss (public_of c_long) ∧
  let c := mstate (left n) in
  let s := mstate (right n) in
  if bool_decide (code = bytes_of "200") then
    msg_mode (left n) = true ∧ msg_mode (right n) = true ∧ errored (left n) = false ∧ errored (right n) = false ∧
    cn_precom (c_base c) = k ∧ cn_precom (s_base s) = k ∧
    cn_peer_nonce (s_base s) < cn_nonce (c_base c) ∧ cn_peer_nonce (c_base c) < cn_nonce (s_base s) ∧
    zmtp_properties (c_mech c) = list_to_map (props so) ∧ zmtp_properties (mech (s_zap s)) = list_to_map (props co) ∧
    peer_id (c_mech c) = (if has_identity so && recv_routing_id co then routing_id so else []) ∧
    peer_id (mech (s_zap s)) = (if has_identity co && recv_routing_id so then routing_id co else []) ∧
    user_id (mech (s_zap s)) = uid ∧ zap_properties (mech (s_zap s)) = {[ bytes_of "User-Id" := uid ]}
  else
    msg_mode (left n) = false ∧ msg_mode (right n) = false ∧ server_status s = Error ∧ c_mech c = mechanism_new ∧
    events (sess (s_zap s)) = events ss ++ [refusal] ∧
    if bool_decide (code = bytes_of "300") then
      length (sent (right n)) = 1%nat ∧ client_status c = Handshaking ∧ errored (left n) = false ∧ errored (right n) = false
    else
      tail (sent (right n)) = [error_prefix ++ 3 :: code] ∧ client_status c = Error ∧ errored (left n) = true ∧
      events (c_sess c) = events cs ++ [refusal].
Proof.
  destruct login_ends as (hello & initiate & welcome & cookie & key & k & Hk & Hend). cbv zeta in Hend.
  destruct (bool_decide (code = bytes_of "200")); [|destruct (bool_decide (code = bytes_of "300"))].
  - destruct Hend as (ready & Hrun). eexists _, k. split; [exact Hrun|]. split; [done|]. split; [done|].
    assert (Hfit' : fit so co = true) by (by rewrite fit_sym). cbn [left right mstate PlainLogin.ready_engine c_mech s_zap mech decided_at accepting].
    rewrite introduced_props by done. by split_and!.
  - eexists _, k. split; [exact Hend|]. split; [done|]. split; [done|]. by split_and!.
  - eexists _, k. split; [exact Hend|]. split; [done|]. split; [done|]. by split_and!.
Qed.
End login.

(** ** Witness: a login that is accepted, with the functions of [CurveExample]. *)

Definition ex_key (n : Z) : list Z := replicate 32 n.
Definition ex_random (i n : nat) : list Z := replicate n (Z.of_nat i).

Lemma curve_login_witness :
  valid PlainAuth.ex_client ∧ valid PlainAuth.ex_server ∧
  ∃ n, run_login (ex_key 1) (ex_key 2) (ex_key 3) (ex_key 4) (PlainAuth.ex_env PlainAuth.ex_client) (PlainAuth.ex_env PlainAuth.ex_server)
         (session_new None) PlainAuth.ex_session (bytes_of "200") [] [7] ex_random ex_random [] [] = Some n ∧
    msg_mode (left n) = true ∧ msg_mode (right n) = true.
Proof.
  assert (H1 : valid PlainAuth.ex_client) by (split; [done|split; [by apply Nat.leb_le|constructor]]).
  assert (H2 : valid PlainAuth.ex_server) by (split; [done|split; [by apply Nat.leb_le|constructor]]).
  split; [exact H1|]. split; [exact H2|].
  destruct (curve_login (ex_key 1) (ex_key 2) (ex_key 3) (ex_key 4) (PlainAuth.ex_env PlainAuth.ex_client) (PlainAuth.ex_env PlainAuth.ex_server)
    (session_new None) PlainAuth.ex_session ZMQ_REP false (bytes_of "200") [] [7] ex_random ex_random [] []
    ltac:(reflexivity) ltac:(reflexivity) ltac:(reflexivity) ltac:(reflexivity) (λ i n, length_replicate n _) (λ i n, length_replicate n _)
    H1 H2 ltac:(by apply Nat.leb_le) ltac:(reflexivity) ltac:(reflexivity) ltac:(reflexivity) ltac:(reflexivity) ltac:(reflexivity)
    ltac:(reflexivity) ltac:(reflexivity) ltac:(vm_compute; reflexivity)) as (n & k & Hn & _ & _ & Hc).
  exact (ex_intro _ n (conj Hn (conj (proj1 Hc) (proj1 (proj2 Hc))))).
Defined.

(** ** Limits *)

(** A peer that got a WELCOME, and has not been authenticated, sends an INITIATE whose box
    has [n] bytes. *)
Definition run_long_initiate (n : nat) : option (option (rc * curve_server)) :=
  let client := honest_client (ex_key 1) (ex_key 2) (ex_key 3) in
  let server := honest_server (ex_key 3) (ex_key 4) in
  hello ← tools_produce_hello client 1;
  '(_, p) ← server_process PlainAuth.ex_server [] server hello (curve_server_new PlainAuth.ex_session [] [] []);
  '(_, welcome, p) ← server_next PlainAuth.ex_server server ex_random p;
  welcome ← welcome;
  w ← tools_process_welcome client welcome;
  '(_, cookie, _) ← w;
  Some (server_process PlainAuth.ex_server [] server (initiate_prefix ++ cookie ++ put_uint64 2 ++ zeros n) p).

(** A client that has not sent HELLO yet gets a READY command made with the key that the
    uninitialised [cn_precom] holds. *)
Definition run_early_ready : option (rc * curve_client) :=
  ready_box ← ex_box (zeros 32 ++ metadata (props PlainAuth.ex_server)) (nonce "CurveZMQREADY---" (put_uint64 1)) (zeros 32);
  client_process PlainAuth.ex_client (honest_client (ex_key 1) (ex_key 2) (ex_key 3)) (ready_command 1 (drop 16 ready_box))
    (curve_client_new (session_new None) (zeros 32) [] []).

(** [process_initiate] copies the box of INITIATE to an array of 416 bytes on the stack
    without a check of its size: a box of more than 400 bytes overflows it, before the
    peer is authenticated.  And the client takes READY in every state: before it has a
    key for the connection, a READY that fits what memory held for the key makes it
    ready. *)
Theorem curve_defects :
  (∃ p, run_long_initiate 400 = Some (Some (RcErr EPROTO, p))) ∧ run_long_initiate 401 = Some None ∧
  ∃ c, run_early_ready = Some (RcOk, c) ∧ client_status c = Ready.
Proof.
  split; [eexists; vm_compute; reflexivity|]. split; [vm_compute; reflexivity|]. eexists. split; vm_compute; reflexivity.
Qed.

End CurveLogin.
