(* ===== verification/Own.v ===== *)
(** * The ownership tree (own.cpp, object.cpp)

    Sockets, sessions, listeners and connecters are owned by one another: a socket
    is a root, the objects it launches are its children, and so on.  They run in
    different threads and talk by commands.  An object may only be deleted when the
    objects it owns are gone, when the pipes attached to it are gone, and when no
    command for it is on its way; [own_t] finds out by counting.  The model has all
    the objects of a context as a map from their addresses, each with the commands
    sent to it that it has not processed, in the order they were sent.  (A mailbox
    keeps the order of the commands of one thread; to let the commands for each
    object arrive at any time is to allow more.)

    Modelled: own.cpp and the commands of object.cpp for it, what the classes that
    derive from [own_t] add to the protocol (socket_base.cpp, session_base.cpp,
    tcp_listener.cpp, tcp_connecter.cpp), and the reference that ctx.cpp takes on a
    socket for an inproc connection.  A pipe is a number here; its own termination
    is in [PipePair].

    The theorems: no command is ever sent to an object that was deleted, and no
    assertion fails, in fewer than 2^30 steps ([own_safe]); and when the sockets are
    closed the protocol ends with every object deleted ([own_terminates]). *)

From S2P Require Import Prelude.

Module Own.

(** ** Objects *)

(** The classes that derive from [own_t]: [socket_base_t], [session_base_t], and
    the listeners and connecters. *)
Inductive kind_t : Type := Socket | Session | Leaf.

#[export] Instance kind_eq_dec : EqDecision kind_t.
Proof. solve_decision. Defined.

(** [command_t], the commands of objects of the ownership tree. *)
Inductive command_t : Type :=
| plug
| own (object_ : Z)
| attach
| bind
| inproc_connected
| term_req (object_ : Z)
| term (linger_ : Z)
| term_ack.

#[export] Instance command_eq_dec : EqDecision command_t.
Proof. solve_decision. Defined.

(** An object: the members of [own_t]; [_socket] of a session, a listener or a
    connecter; of a socket or a session how many pipes are attached ([pipes]), and of
    a session whether one of them is [_pipe] (the others are [_zap_pipe] and
    [_terminating_pipes]) and [_pending]; whether a socket is in the endpoint table
    of the context; the calls of [inc_seqnum] whose command is still to be sent, by
    [find_endpoint] ([found]) and [pend_connection] ([pended]); and the commands sent
    to it. *)
Record own_t : Type := Own_t {
  kind : kind_t;
  _terminating : bool;
  _sent_seqnum : Z;
  _processed_seqnum : Z;
  _owner : option Z;
  _owned : gset Z;
  _term_acks : Z;
  _socket : Z;
  linger : Z;
  pipes : Z;
  _pipe : bool;
  _pending : bool;
  registered : bool;
  found : Z;
  pended : Z;
  inbox : list command_t;
}.

Notation world := (gmap Z own_t).

Definition set_terminating o := Own_t o.(kind) true o.(_sent_seqnum) o.(_processed_seqnum) o.(_owner) o.(_owned) o.(_term_acks) o.(_socket) o.(linger) o.(pipes) o.(_pipe) o.(_pending) o.(registered) o.(found) o.(pended) o.(inbox).
Definition set_sent v o := Own_t o.(kind) o.(_terminating) v o.(_processed_seqnum) o.(_owner) o.(_owned) o.(_term_acks) o.(_socket) o.(linger) o.(pipes) o.(_pipe) o.(_pending) o.(registered) o.(found) o.(pended) o.(inbox).
Definition set_processed v o := Own_t o.(kind) o.(_terminating) o.(_sent_seqnum) v o.(_owner) o.(_owned) o.(_term_acks) o.(_socket) o.(linger) o.(pipes) o.(_pipe) o.(_pending) o.(registered) o.(found) o.(pended) o.(inbox).
Definition set_owned v o := Own_t o.(kind) o.(_terminating) o.(_sent_seqnum) o.(_processed_seqnum) o.(_owner) v o.(_term_acks) o.(_socket) o.(linger) o.(pipes) o.(_pipe) o.(_pending) o.(registered) o.(found) o.(pended) o.(inbox).
Definition set_acks v o := Own_t o.(kind) o.(_terminating) o.(_sent_seqnum) o.(_processed_seqnum) o.(_owner) o.(_owned) v o.(_socket) o.(linger) o.(pipes) o.(_pipe) o.(_pending) o.(registered) o.(found) o.(pended) o.(inbox).
Definition set_pipes n p o := Own_t o.(kind) o.(_terminating) o.(_sent_seqnum) o.(_processed_seqnum) o.(_owner) o.(_owned) o.(_term_acks) o.(_socket) o.(linger) n p o.(_pending) o.(registered) o.(found) o.(pended) o.(inbox).
Definition set_pending v o := Own_t o.(kind) o.(_terminating) o.(_sent_seqnum) o.(_processed_seqnum) o.(_owner) o.(_owned) o.(_term_acks) o.(_socket) o.(linger) o.(pipes) o.(_pipe) v o.(registered) o.(found) o.(pended) o.(inbox).
Definition set_registered v o := Own_t o.(kind) o.(_terminating) o.(_sent_seqnum) o.(_processed_seqnum) o.(_owner) o.(_owned) o.(_term_acks) o.(_socket) o.(linger) o.(pipes) o.(_pipe) o.(_pending) v o.(found) o.(pended) o.(inbox).
Definition set_found v o := Own_t o.(kind) o.(_terminating) o.(_sent_seqnum) o.(_processed_seqnum) o.(_owner) o.(_owned) o.(_term_acks) o.(_socket) o.(linger) o.(pipes) o.(_pipe) o.(_pending) o.(registered) v o.(pended) o.(inbox).
Definition set_pended v o := Own_t o.(kind) o.(_terminating) o.(_sent_seqnum) o.(_processed_seqnum) o.(_owner) o.(_owned) o.(_term_acks) o.(_socket) o.(linger) o.(pipes) o.(_pipe) o.(_pending) o.(registered) o.(found) v o.(inbox).
Definition set_inbox v o := Own_t o.(kind) o.(_terminating) o.(_sent_seqnum) o.(_processed_seqnum) o.(_owner) o.(_owned) o.(_term_acks) o.(_socket) o.(linger) o.(pipes) o.(_pipe) o.(_pending) o.(registered) o.(found) o.(pended) v.

(** Apply [f] to the object at [x]; a pointer to a deleted object is [None]. *)
Definition on (x : Z) (f : own_t → own_t) (w : world) : option world :=
  o ← w !! x; Some (<[x := f o]> w).

(** ** Sending commands (object.cpp) *)

Definition inc_seqnum (x : Z) (w : world) : option world :=
  on x (λ o, set_sent (u32 (o.(_sent_seqnum) + 1)) o) w.

Definition send_command (x : Z) (cmd : command_t) (w : world) : option world :=
  on x (λ o, set_inbox (o.(inbox) ++ [cmd]) o) w.

Definition send_plug (x : Z) (w : world) : option world := w ← inc_seqnum x w; send_command x plug w.
Definition send_own (x object_ : Z) (w : world) : option world := w ← inc_seqnum x w; send_command x (own object_) w.
Definition send_attach (x : Z) (inc_seqnum_ : bool) (w : world) : option world :=
  w ← (if inc_seqnum_ then inc_seqnum x w else Some w); send_command x attach w.
Definition send_bind (x : Z) (inc_seqnum_ : bool) (w : world) : option world :=
  w ← (if inc_seqnum_ then inc_seqnum x w else Some w); send_command x bind w.
Definition send_term_req (x object_ : Z) (w : world) : option world := send_command x (term_req object_) w.
Definition send_term (linger_ x : Z) (w : world) : option world := send_command x (term linger_) w.
Definition send_term_ack (x : Z) (w : world) : option world := send_command x term_ack w.
Definition send_inproc_connected (x : Z) (w : world) : option world := send_command x inproc_connected w.

(** ** Termination (own.cpp) *)

Definition register_term_acks (x count_ : Z) (w : world) : option world :=
  on x (λ o, set_acks (o.(_term_acks) + count_) o) w.

(** [delete this].  A pipe that still has the object as its sink, a command for it
    or a thread about to send it one would be left with a dangling pointer. *)
Definition process_destroy (x : Z) (w : world) : option world :=
  o ← w !! x;
  _ ← zmq_assert (bool_decide (o.(inbox) = []) && (o.(found) =? 0) && (o.(pended) =? 0) && (o.(pipes) =? 0));
  Some (delete x w).

Definition check_term_acks (x : Z) (w : world) : option world :=
  o ← w !! x;
  if o.(_terminating) && (o.(_processed_seqnum) =? o.(_sent_seqnum)) && (o.(_term_acks) =? 0) then
    _ ← zmq_assert (bool_decide (o.(_owned) = ∅));
    w ← match o.(_owner) with Some p => send_term_ack p w | None => Some w end;
    process_destroy x w
  else Some w.

Definition unregister_term_ack (x : Z) (w : world) : option world :=
  o ← w !! x;
  _ ← zmq_assert (0 <? o.(_term_acks));
  w ← on x (set_acks (o.(_term_acks) - 1)) w;
  check_term_acks x w.

Definition process_term_ack : Z → world → option world := unregister_term_ack.

Definition process_seqnum (x : Z) (w : world) : option world :=
  w ← on x (λ o, set_processed (u64 (o.(_processed_seqnum) + 1)) o) w;
  check_term_acks x w.

Definition process_term_req (x object_ : Z) (w : world) : option world :=
  o ← w !! x;
  if o.(_terminating) then Some w
  else if negb (bool_decide (object_ ∈ o.(_owned))) then Some w
  else
    w ← on x (set_owned (o.(_owned) ∖ {[object_]})) w;
    w ← register_term_acks x 1 w;
    send_term o.(linger) object_ w.

Definition process_own (x object_ : Z) (w : world) : option world :=
  o ← w !! x;
  if o.(_terminating) then
    w ← register_term_acks x 1 w;
    send_term 0 object_ w
  else on x (set_owned ({[object_]} ∪ o.(_owned))) w.

(** The loop over [_owned]. *)
Fixpoint send_terms (linger_ : Z) (l : list Z) (w : world) : option world :=
  match l with
  | [] => Some w
  | c :: l => w ← send_term linger_ c w; send_terms linger_ l w
  end.

Definition own_process_term (x linger_ : Z) (w : world) : option world :=
  o ← w !! x;
  _ ← zmq_assert (negb o.(_terminating));
  w ← send_terms linger_ (elements o.(_owned)) w;
  w ← register_term_acks x (Z.of_nat (size o.(_owned))) w;
  w ← on x (set_owned ∅) w;
  w ← on x set_terminating w;
  check_term_acks x w.

(** [process_term] is virtual: a socket leaves the endpoint table and waits for its
    pipes; a session waits for its pipes first. *)
Definition process_term (x linger_ : Z) (w : world) : option world :=
  o ← w !! x;
  match o.(kind) with
  | Socket =>
      w ← on x (set_registered false) w;
      w ← register_term_acks x o.(pipes) w;
      own_process_term x linger_ w
  | Session =>
      _ ← zmq_assert (negb o.(_pending));
      if o.(pipes) =? 0 then own_process_term x 0 w else on x (set_pending true) w
  | Leaf => own_process_term x linger_ w
  end.

Definition terminate (x : Z) (w : world) : option world :=
  o ← w !! x;
  if o.(_terminating) then Some w
  else match o.(_owner) with
       | None => process_term x o.(linger) w
       | Some p => send_term_req p x w
       end.

Definition term_child : Z → Z → world → option world := process_term_req.

Definition set_owner (x c : Z) (w : world) : option world :=
  o ← w !! c;
  _ ← zmq_assert (bool_decide (o.(_owner) = None));
  Some (<[c := Own_t o.(kind) o.(_terminating) o.(_sent_seqnum) o.(_processed_seqnum) (Some x) o.(_owned) o.(_term_acks) o.(_socket) o.(linger) o.(pipes) o.(_pipe) o.(_pending) o.(registered) o.(found) o.(pended) o.(inbox)]> w).

Definition launch_child (x c : Z) (w : world) : option world :=
  w ← set_owner x c w;
  w ← send_plug c w;
  send_own x c w.

(** ** Pipes of sockets and sessions *)

(** socket_base.cpp: [attach_pipe], and [process_bind] that calls it. *)
Definition attach_pipe (x : Z) (w : world) : option world :=
  w ← on x (λ o, set_pipes (o.(pipes) + 1) o.(_pipe) o) w;
  o ← w !! x;
  if o.(_terminating) then register_term_acks x 1 w else Some w.

Definition process_bind (x : Z) (w : world) : option world :=
  o ← w !! x;
  _ ← zmq_assert (bool_decide (o.(kind) = Socket));
  attach_pipe x w.

(** session_base.cpp: an engine is attached; the session makes its pipe to the
    socket if it has none. *)
Definition process_attach (x : Z) (w : world) : option world :=
  o ← w !! x;
  _ ← zmq_assert (bool_decide (o.(kind) = Session));
  if negb o.(_pipe) && negb o.(_terminating) then
    w ← on x (set_pipes (o.(pipes) + 1) true) w;
    send_bind o.(_socket) true w
  else Some w.

Definition process_plug (x : Z) (w : world) : option world :=
  o ← w !! x;
  _ ← zmq_assert (bool_decide (o.(kind) ≠ Socket));
  Some w.

(** A pipe is gone ([pipe_terminated] of both classes); [current]: it is [_pipe] of
    a session. *)
Definition pipe_terminated (x : Z) (current : bool) (w : world) : option world :=
  o ← w !! x;
  w ← on x (set_pipes (o.(pipes) - 1) (o.(_pipe) && negb current)) w;
  match o.(kind) with
  | Socket => if o.(_terminating) then unregister_term_ack x w else Some w
  | Session =>
      if o.(_pending) && (o.(pipes) - 1 =? 0) then
        w ← on x (set_pending false) w;
        own_process_term x 0 w
      else Some w
  | Leaf => None
  end.

(** ** Processing a command (object.cpp) *)

Definition process_command (x : Z) (cmd : command_t) (w : world) : option world :=
  match cmd with
  | plug => w ← process_plug x w; process_seqnum x w
  | own c => w ← process_own x c w; process_seqnum x w
  | attach => w ← process_attach x w; process_seqnum x w
  | bind => w ← process_bind x w; process_seqnum x w
  | inproc_connected => process_seqnum x w
  | term_req c => process_term_req x c w
  | term l => process_term x l w
  | term_ack => process_term_ack x w
  end.

Definition deliver (x : Z) (w : world) : option world :=
  o ← w !! x;
  match o.(inbox) with
  | [] => None
  | cmd :: rest => process_command x cmd (<[x := set_inbox rest o]> w)
  end.

(** ** What the program does with its objects *)

Definition new_object (k : kind_t) (socket_ linger_ : Z) (pipe_ : bool) : own_t :=
  Own_t k false 0 0 None ∅ 0 socket_ linger_ (b2z pipe_) pipe_ false false 0 0 [].

(** The socket of what [x] launches. *)
Definition socket_of (x : Z) (o : own_t) : Z :=
  match o.(kind) with Socket => x | _ => o.(_socket) end.

(** [x] creates an object and launches it.  [pipe_]: [connect] of a socket, which
    attaches a pipe between the two first.  [engine_]: a listener that accepted a
    connection. *)
Definition launch (x c : Z) (k : kind_t) (linger_ : Z) (pipe_ engine_ : bool) (w : world) : option world :=
  o ← w !! x;
  let w := <[c := new_object k (socket_of x o) linger_ pipe_]> w in
  w ← (if pipe_ then attach_pipe x w else Some w);
  w ← (if engine_ then inc_seqnum c w else Some w);
  w ← launch_child x c w;
  if engine_ then send_attach c false w else Some w.

(** [connect_pending]: the socket [x] binds an address that [y] waits for. *)
Definition connect_pending (x y : Z) (w : world) : option world :=
  w ← inc_seqnum x w;
  w ← process_command x bind w;
  w ← on y (λ o, set_pended (o.(pended) - 1) o) w;
  send_inproc_connected y w.

(** The steps of the program.  Any object can be asked to terminate at any time. *)
Inductive action : Type :=
| ACreate (x linger_ : Z)
| ALaunch (x c : Z) (k : kind_t) (linger_ : Z) (pipe_ engine_ : bool)
| AAttach (x : Z)
| ADeliver (x : Z)
| ATerminate (x : Z)
| ATermChild (x c : Z)
| ARegister (x : Z)
| AFind (x : Z)
| APend (x : Z)
| ABind (x : Z)
| AConnectPending (x y : Z)
| AAttachPipe (x : Z)
| AZapPipe (x : Z)
| ADetachPipe (x : Z)
| APipeTerminated (x : Z) (current : bool).

Definition test (x : Z) (w : world) (f : own_t → bool) : bool :=
  match w !! x with Some o => f o | None => false end.

Definition is_kind (k : kind_t) (o : own_t) : bool := bool_decide (o.(kind) = k).

(** When the program takes a step.  A new object is at an address that no object
    has; an endpoint is found while its socket is registered; a socket binds, pends
    a connection or connects before it is closed. *)
Definition enabled (a : action) (w : world) : bool :=
  match a with
  | ACreate x _ => bool_decide (w !! x = None)
  | ALaunch x c k _ pipe_ engine_ =>
      bool_decide (w !! c = None) && negb (bool_decide (k = Socket)) && test x w (λ o,
        (negb pipe_ || is_kind Socket o)) && (negb (pipe_ || engine_) || bool_decide (k = Session))
  | AAttach x => test x w (λ o, match o.(_owner) with Some p => test p w (is_kind Session) | None => false end)
  | ADeliver x => test x w (λ o, negb (bool_decide (o.(inbox) = [])))
  | ATerminate x => test x w (λ _, true)
  | ATermChild x _ => test x w (λ _, true)
  | ARegister x => test x w (λ o, is_kind Socket o && negb o.(_terminating))
  | AFind x => test x w registered
  | APend x => test x w (λ o, is_kind Socket o && negb o.(_terminating))
  | ABind x => test x w (λ o, 0 <? o.(found))
  | AConnectPending x y => test x w (λ o, is_kind Socket o && negb o.(_terminating)) && test y w (λ o, 0 <? o.(pended))
  | AAttachPipe x => test x w (is_kind Socket)
  | AZapPipe x => test x w (λ o, is_kind Session o && negb o.(_terminating))
  | ADetachPipe x => test x w (is_kind Session)
  | APipeTerminated x current => test x w (λ o, if current then o.(_pipe) else b2z o.(_pipe) <? o.(pipes))
  end.

(** [find_endpoint] and [pend_connection]: the reference taken under the lock. *)
Definition find_endpoint (x : Z) (w : world) : option world :=
  w ← inc_seqnum x w; on x (λ o, set_found (o.(found) + 1) o) w.

Definition pend_connection (x : Z) (w : world) : option world :=
  w ← inc_seqnum x w; on x (λ o, set_pended (o.(pended) + 1) o) w.

Definition exec (a : action) (w : world) : option world :=
  match a with
  | ACreate x l => Some (<[x := new_object Socket x l false]> w)
  | ALaunch x c k l pipe_ engine_ => launch x c k l pipe_ engine_ w
  | AAttach x => o ← w !! x; p ← o.(_owner); send_attach p true w
  | ADeliver x => deliver x w
  | ATerminate x => terminate x w
  | ATermChild x c => term_child x c w
  | ARegister x => on x (set_registered true) w
  | AFind x => find_endpoint x w
  | APend x => pend_connection x w
  | ABind x => w ← on x (λ o, set_found (o.(found) - 1) o) w; send_bind x false w
  | AConnectPending x y => connect_pending x y w
  | AAttachPipe x => attach_pipe x w
  | AZapPipe x => on x (λ o, set_pipes (o.(pipes) + 1) o.(_pipe) o) w
  | ADetachPipe x => on x (λ o, set_pipes o.(pipes) false o) w
  | APipeTerminated x current => pipe_terminated x current w
  end.

(** The contexts reached in [n] steps. *)
Inductive reach : nat → world → Prop :=
| reach_start : reach 0 ∅
| reach_step n w a w' : reach n w → enabled a w = true → exec a w = Some w' → reach (S n) w'.

(** ** Sums over the objects *)

Definition osum (f : Z → own_t → Z) (w : world) : Z := map_fold (λ x o s, f x o + s) 0 w.

Lemma osum_insert f w x o : w !! x = None → osum f (<[x := o]> w) = f x o + osum f w.
Proof. intros. unfold osum. rewrite map_fold_insert_L; [done|intros; lia|done]. Qed.

Lemma osum_delete f w x o : w !! x = Some o → osum f w = f x o + osum f (delete x w).
Proof. intros. unfold osum. rewrite (map_fold_delete_L _ _ x o); [done|intros; lia|done]. Qed.

Lemma osum_update f w x o o' : w !! x = Some o → osum f (<[x := o']> w) = osum f w - f x o + f x o'.
Proof.
  intros H. rewrite (osum_delete f w x o H), (osum_delete f (<[x := o']> w) x o') by apply lookup_insert_eq.
  rewrite delete_insert_eq. lia.
Qed.

Lemma osum_ind (P : world → Z → Prop) f :
  P ∅ 0 → (∀ x o w s, w !! x = None → P w s → P (<[x := o]> w) (f x o + s)) → ∀ w, P w (osum f w).
Proof. intros H0 HS w. induction w as [|x o w Hx IH] using map_ind; [done|]. rewrite osum_insert by done. by apply HS. Qed.

Lemma osum_ext f g w : (∀ x o, w !! x = Some o → f x o = g x o) → osum f w = osum g w.
Proof.
  induction w as [|x o w Hx IH] using map_ind; [done|]. intros H. rewrite !osum_insert by done.
  rewrite (H x o) by apply lookup_insert_eq. f_equal. apply IH. intros y oy Hy. apply H. rewrite lookup_insert_ne by congruence. done.
Qed.

Lemma osum_nonneg f w : (∀ x o, w !! x = Some o → 0 ≤ f x o) → 0 ≤ osum f w.
Proof.
  induction w as [|x o w Hx IH] using map_ind; [done|]. intros H. rewrite osum_insert by done.
  pose proof (H x o (lookup_insert_eq _ _ _)). enough (0 ≤ osum f w) by lia.
  apply IH. intros y oy Hy. apply H. rewrite lookup_insert_ne by congruence. done.
Qed.

Lemma osum_elem f w x o : (∀ y o, w !! y = Some o → 0 ≤ f y o) → w !! x = Some o → f x o ≤ osum f w.
Proof.
  intros H Hx. rewrite (osum_delete f w x o Hx). enough (0 ≤ osum f (delete x w)) by lia.
  apply osum_nonneg. intros y oy [_ Hy]%lookup_delete_Some. by apply H.
Qed.

Lemma osum_zero f w : (∀ x o, w !! x = Some o → f x o = 0) → osum f w = 0.
Proof. intros H. rewrite (osum_ext f (λ _ _, 0)) by done. apply (osum_ind (λ _ s, s = 0)); [done|]. intros; lia. Qed.

(** ** The invariant

    The token of a child says which stage its life is in: its owner is yet to hear
    of it ([own] is on its way), has it in [_owned], or has told it to terminate. *)

Definition is_seq (cmd : command_t) : bool :=
  match cmd with plug | own _ | attach | bind | inproc_connected => true | _ => false end.
Definition is_ack (cmd : command_t) : bool := match cmd with term_ack => true | _ => false end.
Definition is_term (cmd : command_t) : bool := match cmd with term _ => true | _ => false end.
Definition is_own (c : Z) (cmd : command_t) : bool := bool_decide (cmd = own c).

(** While [x] processes a command: the tokens of children it has in hand ([hand], less
    those it gave away too many), whether it has its own ([t]), the commands it is yet to count ([s]) and the acks it
    has registered too many ([a]). *)
Definition here (x y v : Z) : Z := if bool_decide (y = x) then v else 0.

Definition told (o : own_t) : Z := count is_term o.(inbox) + b2z o.(_pending) + b2z o.(_terminating).
Definition token (x t c : Z) (o : own_t) : Z := told o + here x c t.
Definition child_token (x t p c : Z) (o : own_t) : Z := if bool_decide (o.(_owner) = Some p) then token x t c o else 0.
Definition holds (x : Z) (hand : Z → Z) (y : Z) (o : own_t) (c : Z) : Z :=
  count (is_own c) o.(inbox) + b2z (bool_decide (c ∈ o.(_owned))) + here x y (hand c).

(** The pipes a terminating socket waits for. *)
Definition base (o : own_t) : Z := if o.(_terminating) && is_kind Socket o then o.(pipes) else 0.

Definition refs (o : own_t) : Z := count is_seq o.(inbox) + o.(found) + o.(pended).

(** The class of the objects a command is for. *)
Definition cmd_ok (o : own_t) (cmd : command_t) : Prop :=
  match cmd with
  | plug => o.(kind) ≠ Socket
  | attach => o.(kind) = Session
  | bind | inproc_connected => o.(kind) = Socket
  | _ => True
  end.

Record flat (s N : Z) (o : own_t) : Prop := {
  f_sent : o.(_sent_seqnum) = u32 (o.(_processed_seqnum) + refs o + s);
  f_bound : o.(_processed_seqnum) + refs o + s ≤ N;
  f_processed : 0 ≤ o.(_processed_seqnum);
  f_found : 0 ≤ o.(found);
  f_pended : 0 ≤ o.(pended);
  f_refs_socket : o.(kind) ≠ Socket → o.(found) = 0 ∧ o.(pended) = 0;
  f_pipes : 0 ≤ o.(pipes);
  f_leaf : o.(kind) = Leaf → o.(pipes) = 0;
  f_session : o.(kind) = Session → o.(_terminating) = true → o.(pipes) = 0;
  f_pending : o.(_pending) = true → o.(kind) = Session ∧ 0 < o.(pipes) ∧ o.(_terminating) = false;
  f_pipe : o.(_pipe) = true → o.(kind) = Session ∧ 0 < o.(pipes);
  f_registered : o.(registered) = true → o.(kind) = Socket ∧ o.(_terminating) = false;
  f_owned : o.(_terminating) = true → o.(_owned) = ∅;
  f_inbox : Forall (cmd_ok o) o.(inbox)
}.

Definition child_of (w : world) (p c : Z) : Prop := ∃ o, w !! c = Some o ∧ o.(_owner) = Some p.

Record hinv (N : Z) (w : world) (x : Z) (hand : Z → Z) (t s a : Z) : Prop := {
  hi_flat : ∀ y o, w !! y = Some o → flat (here x y s) N o;
  hi_root : ∀ y o, w !! y = Some o → o.(_owner) = None → o.(kind) = Socket ∧ count is_term o.(inbox) = 0;
  hi_child : ∀ y o p, w !! y = Some o → o.(_owner) = Some p →
    o.(kind) ≠ Socket ∧ ∃ op, w !! p = Some op ∧ o.(_socket) = socket_of p op ∧ holds x hand p op y + token x t y o = 1;
  hi_ref : ∀ y o c, w !! y = Some o → 0 < holds x hand y o c → child_of w y c;
  hi_acks : ∀ y o, w !! y = Some o →
    o.(_term_acks) = base o + count is_ack o.(inbox) + osum (child_token x t y) w + here x y a;
  hi_reqs : ∀ y o pre c post, w !! y = Some o → o.(inbox) = pre ++ term_req c :: post → child_of w y c ∨ term_ack ∈ post;
  hi_rank : ∃ rk : Z → nat, ∀ y o p, w !! y = Some o → o.(_owner) = Some p → (rk p < rk y)%nat
}.

Lemma here_eq x v : here x x v = v.
Proof. unfold here. by rewrite bool_decide_true. Qed.
Lemma here_ne x y v : y ≠ x → here x y v = 0.
Proof. intros. unfold here. by rewrite bool_decide_false. Qed.
Lemma here_0 x y : here x y 0 = 0.
Proof. unfold here. by case_bool_decide. Qed.

Lemma holds_other x hand y o c hand' : y ≠ x → holds x hand y o c = holds x hand' y o c.
Proof. intros. unfold holds. by rewrite !here_ne. Qed.

Definition none : Z → Z := λ _, 0.

Lemma holds_between x y o c : holds x none y o c = count (is_own c) o.(inbox) + b2z (bool_decide (c ∈ o.(_owned))).
Proof. unfold holds, none. rewrite here_0. lia. Qed.

Lemma holds_between_nonneg x y o c : 0 ≤ holds x none y o c.
Proof. rewrite holds_between. pose proof (count_nonneg (is_own c) (inbox o)). case_bool_decide; cbn; lia. Qed.

Lemma told_nonneg o : 0 ≤ told o.
Proof. unfold told. pose proof (count_nonneg is_term (inbox o)). destruct (_pending o), (_terminating o); cbn; lia. Qed.

Lemma no_self_owner N w x hand t s a y o : hinv N w x hand t s a → w !! y = Some o → o.(_owner) ≠ Some y.
Proof. intros Hi Hy Ho. destruct (hi_rank _ _ _ _ _ _ _ Hi) as [rk Hrk]. specialize (Hrk _ _ _ Hy Ho). lia. Qed.

Definition same_id (o o' : own_t) : Prop :=
  o'.(kind) = o.(kind) ∧ o'.(_owner) = o.(_owner) ∧ o'.(_socket) = o.(_socket).

Lemma child_of_update w y o o' p c : w !! y = Some o → same_id o o' → child_of w p c ↔ child_of (<[y := o']> w) p c.
Proof.
  intros Hy (_ & Ho & _). unfold child_of. destruct (decide (c = y)) as [->|Hc].
  - rewrite lookup_insert_eq. split; intros (o1 & H1 & H2); [exists o'; simplify_eq; split; [done|congruence]|].
    exists o. simplify_eq. split; [done|congruence].
  - rewrite lookup_insert_ne by done. done.
Qed.

(** One object changes. *)
Lemma hinv_update N w x hand t s a y o o' N' hand' t' s' a' :
  hinv N w x hand t s a → w !! y = Some o → same_id o o' → N ≤ N' →
  flat (here x y s') N' o' →
  (y = x ∨ hand' = hand ∧ t' = t ∧ s' = s ∧ a' = a) →
  (o.(_owner) = None → count is_term o'.(inbox) = 0) →
  (o.(_owner) ≠ None → token x t' y o' = token x t y o) →
  (∀ c, holds x hand' y o' c = holds x hand y o c) →
  o'.(_term_acks) - base o' - count is_ack o'.(inbox) - here x y a' = o.(_term_acks) - base o - count is_ack o.(inbox) - here x y a →
  (∀ pre c post, o'.(inbox) = pre ++ term_req c :: post →
    child_of w y c ∨ ∃ pre' post', o.(inbox) = pre' ++ term_req c :: post' ∧ (term_ack ∈ post' → term_ack ∈ post)) →
  hinv N' (<[y := o']> w) x hand' t' s' a'.
Proof.
  intros Hi Hy Hid HN Hf Hxy Hroot Htok Hholds Hacks Hreqs.
  assert (Hz : ∀ z (v v' : Z), z ≠ y → (hand' = hand ∧ t' = t ∧ s' = s ∧ a' = a → v = v') → here x z v = here x z v').
  { intros z v v' Hzy Hv. destruct Hxy as [->|Hxy]; [by rewrite !here_ne|]. by rewrite Hv. }
  assert (Htok2 : ∀ p z oz, w !! z = Some oz → oz.(_owner) = Some p → token x t' z (if decide (z = y) then o' else oz) = token x t z oz).
  { intros p z oz Hoz Hp. destruct (decide (z = y)) as [->|Hzy]; [simplify_eq; apply Htok; congruence|].
    unfold token. f_equal. apply Hz; [done|]. by intros (_ & -> & _). }
  destruct Hid as (Hk & Ho & Hs).
  assert (Hhold2 : ∀ z oz c, w !! z = Some oz → holds x hand' z (if decide (z = y) then o' else oz) c = holds x hand z oz c).
  { intros z oz c Hoz. destruct (decide (z = y)) as [->|Hzy]; [simplify_eq; apply Hholds|].
    unfold holds. f_equal. apply Hz; [done|]. by intros (-> & _). }
  assert (Hsum : ∀ p, osum (child_token x t' p) (<[y:=o']> w) = osum (child_token x t p) w).
  { intros p. rewrite (osum_update _ _ _ o) by done.
    rewrite (osum_ext (child_token x t' p) (λ z oz, child_token x t p z oz + (if decide (z = y) then child_token x t' p y oz - child_token x t p y oz else 0))).
    2: { intros z oz Hoz. unfold child_token. destruct (decide (z = y)) as [->|Hzy]; [case_bool_decide; lia|].
         case_bool_decide; [|lia]. specialize (Htok2 p z oz Hoz ltac:(done)). destruct (decide (z = y)); [done|]. lia. }
    assert (Hadd : ∀ f v, osum (λ z oz, f z oz + (if decide (z = y) then v oz else 0)) w = osum f w + v o).
    { intros f v. rewrite (osum_delete _ w y o), (osum_delete f w y o) by done. destruct (decide (y = y)); [|done].
      rewrite (osum_ext _ f (delete y w)); [lia|]. intros z oz [Hne _]%lookup_delete_Some. destruct (decide (z = y)); [congruence|lia]. }
    rewrite Hadd. unfold child_token. rewrite Ho.
    case_bool_decide as E; [|lia]. rewrite (Htok) by congruence. lia. }
  assert (Hget : ∀ z oz', <[y:=o']> w !! z = Some oz' → ∃ oz, w !! z = Some oz ∧ oz' = (if decide (z = y) then o' else oz)).
  { intros z oz' H. destruct (decide (z = y)) as [->|Hzy]; [rewrite lookup_insert_eq in H; simplify_eq; by exists o|].
    rewrite lookup_insert_ne in H by done. by exists oz'. }
  split.
  - intros z oz' (oz & Hoz & ->)%Hget. destruct (decide (z = y)) as [->|Hzy]; [done|].
    rewrite (Hz z s' s) by naive_solver. destruct (hi_flat _ _ _ _ _ _ _ Hi z oz Hoz). split; try done. lia.
  - intros z oz' (oz & Hoz & ->)%Hget Hn. destruct (decide (z = y)) as [->|Hzy]; [|by apply (hi_root _ _ _ _ _ _ _ Hi z)].
    simplify_eq. rewrite Hk. destruct (hi_root _ _ _ _ _ _ _ Hi y o) as [? _]; [done|congruence|]. split; [done|]. apply Hroot. congruence.
  - intros z oz' p (oz & Hoz & ->)%Hget Hp.
    assert (Hp' : oz.(_owner) = Some p) by (destruct (decide (z = y)) as [->|?]; simplify_eq; congruence).
    destruct (hi_child _ _ _ _ _ _ _ Hi z oz p Hoz Hp') as (Hks & op & Hop & Hso & Heq).
    split; [destruct (decide (z = y)) as [->|?]; simplify_eq; congruence|].
    exists (if decide (p = y) then o' else op). split; [|split].
    + destruct (decide (p = y)) as [->|?]; [by rewrite lookup_insert_eq|]. by rewrite lookup_insert_ne by done.
    + transitivity (_socket oz); [destruct (decide (z = y)) as [->|?]; simplify_eq; congruence|]. rewrite Hso.
      destruct (decide (p = y)) as [->|?]; [|done]. simplify_eq. unfold socket_of. by rewrite Hk, Hs.
    + rewrite Hhold2 by done. rewrite (Htok2 p) by done. done.
  - intros z oz' c (oz & Hoz & ->)%Hget Hpos. rewrite Hhold2 in Hpos by done.
    eapply (child_of_update w y o o'); [done|by split|]. by eapply (hi_ref _ _ _ _ _ _ _ Hi z).
  - intros z oz' (oz & Hoz & ->)%Hget. rewrite Hsum. pose proof (hi_acks _ _ _ _ _ _ _ Hi z oz Hoz).
    destruct (decide (z = y)) as [->|Hzy]; [simplify_eq; lia|]. rewrite (Hz z a' a) by naive_solver. lia.
  - intros z oz' pre c post (oz & Hoz & ->)%Hget Hin.
    rewrite <- (child_of_update w y o o') by (done || by split). destruct (decide (z = y)) as [->|Hzy]; [|by eapply (hi_reqs _ _ _ _ _ _ _ Hi z)].
    assert (oz = o) as -> by congruence. apply Hreqs in Hin as [?|(pre' & post' & Hin & Himp)]; [by left|].
    destruct (hi_reqs _ _ _ _ _ _ _ Hi y o pre' c post' Hoz Hin); [by left|right; auto].
  - destruct (hi_rank _ _ _ _ _ _ _ Hi) as [rk Hrk]. exists rk. intros z oz' p (oz & Hoz & ->)%Hget Hp.
    eapply Hrk; [done|]. destruct (decide (z = y)) as [->|?]; simplify_eq; congruence.
Qed.

(** The actor and its hands play no role between commands. *)
Lemma hinv_any N w x z : hinv N w x none 0 0 0 → hinv N w z none 0 0 0.
Proof.
  assert (Htok : ∀ x y o, token x 0 y o = token z 0 y o) by (intros; unfold token; by rewrite !here_0).
  intros []. split; try done.
  - intros y o Hy. rewrite here_0. specialize (hi_flat0 y o Hy). by rewrite here_0 in hi_flat0.
  - intros y o p Hy Hp. destruct (hi_child0 y o p Hy Hp) as (? & op & ? & ? & H). split; [done|]. exists op.
    split; [done|]. split; [done|]. rewrite holds_between in *. rewrite <- (Htok x). done.
  - intros y o c Hy. rewrite holds_between. intros. apply (hi_ref0 y o); [done|]. by rewrite holds_between.
  - intros y o Hy. rewrite here_0. specialize (hi_acks0 y o Hy). rewrite here_0 in hi_acks0. rewrite hi_acks0. do 2 f_equal.
    apply osum_ext. intros c oc _. unfold child_token. by rewrite Htok.
Qed.

Lemma hinv_ext N w x hand hand' t s a : hinv N w x hand t s a → (∀ c, hand' c = hand c) → hinv N w x hand' t s a.
Proof.
  intros [] He. assert (Hh : ∀ y o c, holds x hand' y o c = holds x hand y o c) by (intros; unfold holds; by rewrite He).
  split; try done.
  - intros y o p Hy Hp. destruct (hi_child0 y o p Hy Hp) as (? & op & ? & ? & ?). split; [done|]. exists op. by rewrite Hh.
  - intros y o c. rewrite Hh. apply hi_ref0.
Qed.

Definition push (cmd : command_t) (o : own_t) : own_t := set_inbox (o.(inbox) ++ [cmd]) o.

Lemma flat_push s N o cmd : flat s N o → is_seq cmd = false → flat s N (push cmd o).
Proof.
  intros [] Hc. assert (Hr : refs (push cmd o) = refs o) by (unfold refs, push; cbn; rewrite count_app; cbn; rewrite Hc; cbn; lia).
  split; rewrite ?Hr; try done. cbn. apply Forall_app. split; [done|]. apply Forall_singleton. by destruct cmd.
Qed.

Lemma req_app (l : list command_t) cmd pre c post : l ++ [cmd] = pre ++ term_req c :: post →
  cmd = term_req c ∧ pre = l ∧ post = [] ∨ ∃ post', l = pre ++ term_req c :: post' ∧ post = post' ++ [cmd].
Proof.
  intros H. destruct post as [|m post _] using rev_ind.
  - left. apply app_inj_tail in H as [-> ->]. done.
  - right. exists post. change (term_req c :: post ++ [m]) with ((term_req c :: post) ++ [m]) in H. rewrite app_assoc in H.
    apply app_inj_tail in H as [-> ->]. done.
Qed.

(** [x] tells a child to terminate. *)
Lemma hinv_term N w x hand t s a c oc l :
  hinv N w x hand t s a → w !! c = Some oc → child_of w x c →
  hinv N (<[c := push (term l) oc]> w) x (λ z, hand z - b2z (bool_decide (z = c))) t s (a - 1).
Proof.
  intros Hi Hc (oc' & Hc' & Ho). assert (oc' = oc) as -> by congruence. clear Hc'.
  assert (Hcx : c ≠ x) by (intros ->; by apply (no_self_owner _ _ _ _ _ _ _ _ _ Hi Hc)).
  set (oc' := push (term l) oc).
  assert (Hid : same_id oc oc') by done.
  assert (Hget : ∀ z oz', <[c:=oc']> w !! z = Some oz' → ∃ oz, w !! z = Some oz ∧ oz' = (if decide (z = c) then oc' else oz)).
  { intros z oz' H. destruct (decide (z = c)) as [->|Hzy]; [rewrite lookup_insert_eq in H; simplify_eq; by exists oc|].
    rewrite lookup_insert_ne in H by done. by exists oz'. }
  assert (Htold : told oc' = told oc + 1) by (unfold told, oc'; cbn; rewrite count_app; cbn; lia).
  assert (Hsum : ∀ p, osum (child_token x t p) (<[c:=oc']> w) = osum (child_token x t p) w + (if decide (p = x) then 1 else 0)).
  { intros p. rewrite (osum_update _ _ _ oc) by done. unfold child_token, token. rewrite Htold.
    change (_owner oc') with (_owner oc). rewrite Ho. case_bool_decide; destruct (decide (p = x)); simplify_eq; lia. }
  assert (Hhold : ∀ z oz y, w !! z = Some oz → holds x (λ z, hand z - b2z (bool_decide (z = c))) z (if decide (z = c) then oc' else oz) y
    = holds x hand z oz y - (if decide (z = x) then b2z (bool_decide (y = c)) else 0)).
  { intros z oz y Hz. unfold holds. assert (count (is_own y) (inbox (if decide (z = c) then oc' else oz)) = count (is_own y) (inbox oz)
      ∧ _owned (if decide (z = c) then oc' else oz) = _owned oz) as [-> ->].
    { destruct (decide (z = c)); [|done]. simplify_eq. cbn. rewrite count_app. cbn. unfold is_own. rewrite (bool_decide_false (term l = own y)) by done. cbn. split; [lia|done]. }
    destruct (decide (z = x)) as [->|]; [rewrite !here_eq|rewrite !here_ne by done]; lia. }
  split.
  - intros z oz' (oz & Hz & ->)%Hget. pose proof (hi_flat _ _ _ _ _ _ _ Hi z oz Hz). destruct (decide (z = c)); [|done]. simplify_eq. by apply flat_push.
  - intros z oz' (oz & Hz & ->)%Hget. destruct (decide (z = c)) as [->|]; [|by apply (hi_root _ _ _ _ _ _ _ Hi z)]. change (_owner oc') with (_owner oc). congruence.
  - intros z oz' p (oz & Hz & ->)%Hget Hp.
    assert (Hp' : oz.(_owner) = Some p) by (destruct (decide (z = c)); simplify_eq; done).
    destruct (hi_child _ _ _ _ _ _ _ Hi z oz p Hz Hp') as (Hks & op & Hop & Hso & Heq).
    split; [destruct (decide (z = c)); simplify_eq; done|]. exists (if decide (p = c) then oc' else op).
    split; [|split].
    + destruct (decide (p = c)) as [->|]; [by rewrite lookup_insert_eq|by rewrite lookup_insert_ne by done].
    + destruct (decide (z = c)), (decide (p = c)); simplify_eq; done.
    + rewrite Hhold by done. destruct (decide (z = c)) as [->|].
      * simplify_eq. unfold token in *. rewrite Htold. destruct (decide (x = x)); [|done]. rewrite bool_decide_true by done. cbn. lia.
      * rewrite (bool_decide_false (z = c)) by done. destruct (decide (p = x)); cbn; lia.
  - intros z oz' y (oz & Hz & ->)%Hget Hpos. rewrite Hhold in Hpos by done. eapply (child_of_update w c oc oc'); [done..|].
    apply (hi_ref _ _ _ _ _ _ _ Hi z oz); [done|]. destruct (decide (z = x)), (bool_decide (y = c)); cbn in Hpos; lia.
  - intros z oz' (oz & Hz & ->)%Hget. rewrite Hsum. pose proof (hi_acks _ _ _ _ _ _ _ Hi z oz Hz) as Ha.
    destruct (decide (z = x)) as [->|Hzx].
    + rewrite here_eq in *. destruct (decide (x = c)); [congruence|]. lia.
    + rewrite here_ne in * by done. destruct (decide (z = c)) as [->|]; [|lia]. simplify_eq. unfold oc'. cbn. rewrite count_app. cbn.
      unfold base in *. cbn. unfold is_kind in *. cbn. lia.
  - intros z oz' pre y post (oz & Hz & ->)%Hget Hin. rewrite <- (child_of_update w c oc oc') by done. destruct (decide (z = c)) as [->|]; [|by eapply (hi_reqs _ _ _ _ _ _ _ Hi z)].
    assert (oz = oc) as -> by congruence. cbn in Hin. apply req_app in Hin as [(? & _)|(post' & Hin & ->)]; [done|].
    destruct (hi_reqs _ _ _ _ _ _ _ Hi c oc pre y post' Hz Hin); [by left|right]. apply elem_of_app. by left.
  - destruct (hi_rank _ _ _ _ _ _ _ Hi) as [rk Hrk]. exists rk. intros z oz' p (oz & Hz & ->)%Hget Hp.
    eapply Hrk; [done|]. destruct (decide (z = c)); simplify_eq; done.
Qed.

Lemma token_0 x c o : token x 0 c o = told o.
Proof. unfold token. rewrite here_0. lia. Qed.

Lemma child_token_nonneg x p c o : 0 ≤ child_token x 0 p c o.
Proof. unfold child_token. rewrite token_0. pose proof (told_nonneg o). case_bool_decide; lia. Qed.

Lemma base_nonneg s N o : flat s N o → 0 ≤ base o.
Proof. intros []. unfold base. destruct (_ && _); lia. Qed.

(** An object that has terminated and that nothing keeps. *)
Definition dying (o : own_t) : bool := o.(_terminating) && (refs o =? 0) && (o.(_term_acks) =? 0).

Lemma dying_true o : dying o = true ↔ o.(_terminating) = true ∧ refs o = 0 ∧ o.(_term_acks) = 0.
Proof. unfold dying. rewrite !andb_true_iff, !Z.eqb_eq. tauto. Qed.

Lemma refs_zero s N o : flat s N o → refs o = 0 → count is_seq o.(inbox) = 0 ∧ o.(found) = 0 ∧ o.(pended) = 0.
Proof. intros [] H. unfold refs in H. pose proof (count_nonneg is_seq (inbox o)). lia. Qed.

(** Nothing points to an object that dies. *)
Lemma dying_free N w x o : hinv N w x none 0 0 0 → w !! x = Some o → dying o = true →
  (∀ c, ¬ child_of w x c) ∧ o.(inbox) = [] ∧ o.(found) = 0 ∧ o.(pended) = 0 ∧ o.(pipes) = 0 ∧ o.(_owned) = ∅ ∧ told o = 1.
Proof.
  intros Hi Hx (Ht & Hr & Ha)%dying_true. pose proof (hi_flat _ _ _ _ _ _ _ Hi x o Hx) as Hf.
  destruct (refs_zero _ _ _ Hf Hr) as (Hseq & Hfd & Hpd). pose proof (f_owned _ _ _ Hf Ht) as How.
  pose proof (hi_acks _ _ _ _ _ _ _ Hi x o Hx) as Hacks. rewrite here_0 in Hacks. pose proof (base_nonneg _ _ _ Hf). pose proof (count_nonneg is_ack (inbox o)).
  assert (Hsum := osum_nonneg (child_token x 0 x) w ltac:(intros; apply child_token_nonneg)).
  assert (Hno : ∀ c, ¬ child_of w x c).
  { intros c (oc & Hc & Hoc). assert (Hle := osum_elem (child_token x 0 x) w c oc ltac:(intros; apply child_token_nonneg) Hc).
    assert (Htk : child_token x 0 x c oc = told oc) by (unfold child_token; by rewrite bool_decide_true, token_0).
    destruct (hi_child _ _ _ _ _ _ _ Hi c oc x Hc Hoc) as (_ & o' & Ho' & _ & Heq). simplify_eq. pose proof (told_nonneg oc). rewrite token_0 in *.
    rewrite holds_between, How, bool_decide_false in Heq by set_solver. cbn in Heq.
    assert (count (is_own c) (inbox o) ≤ count is_seq (inbox o)); [|lia].
    clear. induction (inbox o) as [|m l IH]; [done|]. cbn. unfold is_own at 1. case_bool_decide; subst; cbn; [lia|]. destruct (is_seq m); cbn; lia. }
  assert (Htold : count is_term (inbox o) = 0 ∧ told o = 1).
  { unfold told. rewrite Ht. pose proof (count_nonneg is_term (inbox o)). assert (Hp : _pending o = false).
    { destruct (_pending o) eqn:E; [|done]. destruct (f_pending _ _ _ Hf E) as (_ & _ & ?). congruence. } rewrite Hp.
    destruct (_owner o) as [p|] eqn:Ho; [|destruct (hi_root _ _ _ _ _ _ _ Hi x o Hx Ho) as [_ ->]; done].
    destruct (hi_child _ _ _ _ _ _ _ Hi x o p Hx Ho) as (_ & op & _ & _ & Heq). rewrite token_0 in Heq. pose proof (holds_between_nonneg x p op x).
    unfold told in Heq. rewrite Ht, Hp in Heq. cbn in *. lia. }
  destruct Htold as [Hterm Htold]. split; [done|]. split; [|split; [done|split; [done|split; [|done]]]].
  - destruct (inbox o) as [|m l] eqn:Hin using rev_ind; [done|]. exfalso. clear IHl.
    rewrite !count_app in *. cbn in *. pose proof (count_nonneg is_seq l). pose proof (count_nonneg is_ack l). pose proof (count_nonneg is_term l).
    destruct m; cbn in *; try lia. destruct (hi_reqs _ _ _ _ _ _ _ Hi x o l object_ [] Hx Hin) as [?|?%not_elem_of_nil]; naive_solver.
  - destruct (kind o) eqn:Hk; [|by apply (f_session _ _ _ Hf)|by apply (f_leaf _ _ _ Hf)].
    unfold base, is_kind in Hacks. unfold base, is_kind in H. rewrite Ht, Hk in Hacks, H. rewrite bool_decide_true in Hacks, H by done. cbn in Hacks, H. lia.
Qed.

(** The world when [x] is gone and its owner has its ack. *)
Definition without (x : Z) (o : own_t) (w : world) : world :=
  delete x match o.(_owner) with
           | Some p => match w !! p with Some op => <[p := push term_ack op]> w | None => w end
           | None => w
           end.

Lemma without_lookup w x o y oy : without x o w !! y = Some oy →
  y ≠ x ∧ ∃ oy', w !! y = Some oy' ∧ oy = (if bool_decide (o.(_owner) = Some y) then push term_ack oy' else oy').
Proof.
  unfold without. intros [Hne H]%lookup_delete_Some. split; [done|]. destruct (_owner o) as [p|]; [|rewrite bool_decide_false by done; eauto].
  destruct (w !! p) as [op|] eqn:Hp.
  - destruct (decide (y = p)) as [->|?].
    + rewrite lookup_insert_eq in H. rewrite bool_decide_true by done. exists op. by simplify_eq.
    + rewrite lookup_insert_ne in H by done. rewrite bool_decide_false by congruence. eauto.
  - rewrite bool_decide_false; [eauto|]. intros [= ->]. congruence.
Qed.

Lemma hinv_destroy N w x o : hinv N w x none 0 0 0 → w !! x = Some o → dying o = true → hinv N (without x o w) x none 0 0 0.
Proof.
  intros Hi Hx Hd. destruct (dying_free _ _ _ _ Hi Hx Hd) as (Hno & Hin & _ & _ & _ & How & Htold).
  assert (Hget := λ y oy, without_lookup w x o y oy).
  assert (Hself : _owner o ≠ Some x) by by eapply no_self_owner.
  assert (Hput : ∀ y oy, y ≠ x → w !! y = Some oy → without x o w !! y = Some (if bool_decide (_owner o = Some y) then push term_ack oy else oy)).
  { intros y oy Hne Hy. unfold without. rewrite lookup_delete_ne by done. destruct (_owner o) as [p|]; [|by rewrite bool_decide_false by done].
    destruct (decide (p = y)) as [->|?]; [rewrite Hy, lookup_insert_eq, bool_decide_true by done; done|]. rewrite bool_decide_false by congruence.
    destruct (w !! p); [by rewrite lookup_insert_ne by done|done]. }
  assert (Hchild : ∀ y c, y ≠ x → c ≠ x → child_of w y c → child_of (without x o w) y c).
  { intros y c _ Hc (oc & Hoc & Ho). eexists. split; [by apply Hput|]. by case_bool_decide. }
  assert (Hhold : ∀ y oy c (b : bool), holds x none y (if b then push term_ack oy else oy) c = holds x none y oy c).
  { intros y oy c [|]; [|done]. rewrite !holds_between. cbn. rewrite count_app. cbn. unfold is_own. rewrite bool_decide_false by done. cbn. lia. }
  assert (Htok : ∀ oy (b : bool), told (if b then push term_ack oy else oy) = told oy).
  { intros oy [|]; [|done]. unfold told. cbn. rewrite count_app. cbn. lia. }
  assert (Hsum : ∀ p, osum (child_token x 0 p) (without x o w) = osum (child_token x 0 p) w - b2z (bool_decide (_owner o = Some p))).
  { intros p. rewrite (osum_delete _ w x o Hx). unfold child_token at 2. rewrite token_0, Htold. unfold without.
    assert (He : osum (child_token x 0 p) (delete x match _owner o with Some p0 => match w !! p0 with Some op => <[p0:=push term_ack op]> w | None => w end | None => w end)
      = osum (child_token x 0 p) (delete x w)); [|rewrite He; case_bool_decide; cbn; lia].
    destruct (_owner o) as [q|] eqn:Hq; [|done]. destruct (w !! q) as [oq|] eqn:Hoq; [|done].
    rewrite delete_insert_ne by congruence. rewrite (osum_update _ _ _ oq) by (by rewrite lookup_delete_ne by congruence).
    unfold child_token. rewrite !token_0. change (_owner (push term_ack oq)) with (_owner oq). pose proof (Htok oq true) as E. cbn [push] in E. rewrite E. lia. }
  split.
  - intros y oy (Hne & oy' & Hy & ->)%Hget. pose proof (hi_flat _ _ _ _ _ _ _ Hi y oy' Hy). case_bool_decide; [by apply flat_push|done].
  - intros y oy (Hne & oy' & Hy & ->)%Hget. pose proof (hi_root _ _ _ _ _ _ _ Hi y oy' Hy) as H. case_bool_decide; [|done].
    cbn. rewrite count_app. cbn. rewrite Z.add_0_r. done.
  - intros y oy p (Hne & oy' & Hy & ->)%Hget Hp. assert (Hp' : _owner oy' = Some p) by by case_bool_decide.
    destruct (hi_child _ _ _ _ _ _ _ Hi y oy' p Hy Hp') as (Hk & op & Hop & Hs & Heq). split; [by case_bool_decide|].
    assert (p ≠ x) by (intros ->; apply (Hno y); by exists oy').
    eexists. split; [by apply Hput|]. split; [repeat case_bool_decide; done|]. rewrite Hhold, token_0, Htok. by rewrite token_0 in Heq.
  - intros y oy c (Hne & oy' & Hy & ->)%Hget Hpos. rewrite Hhold in Hpos. pose proof (hi_ref _ _ _ _ _ _ _ Hi y oy' c Hy Hpos) as Hc.
    apply Hchild; [done| |done]. intros ->. destruct Hc as (o' & Ho' & Hoo). simplify_eq.
    destruct (hi_child _ _ _ _ _ _ _ Hi x o y Hx Hoo) as (_ & op & Hop & _ & Heq). simplify_eq. rewrite token_0, Htold in Heq. lia.
  - intros y oy (Hne & oy' & Hy & ->)%Hget. rewrite Hsum. pose proof (hi_acks _ _ _ _ _ _ _ Hi y oy' Hy). case_bool_decide; cbn.
    + rewrite count_app. cbn. unfold base, is_kind in *. cbn. lia.
    + lia.
  - intros y oy pre c post (Hne & oy' & Hy & ->)%Hget Hsp.
    assert (Hold : ∃ post', inbox oy' = pre ++ term_req c :: post' ∧ (term_ack ∈ post' → term_ack ∈ post) ∧ (_owner o = Some y → term_ack ∈ post)).
    { case_bool_decide; [|by exists post]. cbn in Hsp. apply req_app in Hsp as [[? _]|(post' & ? & ->)]; [done|]. exists post'. split; [done|].
      split; intros; apply elem_of_app; [by left|right; by left]. }
    destruct Hold as (post' & Hold & H1 & H2). destruct (hi_reqs _ _ _ _ _ _ _ Hi y oy' pre c post' Hy Hold) as [Hc|?]; [|by right; auto].
    destruct (decide (c = x)) as [->|?]; [|by left; apply Hchild]. right. apply H2. destruct Hc as (o' & Ho' & Hoo). by simplify_eq.
  - destruct (hi_rank _ _ _ _ _ _ _ Hi) as [rk Hrk]. exists rk. intros y oy p (Hne & oy' & Hy & ->)%Hget Hp. eapply Hrk; [done|]. by case_bool_decide.
Qed.

Lemma not_terminating_alive o : o.(_terminating) = false → dying o = false.
Proof. unfold dying. by intros ->. Qed.

Definition quiet_but (x : Z) (w : world) : Prop := ∀ y o, y ≠ x → w !! y = Some o → dying o = false.

(** Between commands no object is ready to be deleted. *)
Definition inv (N : Z) (w : world) : Prop :=
  (∀ x, hinv N w x none 0 0 0) ∧ ∀ y o, w !! y = Some o → dying o = false.

Lemma inv_intro N w x : hinv N w x none 0 0 0 → quiet_but x w → (∀ o, w !! x = Some o → dying o = false) → inv N w.
Proof.
  intros Hi Hq Hx. split; [intros z; by eapply hinv_any|]. intros y o Hy.
  destruct (decide (y = x)) as [->|?]; [by apply Hx|by eapply Hq].
Qed.

Lemma quiet_update x w y o o' : quiet_but x w → w !! y = Some o → (y ≠ x → dying o = false → dying o' = false) → quiet_but x (<[y := o']> w).
Proof.
  intros Hq Hy Hd z oz Hz H. destruct (decide (z = y)) as [->|?].
  - rewrite lookup_insert_eq in H. simplify_eq. apply Hd; [done|by eapply Hq].
  - rewrite lookup_insert_ne in H by done. by eapply Hq.
Qed.

(** *** A measure of the work left *)

Definition cmd_weight (cmd : command_t) : Z :=
  match cmd with own _ | attach => 4 | bind | term _ => 2 | _ => 1 end.

Fixpoint inbox_weight (l : list command_t) : Z :=
  match l with [] => 0 | cmd :: l => cmd_weight cmd + inbox_weight l end.

Definition weight (o : own_t) : Z :=
  2 + inbox_weight o.(inbox) + 3 * Z.of_nat (size o.(_owned)) + b2z o.(_pending) + o.(pipes) + 3 * o.(found).

Definition measure (w : world) : Z := osum (λ _, weight) w.

(** Objects only go on, to termination; the work left grows by at most [d]. *)
Definition later (w w' : world) : Prop :=
  ∀ y o', w' !! y = Some o' → ∃ o, w !! y = Some o ∧ o'.(_owner) = o.(_owner) ∧ o'.(pended) = o.(pended) ∧
    (o.(_terminating) = true → o'.(_terminating) = true).

Definition eff (w w' : world) (d : Z) : Prop := later w w' ∧ measure w' ≤ measure w + d.

Lemma inbox_weight_app l l' : inbox_weight (l ++ l') = inbox_weight l + inbox_weight l'.
Proof. induction l as [|m l IH]; cbn; lia. Qed.

Lemma eff_refl w : eff w w 0.
Proof. split; [|lia]. intros y o Hy. eauto. Qed.

Lemma later_trans w1 w2 w3 : later w1 w2 → later w2 w3 → later w1 w3.
Proof.
  intros L1 L2 y o3 H3. destruct (L2 y o3 H3) as (o2 & H2 & E1 & E2 & E3).
  destruct (L1 y o2 H2) as (o1 & H1 & E4 & E5 & E6). exists o1. split; [done|]. split; [congruence|]. split; [congruence|]. auto.
Qed.

Lemma eff_trans w1 w2 w3 d1 d2 d : eff w1 w2 d1 → eff w2 w3 d2 → d1 + d2 ≤ d → eff w1 w3 d.
Proof.
  intros [L1 M1] [L2 M2] Hd. split; [by eapply later_trans|lia].
Qed.

Lemma eff_update w y o o' d : w !! y = Some o → o'.(_owner) = o.(_owner) → o'.(pended) = o.(pended) →
  (o.(_terminating) = true → o'.(_terminating) = true) → weight o' ≤ weight o + d → eff w (<[y := o']> w) d.
Proof.
  intros Hy H1 H2 H3 Hw. split; [|unfold measure; rewrite (osum_update _ _ _ o) by done; lia].
  intros z oz Hz. destruct (decide (z = y)) as [->|?]; [rewrite lookup_insert_eq in Hz; simplify_eq; eauto|].
  rewrite lookup_insert_ne in Hz by done. eauto.
Qed.

Lemma eff_without N w x o : hinv N w x none 0 0 0 → w !! x = Some o → dying o = true → eff w (without x o w) 0.
Proof.
  intros Hi Hx Hd. destruct (dying_free _ _ _ _ Hi Hx Hd) as (_ & Hin & Hf & _ & Hp & How & _).
  split.
  - intros y oy (_ & oy' & Hy & ->)%without_lookup. exists oy'. by case_bool_decide.
  - unfold measure. rewrite (osum_delete _ w x o Hx). assert (2 ≤ weight o).
    { unfold weight. rewrite Hin, Hf, Hp, How. destruct (_pending o); cbn; lia. }
    unfold without. destruct (_owner o) as [p|] eqn:Ho; [|lia]. destruct (w !! p) as [op|] eqn:Hop; [|lia].
    assert (p ≠ x) by (intros ->; by apply (no_self_owner _ _ _ _ _ _ _ _ _ Hi Hx)).
    rewrite delete_insert_ne by done. rewrite (osum_update _ _ _ op) by (by rewrite lookup_delete_ne by done).
    unfold weight at 3, push. cbn. rewrite inbox_weight_app. cbn. unfold weight at 2. lia.
Qed.

Lemma on_Some x f w o : w !! x = Some o → on x f w = Some (<[x := f o]> w).
Proof. intros H. unfold on. by rewrite H. Qed.

Lemma u32_same a b N : 0 ≤ a → 0 ≤ b → a + b ≤ N → N < 2 ^ 32 → (a =? u32 (a + b)) = (b =? 0).
Proof.
  intros. rewrite u32_small by lia. destruct (Z.eqb_spec b 0); [subst; apply Z.eqb_eq; lia|apply Z.eqb_neq; lia].
Qed.

Lemma refs_nonneg s N o : flat s N o → 0 ≤ refs o.
Proof. intros []. unfold refs. pose proof (count_nonneg is_seq (inbox o)). lia. Qed.

Section handlers.
Context (N : Z) (Hbound : N < 2 ^ 32).

Lemma check_ok w x o : hinv N w x none 0 0 0 → quiet_but x w → w !! x = Some o →
  ∃ w', check_term_acks x w = Some w' ∧ inv N w' ∧ eff w w' 0.
Proof.
  intros Hi Hq Hx. unfold check_term_acks. rewrite Hx. cbn [mbind option_bind].
  pose proof (hi_flat _ _ _ _ _ _ _ Hi x o Hx) as Hf. rewrite here_0 in Hf.
  assert (Hc : _terminating o && (_processed_seqnum o =? _sent_seqnum o) && (_term_acks o =? 0) = dying o).
  { unfold dying. do 2 f_equal. rewrite (f_sent _ _ _ Hf), Z.add_0_r. pose proof (f_bound _ _ _ Hf).
    eapply (u32_same _ _ N); [by eapply f_processed|by eapply refs_nonneg|lia|done]. }
  rewrite Hc. destruct (dying o) eqn:Hd.
  - destruct (dying_free _ _ _ _ Hi Hx Hd) as (_ & Hin & Hfd & Hpd & Hp & How & _).
    exists (without x o w). split; [|split; [|by eapply eff_without]].
    + rewrite How. rewrite bool_decide_true by done. cbn [zmq_assert mbind option_bind]. unfold without.
      destruct (_owner o) as [p|] eqn:Ho.
      * destruct (hi_child _ _ _ _ _ _ _ Hi x o p Hx Ho) as (_ & op & Hop & _).
        assert (p ≠ x) by (intros ->; by apply (no_self_owner _ _ _ _ _ _ _ _ _ Hi Hx)). unfold send_term_ack, send_command. rewrite (on_Some p _ _ op) by done.
        rewrite Hop. cbn [mbind option_bind]. unfold process_destroy. rewrite lookup_insert_ne by done. rewrite Hx. cbn [mbind option_bind].
        rewrite Hin, Hfd, Hpd, Hp. done.
      * cbn [mbind option_bind]. unfold process_destroy. rewrite Hx. cbn [mbind option_bind]. by rewrite Hin, Hfd, Hpd, Hp.
    + apply (inv_intro _ _ x); [by apply hinv_destroy| |].
      * intros y oy _ (Hne & oy' & Hy & ->)%without_lookup. specialize (Hq y oy' Hne Hy). case_bool_decide; [|done].
        unfold dying, refs in *. cbn. rewrite count_app. cbn. by rewrite Z.add_0_r.
      * intros oy (Hne & _)%without_lookup. done.
  - exists w. split; [done|]. split; [|apply eff_refl]. apply (inv_intro _ _ x); [done|done|]. intros. by simplify_eq.
Qed.

Lemma send_terms_ok l : ∀ w x hand t s a ln, hinv N w x hand t s a → quiet_but x w → (∀ c, c ∈ l → child_of w x c) →
  ∃ w', send_terms ln l w = Some w' ∧ hinv N w' x (λ z, hand z - count (λ c, bool_decide (z = c)) l) t s (a - Z.of_nat (length l)) ∧
    quiet_but x w' ∧ w' !! x = w !! x ∧ eff w w' (2 * Z.of_nat (length l)).
Proof.
  induction l as [|c l IH]; intros w x hand t s a ln Hi Hq Hl.
  - exists w. split; [done|]. split; [|split; [done|split; [done|apply eff_refl]]]. cbn [length count]. replace (a - Z.of_nat 0) with a by lia.
    eapply hinv_ext; [done|]. intros; lia.
  - destruct (Hl c ltac:(by left)) as (oc & Hc & Hoc). assert (Hcx : c ≠ x) by (intros ->; by apply (no_self_owner _ _ _ _ _ _ _ _ _ Hi Hc)).
    cbn [send_terms]. unfold send_term, send_command at 1. rewrite (on_Some c _ _ oc) by done. cbn [mbind option_bind].
    destruct (IH (<[c := push (term ln) oc]> w) x (λ z, hand z - b2z (bool_decide (z = c))) t s (a - 1) ln) as (w' & E & Hi' & Hq' & Hx' & He').
    + apply (hinv_term _ _ _ _ _ _ _ _ _ _ Hi Hc). by exists oc.
    + eapply quiet_update; [done|done|]. intros _. unfold dying, refs. cbn. rewrite count_app. cbn. by rewrite Z.add_0_r.
    + intros y Hy. eapply (child_of_update w c oc); [done|done|]. apply Hl. by right.
    + exists w'. split; [done|]. split; [|split; [done|split]].
      * rewrite length_cons. replace (a - Z.of_nat (S (length l))) with (a - 1 - Z.of_nat (length l)) by lia.
        eapply hinv_ext; [done|]. intros z. cbn [count]. lia.
      * by rewrite Hx', lookup_insert_ne by done.
      * eapply eff_trans; [|done|]; [eapply (eff_update _ _ oc _ 2); [done..|]|rewrite length_cons; lia].
        unfold weight, push. cbn. rewrite inbox_weight_app. cbn. lia.
Qed.

Lemma count_elements (s : gset Z) z : count (λ c, bool_decide (z = c)) (elements s) = b2z (bool_decide (z ∈ s)).
Proof.
  assert (H : ∀ l : list Z, NoDup l → count (λ c, bool_decide (z = c)) l = b2z (bool_decide (z ∈ l))).
  { induction 1 as [|c l Hc Hl IH]; [done|]. cbn [count]. rewrite IH. destruct (decide (z = c)) as [->|?].
    - rewrite (bool_decide_true (c = c)), (bool_decide_false (c ∈ l)), bool_decide_true by (done || by left). done.
    - rewrite (bool_decide_false (z = c)) by done. change (b2z false) with 0. rewrite Z.add_0_l. f_equal. apply bool_decide_ext. rewrite elem_of_cons. tauto. }
  rewrite H by apply NoDup_elements. f_equal. apply bool_decide_ext. by rewrite elem_of_elements.
Qed.

Lemma child_of_owned w x hand t s a o c : hinv N w x hand t s a → w !! x = Some o → c ∈ o.(_owned) → hand c = 0 → child_of w x c.
Proof.
  intros Hi Hx Hc Hh. eapply (hi_ref _ _ _ _ _ _ _ Hi x o); [done|]. unfold holds. rewrite here_eq, Hh, bool_decide_true by done.
  pose proof (count_nonneg (is_own c) (inbox o)). cbn. lia.
Qed.

Lemma own_process_term_ok w x o t a ln : hinv N w x none t 0 a → quiet_but x w → w !! x = Some o →
  o.(_terminating) = false → o.(_pending) = false → o.(registered) = false → (o.(kind) = Session → o.(pipes) = 0) →
  (o.(_owner) ≠ None → t = 1) → a = (if is_kind Socket o then o.(pipes) else 0) →
  ∃ w', own_process_term x ln w = Some w' ∧ inv N w' ∧ eff w w' 0.
Proof.
  intros Hi Hq Hx Ht Hp Hr Hs Hown Ha. unfold own_process_term. rewrite Hx. cbn [mbind option_bind]. rewrite Ht. cbn [negb zmq_assert mbind option_bind].
  destruct (send_terms_ok (elements (_owned o)) w x none t 0 a ln Hi Hq) as (w1 & -> & Hi1 & Hq1 & Hx1 & He1).
  { intros c Hc%elem_of_elements. by eapply child_of_owned. }
  assert (Hlen : length (elements (_owned o)) = size (_owned o)) by done. rewrite Hlen in Hi1, He1.
  cbn [mbind option_bind]. rewrite Hx in Hx1. unfold register_term_acks. rewrite (on_Some x _ w1 o) by done. cbn [mbind option_bind].
  erewrite on_Some by apply lookup_insert_eq. cbn [mbind option_bind]. rewrite insert_insert_eq.
  erewrite on_Some by apply lookup_insert_eq. cbn [mbind option_bind]. rewrite insert_insert_eq.
  set (o' := set_terminating _). destruct (check_ok (<[x := o']> w1) x o') as (w' & E & Hinv & He).
  - eapply (hinv_update N w1 x _ t 0 _ x o o' N none 0 0 0); try done; try by left.
    + pose proof (hi_flat _ _ _ _ _ _ _ Hi1 x o Hx1) as []. split; try done; cbn; intros; naive_solver.
    + cbn. intros Ho. by apply (hi_root _ _ _ _ _ _ _ Hi1 x o).
    + intros Ho. unfold token, told. cbn. rewrite !here_eq, Ht, (Hown Ho). cbn. lia.
    + intros c. unfold holds. rewrite !here_eq. cbn. rewrite count_elements. unfold none. rewrite bool_decide_false by set_solver. cbn. lia.
    + rewrite !here_eq, Ha. unfold base. cbn. rewrite Ht. change (is_kind Socket o') with (is_kind Socket o). destruct (is_kind Socket o); cbn; lia.
    + intros pre c post Hin. right. exists pre, post. done.
  - eapply quiet_update; [done|done|]. done.
  - apply lookup_insert_eq.
  - rewrite E. exists w'. split; [done|]. split; [done|]. eapply eff_trans; [done| |].
    + eapply (eff_trans _ _ _ (- 2 * Z.of_nat (size (_owned o))) 0); [|done|reflexivity]. eapply eff_update; [done|done|done|by intros|].
      unfold weight. cbn. rewrite size_empty. rewrite Hp. cbn. lia.
    + lia.
Qed.

End handlers.

(** *** Commands *)

Lemma inv_get N w x o : inv N w → w !! x = Some o → flat 0 N o.
Proof. intros [Hi _] Hx. pose proof (hi_flat _ _ _ _ _ _ _ (Hi x) x o Hx) as H. by rewrite here_0 in H. Qed.

Lemma inv_quiet N w x : inv N w → quiet_but x w.
Proof. intros [_ Hq] y o _. by apply Hq. Qed.

Lemma hinv_mono N N' w x hand t s a : N ≤ N' → hinv N w x hand t s a → hinv N' w x hand t s a.
Proof. intros HN []. split; try done. intros y o Hy. destruct (hi_flat0 y o Hy). split; try done. lia. Qed.

Lemma inv_mono N N' w : N ≤ N' → inv N w → inv N' w.
Proof. intros HN [Hi Hq]. split; [|done]. intros x. by eapply hinv_mono. Qed.

(** [w] is the world with [x] at work, [d] the work added since [w0]. *)
Definition mid (N : Z) (w0 w : world) (x : Z) (hand : Z → Z) (t s a d : Z) : Prop :=
  hinv N w x hand t s a ∧ quiet_but x w ∧ is_Some (w !! x) ∧ eff w0 w d.

Definition one (c z : Z) : Z := b2z (bool_decide (z = c)).

Lemma mid_weaken N w0 w x hand hand' t s a d d' : mid N w0 w x hand t s a d → (∀ c, hand' c = hand c) → d ≤ d' → mid N w0 w x hand' t s a d'.
Proof.
  intros (Hi & Hq & Hx & He) Hh Hd. split; [by eapply hinv_ext|]. split; [done|]. split; [done|].
  eapply eff_trans; [done|apply eff_refl|lia].
Qed.

(** The actor changes itself. *)
Lemma mid_self N N' w0 w x o o' hand t s a d hand' t' s' a' d' :
  mid N w0 w x hand t s a d → w !! x = Some o → same_id o o' → N ≤ N' → flat s' N' o' →
  (o.(_owner) = None → count is_term o'.(inbox) = 0) → (o.(_owner) ≠ None → told o' + t' = told o + t) →
  (∀ c, holds x hand' x o' c = holds x hand x o c) →
  o'.(_term_acks) - base o' - count is_ack o'.(inbox) - a' = o.(_term_acks) - base o - count is_ack o.(inbox) - a →
  (∃ l, o.(inbox) = l ++ o'.(inbox)) → o'.(pended) = o.(pended) → (o.(_terminating) = true → o'.(_terminating) = true) →
  weight o' + d ≤ weight o + d' → mid N' w0 (<[x := o']> w) x hand' t' s' a' d'.
Proof.
  intros (Hi & Hq & _ & He) Hx Hid HN Hf Hr Ht Hh Ha (l & Hl) Hp Htm Hw. split; [|split; [|split; [rewrite lookup_insert_eq; by eexists|]]].
  - eapply (hinv_update N w x hand t s a x o); try done; rewrite ?here_eq; [done|by left|intros Ho; unfold token; rewrite !here_eq; by apply Ht|done|].
    intros pre c post Hin. right. exists (l ++ pre), post. rewrite Hl, Hin, app_assoc. done.
  - eapply quiet_update; [done|done|]. done.
  - eapply eff_trans; [done|eapply (eff_update _ _ o _ (weight o' - weight o)); [done|apply Hid|done|done|lia]|lia].
Qed.

(** Another object is sent a command that does not matter to the tree. *)
Lemma mid_push N w0 w x y o hand t s a d cmd : mid N w0 w x hand t s a d → w !! y = Some o →
  is_seq cmd = true → (∀ c, cmd ≠ own c) → cmd_ok o cmd →
  mid (N + 1) w0 (<[y := push cmd (set_sent (u32 (o.(_sent_seqnum) + 1)) o)]> w) x hand t s a (d + cmd_weight cmd).
Proof.
  intros (Hi & Hq & Hx & He) Hy Hs Hown Hok. set (o' := push _ _).
  assert (Hrefs : refs o' = refs o + 1) by (unfold refs, o'; cbn; rewrite count_app; cbn; rewrite Hs; cbn; lia).
  assert (Hnt : is_term cmd = false ∧ is_ack cmd = false) by (by destruct cmd). destruct Hnt as [Hnt Hna].
  split; [|split; [|split]].
  - eapply (hinv_update N w x hand t s a y o); try done; [lia| |by right|..].
    + pose proof (hi_flat _ _ _ _ _ _ _ Hi y o Hy) as []. split; rewrite ?Hrefs; try done; cbn.
      * rewrite f_sent0. unfold wrap. rewrite Zplus_mod_idemp_l. f_equal. lia.
      * lia.
      * apply Forall_app. split; [done|]. by apply Forall_singleton.
    + intros Ho. cbn. rewrite count_app. cbn. rewrite Hnt. pose proof (hi_root _ _ _ _ _ _ _ Hi y o Hy Ho). cbn. lia.
    + intros _. unfold token, told. cbn. rewrite count_app. cbn. rewrite Hnt. cbn. lia.
    + intros c. unfold holds. cbn. rewrite count_app. cbn. unfold is_own at 2. rewrite (bool_decide_false (cmd = own c)) by done. cbn. lia.
    + cbn. rewrite count_app. cbn. rewrite Hna. unfold base, is_kind. cbn. lia.
    + intros pre c post Hin. cbn in Hin. apply req_app in Hin as [(-> & _)|(post' & Hin & ->)]; [done|]. right. exists pre, post'.
      split; [done|]. intros. apply elem_of_app. by left.
  - eapply quiet_update; [done|done|]. intros _ _. unfold dying. rewrite Hrefs. pose proof (refs_nonneg _ _ _ (hi_flat _ _ _ _ _ _ _ Hi y o Hy)).
    rewrite (proj2 (Z.eqb_neq _ 0)) by lia. by rewrite andb_false_r.
  - destruct (decide (x = y)) as [->|?]; [rewrite lookup_insert_eq; by eexists|by rewrite lookup_insert_ne by done].
  - eapply eff_trans; [done|eapply (eff_update _ _ o _ (cmd_weight cmd)); try done|lia].
    unfold weight, o', push. cbn. rewrite inbox_weight_app. cbn. lia.
Qed.

Lemma send_seq_ok N w0 w x y o hand t s a d cmd : mid N w0 w x hand t s a d → w !! y = Some o →
  is_seq cmd = true → (∀ c, cmd ≠ own c) → cmd_ok o cmd →
  ∃ w', (w ← inc_seqnum y w; send_command y cmd w) = Some w' ∧ mid (N + 1) w0 w' x hand t s a (d + cmd_weight cmd).
Proof.
  intros Hm Hy Hs Hown Hok. unfold inc_seqnum, send_command. rewrite (on_Some y _ w o) by done. cbn [mbind option_bind].
  erewrite on_Some by apply lookup_insert_eq. rewrite insert_insert_eq. eexists. split; [done|].
  by apply (mid_push N w0 w x y o).
Qed.

(** The first command of [x] is taken from its mailbox. *)
Lemma pop_ok N w x o cmd rest : inv N w → w !! x = Some o → o.(inbox) = cmd :: rest →
  mid N w (<[x := set_inbox rest o]> w) x (λ c, b2z (is_own c cmd)) (b2z (is_term cmd)) (b2z (is_seq cmd)) (b2z (is_ack cmd)) (- cmd_weight cmd) ∧
  cmd_ok o cmd ∧ (is_term cmd = true → o.(_owner) ≠ None ∧ o.(_terminating) = false ∧ o.(_pending) = false).
Proof.
  intros Hinv Hx Hin. pose proof (inv_get _ _ _ _ Hinv Hx) as Hf. pose proof (inv_quiet _ _ x Hinv) as Hq. destruct Hinv as [Hi Hd]. specialize (Hi x).
  assert (Hok : cmd_ok o cmd ∧ Forall (cmd_ok o) rest) by (pose proof (f_inbox _ _ _ Hf) as H; rewrite Hin in H; by apply Forall_cons).
  assert (Ht : is_term cmd = true → _owner o ≠ None ∧ _terminating o = false ∧ _pending o = false).
  { intros Hc. destruct (_owner o) as [p|] eqn:Ho.
    - destruct (hi_child _ _ _ _ _ _ _ Hi x o p Hx Ho) as (_ & op & _ & _ & Heq). rewrite token_0 in Heq. pose proof (holds_between_nonneg x p op x).
      unfold told in Heq. rewrite Hin in Heq. cbn in Heq. rewrite Hc in Heq. cbn in Heq. pose proof (count_nonneg is_term rest).
      split; [done|]. destruct (_terminating o), (_pending o); cbn in Heq; try lia; done.
    - destruct (hi_root _ _ _ _ _ _ _ Hi x o Hx Ho) as [_ H]. rewrite Hin in H. cbn in H. rewrite Hc in H. cbn in H. pose proof (count_nonneg is_term rest). lia. }
  split; [|by split; [apply Hok|]].
  eapply (mid_self N N w w x o _ none 0 0 0 0); try done.
  - split; [done|]. split; [done|]. split; [by eexists|apply eff_refl].
  - destruct Hf. assert (Hr : refs (set_inbox rest o) + b2z (is_seq cmd) = refs o) by (unfold refs; rewrite Hin; cbn; lia).
    split; try done; [|change (_processed_seqnum (set_inbox rest o)) with (_processed_seqnum o); lia|apply Hok]. cbn. rewrite f_sent0. f_equal. lia.
  - cbn. intros Ho. destruct (hi_root _ _ _ _ _ _ _ Hi x o Hx Ho) as [_ H]. rewrite Hin in H. cbn in H. pose proof (count_nonneg is_term rest). destruct (is_term cmd); cbn in H; lia.
  - intros _. unfold told. rewrite Hin. cbn. lia.
  - intros c. unfold holds. rewrite !here_eq, Hin. cbn. unfold none. lia.
  - rewrite Hin. cbn. unfold base, is_kind. cbn. lia.
  - exists [cmd]. done.
  - unfold weight. rewrite Hin. cbn. lia.
Qed.

Lemma mid_get N w0 w x o hand t s a d : mid N w0 w x hand t s a d → w !! x = Some o → flat s N o.
Proof. intros (Hi & _) Hx. pose proof (hi_flat _ _ _ _ _ _ _ Hi x o Hx) as H. by rewrite here_eq in H. Qed.

Lemma check_mid N w0 w x d : N < 2 ^ 32 → mid N w0 w x none 0 0 0 d → ∃ w', check_term_acks x w = Some w' ∧ inv N w' ∧ eff w0 w' d.
Proof.
  intros HN (Hi & Hq & [o Hx] & He). destruct (check_ok N HN w x o Hi Hq Hx) as (w' & E & Hinv & He').
  exists w'. split; [done|]. split; [done|]. eapply eff_trans; [done|done|lia].
Qed.

Lemma process_seqnum_ok N w0 w x d : N < 2 ^ 32 → mid N w0 w x none 0 1 0 d → ∃ w', process_seqnum x w = Some w' ∧ inv N w' ∧ eff w0 w' d.
Proof.
  intros HN Hm. pose proof Hm as (_ & _ & [o Hx] & _). unfold process_seqnum. rewrite (on_Some x _ w o) by done. cbn [mbind option_bind].
  apply check_mid; [done|]. pose proof (mid_get _ _ _ _ _ _ _ _ _ _ Hm Hx) as Hf. pose proof (refs_nonneg _ _ _ Hf). destruct Hf.
  rewrite u64_small by lia. eapply (mid_self N N w0 w x o _ none 0 1 0 d); try done; [|by intros Ho; apply (hi_root _ _ _ _ _ _ _ (proj1 Hm) x o)|by exists []].
  split; try done; cbn; change (refs (set_processed _ o)) with (refs o); [rewrite f_sent0; f_equal; lia|lia|lia].
Qed.


(** The owner of an object is alive, and so is its socket. *)
Lemma socket_alive N w x hand t s a y o : hinv N w x hand t s a → w !! y = Some o →
  ∃ os, w !! socket_of y o = Some os ∧ os.(kind) = Socket.
Proof.
  intros Hi. destruct (hi_rank _ _ _ _ _ _ _ Hi) as [rk Hrk]. remember (rk y) as n eqn:Hn. revert y o Hn.
  induction n as [n IH] using (well_founded_induction lt_wf). intros y o -> Hy.
  destruct (_owner o) as [p|] eqn:Ho.
  - destruct (hi_child _ _ _ _ _ _ _ Hi y o p Hy Ho) as (Hk & op & Hop & Hs & _). unfold socket_of at 1. destruct (kind o); [done|rewrite Hs..]; by eapply IH; eauto.
  - destruct (hi_root _ _ _ _ _ _ _ Hi y o Hy Ho) as [Hk _]. unfold socket_of. rewrite Hk. by exists o.
Qed.

Lemma seq_mid_root N w0 w x o hand t s a d : mid N w0 w x hand t s a d → w !! x = Some o → o.(_owner) = None → count is_term o.(inbox) = 0.
Proof. intros (Hi & _) Hx Ho. by apply (hi_root _ _ _ _ _ _ _ Hi x o). Qed.

(** Registering acks before the child they are for is told. *)
Lemma register_ok N w0 w x hand t s a d n : mid N w0 w x hand t s a d → 
  ∃ o w', w !! x = Some o ∧ register_term_acks x n w = Some w' ∧ w' = <[x := set_acks (o.(_term_acks) + n) o]> w ∧ mid N w0 w' x hand t s (a + n) d.
Proof.
  intros Hm. pose proof Hm as (_ & _ & [o Hx] & _). exists o. eexists. split; [done|]. unfold register_term_acks. rewrite (on_Some x _ w o) by done.
  split; [done|]. split; [done|]. pose proof (mid_get _ _ _ _ _ _ _ _ _ _ Hm Hx) as Hf.
  eapply (mid_self N N w0 w x o _ hand t s a d); try done; [by destruct Hf|exact (seq_mid_root _ _ _ _ _ _ _ _ _ _ Hm Hx)|cbn; change (base (set_acks _ o)) with (base o); lia|by exists []].
Qed.

Lemma send_term_ok N w0 w x hand t s a d c l : mid N w0 w x hand t s a d → child_of w x c →
  ∃ w', send_term l c w = Some w' ∧ w' !! x = w !! x ∧ mid N w0 w' x (λ z, hand z - one c z) t s (a - 1) (d + 2).
Proof.
  intros (Hi & Hq & Hx & He) Hc. pose proof Hc as (oc & Hoc & Ho). unfold send_term, send_command. rewrite (on_Some c _ w oc) by done.
  assert (c ≠ x) by (intros ->; by apply (no_self_owner _ _ _ _ _ _ _ _ _ Hi Hoc)).
  eexists. split; [done|]. split; [by rewrite lookup_insert_ne by done|]. split; [by apply (hinv_term N w x hand t s a c oc)|]. split; [|split].
  - eapply quiet_update; [done|done|]. intros _. unfold dying, refs. cbn. rewrite count_app. cbn. by rewrite Z.add_0_r.
  - by rewrite lookup_insert_ne by done.
  - eapply eff_trans; [done|eapply (eff_update _ _ oc _ 2); try done|lia]. unfold weight. cbn. rewrite inbox_weight_app. cbn. lia.
Qed.

Lemma hand_child N w0 w x t s a d c : mid N w0 w x (one c) t s a d → child_of w x c.
Proof.
  intros (Hi & _ & [o Hx] & _). apply (hi_ref _ _ _ _ _ _ _ Hi x o c Hx). unfold holds, one. rewrite here_eq, (bool_decide_true (c = c)) by done.
  pose proof (count_nonneg (is_own c) (inbox o)). case_bool_decide; cbn; lia.
Qed.

Lemma hand_not_owned N w0 w x o t s a d c : mid N w0 w x (one c) t s a d → w !! x = Some o → c ∉ o.(_owned).
Proof.
  intros Hm Hx Hc. destruct (hand_child _ _ _ _ _ _ _ _ _ Hm) as (oc & Hoc & Ho). destruct Hm as (Hi & _).
  destruct (hi_child _ _ _ _ _ _ _ Hi c oc x Hoc Ho) as (_ & o' & Ho' & _ & Heq). simplify_eq. unfold holds, one in Heq.
  rewrite here_eq, !bool_decide_true in Heq by done. pose proof (count_nonneg (is_own c) (inbox o)). pose proof (told_nonneg oc).
  unfold token in Heq. assert (c ≠ x) by (intros ->; by apply (no_self_owner _ _ _ _ _ _ _ _ _ Hi Hoc)). rewrite here_ne in Heq by done. cbn in Heq. lia.
Qed.

Lemma process_own_ok N w0 w x c d : mid N w0 w x (one c) 0 1 0 d →
  ∃ w', process_own x c w = Some w' ∧ mid N w0 w' x none 0 1 0 (d + 3).
Proof.
  intros Hm. pose proof Hm as (_ & _ & [o Hx] & _). unfold process_own. rewrite Hx. cbn [mbind option_bind]. pose proof (hand_child _ _ _ _ _ _ _ _ _ Hm) as Hc.
  destruct (_terminating o) eqn:Ht.
  - destruct (register_ok N w0 w x (one c) 0 1 0 d 1 Hm) as (o' & w1 & Hx' & -> & -> & Hm1). cbn [mbind option_bind].
    destruct (send_term_ok _ _ _ _ _ _ _ _ _ c 0 Hm1) as (w2 & -> & _ & Hm2); [by eapply (child_of_update w x o')|].
    exists w2. split; [done|]. eapply mid_weaken; [done|intros; unfold none; lia|lia].
  - rewrite (on_Some x _ w o) by done. eexists. split; [done|]. pose proof (hand_not_owned _ _ _ _ _ _ _ _ _ _ Hm Hx) as Hn.
    pose proof (mid_get _ _ _ _ _ _ _ _ _ _ Hm Hx) as Hf.
    eapply (mid_self N N w0 w x o _ (one c) 0 1 0 d); try done; [destruct Hf; split; try done; cbn; congruence|exact (seq_mid_root _ _ _ _ _ _ _ _ _ _ Hm Hx)| |by exists []|].
    + intros z. unfold holds, one, none. rewrite !here_eq. cbn. destruct (decide (z = c)) as [->|?].
      * rewrite (bool_decide_true (c = c)), (bool_decide_false (c ∈ _owned o)), bool_decide_true by set_solver. cbn. lia.
      * rewrite (bool_decide_false (z = c)), (bool_decide_ext (z ∈ {[c]} ∪ _owned o) (z ∈ _owned o)) by set_solver. cbn. lia.
    + unfold weight. cbn. rewrite size_union_alt, size_singleton. replace (_owned o ∖ {[c]}) with (_owned o) by set_solver. lia.
Qed.

Lemma process_term_req_ok N w0 w x c d : mid N w0 w x none 0 0 0 d →
  ∃ w', process_term_req x c w = Some w' ∧ mid N w0 w' x none 0 0 0 d ∧
    ∀ o o', w !! x = Some o → w' !! x = Some o' → dying o = false → dying o' = false.
Proof.
  intros Hm. pose proof Hm as (_ & _ & [o Hx] & _). unfold process_term_req. pattern (w !! x) at 1. refine (eq_ind_r _ _ Hx). cbn [mbind option_bind].
  assert (Hsame : ∀ o o', w !! x = Some o → w !! x = Some o' → dying o = false → dying o' = false) by (intros; by simplify_eq).
  destruct (_terminating o) eqn:Ht; [by exists w|]. case_bool_decide as Hc; cbn [negb]; [|by exists w].
  rewrite (on_Some x _ w o) by done. cbn [mbind option_bind]. pose proof (mid_get _ _ _ _ _ _ _ _ _ _ Hm Hx) as Hf.
  assert (Hm1 : mid N w0 (<[x := set_owned (_owned o ∖ {[c]}) o]> w) x (one c) 0 0 0 (d - 3)).
  { eapply (mid_self N N w0 w x o _ none 0 0 0 d); try done; [destruct Hf; split; try done; cbn; congruence|exact (seq_mid_root _ _ _ _ _ _ _ _ _ _ Hm Hx)| |by exists []|].
    + intros z. unfold holds, one, none. rewrite !here_eq. cbn. destruct (decide (z = c)) as [->|?].
      * rewrite (bool_decide_true (c = c)), (bool_decide_true (c ∈ _owned o)), bool_decide_false by set_solver. cbn. lia.
      * rewrite (bool_decide_false (z = c)), (bool_decide_ext (z ∈ _owned o ∖ {[c]}) (z ∈ _owned o)) by set_solver. cbn. lia.
    + unfold weight. cbn. rewrite size_difference by set_solver. rewrite size_singleton. pose proof (subseteq_size {[c]} (_owned o) ltac:(set_solver)) as Hs. rewrite size_singleton in Hs. lia. }
  pose proof (hand_child _ _ _ _ _ _ _ _ _ Hm1) as Hch.
  destruct (register_ok _ _ _ _ _ _ _ _ _ 1 Hm1) as (o' & w1 & Hx' & -> & -> & Hm2). cbn [mbind option_bind].
  destruct (send_term_ok _ _ _ _ _ _ _ _ _ c (linger o) Hm2) as (w2 & -> & Hsx & Hm3); [by eapply (child_of_update (<[x := set_owned (_owned o ∖ {[c]}) o]> w) x o')|].
  exists w2. split; [done|]. split; [eapply mid_weaken; [done|intros; unfold none; lia|lia]|].
  intros o1 o2 _ Hx2 _. apply not_terminating_alive. rewrite lookup_insert_eq in Hx'. injection Hx' as <-.
  rewrite Hsx, lookup_insert_eq in Hx2. injection Hx2 as <-. done.
Qed.

(** A pipe is attached to a socket. *)
Lemma attach_pipe_ok N w0 w x o hand s d : mid N w0 w x hand 0 s 0 d → w !! x = Some o → o.(kind) = Socket →
  ∃ w', attach_pipe x w = Some w' ∧ mid N w0 w' x hand 0 s 0 (d + 1) ∧ (∀ y, y ≠ x → w' !! y = w !! y) ∧
    (∀ ox, w' !! x = Some ox → ox.(_owned) = o.(_owned) ∧ ox.(inbox) = o.(inbox) ∧ ox.(_terminating) = o.(_terminating)).
Proof.
  intros Hm Hx Hk. unfold attach_pipe. rewrite (on_Some x _ w o) by done. cbn [mbind option_bind]. rewrite lookup_insert_eq. cbn [mbind option_bind].
  pose proof (mid_get _ _ _ _ _ _ _ _ _ _ Hm Hx) as Hf.
  assert (Hm1 : mid N w0 (<[x := set_pipes (pipes o + 1) (_pipe o) o]> w) x hand 0 s (- b2z (_terminating o)) (d + 1)).
  { eapply (mid_self N N w0 w x o _ hand 0 s 0 d); try done; [|exact (seq_mid_root _ _ _ _ _ _ _ _ _ _ Hm Hx)| |by exists []|unfold weight; cbn; lia].
    + destruct Hf. split; try done; cbn; try congruence; try lia. all: intros H; first [destruct (f_pipe0 H); congruence|destruct (f_pending0 H); congruence].
    + cbn. unfold base, is_kind. cbn. rewrite Hk, bool_decide_true by done. destruct (_terminating o); cbn; lia. }
  cbn [_terminating set_pipes]. destruct (_terminating o) eqn:Ht.
  - destruct (register_ok _ _ _ _ _ _ _ _ _ 1 Hm1) as (o' & w1 & Hx' & E & -> & Hm2). rewrite E. rewrite lookup_insert_eq in Hx'. injection Hx' as <-.
    eexists. split; [done|]. split; [done|]. rewrite insert_insert_eq. split; [intros; by rewrite lookup_insert_ne by done|].
    rewrite lookup_insert_eq. intros ox [= <-]. done.
  - eexists. split; [done|]. split; [done|]. split; [intros; by rewrite lookup_insert_ne by done|]. rewrite lookup_insert_eq. intros ox [= <-]. done.
Qed.

Lemma process_bind_ok N w0 w x o d : mid N w0 w x none 0 1 0 d → w !! x = Some o → o.(kind) = Socket →
  ∃ w', process_bind x w = Some w' ∧ mid N w0 w' x none 0 1 0 (d + 1).
Proof.
  intros Hm Hx Hk. unfold process_bind. rewrite Hx. cbn [mbind option_bind]. rewrite bool_decide_true by done. cbn [zmq_assert mbind option_bind].
  destruct (attach_pipe_ok _ _ _ _ _ _ _ _ Hm Hx Hk) as (w' & E & Hm' & _). eauto.
Qed.

Lemma process_attach_ok N w0 w x o d : mid N w0 w x none 0 1 0 d → w !! x = Some o → o.(kind) = Session →
  ∃ w', process_attach x w = Some w' ∧ mid (N + 1) w0 w' x none 0 1 0 (d + 3).
Proof.
  intros Hm Hx Hk. unfold process_attach. rewrite Hx. cbn [mbind option_bind]. rewrite bool_decide_true by done. cbn [zmq_assert mbind option_bind].
  destruct (negb (_pipe o) && negb (_terminating o)) eqn:E.
  - apply andb_true_iff in E as [Hp Ht]. apply negb_true_iff in Hp, Ht. rewrite (on_Some x _ w o) by done. cbn [mbind option_bind].
    pose proof (mid_get _ _ _ _ _ _ _ _ _ _ Hm Hx) as Hf.
    assert (Hm1 : mid N w0 (<[x := set_pipes (pipes o + 1) true o]> w) x none 0 1 0 (d + 1)).
    { eapply (mid_self N N w0 w x o _ none 0 1 0 d); try done; [|exact (seq_mid_root _ _ _ _ _ _ _ _ _ _ Hm Hx)| |by exists []|unfold weight; cbn; lia].
      + destruct Hf. split; try done; cbn; try congruence; try lia; intros; [|by split; [|lia]]. destruct (f_pending0 ltac:(done)) as (? & ? & ?). by split; [|split; [lia|]].
      + cbn. unfold base, is_kind. cbn. by rewrite Ht. }
    destruct (socket_alive _ _ _ _ _ _ _ x (set_pipes (pipes o + 1) true o) (proj1 Hm1) (lookup_insert_eq _ _ _)) as (os & Hos & Hks).
    unfold socket_of in Hos. cbn in Hos. rewrite Hk in Hos. unfold send_bind.
    destruct (send_seq_ok _ _ _ _ _ _ _ _ _ _ _ bind Hm1 Hos) as (w' & E & Hm2); [done..|]. rewrite E. exists w'. split; [done|].
    eapply mid_weaken; [done|done|cbn; lia].
  - exists w. split; [done|]. destruct Hm as (Hi & ? & ? & ?). split; [eapply hinv_mono; [|done]; lia|]. split; [done|]. split; [done|].
    eapply eff_trans; [done|apply eff_refl|lia].
Qed.

Lemma mid_start N w x o : inv N w → w !! x = Some o → mid N w w x none 0 0 0 0.
Proof. intros Hinv Hx. split; [apply Hinv|]. split; [by eapply inv_quiet|]. split; [by eexists|apply eff_refl]. Qed.

Lemma mid_inv N w0 w x o d : mid N w0 w x none 0 0 0 d → w !! x = Some o → dying o = false → inv N w ∧ eff w0 w d.
Proof. intros (Hi & Hq & _ & He) Hx Hd. split; [|done]. apply (inv_intro _ _ x); [done|done|]. intros o' ?. by simplify_eq. Qed.

Lemma own_term_mid N w0 w x o t a d ln : N < 2 ^ 32 → mid N w0 w x none t 0 a d → w !! x = Some o →
  o.(_terminating) = false → o.(_pending) = false → o.(registered) = false → (o.(kind) = Session → o.(pipes) = 0) →
  (o.(_owner) ≠ None → t = 1) → a = (if is_kind Socket o then o.(pipes) else 0) →
  ∃ w', own_process_term x ln w = Some w' ∧ inv N w' ∧ eff w0 w' d.
Proof.
  intros HN (Hi & Hq & _ & He) Hx H1 H2 H3 H4 H5 H6.
  destruct (own_process_term_ok N HN w x o t a ln Hi Hq Hx H1 H2 H3 H4 H5 H6) as (w' & E & Hinv & He').
  exists w'. split; [done|]. split; [done|]. eapply eff_trans; [done|done|lia].
Qed.

Lemma kind_owner N w0 w x hand t s a d y o : mid N w0 w x hand t s a d → w !! y = Some o → (o.(kind) = Socket ↔ o.(_owner) = None).
Proof.
  intros (Hi & _) Hy. destruct (_owner o) as [p|] eqn:Ho.
  - destruct (hi_child _ _ _ _ _ _ _ Hi y o p Hy Ho) as [Hk _]. done.
  - destruct (hi_root _ _ _ _ _ _ _ Hi y o Hy Ho) as [Hk _]. done.
Qed.

Lemma process_term_ok N w0 w x o t d ln : N < 2 ^ 32 → mid N w0 w x none t 0 0 d → w !! x = Some o →
  o.(_terminating) = false → o.(_pending) = false → (o.(_owner) ≠ None → t = 1) →
  ∃ w', process_term x ln w = Some w' ∧ inv N w' ∧ eff w0 w' (d + 1).
Proof.
  intros HN Hm Hx Ht Hp Hown. unfold process_term. rewrite Hx. cbn [mbind option_bind].
  pose proof (mid_get _ _ _ _ _ _ _ _ _ _ Hm Hx) as Hf. pose proof (kind_owner _ _ _ _ _ _ _ _ _ _ _ Hm Hx) as Hko.
  assert (Hreg : kind o ≠ Socket → registered o = false) by (intros Hk; destruct (registered o) eqn:E; [by destruct (f_registered _ _ _ Hf E)|done]).
  destruct (kind o) eqn:Hk.
  - rewrite (on_Some x _ w o) by done. cbn [mbind option_bind].
    assert (Hm1 : mid N w0 (<[x := set_registered false o]> w) x none t 0 0 d).
    { eapply (mid_self N N w0 w x o _ none t 0 0 d); try done; [by destruct Hf|exact (seq_mid_root _ _ _ _ _ _ _ _ _ _ Hm Hx)|by exists []]. }
    destruct (register_ok _ _ _ _ _ _ _ _ _ (pipes o) Hm1) as (o' & w1 & Hx' & -> & -> & Hm2). cbn [mbind option_bind].
    rewrite lookup_insert_eq in Hx'. injection Hx' as <-.
    destruct (own_term_mid _ _ _ _ _ _ _ _ ln HN Hm2 (lookup_insert_eq _ _ _)) as (w' & E & Hinv & He); try done.
    + cbn. congruence.
    + unfold is_kind. cbn. by rewrite Hk.
    + exists w'. split; [done|]. split; [done|]. eapply eff_trans; [done|apply eff_refl|lia].
  - rewrite Hp. cbn [negb zmq_assert mbind option_bind]. destruct (Z.eqb_spec (pipes o) 0) as [Hz|Hz].
    + destruct (own_term_mid _ _ _ _ _ _ _ _ 0 HN Hm Hx) as (w' & E & Hinv & He); try done; [by apply Hreg|unfold is_kind; by rewrite Hk|].
      exists w'. split; [done|]. split; [done|]. eapply eff_trans; [done|apply eff_refl|lia].
    + rewrite (on_Some x _ w o) by done. eexists. split; [done|]. pose proof (f_pipes _ _ _ Hf).
      assert (Hm1 : mid N w0 (<[x := set_pending true o]> w) x none 0 0 0 (d + 1)).
      { eapply (mid_self N N w0 w x o _ none t 0 0 d); try done; [|exact (seq_mid_root _ _ _ _ _ _ _ _ _ _ Hm Hx)| |by exists []|unfold weight; cbn; rewrite Hp; cbn; lia].
        + destruct Hf. split; try done. cbn. intros _. split; [done|]. split; [lia|done].
        + intros Ho. unfold told. cbn. rewrite Hp, Ht, (Hown Ho). cbn. lia. }
      eapply (mid_inv _ _ _ _ _ _ Hm1); [apply lookup_insert_eq|]. by apply not_terminating_alive.
  - destruct (own_term_mid _ _ _ _ _ _ _ _ ln HN Hm Hx) as (w' & E & Hinv & He); try done; [by apply Hreg|congruence|unfold is_kind; by rewrite Hk|].
    exists w'. split; [done|]. split; [done|]. eapply eff_trans; [done|apply eff_refl|lia].
Qed.

Lemma unregister_ok N w0 w x d : N < 2 ^ 32 → mid N w0 w x none 0 0 1 d →
  ∃ w', unregister_term_ack x w = Some w' ∧ inv N w' ∧ eff w0 w' d.
Proof.
  intros HN Hm. pose proof Hm as (Hi & _ & [o Hx] & _). unfold unregister_term_ack. rewrite Hx. cbn [mbind option_bind].
  pose proof (mid_get _ _ _ _ _ _ _ _ _ _ Hm Hx) as Hf.
  assert (Hpos : 0 < _term_acks o).
  { pose proof (hi_acks _ _ _ _ _ _ _ Hi x o Hx) as Ha. rewrite here_eq in Ha. pose proof (base_nonneg _ _ _ Hf). pose proof (count_nonneg is_ack (inbox o)).
    pose proof (osum_nonneg (child_token x 0 x) w ltac:(intros; apply child_token_nonneg)). lia. }
  rewrite (proj2 (Z.ltb_lt _ _)) by done. cbn [zmq_assert mbind option_bind]. rewrite (on_Some x _ w o) by done. cbn [mbind option_bind].
  apply check_mid; [done|].
  eapply (mid_self N N w0 w x o _ none 0 0 1 d); try done; [by destruct Hf|exact (seq_mid_root _ _ _ _ _ _ _ _ _ _ Hm Hx)|cbn; change (base (set_acks _ o)) with (base o); lia|by exists []].
Qed.

Lemma one_own c : ∀ z, b2z (is_own z (own c)) = one c z.
Proof. intros z. unfold is_own, one. f_equal. apply bool_decide_ext. split; [by intros [= ->]|by intros ->]. Qed.

Lemma not_own cmd : (∀ c, cmd ≠ own c) → ∀ z, b2z (is_own z cmd) = none z.
Proof. intros H z. unfold is_own. by rewrite bool_decide_false. Qed.

(** A command is processed. *)
Lemma delivered_ok N w x o : N + 1 < 2 ^ 32 → inv N w → w !! x = Some o → o.(inbox) ≠ [] →
  ∃ w', deliver x w = Some w' ∧ inv (N + 1) w' ∧ eff w w' (- 1).
Proof.
  intros HN Hinv Hx Hne. destruct (inbox o) as [|cmd rest] eqn:Hin; [done|]. clear Hne.
  destruct (pop_ok _ _ _ _ _ _ Hinv Hx Hin) as (Hm & Hok & Hterm). unfold deliver. rewrite Hx. cbn [mbind option_bind]. rewrite Hin.
  set (w1 := <[x := set_inbox rest o]> w) in *. assert (Hx1 : w1 !! x = Some (set_inbox rest o)) by apply lookup_insert_eq. clearbody w1.
  assert (Hfin : ∀ m, (∃ w', m = Some w' ∧ inv N w' ∧ eff w w' (- 1)) → ∃ w', m = Some w' ∧ inv (N + 1) w' ∧ eff w w' (- 1)).
  { intros m (w' & E & Hi & He). exists w'. split; [done|]. split; [eapply inv_mono; [|done]; lia|done]. }
  destruct cmd; cbn [process_command is_term is_seq is_ack b2z cmd_weight cmd_ok] in *.
  - apply Hfin. unfold process_plug. rewrite Hx1. cbn [mbind option_bind]. rewrite bool_decide_true by done. cbn [zmq_assert mbind option_bind].
    apply process_seqnum_ok; [lia|]. eapply mid_weaken; [exact Hm|intros z; symmetry; by apply not_own|lia].
  - apply Hfin. destruct (process_own_ok N w w1 x object_ (- 4)) as (w2 & -> & Hm2); [eapply mid_weaken; [exact Hm|intros z; symmetry; by apply one_own|lia]|].
    cbn [mbind option_bind]. apply process_seqnum_ok; [lia|done].
  - destruct (process_attach_ok N w w1 x (set_inbox rest o) (- 4)) as (w2 & -> & Hm2); [eapply mid_weaken; [exact Hm|intros z; symmetry; by apply not_own|lia]|done|done|].
    cbn [mbind option_bind]. apply process_seqnum_ok; [lia|done].
  - apply Hfin. destruct (process_bind_ok N w w1 x (set_inbox rest o) (- 2)) as (w2 & -> & Hm2); [eapply mid_weaken; [exact Hm|intros z; symmetry; by apply not_own|lia]|done|done|].
    cbn [mbind option_bind]. apply process_seqnum_ok; [lia|done].
  - apply Hfin. apply process_seqnum_ok; [lia|]. eapply mid_weaken; [exact Hm|intros z; symmetry; by apply not_own|lia].
  - apply Hfin. assert (Hm0 : mid N w w1 x none 0 0 0 (- 1)) by (eapply mid_weaken; [exact Hm|intros z; symmetry; by apply not_own|lia]).
    destruct (process_term_req_ok _ _ _ _ object_ _ Hm0) as (w2 & E & Hm2 & Hd). exists w2. split; [done|].
    pose proof Hm2 as (_ & _ & [o2 Hx2] & _). apply (mid_inv _ _ _ _ _ _ Hm2 Hx2). eapply (Hd _ _ Hx1 Hx2).
    apply (proj2 Hinv) in Hx. unfold dying, refs in *. rewrite Hin in Hx. done.
  - apply Hfin. destruct (Hterm eq_refl) as (Ho & Ht & Hp).
    destruct (process_term_ok N w w1 x (set_inbox rest o) 1 (- 2) linger_) as (w2 & E & Hr); [lia| |done..|]; [eapply mid_weaken; [exact Hm|intros z; symmetry; by apply not_own|lia]|].
    exists w2. done.
  - apply Hfin. apply unregister_ok; [lia|]. eapply mid_weaken; [exact Hm|intros z; symmetry; by apply not_own|lia].
Qed.

(** *** The other steps *)

Lemma pipe_terminated_ok N w x o (current : bool) : N < 2 ^ 32 → inv N w → w !! x = Some o →
  (if current then o.(_pipe) else b2z o.(_pipe) <? o.(pipes)) = true →
  ∃ w', pipe_terminated x current w = Some w' ∧ inv N w' ∧ eff w w' (- 1).
Proof.
  intros HN Hinv Hx Hc. pose proof (mid_start _ _ _ _ Hinv Hx) as Hm. pose proof (inv_get _ _ _ _ Hinv Hx) as Hf.
  assert (Hpos : 0 < pipes o ∧ (_pipe o && negb current = true → 0 < pipes o - 1)).
  { destruct current; [split; [by apply (f_pipe _ _ _ Hf)|by rewrite andb_false_r]|]. apply Z.ltb_lt in Hc. destruct (_pipe o); cbn in *; split; intros; try done; lia. }
  destruct Hpos as [Hpos Hpos'].
  unfold pipe_terminated. rewrite Hx. cbn [mbind option_bind]. rewrite (on_Some x _ w o) by done. cbn [mbind option_bind].
  set (o' := set_pipes (pipes o - 1) (_pipe o && negb current) o).
  assert (Hm1 : (_pending o = true → 0 < pipes o - 1) → mid N w (<[x := o']> w) x none 0 0 (b2z (_terminating o && is_kind Socket o)) (- 1)).
  { intros Hpend. eapply (mid_self N N w w x o _ none 0 0 0 0); try done; [|exact (seq_mid_root _ _ _ _ _ _ _ _ _ _ Hm Hx)| |by exists []|unfold weight; cbn; lia].
    + destruct Hf. split; try done; cbn; try congruence; try lia; intros H; try (intros H'; specialize (f_session0 H H'); lia).
      * specialize (f_leaf0 H). lia.
      * destruct (f_pending0 H) as (? & _ & ?). specialize (Hpend H). done.
      * apply andb_true_iff in H as [H ?]. split; [by apply f_pipe0|]. apply Hpos'. rewrite H. done.
    + cbn. unfold base. cbn. change (is_kind Socket o') with (is_kind Socket o). destruct (_terminating o && is_kind Socket o); cbn; lia. }
  destruct (kind o) eqn:Hk.
  - assert (Hsock : is_kind Socket o = true) by (unfold is_kind; by rewrite Hk). rewrite Hsock, andb_true_r in Hm1.
    specialize (Hm1 ltac:(intros H; destruct (f_pending _ _ _ Hf H); congruence)). destruct (_terminating o) eqn:Ht; [by apply unregister_ok|].
    eexists. split; [done|]. eapply (mid_inv _ _ _ _ _ _ Hm1); [apply lookup_insert_eq|]. by apply not_terminating_alive.
  - assert (Hsock : is_kind Socket o = false) by (unfold is_kind; by rewrite Hk). rewrite Hsock, andb_false_r in Hm1.
    assert (Ht : _terminating o = false) by (destruct (_terminating o) eqn:E; [pose proof (f_session _ _ _ Hf Hk E); lia|done]).
    destruct (_pending o) eqn:Hp; cbn [andb]; [destruct (Z.eqb_spec (pipes o - 1) 0) as [Hz|Hz]|].
    + rewrite (on_Some x _ _ o') by apply lookup_insert_eq. cbn [mbind option_bind]. rewrite insert_insert_eq.
      assert (Hm2 : mid N w (<[x := set_pending false o']> w) x none 1 0 0 (- 1)).
      { eapply (mid_self N N w w x o _ none 0 0 0 0); try done; [|exact (seq_mid_root _ _ _ _ _ _ _ _ _ _ Hm Hx)| | |by exists []|unfold weight; cbn; rewrite Hp; cbn; lia].
        + destruct Hf. split; try done; cbn; try congruence; try lia. intros H. apply andb_true_iff in H as [H ?]. split; [by apply f_pipe0|]. apply Hpos'. rewrite H. done.
        + intros _. unfold told. cbn. rewrite Hp. cbn. lia.
        + cbn. unfold base. cbn. rewrite Ht. cbn. lia. }
      eapply (own_term_mid _ _ _ _ _ _ _ _ 0 HN Hm2 (lookup_insert_eq _ _ _)); try done.
      * cbn. destruct (registered o) eqn:E; [|done]. destruct (f_registered _ _ _ Hf E). congruence.
      * cbn. unfold is_kind. cbn. by rewrite Hk.
    + specialize (Hm1 ltac:(lia)). eexists. split; [done|]. eapply (mid_inv _ _ _ _ _ _ Hm1); [apply lookup_insert_eq|]. by apply not_terminating_alive.
    + specialize (Hm1 ltac:(done)). eexists. split; [done|]. eapply (mid_inv _ _ _ _ _ _ Hm1); [apply lookup_insert_eq|]. by apply not_terminating_alive.
  - pose proof (f_leaf _ _ _ Hf Hk). lia.
Qed.

(** One object changes, outside the tree. *)
Lemma inv_itself N N' w x o o' : inv N w → w !! x = Some o → same_id o o' → N ≤ N' → flat 0 N' o' →
  (o.(_owner) = None → count is_term o'.(inbox) = 0) → told o' = told o →
  (∀ c, count (is_own c) o'.(inbox) = count (is_own c) o.(inbox)) → o'.(_owned) = o.(_owned) →
  o'.(_term_acks) - base o' - count is_ack o'.(inbox) = o.(_term_acks) - base o - count is_ack o.(inbox) →
  (∀ pre c post, o'.(inbox) = pre ++ term_req c :: post → child_of w x c ∨ ∃ post', o.(inbox) = pre ++ term_req c :: post' ∧ (term_ack ∈ post' → term_ack ∈ post)) →
  dying o' = false → inv N' (<[x := o']> w).
Proof.
  intros [Hi Hq] Hx Hid HN Hf Hr Ht Hown How Ha Hreq Hd. apply (inv_intro _ _ x).
  - eapply (hinv_update N w x none 0 0 0 x o); try done; rewrite ?here_0; try done; [by left|by intros _; rewrite !token_0| |lia|].
    + intros c. by rewrite !holds_between, Hown, How.
    + intros pre c post Hin. destruct (Hreq _ _ _ Hin) as [?|(post' & ? & ?)]; [by left|right; eauto].
  - intros y oy Hne Hy. rewrite lookup_insert_ne in Hy by done. by eapply Hq.
  - rewrite lookup_insert_eq. by intros ? [= <-].
Qed.

Ltac inv_root Hinv Hx := intros ?; cbn; rewrite ?count_app; cbn; rewrite ?Z.add_0_r; by apply (hi_root _ _ _ _ _ _ _ (proj1 Hinv 0) _ _ Hx).

(** A reference is taken. *)
Lemma ref_ok N w x o fd pd : inv N w → w !! x = Some o → o.(kind) = Socket → 0 ≤ fd → 0 ≤ pd → fd + pd = 1 →
  inv (N + 1) (<[x := set_pended (o.(pended) + pd) (set_found (o.(found) + fd) (set_sent (u32 (o.(_sent_seqnum) + 1)) o))]> w).
Proof.
  intros Hinv Hx Hk H1 H2 H3. pose proof (inv_get _ _ _ _ Hinv Hx) as Hf. set (o' := set_pended _ _).
  assert (Hr : refs o' = refs o + 1) by (unfold refs, o'; cbn; lia).
  eapply (inv_itself N (N + 1) w x o o'); try done; [lia| |inv_root Hinv Hx| |].
  - destruct Hf. split; rewrite ?Hr; try done; cbn; try lia. rewrite f_sent0. unfold wrap. rewrite Zplus_mod_idemp_l. f_equal. lia.
  - intros pre c post Hin. right. by exists post.
  - unfold dying. rewrite Hr. pose proof (refs_nonneg _ _ _ Hf). rewrite (proj2 (Z.eqb_neq _ 0)) by lia. by rewrite andb_false_r.
Qed.

Lemma find_ok N w x o : inv N w → w !! x = Some o → o.(kind) = Socket → ∃ w', find_endpoint x w = Some w' ∧ inv (N + 1) w'.
Proof.
  intros Hinv Hx Hk. unfold find_endpoint, inc_seqnum. rewrite (on_Some x _ w o) by done. cbn [mbind option_bind].
  erewrite on_Some by apply lookup_insert_eq. rewrite insert_insert_eq. eexists. split; [done|].
  pose proof (ref_ok N w x o 1 0 Hinv Hx Hk) as H. cbn [pended set_found set_sent] in H. rewrite !Z.add_0_r in H. apply H; lia.
Qed.

Lemma pend_ok N w x o : inv N w → w !! x = Some o → o.(kind) = Socket → ∃ w', pend_connection x w = Some w' ∧ inv (N + 1) w'.
Proof.
  intros Hinv Hx Hk. unfold pend_connection, inc_seqnum. rewrite (on_Some x _ w o) by done. cbn [mbind option_bind].
  erewrite on_Some by apply lookup_insert_eq. rewrite insert_insert_eq. eexists. split; [done|].
  pose proof (ref_ok N w x o 0 1 Hinv Hx Hk) as H. cbn [found set_found set_sent] in H. rewrite !Z.add_0_r in H. apply H; lia.
Qed.

(** The command of a reference is sent. *)
Lemma settle_ok N w x o fd pd cmd : inv N w → w !! x = Some o → o.(kind) = Socket → cmd = bind ∨ cmd = inproc_connected → 0 ≤ fd → 0 ≤ pd →
  fd + pd = o.(found) + o.(pended) - 1 → inv N (<[x := push cmd (set_pended pd (set_found fd o))]> w).
Proof.
  intros Hinv Hx Hk Hcmd H1 H2 H3. pose proof (inv_get _ _ _ _ Hinv Hx) as Hf. set (o' := push _ _).
  assert (Hc : is_seq cmd = true ∧ is_ack cmd = false ∧ is_term cmd = false ∧ (∀ c, is_own c cmd = false) ∧ cmd_ok o cmd)
    by (destruct Hcmd as [-> | ->]; unfold is_own; repeat split; intros; rewrite ?bool_decide_false by done; done).
  destruct Hc as (Hs & Hack & Hterm & Hown & Hok).
  assert (Hr : refs o' = refs o) by (unfold refs, o'; cbn; rewrite count_app; cbn; rewrite Hs; cbn; lia).
  assert (Hcnt : ∀ P : command_t → bool, P cmd = false → count P (inbox o') = count P (inbox o)).
  { intros P HP. unfold o'. cbn. rewrite count_app. cbn. rewrite HP. cbn. lia. }
  eapply (inv_itself N N w x o o'); try done.
  - destruct Hf. split; rewrite ?Hr; try done; cbn. apply Forall_app. split; [done|by apply Forall_singleton].
  - intros Ho. rewrite Hcnt by done. by apply (hi_root _ _ _ _ _ _ _ (proj1 Hinv 0) x o).
  - unfold told. by rewrite Hcnt.
  - intros c. by apply Hcnt.
  - rewrite Hcnt by done. done.
  - intros pre c post Hin. cbn in Hin. apply req_app in Hin as [(-> & _)|(post' & Hin & ->)]; [by destruct Hcmd|]. right. exists post'.
    split; [done|]. intros. apply elem_of_app. by left.
  - unfold dying. rewrite Hr. exact (proj2 Hinv x o Hx).
Qed.

Lemma bind_ok N w x o : inv N w → w !! x = Some o → 0 < o.(found) → ∃ w', exec (ABind x) w = Some w' ∧ inv N w' ∧ eff w w' (- 1).
Proof.
  intros Hinv Hx Hfd. pose proof (inv_get _ _ _ _ Hinv Hx) as Hf. assert (Hk : kind o = Socket).
  { destruct (decide (kind o = Socket)); [done|]. destruct (f_refs_socket _ _ _ Hf); [done|lia]. }
  cbn [exec]. rewrite (on_Some x _ w o) by done. cbn [mbind option_bind]. unfold send_bind, send_command. cbn [mbind option_bind].
  erewrite on_Some by apply lookup_insert_eq. rewrite insert_insert_eq. eexists. split; [done|]. pose proof (f_pended _ _ _ Hf). split.
  - pose proof (settle_ok N w x o (found o - 1) (pended o) bind Hinv Hx Hk ltac:(by left)) as H'. apply H'; lia.
  - eapply (eff_update _ _ o); try done. unfold weight. cbn. rewrite inbox_weight_app. cbn. lia.
Qed.

Lemma term_child_ok N w x o c : inv N w → w !! x = Some o → ∃ w', term_child x c w = Some w' ∧ inv N w'.
Proof.
  intros Hinv Hx. destruct (process_term_req_ok _ _ _ _ c _ (mid_start _ _ _ _ Hinv Hx)) as (w' & E & Hm & Hd). exists w'. split; [done|].
  pose proof Hm as (_ & _ & [o' Hx'] & _). eapply (mid_inv _ _ _ _ _ _ Hm Hx'). eapply Hd; [done..|]. by eapply (proj2 Hinv).
Qed.

Lemma terminate_ok N w x o : N < 2 ^ 32 → inv N w → w !! x = Some o → ∃ w', terminate x w = Some w' ∧ inv N w'.
Proof.
  intros HN Hinv Hx. pose proof (inv_get _ _ _ _ Hinv Hx) as Hf. pose proof (mid_start _ _ _ _ Hinv Hx) as Hm. unfold terminate. rewrite Hx. cbn [mbind option_bind].
  destruct (_terminating o) eqn:Ht; [by exists w|]. destruct (_owner o) as [p|] eqn:Ho.
  - destruct (hi_child _ _ _ _ _ _ _ (proj1 Hinv 0) x o p Hx Ho) as (_ & op & Hop & _). unfold send_term_req, send_command. rewrite (on_Some p _ w op) by done.
    eexists. split; [done|]. pose proof (inv_get _ _ _ _ Hinv Hop) as Hfp. change (set_inbox _ op) with (push (term_req x) op).
    eapply (inv_itself N N w p op); try done; try (intros; unfold told; cbn; rewrite count_app; cbn; rewrite ?Z.add_0_r; done).
    + by apply flat_push.
    + inv_root Hinv Hop.
    + intros pre c post Hin. apply req_app in Hin as [([= ->] & _)|(post' & Hin & ->)]; [left; by exists o|]. right. exists post'.
      split; [done|]. intros. apply elem_of_app. by left.
    + pose proof (proj2 Hinv p op Hop) as Hd. unfold dying, refs in *. cbn. rewrite count_app. cbn. by rewrite Z.add_0_r.
  - assert (Hp : _pending o = false).
    { destruct (_pending o) eqn:E; [|done]. destruct (f_pending _ _ _ Hf E). pose proof (proj2 (kind_owner _ _ _ _ _ _ _ _ _ _ _ Hm Hx) Ho). congruence. }
    destruct (process_term_ok N w w x o 0 0 (linger o) HN Hm Hx Ht Hp) as (w' & E & Hr & _); [done|]. by exists w'.
Qed.

(** *** New objects *)

Record blank (n : own_t) : Prop := {
  b_owned : n.(_owned) = ∅;
  b_own : ∀ c, count (is_own c) n.(inbox) = 0;
  b_ack : count is_ack n.(inbox) = 0;
  b_told : told n = 0;
  b_term : count is_term n.(inbox) = 0;
  b_acks : n.(_term_acks) = 0;
  b_base : base n = 0;
  b_req : ∀ c, term_req c ∉ n.(inbox)
}.

(** What comes with its owner has its token in its owner's hand. *)
Lemma hinv_new N w x c n : inv N w → w !! c = None → flat 0 N n → blank n →
  (n.(_owner) = None ∧ n.(kind) = Socket ∨ n.(_owner) = Some x ∧ n.(kind) ≠ Socket ∧ ∃ ox, w !! x = Some ox ∧ n.(_socket) = socket_of x ox) →
  hinv N (<[c := n]> w) x (if n.(_owner) then one c else none) 0 0 0.
Proof.
  intros [Hi _] Hc Hfl Hb Hown. specialize (Hi x). destruct Hb.
  assert (Hno : ∀ y o, w !! y = Some o → _owner o ≠ Some c).
  { intros y o Hy Ho. destruct (hi_child _ _ _ _ _ _ _ Hi y o c Hy Ho) as (_ & oc & Hoc & _). congruence. }
  assert (Hget : ∀ y o, <[c := n]> w !! y = Some o → y = c ∧ o = n ∨ y ≠ c ∧ w !! y = Some o).
  { intros y o H. destruct (decide (y = c)) as [->|?]; [left; rewrite lookup_insert_eq in H; by simplify_eq|right; by rewrite lookup_insert_ne in H by done]. }
  assert (Hput : ∀ y o, w !! y = Some o → <[c := n]> w !! y = Some o) by (intros y o Hy; rewrite lookup_insert_ne; [done|congruence]).
  assert (Hchild : ∀ y z, child_of w y z → child_of (<[c := n]> w) y z) by (intros y z (o & Ho & ?); exists o; split; [by apply Hput|done]).
  assert (Hnoown : ∀ y o, w !! y = Some o → holds x none y o c = 0).
  { intros y o Hy. pose proof (holds_between_nonneg x y o c). destruct (decide (holds x none y o c = 0)); [done|].
    destruct (hi_ref _ _ _ _ _ _ _ Hi y o c Hy) as (oc & Hoc & _); [lia|congruence]. }
  assert (Hhold : ∀ y o z, w !! y = Some o → z ≠ c → holds x (if _owner n then one c else none) y o z = holds x none y o z).
  { intros y o z Hy Hz. unfold holds. f_equal. destruct (_owner n); [|done]. unfold one, none. by rewrite (bool_decide_false (z = c)). }
  assert (Hsum : ∀ p, osum (child_token x 0 p) (<[c := n]> w) = osum (child_token x 0 p) w).
  { intros p. rewrite osum_insert by done. unfold child_token at 1. rewrite token_0, b_told0. case_bool_decide; lia. }
  split.
  - intros y o [[-> ->]|[Hne Hy]]%Hget; [by rewrite here_0|by apply (hi_flat _ _ _ _ _ _ _ Hi)].
  - intros y o [[-> ->]|[Hne Hy]]%Hget Ho; [|by apply (hi_root _ _ _ _ _ _ _ Hi y)]. destruct Hown as [[_ ?]|[? _]]; [done|congruence].
  - intros y o p [[-> ->]|[Hne Hy]]%Hget Ho.
    + destruct Hown as [[? _]|(Ho' & Hk & ox & Hox & Hs)]; [congruence|]. assert (p = x) as -> by congruence. split; [done|]. exists ox.
      split; [by apply Hput|]. split; [done|]. rewrite Ho', token_0, b_told0. pose proof (Hnoown x ox Hox) as H. rewrite holds_between in H.
      unfold holds, one. rewrite here_eq, (bool_decide_true (c = c)) by done. cbn. lia.
    + destruct (hi_child _ _ _ _ _ _ _ Hi y o p Hy Ho) as (Hk & op & Hop & Hs & Heq). split; [done|]. exists op. split; [by apply Hput|]. split; [done|].
      by rewrite Hhold.
  - intros y o z [[-> ->]|[Hne Hy]]%Hget Hpos.
    + exfalso. unfold holds in Hpos. rewrite b_owned0, b_own0 in Hpos. rewrite bool_decide_false in Hpos by set_solver. cbn in Hpos.
      destruct Hown as [[Ho _]|(Ho & _ & ox & Hox & _)]; rewrite Ho in Hpos; [unfold none in Hpos; rewrite here_0 in Hpos; lia|].
      rewrite here_ne in Hpos; [lia|congruence].
    + destruct (decide (z = c)) as [->|Hz]; [|apply Hchild; eapply (hi_ref _ _ _ _ _ _ _ Hi); [done|]; by rewrite <- (Hhold y o z)].
      exists n. rewrite lookup_insert_eq. split; [done|]. pose proof (Hnoown y o Hy) as H. rewrite holds_between in H. unfold holds in Hpos.
      destruct Hown as [[Ho _]|(Ho & _)]; rewrite Ho in Hpos |- *; [unfold none in Hpos; rewrite here_0 in Hpos; lia|].
      destruct (decide (y = x)) as [->|?]; [done|]. rewrite here_ne in Hpos by done. lia.
  - intros y o [[-> ->]|[Hne Hy]]%Hget; rewrite Hsum, here_0; [|pose proof (hi_acks _ _ _ _ _ _ _ Hi y o Hy) as H; by rewrite here_0 in H].
    rewrite b_acks0, b_base0, b_ack0, osum_zero; [done|]. intros z oz Hz. unfold child_token. rewrite bool_decide_false; [done|]. by eapply Hno.
  - intros y o pre z post [[-> ->]|[Hne Hy]]%Hget Hin.
    + destruct (b_req0 z). rewrite Hin. apply elem_of_app. right. by left.
    + destruct (hi_reqs _ _ _ _ _ _ _ Hi y o pre z post Hy Hin); [left; by apply Hchild|by right].
  - destruct (hi_rank _ _ _ _ _ _ _ Hi) as [rk Hrk]. exists (λ z, if decide (z = c) then S (rk x) else rk z).
    intros y o p [[-> ->]|[Hne Hy]]%Hget Ho.
    + destruct Hown as [[? _]|(Ho' & _ & ox & Hox & _)]; [congruence|]. assert (p = x) as -> by congruence.
      destruct (decide (c = c)); [|done]. destruct (decide (x = c)); [congruence|]. lia.
    + destruct (decide (p = c)) as [->|?]; [by destruct (Hno y o Hy)|]. destruct (decide (y = c)); [done|]. by eapply Hrk.
Qed.

Lemma quiet_new w x c n : (∀ y o, w !! y = Some o → dying o = false) → dying n = false → quiet_but x (<[c := n]> w).
Proof.
  intros Hq Hn y o _ H. destruct (decide (y = c)) as [->|?]; [rewrite lookup_insert_eq in H; by simplify_eq|].
  rewrite lookup_insert_ne in H by done. by eapply Hq.
Qed.

(** [x] launches [n]. *)
Lemma launched_ok N w x o c n : inv N w → w !! x = Some o → w !! c = None → flat 0 N n → blank n → n.(_terminating) = false →
  n.(_owner) = Some x → n.(kind) ≠ Socket → n.(_socket) = socket_of x o →
  inv (N + 1) (<[x := push (own c) (set_sent (u32 (o.(_sent_seqnum) + 1)) o)]> (<[c := n]> w)).
Proof.
  intros Hinv Hx Hc Hfl Hb Ht Ho Hk Hs. set (o' := push _ _). assert (Hcx : c ≠ x) by congruence.
  assert (Hi : hinv N (<[c := n]> w) x (one c) 0 0 0).
  { pose proof (hinv_new N w x c n Hinv Hc Hfl Hb) as H. rewrite Ho in H. apply H. right. split; [done|]. split; [done|]. by exists o. }
  assert (Hx' : <[c := n]> w !! x = Some o) by by rewrite lookup_insert_ne by congruence.
  assert (Hr : refs o' = refs o + 1) by (unfold refs, o'; cbn; rewrite count_app; cbn; lia).
  pose proof (inv_get _ _ _ _ Hinv Hx) as Hf. apply (inv_intro _ _ x).
  - eapply (hinv_update N _ x (one c) 0 0 0 x o); try done; try (by left); [lia| |..].
    + rewrite here_0. destruct Hf. split; rewrite ?Hr; try done; cbn; [|lia|apply Forall_app; split; [done|by apply Forall_singleton]].
      rewrite f_sent0. unfold wrap. rewrite Zplus_mod_idemp_l. f_equal. lia.
    + intros Hn. cbn. rewrite count_app. cbn. rewrite Z.add_0_r. by apply (hi_root _ _ _ _ _ _ _ Hi x o).
    + intros _. unfold token, told. cbn. rewrite count_app. cbn. lia.
    + intros z. unfold holds, one, none. rewrite !here_eq. cbn. rewrite count_app. cbn. rewrite Z.add_0_r. unfold is_own at 2.
      rewrite (bool_decide_ext (own c = own z) (z = c)) by (split; [by intros [= ->]|by intros ->]). lia.
    + rewrite !here_0. cbn. rewrite count_app. cbn. unfold base, is_kind. cbn. lia.
    + intros pre z post Hin. apply req_app in Hin as [(? & _)|(post' & Hin & ->)]; [done|]. right. exists pre, post'. split; [done|]. intros. apply elem_of_app. by left.
  - eapply quiet_update; [apply quiet_new; [apply Hinv|by apply not_terminating_alive]|done|]. done.
  - rewrite lookup_insert_eq. intros ? [= <-]. unfold dying. rewrite Hr. pose proof (refs_nonneg _ _ _ Hf).
    rewrite (proj2 (Z.eqb_neq _ 0)) by lia. by rewrite andb_false_r.
Qed.

Lemma create_ok N w x l : 0 ≤ N → inv N w → w !! x = None → inv N (<[x := new_object Socket x l false]> w).
Proof.
  intros HN Hinv Hx. apply (inv_intro _ _ x).
  - pose proof (hinv_new N w x x (new_object Socket x l false) Hinv Hx) as H. apply H; [| |by left]; split; try done; cbn; try lia; try set_solver.
  - apply quiet_new; [apply Hinv|done].
  - rewrite lookup_insert_eq. by intros ? [= <-].
Qed.

(** [attach_pipe], between commands. *)
Definition attached (o : own_t) : own_t :=
  let o := set_pipes (o.(pipes) + 1) o.(_pipe) o in
  if o.(_terminating) then set_acks (o.(_term_acks) + 1) o else o.

Lemma attach_pipe_run x w o : w !! x = Some o → attach_pipe x w = Some (<[x := attached o]> w).
Proof.
  intros Hx. unfold attach_pipe. rewrite (on_Some x _ w o) by done. cbn [mbind option_bind]. rewrite lookup_insert_eq. cbn [mbind option_bind].
  unfold attached. destruct (_terminating _); [|done]. unfold register_term_acks. erewrite on_Some by apply lookup_insert_eq. by rewrite insert_insert_eq.
Qed.

Lemma attached_ok N w x o : inv N w → w !! x = Some o → o.(kind) = Socket → inv N (<[x := attached o]> w).
Proof.
  intros Hinv Hx Hk. pose proof (inv_get _ _ _ _ Hinv Hx) as Hf. assert (Hd := proj2 Hinv x o Hx).
  assert (Hsame : inbox (attached o) = inbox o ∧ refs (attached o) = refs o ∧ told (attached o) = told o ∧ same_id o (attached o) ∧ _owned (attached o) = _owned o
    ∧ (_terminating o = true → _term_acks (attached o) = _term_acks o + 1))
    by (unfold attached; cbn; destruct (_terminating o) eqn:E; cbn; unfold told, same_id; cbn; rewrite ?E; done).
  destruct Hsame as (Hin & Hr & Ht & Hid & Hown & Hacks).
  eapply (inv_itself N N w x o (attached o)); try done; rewrite ?Hin; try done.
  - unfold attached. cbn. destruct Hf. destruct (_terminating o) eqn:E; split; try done; cbn; try congruence; try lia; intros H.
    all: first [by apply f_owned0|by apply f_registered0|destruct (f_pipe0 H); congruence|destruct (f_pending0 H); congruence|destruct (f_registered0 H); congruence].
  - by apply (hi_root _ _ _ _ _ _ _ (proj1 Hinv 0) x o).
  - unfold base, attached, is_kind. cbn. destruct (_terminating o) eqn:E; cbn; rewrite ?E, ?Hk; rewrite ?(bool_decide_true (Socket = Socket)) by done; cbn; lia.
  - intros pre c post Hin'. right. by exists post.
  - pose proof (hi_acks _ _ _ _ _ _ _ (proj1 Hinv x) x o Hx) as Ha. rewrite here_0 in Ha. pose proof (base_nonneg _ _ _ Hf). pose proof (count_nonneg is_ack (inbox o)).
    pose proof (osum_nonneg (child_token x 0 x) w ltac:(intros; apply child_token_nonneg)).
    destruct (dying (attached o)) eqn:E; [|done]. apply dying_true in E as (E1 & _ & E2). rewrite Hacks in E2; [lia|]. unfold attached in E1. cbn in E1. destruct (_terminating o) eqn:E3; cbn in E1; rewrite ?E3 in E1; done.
Qed.

Definition launched (x : Z) (o : own_t) (k : kind_t) (linger_ : Z) (pipe_ engine_ : bool) : own_t :=
  Own_t k false (1 + b2z engine_) 0 (Some x) ∅ 0 (socket_of x o) linger_ (b2z pipe_) pipe_ false false 0 0
    (plug :: if engine_ then [attach] else []).

Lemma set_owner_run x c w o : w !! c = Some o → o.(_owner) = None →
  set_owner x c w = Some (<[c := Own_t o.(kind) o.(_terminating) o.(_sent_seqnum) o.(_processed_seqnum) (Some x) o.(_owned) o.(_term_acks) o.(_socket) o.(linger) o.(pipes) o.(_pipe) o.(_pending) o.(registered) o.(found) o.(pended) o.(inbox)]> w).
Proof. intros Hc Ho. unfold set_owner. rewrite Hc. cbn [mbind option_bind]. by rewrite Ho. Qed.

Ltac launch_step c x :=
  cbn [mbind option_bind zmq_assert];
  first [ erewrite set_owner_run by (first [apply lookup_insert_eq | reflexivity])
        | erewrite on_Some by (first [apply lookup_insert_eq | rewrite lookup_insert_ne by done; first [eassumption | apply lookup_insert_eq]]) ];
  rewrite ?insert_insert_eq.

Lemma launch_run x c k l (pipe_ engine_ : bool) w o : w !! x = Some o → w !! c = None →
  let ox := if pipe_ then attached o else o in
  launch x c k l pipe_ engine_ w =
    Some (<[x := push (own c) (set_sent (u32 (ox.(_sent_seqnum) + 1)) ox)]> (<[c := launched x o k l pipe_ engine_]> (if pipe_ then <[x := ox]> w else w))).
Proof.
  intros Hx Hc. assert (Hcx : c ≠ x) by congruence. unfold launch. rewrite Hx. cbn [mbind option_bind]. cbn zeta.
  set (n0 := new_object k (socket_of x o) l pipe_).
  assert (Hp : (if pipe_ then attach_pipe x (<[c := n0]> w) else Some (<[c := n0]> w)) = Some (<[c := n0]> (<[x := if pipe_ then attached o else o]> w))).
  { destruct pipe_; [rewrite (attach_pipe_run x _ o) by (by rewrite lookup_insert_ne by congruence); by rewrite insert_insert_ne by done|].
    by rewrite (insert_id w x o) by done. }
  rewrite Hp. cbn [mbind option_bind]. set (ox := if pipe_ then attached o else o). clearbody ox.
  set (W := <[x := ox]> w). assert (H1 : W !! x = Some ox) by apply lookup_insert_eq.
  assert (HW : (if pipe_ then W else w) = W ∨ (if pipe_ then W else w) = w) by (destruct pipe_; auto).
  unfold send_attach, launch_child, send_plug, send_own, send_command, inc_seqnum.
  destruct engine_; repeat launch_step c x; cbn [mbind option_bind]; f_equal; apply map_eq; intros i;
    (destruct (decide (i = x)) as [->|Hix]; [|destruct (decide (i = c)) as [->|Hic]]);
    repeat (rewrite lookup_insert_eq || rewrite lookup_insert_ne by done); try done;
    unfold W; destruct pipe_; rewrite ?lookup_insert_ne by done; done.
Qed.

Lemma launch_ok N w x o c k l (pipe_ engine_ : bool) : 0 ≤ N → inv N w → w !! x = Some o → w !! c = None → k ≠ Socket →
  (pipe_ = true → o.(kind) = Socket) → (pipe_ || engine_ = true → k = Session) →
  ∃ w', launch x c k l pipe_ engine_ w = Some w' ∧ inv (N + 3) w'.
Proof.
  intros HN Hinv Hx Hc Hk Hpipe Hsess. rewrite (launch_run _ _ _ _ _ _ _ o) by done. cbn zeta. eexists. split; [done|].
  set (w1 := if pipe_ then _ else w). set (ox := if pipe_ then attached o else o).
  assert (Hinv1 : inv (N + 2) w1).
  { apply (inv_mono N); [lia|]. unfold w1. destruct pipe_; [|done]. apply attached_ok; auto. }
  assert (Hx1 : w1 !! x = Some ox) by (unfold w1, ox; destruct pipe_; [apply lookup_insert_eq|done]).
  assert (Hc1 : w1 !! c = None) by (unfold w1; destruct pipe_; [by rewrite lookup_insert_ne by congruence|done]).
  replace (N + 3) with (N + 2 + 1) by lia. apply launched_ok; try done.
  - assert (Hr : refs (launched x o k l pipe_ engine_) = 1 + b2z engine_) by by destruct engine_.
    assert (Hb : 0 ≤ b2z pipe_ ∧ 0 ≤ b2z engine_ ≤ 1) by (destruct pipe_, engine_; cbn; lia).
    assert (Hp : pipe_ = true → k = Session ∧ 0 < b2z pipe_) by (intros E; rewrite E in *; split; [by apply Hsess|done]).
    split; rewrite ?Hr; try done; cbn [launched _processed_seqnum _sent_seqnum pipes kind inbox]; try lia.
    + rewrite u32_small by lia. lia.
    + intros ->. destruct pipe_; [|done]. by destruct Hp.
    + destruct engine_; repeat constructor; try done. by apply Hsess, orb_true_r.
  - split; try done; destruct engine_; try done; set_solver.
  - cbn. unfold ox. destruct pipe_; [|done]. unfold attached. cbn. by destruct (_terminating o).
Qed.

Lemma connect_pending_ok N w x ox y oy : N + 1 < 2 ^ 32 → inv N w → w !! x = Some ox → ox.(kind) = Socket → ox.(_terminating) = false →
  w !! y = Some oy → 0 < oy.(pended) → ∃ w', connect_pending x y w = Some w' ∧ inv (N + 1) w'.
Proof.
  intros HN Hinv Hx Hk Ht Hy Hpd. pose proof (inv_get _ _ _ _ Hinv Hx) as Hf. pose proof (refs_nonneg _ _ _ Hf) as Hrn.
  pose proof (f_bound _ _ _ Hf) as Hb. pose proof (f_processed _ _ _ Hf) as Hpr.
  set (o' := set_processed (_processed_seqnum ox + 1) (attached (set_sent (u32 (_sent_seqnum ox + 1)) ox))).
  assert (Ho' : o' = set_processed (_processed_seqnum ox + 1) (set_pipes (pipes ox + 1) (_pipe ox) (set_sent (u32 (_sent_seqnum ox + 1)) ox))).
  { unfold o', attached. cbn. by rewrite Ht. }
  assert (Hrun : (w ← inc_seqnum x w; process_command x bind w) = Some (<[x := o']> w)).
  { unfold inc_seqnum. rewrite (on_Some x _ w ox) by done. cbn [mbind option_bind process_command]. unfold process_bind. rewrite lookup_insert_eq. cbn [mbind option_bind set_sent kind].
    rewrite bool_decide_true by done. cbn [zmq_assert mbind option_bind]. erewrite attach_pipe_run by apply lookup_insert_eq. cbn [mbind option_bind].
    rewrite insert_insert_eq. unfold process_seqnum. erewrite on_Some by apply lookup_insert_eq. cbn [mbind option_bind]. rewrite insert_insert_eq.
    unfold check_term_acks. rewrite lookup_insert_eq. cbn [mbind option_bind].
    assert (Hz : _processed_seqnum (attached (set_sent (u32 (_sent_seqnum ox + 1)) ox)) = _processed_seqnum ox) by (unfold attached; cbn; by rewrite Ht).
    rewrite Hz, u64_small by lia. fold o'. rewrite Ho'. cbn [_terminating set_processed set_pipes set_sent]. by rewrite Ht. }
  assert (Hinv1 : inv (N + 1) (<[x := o']> w)).
  { eapply (inv_itself N (N + 1) w x ox o'); try done; rewrite ?Ho'; try done; [lia| |inv_root Hinv Hx| | |].
    - destruct Hf. split; try done; cbn; try congruence; try lia; try (intros H; first [destruct (f_pipe0 H); congruence|destruct (f_pending0 H); congruence]).
      all: change (refs (set_processed _ _)) with (refs ox); try lia. rewrite f_sent0. unfold wrap. rewrite Zplus_mod_idemp_l. f_equal. lia.
    - unfold base. cbn. by rewrite Ht.
    - intros pre c post Hin. right. by exists post.
    - by apply not_terminating_alive. }
  unfold connect_pending. unfold inc_seqnum in *. rewrite (on_Some x _ w ox) in * by done. cbn [mbind option_bind] in *. rewrite Hrun. cbn [mbind option_bind].
  assert (Hy1 : ∃ oy', <[x := o']> w !! y = Some oy' ∧ pended oy' = pended oy).
  { destruct (decide (y = x)) as [->|?]; [rewrite lookup_insert_eq; exists o'; split; [done|]; assert (oy = ox) as -> by congruence; by rewrite Ho'|].
    rewrite lookup_insert_ne by done. by exists oy. }
  destruct Hy1 as (oy' & Hy1 & Hpd'). pose proof (inv_get _ _ _ _ Hinv1 Hy1) as Hfy. pose proof (f_found _ _ _ Hfy).
  assert (Hky : kind oy' = Socket). { destruct (decide (kind oy' = Socket)); [done|]. destruct (f_refs_socket _ _ _ Hfy); [done|lia]. }
  rewrite (on_Some y _ _ oy') by done. cbn [mbind option_bind]. unfold send_inproc_connected, send_command. erewrite on_Some by apply lookup_insert_eq.
  rewrite insert_insert_eq. eexists. split; [done|].
  pose proof (settle_ok (N + 1) _ y oy' (found oy') (pended oy' - 1) inproc_connected Hinv1 Hy1 Hky ltac:(by right)) as H'. apply H'; lia.
Qed.

Lemma test_true x w f : test x w f = true → ∃ o, w !! x = Some o ∧ f o = true.
Proof. unfold test. destruct (w !! x); [eauto|done]. Qed.

Lemma is_kind_true k o : is_kind k o = true → o.(kind) = k.
Proof. apply bool_decide_eq_true. Qed.

Lemma inv_ex_mono N N' m : N ≤ N' → (∃ w', m = Some w' ∧ inv N w') → ∃ w' : world, m = Some w' ∧ inv N' w'.
Proof. intros HN (w' & E & Hi). exists w'. split; [done|by eapply inv_mono]. Qed.

Lemma flags_ok N w x o pn (pc rg : bool) : inv N w → w !! x = Some o → 0 ≤ pn →
  (pc = true → o.(kind) = Session ∧ 0 < pn) → (rg = true → o.(kind) = Socket ∧ o.(_terminating) = false) →
  (o.(kind) ≠ Session → pn = o.(pipes)) → (o.(kind) = Session → pn = o.(pipes) ∨ o.(_terminating) = false ∧ o.(pipes) ≤ pn) →
  inv N (<[x := set_registered rg (set_pipes pn pc o)]> w).
Proof.
  intros Hinv Hx H1 H2 H3 H4 H5. pose proof (inv_get _ _ _ _ Hinv Hx) as Hf.
  assert (Hbase : base (set_registered rg (set_pipes pn pc o)) = base o).
  { unfold base, is_kind. cbn. case_bool_decide as E; [|by rewrite !andb_false_r]. rewrite H4 by congruence. done. }
  eapply (inv_itself N N w x o); try done; [|inv_root Hinv Hx|cbn; rewrite Hbase; done|intros pre c post Hin; right; by exists post|exact (proj2 Hinv x o Hx)].
  destruct Hf. split; try done; cbn.
  - intros E. rewrite H4 by congruence. auto.
  - intros E1 E2. destruct (H5 E1) as [-> |[? _]]; [auto|congruence].
  - intros E. destruct (f_pending0 E) as (E1 & E2 & E3). split; [done|]. split; [|done]. destruct (H5 E1) as [-> |[_ ?]]; lia.
Qed.

Lemma step_ok N w a : 0 ≤ N → N + 3 < 2 ^ 32 → inv N w → enabled a w = true → ∃ w', exec a w = Some w' ∧ inv (N + 3) w'.
Proof.
  intros H0 HN Hinv He. destruct a; cbn [enabled exec] in *.
  - apply bool_decide_eq_true in He. apply (inv_ex_mono N); [lia|]. eexists. split; [done|]. by apply create_ok.
  - rewrite !andb_true_iff, negb_true_iff, bool_decide_eq_true, bool_decide_eq_false in He. destruct He as [[[Hc Hk] (o & Hx & Hp)%test_true] Hs].
    apply (launch_ok N w x o); try done.
    + intros ->. by apply is_kind_true.
    + intros E. rewrite E in Hs. by apply bool_decide_eq_true in Hs.
  - apply test_true in He as (o & Hx & He). destruct (_owner o) as [p|] eqn:Ho; [|done]. apply test_true in He as (op & Hop & Hk%is_kind_true).
    rewrite Hx. cbn [mbind option_bind]. rewrite Ho. cbn [mbind option_bind]. unfold send_attach.
    destruct (send_seq_ok _ _ _ _ _ _ _ _ _ _ _ attach (mid_start _ _ _ _ Hinv Hop) Hop) as (w' & E & Hm); [done..|].
    apply (inv_ex_mono (N + 1)); [lia|]. exists w'. split; [done|]. pose proof Hm as (_ & _ & [op' Hop'] & _). apply (mid_inv _ _ _ _ _ _ Hm Hop').
    unfold inc_seqnum, send_command in E. rewrite (on_Some p _ w op) in E by done. cbn [mbind option_bind] in E. erewrite on_Some in E by apply lookup_insert_eq.
    injection E as <-. rewrite insert_insert_eq, lookup_insert_eq in Hop'. injection Hop' as <-. unfold dying, refs. cbn. rewrite count_app. cbn.
    pose proof (inv_get _ _ _ _ Hinv Hop) as Hf. pose proof (count_nonneg is_seq (inbox op)). rewrite (proj2 (Z.eqb_neq _ 0)); [by rewrite andb_false_r|]. destruct Hf. lia.
  - apply test_true in He as (o & Hx & He%negb_true_iff%bool_decide_eq_false). destruct (delivered_ok N w x o ltac:(lia) Hinv Hx He) as (w' & E & Hi & _).
    apply (inv_ex_mono (N + 1)); [lia|]. by exists w'.
  - apply test_true in He as (o & Hx & _). apply (inv_ex_mono N); [lia|]. apply (terminate_ok N w x o); [lia|done..].
  - apply test_true in He as (o & Hx & _). apply (inv_ex_mono N); [lia|]. by apply (term_child_ok N w x o).
  - apply test_true in He as (o & Hx & [Hk%is_kind_true Ht%negb_true_iff]%andb_true_iff). apply (inv_ex_mono N); [lia|]. rewrite (on_Some x _ w o) by done.
    eexists. split; [done|]. pose proof (inv_get _ _ _ _ Hinv Hx) as Hf. change (set_registered true o) with (set_registered true (set_pipes (pipes o) (_pipe o) o)).
    apply flags_ok; try done; [apply Hf|apply Hf|by left].
  - apply test_true in He as (o & Hx & Hr). apply (inv_ex_mono (N + 1)); [lia|]. apply (find_ok N w x o); [done..|].
    by apply (f_registered _ _ _ (inv_get _ _ _ _ Hinv Hx)).
  - apply test_true in He as (o & Hx & [Hk%is_kind_true _]%andb_true_iff). apply (inv_ex_mono (N + 1)); [lia|]. by apply (pend_ok N w x o).
  - apply test_true in He as (o & Hx & Hf%Z.ltb_lt). apply (inv_ex_mono N); [lia|]. destruct (bind_ok N w x o Hinv Hx Hf) as (w' & E & Hi & _). by exists w'.
  - apply andb_true_iff in He as [(ox & Hx & [Hk%is_kind_true Ht%negb_true_iff]%andb_true_iff)%test_true (oy & Hy & Hp%Z.ltb_lt)%test_true].
    apply (inv_ex_mono (N + 1)); [lia|]. apply (connect_pending_ok N w x ox y oy); [lia|done..].
  - apply test_true in He as (o & Hx & Hk%is_kind_true). apply (inv_ex_mono N); [lia|]. rewrite (attach_pipe_run x w o) by done. eexists. split; [done|]. by apply attached_ok.
  - apply test_true in He as (o & Hx & [Hk%is_kind_true Ht%negb_true_iff]%andb_true_iff). apply (inv_ex_mono N); [lia|]. rewrite (on_Some x _ w o) by done.
    eexists. split; [done|]. pose proof (inv_get _ _ _ _ Hinv Hx) as Hf. pose proof (f_pipes _ _ _ Hf).
    change (set_pipes (pipes o + 1) (_pipe o) o) with (set_registered (registered o) (set_pipes (pipes o + 1) (_pipe o) o)).
    apply flags_ok; try done; [lia|intros E; destruct (f_pipe _ _ _ Hf E); split; [done|lia]|apply Hf|right; split; [done|lia]].
  - apply test_true in He as (o & Hx & Hk%is_kind_true). apply (inv_ex_mono N); [lia|]. rewrite (on_Some x _ w o) by done.
    eexists. split; [done|]. pose proof (inv_get _ _ _ _ Hinv Hx) as Hf.
    change (set_pipes (pipes o) false o) with (set_registered (registered o) (set_pipes (pipes o) false o)).
    apply flags_ok; try done; [apply Hf|apply Hf|by left].
  - apply test_true in He as (o & Hx & Hc). apply (inv_ex_mono N); [lia|]. destruct (pipe_terminated_ok N w x o current ltac:(lia) Hinv Hx Hc) as (w' & E & Hi & _). by exists w'.
Qed.

Lemma reach_inv n w : Z.of_nat n < 2 ^ 30 → reach n w → inv (3 * Z.of_nat n) w.
Proof.
  intros Hn H. induction H as [|n w a w' H IH He E].
  - split; [|done]. intros x. split; try done. by exists (λ _, O).
  - specialize (IH ltac:(lia)). destruct (step_ok (3 * Z.of_nat n) w a ltac:(lia) ltac:(lia) IH He) as (w2 & E2 & Hinv).
    assert (w2 = w') as -> by congruence. replace (3 * Z.of_nat (S n)) with (3 * Z.of_nat n + 3) by lia. done.
Qed.

(** ** The theorems *)

(** C8. The commands of an ownership tree are safe: in a context that was reached in
    fewer than 2^30 steps, in any order, every step the program can take is carried
    out: no assertion fails, no command is sent to, and no member function called on,
    an object that was deleted, and no object is deleted while a command for it, a
    thread that is about to send it one or a pipe is left.  The owner of an object
    lives as long as the object, and so does its socket; what an object owns, or is
    about to own, is alive and has it as its owner. *)
Theorem own_safe n w a : reach n w → Z.of_nat n < 2 ^ 30 - 1 → enabled a w = true →
  is_Some (exec a w) ∧
  (∀ x o, w !! x = Some o → ∃ os, w !! socket_of x o = Some os ∧ os.(kind) = Socket) ∧
  (∀ x o p, w !! x = Some o → o.(_owner) = Some p → is_Some (w !! p)) ∧
  (∀ x o c, w !! x = Some o → c ∈ o.(_owned) ∨ own c ∈ o.(inbox) → ∃ oc, w !! c = Some oc ∧ oc.(_owner) = Some x).
Proof.
  intros Hr Hn He. pose proof (reach_inv n w ltac:(lia) Hr) as Hinv. pose proof (proj1 Hinv 0) as Hi.
  split; [|split; [|split]].
  - destruct (step_ok (3 * Z.of_nat n) w a ltac:(lia) ltac:(lia) Hinv He) as (w' & -> & _). by eexists.
  - intros x o Hx. by eapply socket_alive.
  - intros x o p Hx Ho. destruct (hi_child _ _ _ _ _ _ _ Hi x o p Hx Ho) as (_ & op & -> & _). by eexists.
  - intros x o c Hx Hc. apply (hi_ref _ _ _ _ _ _ _ Hi x o c Hx). rewrite holds_between. pose proof (count_nonneg (is_own c) (inbox o)).
    destruct Hc as [Hc|Hc]; [rewrite bool_decide_true by done; cbn; lia|].
    assert (1 ≤ count (is_own c) (inbox o)) by (eapply count_elem; [done|]; unfold is_own; by rewrite bool_decide_true).
    case_bool_decide; cbn; lia.
Qed.

(** *** Termination *)

(** What goes on while sockets are closed: commands are processed, pipes end, and the
    commands that a thread holds a reference for are sent. *)
Definition shutdown (a : action) : bool :=
  match a with ADeliver _ | APipeTerminated _ _ | ABind _ => true | _ => false end.

Fixpoint run (acts : list action) (w : world) : option world :=
  match acts with
  | [] => Some w
  | a :: acts => if enabled a w then w ← exec a w; run acts w else None
  end.

Lemma run_reach acts : ∀ n w w', reach n w → run acts w = Some w' → reach (n + length acts) w'.
Proof.
  induction acts as [|a acts IH]; intros n w w' Hr; cbn; [intros [= <-]; by rewrite Nat.add_0_r|].
  destruct (enabled a w) eqn:He; [|done]. destruct (exec a w) as [w1|] eqn:E; [|done]. cbn. intros H.
  rewrite <- Nat.add_succ_comm. apply (IH _ w1); [by eapply reach_step|done].
Qed.

(** All sockets are closed, and no connection waits for an address to be bound. *)
Definition closed (w : world) : Prop :=
  ∀ x o, w !! x = Some o → o.(_owner) = None → o.(_terminating) = true ∧ o.(pended) = 0.

Lemma closed_later w w' : closed w → later w w' → closed w'.
Proof.
  intros Hc Hl x o' Hx Ho. destruct (Hl x o' Hx) as (o & Hx' & E1 & E2 & E3). destruct (Hc x o Hx'); [congruence|].
  split; [auto|congruence].
Qed.

Definition busy (o : own_t) : bool := negb (bool_decide (o.(inbox) = [])) || (0 <? o.(found)) || (0 <? o.(pipes)).

Lemma busy_step w x o : w !! x = Some o → busy o = true → ∃ a, shutdown a = true ∧ enabled a w = true.
Proof.
  intros Hx [[Hb|Hb]%orb_true_iff|Hb]%orb_true_iff.
  - exists (ADeliver x). split; [done|]. cbn. unfold test. by rewrite Hx.
  - exists (ABind x). split; [done|]. cbn. unfold test. by rewrite Hx.
  - exists (APipeTerminated x (_pipe o)). split; [done|]. cbn. unfold test. rewrite Hx. by destruct (_pipe o).
Qed.

Lemma weight_pos N w x o : inv N w → w !! x = Some o → 0 < weight o.
Proof.
  intros Hinv Hx. pose proof (inv_get _ _ _ _ Hinv Hx) as []. unfold weight.
  assert (0 ≤ inbox_weight (inbox o)) by (clear; induction (inbox o) as [|m l IH]; cbn; [lia|destruct m; cbn; lia]).
  destruct (_pending o); cbn; lia.
Qed.

Lemma measure_nonneg N w : inv N w → 0 ≤ measure w.
Proof. intros Hinv. apply osum_nonneg. intros x o Hx. apply Z.lt_le_incl. by eapply weight_pos. Qed.

Lemma measure_pos N w x o : inv N w → w !! x = Some o → 0 < measure w.
Proof.
  intros Hinv Hx. pose proof (weight_pos _ _ _ _ Hinv Hx). unfold measure. assert (weight o ≤ osum (λ _, weight) w); [|lia].
  apply (osum_elem (λ _, weight) w x o); [|done]. intros y oy Hy. apply Z.lt_le_incl. by eapply weight_pos.
Qed.

Lemma shutdown_pos N w a : inv N w → shutdown a = true → enabled a w = true → 0 < measure w.
Proof. intros Hinv Hs He. destruct a; try done; apply test_true in He as (o & Hx & _); by eapply measure_pos. Qed.

Lemma shutdown_ok N w a : N + 1 < 2 ^ 32 → inv N w → shutdown a = true → enabled a w = true →
  ∃ w', exec a w = Some w' ∧ inv (N + 1) w' ∧ eff w w' (- 1).
Proof.
  intros HN Hinv Hs He. destruct a; try done; cbn [enabled] in He.
  - apply test_true in He as (o & Hx & He%negb_true_iff%bool_decide_eq_false). by apply (delivered_ok N w x o).
  - apply test_true in He as (o & Hx & Hf%Z.ltb_lt). destruct (bind_ok N w x o Hinv Hx Hf) as (w' & E & Hi & He).
    exists w'. split; [done|]. split; [eapply inv_mono; [|done]; lia|done].
  - apply test_true in He as (o & Hx & Hc). destruct (pipe_terminated_ok N w x o current ltac:(lia) Hinv Hx Hc) as (w' & E & Hi & He).
    exists w'. split; [done|]. split; [eapply inv_mono; [|done]; lia|done].
Qed.

(** Nothing is left when there is nothing to do. *)
Lemma idle_terminating N w : inv N w → closed w → (∀ x o, w !! x = Some o → busy o = false) → ∀ x o, w !! x = Some o → o.(_terminating) = true.
Proof.
  intros Hinv Hc Hb. pose proof (proj1 Hinv 0) as Hi. destruct (hi_rank _ _ _ _ _ _ _ Hi) as [rk Hrk]. intros x. remember (rk x) as n eqn:Hn. revert x Hn.
  induction n as [n IH] using (well_founded_induction lt_wf). intros x -> o Hx. destruct (_owner o) as [p|] eqn:Ho; [|by destruct (Hc x o Hx Ho)].
  destruct (hi_child _ _ _ _ _ _ _ Hi x o p Hx Ho) as (_ & op & Hop & _ & Heq).
  assert (Htp : _terminating op = true) by (eapply IH; [|done|done]; by eapply Hrk).
  assert (Hempty : ∀ y oy, w !! y = Some oy → inbox oy = [] ∧ pipes oy ≤ 0).
  { intros y oy Hy. specialize (Hb y oy Hy). unfold busy in Hb. rewrite !orb_false_iff, negb_false_iff, bool_decide_eq_true, !Z.ltb_ge in Hb. tauto. }
  destruct (Hempty _ _ Hop) as [Hip _]. destruct (Hempty _ _ Hx) as [Hix Hpx]. pose proof (inv_get _ _ _ _ Hinv Hop) as Hfp. pose proof (inv_get _ _ _ _ Hinv Hx) as Hfx.
  rewrite holds_between, token_0, Hip, (f_owned _ _ _ Hfp Htp), bool_decide_false in Heq by set_solver. unfold told in Heq. rewrite Hix in Heq. cbn in Heq.
  destruct (_pending o) eqn:Hp; [destruct (f_pending _ _ _ Hfx Hp); lia|]. cbn in Heq. by destruct (_terminating o).
Qed.

Lemma idle_empty N w : inv N w → closed w → (∀ x o, w !! x = Some o → busy o = false) → w = ∅.
Proof.
  intros Hinv Hc Hb. pose proof (idle_terminating N w Hinv Hc Hb) as Ht. pose proof (proj1 Hinv 0) as Hi. destruct (hi_rank _ _ _ _ _ _ _ Hi) as [rk Hrk].
  assert (Hnone : ∀ n x o, w !! x = Some o → (∀ y oy, w !! y = Some oy → (rk y ≤ n)%nat) → (n - rk x)%nat = (n - rk x)%nat → False).
  { intros n x. remember (n - rk x)%nat as m eqn:Hm. revert x Hm. induction m as [m IH] using (well_founded_induction lt_wf). intros x -> o Hx Hmax _.
    assert (Hno : ∀ c oc, w !! c = Some oc → _owner oc ≠ Some x).
    { intros c oc Hc' Ho. pose proof (Hrk _ _ _ Hc' Ho) as Hlt. pose proof (Hmax _ _ Hc'). eapply (IH (n - rk c)%nat); [lia|done|done|done|done]. }
    pose proof (inv_get _ _ _ _ Hinv Hx) as Hf. specialize (Ht x o Hx). pose proof (Hb x o Hx) as Hbx. unfold busy in Hbx.
    rewrite !orb_false_iff, negb_false_iff, bool_decide_eq_true, !Z.ltb_ge in Hbx. destruct Hbx as [[Hin Hfd] Hpp].
    assert (Hpd : pended o = 0). { destruct (_owner o) as [p|] eqn:Ho; [|by apply (Hc x o)]. destruct (hi_child _ _ _ _ _ _ _ Hi x o p Hx Ho) as [Hk _]. by apply (f_refs_socket _ _ _ Hf). }
    pose proof (hi_acks _ _ _ _ _ _ _ Hi x o Hx) as Ha. rewrite here_0, Hin, osum_zero in Ha.
    2: { intros c oc Hc'. unfold child_token. rewrite bool_decide_false; [done|]. by eapply Hno. }
    pose proof (f_pipes _ _ _ Hf). pose proof (f_found _ _ _ Hf).
    assert (Hba : base o = 0) by (unfold base; destruct (_ && _); lia).
    pose proof (proj2 Hinv x o Hx) as Hd. unfold dying, refs in Hd. rewrite Ht, Hin, Hpd in Hd. replace (found o) with 0 in Hd by lia. cbn in Ha, Hd.
    replace (_term_acks o) with 0 in Hd by lia. done. }
  apply map_empty. intros x. destruct (w !! x) as [o|] eqn:Hx; [|done]. exfalso.
  apply (Hnone (max_list (rk <$> (map_to_list w).*1)) x o Hx); [|done]. intros y oy Hy. apply max_list_elem_of_le, list_elem_of_fmap.
  exists y. split; [done|]. apply list_elem_of_fmap. exists (y, oy). split; [done|]. by apply elem_of_map_to_list.
Qed.

Lemma shutdown_run acts : ∀ N w w', N + measure w < 2 ^ 32 → inv N w → forallb shutdown acts = true → run acts w = Some w' →
  (∃ N', inv N' w') ∧ later w w' ∧ Z.of_nat (length acts) + measure w' ≤ measure w ∧ 0 ≤ measure w'.
Proof.
  induction acts as [|a acts IH]; intros N w w' HN Hinv Hs; cbn [run forallb] in *.
  - intros [= <-]. split; [by exists N|]. split; [apply (eff_refl w)|]. pose proof (measure_nonneg N w Hinv). cbn; lia.
  - apply andb_true_iff in Hs as [Ha Hs]. destruct (enabled a w) eqn:He; [|done]. rewrite length_cons.
    pose proof (measure_nonneg _ _ Hinv). assert (Hpos : 0 < measure w) by by eapply shutdown_pos.
    destruct (shutdown_ok N w a ltac:(lia) Hinv Ha He) as (w1 & -> & Hinv1 & Heff). cbn [mbind option_bind]. intros H1.
    destruct (IH (N + 1) w1 w' ltac:(destruct Heff; lia) Hinv1 Hs H1) as (Hi & Hl & Hm & Hnn). split; [done|].
    split; [|destruct Heff; lia]. by eapply later_trans; [apply Heff|].
Qed.

Lemma shutdown_exists n : ∀ N w, Z.of_nat n = measure w → N + measure w < 2 ^ 32 → inv N w → closed w → ∃ acts, forallb shutdown acts = true ∧ run acts w = Some ∅.
Proof.
  induction n as [n IH] using (well_founded_induction lt_wf). intros N w Hn HN Hinv Hc.
  destruct (decide (map_Exists (λ _ o, busy o = true) w)) as [(x & o & Hx & Hb)|Hno].
  - destruct (busy_step w x o Hx Hb) as (a & Ha & He). pose proof (measure_pos _ _ _ _ Hinv Hx).
    destruct (shutdown_ok N w a ltac:(lia) Hinv Ha He) as (w1 & E & Hinv1 & Hl & Hm). pose proof (measure_nonneg _ _ Hinv1).
    destruct (IH (Z.to_nat (measure w1)) ltac:(lia) (N + 1) w1 ltac:(lia) ltac:(lia) Hinv1) as (acts & Hs & Hr); [by eapply closed_later|].
    exists (a :: acts). cbn. rewrite Ha, He, E. done.
  - exists []. split; [done|]. cbn. f_equal. apply (idle_empty N w Hinv Hc). intros x o Hx. destruct (busy o) eqn:E; [|done]. destruct Hno. by exists x, o.
Qed.

(** C9. The termination of an ownership tree ends, while the 32-bit counters of
    commands do not wrap around: the theorem is for contexts reached in fewer than
    2^30 steps whose measure is below 2^30 (an object that processed 2^32 commands
    is never deleted, see [own_defects]).  From such a context commands can only be
    processed, pipes end and outstanding commands be sent a bounded number of times,
    the measure, if the program does nothing else.  When all sockets are closed and
    no inproc connection waits for its address, a state in which none of this can
    happen has no objects left at all: every session, listener, connecter and socket
    was deleted; and there is such a run. *)
Theorem own_terminates n w : reach n w → Z.of_nat n < 2 ^ 30 → measure w < 2 ^ 30 →
  (∀ acts w', forallb shutdown acts = true → run acts w = Some w' → Z.of_nat (length acts) + measure w' ≤ measure w ∧ 0 ≤ measure w') ∧
  (closed w → ∀ acts w', forallb shutdown acts = true → run acts w = Some w' →
    (∀ a, shutdown a = true → enabled a w' = false) → w' = ∅) ∧
  (closed w → ∃ acts, forallb shutdown acts = true ∧ run acts w = Some ∅).
Proof.
  intros Hr Hn Hm. pose proof (reach_inv n w Hn Hr) as Hinv. pose proof (measure_nonneg _ _ Hinv). split; [|split].
  - intros acts w' Hs Hrun. by apply (shutdown_run acts (3 * Z.of_nat n) w w' ltac:(lia) Hinv Hs Hrun).
  - intros Hc acts w' Hs Hrun Hidle. destruct (shutdown_run acts (3 * Z.of_nat n) w w' ltac:(lia) Hinv Hs Hrun) as ((N' & Hinv') & Hl & _).
    apply (idle_empty N'); [done|by eapply closed_later|]. intros x o Hx. destruct (busy o) eqn:Hb; [|done].
    destruct (busy_step w' x o Hx Hb) as (a & Ha & He). rewrite Hidle in He by done. done.
  - intros Hc. apply (shutdown_exists (Z.to_nat (measure w)) (3 * Z.of_nat n)); [lia|lia|done|done].
Qed.


(** ** Findings *)

(** A socket (1) connects with a session (2) that is asked to end, by an error of the
    protocol, and is gone; then it connects anew and the allocator gives the new
    session the address of the first.  [_endpoints] has both. *)
Definition reused : list action :=
  [ACreate 1 0; ALaunch 1 2 Session 0 false false; ADeliver 2; ADeliver 1; ATerminate 2; ADeliver 1; ADeliver 2; ADeliver 1;
   ALaunch 1 2 Session 0 false false; ADeliver 2; ADeliver 1].

(** Two defects.  [_sent_seqnum] has 32 bits, [_processed_seqnum] 64: an object that
    has processed 2^32 commands is never deleted, whatever else happens to it.  And
    [term_endpoint] asks [term_child] to end an object that it knows by a pointer kept
    in [_endpoints], which is not removed when the object ends by itself: when the
    address was reused, the pointer of the first connection ends the second. *)
Theorem own_defects :
  (∀ w x o, w !! x = Some o → 0 ≤ o.(_sent_seqnum) < 2 ^ 32 → 2 ^ 32 ≤ o.(_processed_seqnum) → check_term_acks x w = Some w) ∧
  (∃ w o, run reused ∅ = Some w ∧ w !! 2 = Some o ∧ o.(inbox) = [] ∧ o.(_terminating) = false ∧
     (∃ w' o', term_child 1 2 w = Some w' ∧ w' !! 2 = Some o' ∧ o'.(inbox) = [term 0])).
Proof.
  split.
  - intros w x o Hx H1 H2. unfold check_term_acks. rewrite Hx. cbn [mbind option_bind].
    rewrite (proj2 (Z.eqb_neq _ _)) by lia. by rewrite andb_false_r.
  - eexists _, _. split; [vm_compute; reflexivity|]. split; [vm_compute; reflexivity|]. split; [done|]. split; [done|].
    eexists _, _. split; [vm_compute; reflexivity|]. split; [vm_compute; reflexivity|]. done.
Qed.

(** ** Examples *)

(** A socket (1) connects: a session (2) with a pipe, and its connecter (3), which gets
    a connection and ends; the socket is closed. *)
Definition example : list action :=
  [ACreate 1 0; ALaunch 1 2 Session 0 true false; ADeliver 2; ALaunch 2 3 Leaf 0 false false; ADeliver 3; ADeliver 1; ADeliver 2;
   AAttach 3; ATerminate 3; ADeliver 2; ATerminate 1].

Definition example_world : world := default ∅ (run example ∅).

Lemma example_reach : reach 11 example_world.
Proof. apply (run_reach example 0 ∅); [apply reach_start|]. vm_compute. reflexivity. Qed.

Lemma own_safe_witness : is_Some (exec (ADeliver 2) example_world).
Proof. apply (own_safe 11 example_world (ADeliver 2)); [apply example_reach|lia|vm_compute; reflexivity]. Defined.

Definition example_rest : list action :=
  [ADeliver 2; APipeTerminated 1 false; ADeliver 2; APipeTerminated 2 true; ADeliver 3; ADeliver 2; ADeliver 1].

Lemma own_terminates_witness : measure example_world = 14 ∧ closed example_world ∧ run example_rest example_world = Some ∅ ∧
  Z.of_nat (length example_rest) + 0 ≤ 14 ∧ (∃ acts, forallb shutdown acts = true ∧ run acts example_world = Some ∅).
Proof.
  assert (Hm : measure example_world = 14) by (vm_compute; reflexivity).
  assert (Hc : closed example_world).
  { intros x o Hx Ho. apply elem_of_map_to_list in Hx. assert (He : forallb (λ p, match (p.2).(_owner) with None => (p.2).(_terminating) && ((p.2).(pended) =? 0) | Some _ => true end)
      (map_to_list example_world) = true) by (vm_compute; reflexivity).
    rewrite forallb_forall in He. specialize (He (x, o) ltac:(by apply list_elem_of_In)). cbn in He. rewrite Ho in He.
    apply andb_true_iff in He as [? ?%Z.eqb_eq]. done. }
  assert (Hr : run example_rest example_world = Some ∅) by (vm_compute; reflexivity).
  destruct (own_terminates 11 example_world example_reach ltac:(lia) ltac:(rewrite Hm; lia)) as (H1 & _ & H3).
  split; [done|]. split; [done|]. split; [done|]. split; [|by apply H3].
  specialize (H1 example_rest ∅ eq_refl Hr). rewrite Hm in H1. change (measure ∅) with 0 in H1. apply H1.
Defined.
End Own.
