(* ===== verification/Recv.v ===== *)
(** * Receiving from the fair queue

    What the sockets that read from a fair queue share: the parts of one
    message, the number of parts that wait (the measure of their loops), and the
    effect of one [recv] on what can be read, what was written and which pipes
    are active. *)

From S2P Require Import Prelude Array PipeIface SubMsg Fq.
Import Array SubMsg.

Module Recv.

(** The messages that were consumed, with the pipes they came from. *)
Fixpoint taken (q : Z) (sk : list (Z * list part)) : list part :=
  match sk with
  | [] => []
  | (p, ms) :: sk => (if decide (q = p) then ms else []) ++ taken q sk
  end.

Section recv.
Context {W : Type} `{!InPipes part W} `{!OutPipes part W} `{!InPipesLaws part W} `{!OutPipesLaws part W is_more}.
Context `{!DuplexPipes part W is_more}.

(** The parts that wait in some pipes. *)
Fixpoint avail (w : W) (L : list Z) : nat :=
  match L with [] => 0%nat | q :: L => (length (content w q) + avail w L)%nat end.

Lemma avail_le w L q : q ∈ L → (length (content w q) ≤ avail w L)%nat.
Proof.
  induction L as [|p L IH]; [by intros ?%not_elem_of_nil|]. intros [->|Hq]%elem_of_cons; cbn [avail]; [lia|].
  specialize (IH Hq). lia.
Qed.

Lemma avail_ext w w' L : (∀ q, q ∈ L → content w' q = content w q) → avail w' L = avail w L.
Proof.
  induction L as [|p L IH]; intros H; cbn [avail]; [done|]. rewrite H by left. f_equal. apply IH. intros q Hq. apply H. by right.
Qed.

Lemma avail_mono w w' L : (∀ q, q ∈ L → (length (content w' q) ≤ length (content w q))%nat) → (avail w' L ≤ avail w L)%nat.
Proof.
  induction L as [|q L IH]; intros H; cbn [avail]; [done|]. specialize (IH (λ p Hp, H p (list_elem_of_further _ _ _ Hp))).
  specialize (H q ltac:(by left)). lia.
Qed.

Lemma avail_lt w w' L p : p ∈ L → (length (content w' p) < length (content w p))%nat →
  (∀ q, q ∈ L → (length (content w' q) ≤ length (content w q))%nat) → (avail w' L < avail w L)%nat.
Proof.
  induction L as [|q L IH]; [by intros ?%not_elem_of_nil|]. intros Hp Hlt H; cbn [avail].
  assert (HL : ∀ q, q ∈ L → (length (content w' q) ≤ length (content w q))%nat) by (intros q' Hq'; apply H; by right).
  pose proof (avail_mono w w' L HL). apply elem_of_cons in Hp as [->|Hp]; [lia|].
  specialize (IH Hp Hlt HL). specialize (H q ltac:(by left)). lia.
Qed.

Lemma avail_perm w L L' : NoDup L → NoDup L' → (∀ q, q ∈ L ↔ q ∈ L') → avail w L = avail w L'.
Proof.
  intros H1 H2 Hiff. pose proof (NoDup_Permutation _ _ H1 H2 Hiff) as Hp. clear H1 H2 Hiff.
  induction Hp; cbn [avail]; lia.
Qed.

Lemma avail_take w w' L p l : NoDup L → p ∈ L → content w p = l ++ content w' p →
  (∀ q, q ≠ p → content w' q = content w q) → avail w L = (length l + avail w' L)%nat.
Proof.
  intros Hnd Hp Hc Ho. induction Hnd as [|q L Hq Hnd IH]; [by apply not_elem_of_nil in Hp|]. cbn [avail].
  destruct (decide (q = p)) as [->|Hne].
  - rewrite Hc, length_app, (avail_ext w w' L); [lia|]. intros q Hq'. apply Ho. by intros ->.
  - apply elem_of_cons in Hp as [->|Hp]; [done|]. rewrite (IH Hp), Ho by done. lia.
Qed.

(** ** Receiving from the fair queue *)

Lemma recv_loop_written n : ∀ f w r f' w', Fq.recv_loop is_more n f w = Some (r, f', w') → ∀ q, written w' q = written w q.
Proof.
  induction n as [|n IH]; intros f w r f' w' Hs q; [done|]. rewrite Fq.recv_loop_S in Hs.
  case_decide; [by simplify_eq|]. destruct (at_ _ _) as [p|]; [|done]. cbn [mbind option_bind] in Hs.
  pose proof (in_read_written p w q) as Hw. destruct (in_read p w) as [[m|] w1]; cbn [snd] in Hw.
  - destruct (is_more m); by simplify_eq.
  - destruct (zmq_assert _); [|done]. cbn [mbind option_bind] in Hs. destruct (Fq.deactivate f); [|done].
    cbn [mbind option_bind] in Hs. rewrite <- Hw. by eapply IH.
Qed.

(** The pipes that were active still are, or have nothing left. *)
Definition served (f : Fq.fq) (f' : Fq.fq) (w' : W) : Prop :=
  ∀ q, Fq.is_active f q → Fq.is_active f' q ∨ content w' q = [].

(** One [recv]: what [recvpipe_spec] says, for the use of a subscriber. *)
Lemma recvpipe_ok f w : Fq.inv is_more f w →
  ∃ r f' w', Fq.recvpipe is_more f w = Some (r, f', w') ∧ Fq.inv is_more f' w' ∧
    (∀ q, q ∈ items (Fq.pipes f') ↔ q ∈ items (Fq.pipes f)) ∧ (∀ q, written w' q = written w q) ∧ served f f' w' ∧
    match r with
    | Some (m, p) =>
        p ∈ items (Fq.pipes f) ∧ content w p = m :: content w' p ∧ (∀ q, q ≠ p → content w' q = content w q) ∧
        Fq.more f' = is_more m ∧ (is_more m = true → items (Fq.pipes f') !! Fq.current f' = Some p) ∧
        (Fq.more f = true → items (Fq.pipes f) !! Fq.current f = Some p)
    | None =>
        (∀ q, Fq.is_active f q → content w' q = []) ∧ (∀ q, content w' q = content w q) ∧
        Fq.more f = false ∧ Fq.more f' = false
    end.
Proof.
  intros H. destruct (Fq.recvpipe_spec is_more f w H) as (r & f' & w' & Heq & Hinv & Hit & Hr).
  exists r, f', w'. split_and!; [done..| | |].
  - by eapply recv_loop_written.
  - intros q Hq. destruct r as [[m p]|].
    + destruct Hr as (Hp & Hp' & Hc & Ho & _ & _ & _ & Hrank). destruct (decide (q = p)) as [->|Hne]; [by left|].
      destruct (content w q) eqn:Hcq; [right; by rewrite Ho|]. left. destruct Hq as (k & Hk & Hqk).
      destruct (Hrank q k Hne Hk Hqk ltac:(by rewrite Hcq)) as (k' & Hk' & Hq' & _). by exists k'.
    + destruct Hr as (He & Hc & _). right. rewrite Hc. auto.
  - destruct r as [[m p]|].
    + destruct Hr as ((k & _ & Hpk) & _ & Hc & Ho & Hm & Hcur & Hsame & _).
      split_and!; [by eapply list_elem_of_lookup_2|done..].
    + destruct Hr as (He & Hc & Hm & Hm' & _). split_and!; [intros q Hq; rewrite Hc; auto|done..].
Qed.

(** [has_in] only deactivates pipes, between messages. *)
Lemma has_in_loop_written n : ∀ f w r f' w', Fq.has_in_loop n f w = Some (r, f', w') → ∀ q, written w' q = written w q.
Proof.
  induction n as [|n IH]; intros f w r f' w' Hs q; [done|]. cbn [Fq.has_in_loop] in Hs.
  case_decide; [by simplify_eq|]. destruct (at_ _ _) as [p|]; [|done]. cbn [mbind option_bind] in Hs.
  pose proof (in_check_read_written p w q) as Hw. destruct (in_check_read p w) as [[] w1]; cbn [snd] in Hw; [by simplify_eq|].
  destruct (Fq.deactivate f); [|done]. cbn [mbind option_bind] in Hs. rewrite <- Hw. by eapply IH.
Qed.

Lemma has_in_ok f w : Fq.inv is_more f w →
  ∃ r f' w', Fq.has_in f w = Some (r, f', w') ∧ Fq.inv is_more f' w' ∧
    (∀ q, q ∈ items (Fq.pipes f') ↔ q ∈ items (Fq.pipes f)) ∧ (∀ q, content w' q = content w q) ∧
    (∀ q, written w' q = written w q) ∧ Fq.more f' = Fq.more f ∧ (Fq.more f = true → f' = f).
Proof.
  intros H. unfold Fq.has_in. destruct (Fq.more f) eqn:Hm; [by exists true, f, w|].
  destruct (Fq.has_in_loop_spec is_more _ f w H eq_refl Hm) as (r & f' & w' & Heq & H' & Hm' & Hit & Hc & _).
  exists r, f', w'. split_and!; try done. by eapply has_in_loop_written.
Qed.

Lemma served_trans f1 f2 f3 w2 w3 : served f1 f2 w2 → served f2 f3 w3 →
  (∀ q, content w2 q = [] → content w3 q = []) → served f1 f3 w3.
Proof. intros H1 H2 Hc q Hq. destruct (H1 q Hq) as [Ha|He]; [apply H2, Ha|right; auto]. Qed.

(** Writers add whole messages. *)
Lemma fq_inv_arrive f w w' : Fq.inv is_more f w →
  (∀ q, q ∈ items (Fq.pipes f) → ∃ l, content w' q = content w q ++ l ∧ whole is_more l) → Fq.inv is_more f w'.
Proof.
  intros [Hok Ha Hc Hw Hm] He. split; try done.
  - intros p Hp. destruct (He p Hp) as (l & -> & Hl). apply whole_app; auto.
  - intros Hmt. destruct (Hm Hmt) as (p & ? & Hp & Hne). exists p.
    destruct (He p ltac:(by eapply list_elem_of_lookup_2)) as (l & -> & Hl).
    split_and!; [done..|]. by intros [? _]%app_eq_nil.
Qed.
End recv.
End Recv.
