(* ===== verification/Router.v ===== *)
(** * The router socket

    [router_t] (src/router.cpp) and the table of [routing_socket_base_t]
    (src/socket_base.cpp) give every peer a routing id: a message received is
    preceded by the id of its pipe, a message sent by the id of the pipe it is
    to go to.  The pipes are behind the interfaces of [PipeIface]; a message
    part is the [part] of [SubMsg].

    The theorems: the table is a bijection between ids and identified pipes and
    no operation aborts; a message goes whole to the pipe of its id and to no
    other, or is dropped or refused as the options say; what is received is the
    id of a pipe and then the parts of its next message.  The defects that limit
    them are proved on concrete runs. *)

From S2P Require Import Prelude Wire Msg Array PipeIface SubMsg Recv Fq.
Import Array SubMsg Recv.

Module Router.

Definition ZMQ_ROUTER_MANDATORY := 33.
Definition ZMQ_ROUTER_RAW := 41.
Definition ZMQ_PROBE_ROUTER := 51.
Definition ZMQ_ROUTER_HANDOVER := 56.
Definition ZMQ_CONNECT_ROUTING_ID := 61.
Definition ZMQ_POLLOUT := 2.

Definition is_routing_id (m : part) : bool := Z.land (p_flags m) Msg.routing_id =? Msg.routing_id.

(** A message after [init]. *)
Definition empty_msg : part := Part [] 0 None.

(** ** The data members, in four groups *)

(** What is being received. *)
Record inbound := Inb {
  fq : Fq.fq;
  prefetched : bool;               (* there is a part in [prefetched_msg] *)
  routing_id_sent : bool;          (* the user got the id that goes before it *)
  prefetched_id : part;
  prefetched_msg : part;
  current_in : option Z;           (* the pipe being read *)
  terminate_current_in : bool;
  more_in : bool }.

(** What is being sent, and the pipes by routing id with their [active] flag. *)
Record outbound := Outb {
  current_out : option Z;
  more_out : bool;
  out_pipes : gmap (list Z) (Z * bool) }.

(** The names of the pipes ([pipe_t::_router_socket_routing_id]). *)
Record naming := Naming {
  anonymous_pipes : gset Z;
  routing_ids : gmap Z (list Z);
  next_integral_routing_id : Z;
  connect_routing_id : list Z }.

Record options := Options {
  mandatory : bool;
  raw_socket : bool;
  probe_router : bool;
  handover : bool;
  opt_recv_routing_id : bool;      (* [options.recv_routing_id] *)
  opt_raw_socket : bool }.         (* [options.raw_socket] *)

Record router := Router { inb : inbound; outb : outbound; names : naming; opts : options }.

(** [generate_random ()] is an argument. *)
Definition router_new (random : Z) : router :=
  Router (Inb Fq.fq_new false false empty_msg empty_msg None false false)
         (Outb None false ∅) (Naming ∅ ∅ random []) (Options false false false false true false).

Definition with_inb i r := Router i (outb r) (names r) (opts r).
Definition with_outb o r := Router (inb r) o (names r) (opts r).
Definition with_names n r := Router (inb r) (outb r) n (opts r).
Definition with_opts o r := Router (inb r) (outb r) (names r) o.

Definition set_fq f r :=
  let i := inb r in
  with_inb (Inb f (prefetched i) (routing_id_sent i) (prefetched_id i) (prefetched_msg i) (current_in i)
                (terminate_current_in i) (more_in i)) r.
Definition set_terminate_current_in b r :=
  let i := inb r in
  with_inb (Inb (fq i) (prefetched i) (routing_id_sent i) (prefetched_id i) (prefetched_msg i) (current_in i) b
                (more_in i)) r.
Definition set_out c m r := with_outb (Outb c m (out_pipes (outb r))) r.
Definition set_out_pipes t r := with_outb (Outb (current_out (outb r)) (more_out (outb r)) t) r.
Definition set_anonymous s r :=
  with_names (Naming s (routing_ids (names r)) (next_integral_routing_id (names r)) (connect_routing_id (names r))) r.

(** ** [routing_socket_base_t] *)

Definition connect_routing_id_is_set (r : router) : bool := negb (bool_decide (connect_routing_id (names r) = [])).

Definition extract_connect_routing_id (r : router) : list Z * router :=
  let n := names r in
  (connect_routing_id n, with_names (Naming (anonymous_pipes n) (routing_ids n) (next_integral_routing_id n) []) r).

Definition has_out_pipe (id : list Z) (r : router) : bool := bool_decide (is_Some (out_pipes (outb r) !! id)).
Definition lookup_out_pipe (id : list Z) (r : router) : option (Z * bool) := out_pipes (outb r) !! id.

Definition add_out_pipe (id : list Z) (pipe : Z) (r : router) : option router :=
  _ ← zmq_assert (negb (has_out_pipe id r));
  Some (set_out_pipes (<[id := (pipe, true)]> (out_pipes (outb r))) r).

(** [pipe_->get_routing_id ()]: empty until it is set. *)
Definition get_routing_id (pipe : Z) (r : router) : list Z := default [] (routing_ids (names r) !! pipe).

Definition set_router_socket_routing_id (pipe : Z) (id : list Z) (r : router) : router :=
  let n := names r in
  with_names (Naming (anonymous_pipes n) (<[pipe := id]> (routing_ids n)) (next_integral_routing_id n)
                     (connect_routing_id n)) r.

Definition erase_out_pipe (pipe : Z) (r : router) : option router :=
  let id := get_routing_id pipe r in
  _ ← zmq_assert (has_out_pipe id r);
  Some (set_out_pipes (delete id (out_pipes (outb r))) r).

Definition try_erase_out_pipe (id : list Z) (r : router) : option (Z * bool) * router :=
  match out_pipes (outb r) !! id with
  | Some res => (Some res, set_out_pipes (delete id (out_pipes (outb r))) r)
  | None => (None, r)
  end.

(** The search for the entry of a pipe, with its assertions. *)
Definition base_xwrite_activated (pipe : Z) (r : router) : option router :=
  '(_, (id, (_, active))) ← list_find (λ e, e.2.1 = pipe) (map_to_list (out_pipes (outb r)));
  _ ← zmq_assert (negb active);
  Some (set_out_pipes (<[id := (pipe, true)]> (out_pipes (outb r))) r).

Definition base_xsetsockopt (option_ : Z) (optval : list Z) (r : router) : rc * router :=
  if (option_ =? ZMQ_CONNECT_ROUTING_ID) && negb (bool_decide (optval = [])) then
    let n := names r in
    (RcOk, with_names (Naming (anonymous_pipes n) (routing_ids n) (next_integral_routing_id n) optval) r)
  else (RcErr EINVAL, r).

(** ** [router_t] *)

Definition auto_id (v : Z) : list Z := 0 :: put_uint32 v.

(** [put_uint32 (buf + 1, _next_integral_routing_id++)] *)
Definition generate_id (r : router) : list Z * router :=
  let n := names r in
  let v := next_integral_routing_id n in
  (auto_id v, with_names (Naming (anonymous_pipes n) (routing_ids n) (u32 (v + 1)) (connect_routing_id n)) r).

(** The last two lines of [identify_peer]. *)
Definition name_pipe (id : list Z) (pipe : Z) (r : router) : option router :=
  add_out_pipe id pipe (set_router_socket_routing_id pipe id r).

Section router.
Context {W : Type} `{!InPipes part W} `{!OutPipes part W} `{!TermPipes W}.

(** A new connection takes the routing id of the pipe [old]. *)
Definition take_over (old : Z) (r : router) (w : W) : option (router * W) :=
  let '(new_id, r) := generate_id r in
  r ← erase_out_pipe old r;
  r ← add_out_pipe new_id old (set_router_socket_routing_id old new_id r);
  if bool_decide (current_in (inb r) = Some old) then Some (set_terminate_current_in true r, w)
  else Some (r, pipe_terminate old true w).

Definition identify_peer (pipe : Z) (locally_initiated : bool) (r : router) (w : W) : option (bool * router * W) :=
  if locally_initiated && connect_routing_id_is_set r then
    let '(id, r) := extract_connect_routing_id r in
    _ ← zmq_assert (negb (has_out_pipe id r));
    r ← name_pipe id pipe r;
    Some (true, r, w)
  else if opt_raw_socket (opts r) then
    let '(id, r) := generate_id r in
    r ← name_pipe id pipe r;
    Some (true, r, w)
  else
    let '(res, w) := in_read pipe w in
    match res with
    | None => Some (false, r, w)
    | Some msg =>
        if bool_decide (p_data msg = []) then
          let '(id, r) := generate_id r in
          r ← name_pipe id pipe r;
          Some (true, r, w)
        else
          let id := p_data msg in
          match lookup_out_pipe id r with
          | None => r ← name_pipe id pipe r; Some (true, r, w)
          | Some (old, _) =>
              if negb (handover (opts r)) then Some (false, r, w)
              else
                '(r, w) ← take_over old r w;
                r ← name_pipe id pipe r;
                Some (true, r, w)
          end
    end.

Definition xattach_pipe (pipe : Z) (locally_initiated : bool) (r : router) (w : W) : option (router * W) :=
  let w := if probe_router (opts r) then out_flush pipe (out_write pipe empty_msg w).2 else w in
  '(routing_id_ok, r, w) ← identify_peer pipe locally_initiated r w;
  if (routing_id_ok : bool) then f ← Fq.attach pipe (fq (inb r)); Some (set_fq f r, w)
  else Some (set_anonymous ({[pipe]} ∪ anonymous_pipes (names r)) r, w).

Definition xsetsockopt (option_ : Z) (optval : list Z) (r : router) : rc * router :=
  let is_int := (length optval =? 4)%nat && (0 <=? int_value optval) in
  let on := negb (int_value optval =? 0) in
  let o := opts r in
  if option_ =? ZMQ_ROUTER_RAW then
    if is_int then
      (RcOk, with_opts (Options (mandatory o) on (probe_router o) (handover o)
                                (if on then false else opt_recv_routing_id o)
                                (if on then true else opt_raw_socket o)) r)
    else (RcErr EINVAL, r)
  else if option_ =? ZMQ_ROUTER_MANDATORY then
    if is_int then (RcOk, with_opts (Options on (raw_socket o) (probe_router o) (handover o)
                                             (opt_recv_routing_id o) (opt_raw_socket o)) r)
    else (RcErr EINVAL, r)
  else if option_ =? ZMQ_PROBE_ROUTER then
    if is_int then (RcOk, with_opts (Options (mandatory o) (raw_socket o) on (handover o)
                                             (opt_recv_routing_id o) (opt_raw_socket o)) r)
    else (RcErr EINVAL, r)
  else if option_ =? ZMQ_ROUTER_HANDOVER then
    if is_int then (RcOk, with_opts (Options (mandatory o) (raw_socket o) (probe_router o) on
                                             (opt_recv_routing_id o) (opt_raw_socket o)) r)
    else (RcErr EINVAL, r)
  else base_xsetsockopt option_ optval r.

Definition xpipe_terminated (pipe : Z) (r : router) (w : W) : option (router * W) :=
  if bool_decide (pipe ∈ anonymous_pipes (names r)) then
    Some (set_anonymous (anonymous_pipes (names r) ∖ {[pipe]}) r, w)
  else
    r ← erase_out_pipe pipe r;
    f ← Fq.pipe_terminated pipe (fq (inb r));
    let r := set_fq f r in
    let w := out_rollback pipe w in
    Some (if bool_decide (current_out (outb r) = Some pipe) then set_out None (more_out (outb r)) r else r, w).

Definition xread_activated (pipe : Z) (r : router) (w : W) : option (router * W) :=
  if negb (bool_decide (pipe ∈ anonymous_pipes (names r))) then
    f ← Fq.activated pipe (fq (inb r)); Some (set_fq f r, w)
  else
    '(routing_id_ok, r, w) ← identify_peer pipe false r w;
    if (routing_id_ok : bool) then
      let r := set_anonymous (anonymous_pipes (names r) ∖ {[pipe]}) r in
      f ← Fq.attach pipe (fq (inb r)); Some (set_fq f r, w)
    else Some (r, w).

(** [xsend]: the first part, and the others. *)
Definition send_prefix (msg : part) (r : router) (w : W) : option (rc * router * W) :=
  _ ← zmq_assert (bool_decide (current_out (outb r) = None));
  if negb (is_more msg) then Some (RcOk, r, w)
  else
    let id := p_data msg in
    match lookup_out_pipe id r with
    | Some (pipe, _) =>
        let '(writable, w) := out_check_write pipe w in
        if writable then Some (RcOk, set_out (Some pipe) true r, w)
        else
          let pipe_full := negb (out_check_hwm pipe w) in
          let r := set_out_pipes (<[id := (pipe, false)]> (out_pipes (outb r))) r in
          if mandatory (opts r) then
            Some (RcErr (if pipe_full then EAGAIN else EHOSTUNREACH), set_out None false r, w)
          else Some (RcOk, set_out None true r, w)
    | None =>
        if mandatory (opts r) then Some (RcErr EHOSTUNREACH, set_out (current_out (outb r)) false r, w)
        else Some (RcOk, set_out (current_out (outb r)) true r, w)
    end.

Definition reset_more (msg : part) : part := Part (p_data msg) (Z.ldiff (p_flags msg) Msg.more) (p_meta msg).

Definition send_body (msg : part) (r : router) (w : W) : rc * router * W :=
  let msg := if opt_raw_socket (opts r) then reset_more msg else msg in
  let more := is_more msg in
  match current_out (outb r) with
  | Some pipe =>
      if raw_socket (opts r) && bool_decide (p_data msg = []) then
        (RcOk, set_out None more r, pipe_terminate pipe false w)
      else
        let '(ok, w) := out_write pipe msg w in
        if negb ok then (RcOk, set_out None more r, out_rollback pipe w)
        else if more then (RcOk, set_out (Some pipe) more r, w)
        else (RcOk, set_out None more r, out_flush pipe w)
  | None => (RcOk, set_out None more r, w)
  end.

Definition xsend (msg : part) (r : router) (w : W) : option (rc * router * W) :=
  if negb (more_out (outb r)) then send_prefix msg r w else Some (send_body msg r w).

(** The pipe being read is done with: it is terminated if it lost its id. *)
Definition end_current_in (more : bool) (i : inbound) (w : W) : option (inbound * W) :=
  if more then
    Some (Inb (fq i) (prefetched i) (routing_id_sent i) (prefetched_id i) (prefetched_msg i) (current_in i)
              (terminate_current_in i) true, w)
  else
    w ← (if terminate_current_in i then pipe ← current_in i; Some (pipe_terminate pipe true w) else Some w);
    Some (Inb (fq i) (prefetched i) (routing_id_sent i) (prefetched_id i) (prefetched_msg i) None false false, w).

(** [recvpipe], and again while the part is a peer's routing id. *)
Fixpoint recv_data (fuel : nat) (f : Fq.fq) (w : W) : option (option (part * Z) * Fq.fq * W) :=
  match fuel with
  | O => None
  | S fuel =>
      '(res, f, w) ← Fq.recvpipe is_more f w;
      match res with
      | Some (msg, _) => if is_routing_id msg then recv_data fuel f w else Some (res, f, w)
      | None => Some (None, f, w)
      end
  end.

Definition xrecv (fuel : nat) (r : router) (w : W) : option (rc * option part * router * W) :=
  let i := inb r in
  if prefetched i then
    let '(msg, i) :=
      if negb (routing_id_sent i)
      then (prefetched_id i, Inb (fq i) true true empty_msg (prefetched_msg i) (current_in i)
                                 (terminate_current_in i) (more_in i))
      else (prefetched_msg i, Inb (fq i) false (routing_id_sent i) (prefetched_id i) empty_msg (current_in i)
                                  (terminate_current_in i) (more_in i)) in
    '(i, w) ← end_current_in (is_more msg) i w;
    Some (RcOk, Some msg, with_inb i r, w)
  else
    '(res, f, w) ← recv_data fuel (fq i) w;
    let r := set_fq f r in
    let i := inb r in
    match res with
    | None => Some (RcErr EAGAIN, None, r, w)
    | Some (msg, pipe) =>
        if more_in i then
          '(i, w) ← end_current_in (is_more msg) i w;
          Some (RcOk, Some msg, with_inb i r, w)
        else
          Some (RcOk, Some (Part (get_routing_id pipe r) Msg.more (p_meta msg)),
                with_inb (Inb f true true (prefetched_id i) msg (Some pipe) (terminate_current_in i) (more_in i)) r, w)
    end.

Definition rollback (r : router) (w : W) : router * W :=
  match current_out (outb r) with
  | Some pipe => (set_out None false r, out_rollback pipe w)
  | None => (r, w)
  end.

Definition xhas_in (fuel : nat) (r : router) (w : W) : option (bool * router * W) :=
  let i := inb r in
  if more_in i then Some (true, r, w)
  else if prefetched i then Some (true, r, w)
  else
    '(res, f, w) ← recv_data fuel (fq i) w;
    match res with
    | None => Some (false, with_inb (Inb f false (routing_id_sent i) (prefetched_id i) empty_msg (current_in i)
                                         (terminate_current_in i) (more_in i)) r, w)
    | Some (msg, pipe) =>
        Some (true, with_inb (Inb f true false (Part (get_routing_id pipe r) Msg.more None) msg (Some pipe)
                                  (terminate_current_in i) (more_in i)) r, w)
    end.

Definition any_of_out_pipes (func : Z → bool) (r : router) : bool :=
  existsb (λ e, func e.2.1) (map_to_list (out_pipes (outb r))).

Definition xhas_out (r : router) (w : W) : bool :=
  if negb (mandatory (opts r)) then true else any_of_out_pipes (λ pipe, out_check_hwm pipe w) r.

(** The result and its bits; [RcErr] is -1. *)
Definition get_peer_state (id : list Z) (r : router) (w : W) : rc * Z :=
  match lookup_out_pipe id r with
  | None => (RcErr EHOSTUNREACH, -1)
  | Some (pipe, _) => (RcOk, if out_check_hwm pipe w then ZMQ_POLLOUT else 0)
  end.
End router.

(** * Correctness *)

(** The routing-id messages of peers stand between messages and are single. *)
Fixpoint rids_ok (mid : bool) (l : list part) : Prop :=
  match l with
  | [] => True
  | m :: l => (is_routing_id m = true → mid = false ∧ is_more m = false) ∧ rids_ok (is_more m) l
  end.

Lemma rids_ok_app c : ∀ mid l, rids_ok mid c → rids_ok false l → whole is_more c → (c = [] → mid = false) →
  rids_ok mid (c ++ l).
Proof.
  induction c as [|m c IH]; intros mid l Hc Hl Hw Hn; [cbn; by rewrite Hn|]. destruct Hc as [Hm Hc].
  split; [done|]. apply IH; [done|done|by eapply whole_tail|]. intros ->. by apply Hw.
Qed.

(** Between messages the parts can be read from any of them on. *)
Lemma split_unfinished (l : list part) : ∃ l1 s, l = l1 ++ s ∧ whole is_more l1 ∧ unfinished is_more s.
Proof.
  induction l as [|m l (l1 & s & -> & Hl & Hs)] using rev_ind; [by exists [], []; split_and!; [|done|constructor]|].
  destruct (is_more m) eqn:Hm.
  - exists l1, (s ++ [m]). split_and!; [by rewrite app_assoc|done|]. apply Forall_app. by split; [|repeat constructor].
  - exists ((l1 ++ s) ++ [m]), []. split_and!; [by rewrite app_nil_r|by apply whole_snoc|constructor].
Qed.

Lemma whole_unfinished (l s : list part) : whole is_more (l ++ s) → unfinished is_more s → s = [].
Proof.
  intros Hw Hs. destruct s as [|m s _] using rev_ind; [done|]. rewrite app_assoc in Hw.
  specialize (Hw m ltac:(by rewrite last_snoc)). apply Forall_app in Hs as [_ Hs]. inversion Hs; congruence.
Qed.

(** ** The invariant *)

(** The pipes of [D] have an id each, and the table has those pipes only. *)
Record table_ok (D : Z → Prop) (r : router) : Prop := {
  t_ids p : D p → ∃ a, out_pipes (outb r) !! get_routing_id p r = Some (p, a);
  t_table id p a : out_pipes (outb r) !! id = Some (p, a) → D p ∧ get_routing_id p r = id }.

Record in_ok (i : inbound) : Prop := {
  n_fetch : Fq.more (fq i) = if prefetched i then is_more (prefetched_msg i) else more_in i;
  n_current : Fq.more (fq i) = true → current_in i = items (Fq.pipes (fq i)) !! Fq.current (fq i);
  n_busy : prefetched i = true ∨ more_in i = true → is_Some (current_in i);
  n_term : terminate_current_in i = true → ∃ p, current_in i = Some p ∧ p ∈ items (Fq.pipes (fq i));
  n_begin : prefetched i = true → routing_id_sent i = false → more_in i = false ∧ is_more (prefetched_id i) = true;
  n_idle : prefetched i = false → more_in i = false → current_in i = None }.

Definition identified (r : router) (p : Z) : Prop := p ∈ items (Fq.pipes (fq (inb r))).

(** [p] is the pipe in the middle of whose message the queue is. *)
Definition midway (f : Fq.fq) (p : Z) : bool :=
  Fq.more f && bool_decide (items (Fq.pipes f) !! Fq.current f = Some p).

Section correct.
Context {W : Type} `{!InPipes part W} `{!OutPipes part W} `{!InPipesLaws part W} `{!OutPipesLaws part W is_more}.
Context `{!DuplexPipes part W is_more} `{!TermPipes W} `{!TermPipesLaws part W is_more}.

Definition rids_in (f : Fq.fq) (w : W) : Prop :=
  ∀ p, p ∈ items (Fq.pipes f) → rids_ok (midway f p) (content w p).

Record inv (r : router) (w : W) : Prop := {
  v_fq : Fq.inv is_more (fq (inb r)) w;
  v_table : table_ok (identified r) r;
  v_anonymous p : p ∈ anonymous_pipes (names r) → ¬ identified r p;
  v_out p : current_out (outb r) = Some p → more_out (outb r) = true ∧ identified r p;
  v_whole p : identified r p → current_out (outb r) ≠ Some p → whole is_more (written w p);
  v_in : in_ok (inb r);
  v_rids : rids_in (fq (inb r)) w }.

Lemma router_inv_new w random : inv (router_new random) w.
Proof.
  assert (Hno : ∀ p, ¬ identified (router_new random) p) by (intros p Hp; cbn in Hp; by apply not_elem_of_nil in Hp).
  split; try done.
  - exact (Fq.fq_inv_new _ w).
  - split; [by intros p Hp%Hno|]. intros id p a. cbn. by rewrite lookup_empty.
  - by intros p Hp%Hno.
  - split; try done; cbn; intuition congruence.
  - by intros p Hp%Hno.
Qed.

(** ** Changes of the world *)

(** What the pipes of the queue can read stays, or is given up by a pipe that is
    not in the middle of a message. *)
Definition keeps (f : Fq.fq) (w w' : W) : Prop :=
  ∀ q, q ∈ items (Fq.pipes f) → content w' q = content w q ∨ content w' q = [] ∧ midway f q = false.

Lemma fq_keeps f w w' : Fq.inv is_more f w → keeps f w w' → Fq.inv is_more f w'.
Proof.
  intros H Hk. destruct H as [Hok Hac Hcur Hwh Hmo]. split; try done.
  - intros q Hq. destruct (Hk q Hq) as [->|[-> _]]; [auto|done].
  - intros Hm. destruct (Hmo Hm) as (q & Hc & Hq & Hne). exists q. split_and!; [done..|].
    destruct (Hk q) as [->|[_ Hmid]]; [by eapply list_elem_of_lookup_2|done|].
    unfold midway in Hmid. by rewrite Hm, Hq, bool_decide_eq_true_2 in Hmid.
Qed.

Lemma rids_keeps f w w' : rids_in f w → keeps f w w' → rids_in f w'.
Proof. intros H Hk q Hq. destruct (Hk q Hq) as [->|[-> _]]; [by apply H|done]. Qed.

Lemma inv_world r w w' : inv r w → keeps (fq (inb r)) w w' →
  (∀ q, identified r q → current_out (outb r) ≠ Some q → whole is_more (written w q) → whole is_more (written w' q)) → inv r w'.
Proof.
  intros H Hk Hw. destruct H as [Hf Ht Ha Ho Hwh Hi Hr]. split; try done.
  - by eapply fq_keeps.
  - intros p Hp Hc. by apply Hw; auto.
  - by eapply rids_keeps.
Qed.

Lemma rollback_whole p (w : W) : whole is_more (written (out_rollback p w) p).
Proof.
  destruct (split_unfinished (written w p)) as (l & s & Heq & Hl & Hs). by rewrite (out_rollback_written p w l s).
Qed.

Lemma term_whole p d (w : W) q : whole is_more (written w q) → whole is_more (written (pipe_terminate p d w) q).
Proof.
  intros Hw. destruct (decide (q = p)) as [->|Hq]; [|by rewrite term_written].
  by destruct (term_unfinished p d w) as (s & _ & _ & Hwh).
Qed.

Lemma term_keeps p d f (w : W) : midway f p = false → keeps f w (pipe_terminate p d w).
Proof. intros Hm q _. destruct (term_content p d w q) as [->|[-> Hc]]; [by left|by right]. Qed.

(** ** Receiving *)

(** One [recv] and the places of the routing ids. *)
Lemma rids_recv f w f1 w1 m p : rids_in f w → (∀ q, q ∈ items (Fq.pipes f1) ↔ q ∈ items (Fq.pipes f)) →
  p ∈ items (Fq.pipes f) →
  content w p = m :: content w1 p → (∀ q, q ≠ p → content w1 q = content w q) → Fq.more f1 = is_more m →
  (is_more m = true → items (Fq.pipes f1) !! Fq.current f1 = Some p) →
  (Fq.more f = true → items (Fq.pipes f) !! Fq.current f = Some p) →
  rids_in f1 w1 ∧ (is_routing_id m = true → Fq.more f = false ∧ is_more m = false).
Proof.
  intros Hr Hit Hp Hc Ho Hm Hcur Hsame. pose proof (Hr p Hp) as Hrp. rewrite Hc in Hrp. destruct Hrp as [Hid Hrest].
  assert (Hpm : midway f p = Fq.more f).
  { unfold midway. destruct (Fq.more f); [|done]. rewrite (Hsame eq_refl). by rewrite bool_decide_eq_true_2. }
  rewrite Hpm in Hid. split; [|done]. intros q Hq. apply Hit in Hq. destruct (decide (q = p)) as [->|Hqp].
  - replace (midway f1 p) with (is_more m); [done|]. unfold midway. rewrite Hm. destruct (is_more m); [|done].
    rewrite (Hcur eq_refl). by rewrite bool_decide_eq_true_2.
  - rewrite Ho by done. replace (midway f1 q) with (midway f q); [by apply Hr|]. unfold midway. rewrite Hm.
    transitivity false.
    + destruct (Fq.more f); [|done]. rewrite (Hsame eq_refl). apply bool_decide_eq_false_2. congruence.
    + destruct (is_more m); [|done]. rewrite (Hcur eq_refl). symmetry. apply bool_decide_eq_false_2. congruence.
Qed.

(** What [recv_data] returns: the part, after the routing ids [sk] of each pipe. *)
Definition received (f f' : Fq.fq) (w w' : W) (res : option (part * Z)) (sk : Z → list part) : Prop :=
  (∀ q, Forall (λ m, is_routing_id m = true) (sk q)) ∧
  match res with
  | Some (m, p) =>
      p ∈ items (Fq.pipes f) ∧ is_routing_id m = false ∧ Fq.more f' = is_more m ∧
      (is_more m = true → items (Fq.pipes f') !! Fq.current f' = Some p) ∧
      content w p = sk p ++ m :: content w' p ∧ (∀ q, q ≠ p → content w q = sk q ++ content w' q) ∧
      (Fq.more f = true → items (Fq.pipes f) !! Fq.current f = Some p ∧ ∀ q, sk q = [])
  | None =>
      Fq.more f = false ∧ Fq.more f' = false ∧ (∀ q, content w q = sk q ++ content w' q) ∧
      (∀ q, Fq.is_active f q → content w' q = [])
  end.

Lemma recv_data_ok L : ∀ fuel f w, NoDup L → (∀ q, q ∈ items (Fq.pipes f) ↔ q ∈ L) → (avail w L < fuel)%nat →
  Fq.inv is_more f w → rids_in f w →
  ∃ res f' w' sk, recv_data fuel f w = Some (res, f', w') ∧ Fq.inv is_more f' w' ∧ rids_in f' w' ∧
    (∀ q, q ∈ items (Fq.pipes f') ↔ q ∈ items (Fq.pipes f)) ∧ (∀ q, written w' q = written w q) ∧
    (avail w' L ≤ avail w L)%nat ∧ served f f' w' ∧ received f f' w w' res sk.
Proof.
  induction fuel as [|fuel IH]; intros f w Hnd HL Hfuel H Hr; [lia|]. cbn [recv_data].
  destruct (recvpipe_ok f w H) as (r & f1 & w1 & -> & H1 & Hit1 & Hw1 & Hs1 & Hres). cbn [mbind option_bind].
  destruct r as [[m p]|].
  - destruct Hres as (Hp & Hc & Ho & Hm & Hcur & Hsame).
    destruct (rids_recv f w f1 w1 m p Hr Hit1 Hp Hc Ho Hm Hcur Hsame) as [Hr1 Hid].
    pose proof (avail_take w w1 L p [m] Hnd (proj1 (HL p) Hp) Hc Ho) as Hav. cbn [length] in Hav.
    destruct (is_routing_id m) eqn:Hrm.
    + destruct (Hid eq_refl) as [Hmf Hmm]. rewrite Hmm in Hm.
      destruct (IH f1 w1 Hnd) as (res & f2 & w2 & sk & Heq & H2 & Hr2 & Hit2 & Hw2 & Hle & Hs2 & Hsk & Hres2);
        [intros q; by rewrite Hit1|lia|done..|].
      assert (Hsv : served f f2 w2).
      { eapply served_trans; [done|done|]. intros q Hq. destruct res as [[m2 p2]|].
        - destruct Hres2 as (_ & _ & _ & _ & Hc2 & Ho2 & _). destruct (decide (q = p2)) as [->|Hqp].
          + rewrite Hq in Hc2. by destruct (sk p2).
          + specialize (Ho2 q Hqp). rewrite Hq in Ho2. symmetry in Ho2. by apply app_eq_nil in Ho2 as [_ ?].
        - destruct Hres2 as (_ & _ & Hc2 & _). specialize (Hc2 q). rewrite Hq in Hc2. symmetry in Hc2.
          by apply app_eq_nil in Hc2 as [_ ?]. }
      exists res, f2, w2, (λ q, if decide (q = p) then m :: sk q else sk q).
      split_and!; [done..| | | |done|]; [intros q; by rewrite Hit2, Hit1|intros q; by rewrite Hw2, Hw1|lia|].
      split; [intros q; case_decide; [by constructor|done]|].
      destruct res as [[m2 p2]|].
      * destruct Hres2 as (Hp2 & Hid2 & Hm2 & Hcur2 & Hc2 & Ho2 & _).
        split_and!; [by apply Hit1|done..| | |congruence].
        -- case_decide; [subst p2; by rewrite Hc, Hc2|]. by rewrite <- Ho.
        -- intros q Hq. case_decide; [subst q; by rewrite Hc, Ho2|]. by rewrite <- Ho, Ho2.
      * destruct Hres2 as (Hm2 & Hm2' & Hc2 & Hemp). split_and!; [done..| |].
        -- intros q. case_decide; [subst q; by rewrite Hc, Hc2|]. by rewrite <- Ho.
        -- intros q Hq. destruct (Hs1 q Hq) as [Ha|He]; [by apply Hemp|]. specialize (Hc2 q). rewrite He in Hc2.
           symmetry in Hc2. by apply app_eq_nil in Hc2 as [_ ?].
    + exists (Some (m, p)), f1, w1, (λ _, []). split_and!; [done..|lia|done|].
      split; [intros q; constructor|]. split_and!; [done..| |intros Hmf; split; [by apply Hsame|done]].
      intros q Hq. by rewrite Ho.
  - destruct Hres as (Hemp & Hc & Hm & Hm'). exists None, f1, w1, (λ _, []).
    split_and!; [done|done| |done|done| |done|].
    + intros q Hq. rewrite Hc. replace (midway f1 q) with (midway f q); [by apply Hr, Hit1|]. unfold midway. by rewrite Hm, Hm'.
    + rewrite (avail_ext w w1 L); [lia|]. intros q _. apply Hc.
    + split; [intros q; constructor|]. split_and!; [done|done| |done]. intros q. by rewrite Hc.
Qed.

Definition pipes_of (r : router) : list Z := items (Fq.pipes (fq (inb r))).

Lemma table_frame r r' : table_ok (identified r) r → outb r' = outb r → names r' = names r →
  (∀ q, identified r' q ↔ identified r q) → table_ok (identified r') r'.
Proof.
  intros [H1 H2] Ho Hn Hi. split; unfold get_routing_id in *; rewrite Ho, Hn.
  - intros p Hp%Hi. by apply H1.
  - intros id p a Hp. destruct (H2 _ _ _ Hp). by split; [apply Hi|].
Qed.

Lemma inv_inbound r i w w' : inv r w → in_ok i → Fq.inv is_more (fq i) w' → rids_in (fq i) w' →
  (∀ q, q ∈ items (Fq.pipes (fq i)) ↔ q ∈ pipes_of r) →
  (∀ q, whole is_more (written w q) → whole is_more (written w' q)) → inv (with_inb i r) w'.
Proof.
  intros H Hi Hf Hr Hit Hw. destruct H as [_ Ht Ha Ho Hwh _ _]. split; try done.
  - by apply (table_frame r).
  - intros p Hp Hid. apply (Ha p Hp), Hit, Hid.
  - intros p Hp. destruct (Ho p Hp) as [? ?]. split; [done|]. by apply Hit.
  - intros p Hp Hc. apply Hw, Hwh; [by apply Hit|done].
Qed.

(** The end of a message, or not. *)
Lemma end_ok more i w : (terminate_current_in i = true → is_Some (current_in i)) →
  (∀ p, more = false → current_in i = Some p → midway (fq i) p = false) →
  ∃ w', end_current_in more i w =
      Some (Inb (fq i) (prefetched i) (routing_id_sent i) (prefetched_id i) (prefetched_msg i)
                (if more then current_in i else None) (if more then terminate_current_in i else false) more, w') ∧
    keeps (fq i) w w' ∧ (∀ q, whole is_more (written w q) → whole is_more (written w' q)) ∧
    (terminate_current_in i = false → w' = w).
Proof.
  intros Ht Hm. unfold end_current_in. destruct more.
  { exists w. split_and!; [done| |done|done]. intros q _. by left. }
  destruct (terminate_current_in i).
  - destruct (Ht eq_refl) as [p Hp]. rewrite Hp. cbn [mbind option_bind]. eexists. split_and!; [done| | |done].
    + apply term_keeps. by apply Hm.
    + intros q. apply term_whole.
  - cbn [mbind option_bind]. exists w. split_and!; [done| |done|done]. intros q _. by left.
Qed.

Lemma not_midway f p : Fq.more f = false → midway f p = false.
Proof. unfold midway. by intros ->. Qed.

(** A part that was prefetched. *)
Lemma xrecv_prefetched fuel r w : inv r w → prefetched (inb r) = true →
  let i := inb r in
  let m := if routing_id_sent i then prefetched_msg i else prefetched_id i in
  ∃ i' w', xrecv fuel r w = Some (RcOk, Some m, with_inb i' r, w') ∧ inv (with_inb i' r) w' ∧
    fq i' = fq i ∧ more_in i' = is_more m ∧ prefetched i' = negb (routing_id_sent i) ∧
    (routing_id_sent i = false → routing_id_sent i' = true ∧ prefetched_msg i' = prefetched_msg i) ∧
    (terminate_current_in i = false → w' = w ∧ terminate_current_in i' = false) ∧ keeps (fq i) w w'.
Proof.
  intros H Hp i m. pose proof (v_in _ _ H) as Hin. fold i in Hin, Hp. unfold xrecv. fold i. rewrite Hp.
  destruct (n_busy _ Hin (or_introl Hp)) as [p Hcur].
  set (i1 := if routing_id_sent i then
        Inb (fq i) false true (prefetched_id i) empty_msg (current_in i) (terminate_current_in i) (more_in i)
      else Inb (fq i) true true empty_msg (prefetched_msg i) (current_in i) (terminate_current_in i) (more_in i)).
  assert (Heq : (if negb (routing_id_sent i)
      then (prefetched_id i, Inb (fq i) true true empty_msg (prefetched_msg i) (current_in i) (terminate_current_in i) (more_in i))
      else (prefetched_msg i, Inb (fq i) false (routing_id_sent i) (prefetched_id i) empty_msg (current_in i)
                                  (terminate_current_in i) (more_in i))) = (m, i1)).
  { unfold m, i1. by destruct (routing_id_sent i). }
  rewrite Heq. assert (Hfq1 : fq i1 = fq i) by (unfold i1; by destruct (routing_id_sent i)).
  assert (Hc1 : current_in i1 = current_in i) by (unfold i1; by destruct (routing_id_sent i)).
  assert (Ht1 : terminate_current_in i1 = terminate_current_in i) by (unfold i1; by destruct (routing_id_sent i)).
  assert (Hmid : is_more m = false → Fq.more (fq i) = false).
  { intros Hm. rewrite (n_fetch _ Hin), Hp. unfold m in Hm. destruct (routing_id_sent i) eqn:Hs; [done|].
    destruct (n_begin _ Hin Hp Hs). congruence. }
  destruct (end_ok (is_more m) i1 w) as (w' & -> & Hk & Hwh & Hsame).
  { rewrite Hc1, Hcur. by intros. }
  { intros q Hm _. rewrite Hfq1. by apply not_midway, Hmid. }
  rewrite Hfq1 in Hk. cbn [mbind option_bind]. eexists _, w'. split; [done|]. cbn [fq more_in prefetched].
  split_and!; [|done|done|unfold i1; by destruct (routing_id_sent i)| | |done].
  - apply (inv_inbound r _ w); [done| | | | |done]; cbn [fq]; rewrite Hfq1.
    + rewrite Hc1, Ht1. unfold i1, m in *. destruct (routing_id_sent i) eqn:Hs; cbn.
      * destruct Hin as [Hf Hcu Hb Ht Hbe Hid]. rewrite Hp in Hf.
        split; cbn; try done; [| | |by intros _ ->].
        -- intros Hmf. rewrite Hmf in Hf. rewrite <- Hf. auto.
        -- intros [|Hmm]; [done|]. rewrite Hmm. auto.
        -- destruct (is_more (prefetched_msg i)); [|done]. auto.
      * destruct Hin as [Hf Hcu Hb Ht Hbe Hid]. rewrite Hp in Hf. destruct (Hbe Hp Hs) as [Hmi ->].
        split; cbn; try done; auto.
    + apply (fq_keeps _ w); [apply (v_fq _ _ H)|done].
    + apply (rids_keeps _ w); [apply (v_rids _ _ H)|done].
    + done.
  - unfold i1. by destruct (routing_id_sent i).
  - intros Ht. rewrite Ht1 in *. split; [auto|]. rewrite Ht. by destruct (is_more m).
Qed.

Lemma recv_ok fuel r w : inv r w → (avail w (pipes_of r) < fuel)%nat →
  ∃ res f' w' sk, recv_data fuel (fq (inb r)) w = Some (res, f', w') ∧ Fq.inv is_more f' w' ∧ rids_in f' w' ∧
    (∀ q, q ∈ items (Fq.pipes f') ↔ q ∈ pipes_of r) ∧ (∀ q, written w' q = written w q) ∧
    (avail w' (pipes_of r) ≤ avail w (pipes_of r))%nat ∧ received (fq (inb r)) f' w w' res sk.
Proof.
  intros H Hf. destruct (recv_data_ok (pipes_of r) fuel (fq (inb r)) w) as (res & f' & w' & sk & ?); [|done|done|apply H..|].
  - apply (ok_nodup _ (Fq.i_ok _ _ _ (v_fq _ _ H))).
  - exists res, f', w', sk. tauto.
Qed.

(** The next part of a message. *)
Lemma xrecv_middle fuel r w p : inv r w → (avail w (pipes_of r) < fuel)%nat →
  prefetched (inb r) = false → more_in (inb r) = true → current_in (inb r) = Some p →
  ∃ m i' w1 w', xrecv fuel r w = Some (RcOk, Some m, with_inb i' r, w') ∧ inv (with_inb i' r) w' ∧
    content w p = m :: content w1 p ∧ (∀ q, q ≠ p → content w1 q = content w q) ∧ prefetched i' = false ∧ more_in i' = is_more m ∧
    (is_more m = true → current_in i' = Some p) ∧
    (∀ q, q ∈ items (Fq.pipes (fq i')) ↔ q ∈ pipes_of r) ∧
    keeps (fq i') w1 w' ∧ (terminate_current_in (inb r) = false → w' = w1 ∧ terminate_current_in i' = false) ∧
    (terminate_current_in (inb r) = false → ∀ q, written w' q = written w q).
Proof.
  intros H Hf Hp Hm Hcur. pose proof (v_in _ _ H) as Hin.
  destruct (recv_ok fuel r w H Hf) as (res & f' & w1 & sk & Heq & H1 & Hr1 & Hit & Hw1 & _ & _ & Hres).
  unfold xrecv. rewrite Hp, Heq. cbn [mbind option_bind].
  pose proof (n_fetch _ Hin) as Hmf. rewrite Hp, Hm in Hmf.
  pose proof (n_current _ Hin Hmf) as Hcf. rewrite Hcur in Hcf.
  destruct res as [[m p1]|]; [|destruct Hres as (? & _); congruence].
  destruct Hres as (Hpin & _ & Hm1 & Hcur1 & Hc & Ho & Hsame). destruct (Hsame Hmf) as [Hp1 Hsk].
  assert (p1 = p) as -> by congruence. rewrite Hsk in Hc.
  destruct r as [[f pf rs pid pm ci ti mi] o n op]. cbn in Hp, Hm, Hcur, Hmf, Hcf, Hin, Hit |- *. subst pf mi ci.
  set (i1 := Inb f' false rs pid pm (Some p) ti true).
  destruct (end_ok (is_more m) i1 w1) as (w' & -> & Hk & Hwh & Hsm); [done|intros q Hmm _; apply not_midway; cbn; congruence|].
  cbn [mbind option_bind]. exists m. eexists _, w1, w'. split; [done|].
  cbn [prefetched more_in fq i1 current_in prefetched_msg prefetched_id routing_id_sent terminate_current_in]. split_and!; try done.
  - change (Router ?i _ _ _) with (with_inb i (Router (Inb f false rs pid pm (Some p) ti true) o n op)).
    apply (inv_inbound _ _ w); [done| | | |done|].
    + split; cbn; try done.
      * intros Hmf'. destruct (is_more m); [|congruence]. symmetry. auto.
      * intros [?| ->]; [done|eauto].
      * intros Ht. destruct (is_more m); [|done]. exists p. split; [done|]. by apply Hit.
      * by intros _ ->.
    + by eapply fq_keeps.
    + by eapply rids_keeps.
    + intros q Hq. apply Hwh. by rewrite Hw1.
  - intros q Hq. by rewrite Ho, Hsk.
  - by intros ->.
  - intros Ht. cbn in Hsm. split; [auto|]. rewrite Ht. by destruct (is_more m).
  - intros Ht q. cbn in Hsm. rewrite (Hsm Ht). apply Hw1.
Qed.

(** Between messages. *)
Lemma xrecv_idle fuel r w : inv r w → (avail w (pipes_of r) < fuel)%nat →
  prefetched (inb r) = false → more_in (inb r) = false →
  ∃ res f' w' sk, recv_data fuel (fq (inb r)) w = Some (res, f', w') ∧ received (fq (inb r)) f' w w' res sk ∧
    (avail w' (pipes_of r) ≤ avail w (pipes_of r))%nat ∧
    (∀ q, written w' q = written w q) ∧ (∀ q, q ∈ items (Fq.pipes f') ↔ q ∈ pipes_of r) ∧
    match res with
    | None =>
        xrecv fuel r w = Some (RcErr EAGAIN, None, set_fq f' r, w') ∧ inv (set_fq f' r) w' ∧
        xhas_in fuel r w = Some (false, with_inb (Inb f' false (routing_id_sent (inb r)) (prefetched_id (inb r)) empty_msg
            (current_in (inb r)) (terminate_current_in (inb r)) false) r, w') ∧
        inv (with_inb (Inb f' false (routing_id_sent (inb r)) (prefetched_id (inb r)) empty_msg
            (current_in (inb r)) (terminate_current_in (inb r)) false) r) w'
    | Some (m, p) =>
        let id := get_routing_id p r in
        xrecv fuel r w = Some (RcOk, Some (Part id Msg.more (p_meta m)),
          with_inb (Inb f' true true (prefetched_id (inb r)) m (Some p) (terminate_current_in (inb r)) false) r, w') ∧
        inv (with_inb (Inb f' true true (prefetched_id (inb r)) m (Some p) (terminate_current_in (inb r)) false) r) w' ∧
        xhas_in fuel r w = Some (true,
          with_inb (Inb f' true false (Part id Msg.more None) m (Some p) (terminate_current_in (inb r)) false) r, w') ∧
        inv (with_inb (Inb f' true false (Part id Msg.more None) m (Some p) (terminate_current_in (inb r)) false) r) w'
    end.
Proof.
  intros H Hf Hp Hm. pose proof (v_in _ _ H) as Hin.
  destruct (recv_ok fuel r w H Hf) as (res & f' & w1 & sk & Heq & H1 & Hr1 & Hit & Hw1 & Hav & Hres).
  exists res, f', w1, sk. split_and!; [done..|]. pose proof (n_idle _ Hin Hp Hm) as Hci.
  assert (Hti : terminate_current_in (inb r) = false).
  { destruct (terminate_current_in (inb r)) eqn:Ht; [|done]. destruct (n_term _ Hin Ht) as (p & ? & _). congruence. }
  assert (Hwh : ∀ q, whole is_more (written w q) → whole is_more (written w1 q)) by (intros q; by rewrite Hw1).
  unfold xrecv, xhas_in. rewrite Hp, Hm, Heq. cbn [mbind option_bind].
  destruct res as [[m p]|]; cbn [set_fq with_inb inb more_in]; rewrite ?Hm.
  - destruct Hres as (_ & Hpin & _ & Hmf & Hcur & _). split_and!; [done| |done|].
    + apply (inv_inbound _ _ w); [done| |done..]. split; cbn; try done.
      * intros Hmm. symmetry. apply Hcur. congruence.
      * rewrite Hti. done.
    + apply (inv_inbound _ _ w); [done| |done..]. split; cbn; try done.
      * intros Hmm. symmetry. apply Hcur. congruence.
      * rewrite Hti. done.
  - destruct Hres as (_ & _ & Hmf & _). split_and!; [done| |done|].
    + apply (inv_inbound _ _ w); [done| |done..]. rewrite Hti. split; cbn; try done; rewrite ?Hp, ?Hm, ?Hci; intuition congruence.
    + apply (inv_inbound _ _ w); [done| |done..]. rewrite Hti, Hci. split; cbn; try done; intuition congruence.
Qed.

(** ** Sending *)

Lemma table_flag D r id p a b : table_ok D r → out_pipes (outb r) !! id = Some (p, a) →
  table_ok D (set_out_pipes (<[id := (p, b)]> (out_pipes (outb r))) r).
Proof.
  intros [H1 H2] Hid. destruct (H2 _ _ _ Hid) as [HD Hp]. split; cbn.
  - intros q Hq. change (get_routing_id q (set_out_pipes _ r)) with (get_routing_id q r).
    destruct (H1 q Hq) as [a' Ha'].
    destruct (decide (get_routing_id q r = id)) as [Heq|Hne].
    + exists b. rewrite Heq in *. rewrite lookup_insert_eq. congruence.
    + exists a'. by rewrite lookup_insert_ne.
  - intros id' q a'. change (get_routing_id q (set_out_pipes _ r)) with (get_routing_id q r).
    destruct (decide (id' = id)) as [->|Hne].
    + rewrite lookup_insert_eq. intros [= <- <-]. done.
    + rewrite lookup_insert_ne by done. apply H2.
Qed.

Lemma inv_outb r o w w' : inv r w → table_ok (identified r) (with_outb o r) →
  (∀ p, current_out o = Some p → more_out o = true ∧ identified r p) →
  (∀ p, identified r p → current_out o ≠ Some p → whole is_more (written w' p)) →
  keeps (fq (inb r)) w w' → inv (with_outb o r) w'.
Proof.
  intros H Ht Ho Hw Hk. destruct H as [Hf _ Ha _ _ Hi Hr]. split; try done.
  - by eapply fq_keeps.
  - by eapply rids_keeps.
Qed.

Lemma same_keeps f w w' : (∀ q, content w' q = content w q) → keeps f w w'.
Proof. intros H q _. by left. Qed.

Lemma table_set_out D r c m : table_ok D r → table_ok D (set_out c m r).
Proof. intros [H1 H2]. by split. Qed.

(** Between messages no pipe is chosen, and all that was written is whole. *)
Lemma idle_out r w : inv r w → more_out (outb r) = false →
  current_out (outb r) = None ∧ ∀ p, identified r p → whole is_more (written w p).
Proof.
  intros H Hm. assert (Hc : current_out (outb r) = None).
  { destruct (current_out (outb r)) as [p|] eqn:Hc; [|done]. destruct (v_out _ _ H p Hc). congruence. }
  split; [done|]. intros p Hp. apply (v_whole _ _ H p Hp). by rewrite Hc.
Qed.

Lemma send_prefix_ok m r w : inv r w → more_out (outb r) = false →
  ∃ rc r' w', xsend m r w = Some (rc, r', w') ∧ inv r' w' ∧ opts r' = opts r ∧ names r' = names r ∧ inb r' = inb r ∧
    (∀ q, written w' q = written w q) ∧ (∀ q, content w' q = content w q) ∧
    if is_more m then
      match out_pipes (outb r) !! p_data m with
      | Some (p, _) =>
          if (out_check_write p w).1
          then rc = RcOk ∧ more_out (outb r') = true ∧ current_out (outb r') = Some p
          else current_out (outb r') = None ∧
               if mandatory (opts r) then
                 more_out (outb r') = false ∧
                 rc = RcErr (if out_check_hwm p (out_check_write p w).2 then EHOSTUNREACH else EAGAIN)
               else more_out (outb r') = true ∧ rc = RcOk
      | None =>
          current_out (outb r') = None ∧
          if mandatory (opts r) then more_out (outb r') = false ∧ rc = RcErr EHOSTUNREACH
          else more_out (outb r') = true ∧ rc = RcOk
      end
    else rc = RcOk ∧ r' = r.
Proof.
  intros H Hm. destruct (idle_out r w H Hm) as [Hc Hwh]. pose proof (v_table _ _ H) as Ht.
  unfold xsend, send_prefix, lookup_out_pipe. rewrite Hm, Hc. cbn [negb]. rewrite bool_decide_eq_true_2 by done. cbn [zmq_assert mbind option_bind].
  destruct (is_more m); cbn [negb]; [|by exists RcOk, r, w].
  destruct (out_pipes (outb r) !! p_data m) as [[p a]|] eqn:Hid.
  - destruct (t_table _ _ Ht _ _ _ Hid) as [Hp Hpid].
    pose proof (out_check_write_written p w) as Hcw. pose proof (out_check_write_content p w) as Hcc.
    destruct (out_check_write p w) as [ok w1]. cbn [fst snd] in *. destruct ok.
    + do 3 eexists. split; [done|]. split_and!; try done.
      apply (inv_outb r _ w); [done|by apply table_set_out| | |by apply same_keeps]; cbn [current_out more_out].
      * by intros q [= <-].
      * intros q Hq _. rewrite Hcw. auto.
    + set (r1 := set_out_pipes _ r). assert (Ht1 : table_ok (identified r) r1) by (by eapply table_flag).
      assert (Hi : ∀ b, inv (set_out None b r1) w1).
      { intros b. apply (inv_outb r _ w); [done| |done| |by apply same_keeps].
        - by apply (table_set_out _ r1 None b).
        - intros q Hq _. rewrite Hcw. auto. }
      change (opts r1) with (opts r). destruct (mandatory (opts r)); do 3 eexists; (split; [done|]); split_and!; try done. by destruct (out_check_hwm _ _).
  - assert (Hi : ∀ b, inv (set_out None b r) w).
    { intros b. apply (inv_outb r _ w); [done|by apply table_set_out|done| |by apply same_keeps]. intros q Hq _. auto. }
    destruct (mandatory (opts r)); do 3 eexists; (split; [done|]); by split_and!.
Qed.

(** The rest of the message. *)
Lemma send_body_ok m r w : inv r w → more_out (outb r) = true →
  (raw_socket (opts r) = true → p_data m = [] → Fq.more (fq (inb r)) = false) →
  let m' := if opt_raw_socket (opts r) then reset_more m else m in
  ∃ r' w', xsend m r w = Some (RcOk, r', w') ∧ inv r' w' ∧ opts r' = opts r ∧ names r' = names r ∧ inb r' = inb r ∧
    more_out (outb r') = is_more m' ∧ out_pipes (outb r') = out_pipes (outb r) ∧
    match current_out (outb r) with
    | Some p =>
        (∀ q, q ≠ p → written w' q = written w q) ∧
        (raw_socket (opts r) = false → (∀ q, content w' q = content w q) ∧
           if (out_write p m' w).1
           then written w' p = written w p ++ [m'] ∧ current_out (outb r') = if is_more m' then Some p else None
           else current_out (outb r') = None ∧ ∃ s, unfinished is_more s ∧ written w p = written w' p ++ s ∧ whole is_more (written w' p))
    | None => current_out (outb r') = None ∧ w' = w
    end.
Proof.
  intros H Hm Hraw m'. unfold xsend, send_body. rewrite Hm. cbn [negb]. fold m'. pose proof (v_table _ _ H) as Ht.
  destruct (current_out (outb r)) as [p|] eqn:Hc.
  2:{ do 2 eexists. split; [done|]. split_and!; try done.
      apply (inv_outb r _ w); [done|by apply table_set_out|done| |by apply same_keeps].
      intros q Hq _. apply (v_whole _ _ H q Hq). by rewrite Hc. }
  destruct (v_out _ _ H p Hc) as [_ Hp].
  assert (Hoth : ∀ q, identified r q → q ≠ p → whole is_more (written w q)).
  { intros q Hq Hqp. apply (v_whole _ _ H q Hq). rewrite Hc. congruence. }
  destruct (raw_socket (opts r) && bool_decide (p_data m' = [])) eqn:Hb.
  - apply andb_true_iff in Hb as [Hr Hd%bool_decide_eq_true].
    assert (Hd' : p_data m = []) by (unfold m' in Hd; by destruct (opt_raw_socket (opts r))).
    do 2 eexists. split; [done|]. split_and!; try done.
    + apply (inv_outb r _ w); [done|by apply table_set_out|done| |].
      * intros q Hq _. destruct (decide (q = p)) as [->|Hqp].
        -- by destruct (term_unfinished p false w) as (s & _ & _ & ?).
        -- rewrite term_written by done. auto.
      * apply term_keeps, not_midway. auto.
    + intros q Hq. by apply term_written.
    + congruence.
  - pose proof (out_write_written p m' w) as Hww. pose proof (out_write_content p m' w) as Hwc.
    destruct (out_write p m' w) as [ok w1]. cbn [fst snd] in *. destruct ok; cbn [negb andb] in *.
    + assert (Hp1 : written w1 p = written w p ++ [m']) by (rewrite Hww; by rewrite bool_decide_eq_true_2).
      assert (Ho1 : ∀ q, q ≠ p → written w1 q = written w q) by (intros q Hq; rewrite Hww; by rewrite bool_decide_eq_false_2).
      destruct (is_more m') eqn:Hmm; do 2 eexists; (split; [done|]); split_and!; try done.
      * apply (inv_outb r _ w); [done|by apply table_set_out| | |by apply same_keeps]; cbn [current_out more_out].
        -- by intros q [= <-].
        -- intros q Hq Hne. assert (q ≠ p) by congruence. rewrite Ho1 by done. auto.
      * apply (inv_outb r _ w); [done|by apply table_set_out|done| |]; cbn [current_out more_out].
        -- intros q Hq _. rewrite out_flush_written. destruct (decide (q = p)) as [->|Hqp].
           ++ rewrite Hp1. by apply whole_snoc.
           ++ rewrite Ho1 by done. auto.
        -- apply same_keeps. intros q. by rewrite out_flush_content, Hwc.
      * intros q Hq. rewrite out_flush_written. auto.
      * intros _. split; [intros q; by rewrite out_flush_content, Hwc|]. by rewrite out_flush_written.
    + assert (Ho1 : ∀ q, q ≠ p → written (out_rollback p w1) q = written w q).
      { intros q Hq. rewrite out_rollback_other by done. apply Hww. }
      do 2 eexists. split; [done|]. split_and!; try done.
      * apply (inv_outb r _ w); [done|by apply table_set_out|done| |]; cbn [current_out more_out].
        -- intros q Hq _. destruct (decide (q = p)) as [->|Hqp]; [apply rollback_whole|]. rewrite Ho1 by done. auto.
        -- apply same_keeps. intros q. by rewrite out_rollback_content, Hwc.
      * intros _. split; [intros q; by rewrite out_rollback_content, Hwc|]. split; [done|].
        destruct (split_unfinished (written w1 p)) as (l & s & Heq & Hl & Hs). exists s.
        rewrite (out_rollback_written p w1 l s) by done. by rewrite <- Hww.
Qed.

(** ** Naming the pipes *)

Definition free (id : list Z) (r : router) : Prop := out_pipes (outb r) !! id = None.

Lemma has_out_pipe_free id r : free id r → has_out_pipe id r = false.
Proof. unfold free, has_out_pipe. intros ->. by apply bool_decide_eq_false_2; intros [? ?]. Qed.

Lemma get_set_id p q id r : get_routing_id q (set_router_socket_routing_id p id r) = if decide (q = p) then id else get_routing_id q r.
Proof.
  unfold get_routing_id, set_router_socket_routing_id. cbn. case_decide as Hq.
  - subst q. by rewrite lookup_insert_eq.
  - by rewrite lookup_insert_ne.
Qed.

(** The router with [p] called [id]. *)
Definition named (id : list Z) (p : Z) (r : router) : router :=
  set_out_pipes (<[id := (p, true)]> (out_pipes (outb r))) (set_router_socket_routing_id p id r).

Lemma name_pipe_ok D id p r : table_ok D r → ¬ D p → free id r →
  name_pipe id p r = Some (named id p r) ∧ table_ok (λ q, q = p ∨ D q) (named id p r).
Proof.
  intros [H1 H2] Hp Hid. unfold name_pipe, add_out_pipe.
  change (has_out_pipe id (set_router_socket_routing_id p id r)) with (has_out_pipe id r).
  rewrite has_out_pipe_free by done. cbn [negb zmq_assert mbind option_bind]. split; [done|].
  assert (Hn : ∀ q, get_routing_id q (named id p r) = if decide (q = p) then id else get_routing_id q r).
  { intros q. apply (get_set_id p q id r). }
  split.
  - intros q Hq. rewrite Hn. cbn. case_decide as Hqp.
    + subst q. exists true. by rewrite lookup_insert_eq.
    + destruct Hq as [->|Hq]; [done|]. destruct (H1 q Hq) as [a Ha]. exists a. rewrite lookup_insert_ne; [done|].
      intros Heq. unfold free in Hid. rewrite <- Heq in Ha. congruence.
  - intros id' q a. rewrite Hn. cbn. destruct (decide (id' = id)) as [->|Hne].
    + rewrite lookup_insert_eq. intros [= <- <-]. by rewrite decide_True; [split; [left|]|].
    + rewrite lookup_insert_ne by done. intros Hq. destruct (H2 _ _ _ Hq) as [Hd Hidq].
      rewrite decide_False by (by intros ->). by split; [right|].
Qed.

(** The pipe [old] under a fresh id. *)
Definition renamed (old : Z) (r : router) : router :=
  let id := auto_id (next_integral_routing_id (names r)) in
  let r1 := (generate_id r).2 in
  named id old (set_out_pipes (delete (get_routing_id old r) (out_pipes (outb r))) r1).

Lemma table_renamed D r old id a : table_ok D r → out_pipes (outb r) !! id = Some (old, a) →
  free (auto_id (next_integral_routing_id (names r))) r →
  table_ok D (renamed old r) ∧ free id (renamed old r).
Proof.
  intros Ht Hid Hfree. pose proof Ht as [H1 H2]. destruct (H2 _ _ _ Hid) as [Hold Hoid].
  set (r1 := set_out_pipes (delete id (out_pipes (outb r))) (generate_id r).2).
  assert (Ht1 : table_ok (λ q, D q ∧ q ≠ old) r1).
  { split; cbn.
    - intros q [Hq Hqo]. change (get_routing_id q r1) with (get_routing_id q r). destruct (H1 q Hq) as [b Hb]. exists b.
      rewrite lookup_delete_ne; [done|]. intros Heq. rewrite <- Heq in Hb. congruence.
    - intros id' q b [Hne Hq]%lookup_delete_Some. change (get_routing_id q r1) with (get_routing_id q r).
      destruct (H2 _ _ _ Hq) as [HD Hqid]. split_and!; [done| |done]. intros ->. congruence. }
  assert (Hf1 : free (auto_id (next_integral_routing_id (names r))) r1).
  { unfold free, r1. cbn. by apply lookup_delete_None; right. }
  destruct (name_pipe_ok _ (auto_id (next_integral_routing_id (names r))) old r1 Ht1) as [_ Ht2]; [tauto|done|].
  assert (Heq : renamed old r = named (auto_id (next_integral_routing_id (names r))) old r1).
  { unfold renamed, r1. by rewrite Hoid. }
  rewrite Heq. split.
  - destruct Ht2 as [H3 H4]. split.
    + intros q Hq. apply H3. destruct (decide (q = old)); [by left|by right].
    + intros id' q b Hq. destruct (H4 _ _ _ Hq) as [Hd ?]. split; [|done]. destruct Hd as [->|[? _]]; done.
  - unfold free in *. cbn. rewrite lookup_insert_ne; [by rewrite lookup_delete_eq|]. congruence.
Qed.

Lemma take_over_ok D r w old id a : table_ok D r → out_pipes (outb r) !! id = Some (old, a) →
  free (auto_id (next_integral_routing_id (names r))) r →
  take_over old r w =
    Some (if bool_decide (current_in (inb r) = Some old) then (set_terminate_current_in true (renamed old r), w)
          else (renamed old r, pipe_terminate old true w)).
Proof.
  intros Ht Hid Hfree. destruct (t_table _ _ Ht _ _ _ Hid) as [Hold Hoid]. unfold take_over, generate_id, erase_out_pipe.
  set (r1 := with_names _ r). change (get_routing_id old r1) with (get_routing_id old r).
  change (has_out_pipe (get_routing_id old r) r1) with (has_out_pipe (get_routing_id old r) r).
  assert (Hh : has_out_pipe (get_routing_id old r) r = true) by (apply bool_decide_eq_true_2; rewrite Hoid; eauto).
  rewrite Hh. cbn [zmq_assert mbind option_bind]. unfold add_out_pipe.
  rewrite has_out_pipe_free by (unfold free; cbn; by apply lookup_delete_None; right).
  transitivity (if bool_decide (current_in (inb r) = Some old)
                then Some (set_terminate_current_in true (renamed old r), w) else Some (renamed old r, pipe_terminate old true w));
    [done|by case_bool_decide].
Qed.

(** What a new pipe can read: its routing id first, a single part. *)
Definition handshake_ok (l : list part) : Prop :=
  whole is_more l ∧ rids_ok false l ∧ ∀ m, head l = Some m → is_more m = false.

Lemma handshake_tail l : handshake_ok l → whole is_more (tail l) ∧ rids_ok false (tail l).
Proof.
  intros (Hw & Hr & Hh). destruct l as [|m l]; [done|]. split; [by eapply whole_tail|].
  destruct Hr as [_ Hr]. by rewrite (Hh m) in Hr.
Qed.

(** The ids that may be needed are not in use. *)
Definition can_name (locally_initiated : bool) (r : router) : Prop :=
  free (auto_id (next_integral_routing_id (names r))) r ∧
  (locally_initiated = true → free (connect_routing_id (names r)) r).

(** The effect of [identify_peer]. *)
Record identifies (p : Z) (b : bool) (r r' : router) (w w' : W) : Prop := {
  e_fq : fq (inb r') = fq (inb r);
  e_in : in_ok (inb r');
  e_out : current_out (outb r') = current_out (outb r) ∧ more_out (outb r') = more_out (outb r);
  e_opts : opts r' = opts r;
  e_anonymous : anonymous_pipes (names r') = anonymous_pipes (names r);
  e_table : table_ok (if b then λ q, q = p ∨ identified r q else identified r) r';
  e_keeps : keeps (fq (inb r)) w w';
  e_whole q : whole is_more (written w q) → whole is_more (written w' q);
  e_rest : b = true → whole is_more (content w' p) ∧ rids_ok false (content w' p) }.

Lemma in_ok_terminate i p : in_ok i → current_in i = Some p → p ∈ items (Fq.pipes (fq i)) →
  in_ok (Inb (fq i) (prefetched i) (routing_id_sent i) (prefetched_id i) (prefetched_msg i) (current_in i) true (more_in i)).
Proof. intros [? ? ? ? ? ?] Hc Hp. split; cbn; try done. intros _. by exists p. Qed.

Lemma read_other p w q : q ≠ p → content (in_read p w).2 q = content w q.
Proof. intros Hq. rewrite in_read_content. by rewrite decide_False. Qed.

Lemma read_keeps p f w : p ∉ items (Fq.pipes f) → keeps f w (in_read p w).2.
Proof. intros Hp q Hq. left. apply read_other. by intros ->. Qed.

(** A new name, without a change of the world but reading. *)
Lemma identifies_named id p r r1 w w' : inv r w → ¬ identified r p →
  inb r1 = inb r → outb r1 = outb r → opts r1 = opts r → routing_ids (names r1) = routing_ids (names r) →
  anonymous_pipes (names r1) = anonymous_pipes (names r) → free id r →
  keeps (fq (inb r)) w w' → (∀ q, written w' q = written w q) →
  whole is_more (content w' p) ∧ rids_ok false (content w' p) →
  name_pipe id p r1 = Some (named id p r1) ∧ identifies p true r (named id p r1) w w'.
Proof.
  intros H Hp Hi Ho Hop Hn Ha Hfree Hk Hw Hc.
  assert (Ht : table_ok (identified r) r1).
  { destruct (v_table _ _ H) as [H1 H2]. split; unfold get_routing_id; rewrite Ho, Hn; [apply H1|apply H2]. }
  destruct (name_pipe_ok _ id p r1 Ht Hp) as [Heq Ht']; [unfold free; by rewrite Ho|]. split; [done|].
  split; cbn; rewrite ?Hi, ?Ho; try done; [apply H|intros q; by rewrite Hw].
Qed.

Lemma identify_ok p loc r w : inv r w → ¬ identified r p → handshake_ok (content w p) → can_name loc r →
  ∃ b r' w', identify_peer p loc r w = Some (b, r', w') ∧ identifies p b r r' w w'.
Proof.
  intros H Hp Hhs [Hauto Hconn]. pose proof Hhs as (Hwh & Hrid & _). unfold identify_peer.
  assert (Hkw : keeps (fq (inb r)) w w) by (intros q _; by left).
  destruct (loc && connect_routing_id_is_set r) eqn:Hl.
  { apply andb_true_iff in Hl as [-> _]. unfold extract_connect_routing_id. set (r1 := with_names _ r).
    change (has_out_pipe (connect_routing_id (names r)) r1) with (has_out_pipe (connect_routing_id (names r)) r).
    rewrite has_out_pipe_free by auto. cbn [negb zmq_assert mbind option_bind].
    destruct (identifies_named (connect_routing_id (names r)) p r r1 w w) as [-> He]; try done; [by auto|].
    cbn [mbind option_bind]. by do 3 eexists. }
  destruct (opt_raw_socket (opts r)).
  { destruct (identifies_named (auto_id (next_integral_routing_id (names r))) p r (generate_id r).2 w w) as [Hn He]; try done.
    unfold generate_id in *. cbn [snd] in *. rewrite Hn. cbn [mbind option_bind]. by do 3 eexists. }
  pose proof (in_read_res p w) as Hres. pose proof (read_keeps p (fq (inb r)) w Hp) as Hk.
  pose proof (in_read_written p w) as Hw1. pose proof (in_read_content p w p) as Hc1. rewrite decide_True in Hc1 by done.
  pose proof (handshake_tail _ Hhs) as Hrest. rewrite <- Hc1 in Hrest.
  destruct (in_read p w) as [res w1]. cbn [fst snd] in *. subst res.
  assert (Hsame : identifies p false r r w w1) by (split; try done; [apply H|apply H|intros q; by rewrite Hw1]).
  destruct (head (content w p)) as [m|]; [|by do 3 eexists].
  case_bool_decide as Hd.
  { destruct (identifies_named (auto_id (next_integral_routing_id (names r))) p r (generate_id r).2 w w1) as [Hn He]; try done.
    unfold generate_id in *. cbn [snd] in *. rewrite Hn. cbn [mbind option_bind]. by do 3 eexists. }
  unfold lookup_out_pipe. destruct (out_pipes (outb r) !! p_data m) as [[old a]|] eqn:Hold.
  2:{ destruct (identifies_named (p_data m) p r r w w1) as [Hn He]; try done. rewrite Hn. cbn [mbind option_bind]. by do 3 eexists. }
  destruct (handover (opts r)); cbn [negb]; [|by do 3 eexists].
  pose proof (v_table _ _ H) as Ht. destruct (t_table _ _ Ht _ _ _ Hold) as [Hido _].
  rewrite (take_over_ok (identified r) r w1 old (p_data m) a) by done. cbn [mbind option_bind].
  destruct (table_renamed _ r old (p_data m) a Ht Hold Hauto) as [Htr Hfr].
  case_bool_decide as Hcur; cbn [mbind option_bind].
  - set (r1 := set_terminate_current_in true (renamed old r)).
    assert (Ht1 : table_ok (identified r) r1) by (destruct Htr as [? ?]; by split).
    destruct (name_pipe_ok _ (p_data m) p r1 Ht1 Hp Hfr) as [-> Ht2]. cbn [mbind option_bind]. do 3 eexists. split; [done|].
    split; try done; [|intros q; by rewrite Hw1]. apply (in_ok_terminate _ old); [apply H|done..].
  - destruct (name_pipe_ok _ (p_data m) p (renamed old r) Htr Hp Hfr) as [-> Ht2]. cbn [mbind option_bind]. do 3 eexists. split; [done|].
    assert (Hpo : p ≠ old) by (intros ->; done).
    split; try done; [apply H| | |].
    + intros q Hq. destruct (term_content old true w1 q) as [->|[-> He]]; [by apply Hk|]. right. split; [done|].
      unfold midway. destruct (Fq.more (fq (inb r))) eqn:Hm; [|done]. apply bool_decide_eq_false_2.
      rewrite <- (n_current _ (v_in _ _ H) Hm). congruence.
    + intros q Hq. apply term_whole. by rewrite Hw1.
    + intros _. destruct (term_content old true w1 p) as [->|[? _]]; done.
Qed.

(** ** Pipes come and go *)

Lemma midway_same f f' q : Fq.more f' = Fq.more f →
  (Fq.more f = true → items (Fq.pipes f') !! Fq.current f' = items (Fq.pipes f) !! Fq.current f) → midway f' q = midway f q.
Proof. unfold midway. intros ->. destruct (Fq.more f); [|done]. by intros ->. Qed.

Lemma in_ok_fq i f : in_ok i → Fq.more f = Fq.more (fq i) →
  (Fq.more (fq i) = true → items (Fq.pipes f) !! Fq.current f = items (Fq.pipes (fq i)) !! Fq.current (fq i)) →
  (∀ p, terminate_current_in i = true → current_in i = Some p → p ∈ items (Fq.pipes (fq i)) → p ∈ items (Fq.pipes f)) →
  in_ok (Inb f (prefetched i) (routing_id_sent i) (prefetched_id i) (prefetched_msg i) (current_in i)
             (terminate_current_in i) (more_in i)).
Proof.
  intros [Hf Hc Hb Ht Hbe Hid] Hm Hcur Hp. split; cbn; try done.
  - by rewrite Hm.
  - intros Hmt. rewrite Hm in Hmt. rewrite Hcur by done. auto.
  - intros Hti. destruct (Ht Hti) as (p & Hcp & Hpi). exists p. auto.
Qed.

(** Attaching a pipe that has just got its id. *)
Lemma attach_ok p r r' r2 w w' : inv r w → ¬ identified r p → identifies p true r r' w w' →
  inb r2 = inb r' → outb r2 = outb r' → routing_ids (names r2) = routing_ids (names r') →
  (∀ q, q ∈ anonymous_pipes (names r2) → q ∈ anonymous_pipes (names r') ∧ q ≠ p) → whole is_more (written w p) →
  ∃ f, Fq.attach p (fq (inb r2)) = Some f ∧ inv (set_fq f r2) w'.
Proof.
  intros H Hp He Hi Ho Hn Ha Hw. destruct (e_rest _ _ _ _ _ _ He eq_refl) as [Hwh Hrid].
  rewrite Hi, (e_fq _ _ _ _ _ _ He).
  pose proof (fq_keeps _ _ _ (v_fq _ _ H) (e_keeps _ _ _ _ _ _ He)) as Hfq.
  destruct (Fq.fq_attach_inv is_more p _ w' Hfq Hp Hwh) as (f & -> & Hf & Hm & Hit & Hcur & _). exists f. split; [done|].
  assert (Hid : ∀ q, identified (set_fq f r2) q ↔ q = p ∨ identified r q) by apply Hit.
  destruct (e_out _ _ _ _ _ _ He) as [Hco Hmo]. destruct (e_table _ _ _ _ _ _ He) as [Ht1 Ht2]. cbn in Ht1, Ht2.
  split; [done| | | | | |]; cbn [set_fq with_inb outb inb names fq]; rewrite ?Ho.
  - split; unfold get_routing_id; cbn; rewrite Ho, Hn.
    + intros q Hq%Hid. by apply Ht1.
    + intros id q a Hq. rewrite Hid. by apply (Ht2 id q a).
  - intros q Hq. destruct (Ha q Hq) as [Hq' Hqp]. rewrite Hid. rewrite (e_anonymous _ _ _ _ _ _ He) in Hq'.
    intros [?|?]; [done|]. by apply (v_anonymous _ _ H q).
  - rewrite Hco, Hmo. intros q Hq. destruct (v_out _ _ H q Hq). split; [done|]. apply Hid. by right.
  - rewrite Hco. intros q Hq%Hid Hc. destruct Hq as [->|Hq]; apply (e_whole _ _ _ _ _ _ He); [done|].
    by apply (v_whole _ _ H).
  - pose proof (in_ok_fq (inb r') f (e_in _ _ _ _ _ _ He)) as Hin. rewrite (e_fq _ _ _ _ _ _ He) in Hin. rewrite Hi.
    apply Hin; [done|done|]. intros q _ _ Hq. apply Hit. by right.
  - intros q Hq. rewrite (midway_same (fq (inb r)) f q Hm Hcur). apply Hit in Hq as [->|Hq].
    + replace (midway _ p) with false; [done|]. unfold midway. destruct (Fq.more (fq (inb r))); [|done]. symmetry.
      apply bool_decide_eq_false_2. intros Hc. apply Hp. by eapply list_elem_of_lookup_2.
    + by apply (rids_keeps _ _ _ (v_rids _ _ H) (e_keeps _ _ _ _ _ _ He)).
Qed.

Lemma identifies_inv p r r' w w' : inv r w → identifies p false r r' w w' → inv r' w'.
Proof.
  intros H [Hf Hi [Hc Hm] Hop Ha Ht Hk Hw _]. unfold identified in *. split; unfold identified; rewrite ?Hf, ?Ha, ?Hc, ?Hm; try done.
  - eapply fq_keeps; [apply (v_fq _ _ H)|done].
  - apply (v_anonymous _ _ H).
  - apply (v_out _ _ H).
  - intros q Hq Hcq. apply Hw. by apply (v_whole _ _ H).
  - eapply rids_keeps; [apply (v_rids _ _ H)|done].
Qed.

(** The probe message. *)
Lemma probe_ok p r w : inv r w → ¬ identified r p → inv r (out_flush p (out_write p empty_msg w).2) ∧
  content (out_flush p (out_write p empty_msg w).2) p = content w p ∧
  (whole is_more (written w p) → whole is_more (written (out_flush p (out_write p empty_msg w).2) p)).
Proof.
  intros H Hp. assert (Hc : ∀ q, content (out_flush p (out_write p empty_msg w).2) q = content w q).
  { intros q. by rewrite out_flush_content, out_write_content. }
  split_and!; [|done|].
  - apply (inv_world r w); [done|by apply same_keeps|]. intros q Hq _. rewrite out_flush_written, out_write_written.
    rewrite (bool_decide_eq_false_2 (q = p)) by (by intros ->). by rewrite andb_false_r.
  - rewrite out_flush_written, out_write_written. destruct (_ && _); [|done]. intros _. by apply whole_snoc.
Qed.

Lemma router_xattach_ok p loc r w : inv r w → ¬ identified r p → p ∉ anonymous_pipes (names r) →
  handshake_ok (content w p) → whole is_more (written w p) → can_name loc r →
  ∃ r' w', xattach_pipe p loc r w = Some (r', w') ∧ inv r' w'.
Proof.
  intros H Hp Hpa Hhs Hw Hcn. unfold xattach_pipe.
  set (w1 := if probe_router (opts r) then _ else w).
  assert (inv r w1 ∧ content w1 p = content w p ∧ (whole is_more (written w p) → whole is_more (written w1 p))) as (H1 & Hc1 & Hw1).
  { unfold w1. destruct (probe_router (opts r)); [by apply probe_ok|done]. }
  destruct (identify_ok p loc r w1 H1 Hp) as (b & r' & w' & -> & He); [by rewrite Hc1|done|]. cbn [mbind option_bind].
  destruct b.
  - destruct (attach_ok p r r' r' w1 w' H1 Hp He) as (f & -> & Hf); try done; [|by auto|by do 2 eexists].
    rewrite (e_anonymous _ _ _ _ _ _ He). intros q Hq. split; [done|]. by intros ->.
  - do 2 eexists. split; [done|]. pose proof (identifies_inv _ _ _ _ _ H1 He) as [Hf Ht Han Ho Hwh Hin Hr].
    split; try done; [destruct Ht; by split|]. cbn. intros q [Hq%elem_of_singleton|Hq]%elem_of_union; [|by apply Han].
    subst q. unfold identified. cbn. by rewrite (e_fq _ _ _ _ _ _ He).
Qed.

Lemma read_anonymous_ok p r w : inv r w → p ∈ anonymous_pipes (names r) →
  handshake_ok (content w p) → whole is_more (written w p) → can_name false r →
  ∃ r' w', xread_activated p r w = Some (r', w') ∧ inv r' w'.
Proof.
  intros H Hp Hhs Hw Hcn. pose proof (v_anonymous _ _ H p Hp) as Hnp. unfold xread_activated. rewrite bool_decide_eq_true_2 by done. cbn [negb].
  destruct (identify_ok p false r w H Hnp Hhs Hcn) as (b & r' & w' & -> & He). cbn [mbind option_bind]. destruct b.
  - destruct (attach_ok p r r' (set_anonymous (anonymous_pipes (names r') ∖ {[p]}) r') w w' H Hnp He) as (f & -> & Hf); try done.
    + cbn. set_solver.
    + by do 2 eexists.
  - do 2 eexists. split; [done|]. by eapply identifies_inv.
Qed.

Lemma read_activated_ok p k r w : inv r w → pipes_of r !! k = Some p → (Fq.active (fq (inb r)) ≤ k)%nat →
  ∃ r', xread_activated p r w = Some (r', w) ∧ inv r' w.
Proof.
  intros H Hk Hge. assert (Hp : identified r p) by (by eapply list_elem_of_lookup_2). unfold xread_activated.
  rewrite bool_decide_eq_false_2 by (intros Ha; by apply (v_anonymous _ _ H p)). cbn [negb].
  destruct (Fq.fq_activated_inv is_more p k _ w (v_fq _ _ H) Hk Hge) as (f & -> & Hf & Hm & Hit & Hcur & _).
  cbn [mbind option_bind]. eexists. split; [done|]. unfold set_fq. apply (inv_inbound r _ w); [done| |done| |done|done].
  - apply in_ok_fq; [apply H|done..|]. intros q _ _. apply Hit.
  - intros q Hq%Hit. cbn [fq]. rewrite (midway_same (fq (inb r)) f q Hm Hcur). by apply (v_rids _ _ H).
Qed.

Lemma write_activated_ok p id r w : inv r w → out_pipes (outb r) !! id = Some (p, false) →
  ∃ r', base_xwrite_activated p r = Some r' ∧ inv r' w.
Proof.
  intros H Hid. unfold base_xwrite_activated. pose proof (v_table _ _ H) as Ht.
  destruct (list_find (λ e, e.2.1 = p) (map_to_list (out_pipes (outb r)))) as [[i [id' [q a]]]|] eqn:Hf.
  - apply list_find_Some in Hf as (Hi & Hq & _). cbn in Hq. subst q.
    assert (Hid' : out_pipes (outb r) !! id' = Some (p, a)) by (apply elem_of_map_to_list; by eapply list_elem_of_lookup_2).
    destruct (t_table _ _ Ht _ _ _ Hid) as [_ H1]. destruct (t_table _ _ Ht _ _ _ Hid') as [_ H2].
    assert (id' = id) as -> by congruence. rewrite Hid in Hid'. injection Hid' as <-.
    cbn [mbind option_bind zmq_assert negb]. eexists. split; [done|].
    apply (inv_outb r _ w); [done|by apply (table_flag _ r id p false)| | |by apply same_keeps].
    + apply (v_out _ _ H).
    + apply (v_whole _ _ H).
  - apply list_find_None in Hf. rewrite Forall_forall in Hf. exfalso. apply (Hf (id, (p, false))); [|done].
    by apply elem_of_map_to_list.
Qed.

(** Terminating an identified pipe: see [Fq.can_terminate]; the pipe being read
    must not be waiting for its end (see [router_defects]). *)
Definition can_end (r : router) (p : Z) : Prop :=
  p ∈ anonymous_pipes (names r) ∨
  (∃ k, Fq.can_terminate (fq (inb r)) p k) ∧ ¬ (current_in (inb r) = Some p ∧ terminate_current_in (inb r) = true).

Lemma table_delete r p : table_ok (identified r) r → identified r p →
  table_ok (λ q, identified r q ∧ q ≠ p) (set_out_pipes (delete (get_routing_id p r) (out_pipes (outb r))) r).
Proof.
  intros [H1 H2] Hp. destruct (H1 p Hp) as [b Hb]. split; cbn.
  - intros q [Hq Hqp]. destruct (H1 q Hq) as [a Ha]. exists a. change (get_routing_id q (set_out_pipes _ r)) with (get_routing_id q r).
    rewrite lookup_delete_ne; [done|]. intros Heq. rewrite <- Heq in Ha. congruence.
  - intros id q a [Hne Hq]%lookup_delete_Some. change (get_routing_id q (set_out_pipes _ r)) with (get_routing_id q r).
    destruct (H2 _ _ _ Hq) as [Hid Hqid]. split_and!; [done| |done]. intros ->. congruence.
Qed.

Lemma terminated_ok p r w : inv r w → can_end r p →
  ∃ r' w', xpipe_terminated p r w = Some (r', w') ∧ inv r' w'.
Proof.
  intros H Hc. unfold xpipe_terminated. case_bool_decide as Ha.
  { do 2 eexists. split; [done|]. destruct H as [Hf Ht Han Ho Hwh Hin Hr].
    split; try done; [destruct Ht; by split|]. cbn. intros q [Hq _]%elem_of_difference. by apply Han. }
  destruct Hc as [?|[[k Hk] Hne]]; [done|]. pose proof (v_table _ _ H) as Ht.
  assert (Hp : identified r p) by (destruct Hk as [Hk _]; by eapply list_elem_of_lookup_2).
  destruct (t_ids _ _ Ht p Hp) as [b Hb]. unfold erase_out_pipe, has_out_pipe.
  rewrite bool_decide_eq_true_2 by eauto. cbn [zmq_assert mbind option_bind].
  set (r1 := set_out_pipes _ r). pose proof (table_delete r p Ht Hp) as Ht1. fold r1 in Ht1.
  destruct (Fq.fq_terminated_inv is_more p k _ w (v_fq _ _ H) Hk) as (f & Heq & Hf & Hm & Hit & Hcur).
  change (fq (inb r1)) with (fq (inb r)). rewrite Heq. cbn [mbind option_bind]. do 2 eexists. split; [done|].
  set (c := if bool_decide (current_out (outb r) = Some p) then None else current_out (outb r)).
  set (r2 := with_outb (Outb c (more_out (outb r)) (out_pipes (outb r1))) (set_fq f r1)).
  assert (Hr2 : (if bool_decide (current_out (outb (set_fq f r1)) = Some p)
                 then set_out None (more_out (outb (set_fq f r1))) (set_fq f r1) else set_fq f r1) = r2).
  { unfold r2, c. change (current_out (outb (set_fq f r1))) with (current_out (outb r)). by case_bool_decide. }
  rewrite Hr2. assert (Hid : ∀ q, identified r2 q ↔ identified r q ∧ q ≠ p) by apply Hit.
  assert (Hcq : ∀ q, c = Some q → current_out (outb r) = Some q ∧ q ≠ p).
  { intros q Hq. unfold c in Hq. destruct (decide (current_out (outb r) = Some p)) as [Hco|Hco].
    - by rewrite bool_decide_eq_true_2 in Hq.
    - rewrite bool_decide_eq_false_2 in Hq by done. split; [done|]. congruence. }
  assert (Hk1 : keeps f w (out_rollback p w)) by (apply same_keeps; intros q; by rewrite out_rollback_content).
  split.
  - by eapply fq_keeps.
  - destruct Ht1 as [H1 H2]. split; [intros q Hq%Hid; by apply H1|]. intros id q a Hq. rewrite Hid. by apply (H2 id q a).
  - intros q Hq Hi%Hid. destruct Hi as [Hi _]. by apply (v_anonymous _ _ H q).
  - cbn. intros q [Hq Hqp]%Hcq. destruct (v_out _ _ H q Hq). split; [done|]. by apply Hid.
  - cbn. intros q [Hq Hqp]%Hid Hcn. rewrite out_rollback_other by done. apply (v_whole _ _ H q Hq).
    intros Hcr. apply Hcn. unfold c. rewrite bool_decide_eq_false_2; [done|]. congruence.
  - apply (in_ok_fq (inb r) f); [apply H|done|done|]. intros q Hti Hq Hqi. apply Hit. split; [done|]. intros ->. by apply Hne.
  - eapply (rids_keeps f w); [|done]. intros q Hq. rewrite (midway_same (fq (inb r)) f q Hm Hcur).
    apply (v_rids _ _ H). by apply Hit in Hq as [? _].
Qed.

(** ** All the behaviours

    A step of the socket, or of its peers, which write whole messages and their
    routing ids between them. *)
Inductive step : router * W → router * W → Prop :=
| s_attach r w p loc r' w' :
    ¬ identified r p → p ∉ anonymous_pipes (names r) → handshake_ok (content w p) → whole is_more (written w p) →
    can_name loc r → xattach_pipe p loc r w = Some (r', w') → step (r, w) (r', w')
| s_read_anonymous r w p r' w' :
    p ∈ anonymous_pipes (names r) → handshake_ok (content w p) → whole is_more (written w p) → can_name false r →
    xread_activated p r w = Some (r', w') → step (r, w) (r', w')
| s_read r w p k r' w' :
    pipes_of r !! k = Some p → (Fq.active (fq (inb r)) ≤ k)%nat → xread_activated p r w = Some (r', w') →
    step (r, w) (r', w')
| s_write r w p id r' :
    out_pipes (outb r) !! id = Some (p, false) → base_xwrite_activated p r = Some r' → step (r, w) (r', w)
| s_terminated r w p r' w' : can_end r p → xpipe_terminated p r w = Some (r', w') → step (r, w) (r', w')
| s_send r w m rc r' w' :
    (raw_socket (opts r) = true → p_data m = [] → Fq.more (fq (inb r)) = false) →
    xsend m r w = Some (rc, r', w') → step (r, w) (r', w')
| s_recv r w fuel rc om r' w' :
    (avail w (pipes_of r) < fuel)%nat → xrecv fuel r w = Some (rc, om, r', w') → step (r, w) (r', w')
| s_has_in r w fuel b r' w' :
    (avail w (pipes_of r) < fuel)%nat → xhas_in fuel r w = Some (b, r', w') → step (r, w) (r', w')
| s_option r w o v rc r' : xsetsockopt o v r = (rc, r') → step (r, w) (r', w)
| s_arrive r w w' :
    (∀ q, identified r q → written w' q = written w q ∧
       ∃ l, content w' q = content w q ++ l ∧ whole is_more l ∧ rids_ok false l) →
    step (r, w) (r, w').

Definition reachable (random : Z) (w0 : W) (st : router * W) : Prop := rtc step (router_new random, w0) st.

Lemma send_ok m r w : inv r w → (raw_socket (opts r) = true → p_data m = [] → Fq.more (fq (inb r)) = false) →
  ∃ rc r' w', xsend m r w = Some (rc, r', w') ∧ inv r' w'.
Proof.
  intros H Hr. destruct (more_out (outb r)) eqn:Hm.
  - destruct (send_body_ok m r w H Hm Hr) as (r' & w' & Heq & Hi & _). eauto.
  - destruct (send_prefix_ok m r w H Hm) as (rc & r' & w' & Heq & Hi & _). eauto.
Qed.

Lemma recv_any fuel r w : inv r w → (avail w (pipes_of r) < fuel)%nat →
  ∃ rc om r' w', xrecv fuel r w = Some (rc, om, r', w') ∧ inv r' w'.
Proof.
  intros H Hf. destruct (prefetched (inb r)) eqn:Hp.
  { destruct (xrecv_prefetched fuel r w H Hp) as (i' & w' & Heq & Hi & _). eauto 6. }
  destruct (more_in (inb r)) eqn:Hm.
  - destruct (n_busy _ (v_in _ _ H) (or_intror Hm)) as [p Hc].
    destruct (xrecv_middle fuel r w p H Hf Hp Hm Hc) as (m & i' & w1 & w' & Heq & Hi & _). eauto 6.
  - destruct (xrecv_idle fuel r w H Hf Hp Hm) as (res & f' & w' & sk & _ & _ & _ & _ & _ & Hres).
    destruct res as [[m p]|]; [destruct Hres as (Heq & Hi & _)|destruct Hres as (Heq & Hi & _)]; eauto 6.
Qed.

Lemma has_in_any fuel r w : inv r w → (avail w (pipes_of r) < fuel)%nat →
  ∃ b r' w', xhas_in fuel r w = Some (b, r', w') ∧ inv r' w'.
Proof.
  intros H Hf. destruct (more_in (inb r)) eqn:Hm; [unfold xhas_in; rewrite Hm; eauto|].
  destruct (prefetched (inb r)) eqn:Hp; [unfold xhas_in; rewrite Hm, Hp; eauto|].
  destruct (xrecv_idle fuel r w H Hf Hp Hm) as (res & f' & w' & sk & _ & _ & _ & _ & _ & Hres).
  destruct res as [[m p]|]; [destruct Hres as (_ & _ & Heq & Hi)|destruct Hres as (_ & _ & Heq & Hi)]; eauto 6.
Qed.

(** The options are not in the invariant. *)
Lemma inv_options r w n o : inv r w → anonymous_pipes n = anonymous_pipes (names r) → routing_ids n = routing_ids (names r) →
  inv (Router (inb r) (outb r) n o) w.
Proof.
  intros [Hf Ht Ha Ho Hw Hi Hr] Hna Hnr. split; try done; cbn; rewrite ?Hna; [|done].
  destruct Ht as [H1 H2]. split; unfold get_routing_id; cbn; rewrite Hnr; [apply H1|apply H2].
Qed.

Lemma option_ok o v r w rc r' : inv r w → xsetsockopt o v r = (rc, r') → inv r' w.
Proof.
  intros H Ho. unfold xsetsockopt, base_xsetsockopt in Ho. repeat case_match; simplify_eq; try done; by apply inv_options.
Qed.

Lemma router_step_inv r w r' w' : inv r w → step (r, w) (r', w') → inv r' w'.
Proof.
  intros H Hs. inversion Hs; subst; clear Hs.
  - destruct (router_xattach_ok p loc r w H) as (r1 & w1 & Heq & Hi); [done..|]. by simplify_eq.
  - destruct (read_anonymous_ok p r w H) as (r1 & w1 & Heq & Hi); [done..|]. by simplify_eq.
  - destruct (read_activated_ok p k r w H) as (r1 & Heq & Hi); [done..|]. by simplify_eq.
  - destruct (write_activated_ok p id r w' H) as (r1 & Heq & Hi); [done|]. by simplify_eq.
  - destruct (terminated_ok p r w H) as (r1 & w1 & Heq & Hi); [done|]. by simplify_eq.
  - destruct (send_ok m r w H) as (rc1 & r1 & w1 & Heq & Hi); [done|]. by simplify_eq.
  - destruct (recv_any fuel r w H) as (rc1 & om1 & r1 & w1 & Heq & Hi); [done|]. by simplify_eq.
  - destruct (has_in_any fuel r w H) as (b1 & r1 & w1 & Heq & Hi); [done|]. by simplify_eq.
  - by eapply option_ok.
  - match goal with Hl : ∀ q, identified _ q → _ |- _ => rename Hl into Harr end.
    pose proof H as [Hf Ht Ha Ho Hw Hi Hr]. split; try done.
    + eapply fq_inv_arrive; [done|]. intros q Hq. destruct (Harr q Hq) as [_ (l & Hl & Hwl & _)]. by exists l.
    + intros q Hq Hc. destruct (Harr q Hq) as [-> _]. auto.
    + intros q Hq. destruct (Harr q Hq) as [_ (l & -> & _ & Hrl)]. apply rids_ok_app; [by apply Hr|done|by apply (Fq.i_whole _ _ _ Hf)|].
      intros Hn. unfold midway. destruct (Fq.more (fq (inb r'))) eqn:Hm; [|done]. apply bool_decide_eq_false_2. intros Hcq.
      destruct (Fq.i_more _ _ _ Hf Hm) as (q' & _ & Hq' & Hne). congruence.
Qed.

Lemma router_reachable_inv random w0 r w : reachable random w0 (r, w) → inv r w.
Proof.
  intros Hr. refine (rtc_ind_r (λ st, inv st.1 st.2) _ _ _ _ Hr).
  - apply router_inv_new.
  - intros [r1 w1] [r2 w2] _ Hs H1. by eapply router_step_inv.
Qed.

(** ** Sending a whole message *)

Fixpoint send_parts (ms : list part) (r : router) (w : W) : option (router * W) :=
  match ms with
  | [] => Some (r, w)
  | m :: ms => '(rc, r, w) ← xsend m r w; _ ← zmq_assert (bool_decide (rc = RcOk)); send_parts ms r w
  end.

Definition refuses (p : Z) : Prop := ∃ m w, (out_write p m w).1 = false.

Lemma unfinished_snoc (a s : list part) l m : l ++ [m] = a ++ s → is_more m = true → unfinished is_more s → whole is_more a →
  ∃ s', unfinished is_more s' ∧ l = a ++ s'.
Proof.
  intros Heq Hm Hs Ha. destruct s as [|x s _] using rev_ind.
  - rewrite app_nil_r in Heq. subst a. specialize (Ha m). rewrite last_snoc in Ha. by rewrite Ha in Hm.
  - rewrite app_assoc in Heq. apply app_inj_tail in Heq as [-> _]. exists s. split; [|done]. by apply Forall_app in Hs as [? _].
Qed.

Lemma rest_sent ms : ∀ r w, inv r w → more_out (outb r) = true → opt_raw_socket (opts r) = false → raw_socket (opts r) = false →
  one_message ms → ∃ r' w', send_parts ms r w = Some (r', w') ∧ inv r' w' ∧ more_out (outb r') = false ∧ inb r' = inb r ∧
    (∀ q, content w' q = content w q) ∧
    match current_out (outb r) with
    | Some p =>
        (∀ q, q ≠ p → written w' q = written w q) ∧
        (written w' p = written w p ++ ms ∨
         refuses p ∧ ∃ s, unfinished is_more s ∧ written w p = written w' p ++ s ∧ whole is_more (written w' p))
    | None => ∀ q, written w' q = written w q
    end.
Proof.
  induction ms as [|m ms IH]; [done|]. intros r w H Hm Ho Hr Hone. cbn [send_parts].
  destruct (send_body_ok m r w H Hm) as (r1 & w1 & -> & H1 & Hop & _ & Hin & Hm1 & _ & Hc); [congruence|].
  rewrite Ho in Hm1, Hc. cbn [mbind option_bind]. rewrite bool_decide_eq_true_2 by done. cbn [zmq_assert mbind option_bind].
  cbn [one_message] in Hone. destruct (is_more m) eqn:Hmm.
  - destruct (IH r1 w1 H1 Hm1 ltac:(by rewrite Hop) ltac:(by rewrite Hop) Hone) as (r' & w' & -> & H' & Hm' & Hin' & Hcont & Hc').
    exists r', w'. split_and!; [done..|by rewrite Hin'| |].
    { intros q. rewrite Hcont. destruct (current_out (outb r)) as [p|]; [by destruct Hc as [_ [-> _]%(λ f, f Hr)]|by destruct Hc as [_ ->]]. }
    destruct (current_out (outb r)) as [p|].
    + destruct Hc as [Hoth [_ Hw]%(λ f, f Hr)]. destruct (out_write p m w).1 eqn:Hok.
      * destruct Hw as [Hw Hcur]. rewrite Hcur in Hc'. destruct Hc' as [Hoth' Hp].
        split; [intros q Hq; by rewrite Hoth', Hoth|]. destruct Hp as [Hp|[Href (s & Hs & Hp & Hwh)]].
        -- left. by rewrite Hp, Hw, <- app_assoc.
        -- right. split; [done|]. rewrite Hw in Hp.
           destruct (unfinished_snoc _ _ _ _ Hp Hmm Hs Hwh) as (s' & Hs' & Hl'). by exists s'.
      * destruct Hw as (Hcur & s & Hs & Hw & Hwh). rewrite Hcur in Hc'. split; [intros q Hq; by rewrite Hc', Hoth|].
        right. split; [by exists m, w|]. exists s. by rewrite !Hc'.
    + destruct Hc as [Hcur ->]. by rewrite Hcur in Hc'.
  - subst ms. exists r1, w1. split_and!; [done..| |].
    { intros q. destruct (current_out (outb r)) as [p|]; [by destruct Hc as [_ [-> _]%(λ f, f Hr)]|by destruct Hc as [_ ->]]. }
    destruct (current_out (outb r)) as [p|]; [|by destruct Hc as [_ ->]].
    destruct Hc as [Hoth [_ Hw]%(λ f, f Hr)]. split; [done|]. destruct (out_write p m w).1 eqn:Hok.
    + by left; destruct Hw.
    + right. split; [by exists m, w|]. destruct Hw as (_ & s & Hs & Hw & Hwh). by exists s.
Qed.

(** Nothing is written. *)
Definition silent (w w' : W) : Prop := ∀ q, written w' q = written w q.

(** Sending the id and the parts: to the pipe [p], or to nobody. *)
Definition routed (r : router) (w : W) (ms : list part) (to : option Z) : Prop :=
  ∃ r' w', send_parts ms r w = Some (r', w') ∧ inv r' w' ∧ more_out (outb r') = false ∧ inb r' = inb r ∧
    (∀ q, content w' q = content w q) ∧
    match to with
    | Some p =>
        (∀ q, q ≠ p → written w' q = written w q) ∧
        (written w' p = written w p ++ tail ms ∨ refuses p ∧ written w' p = written w p)
    | None => silent w w'
    end.

(** Refusing the id, without any effect. *)
Definition refused (r : router) (w : W) (m : part) (e : errno) : Prop :=
  ∃ r' w', xsend m r w = Some (RcErr e, r', w') ∧ inv r' w' ∧ more_out (outb r') = false ∧ inb r' = inb r ∧ silent w w'.

Lemma routes_ok r w id md ms : inv r w → more_out (outb r) = false → opt_raw_socket (opts r) = false →
  raw_socket (opts r) = false → one_message ms →
  let first := Part id Msg.more md in
  match out_pipes (outb r) !! id with
  | Some (p, _) =>
      if (out_check_write p w).1 then routed r w (first :: ms) (Some p)
      else if mandatory (opts r)
      then refused r w first (if out_check_hwm p (out_check_write p w).2 then EHOSTUNREACH else EAGAIN)
      else routed r w (first :: ms) None
  | None => if mandatory (opts r) then refused r w first EHOSTUNREACH else routed r w (first :: ms) None
  end.
Proof.
  intros H Hm Ho Hr Hone first. destruct (idle_out r w H Hm) as [_ Hwh].
  destruct (send_prefix_ok first r w H Hm) as (rc & r1 & w1 & Heq & H1 & Hop & _ & Hin1 & Hw1 & Hc1 & Hres).
  change (is_more first) with true in Hres. change (p_data first) with id in Hres.
  assert (Hgo : ∀ to, rc = RcOk → more_out (outb r1) = true → current_out (outb r1) = to →
    match to with Some p => identified r p | None => True end → routed r w (first :: ms) to).
  { intros to -> Hm1 Hto Hid. destruct (rest_sent ms r1 w1 H1 Hm1) as (r' & w' & Hs & H' & Hm' & Hin' & Hc' & Hres'); [congruence..|done|].
    exists r', w'. cbn [send_parts]. rewrite Heq. cbn [mbind option_bind]. rewrite bool_decide_eq_true_2 by done. cbn [zmq_assert mbind option_bind].
    split_and!; [done..|congruence|intros q; by rewrite Hc', Hc1|]. rewrite Hto in Hres'. destruct to as [p|].
    - destruct Hres' as [Hoth Hp]. split; [intros q Hq; by rewrite Hoth|]. rewrite Hw1 in Hp.
      destruct Hp as [Hp|(Href & s & Hs' & Hp & _)]; [by left|right]. split; [done|].
      pose proof (Hwh p Hid) as Hwp. rewrite Hp in Hwp. rewrite (whole_unfinished _ _ Hwp Hs'), app_nil_r in Hp. done.
    - intros q. by rewrite Hres'. }
  destruct (out_pipes (outb r) !! id) as [[p a]|] eqn:Hid.
  - destruct (t_table _ _ (v_table _ _ H) _ _ _ Hid) as [Hidp _]. destruct (out_check_write p w).1.
    + destruct Hres as (? & ? & ?). by apply Hgo.
    + destruct Hres as [Hc Hres]. destruct (mandatory (opts r)).
      * destruct Hres as [? ->]. by exists r1, w1.
      * destruct Hres as [? ?]. by apply Hgo.
  - destruct Hres as [Hc Hres]. destruct (mandatory (opts r)).
    + destruct Hres as [? ->]. by exists r1, w1.
    + destruct Hres as [? ?]. by apply Hgo.
Qed.


(** ** Receiving a whole message *)

Fixpoint recv_parts (fuel n : nat) (r : router) (w : W) : option (list part * router * W) :=
  match n with
  | O => Some ([], r, w)
  | S n =>
      '(_, om, r, w) ← xrecv fuel r w;
      m ← om;
      '(ms, r, w) ← recv_parts fuel n r w;
      Some (m :: ms, r, w)
  end.

Lemma avail_pipes r r' w w' : inv r w → inv r' w' → (∀ q, q ∈ pipes_of r' ↔ q ∈ pipes_of r) →
  ∀ w2, avail w2 (pipes_of r') = avail w2 (pipes_of r).
Proof.
  intros H H' Hit w2. apply avail_perm; [| |done].
  - apply (ok_nodup _ (Fq.i_ok _ _ _ (v_fq _ _ H'))).
  - apply (ok_nodup _ (Fq.i_ok _ _ _ (v_fq _ _ H))).
Qed.

(** The pipe of the message being received. *)
Lemma current_pipe r w p : inv r w → prefetched (inb r) = false → more_in (inb r) = true → current_in (inb r) = Some p →
  p ∈ pipes_of r.
Proof.
  intros H Hp Hm Hc. pose proof (v_in _ _ H) as Hin. pose proof (n_fetch _ Hin) as Hmf. rewrite Hp, Hm in Hmf.
  pose proof (n_current _ Hin Hmf) as Hcu. rewrite Hc in Hcu. by eapply list_elem_of_lookup_2.
Qed.

(** The router is reading a message of [p]: it returns the parts [l] next. *)
Definition reading (fuel : nat) (p : Z) (l : list part) (r : router) (w : W) : Prop :=
  inv r w ∧ (avail w (pipes_of r) < fuel)%nat ∧ terminate_current_in (inb r) = false ∧ current_in (inb r) = Some p ∧
  (prefetched (inb r) = true ∧ routing_id_sent (inb r) = true ∧ l = prefetched_msg (inb r) :: content w p ∨
   prefetched (inb r) = false ∧ more_in (inb r) = true ∧ l = content w p).

Lemma reading_step fuel p l r w : reading fuel p l r w →
  ∃ m l' i w', l = m :: l' ∧ xrecv fuel r w = Some (RcOk, Some m, with_inb i r, w') ∧ inv (with_inb i r) w' ∧ silent w w' ∧
    content w' p = l' ∧ (∀ q, q ≠ p → content w' q = content w q) ∧
    if is_more m then reading fuel p l' (with_inb i r) w' else prefetched i = false ∧ more_in i = false.
Proof.
  intros (H & Hf & Ht & Hc & [(Hp & Hs & ->)|(Hp & Hm & ->)]).
  - destruct (xrecv_prefetched fuel r w H Hp) as (i & w1 & Heq & H1 & Hfq & Hmi & Hpi & _ & Hti & _).
    rewrite Hs in *. destruct (Hti Ht) as [-> Hti']. cbn [negb] in Hpi. set (m := prefetched_msg (inb r)) in *.
    exists m, (content w p), i, w. split_and!; [done..|]. destruct (is_more m) eqn:Hmm; [|done].
    assert (Hci : current_in i = Some p).
    { pose proof (v_in _ _ H) as Hin. pose proof (n_fetch _ Hin) as Hmf. rewrite Hp in Hmf. fold m in Hmf. rewrite Hmm in Hmf.
      pose proof (n_current _ (v_in _ _ H1)) as Hcu. cbn in Hcu. rewrite Hcu, Hfq, <- Hc by (by rewrite Hfq). symmetry. by apply n_current. }
    split_and!; [done| |done|done|by right]. unfold pipes_of. cbn. by rewrite Hfq.
  - destruct (xrecv_middle fuel r w p H Hf Hp Hm Hc) as (m & i & w1 & w2 & Heq & H1 & Hcp & Hco & Hpi & Hmi & Hci & Hit & _ & Hti & Hwr).
    destruct (Hti Ht) as [-> Hti']. exists m, (content w1 p), i, w1. split_and!; [done..|exact (Hwr Ht)|done|done|].
    destruct (is_more m) eqn:Hmm; [|done]. split_and!; [done| |done|by apply Hci|by right].
    rewrite (avail_pipes r (with_inb i r) w w1 H H1 Hit).
    assert (avail w1 (pipes_of r) ≤ avail w (pipes_of r))%nat; [|lia]. apply avail_mono. intros q Hq.
    destruct (decide (q = p)) as [->|Hqp]; [rewrite Hcp; cbn; lia|by rewrite Hco].
Qed.

(** Sending does not disturb it. *)
Lemma reading_out fuel p l r r' w w' : reading fuel p l r w → inv r' w' → inb r' = inb r →
  (∀ q, content w' q = content w q) → reading fuel p l r' w'.
Proof.
  intros (H & Hf & Ht & Hc & Hl) H' Hi Hco. unfold reading, pipes_of. rewrite Hi, Hco. split_and!; [done| |done..].
  by rewrite (avail_ext w w').
Qed.

(** The whole message. *)
Lemma recv_reading fuel p n : ∀ l r w, reading fuel p l r w → (length l ≤ n)%nat →
  ∃ ms r' w', one_message ms ∧ recv_parts fuel (length ms) r w = Some (ms, r', w') ∧
    prefetched (inb r') = false ∧ more_in (inb r') = false ∧ silent w w' ∧
    l = ms ++ content w' p ∧ (∀ q, q ≠ p → content w' q = content w q).
Proof.
  induction n as [|n IH]; intros l r w Hr Hn;
    destruct (reading_step _ _ _ _ _ Hr) as (m & l' & i & w1 & -> & Heq & H1 & Hs1 & Hcp & Hco & Hm); cbn in Hn; [lia|].
  destruct (is_more m) eqn:Hmm.
  - destruct (IH l' _ w1 Hm) as (ms & r' & w' & Hone & Hrp & Hp & Hmi & Hs & -> & Ho); [lia|].
    exists (m :: ms), r', w'. split_and!; [cbn; by rewrite Hmm| |done|done|intros q; by rewrite Hs|done|].
    + cbn [length recv_parts]. rewrite Heq. cbn [mbind option_bind]. by rewrite Hrp.
    + intros q Hq. by rewrite Ho, Hco.
  - exists [m], (with_inb i r), w1. destruct Hm. split_and!; [cbn; by rewrite Hmm| |done..| |done].
    + cbn [length recv_parts]. by rewrite Heq.
    + by rewrite Hcp.
Qed.

(** Nothing to receive: the routing ids [sk] were passed over and every pipe
    that was active is drained. *)
Definition drained (r : router) (w w' : W) (sk : Z → list part) : Prop :=
  (∀ q, content w q = sk q ++ content w' q) ∧ ∀ q, Fq.is_active (fq (inb r)) q → content w' q = [].

(** A message [ms] of [p] was received, with the id [id] before it. *)
Definition delivered (fuel : nat) (id : part) (ms : list part) (p : Z) (r : router) (w0 w : W) (sk : Z → list part) : Prop :=
  ∃ r' w', recv_parts fuel (S (length ms)) r w = Some (id :: ms, r', w') ∧
    prefetched (inb r') = false ∧ more_in (inb r') = false ∧ (∀ q, written w' q = written w0 q) ∧
    content w0 p = sk p ++ ms ++ content w' p ∧ (∀ q, q ≠ p → content w0 q = sk q ++ content w' q).

Lemma deliver_ok fuel id m p r rs w w0 w1 sk : reading fuel p (m :: content w1 p) rs w1 →
  xrecv fuel r w0 = Some (RcOk, Some id, rs, w1) → (∀ q, written w1 q = written w q) →
  content w p = sk p ++ m :: content w1 p → (∀ q, q ≠ p → content w q = sk q ++ content w1 q) →
  ∃ ms rest, one_message (m :: ms) ∧ content w1 p = ms ++ rest ∧ delivered fuel id (m :: ms) p r w w0 sk.
Proof.
  intros Hr Hx Hw Hcp Hco.
  destruct (recv_reading fuel p _ _ _ _ Hr (le_n _)) as (ms' & r' & w' & Hone & Hrp & Hpf & Hmi & Hww & Hcont & Hoo).
  destruct ms' as [|m' ms]; [done|]. injection Hcont as <- Hcont.
  exists ms, (content w' p). split_and!; [done..|]. exists r', w'. split_and!; [|done|done| | |].
  - change (recv_parts fuel (S (length (m :: ms))) r w0) with
      ('(_, om, r, w) ← xrecv fuel r w0; m0 ← om; '(ms0, r, w) ← recv_parts fuel (length (m :: ms)) r w; Some (m0 :: ms0, r, w)).
    rewrite Hx. cbn [mbind option_bind]. by rewrite Hrp.
  - intros q. by rewrite Hww, Hw.
  - by rewrite Hcp, Hcont.
  - intros q Hq. by rewrite Hco, Hoo.
Qed.

Lemma receives_ok r w fuel : inv r w → (avail w (pipes_of r) < fuel)%nat →
  prefetched (inb r) = false → more_in (inb r) = false →
  ∃ sk, (∀ q, Forall (λ m, is_routing_id m = true) (sk q)) ∧
  ((∃ r' r2 w', xrecv fuel r w = Some (RcErr EAGAIN, None, r', w') ∧ xhas_in fuel r w = Some (false, r2, w') ∧
      drained r w w' sk) ∨
   (∃ p m ms, identified r p ∧ is_routing_id m = false ∧ one_message (m :: ms) ∧
      delivered fuel (Part (get_routing_id p r) Msg.more (p_meta m)) (m :: ms) p r w w sk ∧
      ∃ r2 w2, xhas_in fuel r w = Some (true, r2, w2) ∧
        delivered fuel (Part (get_routing_id p r) Msg.more None) (m :: ms) p r2 w w2 sk)).
Proof.
  intros H Hf Hp Hm. pose proof (v_in _ _ H) as Hin.
  assert (Hti : terminate_current_in (inb r) = false).
  { destruct (terminate_current_in (inb r)) eqn:Ht; [|done]. destruct (n_term _ Hin Ht) as (p & ? & _).
    pose proof (n_idle _ Hin Hp Hm). congruence. }
  destruct (xrecv_idle fuel r w H Hf Hp Hm) as (res & f' & w1 & sk & _ & Hrec & Hav & Hw1 & Hit & Hres).
  destruct Hrec as [Hsk Hrec]. exists sk. split; [done|]. destruct res as [[m p]|].
  - right. destruct Hrec as (Hpin & Hid & _ & _ & Hc & Ho & _). destruct Hres as (Heq & H1 & Heq2 & H2).
    set (r1 := with_inb _ r) in Heq, H1. set (r2 := with_inb _ r) in Heq2, H2.
    assert (Hav1 : (avail w1 (pipes_of r1) < fuel)%nat) by (rewrite (avail_pipes r r1 w w1 H H1 Hit); lia).
    destruct (deliver_ok fuel _ m p r r1 w w w1 sk ltac:(split_and!; [done..|by left]) Heq Hw1 Hc Ho)
      as (ms & rest & Hone & Hms & Hdel).
    exists p, m, ms. split_and!; [done..|]. exists r2, w1. split; [done|].
    destruct (xrecv_prefetched fuel r2 w1 H2 eq_refl) as (i' & w2 & Heq3 & H3 & _).
    set (i3 := Inb f' true true empty_msg m (Some p) (terminate_current_in (inb r)) true).
    assert (Hx : xrecv fuel r2 w1 = Some (RcOk, Some (Part (get_routing_id p r) Msg.more None), with_inb i3 r2, w1)) by done.
    rewrite Hx in Heq3. injection Heq3 as <- <-. set (r3 := with_inb i3 r2) in *.
    assert (Hav3 : (avail w1 (pipes_of r3) < fuel)%nat) by (rewrite (avail_pipes r r3 w w1 H H3 Hit); lia).
    destruct (deliver_ok fuel _ m p r2 r3 w w1 w1 sk ltac:(split_and!; [done..|by left]) Hx Hw1 Hc Ho)
      as (ms3 & rest3 & Hone3 & Hms3 & Hdel3).
    assert (m :: ms3 = m :: ms) as [= ->]; [|done]. apply (one_message_inj _ _ rest3 rest); [done|done|]. cbn. congruence.
  - left. destruct Hrec as (_ & _ & Hc & Hemp). destruct Hres as (Heq & _ & Heq2 & _). do 3 eexists. split_and!; [done..|]. by split.
Qed.

(** C15. Receiving: between two messages, with enough fuel for the parts that
    wait, [xrecv] and [xhas_in] agree: either they report that there is nothing,
    every active pipe being drained, or the calls of [xrecv] return the routing
    id of an identified pipe and then all the parts of the next message of that
    pipe, in order and uninterrupted.  Nothing else is consumed but the peers'
    routing-id messages, and nothing is written. *)
Theorem router_receives random w0 r w fuel : reachable random w0 (r, w) → (avail w (pipes_of r) < fuel)%nat →
  prefetched (inb r) = false → more_in (inb r) = false →
  ∃ sk, (∀ q, Forall (λ m, is_routing_id m = true) (sk q)) ∧
  ((∃ r' r2 w', xrecv fuel r w = Some (RcErr EAGAIN, None, r', w') ∧ xhas_in fuel r w = Some (false, r2, w') ∧
      drained r w w' sk) ∨
   (∃ p m ms, identified r p ∧ is_routing_id m = false ∧ one_message (m :: ms) ∧
      delivered fuel (Part (get_routing_id p r) Msg.more (p_meta m)) (m :: ms) p r w w sk ∧
      ∃ r2 w2, xhas_in fuel r w = Some (true, r2, w2) ∧
        delivered fuel (Part (get_routing_id p r) Msg.more None) (m :: ms) p r2 w w2 sk)).
Proof. intros Hr. apply receives_ok. by eapply router_reachable_inv. Qed.

(** C16. The router is safe: in every run in which the ids that are needed are
    not in use (see [can_name]), no pipe ends at a bad moment (see [can_end]), a
    raw socket closes no connection in the middle of reading a message, and peers
    write whole messages, the table gives every identified pipe its one id and has
    no other entry, and no operation fails an assertion, goes out of range or uses
    a pipe that is gone. *)
Theorem router_safe random w0 r w : reachable random w0 (r, w) →
  (∀ p, identified r p ↔ ∃ id a, out_pipes (outb r) !! id = Some (p, a)) ∧
  (∀ id id' p a a', out_pipes (outb r) !! id = Some (p, a) → out_pipes (outb r) !! id' = Some (p, a') → id = id') ∧
  (∀ m, (raw_socket (opts r) = true → p_data m = [] → Fq.more (fq (inb r)) = false) → is_Some (xsend m r w)) ∧
  (∀ fuel, (avail w (pipes_of r) < fuel)%nat → is_Some (xrecv fuel r w) ∧ is_Some (xhas_in fuel r w)) ∧
  (∀ p loc, ¬ identified r p → p ∉ anonymous_pipes (names r) → handshake_ok (content w p) → whole is_more (written w p) →
     can_name loc r → is_Some (xattach_pipe p loc r w)) ∧
  (∀ p, p ∈ anonymous_pipes (names r) → handshake_ok (content w p) → whole is_more (written w p) → can_name false r →
     is_Some (xread_activated p r w)) ∧
  (∀ p k, pipes_of r !! k = Some p → (Fq.active (fq (inb r)) ≤ k)%nat → is_Some (xread_activated p r w)) ∧
  (∀ p id, out_pipes (outb r) !! id = Some (p, false) → is_Some (base_xwrite_activated p r)) ∧
  (∀ p, can_end r p → is_Some (xpipe_terminated p r w)).
Proof.
  intros Hr. pose proof (router_reachable_inv _ _ _ _ Hr) as H. destruct (v_table _ _ H) as [H1 H2]. split_and!.
  - intros p. split; [intros Hp; destruct (H1 p Hp); eauto|]. intros (id & a & Hid). by destruct (H2 _ _ _ Hid).
  - intros id id' p a a' Hid Hid'. destruct (H2 _ _ _ Hid) as [_ <-]. by destruct (H2 _ _ _ Hid') as [_ <-].
  - intros m Hm. destruct (send_ok m r w H Hm) as (rc & r' & w' & Heq & _). eauto.
  - intros fuel Hf. destruct (recv_any fuel r w H Hf) as (rc & om & r' & w' & -> & _).
    destruct (has_in_any fuel r w H Hf) as (b & r2 & w2 & -> & _). eauto.
  - intros p loc ? ? ? ? ?. destruct (router_xattach_ok p loc r w H) as (r' & w' & -> & _); eauto.
  - intros p ? ? ? ?. destruct (read_anonymous_ok p r w H) as (r' & w' & -> & _); eauto.
  - intros p k Hk Hge. destruct (read_activated_ok p k r w H Hk Hge) as (r' & -> & _). eauto.
  - intros p id Hid. destruct (write_activated_ok p id r w H Hid) as (r' & -> & _). eauto.
  - intros p Hp. destruct (terminated_ok p r w H Hp) as (r' & w' & -> & _). eauto.
Qed.
End correct.

(** * Runs on pipes that are lists (see [Duo]) *)

Definition world : Type := Duo.duo (M := part).
#[local] Instance world_in : InPipes part world := Duo.duo_in.
#[local] Instance world_out : OutPipes part world := Duo.duo_out SubMsg.is_more.
#[local] Instance world_in_laws : InPipesLaws part world := Duo.duo_in_laws.
#[local] Instance world_out_laws : OutPipesLaws part world SubMsg.is_more := Duo.duo_out_laws SubMsg.is_more.
#[local] Instance world_duplex : DuplexPipes part world SubMsg.is_more := Duo.duo_duplex SubMsg.is_more.
#[local] Instance world_term : TermPipes world := Duo.duo_term SubMsg.is_more.
#[local] Instance world_term_laws : TermPipesLaws part world SubMsg.is_more := Duo.duo_term_laws SubMsg.is_more.

Definition id_part (id : list Z) : part := Part id Msg.routing_id None.
Definition a_part (data : list Z) (more : bool) : part := Part data (if more then 1 else 0) None.

(** What each pipe can read at first. *)
Definition world_of (f : Z → list part) : world := Duo.Two f (λ _, []).

Definition attach_all (ps : list Z) (r : router) (w : world) : option (router * world) :=
  foldl (λ st p, '(r, w) ← st; xattach_pipe p false r w) (Some (r, w)) ps.

(** ** Defects *)

(** Peer 1 calls itself 0,0,0,0,5, which is the next id to be generated. *)
Definition run_collision : option (router * world) :=
  attach_all [1; 2] (router_new 5) (world_of (λ p, if p =? 1 then [id_part [0; 0; 0; 0; 5]] else [id_part []])).

(** With ZMQ_ROUTER_HANDOVER, a message of pipe 1 is prefetched, pipe 2 takes
    the id of pipe 1, and pipe 1 ends. *)
Definition run_handover : option (router * world) :=
  let r := (xsetsockopt ZMQ_ROUTER_HANDOVER [1; 0; 0; 0] (router_new 5)).2 in
  '(r, w) ← xattach_pipe 1 false r
    (world_of (λ p, if p =? 1 then [id_part [65]; a_part [7] false] else [id_part [65]]));
  '(_, r, w) ← xhas_in 10 r w;
  '(r, w) ← xattach_pipe 2 false r w;
  '(r, w) ← xpipe_terminated 1 r w;
  '(_, _, r, w) ← xrecv 10 r w;
  Some (r, w).

(** An id of the reserved kind through ZMQ_CONNECT_ROUTING_ID. *)
Definition run_reserved : option (router * world) :=
  let r := (xsetsockopt ZMQ_CONNECT_ROUTING_ID [0; 0; 0; 0; 5] (router_new 5)).2 in
  '(r, w) ← xattach_pipe 1 true r (world_of (λ _, []));
  xattach_pipe 2 false r (Duo.Two (λ _, [id_part []]) (λ _, [])).

(** Limits of the router.  A peer that announces the next generated id, and
    a ZMQ_CONNECT_ROUTING_ID of that form, make the assertion of
    [add_out_pipe] fail when the next peer without an id comes.  After a
    handover of the pipe whose message was prefetched, [_current_in] still
    points to that pipe when it has ended, and receiving the message
    terminates it once more. *)
Lemma router_defects :
  run_collision = None ∧ run_reserved = None ∧
  ∃ r w, run_handover = Some (r, w) ∧ current_in (inb r) = Some 1 ∧ terminate_current_in (inb r) = true ∧
    pipes_of r = [2] ∧ map_to_list (out_pipes (outb r)) = [([65], (2, true))] ∧
    ∃ m r', xrecv 10 r w = Some (RcOk, Some m, r', pipe_terminate 1 true w).
Proof.
  split_and!; [vm_compute; reflexivity..|]. unfold run_handover.
  do 2 eexists. split_and!; [vm_compute; reflexivity..|]. do 2 eexists. vm_compute. reflexivity.
Qed.

(** ** Witnesses: one peer, which calls itself "A" and has sent a message. *)

Definition ex_world : world := world_of (λ p, if p =? 1 then [id_part [65]; a_part [1] true; a_part [2] false] else []).
Definition ex_st : router * world := default (router_new 0, ex_world) (attach_all [1] (router_new 0) ex_world).

Lemma router_ex_reachable : reachable 0 ex_world (ex_st.1, ex_st.2).
Proof.
  eapply rtc_l; [|apply rtc_refl].
  apply (s_attach (router_new 0) ex_world 1 false ex_st.1 ex_st.2); [| | |done|done|vm_compute; reflexivity].
  - intros Hp. by apply not_elem_of_nil in Hp.
  - cbn. set_solver.
  - split_and!.
    + by intros m [= <-].
    + cbn. by split_and!.
    + by intros m [= <-].
Qed.


Lemma router_receives_witness :
  reachable 0 ex_world (ex_st.1, ex_st.2) ∧
  ∃ sk, (∀ q, Forall (λ m, is_routing_id m = true) (sk q)) ∧
   ((∃ r' r2 w', xrecv 10 ex_st.1 ex_st.2 = Some (RcErr EAGAIN, None, r', w') ∧ xhas_in 10 ex_st.1 ex_st.2 = Some (false, r2, w') ∧
       drained ex_st.1 ex_st.2 w' sk) ∨
    (∃ p m ms, identified ex_st.1 p ∧ is_routing_id m = false ∧ one_message (m :: ms) ∧
       delivered 10 (Part (get_routing_id p ex_st.1) Msg.more (p_meta m)) (m :: ms) p ex_st.1 ex_st.2 ex_st.2 sk)).
Proof.
  destruct (router_receives 0 ex_world ex_st.1 ex_st.2 10 router_ex_reachable ltac:(vm_compute; lia)
    ltac:(vm_compute; reflexivity) ltac:(vm_compute; reflexivity)) as (sk & Hsk & [H|(p & m & ms & H1 & H2 & H3 & H4 & _)]);
    (split; [exact router_ex_reachable|]); exists sk; (split; [exact Hsk|]).
  - left. exact H.
  - right. exists p, m, ms. exact (conj H1 (conj H2 (conj H3 H4))).
Defined.

Lemma router_safe_witness :
  reachable 0 ex_world (ex_st.1, ex_st.2) ∧ (∃ id a, out_pipes (outb ex_st.1) !! id = Some (1, a)) ∧
  is_Some (xsend (Part [65] Msg.more None) ex_st.1 ex_st.2).
Proof.
  destruct (router_safe 0 ex_world ex_st.1 ex_st.2 router_ex_reachable) as (Hid & _ & Hs & _).
  refine (conj router_ex_reachable (conj _ (Hs _ _))); [|vm_compute; discriminate].
  apply Hid. unfold identified. apply list_elem_of_lookup. exists 0%nat. vm_compute. reflexivity.
Defined.
End Router.
