(* ===== verification/Rep.v ===== *)
(** * The reply socket

    [rep_t] (src/rep.cpp) is a router that receives requests and sends replies
    in turn.  The parts of a request up to an empty one are its envelope: they
    are copied to the reply pipe before the body is given to the user, so that
    the reply follows them to the peer.

    The theorems: no operation aborts and receiving returns; sending and
    receiving alternate; the reply to a well-formed request goes, after a copy
    of the envelope, to the pipe the request came from and to no other.  A
    malformed request from a peer that cannot be written, and mandatory
    routing, break this; the runs are given. *)

From S2P Require Import Prelude Msg Array PipeIface SubMsg Recv Fq Router.
Import Array SubMsg Recv Router.

Module Rep.

(** The data members. *)
Record rep := Rep {
  router_ : router;
  sending_reply : bool;      (* the reply is being sent *)
  request_begins : bool }.   (* the envelope comes next *)

Definition rep_new (random : Z) : rep := Rep (router_new random) false true.

Section rep.
Context {W : Type} `{!InPipes part W} `{!OutPipes part W} `{!TermPipes W}.

Definition xsend (msg : part) (x : rep) (w : W) : option (rc * rep * W) :=
  if negb (sending_reply x) then Some (RcErr EFSM, x, w)
  else
    let more := is_more msg in
    '(rc, r, w) ← Router.xsend msg (router_ x) w;
    if bool_decide (rc = RcOk)
    then Some (RcOk, Rep r (if more then sending_reply x else false) (request_begins x), w)
    else Some (rc, Rep r (sending_reply x) (request_begins x), w).

(** [while (true)]: the envelope goes to the reply pipe; malformed requests are
    given up. *)
Fixpoint envelope_loop (n fuel : nat) (r : router) (w : W) : option (rc * router * W) :=
  match n with
  | O => None
  | S n =>
      '(rc, om, r, w) ← Router.xrecv fuel r w;
      match rc, om with
      | RcOk, Some msg =>
          if is_more msg then
            let bottom := bool_decide (p_data msg = []) in
            '(rc, r, w) ← Router.xsend msg r w;
            _ ← zmq_assert (bool_decide (rc = RcOk));
            if bottom then Some (RcOk, r, w) else envelope_loop n fuel r w
          else let '(r, w) := Router.rollback r w in envelope_loop n fuel r w
      | _, _ => Some (rc, r, w)
      end
  end.

Definition xrecv (n fuel : nat) (x : rep) (w : W) : option (rc * option part * rep * W) :=
  if sending_reply x then Some (RcErr EFSM, None, x, w)
  else
    '(rc, r, w) ← (if request_begins x then envelope_loop n fuel (router_ x) w else Some (RcOk, router_ x, w));
    if negb (bool_decide (rc = RcOk)) then Some (rc, None, Rep r false (request_begins x), w)
    else
      '(rc, om, r, w) ← Router.xrecv fuel r w;
      match rc, om with
      | RcOk, Some msg =>
          if negb (is_more msg) then Some (RcOk, Some msg, Rep r true true, w)
          else Some (RcOk, Some msg, Rep r false false, w)
      | _, _ => Some (rc, None, Rep r false false, w)
      end.

Definition xhas_in (fuel : nat) (x : rep) (w : W) : option (bool * rep * W) :=
  if sending_reply x then Some (false, x, w)
  else
    '(b, r, w) ← Router.xhas_in fuel (router_ x) w;
    Some (b, Rep r (sending_reply x) (request_begins x), w).

Definition xhas_out (x : rep) (w : W) : bool :=
  if negb (sending_reply x) then false else Router.xhas_out (router_ x) w.
End rep.

Section correct.
Context {W : Type} `{!InPipes part W} `{!OutPipes part W} `{!InPipesLaws part W} `{!OutPipesLaws part W is_more}.
Context `{!DuplexPipes part W is_more} `{!TermPipes W} `{!TermPipesLaws part W is_more}.

(** ** The number of parts [Router.xrecv] can return before EAGAIN *)

Definition pending_parts (r : router) (w : W) : nat :=
  (2 * avail w (pipes_of r) +
   (if prefetched (inb r) then if routing_id_sent (inb r) then 1 else 2 else 0))%nat.

Lemma keeps_length f (w w' : W) : keeps f w w' → ∀ q, q ∈ items (Fq.pipes f) → (length (content w' q) ≤ length (content w q))%nat.
Proof. intros Hk q Hq. destruct (Hk q Hq) as [->|[-> _]]; cbn; lia. Qed.

Lemma recv_counts fuel r w : inv r w → (avail w (pipes_of r) < fuel)%nat →
  ∃ rc om r' w', Router.xrecv fuel r w = Some (rc, om, r', w') ∧ inv r' w' ∧ outb r' = outb r ∧ opts r' = opts r ∧
    (avail w' (pipes_of r') ≤ avail w (pipes_of r))%nat ∧
    match om with
    | Some _ => rc = RcOk ∧ (pending_parts r' w' < pending_parts r w)%nat
    | None => rc = RcErr EAGAIN
    end.
Proof.
  intros H Hf. unfold pending_parts. destruct (prefetched (inb r)) eqn:Hp.
  { destruct (xrecv_prefetched fuel r w H Hp) as (i & w' & Heq & Hi & Hfq & _ & Hpf & Hs & _ & Hk).
    assert (Hav : (avail w' (pipes_of (with_inb i r)) ≤ avail w (pipes_of r))%nat).
    { unfold pipes_of. cbn [inb with_inb]. rewrite Hfq. by apply avail_mono, keeps_length. }
    do 4 eexists. split; [exact Heq|]. split_and!; [done..|]. cbn [inb with_inb]. rewrite Hpf.
    destruct (routing_id_sent (inb r)); cbn [negb]; [lia|]. destruct (Hs eq_refl) as [-> _]. lia. }
  destruct (more_in (inb r)) eqn:Hm.
  - destruct (n_busy _ (v_in _ _ H) (or_intror Hm)) as [p Hc].
    destruct (xrecv_middle fuel r w p H Hf Hp Hm Hc) as (m & i & w1 & w' & Heq & Hi & Hcp & Hco & Hpf & _ & _ & Hit & Hk & _).
    assert (Hav : (avail w' (pipes_of (with_inb i r)) < avail w (pipes_of r))%nat).
    { rewrite (avail_pipes r (with_inb i r) w w' H Hi Hit). apply (avail_lt w w' _ p); [by eapply current_pipe| |].
      - assert (p ∈ items (Fq.pipes (fq i))) as Hpi by (apply Hit; by eapply current_pipe).
        pose proof (keeps_length _ _ _ Hk p Hpi). rewrite Hcp. cbn. lia.
      - intros q Hq. apply Hit in Hq. pose proof (keeps_length _ _ _ Hk q Hq). destruct (decide (q = p)) as [->|Hqp].
        + rewrite Hcp. cbn. lia.
        + by rewrite <- (Hco q Hqp). }
    do 4 eexists. split; [exact Heq|]. split_and!; [done..|lia|done|]. cbn [inb with_inb]. rewrite Hpf. lia.
  - destruct (xrecv_idle fuel r w H Hf Hp Hm) as (res & f' & w' & sk & _ & Hrec & Hav & _ & Hit & Hres).
    destruct res as [[m p]|]; destruct Hres as (Heq & Hi & _); do 4 eexists; (split; [exact Heq|]);
      pose proof (avail_pipes r _ w w' H Hi Hit w') as Hav1; [|split_and!; [done..|lia|done]].
    destruct Hrec as (_ & Hpin & _ & _ & _ & Hc & Ho & _). split_and!; [done..|lia|done|]. rewrite Hav1. cbn.
    assert (Hlt : (avail w' (pipes_of r) < avail w (pipes_of r))%nat); [|lia].
    apply (avail_lt w w' _ p); [done|rewrite Hc, length_app; cbn; lia|]. intros q Hq. destruct (decide (q = p)) as [->|Hqp].
    + rewrite Hc, length_app. cbn. lia.
    + rewrite Ho, length_app by done. lia.
Qed.

(** ** The router under a reply socket: not raw, not mandatory *)

Definition plain (r : router) : Prop := mandatory (opts r) = false ∧ raw_socket (opts r) = false ∧ opt_raw_socket (opts r) = false.

Lemma same_pending r r' w w' : inb r' = inb r → (∀ q, content w' q = content w q) →
  avail w' (pipes_of r') = avail w (pipes_of r) ∧ pending_parts r' w' = pending_parts r w.
Proof.
  intros Hi Hc. unfold pending_parts, pipes_of. rewrite Hi. by rewrite (avail_ext w w').
Qed.

Lemma send_plain m r w : inv r w → plain r →
  ∃ r' w', Router.xsend m r w = Some (RcOk, r', w') ∧ inv r' w' ∧ opts r' = opts r ∧ inb r' = inb r ∧
    (∀ q, content w' q = content w q).
Proof.
  intros H (Hma & Hra & Hor). destruct (more_out (outb r)) eqn:Hm.
  - destruct (send_body_ok m r w H Hm) as (r' & w' & Heq & H' & Ho & _ & Hi & _ & _ & Hc); [congruence|].
    exists r', w'. split_and!; [done..|]. intros q. destruct (current_out (outb r)); [by destruct Hc as [_ [-> _]%(λ f, f Hra)]|by destruct Hc as [_ ->]].
  - destruct (send_prefix_ok m r w H Hm) as (rc & r' & w' & Heq & H' & Ho & _ & Hi & _ & Hc & Hrc). rewrite Hma in Hrc.
    assert (rc = RcOk) as ->.
    { destruct (is_more m); [|by destruct Hrc]. destruct (out_pipes (outb r) !! p_data m) as [[p a]|]; [|tauto].
      destruct (out_check_write p w).1; tauto. }
    by exists r', w'.
Qed.

Lemma rollback_ok r w : inv r w → inv (Router.rollback r w).1 (Router.rollback r w).2 ∧
  opts (Router.rollback r w).1 = opts r ∧ inb (Router.rollback r w).1 = inb r ∧
  (∀ q, content (Router.rollback r w).2 q = content w q).
Proof.
  intros H. unfold Router.rollback. destruct (current_out (outb r)) as [p|] eqn:Hc; [|done]. cbn [fst snd].
  split_and!; [|done|done|intros q; by rewrite out_rollback_content].
  apply (inv_outb r _ w); [done|by apply table_set_out, v_table with w|done| |].
  - intros q Hq _. destruct (decide (q = p)) as [->|Hqp]; [apply rollback_whole|]. rewrite out_rollback_other by done.
    apply (v_whole _ _ H q Hq). rewrite Hc. congruence.
  - apply same_keeps. intros q. by rewrite out_rollback_content.
Qed.

(** The envelope loop ends. *)
Lemma envelope_ends fuel n : ∀ r w, inv r w → plain r → (avail w (pipes_of r) < fuel)%nat → (pending_parts r w < n)%nat →
  ∃ rc r' w', envelope_loop n fuel r w = Some (rc, r', w') ∧ inv r' w' ∧ plain r' ∧ (avail w' (pipes_of r') < fuel)%nat ∧
    (rc = RcOk ∨ rc = RcErr EAGAIN).
Proof.
  induction n as [|n IH]; [lia|]. intros r w H Hpl Hf Hn. cbn [envelope_loop].
  destruct (recv_counts fuel r w H Hf) as (rc & om & r1 & w1 & -> & H1 & _ & Ho1 & Hav & Hom). cbn [mbind option_bind].
  assert (Hpl1 : plain r1) by (unfold plain; by rewrite Ho1).
  destruct om as [m|]; [|subst rc; exists (RcErr EAGAIN), r1, w1; split_and!; [done..|lia|by right]].
  destruct Hom as [-> Hlt]. destruct (is_more m) eqn:Hm.
  - destruct (send_plain m r1 w1 H1 Hpl1) as (r2 & w2 & -> & H2 & Ho2 & Hi2 & Hc2). cbn [mbind option_bind].
    change (bool_decide (RcOk = RcOk)) with true. cbn [zmq_assert mbind option_bind].
    assert (Hpl2 : plain r2) by (unfold plain; by rewrite Ho2). destruct (same_pending r1 r2 w1 w2 Hi2 Hc2) as [Ha2 Hp2].
    case_bool_decide; [exists RcOk, r2, w2; split_and!; [done..|lia|by left]|]. apply IH; [done|done|lia|lia].
  - pose proof (rollback_ok r1 w1 H1) as (H2 & Ho2 & Hi2 & Hc2). destruct (Router.rollback r1 w1) as [r2 w2]. cbn [fst snd] in *.
    assert (Hpl2 : plain r2) by (unfold plain; by rewrite Ho2). destruct (same_pending r1 r2 w1 w2 Hi2 Hc2) as [Ha2 Hp2].
    apply IH; [done|done|lia|lia].
Qed.

Lemma rep_recv_ok n fuel x w : inv (router_ x) w → plain (router_ x) →
  (avail w (pipes_of (router_ x)) < fuel)%nat → (pending_parts (router_ x) w < n)%nat →
  ∃ rc om x' w', xrecv n fuel x w = Some (rc, om, x', w') ∧ inv (router_ x') w' ∧ plain (router_ x') ∧
    if sending_reply x then rc = RcErr EFSM ∧ om = None ∧ x' = x ∧ w' = w
    else match om with
         | Some m => rc = RcOk ∧ sending_reply x' = negb (is_more m)
         | None => rc = RcErr EAGAIN ∧ sending_reply x' = false
         end.
Proof.
  intros H Hpl Hf Hn. unfold xrecv. destruct (sending_reply x); [by do 4 eexists|].
  assert (∃ rc r1 w1, (if request_begins x then envelope_loop n fuel (router_ x) w else Some (RcOk, router_ x, w)) = Some (rc, r1, w1) ∧
    inv r1 w1 ∧ plain r1 ∧ (avail w1 (pipes_of r1) < fuel)%nat ∧ (rc = RcOk ∨ rc = RcErr EAGAIN)) as (rc & r1 & w1 & -> & H1 & Hpl1 & Hf1 & Hrc).
  { destruct (request_begins x); [by apply envelope_ends|]. exists RcOk. do 2 eexists. split_and!; [done..|by left]. }
  cbn [mbind option_bind]. destruct Hrc as [->| ->].
  2:{ rewrite bool_decide_eq_false_2 by done. cbn [negb]. by do 4 eexists. }
  rewrite bool_decide_eq_true_2 by done. cbn [negb].
  destruct (recv_counts fuel r1 w1 H1 Hf1) as (rc & om & r2 & w2 & -> & H2 & _ & Ho2 & _ & Hom). cbn [mbind option_bind].
  assert (Hpl2 : plain r2) by (unfold plain; by rewrite Ho2). destruct om as [m|].
  - destruct Hom as [-> _]. destruct (is_more m) eqn:Hmm; cbn [negb]; do 4 eexists; (split; [done|]); cbn; by rewrite Hmm.
  - subst rc. by do 4 eexists.
Qed.

(** ** All the behaviours

    The router below takes any of its steps with its options kept (more than the
    socket makes it do), and the user sends and receives. *)
Inductive step : rep * W → rep * W → Prop :=
| s_router x w r' w' :
    Router.step (router_ x, w) (r', w') → opts r' = opts (router_ x) → step (x, w) (Rep r' (sending_reply x) (request_begins x), w')
| s_send x w m rc x' w' : xsend m x w = Some (rc, x', w') → step (x, w) (x', w')
| s_recv x w n fuel rc om x' w' :
    (avail w (pipes_of (router_ x)) < fuel)%nat → (pending_parts (router_ x) w < n)%nat →
    xrecv n fuel x w = Some (rc, om, x', w') → step (x, w) (x', w').

Definition reachable (random : Z) (w0 : W) (st : rep * W) : Prop := rtc step (rep_new random, w0) st.

Lemma rep_send_ok m x w : inv (router_ x) w → plain (router_ x) →
  ∃ rc x' w', xsend m x w = Some (rc, x', w') ∧ inv (router_ x') w' ∧ plain (router_ x') ∧
    if sending_reply x then rc = RcOk ∧ sending_reply x' = is_more m else rc = RcErr EFSM ∧ x' = x ∧ w' = w.
Proof.
  intros H Hpl. unfold xsend. destruct (sending_reply x); cbn [negb]; [|by do 3 eexists].
  destruct (send_plain m _ w H Hpl) as (r' & w' & -> & H' & Ho & _). cbn [mbind option_bind].
  rewrite bool_decide_eq_true_2 by done. do 3 eexists. split; [done|]. unfold plain. cbn. rewrite Ho.
  split_and!; [done|apply Hpl..|done|by destruct (is_more m)].
Qed.

Lemma rep_reachable_inv random w0 x w : reachable random w0 (x, w) → inv (router_ x) w ∧ plain (router_ x).
Proof.
  intros Hr. refine (rtc_ind_r (λ st, inv (router_ st.1) st.2 ∧ plain (router_ st.1)) _ _ _ _ Hr).
  - split; [apply router_inv_new|done].
  - intros [x1 w1] [x2 w2] _ Hs [H Hpl]. cbn [fst snd] in *. inversion Hs; subst; clear Hs.
    + split; [by eapply router_step_inv|]. unfold plain. cbn. by match goal with He : opts _ = _ |- _ => rewrite He end.
    + destruct (rep_send_ok m x1 w1 H Hpl) as (rc1 & x3 & w3 & Heq & H3 & Hp3 & _). by simplify_eq.
    + destruct (rep_recv_ok n fuel x1 w1 H Hpl) as (rc1 & om1 & x3 & w3 & Heq & H3 & Hp3 & _); [done..|]. by simplify_eq.
Qed.


(** ** The reply follows the envelope *)

(** Parts of an unfinished message went to the pipe chosen, or were dropped
    with it. *)
Definition pushed (parts : list part) (r r' : router) (w w' : W) : Prop :=
  match current_out (outb r) with
  | Some q =>
      (∀ q', q' ≠ q → written w' q' = written w q') ∧
      (current_out (outb r') = Some q ∧ written w' q = written w q ++ parts ∨
       current_out (outb r') = None ∧ refuses q ∧
       ∃ s, unfinished is_more s ∧ written w q = written w' q ++ s ∧ whole is_more (written w' q))
  | None => current_out (outb r') = None ∧ silent w w'
  end.

Lemma unfinished_app (b s : list part) a : unfinished is_more a → ∀ l, l ++ a = b ++ s → unfinished is_more s → whole is_more b →
  ∃ s', unfinished is_more s' ∧ l = b ++ s'.
Proof.
  revert s. induction a as [|m a IH] using rev_ind; intros s Ha l Heq Hs Hb.
  - rewrite app_nil_r in Heq. eauto.
  - apply Forall_app in Ha as [Ha [Hm _]%Forall_cons_1]. rewrite app_assoc in Heq.
    destruct (unfinished_snoc _ _ _ _ Heq Hm Hs Hb) as (s1 & Hs1 & Heq1). by eapply IH.
Qed.

Lemma rep_pushed_trans a b r1 r2 r3 w1 w2 w3 : unfinished is_more a → pushed a r1 r2 w1 w2 → pushed b r2 r3 w2 w3 → pushed (a ++ b) r1 r3 w1 w3.
Proof.
  unfold pushed. intros Ha H1 H2. destruct (current_out (outb r1)) as [q|].
  - destruct H1 as [Ho1 [[Hc Hw]|(Hc & Hre & s & Hs & Hw & Hwh)]]; rewrite Hc in H2.
    + destruct H2 as [Ho2 H2]. split; [intros q' Hq'; by rewrite Ho2, Ho1|].
      destruct H2 as [[Hc2 Hw2]|(Hc2 & Hre & s & Hs & Hw2 & Hwh)].
      * left. split; [done|]. by rewrite Hw2, Hw, app_assoc.
      * right. split_and!; [done..|]. rewrite Hw in Hw2.
        destruct (unfinished_app _ _ _ Ha _ Hw2 Hs Hwh) as (s' & Hs' & Heq). by exists s'.
    + destruct H2 as [Hc2 Hw2]. split; [intros q' Hq'; by rewrite Hw2, Ho1|]. right. split_and!; [done..|].
      exists s. by rewrite !Hw2.
  - destruct H1 as [Hc Hw]. rewrite Hc in H2. destruct H2 as [Hc2 Hw2]. split; [done|]. intros q. by rewrite Hw2.
Qed.

(** One part of the envelope. *)
Lemma push_part m r w : inv r w → plain r → more_out (outb r) = true → is_more m = true →
  ∃ r' w', Router.xsend m r w = Some (RcOk, r', w') ∧ inv r' w' ∧ opts r' = opts r ∧ inb r' = inb r ∧
    more_out (outb r') = true ∧ (∀ q, content w' q = content w q) ∧ pushed [m] r r' w w'.
Proof.
  intros H (Hma & Hra & Hor) Hm Hmm. destruct (send_body_ok m r w H Hm) as (r' & w' & Heq & H' & Ho & _ & Hi & Hm' & _ & Hc); [congruence|].
  rewrite Hor in Hm', Hc. exists r', w'. split_and!; [done..|congruence| |].
  - intros q. destruct (current_out (outb r)); [by destruct Hc as [_ [-> _]%(λ f, f Hra)]|by destruct Hc as [_ ->]].
  - unfold pushed. destruct (current_out (outb r)) as [q|]; [|by destruct Hc as [? ->]].
    destruct Hc as [Hoth [_ Hw]%(λ f, f Hra)]. split; [done|]. destruct (out_write q m w).1 eqn:Hok.
    + left. destruct Hw as [Hw Hcu]. rewrite Hmm in Hcu. done.
    + right. destruct Hw as [Hcu Hw]. split_and!; [done|by exists m, w|done].
Qed.

(** A request: the envelope, an empty part, the body. *)
Definition envelope (env : list part) (delim : part) : Prop :=
  Forall (λ m, is_more m = true ∧ p_data m ≠ []) env ∧ is_more delim = true ∧ p_data delim = [].

Lemma envelope_unfinished env delim : envelope env delim → unfinished is_more (env ++ [delim]).
Proof.
  intros (He & Hd & _). apply Forall_app. split; [|by repeat constructor]. eapply Forall_impl; [exact He|]. by intros m [? _].
Qed.

(** The envelope is copied. *)
Lemma envelope_ok fuel p delim rest : ∀ env n r w, reading fuel p (env ++ delim :: rest) r w → plain r → envelope env delim →
  more_out (outb r) = true → (length env < n)%nat →
  ∃ r' w', envelope_loop n fuel r w = Some (RcOk, r', w') ∧ reading fuel p rest r' w' ∧ opts r' = opts r ∧
    more_out (outb r') = true ∧ pushed (env ++ [delim]) r r' w w'.
Proof.
  induction env as [|e env IH]; intros n r w Hr Hpl He Hm Hn; (destruct n as [|n]; [cbn in Hn; lia|]); cbn [envelope_loop];
    destruct (reading_step _ _ _ _ _ Hr) as (m & l' & i & w1 & Heq & -> & H1 & Hs1 & _ & _ & Hnext);
    injection Heq as <- <-; cbn [mbind option_bind].
  - destruct He as (_ & Hd & Hdata). rewrite Hd in *.
    destruct (push_part delim (with_inb i r) w1 H1 Hpl Hm Hd) as (r2 & w2 & -> & H2 & Ho2 & Hi2 & Hm2 & Hc2 & Hp2).
    cbn [mbind option_bind]. change (bool_decide (RcOk = RcOk)) with true. rewrite bool_decide_eq_true_2 by done.
    cbn [zmq_assert mbind option_bind]. exists r2, w2. split_and!; [done| |done|done|].
    + by eapply reading_out.
    + unfold pushed in *. cbn [outb with_inb] in Hp2. destruct (current_out (outb r)); rewrite ?(Hs1 _) in *.
      * destruct Hp2 as [Ho Hp]. split; [intros q' Hq'; by rewrite Ho, Hs1|exact Hp].
      * destruct Hp2 as [? Hs]. split; [done|]. intros q. by rewrite Hs, Hs1.
  - destruct He as (Hall & Hd & Hdata). inversion Hall as [|? ? [He Hne] Hall']; subst. rewrite He in *.
    destruct (push_part e (with_inb i r) w1 H1 Hpl Hm He) as (r2 & w2 & -> & H2 & Ho2 & Hi2 & Hm2 & Hc2 & Hp2).
    cbn [mbind option_bind]. change (bool_decide (RcOk = RcOk)) with true. rewrite bool_decide_eq_false_2 by done.
    cbn [zmq_assert mbind option_bind].
    destruct (IH n r2 w2) as (r3 & w3 & -> & Hr3 & Ho3 & Hm3 & Hp3); [by eapply reading_out|by unfold plain; rewrite Ho2|done|done|cbn in Hn; lia|].
    exists r3, w3. split_and!; [done..|by rewrite Ho3|done|].
    change (e :: env ++ [delim]) with ([e] ++ (env ++ [delim])). apply (rep_pushed_trans [e] (env ++ [delim]) r r2 r3 w w2 w3); [constructor; [done|constructor]| |exact Hp3].
    unfold pushed in *. cbn [outb with_inb] in Hp2. destruct (current_out (outb r)); rewrite ?(Hs1 _) in *.
    + destruct Hp2 as [Ho Hp]. split; [intros q' Hq'; by rewrite Ho, Hs1|exact Hp].
    + destruct Hp2 as [? Hs]. split; [done|]. intros q. by rewrite Hs, Hs1.
Qed.

(** ** What the user calls *)

Fixpoint recv_parts (n fuel k : nat) (x : rep) (w : W) : option (list part * rep * W) :=
  match k with
  | O => Some ([], x, w)
  | S k =>
      '(_, om, x, w) ← xrecv n fuel x w;
      m ← om;
      '(ms, x, w) ← recv_parts n fuel k x w;
      Some (m :: ms, x, w)
  end.

Fixpoint send_parts (ms : list part) (x : rep) (w : W) : option (rep * W) :=
  match ms with
  | [] => Some (x, w)
  | m :: ms => '(rc, x, w) ← xsend m x w; _ ← zmq_assert (bool_decide (rc = RcOk)); send_parts ms x w
  end.

Lemma body_ok n fuel p rest body : ∀ x w, reading fuel p (body ++ rest) (router_ x) w → one_message body →
  sending_reply x = false → request_begins x = false →
  ∃ r' w', recv_parts n fuel (length body) x w = Some (body, Rep r' true true, w') ∧ inv r' w' ∧ outb r' = outb (router_ x) ∧
    opts r' = opts (router_ x) ∧ silent w w'.
Proof.
  induction body as [|m body IH]; [done|]. intros x w Hr Hone Hs Hb. cbn [length recv_parts]. unfold xrecv. rewrite Hs, Hb.
  destruct (reading_step _ _ _ _ _ Hr) as (m' & l' & i & w1 & Heq & Hx & H1 & Hs1 & _ & _ & Hnext). injection Heq as <- <-.
  cbn [mbind option_bind]. change (bool_decide (RcOk = RcOk)) with true. cbn [negb]. rewrite Hx. cbn [mbind option_bind].
  cbn [one_message] in Hone. destruct (is_more m); cbn [negb].
  - cbn [mbind option_bind]. destruct (IH (Rep (with_inb i (router_ x)) false false) w1 Hnext Hone eq_refl eq_refl) as (r' & w' & Hrp & H' & Ho & Hop & Hw).
    unfold recv_parts in Hrp. cbn [mbind option_bind] in Hrp. fold recv_parts in Hrp. rewrite Hrp. cbn [mbind option_bind].
    exists r', w'. split_and!; [done..|]. intros q. by rewrite Hw.
  - subst body. cbn [length recv_parts mbind option_bind]. by exists (with_inb i (router_ x)), w1.
Qed.

Lemma reply_ok ms : ∀ r rb w r' w', Router.send_parts ms r w = Some (r', w') → one_message ms →
  send_parts ms (Rep r true rb) w = Some (Rep r' false rb, w').
Proof.
  induction ms as [|m ms IH]; [done|]. intros r rb w r' w' Hs Hone. cbn [send_parts Router.send_parts] in *. unfold xsend. cbn [sending_reply router_ negb request_begins].
  destruct (Router.xsend m r w) as [[[rc r1] w1]|]; [|done]. cbn [mbind option_bind] in *.
  destruct (bool_decide (rc = RcOk)) eqn:Hrc; [|done]. cbn [zmq_assert mbind option_bind] in *.
  cbn [one_message] in Hone. destruct (is_more m).
  - by apply IH.
  - subst ms. cbn in *. by simplify_eq.
Qed.

(** The first call of the router's [xrecv]: the id, and then [reading]. *)
Lemma first_reading fuel r w idp r1 w1 p l : inv r w → (avail w (pipes_of r) < fuel)%nat → more_in (inb r) = false →
  (prefetched (inb r) = true → routing_id_sent (inb r) = false) →
  Router.xrecv fuel r w = Some (RcOk, Some idp, r1, w1) → current_in (inb r1) = Some p → terminate_current_in (inb r) = false →
  prefetched_msg (inb r1) :: content w1 p = l →
  reading fuel p l r1 w1 ∧ outb r1 = outb r ∧ opts r1 = opts r ∧ is_more idp = true ∧ silent w w1 ∧
  (prefetched (inb r) = false → p_data idp = get_routing_id p r ∧ identified r p).
Proof.
  intros H Hf Hmi Hps Hx Hc Ht <-. destruct (prefetched (inb r)) eqn:Hp.
  - destruct (xrecv_prefetched fuel r w H Hp) as (i & w' & Heq & Hi & Hfq & Hm & Hpf & Hs & Hti & Hk). rewrite (Hps eq_refl) in *.
    rewrite Hx in Heq. injection Heq as -> -> ->. cbn [inb with_inb] in *. destruct (Hs eq_refl) as [Hs1 Hpm].
    destruct (n_begin _ (v_in _ _ H) Hp (Hps eq_refl)) as [_ Hmore]. destruct (Hti Ht) as [-> Ht']. split_and!; [|done..].
    split_and!; [done| |done|done|left; split_and!; [exact Hpf|exact Hs1|done]]. unfold pipes_of. cbn. by rewrite Hfq.
  - destruct (xrecv_idle fuel r w H Hf Hp Hmi) as (res & f' & w' & sk & _ & Hrec & Hav & Hw & Hit & Hres).
    destruct res as [[m q]|]; destruct Hres as (Heq & Hi & _); rewrite Hx in Heq; [|done]. injection Heq as -> -> ->.
    injection Hc as <-. split_and!; [|done..|]; [|intros _; by destruct Hrec as (_ & ? & _)].
    split_and!; [done| |done|done|by left]. rewrite (avail_pipes r _ w w' H Hi Hit). lia.
Qed.

Lemma begin_ok n fuel x w r w1 : sending_reply x = false → request_begins x = true →
  envelope_loop n fuel (router_ x) w = Some (RcOk, r, w1) → xrecv n fuel x w = xrecv n fuel (Rep r false false) w1.
Proof. intros Hs Hb Hl. unfold xrecv. rewrite Hs, Hb, Hl. done. Qed.

(** Where the reply to a request with the id [id] goes. *)
Definition replied (r : router) (id : list Z) (parts : list part) (w w1 w' : W) : Prop :=
  match out_pipes (outb r) !! id with
  | Some (q, _) =>
      (∀ q', q' ≠ q → written w' q' = written w q') ∧
      (written w' q = written w q ++ parts ∨
       written w' q = written w q ∧ (refuses q ∨ (out_check_write q w1).1 = false))
  | None => silent w w'
  end.

(** The envelope was pushed and the reply sent. *)
Lemma replied_ok r r1 r2 r3 w w2 w3 parts reply q : inv r w → identified r q → more_out (outb r) = false →
  unfinished is_more parts → silent w w2 → current_out (outb r1) = Some q → pushed parts r1 r2 w2 w3 →
  outb r3 = outb r2 → one_message reply →
  ∀ w4 w5, silent w3 w4 →
    match current_out (outb r3) with
    | Some p =>
        (∀ q, q ≠ p → written w5 q = written w4 q) ∧
        (written w5 p = written w4 p ++ reply ∨
         refuses p ∧ ∃ s, unfinished is_more s ∧ written w4 p = written w5 p ++ s ∧ whole is_more (written w5 p))
    | None => ∀ q, written w5 q = written w4 q
    end →
  (∀ q', q' ≠ q → written w5 q' = written w q') ∧
  (written w5 q = written w q ++ parts ++ reply ∨ written w5 q = written w q ∧ refuses q).
Proof.
  intros H Hq Hm Hun Hw2 Hc1 Hp Hr3 Hone w4 w5 Hw4 Hc3. destruct (idle_out r w H Hm) as [_ Hwh]. specialize (Hwh q Hq).
  unfold pushed in Hp. rewrite Hc1 in Hp. destruct Hp as [Ho Hp]. rewrite Hr3 in Hc3.
  destruct Hp as [[Hcu Hw]|(Hcu & Href & s & Hs & Hw & Hwh')]; rewrite Hcu in Hc3.
  - destruct Hc3 as [Ho5 Hw5]. split; [intros q' Hq'; by rewrite Ho5, Hw4, Ho, Hw2|].
    rewrite Hw4, Hw, Hw2 in Hw5. destruct Hw5 as [Hw5|(Href & s & Hs & Heq & Hwh5)]; [left; by rewrite Hw5, <- app_assoc|].
    right. split; [|done]. destruct (unfinished_app _ _ _ Hun _ Heq Hs Hwh5) as (s' & Hs' & Heq').
    rewrite Heq' in Hwh. pose proof (whole_unfinished _ _ Hwh Hs') as ->. by rewrite app_nil_r in Heq'.
  - split; [intros q' Hq'; by rewrite Hc3, Hw4, Ho, Hw2|]. right. split; [|done]. rewrite Hc3, Hw4.
    rewrite Hw2 in Hw. rewrite Hw in Hwh. pose proof (whole_unfinished _ _ Hwh Hs) as ->. by rewrite app_nil_r in Hw.
Qed.

Lemma rep_replies_ok x w n fuel idp r1 w1 p env delim body rest reply :
  inv (router_ x) w → plain (router_ x) → sending_reply x = false → request_begins x = true →
  (avail w (pipes_of (router_ x)) < fuel)%nat → (S (length env) < n)%nat →
  more_out (outb (router_ x)) = false → more_in (inb (router_ x)) = false → terminate_current_in (inb (router_ x)) = false →
  (prefetched (inb (router_ x)) = true → routing_id_sent (inb (router_ x)) = false) →
  Router.xrecv fuel (router_ x) w = Some (RcOk, Some idp, r1, w1) → current_in (inb r1) = Some p → p_data idp ≠ [] →
  prefetched_msg (inb r1) :: content w1 p = env ++ delim :: body ++ rest → envelope env delim →
  one_message body → one_message reply →
  ∃ x1 w2 x2 w3, recv_parts n fuel (length body) x w = Some (body, x1, w2) ∧ send_parts reply x1 w2 = Some (x2, w3) ∧
    sending_reply x2 = false ∧ request_begins x2 = true ∧ more_out (outb (router_ x2)) = false ∧
    replied (router_ x) (p_data idp) (env ++ delim :: reply) w w1 w3.
Proof.
  intros H Hpl Hsr Hrb Hf Hn Hmo Hmi Ht Hps Hx Hc Hid Hcont Henv Hbody Hreply.
  destruct (first_reading _ _ _ _ _ _ _ _ H Hf Hmi Hps Hx Hc Ht Hcont) as (Hrd & Hout1 & Hop1 & Hmore & Hs1 & _).
  pose proof Hrd as (H1 & _). assert (Hmo1 : more_out (outb r1) = false) by (by rewrite Hout1).
  destruct (send_prefix_ok idp r1 w1 H1 Hmo1) as (rc & r2 & w2 & Hsend & H2 & Hop2 & _ & Hin2 & Hw2 & Hc2 & Hres).
  rewrite Hmore in Hres. destruct Hpl as (Hma & Hra & Hor). rewrite Hop1, Hma, Hout1 in Hres.
  assert (rc = RcOk ∧ more_out (outb r2) = true) as [-> Hmo2].
  { destruct (out_pipes _ !! _) as [[q a]|]; [destruct (out_check_write q w1).1|]; tauto. }
  assert (Hpl2 : plain r2) by (unfold plain; by rewrite Hop2, Hop1).
  assert (Hrd2 : reading fuel p (env ++ delim :: body ++ rest) r2 w2) by (by eapply reading_out).
  destruct n as [|n]; [lia|]. destruct (envelope_ok fuel p delim (body ++ rest) env n r2 w2 Hrd2 Hpl2 Henv Hmo2) as (r3 & w3 & Hloop & Hrd3 & Hop3 & Hmo3 & Hpu); [lia|].
  assert (Hl : envelope_loop (S n) fuel (router_ x) w = Some (RcOk, r3, w3)).
  { cbn [envelope_loop]. rewrite Hx. cbn [mbind option_bind]. rewrite Hmore, Hsend. cbn [mbind option_bind].
    change (bool_decide (RcOk = RcOk)) with true. by rewrite bool_decide_eq_false_2. }
  destruct (body_ok (S n) fuel p rest body (Rep r3 false false) w3 Hrd3 Hbody eq_refl eq_refl) as (r4 & w4 & Hrp & H4 & Hout4 & Hop4 & Hs4).
  cbn [router_] in Hout4, Hop4.
  destruct (rest_sent reply r4 w4 H4) as (r5 & w5 & Hsp & H5 & Hmo5 & _ & _ & Hw5);
    [by rewrite Hout4|rewrite Hop4, Hop3, Hop2, Hop1; done|rewrite Hop4, Hop3, Hop2, Hop1; done|done|].
  exists (Rep r4 true true), w4, (Rep r5 false true), w5. split_and!; [|by apply reply_ok|done..|].
  { destruct body as [|m body]; [done|]. cbn [length recv_parts] in *. by rewrite (begin_ok _ _ _ _ _ _ Hsr Hrb Hl). }
  unfold replied. assert (Hs2 : silent w w2) by (intros q; by rewrite Hw2, Hs1).
  assert (Hparts : ∀ l, env ++ delim :: l = (env ++ [delim]) ++ l) by (intros l; by rewrite <- app_assoc). rewrite Hparts.
  destruct (out_pipes (outb (router_ x)) !! p_data idp) as [[q a]|] eqn:Hq.
  - destruct (t_table _ _ (v_table _ _ H) _ _ _ Hq) as [Hidq _]. destruct (out_check_write q w1).1 eqn:Hcw.
    + destruct Hres as (_ & _ & Hcur).
      destruct (replied_ok (router_ x) r2 r3 r4 w w2 w3 (env ++ [delim]) reply q H Hidq Hmo (envelope_unfinished _ _ Henv) Hs2 Hcur Hpu Hout4 Hreply w4 w5 Hs4 Hw5)
        as [Ho [Hw|[Hw Href]]]; (split; [done|]); [by left|right; split; [done|by left]].
    + destruct Hres as [Hcur _]. unfold pushed in Hpu. rewrite Hcur in Hpu. destruct Hpu as [Hcur3 Hs3]. rewrite Hout4, Hcur3 in Hw5.
      split; [intros q' _; by rewrite Hw5, Hs4, Hs3|]. right. split; [by rewrite Hw5, Hs4, Hs3|by right].
  - destruct Hres as [Hcur _]. unfold pushed in Hpu. rewrite Hcur in Hpu. destruct Hpu as [Hcur3 Hs3]. rewrite Hout4, Hcur3 in Hw5.
    intros q'. by rewrite Hw5, Hs4, Hs3.
Qed.

End correct.

(** * Runs on pipes that are lists *)

#[local] Existing Instances world_in world_out world_in_laws world_out_laws world_duplex world_term world_term_laws.

Definition rep_attach (ps : list Z) (r : router) (w : world) : option (rep * world) :=
  '(r, w) ← attach_all ps r w; Some (Rep r false true, w).

(** ** Defects *)

(** Pipe 0 refuses to start a message: its peer sends a malformed request, and
    then peer 1 a good one. *)
Definition run_malformed : option (list part * list part * list part) :=
  '(x, w) ← rep_attach [0; 1] (router_new 5)
    (world_of (λ p, if p =? 0 then [id_part [65]; a_part [9] false]
                    else [id_part [66]; a_part [] true; a_part [7] false]));
  '(got, x, w) ← recv_parts 10 10 1 x w;
  '(x, w) ← send_parts [a_part [8] false] x w;
  Some (got, Duo.outgoing w 0, Duo.outgoing w 1).

(** The same peer 1 alone. *)
Definition run_answered : option (list part * list part) :=
  '(x, w) ← rep_attach [1] (router_new 5) (world_of (λ p, [id_part [66]; a_part [] true; a_part [7] false]));
  '(got, x, w) ← recv_parts 10 10 1 x w;
  '(x, w) ← send_parts [a_part [8] false] x w;
  Some (got, Duo.outgoing w 1).

(** With ZMQ_ROUTER_MANDATORY, a request of a peer that cannot be written. *)
Definition run_mandatory : option (list part * rep * world) :=
  '(x, w) ← rep_attach [0] (Router.xsetsockopt ZMQ_ROUTER_MANDATORY [1; 0; 0; 0] (router_new 5)).2
    (world_of (λ p, [id_part [65]; a_part [] true; a_part [7] false]));
  recv_parts 10 10 1 x w.

(** Limits of the reply socket.  After a malformed request from a peer that
    cannot be written, the router stays in the middle of a message that goes
    nowhere, and the reply to the next request of another peer is lost, although
    the same request alone is answered.  With mandatory routing, a request from
    a peer that cannot be written fails an assertion. *)
Lemma rep_defects :
  run_malformed = Some ([a_part [7] false], [], []) ∧
  run_answered = Some ([a_part [7] false], [a_part [] true; a_part [8] false]) ∧
  run_mandatory = None.
Proof. vm_compute. split_and!; reflexivity. Qed.

(** ** Witnesses: peer 1 sends a request with an envelope of one part. *)

Definition ex_world : world := world_of (λ p, if p =? 1 then [id_part [65]; a_part [3] true; a_part [] true; a_part [7] false] else []).
Definition ex_st : rep * world := default (rep_new 0, ex_world) (rep_attach [1] (router_new 0) ex_world).
Definition ex_first : rc * option part * router * world :=
  default (RcOk, None, router_new 0, ex_world) (Router.xrecv 10 (router_ ex_st.1) ex_st.2).

Lemma rep_ex_reachable : reachable 0 ex_world (ex_st.1, ex_st.2).
Proof.
  eapply rtc_l; [|apply rtc_refl].
  change (ex_st.1, ex_st.2) with (Rep (router_ ex_st.1) (sending_reply (rep_new 0)) (request_begins (rep_new 0)), ex_st.2).
  apply (s_router (rep_new 0) ex_world (router_ ex_st.1) ex_st.2); [|vm_compute; reflexivity].
  apply (Router.s_attach _ _ 1 false); [| | |done|done|vm_compute; reflexivity].
  - intros Hp. by apply not_elem_of_nil in Hp.
  - cbn. set_solver.
  - split_and!.
    + by intros m [= <-].
    + cbn. by split_and!.
    + by intros m [= <-].
Qed.


End Rep.
