(* ===== verification/Dealer.v ===== *)
(** * Sockets that are a fair queue, a load balancer, or one pipe

    [dealer_t] (src/dealer.cpp), [push_t] (src/push.cpp), [pull_t]
    (src/pull.cpp) and [pair_t] (src/pair.cpp): thin layers over [fq_t], [lb_t]
    or a single [pipe_t], behind the interfaces of [PipeIface].  The lemmas say
    what the load balancer leaves alone; they serve the request socket. *)

From S2P Require Import Prelude Msg Array PipeIface SubMsg Recv Fq Lb.
Import Array SubMsg Recv.

Module Dealer.

Definition ZMQ_PROBE_ROUTER := 51.

(** The data members. *)
Record dealer := Dealer { fq : Fq.fq; lb : Lb.lb; probe_router : bool }.

Definition dealer_new : dealer := Dealer Fq.fq_new Lb.lb_new false.

Definition empty_msg : part := Part [] 0 None.

(** The result of [sendpipe], of the two failures -1 and -2 (a message given
    up), both with EAGAIN. *)
Definition rc_of (r : Lb.send_rc) : rc :=
  match r with Lb.Sent => RcOk | Lb.Again | Lb.Dropped => RcErr EAGAIN end.

Section dealer.
Context {W : Type} `{!InPipes part W} `{!OutPipes part W} `{!TermPipes W}.
(** [pipe_t::set_nodelay] *)
Context (set_nodelay : Z → W → W).

Definition xattach_pipe (pipe : Z) (d : dealer) (w : W) : option (dealer * W) :=
  let w := if probe_router d then out_flush pipe (out_write pipe empty_msg w).2 else w in
  f ← Fq.attach pipe (fq d);
  l ← Lb.attach pipe (lb d);
  Some (Dealer f l (probe_router d), w).

Definition xsetsockopt (option_ : Z) (optval : list Z) (d : dealer) : rc * dealer :=
  if (option_ =? ZMQ_PROBE_ROUTER) && (length optval =? 4)%nat && (0 <=? int_value optval)
  then (RcOk, Dealer (fq d) (lb d) (negb (int_value optval =? 0)))
  else (RcErr EINVAL, d).

(** The pipe is [None] when nothing was written to one. *)
Definition sendpipe (msg : part) (d : dealer) (w : W) : option (Lb.send_rc * option Z * dealer * W) :=
  '(r, pipe, l, w) ← Lb.sendpipe is_more msg (lb d) w;
  Some (r, pipe, Dealer (fq d) l (probe_router d), w).

Definition recvpipe (d : dealer) (w : W) : option (option (part * Z) * dealer * W) :=
  '(r, f, w) ← Fq.recvpipe is_more (fq d) w;
  Some (r, Dealer f (lb d) (probe_router d), w).

Definition xsend (msg : part) (d : dealer) (w : W) : option (Lb.send_rc * dealer * W) :=
  '(r, _, d, w) ← sendpipe msg d w; Some (r, d, w).

Definition xrecv (d : dealer) (w : W) : option (option part * dealer * W) :=
  '(r, d, w) ← recvpipe d w; Some (option_map fst r, d, w).

Definition xhas_in (d : dealer) (w : W) : option (bool * dealer * W) :=
  '(b, f, w) ← Fq.has_in (fq d) w; Some (b, Dealer f (lb d) (probe_router d), w).

Definition xhas_out (d : dealer) (w : W) : option (bool * dealer * W) :=
  '(b, l, w) ← Lb.has_out (lb d) w; Some (b, Dealer (fq d) l (probe_router d), w).

Definition xread_activated (pipe : Z) (d : dealer) : option dealer :=
  f ← Fq.activated pipe (fq d); Some (Dealer f (lb d) (probe_router d)).

Definition xwrite_activated (pipe : Z) (d : dealer) : option dealer :=
  l ← Lb.activated pipe (lb d); Some (Dealer (fq d) l (probe_router d)).

Definition xpipe_terminated (pipe : Z) (d : dealer) : option dealer :=
  f ← Fq.pipe_terminated pipe (fq d);
  l ← Lb.pipe_terminated pipe (lb d);
  Some (Dealer f l (probe_router d)).

(** ** PUSH *)

Definition push_xattach_pipe (pipe : Z) (l : Lb.lb) (w : W) : option (Lb.lb * W) :=
  let w := set_nodelay pipe w in
  l ← Lb.attach pipe l; Some (l, w).
Definition push_xwrite_activated (pipe : Z) (l : Lb.lb) : option Lb.lb := Lb.activated pipe l.
Definition push_xpipe_terminated (pipe : Z) (l : Lb.lb) : option Lb.lb := Lb.pipe_terminated pipe l.
Definition push_xsend (msg : part) (l : Lb.lb) (w : W) : option (Lb.send_rc * Lb.lb * W) :=
  '(r, _, l, w) ← Lb.sendpipe is_more msg l w; Some (r, l, w).
Definition push_xhas_out (l : Lb.lb) (w : W) : option (bool * Lb.lb * W) := Lb.has_out l w.

(** ** PULL *)

Definition pull_xattach_pipe (pipe : Z) (f : Fq.fq) : option Fq.fq := Fq.attach pipe f.
Definition pull_xread_activated (pipe : Z) (f : Fq.fq) : option Fq.fq := Fq.activated pipe f.
Definition pull_xpipe_terminated (pipe : Z) (f : Fq.fq) : option Fq.fq := Fq.pipe_terminated pipe f.
Definition pull_xrecv (f : Fq.fq) (w : W) : option (option part * Fq.fq * W) :=
  '(r, f, w) ← Fq.recvpipe is_more f w; Some (option_map fst r, f, w).
Definition pull_xhas_in (f : Fq.fq) (w : W) : option (bool * Fq.fq * W) := Fq.has_in f w.

(** ** PAIR *)

Record pair := Pair { pipe : option Z; last_in : option Z }.
Definition pair_new : pair := Pair None None.

Definition pair_xattach_pipe (p : Z) (x : pair) (w : W) : pair * W :=
  match pipe x with None => (Pair (Some p) (last_in x), w) | Some _ => (x, pipe_terminate p false w) end.

Definition pair_xpipe_terminated (p : Z) (x : pair) : pair :=
  if bool_decide (pipe x = Some p)
  then Pair None (if bool_decide (last_in x = pipe x) then None else last_in x) else x.

Definition pair_xsend (msg : part) (x : pair) (w : W) : rc * W :=
  match pipe x with
  | None => (RcErr EAGAIN, w)
  | Some p =>
      let '(ok, w) := out_write p msg w in
      if negb ok then (RcErr EAGAIN, w)
      else (RcOk, if negb (is_more msg) then out_flush p w else w)
  end.

Definition pair_xrecv (x : pair) (w : W) : option part * pair * W :=
  match pipe x with
  | None => (None, x, w)
  | Some p =>
      let '(r, w) := in_read p w in
      match r with None => (None, x, w) | Some m => (Some m, Pair (pipe x) (pipe x), w) end
  end.

Definition pair_xhas_in (x : pair) (w : W) : bool * W :=
  match pipe x with None => (false, w) | Some p => in_check_read p w end.

Definition pair_xhas_out (x : pair) (w : W) : bool * W :=
  match pipe x with None => (false, w) | Some p => out_check_write p w end.
End dealer.

(** * What the load balancer leaves alone *)

Section frame.
Context {W : Type} `{!InPipes part W} `{!OutPipes part W} `{!InPipesLaws part W} `{!OutPipesLaws part W is_more}.
Context `{!DuplexPipes part W is_more}.

Lemma send_loop_content m n : ∀ l w r l' w', Lb.send_loop is_more n m l w = Some (r, l', w') → ∀ q, content w' q = content w q.
Proof.
  induction n as [|n IH]; intros l w r l' w' Hs q; [done|]. rewrite Lb.send_loop_S in Hs.
  case_decide; [by simplify_eq|]. destruct (at_ _ _) as [p|]; [|done]. cbn [mbind option_bind] in Hs.
  pose proof (out_write_content p m w q) as Hw. destruct (out_write p m w) as [[] w1]; cbn [snd] in Hw; [by simplify_eq|].
  destruct (Lb.more l); [simplify_eq; by rewrite out_rollback_content|].
  destruct (if decide _ then _ else _) as [[ps cur]|]; [|done]. cbn [mbind option_bind] in Hs. rewrite <- Hw. by eapply IH.
Qed.

(** [more] and [dropping] after a loop. *)
Lemma send_loop_flags m n : ∀ l w r l' w', Lb.send_loop is_more n m l w = Some (r, l', w') →
  match r with
  | None => Lb.more l' = Lb.more l ∧ Lb.dropping l' = Lb.dropping l
  | Some r => r = Lb.Dropped ∧ Lb.more l = true
  end.
Proof.
  induction n as [|n IH]; intros l w r l' w' Hs; [done|]. rewrite Lb.send_loop_S in Hs.
  case_decide; [by simplify_eq|]. destruct (at_ _ _) as [p|]; [|done]. cbn [mbind option_bind] in Hs.
  destruct (out_write p m w) as [[] w1]; [by simplify_eq|]. destruct (Lb.more l) eqn:Hm; [by simplify_eq|].
  destruct (if decide _ then _ else _) as [[ps cur]|]; [|done]. cbn [mbind option_bind] in Hs.
  apply IH in Hs. exact Hs.
Qed.

(** What [sendpipe] does to the two flags; nothing to what can be read. *)
Lemma sendpipe_frame m l w r d l' w' : Lb.sendpipe is_more m l w = Some (r, d, l', w') →
  (∀ q, content w' q = content w q) ∧
  match r with
  | Lb.Sent => Lb.more l' = is_more m ∧ (is_more m = false ∨ Lb.dropping l = false → Lb.dropping l' = false) ∧
               (∀ p, d = Some p → is_more m = true → items (Lb.pipes l') !! Lb.current l' = Some p)
  | Lb.Again => Lb.more l' = Lb.more l ∧ Lb.dropping l' = Lb.dropping l
  | Lb.Dropped => Lb.more l = true
  end.
Proof.
  unfold Lb.sendpipe. destruct (Lb.dropping l) eqn:Hd; intros Hs.
  { simplify_eq. cbn. split; [done|]. split_and!; [done| |done]. by intros [?|?]. }
  destruct (Lb.send_loop is_more _ m l w) as [[[r1 l1] w1]|] eqn:Hl; [|done]. cbn [mbind option_bind] in Hs.
  pose proof (send_loop_content _ _ _ _ _ _ _ Hl) as Hc. pose proof (send_loop_flags _ _ _ _ _ _ _ Hl) as Hf.
  destruct r1 as [r1|]; [destruct Hf as [-> Hm]; by simplify_eq|]. destruct Hf as [Hm Hdr].
  case_decide; [simplify_eq; split; [done|]; split; congruence|].
  destruct (at_ _ _) as [p|] eqn:Hp; [|done]. cbn [mbind option_bind] in Hs.
  destruct (is_more m) eqn:Hmm; simplify_eq; cbn.
  - split; [done|]. split_and!; [done|congruence|]. intros p0 [= <-] _. exact Hp.
  - split; [intros q; by rewrite out_flush_content|]. split_and!; [done|congruence|done].
Qed.

(** In the middle of a message, the current pipe takes the part. *)
Lemma sendpipe_middle m l w p : (Lb.current l < Lb.active l)%nat → Lb.dropping l = false →
  items (Lb.pipes l) !! Lb.current l = Some p → (out_write p m w).1 = true →
  ∃ l' w', Lb.sendpipe is_more m l w = Some (Lb.Sent, Some p, l', w').
Proof.
  intros Hc Hd Hp Hw. unfold Lb.sendpipe. rewrite Hd, Lb.send_loop_S, decide_False by lia.
  assert (Hat : at_ (Lb.pipes l) (Lb.current l) = Some p) by done.
  rewrite Hat. cbn [mbind option_bind]. destruct (out_write p m w) as [ok w1]. cbn [fst] in Hw. subst ok.
  cbn [mbind option_bind]. rewrite decide_False by lia. rewrite Hat. cbn [mbind option_bind].
  destruct (is_more m); by do 2 eexists.
Qed.

Lemma has_out_content l w r l' w' : Lb.has_out l w = Some (r, l', w') → ∀ q, content w' q = content w q.
Proof.
  unfold Lb.has_out. destruct (Lb.more l); [by intros; simplify_eq|]. generalize (S (Lb.active l)) as n. intros n. revert l w.
  induction n as [|n IH]; intros l w Hs q; [done|]. cbn [Lb.has_out_loop] in Hs.
  case_decide; [by simplify_eq|]. destruct (at_ _ _) as [p|]; [|done]. cbn [mbind option_bind] in Hs.
  pose proof (out_check_write_content p w q) as Hw. destruct (out_check_write p w) as [[] w1]; cbn [snd] in Hw; [by simplify_eq|].
  destruct (swap _ _ _); [|done]. cbn [mbind option_bind] in Hs. rewrite <- Hw. by eapply IH.
Qed.

Lemma lb_inv_written l w w' g : Lb.inv is_more l w g → (∀ q, written w' q = written w q) → Lb.inv is_more l w' g.
Proof. intros [Hs Hw Hm Hi Hb Hh] He. split; try done. intros q Hq. rewrite He. auto. Qed.

(** A history without a pipe that is not attached. *)
Definition forget (p : Z) (h : list (list part * option Z)) : list (list part * option Z) :=
  map (λ e : list part * option Z, (e.1, if decide (e.2 = Some p) then None else e.2)) h.

Lemma delivered_forget p h q : Lb.delivered q (forget p h) = if decide (q = p) then [] else Lb.delivered q h.
Proof.
  induction h as [|[ms d] h IH]; cbn [forget map Lb.delivered fst snd]; [by case_decide|]. fold (forget p h). rewrite IH.
  repeat case_decide; simplify_eq; done.
Qed.

Lemma lb_inv_forget p l w g : Lb.inv is_more l w g → p ∉ items (Lb.pipes l) →
  Lb.inv is_more l w (Lb.Ghost (Lb.begun g) (forget p (Lb.history g))).
Proof.
  intros [Hs Hw Hm Hi Hb Hh] Hp. split; try done.
  - intros q Hq. cbn [Lb.history]. rewrite delivered_forget, decide_False by (by intros ->). rewrite Hw by done. done.
  - cbn [Lb.history]. unfold forget. apply Forall_map. eapply Forall_impl; [exact Hh|]. done.
Qed.

(** A whole message that is written to a pipe behind the balancer's back. *)
Lemma lb_inv_probe p m l w w' g : Lb.inv is_more l w g → is_more m = false → written w p = [] →
  written w' p = written w p ++ [m] → (∀ q, q ≠ p → written w' q = written w q) →
  ∃ g', Lb.inv is_more l w' g'.
Proof.
  intros [Hs Hw Hm Hi Hb Hh] Hmm He Hp Ho. exists (Lb.Ghost (Lb.begun g) (Lb.history g ++ [([m], Some p)])). split; try done.
  - intros q Hq. cbn [Lb.history]. rewrite Lb.lb_delivered_snoc.
    change (Lb.partly l (Lb.Ghost (Lb.begun g) _) q) with (Lb.partly l g q). specialize (Hw q Hq). destruct (decide (q = p)) as [->|Hne].
    + rewrite He in Hw. symmetry in Hw. apply app_eq_nil in Hw as [-> ->]. by rewrite decide_True, Hp, He.
    + rewrite decide_False by congruence. by rewrite app_nil_r, Ho.
  - cbn [Lb.history]. apply Forall_app_2; [done|]. constructor; [|constructor]. exists [], m. split_and!; [done|constructor|done].
Qed.

Lemma lb_attach_flags p l l' : Lb.attach p l = Some l' → Lb.more l' = Lb.more l ∧ Lb.dropping l' = Lb.dropping l.
Proof.
  unfold Lb.attach, Lb.activated. destruct (index _ _); [|done]. cbn [mbind option_bind].
  destruct (swap _ _ _); [|done]. cbn [mbind option_bind]. by intros [= <-].
Qed.

Lemma lb_activated_flags p l l' : Lb.activated p l = Some l' → Lb.more l' = Lb.more l ∧ Lb.dropping l' = Lb.dropping l.
Proof.
  unfold Lb.activated. destruct (index _ _); [|done]. cbn [mbind option_bind].
  destruct (swap _ _ _); [|done]. cbn [mbind option_bind]. by intros [= <-].
Qed.

(** A new pipe, to which one message may have been written. *)
Lemma lb_attach_fresh p m l w w' g : Lb.inv is_more l w g → p ∉ items (Lb.pipes l) → written w p = [] → is_more m = false →
  written w' p = [] ∨ written w' p = [m] → (∀ q, q ≠ p → written w' q = written w q) →
  ∃ l' g', Lb.attach p l = Some l' ∧ Lb.inv is_more l' w' g' ∧ (∀ q, q ∈ items (Lb.pipes l') ↔ q = p ∨ q ∈ items (Lb.pipes l)).
Proof.
  intros H Hp He Hm Hw Ho. pose proof (lb_inv_forget p l w g H Hp) as H1.
  destruct (Lb.lb_attach_inv is_more p l w _ H1 Hp He) as (l' & Heq & H2 & Hit).
  { cbn [Lb.history]. by rewrite delivered_forget, decide_True. }
  exists l'. destruct Hw as [Hw|Hw].
  - eexists. split_and!; [done| |done]. eapply lb_inv_written; [exact H2|]. intros q.
    destruct (decide (q = p)) as [->|Hq]; [congruence|by apply Ho].
  - destruct (lb_inv_probe p m l' w w' _ H2 Hm He) as [g' H3]; [by rewrite He, Hw|done|]. by exists g'.
Qed.

(** Terminating a pipe between messages. *)
Lemma lb_terminated_flags p l l' : Lb.pipe_terminated p l = Some l' → Lb.more l = false →
  Lb.more l' = false ∧ Lb.dropping l' = Lb.dropping l.
Proof.
  unfold Lb.pipe_terminated. intros Hs Hm. destruct (index p _) as [i|]; [|done]. cbn [mbind option_bind] in Hs.
  rewrite decide_False in Hs by (intros [_ ?]; congruence).
  destruct (if decide _ then _ else _) as [[[ps ac] cur]|]; [|done]. cbn [mbind option_bind] in Hs.
  destruct (erase p ps) as [ps'|]; [|done]. cbn [mbind option_bind] in Hs. by simplify_eq.
Qed.
End frame.

(** Terminating a pipe can corrupt a message that is exchanged with another
    one.  With the pipes 1, 2 and 3 attached, in the middle of a two-part message
    of pipe 3 the end of pipe 2 moves pipe 3 to index 1 and resets [_current] to
    0, since [_current] is compared with the new number of active pipes.  The
    fair queue then returns a message of pipe 1 as the second part, or, when
    pipe 1 has none, fails the assertion [!_more]; the load balancer writes the
    second part to pipe 1 and flushes it there as a message of its own. *)
Theorem terminated_mid_message :
  Fq.run_mid (λ p, if decide (p = 1) then [(10, false); (11, false)]
                   else if decide (p = 2) then [(20, false)] else [(30, true); (31, false)]) =
     Some ([((10, false), 1); ((20, false), 2); ((30, true), 3)], Some (Some ((11, false), 1))) ∧
  Fq.run_mid (λ p, if decide (p = 1) then [(10, false)]
                   else if decide (p = 2) then [(20, false)] else [(30, true); (31, false)]) =
     Some ([((10, false), 1); ((20, false), 2); ((30, true), 3)], None) ∧
  Lb.run_mid = Some ([(10, false); (31, false)], [(30, true)]).
Proof. split_and!; vm_compute; reflexivity. Qed.
End Dealer.
