(* ===== verification/Req.v ===== *)
(** * The request socket

    [req_t] (src/req.cpp) is a dealer that sends requests and receives replies
    in turn: a request is an optional id, an empty part and the body; a reply is
    taken from the pipe the request went to if that pipe is still there, and the
    messages that do not begin that way are skipped.  [req_session_t] checks the
    same form in the session that reads from the engine.

    The theorems: no operation aborts and every loop ends; sending and receiving
    alternate; a request goes whole to one pipe, or nothing of it stays in any, and
    stale replies are dropped;
    the reply is the body of the first message of the right form from the right
    pipe; the session passes exactly the messages of that form. *)

From S2P Require Import Prelude Msg Array PipeIface SubMsg Recv Fq Lb Dealer.
Import Array SubMsg Recv Dealer.

Module Req.

Definition ZMQ_REQ_CORRELATE := 52.
Definition ZMQ_REQ_RELAXED := 53.

(** A [uint32_t] in the memory of a little-endian host. *)
Definition le32 (v : Z) : list Z := [u8 v; u8 (Z.shiftr v 8); u8 (Z.shiftr v 16); u8 (Z.shiftr v 24)].
Definition uint32_at (l : list Z) : Z := foldr (λ b acc, b + 256 * acc) 0 l.

(** The data members. *)
Record req := Req {
  dealer_ : dealer;
  receiving_reply : bool;          (* a request was sent *)
  message_begins : bool;           (* the envelope comes next *)
  reply_pipe : option Z;
  request_id_frames_enabled : bool;
  request_id : Z;
  strict : bool }.

Definition req_new (random : Z) : req := Req dealer_new false true None false random true.

Definition set_dealer d x :=
  Req d (receiving_reply x) (message_begins x) (reply_pipe x) (request_id_frames_enabled x) (request_id x) (strict x).
Definition set_state rr mb x :=
  Req (dealer_ x) rr mb (reply_pipe x) (request_id_frames_enabled x) (request_id x) (strict x).
Definition set_reply_pipe p x :=
  Req (dealer_ x) (receiving_reply x) (message_begins x) p (request_id_frames_enabled x) (request_id x) (strict x).
Definition set_request_id v x :=
  Req (dealer_ x) (receiving_reply x) (message_begins x) (reply_pipe x) (request_id_frames_enabled x) v (strict x).

Definition id_part (v : Z) : part := Part (le32 v) Msg.more None.
Definition bottom_part : part := Part [] Msg.more None.

Section req.
Context {W : Type} `{!InPipes part W} `{!OutPipes part W}.

(** [dealer_t::sendpipe (&msg, &_reply_pipe)] *)
Definition send_header (msg : part) (x : req) (w : W) : option (rc * req * W) :=
  '(r, p, d, w) ← Dealer.sendpipe msg (dealer_ x) w;
  let x := set_dealer d x in
  Some (rc_of r, match p with Some p => set_reply_pipe (Some p) x | None => x end, w).

(** [while (true)]: all the messages that can be read are dropped. *)
Fixpoint drain (fuel : nat) (x : req) (w : W) : option (req * W) :=
  match fuel with
  | O => None
  | S fuel =>
      '(r, d, w) ← Dealer.xrecv (dealer_ x) w;
      let x := set_dealer d x in
      match r with None => Some (x, w) | Some _ => drain fuel x w end
  end.

(** [if (_message_begins)] of [xsend] *)
Definition begin_request (fuel : nat) (x : req) (w : W) : option (rc * req * W) :=
  let x := set_reply_pipe None x in
  '(r, x, w) ←
    (if request_id_frames_enabled x then
       let x := set_request_id (u32 (request_id x + 1)) x in
       send_header (id_part (request_id x)) x w
     else Some (RcOk, x, w));
  if negb (bool_decide (r = RcOk)) then Some (r, x, w)
  else
    '(r, x, w) ← send_header bottom_part x w;
    if negb (bool_decide (r = RcOk)) then Some (r, x, w)
    else
      _ ← zmq_assert (bool_decide (is_Some (reply_pipe x)));
      '(x, w) ← drain fuel (set_state (receiving_reply x) false x) w;
      Some (RcOk, x, w).

Definition xsend (fuel : nat) (msg : part) (x : req) (w : W) : option (rc * req * W) :=
  if receiving_reply x && strict x then Some (RcErr EFSM, x, w)
  else
    let x := if receiving_reply x then set_state false true x else x in
    '(r, x, w) ← (if message_begins x then begin_request fuel x w else Some (RcOk, x, w));
    if negb (bool_decide (r = RcOk)) then Some (r, x, w)
    else
      let more := is_more msg in
      '(r, d, w) ← Dealer.xsend msg (dealer_ x) w;
      let x := set_dealer d x in
      if negb (bool_decide (rc_of r = RcOk)) then Some (rc_of r, x, w)
      else Some (RcOk, if negb more then set_state true true x else x, w).

Fixpoint recv_reply_pipe (fuel : nat) (x : req) (w : W) : option (option part * req * W) :=
  match fuel with
  | O => None
  | S fuel =>
      '(r, d, w) ← Dealer.recvpipe (dealer_ x) w;
      let x := set_dealer d x in
      match r with
      | None => Some (None, x, w)
      | Some (msg, pipe) =>
          if bool_decide (reply_pipe x = None) || bool_decide (Some pipe = reply_pipe x) then Some (Some msg, x, w)
          else recv_reply_pipe fuel x w
      end
  end.

(** [while (msg->flags () & more) { rc = recv_reply_pipe (msg); errno_assert (rc == 0); }] *)
Fixpoint skip_rest (fuel : nat) (msg : part) (x : req) (w : W) : option (req * W) :=
  match fuel with
  | O => None
  | S fuel =>
      if is_more msg then
        '(r, x, w) ← recv_reply_pipe (S fuel) x w;
        msg ← r;
        skip_rest fuel msg x w
      else Some (x, w)
  end.

Definition id_matches (msg : part) (x : req) : bool :=
  is_more msg && (length (p_data msg) =? 4)%nat && (uint32_at (p_data msg) =? request_id x).

(** [while (_message_begins)] of [xrecv] *)
Fixpoint begin_reply (fuel : nat) (x : req) (w : W) : option (rc * req * W) :=
  match fuel with
  | O => None
  | S fuel =>
      if negb (message_begins x) then Some (RcOk, x, w)
      else
        '(first, x, w) ← (if request_id_frames_enabled x then recv_reply_pipe (S fuel) x w else Some (Some bottom_part, x, w));
        match first with
        | None => Some (RcErr EAGAIN, x, w)
        | Some msg =>
            if request_id_frames_enabled x && negb (id_matches msg x) then
              '(x, w) ← skip_rest (S fuel) msg x w; begin_reply fuel x w
            else
              '(second, x, w) ← recv_reply_pipe (S fuel) x w;
              match second with
              | None => Some (RcErr EAGAIN, x, w)
              | Some msg =>
                  if negb (is_more msg && bool_decide (p_data msg = [])) then
                    '(x, w) ← skip_rest (S fuel) msg x w; begin_reply fuel x w
                  else begin_reply fuel (set_state (receiving_reply x) false x) w
              end
        end
  end.

Definition xrecv (fuel : nat) (x : req) (w : W) : option (rc * option part * req * W) :=
  if negb (receiving_reply x) then Some (RcErr EFSM, None, x, w)
  else
    '(r, x, w) ← begin_reply fuel x w;
    if negb (bool_decide (r = RcOk)) then Some (r, None, x, w)
    else
      '(m, x, w) ← recv_reply_pipe fuel x w;
      match m with
      | None => Some (RcErr EAGAIN, None, x, w)
      | Some msg => Some (RcOk, Some msg, if negb (is_more msg) then set_state false true x else x, w)
      end.

Definition xhas_in (x : req) (w : W) : option (bool * req * W) :=
  if negb (receiving_reply x) then Some (false, x, w)
  else '(b, d, w) ← Dealer.xhas_in (dealer_ x) w; Some (b, set_dealer d x, w).

Definition xhas_out (x : req) (w : W) : option (bool * req * W) :=
  if receiving_reply x && strict x then Some (false, x, w)
  else '(b, d, w) ← Dealer.xhas_out (dealer_ x) w; Some (b, set_dealer d x, w).

Definition xsetsockopt (option_ : Z) (optval : list Z) (x : req) : rc * req :=
  let is_int := (length optval =? 4)%nat && (0 <=? int_value optval) in
  if (option_ =? ZMQ_REQ_CORRELATE) && is_int then
    (RcOk, Req (dealer_ x) (receiving_reply x) (message_begins x) (reply_pipe x) (negb (int_value optval =? 0))
               (request_id x) (strict x))
  else if (option_ =? ZMQ_REQ_RELAXED) && is_int then
    (RcOk, Req (dealer_ x) (receiving_reply x) (message_begins x) (reply_pipe x) (request_id_frames_enabled x)
               (request_id x) (int_value optval =? 0))
  else let '(r, d) := Dealer.xsetsockopt option_ optval (dealer_ x) in (r, set_dealer d x).

Definition xpipe_terminated (pipe : Z) (x : req) : option req :=
  let x := if bool_decide (reply_pipe x = Some pipe) then set_reply_pipe None x else x in
  d ← Dealer.xpipe_terminated pipe (dealer_ x);
  Some (set_dealer d x).
End req.

(** ** [req_session_t] *)

Inductive session_state := Bottom | Request_id | Body.

(** [push_msg]: the state, and whether the message goes on to the socket;
    [None] is -1 with EFAULT. *)
Definition push_msg (st : session_state) (msg : part) : option (session_state * bool) :=
  if negb (Z.land (p_flags msg) Msg.command =? 0) then Some (st, false)
  else
    match st with
    | Bottom =>
        if p_flags msg =? Msg.more then
          if p_size msg =? 4 then Some (Request_id, true)
          else if p_size msg =? 0 then Some (Body, true)
          else None
        else None
    | Request_id => if (p_flags msg =? Msg.more) && (p_size msg =? 0) then Some (Body, true) else None
    | Body => if p_flags msg =? Msg.more then Some (Body, true) else if p_flags msg =? 0 then Some (Bottom, true) else None
    end.

Definition session_reset (st : session_state) : session_state := Bottom.

(** * Correctness *)

(** The pipes a reply may come from. *)
Definition from (x : req) (q : Z) : Prop := reply_pipe x = None ∨ reply_pipe x = Some q.

Definition fq_of (x : req) : Fq.fq := fq (dealer_ x).
Definition lb_of (x : req) : Lb.lb := lb (dealer_ x).
Definition pipes_of (x : req) : list Z := items (Fq.pipes (fq_of x)).
Definition with_fq (f : Fq.fq) (x : req) : req := set_dealer (Dealer f (lb_of x) (probe_router (dealer_ x))) x.

Section correct.
Context {W : Type} `{!InPipes part W} `{!OutPipes part W} `{!InPipesLaws part W} `{!OutPipesLaws part W is_more}.
Context `{!DuplexPipes part W is_more} `{!OutPipesNext part W is_more}.

(** Reading only takes from the front. *)
Definition shrinks (w w' : W) : Prop := ∀ q, ∃ a, content w q = a ++ content w' q.

Lemma shrinks_refl w : shrinks w w.
Proof. intros q. by exists []. Qed.

Lemma shrinks_trans w1 w2 w3 : shrinks w1 w2 → shrinks w2 w3 → shrinks w1 w3.
Proof. intros H1 H2 q. destruct (H1 q) as [a ->], (H2 q) as [b ->]. exists (a ++ b). by rewrite (assoc_L app). Qed.

Lemma shrinks_nil w w' q : shrinks w w' → content w q = [] → content w' q = [].
Proof. intros H Hq. destruct (H q) as [a Ha]. rewrite Hq in Ha. symmetry in Ha. by apply app_eq_nil in Ha as [_ ?]. Qed.

Lemma shrinks_avail w w' L : shrinks w w' → (avail w' L ≤ avail w L)%nat.
Proof. intros H. apply avail_mono. intros q _. destruct (H q) as [a ->]. rewrite length_app. lia. Qed.

(** What every read keeps. *)
Record reads (f f' : Fq.fq) (w w' : W) : Prop := {
  d_fq : Fq.inv is_more f' w';
  d_items q : q ∈ items (Fq.pipes f') ↔ q ∈ items (Fq.pipes f);
  d_written q : written w' q = written w q;
  d_shrinks : shrinks w w';
  d_served : served f f' w' }.

Lemma reads_refl f w : Fq.inv is_more f w → reads f f w w.
Proof. intros H. split; try done; [apply shrinks_refl|]. intros q Hq. by left. Qed.

Lemma reads_trans f1 f2 f3 w1 w2 w3 : reads f1 f2 w1 w2 → reads f2 f3 w2 w3 → reads f1 f3 w1 w3.
Proof.
  intros [Ha1 Ha2 Ha3 Ha4 Ha5] [Hb1 Hb2 Hb3 Hb4 Hb5]. split; [done| | | |].
  - intros q. by rewrite Hb2, Ha2.
  - intros q. by rewrite Hb3, Ha3.
  - by eapply shrinks_trans.
  - eapply served_trans; [done|done|]. intros q. by apply shrinks_nil.
Qed.

Lemma recvpipe_reads f w : Fq.inv is_more f w →
  ∃ r f' w', Fq.recvpipe is_more f w = Some (r, f', w') ∧ reads f f' w w' ∧
    match r with
    | Some (m, p) =>
        p ∈ items (Fq.pipes f) ∧ content w p = m :: content w' p ∧ (∀ q, q ≠ p → content w' q = content w q) ∧
        Fq.more f' = is_more m ∧ (is_more m = true → items (Fq.pipes f') !! Fq.current f' = Some p) ∧
        (Fq.more f = true → items (Fq.pipes f) !! Fq.current f = Some p) ∧
        (avail w' (items (Fq.pipes f)) < avail w (items (Fq.pipes f)))%nat
    | None =>
        (∀ q, Fq.is_active f q → content w' q = []) ∧ (∀ q, content w' q = content w q) ∧
        Fq.more f = false ∧ Fq.more f' = false
    end.
Proof.
  intros H. destruct (recvpipe_ok f w H) as (r & f1 & w1 & Heq & H1 & Hit & Hw & Hs & Hr). exists r, f1, w1. split; [done|].
  destruct r as [[m p]|].
  - destruct Hr as (Hp & Hc & Ho & Hm & Hcur & Hsame). split.
    + split; [done..| |done]. intros q. destruct (decide (q = p)) as [->|Hq]; [by exists [m]|]. exists []. by rewrite Ho.
    + split_and!; [done..|]. apply (avail_lt w w1 _ p); [done|rewrite Hc; cbn; lia|].
      intros q _. destruct (decide (q = p)) as [->|Hq]; [rewrite Hc; cbn; lia|by rewrite Ho].
  - destruct Hr as (He & Hc & Hm & Hm'). split; [|done]. split; [done..| |done]. intros q. exists []. by rewrite Hc.
Qed.

(** ** [recv_reply_pipe] *)

Definition got (x : req) (f f' : Fq.fq) (w w' : W) (r : option part) : Prop :=
  match r with
  | Some m =>
      ∃ p, from x p ∧ p ∈ items (Fq.pipes f) ∧ content w p = m :: content w' p ∧
        (∀ q, q ≠ p → from x q → content w' q = content w q) ∧
        Fq.more f' = is_more m ∧ (is_more m = true → items (Fq.pipes f') !! Fq.current f' = Some p) ∧
        (Fq.more f = true → ∀ q, items (Fq.pipes f) !! Fq.current f = Some q → from x q → p = q) ∧
        (avail w' (items (Fq.pipes f)) < avail w (items (Fq.pipes f)))%nat
  | None =>
      Fq.more f' = false ∧ (∀ q, from x q → content w' q = content w q) ∧ (∀ q, Fq.is_active f q → content w' q = []) ∧
      (Fq.more f = true → ∀ q, items (Fq.pipes f) !! Fq.current f = Some q → ¬ from x q)
  end.

Lemma avail_items f f' w w' w2 : Fq.inv is_more f w → reads f f' w w' →
  avail w2 (items (Fq.pipes f')) = avail w2 (items (Fq.pipes f)).
Proof.
  intros H Hr. apply avail_perm; [apply (ok_nodup _ (Fq.i_ok _ _ _ (d_fq _ _ _ _ Hr)))|apply (ok_nodup _ (Fq.i_ok _ _ _ H))|].
  apply (d_items _ _ _ _ Hr).
Qed.

Lemma from_spec x p : (bool_decide (reply_pipe x = None) || bool_decide (Some p = reply_pipe x)) = true ↔ from x p.
Proof. rewrite orb_true_iff, !bool_decide_eq_true. unfold from. intuition. Qed.

Lemma recv_reply_ok fuel : ∀ x w, Fq.inv is_more (fq_of x) w → (avail w (pipes_of x) < fuel)%nat →
  ∃ r f' w', recv_reply_pipe fuel x w = Some (r, with_fq f' x, w') ∧ reads (fq_of x) f' w w' ∧ got x (fq_of x) f' w w' r.
Proof.
  induction fuel as [|fuel IH]; intros x w H Hf; [lia|]. cbn [recv_reply_pipe]. unfold Dealer.recvpipe.
  destruct (recvpipe_reads (fq_of x) w H) as (r & f1 & w1 & Heq & Hr1 & Hr). unfold fq_of in Heq. rewrite Heq. cbn [mbind option_bind].
  change (set_dealer (Dealer f1 (lb (dealer_ x)) (probe_router (dealer_ x))) x) with (with_fq f1 x).
  destruct r as [[m p]|].
  - destruct Hr as (Hp & Hc & Ho & Hm & Hcur & Hsame & Hlt).
    change (reply_pipe (with_fq f1 x)) with (reply_pipe x).
    destruct (bool_decide (reply_pipe x = None) || bool_decide (Some p = reply_pipe x)) eqn:Hfrom.
    + apply from_spec in Hfrom. exists (Some m), f1, w1. split_and!; [done..|]. exists p. split_and!; [done|done|done| |done|done| |done].
      * intros q Hq _. by apply Ho.
      * intros Hmf q Hq _. specialize (Hsame Hmf). unfold fq_of in *. congruence.
    + assert (Hnf : ¬ from x p) by (intros Hx%from_spec; congruence).
      pose proof (avail_items _ _ _ _ w1 H Hr1) as Hav. unfold pipes_of in *.
      destruct (IH (with_fq f1 x) w1) as (r & f2 & w2 & Heq2 & Hr2 & Hg2); [apply Hr1|unfold fq_of, with_fq in *; cbn in *; lia|].
      change (fq_of (with_fq f1 x)) with f1 in *. change (with_fq f2 (with_fq f1 x)) with (with_fq f2 x) in Heq2.
      assert (Hsm : ∀ q, from x q → content w1 q = content w q) by (intros q Hq; apply Ho; by intros ->).
      assert (Hcq : Fq.more (fq_of x) = true → ∀ q, items (Fq.pipes (fq_of x)) !! Fq.current (fq_of x) = Some q → ¬ from x q).
      { intros Hmf q Hq. specialize (Hsame Hmf). unfold fq_of in *. congruence. }
      exists r, f2, w2. split_and!; [done|by eapply reads_trans|]. destruct r as [m2|].
      * destruct Hg2 as (p2 & Hfr & Hp2 & Hc2 & Ho2 & Hm2 & Hcur2 & _ & Hlt2). exists p2. change (from (with_fq f1 x)) with (from x) in *.
        split_and!; [done|by apply Hr1|by rewrite <- Hsm, Hc2| |done|done| |].
        -- intros q Hq Hfq. by rewrite Ho2, Hsm.
        -- intros Hmf q Hq Hfq. by destruct (Hcq Hmf q Hq).
        -- rewrite !(avail_items _ _ _ _ _ H Hr1) in Hlt2. lia.
      * destruct Hg2 as (Hm2 & Hc2 & He2 & _). change (from (with_fq f1 x)) with (from x) in *. split_and!; [done| | |done].
        -- intros q Hq. by rewrite Hc2, Hsm.
        -- intros q Hq. destruct (d_served _ _ _ _ Hr1 q Hq) as [Ha|He]; [by apply He2|].
           by apply (shrinks_nil w1), He; apply Hr2.
  - destruct Hr as (He & Hc & Hm & Hm'). exists None, f1, w1.
    split; [done|]. split; [done|]. unfold got. split_and!; [done|intros q _; apply Hc|done|intros Ht; unfold fq_of in *; congruence].
Qed.

(** ** Skipping the rest of a message *)

Lemma skip_rest_ok p fuel : ∀ m x w, Fq.inv is_more (fq_of x) w → (avail w (pipes_of x) < fuel)%nat → from x p →
  Fq.more (fq_of x) = is_more m → (is_more m = true → pipes_of x !! Fq.current (fq_of x) = Some p) →
  ∃ rest f' w', skip_rest fuel m x w = Some (with_fq f' x, w') ∧ reads (fq_of x) f' w w' ∧ Fq.more f' = false ∧
    one_message (m :: rest) ∧ content w p = rest ++ content w' p ∧ (∀ q, q ≠ p → from x q → content w' q = content w q).
Proof.
  induction fuel as [|fuel IH]; intros m x w H Hf Hp Hm Hcur; [lia|]. cbn [skip_rest]. destruct (is_more m) eqn:Hmm.
  - destruct (recv_reply_ok (S fuel) x w H Hf) as (r & f1 & w1 & -> & Hr1 & Hg). cbn [mbind option_bind].
    specialize (Hcur eq_refl). destruct r as [m1|]; [|by destruct Hg as (_ & _ & _ & Hn); destruct (Hn Hm p Hcur)].
    destruct Hg as (p1 & _ & _ & Hc & Ho & Hm1 & Hcur1 & Hsame & Hlt). assert (p1 = p) as -> by by apply Hsame. cbn [mbind option_bind].
    destruct (IH m1 (with_fq f1 x) w1) as (rest & f2 & w2 & Heq & Hr2 & Hm2 & Hone & Hc2 & Ho2); try done; [apply Hr1| |].
    { unfold pipes_of. change (fq_of (with_fq f1 x)) with f1. rewrite (avail_items _ _ _ _ w1 H Hr1). unfold pipes_of in *. lia. }
    exists (m1 :: rest), f2, w2. split_and!; [exact Heq|by eapply reads_trans|done| | |].
    + cbn [one_message]. by rewrite Hmm.
    + by rewrite Hc, Hc2.
    + intros q Hq Hfq. by rewrite Ho2, Ho.
  - exists [], (fq_of x), w. split_and!; [by destruct x as [[] ? ? ? ? ? ?]|by apply reads_refl|done|cbn; by rewrite Hmm|done|done].
Qed.

(** ** The beginning of a reply *)

(** The body of a message of the right form. *)
Definition good (x : req) (ms : list part) : option (list part) :=
  let rest ms := match ms with
                 | b :: body => if is_more b && bool_decide (p_data b = []) then Some body else None
                 | [] => None
                 end in
  if request_id_frames_enabled x
  then match ms with a :: ms => if id_matches a x then rest ms else None | [] => None end
  else rest ms.

Definition bad (x : req) (ms : list part) : Prop := one_message ms ∧ good x ms = None.

(** What [begin_reply] reads: bad messages [sk], and then the header [hdr] of a
    good one of [p], or nothing more. *)
Definition begun (x : req) (f f' : Fq.fq) (w w' : W) (sk : list (Z * list part)) (r : option (Z * list part)) : Prop :=
  reads f f' w w' ∧ Forall (λ s, from x s.1 ∧ bad x s.2) sk ∧
  match r with
  | Some (p, hdr) =>
      from x p ∧ (∀ body, good x (hdr ++ body) = Some body) ∧ Fq.more f' = true ∧
      items (Fq.pipes f') !! Fq.current f' = Some p ∧ content w p = taken p sk ++ hdr ++ content w' p ∧
      (∀ q, q ≠ p → from x q → content w q = taken q sk ++ content w' q)
  | None =>
      Fq.more f' = false ∧ (∀ q, from x q → content w q = taken q sk ++ content w' q) ∧
      (∀ q, Fq.is_active f q → content w' q = [])
  end.

(** After a bad message. *)
Lemma begun_skip x f f1 f2 w w1 w2 sk r p ms : reads f f1 w w1 → from x p → bad x ms →
  content w p = ms ++ content w1 p → (∀ q, q ≠ p → from x q → content w1 q = content w q) →
  begun x f1 f2 w1 w2 sk r → begun x f f2 w w2 ((p, ms) :: sk) r.
Proof.
  intros Hr1 Hp Hb Hc Ho (Hr2 & Hsk & Hres). split; [by eapply reads_trans|]. split; [by constructor|].
  assert (Htk : ∀ q l, from x q → content w1 q = l → content w q = (if decide (q = p) then ms else []) ++ l).
  { intros q l Hq <-. case_decide as Hqp; [by subst|]. by rewrite Ho. }
  destruct r as [[p2 hdr]|].
  - destruct Hres as (Hp2 & Hg & Hm & Hcur & Hc2 & Ho2). split_and!; [done..| |]; cbn [taken].
    + rewrite <- (assoc_L app). by apply Htk.
    + intros q Hq Hfq. rewrite <- (assoc_L app). by apply Htk, Ho2.
  - destruct Hres as (Hm & Hc2 & He). split_and!; [done| |].
    + intros q Hfq. cbn [taken]. rewrite <- (assoc_L app). by apply Htk, Hc2.
    + intros q Hq. destruct (d_served _ _ _ _ Hr1 q Hq) as [Ha|Hn]; [by apply He|]. eapply shrinks_nil; [apply Hr2|done].
Qed.

Definition begin_result (x : req) (f' : Fq.fq) (r : option (Z * list part)) : rc * req :=
  match r with
  | Some _ => (RcOk, set_state (receiving_reply x) false (with_fq f' x))
  | None => (RcErr EAGAIN, with_fq f' x)
  end.

Lemma begun_bad_step n (x : req) w pre m p f1 w1 : Fq.inv is_more (fq_of x) w →
  (∀ y w, Fq.inv is_more (fq_of y) w → Fq.more (fq_of y) = false → message_begins y = true → (S (avail w (pipes_of y)) < n)%nat →
     ∃ f' w' sk r, begin_reply n y w = Some ((begin_result y f' r).1, (begin_result y f' r).2, w') ∧
       begun y (fq_of y) f' w w' sk r) →
  message_begins x = true → (S (avail w (pipes_of x)) < S n)%nat →
  from x p → reads (fq_of x) f1 w w1 → content w p = pre ++ m :: content w1 p →
  (∀ q, q ≠ p → from x q → content w1 q = content w q) → Fq.more f1 = is_more m →
  (is_more m = true → items (Fq.pipes f1) !! Fq.current f1 = Some p) →
  (avail w1 (pipes_of x) < avail w (pipes_of x))%nat → (∀ rest, one_message (m :: rest) → bad x (pre ++ m :: rest)) →
  ∃ f' w' sk r, ('(y, w) ← skip_rest (S n) m (with_fq f1 x) w1; begin_reply n y w) =
      Some ((begin_result x f' r).1, (begin_result x f' r).2, w') ∧ begun x (fq_of x) f' w w' sk r.
Proof.
  intros H IH Hmb Hn Hp Hr1 Hc Ho Hm Hcur Hlt Hbad.
  assert (Hav1 : avail w1 (pipes_of (with_fq f1 x)) = avail w1 (pipes_of x)) by apply (avail_items _ _ _ _ w1 H Hr1).
  destruct (skip_rest_ok p (S n) m (with_fq f1 x) w1) as (rest & f2 & w2 & -> & Hr2 & Hm2 & Hone & Hc2 & Ho2); [apply Hr1|lia|done..|].
  change (fq_of (with_fq f1 x)) with f1 in Hr2. change (with_fq f2 (with_fq f1 x)) with (with_fq f2 x). cbn [mbind option_bind].
  pose proof (reads_trans _ _ _ _ _ _ Hr1 Hr2) as Hr12.
  pose proof (shrinks_avail w1 w2 (pipes_of x) (d_shrinks _ _ _ _ Hr2)) as Hle.
  assert (Hav2 : avail w2 (pipes_of (with_fq f2 x)) = avail w2 (pipes_of x)) by apply (avail_items _ _ _ _ w2 H Hr12).
  destruct (IH (with_fq f2 x) w2) as (f3 & w3 & sk & r & -> & Hb); [apply Hr2|done|done|lia|].
  exists f3, w3, ((p, pre ++ m :: rest) :: sk), r. split; [by destruct r|].
  apply (begun_skip x (fq_of x) f2 f3 w w2 w3 sk r p); [done|done|by apply Hbad| | |exact Hb].
  - rewrite Hc, Hc2, <- (assoc_L app). done.
  - intros q Hq Hfq. by rewrite Ho2, Ho.
Qed.

(** The empty part, after [pre]. *)
Lemma second_step n (x : req) w pre f0 w0 p0 : Fq.inv is_more (fq_of x) w →
  (∀ y w, Fq.inv is_more (fq_of y) w → Fq.more (fq_of y) = false → message_begins y = true → (S (avail w (pipes_of y)) < n)%nat →
     ∃ f' w' sk r, begin_reply n y w = Some ((begin_result y f' r).1, (begin_result y f' r).2, w') ∧
       begun y (fq_of y) f' w w' sk r) →
  message_begins x = true → (S (avail w (pipes_of x)) < S n)%nat → reads (fq_of x) f0 w w0 →
  (avail w0 (pipes_of x) ≤ avail w (pipes_of x))%nat →
  (* either nothing was read, or the first part [pre] of a message of [p0] *)
  (pre = [] ∧ w0 = w ∧ f0 = fq_of x ∧ Fq.more f0 = false ∧ request_id_frames_enabled x = false ∨
   ∃ a, pre = [a] ∧ from x p0 ∧ content w p0 = a :: content w0 p0 ∧ (∀ q, q ≠ p0 → from x q → content w0 q = content w q) ∧
     Fq.more f0 = true ∧ items (Fq.pipes f0) !! Fq.current f0 = Some p0 ∧
     request_id_frames_enabled x = true ∧ id_matches a x = true) →
  ∃ f' w' sk r,
    ('(second, x, w) ← recv_reply_pipe (S n) (with_fq f0 x) w0;
     match second with
     | None => Some (RcErr EAGAIN, x, w)
     | Some msg =>
         if negb (is_more msg && bool_decide (p_data msg = [])) then
           '(x, w) ← skip_rest (S n) msg x w; begin_reply n x w
         else begin_reply n (set_state (receiving_reply x) false x) w
     end) = Some ((begin_result x f' r).1, (begin_result x f' r).2, w') ∧ begun x (fq_of x) f' w w' sk r.
Proof.
  intros H IH Hmb Hn Hr0 Hle Hpre.
  assert (Hav0 : avail w0 (pipes_of (with_fq f0 x)) = avail w0 (pipes_of x)) by apply (avail_items _ _ _ _ w0 H Hr0).
  destruct (recv_reply_ok (S n) (with_fq f0 x) w0) as (r & f1 & w1 & -> & Hr1 & Hg); [apply Hr0|lia|]. cbn [mbind option_bind].
  change (fq_of (with_fq f0 x)) with f0 in *. change (with_fq f1 (with_fq f0 x)) with (with_fq f1 x).
  pose proof (reads_trans _ _ _ _ _ _ Hr0 Hr1) as Hr01. destruct r as [m|].
  - destruct Hg as (p & Hp & _ & Hc & Ho & Hm & Hcur & Hsame & Hlt). change (from (with_fq f0 x)) with (from x) in *.
    rewrite !(avail_items _ _ _ _ _ H Hr0) in Hlt.
    assert (content w p = pre ++ m :: content w1 p ∧ (∀ q, q ≠ p → from x q → content w1 q = content w q)) as [Hcp Hco].
    { destruct Hpre as [(-> & -> & -> & _)|(a & -> & Hp0 & Hc0 & Ho0 & Hm0 & Hcur0 & _)]; [by split|].
      specialize (Hsame Hm0 p0 Hcur0 Hp0). subst p. split; [by rewrite Hc0, Hc|]. intros q Hq Hfq. by rewrite Ho, Ho0. }
    assert (Hgood : ∀ rest, good x (pre ++ m :: rest) = if is_more m && bool_decide (p_data m = []) then Some rest else None).
    { intros rest. unfold good. destruct Hpre as [(-> & _ & _ & _ & ->)|(a & -> & _ & _ & _ & _ & _ & -> & Hid)]; [done|]. cbn. by rewrite Hid. }
    destruct (is_more m && bool_decide (p_data m = [])) eqn:Hbot; cbn [negb].
    + apply andb_true_iff in Hbot as [Hmm Hd]. destruct n as [|n]; [lia|]. cbn [begin_reply set_state message_begins negb].
      exists f1, w1, [], (Some (p, pre ++ [m])). split; [done|]. split; [done|]. split; [constructor|].
      split_and!; [done| |congruence|by apply Hcur| |].
      * intros body. rewrite <- (assoc_L app). cbn. by rewrite Hgood.
      * cbn [taken app]. rewrite <- (assoc_L app). exact Hcp.
      * intros q Hq Hfq. cbn. by rewrite Hco.
    + apply (begun_bad_step n x w pre m p f1 w1); try done; [unfold pipes_of, fq_of in *; lia|].
      intros rest Hone. split; [|by rewrite Hgood]. destruct Hpre as [(-> & _)|(a & -> & _ & _ & _ & _ & _ & _ & Hid)]; [done|].
      cbn. apply andb_true_iff in Hid as [Hid _]. apply andb_true_iff in Hid as [-> _]. done.
  - destruct Hg as (Hm1 & Hc1 & He1 & Hn1). change (from (with_fq f0 x)) with (from x) in *.
    destruct Hpre as [(-> & -> & -> & Hm0 & _)|(a & -> & Hp0 & _ & _ & Hm0 & Hcur0 & _)]; [|by destruct (Hn1 Hm0 p0 Hcur0)].
    exists f1, w1, [], None. split; [done|]. split; [done|]. split; [constructor|]. split_and!; [done| |done].
    intros q Hq. cbn. by rewrite Hc1.
Qed.

Lemma begin_reply_ok fuel : ∀ x w, Fq.inv is_more (fq_of x) w → Fq.more (fq_of x) = false → message_begins x = true →
  (S (avail w (pipes_of x)) < fuel)%nat →
  ∃ f' w' sk r, begin_reply fuel x w = Some ((begin_result x f' r).1, (begin_result x f' r).2, w') ∧
    begun x (fq_of x) f' w w' sk r.
Proof.
  induction fuel as [|n IH]; intros x w H Hm Hmb Hn; [lia|]. cbn [begin_reply]. rewrite Hmb. cbn [negb].
  assert (Hself : with_fq (fq_of x) x = x) by (by destruct x as [[] ? ? ? ? ? ?]).
  destruct (request_id_frames_enabled x) eqn:Hfr; cbn [andb].
  - destruct (recv_reply_ok (S n) x w H) as (r & f1 & w1 & -> & Hr1 & Hg); [lia|]. cbn [mbind option_bind].
    change (id_matches) with id_matches. destruct r as [m|].
    + destruct Hg as (p & Hp & _ & Hc & Ho & Hm1 & Hcur & _ & Hlt).
      change (request_id_frames_enabled (with_fq f1 x)) with (request_id_frames_enabled x). rewrite Hfr.
      change (id_matches m (with_fq f1 x)) with (id_matches m x). cbn [andb]. destruct (id_matches m x) eqn:Hid; cbn [negb].
      * assert (Hmm : is_more m = true) by (apply andb_true_iff in Hid as [Hid _]; by apply andb_true_iff in Hid as [? _]).
        apply (second_step n x w [m] f1 w1 p); try done; [unfold pipes_of, fq_of in *; lia|].
        right. exists m. split_and!; [done..|congruence|by apply Hcur|done|done].
      * apply (begun_bad_step n x w [] m p f1 w1); try done.
        intros rest Hone. split; [done|]. unfold good. rewrite Hfr. cbn. by rewrite Hid.
    + destruct Hg as (Hm1 & Hc1 & He1 & _). exists f1, w1, [], None. split; [done|]. split; [done|]. split; [constructor|].
      split_and!; [done| |done]. intros q Hq. cbn. by rewrite Hc1.
  - cbn [mbind option_bind]. rewrite Hfr. cbn [andb].
    pose proof (second_step n x w [] (fq_of x) w 0 H IH Hmb Hn (reads_refl _ _ H) (le_n _) ltac:(left; by split_and!)) as Hss.
    by rewrite Hself in Hss.
Qed.

(** ** Sending *)

Definition lb_idle (l : Lb.lb) : Prop := Lb.more l = false ∧ Lb.dropping l = false.

(** In the middle of a message to [p]. *)
Definition lb_middle (l : Lb.lb) (p : Z) : Prop :=
  Lb.more l = true ∧ Lb.dropping l = false ∧ items (Lb.pipes l) !! Lb.current l = Some p.

Definition with_lb (l : Lb.lb) (x : req) : req := set_dealer (Dealer (fq_of x) l (probe_router (dealer_ x))) x.

(** The pipe that takes a part took it in some state of the pipes. *)
Lemma send_loop_taken m n : ∀ l w l' w' p, Lb.send_loop is_more n m l w = Some (None, l', w') →
  Lb.active l' ≠ 0%nat → at_ (Lb.pipes l') (Lb.current l') = Some p → ∃ w0, out_write p m w0 = (true, w').
Proof.
  induction n as [|n IH]; intros l w l' w' p Hs Ha Hp; [done|]. rewrite Lb.send_loop_S in Hs.
  case_decide; [by simplify_eq|]. destruct (at_ (Lb.pipes l) (Lb.current l)) as [p1|] eqn:Hp1; [|done]. cbn [mbind option_bind] in Hs.
  destruct (out_write p1 m w) as [[] w1] eqn:Hw; [exists w; by simplify_eq|]. destruct (Lb.more l); [done|].
  destruct (if decide _ then _ else _) as [[ps cur]|]; [|done]. cbn [mbind option_bind] in Hs. by eapply IH.
Qed.

Lemma sendpipe_taken m l w p l' w' : Lb.dropping l = false → is_more m = true →
  Lb.sendpipe is_more m l w = Some (Lb.Sent, Some p, l', w') → ∃ w0, out_write p m w0 = (true, w').
Proof.
  intros Hd Hm. unfold Lb.sendpipe. rewrite Hd, Hm. destruct (Lb.send_loop is_more _ m l w) as [[[r l1] w1]|] eqn:Hl; [|done].
  cbn [mbind option_bind]. destruct r; [by intros; simplify_eq|]. case_decide; [done|].
  destruct (at_ _ _) as [p1|] eqn:Hp; [|done]. cbn [mbind option_bind]. intros. simplify_eq. by eapply send_loop_taken.
Qed.

(** The first part of a message. *)
Lemma lb_first m l w g : Lb.inv is_more l w g → lb_idle l →
  ∃ r d l' w', Lb.sendpipe is_more m l w = Some (r, d, l', w') ∧ (∃ g', Lb.inv is_more l' w' g') ∧
    (∀ q, q ∈ items (Lb.pipes l') ↔ q ∈ items (Lb.pipes l)) ∧ (∀ q, content w' q = content w q) ∧
    (r = Lb.Sent ∧ (∃ p, d = Some p ∧ Lb.wrote is_more m p w w' ∧ (if is_more m then lb_middle l' p else lb_idle l') ∧
       (is_more m = true → ∃ w0, out_write p m w0 = (true, w'))) ∨
     r = Lb.Again ∧ d = None ∧ lb_idle l' ∧ ∀ q, written w' q = written w q).
Proof.
  intros H [Hm Hd]. destruct (Lb.sendpipe_inv is_more m l w g H) as (r & d & l' & w' & Heq & H' & Hit & Ha & Hdr & Hs).
  destruct (sendpipe_frame _ _ _ _ _ _ _ Heq) as [Hc Hfr]. exists r, d, l', w'. split_and!; [done|eauto|done|done|].
  destruct r.
  - left. split; [done|]. destruct (Hs eq_refl Hd) as (p & -> & Hw). exists p.
    destruct Hfr as (Hm' & Hd' & Hcur). split_and!; [done|done| |intros Hmm; by eapply sendpipe_taken].
    destruct (is_more m) eqn:Hmm; split_and!; auto.
  - right. destruct (Ha eq_refl) as (-> & _ & _ & Hw). destruct Hfr as [Hm' Hd']. split_and!; try done. split; congruence.
  - destruct (Hdr eq_refl). congruence.
Qed.

(** The next ones: the pipe takes the part, or refuses it and what it got of the
    message is rolled back. *)
Lemma lb_next m l w g p base s : Lb.inv is_more l w g → lb_middle l p →
  written w p = base ++ s → whole is_more base → unfinished is_more s →
  ∃ l' w', (∃ g', Lb.inv is_more l' w' g') ∧
    (∀ q, q ∈ items (Lb.pipes l') ↔ q ∈ items (Lb.pipes l)) ∧ (∀ q, content w' q = content w q) ∧
    if (out_write p m w).1 then
      Lb.sendpipe is_more m l w = Some (Lb.Sent, Some p, l', w') ∧ Lb.wrote is_more m p w w' ∧
      if is_more m then lb_middle l' p else lb_idle l'
    else
      Lb.sendpipe is_more m l w = Some (Lb.Dropped, None, l', w') ∧
      written w' p = base ∧ ∀ q, q ≠ p → written w' q = written w q.
Proof.
  intros H (Hm & Hd & Hp) Hw Hb Hu. pose proof (Lb.i_more _ _ _ _ H Hm Hd) as Hc.
  destruct (Lb.sendpipe_inv is_more m l w g H) as (r & d & l1 & w1 & Heq1 & H' & Hit & _ & _ & Hs).
  pose proof (sendpipe_frame _ _ _ _ _ _ _ Heq1) as [Hco Hfr]. exists l1, w1. split; [eauto|]. split; [done|]. split; [done|].
  destruct (out_write p m w).1 eqn:Hok.
  - destruct (sendpipe_middle m l w p Hc Hd Hp Hok) as (l' & w' & Heq). rewrite Heq1 in Heq. injection Heq as -> -> -> ->.
    destruct (Hs eq_refl Hd) as (p' & [= <-] & Hwr), Hfr as (Hm' & Hd' & Hcur). split; [done|]. split; [done|].
    destruct (is_more m) eqn:Hmm; split_and!; auto.
  - assert (Hx : Lb.sendpipe is_more m l w = Some (Lb.Dropped, None,
      Lb.LB (Lb.pipes l) (Lb.active l) (Lb.current l) false (is_more m), out_rollback p (out_write p m w).2)).
    { unfold Lb.sendpipe. rewrite Hd, Lb.send_loop_S, decide_False by lia.
      assert (Hat : at_ (Lb.pipes l) (Lb.current l) = Some p) by done. rewrite Hat. cbn [mbind option_bind].
      destruct (out_write p m w) as [ok w2]. cbn [fst snd] in *. by rewrite Hok, Hm. }
    rewrite Heq1 in Hx. injection Hx as -> -> -> ->. split; [done|].
    assert (Hsame : ∀ q, written (out_write p m w).2 q = written w q) by (intros q; by rewrite out_write_written, Hok).
    split; [|intros q Hq; by rewrite out_rollback_other, Hsame].
    eapply out_rollback_written; [by rewrite Hsame|done|done].
Qed.

(** Between messages every pipe has whole messages. *)
Lemma lb_idle_whole l w g p : Lb.inv is_more l w g → lb_idle l → p ∈ items (Lb.pipes l) → whole is_more (written w p).
Proof.
  intros H [Hm _] Hp. rewrite (Lb.i_written _ _ _ _ H p Hp), Lb.partly_idle, app_nil_r by (by left).
  apply Lb.delivered_whole, H.
Qed.

Lemma drain_ok fuel : ∀ x w, Fq.inv is_more (fq_of x) w → (avail w (pipes_of x) < fuel)%nat →
  ∃ f' w', drain fuel x w = Some (with_fq f' x, w') ∧ reads (fq_of x) f' w w' ∧ Fq.more f' = false ∧
    ∀ q, Fq.is_active (fq_of x) q → content w' q = [].
Proof.
  induction fuel as [|fuel IH]; intros x w H Hf; [lia|]. cbn [drain]. unfold Dealer.xrecv, Dealer.recvpipe.
  destruct (recvpipe_reads (fq_of x) w H) as (r & f1 & w1 & Heq & Hr1 & Hr). unfold fq_of in Heq. rewrite Heq. cbn [mbind option_bind].
  change (set_dealer (Dealer f1 (lb (dealer_ x)) (probe_router (dealer_ x))) x) with (with_fq f1 x).
  destruct r as [[m p]|]; cbn [option_map].
  - destruct Hr as (_ & _ & _ & _ & _ & _ & Hlt).
    destruct (IH (with_fq f1 x) w1) as (f2 & w2 & -> & Hr2 & Hm2 & He2); [apply Hr1| |].
    { unfold pipes_of. change (fq_of (with_fq f1 x)) with f1. rewrite (avail_items _ _ _ _ w1 H Hr1). unfold pipes_of in *. lia. }
    exists f2, w2. split_and!; [done|by eapply reads_trans|done|]. intros q Hq.
    destruct (d_served _ _ _ _ Hr1 q Hq) as [Ha|He]; [by apply He2|]. by apply (shrinks_nil w1), He; apply Hr2.
  - destruct Hr as (He & _ & _ & Hm'). exists f1, w1. by split_and!.
Qed.

(** The header of a request. *)
Definition header (x : req) : list part :=
  (if request_id_frames_enabled x then [id_part (u32 (request_id x + 1))] else []) ++ [bottom_part].

(** The state after the header, before the messages that wait are dropped. *)
Definition opened (x : req) (p : option Z) (l : Lb.lb) : req :=
  Req (Dealer (fq_of x) l (probe_router (dealer_ x))) (receiving_reply x) (message_begins x) p
      (request_id_frames_enabled x) (if request_id_frames_enabled x then u32 (request_id x + 1) else request_id x) (strict x).

Lemma fq_inv_same f w w' : Fq.inv is_more f w → (∀ q, content w' q = content w q) → Fq.inv is_more f w'.
Proof. intros H Hc. apply (fq_inv_arrive f w w' H). intros q _. exists []. rewrite Hc, app_nil_r. split; [done|apply whole_nil]. Qed.

(** The header goes whole to one pipe, or nothing is written. *)
Definition header_sent (x : req) (l' : Lb.lb) (p : option Z) (w w' : W) : Prop :=
  (∃ g', Lb.inv is_more l' w' g') ∧ (∀ q, q ∈ items (Lb.pipes l') ↔ q ∈ items (Lb.pipes (lb_of x))) ∧
  (∀ q, content w' q = content w q) ∧
  match p with
  | Some p => lb_middle l' p ∧ written w' p = written w p ++ header x ∧ ∀ q, q ≠ p → written w' q = written w q
  | None => lb_idle l' ∧ ∀ q, written w' q = written w q
  end.

Definition send_envelope (x : req) (w : W) : option (rc * req * W) :=
  let x := set_reply_pipe None x in
  '(r, x, w) ←
    (if request_id_frames_enabled x then
       let x := set_request_id (u32 (request_id x + 1)) x in
       send_header (id_part (request_id x)) x w
     else Some (RcOk, x, w));
  if negb (bool_decide (r = RcOk)) then Some (r, x, w) else send_header bottom_part x w.

Lemma begin_request_split fuel x w : begin_request fuel x w =
  ('(r, x, w) ← send_envelope x w;
   if negb (bool_decide (r = RcOk)) then Some (r, x, w)
   else
     _ ← zmq_assert (bool_decide (is_Some (reply_pipe x)));
     '(x, w) ← drain fuel (set_state (receiving_reply x) false x) w;
     Some (RcOk, x, w)).
Proof.
  unfold begin_request, send_envelope. destruct (if request_id_frames_enabled _ then _ else _) as [[[r x1] w1]|]; [|done].
  cbn [mbind option_bind]. destruct (bool_decide (r = RcOk)) eqn:Hr; cbn [negb].
  - destruct (send_header bottom_part x1 w1) as [[[r2 x2] w2]|]; [|done]. cbn [mbind option_bind]. by destruct (bool_decide (r2 = RcOk)).
  - cbn [mbind option_bind]. by rewrite Hr.
Qed.

Lemma send_envelope_ok x w g : Lb.inv is_more (lb_of x) w g → lb_idle (lb_of x) →
  ∃ p l' w', send_envelope x w = Some (match p with Some _ => RcOk | None => RcErr EAGAIN end, opened x p l', w') ∧
    header_sent x l' p w w'.
Proof.
  intros H Hi. unfold send_envelope, header_sent, header, opened, send_header, Dealer.sendpipe.
  destruct x as [[f l pr] rr mb rp ide id st]. unfold lb_of, fq_of in *. cbn -[Lb.sendpipe u32 id_part bottom_part] in *. destruct ide.
  - destruct (lb_first (id_part (u32 (id + 1))) l w g H Hi) as (r & d & l1 & w1 & -> & [g1 H1] & Hit1 & Hc1 & Hr).
    cbn -[Lb.sendpipe u32 id_part bottom_part]. destruct Hr as [(-> & p & -> & [Hp Ho] & Hmid & Hin)|(-> & -> & Hid & Hw)]; cbn -[Lb.sendpipe u32 id_part bottom_part].
    + assert (Hlk : p ∈ items (Lb.pipes l)) by (apply Hit1; destruct Hmid as (_ & _ & Hlk); by eapply list_elem_of_lookup_2).
      destruct (lb_next bottom_part l1 w1 g1 p _ _ H1 Hmid Hp) as (l2 & w2 & [g2 H2] & Hit2 & Hc2 & Hs2);
        [by eapply lb_idle_whole|by constructor|].
      destruct (Hin eq_refl) as [w0 Hw0]. pose proof (out_write_next p _ bottom_part w0 eq_refl ltac:(by rewrite Hw0)) as Hnext.
      rewrite Hw0 in Hnext. cbn [snd] in Hnext. rewrite Hnext in Hs2. destruct Hs2 as (-> & [Hp2 Ho2] & Hmid2).
      cbn -[u32 id_part bottom_part]. exists (Some p), l2, w2. split_and!; [done|eauto| | |done| |].
      * intros q. by rewrite Hit2.
      * intros q. by rewrite Hc2.
      * by rewrite Hp2, Hp, <- (assoc_L app).
      * intros q Hq. by rewrite Ho2, Ho.
    + exists None, l1, w1. split_and!; [done|eauto|done..].
  - cbn -[Lb.sendpipe u32 id_part bottom_part].
    destruct (lb_first bottom_part l w g H Hi) as (r & d & l1 & w1 & -> & [g1 H1] & Hit1 & Hc1 & Hr).
    cbn -[Lb.sendpipe u32 id_part bottom_part]. destruct Hr as [(-> & p & -> & [Hp Ho] & Hmid & _)|(-> & -> & Hid & Hw)]; cbn -[Lb.sendpipe u32 id_part bottom_part].
    + exists (Some p), l1, w1. split_and!; [done|eauto|done..].
    + exists None, l1, w1. split_and!; [done|eauto|done..].
Qed.

(** The beginning of a request. *)
Lemma begin_request_ok fuel x w g : Lb.inv is_more (lb_of x) w g → lb_idle (lb_of x) → Fq.inv is_more (fq_of x) w →
  (avail w (pipes_of x) < fuel)%nat →
  ∃ p l' w1, header_sent x l' p w w1 ∧
    match p with
    | Some q => ∃ f' w', begin_request fuel x w = Some (RcOk, with_fq f' (set_state (receiving_reply x) false (opened x p l')), w') ∧
        reads (fq_of x) f' w1 w' ∧ Fq.more f' = false ∧ ∀ q, Fq.is_active (fq_of x) q → content w' q = []
    | None => begin_request fuel x w = Some (RcErr EAGAIN, opened x p l', w1)
    end.
Proof.
  intros H Hi Hf Hn. destruct (send_envelope_ok x w g H Hi) as (p & l' & w1 & Heq & Hs). exists p, l', w1. split; [done|].
  rewrite begin_request_split, Heq. cbn [mbind option_bind]. destruct p as [p|]; [|done]. destruct Hs as (_ & _ & Hc & _).
  change (bool_decide (RcOk = RcOk)) with true. cbn [negb]. rewrite bool_decide_eq_true_2 by (by exists p). cbn [zmq_assert mbind option_bind].
  set (x1 := set_state (receiving_reply (opened x (Some p) l')) false (opened x (Some p) l')).
  destruct (drain_ok fuel x1 w1) as (f' & w' & -> & Hr & Hm & He).
  - by apply (fq_inv_same _ w).
  - change (pipes_of x1) with (pipes_of x). by rewrite (avail_ext w w1) by (intros; apply Hc).
  - by exists f', w'.
Qed.

(** ** Whole requests and replies *)

Fixpoint send_parts (fuel : nat) (ms : list part) (x : req) (w : W) : option (req * W) :=
  match ms with
  | [] => Some (x, w)
  | m :: ms => '(r, x, w) ← xsend fuel m x w; _ ← zmq_assert (bool_decide (r = RcOk)); send_parts fuel ms x w
  end.

(** Send parts until one fails: the result, and the parts that were not sent. *)
Fixpoint send_until (fuel : nat) (ms : list part) (x : req) (w : W) : option (rc * list part * req * W) :=
  match ms with
  | [] => Some (RcOk, [], x, w)
  | m :: rest => '(r, x, w) ← xsend fuel m x w;
                 if bool_decide (r = RcOk) then send_until fuel rest x w else Some (r, m :: rest, x, w)
  end.

Lemma send_until_parts fuel ms : ∀ x w r left x' w', send_until fuel ms x w = Some (r, left, x', w') → r ≠ RcOk →
  send_parts fuel ms x w = None.
Proof.
  induction ms as [|m ms IH]; intros x w r left x' w' Hs Hr; cbn [send_until send_parts] in *; [congruence|].
  destruct (xsend fuel m x w) as [[[r1 x1] w1]|]; [|done]. cbn [mbind option_bind] in *.
  destruct (bool_decide (r1 = RcOk)) eqn:Hok; [by eapply IH|done].
Qed.

Fixpoint recv_parts (fuel k : nat) (x : req) (w : W) : option (list part * req * W) :=
  match k with
  | O => Some ([], x, w)
  | S k =>
      '(_, om, x, w) ← xrecv fuel x w;
      m ← om;
      '(ms, x, w) ← recv_parts fuel k x w;
      Some (m :: ms, x, w)
  end.

(** The pipe refused the part. *)
Definition refuses (p : Z) (m : part) : Prop := ∃ w, (out_write p m w).1 = false.

(** The body of a request follows its header, or some part of it is refused and
    nothing of the request is left. *)
Lemma body_sent fuel p base : ∀ ms x w g s, Lb.inv is_more (lb_of x) w g → lb_middle (lb_of x) p →
  written w p = base ++ s → whole is_more base → unfinished is_more s →
  receiving_reply x = false → message_begins x = false → one_message ms →
  (∃ l' w', send_parts fuel ms x w = Some (set_state true true (with_lb l' x), w') ∧
     (∀ q, content w' q = content w q) ∧ written w' p = written w p ++ ms ∧ ∀ q, q ≠ p → written w' q = written w q) ∨
  (∃ sent m left l' w', ms = sent ++ m :: left ∧
     send_until fuel ms x w = Some (RcErr EAGAIN, m :: left, with_lb l' x, w') ∧ refuses p m ∧
     (∀ q, content w' q = content w q) ∧ written w' p = base ∧ ∀ q, q ≠ p → written w' q = written w q).
Proof.
  induction ms as [|m ms IH]; [done|]. intros x w g s H Hmid Hws Hbase Hs Hr Hb Hone. cbn [send_parts send_until]. unfold xsend. rewrite Hr, Hb.
  cbn [andb mbind option_bind]. change (bool_decide (RcOk = RcOk)) with true. cbn [negb]. unfold Dealer.xsend, Dealer.sendpipe.
  destruct (lb_next m _ w g p base s H Hmid Hws Hbase Hs) as (l1 & w1 & [g1 H1] & Hit & Hc & Hres). unfold lb_of in Hres.
  destruct (out_write p m w).1 eqn:Hok.
  2:{ destruct Hres as (-> & Hp & Ho). right. exists [], m, ms, l1, w1. split_and!; [done|done|by exists w|done..]. }
  destruct Hres as (-> & [Hp Ho] & Hl). cbn [mbind option_bind rc_of]. change (bool_decide (RcOk = RcOk)) with true.
  cbn [negb zmq_assert mbind option_bind].
  change (set_dealer (Dealer (fq (dealer_ x)) l1 (probe_router (dealer_ x))) x) with (with_lb l1 x).
  cbn [one_message] in Hone. destruct (is_more m) eqn:Hmm; cbn [negb].
  - destruct (IH (with_lb l1 x) w1 g1 (s ++ [m]) H1 Hl) as [(l2 & w2 & -> & Hc2 & Hp2 & Ho2)|(sent & m2 & left & l2 & w2 & -> & -> & Hrf & Hc2 & Hp2 & Ho2)];
      [by rewrite Hp, Hws, (assoc_L app)|done|by apply Forall_app_2; [|constructor]|done..| |].
    + left. exists l2, w2. split_and!; [done|intros q; by rewrite Hc2|by rewrite Hp2, Hp, <- (assoc_L app)|intros q Hq; by rewrite Ho2, Ho].
    + right. exists (m :: sent), m2, left, l2, w2. split_and!; [done|done|done|intros q; by rewrite Hc2|done|intros q Hq; by rewrite Ho2, Ho].
  - subst ms. left. exists l1, w1. by split_and!.
Qed.

(** The body of a reply follows its header. *)
Lemma body_received fuel p rest body : ∀ x w, Fq.inv is_more (fq_of x) w → (avail w (pipes_of x) < fuel)%nat → from x p →
  receiving_reply x = true → message_begins x = false → Fq.more (fq_of x) = true → pipes_of x !! Fq.current (fq_of x) = Some p →
  content w p = body ++ rest → one_message body →
  ∃ f' w', recv_parts fuel (length body) x w = Some (body, set_state false true (with_fq f' x), w') ∧
    reads (fq_of x) f' w w' ∧ Fq.more f' = false ∧ content w' p = rest ∧ ∀ q, q ≠ p → from x q → content w' q = content w q.
Proof.
  induction body as [|m body IH]; [done|]. intros x w H Hf Hp Hr Hb Hm Hcur Hc Hone. cbn [length recv_parts]. unfold xrecv. rewrite Hr. cbn [negb].
  destruct fuel as [|n]; [lia|]. cbn [begin_reply]. rewrite Hb. cbn [negb mbind option_bind]. change (bool_decide (RcOk = RcOk)) with true. cbn [negb].
  destruct (recv_reply_ok (S n) x w H Hf) as (r & f1 & w1 & -> & Hr1 & Hg). cbn [mbind option_bind].
  destruct r as [m1|]; [|by destruct Hg as (_ & _ & _ & Hn); destruct (Hn Hm p Hcur)].
  destruct Hg as (p1 & _ & _ & Hc1 & Ho1 & Hm1 & Hcur1 & Hsame & Hlt). assert (p1 = p) as -> by by apply Hsame.
  rewrite Hc in Hc1. injection Hc1 as <- Hc1. cbn [mbind option_bind]. cbn [one_message] in Hone. destruct (is_more m) eqn:Hmm; cbn [negb].
  - destruct (IH (with_fq f1 x) w1) as (f2 & w2 & Heq & Hr2 & Hm2 & Hc2 & Ho2); try done; [apply Hr1| |by apply Hcur1|].
    { unfold pipes_of. change (fq_of (with_fq f1 x)) with f1. rewrite (avail_items _ _ _ _ w1 H Hr1). unfold pipes_of in *. lia. }
    rewrite Heq. cbn [mbind option_bind]. exists f2, w2. split_and!; [done|by eapply reads_trans|done|done|].
    intros q Hq Hfq. by rewrite Ho2, Ho1.
  - subst body. cbn [length recv_parts mbind option_bind]. exists f1, w1. by split_and!.
Qed.

(** ** The invariant *)

(** Whether the fair queue is in the middle of a message. *)
Definition more_ok (rr mb : bool) (x : req) (f : Fq.fq) : Prop :=
  match rr, mb with
  | true, true | false, false => Fq.more f = false
  | true, false => Fq.more f = true ∧ ∃ p, items (Fq.pipes f) !! Fq.current f = Some p ∧ from x p
  | false, true => True
  end.

Record inv (x : req) (w : W) : Prop := {
  v_fq : Fq.inv is_more (fq_of x) w;
  v_lb : ∃ g, Lb.inv is_more (lb_of x) w g;
  v_same q : q ∈ items (Lb.pipes (lb_of x)) ↔ q ∈ pipes_of x;
  v_idle : message_begins x = true ∨ receiving_reply x = true → lb_idle (lb_of x);
  v_more : more_ok (receiving_reply x) (message_begins x) x (fq_of x) }.

Lemma req_inv_new random w : inv (req_new random) w.
Proof.
  split; cbn; try done.
  - apply Fq.fq_inv_new.
  - exists (Lb.Ghost [] []). apply Lb.lb_inv_new.
Qed.

Lemma inv_read x w rr mb f' w' : inv x w → reads (fq_of x) f' w w' →
  (mb = true ∨ rr = true → message_begins x = true ∨ receiving_reply x = true) → more_ok rr mb x f' →
  inv (set_state rr mb (with_fq f' x)) w'.
Proof.
  intros [Hf [g Hl] Hs Hi Hm] Hr Hb Hm'. split; try done.
  - apply Hr.
  - exists g. eapply lb_inv_written; [exact Hl|apply Hr].
  - intros q. unfold pipes_of. change (lb_of (set_state rr mb (with_fq f' x))) with (lb_of x). rewrite Hs. symmetry. apply Hr.
  - intros Ho. apply Hi, Hb, Ho.
Qed.

Lemma state_id x : set_state (receiving_reply x) (message_begins x) x = x.
Proof. by destruct x. Qed.

(** ** Each operation *)

(** A part of the body, or of a request whose pipe is gone. *)
Lemma send_part_ok m x w : inv x w → receiving_reply x = false → message_begins x = false →
  ∃ r d w', Dealer.xsend m (dealer_ x) w = Some (r, d, w') ∧
    inv (if bool_decide (rc_of r = RcOk) && negb (is_more m) then set_state true true (set_dealer d x) else set_dealer d x) w' ∧
    (rc_of r = RcOk ∨ rc_of r = RcErr EAGAIN).
Proof.
  intros H Hr Hb. destruct (v_lb _ _ H) as [g Hl]. unfold Dealer.xsend, Dealer.sendpipe.
  destruct (Lb.sendpipe_inv is_more m _ w g Hl) as (r & d & l' & w' & Heq & H' & Hit & _). pose proof (sendpipe_frame _ _ _ _ _ _ _ Heq) as [Hc Hfr].
  unfold lb_of in Heq. rewrite Heq. cbn [mbind option_bind]. do 3 eexists. split; [done|]. split; [|destruct r; auto].
  change (set_dealer _ x) with (with_lb l' x). pose proof (v_more _ _ H) as Hm. rewrite Hr, Hb in Hm.
  assert (Hx : ∀ rr mb, (mb = true ∨ rr = true → lb_idle l') → more_ok rr mb x (fq_of x) → inv (set_state rr mb (with_lb l' x)) w').
  { intros rr mb Hid Hmo. split; try done.
    - by apply (fq_inv_same _ w); [apply H|].
    - by exists (Lb.record_send is_more m r d g).
    - intros q. unfold pipes_of. change (lb_of (set_state rr mb (with_lb l' x))) with l'. rewrite Hit. apply H. }
  destruct (bool_decide (rc_of r = RcOk) && negb (is_more m)) eqn:Hlast.
  - apply andb_true_iff in Hlast as [Hok Hlast]. apply Hx; [|done]. intros _. destruct r; try done.
    destruct (is_more m); [done|]. destruct Hfr as (? & Hd & _). split; [done|]. apply Hd. by left.
  - rewrite <- (state_id (with_lb l' x)). apply Hx; cbn; rewrite Hr, Hb; [|done]. by intros [?|?].
Qed.

Lemma inv_state_relaxed x w : inv x w → receiving_reply x = true → inv (set_state false true x) w.
Proof. intros [Hf Hl Hs Hi Hm] Hr. split; try done. intros _. apply Hi. by right. Qed.

Lemma begin_request_inv fuel x w : inv x w → message_begins x = true → receiving_reply x = false → (avail w (pipes_of x) < fuel)%nat →
  ∃ r x' w', begin_request fuel x w = Some (r, x', w') ∧ inv x' w' ∧ receiving_reply x' = false ∧
    (r = RcOk ∧ message_begins x' = false ∨ r = RcErr EAGAIN).
Proof.
  intros H Hb Hr Hf. destruct (v_lb _ _ H) as [g Hl].
  destruct (begin_request_ok fuel x w g Hl (v_idle _ _ H (or_introl Hb)) (v_fq _ _ H) Hf) as (p & l' & w1 & (Hl' & Hit & Hc & Hp) & Hres).
  destruct p as [p|].
  - destruct Hres as (f' & w' & -> & Hrd & Hm & _). do 3 eexists. split; [done|]. split; [|by auto]. split; try done.
    + apply Hrd.
    + destruct Hl' as [g' Hl']. exists g'. eapply lb_inv_written; [exact Hl'|apply Hrd].
    + intros q. change (q ∈ items (Lb.pipes l') ↔ q ∈ items (Fq.pipes f')). rewrite Hit, (v_same _ _ H). symmetry. apply Hrd.
    + cbn. rewrite Hr. by intros [?|?].
    + cbn. by rewrite Hr.
  - do 3 eexists. split; [exact Hres|]. split; [|by auto]. destruct Hp as [Hid _]. split; try done.
    + by apply (fq_inv_same _ w); [apply H|].
    + intros q. change (q ∈ items (Lb.pipes l') ↔ q ∈ pipes_of x). rewrite Hit. apply H.
    + cbn. by rewrite Hr, Hb.
Qed.

Lemma xsend_ok fuel m x w : inv x w → (avail w (pipes_of x) < fuel)%nat →
  ∃ r x' w', xsend fuel m x w = Some (r, x', w') ∧ inv x' w' ∧
    (receiving_reply x = true ∧ strict x = true ∧ r = RcErr EFSM ∧ x' = x ∧ w' = w ∨
     (receiving_reply x = false ∨ strict x = false) ∧
       (r = RcOk ∧ receiving_reply x' = negb (is_more m) ∨ r = RcErr EAGAIN ∧ receiving_reply x' = false)).
Proof.
  intros H Hf. unfold xsend. destruct (receiving_reply x && strict x) eqn:Hst.
  { apply andb_true_iff in Hst as [Hr Hs]. exists (RcErr EFSM), x, w. split; [done|]. split; [done|]. by left. }
  assert (Hor : receiving_reply x = false ∨ strict x = false) by (destruct (receiving_reply x), (strict x); auto).
  set (x0 := if receiving_reply x then set_state false true x else x).
  assert (H0 : inv x0 w) by (unfold x0; destruct (receiving_reply x) eqn:Hr; [by apply inv_state_relaxed|done]).
  assert (Hr0 : receiving_reply x0 = false) by (unfold x0; by destruct (receiving_reply x) eqn:?).
  assert (Hf0 : (avail w (pipes_of x0) < fuel)%nat) by (unfold x0; by destruct (receiving_reply x)).
  clearbody x0. assert (∃ r x1 w1, (if message_begins x0 then begin_request fuel x0 w else Some (RcOk, x0, w)) = Some (r, x1, w1) ∧ inv x1 w1 ∧
    receiving_reply x1 = false ∧ (r = RcOk ∧ message_begins x1 = false ∨ r = RcErr EAGAIN)) as (r & x1 & w1 & -> & H1 & Hr1 & Hres).
  { destruct (message_begins x0) eqn:Hb; [by apply begin_request_inv|]. exists RcOk, x0, w. split; [done|]. split; [done|]. split; [done|]. by left. }
  cbn [mbind option_bind]. destruct Hres as [[-> Hb1]| ->].
  - change (bool_decide (RcOk = RcOk)) with true. cbn [negb].
    destruct (send_part_ok m x1 w1 H1 Hr1 Hb1) as (r2 & d & w2 & -> & H2 & Hrc). cbn [mbind option_bind].
    destruct (bool_decide (rc_of r2 = RcOk)) eqn:Hok; cbn [negb andb] in *.
    + do 3 eexists. split; [done|]. split; [done|]. right. split; [done|]. left. split; [done|]. destruct (is_more m); cbn; [exact Hr1|done].
    + apply bool_decide_eq_false in Hok. destruct Hrc as [?|Hrc]; [done|]. do 3 eexists. split; [done|]. split; [done|]. right. auto.
  - change (bool_decide (RcErr EAGAIN = RcOk)) with false. cbn [negb]. do 3 eexists. split; [done|]. split; [done|]. right. auto.
Qed.

(** The next part of a reply. *)
Lemma recv_part_ok fuel x w : inv x w → receiving_reply x = true → message_begins x = false → (avail w (pipes_of x) < fuel)%nat →
  ∃ m f' w', recv_reply_pipe fuel x w = Some (Some m, with_fq f' x, w') ∧
    inv (if negb (is_more m) then set_state false true (with_fq f' x) else with_fq f' x) w'.
Proof.
  intros H Hr Hb Hf. destruct (recv_reply_ok fuel x w (v_fq _ _ H) Hf) as (r & f' & w' & Heq & Hrd & Hg).
  pose proof (v_more _ _ H) as Hm. rewrite Hr, Hb in Hm. destruct Hm as (Hm & p & Hp & Hfr). destruct r as [m|].
  - destruct Hg as (p1 & Hp1 & _ & _ & _ & Hm1 & Hcur & _). exists m, f', w'. split; [done|].
    destruct (is_more m) eqn:Hmm; cbn [negb].
    + rewrite <- (state_id (with_fq f' x)). apply (inv_read x w _ _ f' w' H Hrd); cbn; rewrite Hr, Hb; [by auto|].
      split; [congruence|]. exists p1. split; [by apply Hcur|done].
    + apply (inv_read x w _ _ f' w' H Hrd); [|done]. intros _. by right.
  - destruct Hg as (_ & _ & _ & Hn). by destruct (Hn Hm p Hp).
Qed.

Lemma xrecv_ok fuel x w : inv x w → (S (avail w (pipes_of x)) < fuel)%nat →
  ∃ r om x' w', xrecv fuel x w = Some (r, om, x', w') ∧ inv x' w' ∧
    (receiving_reply x = false ∧ r = RcErr EFSM ∧ om = None ∧ x' = x ∧ w' = w ∨
     receiving_reply x = true ∧
       ((∃ m, r = RcOk ∧ om = Some m ∧ receiving_reply x' = is_more m) ∨ r = RcErr EAGAIN ∧ om = None ∧ receiving_reply x' = true)).
Proof.
  intros H Hf. unfold xrecv. destruct (receiving_reply x) eqn:Hr; cbn [negb]; [|exists (RcErr EFSM), None, x, w; split; [done|]; split; [done|]; by left].
  assert (∃ r f1 w1, begin_reply fuel x w = Some (r, set_state true (if bool_decide (r = RcOk) then false else true) (with_fq f1 x), w1) ∧
    (r = RcOk ∨ r = RcErr EAGAIN) ∧
    inv (set_state true (if bool_decide (r = RcOk) then false else true) (with_fq f1 x)) w1 ∧
    (avail w1 (pipes_of (with_fq f1 x)) < fuel)%nat) as (r & f1 & w1 & -> & Hrc & H1 & Hf1).
  { pose proof (v_more _ _ H) as Hm. rewrite Hr in Hm. destruct (message_begins x) eqn:Hb.
    - destruct (begin_reply_ok fuel x w (v_fq _ _ H) Hm Hb Hf) as (f1 & w1 & sk & r & Heq & Hrd & _ & Hres).
      exists (begin_result x f1 r).1, f1, w1. rewrite Heq.
      assert (Hav : (avail w1 (pipes_of (with_fq f1 x)) < fuel)%nat).
      { unfold pipes_of. change (fq_of (with_fq f1 x)) with f1. rewrite (avail_items _ _ _ _ w1 (v_fq _ _ H) Hrd).
        pose proof (shrinks_avail w w1 (pipes_of x) (d_shrinks _ _ _ _ Hrd)). unfold pipes_of in *. lia. }
      destruct r as [[p hdr]|]; cbn [begin_result fst snd].
      + change (bool_decide (RcOk = RcOk)) with true. destruct Hres as (Hp & _ & Hm1 & Hcur & _). split; [by rewrite Hr|].
        split; [by left|]. split; [|done]. apply (inv_read x w _ _ f1 w1 H Hrd); [by auto|]. split; [done|]. by exists p.
      + change (bool_decide (RcErr EAGAIN = RcOk)) with false. destruct Hres as (Hm1 & _).
        split; [by rewrite <- (state_id (with_fq f1 x)); cbn; rewrite Hr, Hb|]. split; [by right|]. split; [|done].
        apply (inv_read x w _ _ f1 w1 H Hrd); [by auto|done].
    - exists RcOk, (fq_of x), w. change (bool_decide (RcOk = RcOk)) with true.
      assert (Hself : set_state true false (with_fq (fq_of x) x) = x) by (destruct x as [[] ? ? ? ? ? ?]; cbn in *; by subst).
      cbv iota. rewrite Hself. destruct fuel as [|n]; [lia|]. cbn [begin_reply]. rewrite Hb. cbn [negb]. split; [done|]. split; [by left|].
      split; [done|]. unfold pipes_of in *. cbn in *. lia. }
  cbn [mbind option_bind]. destruct Hrc as [-> | ->].
  - change (bool_decide (RcOk = RcOk)) with true in *. cbn [negb].
    destruct (recv_part_ok fuel _ w1 H1 eq_refl eq_refl Hf1) as (m & f2 & w2 & -> & H2). cbn [mbind option_bind].
    do 4 eexists. split; [done|]. split; [done|]. right. split; [done|]. left. exists m. split_and!; [done..|]. by destruct (is_more m).
  - change (bool_decide (RcErr EAGAIN = RcOk)) with false in *. cbn [negb]. do 4 eexists. split; [done|]. split; [done|]. right. auto.
Qed.

Lemma req_xhas_in_ok x w : inv x w → ∃ b x' w', xhas_in x w = Some (b, x', w') ∧ inv x' w' ∧ (receiving_reply x = false → b = false).
Proof.
  intros H. unfold xhas_in. destruct (receiving_reply x) eqn:Hr; cbn [negb]; [|by exists false, x, w].
  unfold Dealer.xhas_in. destruct (has_in_ok (fq_of x) w (v_fq _ _ H)) as (b & f' & w' & Heq & H' & Hit & Hc & Hw & Hm & Hsame).
  unfold fq_of in Heq. rewrite Heq. cbn [mbind option_bind]. do 3 eexists. split; [done|]. split; [|done].
  change (inv (with_fq f' x) w'). destruct (v_lb _ _ H) as [g Hl]. split; try done.
  - exists g. by eapply lb_inv_written.
  - intros q. unfold pipes_of. change (lb_of (with_fq f' x)) with (lb_of x). rewrite (v_same _ _ H). symmetry. apply Hit.
  - apply (v_idle _ _ H).
  - pose proof (v_more _ _ H) as Hmo. change (more_ok (receiving_reply x) (message_begins x) x f'). unfold more_ok in *.
    destruct (Fq.more (fq_of x)) eqn:Hmf; [rewrite (Hsame eq_refl), Hmf; exact Hmo|]. destruct (receiving_reply x), (message_begins x); try congruence. by destruct Hmo.
Qed.

Lemma xhas_out_ok x w : inv x w → ∃ b x' w', xhas_out x w = Some (b, x', w') ∧ inv x' w'.
Proof.
  intros H. unfold xhas_out. destruct (receiving_reply x && strict x); [by exists false, x, w|].
  unfold Dealer.xhas_out. destruct (v_lb _ _ H) as [g Hl].
  destruct (Lb.has_out_spec is_more (lb_of x) w g Hl) as (b & l' & w' & Heq & H' & Hit & Hm & Hd).
  pose proof (has_out_content _ _ _ _ _ Heq) as Hc. unfold lb_of in Heq. rewrite Heq. cbn [mbind option_bind].
  do 3 eexists. split; [done|]. change (inv (with_lb l' x) w'). split; try done.
  - by apply (fq_inv_same _ w); [apply H|].
  - by exists g.
  - intros q. change (lb_of (with_lb l' x)) with l'. rewrite Hit. apply H.
  - intros Ho. destruct (v_idle _ _ H Ho). unfold lb_of in *. split; cbn; congruence.
  - apply (v_more _ _ H).
Qed.

Lemma xsetsockopt_inv o v x w : inv x w → inv (xsetsockopt o v x).2 w.
Proof.
  intros [Hf Hl Hs Hi Hm]. unfold xsetsockopt. destruct (_ && _); [by split|]. destruct (_ && _); [by split|].
  unfold Dealer.xsetsockopt. destruct (_ && _); by split.
Qed.

Lemma req_attach_ok p x w : inv x w → p ∉ pipes_of x → written w p = [] → whole is_more (content w p) →
  ∃ d w', Dealer.xattach_pipe p (dealer_ x) w = Some (d, w') ∧ inv (set_dealer d x) w'.
Proof.
  intros H Hp Hw Hc. unfold Dealer.xattach_pipe. set (w1 := if probe_router _ then _ else _).
  assert (Hc1 : ∀ q, content w1 q = content w q).
  { intros q. unfold w1. destruct (probe_router _); [|done]. by rewrite out_flush_content, out_write_content. }
  assert (Hw1 : written w1 p = [] ∨ written w1 p = [empty_msg]).
  { unfold w1. destruct (probe_router _); [|by left]. rewrite out_flush_written, out_write_written, bool_decide_eq_true_2, Hw by done.
    destruct (out_write _ _ _).1; auto. }
  assert (Ho1 : ∀ q, q ≠ p → written w1 q = written w q).
  { intros q Hq. unfold w1. destruct (probe_router _); [|done]. rewrite out_flush_written, out_write_written, bool_decide_eq_false_2 by done.
    by rewrite andb_false_r. }
  destruct (Fq.fq_attach_inv is_more p (fq_of x) w1) as (f' & Heq & Hf & Hm & Hit & Hcur & _);
    [by apply (fq_inv_same _ w); [apply H|]|done|by rewrite Hc1|].
  unfold fq_of in Heq. rewrite Heq. cbn [mbind option_bind]. destruct (v_lb _ _ H) as [g Hl].
  destruct (lb_attach_fresh p empty_msg (lb_of x) w w1 g Hl) as (l' & g' & Hl' & Hli & Hlit); [by rewrite (v_same _ _ H)|done..|].
  unfold lb_of in Hl'. rewrite Hl'. cbn [mbind option_bind]. pose proof (lb_attach_flags _ _ _ Hl') as [Hm' Hd'].
  do 2 eexists. split; [done|]. split; try done.
  - by exists g'.
  - intros q. unfold pipes_of. cbn. rewrite Hlit, Hit. pose proof (v_same _ _ H q) as Hs. unfold pipes_of in Hs. tauto.
  - intros Ho. destruct (v_idle _ _ H Ho). unfold lb_of in *. split; cbn; congruence.
  - pose proof (v_more _ _ H) as Hmo. cbn. unfold more_ok in *. destruct (receiving_reply x), (message_begins x); try (cbn; congruence).
    destruct Hmo as (Hmf & q & Hq & Hfr). split; [congruence|]. exists q. split; [by rewrite Hcur|done].
Qed.

Lemma req_read_activated_ok p k x w : inv x w → pipes_of x !! k = Some p → (Fq.active (fq_of x) ≤ k)%nat →
  ∃ d, Dealer.xread_activated p (dealer_ x) = Some d ∧ inv (set_dealer d x) w.
Proof.
  intros H Hk Ha. unfold Dealer.xread_activated.
  destruct (Fq.fq_activated_inv is_more p k (fq_of x) w (v_fq _ _ H) Hk Ha) as (f' & Heq & Hf & Hm & Hit & Hcur & _).
  unfold fq_of in Heq. rewrite Heq. cbn [mbind option_bind]. eexists. split; [done|]. change (inv (with_fq f' x) w). split; try done.
  - apply (v_lb _ _ H).
  - intros q. unfold pipes_of. change (lb_of (with_fq f' x)) with (lb_of x). rewrite (v_same _ _ H). symmetry. apply Hit.
  - apply (v_idle _ _ H).
  - pose proof (v_more _ _ H) as Hmo. unfold more_ok in *. change (fq_of (with_fq f' x)) with f'. cbn.
    destruct (receiving_reply x), (message_begins x); try congruence.
    destruct Hmo as (Hmf & q & Hq & Hfr). split; [congruence|]. exists q. split; [by rewrite Hcur|done].
Qed.

Lemma req_write_activated_ok p k x w : inv x w → items (Lb.pipes (lb_of x)) !! k = Some p → (Lb.active (lb_of x) ≤ k)%nat →
  ∃ d, Dealer.xwrite_activated p (dealer_ x) = Some d ∧ inv (set_dealer d x) w.
Proof.
  intros H Hk Ha. unfold Dealer.xwrite_activated. destruct (v_lb _ _ H) as [g Hl].
  destruct (Lb.lb_activated_inv is_more p k (lb_of x) w g Hl Hk Ha) as (l' & Heq & Hli & Hit). unfold lb_of in Heq. rewrite Heq.
  pose proof (lb_activated_flags _ _ _ Heq) as [Hm' Hd']. cbn [mbind option_bind]. eexists. split; [done|].
  change (inv (with_lb l' x) w). split; try apply H.
  - by exists g.
  - intros q. change (lb_of (with_lb l' x)) with l'. rewrite Hit. apply H.
  - intros Ho. destruct (v_idle _ _ H Ho). unfold lb_of in *. split; cbn; congruence.
Qed.

Lemma req_terminated_ok p k j x w : inv x w → Fq.can_terminate (fq_of x) p k → Lb.can_terminate (lb_of x) p j →
  ∃ x', xpipe_terminated p x = Some x' ∧ inv x' w.
Proof.
  intros H Hk Hj. unfold xpipe_terminated, Dealer.xpipe_terminated. set (x1 := if bool_decide _ then _ else x).
  assert (Hd : dealer_ x1 = dealer_ x) by (unfold x1; by case_bool_decide). rewrite Hd.
  destruct (Fq.fq_terminated_inv is_more p k (fq_of x) w (v_fq _ _ H) Hk) as (f' & Heq & Hf & Hm & Hit & Hcur).
  unfold fq_of in Heq. rewrite Heq. cbn [mbind option_bind]. destruct (v_lb _ _ H) as [g Hl].
  destruct (Lb.lb_terminated_inv is_more p j (lb_of x) w g Hl Hj) as (l' & Heql & Hli & Hlit). unfold lb_of in Heql. rewrite Heql.
  cbn [mbind option_bind]. eexists. split; [done|].
  assert (receiving_reply x1 = receiving_reply x ∧ message_begins x1 = message_begins x ∧ ∀ q, from x q → from x1 q) as (Hrr & Hmb & Hfr).
  { unfold x1. case_bool_decide; split_and!; try done. intros q _. by left. }
  split; cbn; rewrite ?Hrr, ?Hmb.
  - done.
  - by exists g.
  - intros q. unfold pipes_of. cbn. rewrite Hlit, Hit. pose proof (v_same _ _ H q) as Hs. unfold pipes_of in Hs. tauto.
  - intros Ho. destruct (v_idle _ _ H Ho) as [Hm1 Hd1]. unfold lb_of in *.
    destruct (lb_terminated_flags _ _ _ Heql Hm1) as [Hm2 Hd2]. split; cbn; congruence.
  - pose proof (v_more _ _ H) as Hmo. unfold more_ok in *. cbn. destruct (receiving_reply x), (message_begins x); try congruence.
    destruct Hmo as (Hmf & q & Hq & Hfq). split; [congruence|]. exists q. split; [by rewrite Hcur|by apply Hfr].
Qed.

Lemma arrive_ok x w w' : inv x w → (∀ q, written w' q = written w q) →
  (∀ q, q ∈ pipes_of x → ∃ l, content w' q = content w q ++ l ∧ whole is_more l) → inv x w'.
Proof.
  intros H Hw Hc. destruct (v_lb _ _ H) as [g Hl]. split; try apply H.
  - by apply (fq_inv_arrive _ w); [apply H|].
  - exists g. by eapply lb_inv_written.
Qed.

(** ** All the behaviours *)

Inductive step : req * W → req * W → Prop :=
| s_attach x w p d w' :
    p ∉ pipes_of x → written w p = [] → whole is_more (content w p) → Dealer.xattach_pipe p (dealer_ x) w = Some (d, w') →
    step (x, w) (set_dealer d x, w')
| s_read x w p k d :
    pipes_of x !! k = Some p → (Fq.active (fq_of x) ≤ k)%nat → Dealer.xread_activated p (dealer_ x) = Some d →
    step (x, w) (set_dealer d x, w)
| s_write x w p k d :
    items (Lb.pipes (lb_of x)) !! k = Some p → (Lb.active (lb_of x) ≤ k)%nat → Dealer.xwrite_activated p (dealer_ x) = Some d →
    step (x, w) (set_dealer d x, w)
| s_terminated x w p k j x' :
    Fq.can_terminate (fq_of x) p k → Lb.can_terminate (lb_of x) p j → xpipe_terminated p x = Some x' → step (x, w) (x', w)
| s_send fuel m x w r x' w' :
    (avail w (pipes_of x) < fuel)%nat → xsend fuel m x w = Some (r, x', w') → step (x, w) (x', w')
| s_recv fuel x w r om x' w' :
    (S (avail w (pipes_of x)) < fuel)%nat → xrecv fuel x w = Some (r, om, x', w') → step (x, w) (x', w')
| s_has_in x w b x' w' : xhas_in x w = Some (b, x', w') → step (x, w) (x', w')
| s_has_out x w b x' w' : xhas_out x w = Some (b, x', w') → step (x, w) (x', w')
| s_option x w o v : step (x, w) ((xsetsockopt o v x).2, w)
| s_arrive x w w' :
    (∀ q, written w' q = written w q) → (∀ q, q ∈ pipes_of x → ∃ l, content w' q = content w q ++ l ∧ whole is_more l) →
    step (x, w) (x, w').

Definition reachable (random : Z) (w0 : W) (st : req * W) : Prop := rtc step (req_new random, w0) st.

Lemma req_step_ok x w x' w' : inv x w → step (x, w) (x', w') → inv x' w'.
Proof.
  intros H Hs. inversion Hs; subst; clear Hs.
  - destruct (req_attach_ok p x w H) as (d1 & w1 & Heq & Hi); [done..|]. by simplify_eq.
  - destruct (req_read_activated_ok p k x w' H) as (d1 & Heq & Hi); [done..|]. by simplify_eq.
  - destruct (req_write_activated_ok p k x w' H) as (d1 & Heq & Hi); [done..|]. by simplify_eq.
  - destruct (req_terminated_ok p k j x w' H) as (x1 & Heq & Hi); [done..|]. by simplify_eq.
  - destruct (xsend_ok fuel m x w H) as (r1 & x1 & w1 & Heq & Hi & _); [done|]. by simplify_eq.
  - destruct (xrecv_ok fuel x w H) as (r1 & om1 & x1 & w1 & Heq & Hi & _); [done|]. by simplify_eq.
  - destruct (req_xhas_in_ok x w H) as (b1 & x1 & w1 & Heq & Hi & _). by simplify_eq.
  - destruct (xhas_out_ok x w H) as (b1 & x1 & w1 & Heq & Hi). by simplify_eq.
  - by apply xsetsockopt_inv.
  - by eapply arrive_ok.
Qed.

Lemma req_reachable_inv random w0 x w : reachable random w0 (x, w) → inv x w.
Proof.
  intros Hr. refine (rtc_ind_r (λ st, inv st.1 st.2) _ _ _ _ Hr); [apply req_inv_new|].
  intros [x1 w1] [x2 w2] _ Hs H1. by eapply req_step_ok.
Qed.

(** ** The theorems *)

Definition ready (x : req) : Prop :=
  receiving_reply x = false ∧ message_begins x = true ∨ receiving_reply x = true ∧ strict x = false.

Lemma relaxed x : ready x → (receiving_reply x && strict x) = false.
Proof. intros [[-> _]|[-> ->]]; done. Qed.

Lemma xsend_begun fuel m x x1 w w1 : ready x →
  begin_request fuel (if receiving_reply x then set_state false true x else x) w = Some (RcOk, x1, w1) →
  receiving_reply x1 = false → message_begins x1 = false → xsend fuel m x w = xsend fuel m x1 w1.
Proof.
  intros Hx Heq Hr Hb. unfold xsend. rewrite (relaxed x Hx), Hr, Hb. cbn [andb].
  assert (Hmb : message_begins (if receiving_reply x then set_state false true x else x) = true).
  { destruct Hx as [[-> ?]|[-> _]]; done. }
  by rewrite Hmb, Heq.
Qed.

(** What a request does to the pipe it goes to. *)
Definition requested (x x' : req) (ms : list part) (w w' : W) : Prop :=
  ∃ p, reply_pipe x' = Some p ∧ p ∈ pipes_of x ∧ written w' p = written w p ++ header x ++ ms ∧
    (∀ q, q ≠ p → written w' q = written w q) ∧ (∀ q, Fq.is_active (fq_of x) q → content w' q = []) ∧
    request_id x' = (if request_id_frames_enabled x then u32 (request_id x + 1) else request_id x) ∧
    request_id_frames_enabled x' = request_id_frames_enabled x.

(** A request given up at some part, the reply pipe having refused it. *)
Definition given_up (x x' : req) (m : part) (w w' : W) : Prop :=
  (∃ p, reply_pipe x' = Some p ∧ p ∈ pipes_of x ∧ refuses p m) ∧
  (∀ q, written w' q = written w q) ∧ (∀ q, Fq.is_active (fq_of x) q → content w' q = []) ∧
  receiving_reply x' = false ∧ message_begins x' = false.

Lemma req_sends_ok fuel m rest x w : inv x w → ready x → (avail w (pipes_of x) < fuel)%nat → one_message (m :: rest) →
  (∃ x' w', xsend fuel m x w = Some (RcErr EAGAIN, x', w') ∧ receiving_reply x' = false ∧ message_begins x' = true ∧
     (∀ q, written w' q = written w q) ∧ ∀ q, content w' q = content w q) ∨
  (∃ x' w', send_parts fuel (m :: rest) x w = Some (x', w') ∧ receiving_reply x' = true ∧ message_begins x' = true ∧
     requested x x' (m :: rest) w w') ∨
  (∃ sent m' left x' w', m :: rest = sent ++ m' :: left ∧
     send_until fuel (m :: rest) x w = Some (RcErr EAGAIN, m' :: left, x', w') ∧ given_up x x' m' w w').
Proof.
  intros H Hx Hf Hone. set (x0 := if receiving_reply x then set_state false true x else x).
  assert (H0 : inv x0 w) by (unfold x0; destruct (receiving_reply x) eqn:Hr; [by apply inv_state_relaxed|done]).
  assert (Hb0 : message_begins x0 = true) by (unfold x0; destruct Hx as [[-> ?]|[-> _]]; done).
  assert (Hr0 : receiving_reply x0 = false) by (unfold x0; by destruct (receiving_reply x) eqn:?).
  assert (Hsame : header x0 = header x ∧ fq_of x0 = fq_of x ∧ lb_of x0 = lb_of x ∧ request_id x0 = request_id x ∧
    request_id_frames_enabled x0 = request_id_frames_enabled x) by (unfold x0; by destruct (receiving_reply x)).
  destruct Hsame as (Hhd & Hfq & Hlb & Hid & Hfr). destruct (v_lb _ _ H0) as [g Hl].
  assert (Hpip : pipes_of x0 = pipes_of x) by (unfold pipes_of; by rewrite Hfq).
  destruct (begin_request_ok fuel x0 w g Hl (v_idle _ _ H0 (or_introl Hb0)) (v_fq _ _ H0)) as (p & l' & w1 & Hs & Hres); [by rewrite Hpip|].
  destruct Hs as ([g' Hl'] & Hit & Hc & Hp). destruct p as [p|].
  - right. destruct Hres as (f' & w2 & Heq & Hrd & Hm & He). destruct Hp as (Hmid & Hwp & Hwo).
    set (x1 := with_fq f' (set_state (receiving_reply x0) false (opened x0 (Some p) l'))) in *.
    assert (Hpl : p ∈ items (Lb.pipes (lb_of x0))) by (apply Hit; destruct Hmid as (_ & _ & Hlk); by eapply list_elem_of_lookup_2).
    assert (Hpx : p ∈ pipes_of x) by (rewrite <- Hpip; by apply (v_same _ _ H0)).
    pose proof (xsend_begun fuel m x x1 w w2 Hx Heq Hr0 eq_refl) as Hbegun.
    destruct (body_sent fuel p (written w p) (m :: rest) x1 w2 g' (header x0))
      as [(l2 & w3 & Heq2 & Hc2 & Hp2 & Ho2)|(sent & m' & left & l2 & w3 & Hms & Heq2 & Hrf & Hc2 & Hp2 & Ho2)]; try done.
    + eapply lb_inv_written; [exact Hl'|apply Hrd].
    + by rewrite (d_written _ _ _ _ Hrd), Hwp.
    + eapply lb_idle_whole; [exact Hl|exact (v_idle _ _ H0 (or_introl Hb0))|done].
    + unfold header. destruct (request_id_frames_enabled x0); repeat constructor.
    + left. exists (set_state true true (with_lb l2 x1)), w3. split; [|split; [done|]; split; [done|]].
      * cbn [send_parts] in Heq2 |- *. by rewrite Hbegun.
      * exists p. split_and!; [done|done| | | | |done].
        -- rewrite Hp2, (d_written _ _ _ _ Hrd), Hwp, Hhd. by rewrite (assoc_L app).
        -- intros q Hq. by rewrite Ho2, (d_written _ _ _ _ Hrd), Hwo.
        -- intros q Hq. rewrite Hc2. apply He. by rewrite Hfq.
        -- cbn. by rewrite Hfr, Hid.
    + right. exists sent, m', left, (with_lb l2 x1), w3. split; [done|]. split; [cbn [send_until] in Heq2 |- *; by rewrite Hbegun|].
      split; [by exists p|]. split; [|split; [intros q Hq; rewrite Hc2; apply He; by rewrite Hfq|done]].
      intros q. destruct (decide (q = p)) as [->|Hq]; [done|]. by rewrite Ho2, (d_written _ _ _ _ Hrd), Hwo.
  - left. exists (opened x0 None l'), w1. destruct Hp as [_ Hw]. split_and!; [|done..]. unfold xsend. rewrite (relaxed x Hx). fold x0.
    rewrite Hb0, Hres. done.
Qed.

(** C21. A request goes out whole or not at all.  In every run (with no pipe ended
    at a bad moment, see [step]), with no message in progress, sending the parts of a request has one of three outcomes.  It fails with
    EAGAIN at the first part, nothing being written to any pipe and no waiting
    message being touched.  Or the header (the incremented request id if ids are
    on, and an empty part) and all the parts are written in a row to one attached
    pipe, which becomes the reply pipe, and nothing to any other; the messages
    that waited in the active pipes are gone, and a reply is expected.  Or the
    reply pipe refuses some part of the body (the peer ended it meanwhile):
    [xsend] fails with EAGAIN at that part, what was written of the request,
    header included, is rolled back, so that no pipe has anything of it, the
    messages that waited are gone, no reply is expected, and the socket is still
    in the middle of a request.  (Two parts written in one call go to the pipe
    together: [OutPipesNext], which [pipe_t] satisfies.) *)
Theorem req_sends random w0 fuel m rest x w : reachable random w0 (x, w) → ready x → (avail w (pipes_of x) < fuel)%nat →
  one_message (m :: rest) →
  (∃ x' w', xsend fuel m x w = Some (RcErr EAGAIN, x', w') ∧ receiving_reply x' = false ∧ message_begins x' = true ∧
     (∀ q, written w' q = written w q) ∧ ∀ q, content w' q = content w q) ∨
  (∃ x' w', send_parts fuel (m :: rest) x w = Some (x', w') ∧ receiving_reply x' = true ∧ message_begins x' = true ∧
     requested x x' (m :: rest) w w') ∨
  (∃ sent m' left x' w', m :: rest = sent ++ m' :: left ∧
     send_until fuel (m :: rest) x w = Some (RcErr EAGAIN, m' :: left, x', w') ∧ given_up x x' m' w w').
Proof. intros Hr. apply req_sends_ok. by eapply req_reachable_inv. Qed.

Lemma split_message l : whole is_more l → l ≠ [] → ∃ body rest, l = body ++ rest ∧ one_message body.
Proof.
  induction l as [|m l IH]; [done|]. intros Hw _. destruct (is_more m) eqn:Hm.
  - destruct (IH (whole_tail _ _ _ Hw) (whole_more _ _ _ Hw Hm)) as (body & rest & -> & Hone).
    exists (m :: body), rest. split; [done|]. cbn. by rewrite Hm.
  - exists [m], l. split; [done|]. cbn. by rewrite Hm.
Qed.

(** What receiving a reply consumes. *)
Definition consumed (x : req) (sk : list (Z * list part)) (p : Z) (ms : list part) (w w' : W) : Prop :=
  content w p = taken p sk ++ ms ++ content w' p ∧
  (∀ q, q ≠ p → from x q → content w q = taken q sk ++ content w' q) ∧ ∀ q, written w' q = written w q.

Lemma req_matches_ok fuel x w : inv x w → receiving_reply x = true → message_begins x = true → (S (avail w (pipes_of x)) < fuel)%nat →
  ∃ sk, Forall (λ s, from x s.1 ∧ bad x s.2) sk ∧
    ((∃ x' w', xrecv fuel x w = Some (RcErr EAGAIN, None, x', w') ∧ receiving_reply x' = true ∧ message_begins x' = true ∧
        (∀ q, from x q → content w q = taken q sk ++ content w' q) ∧ (∀ q, Fq.is_active (fq_of x) q → content w' q = []) ∧
        ∀ q, written w' q = written w q) ∨
     (∃ p hdr body x' w', recv_parts fuel (length body) x w = Some (body, x', w') ∧ from x p ∧ one_message body ∧
        good x (hdr ++ body) = Some body ∧ receiving_reply x' = false ∧ message_begins x' = true ∧
        consumed x sk p (hdr ++ body) w w')).
Proof.
  intros H Hr Hb Hf. pose proof (v_more _ _ H) as Hm. rewrite Hr, Hb in Hm.
  destruct (begin_reply_ok fuel x w (v_fq _ _ H) Hm Hb Hf) as (f1 & w1 & sk & r & Heq & Hrd & Hsk & Hres). exists sk. split; [done|].
  destruct r as [[p hdr]|].
  - right. destruct Hres as (Hp & Hg & Hm1 & Hcur & Hc & Ho). pose proof (d_fq _ _ _ _ Hrd) as Hf1.
    destruct (Fq.i_more _ _ _ Hf1 Hm1) as (p1 & _ & Hp1 & Hne). assert (p1 = p) as -> by congruence.
    assert (Hpin : p ∈ items (Fq.pipes f1)) by (by eapply list_elem_of_lookup_2).
    destruct (split_message _ (Fq.i_whole _ _ _ Hf1 p Hpin) Hne) as (body & rest & Hbody & Hone).
    cbn [begin_result fst snd] in Heq. set (x1 := set_state (receiving_reply x) false (with_fq f1 x)) in *.
    destruct (body_received fuel p rest body x1 w1 Hf1) as (f2 & w2 & Heq2 & Hrd2 & _ & Hc2 & Ho2); try done.
    { unfold pipes_of. change (fq_of x1) with f1. rewrite (avail_items _ _ _ _ w1 (v_fq _ _ H) Hrd).
      pose proof (shrinks_avail w w1 (pipes_of x) (d_shrinks _ _ _ _ Hrd)). unfold pipes_of in *. lia. }
    exists p, hdr, body, (set_state false true (with_fq f2 x1)), w2. split_and!; try done.
    + destruct body as [|b body]; [done|]. cbn [length recv_parts] in *.
      assert (Hx : xrecv fuel x w = xrecv fuel x1 w1).
      { unfold xrecv. rewrite Heq. change (receiving_reply x1) with (receiving_reply x). rewrite Hr.
        destruct fuel as [|n]; [lia|]. cbn [begin_reply]. change (message_begins x1) with false. done. }
      by rewrite Hx.
    + split_and!.
      * rewrite Hc, Hbody, Hc2. by rewrite !(assoc_L app).
      * intros q Hq Hfq. rewrite Ho by done. by rewrite Ho2.
      * intros q. by rewrite (d_written _ _ _ _ Hrd2), (d_written _ _ _ _ Hrd).
  - left. destruct Hres as (Hm1 & Hc & He). cbn [begin_result fst snd] in Heq. exists (with_fq f1 x), w1.
    split_and!; [|done|done|done|done|apply Hrd]. unfold xrecv. rewrite Hr, Heq. done.
Qed.

(** C22. The reply is matched.  When a reply is expected, [xrecv] consumes a
    sequence of bad messages, which are dropped, and then either finds nothing
    more to read and returns EAGAIN, or the next message begins in the right
    way (the id of the request if ids are on, and an empty part) and the user
    receives exactly its body; all of them come from the reply pipe, or from any
    pipe once that one is gone, and nothing is written. *)
Theorem req_matches random w0 fuel x w : reachable random w0 (x, w) → receiving_reply x = true → message_begins x = true →
  (S (avail w (pipes_of x)) < fuel)%nat →
  ∃ sk, Forall (λ s, from x s.1 ∧ bad x s.2) sk ∧
    ((∃ x' w', xrecv fuel x w = Some (RcErr EAGAIN, None, x', w') ∧ receiving_reply x' = true ∧ message_begins x' = true ∧
        (∀ q, from x q → content w q = taken q sk ++ content w' q) ∧ (∀ q, Fq.is_active (fq_of x) q → content w' q = []) ∧
        ∀ q, written w' q = written w q) ∨
     (∃ p hdr body x' w', recv_parts fuel (length body) x w = Some (body, x', w') ∧ from x p ∧ one_message body ∧
        good x (hdr ++ body) = Some body ∧ receiving_reply x' = false ∧ message_begins x' = true ∧
        consumed x sk p (hdr ++ body) w w')).
Proof. intros Hr. apply req_matches_ok. by eapply req_reachable_inv. Qed.

(** Requests and replies alternate.  In every run, no operation fails an
    assertion and every loop ends; in strict mode [xsend] fails with EFSM until
    the reply was received; [xrecv] fails with EFSM unless a request was sent;
    both change nothing then; sending the last part of a request makes the
    socket expect a reply, and receiving the last part of the reply makes it
    ready again. *)
Theorem req_alternates random w0 fuel x w : reachable random w0 (x, w) → (S (avail w (pipes_of x)) < fuel)%nat →
  (∀ m, ∃ r x' w', xsend fuel m x w = Some (r, x', w') ∧
    (receiving_reply x = true ∧ strict x = true ∧ r = RcErr EFSM ∧ x' = x ∧ w' = w ∨
     (receiving_reply x = false ∨ strict x = false) ∧
       (r = RcOk ∧ receiving_reply x' = negb (is_more m) ∨ r = RcErr EAGAIN ∧ receiving_reply x' = false))) ∧
  (∃ r om x' w', xrecv fuel x w = Some (r, om, x', w') ∧
    (receiving_reply x = false ∧ r = RcErr EFSM ∧ om = None ∧ x' = x ∧ w' = w ∨
     receiving_reply x = true ∧
       ((∃ m, r = RcOk ∧ om = Some m ∧ receiving_reply x' = is_more m) ∨ r = RcErr EAGAIN ∧ om = None ∧ receiving_reply x' = true))) ∧
  (∃ b x' w', xhas_in x w = Some (b, x', w') ∧ (receiving_reply x = false → b = false)) ∧
  is_Some (xhas_out x w) ∧
  (∀ p k j, Fq.can_terminate (fq_of x) p k → Lb.can_terminate (lb_of x) p j → is_Some (xpipe_terminated p x)).
Proof.
  intros Hr Hf. pose proof (req_reachable_inv _ _ _ _ Hr) as H. split_and!.
  - intros m. destruct (xsend_ok fuel m x w H ltac:(lia)) as (r & x' & w' & Heq & _ & Hs). eauto.
  - destruct (xrecv_ok fuel x w H Hf) as (r & om & x' & w' & Heq & _ & Hs). eauto 6.
  - destruct (req_xhas_in_ok x w H) as (b & x' & w' & Heq & _ & Hs). eauto.
  - destruct (xhas_out_ok x w H) as (b & x' & w' & -> & _). done.
  - intros p k j Hk Hj. destruct (req_terminated_ok p k j x w H Hk Hj) as (x' & -> & _). done.
Qed.
End correct.

(** ** What the session passes on *)

Fixpoint push_all (st : session_state) (ms : list part) : option session_state :=
  match ms with
  | [] => Some st
  | m :: ms => '(st, _) ← push_msg st m; push_all st ms
  end.

(** An optional id, an empty part, the body. *)
Definition reply_form (ms : list part) : Prop :=
  ∃ ids bottom body, ms = ids ++ bottom :: body ∧ (ids = [] ∨ ∃ i, ids = [i] ∧ is_more i = true ∧ p_size i = 4) ∧
    is_more bottom = true ∧ p_data bottom = [] ∧ one_message body.

(** No other flag. *)
Definition plain_part (m : part) : Prop := p_flags m = 0 ∨ p_flags m = Msg.more.

Lemma plain_flags m : plain_part m → p_flags m = if is_more m then Msg.more else 0.
Proof. unfold is_more. by intros [-> | ->]. Qed.

Lemma push_plain st m : plain_part m → push_msg st m =
  match st with
  | Bottom => if is_more m then if p_size m =? 4 then Some (Request_id, true) else if p_size m =? 0 then Some (Body, true) else None else None
  | Request_id => if is_more m && (p_size m =? 0) then Some (Body, true) else None
  | Body => Some (if is_more m then Body else Bottom, true)
  end.
Proof. intros H. unfold push_msg. rewrite (plain_flags m H). by destruct st, (is_more m). Qed.

Lemma size_empty m : (p_size m =? 0) = true ↔ p_data m = [].
Proof. unfold p_size. rewrite Z.eqb_eq. destruct (p_data m); cbn; split; [done..|lia|done]. Qed.

Lemma push_body ms : Forall plain_part ms → one_message ms → push_all Body ms = Some Bottom.
Proof.
  induction 1 as [|m ms Hm _ IH]; [done|]. cbn [one_message push_all]. rewrite push_plain by done. cbn [mbind option_bind].
  destruct (is_more m); [exact IH|]. by intros ->.
Qed.

Lemma one_message_rest m ms : one_message (m :: ms) → is_more m = true → one_message ms.
Proof. cbn [one_message]. intros H Hm. by rewrite Hm in H. Qed.

(** The messages that are refused in the middle of the header. *)
Lemma push_request_id ms : Forall plain_part ms → one_message ms →
  (is_Some (push_all Request_id ms) ↔ ∃ b body, ms = b :: body ∧ is_more b = true ∧ p_data b = [] ∧ one_message body) ∧
  (is_Some (push_all Request_id ms) → push_all Request_id ms = Some Bottom).
Proof.
  intros Hp Hone. destruct Hp as [|m ms Hm Hms]; [done|]. cbn [push_all]. rewrite push_plain by done.
  destruct (is_more m) eqn:Hmm, (p_size m =? 0) eqn:Hs; cbn [andb mbind option_bind].
  2-4: split; [split; [by intros [? ?]|intros (b & body & [= <- <-] & Hb & Hd & _); apply size_empty in Hd; congruence]|by intros [? ?]].
  pose proof (one_message_rest m ms Hone Hmm) as Hrest. rewrite push_body by done. split; [|done]. split; [|done].
  intros _. exists m, ms. split_and!; try done. by apply size_empty.
Qed.

Lemma req_session_ok ms : Forall plain_part ms → one_message ms →
  (is_Some (push_all Bottom ms) ↔ reply_form ms) ∧ (is_Some (push_all Bottom ms) → push_all Bottom ms = Some Bottom).
Proof.
  intros Hp Hone. pose proof Hp as Hp0. destruct Hp as [|m ms Hm Hms]; [done|]. cbn [push_all]. rewrite push_plain by done.
  destruct (is_more m) eqn:Hmm.
  2:{ split; [|by intros [? ?]]. split; [by intros [? ?]|]. intros (ids & b & body & Heq & [-> |(i & -> & Hi & _)] & Hb & _);
        cbn in Heq; simplify_eq; congruence. }
  pose proof (one_message_rest m ms Hone Hmm) as Hrest. destruct (p_size m =? 4) eqn:H4; cbn [mbind option_bind].
  - destruct (push_request_id ms Hms Hrest) as [Hiff Hb]. split; [|exact Hb]. rewrite Hiff. split.
    + intros (b & body & -> & Hbm & Hd & Hbody). exists [m], b, body. split_and!; try done. right. exists m. split_and!; [done..|lia].
    + intros (ids & b & body & Heq & [-> |(i & -> & Hi & _)] & Hb2 & Hd & Hbody); cbn in Heq; simplify_eq; [|eauto 6].
      apply size_empty in Hd. lia.
  - destruct (p_size m =? 0) eqn:H0; cbn [mbind option_bind].
    + rewrite push_body by done. split; [|done]. split; [|done]. intros _. exists [], m, ms. split_and!; [done|by left|done|by apply size_empty|done].
    + split; [|by intros [? ?]]. split; [by intros [? ?]|].
      intros (ids & b & body & Heq & [-> |(i & -> & Hi & Hs)] & Hb & Hd & _); cbn in Heq; simplify_eq; [apply size_empty in Hd; congruence|lia].
Qed.

(** The session of a request socket passes a message (with no flag but
    [more]) if and only if it is an optional four-byte id, an empty part and a
    body, and is then back in its first state; every message the socket takes
    for a reply, whatever its settings, is of that form. *)
Theorem req_session ms : Forall plain_part ms → one_message ms →
  (push_all Bottom ms = Some Bottom ↔ reply_form ms) ∧ (is_Some (push_all Bottom ms) → push_all Bottom ms = Some Bottom) ∧
  ∀ x body, good x ms = Some body → push_all Bottom ms = Some Bottom.
Proof.
  intros Hp Hone. destruct (req_session_ok ms Hp Hone) as [Hiff Hb]. split_and!; [rewrite <- Hiff; split; [by intros ->|exact Hb]|exact Hb|].
  intros x body Hg. apply Hb, Hiff. unfold good in Hg. destruct ms as [|a ms]; [done|].
  destruct (request_id_frames_enabled x).
  - destruct (id_matches a x) eqn:Hid; [|done]. destruct ms as [|b ms]; [done|].
    destruct (is_more b && bool_decide (p_data b = [])) eqn:Hbb; [|done]. injection Hg as ->.
    apply andb_true_iff in Hid as [Hid _]. apply andb_true_iff in Hid as [Ha Hl]. apply andb_true_iff in Hbb as [Hb1 Hd%bool_decide_eq_true].
    exists [a], b, body. split_and!; [done| |done|done|].
    + right. exists a. split_and!; [done..|]. unfold p_size. apply Nat.eqb_eq in Hl. lia.
    + eapply one_message_rest; [|exact Hb1]. by eapply one_message_rest.
  - destruct (is_more a && bool_decide (p_data a = [])) eqn:Hbb; [|done]. injection Hg as ->.
    apply andb_true_iff in Hbb as [Hb1 Hd%bool_decide_eq_true]. exists [], a, body. split_and!; [done|by left|done|done|].
    by eapply one_message_rest.
Qed.

(** * Runs on pipes that are lists (see [Duo]) *)

Definition world : Type := Duo.duo (M := part).
#[local] Instance world_in : InPipes part world := Duo.duo_in.
#[local] Instance world_out : OutPipes part world := Duo.duo_out SubMsg.is_more.
#[local] Instance world_in_laws : InPipesLaws part world := Duo.duo_in_laws.
#[local] Instance world_out_laws : OutPipesLaws part world SubMsg.is_more := Duo.duo_out_laws SubMsg.is_more.
#[local] Instance world_duplex : DuplexPipes part world SubMsg.is_more := Duo.duo_duplex SubMsg.is_more.
#[local] Instance world_next : OutPipesNext part world SubMsg.is_more := Duo.duo_next SubMsg.is_more.

Definition a_part (data : list Z) (more : bool) : part := Part data (if more then 1 else 0) None.

(** ** A pipe that ends in the middle of a request

    A pipe whose peer has begun to terminate it is not active any more, and
    [pipe_t::check_write] fails, until the socket is told by
    [xpipe_terminated]. *)
Module Closing.
Record closing := World { base : world; closed : Z → bool }.

#[export] Instance closing_in : InPipes part closing := {|
  in_read p w := let '(r, b) := in_read p (base w) in (r, World b (closed w));
  in_check_read p w := let '(r, b) := in_check_read p (base w) in (r, World b (closed w)) |}.

#[export] Instance closing_out : OutPipes part closing := {|
  out_check_write p w := (negb (closed w p) && (out_check_write p (base w)).1, w);
  out_write p m w :=
    if closed w p then (false, w) else let '(r, b) := out_write p m (base w) in (r, World b (closed w));
  out_rollback p w := World (out_rollback p (base w)) (closed w);
  out_flush p w := World (out_flush p (base w)) (closed w);
  out_check_hwm p w := out_check_hwm p (base w) |}.
End Closing.
#[local] Existing Instances Closing.closing_in Closing.closing_out.

(** The peer 1 goes away after the first part of a request was sent to it; the
    last part and another request follow. *)
Definition run_closing : option (list rc * req * world) :=
  let w0 := Closing.World (Duo.Two (λ _, []) (λ _, [])) (λ _, false) in
  '(d, w) ← Dealer.xattach_pipe 1 (dealer_ (req_new 7)) w0;
  '(d, w) ← Dealer.xattach_pipe 2 d w;
  '(r1, x, w) ← xsend 10 (a_part [1] true) (set_dealer d (req_new 7)) w;
  let w := Closing.World (Closing.base w) (λ p, p =? 1) in
  '(r2, x, w) ← xsend 10 (a_part [2] false) x w;
  '(r3, _, x, w) ← xrecv 10 x w;
  '(r4, x, w) ← xsend 10 (a_part [3] false) x w;
  Some ([r1; r2; r3; r4], x, Closing.base w).

(** When the pipe of a request ends in the middle of the request, [xsend]
    fails with the result -2 on the last part, which a blocking [send] reports
    as a success, but the socket neither expects a reply nor begins a new
    message: the next request goes out without the empty part, so that no peer
    can answer it, and the socket then waits for a reply. *)
Lemma req_defects :
  ∃ x w, run_closing = Some ([RcOk; RcErr EAGAIN; RcErr EFSM; RcOk], x, w) ∧
    Duo.outgoing w 2 = [a_part [3] false] ∧ receiving_reply x = true.
Proof. do 2 eexists. split; [vm_compute; reflexivity|]. split; vm_compute; reflexivity. Qed.

(** ** Witnesses: one peer; a request is sent, and a stale message and the reply
    come back. *)

Definition ex_empty : world := Duo.Two (λ _, []) (λ _, []).
Definition ex_attached : req * world :=
  default (req_new 7, ex_empty) ('(d, w) ← Dealer.xattach_pipe 1 (dealer_ (req_new 7)) ex_empty; Some (set_dealer d (req_new 7), w)).
Definition ex_sent : rc * req * world :=
  default (RcOk, req_new 7, ex_empty) (xsend 10 (a_part [1] false) ex_attached.1 ex_attached.2).
Definition ex_replies : list part := [a_part [5] true; a_part [6] false; a_part [] true; a_part [8] true; a_part [9] false].
Definition ex_back (l : list part) : world := Duo.Two (λ q, if q =? 1 then l else []) (Duo.outgoing ex_sent.2).
Definition ex_arrived : world := ex_back ex_replies.

Lemma req_ex_attached : reachable 7 ex_empty ex_attached.
Proof.
  eapply rtc_l; [|apply rtc_refl]. change ex_attached with (set_dealer (dealer_ ex_attached.1) (req_new 7), ex_attached.2).
  apply (s_attach (req_new 7) ex_empty 1); [cbn; set_solver|done|by intros m [=]|vm_compute; reflexivity].
Qed.

Definition ex_ready : req := default ex_sent.1.2 (d ← Dealer.xread_activated 1 (dealer_ ex_sent.1.2); Some (set_dealer d ex_sent.1.2)).

Lemma req_ex_back l : whole SubMsg.is_more l → reachable 7 ex_empty (ex_ready, ex_back l).
Proof.
  intros Hl. apply (rtc_trans _ ex_attached); [apply req_ex_attached|].
  eapply rtc_l; [apply (s_send 10 (a_part [1] false) _ _ RcOk ex_sent.1.2 ex_sent.2); [vm_compute; lia|vm_compute; reflexivity]|].
  eapply rtc_l; [apply (s_arrive _ _ (ex_back l)); [done|]|].
  - intros q Hq. assert (q = 1) as -> by (by apply list_elem_of_singleton in Hq). by exists l.
  - eapply rtc_l; [|apply rtc_refl]. change ex_ready with (set_dealer (dealer_ ex_ready) ex_sent.1.2).
    apply (s_read ex_sent.1.2 (ex_back l) 1 0); vm_compute; [reflexivity|lia|reflexivity].
Qed.

Lemma req_ex_arrived : reachable 7 ex_empty (ex_ready, ex_arrived).
Proof. apply req_ex_back. by intros m [= <-]. Qed.

Lemma req_sends_witness :
  reachable 7 ex_empty ex_attached ∧
  ((∃ x' w', xsend 10 (a_part [1] false) ex_attached.1 ex_attached.2 = Some (RcErr EAGAIN, x', w')) ∨
   (∃ x' w', send_parts 10 [a_part [1] false] ex_attached.1 ex_attached.2 = Some (x', w') ∧
      requested ex_attached.1 x' [a_part [1] false] ex_attached.2 w') ∨
   (∃ sent m' left x' w', [a_part [1] false] = sent ++ m' :: left ∧
      send_until 10 [a_part [1] false] ex_attached.1 ex_attached.2 = Some (RcErr EAGAIN, m' :: left, x', w') ∧
      given_up ex_attached.1 x' m' ex_attached.2 w')).
Proof.
  split; [exact req_ex_attached|].
  destruct (req_sends 7 ex_empty 10 (a_part [1] false) [] ex_attached.1 ex_attached.2 req_ex_attached
    ltac:(left; split; vm_compute; reflexivity) ltac:(vm_compute; lia) ltac:(vm_compute; reflexivity))
    as [(x' & w' & H & _)|[(x' & w' & H1 & _ & _ & H2)|H]].
  - left. exists x', w'. exact H.
  - right. left. exists x', w'. exact (conj H1 H2).
  - right. right. exact H.
Defined.

Lemma req_matches_witness :
  reachable 7 ex_empty (ex_ready, ex_arrived) ∧
  ∃ sk, Forall (λ s, from ex_ready s.1 ∧ bad ex_ready s.2) sk ∧
    ((∃ x' w', xrecv 10 ex_ready ex_arrived = Some (RcErr EAGAIN, None, x', w')) ∨
     (∃ p hdr body x' w', recv_parts 10 (length body) ex_ready ex_arrived = Some (body, x', w') ∧
        consumed ex_ready sk p (hdr ++ body) ex_arrived w')).
Proof.
  split; [exact req_ex_arrived|].
  destruct (req_matches 7 ex_empty 10 ex_ready ex_arrived req_ex_arrived ltac:(vm_compute; reflexivity) ltac:(vm_compute; reflexivity)
    ltac:(vm_compute; lia)) as (sk & Hsk & [(x' & w' & H & _)|(p & hdr & body & x' & w' & H1 & _ & _ & _ & _ & _ & H2)]); exists sk; (split; [exact Hsk|]).
  - left. exists x', w'. exact H.
  - right. exists p, hdr, body, x', w'. exact (conj H1 H2).
Defined.

Lemma req_alternates_witness :
  reachable 7 ex_empty (ex_ready, ex_arrived) ∧ ∃ r x' w', xsend 10 (a_part [1] false) ex_ready ex_arrived = Some (r, x', w').
Proof.
  split; [exact req_ex_arrived|].
  destruct (req_alternates 7 ex_empty 10 ex_ready ex_arrived req_ex_arrived ltac:(vm_compute; lia)) as [Hs _].
  destruct (Hs (a_part [1] false)) as (r & x' & w' & H & _). exact (ex_intro _ r (ex_intro _ x' (ex_intro _ w' H))).
Defined.

Lemma req_session_witness :
  Forall plain_part [a_part [] true; a_part [9] false] ∧ push_all Bottom [a_part [] true; a_part [9] false] = Some Bottom.
Proof.
  assert (Hp : Forall plain_part [a_part [] true; a_part [9] false]) by (repeat constructor; vm_compute; auto).
  split; [exact Hp|]. refine (proj1 (proj2 (req_session [a_part [] true; a_part [9] false] Hp eq_refl)) _). by exists Bottom.
Defined.

(** What the run of the witnesses gives: the stale message is dropped. *)
Example req_ex_reply : fst <$> (fst <$> recv_parts 10 2 ex_ready ex_arrived) = Some [a_part [8] true; a_part [9] false].
Proof. vm_compute. reflexivity. Qed.
End Req.
