(* ===== verification/ReqRep.v ===== *)
(** * A request and its reply, end to end

    The request socket ([Req]) and the reply socket ([Rep]), each over its own
    pipes: what the first writes is a request for the second, and what the
    second writes back is the reply the first waits for.  The transport between
    them is a hypothesis on what their pipes hold. *)

From S2P Require Import Prelude Msg Array PipeIface SubMsg Recv Fq Lb Dealer Router Rep Req.
Import Array SubMsg Recv.

Module ReqRep.

(** The header of a request is an envelope and the empty part. *)
Lemma header_envelope x : ∃ env delim, Req.header x = env ++ [delim] ∧ Rep.envelope env delim ∧ (length env ≤ 1)%nat.
Proof.
  unfold Req.header. destruct (Req.request_id_frames_enabled x).
  - exists [Req.id_part (u32 (Req.request_id x + 1))], Req.bottom_part. split; [done|]. split; [|done]. split; [|done]. by repeat constructor.
  - exists [], Req.bottom_part. split; [done|]. split; [|cbn; lia]. split; [constructor|done].
Qed.

Lemma uint32_le32 v : 0 ≤ v < 2 ^ 32 → Req.uint32_at (Req.le32 v) = v.
Proof.
  intros Hv. unfold Req.uint32_at, Req.le32. cbn [foldr]. rewrite !Z.shiftr_div_pow2 by lia. unfold wrap.
  Z.div_mod_to_equations. lia.
Qed.

(** A socket that waits for the reply to the request of [x]. *)
Definition waits (x x2 : Req.req) (p : Z) : Prop :=
  Req.receiving_reply x2 = true ∧ Req.message_begins x2 = true ∧ Req.reply_pipe x2 = Some p ∧
  Req.request_id_frames_enabled x2 = Req.request_id_frames_enabled x ∧
  Req.request_id x2 = (if Req.request_id_frames_enabled x then u32 (Req.request_id x + 1) else Req.request_id x).

Lemma header_good x x2 p reply : waits x x2 p → Req.good x2 (Req.header x ++ reply) = Some reply.
Proof.
  intros (_ & _ & _ & Hfr & Hid). unfold Req.good, Req.header. rewrite Hfr. destruct (Req.request_id_frames_enabled x); [|done].
  cbn [app]. unfold Req.id_matches. cbn [Req.id_part p_data]. rewrite uint32_le32 by (apply wrap_range; lia). rewrite Hid, Z.eqb_refl. done.
Qed.

Lemma header_message x reply : one_message reply → one_message (Req.header x ++ reply).
Proof. unfold Req.header. by destruct (Req.request_id_frames_enabled x). Qed.

Section reqrep.
Context {W : Type} `{!InPipes part W} `{!OutPipes part W} `{!InPipesLaws part W} `{!OutPipesLaws part W is_more}.
Context `{!DuplexPipes part W is_more} `{!OutPipesNext part W is_more}.

(** The reply is the next message of its pipe. *)
Lemma reply_received x x2 p reply later w2 fuel : Req.inv x2 w2 → waits x x2 p → one_message reply →
  Fq.is_active (Req.fq_of x2) p → content w2 p = (Req.header x ++ reply) ++ later → (S (avail w2 (Req.pipes_of x2)) < fuel)%nat →
  ∃ x3 w3, Req.recv_parts fuel (length reply) x2 w2 = Some (reply, x3, w3) ∧ Req.receiving_reply x3 = false ∧
    Req.message_begins x3 = true ∧ content w3 p = later.
Proof.
  intros H Hw Hone Ha Hc Hf. pose proof Hw as (Hr & Hb & Hp & _).
  pose proof (header_good x x2 p reply Hw) as Hg. pose proof (header_message x reply Hone) as Hone2.
  assert (Hfr : ∀ q, Req.from x2 q → q = p) by (intros q [Hn|Hq]; congruence).
  destruct (Req.req_matches_ok fuel x2 w2 H Hr Hb Hf) as (sk & Hsk & Hres).
  assert (Hnil : ∀ l, content w2 p = taken p sk ++ l → sk = []).
  { intros l Hl. destruct sk as [|[q ms] sk]; [done|]. inversion Hsk as [|? ? [Hq [Hms Hbad]] _]; subst. cbn [fst snd] in *.
    apply Hfr in Hq as ->. cbn [taken] in Hl. rewrite decide_True in Hl by done. rewrite Hc, <- (assoc_L app ms) in Hl.
    pose proof (one_message_inj _ _ _ _ Hone2 Hms Hl) as He. rewrite <- He in Hbad. congruence. }
  destruct Hres as [(x3 & w3 & _ & _ & _ & Hcw & He & _)|(q & hdr & body & x3 & w3 & Heq & Hq & Hbody & Hgb & Hr3 & Hb3 & Hcw & _)].
  - assert (Hfp : Req.from x2 p) by (by right). specialize (Hcw p Hfp). pose proof (Hnil _ Hcw) as ->. specialize (He p Ha).
    cbn in Hcw. rewrite He, Hc in Hcw. apply app_eq_nil in Hcw as [Hcw _]. by rewrite Hcw in Hone2.
  - apply Hfr in Hq as ->. pose proof (Hnil _ Hcw) as ->. cbn in Hcw. rewrite Hc in Hcw.
    assert (Hhb : one_message (hdr ++ body)).
    { clear -Hgb Hbody. unfold Req.good in Hgb.
      assert (Hrest : ∀ ms b, match ms with b :: body => if is_more b && bool_decide (p_data b = []) then Some body else None | [] => None end = Some b →
        one_message b → one_message ms).
      { intros [|a ms] b; [done|]. destruct (is_more a) eqn:Ha; [|done]. cbn [andb]. case_bool_decide; [|done]. intros [= ->] Hb. cbn. by rewrite Ha. }
      destruct (Req.request_id_frames_enabled x2); [|by eapply Hrest]. destruct (hdr ++ body) as [|a ms]; [done|].
      destruct (Req.id_matches a x2) eqn:Hid; [|done]. cbn. apply andb_true_iff in Hid as [Hid _]. apply andb_true_iff in Hid as [-> _]. by eapply Hrest. }
    pose proof (one_message_inj _ _ _ _ Hone2 Hhb Hcw) as He. rewrite <- He, Hg in Hgb. injection Hgb as <-.
    rewrite He in Hcw. apply app_inv_head in Hcw. exists x3, w3. by split_and!.
Qed.

Context {V : Type} `{!InPipes part V} `{!OutPipes part V} `{!InPipesLaws part V} `{!OutPipesLaws part V is_more}.
Context `{!DuplexPipes part V is_more} `{!TermPipes V} `{!TermPipesLaws part V is_more}.

(** C3. A request and its reply.  When a request socket has sent the parts
    [request], the parts it wrote to the reply pipe are a message for which (1)
    a reply socket, idle and about to receive it from a peer, hands exactly
    [request] to its user, and sending [reply] writes, to the pipe the id of
    that peer stands for, exactly one message, unless that pipe refuses; and (2)
    once that message is the next one in the reply pipe of the request socket,
    which still waits for it, the user of the request socket receives exactly
    [reply] and the socket is ready for the next request. *)
Theorem reqrep_roundtrip random w0 x w fuel request x1 w1 :
  Req.reachable (W := W) random w0 (x, w) → Req.ready x → (avail w (Req.pipes_of x) < fuel)%nat → one_message request →
  Req.send_parts fuel request x w = Some (x1, w1) →
  ∃ p hdr, waits x x1 p ∧ written w1 p = written w p ++ hdr ++ request ∧
    (∀ random' v0 y v n fuel' idp r1 v1 s rest reply,
       Rep.reachable (W := V) random' v0 (y, v) → Rep.sending_reply y = false → Rep.request_begins y = true →
       (avail v (Router.pipes_of (Rep.router_ y)) < fuel')%nat → (2 < n)%nat →
       Router.more_out (Router.outb (Rep.router_ y)) = false → Router.more_in (Router.inb (Rep.router_ y)) = false →
       Router.terminate_current_in (Router.inb (Rep.router_ y)) = false →
       Router.prefetched (Router.inb (Rep.router_ y)) = false →
       Router.xrecv fuel' (Rep.router_ y) v = Some (RcOk, Some idp, r1, v1) → Router.current_in (Router.inb r1) = Some s →
       p_data idp ≠ [] → Router.prefetched_msg (Router.inb r1) :: content v1 s = (hdr ++ request) ++ rest → one_message reply →
       ∃ y1 v2 y2 v3, Rep.recv_parts n fuel' (length request) y v = Some (request, y1, v2) ∧
         Rep.send_parts reply y1 v2 = Some (y2, v3) ∧ Rep.replied (Rep.router_ y) (p_data idp) (hdr ++ reply) v v1 v3) ∧
    (∀ x2 w2 fuel' reply later,
       Req.reachable random w0 (x2, w2) → waits x x2 p → one_message reply → Fq.is_active (Req.fq_of x2) p →
       content w2 p = (hdr ++ reply) ++ later → (S (avail w2 (Req.pipes_of x2)) < fuel')%nat →
       ∃ x3 w3, Req.recv_parts fuel' (length reply) x2 w2 = Some (reply, x3, w3) ∧ Req.receiving_reply x3 = false ∧
         Req.message_begins x3 = true ∧ content w3 p = later).
Proof.
  intros Hr Hready Hf Hone Hs. pose proof (Req.req_reachable_inv _ _ _ _ Hr) as H.
  destruct request as [|m rest0]; [done|].
  destruct (Req.req_sends_ok fuel m rest0 x w H Hready Hf Hone) as
    [(x' & w' & He & _)|[(x' & w' & He & Hrr & Hmb & p & Hp & _ & Hwp & _ & _ & Hid & Hfr)|(sent & m' & left & x' & w' & _ & He & _)]].
  { cbn [Req.send_parts] in Hs. rewrite He in Hs. cbn [mbind option_bind] in Hs. by rewrite bool_decide_eq_false_2 in Hs. }
  2:{ by rewrite (Req.send_until_parts _ _ _ _ _ _ _ _ He) in Hs. }
  rewrite Hs in He. injection He as <- <-. exists p, (Req.header x). split; [by split_and!|]. split; [done|]. split.
  - intros random' v0 y v n fuel' idp r1 v1 s rest reply Hry Hsr Hrb Hfy Hn Hmo Hmi Ht Hpf Hx Hcu Hidp Hc Hrep.
    destruct (Rep.rep_reachable_inv _ _ _ _ Hry) as [Hy Hpl]. destruct (header_envelope x) as (env & delim & Hhd & Henv & Hlen).
    rewrite Hhd, <- !(assoc_L app) in Hc. cbn [app] in Hc.
    destruct (Rep.rep_replies_ok y v n fuel' idp r1 v1 s env delim (m :: rest0) rest reply) as (y1 & v2 & y2 & v3 & H1 & H2 & _ & _ & _ & H3);
      try done; [lia|by rewrite Hpf|].
    exists y1, v2, y2, v3. split_and!; [done..|]. by rewrite Hhd, <- (assoc_L app).
  - intros x2 w2 fuel' reply later Hr2 Hw2 Hrep Ha Hc Hf2. apply (reply_received x); try done. by eapply Req.req_reachable_inv.
Qed.
End reqrep.

(** ** Limits *)

#[local] Existing Instances Req.world_in Req.world_out Req.world_in_laws Req.world_out_laws Req.world_duplex Req.world_next.
#[local] Existing Instances Router.world_in Router.world_out Router.world_in_laws Router.world_out_laws Router.world_duplex
  Router.world_term Router.world_term_laws.

(** Limits of the router, reply and request sockets.  A peer that announces
    the next id the router generates, or a ZMQ_CONNECT_ROUTING_ID of that form,
    makes an assertion fail when the next peer without an id comes; after a
    handover of the pipe whose message was prefetched, [_current_in] points to
    the pipe that ended, which is terminated again.  After a malformed request
    from a peer that cannot be written, the reply to the next request, of
    another peer, is lost; with mandatory routing a request from a peer that
    cannot be written fails an assertion.  When the pipe of a request ends in the
    middle of it, the next request goes out without its header, so that nobody
    can answer it, and the socket waits for a reply. *)
Theorem reqrep_defects :
  (Router.run_collision = None ∧ Router.run_reserved = None ∧
   ∃ r w, Router.run_handover = Some (r, w) ∧ Router.current_in (Router.inb r) = Some 1 ∧ Router.pipes_of r = [2] ∧
     ∃ m r', Router.xrecv 10 r w = Some (RcOk, Some m, r', pipe_terminate 1 true w)) ∧
  (Rep.run_malformed = Some ([Router.a_part [7] false], [], []) ∧
   Rep.run_answered = Some ([Router.a_part [7] false], [Router.a_part [] true; Router.a_part [8] false]) ∧
   Rep.run_mandatory = None) ∧
  ∃ x w, Req.run_closing = Some ([RcOk; RcErr EAGAIN; RcErr EFSM; RcOk], x, w) ∧
    Duo.outgoing w 2 = [Req.a_part [3] false] ∧ Req.receiving_reply x = true.
Proof.
  destruct Router.router_defects as (H1 & H2 & r & w & H3 & H4 & _ & H5 & _ & H6).
  exact (conj (conj H1 (conj H2 (ex_intro _ r (ex_intro _ w (conj H3 (conj H4 (conj H5 H6))))))) (conj Rep.rep_defects Req.req_defects)).
Qed.

(** ** Witness: the request [1], the reply [8; 9] *)

Definition ex_request : list part := [Req.a_part [1] false].
Definition ex_reply : list part := [Req.a_part [8] true; Req.a_part [9] false].

(** The reply socket: peer 1, called "A", has sent the request. *)
Definition ex_served : Router.world := Router.world_of (λ p, if p =? 1 then Router.id_part [65] :: Req.bottom_part :: ex_request else []).
Definition ex_rep : Rep.rep * Router.world := default (Rep.rep_new 0, ex_served) (Rep.rep_attach [1] (Router.router_new 0) ex_served).
Definition ex_first : rc * option part * Router.router * Router.world :=
  default (RcOk, None, Router.router_new 0, ex_served) (Router.xrecv 10 (Rep.router_ ex_rep.1) ex_rep.2).

Lemma reqrep_ex_reachable : Rep.reachable 0 ex_served (ex_rep.1, ex_rep.2).
Proof.
  eapply rtc_l; [|apply rtc_refl].
  change (ex_rep.1, ex_rep.2) with (Rep.Rep (Rep.router_ ex_rep.1) (Rep.sending_reply (Rep.rep_new 0)) (Rep.request_begins (Rep.rep_new 0)), ex_rep.2).
  apply (Rep.s_router (Rep.rep_new 0) ex_served (Rep.router_ ex_rep.1) ex_rep.2); [|vm_compute; reflexivity].
  apply (Router.s_attach _ _ 1 false); [| | |done|done|vm_compute; reflexivity].
  - intros Hp. by apply not_elem_of_nil in Hp.
  - cbn. set_solver.
  - split_and!; [by intros m [= <-]|cbn; by split_and!|by intros m [= <-]].
Qed.

Lemma reqrep_roundtrip_witness :
  Req.reachable 7 Req.ex_empty Req.ex_attached ∧
  ∃ x1 w1, Req.send_parts 10 ex_request Req.ex_attached.1 Req.ex_attached.2 = Some (x1, w1) ∧
    (∃ y1 v2 y2 v3, Rep.recv_parts 10 10 1 ex_rep.1 ex_rep.2 = Some (ex_request, y1, v2) ∧
       Rep.send_parts ex_reply y1 v2 = Some (y2, v3) ∧
       Rep.replied (Rep.router_ ex_rep.1) [65] ([Req.bottom_part] ++ ex_reply) ex_rep.2 ex_first.2 v3) ∧
    (∃ x3 w3, Req.recv_parts 10 2 Req.ex_ready (Req.ex_back (Req.bottom_part :: ex_reply)) = Some (ex_reply, x3, w3)).
Proof.
  split; [exact Req.req_ex_attached|]. exists Req.ex_sent.1.2, Req.ex_sent.2.
  assert (Hs : Req.send_parts 10 ex_request Req.ex_attached.1 Req.ex_attached.2 = Some (Req.ex_sent.1.2, Req.ex_sent.2)) by (vm_compute; reflexivity).
  split; [exact Hs|].
  destruct (reqrep_roundtrip 7 Req.ex_empty Req.ex_attached.1 Req.ex_attached.2 10 ex_request Req.ex_sent.1.2 Req.ex_sent.2 Req.req_ex_attached
    ltac:(left; split; vm_compute; reflexivity) ltac:(vm_compute; lia) ltac:(vm_compute; reflexivity) Hs)
    as (p & hdr & Hw & Hwr & Hrep & Hreq).
  assert (p = 1) as -> by (destruct Hw as (_ & _ & [= <-] & _); reflexivity).
  assert (hdr = [Req.bottom_part]) as -> by (apply (app_inv_tail ex_request); symmetry; exact Hwr).
  split.
  - apply (Hrep 0 ex_served ex_rep.1 ex_rep.2 10%nat 10%nat (Part [65] Msg.more None) ex_first.1.2 ex_first.2 1 []);
      [exact reqrep_ex_reachable|vm_compute; reflexivity|vm_compute; reflexivity|vm_compute; lia|lia|vm_compute; reflexivity..|discriminate|vm_compute; reflexivity|vm_compute; reflexivity].
  - destruct (Hreq Req.ex_ready (Req.ex_back (Req.bottom_part :: ex_reply)) 10%nat ex_reply []) as (x3 & w3 & H & _);
      [apply Req.req_ex_back; by intros m [= <-]|vm_compute; split_and!; reflexivity|vm_compute; reflexivity| |vm_compute; reflexivity|vm_compute; lia|].
    + exists 0%nat. split; [vm_compute; lia|vm_compute; reflexivity].
    + exists x3, w3. exact H.
Defined.
End ReqRep.
