(* ===== verification/XPub.v ===== *)
(** * The publisher socket

    [xpub_t] (src/xpub.cpp, with the PUB type of src/pub.cpp) puts the multi-trie
    and the distributor together: subscriptions read from the pipes go to the
    trie and, when they change what is subscribed, to the queue the user reads;
    a message goes to the pipes the trie finds for its first part.  The theorems:
    a message reaches exactly the pipes that subscribed to a prefix of it (or,
    with [invert_matching], the others), each up to a part that it refuses, the
    notifications replay to the
    set of subscribed keys, and what goes wrong otherwise.

    Pipes are behind the interfaces of [PipeIface]; [None] is a failed assertion,
    an access out of bounds, or too little fuel. *)

From S2P Require Import Prelude ByteTable Msg MTrie Array PipeIface SubMsg Dist.
Import Array SubMsg.

Module XPub.

Definition ZMQ_PUB := 1.
Definition ZMQ_XPUB := 9.
Definition ZMQ_SUBSCRIBE := 6.
Definition ZMQ_UNSUBSCRIBE := 7.
Definition ZMQ_XPUB_VERBOSE := 40.
Definition ZMQ_XPUB_NODROP := 69.
Definition ZMQ_XPUB_MANUAL := 71.
Definition ZMQ_XPUB_WELCOME_MSG := 72.
Definition ZMQ_XPUB_VERBOSER := 78.

(** The deques [_pending_data], [_pending_metadata] and [_pending_flags]. *)
Record pending := Pending {
  pd_data : list (list Z);
  pd_metadata : list (option Z);
  pd_flags : list Z }.

(** The data members, and the reference counts of the metadata objects. *)
Record xpub := XPub {
  subscriptions : mtrie;
  manual_subscriptions : mtrie;
  dist : Dist.dist;
  verbose_subs : bool;
  verbose_unsubs : bool;
  more : bool;
  lossy : bool;
  manual : bool;
  last_pipe : option Z;
  pending_pipes : list (option Z);
  welcome_msg : list Z;
  pend : pending;
  refs : Z → Z }.

Definition xpub_new : xpub :=
  XPub mtrie_new mtrie_new Dist.dist_new false false false true false None [] [] (Pending [] [] []) (λ _, 0).

Definition set_subscriptions t x := XPub t (manual_subscriptions x) (dist x) (verbose_subs x) (verbose_unsubs x)
  (more x) (lossy x) (manual x) (last_pipe x) (pending_pipes x) (welcome_msg x) (pend x) (refs x).
Definition set_manual_subscriptions t x := XPub (subscriptions x) t (dist x) (verbose_subs x) (verbose_unsubs x)
  (more x) (lossy x) (manual x) (last_pipe x) (pending_pipes x) (welcome_msg x) (pend x) (refs x).
Definition set_dist d x := XPub (subscriptions x) (manual_subscriptions x) d (verbose_subs x) (verbose_unsubs x)
  (more x) (lossy x) (manual x) (last_pipe x) (pending_pipes x) (welcome_msg x) (pend x) (refs x).
Definition set_verbose s u x := XPub (subscriptions x) (manual_subscriptions x) (dist x) s u
  (more x) (lossy x) (manual x) (last_pipe x) (pending_pipes x) (welcome_msg x) (pend x) (refs x).
Definition set_more b x := XPub (subscriptions x) (manual_subscriptions x) (dist x) (verbose_subs x) (verbose_unsubs x)
  b (lossy x) (manual x) (last_pipe x) (pending_pipes x) (welcome_msg x) (pend x) (refs x).
Definition set_lossy b x := XPub (subscriptions x) (manual_subscriptions x) (dist x) (verbose_subs x) (verbose_unsubs x)
  (more x) b (manual x) (last_pipe x) (pending_pipes x) (welcome_msg x) (pend x) (refs x).
Definition set_manual b x := XPub (subscriptions x) (manual_subscriptions x) (dist x) (verbose_subs x) (verbose_unsubs x)
  (more x) (lossy x) b (last_pipe x) (pending_pipes x) (welcome_msg x) (pend x) (refs x).
Definition set_pipes l ps x := XPub (subscriptions x) (manual_subscriptions x) (dist x) (verbose_subs x) (verbose_unsubs x)
  (more x) (lossy x) (manual x) l ps (welcome_msg x) (pend x) (refs x).
Definition set_welcome m x := XPub (subscriptions x) (manual_subscriptions x) (dist x) (verbose_subs x) (verbose_unsubs x)
  (more x) (lossy x) (manual x) (last_pipe x) (pending_pipes x) m (pend x) (refs x).
Definition set_pend q x := XPub (subscriptions x) (manual_subscriptions x) (dist x) (verbose_subs x) (verbose_unsubs x)
  (more x) (lossy x) (manual x) (last_pipe x) (pending_pipes x) (welcome_msg x) q (refs x).
Definition set_refs r x := XPub (subscriptions x) (manual_subscriptions x) (dist x) (verbose_subs x) (verbose_unsubs x)
  (more x) (lossy x) (manual x) (last_pipe x) (pending_pipes x) (welcome_msg x) (pend x) r.

(** [metadata_t::add_ref] and [metadata_t::drop_ref]; NULL has no count. *)
Definition add_ref (md : option Z) (x : xpub) : xpub :=
  match md with
  | Some l => set_refs (λ k, if decide (k = l) then refs x k + 1 else refs x k) x
  | None => x
  end.
Definition drop_ref (md : option Z) (x : xpub) : xpub :=
  match md with
  | Some l => set_refs (λ k, if decide (k = l) then refs x k - 1 else refs x k) x
  | None => x
  end.

(** [push_back] on the three deques, with the reference of the second. *)
Definition push_pending (data : list Z) (md : option Z) (flags : Z) (x : xpub) : xpub :=
  let x := add_ref md x in
  set_pend (Pending (pd_data (pend x) ++ [data]) (pd_metadata (pend x) ++ [md]) (pd_flags (pend x) ++ [flags])) x.

(** The first part of the loop of [xread_activated]: [data] and [size] (the
    bytes from [data], [None] when it is left NULL), [subscribe], or nothing
    for a user message. *)
Definition parse (m : part) : option (option (option (list Z) * bool)) :=
  if is_subscribe m || is_cancel m then
    body ← command_body m; Some (Some (Some body, is_subscribe m))
  else if 0 <? p_size m then
    first ← head (p_data m);
    if (first =? 0) || (first =? 1) then Some (Some (Some (tail (p_data m)), first =? 1))
    else Some (Some (None, false))
  else Some None.

(** [data = data - 1; *data = subscribe]: the message put before the key;
    NULL has no byte before it. *)
Definition craft (data : option (list Z)) (sub : bool) : option (list Z) :=
  key ← data; Some (sub_blob sub key).

Section xpub.
Context {W : Type} `{!InPipes part W} `{!OutPipes part W}.
(** [options.type] and [options.invert_matching], and which messages are stored
    without a shared content. *)
Context (type : Z) (invert_matching : bool) (is_vsm : part → bool).

(** The body of the loop of [xread_activated] for the message [sub]. *)
Definition process_sub (pipe : Z) (sub : part) (x : xpub) : option xpub :=
  u ← parse sub;
  match u with
  | None => Some (drop_ref (p_meta sub) (push_pending (p_data sub) (p_meta sub) (p_flags sub) x))
  | Some (data, sb) =>
      let key := default [] data in
      x ← (if manual x then
             t ← (if sb : bool then '(_, t) ← add (manual_subscriptions x) key pipe; Some t
                  else '(_, t) ← rm (manual_subscriptions x) key pipe; Some t);
             let x := set_manual_subscriptions t x in
             let x := set_pipes (last_pipe x) (pending_pipes x ++ [Some pipe]) x in
             blob ← craft data sb;
             Some (push_pending blob (p_meta sub) 0 x)
           else
             '(notify, t) ←
               (if sb : bool then
                  '(first_added, t) ← add (subscriptions x) key pipe;
                  Some (first_added || verbose_subs x, t)
                else
                  '(r, t) ← rm (subscriptions x) key pipe;
                  Some (negb (bool_decide (r = values_remain)) || verbose_unsubs x, t));
             let x := set_subscriptions t x in
             if (type =? ZMQ_XPUB) && notify then
               blob ← craft data sb;
               Some (push_pending blob (p_meta sub) 0 x)
             else Some x);
      Some (drop_ref (p_meta sub) x)   (* sub.close () *)
  end.

(** [while (pipe_->read (&sub))] *)
Fixpoint xread_activated (fuel : nat) (pipe : Z) (x : xpub) (w : W) : option (xpub * W) :=
  match fuel with
  | O => None
  | S fuel =>
      let '(res, w) := in_read pipe w in
      match res with
      | None => Some (x, w)
      | Some sub => x ← process_sub pipe sub x; xread_activated fuel pipe x w
      end
  end.

Definition xattach_pipe (fuel : nat) (pipe : Z) (subscribe_to_all : bool) (x : xpub) (w : W) : option (xpub * W) :=
  d ← Dist.attach pipe (dist x);
  let x := set_dist d x in
  t ← (if subscribe_to_all then '(_, t) ← add (subscriptions x) [] pipe; Some t else Some (subscriptions x));
  let x := set_subscriptions t x in
  w ← (if decide (welcome_msg x = []) then Some w
       else
         let '(sent, w) := out_write pipe (Part (welcome_msg x) 0 None) w in
         _ ← zmq_assert sent;
         Some (out_flush pipe w));
  xread_activated fuel pipe x w.

Definition xwrite_activated (pipe : Z) (x : xpub) : option xpub :=
  d ← Dist.activated pipe (dist x); Some (set_dist d x).

Definition xsetsockopt (option_ : Z) (optval : list Z) (x : xpub) : option (rc * xpub) :=
  if (option_ =? ZMQ_XPUB_VERBOSE) || (option_ =? ZMQ_XPUB_VERBOSER) || (option_ =? ZMQ_XPUB_NODROP)
     || (option_ =? ZMQ_XPUB_MANUAL) then
    if negb (length optval =? 4)%nat || (int_value optval <? 0) then Some (RcErr EINVAL, x)
    else
      let v := negb (int_value optval =? 0) in
      Some (RcOk,
        if option_ =? ZMQ_XPUB_VERBOSE then set_verbose v false x
        else if option_ =? ZMQ_XPUB_VERBOSER then set_verbose v v x
        else if option_ =? ZMQ_XPUB_NODROP then set_lossy (negb v) x
        else set_manual v x)
  else if (option_ =? ZMQ_SUBSCRIBE) && manual x then
    match last_pipe x with
    | Some p => '(_, t) ← add (subscriptions x) optval p; Some (RcOk, set_subscriptions t x)
    | None => Some (RcOk, x)
    end
  else if (option_ =? ZMQ_UNSUBSCRIBE) && manual x then
    match last_pipe x with
    | Some p => '(_, t) ← rm (subscriptions x) optval p; Some (RcOk, set_subscriptions t x)
    | None => Some (RcOk, x)
    end
  else if option_ =? ZMQ_XPUB_WELCOME_MSG then Some (RcOk, set_welcome optval x)
  else Some (RcErr EINVAL, x).

Definition send_unsubscription (data : list Z) (x : xpub) : xpub :=
  if negb (type =? ZMQ_PUB) then
    let x := push_pending (sub_blob false data) None 0 x in
    if manual x then set_pipes None (pending_pipes x ++ [None]) x else x
  else x.

(** [func_] is called during the traversal, whose order is the order of [calls]. *)
Definition send_unsubscriptions (calls : list (list Z)) (x : xpub) : xpub :=
  foldl (λ x k, send_unsubscription k x) x calls.

Definition xpipe_terminated (pipe : Z) (x : xpub) : option xpub :=
  x ← (if manual x then
         '(calls, t) ← rm_value (manual_subscriptions x) pipe false;
         let x := send_unsubscriptions calls (set_manual_subscriptions t x) in
         '(_, t) ← rm_value (subscriptions x) pipe false;
         Some (set_subscriptions t x)
       else
         '(calls, t) ← rm_value (subscriptions x) pipe (negb (verbose_unsubs x));
         Some (send_unsubscriptions calls (set_subscriptions t x)));
  d ← Dist.pipe_terminated pipe (dist x);
  Some (set_dist d x).

(** [_subscriptions.match (data, size, mark_as_matching, this)] *)
Definition mark_as_matching (ps : list Z) (d : Dist.dist) : option Dist.dist :=
  foldl (λ d p, d ← d; Dist.match_ p d) (Some d) ps.

Definition xsend (m : part) (x : xpub) (w : W) : option (rc * xpub * W) :=
  let msg_more := is_more m in
  d ← (if more x then Some (dist x)
       else
         ps ← mmatch (subscriptions x) (p_data m);
         d ← mark_as_matching ps (dist x);
         if invert_matching then Dist.reverse_match d else Some d);
  let x := set_dist d x in
  if lossy x || Dist.check_hwm d w then
    '(_, d, w) ← Dist.send_to_matching is_more is_vsm m d w;
    let d := if negb msg_more then Dist.unmatch d else d in
    Some (RcOk, set_more msg_more (set_dist d x), w)
  else Some (RcErr EAGAIN, x, w).

Definition xhas_out : bool := Dist.has_out.

(** [xrecv]; the message read, the contents of the caller's being closed first.
    [set_metadata] takes a reference and the deque's is dropped. *)
Definition xrecv (x : xpub) : option (rc * option part * xpub) :=
  match pd_data (pend x) with
  | [] => Some (RcErr EAGAIN, None, x)
  | data :: ds =>
      let x := match pending_pipes x with
               | p :: ps => if manual x then set_pipes p ps x else x
               | [] => x
               end in
      md ← head (pd_metadata (pend x));
      flags ← head (pd_flags (pend x));
      let x := drop_ref md (add_ref md x) in
      Some (RcOk, Some (Part data flags md),
            set_pend (Pending ds (tail (pd_metadata (pend x))) (tail (pd_flags (pend x)))) x)
  end.

Definition xhas_in (x : xpub) : bool := negb (bool_decide (pd_data (pend x) = [])).

(** [pub_t] overrides three operations; [set_nodelay] is the pipe's. *)
Definition pub_xattach_pipe (set_nodelay : Z → W → W) (fuel : nat) (pipe : Z) (subscribe_to_all : bool)
    (x : xpub) (w : W) : option (xpub * W) :=
  xattach_pipe fuel pipe subscribe_to_all x (set_nodelay pipe w).
Definition pub_xrecv : rc := RcErr ENOTSUP.
Definition pub_xhas_in : bool := false.
End xpub.

(** * The trie as a set of subscriptions *)

Definition keys (S : gset (list Z * Z)) : gset (list Z) := set_map fst S.

Lemma elem_of_keys S k : k ∈ keys S ↔ ∃ p, (k, p) ∈ S.
Proof.
  unfold keys. rewrite elem_of_map. split.
  - intros ([k' p] & -> & Hin). by exists p.
  - intros [p Hp]. by exists (k, p).
Qed.

Lemma keys_add S k p : keys ({[(k, p)]} ∪ S) = {[k]} ∪ keys S.
Proof. unfold keys. by rewrite set_map_union_L, set_map_singleton_L. Qed.

Lemma add_subs t S k p : subscribes t S → bytes_ok k →
  ∃ t', add t k p = Some (bool_decide (k ∉ keys S), t') ∧ subscribes t' ({[(k, p)]} ∪ S).
Proof.
  intros Hs Hk. destruct (mtrie_step_refines t S (MAdd k p) Hs Hk) as (r & t' & Hst & Hout & Hs').
  cbn [mtrie_step] in Hst. destruct (add t k p) as [[b t1]|]; [|done]. cbn in Hst. simplify_eq.
  exists t'. split; [|done]. do 2 f_equal. apply eq_true_iff_eq. cbn in Hout. rewrite Hout, bool_decide_eq_true, elem_of_keys.
  naive_solver.
Qed.

(** What [rm (prefix, size, pipe)] answers. *)
Definition rm_subs_answer (S : gset (list Z * Z)) (k : list Z) (p : Z) : rm_result :=
  if decide ((k, p) ∈ S) then
    if decide (k ∈ keys (S ∖ {[(k, p)]})) then values_remain else last_value_removed
  else not_found.

Lemma rm_subs t S k p : subscribes t S → bytes_ok k →
  ∃ t', rm t k p = Some (rm_subs_answer S k p, t') ∧ subscribes t' (S ∖ {[(k, p)]}).
Proof.
  intros Hs Hk. destruct (mtrie_step_refines t S (MRm k p) Hs Hk) as (r & t' & Hst & Hout & Hs').
  cbn [mtrie_step] in Hst. destruct (rm t k p) as [[b t1]|]; [|done]. cbn in Hst. simplify_eq.
  exists t'. split; [|done]. do 2 f_equal. unfold rm_subs_answer. cbn in Hout.
  assert (Hr : k ∈ keys (S ∖ {[(k, p)]}) ↔ ∃ y, (k, y) ∈ S ∧ y ≠ p).
  { rewrite elem_of_keys. split; intros [y Hy]; exists y; set_solver. }
  destruct b.
  - by rewrite decide_False.
  - destruct Hout as [Hin Hall]. rewrite decide_True by done. rewrite decide_False; [done|]. rewrite Hr. naive_solver.
  - destruct Hout as [Hin Hex]. rewrite decide_True by done. rewrite decide_True; [done|]. by rewrite Hr.
Qed.

Lemma lex_lt_irrefl k : ¬ lex_lt k k.
Proof. induction k as [|c k IH]; cbn; [tauto|]. intros [?|[_ ?]]; [lia|auto]. Qed.

Lemma rm_value_subs t S p uniq : subscribes t S →
  ∃ calls t', rm_value t p uniq = Some (calls, t') ∧ subscribes t' (filter (λ kx, kx.2 ≠ p) S) ∧ NoDup calls ∧
    ∀ k, k ∈ calls ↔ (k, p) ∈ S ∧ (uniq = false ∨ k ∉ keys (filter (λ kx, kx.2 ≠ p) S)).
Proof.
  intros Hs. destruct (mtrie_step_refines t S (MRmValue p uniq) Hs I) as (r & t' & Hst & Hout & Hs').
  cbn [mtrie_step] in Hst. destruct (rm_value t p uniq) as [[l t1]|]; [|done]. cbn in Hst. simplify_eq.
  exists l, t'. destruct Hout as [Hsort Hel]. split_and!; [done..| |].
  - clear -Hsort. induction Hsort as [|k l Hl IH Hk]; constructor; [|done].
    intros Hin. rewrite Forall_forall in Hk. by eapply lex_lt_irrefl, Hk.
  - intros k. rewrite Hel. apply and_iff_compat_l. apply or_iff_compat_l. rewrite elem_of_keys. split.
    + intros Hall [y Hy]. apply elem_of_filter in Hy as [Hne Hy]. by apply Hne, Hall.
    + intros Hn y Hy. destruct (decide (y = p)); [done|]. destruct Hn. exists y. by apply elem_of_filter.
Qed.

(** The pipes that subscribed to a prefix of [data]. *)
Definition wants (S : gset (list Z * Z)) (data : list Z) (p : Z) : Prop :=
  ∃ k, k `prefix_of` data ∧ (k, p) ∈ S.

Lemma match_subs t S data : subscribes t S → bytes_ok data →
  ∃ l, mmatch t data = Some l ∧ ∀ p, p ∈ l ↔ wants S data p.
Proof.
  intros Hs Hd. destruct (mtrie_step_refines t S (MMatch data) Hs Hd) as (r & t' & Hst & Hout & _).
  cbn [mtrie_step] in Hst. destruct (mmatch t data) as [l|]; [|done]. cbn in Hst. simplify_eq. by exists l.
Qed.

(** * The notifications *)

(** Whoever reads the queue and keeps the set of subscribed keys. *)
Definition note (K : gset (list Z)) (n : list Z) : gset (list Z) :=
  match n with
  | [] => K                                   (* a user message *)
  | b :: k => if b =? 1 then {[k]} ∪ K else K ∖ {[k]}
  end.
Definition replay (K : gset (list Z)) (l : list (list Z)) : gset (list Z) := foldl note K l.

(** Every notification changes the set. *)
Fixpoint concise (K : gset (list Z)) (l : list (list Z)) : Prop :=
  match l with
  | [] => True
  | n :: l => (n = [] ∨ note K n ≠ K) ∧ concise (note K n) l
  end.

Lemma concise_app K l1 l2 : concise K (l1 ++ l2) ↔ concise K l1 ∧ concise (replay K l1) l2.
Proof.
  revert K. induction l1 as [|n l1 IH]; intros K; cbn [app concise replay foldl]; [tauto|].
  rewrite IH. unfold replay. tauto.
Qed.

Lemma replay_app K l1 l2 : replay K (l1 ++ l2) = replay (replay K l1) l2.
Proof. apply foldl_app. Qed.

Lemma note_sub K k : note K (sub_blob true k) = {[k]} ∪ K.
Proof. done. Qed.
Lemma note_cancel K k : note K (sub_blob false k) = K ∖ {[k]}.
Proof. done. Qed.

(** Cancelling several keys at once. *)
Lemma replay_cancels K l : replay K (sub_blob false <$> l) = K ∖ list_to_set l.
Proof.
  revert K. induction l as [|k l IH]; intros K; cbn [fmap list_fmap replay foldl list_to_set]; [set_solver|].
  fold (replay (note K (sub_blob false k)) (sub_blob false <$> l)). rewrite IH, note_cancel. set_solver.
Qed.

Lemma concise_cancels K l : NoDup l → (∀ k, k ∈ l → k ∈ K) → concise K (sub_blob false <$> l).
Proof.
  intros Hd. revert K. induction Hd as [|k l Hk Hd IH]; intros K Hin; cbn [fmap list_fmap concise]; [done|].
  rewrite note_cancel. split.
  - right. specialize (Hin k ltac:(left)). set_solver.
  - apply IH. intros k' Hk'. specialize (Hin k' ltac:(by right)). assert (k' ≠ k) by (intros ->; done). set_solver.
Qed.

(** [new] takes the notified set from [K] to [K'], concisely when [q] holds. *)
Definition notes_to (q : bool) (K K' : gset (list Z)) (new : list (list Z)) : Prop :=
  replay K new = K' ∧ (q = true → concise K new).

Lemma notes_to_app q K1 K2 K3 l1 l2 : notes_to q K1 K2 l1 → notes_to q K2 K3 l2 → notes_to q K1 K3 (l1 ++ l2).
Proof.
  intros [H1 C1] [H2 C2]. split; [by rewrite replay_app, H1|]. intros Hq. rewrite concise_app, H1. auto.
Qed.

Lemma notes_to_weaken q q' K K' l : (q' = true → q = true) → notes_to q K K' l → notes_to q' K K' l.
Proof. intros Hq [H C]. split; auto. Qed.

(** * What an upstream message does *)

Definition event_subs (p : Z) (e : event) (S : gset (list Z * Z)) : gset (list Z * Z) :=
  match e with
  | Subscribe k => {[(k, p)]} ∪ S
  | Cancel k => S ∖ {[(k, p)]}
  | User => S
  end.

(** A cancel of a key the pipe had subscribed to (and only the last cancel of a
    key is to be notified). *)
Definition event_exact (vu : bool) (p : Z) (e : event) (S : gset (list Z * Z)) : bool :=
  match e with Cancel k => negb vu && bool_decide ((k, p) ∈ S) | _ => true end.

Definition event_quiet (vs : bool) (e : event) : bool :=
  match e with Subscribe _ => negb vs | _ => true end.

Lemma parse_meaning m e : meaning m = Some e →
  parse m = Some (match e with
                  | Subscribe k => Some (Some k, true)
                  | Cancel k => Some (Some k, false)
                  | User => None
                  end) ∧ (e = User → p_data m = []).
Proof.
  unfold meaning, parse. destruct (is_subscribe m) eqn:Hs; cbn [orb].
  - destruct (command_body m); [|done]. intros [= <-]. done.
  - destruct (is_cancel m) eqn:Hc.
    + destruct (command_body m); [|done]. intros [= <-]. done.
    + unfold p_size. destruct (p_data m) as [|b k]; [by intros [= <-]|].
      cbn [length head tail]. replace (0 <? Z.of_nat (S (length k))) with true by (symmetry; apply Z.ltb_lt; lia). cbn [mbind option_bind].
      destruct (Z.eqb_spec b 1) as [->|Hb1]; [by intros [= <-]|].
      destruct (Z.eqb_spec b 0) as [->|Hb0]; [by intros [= <-]|done].
Qed.

(** The references of the queue. *)
Definition holds (q : pending) (l : Z) : Z := count (λ md, bool_decide (md = Some l)) (pd_metadata q).
Definition one (md : option Z) (l : Z) : Z := b2z (bool_decide (md = Some l)).

Definition in_step (q : pending) : Prop :=
  length (pd_metadata q) = length (pd_data q) ∧ length (pd_flags q) = length (pd_data q).

(** The members but the trie, the queue and the counts. *)
Definition put (x : xpub) (t : mtrie) (q : pending) (r : Z → Z) : xpub :=
  set_refs r (set_pend q (set_subscriptions t x)).

Lemma refs_push data md fl x l : refs (push_pending data md fl x) l = refs x l + one md l.
Proof.
  unfold push_pending, add_ref, one. destruct md as [k|]; cbn [set_pend set_refs refs]; repeat case_decide;
    case_bool_decide; simplify_eq; cbn [b2z]; lia.
Qed.
Lemma refs_drop md x l : refs (drop_ref md x) l = refs x l - one md l.
Proof.
  unfold drop_ref, one. destruct md as [k|]; cbn [set_pend set_refs refs]; repeat case_decide;
    case_bool_decide; simplify_eq; cbn [b2z]; lia.
Qed.
Lemma holds_push q data md fl l :
  holds (Pending (pd_data q ++ [data]) (pd_metadata q ++ [md]) (pd_flags q ++ [fl])) l = holds q l + one md l.
Proof. unfold holds, one. cbn [pd_metadata]. rewrite count_app. cbn [count]. lia. Qed.

(** What a run of pushes leaves: the queue extended with [new], in step, and
    every reference of the queue counted. *)
Record pushed (x x' : xpub) (t : mtrie) (new : list (list Z)) (spent : Z → Z) : Prop := {
  pu_put : x' = put x t (pend x') (refs x');
  pu_data : pd_data (pend x') = pd_data (pend x) ++ new;
  pu_in_step : in_step (pend x) → in_step (pend x');
  pu_refs l : refs x' l - holds (pend x') l = refs x l - holds (pend x) l - spent l }.

Lemma pushed_none x t : pushed x (set_subscriptions t x) t [] (λ _, 0).
Proof. split; [by destruct x|by rewrite app_nil_r|done|cbn; lia]. Qed.

Lemma pushed_push x x' t new spent data md fl : pushed x x' t new spent →
  pushed x (push_pending data md fl x') t (new ++ [data]) spent.
Proof.
  intros [Hput Hd Hin Hr]. split.
  - unfold push_pending. rewrite Hput. by destruct x, md.
  - assert (pend (push_pending data md fl x') = Pending (pd_data (pend x') ++ [data]) (pd_metadata (pend x') ++ [md]) (pd_flags (pend x') ++ [fl])) as ->
      by (by destruct md).
    cbn [pd_data]. by rewrite Hd, (assoc_L app).
  - intros Hq. specialize (Hin Hq) as [H1 H2]. destruct md; unfold in_step; cbn [push_pending add_ref set_refs set_pend pend pd_data pd_metadata pd_flags];
      rewrite !length_app; cbn; lia.
  - intros l. rewrite refs_push. specialize (Hr l).
    assert (pend (push_pending data md fl x') = Pending (pd_data (pend x') ++ [data]) (pd_metadata (pend x') ++ [md]) (pd_flags (pend x') ++ [fl])) as ->
      by (by destruct md).
    rewrite holds_push. lia.
Qed.

Lemma pushed_drop x x' t new spent md : pushed x x' t new spent →
  pushed x (drop_ref md x') t new (λ l, spent l + one md l).
Proof.
  intros [Hput Hd Hin Hr]. split.
  - rewrite Hput. by destruct x, md.
  - by destruct md.
  - by destruct md.
  - intros l. rewrite refs_drop. specialize (Hr l). replace (pend (drop_ref md x')) with (pend x') by (by destruct md). lia.
Qed.

Section correct.
Context {W : Type} `{!InPipes part W} `{!OutPipes part W} `{!InPipesLaws part W} `{!OutPipesLaws part W is_more}.
Context `{!DuplexPipes part W is_more}.
Context (type : Z) (invert_matching : bool) (is_vsm : part → bool).

(** The notifications of an event are right for the keys they change. *)
Definition notifies (vs vu : bool) (p : Z) (e : event) (S : gset (list Z * Z)) (new : list (list Z)) : Prop :=
  type = ZMQ_XPUB → event_exact vu p e S = true →
  notes_to (event_quiet vs e) (keys S) (keys (event_subs p e S)) new.

Lemma notifies_subscribe vs vu p k S :
  notifies vs vu p (Subscribe k) S
    (if (type =? ZMQ_XPUB) && (bool_decide (k ∉ keys S) || vs) then [sub_blob true k] else []).
Proof.
  intros -> _. cbn [andb event_subs event_quiet]. rewrite Z.eqb_refl, keys_add. cbn [andb].
  case_bool_decide as Hk; cbn [orb]; [|destruct vs]; (split; [cbn [replay foldl]; rewrite ?note_sub; set_solver|]); try done.
  intros _. cbn [concise]. rewrite note_sub. split; [|done]. right. set_solver.
Qed.

Lemma keys_remove S k p : (k, p) ∈ S → k ∉ keys (S ∖ {[(k, p)]}) → keys (S ∖ {[(k, p)]}) = keys S ∖ {[k]}.
Proof.
  intros Hin Hk. apply set_eq. intros k'. rewrite elem_of_difference, elem_of_singleton, !elem_of_keys. split.
  - intros [y Hy]. split; [exists y; set_solver|]. intros ->. apply Hk, elem_of_keys. by exists y.
  - intros [[y Hy] Hne]. exists y. set_solver.
Qed.

Lemma keys_remain S k p : k ∈ keys (S ∖ {[(k, p)]}) → keys (S ∖ {[(k, p)]}) = keys S.
Proof.
  intros (y & Hy)%elem_of_keys. apply set_eq. intros k'. rewrite !elem_of_keys. split; intros [z Hz].
  - exists z. set_solver.
  - destruct (decide (k' = k)) as [->|]; [by exists y|]. exists z. set_solver.
Qed.

Lemma notifies_cancel vs vu p k S :
  notifies vs vu p (Cancel k) S
    (if (type =? ZMQ_XPUB) && (negb (bool_decide (rm_subs_answer S k p = values_remain)) || vu) then [sub_blob false k] else []).
Proof.
  intros -> He. cbn [event_exact] in He. apply andb_prop in He as [Hvu Hin%bool_decide_eq_true]. destruct vu; [done|].
  cbn [event_subs event_quiet]. rewrite Z.eqb_refl, orb_false_r. cbn [andb]. unfold rm_subs_answer.
  rewrite decide_True by done. assert (k ∈ keys S) by (apply elem_of_keys; by exists p).
  destruct (decide (k ∈ keys (S ∖ {[(k, p)]}))) as [Hk|Hk];
    [rewrite bool_decide_eq_true_2 by done|rewrite bool_decide_eq_false_2 by done]; cbn [negb].
  - split; [cbn [replay foldl]; symmetry; by apply keys_remain|done].
  - split; [cbn [replay foldl]; rewrite note_cancel; symmetry; by apply keys_remove|].
    intros _. cbn [concise]. rewrite note_cancel. split; [|done]. right. set_solver.
Qed.

Lemma process_sub_ok p sub e x S :
  subscribes (subscriptions x) S → manual x = false → meaning sub = Some e → bytes_ok (event_key e) →
  ∃ x' t' new, process_sub type p sub x = Some x' ∧ pushed x x' t' new (one (p_meta sub)) ∧
    subscribes t' (event_subs p e S) ∧ notifies (verbose_subs x) (verbose_unsubs x) p e S new.
Proof.
  intros Hs Hm He Hb. destruct (parse_meaning _ _ He) as [Hp Hu]. unfold process_sub. rewrite Hp. cbn [mbind option_bind].
  assert (Hend : ∀ t b blob, subscribes t (event_subs p e S) →
    let new := if (b : bool) then [blob] else [] in
    notifies (verbose_subs x) (verbose_unsubs x) p e S new →
    ∃ x' t' new, Some (drop_ref (p_meta sub) (if b then push_pending blob (p_meta sub) 0 (set_subscriptions t x) else set_subscriptions t x)) = Some x' ∧
      pushed x x' t' new (one (p_meta sub)) ∧ subscribes t' (event_subs p e S) ∧ notifies (verbose_subs x) (verbose_unsubs x) p e S new).
  { intros t b blob Ht new Hnew. eexists _, t, new. split; [done|]. split; [|done].
    pose proof (pushed_none x t) as H0. destruct b; apply (pushed_drop _ _ _ _ (λ _, 0)); [|done].
    apply (pushed_push _ _ _ []). done. }
  destruct e as [k|k|]; cbn [event_key event_subs] in *; rewrite ?Hm; cbn [default]; try change (id k) with k.
  - destruct (add_subs _ _ k p Hs Hb) as (t & -> & Ht). cbn [mbind option_bind].
    specialize (Hend t _ (sub_blob true k) Ht (notifies_subscribe _ _ _ _ _)).
    destruct ((type =? ZMQ_XPUB) && _); exact Hend.
  - destruct (rm_subs _ _ k p Hs Hb) as (t & -> & Ht). cbn [mbind option_bind].
    specialize (Hend t _ (sub_blob false k) Ht (notifies_cancel _ _ _ _ _)).
    destruct ((type =? ZMQ_XPUB) && _); exact Hend.
  - eexists _, (subscriptions x), [p_data sub]. split; [done|]. split; [|split; [done|]].
    + apply (pushed_drop _ _ _ _ (λ _, 0)). apply (pushed_push _ _ _ []).
      pose proof (pushed_none x (subscriptions x)) as H0. by replace (set_subscriptions (subscriptions x) x) with x in H0 by (by destruct x).
    + intros _ _. rewrite (Hu eq_refl). split; [done|]. intros _. cbn. by split; [left|].
Qed.

(** ** Reading all of a pipe *)

Lemma pushed_trans x x1 x2 t1 t2 new1 new2 s1 s2 :
  pushed x x1 t1 new1 s1 → pushed x1 x2 t2 new2 s2 → pushed x x2 t2 (new1 ++ new2) (λ l, s1 l + s2 l).
Proof.
  intros [H1 D1 I1 R1] [H2 D2 I2 R2]. split.
  - rewrite H2. rewrite H1 at 1. by destruct x.
  - by rewrite D2, D1, (assoc_L app).
  - auto.
  - intros l. rewrite R2, R1. lia.
Qed.

(** What was learnt from the messages [ms] of a pipe, with whether every event
    was exact and quiet. *)
Fixpoint learn (vs vu : bool) (p : Z) (ms : list part) (S : gset (list Z * Z)) : gset (list Z * Z) * bool * bool :=
  match ms with
  | [] => (S, true, true)
  | m :: ms =>
      match meaning m with
      | Some e =>
          let '(S', ex, qu) := learn vs vu p ms (event_subs p e S) in
          (S', event_exact vu p e S && ex, event_quiet vs e && qu)
      | None => learn vs vu p ms S
      end
  end.

Definition spent (ms : list part) (l : Z) : Z := count (λ m, bool_decide (p_meta m = Some l)) ms.

Lemma event_subs_pipe p e S k q : (k, q) ∈ event_subs p e S → q = p ∨ (k, q) ∈ S.
Proof. destruct e; cbn; set_solver. Qed.

Lemma learn_pipe vs vu p ms S k q : (k, q) ∈ (learn vs vu p ms S).1.1 → q = p ∨ (k, q) ∈ S.
Proof.
  revert S. induction ms as [|m ms IH]; intros S; cbn [learn fst]; [tauto|].
  destruct (meaning m) as [e|]; [|apply IH]. specialize (IH (event_subs p e S)).
  destruct (learn vs vu p ms (event_subs p e S)) as [[S' ex] qu]. cbn [fst] in *.
  intros [?|?%event_subs_pipe]%IH; tauto.
Qed.

Lemma xread_activated_S fuel p x w :
  xread_activated type (S fuel) p x w =
  let '(res, w) := in_read p w in
  match res with
  | None => Some (x, w)
  | Some sub => x ← process_sub type p sub x; xread_activated type fuel p x w
  end.
Proof. done. Qed.

Lemma xread_ok p fuel : ∀ x w S,
  (length (content w p) < fuel)%nat → Forall upstream_ok (content w p) →
  subscribes (subscriptions x) S → manual x = false →
  let '(S', ex, qu) := learn (verbose_subs x) (verbose_unsubs x) p (content w p) S in
  ∃ x' w' t' new, xread_activated type fuel p x w = Some (x', w') ∧
    pushed x x' t' new (spent (content w p)) ∧ subscribes t' S' ∧
    (type = ZMQ_XPUB → ex = true → notes_to qu (keys S) (keys S') new) ∧
    (∀ q, content w' q = if decide (q = p) then [] else content w q) ∧ (∀ q, written w' q = written w q).
Proof.
  induction fuel as [|fuel IH]; intros x w S Hf Hok Hs Hm; [lia|]. rewrite xread_activated_S.
  pose proof (in_read_res p w) as Hres. pose proof (in_read_content p w) as Hcont. pose proof (in_read_written p w) as Hwr.
  destruct (in_read p w) as [res w1]. cbn [fst snd] in *. subst res.
  destruct (content w p) as [|m ms] eqn:Hc; cbn [head].
  - cbn [learn]. exists x, w1, (subscriptions x), []. split_and!; [done| |done| | |done].
    + replace x with (set_subscriptions (subscriptions x) x) at 2 by (by destruct x). apply pushed_none.
    + intros _ _. by split.
    + intros q. rewrite Hcont. case_decide; [subst; by rewrite Hc|done].
  - apply Forall_cons in Hok as [(e & He & Hb) Hok]. cbn [length] in Hf.
    destruct (process_sub_ok p m e x S Hs Hm He Hb) as (x1 & t1 & new1 & -> & Hp1 & Hs1 & Hn1). cbn [mbind option_bind].
    assert (Hc1 : content w1 p = ms) by (by rewrite Hcont, decide_True, Hc).
    assert (Hx1 : subscriptions x1 = t1 ∧ manual x1 = false ∧ verbose_subs x1 = verbose_subs x ∧ verbose_unsubs x1 = verbose_unsubs x)
      by (rewrite (pu_put _ _ _ _ _ Hp1); done).
    destruct Hx1 as (Ht1 & Hm1 & Hvs & Hvu). rewrite <- Ht1 in Hs1.
    specialize (IH x1 w1 (event_subs p e S)). rewrite Hc1 in IH. specialize (IH ltac:(lia) Hok Hs1 Hm1).
    rewrite Hvs, Hvu in IH. cbn [learn]. rewrite He.
    destruct (learn (verbose_subs x) (verbose_unsubs x) p ms (event_subs p e S)) as [[S' ex] qu].
    destruct IH as (x' & w' & t' & new & -> & Hp' & Hs' & Hn' & Hcw & Hww).
    exists x', w', t', (new1 ++ new). split_and!; [done|by eapply pushed_trans|done| | |].
    + intros Ht [He1 He2]%andb_prop. specialize (Hn' Ht He2). specialize (Hn1 Ht He1).
      eapply notes_to_app; (eapply notes_to_weaken; [|done]); by intros [? ?]%andb_prop.
    + intros q. rewrite Hcw. case_decide; [done|]. by rewrite Hcont, decide_False.
    + intros q. by rewrite Hww, Hwr.
Qed.

(** ** The invariant

    The ghost state: the subscriptions, the notifications the user has read,
    whether every cancel was exact and no subscription verbose, whether the
    last attempt to send failed, and the references to metadata held elsewhere. *)
Record ghost := Gh {
  g_subs : gset (list Z * Z);
  g_seen : list (list Z);
  g_exact : bool;
  g_quiet : bool;
  g_stale : bool;
  g_out : Z → Z }.

Definition ghost_new : ghost := Gh ∅ [] true true false (λ _, 0).

Record inv (x : xpub) (w : W) (g : ghost) : Prop := {
  v_dist : ∃ gd, Dist.inv is_more (dist x) w gd;
  v_subs : subscribes (subscriptions x) (g_subs g);
  v_attached k p : (k, p) ∈ g_subs g → p ∈ items (Dist.pipes (dist x));
  v_manual : manual x = false;
  v_more : more x = Dist.more (dist x);
  v_stale : g_stale g = false → more x = false → Dist.matching (dist x) = 0%nat;
  v_in_step : in_step (pend x);
  v_notes : type = ZMQ_XPUB → g_exact g = true →
    notes_to (g_quiet g) ∅ (keys (g_subs g)) (g_seen g ++ pd_data (pend x));
  v_refs l : refs x l = g_out g l + holds (pend x) l }.

Lemma xpub_inv_new w : inv xpub_new w ghost_new.
Proof.
  split; try done.
  - exists (Dist.Ghost [] [] []). exact (Dist.dist_inv_new _ w).
  - apply subscribes_new.
Qed.

(** *** The pipes of the distributor *)

(** Marking the pipes of a list. *)
Lemma mark_ok l w gd : ∀ d, Dist.inv is_more d w gd → Dist.more d = false → (∀ p, p ∈ l → p ∈ items (Dist.pipes d)) →
  ∃ d', mark_as_matching l d = Some d' ∧ Dist.inv is_more d' w gd ∧ Dist.more d' = Dist.more d ∧
    (∀ q, q ∈ items (Dist.pipes d') ↔ q ∈ items (Dist.pipes d)) ∧
    (∀ q, within (Dist.pipes d') (Dist.eligible d') q ↔ within (Dist.pipes d) (Dist.eligible d) q) ∧
    ∀ q, within (Dist.pipes d') (Dist.matching d') q ↔
         within (Dist.pipes d) (Dist.matching d) q ∨ (q ∈ l ∧ within (Dist.pipes d) (Dist.eligible d) q).
Proof.
  induction l as [|p l IH]; intros d H Hm Hin.
  - exists d. split_and!; try done. intros q. set_solver.
  - destruct (proj1 (list_elem_of_lookup _ _) (Hin p ltac:(by left))) as [k Hk].
    destruct (Dist.match_inv _ p k d w gd H Hk Hm) as (d1 & Heq & H1 & Hma1 & Hmo1 & Hel1 & Hli1).
    destruct (IH d1 H1) as (d' & Hd' & H' & Hmo' & Hel' & Hli' & Hma').
    { congruence. }
    { intros q Hq. apply Hel1, Hin. by right. }
    exists d'. split_and!; [|done|congruence|intros q; by rewrite Hel'|intros q; by rewrite Hli'|].
    + unfold mark_as_matching. cbn [foldl mbind option_bind]. by rewrite Heq.
    + intros q. rewrite Hma', Hma1, Hli1, elem_of_cons. destruct (decide (q = p)) as [->|]; tauto.
Qed.

(** The pipes the next part goes to, if they accept it. *)
Definition target (x : xpub) (g : ghost) (m : part) (q : Z) : Prop :=
  let matching := within (Dist.pipes (dist x)) (Dist.matching (dist x)) q in
  let eligible := within (Dist.pipes (dist x)) (Dist.eligible (dist x)) q in
  if more x then matching
  else
    let found := matching ∨ (wants (g_subs g) (p_data m) q ∧ eligible) in
    if invert_matching then eligible ∧ ¬ found else found.

Lemma choose_ok x w g m : inv x w g → bytes_ok (p_data m) →
  ∃ d1 gd, (if more x then Some (dist x)
            else ps ← mmatch (subscriptions x) (p_data m);
                 d ← mark_as_matching ps (dist x);
                 if invert_matching then Dist.reverse_match d else Some d) = Some d1 ∧
    Dist.inv is_more d1 w gd ∧ Dist.more d1 = more x ∧
    (∀ q, q ∈ items (Dist.pipes d1) ↔ q ∈ items (Dist.pipes (dist x))) ∧
    (∀ q, within (Dist.pipes d1) (Dist.matching d1) q ↔ target x g m q) ∧
    (∀ q, within (Dist.pipes d1) (Dist.eligible d1) q → within (Dist.pipes (dist x)) (Dist.eligible (dist x)) q).
Proof.
  intros H Hb. destruct (v_dist _ _ _ H) as [gd Hd]. pose proof (v_more _ _ _ H) as Hmo. unfold target.
  destruct (more x) eqn:Hm; [by exists (dist x), gd|].
  destruct (match_subs _ _ _ (v_subs _ _ _ H) Hb) as (l & -> & Hl). cbn [mbind option_bind].
  destruct (mark_ok l w gd (dist x) Hd) as (d1 & -> & H1 & Hmo1 & Hel1 & Hli1 & Hma1); [done| |].
  { intros p Hp. apply Hl in Hp as (k & _ & Hk). by eapply (v_attached _ _ _ H). }
  cbn [mbind option_bind]. assert (Hf : ∀ q, within (Dist.pipes d1) (Dist.matching d1) q ↔
    within (Dist.pipes (dist x)) (Dist.matching (dist x)) q ∨
    wants (g_subs g) (p_data m) q ∧ within (Dist.pipes (dist x)) (Dist.eligible (dist x)) q) by (intros q; by rewrite Hma1, Hl).
  destruct invert_matching; [|exists d1, gd; split_and!; try (done || congruence); intros q; by rewrite Hli1].
  destruct (Dist.reverse_match_inv _ d1 w gd H1) as (d2 & -> & H2 & Hma2 & Hmo2 & Hel2 & Hli2); [congruence|].
  exists d2, gd. split_and!; [done|done|congruence|intros q; by rewrite Hel2|intros q; by rewrite Hma2, Hf, Hli1|].
  intros q Hq%Hli2. by apply Hli1.
Qed.

(** *** Reading *)

Definition read_ghost (vs vu : bool) (p : Z) (ms : list part) (g : ghost) : ghost :=
  let '(S', ex, qu) := learn vs vu p ms (g_subs g) in
  Gh S' (g_seen g) (g_exact g && ex) (g_quiet g && qu) (g_stale g) (λ l, g_out g l - spent ms l).

Lemma xread_inv p fuel x w g :
  inv x w g → p ∈ items (Dist.pipes (dist x)) → (length (content w p) < fuel)%nat → Forall upstream_ok (content w p) →
  ∃ x' w', xread_activated type fuel p x w = Some (x', w') ∧
    inv x' w' (read_ghost (verbose_subs x) (verbose_unsubs x) p (content w p) g) ∧ dist x' = dist x ∧
    (∀ q, content w' q = if decide (q = p) then [] else content w q) ∧ (∀ q, written w' q = written w q).
Proof.
  intros H Hp Hf Hok. unfold read_ghost.
  pose proof (xread_ok p fuel x w (g_subs g) Hf Hok (v_subs _ _ _ H) (v_manual _ _ _ H)) as Hr.
  pose proof (learn_pipe (verbose_subs x) (verbose_unsubs x) p (content w p) (g_subs g)) as Hpipe.
  destruct (learn _ _ p _ _) as [[S' ex] qu]. cbn [fst] in Hpipe.
  destruct Hr as (x' & w' & t' & new & -> & [Hput Hd Hin Hrf] & Hs & Hn & Hc & Hw).
  exists x', w'. split; [done|]. destruct H as [[gd Hgd] Hsub Hatt Hman Hmore Hst Hstep Hnotes Hrefs].
  assert (Hx : dist x' = dist x ∧ subscriptions x' = t' ∧ manual x' = manual x ∧ more x' = more x) by (rewrite Hput; done).
  destruct Hx as (Hxd & Hxs & Hxm & Hxo). split_and!; [|done..]. split; cbn [g_subs g_seen g_exact g_quiet g_stale g_out].
  - exists gd. rewrite Hxd. by eapply Dist.dist_inv_written.
  - by rewrite Hxs.
  - intros k q [->|Hq]%Hpipe; rewrite Hxd; [done|]. by eapply Hatt.
  - congruence.
  - by rewrite Hxo, Hxd.
  - by rewrite Hxo, Hxd.
  - auto.
  - intros Ht [He1 He2]%andb_prop. rewrite Hd, (assoc_L app).
    eapply notes_to_app; (eapply notes_to_weaken; [|by auto]); by intros [? ?]%andb_prop.
  - intros l. specialize (Hrf l). rewrite Hrefs in Hrf. lia.
Qed.

(** *** Pipes come and go *)

Definition attach_ghost (vs vu : bool) (p : Z) (all : bool) (ms : list part) (g : ghost) : ghost :=
  let g := if all then Gh ({[([], p)]} ∪ g_subs g) (g_seen g) false (g_quiet g) (g_stale g) (g_out g) else g in
  read_ghost vs vu p ms g.

Lemma xattach_inv p all fuel x w g :
  inv x w g → p ∉ items (Dist.pipes (dist x)) → written w p = [] →
  (length (content w p) < fuel)%nat → Forall upstream_ok (content w p) →
  (∀ m, (out_write p m w).1 = true) →
  ∃ x' w', xattach_pipe type fuel p all x w = Some (x', w') ∧
    inv x' w' (attach_ghost (verbose_subs x) (verbose_unsubs x) p all (content w p) g) ∧
    (∀ q, q ∈ items (Dist.pipes (dist x')) ↔ q = p ∨ q ∈ items (Dist.pipes (dist x))) ∧
    within (Dist.pipes (dist x')) (Dist.eligible (dist x')) p ∧
    (∀ q, written w' q = if decide (q = p) then if decide (welcome_msg x = []) then [] else [Part (welcome_msg x) 0 None] else written w q).
Proof.
  intros H Hp Hwp Hf Hok Hacc. destruct H as [[gd Hgd] Hsub Hatt Hman Hmore Hst Hstep Hnotes Hrefs].
  destruct (Dist.dist_purge _ p _ _ _ Hgd Hp) as (Hgd' & Hdel & Hbr).
  destruct (Dist.dist_attach_inv _ p _ _ _ Hgd' Hp Hwp Hdel) as (d & Hatd & Hd & Hel & _).
  destruct (Dist.attach_frame _ p _ _ _ d Hgd' Hp Hatd) as (Hdm & Hdmo & Hdel').
  unfold xattach_pipe. rewrite Hatd. cbn [mbind option_bind].
  assert (Ht : ∃ t, (if all then '(_, t) ← add (subscriptions (set_dist d x)) [] p; Some t else Some (subscriptions (set_dist d x))) = Some t ∧
    subscribes t (if all then {[([], p)]} ∪ g_subs g else g_subs g)).
  { destruct all; [|by exists (subscriptions x)]. destruct (add_subs _ _ [] p Hsub (Forall_nil_2 _)) as (t & Ha & Ht).
    exists t. cbn [set_dist subscriptions]. by rewrite Ha. }
  destruct Ht as (t & -> & Ht). cbn [mbind option_bind].
  assert (Hw : ∃ w1, (if decide (welcome_msg (set_subscriptions t (set_dist d x)) = []) then Some w
       else
         let '(sent, w) := out_write p (Part (welcome_msg (set_subscriptions t (set_dist d x))) 0 None) w in
         _ ← zmq_assert sent;
         Some (out_flush p w)) = Some w1 ∧ (∀ q, content w1 q = content w q) ∧
       (∀ q, written w1 q = if decide (q = p) then if decide (welcome_msg x = []) then [] else [Part (welcome_msg x) 0 None] else written w q) ∧
       ∃ gd1, Dist.inv is_more d w1 gd1).
  { cbn [set_subscriptions set_dist welcome_msg]. destruct (decide (welcome_msg x = [])) as [Hwm|Hwm].
    - exists w. split_and!; [done..| |by eexists]. intros q. case_decide; by subst.
    - set (m := Part (welcome_msg x) 0 None). specialize (Hacc m). pose proof (out_write_content p m w) as Hc.
      pose proof (out_write_written p m w) as Hwr. destruct (out_write p m w) as [b w1]. cbn [fst snd] in *. subst b.
      cbn [zmq_assert mbind option_bind andb] in *. exists (out_flush p w1).
      assert (Hw1 : ∀ q, written (out_flush p w1) q = if decide (q = p) then written w q ++ [m] else written w q).
      { intros q. rewrite out_flush_written, Hwr. by case_decide; case_bool_decide. }
      split_and!; [done|intros q; by rewrite out_flush_content, Hc| |].
      + intros q. rewrite Hw1. case_decide; [subst; by rewrite Hwp|done].
      + eexists. apply (Dist.dist_extra _ d w _ _ p [m] Hd); [|done]. by eapply Dist.partly_new; [|apply Hdel'; left| |]. }
  destruct Hw as (w1 & -> & Hc1 & Hw1 & Hgd1). cbn [mbind option_bind].
  set (g1 := if all then Gh ({[([], p)]} ∪ g_subs g) (g_seen g) false (g_quiet g) (g_stale g) (g_out g) else g).
  assert (H1 : inv (set_subscriptions t (set_dist d x)) w1 g1).
  { split; cbn [set_subscriptions set_dist dist subscriptions manual more pend refs]; try done.
    - by destruct all.
    - intros k q Hq. apply Hdel'. destruct all; cbn in Hq; [|right; by eapply Hatt].
      apply elem_of_union in Hq as [Hq|Hq]; [left; set_solver|right; by eapply Hatt].
    - congruence.
    - intros Hs Hm. rewrite Hdm. apply Hst; [by destruct all|done].
    - intros Hty He. destruct all; [done|]. by apply Hnotes.
    - intros l. rewrite Hrefs. by destruct all. }
  destruct (xread_inv p fuel _ w1 g1 H1) as (x' & w' & -> & H' & Hdx & Hc' & Hw').
  { cbn. apply Hdel'. by left. } { by rewrite Hc1. } { by rewrite Hc1. }
  exists x', w'. rewrite Hc1 in H'. split_and!; [done|exact H'| | |].
  - intros q. rewrite Hdx. apply Hdel'.
  - by rewrite Hdx.
  - intros q. by rewrite Hw', Hw1.
Qed.

Lemma xwrite_inv p k x w g :
  inv x w g → items (Dist.pipes (dist x)) !! k = Some p → (Dist.eligible (dist x) ≤ k)%nat →
  ∃ x', xwrite_activated p x = Some x' ∧ inv x' w g ∧ within (Dist.pipes (dist x')) (Dist.eligible (dist x')) p.
Proof.
  intros [[gd Hgd] Hsub Hatt Hman Hmore Hst Hstep Hnotes Hrefs] Hk Hge.
  destruct (Dist.dist_activated_inv _ p k _ w gd Hgd Hk Hge) as (d & Ha & Hd & Hel & _).
  destruct (Dist.activated_frame _ p _ w gd d Hgd Ha) as (Hdm & Hdmo & Hdel).
  unfold xwrite_activated. rewrite Ha. cbn [mbind option_bind]. eexists. split; [done|]. split; [|done].
  split; cbn [set_dist dist subscriptions manual more pend refs]; try done.
  - by exists gd.
  - intros k' q Hq. apply Hdel. by eapply Hatt.
  - congruence.
  - rewrite Hdm. auto.
Qed.

(** The unsubscriptions of a pipe that is gone. *)
Lemma send_unsubscriptions_ok calls x x' t new s :
  manual x = false → pushed x x' t new s →
  pushed x (send_unsubscriptions type calls x') t
    (new ++ (if type =? ZMQ_PUB then [] else sub_blob false <$> calls)) s.
Proof.
  intros Hm. revert x' new. induction calls as [|k calls IH]; intros x' new Hp.
  - cbn. by destruct (type =? ZMQ_PUB); rewrite app_nil_r.
  - change (send_unsubscriptions type (k :: calls) x') with (send_unsubscriptions type calls (send_unsubscription type k x')).
    unfold send_unsubscription at 1. assert (Hmx : manual x' = false) by (rewrite (pu_put _ _ _ _ _ Hp); done).
    destruct (type =? ZMQ_PUB) eqn:Ht; cbn [negb].
    + specialize (IH _ _ Hp). done.
    + assert (manual (push_pending (sub_blob false k) None 0 x') = false) as -> by done.
      specialize (IH _ _ (pushed_push _ _ _ _ _ (sub_blob false k) None 0 Hp)).
      by rewrite <- (assoc_L app) in IH.
Qed.

Definition without (p : Z) (S : gset (list Z * Z)) : gset (list Z * Z) := filter (λ kx, kx.2 ≠ p) S.

Lemma keys_without p S (calls : list (list Z)) :
  (∀ k, k ∈ calls ↔ (k, p) ∈ S ∧ k ∉ keys (without p S)) → keys S ∖ list_to_set calls = keys (without p S).
Proof.
  intros Hc. apply set_eq. intros k. rewrite elem_of_difference, elem_of_list_to_set, Hc. split.
  - intros [[q Hq]%elem_of_keys Hn]. destruct (decide (k ∈ keys (without p S))) as [|Hd]; [done|].
    destruct (decide (q = p)) as [->|Hne]; [by destruct Hn|]. apply elem_of_keys. exists q. by apply elem_of_filter.
  - intros Hk. split; [|by intros [_ Hn]]. apply elem_of_keys in Hk as [q [_ Hq]%elem_of_filter].
    apply elem_of_keys. by exists q.
Qed.

Definition end_ghost (vu : bool) (p : Z) (g : ghost) : ghost :=
  Gh (without p (g_subs g)) (g_seen g) (g_exact g && negb vu) (g_quiet g) (g_stale g) (g_out g).

Lemma xterminated_inv p k x w g :
  inv x w g → items (Dist.pipes (dist x)) !! k = Some p →
  ∃ x', xpipe_terminated type p x = Some x' ∧ inv x' w (end_ghost (verbose_unsubs x) p g) ∧
    (∀ q, q ∈ items (Dist.pipes (dist x')) ↔ q ∈ items (Dist.pipes (dist x)) ∧ q ≠ p).
Proof.
  intros [[gd Hgd] Hsub Hatt Hman Hmore Hst Hstep Hnotes Hrefs] Hk. unfold xpipe_terminated. rewrite Hman.
  destruct (rm_value_subs _ _ p (negb (verbose_unsubs x)) Hsub) as (calls & t & -> & Ht & Hnd & Hcalls).
  cbn [mbind option_bind].
  pose proof (send_unsubscriptions_ok calls _ _ _ _ _ Hman (pushed_none x t)) as [Hput Hd Hin Hrf]. cbn [app] in Hd.
  set (x1 := send_unsubscriptions type calls (set_subscriptions t x)) in *.
  assert (Hx : dist x1 = dist x ∧ subscriptions x1 = t ∧ manual x1 = manual x ∧ more x1 = more x) by (rewrite Hput; done).
  destruct Hx as (Hxd & Hxs & Hxm & Hxo). rewrite Hxd.
  destruct (Dist.dist_terminated_inv _ p k _ w gd Hgd Hk) as (d & Hterm & Hd' & Hel & Hma).
  destruct (Dist.terminated_frame p _ d Hterm) as [Hdm Hdmo]. rewrite Hterm. cbn [mbind option_bind].
  eexists. split; [done|]. split; [|done].
  split; cbn [set_dist dist subscriptions manual more pend refs end_ghost g_subs g_seen g_exact g_quiet g_stale g_out].
  - by exists gd.
  - by rewrite Hxs.
  - intros k' q [Hne Hq]%elem_of_filter. apply Hel. split; [by eapply Hatt|done].
  - congruence.
  - congruence.
  - intros Hs Hm. rewrite Hxo in Hm. specialize (Hst Hs Hm). lia.
  - auto.
  - intros Hty [He Hvu]%andb_prop. destruct (verbose_unsubs x); [done|]. rewrite Hd, Hty. cbn [negb Z.eqb ZMQ_XPUB ZMQ_PUB Pos.eqb].
    rewrite (assoc_L app). eapply notes_to_app; [by apply Hnotes|].
    assert (Hc : ∀ k, k ∈ calls ↔ (k, p) ∈ g_subs g ∧ k ∉ keys (without p (g_subs g))).
    { intros k'. rewrite Hcalls. cbn. naive_solver. }
    split; [by rewrite replay_cancels, (keys_without p)|]. intros _. apply concise_cancels; [done|].
    intros k' [Hk' _]%Hc. apply elem_of_keys. by exists p.
  - intros l. specialize (Hrf l). rewrite Hrefs in Hrf. lia.
Qed.

(** *** Sending *)

Definition with_stale (b : bool) (g : ghost) : ghost :=
  Gh (g_subs g) (g_seen g) (g_exact g) (g_quiet g) b (g_out g).

(** The inv of a state that differs in the distributor and in [_more]. *)
Lemma inv_dist x w w' g d b st gd :
  inv x w g → Dist.inv is_more d w' gd → Dist.more d = b →
  (∀ q, q ∈ items (Dist.pipes d) ↔ q ∈ items (Dist.pipes (dist x))) →
  (st = false → b = false → Dist.matching d = 0%nat) →
  inv (set_more b (set_dist d x)) w' (with_stale st g).
Proof.
  intros [_ Hsub Hatt Hman Hmore Hst Hstep Hnotes Hrefs] Hd Hm Hel Hs.
  split; cbn [set_more set_dist dist subscriptions manual more pend refs with_stale g_subs g_seen g_exact g_quiet g_stale g_out]; try done.
  - by exists gd.
  - intros k q Hq. apply Hel. by eapply Hatt.
Qed.

(** The pipe refused the part. *)
Definition refuses (q : Z) (m : part) : Prop := ∃ w, (out_write q m w).1 = false.

(** What a part that is sent does to the pipes. *)
Record delivers (m : part) (T : Z → Prop) (x x' : xpub) (w w' : W) : Prop := {
  dl_target q : T q → written w' q = written w q ++ [m] ∨
    written w' q = written w q ∧ ¬ within (Dist.pipes (dist x')) (Dist.eligible (dist x')) q ∧ refuses q m;
  dl_other q : ¬ T q → written w' q = written w q;
  dl_next q : is_more m = true →
    within (Dist.pipes (dist x')) (Dist.matching (dist x')) q ↔ T q ∧ written w' q = written w q ++ [m];
  dl_eligible q : within (Dist.pipes (dist x')) (Dist.eligible (dist x')) q → within (Dist.pipes (dist x)) (Dist.eligible (dist x)) q }.

Lemma xpub_xsend_ok m x w g :
  inv x w g → bytes_ok (p_data m) →
  ∃ d1, (∀ q, within (Dist.pipes d1) (Dist.matching d1) q ↔ target x g m q) ∧
    if lossy x || Dist.check_hwm d1 w then
      ∃ x' w', xsend invert_matching is_vsm m x w = Some (RcOk, x', w') ∧ inv x' w' (with_stale false g) ∧
        more x' = is_more m ∧ delivers m (target x g m) x x' w w'
    else
      ∃ x', xsend invert_matching is_vsm m x w = Some (RcErr EAGAIN, x', w) ∧ inv x' w (with_stale true g) ∧ more x' = more x.
Proof.
  intros H Hb. destruct (choose_ok x w g m H Hb) as (d1 & gd & Hch & Hd1 & Hmo1 & Hel1 & Hma1 & Hli1).
  exists d1. split; [done|]. unfold xsend. rewrite Hch. cbn [mbind option_bind].
  assert (Hl : lossy (set_dist d1 x) = lossy x) by done. rewrite Hl. clear Hl.
  destruct (lossy x || Dist.check_hwm d1 w).
  - destruct (Dist.send_to_matching_inv is_more is_vsm m d1 w gd Hd1) as (d2 & w' & Hsend & Hd2 & Hel2 & Hyes & Hno & Hli & Href).
    rewrite Hsend. cbn [mbind option_bind].
    assert (Hmo2 : Dist.more d2 = is_more m).
    { unfold Dist.send_to_matching in Hsend. destruct (Dist.distribute _ _ _ _ _) as [[[r d] w0]|]; [|done].
      cbn [mbind option_bind] in Hsend. by simplify_eq. }
    set (d3 := if negb (is_more m) then Dist.unmatch d2 else d2).
    assert (H3 : ∃ gd3, Dist.inv is_more d3 w' gd3 ∧ Dist.more d3 = is_more m ∧ items (Dist.pipes d3) = items (Dist.pipes d2) ∧
      Dist.pipes d3 = Dist.pipes d2 ∧ Dist.eligible d3 = Dist.eligible d2 ∧
      (is_more m = false → Dist.matching d3 = 0%nat) ∧ (is_more m = true → d3 = d2)).
    { unfold d3. destruct (is_more m); cbn [negb]; [by eexists|].
      destruct (Dist.unmatch_inv _ d2 w' _ Hd2 Hmo2) as [Hu _]. eexists. by split. }
    destruct H3 as (gd3 & Hd3 & Hmo3 & Hit3 & Hps3 & Heli3 & Hm3 & Hmt3).
    do 2 eexists. split; [done|]. split; [|split; [done|]].
    + replace (set_dist d3 (set_dist d1 x)) with (set_dist d3 x) by done.
      eapply inv_dist; [done|done|done| |].
      * intros q. by rewrite Hit3, Hel2.
      * intros _. apply Hm3.
    + split; cbn [set_more set_dist dist].
      * intros q Hq. apply Hma1 in Hq. rewrite Hps3, Heli3, Hli.
        destruct (decide (q ∈ Dist.receivers d2)) as [Hr|Hr]; rewrite Dist.receivers_matches in Hr.
        -- left. by apply Hyes.
        -- right. split_and!; [by apply Hno|intros [_ Hc]; auto|]. by apply Href.
      * intros q Hq. apply Hno. intros Hc%Hyes. apply Hq, Hma1, Hc.
      * intros q Hmm. rewrite Hmt3 by done. split.
        -- intros Hq. apply Hyes in Hq as [Hq Hw]. split; [by apply Hma1|done].
        -- intros [Hq Hw]. destruct (decide (q ∈ Dist.receivers d2)) as [Hr|Hr]; rewrite Dist.receivers_matches in Hr; [done|].
           rewrite Hno in Hw by done. apply (f_equal length) in Hw. rewrite length_app in Hw. cbn in Hw. lia.
      * intros q. rewrite Hps3, Heli3, Hli. intros [Hq _]. auto.
  - eexists. split; [done|]. split; [|done].
    replace (set_dist d1 x) with (set_more (more x) (set_dist d1 x)) by (by destruct x).
    by eapply inv_dist.
Qed.

(** *** Receiving and options *)

Definition recv_ghost (m : part) (g : ghost) : ghost :=
  Gh (g_subs g) (g_seen g ++ [p_data m]) (g_exact g) (g_quiet g) (g_stale g) (λ l, g_out g l + one (p_meta m) l).

Lemma xpub_xrecv_ok x w g : inv x w g →
  match pd_data (pend x) with
  | [] => xrecv x = Some (RcErr EAGAIN, None, x)
  | data :: ds => ∃ m x', xrecv x = Some (RcOk, Some m, x') ∧ p_data m = data ∧ pd_data (pend x') = ds ∧ inv x' w (recv_ghost m g)
  end.
Proof.
  intros [Hgd Hsub Hatt Hman Hmore Hst [Hl1 Hl2] Hnotes Hrefs]. unfold xrecv. rewrite Hman.
  destruct (pend x) as [[|data ds] mds fls] eqn:Hq; cbn [pd_data pd_metadata pd_flags] in *; [done|].
  assert (Hx : match pending_pipes x with [] => x | _ :: _ => x end = x) by (by destruct (pending_pipes x)).
  rewrite Hx. clear Hx. rewrite Hq. cbn [pd_metadata pd_flags].
  destruct mds as [|md mds]; [done|]. destruct fls as [|fl fls]; [done|]. cbn [head mbind option_bind tail].
  eexists (Part data fl md), _. split; [done|]. split; [done|]. split; [done|].
  assert (Hp : pend (drop_ref md (add_ref md x)) = pend x) by (by destruct md). rewrite Hp, Hq. cbn [pd_metadata pd_flags tail].
  split; cbn [set_pend dist subscriptions manual more pend refs recv_ghost g_subs g_seen g_exact g_quiet g_stale g_out pd_data p_data p_meta].
  1-6: destruct md; done.
  - unfold in_step in *. cbn in *. lia.
  - intros Ht He. specialize (Hnotes Ht He). by rewrite <- (assoc_L app).
  - intros l. cbn [set_pend refs]. rewrite refs_drop.
    assert (refs (add_ref md x) l = refs x l + one md l) as ->.
    { pose proof (refs_push [] md 0 x l) as Hr. cbn [push_pending set_pend refs] in Hr. done. }
    rewrite Hrefs. unfold holds. cbn [pd_metadata count]. unfold one. lia.
Qed.

Lemma xsetsockopt_ok o v x w g : inv x w g → o ≠ ZMQ_XPUB_MANUAL →
  ∃ r x', xsetsockopt o v x = Some (r, x') ∧ inv x' w g ∧
    (r ≠ RcOk → x' = x).
Proof.
  intros [Hgd Hsub Hatt Hman Hmore Hst Hstep Hnotes Hrefs] Ho. unfold xsetsockopt. rewrite Hman, !andb_false_r.
  assert (Hself : inv x w g) by done.
  assert (Herr : ∃ r x', Some (RcErr EINVAL, x) = Some (r, x') ∧ inv x' w g ∧ (r ≠ RcOk → x' = x)).
  { exists (RcErr EINVAL), x. by split_and!. }
  assert (Hset : ∀ y, (inv x w g → inv y w g) → ∃ r x', Some (RcOk, y) = Some (r, x') ∧ inv x' w g ∧ (r ≠ RcOk → x' = x)).
  { intros y Hy. exists RcOk, y. split_and!; auto. done. }
  destruct ((o =? ZMQ_XPUB_VERBOSE) || _ || _ || _) eqn:Hor; cbn [andb].
  - destruct (negb (length v =? 4)%nat || _); [done|]. apply Hset. intros [].
    destruct (o =? ZMQ_XPUB_VERBOSE) eqn:H1; [done|]. destruct (o =? ZMQ_XPUB_VERBOSER) eqn:H2; [done|].
    destruct (o =? ZMQ_XPUB_NODROP) eqn:H3; [done|]. cbn in Hor. by apply Z.eqb_eq in Hor.
  - destruct (o =? ZMQ_XPUB_WELCOME_MSG); [|done]. apply Hset. by intros [].
Qed.

(** ** All the behaviours

    A step of the socket, with the options but [ZMQ_XPUB_MANUAL], or of its
    peers, whose messages all have a meaning; a new pipe accepts the welcome
    message. *)
Inductive step : xpub * W * ghost → xpub * W * ghost → Prop :=
| s_attach x w g p all fuel x' w' :
    p ∉ items (Dist.pipes (dist x)) → written w p = [] → (length (content w p) < fuel)%nat →
    Forall upstream_ok (content w p) → (∀ m, (out_write p m w).1 = true) →
    xattach_pipe type fuel p all x w = Some (x', w') →
    step (x, w, g) (x', w', attach_ghost (verbose_subs x) (verbose_unsubs x) p all (content w p) g)
| s_read x w g p fuel x' w' :
    p ∈ items (Dist.pipes (dist x)) → (length (content w p) < fuel)%nat → Forall upstream_ok (content w p) →
    xread_activated type fuel p x w = Some (x', w') →
    step (x, w, g) (x', w', read_ghost (verbose_subs x) (verbose_unsubs x) p (content w p) g)
| s_write x w g p k x' :
    items (Dist.pipes (dist x)) !! k = Some p → (Dist.eligible (dist x) ≤ k)%nat →
    xwrite_activated p x = Some x' → step (x, w, g) (x', w, g)
| s_terminated x w g p k x' :
    items (Dist.pipes (dist x)) !! k = Some p → xpipe_terminated type p x = Some x' →
    step (x, w, g) (x', w, end_ghost (verbose_unsubs x) p g)
| s_send x w g m r x' w' :
    bytes_ok (p_data m) → xsend invert_matching is_vsm m x w = Some (r, x', w') →
    step (x, w, g) (x', w', with_stale (negb (bool_decide (r = RcOk))) g)
| s_recv x w g m x' :
    xrecv x = Some (RcOk, Some m, x') → step (x, w, g) (x', w, recv_ghost m g)
| s_option x w g o v r x' :
    o ≠ ZMQ_XPUB_MANUAL → xsetsockopt o v x = Some (r, x') → step (x, w, g) (x', w, g)
| s_world x w g w' :
    (∀ q, written w' q = written w q) → step (x, w, g) (x, w', g)
| s_metadata x w g f :
    step (x, w, g) (set_refs (λ l, refs x l + f l) x, w,
                    Gh (g_subs g) (g_seen g) (g_exact g) (g_quiet g) (g_stale g) (λ l, g_out g l + f l)).

Definition reachable (w0 : W) (st : xpub * W * ghost) : Prop := rtc step (xpub_new, w0, ghost_new) st.

Lemma xpub_step_inv x w g x' w' g' : inv x w g → step (x, w, g) (x', w', g') → inv x' w' g'.
Proof.
  intros H Hs. inversion Hs; subst; clear Hs.
  - destruct (xattach_inv p all fuel x w g H) as (x1 & w1 & Heq & Hn1 & _); [done..|]. by simplify_eq.
  - destruct (xread_inv p fuel x w g H) as (x1 & w1 & Heq & Hn1 & _); [done..|]. by simplify_eq.
  - destruct (xwrite_inv p k x w' g' H) as (x1 & Heq & Hn1 & _); [done..|]. by simplify_eq.
  - destruct (xterminated_inv p k x w' g H) as (x1 & Heq & Hn1 & _); [done|]. by simplify_eq.
  - destruct (xpub_xsend_ok m x w g H) as (d1 & _ & Hc); [done|]. destruct (_ || _).
    + destruct Hc as (x1 & w1 & Heq & Hn1 & _). by simplify_eq.
    + destruct Hc as (x1 & Heq & Hn1 & _). by simplify_eq.
  - pose proof (xpub_xrecv_ok x w' g H) as Hr. destruct (pd_data (pend x)) as [|data ds]; [congruence|].
    destruct Hr as (m1 & x1 & Heq & _ & _ & Hn1). by simplify_eq.
  - destruct (xsetsockopt_ok o v x w' g' H) as (r1 & x1 & Heq & Hn1 & _); [done|]. by simplify_eq.
  - destruct H as [[gd Hgd] Hsub Hatt Hman Hmore Hst Hstep Hnotes Hrefs]. split; try done. exists gd. by eapply Dist.dist_inv_written.
  - destruct H as [Hgd Hsub Hatt Hman Hmore Hst Hstep Hnotes Hrefs]. split; try done.
    intros l. cbn [set_refs refs g_out pend]. rewrite Hrefs. lia.
Qed.

Lemma xpub_reachable_inv w0 x w g : reachable w0 (x, w, g) → inv x w g.
Proof.
  intros Hr. refine (rtc_ind_r (λ st, inv st.1.1 st.1.2 st.2) _ _ _ _ Hr).
  - apply xpub_inv_new.
  - intros [[x1 w1] g1] [[x2 w2] g2] _ Hs H1. by eapply xpub_step_inv.
Qed.

(** ** Publishing a whole message *)

Fixpoint send_parts (ms : list part) (x : xpub) (w : W) : option (xpub * W) :=
  match ms with
  | [] => Some (x, w)
  | m :: ms => '(r, x, w) ← xsend invert_matching is_vsm m x w;
               _ ← zmq_assert (bool_decide (r = RcOk)); send_parts ms x w
  end.

(** What happened to the pipes once all the parts were sent: a pipe that was to
    get the message got all of it, or its parts up to one that the pipe refused
    (the first one if it was full before); such a pipe is set aside.  The others
    got nothing. *)
Definition published (T : Z → Prop) (ms : list part) (x' : xpub) (w w' : W) : Prop :=
  ∀ q, (T q → ∃ got rest, ms = got ++ rest ∧ written w' q = written w q ++ got ∧
          ∀ m, head rest = Some m → ¬ within (Dist.pipes (dist x')) (Dist.eligible (dist x')) q ∧ refuses q m) ∧
       (¬ T q → written w' q = written w q).

Lemma published_one T m x x1 w w1 : delivers m T x x1 w w1 → published T [m] x1 w w1.
Proof.
  intros [Ht Ho _ _] q. split; [|auto]. intros Hq. destruct (Ht q Hq) as [H|(H & He & Hr)].
  - by exists [m], [].
  - exists [], [m]. rewrite app_nil_r. split_and!; [done..|]. by intros m' [= <-].
Qed.

(** The first part, then the others. *)
Lemma published_cons T m ms x x1 x' w w1 w' :
  delivers m T x x1 w w1 → is_more m = true →
  (∀ q, within (Dist.pipes (dist x')) (Dist.eligible (dist x')) q → within (Dist.pipes (dist x1)) (Dist.eligible (dist x1)) q) →
  published (λ q, q ∈ Dist.receivers (dist x1)) ms x' w1 w' → published T (m :: ms) x' w w'.
Proof.
  intros [Ht Ho Hn _] Hm He Hp q. destruct (Hp q) as [Hin Hout].
  specialize (Hn q Hm). rewrite <- Dist.receivers_matches in Hn. split.
  - intros Hq. destruct (Ht q Hq) as [Hw|(Hw & Hel & Hr)].
    + destruct Hin as (got & rest & -> & Hw' & Hrest); [by apply Hn|].
      exists (m :: got), rest. split; [done|]. split; [by rewrite Hw', Hw, <- (assoc_L app)|done].
    + exists [], (m :: ms). rewrite app_nil_r. split; [done|]. split; [|intros m' [= <-]; auto].
      rewrite Hout; [done|]. intros [_ Hc]%Hn. rewrite Hw in Hc. apply (f_equal length) in Hc. rewrite length_app in Hc. cbn in Hc. lia.
  - intros Hq. rewrite Hout, Ho; [done|done|]. by intros [? _]%Hn.
Qed.

Lemma lossy_xsend m x w r x' w' : xsend invert_matching is_vsm m x w = Some (r, x', w') → lossy x' = lossy x.
Proof.
  unfold xsend. intros Hs. destruct (if more x then _ else _) as [d1|]; [|done]. cbn [mbind option_bind] in Hs.
  destruct (_ || _); [|by simplify_eq].
  destruct (Dist.send_to_matching _ _ _ _ _) as [[[z d2] w1]|]; [|done]. cbn [mbind option_bind] in Hs. by simplify_eq.
Qed.

Lemma send_rest ms : ∀ x w g T m, inv x w g → bytes_ok (p_data m) → lossy x = true → one_message (m :: ms) →
  (∀ q, target x g m q ↔ T q) → Forall (λ m, bytes_ok (p_data m)) ms →
  ∃ x' w', send_parts (m :: ms) x w = Some (x', w') ∧
    (∀ q, within (Dist.pipes (dist x')) (Dist.eligible (dist x')) q → within (Dist.pipes (dist x)) (Dist.eligible (dist x)) q) ∧
    published T (m :: ms) x' w w'.
Proof.
  induction ms as [|m' ms IH]; intros x w g T m H Hb Hl Hone HT Hbs;
    destruct (xpub_xsend_ok m x w g H Hb) as (d1 & _ & Hc); rewrite Hl in Hc; cbn [orb] in Hc;
    destruct Hc as (x1 & w1 & Hs & H1 & Hmo1 & Hdel); cbn [send_parts]; rewrite Hs; cbn [mbind option_bind];
    rewrite bool_decide_eq_true_2 by done; cbn [zmq_assert mbind option_bind];
    pose proof (lossy_xsend _ _ _ _ _ _ Hs) as Hl1;
    assert (Hd : delivers m T x x1 w w1) by
      (destruct Hdel as [Ht Ho Hn He]; setoid_rewrite HT in Ht; setoid_rewrite HT in Ho; setoid_rewrite HT in Hn; by split);
    cbn [one_message] in Hone; destruct (is_more m) eqn:Hmm; try done.
  - exists x1, w1. split; [done|]. split; [apply Hd|by apply (published_one _ _ x)].
  - apply Forall_cons in Hbs as [Hb' Hbs].
    destruct (IH x1 w1 _ (λ q, q ∈ Dist.receivers (dist x1)) m' H1 Hb') as (x' & w' & Heq & He' & Hp); [congruence|done| |done|].
    { intros q. unfold target. by rewrite Hmo1, Dist.receivers_matches. }
    cbn [send_parts] in Heq. rewrite Heq. exists x', w'. split; [done|]. split; [|by apply (published_cons _ _ _ x x1 x' w w1 w')].
    intros q Hq. apply (dl_eligible _ _ _ _ _ _ Hd). auto.
Qed.

(** The pipes that are to get the message [m] that starts now. *)
Definition chosen (x : xpub) (g : ghost) (m : part) (q : Z) : Prop :=
  within (Dist.pipes (dist x)) (Dist.eligible (dist x)) q ∧
  if invert_matching then ¬ wants (g_subs g) (p_data m) q else wants (g_subs g) (p_data m) q.

Lemma target_fresh x g m w q : inv x w g → more x = false → g_stale g = false → target x g m q ↔ chosen x g m q.
Proof.
  intros H Hm Hs. unfold target, chosen. rewrite Hm. rewrite (v_stale _ _ _ H Hs Hm).
  assert (Hn : ¬ within (Dist.pipes (dist x)) 0 q) by apply within_0.
  destruct invert_matching; [|tauto]. split; intros [He Hf]; tauto.
Qed.

(** C19. A PUB or XPUB socket that drops (the default, without
    [ZMQ_XPUB_NODROP]) publishes whole messages to the right peers: in every run
    without the manual mode, in which the peers' messages are well formed and
    new pipes accept the welcome message, the parts of a message are written, in
    order, to exactly the attached pipes that can take messages and that
    subscribed to a prefix of its first part (with [invert_matching], exactly the
    ones that did not).  Each of them gets all the parts, or the parts up to one
    that it refuses, and is then set aside until it can be written again.  The
    state is between messages, and the last attempt to send did not fail with
    EAGAIN, which would leave its marks on the pipes. *)
Theorem xpub_publishes w0 x w g m ms :
  reachable w0 (x, w, g) → more x = false → g_stale g = false → lossy x = true →
  one_message (m :: ms) → Forall (λ m, bytes_ok (p_data m)) (m :: ms) →
  ∃ x' w', send_parts (m :: ms) x w = Some (x', w') ∧ published (chosen x g m) (m :: ms) x' w w'.
Proof.
  intros Hre Hm Hs Hl Hone Hb. pose proof (xpub_reachable_inv _ _ _ _ Hre) as H. apply Forall_cons in Hb as [Hb Hbs].
  destruct (send_rest ms x w g (chosen x g m) m H Hb Hl Hone) as (x' & w' & Heq & _ & Hp); [|done|by eauto].
  intros q. by eapply target_fresh.
Qed.

(** The queue of an XPUB socket tells the user what is subscribed: in every run
    in which every cancel is of a key its pipe had subscribed to (and neither
    [ZMQ_XPUB_VERBOSER] nor an implicit subscription is used), the messages the
    user has read, followed by those that wait, replay to exactly the keys some
    pipe is subscribed to; without verbose options every one of them changes
    that set; the trie holds exactly the subscriptions; and every waiting
    message holds one reference on its metadata. *)
Theorem xpub_notifies w0 x w g : type = ZMQ_XPUB → reachable w0 (x, w, g) →
  subscribes (subscriptions x) (g_subs g) ∧
  (g_exact g = true →
     replay ∅ (g_seen g ++ pd_data (pend x)) = keys (g_subs g) ∧
     (g_quiet g = true → concise ∅ (g_seen g ++ pd_data (pend x)))) ∧
  (∀ l, refs x l = g_out g l + holds (pend x) l) ∧
  (pd_data (pend x) ≠ [] → ∃ m x', xrecv x = Some (RcOk, Some m, x') ∧ pd_data (pend x) = p_data m :: pd_data (pend x')).
Proof.
  intros Ht Hr. pose proof (xpub_reachable_inv _ _ _ _ Hr) as H. split_and!; [apply H| |apply H|].
  - intros He. by apply (v_notes _ _ _ H).
  - intros Hne. pose proof (xpub_xrecv_ok x w g H) as Hx. destruct (pd_data (pend x)) as [|data ds]; [done|].
    destruct Hx as (m & x' & Heq & <- & Hd & _). exists m, x'. by rewrite Hd.
Qed.

(** No operation of the publisher aborts: in every reachable state, with
    enough fuel for the messages that wait, attaching a pipe, reading from,
    writing to and terminating an attached pipe, sending, receiving and setting
    options all return. *)
Theorem xpub_safe w0 x w g : reachable w0 (x, w, g) →
  (∀ p all fuel, p ∉ items (Dist.pipes (dist x)) → written w p = [] → (length (content w p) < fuel)%nat →
     Forall upstream_ok (content w p) → (∀ m, (out_write p m w).1 = true) →
     is_Some (xattach_pipe type fuel p all x w)) ∧
  (∀ p fuel, p ∈ items (Dist.pipes (dist x)) → (length (content w p) < fuel)%nat → Forall upstream_ok (content w p) →
     is_Some (xread_activated type fuel p x w)) ∧
  (∀ k p, items (Dist.pipes (dist x)) !! k = Some p →
     is_Some (xpipe_terminated type p x) ∧ ((Dist.eligible (dist x) ≤ k)%nat → is_Some (xwrite_activated p x))) ∧
  (∀ m, bytes_ok (p_data m) → is_Some (xsend invert_matching is_vsm m x w)) ∧
  is_Some (xrecv x) ∧
  (∀ o v, o ≠ ZMQ_XPUB_MANUAL → is_Some (xsetsockopt o v x)).
Proof.
  intros Hr. pose proof (xpub_reachable_inv _ _ _ _ Hr) as H. split_and!.
  - intros p all fuel Hp Hw Hf Hok Hacc. destruct (xattach_inv p all fuel x w g H) as (x1 & w1 & Heq & _); eauto.
  - intros p fuel Hp Hf Hok. destruct (xread_inv p fuel x w g H) as (x1 & w1 & Heq & _); eauto.
  - intros k p Hk. split.
    + destruct (xterminated_inv p k x w g H Hk) as (x1 & Heq & _). eauto.
    + intros Hge. destruct (xwrite_inv p k x w g H Hk Hge) as (x1 & Heq & _). eauto.
  - intros m Hb. destruct (xpub_xsend_ok m x w g H Hb) as (d1 & _ & Hc). destruct (_ || _).
    + destruct Hc as (x1 & w1 & Heq & _). eauto.
    + destruct Hc as (x1 & Heq & _). eauto.
  - pose proof (xpub_xrecv_ok x w g H) as Hx. destruct (pd_data (pend x)); [eauto|]. destruct Hx as (m & x1 & Heq & _). eauto.
  - intros o v Ho. destruct (xsetsockopt_ok o v x w g H Ho) as (r & x1 & Heq & _). eauto.
Qed.
End correct.

(** * Runs on pipes that are lists (see [Duo]) *)

Definition world : Type := Duo.duo (M := part).
#[local] Instance world_in : InPipes part world := Duo.duo_in.
#[local] Instance world_out : OutPipes part world := Duo.duo_out is_more.

Definition msg (data : list Z) : part := Part data 0 None.
Definition msg_more (data : list Z) : part := Part data 1 None.
Definition int_val (v : Z) : list Z := [v; 0; 0; 0].

(** A world in which the pipe [p] sent the messages [f p]. *)
Definition sent_by (f : Z → list (list Z)) : world := Duo.Two (λ p, msg <$> f p) (λ _, []).

Definition attach_all (type : Z) (ps : list Z) (x : xpub) (w : world) : option (xpub * world) :=
  foldl (λ st p, '(x, w) ← st; xattach_pipe type 10 p false x w) (Some (x, w)) ps.

Definition output (ps : list Z) (w : world) : list (list (list Z)) :=
  (λ p, p_data <$> Duo.outgoing w p) <$> ps.

(** With [ZMQ_XPUB_NODROP], pipe -1 (full) subscribed to "A" and pipe 2 to "B". *)
Definition run_marks : option (rc * rc * rc * list (list (list Z))) :=
  '(x, w) ← attach_all ZMQ_PUB [-1; 2] xpub_new (sent_by (λ p, if p =? -1 then [[1; 65]] else [[1; 66]]));
  '(_, x) ← xsetsockopt ZMQ_XPUB_NODROP (int_val 1) x;
  '(r1, x, w) ← xsend false (λ _, true) (msg [65]) x w;
  '(r2, x, w) ← xsend false (λ _, true) (msg [66]) x w;
  '(_, x) ← xsetsockopt ZMQ_XPUB_NODROP (int_val 0) x;
  '(r3, x, w) ← xsend false (λ _, true) (msg [66]) x w;
  Some (r1, r2, r3, output [-1; 2] w).

(** With [ZMQ_INVERT_MATCHING], pipe -1 subscribed to nothing and pipe 2 to "A". *)
Definition run_inverted_marks : option (rc * rc * list (list (list Z))) :=
  '(x, w) ← attach_all ZMQ_PUB [-1; 2] xpub_new (sent_by (λ p, if p =? -1 then [] else [[1; 65]]));
  '(_, x) ← xsetsockopt ZMQ_XPUB_NODROP (int_val 1) x;
  '(r1, x, w) ← xsend true (λ _, true) (msg [65]) x w;
  '(r2, x, w) ← xsend true (λ _, true) (msg [65]) x w;
  Some (r1, r2, output [-1; 2] w).

(** A peer subscribes to everything and sends a message for the user. *)
Definition run_user_message : option (list Z) :=
  '(x, w) ← attach_all ZMQ_PUB [1] xpub_new (sent_by (λ _, [[1]; [2; 65]]));
  mmatch (subscriptions x) [65].

(** The peer 2 cancels "A", which only the peer 1 subscribed to. *)
Definition run_foreign_cancel : option (list (list Z) * list Z) :=
  '(x, w) ← attach_all ZMQ_XPUB [1; 2] xpub_new (sent_by (λ p, if p =? 1 then [[1; 65]] else [[0; 65]]));
  ps ← mmatch (subscriptions x) [65];
  Some (pd_data (pend x), ps).

(** Manual mode: the peer subscribes and leaves, the user reads the
    subscription and accepts it. *)
Definition run_dangling : option (option (list Z) * list Z) :=
  '(_, x) ← xsetsockopt ZMQ_XPUB_MANUAL (int_val 1) xpub_new;
  '(x, w) ← attach_all ZMQ_XPUB [1] x (sent_by (λ _, [[1; 65]]));
  x ← xpipe_terminated ZMQ_XPUB 1 x;
  '(_, _, x) ← xrecv x;
  '(_, x) ← xsetsockopt ZMQ_SUBSCRIBE [65] x;
  Some (mmatch (subscriptions x) [65], items (Dist.pipes (dist x))).

(** Manual mode: an empty message of the peer 1 for the user, then
    subscriptions of the peers 2 and 3; the user reads two messages. *)
Definition run_shifted : option (option (list Z) * option (list Z) * option Z) :=
  '(_, x) ← xsetsockopt ZMQ_XPUB_MANUAL (int_val 1) xpub_new;
  '(x, w) ← attach_all ZMQ_XPUB [1; 2; 3] x (sent_by (λ p, if p =? 1 then [[]] else [[1; 65 + p]]));
  '(_, m1, x) ← xrecv x;
  '(_, m2, x) ← xrecv x;
  Some (option_map p_data m1, option_map p_data m2, last_pipe x).

(** What can go wrong in a publisher.  After a send that failed with EAGAIN the
    pipes it matched stay marked: once "A" has failed, "B" fails too, and when the
    socket may drop messages again it goes to the subscriber of "A" as well; with
    inverted matching a second attempt reverses the marks left by the first: the
    message is reported sent and no pipe gets it.  An upstream message that begins
    with a byte other than 0 and 1 is meant for the user, but is handled as a
    cancel of the empty prefix at the address NULL: XPUB writes before NULL, PUB
    drops the peer's subscription to everything.  A cancel of a key its pipe did
    not subscribe to is notified as if the key had no subscriber left.  In manual
    mode, a pipe that ends before its subscription is read leaves its pointer
    behind: the next [ZMQ_SUBSCRIBE] enters it in the trie, and the next message
    is distributed to a pipe that is no longer attached; and a user message
    shifts the pipes [ZMQ_SUBSCRIBE] applies to. *)
Theorem xpub_defects :
  run_marks = Some (RcErr EAGAIN, RcErr EAGAIN, RcOk, [[[66]]; [[66]]]) ∧
  run_inverted_marks = Some (RcErr EAGAIN, RcOk, [[]; []]) ∧
  (∀ n, xattach_pipe ZMQ_XPUB (S n) 1 false xpub_new (sent_by (λ _, [[2; 65]])) = None) ∧
  run_user_message = Some [] ∧
  run_foreign_cancel = Some ([[1; 65]; [0; 65]], [1]) ∧
  run_dangling = Some (Some [1], []) ∧
  run_shifted = Some (Some [], Some [1; 67], Some 3).
Proof. split_and!; [| |intros n|..]; vm_compute; reflexivity. Qed.

(** ** Witnesses: peer 1 subscribed to "A", peer 2 to "B". *)

#[local] Instance world_in_laws : InPipesLaws part world := Duo.duo_in_laws.
#[local] Instance world_out_laws : OutPipesLaws part world is_more := Duo.duo_out_laws is_more.
#[local] Instance world_duplex : DuplexPipes part world is_more := Duo.duo_duplex is_more.

Definition ex_world : world := sent_by (λ p, if p =? 1 then [[1; 65]] else [[1; 66]]).
Definition ex_attach (p : Z) (st : xpub * world) : xpub * world :=
  default st (xattach_pipe ZMQ_XPUB 10 p false st.1 st.2).
Definition ex_st1 : xpub * world := ex_attach 1 (xpub_new, ex_world).
Definition ex_st2 : xpub * world := ex_attach 2 ex_st1.
Definition ex_gh1 : ghost := attach_ghost false false 1 false (content ex_world 1) ghost_new.
Definition ex_gh2 : ghost := attach_ghost false false 2 false (content ex_st1.2 2) ex_gh1.

Lemma ex_upstream k : bytes_ok k → upstream_ok (msg (1 :: k)).
Proof. intros Hk. by exists (Subscribe k). Qed.

Lemma xpub_ex_reachable : reachable ZMQ_XPUB false (λ _, true) ex_world (ex_st2.1, ex_st2.2, ex_gh2).
Proof.
  eapply rtc_l; [|eapply rtc_l; [|apply rtc_refl]].
  - apply (s_attach _ _ _ xpub_new ex_world ghost_new 1 false 10 ex_st1.1 ex_st1.2).
    + cbn. set_solver.
    + done.
    + cbn. lia.
    + constructor; [|done]. apply ex_upstream. repeat constructor; unfold byte_ok; lia.
    + done.
    + vm_compute. reflexivity.
  - apply (s_attach _ _ _ ex_st1.1 ex_st1.2 ex_gh1 2 false 10 ex_st2.1 ex_st2.2).
    + assert (items (Dist.pipes (dist ex_st1.1)) = [1]) as -> by (vm_compute; reflexivity). set_solver.
    + done.
    + vm_compute. lia.
    + constructor; [|done]. apply ex_upstream. repeat constructor; unfold byte_ok; lia.
    + done.
    + vm_compute. reflexivity.
Qed.

Definition ex_parts : list part := [msg_more [65; 67]; msg [90]].

Lemma ex_parts_ok : one_message ex_parts ∧ Forall (λ m, bytes_ok (p_data m)) ex_parts.
Proof. split; [done|]. repeat constructor; unfold byte_ok; cbn; lia. Qed.

Lemma xpub_publishes_witness :
  reachable ZMQ_XPUB false (λ _, true) ex_world (ex_st2.1, ex_st2.2, ex_gh2) ∧
  ∃ x' w', send_parts false (λ _, true) ex_parts ex_st2.1 ex_st2.2 = Some (x', w') ∧
    published (chosen false ex_st2.1 ex_gh2 (msg_more [65; 67])) ex_parts x' ex_st2.2 w'.
Proof.
  exact (conj xpub_ex_reachable (xpub_publishes ZMQ_XPUB false (λ _, true) ex_world ex_st2.1 ex_st2.2 ex_gh2
    (msg_more [65; 67]) [msg [90]] xpub_ex_reachable eq_refl eq_refl eq_refl (proj1 ex_parts_ok) (proj2 ex_parts_ok))).
Defined.

Lemma xpub_notifies_witness :
  reachable ZMQ_XPUB false (λ _, true) ex_world (ex_st2.1, ex_st2.2, ex_gh2) ∧
  pd_data (pend ex_st2.1) = [[1; 65]; [1; 66]] ∧ replay ∅ [[1; 65]; [1; 66]] = keys (g_subs ex_gh2).
Proof.
  destruct (xpub_notifies ZMQ_XPUB false (λ _, true) ex_world ex_st2.1 ex_st2.2 ex_gh2 eq_refl xpub_ex_reachable) as (_ & Hn & _).
  exact (conj xpub_ex_reachable (conj eq_refl (proj1 (Hn eq_refl)))).
Defined.

Lemma xpub_safe_witness :
  reachable ZMQ_XPUB false (λ _, true) ex_world (ex_st2.1, ex_st2.2, ex_gh2) ∧ is_Some (xpipe_terminated ZMQ_XPUB 1 ex_st2.1).
Proof.
  destruct (xpub_safe ZMQ_XPUB false (λ _, true) ex_world ex_st2.1 ex_st2.2 ex_gh2 xpub_ex_reachable) as (_ & _ & Ht & _).
  exact (conj xpub_ex_reachable (proj1 (Ht 0%nat 1 eq_refl))).
Defined.
End XPub.
