(* ===== verification/XSub.v ===== *)
(** * The subscriber socket

    [xsub_t] (src/xsub.cpp, with the SUB type of src/sub.cpp) keeps its
    subscriptions in a trie, sends them upstream through the distributor and
    filters what the fair queue receives.  The theorems: receiving returns, the
    messages delivered are the matching ones, whole and in order, and the others
    are consumed; no operation aborts; and the filter of a subscriber agrees
    with what its publisher learns from the messages sent upstream. *)

From S2P Require Import Prelude ByteTable Msg Trie MTrie Array PipeIface SubMsg Recv Fq Dist XPub.
Import Array SubMsg Recv.

Module XSub.

Definition ZMQ_SUBSCRIBE := 6.
Definition ZMQ_UNSUBSCRIBE := 7.

(** The data members. *)
Record xsub := XSub {
  fq : Fq.fq;
  dist : Dist.dist;
  subscriptions : trie;
  has_message : bool;
  message : part;
  more : bool }.

Definition empty_msg : part := Part [] 0 None.

Definition xsub_new : xsub := XSub Fq.fq_new Dist.dist_new trie_new false empty_msg false.

Definition set_fq f x := XSub f (dist x) (subscriptions x) (has_message x) (message x) (more x).
Definition set_dist d x := XSub (fq x) d (subscriptions x) (has_message x) (message x) (more x).
Definition set_subscriptions t x := XSub (fq x) (dist x) t (has_message x) (message x) (more x).
Definition set_message b m x := XSub (fq x) (dist x) (subscriptions x) b m (more x).
Definition set_more b x := XSub (fq x) (dist x) (subscriptions x) (has_message x) (message x) b.

Section xsub.
Context {W : Type} `{!InPipes part W} `{!OutPipes part W}.
(** [options.filter] and [options.invert_matching]. *)
Context (filter invert_matching : bool) (is_vsm : part → bool).

(** [send_subscription]: dropped when the pipe is full. *)
Definition send_subscription (data : list Z) (pipe : Z) (w : W) : W :=
  (out_write pipe (Part (sub_blob true data) 0 None) w).2.

(** [_subscriptions.apply (send_subscription, pipe)] and [flush] *)
Definition send_subscriptions (pipe : Z) (x : xsub) (w : W) : option W :=
  calls ← Trie.apply (subscriptions x);
  Some (out_flush pipe (foldl (λ w key, send_subscription key pipe w) w calls)).

Definition xattach_pipe (pipe : Z) (x : xsub) (w : W) : option (xsub * W) :=
  f ← Fq.attach pipe (fq x);
  d ← Dist.attach pipe (dist x);
  let x := set_dist d (set_fq f x) in
  w ← send_subscriptions pipe x w;
  Some (x, w).

Definition xread_activated (pipe : Z) (x : xsub) : option xsub :=
  f ← Fq.activated pipe (fq x); Some (set_fq f x).

Definition xwrite_activated (pipe : Z) (x : xsub) : option xsub :=
  d ← Dist.activated pipe (dist x); Some (set_dist d x).

Definition xpipe_terminated (pipe : Z) (x : xsub) : option xsub :=
  f ← Fq.pipe_terminated pipe (fq x);
  d ← Dist.pipe_terminated pipe (dist x);
  Some (set_dist d (set_fq f x)).

Definition xhiccuped (pipe : Z) (x : xsub) (w : W) : option W := send_subscriptions pipe x w.

(** [_dist.send_to_all (msg)] *)
Definition send_to_all (m : part) (x : xsub) (w : W) : option (rc * xsub * W) :=
  '(_, d, w) ← Dist.send_to_all is_more is_vsm m (dist x) w;
  Some (RcOk, set_dist d x, w).

Definition xsend (m : part) (x : xsub) (w : W) : option (rc * xsub * W) :=
  if is_subscribe m || bool_decide (head (p_data m) = Some 1) then
    key ← (if is_subscribe m then command_body m else Some (tail (p_data m)));
    '(_, t) ← Trie.add (subscriptions x) key;
    send_to_all m (set_subscriptions t x) w
  else if is_cancel m || bool_decide (head (p_data m) = Some 0) then
    key ← (if is_cancel m then command_body m else Some (tail (p_data m)));
    '(last, t) ← Trie.rm (subscriptions x) key;
    let x := set_subscriptions t x in
    if (last : bool) then send_to_all m x w else Some (RcOk, x, w)   (* close and init *)
  else send_to_all m x w.

Definition xhas_out : bool := true.

Definition match_ (m : part) (x : xsub) : option bool :=
  matching ← Trie.check (subscriptions x) (p_data m);
  Some (xorb matching invert_matching).

(** [!options.filter || match (msg)] *)
Definition wanted (m : part) (x : xsub) : option bool :=
  if negb filter then Some true else match_ m x.

(** [while (msg->flags () & more) { rc = _fq.recv (msg); errno_assert (rc == 0); }] *)
Fixpoint skip_loop (fuel : nat) (m : part) (f : Fq.fq) (w : W) : option (Fq.fq * W) :=
  match fuel with
  | O => None
  | S fuel =>
      if is_more m then
        '(r, f, w) ← Fq.recvpipe is_more f w;
        '(m, _) ← r;
        skip_loop fuel m f w
      else Some (f, w)
  end.

(** The loop [xrecv] and [xhas_in] share: the first message that is [wanted]
    (with [any], the first one); [None] is EAGAIN. *)
Fixpoint recv_loop (fuel : nat) (any : bool) (x : xsub) (w : W) : option (option part * xsub * W) :=
  match fuel with
  | O => None
  | S fuel =>
      '(r, f, w) ← Fq.recvpipe is_more (fq x) w;
      let x := set_fq f x in
      match r with
      | None => Some (None, x, w)
      | Some (m, _) =>
          pass ← (if any then Some true else wanted m x);
          if (pass : bool) then Some (Some m, x, w)
          else
            '(f, w) ← skip_loop fuel m (fq x) w;
            recv_loop fuel any (set_fq f x) w
      end
  end.

Definition xrecv (fuel : nat) (x : xsub) (w : W) : option (rc * option part * xsub * W) :=
  if has_message x then
    let m := message x in
    Some (RcOk, Some m, set_more (is_more m) (set_message false empty_msg x), w)
  else
    '(r, x, w) ← recv_loop fuel (more x) x w;
    match r with
    | None => Some (RcErr EAGAIN, None, x, w)
    | Some m => Some (RcOk, Some m, set_more (is_more m) x, w)
    end.

Definition xhas_in (fuel : nat) (x : xsub) (w : W) : option (bool * xsub * W) :=
  if more x then Some (true, x, w)
  else if has_message x then Some (true, x, w)
  else
    '(r, x, w) ← recv_loop fuel false x w;
    match r with
    | None => Some (false, set_message false empty_msg x, w)
    | Some m => Some (true, set_message true m x, w)
    end.

(** [sub_t]: subscribing through an option; the message is closed afterwards. *)
Definition sub_xsetsockopt (option_ : Z) (optval : list Z) (x : xsub) (w : W) : option (rc * xsub * W) :=
  if negb (option_ =? ZMQ_SUBSCRIBE) && negb (option_ =? ZMQ_UNSUBSCRIBE) then Some (RcErr EINVAL, x, w)
  else xsend (Part (sub_blob (option_ =? ZMQ_SUBSCRIBE) optval) 0 None) x w.
Definition sub_xsend : rc := RcErr ENOTSUP.
Definition sub_xhas_out : bool := false.
End xsub.

(** * What is available *)

Section correct.
Context {W : Type} `{!InPipes part W} `{!OutPipes part W} `{!InPipesLaws part W} `{!OutPipesLaws part W is_more}.
Context `{!DuplexPipes part W is_more}.
Context (filter invert_matching : bool) (is_vsm : part → bool).

(** ** Receiving *)

(** Skipping the rest of a message. *)
Lemma skip_loop_spec p fuel : ∀ m f w, Fq.inv is_more f w → Fq.more f = is_more m →
  (is_more m = true → items (Fq.pipes f) !! Fq.current f = Some p) → (length (content w p) < fuel)%nat →
  ∃ rest f' w', skip_loop fuel m f w = Some (f', w') ∧ Fq.inv is_more f' w' ∧ Fq.more f' = false ∧
    one_message (m :: rest) ∧ content w p = rest ++ content w' p ∧ (∀ q, q ≠ p → content w' q = content w q) ∧
    (∀ q, q ∈ items (Fq.pipes f') ↔ q ∈ items (Fq.pipes f)) ∧ (∀ q, written w' q = written w q) ∧ served f f' w'.
Proof.
  induction fuel as [|fuel IH]; intros m f w H Hm Hcur Hf; [lia|]. cbn [skip_loop].
  destruct (is_more m) eqn:Hmm.
  - destruct (recvpipe_ok f w H) as (r & f1 & w1 & -> & H1 & Hit1 & Hw1 & Hs1 & Hr). cbn [mbind option_bind].
    destruct r as [[m1 p1]|]; [|destruct Hr as (_ & _ & Hn & _); congruence].
    destruct Hr as (_ & Hc & Ho & Hm1 & Hcur1 & Hsame). specialize (Hcur eq_refl). specialize (Hsame Hm).
    assert (p1 = p) as -> by congruence. cbn [mbind option_bind].
    destruct (IH m1 f1 w1 H1 Hm1 Hcur1) as (rest & f' & w' & -> & H' & Hm' & Hone & Hc' & Ho' & Hit' & Hw' & Hs').
    { rewrite Hc in Hf. cbn in Hf. lia. }
    exists (m1 :: rest), f', w'. split_and!; [done..| | | | | |].
    + cbn [one_message]. by rewrite Hmm.
    + by rewrite Hc, Hc'.
    + intros q Hq. by rewrite Ho', Ho.
    + intros q. by rewrite Hit', Hit1.
    + intros q. by rewrite Hw', Hw1.
    + eapply served_trans; [done|done|]. intros q Hq. destruct (decide (q = p)) as [->|Hne]; [|by rewrite Ho'].
      rewrite Hq in Hc'. by destruct rest, (content w' p).
  - exists [], f, w. split_and!; try done; [cbn; by rewrite Hmm|by left].
Qed.

(** ** The invariant

    The ghost state: how many times each key is subscribed to, and a bound on
    the number of subscriptions so far. *)
Record ghost := Gh { g_subs : gmap (list Z) Z; g_count : Z }.

Definition ghost_new : ghost := Gh ∅ 0.

Definition bytes_in (w : W) (q : Z) : Prop := Forall (λ m, bytes_ok (p_data m)) (content w q).

Record inv (x : xsub) (w : W) (g : ghost) : Prop := {
  u_fq : Fq.inv is_more (fq x) w;
  u_dist : ∃ gd, Dist.inv is_more (dist x) w gd;
  u_idle : Dist.more (dist x) = false;
  u_subs : represents (subscriptions x) (g_subs g);
  u_count p : refs (subscriptions x) p ≤ g_count g;
  u_pipes q : q ∈ items (Fq.pipes (fq x)) ↔ q ∈ items (Dist.pipes (dist x));
  u_bytes q : q ∈ items (Fq.pipes (fq x)) → bytes_in w q;
  u_message : has_message x = true → more x = false;
  u_more : Fq.more (fq x) = if has_message x then is_more (message x) else more x;
  u_keys k : is_Some (g_subs g !! k) → bytes_ok k }.

Lemma xsub_inv_new w : inv xsub_new w ghost_new.
Proof.
  split; try done.
  - exact (Fq.fq_inv_new _ w).
  - exists (Dist.Ghost [] [] []). exact (Dist.dist_inv_new _ w).
  - apply represents_new.
  - intros p. by rewrite refs_new.
  - intros q Hq. cbn in Hq. by apply not_elem_of_nil in Hq.
  - intros k. cbn. rewrite lookup_empty. by intros [? ?].
Qed.

(** What the filter is to let through. *)
Definition passes (S : gmap (list Z) Z) (data : list Z) : Prop :=
  filter = true →
  if invert_matching then ¬ (∃ k, k `prefix_of` data ∧ is_Some (S !! k)) else ∃ k, k `prefix_of` data ∧ is_Some (S !! k).

Lemma wanted_spec x S m : represents (subscriptions x) S → bytes_ok (p_data m) →
  ∃ b, wanted filter invert_matching m x = Some b ∧ (b = true ↔ passes S (p_data m)).
Proof.
  intros (Hwf & Hrefs & Hpos) Hb. unfold wanted, match_, passes. destruct filter; cbn [negb]; [|by exists true].
  destruct (check_spec _ _ Hwf Hb) as (b & -> & Hiff). cbn [mbind option_bind]. exists (xorb b invert_matching). split; [done|].
  assert (Heq : (∃ p, p `prefix_of` p_data m ∧ 0 < refs (subscriptions x) p) ↔ ∃ k, k `prefix_of` p_data m ∧ is_Some (S !! k)).
  { split; intros (k & Hk & Hs); exists k; (split; [done|]); rewrite Hrefs in *; specialize (Hpos k);
      destruct (S !! k) as [n|]; cbn in *; try lia; eauto. by destruct Hs. }
  rewrite Heq in Hiff. destruct invert_matching, b; cbn; intuition congruence.
Qed.

(** *** Receiving *)

(** What was skipped: whole messages the filter does not let through. *)
Definition unwanted (S : gmap (list Z) Z) (sk : list (Z * list part)) : Prop :=
  Forall (λ s, one_message s.2 ∧ ∃ m ms, s.2 = m :: ms ∧ ¬ passes S (p_data m)) sk.

Lemma whole_content w p l : content w p = l ++ [] → content w p = l.
Proof. by rewrite app_nil_r. Qed.

Lemma xsub_recv_loop_spec any S L fuel : ∀ x w,
  Fq.inv is_more (fq x) w → (Fq.more (fq x) = true → any = true) → represents (subscriptions x) S →
  (∀ q, q ∈ items (Fq.pipes (fq x)) → bytes_in w q) →
  NoDup L → (∀ q, q ∈ items (Fq.pipes (fq x)) ↔ q ∈ L) → (avail w L < fuel)%nat →
  ∃ r f' w' sk, recv_loop filter invert_matching fuel any x w = Some (r, set_fq f' x, w') ∧
    Fq.inv is_more f' w' ∧ (∀ q, q ∈ items (Fq.pipes f') ↔ q ∈ items (Fq.pipes (fq x))) ∧
    (∀ q, written w' q = written w q) ∧ unwanted S sk ∧ (any = true → sk = []) ∧
    match r with
    | Some m => ∃ p, p ∈ L ∧ (any = false → passes S (p_data m)) ∧ Fq.more f' = is_more m ∧
        (Fq.more (fq x) = true → items (Fq.pipes (fq x)) !! Fq.current (fq x) = Some p) ∧
        ∀ q, content w q = taken q sk ++ (if decide (q = p) then [m] else []) ++ content w' q
    | None => Fq.more (fq x) = false ∧ Fq.more f' = false ∧ (∀ q, content w q = taken q sk ++ content w' q) ∧
        ∀ q, Fq.is_active (fq x) q → content w' q = []
    end.
Proof.
  induction fuel as [|fuel IH]; intros x w H Hany Hs Hb Hnd HL Hf; [lia|]. cbn [recv_loop].
  destruct (recvpipe_ok (fq x) w H) as (r & f1 & w1 & -> & H1 & Hit1 & Hw1 & Hs1 & Hr). cbn [mbind option_bind].
  destruct r as [[m p]|].
  - destruct Hr as (Hp & Hc & Ho & Hm1 & Hcur1 & Hsame).
    assert (Hcq : ∀ q, content w q = (if decide (q = p) then [m] else []) ++ content w1 q).
    { intros q. case_decide; [by subst|by rewrite Ho]. }
    assert (Hbm : bytes_ok (p_data m)).
    { specialize (Hb p Hp). unfold bytes_in in Hb. rewrite Hc in Hb. by apply Forall_inv in Hb. }
    assert (Hpass : ∃ b, (if any then Some true else wanted filter invert_matching m (set_fq f1 x)) = Some b ∧
      (any = true → b = true) ∧ (any = false → b = true ↔ passes S (p_data m))).
    { destruct any; [by exists true|]. destruct (wanted_spec (set_fq f1 x) S m Hs Hbm) as (b & -> & Hiff). by exists b. }
    destruct Hpass as (b & -> & Hb1 & Hb2). cbn [mbind option_bind]. destruct b.
    + exists (Some m), f1, w1, []. split_and!; [done..|constructor|done|]. exists p.
      split_and!; [by apply HL|intros Ha; by apply Hb2|done|done|exact Hcq].
    + destruct any; [by specialize (Hb1 eq_refl)|].
      assert (Hm0 : Fq.more (fq x) = false) by (destruct (Fq.more (fq x)); [by specialize (Hany eq_refl)|done]).
      pose proof (avail_take w w1 L p [m] Hnd (proj1 (HL p) Hp) Hc Ho) as Hav. cbn [length] in Hav.
      destruct (skip_loop_spec p fuel m f1 w1 H1 Hm1 Hcur1) as (rest & f2 & w2 & Hsk & H2 & Hm2 & Hone & Hc2 & Ho2 & Hit2 & Hw2 & Hs2).
      { pose proof (avail_le w1 L p (proj1 (HL p) Hp)). lia. }
      cbn [set_fq fq]. rewrite Hsk. cbn [mbind option_bind].
      assert (Hc12 : ∀ q, content w1 q = (if decide (q = p) then rest else []) ++ content w2 q).
      { intros q. case_decide; [by subst|by rewrite Ho2]. }
      pose proof (avail_take w1 w2 L p rest Hnd (proj1 (HL p) Hp) Hc2 Ho2) as Hav2.
      destruct (IH (set_fq f2 (set_fq f1 x)) w2) as (r & f' & w' & sk & Heq & H' & Hit' & Hw' & Hun & Hsk0 & Hr'); try done.
      { cbn. congruence. }
      { intros q Hq. cbn in Hq. apply Hit2, Hit1, Hb in Hq. unfold bytes_in in *.
        rewrite Hcq, Hc12 in Hq. by apply Forall_app in Hq as [_ [_ Hq]%Forall_app]. }
      { intros q. cbn. by rewrite Hit2, Hit1. }
      { lia. }
      exists r, f', w', ((p, m :: rest) :: sk). split_and!.
      * exact Heq.
      * done.
      * intros q. rewrite Hit'. cbn. by rewrite Hit2, Hit1.
      * intros q. by rewrite Hw', Hw2, Hw1.
      * constructor; [|done]. split; [done|]. exists m, rest. split; [done|]. intros Hp'. apply Hb2 in Hp'; done.
      * done.
      * assert (Htk : ∀ q, content w q = (if decide (q = p) then m :: rest else []) ++ content w2 q).
        { intros q. rewrite Hcq, Hc12. by case_decide. }
        destruct r as [m'|].
        -- destruct Hr' as (p' & Hp' & Hpa & Hmo & _ & Hcont). exists p'. split_and!; [done..|congruence|].
           intros q. cbn [taken]. rewrite Htk, Hcont, <- (assoc_L app). done.
        -- destruct Hr' as (_ & Hmo & Hcont & Hact). split_and!; [done..| |].
           ++ intros q. cbn [taken]. rewrite Htk, Hcont, <- (assoc_L app). done.
           ++ intros q Hq. cbn in Hact. assert (Hempty : content w2 q = [] → content w' q = []).
              { intros He. rewrite Hcont in He. by apply app_eq_nil in He as [_ ?]. }
              destruct (Hs1 q Hq) as [Hq1|Hq1].
              ** destruct (Hs2 q Hq1) as [Hq2|Hq2]; auto.
              ** apply Hempty. rewrite Hc12 in Hq1. by apply app_eq_nil in Hq1 as [_ ?].
  - destruct Hr as (He & Hc & Hm & Hm1). exists None, f1, w1, []. split_and!; try done.
    + constructor.
    + intros q. by rewrite Hc.
Qed.

(** *** Writing upstream *)

Lemma fq_inv_content f w w' : Fq.inv is_more f w → (∀ q, content w' q = content w q) → Fq.inv is_more f w'.
Proof.
  intros [Hok Ha Hc Hw Hm] He. split; try done.
  - intros p Hp. rewrite He. auto.
  - intros Hmt. destruct (Hm Hmt) as (p & ? & ? & Hne). exists p. by rewrite He.
Qed.

Lemma dist_write_content p m d w b d' w' q :
  Dist.write is_more p m d w = Some (b, d', w') → content w' q = content w q.
Proof.
  unfold Dist.write. intros Hs. pose proof (out_write_content p m w q) as Hc. destruct (out_write p m w) as [[] w1]; cbn [snd] in Hc.
  - simplify_eq. destruct (is_more m); [done|]. by rewrite out_flush_content.
  - destruct (index p (Dist.pipes d)); [|done]. cbn [mbind option_bind] in Hs.
    destruct (swap _ _ (Dist.pipes d)); [|done]. cbn [mbind option_bind] in Hs.
    destruct (index p _); [|done]. cbn [mbind option_bind] in Hs.
    destruct (swap _ _ _); [|done]. cbn [mbind option_bind] in Hs.
    destruct (swap _ _ _); [|done]. cbn [mbind option_bind] in Hs. by simplify_eq.
Qed.

Lemma dist_loop_content n : ∀ m i k d w r d' w' q,
  Dist.dist_loop is_more n m i k d w = Some (r, d', w') → content w' q = content w q.
Proof.
  induction n as [|n IH]; intros m i k d w r d' w' q Hs; [done|]. cbn [Dist.dist_loop] in Hs.
  case_decide; [|by simplify_eq]. destruct (at_ _ _) as [p|]; [|done]. cbn [mbind option_bind] in Hs.
  destruct (Dist.write is_more p m d w) as [[[b d1] w1]|] eqn:Hw; [|done]. cbn [mbind option_bind] in Hs.
  rewrite <- (dist_write_content _ _ _ _ _ _ _ q Hw). destruct b; by eapply IH.
Qed.

Lemma send_to_all_content m d w r d' w' q :
  Dist.send_to_all is_more is_vsm m d w = Some (r, d', w') → content w' q = content w q.
Proof.
  unfold Dist.send_to_all, Dist.send_to_matching, Dist.distribute. intros Hs.
  destruct (decide _); [by cbn in Hs; simplify_eq|]. destruct (is_vsm m).
  - destruct (Dist.dist_loop _ _ _ _ _ _ _) as [[[k d1] w1]|] eqn:Hl; [|done]. cbn [mbind option_bind] in Hs. simplify_eq.
    by eapply dist_loop_content.
  - destruct (Dist.dist_loop _ _ _ _ _ _ _) as [[[k d1] w1]|] eqn:Hl; [|done]. cbn [mbind option_bind] in Hs. simplify_eq.
    by eapply dist_loop_content.
Qed.

(** A pipe that can be written for the next message, and one that always can. *)
Definition open (x : xsub) (q : Z) : Prop := within (Dist.pipes (dist x)) (Dist.eligible (dist x)) q.
Definition accepts (q : Z) : Prop := ∀ m w, (out_write q m w).1 = true.

Lemma inv_update x w g x' w' g' :
  inv x w g → fq x' = fq x → has_message x' = has_message x → message x' = message x → more x' = more x →
  (∀ q, content w' q = content w q) → (∃ gd, Dist.inv is_more (dist x') w' gd) → Dist.more (dist x') = false →
  (∀ q, q ∈ items (Dist.pipes (dist x')) ↔ q ∈ items (Dist.pipes (dist x))) →
  represents (subscriptions x') (g_subs g') → (∀ p, refs (subscriptions x') p ≤ g_count g') →
  (∀ k, is_Some (g_subs g' !! k) → bytes_ok k) → inv x' w' g'.
Proof.
  intros [Hfq _ _ _ _ Hp Hb Hme Hmo _] E1 E2 E3 E4 Hc Hd Hi Hel Hs Hn Hk. split; rewrite ?E1, ?E2, ?E3, ?E4; try done.
  - by eapply fq_inv_content.
  - intros q. by rewrite Hel.
  - intros q Hq. unfold bytes_in. rewrite Hc. by apply Hb.
Qed.

Lemma send_to_all_ok m x w g : inv x w g → is_more m = false →
  ∃ x' w', send_to_all is_vsm m x w = Some (RcOk, x', w') ∧ inv x' w' g ∧
    (∀ q, content w' q = content w q) ∧
    ∀ q, open x q → accepts q → open x' q ∧ written w' q = written w q ++ [m].
Proof.
  intros H Hm. destruct (u_dist _ _ _ H) as [gd Hd]. unfold send_to_all.
  destruct (Dist.send_to_matching_inv is_more is_vsm m _ w gd (Dist.all_inv is_more _ w gd Hd ltac:(by rewrite (u_idle _ _ _ H))))
    as (d' & w' & Heq & Hd' & Hel & Hyes & Hno & Hli & Href).
  fold (Dist.send_to_all is_more is_vsm m (dist x) w) in Heq. rewrite Heq. cbn [mbind option_bind].
  pose proof (λ q, send_to_all_content _ _ _ _ _ _ q Heq) as Hc.
  assert (Hidle : Dist.active (dist x) = Dist.eligible (dist x)).
  { apply (Dist.sh_idle _ (Dist.i_shape _ _ _ _ Hd)). apply (u_idle _ _ _ H). }
  assert (Hmo : Dist.more d' = is_more m).
  { unfold Dist.send_to_all, Dist.send_to_matching in Heq. destruct (Dist.distribute _ _ _ _ _) as [[[r d] w0]|]; [|done].
    cbn [mbind option_bind] in Heq. by simplify_eq. }
  do 2 eexists. split; [done|]. split_and!; [|done|].
  - eapply inv_update; [exact H|done..|by eexists|cbn; congruence|exact Hel|apply H|apply H|apply H].
  - intros q Hq Hacc. unfold open in *. cbn [set_dist dist Dist.pipes Dist.eligible Dist.matching] in *. rewrite Hidle in Hyes, Href, Hli.
    assert (Hmt : within (Dist.pipes d') (Dist.matching d') q).
    { destruct (decide (q ∈ Dist.receivers d')) as [Hr|Hr]; rewrite Dist.receivers_matches in Hr; [done|].
      destruct (Href q Hq Hr) as [w1 Hw1]. by rewrite Hacc in Hw1. }
    split; [by apply Hli|]. by apply Hyes.
Qed.

(** What [xsend] takes a message for. *)
Definition says (m : part) : option event :=
  if is_subscribe m then k ← command_body m; Some (Subscribe k)
  else match p_data m with
       | 1 :: k => Some (Subscribe k)
       | _ =>
           if is_cancel m then k ← command_body m; Some (Cancel k)
           else match p_data m with 0 :: k => Some (Cancel k) | _ => Some User end
       end.

(** What the message does to the subscriptions, and whether it goes upstream. *)
Definition event_ghost (e : event) (g : ghost) : ghost :=
  match e with
  | Subscribe k => Gh (mset_step (g_subs g) (OpAdd k)).2 (g_count g + 1)
  | Cancel k => Gh (mset_step (g_subs g) (OpRm k)).2 (g_count g)
  | User => g
  end.
Definition forwards (e : event) (g : ghost) : bool :=
  match e with Cancel k => (mset_step (g_subs g) (OpRm k)).1 | _ => true end.

Lemma says_xsend m x w e : says m = Some e →
  xsend is_vsm m x w =
  match e with
  | Subscribe k => '(_, t) ← Trie.add (subscriptions x) k; send_to_all is_vsm m (set_subscriptions t x) w
  | Cancel k =>
      '(last, t) ← Trie.rm (subscriptions x) k;
      if (last : bool) then send_to_all is_vsm m (set_subscriptions t x) w else Some (RcOk, set_subscriptions t x, w)
  | User => send_to_all is_vsm m x w
  end.
Proof.
  unfold says, xsend. destruct (is_subscribe m); cbn [orb].
  { destruct (command_body m) as [k|]; [|done]. by intros [= <-]. }
  destruct (p_data m) as [|b k]; cbn [head tail].
  { rewrite bool_decide_eq_false_2 by done. destruct (is_cancel m); cbn [orb].
    - destruct (command_body m) as [k|]; [|done]. by intros [= <-].
    - rewrite bool_decide_eq_false_2 by done. by intros [= <-]. }
  destruct (decide (b = 1)) as [->|H1]; [rewrite bool_decide_eq_true_2 by done; by intros [= <-]|].
  rewrite bool_decide_eq_false_2 by congruence.
  assert (Hb : ∀ (A B : option event), match b with 1 => A | _ => B end = B) by (intros A B; destruct b as [|[]|]; done).
  rewrite Hb. destruct (is_cancel m); cbn [orb].
  { destruct (command_body m) as [k'|]; [|done]. by intros [= <-]. }
  destruct (decide (b = 0)) as [->|H0]; [rewrite bool_decide_eq_true_2 by done; by intros [= <-]|].
  rewrite bool_decide_eq_false_2 by congruence. destruct b; by intros [= <-].
Qed.

Lemma inv_subscriptions x w g t g' :
  inv x w g → represents t (g_subs g') → (∀ p, refs t p ≤ g_count g') →
  (∀ k, is_Some (g_subs g' !! k) → bytes_ok k) → inv (set_subscriptions t x) w g'.
Proof. intros H Hs Hn Hk. eapply inv_update; [exact H|done..|apply H|apply H|done|done|done|done]. Qed.

Lemma event_keys e g : bytes_ok (event_key e) → (∀ k, is_Some (g_subs g !! k) → bytes_ok k) →
  ∀ k, is_Some (g_subs (event_ghost e g) !! k) → bytes_ok k.
Proof.
  intros Hb Hk k. destruct e as [key|key|]; cbn [event_ghost g_subs mset_step event_key snd] in *; [| |apply Hk].
  - rewrite lookup_insert. case_decide; [by subst|apply Hk].
  - destruct (g_subs g !! key) as [c|]; [|apply Hk]. destruct (c =? 1); cbn [snd].
    + rewrite lookup_delete. case_decide; [by intros [? ?]|apply Hk].
    + rewrite lookup_insert. case_decide; [by subst|apply Hk].
Qed.

Lemma xsub_xsend_ok m e x w g :
  inv x w g → is_more m = false → says m = Some e → bytes_ok (event_key e) → g_count g < 2 ^ 32 - 1 →
  ∃ x' w', xsend is_vsm m x w = Some (RcOk, x', w') ∧ inv x' w' (event_ghost e g) ∧ (∀ q, content w' q = content w q) ∧
    ∀ q, open x q → accepts q → open x' q ∧ written w' q = written w q ++ (if forwards e g then [m] else []).
Proof.
  intros H Hm He Hb Hn. rewrite (says_xsend _ _ _ _ He).
  assert (Hlt : ∀ p, refs (subscriptions x) p < 2 ^ 32 - 1) by (intros p; pose proof (u_count _ _ _ H p); lia).
  destruct e as [k|k|]; cbn [event_key] in Hb.
  - destruct (trie_step_refines _ _ (OpAdd k) (u_subs _ _ _ H) Hb Hlt) as (t & Ht & Hrep & Hle).
    cbn [trie_step] in Ht. rewrite Ht. cbn [mbind option_bind].
    apply (send_to_all_ok m (set_subscriptions t x) w (event_ghost (Subscribe k) g)); [|done].
    apply (inv_subscriptions _ _ g); [done|exact Hrep| |by apply (event_keys (Subscribe k)), H].
    intros p. specialize (Hle p). pose proof (u_count _ _ _ H p). cbn. lia.
  - destruct (trie_step_refines _ _ (OpRm k) (u_subs _ _ _ H) Hb Hlt) as (t & Ht & Hrep & _).
    cbn [trie_step] in Ht. rewrite Ht. cbn [mbind option_bind].
    assert (H1 : inv (set_subscriptions t x) w (event_ghost (Cancel k) g)).
    { apply (inv_subscriptions _ _ g); [done|exact Hrep| |by apply (event_keys (Cancel k)), H]. intros p. cbn [event_ghost g_count].
      destruct (rm_spec _ k (proj1 (u_subs _ _ _ H)) Hb) as (t' & Ht' & _ & Hq). rewrite Ht in Ht'. simplify_eq.
      rewrite Hq. pose proof (u_count _ _ _ H p). pose proof (represents_bounded _ _ p (u_subs _ _ _ H)). case_decide; [subst|]; lia. }
    cbn [forwards]. destruct (mset_step (g_subs g) (OpRm k)).1.
    + by apply (send_to_all_ok m (set_subscriptions t x) w _ H1).
    + do 2 eexists. split; [done|]. split; [done|]. split; [done|]. intros q Hq _. split; [done|]. by rewrite app_nil_r.
  - by apply send_to_all_ok.
Qed.

(** *** Pipes come and go *)

Definition sub_msg (k : list Z) : part := Part (sub_blob true k) 0 None.

Lemma send_loop_ok p calls : ∀ w, ∃ ms,
  (∀ q, content (foldl (λ w key, send_subscription key p w) w calls) q = content w q) ∧
  (∀ q, written (foldl (λ w key, send_subscription key p w) w calls) q = if decide (q = p) then written w q ++ ms else written w q) ∧
  (accepts p → ms = sub_msg <$> calls).
Proof.
  induction calls as [|k calls IH]; intros w; cbn [foldl].
  - exists []. split_and!; [done| |done]. intros q. rewrite app_nil_r. by case_decide.
  - destruct (IH (send_subscription k p w)) as (ms & Hc & Hw & Hacc).
    exists ((if (out_write p (sub_msg k) w).1 then [sub_msg k] else []) ++ ms).
    assert (Hs : ∀ q, written (send_subscription k p w) q =
      if decide (q = p) then written w q ++ (if (out_write p (sub_msg k) w).1 then [sub_msg k] else []) else written w q).
    { intros q. unfold send_subscription. fold (sub_msg k). rewrite out_write_written. case_decide.
      - rewrite bool_decide_eq_true_2, andb_true_r by done. destruct (out_write p (sub_msg k) w).1; [done|]. by rewrite app_nil_r.
      - by rewrite bool_decide_eq_false_2, andb_false_r by done. }
    split_and!.
    + intros q. rewrite Hc. apply out_write_content.
    + intros q. rewrite Hw, Hs. case_decide; [|done]. by rewrite (assoc_L app).
    + intros Ha. by rewrite (Ha (sub_msg k) w), Hacc.
Qed.

Lemma send_subscriptions_ok p x w g : represents (subscriptions x) (g_subs g) →
  ∃ calls w' ms, (∀ k, k ∈ calls ↔ is_Some (g_subs g !! k)) ∧ send_subscriptions p x w = Some w' ∧
    (∀ q, content w' q = content w q) ∧
    (∀ q, written w' q = if decide (q = p) then written w q ++ ms else written w q) ∧ (accepts p → ms = sub_msg <$> calls).
Proof.
  intros (Hwf & Hrefs & Hpos). destruct (apply_helper_spec _ Hwf []) as (calls & Heq & Hen).
  unfold send_subscriptions, Trie.apply. rewrite Heq. cbn [mbind option_bind].
  destruct (send_loop_ok p (app [] <$> calls) w) as (ms & Hc & Hw & Hacc). do 3 eexists. split; [|split; [done|split_and!; [| |done]]].
  - intros k. assert ((app [] <$> calls) = calls) as -> by apply list_fmap_id. rewrite (proj2 Hen k), Hrefs. specialize (Hpos k).
    destruct (g_subs g !! k) as [n|]; cbn; [|split; [lia|by intros [? ?]]]. specialize (Hpos n eq_refl). split; [by eexists|lia].
  - intros q. by rewrite out_flush_content.
  - intros q. by rewrite out_flush_written.
Qed.

(** The cached subscriptions sent to an attached pipe. *)
Lemma xhiccuped_ok p x w g : inv x w g → p ∈ items (Dist.pipes (dist x)) →
  ∃ calls w' ms, xhiccuped p x w = Some w' ∧ inv x w' g ∧ (∀ k, k ∈ calls ↔ is_Some (g_subs g !! k)) ∧
    (∀ q, content w' q = content w q) ∧
    (∀ q, written w' q = if decide (q = p) then written w q ++ ms else written w q) ∧ (accepts p → ms = sub_msg <$> calls).
Proof.
  intros H Hp. destruct (send_subscriptions_ok p x w g (u_subs _ _ _ H)) as (calls & w' & ms & Hcalls & Heq & Hc & Hw & Hacc).
  exists calls, w', ms. split_and!; try done. destruct (u_dist _ _ _ H) as [gd Hd].
  eapply inv_update; [exact H|done..| |apply H|done|apply H|apply H|apply H].
  eexists. apply (Dist.dist_extra _ _ w _ gd p ms Hd); [|done]. unfold Dist.partly. rewrite decide_False; [done|].
  rewrite (u_idle _ _ _ H). by intros [? _].
Qed.

Lemma xattach_ok p x w g :
  inv x w g → p ∉ items (Dist.pipes (dist x)) → written w p = [] → whole is_more (content w p) → bytes_in w p →
  ∃ calls x' w' ms, xattach_pipe p x w = Some (x', w') ∧ inv x' w' g ∧ (∀ k, k ∈ calls ↔ is_Some (g_subs g !! k)) ∧
    subscriptions x' = subscriptions x ∧ open x' p ∧ (∀ q, content w' q = content w q) ∧
    (∀ q, written w' q = if decide (q = p) then ms else written w q) ∧ (accepts p → ms = sub_msg <$> calls).
Proof.
  intros H Hp Hwp Hwh Hb. destruct (u_dist _ _ _ H) as [gd Hgd]. pose proof (u_pipes _ _ _ H) as Hpipes.
  destruct (Fq.fq_attach_inv is_more p (fq x) w (u_fq _ _ _ H)) as (f & Hf & Hfi & Hfm & Hfel & _); [by rewrite Hpipes|done|].
  destruct (Dist.dist_purge _ p _ _ _ Hgd Hp) as (Hgd' & Hdel & _).
  destruct (Dist.dist_attach_inv _ p _ _ _ Hgd' Hp Hwp Hdel) as (d & Hatd & Hd & Hel & _).
  destruct (Dist.attach_frame _ p _ _ _ d Hgd' Hp Hatd) as (Hdm & Hdmo & Hdel').
  unfold xattach_pipe. rewrite Hf. cbn [mbind option_bind]. rewrite Hatd. cbn [mbind option_bind].
  set (x1 := set_dist d (set_fq f x)).
  assert (H1 : inv x1 w g).
  { destruct H as [_ _ Hi Hs Hn _ Hby Hme Hmo Hky]. split; cbn [x1 set_dist set_fq fq dist subscriptions has_message message more]; try done.
    - by eexists.
    - congruence.
    - intros q. by rewrite Hfel, Hdel', Hpipes.
    - intros q [->|Hq]%Hfel; [done|]. by apply Hby.
    - by rewrite Hfm. }
  destruct (xhiccuped_ok p x1 w g H1) as (calls & w' & ms & Heq & H' & Hcalls & Hc & Hw & Hacc).
  { cbn. apply Hdel'. by left. }
  unfold xhiccuped in Heq. rewrite Heq. cbn [mbind option_bind]. exists calls, x1, w', ms. split_and!; try done.
  intros q. rewrite Hw. case_decide; [|done]. subst. by rewrite Hwp.
Qed.

Lemma xread_activated_ok p k x w g :
  inv x w g → items (Fq.pipes (fq x)) !! k = Some p → (Fq.active (fq x) ≤ k)%nat →
  ∃ x', xread_activated p x = Some x' ∧ inv x' w g ∧ Fq.is_active (fq x') p.
Proof.
  intros H Hk Hge. destruct (Fq.fq_activated_inv is_more p k (fq x) w (u_fq _ _ _ H) Hk Hge) as (f & Hf & Hfi & Hfm & Hel & _ & Hact).
  unfold xread_activated. rewrite Hf. cbn [mbind option_bind]. eexists. split; [done|]. split; [|done].
  destruct H as [_ Hd Hi Hs Hn Hp Hb Hme Hmo Hky]. split; cbn [set_fq fq dist subscriptions has_message message more]; try done.
  - intros q. by rewrite Hel.
  - intros q Hq%Hel. by apply Hb.
  - by rewrite Hfm.
Qed.

Lemma xwrite_activated_ok p k x w g :
  inv x w g → items (Dist.pipes (dist x)) !! k = Some p → (Dist.eligible (dist x) ≤ k)%nat →
  ∃ x', xwrite_activated p x = Some x' ∧ inv x' w g ∧ open x' p.
Proof.
  intros H Hk Hge. destruct (u_dist _ _ _ H) as [gd Hgd].
  destruct (Dist.dist_activated_inv _ p k _ w gd Hgd Hk Hge) as (d & Ha & Hd & Hel & _).
  destruct (Dist.activated_frame _ p _ w gd d Hgd Ha) as (Hdm & Hdmo & Hdel).
  unfold xwrite_activated. rewrite Ha. cbn [mbind option_bind]. eexists. split; [done|]. split; [|done].
  eapply inv_update; [exact H|done..|by eexists|cbn; rewrite Hdmo; apply H|exact Hdel|apply H|apply H|apply H].
Qed.

Lemma xpipe_terminated_ok p k k' x w g :
  inv x w g → Fq.can_terminate (fq x) p k → items (Dist.pipes (dist x)) !! k' = Some p →
  ∃ x', xpipe_terminated p x = Some x' ∧ inv x' w g ∧
    ∀ q, q ∈ items (Fq.pipes (fq x')) ↔ q ∈ items (Fq.pipes (fq x)) ∧ q ≠ p.
Proof.
  intros H Hcan Hk. destruct (u_dist _ _ _ H) as [gd Hgd].
  destruct (Fq.fq_terminated_inv is_more p k (fq x) w (u_fq _ _ _ H) Hcan) as (f & Hf & Hfi & Hfm & Hfel & _).
  destruct (Dist.dist_terminated_inv _ p k' _ w gd Hgd Hk) as (d & Hterm & Hd & Hel & _).
  destruct (Dist.terminated_frame p _ d Hterm) as [Hdm Hdmo].
  unfold xpipe_terminated. rewrite Hf. cbn [mbind option_bind]. rewrite Hterm. cbn [mbind option_bind].
  eexists. split; [done|]. split; [|done].
  destruct H as [_ _ Hi Hs Hn Hp Hb Hme Hmo Hky]. split; cbn [set_dist set_fq fq dist subscriptions has_message message more]; try done.
  - by eexists.
  - congruence.
  - intros q. by rewrite Hfel, Hel, Hp.
  - intros q [Hq _]%Hfel. by apply Hb.
  - by rewrite Hfm.
Qed.

(** *** Receiving *)

(** The state after the fair queue was read. *)
Lemma inv_received x w g f' w' b m mo :
  inv x w g → Fq.inv is_more f' w' → (∀ q, q ∈ items (Fq.pipes f') ↔ q ∈ items (Fq.pipes (fq x))) →
  (∀ q, written w' q = written w q) → (∀ q, ∃ l, content w q = l ++ content w' q) →
  (b = true → mo = false) → Fq.more f' = (if b then is_more m else mo) →
  inv (set_more mo (set_message b m (set_fq f' x))) w' g.
Proof.
  intros [_ [gd Hd] Hi Hs Hn Hp Hb _ _ Hky] Hf Hit Hw Hc Hbm Hmo. split; try done.
  - exists gd. by eapply Dist.dist_inv_written.
  - intros q. cbn. by rewrite Hit.
  - intros q Hq%Hit%Hb. unfold bytes_in in *. destruct (Hc q) as [l Hl]. rewrite Hl in Hq. by apply Forall_app in Hq as [_ ?].
Qed.

Definition pipes_of (x : xsub) : list Z := items (Fq.pipes (fq x)).

(** What [xrecv] owes: the message kept by [xhas_in]; in the middle of a message
    the next part of it; between messages the first one that the filter lets
    through, the ones before it consumed whole; or EAGAIN, everything active
    being consumed. *)
Definition received (x : xsub) (S : gmap (list Z) Z) (w w' : W) (om : option part) : Prop :=
  match om with
  | Some m =>
      if has_message x then m = message x ∧ w' = w
      else ∃ p sk, unwanted S sk ∧
        (if more x then sk = [] ∧ items (Fq.pipes (fq x)) !! Fq.current (fq x) = Some p else passes S (p_data m)) ∧
        ∀ q, content w q = taken q sk ++ (if decide (q = p) then [m] else []) ++ content w' q
  | None =>
      has_message x = false ∧ more x = false ∧ ∃ sk, unwanted S sk ∧ (∀ q, content w q = taken q sk ++ content w' q) ∧
        ∀ q, Fq.is_active (fq x) q → content w' q = []
  end.

Lemma xsub_xrecv_ok fuel x w g : inv x w g → (avail w (pipes_of x) < fuel)%nat →
  ∃ om x' w', xrecv filter invert_matching fuel x w = Some (match om with Some _ => RcOk | None => RcErr EAGAIN end, om, x', w') ∧
    inv x' w' g ∧ received x (g_subs g) w w' om ∧ has_message x' = false ∧
    (∀ m, om = Some m → more x' = is_more m) ∧ ∀ q, written w' q = written w q.
Proof.
  intros H Hf. unfold xrecv, received. destruct (has_message x) eqn:Hhm.
  - exists (Some (message x)). do 2 eexists. split; [done|]. split_and!; try done; [|by intros m [= <-]].
    assert (Hx : set_more (is_more (message x)) (set_message false empty_msg x) =
      set_more (is_more (message x)) (set_message false empty_msg (set_fq (fq x) x))) by (by destruct x).
    rewrite Hx. pose proof (u_more _ _ _ H) as Hmo. rewrite Hhm in Hmo.
    eapply inv_received; [exact H|apply H|done|done|by exists []|done|done].
  - pose proof (u_more _ _ _ H) as Hmo. rewrite Hhm in Hmo.
    destruct (xsub_recv_loop_spec (more x) (g_subs g) (pipes_of x) fuel x w) as (r & f' & w' & sk & -> & Hf' & Hit & Hw & Hun & Hsk & Hr).
    { apply H. } { by rewrite Hmo. } { apply H. } { apply H. } { apply (ok_nodup _ (Fq.i_ok _ _ _ (u_fq _ _ _ H))). } { done. } { done. }
    cbn [mbind option_bind]. destruct r as [m|].
    + destruct Hr as (p & Hp & Hpass & Hm' & Hcur & Hcont). exists (Some m). do 2 eexists. split; [done|]. split_and!; try done.
      * replace (set_more (is_more m) (set_fq f' x)) with (set_more (is_more m) (set_message false (message x) (set_fq f' x)))
          by (destruct x; cbn in *; by subst).
        eapply inv_received; [exact H|done..| |done|done]. intros q. eexists. by rewrite (Hcont q), (assoc_L app).
      * exists p, sk. split_and!; [done| |done]. destruct (more x); [split; [auto|by apply Hcur]|auto].
      * by intros m' [= <-].
    + destruct Hr as (Hm0 & Hm' & Hcont & Hact). exists None. do 2 eexists. split; [done|]. split_and!; try done.
      * replace (set_fq f' x) with (set_more (more x) (set_message false (message x) (set_fq f' x)))
          by (destruct x; cbn in *; by subst).
        eapply inv_received; [exact H|done..| |done|congruence]. intros q. by eexists.
      * congruence.
      * by exists sk.
Qed.

(** [xhas_in] keeps the message it found, which the next [xrecv] returns. *)
Lemma xhas_in_ok fuel x w g : inv x w g → (avail w (pipes_of x) < fuel)%nat →
  ∃ b x' w', xhas_in filter invert_matching fuel x w = Some (b, x', w') ∧ inv x' w' g ∧
    (∀ q, written w' q = written w q) ∧
    if more x || has_message x then b = true ∧ x' = x ∧ w' = w
    else ∃ om, received x (g_subs g) w w' om ∧ b = bool_decide (is_Some om) ∧ has_message x' = b ∧ ∀ m, om = Some m → message x' = m.
Proof.
  intros H Hf. unfold xhas_in, received. destruct (more x) eqn:Hmx; cbn [orb]; [by exists true, x, w|].
  destruct (has_message x) eqn:Hhm; [by exists true, x, w|].
  pose proof (u_more _ _ _ H) as Hmo. rewrite Hhm, Hmx in Hmo.
  destruct (xsub_recv_loop_spec false (g_subs g) (pipes_of x) fuel x w) as (r & f' & w' & sk & -> & Hf' & Hit & Hw & Hun & Hsk & Hr).
  { apply H. } { by rewrite Hmo. } { apply H. } { apply H. } { apply (ok_nodup _ (Fq.i_ok _ _ _ (u_fq _ _ _ H))). } { done. } { done. }
  cbn [mbind option_bind]. destruct r as [m|].
  - destruct Hr as (p & Hp & Hpass & Hm' & Hcur & Hcont). do 3 eexists. split; [done|]. split_and!; try done.
    + replace (set_message true m (set_fq f' x)) with (set_more false (set_message true m (set_fq f' x)))
        by (destruct x; cbn in *; by subst).
      eapply inv_received; [exact H|done..| |done|done]. intros q. eexists. by rewrite (Hcont q), (assoc_L app).
    + exists (Some m). split_and!; [|done|done|by intros m' [= <-]]. exists p, sk. split_and!; auto.
  - destruct Hr as (Hm0 & Hm' & Hcont & Hact). do 3 eexists. split; [done|]. split_and!; try done.
    + replace (set_message false empty_msg (set_fq f' x)) with (set_more false (set_message false empty_msg (set_fq f' x)))
        by (destruct x; cbn in *; by subst).
      eapply inv_received; [exact H|done..| |done|done]. intros q. by eexists.
    + exists None. split_and!; try done. by exists sk.
Qed.

(** ** All the behaviours

    A step of the socket, which sends single-part messages upstream, or of its
    peers, which write whole messages. *)
Inductive step : xsub * W * ghost → xsub * W * ghost → Prop :=
| s_attach x w g p x' w' :
    p ∉ items (Dist.pipes (dist x)) → written w p = [] → whole is_more (content w p) → bytes_in w p →
    xattach_pipe p x w = Some (x', w') → step (x, w, g) (x', w', g)
| s_read x w g p k x' :
    items (Fq.pipes (fq x)) !! k = Some p → (Fq.active (fq x) ≤ k)%nat → xread_activated p x = Some x' →
    step (x, w, g) (x', w, g)
| s_write x w g p k x' :
    items (Dist.pipes (dist x)) !! k = Some p → (Dist.eligible (dist x) ≤ k)%nat → xwrite_activated p x = Some x' →
    step (x, w, g) (x', w, g)
| s_terminated x w g p k k' x' :
    Fq.can_terminate (fq x) p k → items (Dist.pipes (dist x)) !! k' = Some p → xpipe_terminated p x = Some x' →
    step (x, w, g) (x', w, g)
| s_hiccuped x w g p w' :
    p ∈ items (Dist.pipes (dist x)) → xhiccuped p x w = Some w' → step (x, w, g) (x, w', g)
| s_send x w g m e r x' w' :
    is_more m = false → says m = Some e → bytes_ok (event_key e) → g_count g < 2 ^ 32 - 1 →
    xsend is_vsm m x w = Some (r, x', w') → step (x, w, g) (x', w', event_ghost e g)
| s_recv x w g fuel r om x' w' :
    (avail w (pipes_of x) < fuel)%nat → xrecv filter invert_matching fuel x w = Some (r, om, x', w') →
    step (x, w, g) (x', w', g)
| s_has_in x w g fuel b x' w' :
    (avail w (pipes_of x) < fuel)%nat → xhas_in filter invert_matching fuel x w = Some (b, x', w') →
    step (x, w, g) (x', w', g)
| s_arrive x w g w' :
    (∀ q, written w' q = written w q) →
    (∀ q, ∃ l, content w' q = content w q ++ l ∧ whole is_more l ∧ Forall (λ m, bytes_ok (p_data m)) l) →
    step (x, w, g) (x, w', g).

Definition reachable (w0 : W) (st : xsub * W * ghost) : Prop := rtc step (xsub_new, w0, ghost_new) st.

Lemma xsub_step_inv x w g x' w' g' : inv x w g → step (x, w, g) (x', w', g') → inv x' w' g'.
Proof.
  intros H Hs. inversion Hs; subst; clear Hs.
  - destruct (xattach_ok p x w g' H) as (cs & x1 & w1 & ms & Heq & Hn & _); [done..|]. by simplify_eq.
  - destruct (xread_activated_ok p k x w' g' H) as (x1 & Heq & Hn & _); [done..|]. by simplify_eq.
  - destruct (xwrite_activated_ok p k x w' g' H) as (x1 & Heq & Hn & _); [done..|]. by simplify_eq.
  - destruct (xpipe_terminated_ok p k k' x w' g' H) as (x1 & Heq & Hn & _); [done..|]. by simplify_eq.
  - destruct (xhiccuped_ok p x' w g' H) as (cs & w1 & ms & Heq & Hn & _); [done..|]. by simplify_eq.
  - destruct (xsub_xsend_ok m e x w g H) as (x1 & w1 & Heq & Hn & _); [done..|]. by simplify_eq.
  - destruct (xsub_xrecv_ok fuel x w g' H) as (om1 & x1 & w1 & Heq & Hn & _); [done..|]. by simplify_eq.
  - destruct (xhas_in_ok fuel x w g' H) as (b1 & x1 & w1 & Heq & Hn & _); [done..|]. by simplify_eq.
  - match goal with Hl : ∀ q, ∃ l, _ |- _ => rename Hl into Harr end.
    destruct H as [Hfq [gd Hd] Hi Hsb Hn Hp Hb Hme Hmo Hky]. split; try done.
    + eapply fq_inv_arrive; [done|]. intros q _. destruct (Harr q) as (l & Hl & Hwh & _). by exists l.
    + exists gd. by eapply Dist.dist_inv_written.
    + intros q Hq%Hb. unfold bytes_in in *. destruct (Harr q) as (l & -> & _ & Hbl). by apply Forall_app.
Qed.

Lemma xsub_reachable_inv w0 x w g : reachable w0 (x, w, g) → inv x w g.
Proof.
  intros Hr. refine (rtc_ind_r (λ st, inv st.1.1 st.1.2 st.2) _ _ _ _ Hr).
  - apply xsub_inv_new.
  - intros [[x1 w1] g1] [[x2 w2] g2] _ Hs H1. by eapply xsub_step_inv.
Qed.

(** C20. A SUB or XSUB socket delivers the matching messages and only those: in
    every run, with enough fuel for the parts that wait, [xrecv] returns; it
    returns the next part of the message being read, or the first part of the
    first message one of whose prefixes is subscribed to (with [invert_matching],
    of which none is), or EAGAIN when no active pipe has one; the messages it
    passes over are consumed whole and do not match.  [xhas_in] returns
    whether there is such a part, and keeps it for the next [xrecv]. *)
Theorem xsub_receives w0 x w g fuel : reachable w0 (x, w, g) → (avail w (pipes_of x) < fuel)%nat →
  ∃ om x' w', xrecv filter invert_matching fuel x w = Some (match om with Some _ => RcOk | None => RcErr EAGAIN end, om, x', w') ∧
    received x (g_subs g) w w' om ∧
    ∃ x2 w2, xhas_in filter invert_matching fuel x w = Some (bool_decide (is_Some om), x2, w2) ∧
      ∀ m, om = Some m → ∃ x3 w3, xrecv filter invert_matching fuel x2 w2 = Some (RcOk, Some m, x3, w3).
Proof.
  intros Hr Hf. pose proof (xsub_reachable_inv _ _ _ _ Hr) as H.
  destruct (xsub_xrecv_ok fuel x w g H Hf) as (om & x' & w' & Heq & _ & Hrec & _). exists om, x', w'. split_and!; [done..|].
  destruct (xhas_in_ok fuel x w g H Hf) as (b & x2 & w2 & Heq2 & _ & _ & Hb). exists x2, w2. rewrite Heq2.
  destruct (more x || has_message x) eqn:Hmh.
  - destruct Hb as (-> & -> & ->). assert (Hs : is_Some om).
    { destruct om; [done|]. destruct Hrec as (Hh & Hm & _). by rewrite Hh, Hm in Hmh. }
    rewrite bool_decide_eq_true_2 by done. split; [done|]. intros m ->. by exists x', w'.
  - apply orb_false_iff in Hmh as [Hmx Hhm]. destruct Hb as (om2 & _ & -> & Hh2 & Hmsg).
    assert (om2 = om) as ->.
    { unfold xrecv in Heq. unfold xhas_in in Heq2. rewrite Hhm, Hmx in Heq. rewrite Hmx, Hhm in Heq2.
      destruct (recv_loop filter invert_matching fuel false x w) as [[[r y] wy]|]; [|done]. cbn [mbind option_bind] in *.
      destruct r as [m|]; simplify_eq.
      - destruct om2 as [m2|]; [|done]. f_equal. symmetry. by apply Hmsg.
      - by destruct om2. }
    split; [done|]. intros m ->. unfold xrecv. rewrite Hh2. cbn. rewrite (Hmsg m eq_refl). by do 2 eexists.
Qed.

(** No operation of the subscriber aborts. *)
Lemma xsub_safe w0 x w g : reachable w0 (x, w, g) →
  (∀ p, p ∉ items (Dist.pipes (dist x)) → written w p = [] → whole is_more (content w p) → bytes_in w p →
     is_Some (xattach_pipe p x w)) ∧
  (∀ p, p ∈ items (Dist.pipes (dist x)) → is_Some (xhiccuped p x w)) ∧
  (∀ k p, items (Fq.pipes (fq x)) !! k = Some p → (Fq.active (fq x) ≤ k)%nat → is_Some (xread_activated p x)) ∧
  (∀ k p, items (Dist.pipes (dist x)) !! k = Some p → (Dist.eligible (dist x) ≤ k)%nat → is_Some (xwrite_activated p x)) ∧
  (∀ k k' p, Fq.can_terminate (fq x) p k → items (Dist.pipes (dist x)) !! k' = Some p → is_Some (xpipe_terminated p x)) ∧
  (∀ m e, is_more m = false → says m = Some e → bytes_ok (event_key e) → g_count g < 2 ^ 32 - 1 → is_Some (xsend is_vsm m x w)).
Proof.
  intros Hr. pose proof (xsub_reachable_inv _ _ _ _ Hr) as H. split_and!.
  - intros p Hp Hw Hwh Hb. destruct (xattach_ok p x w g H) as (cs & x1 & w1 & ms & Heq & _); eauto.
  - intros p Hp. destruct (xhiccuped_ok p x w g H Hp) as (cs & w1 & ms & Heq & _). eauto.
  - intros k p Hk Hge. destruct (xread_activated_ok p k x w g H Hk Hge) as (x1 & Heq & _). eauto.
  - intros k p Hk Hge. destruct (xwrite_activated_ok p k x w g H Hk Hge) as (x1 & Heq & _). eauto.
  - intros k k' p Hc Hk. destruct (xpipe_terminated_ok p k k' x w g H Hc Hk) as (x1 & Heq & _). eauto.
  - intros m e Hm He Hb Hn. destruct (xsub_xsend_ok m e x w g H Hm He Hb Hn) as (x1 & w1 & Heq & _). eauto.
Qed.
End correct.

(** * A run on pipes that are lists (see [Duo]): subscribe to "A", attach two
    publishers, receive. *)

Definition world : Type := Duo.duo (M := part).
#[local] Instance world_in : InPipes part world := Duo.duo_in.
#[local] Instance world_out : OutPipes part world := Duo.duo_out is_more.
#[local] Instance world_in_laws : InPipesLaws part world := Duo.duo_in_laws.
#[local] Instance world_out_laws : OutPipesLaws part world is_more := Duo.duo_out_laws is_more.
#[local] Instance world_duplex : DuplexPipes part world is_more := Duo.duo_duplex is_more.

Definition ex_world : world :=
  Duo.Two (λ p, if p =? 1 then [Part [66] 1 None; Part [65] 0 None; Part [67] 0 None]
                else if p =? 2 then [Part [65; 66] 0 None] else []) (λ _, []).
Definition ex_request : part := Part [1; 65] 0 None.
Definition ex_send (st : xsub * world) : xsub * world :=
  match xsend (λ _, true) ex_request st.1 st.2 with Some (_, x, w) => (x, w) | None => st end.
Definition ex_attach (p : Z) (st : xsub * world) : xsub * world := default st (xattach_pipe p st.1 st.2).
Definition ex_st1 : xsub * world := ex_send (xsub_new, ex_world).
Definition ex_st2 : xsub * world := ex_attach 1 ex_st1.
Definition ex_st3 : xsub * world := ex_attach 2 ex_st2.
Definition ex_gh : ghost := event_ghost (Subscribe [65]) ghost_new.

Lemma ex_bytes l : Forall (λ m, bool_decide (Forall (λ b, byte_ok b) (p_data m)) = true) l → Forall (λ m, bytes_ok (p_data m)) l.
Proof. intros H. eapply Forall_impl; [exact H|]. intros m. apply bool_decide_eq_true. Qed.

Lemma xsub_ex_reachable : reachable true false (λ _, true) ex_world (ex_st3.1, ex_st3.2, ex_gh).
Proof.
  eapply rtc_l; [|eapply rtc_l; [|eapply rtc_l; [|apply rtc_refl]]].
  - apply (s_send _ _ _ xsub_new ex_world ghost_new ex_request (Subscribe [65]) RcOk ex_st1.1 ex_st1.2); try done.
    + repeat constructor; unfold byte_ok; lia.
  - apply (s_attach _ _ _ ex_st1.1 ex_st1.2 _ 1 ex_st2.1 ex_st2.2); try done.
    + assert (items (Dist.pipes (dist ex_st1.1)) = []) as -> by (vm_compute; reflexivity). set_solver.
    + intros m Hm. vm_compute in Hm. by injection Hm as <-.
    + apply ex_bytes. repeat constructor.
  - apply (s_attach _ _ _ ex_st2.1 ex_st2.2 _ 2 ex_st3.1 ex_st3.2); try done.
    + assert (items (Dist.pipes (dist ex_st2.1)) = [1]) as -> by (vm_compute; reflexivity). set_solver.
    + intros m Hm. vm_compute in Hm. by injection Hm as <-.
    + apply ex_bytes. repeat constructor.
Qed.

Lemma xsub_receives_witness :
  reachable true false (λ _, true) ex_world (ex_st3.1, ex_st3.2, ex_gh) ∧
  ∃ om x' w', xrecv true false 10 ex_st3.1 ex_st3.2 = Some (match om with Some _ => RcOk | None => RcErr EAGAIN end, om, x', w') ∧
    received true false ex_st3.1 (g_subs ex_gh) ex_st3.2 w' om.
Proof.
  destruct (xsub_receives true false (λ _, true) ex_world ex_st3.1 ex_st3.2 ex_gh 10 xsub_ex_reachable ltac:(vm_compute; lia))
    as (om & x' & w' & Heq & Hr & _).
  exact (conj xsub_ex_reachable (ex_intro _ om (ex_intro _ x' (ex_intro _ w' (conj Heq Hr))))).
Defined.

(** The two-part message "B" of pipe 1 and then "C" are passed over. *)
Definition ex_received : option (option (list Z)) :=
  '(_, om, _, _) ← xrecv true false 10 ex_st3.1 ex_st3.2; Some (option_map p_data om).

Lemma ex_receives : ex_received = Some (Some [65; 66]).
Proof. vm_compute. reflexivity. Qed.
End XSub.
