(* ===== verification/PubSub.v ===== *)
(** * A subscriber and its publisher

    The composition of [XSub] and [XPub]: what a subscriber writes to a pipe is
    what the publisher at its other end reads.  The subscriber keeps a multiset
    of keys and forwards every subscription but only the last cancel of a key;
    the publisher keeps, for each pipe, a set of keys.  The theorem: both ends
    always agree on the messages that match. *)

From S2P Require Import Prelude ByteTable Msg Trie MTrie Array PipeIface SubMsg Fq Dist XPub XSub.
Import Array SubMsg.

Module PubSub.

(** A request of the user of a SUB socket: subscribe or unsubscribe. *)
Definition request : Type := bool * list Z.

Definition request_event (o : request) : event := if o.1 then Subscribe o.2 else Cancel o.2.
Definition request_msg (o : request) : part := Part (sub_blob o.1 o.2) 0 None.

(** [zmq_setsockopt] with [ZMQ_SUBSCRIBE] or [ZMQ_UNSUBSCRIBE], once per request. *)
Fixpoint set_options {W : Type} `{!InPipes part W} `{!OutPipes part W} (is_vsm : part → bool) (ops : list request)
    (x : XSub.xsub) (w : W) : option (XSub.xsub * W) :=
  match ops with
  | [] => Some (x, w)
  | o :: ops =>
      '(r, x, w) ← XSub.sub_xsetsockopt is_vsm (if o.1 then XSub.ZMQ_SUBSCRIBE else XSub.ZMQ_UNSUBSCRIBE) o.2 x w;
      _ ← zmq_assert (bool_decide (r = RcOk));
      set_options is_vsm ops x w
  end.

(** ** The subscriber's multiset and the publisher's set *)

(** The publisher's subscriptions of the pipe [q] are the subscriber's keys. *)
Definition agree (S : gmap (list Z) Z) (P : gset (list Z * Z)) (q : Z) : Prop :=
  ∀ k, (k, q) ∈ P ↔ is_Some (S !! k).

Lemma agree_request S n P q o : agree S P q →
  let g := XSub.Gh S n in
  agree (XSub.g_subs (XSub.event_ghost (request_event o) g))
        (if XSub.forwards (request_event o) g then XPub.event_subs q (request_event o) P else P) q.
Proof.
  intros H g k. destruct o as [[] key]; cbn [request_event fst snd XSub.event_ghost XSub.g_subs XSub.forwards g mset_step XPub.event_subs].
  - rewrite lookup_insert, elem_of_union, elem_of_singleton, (H k). case_decide as Hk.
    + subst. split; [by eexists|by left].
    + split; [intros [?|?]; congruence|by right].
  - pose proof (H k) as Hk. destruct (S !! key) as [c|] eqn:Hc; [|done]. destruct (c =? 1); cbn [fst snd].
    + rewrite elem_of_difference, elem_of_singleton, Hk, lookup_delete. case_decide as Hd.
      * subst. split; [by intros [_ ?]|by intros [? ?]].
      * split; [by intros [? _]|]. intros ?. split; [done|congruence].
    + rewrite Hk, lookup_insert. case_decide as Hd; [|done]. subst. rewrite Hc. by split; eexists.
Qed.

Lemma meaning_request o : meaning (request_msg o) = Some (request_event o) ∧ XSub.says (request_msg o) = Some (request_event o).
Proof. by destruct o as [[] k]. Qed.

(** ** What the publisher learns *)

Abbreviation learnt vs vu q ms P := (XPub.learn vs vu q ms P).1.1.

Lemma learnt_cons vs vu q m e ms P : meaning m = Some e →
  learnt vs vu q (m :: ms) P = learnt vs vu q ms (XPub.event_subs q e P).
Proof. intros He. cbn [XPub.learn]. rewrite He. by destruct (XPub.learn vs vu q ms _) as [[? ?] ?]. Qed.

Lemma learnt_app vs vu q ms1 ms2 P : learnt vs vu q (ms1 ++ ms2) P = learnt vs vu q ms2 (learnt vs vu q ms1 P).
Proof.
  revert P. induction ms1 as [|m ms1 IH]; intros P; [done|]. cbn [app]. destruct (meaning m) as [e|] eqn:He.
  - by rewrite !(learnt_cons _ _ _ _ _ _ _ He).
  - cbn [XPub.learn]. by rewrite He.
Qed.

Lemma learnt_subs vs vu q calls P k p :
  (k, p) ∈ learnt vs vu q (XSub.sub_msg <$> calls) P ↔ (k, p) ∈ P ∨ (p = q ∧ k ∈ calls).
Proof.
  revert P. induction calls as [|c calls IH]; intros P; cbn [fmap list_fmap].
  - cbn. rewrite elem_of_nil. tauto.
  - rewrite (learnt_cons _ _ _ _ (Subscribe c)) by done. rewrite IH. cbn [XPub.event_subs].
    rewrite elem_of_union, elem_of_singleton, elem_of_cons. naive_solver.
Qed.

Section agree.
Context {W : Type} `{!InPipes part W} `{!OutPipes part W} `{!InPipesLaws part W} `{!OutPipesLaws part W is_more}.
Context `{!DuplexPipes part W is_more}.
(** The publisher's side may have other pipes. *)
Context {V : Type} `{!InPipes part V} `{!OutPipes part V} `{!InPipesLaws part V} `{!OutPipesLaws part V is_more}.
Context `{!DuplexPipes part V is_more}.
Context (filter invert_matching : bool) (is_vsm : part → bool).

Lemma set_options_ok p q vs vu ops : ∀ x (w : W) g P,
  XSub.inv x w g → XSub.open x p → XSub.accepts (W := W) p → Forall (λ o, bytes_ok o.2) ops →
  XSub.g_count g + Z.of_nat (length ops) < 2 ^ 32 → agree (XSub.g_subs g) P q →
  ∃ x' w' g' ms, set_options is_vsm ops x w = Some (x', w') ∧ XSub.inv x' w' g' ∧ written w' p = written w p ++ ms ∧
    Forall upstream_ok ms ∧ agree (XSub.g_subs g') (learnt vs vu q ms P) q.
Proof.
  induction ops as [|o ops IH]; intros x w g P H Ho Hacc Hb Hn Ha.
  - exists x, w, g, []. by rewrite app_nil_r.
  - apply Forall_cons in Hb as [Hb Hbs]. cbn [length] in Hn. destruct (meaning_request o) as [Hmean Hsays].
    assert (Hkey : event_key (request_event o) = o.2) by (by destruct o as [[] k]).
    assert (Hm : is_more (request_msg o) = false) by done.
    destruct (XSub.xsub_xsend_ok is_vsm (request_msg o) _ x w g H Hm Hsays) as (x1 & w1 & Heq & H1 & _ & Hw); [by rewrite Hkey|lia|].
    destruct (Hw p Ho Hacc) as [Ho1 Hw1]. cbn [set_options].
    assert (Hopt : XSub.sub_xsetsockopt is_vsm (if o.1 then XSub.ZMQ_SUBSCRIBE else XSub.ZMQ_UNSUBSCRIBE) o.2 x w = Some (RcOk, x1, w1)).
    { rewrite <- Heq. by destruct o as [[] k]. }
    rewrite Hopt. cbn [mbind option_bind]. rewrite bool_decide_eq_true_2 by done. cbn [zmq_assert mbind option_bind].
    set (fw := XSub.forwards (request_event o) g) in *.
    destruct (IH x1 w1 _ (if fw then XPub.event_subs q (request_event o) P else P) H1 Ho1 Hacc Hbs) as (x' & w' & g' & ms & -> & H' & Hw' & Hok & Ha').
    { destruct o as [[] k]; cbn [request_event fst XSub.event_ghost XSub.g_count]; lia. }
    { destruct g as [S n]. by apply agree_request. }
    exists x', w', g', ((if fw then [request_msg o] else []) ++ ms). split_and!; [done..| | |].
    + by rewrite Hw', Hw1, (assoc_L app).
    + apply Forall_app. split; [|done]. destruct fw; [|done]. constructor; [|done]. exists (request_event o). by rewrite Hkey.
    + destruct fw; [|done]. cbn [app]. by rewrite (learnt_cons _ _ _ _ _ _ _ Hmean).
Qed.

(** C4. Publisher and subscriber agree on what matches, as long as no subscription
    is dropped: a subscriber drops a subscription that a pipe at its high-water
    mark refuses (xsub.cpp says so), and then they do not agree.  Take a SUB
    socket after any run (with fewer than 2^32 subscriptions and requests in
    all), connect a new pipe [p] that is never full and issue any requests; then
    let a publisher, after any run of its own without the manual mode in which
    its other peers' messages are well formed, attach the other end [q], which
    accepts the welcome message, and read what was written to [p].  For every
    message, the subscriber's filter finds a subscribed prefix exactly when the
    publisher's trie finds [q]: the messages sent upstream (every subscription,
    but only the last cancel of a key, and the cached subscriptions for a late
    pipe) carry the multiset of the subscriber to the set of the publisher. *)
Theorem pubsub_agree (w0 : W) x (w : W) g p ops type inv_pub (v0 : V) y (v : V) gp q fuel :
  XSub.reachable filter invert_matching is_vsm w0 (x, w, g) →
  p ∉ items (Dist.pipes (XSub.dist x)) → written w p = [] → content w p = [] → XSub.accepts (W := W) p →
  Forall (λ o, bytes_ok o.2) ops → XSub.g_count g + Z.of_nat (length ops) < 2 ^ 32 →
  XPub.reachable type inv_pub is_vsm v0 (y, v, gp) → q ∉ items (Dist.pipes (XPub.dist y)) → written v q = [] →
  (∀ m, (out_write q m v).1 = true) →
  ∃ x1 w1 x2 w2, XSub.xattach_pipe p x w = Some (x1, w1) ∧ set_options is_vsm ops x1 w1 = Some (x2, w2) ∧
    (content v q = written w2 p → (length (content v q) < fuel)%nat →
     ∃ y' v', XPub.xattach_pipe type fuel q false y v = Some (y', v') ∧
       ∀ data, bytes_ok data → ∃ b l, Trie.check (XSub.subscriptions x2) data = Some b ∧
         MTrie.mmatch (XPub.subscriptions y') data = Some l ∧ (b = true ↔ q ∈ l)).
Proof.
  intros Hrs Hp Hwp Hcp Hacc Hb Hn Hrp Hq Hvq Hout.
  pose proof (XSub.xsub_reachable_inv _ _ _ _ _ _ _ Hrs) as H. pose proof (XPub.xpub_reachable_inv _ _ _ _ _ _ _ Hrp) as HP.
  destruct (XSub.xattach_ok p x w g H Hp Hwp) as (calls & x1 & w1 & ms1 & Hat & H1 & Hcalls & _ & Ho1 & _ & Hw1 & Hms1).
  { rewrite Hcp. apply whole_nil. } { unfold XSub.bytes_in. by rewrite Hcp. }
  specialize (Hms1 Hacc). specialize (Hw1 p). rewrite decide_True in Hw1 by done.
  assert (Hnone : ∀ k, (k, q) ∉ XPub.g_subs gp) by (intros k Hk; by apply Hq, (XPub.v_attached _ _ _ _ HP k q)).
  set (vs := XPub.verbose_subs y). set (vu := XPub.verbose_unsubs y).
  destruct (set_options_ok p q vs vu ops x1 w1 g (learnt vs vu q ms1 (XPub.g_subs gp)) H1 Ho1 Hacc Hb Hn)
    as (x2 & w2 & g2 & ms2 & Hset & H2 & Hw2 & Hok2 & Ha2).
  { intros k. rewrite Hms1, learnt_subs, <- Hcalls. naive_solver. }
  exists x1, w1, x2, w2. split_and!; [done..|]. intros Hc Hf.
  assert (Hok : Forall upstream_ok (content v q)).
  { rewrite Hc, Hw2, Hw1. apply Forall_app. split; [|done]. rewrite Hms1. apply Forall_fmap, Forall_forall. intros k Hk.
    exists (Subscribe k). split; [done|]. by apply (XSub.u_keys _ _ _ H), Hcalls. }
  destruct (XPub.xattach_inv type is_vsm q false fuel y v gp HP Hq Hvq Hf Hok Hout) as (y' & v' & Hy & HP' & _).
  exists y', v'. split; [done|]. intros data Hd.
  assert (Hsubs : XPub.g_subs (XPub.attach_ghost vs vu q false (content v q) gp) = learnt vs vu q (content v q) (XPub.g_subs gp)).
  { unfold XPub.attach_ghost, XPub.read_ghost.
    destruct (XPub.learn vs vu q (content v q) (XPub.g_subs gp)) as [[P' ex] qu] eqn:Hl. done. }
  destruct (XPub.match_subs _ _ data (XPub.v_subs _ _ _ _ HP') Hd) as (l & Hl & Hlq). fold vs vu in Hlq. rewrite Hsubs in Hlq.
  destruct (XSub.u_subs _ _ _ H2) as (Hwf & Hrefs & Hpos). destruct (check_spec _ _ Hwf Hd) as (b & Hck & Hiff).
  exists b, l. split_and!; [done..|]. rewrite Hiff, Hlq. unfold XPub.wants. rewrite Hc, Hw2, learnt_app, Hw1.
  split; intros (k & Hk & Hin); exists k; (split; [done|]).
  - apply Ha2. rewrite Hrefs in Hin. destruct (XSub.g_subs g2 !! k); [by eexists|cbn in Hin; lia].
  - apply Ha2 in Hin as [c Hkc]. rewrite Hrefs, Hkc. cbn. by eapply Hpos.
Qed.
End agree.

(** ** Witness: subscribe to "A" twice, cancel it once, subscribe to "B". *)

Definition world : Type := Duo.duo (M := part).
#[local] Instance world_in : InPipes part world := Duo.duo_in.
#[local] Instance world_out : OutPipes part world := Duo.duo_out is_more.
#[local] Instance world_in_laws : InPipesLaws part world := Duo.duo_in_laws.
#[local] Instance world_out_laws : OutPipesLaws part world is_more := Duo.duo_out_laws is_more.
#[local] Instance world_duplex : DuplexPipes part world is_more := Duo.duo_duplex is_more.

Definition ex_ops : list request := [(true, [65]); (true, [65]); (false, [65]); (true, [66])].
Definition ex_quiet : world := Duo.Two (λ _, []) (λ _, []).
Definition ex_peer : world :=
  Duo.Two (λ q, if q =? 1 then [request_msg (true, [65]); request_msg (true, [65]); request_msg (true, [66])] else []) (λ _, []).
Definition ex_run : option (XSub.xsub * world) :=
  '(x, w) ← XSub.xattach_pipe 1 XSub.xsub_new ex_quiet; set_options (λ _, true) ex_ops x w.

Lemma ex_run_written : option_map (λ st, written st.2 1) ex_run = Some (content ex_peer 1).
Proof. vm_compute. reflexivity. Qed.

Lemma ex_unwritten : written ex_quiet 1 = [].
Proof. done. Qed.
Lemma ex_unread : content ex_quiet 1 = [].
Proof. done. Qed.
Lemma ex_peer_unwritten : written ex_peer 1 = [].
Proof. done. Qed.
Lemma ex_peer_accepts m : (out_write 1 m ex_peer).1 = true.
Proof. done. Qed.
Lemma ex_peer_fuel : (length (content ex_peer 1) < 10)%nat.
Proof. cbn. lia. Qed.
Lemma ex_data_ok : Forall byte_ok [65; 67].
Proof. repeat constructor; unfold byte_ok; lia. Qed.
Lemma ex_accepts : XSub.accepts (W := world) 1.
Proof. by intros m w. Qed.

Lemma ex_ops_ok : Forall (λ o, bytes_ok o.2) ex_ops.
Proof. repeat constructor; unfold byte_ok; cbn; lia. Qed.

Lemma pubsub_agree_witness :
  XSub.reachable true false (λ _, true) ex_quiet (XSub.xsub_new, ex_quiet, XSub.ghost_new) ∧
  ∃ x2 w2 y' v', ex_run = Some (x2, w2) ∧ XPub.xattach_pipe XPub.ZMQ_XPUB 10 1 false XPub.xpub_new ex_peer = Some (y', v') ∧
    ∃ b l, Trie.check (XSub.subscriptions x2) [65; 67] = Some b ∧
      MTrie.mmatch (XPub.subscriptions y') [65; 67] = Some l ∧ (b = true ↔ 1 ∈ l).
Proof.
  destruct (pubsub_agree true false (λ _, true) ex_quiet XSub.xsub_new ex_quiet XSub.ghost_new 1 ex_ops
    XPub.ZMQ_XPUB false ex_peer XPub.xpub_new ex_peer XPub.ghost_new 1 10 (rtc_refl _ _) (not_elem_of_nil 1) ex_unwritten ex_unread
    ex_accepts ex_ops_ok ltac:(vm_compute; reflexivity) (rtc_refl _ _) (not_elem_of_nil 1) ex_peer_unwritten ex_peer_accepts)
    as (x1 & w1 & x2 & w2 & Hat & Hset & Hpub).
  assert (Hrun : ex_run = Some (x2, w2)) by (unfold ex_run; rewrite Hat; exact Hset).
  assert (Hw : content ex_peer 1 = written w2 1).
  { pose proof ex_run_written as He. rewrite Hrun in He. cbn [option_map snd] in He. symmetry. congruence. }
  destruct (Hpub Hw ex_peer_fuel) as (y' & v' & Hy & Hd).
  split; [apply rtc_refl|]. exists x2, w2, y', v'. split; [exact Hrun|]. split; [exact Hy|].
  apply Hd. apply ex_data_ok.
Defined.
End PubSub.
